(* ===== verification/_CoqProject ===== *)
-Q . S2P
Prelude.v
JsString.v
KeyedLock.v
Counting.v
StopMarks.v
WriteScope.v
WaId.v
ChatScope.v
LidStore.v
IpAddr.v
SsrfGuard.v
ApiKeys.v
Json.v
ApiKeyGuard.v
UsageTracker.v
Filters.v
MutationGuard.v
SendPacing.v
SendPacingTrace.v
Idempotency.v
Template.v
RateLimit.v
BodyBudget.v
Limiter.v
Reconnect.v
Hooks.v
Prog.v
Webhooks.v
WebhookDurable.v
Ownership.v
Leases.v
Base64.v
PluginStorage.v
Csv.v
Paging.v
Owned.v
BulkContent.v
Bulk.v
BulkRun.v
BulkSafe.v
IngressAuth.v
Ingress.v
IngressDurable.v
IngressDoor.v
PluginWorker.v
PluginWorkerSafe.v
SessionEngine.v
SessionVerbs.v
SessionEngineLaws.v
SessionEngineSafe.v
SessionEngineTasks.v
SessionEngineRuns.v
MessageTable.v
InFlight.v
MessageWriters.v
MessageSends.v
MessageSafe.v
MessageRuns.v
Admission.v
AdmissionQueues.v
AdmissionEntries.v
AdmissionRooms.v
AdmissionRuns.v
AdmissionDrain.v
