(* ===== verification/Prelude.v ===== *)
(** * OpenWA: a verification development

    OpenWA is a self-hosted WhatsApp gateway: a NestJS server that runs WhatsApp
    sessions behind a REST and WebSocket API, fans their events out to webhooks and
    lets plugins intervene.  This library models the parts of the server
    ([src/src/]) in which its own decisions are made: who may do what, which
    addresses it may connect to, which ids name the same person, what may be sent
    and how often, and the accounting that keeps it within its bounds.

    ** The parts and how they interact

    A request arrives at the request guard ([ApiKeyGuard]).  Its credential is
    looked up in the key table ([ApiKeys]), its client address resolved through the
    trusted proxies ([IpAddr]), its session, role and chats checked; the chats
    through the chat fence ([ChatScope]), which asks the lid store ([LidStore])
    which ids name one contact ([WaId]).  A body is admitted by the in-flight
    budget ([BodyBudget]) before it is read.  A send passes the idempotency claim
    ([Idempotency]), the pacing governor ([SendPacing], [SendPacingTrace]) and the
    plugins' sending gate ([Hooks]); its text may be a rendered template
    ([Template]).  Inbound changes are judged by the mutation guard
    ([MutationGuard]) and fanned out to webhooks by their filters ([Filters]);
    each delivery is opened in the outbox, posted directly or through the queue,
    and replayed by the reconciler or the operator until it is settled
    ([Webhooks], [WebhookDurable]).  Whatever URL the server fetches, it fetches
    through the outbound guard ([SsrfGuard]).  A batch of messages is a row that
    the process which created it runs item by item, through the same pacing and
    gate ([BulkContent], [Bulk], [BulkRun], [BulkSafe]).  A provider's delivery to a
    plugin is verified ([IngressAuth]), recorded, queued or dispatched, and replayed
    until its plugin took it or its dead letter waits ([Ingress], [IngressDoor],
    [IngressDurable]); the deliveries of one conversation run in turn
    ([KeyedLock]).  Sessions belong to one node of a
    cluster at a time by leases on their rows ([Ownership], [Leases]);
    on that node its engine is started, stopped, logged out, replaced after a drop and
    deleted by verbs, timers and reports that interleave ([SessionEngine],
    [SessionVerbs]); what writes for a session does so in a scope that its deletion
    closes ([WriteScope]), and a stop leaves marks that a start heeds ([StopMarks]).
    What its engine reports of messages - new ones, echoes of sends, edits, reactions,
    deletions, acks, the synced history - and what the server sends itself meet on the
    rows of one table ([MessageTable], [MessageWriters], [MessageSends]); a change that
    reaches a message before its row is held and written with it ([InFlight]).  A plugin
    runs in a worker, whose messages the host trusts in nothing ([PluginWorker],
    [PluginWorkerSafe]); it keeps its values in files under a quota, and its settings
    in the registry ([PluginStorage]).  Lists leave the server in windows that the dashboard walks
    and exports ([Paging], [Csv]).  Sockets are shaped by the rate limiters
    ([RateLimit]), heavy work by the concurrency limiter ([Limiter]), a dropped
    session by the reconnect policy ([Reconnect]), and the uses of a key are
    counted by [UsageTracker].

    ** The files

    - [Prelude]: results of fallible code and their notation, tactics, the [openwa]
      hint database, lemmas on lists, options and reachability shared by all files.
    - [JsString]: JavaScript strings and insertion-ordered maps ([JMap]).
      [Counting]: sums of a weight over a finite map.  [Json]: parsed JSON values
      and their text.  [Base64]: bytes, base64 and UTF-8.
    - [Prog]: programs with effects ([prog]), pools of them that interleave effect
      by effect and die at any moment ([pool_step]), and the rely-guarantee rule
      their invariants are proved by ([pool_invariant]).  [Owned]: the same rule for
      tasks that own what they created ([owned_invariant]).
    - [WaId]: engine/identity/wa-id.ts ([parseWaId], [toNeutralJid],
      [toParticipantWid], ...) and jid-candidates.ts ([resolveJidCandidates]).
    - [ChatScope]: common/security/chat-scope.ts and modules/auth/
      chat-scope.service.ts, proved against the class [LidDirectory] of what a lid
      table promises; [LidStore]: engine/identity/lid-mapping-store.service.ts, the
      mirror as a [Record] and its reads, which discharges [LidDirectory].
    - [IpAddr]: common/utils/ip.ts on a model of Node's [net.isIP] and [BlockList].
      [SsrfGuard]: common/security/ssrf-guard.ts.
    - [ApiKeys]: modules/auth/auth.service.ts, api-key-authorization.ts and the key
      entity, each SQL statement one step on a shared table; [ApiKeyGuard]:
      guards/api-key.guard.ts and common/security/bearer-token.ts; [UsageTracker]:
      api-key-usage-tracker.service.ts.
    - [Filters]: modules/webhook/filters/.  [MutationGuard]: modules/session/
      message-mutation-guard.ts.  [Reconnect]: modules/session/reconnect-policy.ts.
    - [SendPacing], [SendPacingTrace]: modules/message/send-pacing.service.ts, the
      operations and their interleavings.  [Idempotency]: modules/message/
      idempotency/, the statements of a claim and their interleavings.
    - [Template]: common/utils/template-render.ts.  [RateLimit]: modules/events/
      ws-rate-limit.ts.  [BodyBudget]: config/inflight-body-budget.ts.
      [Limiter]: common/utils/concurrency-limiter.ts.  [Hooks]: core/hooks/.
    - [Webhooks]: modules/webhook/ (the outbox, delivery, reconciler and redrive
      services, utils/, entities/) and modules/queue/processors/
      webhook.processor.ts; the tables and the queue are the [World], a service's
      method is a program of the same name.  [WebhookDurable]: its invariant.
    - [Ownership]: modules/session/session-ownership.service.ts; a [World] of the
      rows and every process's own maps ([Proc]).  [Leases]: its invariants.
    - [SessionEngine], [SessionVerbs]: modules/session/session-engine-lifecycle.service.ts,
      session-engine-controls.ts, session-engine-event-wiring.ts,
      session-lifecycle-fences.ts, session-status-broadcaster.ts and engine/
      engine-registry.service.ts, for one session in one process: the first holds its
      memory ([Local]) and the blocks that do not await, the second the verbs and
      handlers as programs of these blocks.  [SessionEngineLaws]: blocks that change
      nothing another task counts on, and laws of stop marks; [SessionEngineSafe]: the
      invariant and what each kind of block may do to it; [SessionEngineTasks]: that
      every program keeps it; [SessionEngineRuns]: the theorems, and runs that show
      them at work.
    - [WriteScope]: common/utils/session-write-scope.ts; the states, scopes, writes
      and closings of one source object are tables of a [World], every call of the
      code an [Op].  [StopMarks]: the class of modules/session/
      session-engine-controls.ts, against the [Ledger] of all marks.  [KeyedLock]:
      modules/integration/ordering-lock.ts and common/utils/keyed-mutation-queue.ts,
      whose promise chains are one machine.
    - [MessageTable]: the rows (modules/message/entities/message.entity.ts), modules/
      session/message-row.mapper.ts, modules/message/message-metadata.ts and
      message-status.util.ts, and the statements on the table as effects ([eff], [run]).
      [InFlight]: the entry modules/session/message-projector.service.ts keeps of a
      message on its way, what changes do to it and what is written of it.
      [MessageWriters]: message-mutation-projector.ts, message-projector.service.ts and
      message-history-projector.ts, a method a program of the same name.
      [MessageSends]: modules/message/message-send.service.ts ([saveOutgoingMessage],
      [persistSentState], ...), pending-message-reaper.service.ts,
      message-retention.service.ts and modules/chat-media/chat-media-archive.service.ts.
      [MessageSafe]: the invariant of their interleavings and that every program keeps
      it; [MessageRuns]: the theorems, and runs that show them at work.
    - [Admission]: modules/session/inbound-room.ts and, of message-projector.service.ts,
      the class [InboundTurn], [admitInbound] and what the engine's retirement, the
      entries in flight and the chat queues do with its tickets, on top of [KeyedLock]
      and [Limiter]; a callback of the promise queue is a step.  Its invariant comes in
      three parts: [AdmissionQueues] (turns and their calls on the queues),
      [AdmissionEntries] (entries and their holders), [AdmissionRooms] (claims and the
      tasks of a room); [AdmissionRuns] and [AdmissionDrain]: the theorems, and a run
      that shows them at work.
    - [IngressAuth]: modules/integration/ingress-signature.ts, ingress-ack.ts,
      ingress-preflight.ts and the pure parts of ingress.service.ts; [Ingress]: its
      [handle], and the event, enqueue, reconciler, redrive and retention services
      with modules/queue/processors/ingress.processor.ts as programs over the tables
      and the queue; [IngressDurable]: the invariant of their interleavings;
      [IngressDoor]: what one request can do.
    - [PluginStorage]: core/plugins/plugin-storage.service.ts and common/utils/
      path-safety.ts; a [Store] is a plugin's directory and its running total, a
      [Registry] the entries in memory and on disk.
    - [PluginWorker]: core/plugins/sandbox/plugin-worker-host.ts and protocol.ts; one
      event of the host's loop (a request, a worker's message, a timer, the exit) is
      one [step].  [PluginWorkerSafe]: its invariants and what they give.
    - [BulkContent]: the item checks, rendering and stripping of modules/message/
      bulk-message.service.ts, batch-media.util.ts, media-cap.util.ts; [Bulk]: its
      programs on the batch rows; [BulkRun]: the invariant, [BulkSafe]: that the
      programs keep it, and the theorems.
    - [Paging]: common/utils/paginate.ts and the dashboard's fetchAllPages.ts and
      pageWindow.ts.  [Csv]: the dashboard's csv.ts and its use in Logs.tsx.

    An operation is a function from the state it reads to the state it leaves and
    the value or error it returns.  Where the source awaits between two effects,
    they are two steps: of a relation ([idem_step], [budget_step], [step], ...), or
    of a program of [Prog].  Every interleaving of requests is then a run, and a
    theorem about reachable states is a theorem about all of them.  In the pools of
    [Webhooks], [Ownership], [Bulk], [Ingress] and [MessageSafe] every statement may also fail, with or without
    having taken effect, and every task may stop where it stands.

    ** What the theorems show

    - Authorization: the guard admits exactly the requests its contract describes;
      no interleaving of key operations locks the administrators out; revocation is
      final; equal fingerprints authorise alike; the fence and the list filter
      decide by contact and agree with each other; a client cannot choose the
      address it is judged by; usage counts are conserved.
    - Identity: the neutral form is a complete invariant of the entity an id names;
      the store's forward and reverse reads are one relation and its mirror is an
      LRU cache; the mutation guard finds ids different exactly when they are, under
      any spelling.
    - Outbound requests: classification is a function of the address's value, every
      connection of a guarded fetch goes to a vetted address, and redirects neither
      leak credentials nor downgrade the transport.
    - Sending: a keyed send happens at most once per window and a replay is the
      same send's answer; the daily cap holds under concurrency, group adds stay
      within the cold allowance, the breaker refines its streak; the moderation
      gate fails closed and a broken plugin is as if absent; a rendering is one
      pass and its measured length is exact.
    - Webhooks: no delivery is ever lost between the outbox, the queue and the
      failure record, whichever statement fails; every request carries the
      delivery's own key.
    - Provider deliveries: only a verified request of an enabled instance is recorded;
      a signature verifies exactly when it proves what its scheme asks; a delivery id
      is the identity of its delivery and a recorded one changes nothing when it comes
      again; no recorded delivery is lost between the event table, the queue and the
      dead letters.  One run breaks what that leaves to the operator: a sweep can
      close the dead letter its job has just written.
    - Bulk sends: each item is sent at most once and in order, the outcome of a
      batch is final, its counts are truthful, a run that returns ends its batch,
      and a rendering keeps its caps.
    - Sessions: a lease is exclusive while it runs, a start stands on a lease, a
      claim token never revives, a loss is only concluded from the rows, and a
      session whose holder is gone can always be taken over; within a process at most
      one engine of a session runs, it was launched and initialized only while the
      session was neither stopped nor being unlinked nor the process shutting down, a
      retired engine never comes back, and at most one reconnect is armed; a drained session is
      quiet, a closed lifetime never writes again, and the bounded stop marks answer
      as the full ledger does; queued work of one key is serial and never stuck.
    - Stored messages: a deleted message keeps no content and nothing gives it any
      back; a named message keeps its id and its delivery state only advances; an
      engine id names one row of a session and a pending send has none; changes that
      reach a message on its way leave what they would have left on its row, where
      every receipt of the message's own names one form of its chat; a send whose echo came first merges into
      it.  One run shows what the one form of the chat leaves out: a read receipt
      held behind a failure is lost.
    - Inbound admission: the messages of a chat are hooked and committed in the order
      they arrived; the payloads a session holds never outnumber the slots of its room,
      which go in the order of arrival; an entry is found under its id exactly while a
      delivery of it is unfinished; and once nothing more arrives all of it drains in a
      bounded number of callbacks.
    - Plugins: every call the host makes of a worker settles, with its own answer, its
      time limit's or the exit's, and what was answered stands; the capability calls
      of a worker are bounded, answered once, and guarded by exactly the hook
      dispatches they come from; a worker is reported unresponsive once and only
      after a window of silence; storage implements a map, its file names are a bijection, its quota
      holds, and a registry change is stored or refused.
    - Bounds and lists: the body budget's accounts balance and hold; the limiter
      never over-admits; frame rates and handshake windows are enforced; validated
      filters are bounded; the reconnect schedule is the documented one; the page
      walk ends and is complete; an export reads back.

    ** Fuel, bounds and assumptions

    Recursion that is not structural takes fuel that its caller computes from the
    input and that is proved or visibly enough: the placeholder scanner and the
    chunking of lookups take the length of what they consume, LRU eviction the size
    of the map, the classification of embedded IPv4 addresses one level (an
    embedded address is IPv4 and embeds nothing further), the redirect loop the
    hop limit of the source, the page walk one turn per allowed item (each turn but
    the last adds one), the CSV reader one turn per cell.  The retry loop of a
    direct delivery re-reads how many attempts its webhook allows, so it has no
    bound of its own: the theorems hold for every fuel, and out of fuel the task
    stops as one does when its process dies.  The retention hand-off's fuel is the
    number of batches of one run, and the theorem holds for every one.  The claims of
    late hook dispatches are at most 32, as in the source.

    Strings are those of code units below 256 ([JsString] says why that is closed
    under the operations used); IPv6 literals carry no zone id.  Dates are
    milliseconds and one synchronous block reads one instant; the processes of a
    cluster read one clock.  The token bucket counts thousandths of a token exactly
    where the code has doubles; the body budget's share is a fraction.  The URL
    parser, DNS, the network, the database, the queue library, [JSON.stringify] and
    plugin handlers are parameters: the theorems quantify over what they answer,
    and a table is a value its statements change atomically.  A delivery id, a
    random UUID, is taken never to be drawn twice.  An engine answers its
    calls in any way and reports whatever it likes at any moment, a report it makes
    from inside a call coming right after the block that called it; what the theorems
    need of a session's memory but the code does not keep (its [Ghost], the tokens of
    its tasks, the [Moment]s of its engines) decides nothing in it.

    ** What is not modelled

    The engine adapters and their third-party libraries, HTTP and WebSocket
    plumbing, SQL query planning and migrations, object storage and the user
    interface are I/O or glue around the parts above.  Of the lid store the
    serialized write path, of the SSRF guard the DNS deadline and the pinned
    dispatcher, of the auth service first-boot seeding, and of the pacing governor
    the SQL of its counts are left out.  Of the webhooks the fan-out of an event
    over its subscriptions, and the removal of failure rows by retention, by the
    operator and with their session are left out; of the plugins the
    loader, the code inside the worker and the loading of the registry; of the leases a data import that
    rewrites the rows.  The reap of a lapsed node's batches runs in the claim's
    transaction; its statements are steps of their own here.  Of the ingress, the
    administration of instances and their bindings is the environment's; the hash
    that shortens a queue job's id is taken as injective by keeping the id
    structured; the in-memory guards that keep two sweeps, or two redrives of one
    instance, from overlapping are dropped, so that the theorems cover overlaps as
    well; a queue job runs, waits and is pruned at the environment's choice.  Of the
    engine lifecycle the callbacks for messages, receipts, calls, presence, groups,
    polls, restrictions and an engine's own retries, the order of the phone writes,
    the texts that quote a database or the factory, and, in modules/session/
    session.service.ts, the claims and retries around a start are left out.  Of the
    stored messages status and story posts, the hook chain that rewrites a message, the
    resolution of lid senders, quotes, last-active stamps and a data import are left
    out; what is held in flight, whether a session is live and what the lid directory
    answers are the environment's in the pool, while [InFlight] follows one message from
    its first change to its row; the queue that keeps the mutations of one message
    apart is dropped, so that the theorems cover overlaps as well.  Of the admission,
    how an identity comparison ends, when the work on a payload settles, what a commit
    job does and when a waiting caller's timer fires are the environment's, and a
    message delivered without a ticket is on its way from its hand-over. *)
From stdpp Require Export base tactics list gmap strings numbers option sorting.
From Stdlib Require Export ZArith Lia Ascii.

#[global] Arguments String.eqb : simpl never.
#[global] Arguments Ascii.eqb : simpl never.

(** ** Results: the values of fallible code *)

(** A computation that throws is a value of [result E A]: [Ok a] is the value
    returned and [Err e] the exception raised. *)
Inductive result (E A : Type) : Type :=
| Ok (a : A)
| Err (e : E).
Arguments Ok {E A} a.
Arguments Err {E A} e.

Definition result_bind {E A B : Type} (m : result E A) (f : A -> result E B) : result E B :=
  match m with
  | Ok a => f a
  | Err e => Err e
  end.

(** [throw e unless b]: the early return of a guard. *)
Definition guard_err {E : Type} (b : bool) (e : E) : result E unit :=
  if b then Ok tt else Err e.

Declare Scope result_scope.
Delimit Scope result_scope with result.
Notation "'let*' x ':=' m 'in' k" := (result_bind m (fun x => k))
  (at level 10, x name, m at level 100, k at level 200) : result_scope.
Notation "'ensure' b 'else' e ';;' k" := (result_bind (guard_err b e) (fun _ => k))
  (at level 10, b at level 99, e at level 99, k at level 200) : result_scope.

Definition is_ok {E A : Type} (m : result E A) : bool :=
  match m with Ok _ => true | Err _ => false end.

Lemma bind_ok_inv {E A B : Type} (m : result E A) (f : A -> result E B) b :
  result_bind m f = Ok b -> exists a, m = Ok a /\ f a = Ok b.
Proof. destruct m; simpl; [eauto | discriminate]. Qed.

Lemma guard_ok_inv {E B : Type} c (e : E) (k : unit -> result E B) b :
  result_bind (guard_err c e) k = Ok b -> c = true /\ k tt = Ok b.
Proof. destruct c; simpl; [auto | discriminate]. Qed.

Lemma guard_pass {E B : Type} (c : bool) (e : E) (k : unit -> result E B) :
  c = true -> result_bind (guard_err c e) k = k tt.
Proof. by intros ->. Qed.

Lemma guard_fail {E B : Type} (c : bool) (e : E) (k : unit -> result E B) :
  c = false -> result_bind (guard_err c e) k = Err e.
Proof. by intros ->. Qed.

(** ** Ltac of the development *)

(** Case analysis on the innermost stuck [match] of the goal or of [H]. *)
Ltac step_match :=
  match goal with
  | |- context [match ?x with _ => _ end] => destruct x eqn:?
  end.
Ltac step_match_in H :=
  match type of H with
  | context [match ?x with _ => _ end] => destruct x eqn:?
  end.

(** Turn boolean facts in the context and the goal into propositions. *)
Ltac bool_facts :=
  repeat match goal with
  | H : andb _ _ = true |- _ => apply andb_true_iff in H as [? ?]
  | H : orb _ _ = false |- _ => apply orb_false_iff in H as [? ?]
  | H : negb _ = true |- _ => apply negb_true_iff in H
  | H : negb _ = false |- _ => apply negb_false_iff in H
  | H : bool_decide _ = true |- _ => apply bool_decide_eq_true_1 in H
  | H : bool_decide _ = false |- _ => apply bool_decide_eq_false_1 in H
  | H : (_ <? _)%Z = true |- _ => apply Z.ltb_lt in H
  | H : (_ <? _)%Z = false |- _ => apply Z.ltb_ge in H
  | H : (_ <=? _)%Z = true |- _ => apply Z.leb_le in H
  | H : (_ <=? _)%Z = false |- _ => apply Z.leb_gt in H
  | H : (_ =? _)%Z = true |- _ => apply Z.eqb_eq in H
  | H : (_ =? _)%Z = false |- _ => apply Z.eqb_neq in H
  | H : (_ <=? _)%N = true |- _ => apply N.leb_le in H
  | H : (_ <=? _)%N = false |- _ => apply N.leb_gt in H
  | H : (_ =? _)%N = true |- _ => apply N.eqb_eq in H
  | H : (_ =? _)%N = false |- _ => apply N.eqb_neq in H
  | H : (_ =? _)%nat = true |- _ => apply Nat.eqb_eq in H
  | H : (_ =? _)%nat = false |- _ => apply Nat.eqb_neq in H
  | H : (_ <? _)%nat = true |- _ => apply Nat.ltb_lt in H
  | H : (_ <? _)%nat = false |- _ => apply Nat.ltb_ge in H
  | H : (_ <=? _)%nat = true |- _ => apply Nat.leb_le in H
  | H : (_ <=? _)%nat = false |- _ => apply Nat.leb_gt in H
  end.

(** The invariant principle of a step relation. *)
Lemma rtc_invariant {A : Type} (R : A -> A -> Prop) (I : A -> Prop) x y :
  (forall a b, R a b -> I a -> I b) -> rtc R x y -> I x -> I y.
Proof. intros HR Hxy. induction Hxy; eauto. Qed.

(** ** Lists *)

Definition list_max (d : Z) (l : list Z) : Z := fold_left Z.max l d.

Lemma fold_max_ge_init (l : list Z) (d : Z) : (d <= fold_left Z.max l d)%Z.
Proof.
  revert d. induction l as [|x l IH]; intros d; simpl; [lia|].
  specialize (IH (Z.max d x)). lia.
Qed.

Lemma fold_max_ge_elem (l : list Z) (d x : Z) : x ∈ l -> (x <= fold_left Z.max l d)%Z.
Proof.
  revert d. induction l as [|y l IH]; intros d Hx; [by inversion Hx|]; simpl.
  apply elem_of_cons in Hx as [->|Hx]; [|by apply IH].
  pose proof (fold_max_ge_init l (Z.max d y)). lia.
Qed.

Lemma fold_max_case (l : list Z) (d : Z) :
  fold_left Z.max l d = d \/ fold_left Z.max l d ∈ l.
Proof.
  revert d. induction l as [|y l IH]; intros d; simpl; [by left|].
  destruct (IH (Z.max d y)) as [E|E].
  - rewrite E. destruct (Z.max_spec d y) as [[? ->]|[? ->]].
    + right. by left.
    + by left.
  - right. by right.
Qed.

Lemma fold_max_le (l : list Z) (d b : Z) :
  (d <= b)%Z -> Forall (fun x => x <= b)%Z l -> (fold_left Z.max l d <= b)%Z.
Proof.
  intros Hd Hl. destruct (fold_max_case l d) as [->|E]; [done|].
  rewrite Forall_forall in Hl. by apply Hl.
Qed.

Lemma lookup_snoc {A : Type} (l : list A) x i y : (l ++ [x])%list !! i = Some y <-> l !! i = Some y \/ (i = length l /\ y = x).
Proof.
  rewrite lookup_app. destruct (l !! i) as [z|] eqn:E.
  - split; [intros [= ->]; by left|]. intros [[= ->]|[-> ->]]; [done|]. by rewrite lookup_ge_None_2 in E.
  - apply lookup_ge_None in E. rewrite list_lookup_singleton_Some. split; [intros [H ->]; right; split; [lia|done]|]. intros [?|[-> ->]]; [done|]. split; [lia|done].
Qed.

(** ** JavaScript sets

    A [Set] iterates in insertion order and [add] of a member is a no-op, so a
    set is the duplicate-free list of its members in that order. *)
Definition set_add {A : Type} `{EqDecision A} (s : list A) (x : A) : list A :=
  if decide (x ∈ s) then s else s ++ [x].

Definition set_of_list {A : Type} `{EqDecision A} (l : list A) : list A :=
  fold_left set_add l [].

(** [set.add] of each element of [l] in turn. *)
Definition set_add_all {A : Type} `{EqDecision A} (s l : list A) : list A :=
  fold_left set_add l s.

Lemma elem_of_set_add {A : Type} `{EqDecision A} (s : list A) x y :
  y ∈ set_add s x <-> y ∈ s \/ y = x.
Proof. unfold set_add. case_decide; set_solver. Qed.

Lemma elem_of_set_add_all {A : Type} `{EqDecision A} (l s : list A) y :
  y ∈ set_add_all s l <-> y ∈ s \/ y ∈ l.
Proof.
  unfold set_add_all. revert s. induction l as [|x l IH]; intros s; simpl; [set_solver|].
  rewrite IH, elem_of_set_add. set_solver.
Qed.

Lemma elem_of_set_of_list {A : Type} `{EqDecision A} (l : list A) y :
  y ∈ set_of_list l <-> y ∈ l.
Proof. pose proof (elem_of_set_add_all l [] y) as H. set_solver. Qed.

Lemma NoDup_set_add {A : Type} `{EqDecision A} (s : list A) x :
  NoDup s -> NoDup (set_add s x).
Proof.
  intros H. unfold set_add. case_decide; [done|].
  apply NoDup_app. split; [done|]. split; [set_solver|]. apply NoDup_singleton.
Qed.

Lemma NoDup_set_add_all {A : Type} `{EqDecision A} (l s : list A) :
  NoDup s -> NoDup (set_add_all s l).
Proof.
  unfold set_add_all. revert s. induction l as [|x l IH]; intros s H; simpl; [done|].
  apply IH. by apply NoDup_set_add.
Qed.

Lemma NoDup_set_of_list {A : Type} `{EqDecision A} (l : list A) : NoDup (set_of_list l).
Proof. apply NoDup_set_add_all. constructor. Qed.

Lemma set_of_list_nil_inv {A : Type} `{EqDecision A} (l : list A) :
  set_of_list l = [] -> l = [].
Proof.
  intros H. destruct l as [|x l]; [done|].
  assert (x ∈ set_of_list (x :: l)) as Hx by (apply elem_of_set_of_list; set_solver).
  rewrite H in Hx. by inversion Hx.
Qed.

Lemma fold_left_ext' {A B : Type} (f g : A -> B -> A) (l : list B) (a : A) :
  (forall a b, f a b = g a b) -> fold_left f l a = fold_left g l a.
Proof. intros Hfg. revert a. induction l as [|b l IH]; intros a; simpl; [done|]. by rewrite Hfg. Qed.

Lemma elem_of_map {A B : Type} (f : A -> B) (l : list A) y :
  y ∈ map f l <-> exists x, y = f x /\ x ∈ l.
Proof.
  rewrite list_elem_of_In, in_map_iff. setoid_rewrite list_elem_of_In.
  split; intros (x & ? & ?); eauto.
Qed.

Lemma existsb_elem {A : Type} (f : A -> bool) (l : list A) :
  existsb f l = true <-> exists x, x ∈ l /\ f x = true.
Proof.
  rewrite existsb_exists. setoid_rewrite list_elem_of_In. done.
Qed.

Lemma filter_length_le {A} (f g : A -> bool) (l : list A) :
  (forall x, x ∈ l -> f x = true -> g x = true) -> (length (List.filter f l) <= length (List.filter g l))%nat.
Proof.
  induction l as [|y l IH]; intros H; simpl; [lia|].
  assert (length (List.filter f l) <= length (List.filter g l))%nat by (apply IH; intros; apply H; [by right|done]).
  destruct (f y) eqn:Hf; [rewrite (H y) by (done || by left); simpl; lia|]. destruct (g y); simpl; lia.
Qed.

Lemma filter_length_lt {A} (f g : A -> bool) (l : list A) y :
  (forall x, x ∈ l -> f x = true -> g x = true) -> y ∈ l -> f y = false -> g y = true ->
  (length (List.filter f l) < length (List.filter g l))%nat.
Proof.
  intros H Hy Hf Hg. apply list_elem_of_split in Hy as (l1 & l2 & ->).
  rewrite !List.filter_app, !length_app. simpl. rewrite Hf, Hg. simpl.
  pose proof (filter_length_le f g l1 (fun x Hx => H x (proj2 (elem_of_app _ _ _) (or_introl Hx)))).
  pose proof (filter_length_le f g l2 (fun x Hx => H x (proj2 (elem_of_app _ _ _) (or_intror (list_elem_of_further _ _ _ Hx))))). lia.
Qed.

Lemma existsb_false {A : Type} (f : A -> bool) (l : list A) :
  existsb f l = false <-> forall x, x ∈ l -> f x = false.
Proof.
  destruct (existsb f l) eqn:E.
  - split; [done|]. intros H. apply existsb_elem in E as (x & Hx & Hf). by rewrite H in Hf.
  - split; [|done]. intros _ x Hx. destruct (f x) eqn:Hf; [|done].
    assert (existsb f l = true) by (apply existsb_elem; eauto). congruence.
Qed.

Lemma existsb_ext_elem {A : Type} (f g : A -> bool) (l : list A) :
  (forall x, x ∈ l -> f x = g x) -> existsb f l = existsb g l.
Proof.
  induction l as [|x l IH]; intros H; simpl; [done|]. rewrite (H x) by (by left). f_equal. apply IH.
  intros y Hy. apply H. by right.
Qed.

(** ** JavaScript maps

    A [Map] iterates in insertion order: [set] on a present key keeps its
    position, [delete] then [set] moves it to the end (the sources use this for
    recency order).  It is the association list of its entries in that order. *)
Module JMap.
Section JMap.
Context {V : Type}.

Fixpoint get (k : string) (m : list (string * V)) : option V :=
  match m with
  | [] => None
  | (k', v) :: r => if String.eqb k' k then Some v else get k r
  end.

Definition has (k : string) (m : list (string * V)) : bool :=
  match get k m with Some _ => true | None => false end.

Fixpoint set (k : string) (v : V) (m : list (string * V)) : list (string * V) :=
  match m with
  | [] => [(k, v)]
  | (k', v') :: r => if String.eqb k' k then (k, v) :: r else (k', v') :: set k v r
  end.

Definition delete (k : string) (m : list (string * V)) : list (string * V) :=
  List.filter (fun e => negb (String.eqb (fst e) k)) m.

Definition keys (m : list (string * V)) : list string := map fst m.

(** Well-formed: no key twice. *)
Definition wf (m : list (string * V)) : Prop := NoDup (keys m).

Lemma get_set_eq k v m : get k (set k v m) = Some v.
Proof.
  induction m as [|[k' v'] r IH]; simpl; [by rewrite String.eqb_refl|].
  destruct (String.eqb_spec k' k); simpl; [by rewrite String.eqb_refl|].
  by rewrite (proj2 (String.eqb_neq _ _) n).
Qed.

Lemma get_set_ne k k' v m : k <> k' -> get k' (set k v m) = get k' m.
Proof.
  intros Hne. induction m as [|[k0 v0] r IH]; simpl.
  - by rewrite (proj2 (String.eqb_neq _ _) Hne).
  - destruct (String.eqb_spec k0 k) as [->|]; simpl.
    + by rewrite (proj2 (String.eqb_neq _ _) Hne).
    + by destruct (String.eqb k0 k').
Qed.

Lemma get_delete_eq k m : get k (delete k m) = None.
Proof.
  induction m as [|[k0 v0] r IH]; simpl; [done|].
  destruct (String.eqb_spec k0 k) as [->|n]; simpl; [done|].
  by rewrite (proj2 (String.eqb_neq _ _) n).
Qed.

Lemma get_delete_ne k k' m : k <> k' -> get k' (delete k m) = get k' m.
Proof.
  intros Hne. induction m as [|[k0 v0] r IH]; simpl; [done|].
  destruct (String.eqb_spec k0 k) as [->|n]; simpl.
  - by rewrite (proj2 (String.eqb_neq _ _) Hne).
  - by destruct (String.eqb k0 k').
Qed.

Lemma get_Some_elem k v m : get k m = Some v -> (k, v) ∈ m.
Proof.
  induction m as [|[k0 v0] r IH]; simpl; [done|].
  destruct (String.eqb_spec k0 k) as [->|n]; [intros [= ->]; by left|]. intros H. right. auto.
Qed.

Lemma get_None_keys k m : get k m = None <-> k ∉ keys m.
Proof.
  induction m as [|[k0 v0] r IH]; simpl; [set_solver|].
  destruct (String.eqb_spec k0 k) as [->|n]; set_solver.
Qed.

Lemma get_elem_wf k v m : wf m -> (k, v) ∈ m -> get k m = Some v.
Proof.
  unfold wf. induction m as [|[k0 v0] r IH]; simpl; [intros _ H; by inversion H|].
  intros Hnd Hin. apply NoDup_cons in Hnd as [Hni Hnd].
  apply elem_of_cons in Hin as [[= -> ->]|Hin]; [by rewrite String.eqb_refl|].
  destruct (String.eqb_spec k0 k) as [->|n]; [|by apply IH].
  exfalso. apply Hni. apply elem_of_map. by exists (k, v).
Qed.

Lemma keys_set_elem k v m x : x ∈ keys (set k v m) <-> x = k \/ x ∈ keys m.
Proof.
  induction m as [|[k0 v0] r IH]; simpl; [set_solver|].
  destruct (String.eqb_spec k0 k) as [->|n]; simpl; set_solver.
Qed.

Lemma keys_delete_elem k m x : x ∈ keys (delete k m) <-> x ∈ keys m /\ x <> k.
Proof.
  induction m as [|[k0 v0] r IH]; simpl; [set_solver|].
  destruct (String.eqb_spec k0 k) as [->|n]; simpl; set_solver.
Qed.

Lemma wf_set k v m : wf m -> wf (set k v m).
Proof.
  unfold wf. induction m as [|[k0 v0] r IH]; simpl; intros H; [apply NoDup_singleton|].
  apply NoDup_cons in H as [Hn Hd].
  destruct (String.eqb_spec k0 k) as [->|n]; simpl; apply NoDup_cons; [done|].
  split; [|auto]. rewrite keys_set_elem. intros [->|?]; done.
Qed.

Lemma wf_delete k m : wf m -> wf (delete k m).
Proof.
  unfold wf. induction m as [|[k0 v0] r IH]; simpl; intros H; [done|].
  apply NoDup_cons in H as [Hn Hd].
  destruct (String.eqb_spec k0 k) as [->|n]; simpl; [auto|]. apply NoDup_cons.
  split; [|auto]. rewrite keys_delete_elem. tauto.
Qed.

Lemma wf_tail e m : wf (e :: m) -> wf m.
Proof. unfold wf. simpl. intros H. by apply NoDup_cons in H as [_ ?]. Qed.

Lemma length_delete_le k m : (length (delete k m) <= length m)%nat.
Proof.
  unfold delete. induction m as [|[k0 v0] r IH]; simpl; [lia|].
  destruct (negb _); simpl; lia.
Qed.

Lemma length_delete_lt k v m : get k m = Some v -> (length (delete k m) < length m)%nat.
Proof.
  induction m as [|[k0 v0] r IH]; simpl; [done|].
  destruct (String.eqb_spec k0 k) as [->|n]; simpl; [pose proof (length_delete_le k r); lia|].
  intros H. specialize (IH H). lia.
Qed.

Lemma delete_absent k m : k ∉ keys m -> delete k m = m.
Proof.
  induction m as [|[k0 v0] r IH]; simpl; [done|]. intros H.
  destruct (String.eqb_spec k0 k) as [->|n]; [set_solver|]. simpl. f_equal. apply IH. set_solver.
Qed.

Lemma delete_head k v m : wf ((k, v) :: m) -> delete k ((k, v) :: m) = m.
Proof.
  unfold wf. simpl. intros H. apply NoDup_cons in H as [Hn _].
  rewrite String.eqb_refl. simpl. by apply delete_absent.
Qed.

Lemma set_absent k v m : k ∉ keys m -> set k v m = m ++ [(k, v)].
Proof.
  induction m as [|[k0 v0] r IH]; simpl; [done|]. intros H.
  destruct (String.eqb_spec k0 k) as [->|n]; [set_solver|]. f_equal. apply IH. set_solver.
Qed.

Lemma delete_not_in k m : k ∉ keys (delete k m).
Proof. rewrite keys_delete_elem. tauto. Qed.

End JMap.
End JMap.

Create HintDb openwa.
#[export] Hint Resolve fold_max_ge_init fold_max_ge_elem : openwa.

