(* ===== verification/JsString.v ===== *)
(** * JavaScript strings

    A JavaScript string is a sequence of UTF-16 code units.  The development
    models the strings all of whose code units are below 256 (the Latin-1
    block), as Rocq [string]s: every operation the sources apply to an
    identifier, a header or an address is closed on that domain, and on it the
    definitions below are exactly the ECMAScript ones ([trim] strips tab, line
    feed, vertical tab, form feed, carriage return, space and no-break space;
    [toLowerCase] maps A-Z and the upper-case Latin-1 letters). *)
From S2P Require Import Prelude.
Local Open Scope string_scope.

(** ** Characters *)

Definition code (c : ascii) : N := N_of_ascii c.

Definition is_digit (c : ascii) : bool := ((48 <=? code c) && (code c <=? 57))%N.

(** The white space of [String.prototype.trim] and of the regular-expression
    class [\s], on code units below 256. *)
Definition is_ws (c : ascii) : bool :=
  (((9 <=? code c) && (code c <=? 13)) || (code c =? 32) || (code c =? 160))%N.

(** [toLowerCase] of one code unit below 256. *)
Definition is_upper (c : ascii) : bool :=
  (((65 <=? code c) && (code c <=? 90)) ||
   ((192 <=? code c) && (code c <=? 222) && negb (code c =? 215)))%N.
Definition lower_char (c : ascii) : ascii :=
  if is_upper c then ascii_of_N (code c + 32) else c.

(** [\w] *)
Definition is_word (c : ascii) : bool :=
  (is_digit c || ((65 <=? code c) && (code c <=? 90)) ||
   ((97 <=? code c) && (code c <=? 122)) || (code c =? 95))%N.

(** ** Strings *)

Fixpoint toLowerCase (s : string) : string :=
  match s with
  | EmptyString => EmptyString
  | String c r => String (lower_char c) (toLowerCase r)
  end.

Fixpoint trimStart (s : string) : string :=
  match s with
  | String c r => if is_ws c then trimStart r else s
  | EmptyString => EmptyString
  end.

Fixpoint trimEnd (s : string) : string :=
  match s with
  | EmptyString => EmptyString
  | String c r =>
      match trimEnd r with
      | EmptyString => if is_ws c then EmptyString else String c EmptyString
      | r' => String c r'
      end
  end.

Definition trim (s : string) : string := trimEnd (trimStart s).

(** [s.includes(c)] for a one-character [c]. *)
Fixpoint has_char (c : ascii) (s : string) : bool :=
  match s with
  | EmptyString => false
  | String d r => Ascii.eqb d c || has_char c r
  end.

(** [s.split(c)] for a one-character separator; never the empty list. *)
Fixpoint split_char (c : ascii) (s : string) : list string :=
  match s with
  | EmptyString => [""]
  | String d r =>
      if Ascii.eqb d c then "" :: split_char c r
      else match split_char c r with
           | h :: t => String d h :: t
           | [] => [String d ""]
           end
  end.

(** [s.slice(0, s.lastIndexOf(c))] and [s.slice(s.lastIndexOf(c) + 1)], or
    [None] when [lastIndexOf] is -1. *)
Fixpoint rsplit (c : ascii) (s : string) : option (string * string) :=
  match s with
  | EmptyString => None
  | String d r =>
      match rsplit c r with
      | Some (l, m) => Some (String d l, m)
      | None => if Ascii.eqb d c then Some ("", r) else None
      end
  end.

(** [s.slice(0, s.indexOf(c))] and [s.slice(s.indexOf(c) + 1)]. *)
Fixpoint lsplit (c : ascii) (s : string) : option (string * string) :=
  match s with
  | EmptyString => None
  | String d r =>
      if Ascii.eqb d c then Some ("", r)
      else match lsplit c r with
           | Some (l, m) => Some (String d l, m)
           | None => None
           end
  end.

Fixpoint all_chars (p : ascii -> bool) (s : string) : bool :=
  match s with
  | EmptyString => true
  | String c r => p c && all_chars p r
  end.

(** [/^\d{5,}$/.test(s)] *)
Definition numeric_id (s : string) : bool := all_chars is_digit s && (5 <=? String.length s)%nat.

Definition startsWith (s p : string) : bool := String.prefix p s.

(** [s.slice(n)]: [s] without its first [n] code units. *)
Fixpoint drop_chars (n : nat) (s : string) : string :=
  match n, s with
  | O, _ => s
  | S n', String _ r => drop_chars n' r
  | S _, EmptyString => EmptyString
  end.

Definition endsWith (s p : string) : bool :=
  (String.length p <=? String.length s)%nat &&
  String.eqb (drop_chars (String.length s - String.length p) s) p.

(** [s.includes(p)] *)
Fixpoint includes (s p : string) : bool :=
  String.prefix p s || match s with
                       | EmptyString => false
                       | String _ r => includes r p
                       end.

(** The order of [Array.prototype.sort] on strings. *)
Definition str_le (a b : string) : Prop := String.leb a b = true.
#[export] Instance str_le_dec : RelDecision str_le.
Proof. intros a b. unfold str_le. apply _. Defined.

(** [o ? ... : ...]: an empty string is falsy. *)
Definition truthy (o : option string) : option string :=
  match o with
  | Some p => if String.eqb p "" then None else Some p
  | None => None
  end.

(** [parts.join(sep)] *)
Fixpoint join (sep : string) (l : list string) : string :=
  match l with
  | [] => ""
  | [x] => x
  | x :: r => x +:+ sep +:+ join sep r
  end.

(** ** Lemmas *)

Lemma append_nil_r s : s +:+ "" = s.
Proof. unfold String.append. induction s as [|c r IH]; simpl; [done|by f_equal]. Qed.

Lemma append_assoc a b c : (a +:+ b) +:+ c = a +:+ (b +:+ c).
Proof. induction a as [|x a IH]; [done|]. change (String x ((a +:+ b) +:+ c) = String x (a +:+ (b +:+ c))). by rewrite IH. Qed.

Lemma append_cons x a b : String x a +:+ b = String x (a +:+ b).
Proof. done. Qed.

Lemma length_append a b : String.length (a +:+ b) = String.length a + String.length b.
Proof. induction a as [|x a IH]; [done|]. rewrite append_cons. simpl. by rewrite IH. Qed.

Lemma append_inj_r a b s : a +:+ s = b +:+ s -> a = b.
Proof.
  revert b. induction a as [|x a IH]; intros [|y b] H; [done| | |].
  1,2: apply (f_equal String.length) in H; rewrite !length_append in H; simpl in H; lia.
  rewrite !append_cons in H. injection H as -> H. f_equal. by apply IH.
Qed.

Lemma append_inj_len a b x y :
  String.length a = String.length b -> a +:+ x = b +:+ y -> a = b /\ x = y.
Proof.
  revert b. induction a as [|c a IH]; intros [|d b] Hl H; try done.
  rewrite !append_cons in H. injection H as -> H. simpl in Hl.
  destruct (IH b) as [-> ->]; [lia|done|done].
Qed.

Lemma has_char_app c a b : has_char c (a +:+ b) = has_char c a || has_char c b.
Proof. induction a as [|x a IH]; [done|]. rewrite append_cons. simpl. rewrite IH. by rewrite orb_assoc. Qed.

Lemma rsplit_None c s : rsplit c s = None <-> has_char c s = false.
Proof.
  induction s as [|d r IH]; simpl; [done|].
  destruct (rsplit c r) as [[l m]|]; destruct (Ascii.eqb d c); simpl.
  - split; [done|]. intros H; discriminate.
  - split; [done|]. intros H. by apply IH in H.
  - split; [done|]. intros; discriminate.
  - tauto.
Qed.

Lemma rsplit_Some c s l m :
  rsplit c s = Some (l, m) -> s = l +:+ String c m /\ has_char c m = false.
Proof.
  revert l. induction s as [|d r IH]; intros l H; simpl in H; [done|].
  destruct (rsplit c r) as [[l' m']|] eqn:E.
  - injection H as <- <-. destruct (IH l' eq_refl) as [-> ?]. done.
  - destruct (Ascii.eqb d c) eqn:Ed; [|done]. injection H as <- <-.
    apply Ascii.eqb_eq in Ed as ->. split; [done|]. by apply rsplit_None.
Qed.

Lemma rsplit_app c l m : has_char c m = false -> rsplit c (l +:+ String c m) = Some (l, m).
Proof.
  intros Hm. induction l as [|d l IH].
  - simpl. rewrite (proj2 (rsplit_None c m) Hm). by rewrite Ascii.eqb_refl.
  - rewrite append_cons. simpl. by rewrite IH.
Qed.

Lemma split_char_nonempty c s : exists h t, split_char c s = h :: t.
Proof.
  induction s as [|d r [h [t IH]]]; simpl; [eauto|].
  destruct (Ascii.eqb d c); [eauto|]. rewrite IH. eauto.
Qed.

Lemma split_char_none c s : has_char c s = false -> split_char c s = [s].
Proof.
  induction s as [|d r IH]; simpl; [done|]. intros H.
  apply orb_false_iff in H as [-> H]. by rewrite IH.
Qed.

Lemma split_char_head_no c s h t : split_char c s = h :: t -> has_char c h = false.
Proof.
  revert h t. induction s as [|d r IH]; intros h t H; simpl in H.
  - by injection H as <- <-.
  - destruct (Ascii.eqb d c) eqn:E; [by injection H as <- <-|].
    destruct (split_char_nonempty c r) as (h' & t' & E'). rewrite E' in H.
    injection H as <- <-. simpl. rewrite E. simpl. by eapply IH.
Qed.

Lemma split_char_head_char c d s h t :
  split_char c s = h :: t -> has_char d s = false -> has_char d h = false.
Proof.
  revert h t. induction s as [|x r IH]; intros h t H Hd; simpl in *.
  - by injection H as <- <-.
  - apply orb_false_iff in Hd as [Hx Hr].
    destruct (Ascii.eqb x c); [by injection H as <- <-|].
    destruct (split_char_nonempty c r) as (h' & t' & E'). rewrite E' in H.
    injection H as <- <-. simpl. rewrite Hx. simpl. by eapply IH.
Qed.

Lemma split_char_app c l m :
  has_char c l = false ->
  split_char c (l +:+ String c m) = l :: split_char c m.
Proof.
  induction l as [|d l IH]; intros H.
  - simpl. by rewrite Ascii.eqb_refl.
  - rewrite append_cons. simpl in *. apply orb_false_iff in H as [-> H]. by rewrite IH.
Qed.

(** Splitting at a separator anywhere splits both sides. *)
Lemma split_char_cat c l m : split_char c (l +:+ String c m) = (split_char c l ++ split_char c m)%list.
Proof.
  induction l as [|d l IH]; [simpl; by rewrite Ascii.eqb_refl|].
  rewrite append_cons. cbn [split_char]. destruct (Ascii.eqb d c); [by rewrite IH|].
  rewrite IH. by destruct (split_char_nonempty c l) as (h & t & ->).
Qed.

(** *** Case folding *)

Lemma lower_char_idem c : lower_char (lower_char c) = lower_char c.
Proof. destruct c as [[] [] [] [] [] [] [] []]; vm_compute; reflexivity. Qed.

Lemma lower_char_ws c : is_ws (lower_char c) = is_ws c.
Proof. destruct c as [[] [] [] [] [] [] [] []]; vm_compute; reflexivity. Qed.

Lemma lower_char_digit c : is_digit c = true -> lower_char c = c.
Proof. destruct c as [[] [] [] [] [] [] [] []]; vm_compute; congruence. Qed.

Lemma digit_not_ws c : is_digit c = true -> is_ws c = false.
Proof. destruct c as [[] [] [] [] [] [] [] []]; vm_compute; congruence. Qed.

Lemma lower_char_at c : Ascii.eqb (lower_char c) "@" = Ascii.eqb c "@".
Proof. destruct c as [[] [] [] [] [] [] [] []]; vm_compute; reflexivity. Qed.

Lemma lower_idem s : toLowerCase (toLowerCase s) = toLowerCase s.
Proof. induction s as [|c r IH]; simpl; [done|]. by rewrite lower_char_idem, IH. Qed.

Lemma lower_app a b : toLowerCase (a +:+ b) = toLowerCase a +:+ toLowerCase b.
Proof.
  induction a as [|c a IH]; [done|]. rewrite append_cons. simpl.
  rewrite IH. by rewrite append_cons.
Qed.

Lemma length_lower s : String.length (toLowerCase s) = String.length s.
Proof. induction s as [|c r IH]; simpl; [done|]. by rewrite IH. Qed.

Lemma lower_digits s : all_chars is_digit s = true -> toLowerCase s = s.
Proof.
  induction s as [|c r IH]; simpl; [done|]. intros H.
  apply andb_true_iff in H as [H1 H2]. by rewrite lower_char_digit, IH.
Qed.

Lemma lower_has_at s : has_char "@" (toLowerCase s) = has_char "@" s.
Proof. induction s as [|c r IH]; simpl; [done|]. by rewrite lower_char_at, IH. Qed.

(** *** Trimming *)

Definition head_ok (s : string) : bool :=
  match s with String c _ => negb (is_ws c) | EmptyString => true end.

Fixpoint last_ok (s : string) : bool :=
  match s with
  | EmptyString => true
  | String c EmptyString => negb (is_ws c)
  | String _ r => last_ok r
  end.

Lemma trimStart_head s : head_ok (trimStart s) = true.
Proof. induction s as [|c r IH]; simpl; [done|]. destruct (is_ws c) eqn:E; [done|]. simpl. by rewrite E. Qed.

Lemma trimStart_id s : head_ok s = true -> trimStart s = s.
Proof. destruct s as [|c r]; simpl; [done|]. by destruct (is_ws c). Qed.

Lemma trimEnd_last s : last_ok (trimEnd s) = true.
Proof.
  induction s as [|c r IH]; simpl; [done|].
  destruct (trimEnd r) as [|d t] eqn:E.
  - destruct (is_ws c) eqn:Ec; simpl; [done|by rewrite Ec].
  - simpl in *. done.
Qed.

Lemma trimEnd_id s : last_ok s = true -> trimEnd s = s.
Proof.
  induction s as [|c r IH]; simpl; [done|]. intros H.
  destruct r as [|d t].
  - simpl. by destruct (is_ws c).
  - rewrite IH by done. done.
Qed.

Lemma trimEnd_head s : head_ok s = true -> head_ok (trimEnd s) = true.
Proof.
  destruct s as [|c r]; simpl; [done|]. intros H.
  destruct (trimEnd r); [|exact H]. apply negb_true_iff in H. rewrite H. simpl. by rewrite H.
Qed.

Lemma trim_id s : head_ok s = true -> last_ok s = true -> trim s = s.
Proof. intros H1 H2. unfold trim. rewrite trimStart_id by done. by apply trimEnd_id. Qed.

Lemma trim_head s : head_ok (trim s) = true.
Proof. apply trimEnd_head, trimStart_head. Qed.

Lemma trim_last s : last_ok (trim s) = true.
Proof. apply trimEnd_last. Qed.

Lemma trim_idem s : trim (trim s) = trim s.
Proof. apply trim_id; [apply trim_head|apply trim_last]. Qed.

Lemma head_ok_lower s : head_ok (toLowerCase s) = head_ok s.
Proof. destruct s as [|c r]; simpl; [done|]. by rewrite lower_char_ws. Qed.

Lemma last_ok_lower s : last_ok (toLowerCase s) = last_ok s.
Proof.
  induction s as [|c r IH]; simpl; [done|].
  destruct r as [|d t]; simpl in *; [by rewrite lower_char_ws|done].
Qed.

Lemma head_ok_app a b : a <> "" -> head_ok (a +:+ b) = head_ok a.
Proof. destruct a; [done|]. by rewrite append_cons. Qed.

Lemma last_ok_app a b : b <> "" -> last_ok (a +:+ b) = last_ok b.
Proof.
  intros Hb. induction a as [|c a IH]; [done|]. rewrite append_cons. simpl.
  destruct (a +:+ b) as [|d t] eqn:E; [|by rewrite IH].
  destruct a; [|done]. simpl in E. by destruct b.
Qed.

Lemma all_digits_head s : all_chars is_digit s = true -> head_ok s = true.
Proof. destruct s as [|c r]; simpl; [done|]. intros H. apply andb_true_iff in H as [H _]. by rewrite digit_not_ws. Qed.

Lemma all_digits_last s : all_chars is_digit s = true -> last_ok s = true.
Proof.
  induction s as [|c r IH]; [done|]. intros H. simpl in H. apply andb_true_iff in H as [H1 H2].
  simpl. destruct r; [by rewrite digit_not_ws|]. by apply IH.
Qed.

Lemma all_digits_no c s : is_digit c = false -> all_chars is_digit s = true -> has_char c s = false.
Proof.
  intros Hc. induction s as [|d r IH]; simpl; [done|]. intros H.
  apply andb_true_iff in H as [H1 H2]. rewrite IH by done.
  destruct (Ascii.eqb d c) eqn:E; [|done]. apply Ascii.eqb_eq in E as ->. congruence.
Qed.

Lemma numeric_id_inv s : numeric_id s = true -> all_chars is_digit s = true /\ s <> "".
Proof.
  unfold numeric_id. intros H. apply andb_true_iff in H as [H1 H2]. split; [done|].
  intros ->. done.
Qed.

Lemma trim_digits s : all_chars is_digit s = true -> trim s = s.
Proof. intros H. apply trim_id; [by apply all_digits_head|by apply all_digits_last]. Qed.

Create Rewrite HintDb jsstr.
#[export] Hint Rewrite append_nil_r append_assoc length_append lower_idem lower_app trim_idem
  head_ok_lower last_ok_lower : jsstr.

(** *** Prefixes *)

Lemma startsWith_spec s p : startsWith s p = true <-> exists r, s = p +:+ r.
Proof.
  unfold startsWith. revert s. induction p as [|c p IH]; intros s.
  - destruct s; simpl; split; eauto.
  - destruct s as [|d s]; cbn [String.prefix].
    + split; [done|]. intros (r & Hr). by rewrite append_cons in Hr.
    + destruct (ascii_dec c d) as [->|Hne].
      * rewrite IH. split; intros (r & Hr); exists r; rewrite append_cons in *; congruence.
      * split; [done|]. intros (r & Hr). rewrite append_cons in Hr. congruence.
Qed.

Lemma lower_has_colon s : has_char ":" (toLowerCase s) = has_char ":" s.
Proof.
  induction s as [|c s IH]; simpl; [done|]. rewrite IH. f_equal. clear. by destruct c as [[] [] [] [] [] [] [] []].
Qed.

(** ** The order of strings *)

Lemma leb_cons c a d b :
  String.leb (String c a) (String d b) = match N.compare (N_of_ascii c) (N_of_ascii d) with Lt => true | Eq => String.leb a b | Gt => false end.
Proof. unfold String.leb. cbn [String.compare]. unfold Ascii.compare. by destruct (N.compare _ _). Qed.

#[export] Instance str_le_trans : Transitive str_le.
Proof.
  unfold str_le. intros a. induction a as [|x a IH]; intros [|y b] [|z c] H1 H2; try done.
  rewrite leb_cons in *. destruct (N.compare_spec (N_of_ascii x) (N_of_ascii y)) as [E1|E1|E1]; [| |done];
    destruct (N.compare_spec (N_of_ascii y) (N_of_ascii z)) as [E2|E2|E2]; try done;
    destruct (N.compare_spec (N_of_ascii x) (N_of_ascii z)) as [E3|E3|E3]; try done; try lia. by eapply IH.
Qed.
#[export] Instance str_le_total : Total str_le.
Proof. intros a b. unfold str_le. destruct (String.leb_total a b); auto. Qed.
#[export] Instance str_le_anti : AntiSymm (=) str_le.
Proof. intros a b. apply String.leb_antisym. Qed.

(** A text cut at the first separator. *)
Lemma append_sep_inj c a b x y :
  has_char c a = false -> has_char c b = false -> a +:+ String c x = b +:+ String c y -> a = b /\ x = y.
Proof.
  revert b. induction a as [|d a IH]; intros [|e b]; cbn; intros Ha Hb E; injection E as E; [done| | |].
  - subst e. by rewrite Ascii.eqb_refl in Hb.
  - subst d. by rewrite Ascii.eqb_refl in Ha.
  - apply orb_false_elim in Ha as [_ Ha], Hb as [_ Hb]. destruct (IH b Ha Hb) as [-> ->]; [done|]. by subst d.
Qed.
