(* ===== verification/KeyedLock.v ===== *)
(** * Work serialized by key

    modules/integration/ordering-lock.ts ([KeyedAsyncLock], [orderingKeyFor]) and
    common/utils/keyed-mutation-queue.ts ([KeyedMutationQueue]): each key has a chain
    of promises, a call appends to the chain of its key, and the entry of a key goes
    once its last promise settled.  The promises are numbered in the order of the
    calls; the moves of the promise queue (a callback starts, a promise settles, the
    cleanup runs) are steps of their own. *)
From stdpp Require Import gmap.
From S2P Require Import Prelude JsString.
Local Open Scope nat_scope.

(** Where a call's promise is: behind its predecessor, its function running, settled
    (with or without an error), its cleanup over. *)
Inductive Stage := Waiting | Running | Settled (ok : bool) | Cleaned (ok : bool).
Definition settled (s : Stage) : bool := match s with Settled _ | Cleaned _ => true | _ => false end.

(** A call: its key, the promise it was chained behind, its stage. *)
Record Call := mkCall { ckey : string; prev : option nat; stage : Stage }.

(** The map of last promises, the calls so far, and the keys whose errors reached
    [onUnexpectedError]. *)
Record Chains := mkChains { tails : gmap string nat; calls : list Call; errors : list string }.
Definition idle_chains : Chains := mkChains ∅ [] [].

(** [KeyedAsyncLock.run] and [KeyedMutationQueue.enqueue]. *)
Definition run (s : Chains) (key : string) : Chains :=
  mkChains (<[key := length (calls s)]> (tails s)) (calls s ++ [mkCall key (tails s !! key) Waiting])%list (errors s).
Definition enqueue (s : Chains) (key : string) : Chains := run s key.

Definition put_stage (s : Chains) (i : nat) (c : Call) (g : Stage) : list Call := <[i := mkCall (ckey c) (prev c) g]> (calls s).

(** The predecessor has settled; its rejection is swallowed. *)
Definition ready (s : Chains) (c : Call) : bool :=
  match prev c with
  | None => true
  | Some p => match calls s !! p with Some c => settled (stage c) | None => false end
  end.

(** [.then(fn)]: the function is called. *)
Definition begin (s : Chains) (i : nat) : option Chains :=
  c ← calls s !! i;
  match stage c with Waiting => if ready s c then Some (mkChains (tails s) (put_stage s i c Running) (errors s)) else None | _ => None end.

(** The function's promise settles; the queue hands a rejection to its handler. *)
Definition settle (s : Chains) (i : nat) (ok : bool) : option Chains :=
  c ← calls s !! i;
  match stage c with
  | Running => Some (mkChains (tails s) (put_stage s i c (Settled ok)) (if ok then errors s else ckey c :: errors s))
  | _ => None
  end.

(** [finally]: the entry goes when it is still this promise. *)
Definition cleanup (s : Chains) (i : nat) : option Chains :=
  c ← calls s !! i;
  match stage c with
  | Settled ok =>
      let t := if decide (tails s !! ckey c = Some i) then delete (ckey c) (tails s) else tails s in
      Some (mkChains t (put_stage s i c (Cleaned ok)) (errors s))
  | _ => None
  end.

Definition size (s : Chains) : nat := base.size (tails s).

(** The parts of an ingress job its order depends on. *)
Record OrderedJob := mkOrdered { pluginId : string; instanceId : string; providerConversationId : option string }.
Definition nul_char : ascii := Ascii.ascii_of_nat 0.
Definition NUL : string := String nul_char EmptyString.
Definition orderingKeyFor (job : OrderedJob) : string :=
  pluginId job +:+ NUL +:+ instanceId job +:+ NUL +:+ default EmptyString (providerConversationId job).

Inductive step : Chains -> Chains -> Prop :=
| s_run s key : step s (run s key)
| s_begin s i s' : begin s i = Some s' -> step s s'
| s_settle s i ok s' : settle s i ok = Some s' -> step s s'
| s_cleanup s i s' : cleanup s i = Some s' -> step s s'.
Definition reachable (s : Chains) : Prop := rtc step idle_chains s.

(** ** The chains *)

(** A call is chained behind the calls of its key that have not settled; an entry is
    of a call not cleaned up, and no older than a call that waits for it. *)
Record Chained (s : Chains) : Prop := mkChained {
  ch_tail : forall key i, tails s !! key = Some i -> exists c, calls s !! i = Some c /\ ckey c = key /\ (forall ok, stage c <> Cleaned ok);
  ch_last : forall i c, calls s !! i = Some c -> settled (stage c) = false -> exists j, i <= j /\ tails s !! ckey c = Some j;
  ch_fifo : forall i j c d, calls s !! i = Some c -> calls s !! j = Some d -> ckey c = ckey d -> i < j -> settled (stage c) = true \/ exists p, prev d = Some p /\ i <= p;
  ch_prev : forall j d p, calls s !! j = Some d -> prev d = Some p -> p < j /\ exists c, calls s !! p = Some c /\ ckey c = ckey d;
  ch_begun : forall j d, calls s !! j = Some d -> stage d <> Waiting -> ready s d = true
}.

Lemma chained_serial s i j c d :
  Chained s -> calls s !! i = Some c -> calls s !! j = Some d -> ckey c = ckey d -> i < j -> stage d <> Waiting -> settled (stage c) = true.
Proof.
  intros H. revert d. induction (lt_wf j) as [j _ IH]. intros d Hc Hd Ek Hij Hb.
  destruct (ch_fifo _ H i j c d Hc Hd Ek Hij) as [?|(p & Hp & Hip)]; [done|]. destruct (ch_prev _ H j d p Hd Hp) as (Hpj & e & He & Eke).
  pose proof (ch_begun _ H j d Hd Hb) as Hr. unfold ready in Hr. rewrite Hp, He in Hr. destruct (decide (i = p)) as [->|]; [congruence|].
  apply (IH p Hpj e); [done..|congruence|lia|]. by intros E; rewrite E in Hr.
Qed.

Lemma stage_cases s i c g j d :
  calls s !! i = Some c -> put_stage s i c g !! j = Some d -> (j = i /\ d = mkCall (ckey c) (prev c) g) \/ (j <> i /\ calls s !! j = Some d).
Proof.
  intros Hi. unfold put_stage. destruct (decide (j = i)) as [->|Hne].
  - rewrite list_lookup_insert_eq by (by eapply lookup_lt_Some). intros [= <-]. auto.
  - rewrite list_lookup_insert_ne by done. auto.
Qed.
Lemma stage_keeps s i c g j d : calls s !! i = Some c -> calls s !! j = Some d -> exists d', put_stage s i c g !! j = Some d' /\ ckey d' = ckey d /\ (j <> i -> d' = d) /\ (j = i -> stage d' = g).
Proof.
  intros Hi Hj. unfold put_stage. destruct (decide (j = i)) as [->|Hne].
  - rewrite list_lookup_insert_eq by (by eapply lookup_lt_Some). eexists. split; [done|]. cbn. split; [congruence|done].
  - rewrite list_lookup_insert_ne by done. by exists d.
Qed.

(** A promise moves forward: what has settled stays so. *)
Lemma chained_stage s i c g t es :
  Chained s -> calls s !! i = Some c -> (settled (stage c) = true -> settled g = true) -> ready s c = true ->
  (forall key j, t !! key = Some j -> tails s !! key = Some j /\ (j = i -> forall ok, g <> Cleaned ok)) ->
  (forall key j, tails s !! key = Some j -> t !! key = Some j \/ (key = ckey c /\ j = i /\ settled (stage c) = true)) ->
  Chained (mkChains t (put_stage s i c g) es).
Proof.
  intros H Hi Hset Hrdy Ht1 Ht2.
  assert (forall d, ready s d = true -> ready (mkChains t (put_stage s i c g) es) d = true) as Hready.
  { intros d. unfold ready. cbn. destruct (prev d) as [p|]; [|done]. unfold put_stage. destruct (decide (p = i)) as [->|]; [|by rewrite list_lookup_insert_ne].
    rewrite Hi, list_lookup_insert_eq by (by eapply lookup_lt_Some). exact Hset. }
  assert (forall j d, put_stage s i c g !! j = Some d -> exists d0, calls s !! j = Some d0 /\ ckey d = ckey d0 /\ prev d = prev d0 /\ (settled (stage d0) = true -> settled (stage d) = true)) as Hback.
  { intros j d [(-> & ->)|(Hne & Hd)]%(stage_cases s i c g j d Hi); [exists c|exists d]; done. }
  split; cbn.
  - intros key j Hj. destruct (Ht1 key j Hj) as [Hj0 Hnc]. destruct (ch_tail _ H key j Hj0) as (d & Hd & Hk & Hn). destruct (stage_keeps s i c g j d Hi Hd) as (d' & Hd' & Ek & Hne & He).
    exists d'. split; [done|]. split; [congruence|]. intros ok. destruct (decide (j = i)) as [E|E]; [rewrite (He E); by apply Hnc|by rewrite (Hne E)].
  - intros j d Hd Hs. destruct (Hback j d Hd) as (d0 & Hd0 & Ek & _ & Hm). assert (settled (stage d0) = false) as Hs0 by (destruct (settled (stage d0)); [by rewrite Hm in Hs|done]).
    destruct (ch_last _ H j d0 Hd0 Hs0) as (l & Hjl & Hl). rewrite Ek. destruct (Ht2 _ _ Hl) as [Ht|(Ekey & -> & Hsc)]; [by exists l|]. exfalso.
    destruct (decide (j = i)) as [->|]; [assert (d0 = c) as -> by congruence; by rewrite Hsc in Hs0|].
    rewrite (chained_serial s j i d0 c H Hd0 Hi Ekey) in Hs0; [done|lia|]. intros E. by rewrite E in Hsc.
  - intros a b ca db Ha Hb Ek Hab. destruct (Hback a ca Ha) as (ca0 & Ha0 & Eka & _ & Hm). destruct (Hback b db Hb) as (db0 & Hb0 & Ekb & Epb & _).
    rewrite Epb. destruct (ch_fifo _ H a b ca0 db0 Ha0 Hb0) as [?|?]; [congruence|done|left; by apply Hm|by right].
  - intros j d p Hd Hp. destruct (Hback j d Hd) as (d0 & Hd0 & Ek & Ep & _). rewrite Ep in Hp. destruct (ch_prev _ H j d0 p Hd0 Hp) as (Hlt & e & He & Eke). split; [done|].
    destruct (stage_keeps s i c g p e Hi He) as (e' & He' & Eke' & _). exists e'. split; [done|congruence].
  - intros j d Hd Hb. apply Hready. destruct (stage_cases s i c g j d Hi Hd) as [(-> & ->)|(Hne & Hd0)]; [exact Hrdy|by apply (ch_begun _ H j)].
Qed.

Lemma chained_run s key : Chained s -> Chained (run s key).
Proof.
  intros H. assert (forall j d, calls s !! j = Some d -> j < length (calls s)) as Hlt by (intros; by eapply lookup_lt_Some).
  assert (forall j d, calls s !! j = Some d -> (calls s ++ [mkCall key (tails s !! key) Waiting])%list !! j = Some d) as Hk by (intros j d Hd; by apply lookup_app_l_Some).
  split; cbn.
  - intros k j. destruct (decide (k = key)) as [->|].
    + rewrite lookup_insert_eq. intros [= <-]. eexists. split; [rewrite lookup_app_r, Nat.sub_diag by lia; done|]. done.
    + rewrite lookup_insert_ne by done. intros Hj. destruct (ch_tail _ H k j Hj) as (c & Hc & Hrest). exists c. split; [by apply Hk|done].
  - intros j d [Hd|[-> ->]]%lookup_snoc Hs; cbn; [|exists (length (calls s)); rewrite lookup_insert_eq; done].
    destruct (ch_last _ H j d Hd Hs) as (l & Hjl & Hl). destruct (decide (ckey d = key)) as [->|]; [exists (length (calls s)); rewrite lookup_insert_eq; pose proof (Hlt j d Hd); split; [lia|done]|].
    exists l. rewrite lookup_insert_ne by done. done.
  - intros a b ca db [Ha|[-> ->]]%lookup_snoc [Hb|[-> ->]]%lookup_snoc Ek Hab; cbn in *; [by apply (ch_fifo _ H a b)| |pose proof (Hlt _ _ Hb); lia|lia].
    destruct (settled (stage ca)) eqn:Hs; [by left|]. right. destruct (ch_last _ H a ca Ha Hs) as (l & Hal & Hl). exists l. rewrite <- Ek. done.
  - intros j d p [Hd|[-> ->]]%lookup_snoc Hp; cbn in *.
    + destruct (ch_prev _ H j d p Hd Hp) as (Hpj & c & Hc & Ek). split; [done|]. exists c. split; [by apply Hk|done].
    + destruct (ch_tail _ H key p Hp) as (c & Hc & Ek & _). split; [by eapply Hlt|]. exists c. split; [by apply Hk|done].
  - intros j d [Hd|[-> ->]]%lookup_snoc Hs; [|done]. pose proof (ch_begun _ H j d Hd Hs) as Hr. unfold ready in *. cbn. destruct (prev d) as [p|] eqn:Hp; [|done].
    destruct (ch_prev _ H j d p Hd Hp) as (_ & c & Hc & _). rewrite Hc in Hr. by rewrite (Hk p c Hc).
Qed.

Lemma chained_step s s' : step s s' -> Chained s -> Chained s'.
Proof.
  intros Hs H. destruct Hs as [s key|s i s' Hb|s i ok s' Hb|s i s' Hb]; [by apply chained_run|..]; unfold begin, settle, cleanup in Hb; apply bind_Some in Hb as (c & Hi & Hb);
    destruct (stage c) as [| |ok'|ok'] eqn:Hst; try done.
  - destruct (ready s c) eqn:Hr; [|done]. injection Hb as <-. apply chained_stage; try done; [by rewrite Hst|..]; auto.
  - injection Hb as <-. apply chained_stage; try done; [apply (ch_begun _ H i); [done|by rewrite Hst]|auto..].
  - injection Hb as <-. apply chained_stage; try done; [apply (ch_begun _ H i); [done|by rewrite Hst]| |]; intros key j Hj.
    + destruct (decide (tails s !! ckey c = Some i)) as [E|E].
      * apply lookup_delete_Some in Hj as [Hne Hj]. split; [done|]. intros ->. destruct (ch_tail _ H key i Hj) as (d & Hd & Ek & _). congruence.
      * split; [done|]. intros ->. destruct (ch_tail _ H key i Hj) as (d & Hd & Ek & _). congruence.
    + destruct (decide (tails s !! ckey c = Some i)) as [E|E]; [|by left]. destruct (decide (key = ckey c)) as [->|]; [right; rewrite Hst; split; [done|]; split; [congruence|done]|].
      left. by rewrite lookup_delete_ne.
Qed.

Lemma chained_reachable s : reachable s -> Chained s.
Proof.
  intros H. apply (rtc_invariant step Chained idle_chains s); [intros ? ? Hs; by apply chained_step|exact H|].
  split; cbn; intros *; rewrite ?lookup_nil; try done.
Qed.

(** Work of one key runs one call at a time and in the order of the calls: when a
    call's function has been called, every earlier call of its key has settled,
    whether or not the entry of the key was reclaimed in between. *)
Theorem keyed_work_is_serial s i j c d :
  reachable s -> calls s !! i = Some c -> calls s !! j = Some d -> ckey c = ckey d -> i < j -> stage d <> Waiting -> settled (stage c) = true.
Proof. intros H%chained_reachable. by apply chained_serial. Qed.

(** A failure never blocks its key: a call that waits has an earlier call of its
    key running, or it or an earlier one can begin at once; and when every call is
    over no entry is left. *)
Theorem keyed_work_moves_on s :
  reachable s ->
  (forall j d, calls s !! j = Some d -> stage d = Waiting ->
     exists i c, i <= j /\ calls s !! i = Some c /\ ckey c = ckey d /\ (stage c = Running \/ begin s i <> None)) /\
  ((forall i c, calls s !! i = Some c -> exists ok, stage c = Cleaned ok) -> size s = 0).
Proof.
  intros H%chained_reachable. split.
  - intros j. induction (lt_wf j) as [j _ IH]. intros d Hd Hw. destruct (ready s d) eqn:Hr.
    + exists j, d. split; [lia|]. split; [done|]. split; [done|]. right. unfold begin. rewrite Hd. cbn. by rewrite Hw, Hr.
    + unfold ready in Hr. destruct (prev d) as [p|] eqn:Hp; [|done]. destruct (ch_prev _ H j d p Hd Hp) as (Hpj & c & Hc & Ek). rewrite Hc in Hr.
      destruct (stage c) eqn:Hst; try done.
      * destruct (IH p Hpj c Hc Hst) as (i & e & Hip & He & Eke & Hcase). exists i, e. split; [lia|]. split; [done|]. split; [congruence|done].
      * exists p, c. split; [lia|]. auto.
  - intros Hall. unfold size. apply map_size_empty_iff, map_eq. intros key. rewrite lookup_empty. destruct (tails s !! key) as [i|] eqn:E; [|done].
    destruct (ch_tail _ H key i E) as (c & Hc & _ & Hn). destruct (Hall i c Hc) as [ok Hok]. by destruct (Hn ok).
Qed.

(** Two deliveries share an ordering key exactly when they are of the same
    plugin, the same instance and the same conversation, an absent conversation
    counting as the empty one; a conversation id may hold any character, since only
    the plugin and instance ids have to be free of the separator. *)
Theorem ordering_key_is_the_conversation j k :
  has_char nul_char (pluginId j) = false -> has_char nul_char (instanceId j) = false -> has_char nul_char (pluginId k) = false -> has_char nul_char (instanceId k) = false ->
  orderingKeyFor j = orderingKeyFor k <->
  pluginId j = pluginId k /\ instanceId j = instanceId k /\ default EmptyString (providerConversationId j) = default EmptyString (providerConversationId k).
Proof.
  intros H1 H2 H3 H4. unfold orderingKeyFor. split; [|by intros (-> & -> & ->)].
  intros [E1 E]%append_sep_inj; [|done..]. apply append_sep_inj in E as [E2 E3]; done.
Qed.

Lemma ordering_key_is_the_conversation_witness :
  orderingKeyFor (mkOrdered "crm" "prod" None) = orderingKeyFor (mkOrdered "crm" "prod" (Some EmptyString)) /\
  orderingKeyFor (mkOrdered "crm" "prod" None) <> orderingKeyFor (mkOrdered "shop" "prod" None).
Proof.
  split; [apply ordering_key_is_the_conversation; reflexivity || done|]. intros E. by apply ordering_key_is_the_conversation in E as (E & _).
Defined.

(** Two calls of one key and one of another; the first fails. *)
Definition s_began : Chains := default idle_chains (begin (run (run (run idle_chains "a") "a") "b") 0).
Definition s_failed : Chains := default idle_chains (settle s_began 0 false).
Definition s_cleaned : Chains := default idle_chains (cleanup s_failed 0).
Definition s_next : Chains := default idle_chains (begin s_cleaned 1).
Lemma reach_next : reachable s_next.
Proof.
  unfold reachable. eapply rtc_l; [apply (s_run _ "a")|]. eapply rtc_l; [apply (s_run _ "a")|]. eapply rtc_l; [apply (s_run _ "b")|].
  apply (rtc_l _ _ s_began); [apply (s_begin _ 0); vm_compute; reflexivity|].
  apply (rtc_l _ _ s_failed); [apply (s_settle _ 0 false); vm_compute; reflexivity|]. apply (rtc_l _ _ s_cleaned); [apply (s_cleanup _ 0); vm_compute; reflexivity|].
  apply (rtc_l _ _ s_next); [apply (s_begin _ 1); vm_compute; reflexivity|]. reflexivity.
Qed.

Lemma keyed_work_is_serial_witness : exists c, calls s_next !! 0 = Some c /\ settled (stage c) = true.
Proof.
  exists (mkCall "a" None (Cleaned false)). split; [vm_compute; reflexivity|].
  apply (keyed_work_is_serial s_next 0 1 _ (mkCall "a" (Some 0) Running) reach_next); [vm_compute; reflexivity..|lia|done].
Defined.

Lemma keyed_work_moves_on_witness : exists i c, i <= 2 /\ calls s_next !! i = Some c /\ ckey c = "b"%string /\ (stage c = Running \/ begin s_next i <> None).
Proof. apply (proj1 (keyed_work_moves_on s_next reach_next) 2 (mkCall "b" None Waiting)); vm_compute; reflexivity. Defined.
