(* ===== verification/Counting.v ===== *)
(** * Sums over finite maps

    The tables and task sets of the components are finite maps; what an invariant
    counts in them is a sum of a weight over the entries. *)
From S2P Require Import Prelude.
Local Open Scope Z_scope.

Section msum.
Context {K : Type} `{Countable K} {A : Type}.
Implicit Types (m : gmap K A) (v : A -> Z).

Definition msum v m : Z := map_fold (fun _ x acc => v x + acc) 0 m.

Lemma msum_empty v : msum v ∅ = 0.
Proof. apply map_fold_empty. Qed.

Lemma msum_new v m i x : m !! i = None -> msum v (<[i := x]> m) = v x + msum v m.
Proof. intros Hi. unfold msum. rewrite map_fold_insert_L; [done| |done]. intros. lia. Qed.

(** The weight of the entry at [i], none when there is none. *)
Definition at_key v m i : Z := match m !! i with Some x => v x | None => 0 end.

Lemma msum_delete v m i : msum v (base.delete i m) = msum v m - at_key v m i.
Proof.
  unfold at_key. destruct (m !! i) as [x|] eqn:E; [|rewrite delete_id by done; lia].
  rewrite <- (insert_delete_id m i x E) at 2. rewrite msum_new by apply lookup_delete_eq. lia.
Qed.

Lemma msum_insert v m i x : msum v (<[i := x]> m) = msum v m - at_key v m i + v x.
Proof. rewrite <- (insert_delete_eq m i x), msum_new by apply lookup_delete_eq. rewrite msum_delete. lia. Qed.

Lemma msum_nonneg v m : (forall x, 0 <= v x) -> 0 <= msum v m.
Proof.
  intros Hv. induction m as [|i x m Hi IH] using map_ind; [by rewrite msum_empty|].
  rewrite msum_new by done. specialize (Hv x). lia.
Qed.

Lemma msum_le v w m : (forall x, v x <= w x) -> msum v m <= msum w m.
Proof.
  intros Hv. induction m as [|i x m Hi IH] using map_ind; [by rewrite !msum_empty|].
  rewrite !msum_new by done. specialize (Hv x). lia.
Qed.

Lemma msum_ext v w m : (forall i x, m !! i = Some x -> v x = w x) -> msum v m = msum w m.
Proof.
  induction m as [|i x m Hi IH] using map_ind; intros Hv; [by rewrite !msum_empty|].
  rewrite !msum_new by done. rewrite (Hv i x) by apply lookup_insert_eq. rewrite IH; [done|].
  intros j y Hj. apply (Hv j). rewrite lookup_insert_ne; [done|]. intros ->. congruence.
Qed.

Lemma msum_add v w m : msum (fun x => v x + w x) m = msum v m + msum w m.
Proof.
  induction m as [|i x m Hi IH] using map_ind; [by rewrite !msum_empty|]. rewrite !msum_new by done. lia.
Qed.

(** What a rewrite of every entry, or its removal, leaves. *)
Lemma msum_omap v (f : A -> option A) m :
  msum v (omap f m) = msum (fun x => match f x with Some y => v y | None => 0 end) m.
Proof.
  induction m as [|i x m Hi IH] using map_ind; [by rewrite omap_empty, !msum_empty|].
  rewrite msum_new by done. destruct (f x) as [y|] eqn:E.
  - rewrite (omap_insert_Some f m i x y E), msum_new; [by rewrite IH|]. rewrite lookup_omap, Hi. done.
  - rewrite (omap_insert_None f m i x E), delete_id; [rewrite IH; lia|]. rewrite lookup_omap, Hi. done.
Qed.

Lemma at_le v m i : (forall x, 0 <= v x) -> at_key v m i <= msum v m.
Proof.
  intros Hv. unfold at_key. destruct (m !! i) as [x|] eqn:E; [|by apply msum_nonneg].
  rewrite <- (insert_delete_id m i x E), msum_new by apply lookup_delete_eq. pose proof (msum_nonneg v (base.delete i m) Hv). lia.
Qed.

(** A sum that is not zero has an entry that is not. *)
Lemma msum_some v m : msum v m <> 0 -> exists i x, m !! i = Some x /\ v x <> 0.
Proof.
  induction m as [|i x m Hi IH] using map_ind; [by rewrite msum_empty|]. rewrite msum_new by done. intros Hs.
  destruct (decide (v x = 0)) as [E|E]; [|exists i, x; by rewrite lookup_insert_eq].
  destruct IH as (j & y & Hj & Hy); [lia|]. exists j, y. rewrite lookup_insert_ne by congruence. done.
Qed.
End msum.
