(* ===== verification/StopMarks.v ===== *)
(** * The stop marks of sessions

    modules/session/session-engine-controls.ts, [StopMarks]: the marks that keep a
    session down while operations on it are in flight and after they finished.
    A start compares the newest mark it saw with the newest there is.  The list of
    finished marks is cut to the newest few; the file proves that the cut is never
    seen: the class answers as one that keeps every mark. *)
From stdpp Require Import gmap sorting.
From S2P Require Import Prelude.
Local Open Scope Z_scope.

Definition FINISHED_MARKS_KEPT : Z := 4.

Record Mark := mkMark { stamp_of : Z; pending : bool }.

(** [seq], the map of marks, and the ids of the underlying [Set]. *)
Record StopMarks := mkMarks { seq : Z; marks : gmap string (list Mark); ids : gset string }.
Definition no_marks : StopMarks := mkMarks 0 ∅ ∅.

Definition finished (m : Mark) : bool := negb (pending m).

(** The filter of [trim]: [finished] counts down over the marks that are done. *)
Fixpoint keep (fin : Z) (l : list Mark) : list Mark :=
  match l with
  | [] => []
  | m :: r =>
      if pending m then m :: keep fin r
      else if fin <=? FINISHED_MARKS_KEPT then m :: keep (fin - 1) r else keep (fin - 1) r
  end.
Definition trimmed (l : list Mark) : list Mark := keep (Z.of_nat (length (List.filter finished l))) l.

Definition set_marks (s : StopMarks) (id : string) (l : list Mark) : StopMarks := mkMarks (seq s) (<[id := l]> (marks s)) (ids s).
Definition marks_of (s : StopMarks) (id : string) : list Mark := default [] (marks s !! id).

Definition push (s : StopMarks) (id : string) (p : bool) : Z * StopMarks :=
  let stamp := seq s + 1 in
  let l := trimmed (marks_of s id ++ [mkMark stamp p])%list in
  (stamp, mkMarks stamp (<[id := l]> (marks s)) ({[id]} ∪ ids s)).

Definition add (s : StopMarks) (id : string) : StopMarks := snd (push s id false).
Definition hold (s : StopMarks) (id : string) : Z * StopMarks := push s id true.

(** [settle]: the first mark with the stamp is done. *)
Fixpoint settle_in (stamp : Z) (l : list Mark) : list Mark :=
  match l with
  | [] => []
  | m :: r => if stamp_of m =? stamp then mkMark stamp false :: r else m :: settle_in stamp r
  end.
Definition has_stamp (stamp : Z) (l : list Mark) : bool := existsb (fun m => stamp_of m =? stamp) l.
Definition settle (s : StopMarks) (id : string) (stamp : Z) : StopMarks :=
  match marks s !! id with
  | Some l => if has_stamp stamp l then set_marks s id (trimmed (settle_in stamp l)) else s
  | None => s
  end.

Definition delete (s : StopMarks) (id : string) : StopMarks := mkMarks (seq s) (base.delete id (marks s)) (ids s ∖ {[id]}).

(** [splice(index, 1)] at the first mark with the stamp. *)
Fixpoint drop_in (stamp : Z) (l : list Mark) : list Mark :=
  match l with [] => [] | m :: r => if stamp_of m =? stamp then r else m :: drop_in stamp r end.
Definition deleteStamped (s : StopMarks) (id : string) (stamp : Z) : bool * StopMarks :=
  match marks s !! id with
  | Some l =>
      if has_stamp stamp l then
        let l := drop_in stamp l in
        let s := set_marks s id l in
        (true, match l with [] => delete s id | _ => s end)
      else (false, s)
  | None => (false, s)
  end.

Definition dropFinished (s : StopMarks) (id : string) : StopMarks :=
  match List.filter pending (marks_of s id) with
  | [] => delete s id
  | inFlight => set_marks s id inFlight
  end.

Definition stamp (s : StopMarks) (id : string) : option Z := stamp_of <$> last (marks_of s id).
Definition has (s : StopMarks) (id : string) : bool := bool_decide (id ∈ ids s).
Definition markedSince (s : StopMarks) (id : string) (seen : option Z) : bool :=
  match stamp s id with
  | Some newest => match seen with Some seen => seen <? newest | None => true end
  | None => false
  end.

(** ** A class that keeps every mark *)

Record Ledger := mkLedger { l_seq : Z; l_marks : string -> list Mark }.
Definition blank : Ledger := mkLedger 0 (fun _ => []).
Definition put (a : Ledger) (id : string) (l : list Mark) : Ledger := mkLedger (l_seq a) (fun i => if String.eqb i id then l else l_marks a i).

Inductive Op := Add (id : string) | Hold (id : string) | Settle (id : string) (stamp : Z) | Delete (id : string) | DropStamped (id : string) (stamp : Z) | DropFinished (id : string).

Definition ledger_op (o : Op) (a : Ledger) : Ledger :=
  match o with
  | Add id => put (mkLedger (l_seq a + 1) (l_marks a)) id (l_marks a id ++ [mkMark (l_seq a + 1) false])%list
  | Hold id => put (mkLedger (l_seq a + 1) (l_marks a)) id (l_marks a id ++ [mkMark (l_seq a + 1) true])%list
  | Settle id t => put a id (settle_in t (l_marks a id))
  | Delete id => put a id []
  | DropStamped id t => put a id (drop_in t (l_marks a id))
  | DropFinished id => put a id (List.filter pending (l_marks a id))
  end.

Definition marks_op (o : Op) (s : StopMarks) : StopMarks :=
  match o with
  | Add id => add s id
  | Hold id => snd (hold s id)
  | Settle id t => settle s id t
  | Delete id => delete s id
  | DropStamped id t => snd (deleteStamped s id t)
  | DropFinished id => dropFinished s id
  end.

(** The protocol of the callers: the mark dropped by its stamp is of an operation
    still in flight. *)
Definition allowed (o : Op) (a : Ledger) : Prop :=
  match o with DropStamped id t => Forall (fun m => stamp_of m = t -> pending m = true) (l_marks a id) | _ => True end.

Inductive history : list Op -> Ledger -> StopMarks -> Prop :=
| h_nil : history [] blank no_marks
| h_cons o os a s : history os a s -> allowed o a -> history (o :: os) (ledger_op o a) (marks_op o s).

(** ** The cut *)

Definition fin (l : list Mark) : Z := Z.of_nat (length (List.filter finished l)).

Lemma fin_cons m l : fin (m :: l) = (if pending m then 0 else 1) + fin l.
Proof. unfold fin, finished. cbn. destruct (pending m); cbn [negb length]; lia. Qed.
Lemma fin_app l k : fin (l ++ k) = fin l + fin k.
Proof. unfold fin. rewrite List.filter_app, length_app. lia. Qed.
Lemma fin_pos l : 0 <= fin l.
Proof. unfold fin. lia. Qed.

Lemma trimmed_cons m l :
  trimmed (m :: l) = if pending m then m :: trimmed l else if fin (m :: l) <=? 4 then m :: trimmed l else trimmed l.
Proof.
  change (trimmed (m :: l)) with (keep (fin (m :: l)) (m :: l)). change (trimmed l) with (keep (fin l) l). cbn [keep]. unfold FINISHED_MARKS_KEPT. rewrite fin_cons.
  destruct (pending m); [done|]. replace (1 + fin l - 1) with (fin l) by lia. done.
Qed.

Ltac cut_cases := repeat match goal with |- context [?a <=? ?b] => destruct (Z.leb_spec a b) end; try lia; try done.

Lemma fin_trimmed l : fin (trimmed l) = Z.min 4 (fin l).
Proof.
  induction l as [|m l IH]; [done|]. rewrite trimmed_cons. pose proof (fin_pos l). destruct (pending m) eqn:Hp.
  - rewrite !fin_cons, Hp, IH. lia.
  - rewrite (fin_cons m l), Hp. cut_cases; rewrite ?fin_cons, ?Hp; lia.
Qed.

Lemma trimmed_app l k : trimmed (trimmed l ++ k) = trimmed (l ++ k).
Proof.
  induction l as [|m l IH]; [done|]. pose proof (fin_pos l). pose proof (fin_pos k). rewrite (trimmed_cons m l).
  cbn [app]. rewrite (trimmed_cons m (l ++ k)). destruct (pending m) eqn:Hp.
  - cbn [app]. rewrite trimmed_cons, Hp. by rewrite IH.
  - rewrite !fin_cons, Hp, fin_app. destruct (Z.leb_spec (1 + fin l) 4).
    + cbn [app]. rewrite trimmed_cons, Hp, fin_cons, Hp, fin_app, fin_trimmed, IH. cut_cases.
    + rewrite IH. cut_cases.
Qed.

Lemma trimmed_twice l : trimmed (trimmed l) = trimmed l.
Proof. pose proof (trimmed_app l []) as H. by rewrite !app_nil_r in H. Qed.

Lemma trimmed_nil l : trimmed l = [] <-> l = [].
Proof.
  split; [|by intros ->]. induction l as [|m l IH]; [done|]. rewrite trimmed_cons. destruct (pending m) eqn:Hp; [done|].
  rewrite fin_cons, Hp. cut_cases. intros Ht. specialize (IH Ht). subst l. unfold fin in *. cbn in *. lia.
Qed.

Lemma last_trimmed l : last (trimmed l) = last l.
Proof.
  induction l as [|m l IH]; [done|]. rewrite trimmed_cons. destruct (decide (l = [])) as [->|Hne].
  - destruct (pending m) eqn:Hp; [done|]. rewrite fin_cons, Hp. cbn. done.
  - destruct l as [|m' l']; [done|]. set (l := m' :: l') in *. change (last (m :: l)) with (last l). rewrite <- IH.
    assert (trimmed l <> []) as Ht by (rewrite trimmed_nil; done). destruct (trimmed l) as [|a r] eqn:E; [done|].
    destruct (pending m); [done|]. by destruct (_ <=? _).
Qed.

Lemma pending_trimmed l : List.filter pending (trimmed l) = List.filter pending l.
Proof.
  induction l as [|m l IH]; [done|]. rewrite trimmed_cons. cbn. destruct (pending m) eqn:Hp; cbn; [by rewrite Hp, IH|].
  destruct (_ <=? _); cbn; rewrite ?Hp; done.
Qed.

Definition in_flight (t : Z) (l : list Mark) : Prop := Forall (fun m => stamp_of m = t -> pending m = true) l.

Lemma trimmed_incl m l : m ∈ trimmed l -> m ∈ l.
Proof.
  induction l as [|m' l IH]; [done|]. rewrite trimmed_cons. destruct (pending m'); [|destruct (_ <=? _)]; rewrite ?elem_of_cons; naive_solver.
Qed.

Lemma has_stamp_spec t l : has_stamp t l = true <-> exists m, m ∈ l /\ stamp_of m = t.
Proof.
  unfold has_stamp. rewrite existsb_exists. split; intros (m & Hm & Ht); exists m; (split; [by apply list_elem_of_In|]); by apply Z.eqb_eq.
Qed.

Lemma has_trimmed t l : in_flight t l -> has_stamp t (trimmed l) = has_stamp t l.
Proof.
  intros H. induction l as [|m l IH]; [done|]. apply Forall_cons in H as [Hm H]. specialize (IH H). rewrite trimmed_cons.
  destruct (Z.eqb_spec (stamp_of m) t) as [E|E].
  - rewrite (Hm E). cbn. by destruct (Z.eqb_spec (stamp_of m) t).
  - assert (has_stamp t (m :: l) = has_stamp t l) as -> by (cbn; by destruct (Z.eqb_spec (stamp_of m) t)). rewrite <- IH.
    assert (has_stamp t (m :: trimmed l) = has_stamp t (trimmed l)) as E2 by (cbn; by destruct (Z.eqb_spec (stamp_of m) t)).
    destruct (pending m); [done|]. by destruct (_ <=? _).
Qed.

Lemma settle_absent t l : has_stamp t l = false -> settle_in t l = l.
Proof. induction l as [|m l IH]; [done|]. cbn. destruct (Z.eqb_spec (stamp_of m) t); [done|]. intros H. by rewrite IH. Qed.
Lemma settle_done t l : Forall (fun m => stamp_of m = t -> pending m = false) l -> settle_in t l = l.
Proof.
  induction l as [|m l IH]; [done|]. intros [Hm H]%Forall_cons. cbn. destruct (Z.eqb_spec (stamp_of m) t) as [E|]; [|by rewrite IH].
  destruct m as [x p]. cbn in *. by rewrite E, (Hm E).
Qed.
Lemma fin_settle t l : in_flight t l -> fin (settle_in t l) = fin l + (if has_stamp t l then 1 else 0).
Proof.
  induction l as [|m l IH]; [done|]. intros [Hm H]%Forall_cons. cbn [settle_in has_stamp existsb]. destruct (Z.eqb_spec (stamp_of m) t) as [E|E].
  - rewrite !fin_cons, (Hm E). cbn. lia.
  - rewrite !fin_cons, IH by done. cbn. fold (has_stamp t l). lia.
Qed.

Lemma trimmed_settle t l : in_flight t l -> trimmed (settle_in t (trimmed l)) = trimmed (settle_in t l).
Proof.
  induction l as [|m l IH]; [done|]. intros [Hm H]%Forall_cons. specialize (IH H). pose proof (fin_pos l). rewrite (trimmed_cons m l).
  cbn [settle_in]. destruct (Z.eqb_spec (stamp_of m) t) as [E|E].
  - rewrite (Hm E). cbn [settle_in]. rewrite E, Z.eqb_refl, !trimmed_cons, trimmed_twice. cbn [pending]. rewrite !fin_cons. cbn [pending]. rewrite fin_trimmed. cut_cases.
  - assert (forall r, settle_in t (m :: r) = m :: settle_in t r) as Hs by (intros r; cbn; by destruct (Z.eqb_spec (stamp_of m) t)).
    rewrite (trimmed_cons m (settle_in t l)). destruct (pending m) eqn:Hp; [by rewrite Hs, trimmed_cons, Hp, IH|].
    rewrite !fin_cons, Hp, fin_settle by done. destruct (Z.leb_spec (1 + fin l) 4).
    + rewrite Hs, trimmed_cons, Hp, fin_cons, Hp, IH.
      assert (in_flight t (trimmed l)) as Ht by (apply Forall_forall; intros x Hx; rewrite Forall_forall in H; by apply H, trimmed_incl).
      rewrite fin_settle, has_trimmed, fin_trimmed by done. destruct (has_stamp t l); cut_cases.
    + rewrite IH. destruct (has_stamp t l); cut_cases.
Qed.

Lemma trimmed_drop t l : in_flight t l -> drop_in t (trimmed l) = trimmed (drop_in t l).
Proof.
  induction l as [|m l IH]; [done|]. intros [Hm H]%Forall_cons. specialize (IH H). rewrite (trimmed_cons m l). cbn [drop_in].
  assert (fin (drop_in t l) = fin l) as Hf.
  { clear -H. induction l as [|x l IH]; [done|]. apply Forall_cons in H as [Hx H]. cbn. destruct (Z.eqb_spec (stamp_of x) t) as [E|]; rewrite !fin_cons; [rewrite (Hx E); lia|by rewrite IH]. }
  destruct (Z.eqb_spec (stamp_of m) t) as [E|E].
  - rewrite (Hm E). cbn. by rewrite E, Z.eqb_refl.
  - assert (forall r, drop_in t (m :: r) = m :: drop_in t r) as Hs by (intros r; cbn; by destruct (Z.eqb_spec (stamp_of m) t)).
    rewrite (trimmed_cons m (drop_in t l)). destruct (pending m) eqn:Hp; [by rewrite Hs, IH|]. rewrite !fin_cons, Hp, Hf. destruct (_ <=? _); [by rewrite Hs, IH|done].
Qed.

(** ** The refinement *)

Fixpoint stamps (l : list Mark) : list Z := match l with [] => [] | m :: r => stamp_of m :: stamps r end.

Lemma stamps_app l k : stamps (l ++ k) = (stamps l ++ stamps k)%list.
Proof. induction l as [|m l IH]; [done|]. cbn. by rewrite IH. Qed.
Lemma stamps_elem m l : m ∈ l -> stamp_of m ∈ stamps l.
Proof. induction 1; cbn; [by left|by right]. Qed.

Record implements (a : Ledger) (s : StopMarks) : Prop := mkImpl {
  im_seq : seq s = l_seq a;
  im_marks : forall id, marks_of s id = trimmed (l_marks a id);
  im_ids : forall id, id ∈ ids s <-> l_marks a id <> [];
  im_sorted : forall id, StronglySorted Z.lt (stamps (l_marks a id));
  im_bound : forall id, Forall (fun t => t <= l_seq a) (stamps (l_marks a id))
}.

Lemma marks_insert s id l q ii i : marks_of (mkMarks q (<[id := l]> (marks s)) ii) i = if String.eqb i id then l else marks_of s i.
Proof. unfold marks_of. cbn. destruct (String.eqb_spec i id) as [->|Hne]; [by rewrite lookup_insert_eq|by rewrite lookup_insert_ne]. Qed.
Lemma marks_delete s id q ii i : marks_of (mkMarks q (base.delete id (marks s)) ii) i = if String.eqb i id then [] else marks_of s i.
Proof. unfold marks_of. cbn. destruct (String.eqb_spec i id) as [->|Hne]; [by rewrite lookup_delete_eq|by rewrite lookup_delete_ne]. Qed.

(** One id's list replaced on both sides. *)
Lemma put_ok a s q id l s' :
  implements a s -> l_seq a <= q -> seq s' = q -> (forall i, marks_of s' i = if String.eqb i id then trimmed l else marks_of s i) ->
  (forall i, i ∈ ids s' <-> if String.eqb i id then l <> [] else i ∈ ids s) ->
  StronglySorted Z.lt (stamps l) -> Forall (fun t => t <= q) (stamps l) ->
  implements (put (mkLedger q (l_marks a)) id l) s'.
Proof.
  intros [I1 I2 I3 I4 I5] Hq Hs Hm Hi Hso Hb. split; cbn; [done| | | |]; intros i; [rewrite Hm|rewrite Hi| |]; destruct (String.eqb i id); auto.
  eapply Forall_impl; [exact (I5 i)|]. cbn. lia.
Qed.

Lemma stamps_settle t l : stamps (settle_in t l) = stamps l.
Proof. induction l as [|m l IH]; [done|]. cbn. destruct (Z.eqb_spec (stamp_of m) t) as [E|]; cbn; [by rewrite E|by rewrite IH]. Qed.

Lemma drop_incl t l x : x ∈ stamps (drop_in t l) -> x ∈ stamps l.
Proof. induction l as [|m l IH]; [done|]. cbn. destruct (_ =? _); cbn; rewrite ?elem_of_cons; tauto. Qed.
Lemma filter_incl (f : Mark -> bool) l x : x ∈ stamps (List.filter f l) -> x ∈ stamps l.
Proof. induction l as [|m l IH]; [done|]. cbn. destruct (f m); cbn; rewrite ?elem_of_cons; tauto. Qed.
Lemma sorted_drop t l : StronglySorted Z.lt (stamps l) -> StronglySorted Z.lt (stamps (drop_in t l)).
Proof.
  induction l as [|m l IH]; [done|]. cbn. intros [Hs Hf]%StronglySorted_inv. destruct (_ =? _); [done|]. constructor; [by apply IH|].
  apply Forall_forall. intros x Hx. rewrite Forall_forall in Hf. by apply Hf, (drop_incl t).
Qed.
Lemma sorted_filter (f : Mark -> bool) l : StronglySorted Z.lt (stamps l) -> StronglySorted Z.lt (stamps (List.filter f l)).
Proof.
  induction l as [|m l IH]; [done|]. cbn. intros [Hs Hf]%StronglySorted_inv. destruct (f m); [|by apply IH]. constructor; [by apply IH|].
  apply Forall_forall. intros x Hx. rewrite Forall_forall in Hf. by apply Hf, (filter_incl f).
Qed.

Lemma push_ok a s id p : implements a s -> implements (put (mkLedger (l_seq a + 1) (l_marks a)) id (l_marks a id ++ [mkMark (l_seq a + 1) p])%list) (snd (push s id p)).
Proof.
  intros HI. pose proof HI as [I1 I2 I3 I4 I5]. unfold push. cbn [snd]. eapply put_ok; [exact HI|lia|cbn; lia| | | |].
  - intros i. rewrite marks_insert, I1, (I2 id), trimmed_app. done.
  - intros i. cbn. destruct (String.eqb_spec i id) as [->|Hne]; [|set_solver]. split; [|set_solver]. intros _ E. by apply app_nil in E as [_ E].
  - rewrite stamps_app. apply StronglySorted_app. split_and!; [|apply I4|repeat constructor].
    intros x y Hx Hy. cbn in Hy. apply list_elem_of_singleton in Hy as ->. specialize (I5 id). rewrite Forall_forall in I5. specialize (I5 x Hx). lia.
  - rewrite stamps_app. apply Forall_app. split; [|repeat constructor; cbn; lia]. eapply Forall_impl; [exact (I5 id)|]. cbn. lia.
Qed.

Lemma put_same a : forall id l, l_marks a id = l -> forall s, implements a s -> implements (put a id l) s.
Proof.
  intros id l <- s [I1 I2 I3 I4 I5]. split; cbn; [done| | | |]; intros i; destruct (String.eqb_spec i id) as [->|]; auto.
Qed.

(** Each mark has a stamp of its own: it is in flight, or done. *)
Lemma in_flight_or_done t l : StronglySorted Z.lt (stamps l) -> in_flight t l \/ Forall (fun m => stamp_of m = t -> pending m = false) l.
Proof.
  induction l as [|m l IH]; [by left; constructor|]. cbn. intros [Hs Hf]%StronglySorted_inv.
  destruct (Z.eqb_spec (stamp_of m) t) as [E|E].
  - assert (forall b, Forall (fun m => stamp_of m = t -> pending m = b) l) as Hl.
    { intros b. apply Forall_forall. intros x Hx Hxt. rewrite Forall_forall in Hf. specialize (Hf (stamp_of x)). exfalso.
      assert (stamp_of m < stamp_of x) by (by apply Hf, stamps_elem). lia. }
    destruct (pending m) eqn:Hp; [left|right]; constructor; auto; apply Hl.
  - destruct (IH Hs) as [H|H]; [left|right]; constructor; auto; done.
Qed.

(** The class's own list replaced. *)
Lemma set_ok a s id l ii :
  implements a s -> StronglySorted Z.lt (stamps l) -> Forall (fun t => t <= l_seq a) (stamps l) ->
  (forall i, i ∈ ii <-> if String.eqb i id then l <> [] else i ∈ ids s) ->
  implements (put a id l) (mkMarks (seq s) (<[id := trimmed l]> (marks s)) ii).
Proof.
  intros HI Hs Hb Hi. destruct a as [q am]. apply (put_ok (mkLedger q am) s q id l); try done; [apply (im_seq _ _ HI)|].
  intros i. apply marks_insert.
Qed.
Lemma unset_ok a s id : implements a s -> implements (put a id []) (delete s id).
Proof.
  intros HI. destruct a as [q am]. apply (put_ok (mkLedger q am) s q id []); try done; [apply (im_seq _ _ HI)| | |apply SSorted_nil].
  - intros i. apply marks_delete.
  - intros i. cbn. destruct (String.eqb_spec i id) as [->|]; set_solver.
Qed.

Lemma ids_stay a s id (l : list Mark) : implements a s -> l_marks a id <> [] -> l <> [] -> forall i, i ∈ ids s <-> if String.eqb i id then l <> [] else i ∈ ids s.
Proof. intros HI Ha Hl i. destruct (String.eqb_spec i id) as [->|]; [|done]. by rewrite (im_ids _ _ HI). Qed.

Lemma marks_found s id l : marks s !! id = Some l -> marks_of s id = l.
Proof. unfold marks_of. by intros ->. Qed.

Lemma settle_ok a s id t : implements a s -> implements (ledger_op (Settle id t) a) (settle s id t).
Proof.
  intros HI. cbn. pose proof (im_marks _ _ HI id) as Hm. unfold settle.
  assert (settle_in t (l_marks a id) = l_marks a id -> forall s', s' = s -> implements (put a id (settle_in t (l_marks a id))) s') as Hsame.
  { intros E s' ->. apply put_same; [by rewrite E|done]. }
  destruct (in_flight_or_done t (l_marks a id) (im_sorted _ _ HI id)) as [Hf|Hd].
  - destruct (marks s !! id) as [l|] eqn:El.
    + rewrite (marks_found _ _ _ El) in Hm. subst l. rewrite (has_trimmed t _ Hf). destruct (has_stamp t (l_marks a id)) eqn:Hh; [|by apply Hsame; [apply settle_absent|]].
      rewrite trimmed_settle by done. unfold set_marks. apply set_ok; [done|rewrite stamps_settle; apply (im_sorted _ _ HI)|rewrite stamps_settle; apply (im_bound _ _ HI)|].
      apply (ids_stay a); [done| |]; [intros E; by rewrite E in Hh|]. intros E. apply (f_equal stamps) in E. rewrite stamps_settle in E. by destruct (l_marks a id).
    + unfold marks_of in Hm. rewrite El in Hm. cbn in Hm. symmetry in Hm. apply (proj1 (trimmed_nil _)) in Hm. apply Hsame; [by rewrite Hm|done].
  - pose proof (settle_done t _ Hd) as E. destruct (marks s !! id) as [l|] eqn:El; [|by apply Hsame]. rewrite (marks_found _ _ _ El) in Hm. subst l.
    destruct (has_stamp t (trimmed (l_marks a id))) eqn:Hh; [|by apply Hsame].
    assert (Forall (fun m => stamp_of m = t -> pending m = false) (trimmed (l_marks a id))) as Hd'.
    { apply Forall_forall. intros x Hx. rewrite Forall_forall in Hd. by apply Hd, trimmed_incl. }
    rewrite (settle_done t _ Hd'), E, (trimmed_twice (l_marks a id)). unfold set_marks. apply set_ok; [done|apply (im_sorted _ _ HI)|apply (im_bound _ _ HI)|].
    assert (l_marks a id <> []) as Hne by (intros E2; by rewrite E2 in Hh). by apply (ids_stay a).
Qed.

Lemma drop_ok a s id t : implements a s -> in_flight t (l_marks a id) -> implements (ledger_op (DropStamped id t) a) (snd (deleteStamped s id t)).
Proof.
  intros HI Hf. cbn. pose proof (im_marks _ _ HI id) as Hm. unfold deleteStamped.
  assert (forall l, has_stamp t l = false -> drop_in t l = l) as Habs.
  { induction l as [|m l IH]; [done|]. cbn. destruct (Z.eqb_spec (stamp_of m) t); [done|]. intros H. by rewrite IH. }
  assert (Forall (fun x => x <= l_seq a) (stamps (drop_in t (l_marks a id)))) as Hb.
  { apply Forall_forall. intros x Hx. pose proof (im_bound _ _ HI id) as Hb. rewrite Forall_forall in Hb. by apply Hb, (drop_incl t). }
  destruct (marks s !! id) as [l|] eqn:El.
  - rewrite (marks_found _ _ _ El) in Hm. subst l. rewrite (has_trimmed t _ Hf), (trimmed_drop t _ Hf). destruct (has_stamp t (l_marks a id)) eqn:Hh; cbn [snd].
    + destruct (trimmed (drop_in t (l_marks a id))) as [|m r] eqn:Et.
      * apply (proj1 (trimmed_nil _)) in Et. rewrite Et. destruct s as [q am ii]. cbn.
        assert (delete (set_marks (mkMarks q am ii) id []) id = delete (mkMarks q am ii) id) as -> by (unfold delete; cbn; by rewrite delete_insert_eq).
        by apply unset_ok.
      * rewrite <- Et. unfold set_marks. apply set_ok; [done|by apply sorted_drop, (im_sorted _ _ HI)|done|].
        apply (ids_stay a); [done| |]; [intros E; by rewrite E in Hh|]. intros E. by rewrite E in Et.
    + apply put_same; [by rewrite Habs|done].
  - unfold marks_of in Hm. rewrite El in Hm. cbn in Hm. symmetry in Hm. apply (proj1 (trimmed_nil _)) in Hm. apply put_same; [by rewrite Hm|done].
Qed.

Lemma dropFinished_ok a s id : implements a s -> implements (ledger_op (DropFinished id) a) (dropFinished s id).
Proof.
  intros HI. cbn. unfold dropFinished. rewrite (im_marks _ _ HI id), pending_trimmed. set (l := List.filter pending (l_marks a id)).
  assert (trimmed l = l) as Ht.
  { subst l. generalize (l_marks a id). induction l as [|m l IH]; [done|]. cbn [List.filter]. destruct (pending m) eqn:Hp; [|done]. by rewrite trimmed_cons, Hp, IH. }
  destruct l as [|m r] eqn:El; [by apply unset_ok|]. unfold set_marks. rewrite <- Ht at 2. apply set_ok; [done| | |].
  - rewrite <- El. by apply sorted_filter, (im_sorted _ _ HI).
  - rewrite <- El. apply Forall_forall. intros x Hx. pose proof (im_bound _ _ HI id) as Hb. rewrite Forall_forall in Hb. by apply Hb, (filter_incl pending).
  - apply (ids_stay a); [done| |done]. intros E. subst l. by rewrite E in El.
Qed.

Lemma marks_step o a s : implements a s -> allowed o a -> implements (ledger_op o a) (marks_op o s).
Proof.
  intros HI Ho. destruct o as [id|id|id t|id|id t|id]; cbn [ledger_op marks_op].
  - by apply push_ok.
  - by apply push_ok.
  - by apply settle_ok.
  - by apply unset_ok.
  - by apply drop_ok.
  - by apply dropFinished_ok.
Qed.

Lemma history_implements os a s : history os a s -> implements a s.
Proof.
  induction 1 as [|o os a s H IH Ho]; [|by apply marks_step]. split; cbn; [done|done| | |]; intros id; [|apply SSorted_nil|apply Forall_nil_2].
  split; [by intros ?%not_elem_of_empty|done].
Qed.

Lemma newest_mark l x : StronglySorted Z.lt (stamps l) -> last l = Some x -> forall m, m ∈ l -> stamp_of m <= stamp_of x.
Proof.
  intros Hs Hl m Hm. apply last_Some in Hl as [l' ->]. apply elem_of_app in Hm as [Hm|Hm%list_elem_of_singleton]; [|by subst].
  rewrite stamps_app in Hs. pose proof (StronglySorted_app_1_elem_of _ _ _ (stamp_of m) (stamp_of x) Hs (stamps_elem _ _ Hm)) as H. cbn in H.
  assert (stamp_of m < stamp_of x) by (apply H; by left). lia.
Qed.

(** C34. The stop marks answer as if every mark were kept: over any history in which
    operations drop only marks of their own that are still in flight, an id is
    marked exactly when a mark of it is left, and a start sees it marked since
    [seen] exactly when a mark set after that is left, although the class forgets
    all but the newest four finished marks. *)
Theorem stop_marks_forget_nothing_that_counts os a s id :
  history os a s ->
  (has s id = true <-> l_marks a id <> []) /\
  (forall seen, markedSince s id seen = true <->
     exists m, m ∈ l_marks a id /\ match seen with Some t => t < stamp_of m | None => True end).
Proof.
  intros H. apply history_implements in H as HI. split.
  - unfold has. rewrite bool_decide_eq_true. apply (im_ids _ _ HI).
  - intros seen. unfold markedSince, stamp. rewrite (im_marks _ _ HI id), last_trimmed. destruct (last (l_marks a id)) as [x|] eqn:El; cbn.
    + pose proof (newest_mark _ x (im_sorted _ _ HI id) El) as Hn. apply last_Some in El as [l' El].
      assert (x ∈ l_marks a id) as Hx by (rewrite El; apply elem_of_app; right; by left).
      destruct seen as [t|]; [|split; [intros _; by exists x|done]]. rewrite Z.ltb_lt. split; [intros Ht; by exists x|].
      intros (m & Hm & Ht). specialize (Hn m Hm). lia.
    + apply last_None in El. rewrite El. split; [done|]. by intros (m & Hm%not_elem_of_nil & _).
Qed.

(** Six stops that finished, one in flight that fails, a start that saw the third. *)
Definition ops_w : list Op := [DropStamped "s" 7; Hold "s"; Add "s"; Add "s"; Add "s"; Add "s"; Add "s"; Add "s"].
Definition ledger_w : Ledger := fold_right ledger_op blank ops_w.
Definition marks_w : StopMarks := fold_right marks_op no_marks ops_w.

Lemma history_w : history ops_w ledger_w marks_w.
Proof.
  unfold ledger_w, marks_w, ops_w. cbn [fold_right]. repeat (apply h_cons; [|try done]); [apply h_nil|]. vm_compute. repeat constructor; done.
Qed.

Lemma stop_marks_forget_nothing_that_counts_witness :
  length (marks_of marks_w "s") = 4%nat /\ length (l_marks ledger_w "s") = 6%nat /\ markedSince marks_w "s" (Some 3) = true.
Proof.
  split; [vm_compute; reflexivity|]. split; [vm_compute; reflexivity|].
  apply (stop_marks_forget_nothing_that_counts ops_w ledger_w marks_w "s" history_w). exists (mkMark 6 false).
  split; [apply list_elem_of_In; vm_compute; tauto|vm_compute; reflexivity].
Defined.
