(* ===== verification/WriteScope.v ===== *)
(** * Session write scopes

    common/utils/session-write-scope.ts: a database write about a session is made
    through a scope captured for the session's current lifetime; deleting the session
    closes admission, tells the scopes, waits for the writes in flight, and releases.
    The states, generations and closures are objects shared by reference, so the model
    has a store of each.  One [source] is modelled: the states of different sources
    never meet.

    The file proves that a drained session has no write left running until it is
    released, which scopes admit writes, that no state outlives its users, and that
    each retirement listener is told once. *)
From stdpp Require Import gmap fin_sets.
From S2P Require Import Prelude Counting.
Local Open Scope Z_scope.

Record WriteState := mkState { captures : Z; closing : Z; generation : nat; writes : gset nat }.
Record Generation := mkGen { retired : bool; listeners : list nat }.

(** What [captureSessionWrites] closes over: the state and generation it found, its
    [closed] flag and its [subscriptions]. *)
Record Scope := mkScope { sc_session : string; sc_state : nat; sc_gen : nat; closed : bool; subscriptions : list nat }.

(** A call of [write]: admitted, its operation running, the operation settled, its
    [finally] over. *)
Inductive Phase := Queued | Running | Settled | Done.
#[export] Instance Phase_eq : EqDecision Phase.
Proof. solve_decision. Defined.
Record Write := mkWrite { w_session : string; w_state : nat; phase : Phase }.

(** A call of [closeSessionWrites]: while [notifying], its loop is going over the
    listeners of a generation. *)
Record Closer := mkCloser { cl_session : string; cl_state : nat; notifying : option nat; released : bool }.
(** A call of [drain] and the writes it waits for. *)
Record Drain := mkDrain { d_closer : nat; waits : gset nat; over : bool }.

(** [made] says whose scope a listener was given to, [fired] which were called.  [cut]
    and [disposed] are for the statements only: the scopes whose session was closed
    since they were captured, and the listeners withdrawn before they were called. *)
Record World := mkWorld {
  sessions : gmap string nat; states : gmap nat WriteState; gens : gmap nat Generation;
  scopes : gmap nat Scope; ws : gmap nat Write; closers : gmap nat Closer; drains : gmap nat Drain;
  made : gmap nat nat; fired : list nat; cut : gset nat; disposed : gset nat }.
Definition start : World := mkWorld ∅ ∅ ∅ ∅ ∅ ∅ ∅ ∅ [] ∅ ∅.

Definition st (w : World) (r : nat) : WriteState := default (mkState 0 0 0 ∅) (states w !! r).
Definition gn (w : World) (g : nat) : Generation := default (mkGen false []) (gens w !! g).

Definition put_session (w : World) m := mkWorld m (states w) (gens w) (scopes w) (ws w) (closers w) (drains w) (made w) (fired w) (cut w) (disposed w).
Definition put_st (w : World) r x := mkWorld (sessions w) (<[r := x]> (states w)) (gens w) (scopes w) (ws w) (closers w) (drains w) (made w) (fired w) (cut w) (disposed w).
Definition put_gn (w : World) g x := mkWorld (sessions w) (states w) (<[g := x]> (gens w)) (scopes w) (ws w) (closers w) (drains w) (made w) (fired w) (cut w) (disposed w).
Definition put_scope (w : World) k x := mkWorld (sessions w) (states w) (gens w) (<[k := x]> (scopes w)) (ws w) (closers w) (drains w) (made w) (fired w) (cut w) (disposed w).
Definition put_write (w : World) n x := mkWorld (sessions w) (states w) (gens w) (scopes w) (<[n := x]> (ws w)) (closers w) (drains w) (made w) (fired w) (cut w) (disposed w).
Definition put_closer (w : World) c x := mkWorld (sessions w) (states w) (gens w) (scopes w) (ws w) (<[c := x]> (closers w)) (drains w) (made w) (fired w) (cut w) (disposed w).
Definition put_drain (w : World) d x := mkWorld (sessions w) (states w) (gens w) (scopes w) (ws w) (closers w) (<[d := x]> (drains w)) (made w) (fired w) (cut w) (disposed w).
Definition put_made (w : World) l k := mkWorld (sessions w) (states w) (gens w) (scopes w) (ws w) (closers w) (drains w) (<[l := k]> (made w)) (fired w) (cut w) (disposed w).
Definition fire (w : World) l := mkWorld (sessions w) (states w) (gens w) (scopes w) (ws w) (closers w) (drains w) (made w) (l :: fired w) (cut w) (disposed w).
Definition put_cut (w : World) x := mkWorld (sessions w) (states w) (gens w) (scopes w) (ws w) (closers w) (drains w) (made w) (fired w) x (disposed w).
Definition put_disposed (w : World) x := mkWorld (sessions w) (states w) (gens w) (scopes w) (ws w) (closers w) (drains w) (made w) (fired w) (cut w) x.

(** ** The operations *)

Definition stateFor (w : World) (id : string) : World * nat :=
  match sessions w !! id with
  | Some r => (w, r)
  | None =>
      let g := fresh (dom (gens w)) in
      let r := fresh (dom (states w)) in
      (put_session (put_st (put_gn w g (mkGen false [])) r (mkState 0 0 g ∅)) (<[id := r]> (sessions w)), r)
  end.

Definition idle (x : WriteState) : bool := (captures x =? 0) && (closing x =? 0) && bool_decide (writes x = ∅).
Definition releaseIdle (w : World) (id : string) (r : nat) : World :=
  if idle (st w r) && bool_decide (sessions w !! id = Some r) then put_session w (delete id (sessions w)) else w.

(** The condition [assertCurrent] and [onRetire] share, negated. *)
Definition current (w : World) (sc : Scope) : bool :=
  negb (closed sc) && negb (retired (gn w (sc_gen sc))) && (closing (st w (sc_state sc)) =? 0)
  && bool_decide (sessions w !! sc_session sc = Some (sc_state sc)).

Definition captureSessionWrites (w : World) (k : nat) (id : string) : World :=
  let '(w, r) := stateFor w id in
  let x := st w r in
  let w := put_st w r (mkState (captures x + 1) (closing x) (generation x) (writes x)) in
  let w := put_scope w k (mkScope id r (generation x) false []) in
  if closing x =? 0 then w else put_cut w ({[k]} ∪ cut w).

Definition without (l : list nat) (gone : list nat) : list nat := List.filter (fun x => negb (bool_decide (x ∈ gone))) l.

(** The [dispose] of a listener. *)
Definition unlisten (w : World) (k : nat) (l : list nat) : World :=
  match scopes w !! k with
  | Some sc =>
      let g := gn w (sc_gen sc) in
      let w := put_gn w (sc_gen sc) (mkGen (retired g) (without (listeners g) l)) in
      put_scope w k (mkScope (sc_session sc) (sc_state sc) (sc_gen sc) (closed sc) (without (subscriptions sc) l))
  | None => w
  end.

Definition onRetire (w : World) (k l : nat) (sc : Scope) : World :=
  let w := put_made w l k in
  if current w sc then
    let g := gn w (sc_gen sc) in
    let w := put_gn w (sc_gen sc) (mkGen (retired g) (listeners g ++ [l])%list) in
    put_scope w k (mkScope (sc_session sc) (sc_state sc) (sc_gen sc) (closed sc) (subscriptions sc ++ [l])%list)
  else fire w l.

(** The subscriptions withdrawn while their listeners wait. *)
Definition withdraw (w : World) (k : nat) (l : list nat) : World :=
  let gone := match scopes w !! k with Some sc => List.filter (fun x => bool_decide (x ∈ l)) (subscriptions sc) | None => [] end in
  put_disposed (unlisten w k l) (list_to_set gone ∪ disposed w).

Definition write (w : World) (n : nat) (sc : Scope) : World :=
  if current w sc then
    let r := sc_state sc in let x := st w r in
    put_write (put_st w r (mkState (captures x) (closing x) (generation x) ({[n]} ∪ writes x))) n (mkWrite (sc_session sc) r Queued)
  else w.

Definition write_finally (w : World) (n : nat) (x : Write) : World :=
  let r := w_state x in let s := st w r in
  let w := put_st w r (mkState (captures s) (closing s) (generation s) (writes s ∖ {[n]})) in
  releaseIdle (put_write w n (mkWrite (w_session x) r Done)) (w_session x) r.

Definition close (w : World) (k : nat) (sc : Scope) : World :=
  if closed sc then w else
  let w := withdraw w k (subscriptions sc) in
  let w := put_scope w k (mkScope (sc_session sc) (sc_state sc) (sc_gen sc) true []) in
  let x := st w (sc_state sc) in
  let w := put_st w (sc_state sc) (mkState (captures x - 1) (closing x) (generation x) (writes x)) in
  releaseIdle w (sc_session sc) (sc_state sc).

Definition scopes_of (w : World) (id : string) : gset nat := dom (filter (fun p => sc_session (snd p) = id) (scopes w)).

(** [closeSessionWrites] up to its loop over the listeners. *)
Definition retire (w : World) (c : nat) (id : string) : World :=
  let '(w, r) := stateFor w id in
  let x := st w r in
  let w := put_st w r (mkState (captures x) (closing x + 1) (generation x) (writes x)) in
  let w := put_gn w (generation x) (mkGen true (listeners (gn w (generation x)))) in
  put_cut (put_closer w c (mkCloser id r (Some (generation x)) false)) (scopes_of w id ∪ cut w).

(** One turn of the loop: the first listener left disposes of itself and is called.
    What it calls in turn are other operations. *)
Definition notify (w : World) (g : nat) : World :=
  match listeners (gn w g) with
  | l :: _ => fire (match made w !! l with Some k => unlisten w k [l] | None => w end) l
  | [] => w
  end.
Definition closer_over (x : Closer) : Closer := mkCloser (cl_session x) (cl_state x) None (released x).
(** The end of the loop: the listeners are cleared, and the handle is returned. *)
Definition handle (w : World) (c : nat) (x : Closer) : World :=
  let g := generation (st w (cl_state x)) in
  put_closer (put_gn w g (mkGen (retired (gn w g)) [])) c (closer_over x).

Definition release (w : World) (c : nat) (x : Closer) : World :=
  if released x then w else
  let r := cl_state x in let s := st w r in
  let w := put_closer w c (mkCloser (cl_session x) r (notifying x) true) in
  let s := mkState (captures s) (closing s - 1) (generation s) (writes s) in
  let w :=
    if closing s =? 0 then
      let g := fresh (dom (gens w)) in
      put_st (put_gn w g (mkGen false [])) r (mkState (captures s) (closing s) g (writes s))
    else put_st w r s in
  releaseIdle w (cl_session x) r.

Definition settled (w : World) (n : nat) : bool :=
  match ws w !! n with Some x => bool_decide (phase x = Settled \/ phase x = Done) | None => true end.

(** ** Their interleavings *)

Inductive Op :=
| OpCapture (k : nat) (id : string) | OpOnRetire (k l : nat) | OpDispose (l : nat)
| OpWrite (k n : nat) | OpRun (n : nat) | OpSettle (n : nat) | OpFinally (n : nat) | OpClose (k : nat)
| OpRetire (c : nat) (id : string) | OpNotify (c : nat) | OpHandle (c : nat) | OpDrain (c d : nat) | OpDrained (d : nat) | OpRelease (c : nat).

Definition unused {A : Type} (m : gmap nat A) (k : nat) : bool := bool_decide (m !! k = None).
Definition when {A : Type} (b : bool) (x : A) : option A := if b then Some x else None.

(** One operation, when it can happen: a new call has a new number, a phase follows
    the one before, a handle is used once it was returned. *)
Definition do_op (o : Op) (w : World) : option World :=
  match o with
  | OpCapture k id => when (unused (scopes w) k) (captureSessionWrites w k id)
  | OpOnRetire k l => sc ← scopes w !! k; when (unused (made w) l) (onRetire w k l sc)
  | OpDispose l => k ← made w !! l; Some (withdraw w k [l])
  | OpWrite k n => sc ← scopes w !! k; when (unused (ws w) n) (write w n sc)
  | OpRun n => x ← ws w !! n; when (bool_decide (phase x = Queued)) (put_write w n (mkWrite (w_session x) (w_state x) Running))
  | OpSettle n => x ← ws w !! n; when (bool_decide (phase x = Running)) (put_write w n (mkWrite (w_session x) (w_state x) Settled))
  | OpFinally n => x ← ws w !! n; when (bool_decide (phase x = Settled)) (write_finally w n x)
  | OpClose k => sc ← scopes w !! k; Some (close w k sc)
  | OpRetire c id => when (unused (closers w) c) (retire w c id)
  | OpNotify c => x ← closers w !! c; g ← notifying x; when (negb (bool_decide (listeners (gn w g) = []))) (notify w g)
  | OpHandle c => x ← closers w !! c; g ← notifying x; when (bool_decide (listeners (gn w g) = [])) (handle w c x)
  | OpDrain c d =>
      x ← closers w !! c;
      when (bool_decide (notifying x = None) && unused (drains w) d) (put_drain w d (mkDrain c (writes (st w (cl_state x))) false))
  | OpDrained d =>
      x ← drains w !! d;
      when (forallb (settled w) (elements (waits x))) (put_drain w d (mkDrain (d_closer x) (waits x) true))
  | OpRelease c => x ← closers w !! c; when (bool_decide (notifying x = None)) (release w c x)
  end.

Definition step (w w' : World) : Prop := exists o, do_op o w = Some w'.
Definition reachable (w : World) : Prop := rtc step start w.

(** ** The states and their users *)

Definition open_in (r : nat) (x : Scope) : Z := if negb (closed x) && Nat.eqb (sc_state x) r then 1 else 0.
Definition held_in (r : nat) (x : Closer) : Z := if negb (released x) && Nat.eqb (cl_state x) r then 1 else 0.

(** The map holds the state of every open scope, unreleased closer and write not
    over; the counts are theirs; a generation is retired while a closer is
    unreleased, and a scope's is retired when it was cut.  [x] is the session an
    operation is about to look whether to reclaim. *)
Record Core (x : option string) (w : World) : Prop := mkCore {
  c_dom : forall id r, sessions w !! id = Some r -> r ∈ dom (states w) /\ generation (st w r) ∈ dom (gens w);
  c_inj : forall i j r, sessions w !! i = Some r -> sessions w !! j = Some r -> i = j;
  c_ginj : forall i j r r', sessions w !! i = Some r -> sessions w !! j = Some r' -> generation (st w r) = generation (st w r') -> r = r';
  c_cap : forall r, captures (st w r) = msum (open_in r) (scopes w);
  c_clo : forall r, closing (st w r) = msum (held_in r) (closers w);
  c_wr : forall r n, n ∈ writes (st w r) <-> exists y, ws w !! n = Some y /\ w_state y = r /\ phase y <> Done;
  c_sc : forall k y, scopes w !! k = Some y -> closed y = false -> sessions w !! sc_session y = Some (sc_state y);
  c_cl : forall c y, closers w !! c = Some y -> released y = false -> sessions w !! cl_session y = Some (cl_state y);
  c_ws : forall n y, ws w !! n = Some y -> phase y <> Done -> sessions w !! w_session y = Some (w_state y);
  c_busy : forall id r, sessions w !! id = Some r -> x <> Some id -> idle (st w r) = false;
  c_ret : forall id r, sessions w !! id = Some r -> retired (gn w (generation (st w r))) = (0 <? closing (st w r));
  c_gen : forall k y, scopes w !! k = Some y -> closed y = false ->
    retired (gn w (sc_gen y)) = bool_decide (k ∈ cut w) /\ (k ∉ cut w -> sc_gen y = generation (st w (sc_state y)));
  c_cut : cut w ⊆ dom (scopes w)
}.

Lemma open_nonneg r x : 0 <= open_in r x.
Proof. unfold open_in. destruct (_ && _); lia. Qed.
Lemma held_nonneg r x : 0 <= held_in r x.
Proof. unfold held_in. destruct (_ && _); lia. Qed.

Lemma st_put w r x r' : st (put_st w r x) r' = if decide (r' = r) then x else st w r'.
Proof. unfold st. cbn. destruct (decide (r' = r)) as [->|]; [by rewrite lookup_insert_eq|by rewrite lookup_insert_ne]. Qed.
Lemma gn_put w g x g' : gn (put_gn w g x) g' = if decide (g' = g) then x else gn w g'.
Proof. unfold gn. cbn. destruct (decide (g' = g)) as [->|]; [by rewrite lookup_insert_eq|by rewrite lookup_insert_ne]. Qed.

(** Looking up in a map with one entry put. *)
Lemma insert_cases {A : Type} (m : gmap nat A) k x i y : <[k := x]> m !! i = Some y -> (i = k /\ y = x) \/ (i <> k /\ m !! i = Some y).
Proof. destruct (decide (i = k)) as [->|]; [rewrite lookup_insert_eq; intros [= ->]; auto|rewrite lookup_insert_ne by done; auto]. Qed.

Lemma core_count x w r : Core x w -> 0 <= captures (st w r) /\ 0 <= closing (st w r).
Proof. intros H. rewrite (c_cap _ _ H), (c_clo _ _ H). split; apply msum_nonneg; intros ?; [apply open_nonneg|apply held_nonneg]. Qed.

Lemma closing_held x w c y : Core x w -> closers w !! c = Some y -> released y = false -> 1 <= closing (st w (cl_state y)).
Proof.
  intros H Hc Hr. rewrite (c_clo _ _ H). pose proof (at_le (held_in (cl_state y)) (closers w) c (held_nonneg _)) as Ha.
  unfold at_key in Ha. rewrite Hc in Ha. unfold held_in at 1 in Ha. by rewrite Hr, Nat.eqb_refl in Ha.
Qed.
Lemma captures_open x w k y : Core x w -> scopes w !! k = Some y -> closed y = false -> 1 <= captures (st w (sc_state y)).
Proof.
  intros H Hc Hr. rewrite (c_cap _ _ H). pose proof (at_le (open_in (sc_state y)) (scopes w) k (open_nonneg _)) as Ha.
  unfold at_key in Ha. rewrite Hc in Ha. unfold open_in at 1 in Ha. by rewrite Hr, Nat.eqb_refl in Ha.
Qed.

Lemma core_weaken x w : Core None w -> Core x w.
Proof. intros [H1 H2 H3 H4 H5 H6 H7 H8 H9 H10 H11 H12 H13]. split; auto. intros id r Hr _. by apply (H10 id r). Qed.

Lemma core_idle id r w : Core (Some id) w -> sessions w !! id = Some r -> Core None (releaseIdle w id r).
Proof.
  intros H Hid. unfold releaseIdle. destruct (idle (st w r)) eqn:Hi; cbn [andb].
  2: { destruct H as [H1 H2 H3 H4 H5 H6 H7 H8 H9 H10 H11 H12 H13]. split; auto. intros i r' Hr _. destruct (decide (i = id)) as [->|]; [congruence|]. apply (H10 i r' Hr). congruence. }
  rewrite bool_decide_true by done. unfold idle in Hi. apply andb_prop in Hi as [[Hc Hk]%andb_prop Hw%bool_decide_eq_true]. apply Z.eqb_eq in Hc, Hk.
  assert (forall i r', delete id (sessions w) !! i = Some r' -> i <> id /\ sessions w !! i = Some r') as Hd by (intros i r' [? ?]%lookup_delete_Some; auto).
  assert (forall i r', sessions w !! i = Some r' -> (i = id -> r' = r -> False) -> delete id (sessions w) !! i = Some r') as Hkeep.
  { intros i r' Hi Hno. apply lookup_delete_Some. split; [|done]. intros <-. apply Hno; [done|congruence]. }
  split; cbn; fold (st w); fold (gn w); try apply H.
  - intros i r' [_ Hi]%Hd. by apply (c_dom _ _ H i).
  - intros i j r' [_ Hi]%Hd [_ Hj]%Hd. by apply (c_inj _ _ H i j r').
  - intros i j r1 r2 [_ Hi]%Hd [_ Hj]%Hd. by apply (c_ginj _ _ H i j).
  - intros k y Hy Ho. apply Hkeep; [by apply (c_sc _ _ H k)|]. intros _ E. pose proof (captures_open _ _ _ _ H Hy Ho). rewrite E in *. lia.
  - intros c y Hy Ho. apply Hkeep; [by apply (c_cl _ _ H c)|]. intros _ E. pose proof (closing_held _ _ _ _ H Hy Ho). rewrite E in *. lia.
  - intros n y Hy Ho. apply Hkeep; [by apply (c_ws _ _ H n)|]. intros _ E. assert (n ∈ writes (st w r)) as Hn by (apply (c_wr _ _ H); eauto). rewrite Hw in Hn. by apply not_elem_of_empty in Hn.
  - intros i r' [Hne Hi]%Hd _. apply (c_busy _ _ H i r' Hi). congruence.
  - intros i r' [_ Hi]%Hd. by apply (c_ret _ _ H i).
Qed.

Lemma fresh_none {A : Type} (m : gmap nat A) : m !! fresh (dom m) = None.
Proof. apply not_elem_of_dom, is_fresh. Qed.
Lemma st_none w r : states w !! r = None -> st w r = mkState 0 0 0 ∅.
Proof. unfold st. by intros ->. Qed.

Lemma core_stateFor w id w1 r :
  Core None w -> stateFor w id = (w1, r) ->
  Core (Some id) w1 /\ sessions w1 !! id = Some r /\ scopes w1 = scopes w /\ ws w1 = ws w /\ closers w1 = closers w /\ drains w1 = drains w /\
  made w1 = made w /\ fired w1 = fired w /\ cut w1 = cut w /\ disposed w1 = disposed w /\
  (forall i r', sessions w !! i = Some r' -> sessions w1 !! i = Some r' /\ st w1 r' = st w r') /\ (forall g, gn w1 g = gn w g).
Proof.
  intros H. unfold stateFor. destruct (sessions w !! id) as [r0|] eqn:Hid.
  { intros [= <- <-]. split; [by apply core_weaken|]. by repeat split. }
  set (g := fresh (dom (gens w))). set (r0 := fresh (dom (states w))). intros [= <- <-].
  assert (gens w !! g = None) as Hg by apply fresh_none. assert (states w !! r0 = None) as Hr0 by apply fresh_none.
  pose proof (st_none _ _ Hr0) as Hst0.
  set (w0 := put_st (put_gn w g (mkGen false [])) r0 (mkState 0 0 g ∅)).
  assert (forall r', st w0 r' = if decide (r' = r0) then mkState 0 0 g ∅ else st w r') as Hst by (intros r'; apply (st_put (put_gn w g (mkGen false [])))).
  assert (forall g', gn w0 g' = gn w g') as Hgn.
  { intros g'. change (gn w0 g') with (gn (put_gn w g (mkGen false [])) g'). rewrite gn_put. destruct (decide (g' = g)) as [->|]; [|done]. unfold gn. by rewrite Hg. }
  assert (forall i r', sessions w !! i = Some r' -> r' <> r0 /\ generation (st w r') <> g) as Hold.
  { intros i r' Hi. destruct (c_dom _ _ H i r' Hi) as [Hd Hd2]. split; intros E; [rewrite E in Hd; by apply not_elem_of_dom in Hr0|rewrite E in Hd2; by apply not_elem_of_dom in Hg]. }
  assert (forall i r', <[id := r0]> (sessions w) !! i = Some r' -> (i = id /\ r' = r0 /\ st w0 r' = mkState 0 0 g ∅) \/ (i <> id /\ sessions w !! i = Some r' /\ st w0 r' = st w r')) as Hs.
  { intros i r'. destruct (decide (i = id)) as [->|]; [rewrite lookup_insert_eq; intros [= <-]; left; repeat split; rewrite Hst; by rewrite decide_True|].
    rewrite lookup_insert_ne by done. intros Hi. right. repeat split; try done. rewrite Hst. apply decide_False. by apply (Hold i). }
  assert (forall i r', sessions w !! i = Some r' -> <[id := r0]> (sessions w) !! i = Some r') as Hk by (intros i r' Hi; rewrite lookup_insert_ne by congruence; done).
  assert (forall r', captures (st w0 r') = captures (st w r') /\ closing (st w0 r') = closing (st w r') /\ writes (st w0 r') = writes (st w r')) as Hsame.
  { intros r'. rewrite Hst. destruct (decide (r' = r0)) as [->|]; [by rewrite Hst0|done]. }
  split; [|repeat split; try done; [cbn; by rewrite lookup_insert_eq|by apply Hk|change (st w0 r' = st w r'); rewrite Hst; apply decide_False; by apply (Hold i)]].
  split; change (st (put_session w0 (<[id:=r0]> (sessions w)))) with (st w0); change (gn (put_session w0 (<[id:=r0]> (sessions w)))) with (gn w0); cbn.
  - intros i r' [(-> & -> & E)|(Hne & Hi & E)]%Hs; rewrite E; cbn; [set_solver|]. destruct (c_dom _ _ H i r' Hi). set_solver.
  - intros i j r' [(-> & Er & _)|(Hne & Hi & _)]%Hs [(-> & Er2 & _)|(Hne2 & Hj & _)]%Hs; [done| | |by apply (c_inj _ _ H i j r')].
    + apply (Hold j) in Hj as [? _]. done.
    + apply (Hold i) in Hi as [? _]. done.
  - intros i j r1 r2 [(-> & -> & E)|(Hne & Hi & E)]%Hs [(-> & -> & E2)|(Hne2 & Hj & E2)]%Hs; rewrite ?E, ?E2; cbn; [done| | |by apply (c_ginj _ _ H i j)].
    + apply (Hold j) in Hj as [_ ?]. congruence.
    + apply (Hold i) in Hi as [_ ?]. congruence.
  - intros r'. destruct (Hsame r') as (-> & _). apply H.
  - intros r'. destruct (Hsame r') as (_ & -> & _). apply H.
  - intros r' n. destruct (Hsame r') as (_ & _ & ->). apply H.
  - intros k y Hy Ho. by apply Hk, (c_sc _ _ H k).
  - intros k y Hy Ho. by apply Hk, (c_cl _ _ H k).
  - intros k y Hy Ho. by apply Hk, (c_ws _ _ H k).
  - intros i r' [(-> & _)|(Hne & Hi & ->)]%Hs Hx; [done|]. by apply (c_busy _ _ H i).
  - intros i r' [(-> & -> & E)|(Hne & Hi & ->)]%Hs; [rewrite E; cbn; rewrite Hgn; unfold gn; by rewrite Hg|]. rewrite Hgn. by apply (c_ret _ _ H i).
  - intros k y Hy Ho. rewrite Hgn. destruct (c_gen _ _ H k y Hy Ho) as [Ha Hb]. split; [done|]. intros Hc. rewrite (Hb Hc), Hst, decide_False; [done|].
    apply (Hold (sc_session y)). by apply (c_sc _ _ H k).
  - apply H.
Qed.

(** The parts of [Core] about the map of states, when only the counts of one changed. *)
Lemma core_states x w r y :
  Core x w -> generation y = generation (st w r) ->
  (forall id r', sessions w !! id = Some r' -> r' ∈ dom (states (put_st w r y)) /\ generation (st (put_st w r y) r') ∈ dom (gens w)) /\
  (forall i j r1 r2, sessions w !! i = Some r1 -> sessions w !! j = Some r2 -> generation (st (put_st w r y) r1) = generation (st (put_st w r y) r2) -> r1 = r2) /\
  (forall r', generation (st (put_st w r y) r') = generation (st w r')).
Proof.
  intros H Hg. assert (forall r', generation (st (put_st w r y) r') = generation (st w r')) as Hgen by (intros r'; rewrite st_put; destruct (decide (r' = r)) as [->|]; done).
  split; [|split; [|done]].
  - intros id r' Hi. rewrite Hgen. destruct (c_dom _ _ H id r' Hi). split; [|done]. cbn. set_solver.
  - intros i j r1 r2 Hi Hj. rewrite !Hgen. by apply (c_ginj _ _ H i j).
Qed.

Ltac st_cases := repeat (rewrite st_put; case_decide; subst); cbn.

Lemma msum_put {A : Type} (v : A -> Z) (m : gmap nat A) k x y : m !! k = Some x -> msum v (<[k := y]> m) = msum v m - v x + v y.
Proof. intros Hk. rewrite msum_insert. unfold at_key. by rewrite Hk. Qed.

Lemma eqb_sym_1 (r r' : nat) : r' <> r -> Nat.eqb r r' = false.
Proof. intros. apply Nat.eqb_neq. congruence. Qed.

Lemma core_capture w k id : Core None w -> scopes w !! k = None -> Core None (captureSessionWrites w k id).
Proof.
  intros H Hk. unfold captureSessionWrites. destruct (stateFor w id) as [w1 r] eqn:Es.
  destruct (core_stateFor _ _ _ _ H Es) as (H1 & Hid & Esc & _ & _ & _ & _ & _ & Ecut & _). rewrite <- Esc in Hk. clear H Esc. set (x := st w1 r).
  set (y := mkState (captures x + 1) (closing x) (generation x) (writes x)). destruct (core_states _ _ r y H1 eq_refl) as (Hd & Hgi & Hge).
  destruct (core_count _ _ r H1) as [Hc0 Hc1]. assert (k ∉ cut w1) as Hkc by (intros ?%(c_cut _ _ H1)%elem_of_dom; rewrite Hk in *; by destruct H).
  set (w3 := put_scope (put_st w1 r y) k (mkScope id r (generation x) false [])).
  assert (forall cs, (cs = cut w1 /\ closing x = 0 \/ cs = {[k]} ∪ cut w1 /\ closing x <> 0) -> Core None (put_cut w3 cs)) as Hall.
  { intros cs Hcs. split; change (st (put_cut w3 cs)) with (st (put_st w1 r y)); change (gn (put_cut w3 cs)) with (gn w1); cbn; try done; try apply H1.
    - intros r'. rewrite msum_new by done. rewrite <- (c_cap _ _ H1). unfold open_in. cbn. rewrite st_put. destruct (decide (r' = r)) as [->|Hne]; cbn; [rewrite Nat.eqb_refl; fold x; lia|by rewrite eqb_sym_1].
    - intros r'. rewrite <- (c_clo _ _ H1). by st_cases.
    - intros r' n. rewrite <- (c_wr _ _ H1). by st_cases.
    - intros k' z [(-> & ->)|(Hne & Hz)]%insert_cases Ho; [done|]. by apply (c_sc _ _ H1 k').
    - intros i r' Hi _. rewrite st_put. destruct (decide (r' = r)) as [->|Hne]; [|apply (c_busy _ _ H1 i r' Hi); congruence].
      unfold idle. cbn. fold x in Hc0. destruct (Z.eqb_spec (captures x + 1) 0); [lia|done].
    - intros i r' Hi. rewrite Hge, (c_ret _ _ H1 i r' Hi). by st_cases.
    - intros k' z [(-> & ->)|(Hne & Hz)]%insert_cases Ho; cbn.
      + pose proof (c_ret _ _ H1 id r Hid) as Hr. fold x in Hr. rewrite Hr, Hge. split; [|done]. fold x in Hc1. destruct Hcs as [[-> Hx]|[-> Hx]].
        * rewrite bool_decide_false by done. by rewrite Hx.
        * rewrite bool_decide_true by set_solver. apply Z.ltb_lt. lia.
      + rewrite Hge. destruct (c_gen _ _ H1 k' z Hz Ho) as [Ha Hb]. destruct Hcs as [[-> _]|[-> _]]; [done|].
        assert (k' ∈ ({[k]} : gset nat) ∪ cut w1 <-> k' ∈ cut w1) as E by set_solver. split; [rewrite Ha; by apply bool_decide_ext|]. intros Hn. apply Hb. by rewrite <- E.
    - pose proof (c_cut _ _ H1). destruct Hcs as [[-> _]|[-> _]]; set_solver. }
  destruct (Z.eqb_spec (closing x) 0) as [E|E]; [apply (Hall (cut w1)); by left|]. apply Hall. by right.
Qed.

(** Changes [Core] does not see: who listens, how far a call has got. *)
Lemma core_gn x w g y : Core x w -> retired y = retired (gn w g) -> Core x (put_gn w g y).
Proof.
  intros H Hy. assert (forall g', retired (gn (put_gn w g y) g') = retired (gn w g')) as Hg by (intros g'; rewrite gn_put; destruct (decide (g' = g)) as [->|]; done).
  split; try apply H.
  - intros id r Hi. destruct (c_dom _ _ H id r Hi). split; [done|]. cbn. change (st (put_gn w g y)) with (st w). set_solver.
  - intros id r Hi. rewrite Hg. by apply (c_ret _ _ H id).
  - intros k z Hz Ho. rewrite Hg. by apply (c_gen _ _ H).
Qed.

Lemma core_scope x w k y y' :
  Core x w -> scopes w !! k = Some y -> sc_session y' = sc_session y -> sc_state y' = sc_state y -> sc_gen y' = sc_gen y -> closed y' = closed y ->
  Core x (put_scope w k y').
Proof.
  intros H Hy E1 E2 E3 E4. split; try apply H; cbn.
  - intros r. rewrite (msum_put _ _ _ y) by done. unfold open_in at 2 3. rewrite E2, E4, Z.sub_add. apply (c_cap _ _ H).
  - intros k' z [(-> & ->)|(Hne & Hz)]%insert_cases Ho; [rewrite E1, E2; rewrite E4 in Ho|]; by eapply c_sc.
  - intros k' z [(-> & ->)|(Hne & Hz)]%insert_cases Ho; [rewrite E2, E3; rewrite E4 in Ho|]; by apply (c_gen _ _ H).
  - pose proof (c_cut _ _ H). set_solver.
Qed.

Lemma core_closer x w c y y' :
  Core x w -> closers w !! c = Some y -> cl_session y' = cl_session y -> cl_state y' = cl_state y -> released y' = released y -> Core x (put_closer w c y').
Proof.
  intros H Hy E1 E2 E3. split; try apply H; cbn.
  - intros r. rewrite (msum_put _ _ _ y) by done. unfold held_in at 2 3. rewrite E2, E3, Z.sub_add. apply (c_clo _ _ H).
  - intros k' z [(-> & ->)|(Hne & Hz)]%insert_cases Ho; [rewrite E1, E2; rewrite E3 in Ho|]; by eapply c_cl.
Qed.

Lemma core_phase x w n y p : Core x w -> ws w !! n = Some y -> phase y <> Done -> p <> Done -> Core x (put_write w n (mkWrite (w_session y) (w_state y) p)).
Proof.
  intros H Hy Hp Hp'. split; try apply H; cbn.
  - intros r m. change (m ∈ writes (st w r) <-> exists z, <[n := mkWrite (w_session y) (w_state y) p]> (ws w) !! m = Some z /\ w_state z = r /\ phase z <> Done).
    rewrite (c_wr _ _ H). split; intros (z & Hz & E & Hd).
    + destruct (decide (m = n)) as [->|]; [|exists z; by rewrite lookup_insert_ne]. rewrite lookup_insert_eq. eexists. split; [done|]. split; [|done]. cbn. congruence.
    + apply insert_cases in Hz as [(-> & ->)|(Hne & Hz)]; eauto.
  - intros m z [(-> & ->)|(Hne & Hz)]%insert_cases Ho; cbn; by eapply c_ws.
Qed.

Lemma core_unlisten x w k l : Core x w -> Core x (unlisten w k l).
Proof.
  intros H. unfold unlisten. destruct (scopes w !! k) as [sc|] eqn:Hk; [|done]. eapply core_scope; [by apply core_gn|exact Hk|done..].
Qed.
Lemma core_same x w w' :
  Core x w -> sessions w' = sessions w -> states w' = states w -> gens w' = gens w -> scopes w' = scopes w -> ws w' = ws w -> closers w' = closers w -> cut w' = cut w -> Core x w'.
Proof.
  destruct w, w'. cbn. intros H -> -> -> -> -> -> ->. destruct H as [H1 H2 H3 H4 H5 H6 H7 H8 H9 H10 H11 H12 H13]. split; done.
Qed.
Lemma core_withdraw x w k l : Core x w -> Core x (withdraw w k l).
Proof. intros H. eapply core_same; [by apply (core_unlisten x w k l)|done..]. Qed.

(** ** Which scopes admit writes *)

Lemma current_iff x w k sc : Core x w -> scopes w !! k = Some sc -> current w sc = true <-> closed sc = false /\ k ∉ cut w.
Proof.
  intros H Hk. unfold current. rewrite !andb_true_iff, !negb_true_iff, bool_decide_eq_true, Z.eqb_eq. split.
  - intros [[[Ho Hr] _] _]. split; [done|]. destruct (c_gen _ _ H k sc Hk Ho) as [E _]. rewrite Hr in E. symmetry in E. by apply bool_decide_eq_false in E.
  - intros [Ho Hc]. destruct (c_gen _ _ H k sc Hk Ho) as [E Eg]. rewrite E, bool_decide_false by done. pose proof (c_sc _ _ H k sc Hk Ho) as Hs.
    split; [split; [done|]|done]. pose proof (c_ret _ _ H _ _ Hs) as Hr. rewrite <- (Eg Hc), E, bool_decide_false in Hr by done. symmetry in Hr. apply Z.ltb_ge in Hr.
    pose proof (core_count _ _ (sc_state sc) H). lia.
Qed.

Lemma core_onRetire x w k l sc : Core x w -> scopes w !! k = Some sc -> Core x (onRetire w k l sc).
Proof.
  intros H Hk. unfold onRetire. assert (Core x (put_made w l k)) as H1 by (by eapply core_same).
  destruct (current _ _); [|by eapply core_same]. eapply core_scope; [by apply core_gn|exact Hk|done..].
Qed.

Lemma core_write w k n sc : Core None w -> scopes w !! k = Some sc -> ws w !! n = None -> Core None (write w n sc).
Proof.
  intros H Hk Hn. unfold write. destruct (current w sc) eqn:Hc; [|done]. apply (current_iff _ _ _ _ H Hk) in Hc as [Ho Hc].
  set (r := sc_state sc). set (x := st w r). set (y := mkState (captures x) (closing x) (generation x) ({[n]} ∪ writes x)).
  destruct (core_states _ _ r y H eq_refl) as (Hd & Hgi & Hge). pose proof (c_sc _ _ H k sc Hk Ho) as Hs.
  set (w' := put_write _ _ _). split; change (st w') with (st (put_st w r y)); change (gn w') with (gn w); cbn; try done; try apply H.
  - intros r'. rewrite <- (c_cap _ _ H). by st_cases.
  - intros r'. rewrite <- (c_clo _ _ H). by st_cases.
  - intros r' m. assert (m ∈ writes (st (put_st w r y) r') <-> (m = n /\ r' = r) \/ m ∈ writes (st w r')) as ->.
    { st_cases; [fold x|]; set_solver. }
    rewrite (c_wr _ _ H). split.
    + intros [[-> ->]|(z & Hz & E & Hp)]; [rewrite lookup_insert_eq; by eexists|]. exists z. rewrite lookup_insert_ne by congruence. done.
    + intros (z & [(-> & ->)|(Hne & Hz)]%insert_cases & E & Hp); [left; cbn in E; done|right; eauto].
  - intros m z [(-> & ->)|(Hne & Hz)]%insert_cases Hp; [done|by eapply c_ws].
  - intros i r' Hi _. rewrite st_put. destruct (decide (r' = r)) as [->|Hne]; [|by apply (c_busy _ _ H i r' Hi)].
    unfold idle. cbn. rewrite (bool_decide_false ({[n]} ∪ writes x = ∅)) by set_solver. by rewrite andb_false_r.
  - intros i r' Hi. rewrite Hge, (c_ret _ _ H i r' Hi). by st_cases.
  - intros k' z Hz Ho'. rewrite Hge. by apply (c_gen _ _ H).
Qed.

Lemma core_finally w n x : Core None w -> ws w !! n = Some x -> phase x = Settled -> Core None (write_finally w n x).
Proof.
  intros H Hn Hp. unfold write_finally. set (r := w_state x). set (s := st w r). set (y := mkState (captures s) (closing s) (generation s) (writes s ∖ {[n]})).
  destruct (core_states _ _ r y H eq_refl) as (Hd & Hgi & Hge). assert (sessions w !! w_session x = Some r) as Hs by (apply (c_ws _ _ H n); [done|by rewrite Hp]).
  apply core_idle; [|done]. set (w' := put_write _ _ _). split; change (st w') with (st (put_st w r y)); change (gn w') with (gn w); cbn; try done; try apply H.
  - intros r'. rewrite <- (c_cap _ _ H). by st_cases.
  - intros r'. rewrite <- (c_clo _ _ H). by st_cases.
  - intros r' m. assert (m ∈ writes (st (put_st w r y) r') <-> m ∈ writes (st w r') /\ (r' = r -> m <> n)) as ->.
    { st_cases; [fold s|]; set_solver. }
    rewrite (c_wr _ _ H). split.
    + intros [(z & Hz & E & Hq) Hne]. exists z. rewrite lookup_insert_ne; [done|]. intros <-. apply Hne; [|done]. rewrite <- E. unfold r. congruence.
    + intros (z & [(-> & ->)|(Hne & Hz)]%insert_cases & E & Hq); [done|]. split; [eauto|done].
  - intros m z [(-> & ->)|(Hne & Hz)]%insert_cases Hq; [done|by eapply c_ws].
  - intros i r' Hi Hne. rewrite st_put. destruct (decide (r' = r)) as [->|]; [|by apply (c_busy _ _ H i r' Hi)]. destruct Hne. f_equal. by apply (c_inj _ _ H _ _ r).
  - intros i r' Hi. rewrite Hge, (c_ret _ _ H i r' Hi). by st_cases.
  - intros k' z Hz Ho'. rewrite Hge. by apply (c_gen _ _ H).
Qed.

Lemma core_close_scope w k sc :
  Core None w -> scopes w !! k = Some sc -> closed sc = false ->
  let x := st w (sc_state sc) in
  Core None (releaseIdle (put_st (put_scope w k (mkScope (sc_session sc) (sc_state sc) (sc_gen sc) true [])) (sc_state sc)
    (mkState (captures x - 1) (closing x) (generation x) (writes x))) (sc_session sc) (sc_state sc)).
Proof.
  intros H Hk Ho x. set (r := sc_state sc). set (y := mkState (captures x - 1) (closing x) (generation x) (writes x)).
  destruct (core_states _ _ r y H eq_refl) as (Hd & Hgi & Hge). pose proof (c_sc _ _ H k sc Hk Ho) as Hs. fold r in Hs.
  apply core_idle; [|done]. set (w' := put_st _ _ _). split; change (st w') with (st (put_st w r y)); change (gn w') with (gn w); cbn; try done; try apply H.
  - intros r'. rewrite (msum_put _ _ _ sc), <- (c_cap _ _ H) by done. unfold open_in. rewrite Ho. cbn. fold r. rewrite st_put. destruct (decide (r' = r)) as [->|Hne]; cbn; [rewrite Nat.eqb_refl; fold r in x; fold x; lia|].
    rewrite eqb_sym_1 by done. lia.
  - intros r'. rewrite <- (c_clo _ _ H). by st_cases.
  - intros r' n. rewrite <- (c_wr _ _ H). by st_cases.
  - intros k' z [(-> & ->)|(Hne & Hz)]%insert_cases Hq; [done|by eapply c_sc].
  - intros i r' Hi Hne. rewrite st_put. destruct (decide (r' = r)) as [->|]; [|by apply (c_busy _ _ H i r' Hi)]. destruct Hne. f_equal. by apply (c_inj _ _ H _ _ r).
  - intros i r' Hi. rewrite Hge, (c_ret _ _ H i r' Hi). by st_cases.
  - intros k' z [(-> & ->)|(Hne & Hz)]%insert_cases Hq; [done|]. rewrite Hge. by apply (c_gen _ _ H).
  - pose proof (c_cut _ _ H). set_solver.
Qed.

Lemma unlisten_scope w k l sc : scopes w !! k = Some sc ->
  scopes (unlisten w k l) !! k = Some (mkScope (sc_session sc) (sc_state sc) (sc_gen sc) (closed sc) (without (subscriptions sc) l)).
Proof. intros Hk. unfold unlisten. rewrite Hk. cbn. by rewrite lookup_insert_eq. Qed.

Lemma core_close w k sc : Core None w -> scopes w !! k = Some sc -> Core None (close w k sc).
Proof.
  intros H Hk. unfold close. destruct (closed sc) eqn:Ho; [done|]. apply (core_withdraw _ _ k (subscriptions sc)) in H.
  pose proof (unlisten_scope w k (subscriptions sc) sc Hk) as Hk'. apply (core_close_scope _ _ _ H Hk' Ho).
Qed.

Lemma elem_of_scopes_of w id k : k ∈ scopes_of w id <-> exists sc, scopes w !! k = Some sc /\ sc_session sc = id.
Proof.
  unfold scopes_of. rewrite elem_of_dom. split.
  - intros [sc Hsc]. apply map_lookup_filter_Some in Hsc as [? ?]. eauto.
  - intros (sc & Hk & E). exists sc. by apply map_lookup_filter_Some.
Qed.

Lemma core_retire w c id : Core None w -> closers w !! c = None -> Core None (retire w c id).
Proof.
  intros H0 Hc. unfold retire. destruct (stateFor w id) as [w1 r] eqn:Es.
  destruct (core_stateFor _ _ _ _ H0 Es) as (H & Hid & _ & _ & Ecl & _). rewrite <- Ecl in Hc. clear H0 Es Ecl w.
  set (x := st w1 r). set (g := generation x). set (y := mkState (captures x) (closing x + 1) g (writes x)).
  destruct (core_states _ _ r y H eq_refl) as (Hd & Hgi & Hge). destruct (core_count _ _ r H) as [Hc0 Hc1]. fold x in Hc0, Hc1.
  set (w2 := put_st w1 r y). set (w3 := put_gn w2 g _). change (gn w2 g) with (gn w1 g) in w3.
  assert (forall g', retired (gn w3 g') = if decide (g' = g) then true else retired (gn w1 g')) as Hgn by (intros g'; unfold w3; rewrite gn_put; by destruct (decide (g' = g))).
  set (w' := put_cut _ _). split; change (st w') with (st (put_st w1 r y)); change (gn w') with (gn w3); cbn; try done; try apply H.
  - intros i r' Hi. destruct (Hd i r' Hi). split; [done|]. set_solver.
  - intros r'. rewrite <- (c_cap _ _ H). by st_cases.
  - intros r'. rewrite msum_new, <- (c_clo _ _ H) by done. unfold held_in. cbn. rewrite st_put. destruct (decide (r' = r)) as [->|Hne]; cbn; [rewrite Nat.eqb_refl; fold x; lia|by rewrite eqb_sym_1].
  - intros r' n. rewrite <- (c_wr _ _ H). by st_cases.
  - intros k' z [(-> & ->)|(Hne & Hz)]%insert_cases Hq; [done|by eapply c_cl].
  - intros i r' Hi _. rewrite st_put. destruct (decide (r' = r)) as [->|Hne]; [|apply (c_busy _ _ H i r' Hi); congruence].
    unfold idle. cbn. destruct (Z.eqb_spec (closing x + 1) 0); [lia|]. by rewrite andb_false_r.
  - intros i r' Hi. rewrite Hge, Hgn, st_put. destruct (decide (r' = r)) as [->|Hne]; cbn.
    + rewrite decide_True by done. symmetry. apply Z.ltb_lt. lia.
    + rewrite decide_False; [by apply (c_ret _ _ H i)|]. intros E. by apply Hne, (c_ginj _ _ H i id).
  - intros k z Hz Ho. rewrite Hgn, Hge. destruct (c_gen _ _ H k z Hz Ho) as [Ha Hb]. pose proof (c_sc _ _ H k z Hz Ho) as Hs.
    assert (k ∈ scopes_of w3 id <-> sc_session z = id) as Hin by (rewrite elem_of_scopes_of; split; [intros (z' & Hz' & <-); cbn in Hz'; congruence|intros E; by exists z]).
    change (scopes_of w3 id) with (scopes_of w1 id) in *. split; [|intros Hn; apply Hb; set_solver].
    destruct (decide (k ∈ cut w1)) as [Hk|Hk].
    + rewrite bool_decide_true in Ha by done. rewrite bool_decide_true by set_solver. by destruct (decide _).
    + rewrite bool_decide_false in Ha by done. specialize (Hb Hk). destruct (decide (sc_session z = id)) as [E|E].
      * rewrite E, Hid in Hs. injection Hs as Hs. rewrite Hb, <- Hs. rewrite decide_True by done. rewrite bool_decide_true; [done|]. apply elem_of_union. left. by apply Hin.
      * rewrite decide_False; [rewrite Ha, bool_decide_false; [done|]; set_solver|]. intros E'. rewrite Hb in E'. apply (c_ginj _ _ H _ _ _ _ Hs Hid) in E'. apply E. apply (c_inj _ _ H _ _ r); [congruence|done].
  - apply union_subseteq. split; [|apply (c_cut _ _ H)]. intros k Hk. apply elem_of_scopes_of in Hk as (z & Hz & _). apply elem_of_dom. by exists z.
Qed.

(** While a closer of it is unreleased, every open scope of a state is cut. *)
Lemma held_scopes_cut x w c y k sc :
  Core x w -> closers w !! c = Some y -> released y = false -> scopes w !! k = Some sc -> closed sc = false -> sc_state sc = cl_state y -> k ∈ cut w.
Proof.
  intros H Hc Hr Hk Ho E. destruct (decide (k ∈ cut w)) as [|Hn]; [done|]. assert (current w sc = true) as Hcur by (by apply (current_iff _ _ _ _ H Hk)).
  unfold current in Hcur. apply andb_prop in Hcur as [[_ Hz%Z.eqb_eq]%andb_prop _]. pose proof (closing_held _ _ _ _ H Hc Hr). rewrite E in Hz. lia.
Qed.

Lemma core_release w c y : Core None w -> closers w !! c = Some y -> Core None (release w c y).
Proof.
  intros H Hc. unfold release. destruct (released y) eqn:Hr; [done|]. set (r := cl_state y). set (s := st w r). cbn [captures closing generation writes].
  pose proof (c_cl _ _ H c y Hc Hr) as Hs. fold r in Hs. pose proof (closing_held _ _ _ _ H Hc Hr) as Hh. fold r s in Hh.
  set (w1 := put_closer w c (mkCloser (cl_session y) r (notifying y) true)).
  assert (forall z, <[c := mkCloser (cl_session y) r (notifying y) true]> (closers w) = z -> forall r', msum (held_in r') z = closing (st w r') - (if decide (r' = r) then 1 else 0)) as Hsum.
  { intros z <- r'. rewrite (msum_put _ _ _ y), <- (c_clo _ _ H) by done. unfold held_in. rewrite Hr. cbn. fold r. destruct (decide (r' = r)) as [->|]; [rewrite Nat.eqb_refl; lia|rewrite eqb_sym_1 by done; lia]. }
  destruct (Z.eqb_spec (closing s - 1) 0) as [Ez|Ez]; (apply core_idle; [|done]).
  - set (g := fresh (dom (gens w1))). assert (gens w !! g = None) as Hg by apply (fresh_none (gens w)).
    set (y' := mkState (captures s) (closing s - 1) g (writes s)). set (w2 := put_gn w1 g (mkGen false [])).
    assert (forall g', gn w2 g' = gn w g') as Hgn by (intros g'; unfold w2; rewrite gn_put; destruct (decide (g' = g)) as [->|]; [unfold gn; by rewrite Hg|done]).
    assert (forall r', st (put_st w2 r y') r' = if decide (r' = r) then y' else st w r') as Hst by (intros r'; apply (st_put w2)).
    assert (forall i r', sessions w !! i = Some r' -> generation (st w r') <> g) as Hold by (intros i r' Hi E; destruct (c_dom _ _ H i r' Hi) as [_ Hd]; rewrite E in Hd; by apply not_elem_of_dom in Hg).
    split; change (gn (put_st w2 r y')) with (gn w2); cbn; try apply H.
    + intros i r' Hi. destruct (c_dom _ _ H i r' Hi). rewrite Hst. destruct (decide (r' = r)); cbn; set_solver.
    + intros i j r1 r2 Hi Hj. rewrite !Hst. destruct (decide (r1 = r)) as [->|], (decide (r2 = r)) as [->|]; cbn; [done| | |by apply (c_ginj _ _ H i j)].
      * intros E. symmetry in E. by apply (Hold j) in E.
      * intros E. by apply (Hold i) in E.
    + intros r'. rewrite <- (c_cap _ _ H), Hst. by destruct (decide (r' = r)) as [->|].
    + intros r'. rewrite (Hsum _ eq_refl), Hst. destruct (decide (r' = r)) as [->|]; cbn; [done|lia].
    + intros r' n. rewrite Hst. rewrite <- (c_wr _ _ H). by destruct (decide (r' = r)) as [->|].
    + intros k z [(-> & ->)|(Hne & Hz)]%insert_cases Hq; [done|by eapply c_cl].
    + intros i r' Hi Hne. rewrite Hst. destruct (decide (r' = r)) as [->|]; [|by apply (c_busy _ _ H i r' Hi)]. destruct Hne. f_equal. by apply (c_inj _ _ H _ _ r).
    + intros i r' Hi. rewrite Hst, Hgn. destruct (decide (r' = r)) as [->|]; [|by apply (c_ret _ _ H i)]. cbn. rewrite Ez. unfold gn. by rewrite Hg.
    + intros k z Hz Ho. rewrite Hgn, Hst. destruct (c_gen _ _ H k z Hz Ho) as [Ha Hb]. split; [done|]. intros Hn. destruct (decide (sc_state z = r)) as [E|]; [|by apply Hb].
      destruct Hn. by apply (held_scopes_cut _ _ c y k z H).
  - set (y' := mkState (captures s) (closing s - 1) (generation s) (writes s)). destruct (core_states _ _ r y' H eq_refl) as (Hd & Hgi & Hge).
    set (w' := put_st w1 r y'). split; change (st w') with (st (put_st w r y')); change (gn w') with (gn w); cbn; try done; try apply H.
    + intros r'. rewrite <- (c_cap _ _ H). by st_cases.
    + intros r'. rewrite (Hsum _ eq_refl), st_put. destruct (decide (r' = r)) as [->|]; cbn; [done|lia].
    + intros r' n. rewrite <- (c_wr _ _ H). by st_cases.
    + intros k z [(-> & ->)|(Hne & Hz)]%insert_cases Hq; [done|by eapply c_cl].
    + intros i r' Hi Hne. rewrite st_put. destruct (decide (r' = r)) as [->|]; [|by apply (c_busy _ _ H i r' Hi)]. destruct Hne. f_equal. by apply (c_inj _ _ H _ _ r).
    + intros i r' Hi. rewrite Hge, (c_ret _ _ H i r' Hi), st_put. destruct (decide (r' = r)) as [->|]; [|done]. cbn. fold s. destruct (Z.ltb_spec 0 (closing s)), (Z.ltb_spec 0 (closing s - 1)); lia || done.
    + intros k z Hz Ho. rewrite Hge. by apply (c_gen _ _ H).
Qed.

Lemma when_some {A : Type} b (x y : A) : when b x = Some y -> b = true /\ x = y.
Proof. destruct b; [|done]. by intros [= ->]. Qed.

(** The cases of an operation that happened. *)
Ltac op_inv H :=
  repeat match type of H with
  | (_ ≫= _) = Some _ => let x := fresh "x" in let E := fresh "Hx" in apply bind_Some in H as (x & E & H)
  end;
  first [apply when_some in H as [?Hb <-]|injection H as <-];
  repeat match goal with
  | Hb : (_ && _)%bool = true |- _ => apply andb_prop in Hb as [? ?]
  | Hb : unused _ _ = true |- _ => unfold unused in Hb; apply bool_decide_eq_true in Hb
  | Hb : bool_decide _ = true |- _ => apply bool_decide_eq_true in Hb
  | Hb : negb _ = true |- _ => apply negb_true_iff in Hb
  | Hb : bool_decide _ = false |- _ => apply bool_decide_eq_false in Hb
  end.

Lemma core_step o w w' : do_op o w = Some w' -> Core None w -> Core None w'.
Proof.
  intros Ho H. destruct o; cbn in Ho; op_inv Ho.
  - by apply core_capture.
  - by apply core_onRetire.
  - by apply core_withdraw.
  - by apply (core_write w k n).
  - apply (core_phase _ w n x _ H Hx); congruence.
  - apply (core_phase _ w n x _ H Hx); congruence.
  - by apply core_finally.
  - by apply core_close.
  - by apply core_retire.
  - unfold notify. destruct (listeners (gn w x0)) as [|l r]; [done|]. apply (core_same None (match made w !! l with Some k => unlisten w k [l] | None => w end)); try done.
    destruct (made w !! l); [by apply core_unlisten|done].
  - unfold handle. eapply core_closer; [by apply core_gn|exact Hx|done..].
  - by eapply core_same.
  - by eapply core_same.
  - by apply core_release.
Qed.

Lemma core_start : Core None start.
Proof.
  assert (forall r, st start r = mkState 0 0 0 ∅) as Hst by (intros r; unfold st; cbn; by rewrite lookup_empty).
  split; cbn; intros *; rewrite ?lookup_empty, ?Hst, ?msum_empty; try done. cbn. split; [by intros ?%not_elem_of_empty|]. by intros (y & [=] & _).
Qed.

Lemma core_reachable w : reachable w -> Core None w.
Proof. intros H. apply (rtc_invariant step (Core None) start w); [intros ? ? [o Ho] Hi; by eapply core_step|exact H|apply core_start]. Qed.

(** ** Drains *)

Definition unsettled (x : Write) : Prop := phase x = Queued \/ phase x = Running.

(** What a drain of an unreleased closer still has to wait for is all that is left. *)
Record Drained (w : World) : Prop := mkDrained {
  d_dom : forall d x, drains w !! d = Some x -> d_closer x ∈ dom (closers w);
  d_ok : forall d x y n z, drains w !! d = Some x -> closers w !! d_closer x = Some y -> released y = false ->
    ws w !! n = Some z -> w_state z = cl_state y -> unsettled z -> n ∈ waits x /\ over x = false
}.

Lemma drained_frame w w' :
  Drained w -> drains w' = drains w -> dom (closers w) ⊆ dom (closers w') ->
  (forall c y, closers w' !! c = Some y -> released y = false -> c ∈ dom (closers w) -> exists y0, closers w !! c = Some y0 /\ released y0 = false /\ cl_state y0 = cl_state y) ->
  (forall n z, ws w' !! n = Some z -> unsettled z ->
     (exists z0, ws w !! n = Some z0 /\ unsettled z0 /\ w_state z0 = w_state z) \/ (forall c y, closers w !! c = Some y -> released y = false -> cl_state y <> w_state z)) ->
  Drained w'.
Proof.
  intros [Hd Hk] Ed Hc Hcl Hw. split; rewrite Ed; [intros d x Hx; by apply Hc, (Hd d)|].
  intros d x y n z Hx Hy Hr Hz Es Hu. destruct (Hcl _ _ Hy Hr (Hd _ _ Hx)) as (y0 & Hy0 & Hr0 & E0).
  destruct (Hw n z Hz Hu) as [(z0 & Hz0 & Hu0 & E1)|Hno]; [|destruct (Hno _ _ Hy0 Hr0); congruence]. apply (Hk d x y0 n z0); congruence || done.
Qed.

Lemma drained_still w w' : Drained w -> drains w' = drains w -> closers w' = closers w -> ws w' = ws w -> Drained w'.
Proof. intros H E1 E2 E3. apply (drained_frame w); rewrite ?E2, ?E3; try done; [intros c y Hy Hr _; by exists y|intros n z Hz Hu; left; by exists z]. Qed.

Lemma releaseIdle_frame w id r (P : World -> Prop) : P w -> P (put_session w (delete id (sessions w))) -> P (releaseIdle w id r).
Proof. unfold releaseIdle. by destruct (_ && _). Qed.

Lemma drained_phase w n x p : Drained w -> ws w !! n = Some x -> (p = Queued \/ p = Running -> unsettled x) -> Drained (put_write w n (mkWrite (w_session x) (w_state x) p)).
Proof.
  intros H Hx Hp. apply (drained_frame w); try done; [intros c y Hy Hr _; by exists y|]. intros m z [(-> & ->)|(Hne & Hz)]%insert_cases Hu; left; [exists x|by exists z].
  split; [done|]. split; [by apply Hp|done].
Qed.

Lemma drained_closer w c y y' : Drained w -> closers w !! c = Some y -> cl_state y' = cl_state y -> (released y' = false -> released y = false) -> Drained (put_closer w c y').
Proof.
  intros H Hy Es Hr. apply (drained_frame w); try done; [cbn; set_solver| |intros n z Hz Hu; left; by exists z].
  intros c' z [(-> & ->)|(Hne & Hz)]%insert_cases Hz' _; [exists y|by exists z]. split; [done|]. split; [by apply Hr|done].
Qed.

Lemma drained_step o w w' : do_op o w = Some w' -> Core None w -> Drained w -> Drained w'.
Proof.
  intros Ho Hcore H. destruct o; cbn in Ho; op_inv Ho; try (by apply (drained_still w)).
  - unfold captureSessionWrites. destruct (stateFor w id) as [w1 r] eqn:Es. destruct (core_stateFor _ _ _ _ Hcore Es) as (_ & _ & _ & E1 & E2 & E3 & _).
    destruct (_ =? _); by apply (drained_still w).
  - unfold onRetire. destruct (current _ _); by apply (drained_still w).
  - unfold withdraw, unlisten. destruct (scopes w !! x); by apply (drained_still w).
  - unfold write. destruct (current w x) eqn:Hc; [|done]. apply (drained_frame w); try done; [intros c y Hy Hr _; by exists y|].
    intros m z [(-> & ->)|(Hne & Hz)]%insert_cases Hu; [|left; by exists z]. right. cbn. intros c y Hy Hr E. pose proof (closing_held _ _ _ _ Hcore Hy Hr) as Hcl.
    unfold current in Hc. apply andb_prop in Hc as [[_ Hz%Z.eqb_eq]%andb_prop _]. rewrite E in Hcl. lia.
  - apply (drained_phase w n x); [done..|]. intros _. by left.
  - apply (drained_phase w n x); [done..|]. by intros [|].
  - unfold write_finally. apply releaseIdle_frame; (apply (drained_still (put_write w n (mkWrite (w_session x) (w_state x) Done))); [|done..]); apply (drained_phase w n x); try done; by intros [|].
  - unfold close. destruct (closed x); [done|]. unfold withdraw, unlisten. rewrite Hx. apply releaseIdle_frame; by apply (drained_still w).
  - unfold retire. destruct (stateFor w id) as [w1 r] eqn:Es. destruct (core_stateFor _ _ _ _ Hcore Es) as (_ & _ & _ & E1 & E2 & E3 & _).
    apply (drained_frame w); cbn; rewrite ?E1, ?E2; try done; [set_solver| |intros m z Hz Hu; left; by exists z].
    intros c' y [(-> & ->)|(Hne & Hz)]%insert_cases Hr Hd; [by apply not_elem_of_dom in Hb|by exists y].
  - unfold notify. destruct (listeners (gn w x0)) as [|l r]; [done|]. destruct (made w !! l) as [k|]; [|by apply (drained_still w)].
    unfold unlisten. destruct (scopes w !! k); by apply (drained_still w).
  - unfold handle. apply (drained_still (put_closer w c (closer_over x))); try done. by apply (drained_closer w c x).
  - destruct H as [Ha Hd]. split; cbn.
    + intros d' y [(-> & ->)|(Hne & Hy)]%insert_cases; [cbn; apply elem_of_dom; by exists x|by apply (Ha d')].
    + intros d' y z n v [(-> & ->)|(Hne & Hy)]%insert_cases Hz Hr Hv E Hu; cbn in *; [|by apply (Hd d' y z n v)].
      split; [|done]. rewrite Hx in Hz. injection Hz as <-. apply (c_wr _ _ Hcore). exists v. split; [done|]. split; [done|]. by destruct Hu as [-> | ->].
  - destruct H as [Ha Hd]. split; cbn.
    + intros d' y [(-> & ->)|(Hne & Hy)]%insert_cases; [cbn; by apply (Ha d)|by apply (Ha d')].
    + intros d' y z n v [(-> & ->)|(Hne & Hy)]%insert_cases Hz Hr Hv E Hu; cbn in *; [|by apply (Hd d' y z n v)].
      destruct (Hd d x z n v Hx Hz Hr Hv E Hu) as [Hw _]. exfalso. rewrite forallb_forall in Hb. specialize (Hb n (proj1 (list_elem_of_In _ _) (proj2 (elem_of_elements _ _) Hw))).
      unfold settled in Hb. rewrite Hv in Hb. apply bool_decide_eq_true in Hb. destruct Hu as [E2|E2]; rewrite E2 in Hb; by destruct Hb.
  - unfold release. destruct (released x) eqn:Hr; [done|]. cbn. destruct (_ =? 0); apply releaseIdle_frame;
      (apply (drained_still (put_closer w c (mkCloser (cl_session x) (cl_state x) (notifying x) true))); [|done..]); by apply (drained_closer w c x).
Qed.

(** ** Listeners *)

(** A closer going over a generation is the reason it is retired. *)
Definition Loop (w : World) : Prop :=
  forall c y g, closers w !! c = Some y -> notifying y = Some g -> generation (st w (cl_state y)) = g /\ released y = false.

(** A listener waits in the generation of its open scope, or was called, or was
    withdrawn; a retired generation with listeners left is being gone over. *)
Record Listen (w : World) : Prop := mkListen {
  l_lis : forall g l, l ∈ listeners (gn w g) -> exists k sc, made w !! l = Some k /\ scopes w !! k = Some sc /\ sc_gen sc = g /\ closed sc = false /\ l ∈ subscriptions sc /\ l ∉ fired w /\ l ∉ disposed w;
  l_sub : forall k sc l, scopes w !! k = Some sc -> l ∈ subscriptions sc -> made w !! l = Some k /\ l ∈ listeners (gn w (sc_gen sc));
  l_made : forall l k, made w !! l = Some k -> exists sc, scopes w !! k = Some sc /\ (l ∈ fired w \/ l ∈ disposed w \/ l ∈ subscriptions sc);
  l_once : NoDup (fired w);
  l_mine : forall l, l ∈ fired w \/ l ∈ disposed w -> l ∈ dom (made w);
  l_who : forall l k sc, l ∈ fired w -> made w !! l = Some k -> scopes w !! k = Some sc -> closed sc = true \/ k ∈ cut w;
  l_ret : forall g, listeners (gn w g) <> [] -> retired (gn w g) = true -> exists c y, closers w !! c = Some y /\ notifying y = Some g
}.

Lemma elem_of_without l ls x : x ∈ without l ls <-> x ∈ l /\ x ∉ ls.
Proof.
  unfold without. rewrite !list_elem_of_In, filter_In, negb_true_iff, bool_decide_eq_false. rewrite list_elem_of_In. tauto.
Qed.

Lemma listen_frame w w' :
  Listen w -> made w' = made w -> fired w' = fired w -> disposed w' = disposed w -> cut w ⊆ cut w' ->
  (forall g, listeners (gn w' g) = listeners (gn w g)) ->
  (forall k sc, scopes w !! k = Some sc -> scopes w' !! k = Some sc) ->
  (forall k sc, scopes w' !! k = Some sc -> scopes w !! k = Some sc \/ subscriptions sc = [] /\ scopes w !! k = None) ->
  (forall g, listeners (gn w g) <> [] -> retired (gn w' g) = true ->
     (retired (gn w g) = true /\ (forall c y, closers w !! c = Some y -> notifying y = Some g -> exists c y, closers w' !! c = Some y /\ notifying y = Some g)) \/
     exists c y, closers w' !! c = Some y /\ notifying y = Some g) ->
  Listen w'.
Proof.
  intros H Em Ef Ed Hc Hl Hs1 Hs2 Hr. split; rewrite ?Em, ?Ef, ?Ed.
  - intros g l. rewrite Hl. intros (k & sc & Ha & Hb & Hrest)%(l_lis _ H). exists k, sc. split; [done|]. split; [by apply Hs1|done].
  - intros k sc l [Hk|[E _]]%Hs2; [|by rewrite E; intros ?%not_elem_of_nil]. rewrite Hl. by apply (l_sub _ H).
  - intros l k (sc & Hk & Hrest)%(l_made _ H). exists sc. split; [by apply Hs1|done].
  - apply H.
  - apply (l_mine _ H).
  - intros l k sc Hf Hm Hk. destruct (Hs2 k sc Hk) as [Hk'|[_ Hno]].
    + destruct (l_who _ H l k sc Hf Hm Hk'); [by left|right; set_solver].
    + destruct (l_made _ H l k Hm) as (sc' & Hsc' & _). congruence.
  - intros g. rewrite Hl. intros Hne Hre. destruct (Hr g Hne Hre) as [[Hre' Hx]|?]; [|done]. destruct (l_ret _ H g Hne Hre') as (c & y & Hcy & Hy). by apply (Hx c y).
Qed.

Lemma listen_same w w' :
  Listen w -> made w' = made w -> fired w' = fired w -> disposed w' = disposed w -> cut w' = cut w -> (forall g, gn w' g = gn w g) -> scopes w' = scopes w -> closers w' = closers w -> Listen w'.
Proof.
  intros H E1 E2 E3 E4 E5 E6 E7. apply (listen_frame w); rewrite ?E4, ?E6, ?E7; try done; [intros g; by rewrite E5|auto|].
  intros g Hne Hr. rewrite E5 in Hr. left. split; [done|]. intros c y Hc Hy. by exists c, y.
Qed.

Definition gone (ls l : list nat) : list nat := List.filter (fun x => bool_decide (x ∈ ls)) l.
Lemma elem_of_gone ls l x : x ∈ gone ls l <-> x ∈ l /\ x ∈ ls.
Proof. unfold gone. by rewrite list_elem_of_In, filter_In, bool_decide_eq_true, <- list_elem_of_In. Qed.

(** Listeners of one scope stop waiting: each is called or withdrawn. *)
Lemma listen_remove w w' k sc ls fs ds :
  Listen w -> scopes w !! k = Some sc -> (forall l, l ∈ ls -> l ∈ dom (made w) -> made w !! l = Some k) ->
  scopes w' = scopes (unlisten w k ls) -> (forall g, gn w' g = gn (unlisten w k ls) g) -> made w' = made w -> closers w' = closers w -> cut w' = cut w ->
  fired w' = (fs ++ fired w)%list -> disposed w' = ds ∪ disposed w -> NoDup fs ->
  (forall l, l ∈ subscriptions sc /\ l ∈ ls <-> l ∈ fs \/ l ∈ ds) -> (forall l, l ∈ fs -> k ∈ cut w) -> Listen w'.
Proof.
  intros H Hk Hown Esc Egn Em Ecl Ec Ef Ed Hnd Hall Hcut.
  assert (forall l, l ∈ fs \/ l ∈ ds -> made w !! l = Some k /\ l ∈ listeners (gn w (sc_gen sc)) /\ l ∈ ls) as Hmine.
  { intros l Hl. apply Hall in Hl as [Hl Hls]. by destruct (l_sub _ H k sc l Hk Hl). }
  assert (forall l, l ∈ fs \/ l ∈ ds -> l ∉ fired w) as Hnew by (intros l Hl; destruct (Hmine l Hl) as (_ & Hlis & _); apply (l_lis _ H) in Hlis as (? & ? & _ & _ & _ & _ & _ & ? & _); done).
  assert (forall g, retired (gn w' g) = retired (gn w g) /\ forall l, l ∈ listeners (gn w' g) <-> l ∈ listeners (gn w g) /\ (g = sc_gen sc -> l ∉ ls)) as Hg.
  { intros g. rewrite Egn. unfold unlisten. rewrite Hk.
    change (retired (gn (put_gn w (sc_gen sc) (mkGen (retired (gn w (sc_gen sc))) (without (listeners (gn w (sc_gen sc))) ls))) g) = retired (gn w g) /\
      forall l, l ∈ listeners (gn (put_gn w (sc_gen sc) (mkGen (retired (gn w (sc_gen sc))) (without (listeners (gn w (sc_gen sc))) ls))) g) <-> l ∈ listeners (gn w g) /\ (g = sc_gen sc -> l ∉ ls)).
    rewrite gn_put. destruct (decide (g = sc_gen sc)) as [->|]; cbn; [|tauto]. split; [done|]. intros l. rewrite elem_of_without. tauto. }
  assert (forall k' z, scopes w' !! k' = Some z -> exists z0, scopes w !! k' = Some z0 /\ sc_gen z = sc_gen z0 /\ closed z = closed z0 /\ forall l, l ∈ subscriptions z <-> l ∈ subscriptions z0 /\ (k' = k -> l ∉ ls)) as Hsc.
  { intros k' z. rewrite Esc. unfold unlisten. rewrite Hk. intros [(-> & ->)|(Hne & Hz)]%insert_cases; [exists sc|exists z]; cbn; repeat split; try done; try (rewrite elem_of_without in *; tauto). tauto. }
  assert (forall k' z0, scopes w !! k' = Some z0 -> exists z, scopes w' !! k' = Some z /\ sc_gen z = sc_gen z0 /\ closed z = closed z0 /\ forall l, l ∈ subscriptions z <-> l ∈ subscriptions z0 /\ (k' = k -> l ∉ ls)) as Hsc'.
  { intros k' z0 Hz0. assert (is_Some (scopes w' !! k')) as [z Hz].
    { rewrite Esc. unfold unlisten. rewrite Hk. cbn. destruct (decide (k' = k)) as [->|]; [rewrite lookup_insert_eq|rewrite lookup_insert_ne by done]; eauto. }
    exists z. split; [done|]. destruct (Hsc k' z Hz) as (z1 & Hz1 & Hrest). by assert (z1 = z0) as -> by congruence. }
  split; rewrite ?Em, ?Ec, ?Ecl.
  - intros g l [Hl Hno]%(proj2 (Hg g)). destruct (l_lis _ H g l Hl) as (k' & z0 & Hm & Hz0 & Eg & Ho & Hs & Hf & Hd).
    destruct (Hsc' k' z0 Hz0) as (z & Hz & Ezg & Ezc & Hzs). exists k', z. rewrite Ezg, Ezc, Hzs.
    assert (k' = k -> l ∉ ls) as Hnk by (intros ->; apply Hno; congruence).
    assert (~ (l ∈ fs \/ l ∈ ds)) as Hnf by (intros Hx; destruct (Hmine l Hx) as (Hmk & _ & Hls); apply Hnk; [congruence|done]).
    rewrite Ef, Ed. split; [done|]. split; [done|]. split; [done|]. split; [done|]. split; [done|]. split; [rewrite elem_of_app; tauto|set_solver].
  - intros k' z l Hz Hl. destruct (Hsc k' z Hz) as (z0 & Hz0 & Ezg & _ & Hzs). destruct (proj1 (Hzs l) Hl) as [Hl0 Hno]. destruct (l_sub _ H k' z0 l Hz0 Hl0) as [Hm Hlis].
    split; [done|]. rewrite Ezg. apply (proj2 (Hg _)). split; [done|]. intros _ Hls. apply Hno; [|done]. assert (made w !! l = Some k) as Hmk by (apply Hown; [done|by apply elem_of_dom; exists k']). congruence.
  - intros l k' Hm. destruct (l_made _ H l k' Hm) as (z0 & Hz0 & Hcase). destruct (Hsc' k' z0 Hz0) as (z & Hz & _ & _ & Hzs). exists z. split; [done|]. rewrite Ef, Ed, Hzs, elem_of_app, elem_of_union.
    destruct Hcase as [|[|Hs]]; [tauto|tauto|]. destruct (decide (l ∈ ls)) as [Hls|Hls]; [|tauto].
    assert (k' = k) as -> by (assert (made w !! l = Some k) by (apply Hown; [done|by apply elem_of_dom; exists k']); congruence). assert (z0 = sc) as -> by congruence.
    destruct (proj1 (Hall l) (conj Hs Hls)); tauto.
  - rewrite Ef. apply NoDup_app. split; [done|]. split; [|apply H]. intros l Hl. apply Hnew. by left.
  - intros l. rewrite Ef, Ed, elem_of_app, elem_of_union. intros Hcase. assert ((l ∈ fs \/ l ∈ ds) \/ l ∈ fired w \/ l ∈ disposed w) as [Hx|Hx] by tauto; [|by apply (l_mine _ H)].
    destruct (Hmine l Hx) as (Hm & _). by apply elem_of_dom; exists k.
  - intros l k' z Hl Hm Hz. destruct (Hsc k' z Hz) as (z0 & Hz0 & _ & Ezc & _). rewrite Ef, elem_of_app in Hl. rewrite Ezc. destruct Hl as [Hl|Hl]; [|by apply (l_who _ H l k' z0)].
    right. destruct (Hmine l (or_introl Hl)) as (Hmk & _). assert (k' = k) as -> by congruence. by apply (Hcut l).
  - intros g Hne Hr. destruct (Hg g) as [Er Hl]. rewrite Er in Hr. apply (l_ret _ H g); [|done]. intros E. apply Hne. destruct (listeners (gn w' g)) as [|a b] eqn:El; [done|].
    assert (a ∈ listeners (gn w g)) as Ha by (apply Hl; by left). rewrite E in Ha. by apply not_elem_of_nil in Ha.
Qed.

Lemma loop_frame w w' :
  Loop w -> (forall c y, closers w' !! c = Some y -> notifying y <> None -> closers w !! c = Some y /\ generation (st w' (cl_state y)) = generation (st w (cl_state y))) -> Loop w'.
Proof. intros H Hf c y g Hc Hn. destruct (Hf c y Hc) as [Hc' E]; [congruence|]. rewrite E. by apply (H c y g). Qed.

Lemma loop_gen w w' : Loop w -> closers w' = closers w -> (forall r, generation (st w' r) = generation (st w r)) -> Loop w'.
Proof. intros H E1 E2. apply (loop_frame w); [done|]. rewrite E1. done. Qed.

Lemma gen_put w r y r' : generation y = generation (st w r) -> generation (st (put_st w r y) r') = generation (st w r').
Proof. intros E. rewrite st_put. by destruct (decide (r' = r)) as [->|]. Qed.

Lemma loop_stateFor w id w1 r : Core None w -> Loop w -> stateFor w id = (w1, r) -> Loop w1.
Proof.
  intros Hc H Es. destruct (core_stateFor _ _ _ _ Hc Es) as (_ & _ & _ & _ & E & _ & _ & _ & _ & _ & Hs & _). intros c y g Hy Hn. rewrite E in Hy.
  destruct (H c y g Hy Hn) as [Hg Hr]. split; [|done]. pose proof (c_cl _ _ Hc c y Hy Hr) as Hin. by destruct (Hs _ _ Hin) as [_ ->].
Qed.

Lemma loop_unlisten w k l : Loop w -> Loop (unlisten w k l).
Proof. intros H. unfold unlisten. destruct (scopes w !! k); [|done]. by apply (loop_gen w). Qed.

(** Two unreleased closers of a state count twice. *)
Lemma two_held w c c' x y :
  Core None w -> closers w !! c = Some x -> closers w !! c' = Some y -> c' <> c -> released x = false -> released y = false -> cl_state y = cl_state x ->
  closing (st w (cl_state x)) - 1 = 0 -> False.
Proof.
  intros H Hx Hy Hne Hr Hr' E Ez. rewrite (c_clo _ _ H) in Ez. rewrite <- (insert_delete_id _ _ _ Hx), msum_new in Ez by apply lookup_delete_eq.
  pose proof (at_le (held_in (cl_state x)) (delete c (closers w)) c' (held_nonneg _)) as Ha. unfold at_key in Ha. rewrite lookup_delete_ne, Hy in Ha by done.
  unfold held_in at 1 in Ez. unfold held_in at 1 in Ha. rewrite E, Hr', Nat.eqb_refl in Ha. rewrite Hr, Nat.eqb_refl in Ez. cbn in *. lia.
Qed.

Lemma loop_step o w w' : do_op o w = Some w' -> Core None w -> Loop w -> Loop w'.
Proof.
  intros Ho Hc H. destruct o; cbn in Ho; op_inv Ho; try (by apply (loop_gen w)).
  - unfold captureSessionWrites. destruct (stateFor w id) as [w1 r] eqn:Es. pose proof (loop_stateFor _ _ _ _ Hc H Es) as H1. destruct (_ =? _); (apply (loop_gen w1); [done..|]); intros r'; by apply gen_put.
  - unfold onRetire. destruct (current _ _); by apply (loop_gen w).
  - by apply (loop_gen (unlisten w x [l])); [apply loop_unlisten| |].
  - unfold write. destruct (current w x); [|done]. apply (loop_gen w); [done..|]. intros r'. by apply gen_put.
  - unfold write_finally. apply releaseIdle_frame; (apply (loop_gen w); [done..|]); intros r'; by apply gen_put.
  - unfold close. destruct (closed x); [done|]. assert (forall r, generation (st (withdraw w k (subscriptions x)) r) = generation (st w r)) as Hg by (intros r; unfold withdraw, unlisten; by rewrite Hx).
    assert (closers (withdraw w k (subscriptions x)) = closers w) as Ec by (unfold withdraw, unlisten; by rewrite Hx).
    apply releaseIdle_frame; (apply (loop_gen w); [done|exact Ec|]); intros r'; rewrite <- Hg;
      by apply (gen_put (put_scope (withdraw w k (subscriptions x)) k (mkScope (sc_session x) (sc_state x) (sc_gen x) true []))).
  - unfold retire. destruct (stateFor w id) as [w1 r] eqn:Es. pose proof (loop_stateFor _ _ _ _ Hc H Es) as H1. set (x := st w1 r).
    assert (forall r', generation (st (put_st w1 r (mkState (captures x) (closing x + 1) (generation x) (writes x))) r') = generation (st w1 r')) as Hg by (intros r'; by apply gen_put).
    intros c' y g [(-> & ->)|(Hne & Hy)]%insert_cases Hn; [injection Hn as <-; split; [exact (Hg r)|done]|]. destruct (H1 c' y g Hy Hn) as [E Hr]. split; [|done]. rewrite <- E. exact (Hg (cl_state y)).
  - unfold notify. destruct (listeners (gn w x0)) as [|l r]; [done|]. destruct (made w !! l); by apply (loop_gen (unlisten w n [l])); [apply loop_unlisten| |] || by apply (loop_gen w).
  - intros c' y g [(-> & ->)|(Hne & Hy)]%insert_cases Hn; [done|]. by apply (H c' y g).
  - unfold release. destruct (released x) eqn:Hr; [done|]. cbn [captures closing generation writes].
    assert (forall w1, closers w1 = <[c := mkCloser (cl_session x) (cl_state x) (notifying x) true]> (closers w) ->
      (forall c' y, closers w !! c' = Some y -> c' <> c -> released y = false -> generation (st w1 (cl_state y)) = generation (st w (cl_state y))) -> Loop w1) as Hall.
    { intros w1 E1 E2 c' y g. rewrite E1. intros [(-> & ->)|(Hne & Hy)]%insert_cases Hn; [cbn in Hn; congruence|]. destruct (H c' y g Hy Hn) as [E Hr']. split; [|done]. by rewrite (E2 c' y). }
    destruct (Z.eqb_spec (closing (st w (cl_state x)) - 1) 0) as [Ez|Ez]; apply releaseIdle_frame; (apply Hall; [done|]); intros c' y Hy Hne Hr'.
    1, 2: change (generation (st (put_st w (cl_state x) (mkState (captures (st w (cl_state x))) (closing (st w (cl_state x)) - 1) (fresh (dom (gens w))) (writes (st w (cl_state x))))) (cl_state y)) = generation (st w (cl_state y)));
      rewrite st_put; destruct (decide (cl_state y = cl_state x)) as [E|]; [exfalso; by apply (two_held w c c' x y)|done].
    all: by apply (gen_put w (cl_state x)).
Qed.

Lemma listen_onRetire w k l sc : Core None w -> Listen w -> scopes w !! k = Some sc -> made w !! l = None -> Listen (onRetire w k l sc).
Proof.
  intros Hc H Hk Hl. assert (l ∉ fired w /\ l ∉ disposed w) as [Hnf Hnd] by (split; intros Hx; apply not_elem_of_dom in Hl; apply Hl, (l_mine _ H); tauto).
  assert (forall l' k', <[l := k]> (made w) !! l' = Some k' -> (l' = l /\ k' = k) \/ (l' <> l /\ made w !! l' = Some k')) as Hm by (intros l' k' Hx; by apply insert_cases in Hx as [[-> ->]|[? ?]]; auto).
  assert (forall l' k', made w !! l' = Some k' -> l' <> l /\ <[l := k]> (made w) !! l' = Some k') as Hm' by (intros l' k' Hx; split; [congruence|]; rewrite lookup_insert_ne by congruence; done).
  unfold onRetire. destruct (current (put_made w l k) sc) eqn:Hcur0; pose proof Hcur0 as Hcur; change (current (put_made w l k) sc) with (current w sc) in Hcur; clear Hcur0.
  - destruct (proj1 (current_iff _ _ _ _ Hc Hk) Hcur) as [Ho Hncut]. set (g0 := gn w (sc_gen sc)). change (gn (put_made w l k) (sc_gen sc)) with g0.
    set (w2 := put_gn w (sc_gen sc) (mkGen (retired g0) (listeners g0 ++ [l])%list)).
    assert (forall g, retired (gn w2 g) = retired (gn w g) /\ forall l', l' ∈ listeners (gn w2 g) <-> l' ∈ listeners (gn w g) \/ (l' = l /\ g = sc_gen sc)) as Hg.
    { intros g. unfold w2. rewrite gn_put. destruct (decide (g = sc_gen sc)) as [->|]; cbn; fold g0; [|tauto]. split; [done|]. intros l'. rewrite elem_of_app, list_elem_of_singleton. tauto. }
    split; try (match goal with |- context [gn ?w'] => change (gn w') with (gn w2) end); cbn; try apply H.
    + intros g l' [Hl'|[-> ->]]%(proj2 (Hg g)).
      * destruct (l_lis _ H g l' Hl') as (k' & z & Hmk & Hz & Hrest). exists k'. destruct (Hm' l' k' Hmk) as [_ ->]. destruct (decide (k' = k)) as [->|]; [|exists z; rewrite lookup_insert_ne by done; done].
        rewrite lookup_insert_eq. eexists. split; [done|]. split; [done|]. cbn. assert (z = sc) as -> by congruence. rewrite elem_of_app. tauto.
      * exists k. rewrite !lookup_insert_eq. eexists. split; [done|]. split; [done|]. cbn. rewrite elem_of_app, list_elem_of_singleton. tauto.
    + intros k' z l' [(-> & ->)|(Hne & Hz)]%insert_cases; cbn.
      * rewrite elem_of_app, list_elem_of_singleton. intros [Hs|Hs].
        -- destruct (l_sub _ H k sc l' Hk Hs) as [Hmk Hlis]. split; [by apply Hm'|]. apply (proj2 (Hg _)). tauto.
        -- rewrite Hs, lookup_insert_eq. split; [done|]. apply (proj2 (Hg _)). tauto.
      * intros Hs. destruct (l_sub _ H k' z l' Hz Hs) as [Hmk Hlis]. split; [by apply Hm'|]. apply (proj2 (Hg _)). tauto.
    + intros l' k' [[-> ->]|[Hne Hmk]]%Hm; [eexists; rewrite lookup_insert_eq; split; [done|]; cbn; rewrite elem_of_app, list_elem_of_singleton; tauto|].
      destruct (l_made _ H l' k' Hmk) as (z & Hz & Hrest). destruct (decide (k' = k)) as [->|]; [|exists z; rewrite lookup_insert_ne by done; done].
      eexists. rewrite lookup_insert_eq. split; [done|]. cbn. assert (z = sc) as -> by congruence. rewrite elem_of_app. tauto.
    + intros l' Hx. pose proof (l_mine _ H l' Hx). set_solver.
    + intros l' k' z Hf [[-> ->]|[Hne Hmk]]%Hm Hz; [done|]. apply insert_cases in Hz as [(-> & ->)|(Hne2 & Hz)]; cbn; by apply (l_who _ H l').
    + intros g Hne Hr. destruct (Hg g) as [Er Hlg]. rewrite Er in Hr. destruct (decide (g = sc_gen sc)) as [->|Hng].
      * exfalso. unfold current in Hcur. rewrite Hr in Hcur. cbn in Hcur. by rewrite andb_false_r in Hcur.
      * apply (l_ret _ H g); [|done]. intros E. apply Hne. unfold w2. rewrite gn_put, decide_False by done. done.
  - assert (closed sc = true \/ k ∈ cut w) as Hw.
    { destruct (closed sc) eqn:Ho; [by left|]. right. destruct (decide (k ∈ cut w)) as [|Hn]; [done|]. by rewrite (proj2 (current_iff _ _ _ _ Hc Hk)) in Hcur. }
    split; cbn; try apply H.
    + intros g l' Hl'. destruct (l_lis _ H g l' Hl') as (k' & z & Hmk & Hz & Hrest). exists k', z. destruct (Hm' l' k' Hmk) as [Hne ->]. rewrite elem_of_cons. tauto.
    + intros k' z l' Hz Hs. destruct (l_sub _ H k' z l' Hz Hs) as [Hmk Hlis]. split; [by apply Hm'|done].
    + intros l' k' [[-> ->]|[Hne Hmk]]%Hm; [exists sc; rewrite elem_of_cons; tauto|]. destruct (l_made _ H l' k' Hmk) as (z & Hz & Hrest). exists z. rewrite elem_of_cons. tauto.
    + constructor; [done|apply H].
    + intros l'. rewrite elem_of_cons. intros Hx. destruct (decide (l' = l)) as [->|]; [set_solver|]. assert (l' ∈ dom (made w)) by (apply (l_mine _ H); tauto). set_solver.
    + intros l' k' z Hf [[-> ->]|[Hne Hmk]]%Hm Hz; [by assert (z = sc) as -> by congruence|]. apply elem_of_cons in Hf as [?|Hf]; [done|]. by apply (l_who _ H l').
Qed.

Lemma listen_shut w k sc : Listen w -> scopes w !! k = Some sc -> subscriptions sc = [] -> Listen (put_scope w k (mkScope (sc_session sc) (sc_state sc) (sc_gen sc) true [])).
Proof.
  intros H Hk Hs. assert (forall l, l ∉ subscriptions sc) as Hno by (intros l; rewrite Hs; apply not_elem_of_nil). split; try apply H; cbn.
  - intros g l Hl. destruct (l_lis _ H g l Hl) as (k' & z & Hm & Hz & Hrest). exists k', z. split; [done|]. split; [|done]. rewrite lookup_insert_ne; [done|].
    intros <-. assert (z = sc) as -> by congruence. specialize (Hno l). tauto.
  - intros k' z l [(-> & ->)|(Hne & Hz)]%insert_cases Hl; [by apply not_elem_of_nil in Hl|by apply (l_sub _ H)].
  - intros l k' Hm. destruct (l_made _ H l k' Hm) as (z & Hz & Hrest). destruct (decide (k' = k)) as [->|]; [|exists z; rewrite lookup_insert_ne by done; done].
    eexists. rewrite lookup_insert_eq. split; [done|]. assert (z = sc) as -> by congruence. specialize (Hno l). tauto.
  - intros l k' z Hf Hm [(-> & ->)|(Hne & Hz)]%insert_cases; [by left|by apply (l_who _ H l)].
Qed.

Lemma listen_withdraw w k sc ls :
  Listen w -> scopes w !! k = Some sc -> (forall l, l ∈ ls -> l ∈ dom (made w) -> made w !! l = Some k) -> Listen (withdraw w k ls).
Proof.
  intros H Hk Hown. apply (listen_remove w _ k sc ls [] (list_to_set (gone ls (subscriptions sc)))); try done; try (unfold withdraw, unlisten; by rewrite Hk).
  - constructor.
  - intros l. rewrite elem_of_list_to_set, elem_of_gone. split; [by right|]. intros [?%not_elem_of_nil|?]; done.
  - by intros l ?%not_elem_of_nil.
Qed.

Lemma listen_notify w c y g : Core None w -> Loop w -> Listen w -> closers w !! c = Some y -> notifying y = Some g -> Listen (notify w g).
Proof.
  intros Hc HL H Hy Hn. unfold notify. destruct (listeners (gn w g)) as [|l rest] eqn:El; [done|].
  assert (l ∈ listeners (gn w g)) as Hl by (rewrite El; by left). destruct (l_lis _ H g l Hl) as (k & sc & Hm & Hk & Eg & Ho & Hs & Hf & Hd). rewrite Hm.
  destruct (HL c y g Hy Hn) as [Egen Hr]. pose proof (c_cl _ _ Hc c y Hy Hr) as Hin. pose proof (closing_held _ _ _ _ Hc Hy Hr) as Hcl.
  assert (k ∈ cut w) as Hcut.
  { destruct (c_gen _ _ Hc k sc Hk Ho) as [E _]. rewrite Eg, <- Egen, (c_ret _ _ Hc _ _ Hin) in E. symmetry in E. apply (proj1 (bool_decide_eq_true _)). rewrite E. apply Z.ltb_lt. lia. }
  apply (listen_remove w _ k sc [l] [l] ∅); try done; try (unfold unlisten; rewrite Hk; done).
  - intros l' ->%list_elem_of_singleton _. done.
  - unfold unlisten. rewrite Hk. cbn. set_solver.
  - apply NoDup_singleton.
  - intros l'. rewrite list_elem_of_singleton. split; [tauto|]. intros [->|?%not_elem_of_empty]; done.
Qed.

Lemma listen_step o w w' : do_op o w = Some w' -> Core None w -> Loop w -> Listen w -> Listen w'.
Proof.
  intros Ho Hc HL H. destruct o; cbn in Ho; op_inv Ho; try (by apply (listen_same w)).
  - unfold captureSessionWrites. destruct (stateFor w id) as [w1 r] eqn:Es. destruct (core_stateFor _ _ _ _ Hc Es) as (_ & _ & E1 & _ & E2 & _ & E3 & E4 & E5 & E6 & _ & Eg).
    assert (forall cs, cut w ⊆ cs -> Listen (put_cut (put_scope w1 k (mkScope id r (generation (st w1 r)) false [])) cs)) as Hall.
    { intros cs Hcs. apply (listen_frame w); try done; cbn; rewrite ?E1, ?E2.
      - intros g. change (listeners (gn w1 g) = listeners (gn w g)). by rewrite Eg.
      - intros k' z Hz. rewrite lookup_insert_ne by congruence. done.
      - intros k' z [(-> & ->)|(Hne & Hz)]%insert_cases; auto.
      - intros g Hne Hr. left. change (retired (gn w1 g) = true) in Hr. rewrite Eg in Hr. split; [done|]. intros c y Hy Hn. by exists c, y. }
    destruct (_ =? _); [apply (listen_same _ _ (Hall (cut w) ltac:(done)))|apply (listen_same _ _ (Hall ({[k]} ∪ cut w) ltac:(set_solver)))]; try done; cbn; by rewrite E5.
  - by apply listen_onRetire.
  - destruct (l_made _ H l x Hx) as (sc & Hsc & _). apply (listen_withdraw w x sc [l] H Hsc). by intros l' ->%list_elem_of_singleton.
  - unfold write. destruct (current w x); by apply (listen_same w).
  - unfold write_finally. apply releaseIdle_frame; by apply (listen_same w).
  - unfold close. destruct (closed x) eqn:Ecl; [done|].
    assert (Listen (withdraw w k (subscriptions x))) as H1 by (apply (listen_withdraw w k x); [done..|]; intros l Hl _; by destruct (l_sub _ H k x l Hx Hl)).
    assert (without (subscriptions x) (subscriptions x) = []) as Hnil.
    { destruct (without _ _) as [|a b] eqn:E; [done|]. assert (a ∈ without (subscriptions x) (subscriptions x)) as Ha by (rewrite E; by left). apply elem_of_without in Ha. tauto. }
    pose proof (unlisten_scope w k (subscriptions x) x Hx) as Hk. rewrite Hnil in Hk. pose proof (listen_shut _ k _ H1 Hk eq_refl) as H2. cbn [sc_session sc_state sc_gen] in H2.
    apply releaseIdle_frame; apply (listen_same _ _ H2); done.
  - unfold retire. destruct (stateFor w id) as [w1 r] eqn:Es. destruct (core_stateFor _ _ _ _ Hc Es) as (_ & _ & E1 & _ & E2 & _ & E3 & E4 & E5 & E6 & _ & Eg).
    set (x := st w1 r). set (w2 := put_gn w1 (generation x) (mkGen true (listeners (gn w1 (generation x))))).
    match goal with |- Listen ?w' => set (w3 := w') end.
    assert (forall g, gn w3 g = gn w2 g) as Hg3 by done. apply (listen_frame w); try done.
    + cbn. rewrite E5. set_solver.
    + intros g. rewrite Hg3. unfold w2. rewrite gn_put. destruct (decide (g = generation x)) as [->|]; cbn; by rewrite Eg.
    + cbn. by rewrite E1.
    + cbn. rewrite E1. auto.
    + intros g Hne Hr. rewrite Hg3 in Hr. unfold w2 in Hr. rewrite gn_put in Hr. destruct (decide (g = generation x)) as [->|Hng].
      * right. exists c. eexists. cbn. rewrite lookup_insert_eq. split; done.
      * left. rewrite Eg in Hr. split; [done|]. intros c' y Hy Hn. exists c', y. cbn. rewrite E2, lookup_insert_ne by congruence. done.
  - by apply (listen_notify w c x x0).
  - destruct (HL c x x0 Hx Hx0) as [Eg Hr]. unfold handle. rewrite Eg. apply (listen_frame w); try done.
    + intros g. change (listeners (gn (put_gn w x0 (mkGen (retired (gn w x0)) [])) g) = listeners (gn w g)). rewrite gn_put. destruct (decide (g = x0)) as [->|]; [by rewrite Hb|done].
    + auto.
    + intros g Hne Hret. left. change (retired (gn (put_gn w x0 (mkGen (retired (gn w x0)) [])) g) = true) in Hret. rewrite gn_put in Hret.
      assert (g <> x0) as Hng by (intros ->; by rewrite Hb in Hne). rewrite decide_False in Hret by done. split; [done|]. intros c' y Hy Hn. exists c', y. cbn. rewrite lookup_insert_ne by congruence. done.
  - unfold release. destruct (released x) eqn:Hr; [done|]. cbn [captures closing generation writes].
    assert (Listen (put_closer w c (mkCloser (cl_session x) (cl_state x) (notifying x) true))) as H1.
    { apply (listen_frame w); try done; [auto|]. intros g Hne Hre. left. split; [done|]. intros c' y Hy Hn. exists c', y. cbn. rewrite lookup_insert_ne by congruence. done. }
    destruct (_ =? 0); apply releaseIdle_frame; apply (listen_same _ _ H1); try done; intros g;
      (match goal with |- gn ?w' g = _ => change (gn w' g) with (gn (put_gn w (fresh (dom (gens w))) (mkGen false [])) g) end; rewrite gn_put;
       destruct (decide (g = _)) as [->|]; [unfold gn; cbn; by rewrite fresh_none|done]).
Qed.

(** ** What holds of every interleaving *)

Record Good (w : World) : Prop := mkGood { g_core : Core None w; g_drained : Drained w; g_loop : Loop w; g_listen : Listen w }.

Lemma good_reachable w : reachable w -> Good w.
Proof.
  intros H. apply (rtc_invariant step Good start w); [|exact H|].
  - intros w1 w2 [o Ho] [H1 H2 H3 H4]. split; [by eapply core_step|by eapply drained_step|by eapply loop_step|by eapply listen_step].
  - split; [apply core_start| | |].
    + split; cbn; done.
    + by intros c y g Hc.
    + assert (forall g, gn start g = mkGen false []) as Hg by done. split; cbn; try done.
      * intros g l Hl. rewrite Hg in Hl. by apply not_elem_of_nil in Hl.
      * constructor.
      * intros l [?%not_elem_of_nil|?%not_elem_of_empty]; done.
Qed.

(** C22. From the moment a drain of a session's writes is over until the closing is
    released, no write of that session is admitted or running, whatever scopes were
    captured, written through, closed and retired in between and in whatever order:
    the session's rows can be deleted without a write landing after them. *)
Theorem drained_session_is_quiet w d x c n z :
  reachable w -> drains w !! d = Some x -> over x = true -> closers w !! d_closer x = Some c -> released c = false ->
  ws w !! n = Some z -> w_session z = cl_session c -> settled w n = true.
Proof.
  intros [Hc [_ Hd] _ _]%good_reachable Hx Hov Hcl Hr Hz Es. unfold settled. rewrite Hz. apply bool_decide_eq_true.
  destruct (phase z) eqn:Hp; [..|by left|by right]; exfalso;
    (assert (sessions w !! w_session z = Some (w_state z)) as Hs by (apply (c_ws _ _ Hc n); [done|by rewrite Hp]));
    rewrite Es, (c_cl _ _ Hc _ _ Hcl Hr) in Hs; injection Hs as Hs;
    destruct (Hd d x c n z) as [_ E]; try done; try congruence; unfold unsettled; tauto.
Qed.

(** A scope admits a write exactly while it is open and its session has not begun
    to close since the scope was captured: a scope of an earlier lifetime stays shut
    after the closing is released, and one of the current lifetime is never refused. *)
Theorem scope_admits_its_lifetime w k sc n w' :
  reachable w -> scopes w !! k = Some sc -> do_op (OpWrite k n) w = Some w' ->
  (ws w' !! n <> None <-> closed sc = false /\ k ∉ cut w) /\ (ws w' !! n = None -> w' = w).
Proof.
  intros [Hc _ _ _]%good_reachable Hk Ho. cbn in Ho. rewrite Hk in Ho. cbn in Ho. apply when_some in Ho as [Hn%bool_decide_eq_true <-].
  rewrite <- (current_iff _ _ _ _ Hc Hk). unfold write. destruct (current w sc); cbn; [rewrite lookup_insert_eq|]; [|by rewrite Hn]. done.
Qed.

Lemma cut_grows o w w' : do_op o w = Some w' -> Core None w -> cut w ⊆ cut w'.
Proof.
  intros Ho Hc. destruct o; cbn in Ho; op_inv Ho; try done.
  - unfold captureSessionWrites. destruct (stateFor w id) as [w1 r] eqn:Es. destruct (core_stateFor _ _ _ _ Hc Es) as (_ & _ & _ & _ & _ & _ & _ & _ & E & _).
    destruct (_ =? _); cbn; rewrite E; set_solver.
  - unfold onRetire. by destruct (current _ _).
  - unfold withdraw, unlisten. by destruct (scopes w !! x).
  - unfold write. by destruct (current w x).
  - unfold write_finally. by apply releaseIdle_frame.
  - unfold close. destruct (closed x); [done|]. unfold withdraw, unlisten. rewrite Hx. by apply releaseIdle_frame.
  - unfold retire. destruct (stateFor w id) as [w1 r] eqn:Es. destruct (core_stateFor _ _ _ _ Hc Es) as (_ & _ & _ & _ & _ & _ & _ & _ & E & _). cbn. rewrite E. set_solver.
  - unfold notify. destruct (listeners (gn w x0)) as [|l r]; [done|]. destruct (made w !! l) as [k|]; [|done]. unfold unlisten. by destruct (scopes w !! k).
  - unfold release. destruct (released x); [done|]. cbn. by destruct (_ =? 0); apply releaseIdle_frame.
Qed.

(** Once a session began to close, no scope captured before that ever writes
    again, however long it is kept and whether or not the closing was released. *)
Theorem closed_lifetime_never_writes w k sc c w1 w2 n w3 :
  reachable w -> scopes w !! k = Some sc -> do_op (OpRetire c (sc_session sc)) w = Some w1 -> rtc step w1 w2 ->
  do_op (OpWrite k n) w2 = Some w3 -> w3 = w2.
Proof.
  intros Hr Hk Ho Hrun Hw. pose proof (good_reachable _ Hr) as Hg.
  assert (reachable w1) as Hr1 by (eapply rtc_r; [exact Hr|by eexists]). assert (k ∈ cut w1) as Hcut.
  { cbn in Ho. apply when_some in Ho as [_ <-]. unfold retire. destruct (stateFor w (sc_session sc)) as [w0 r] eqn:Es.
    destruct (core_stateFor _ _ _ _ (g_core _ Hg) Es) as (_ & _ & E & _). cbn. apply elem_of_union. left. apply elem_of_scopes_of. exists sc. cbn. by rewrite E. }
  assert (reachable w2 /\ k ∈ cut w2) as [Hr2 Hcut2].
  { clear Hw Ho. revert Hr1 Hcut. induction Hrun as [|x y z [o Hs] _ IH]; [done|]. intros Hx Hkx. apply IH; [eapply rtc_r; [exact Hx|by eexists]|].
    by apply (cut_grows o x y Hs (g_core _ (good_reachable _ Hx))). }
  cbn in Hw. apply bind_Some in Hw as (sc2 & Hk2 & Hw). apply when_some in Hw as [_ <-]. unfold write. destruct (current w2 sc2) eqn:Hcur; [|done].
  by apply (current_iff _ _ _ _ (g_core _ (good_reachable _ Hr2)) Hk2) in Hcur as [_ Hcur].
Qed.

(** A session has an entry exactly while something uses it: an open scope, a
    closing not released, or a write not over.  Nothing is reclaimed too early, and
    nothing is left behind. *)
Theorem write_states_are_reclaimed w id :
  reachable w ->
  is_Some (sessions w !! id) <->
  (exists k sc, scopes w !! k = Some sc /\ sc_session sc = id /\ closed sc = false) \/
  (exists c y, closers w !! c = Some y /\ cl_session y = id /\ released y = false) \/
  (exists n z, ws w !! n = Some z /\ w_session z = id /\ phase z <> Done).
Proof.
  intros [Hc _ _ _]%good_reachable. split.
  - intros [r Hr]. pose proof (c_busy _ _ Hc id r Hr) as Hb. unfold idle in Hb. specialize (Hb ltac:(done)).
    assert (captures (st w r) <> 0 \/ closing (st w r) <> 0 \/ writes (st w r) <> ∅) as [E|[E|E]].
    { destruct (Z.eqb_spec (captures (st w r)) 0); [|tauto]. destruct (Z.eqb_spec (closing (st w r)) 0); [|tauto]. cbn in Hb. apply bool_decide_eq_false in Hb. tauto. }
    + left. rewrite (c_cap _ _ Hc) in E. apply msum_some in E as (k & y & Hy & E). unfold open_in in E. destruct (closed y) eqn:Ho; [done|]. cbn in E. destruct (Nat.eqb_spec (sc_state y) r) as [Es|]; [|done].
      exists k, y. split; [done|]. split; [|done]. pose proof (c_sc _ _ Hc k y Hy Ho) as Hs. apply (c_inj _ _ Hc _ _ r); [congruence|done].
    + right. left. rewrite (c_clo _ _ Hc) in E. apply msum_some in E as (k & y & Hy & E). unfold held_in in E. destruct (released y) eqn:Ho; [done|]. cbn in E. destruct (Nat.eqb_spec (cl_state y) r) as [Es|]; [|done].
      exists k, y. split; [done|]. split; [|done]. pose proof (c_cl _ _ Hc k y Hy Ho) as Hs. apply (c_inj _ _ Hc _ _ r); [congruence|done].
    + right. right. apply set_choose_L in E as [n Hn]. apply (c_wr _ _ Hc) in Hn as (z & Hz & Es & Hp). exists n, z. split; [done|]. split; [|done].
      pose proof (c_ws _ _ Hc n z Hz Hp) as Hs. apply (c_inj _ _ Hc _ _ r); [congruence|done].
  - intros [(k & sc & Hk & <- & Ho)|[(c & y & Hy & <- & Ho)|(n & z & Hz & <- & Hp)]]; eexists; [by apply (c_sc _ _ Hc k)|by apply (c_cl _ _ Hc c)|by apply (c_ws _ _ Hc n)].
Qed.

(** No retirement listener is called twice.  One that was not withdrawn has not
    been called while its scope is open in its own lifetime, and has been once the
    session began to close and no closing is going over its listeners. *)
Theorem retirement_is_told_once w l k sc :
  reachable w -> made w !! l = Some k -> scopes w !! k = Some sc ->
  NoDup (fired w) /\
  (closed sc = false -> k ∉ cut w -> l ∉ fired w) /\
  (closed sc = false -> k ∈ cut w -> l ∉ disposed w -> (forall c y, closers w !! c = Some y -> notifying y = None) -> l ∈ fired w).
Proof.
  intros [Hc _ _ H]%good_reachable Hm Hk. split; [apply H|]. split.
  - intros Ho Hn Hf. destruct (l_who _ H l k sc Hf Hm Hk) as [E|E]; [congruence|done].
  - intros Ho Hcut Hd Hq. destruct (l_made _ H l k Hm) as (z & Hz & [Hf|[?|Hs]]); [done..|]. assert (z = sc) as -> by congruence.
    destruct (l_sub _ H k sc l Hk Hs) as [_ Hlis]. destruct (c_gen _ _ Hc k sc Hk Ho) as [E _]. rewrite bool_decide_true in E by done.
    destruct (l_ret _ H (sc_gen sc)) as (c & y & Hy & Hn); [intros E2; rewrite E2 in Hlis; by apply not_elem_of_nil in Hlis|done|]. by rewrite (Hq c y Hy) in Hn.
Qed.

(** ** A lifetime *)

Fixpoint run_ops (os : list Op) (w : World) : option World :=
  match os with [] => Some w | o :: os => w1 ← do_op o w; run_ops os w1 end.
Lemma run_steps os w w' : run_ops os w = Some w' -> rtc step w w'.
Proof.
  revert w. induction os as [|o os IH]; intros w; cbn; [by intros [= ->]|]. intros (w1 & Ho & Hr)%bind_Some. eapply rtc_l; [by exists o|by apply IH].
Qed.

(** A scope is captured, given a listener and written through; the session closes
    while the write runs, and the drain waits for it.  Another session goes on. *)
Definition ops_open : list Op := [OpCapture 0 "s"; OpCapture 7 "t"; OpOnRetire 0 5; OpWrite 0 1].
Definition ops_shut : list Op := [OpNotify 2; OpHandle 2; OpRun 1; OpDrain 2 3; OpSettle 1; OpDrained 3].
Definition w_open : World := default start (run_ops ops_open start).
Definition w_retired : World := default start (do_op (OpRetire 2 "s") w_open).
Definition w_shut : World := default start (run_ops ops_shut w_retired).

Lemma run_open : run_ops ops_open start = Some w_open.
Proof. vm_compute. reflexivity. Qed.
Lemma run_retired : do_op (OpRetire 2 "s") w_open = Some w_retired.
Proof. vm_compute. reflexivity. Qed.
Lemma run_shut : run_ops ops_shut w_retired = Some w_shut.
Proof. vm_compute. reflexivity. Qed.
Lemma reach_open : reachable w_open.
Proof. apply (run_steps ops_open), run_open. Qed.
Lemma reach_shut : reachable w_shut.
Proof.
  unfold reachable. etransitivity; [exact reach_open|]. eapply rtc_l; [exists (OpRetire 2 "s"); exact run_retired|]. apply (run_steps ops_shut), run_shut.
Qed.

Definition scope_w : Scope := mkScope "s" 0 0 false [5%nat].
Definition scope_shut : Scope := mkScope "s" 0 0 false [].

Lemma drained_session_is_quiet_witness : settled w_shut 1 = true /\ phase <$> ws w_shut !! 1%nat = Some Settled.
Proof.
  split; [|vm_compute; reflexivity].
  apply (drained_session_is_quiet w_shut 3 (mkDrain 2 {[1%nat]} true) (mkCloser "s" 0 None false) 1 (mkWrite "s" 0 Settled)); try exact reach_shut; vm_compute; reflexivity.
Defined.

Lemma scope_admits_its_lifetime_witness : ws (default start (do_op (OpWrite 0 9) w_open)) !! 9%nat <> None.
Proof.
  apply (scope_admits_its_lifetime w_open 0 scope_w 9 _ reach_open); [vm_compute; reflexivity..|]. split; [reflexivity|].
  apply (bool_decide_unpack (0%nat ∉ cut w_open)). vm_compute. exact I.
Defined.

Lemma closed_lifetime_never_writes_witness : do_op (OpWrite 0 9) w_shut = Some w_shut.
Proof.
  assert (exists w3, do_op (OpWrite 0 9) w_shut = Some w3) as [w3 Hw3] by (eexists; vm_compute; reflexivity).
  pose proof (closed_lifetime_never_writes w_open 0 scope_w 2 w_retired w_shut 9 w3 reach_open eq_refl run_retired (run_steps _ _ _ run_shut) Hw3) as E.
  rewrite <- E at 2. exact Hw3.
Defined.

Lemma write_states_are_reclaimed_witness : is_Some (sessions w_shut !! "s").
Proof. apply (write_states_are_reclaimed w_shut "s" reach_shut). left. exists 0%nat, scope_shut. split; [vm_compute; reflexivity|done]. Defined.

Lemma retirement_is_told_once_witness : 5%nat ∈ fired w_shut.
Proof.
  apply (retirement_is_told_once w_shut 5 0 scope_shut reach_shut); [vm_compute; reflexivity..| | |].
  - apply (bool_decide_unpack (0%nat ∈ cut w_shut)). vm_compute. exact I.
  - apply (bool_decide_unpack (5%nat ∉ disposed w_shut)). vm_compute. exact I.
  - intros c y Hc. assert (closers w_shut = {[2%nat := mkCloser "s" 0 None false]}) as E by (vm_compute; reflexivity).
    rewrite E in Hc. apply lookup_singleton_Some in Hc as [_ <-]. reflexivity.
Defined.
