(* ===== verification/WaId.v ===== *)
(** * Engine-neutral WhatsApp identity

    [src/src/engine/identity/wa-id.ts] and [jid-candidates.ts]: parsing a JID
    into its kind and parts, reducing it to the neutral dialect, qualifying a
    group participant, and expanding an id into every stored form of the same
    entity through the lid table. *)
From S2P Require Import Prelude JsString.
Local Open Scope string_scope.

(** ** Kinds and parsing *)

Inductive WaIdKind : Set :=
| KUser | KGroup | KLid | KStatus | KNewsletter | KBroadcast | KUnknown.

#[export] Instance WaIdKind_eq_dec : EqDecision WaIdKind.
Proof. solve_decision. Defined.

(** [DOMAIN_KINDS]: the domain of a JID to its kind. *)
Definition DOMAIN_KINDS : list (string * WaIdKind) :=
  [("c.us", KUser); ("s.whatsapp.net", KUser); ("lid", KLid); ("hosted", KUser);
   ("hosted.lid", KLid); ("g.us", KGroup); ("newsletter", KNewsletter);
   ("broadcast", KBroadcast)].

(** [DOMAIN_KINDS.get(domain) ?? 'unknown'] *)
Definition domain_kind (domain : string) : WaIdKind :=
  match List.find (fun p => String.eqb (fst p) domain) DOMAIN_KINDS with
  | Some (_, k) => k
  | None => KUnknown
  end.

Record ParsedWaId := mkParsed {
  kind : WaIdKind;
  userPart : string;
  device : option string;
  raw : string
}.

(** [userPart] of [wa-id.ts]: the local part, domain and device stripped. *)
Definition userPartOf (jid : string) : string :=
  hd "" (split_char ":" (hd "" (split_char "@" jid))).

Definition parseWaId (jid : string) : ParsedWaId :=
  let lower := toLowerCase (trim jid) in
  if String.eqb lower "status@broadcast" then mkParsed KStatus "status" None jid
  else
    match rsplit "@" lower with
    | None => mkParsed KUnknown lower None jid
    | Some (pre, domain) =>
        let parts := split_char ":" pre in
        let local := hd "" parts in
        if has_char "@" pre || String.eqb local "" then mkParsed KUnknown "" None jid
        else mkParsed (domain_kind domain) local (nth_error parts 1) jid
    end.

(** ** Individuals and participants *)

Definition isIndividualWid (value : string) : bool :=
  let p := parseWaId (trim value) in
  (bool_decide (kind p = KUser) || bool_decide (kind p = KLid)) && numeric_id (userPart p).

Definition isAddressableParticipant (value : string) : bool :=
  let trimmed := trim value in
  isIndividualWid trimmed || numeric_id trimmed.

(** A lid resolver as the engine supplies it, absent in pure contexts. *)
Abbreviation LidResolver := (string -> option string).

Definition toNeutralJid (jid : string) (resolvePhone : option LidResolver) : string :=
  if String.eqb jid "" then jid
  else
    let parsed := parseWaId jid in
    match kind parsed with
    | KUser => userPart parsed +:+ "@c.us"
    | KGroup => userPart parsed +:+ "@g.us"
    | KLid =>
        match truthy (match resolvePhone with Some r => r jid | None => None end) with
        | Some phone => phone +:+ "@c.us"
        | None => userPart parsed +:+ "@lid"
        end
    | KStatus => "status@broadcast"
    | KNewsletter => userPart parsed +:+ "@newsletter"
    | KBroadcast => userPart parsed +:+ "@broadcast"
    | KUnknown => jid
    end.

Definition toParticipantWid (value : string) : string :=
  let trimmed := trim value in
  if numeric_id trimmed then trimmed +:+ "@c.us"
  else if isIndividualWid trimmed then toNeutralJid trimmed None else trimmed.

Definition isChannelJid (jid : string) : bool := bool_decide (kind (parseWaId jid) = KNewsletter).

Inductive ChatKind : Set :=
| CIndividual | CGroup | CChannel | CStatus | CBroadcast | CUnknown.

Definition chatKind (jid : string) : ChatKind :=
  match kind (parseWaId jid) with
  | KUser | KLid => CIndividual
  | KGroup => CGroup
  | KNewsletter => CChannel
  | KStatus => CStatus
  | KBroadcast => CBroadcast
  | KUnknown => CUnknown
  end.

(** ** Expansion through the contact directory ([jid-candidates.ts]) *)

(** [ContactDirectory]: the lid table as the code reads it ([null] and
    [undefined] are both [None]). *)
Record ContactDirectory := {
  resolveLid : string -> option string;
  lidsForPhone : string -> list string
}.

Definition resolveJidCandidates (value : string) (directory : option ContactDirectory) : list string :=
  let parsed := parseWaId value in
  match kind parsed with
  | KGroup => [userPart parsed +:+ "@g.us"]
  | KLid =>
      let base := [userPart parsed +:+ "@lid"] in
      match truthy (match directory with Some d => resolveLid d (userPart parsed) | None => None end) with
      | Some resolved => set_add (set_add base (resolved +:+ "@c.us")) (resolved +:+ "@s.whatsapp.net")
      | None => base
      end
  | KStatus | KNewsletter | KBroadcast => [value]
  | k =>
      if bool_decide (k = KUnknown) && has_char "@" value then [value]
      else
        let phone := userPart parsed in
        let base := set_of_list [value; phone +:+ "@c.us"; phone +:+ "@s.whatsapp.net"] in
        set_add_all base
          (map (fun l => l +:+ "@lid")
             (match directory with Some d => lidsForPhone d phone | None => [] end))
  end.

(** ** Entities

    What two spellings of one id share: the neutral domain of the kind and the
    local part. *)

Definition neutral_domain (k : WaIdKind) : option string :=
  match k with
  | KUser => Some "c.us"
  | KGroup => Some "g.us"
  | KLid => Some "lid"
  | KStatus | KBroadcast => Some "broadcast"
  | KNewsletter => Some "newsletter"
  | KUnknown => None
  end.

Definition entity (jid : string) : option (string * string) :=
  d ← neutral_domain (kind (parseWaId jid)); Some (d, userPart (parseWaId jid)).

(** A local part as [parseWaId] produces it: non-empty, folded, with no leading
    white space and neither separator. *)
Definition good_local (l : string) : Prop :=
  l <> "" /\ toLowerCase l = l /\ head_ok l = true /\ has_char "@" l = false /\ has_char ":" l = false.

(** A resolver the application may hand to [toNeutralJid]: it answers by the
    user part of the id it is given, and a phone is a bare local part. *)
Definition resolver_ok (r : option LidResolver) : Prop :=
  match r with
  | None => True
  | Some f =>
      (forall a b, userPart (parseWaId a) = userPart (parseWaId b) -> f a = f b) /\
      (forall a p, f a = Some p -> p = "" \/ good_local p)
  end.

(** ** Lemmas on parsing *)

Definition neutral_domains : list string := ["c.us"; "g.us"; "lid"; "broadcast"; "newsletter"].

Lemma domain_facts d :
  d ∈ ["c.us"; "g.us"; "lid"; "broadcast"; "newsletter"; "s.whatsapp.net"; "hosted"; "hosted.lid"] ->
  d <> "" /\ toLowerCase d = d /\ last_ok d = true /\ has_char "@" d = false /\ has_char ":" d = false.
Proof.
  intros H. repeat (apply elem_of_cons in H as [->|H]; [split_and!; done|]). by inversion H.
Qed.

Lemma domain_kind_known d :
  domain_kind d <> KUnknown ->
  d ∈ ["c.us"; "g.us"; "lid"; "broadcast"; "newsletter"; "s.whatsapp.net"; "hosted"; "hosted.lid"].
Proof.
  unfold domain_kind, DOMAIN_KINDS. simpl.
  repeat match goal with
  | |- context [String.eqb ?a d] => destruct (String.eqb_spec a d); [subst; intros; set_solver|]
  end.
  done.
Qed.

Lemma domain_kind_not_status d : domain_kind d <> KStatus.
Proof.
  unfold domain_kind, DOMAIN_KINDS. simpl.
  repeat match goal with |- context [String.eqb ?a d] => destruct (String.eqb a d); [done|] end.
  done.
Qed.

(** A canonical spelling: [l@d] parses to [l] under the kind of [d]. *)
Lemma lower_at_split l d :
  toLowerCase (l +:+ String "@" d) = toLowerCase l +:+ String "@" (toLowerCase d).
Proof. by rewrite lower_app. Qed.

Lemma parse_qualified l d :
  good_local l -> d <> "" -> toLowerCase d = d -> last_ok d = true -> has_char "@" d = false ->
  l +:+ String "@" d <> "status@broadcast" ->
  parseWaId (l +:+ String "@" d) = mkParsed (domain_kind d) l None (l +:+ String "@" d).
Proof.
  intros (Hne & Hlow & Hhead & Hat & Hcol) Hd Hdl Hdlast Hdat Hst. unfold parseWaId.
  rewrite trim_id; cycle 1.
  { by rewrite head_ok_app. }
  { rewrite last_ok_app by done. destruct d; [done|]. exact Hdlast. }
  rewrite lower_at_split, Hlow, Hdl.
  rewrite (proj2 (String.eqb_neq _ _) Hst).
  rewrite rsplit_app by done. rewrite split_char_none by done. simpl.
  rewrite Hat, (proj2 (String.eqb_neq _ _) Hne). done.
Qed.

(** What [parseWaId] returns, by kind. *)
Lemma parse_spec j :
  match kind (parseWaId j) with
  | KStatus => userPart (parseWaId j) = "status"
  | KUnknown => True
  | k => good_local (userPart (parseWaId j))
  end.
Proof.
  unfold parseWaId.
  pose proof (trim_head j) as Hh. revert Hh. rewrite <- head_ok_lower.
  assert (toLowerCase (toLowerCase (trim j)) = toLowerCase (trim j)) as Hl by apply lower_idem.
  revert Hl. generalize (toLowerCase (trim j)) as s. intros s Hl Hh.
  destruct (String.eqb s "status@broadcast"); [done|].
  destruct (rsplit "@" s) as [[pre dom]|] eqn:E; [|done].
  apply rsplit_Some in E as [-> Hdom].
  destruct (split_char_nonempty ":" pre) as (h & t & Ep). rewrite Ep. simpl.
  destruct (has_char "@" pre) eqn:Hat; [done|]. simpl.
  destruct (String.eqb h "") eqn:Hne; [done|]. simpl.
  apply String.eqb_neq in Hne.
  assert (good_local h); [|by pose proof (domain_kind_not_status dom); destruct (domain_kind dom)].
  assert (exists u, pre = h +:+ u) as [u ->].
  { revert h t Ep Hne. clear. intros h t Ep _. revert h t Ep.
    induction pre as [|c r IH]; intros h t Ep; simpl in Ep.
    - injection Ep as <- <-. by exists "".
    - destruct (Ascii.eqb c ":"); [injection Ep as <- <-; eexists; done|].
      destruct (split_char_nonempty ":" r) as (h' & t' & E'). rewrite E' in Ep.
      injection Ep as <- <-. destruct (IH _ _ E') as [u ->]. by exists u. }
  split_and!; [done| | | |].
  - rewrite append_assoc, !lower_app in Hl. by apply append_inj_len in Hl as [? _]; [|apply length_lower].
  - rewrite append_assoc in Hh. by rewrite head_ok_app in Hh.
  - by eapply split_char_head_char.
  - by eapply split_char_head_no.
Qed.

Lemma good_local_status : good_local "status".
Proof. split_and!; done. Qed.

Lemma neutral_domain_in k d : neutral_domain k = Some d -> d ∈ neutral_domains.
Proof. unfold neutral_domains. destruct k; simpl; intros [= <-]; set_solver. Qed.

Lemma entity_good j d l : entity j = Some (d, l) -> d ∈ neutral_domains /\ good_local l.
Proof.
  unfold entity. intros H. pose proof (parse_spec j) as Hs.
  destruct (neutral_domain (kind (parseWaId j))) as [d'|] eqn:E; simpl in H; [|done].
  injection H as -> <-. split; [by eapply neutral_domain_in|].
  destruct (kind (parseWaId j)); try done. rewrite Hs. apply good_local_status.
Qed.

Lemma neutral_domains_all d :
  d ∈ neutral_domains ->
  d ∈ ["c.us"; "g.us"; "lid"; "broadcast"; "newsletter"; "s.whatsapp.net"; "hosted"; "hosted.lid"].
Proof. unfold neutral_domains. set_solver. Qed.

Lemma neutral_domain_kind d :
  d ∈ neutral_domains -> neutral_domain (domain_kind d) = Some d.
Proof.
  intros H. repeat (apply elem_of_cons in H as [->|H]; [done|]). by inversion H.
Qed.

Lemma at_split_inj l l' d d' :
  has_char "@" d = false -> has_char "@" d' = false ->
  l +:+ String "@" d = l' +:+ String "@" d' -> l = l' /\ d = d'.
Proof.
  intros Hd Hd' H. apply (f_equal (rsplit "@")) in H.
  rewrite !rsplit_app in H by done. by injection H.
Qed.

(** A neutral spelling names the entity it is written with. *)
Lemma entity_neutral l d :
  good_local l -> d ∈ neutral_domains -> entity (l +:+ String "@" d) = Some (d, l).
Proof.
  intros Hl Hd. destruct (domain_facts d (neutral_domains_all d Hd)) as (H1 & H2 & H3 & H4 & _).
  destruct (decide (l +:+ String "@" d = "status@broadcast")) as [E|E].
  - rewrite E. change "status@broadcast" with ("status" +:+ String "@" "broadcast") in E.
    apply at_split_inj in E as [-> ->]; done.
  - unfold entity. rewrite parse_qualified by done. simpl.
    by rewrite neutral_domain_kind.
Qed.

(** The neutral form of a recognised id, written from its entity. *)
Lemma toNeutralJid_entity j d l :
  entity j = Some (d, l) -> toNeutralJid j None = l +:+ String "@" d.
Proof.
  unfold toNeutralJid, entity. intros H.
  destruct (String.eqb_spec j "") as [->|_]; [done|].
  pose proof (parse_spec j) as Hs.
  destruct (kind (parseWaId j)); simpl in *; try discriminate; injection H as <- <-; try done.
  by rewrite Hs.
Qed.

Lemma toNeutralJid_unknown j r : entity j = None -> toNeutralJid j r = j.
Proof.
  unfold toNeutralJid, entity. destruct (String.eqb_spec j "") as [->|_]; [done|].
  by destruct (kind (parseWaId j)).
Qed.

(** With a resolver, only a lid the resolver answers differs from the plain form. *)
Lemma toNeutralJid_resolver j f :
  toNeutralJid j (Some f) =
    match kind (parseWaId j), truthy (f j) with
    | KLid, Some phone => phone +:+ String "@" "c.us"
    | _, _ => toNeutralJid j None
    end.
Proof.
  unfold toNeutralJid. destruct (String.eqb_spec j "") as [->|_]; [done|].
  by destruct (kind (parseWaId j)); simpl; destruct (truthy (f j)).
Qed.

Lemma truthy_Some o p : truthy o = Some p -> o = Some p /\ p <> "".
Proof.
  destruct o as [q|]; simpl; [|done].
  destruct (String.eqb_spec q ""); [done|]. by intros [= ->].
Qed.

Lemma kind_entity_lid j l : entity j = Some ("lid", l) <-> kind (parseWaId j) = KLid /\ userPart (parseWaId j) = l.
Proof.
  unfold entity. destruct (kind (parseWaId j)); simpl; split; intros H; try (by destruct H); simplify_eq; try done.
  by destruct H as [_ ->].
Qed.

Lemma entity_userPart j d l : entity j = Some (d, l) -> userPart (parseWaId j) = l.
Proof. unfold entity. destruct (neutral_domain _); simpl; by intros [= -> ->]. Qed.

(** ** Theorems *)

(** [toNeutralJid] is idempotent: an id already reduced to the neutral
    dialect is returned unchanged, with or without a lid resolver (one that
    answers by user part with bare phones). *)
Theorem toNeutralJid_idempotent j r :
  resolver_ok r -> toNeutralJid (toNeutralJid j r) r = toNeutralJid j r.
Proof.
  intros Hr. destruct (entity j) as [[d l]|] eqn:E; [|by rewrite !(toNeutralJid_unknown j r)].
  destruct (entity_good j d l E) as [Hd Hl].
  pose proof (entity_neutral l d Hl Hd) as E'.
  destruct r as [f|]; [|by rewrite (toNeutralJid_entity j d l E), (toNeutralJid_entity _ d l E')].
  destruct Hr as [Hf Hp].
  rewrite (toNeutralJid_resolver j f).
  assert (Hsame : f (l +:+ String "@" d) = f j).
  { apply Hf. by rewrite (entity_userPart _ _ _ E'), (entity_userPart _ _ _ E). }
  destruct (kind (parseWaId j)) eqn:K; try
    (rewrite (toNeutralJid_entity j d l E), toNeutralJid_resolver, (toNeutralJid_entity _ d l E'), Hsame;
     destruct (kind (parseWaId (l +:+ String "@" d))) eqn:K'; try done;
     exfalso; unfold entity in E, E'; rewrite K in E; rewrite K' in E'; simpl in *; congruence).
  destruct (truthy (f j)) as [p|] eqn:T.
  - apply truthy_Some in T as [Hj Hne]. destruct (Hp j p Hj) as [->|Hgp]; [done|].
    assert (E2 : entity (p +:+ String "@" "c.us") = Some ("c.us", p)).
    { apply entity_neutral; [done|]. unfold neutral_domains. set_solver. }
    rewrite toNeutralJid_resolver. destruct (kind (parseWaId (p +:+ String "@" "c.us"))) eqn:K2;
      try by apply toNeutralJid_entity.
    unfold entity in E2. rewrite K2 in E2. done.
  - rewrite (toNeutralJid_entity j d l E), toNeutralJid_resolver, Hsame, T.
    rewrite (toNeutralJid_entity _ d l E'). by destruct (kind (parseWaId (l +:+ String "@" d))).
Qed.

(** A resolver that knows one pairing, by user part. *)
Definition one_pair_resolver (jid : string) : option string :=
  if String.eqb (userPart (parseWaId jid)) "555000111" then Some "628123" else None.

Lemma toNeutralJid_idempotent_witness :
  toNeutralJid " 555000111:3@LID" (Some one_pair_resolver) = "628123@c.us" /\
  toNeutralJid "628123@c.us" (Some one_pair_resolver) = "628123@c.us".
Proof.
  split; [vm_compute; reflexivity|].
  apply (toNeutralJid_idempotent " 555000111:3@LID" (Some one_pair_resolver)).
  split.
  - intros a b E. unfold one_pair_resolver. by rewrite E.
  - intros a p. unfold one_pair_resolver. destruct (String.eqb _ _); [|done].
    intros [= <-]. right. split_and!; done.
Defined.

(** The neutral form is a complete invariant of identity: two recognised ids
    have the same neutral form exactly when they name the same entity (the same
    local part under the same neutral domain), whatever dialect, device suffix,
    letter case or surrounding white space each was written with. *)
Theorem neutral_form_identifies_entity a b :
  entity a <> None -> entity b <> None ->
  (toNeutralJid a None = toNeutralJid b None <-> entity a = entity b).
Proof.
  intros Ha Hb. destruct (entity a) as [[d l]|] eqn:Ea; [|done].
  destruct (entity b) as [[d' l']|] eqn:Eb; [|done].
  rewrite (toNeutralJid_entity a d l Ea), (toNeutralJid_entity b d' l' Eb).
  destruct (entity_good a d l Ea) as [Hd _]. destruct (entity_good b d' l' Eb) as [Hd' _].
  split; [|by intros [= -> ->]].
  intros H. apply at_split_inj in H as [-> ->]; [done| |];
    by apply domain_facts, neutral_domains_all.
Qed.

Lemma neutral_form_identifies_entity_witness :
  entity "6281:12@s.whatsapp.net" = entity " 6281@C.US" /\
  toNeutralJid "6281:12@s.whatsapp.net" None = toNeutralJid " 6281@C.US" None /\
  toNeutralJid "6281@lid" None <> toNeutralJid "6281@c.us" None.
Proof.
  split; [vm_compute; reflexivity|]. split.
  - apply (neutral_form_identifies_entity "6281:12@s.whatsapp.net" " 6281@C.US");
      [vm_compute; discriminate|vm_compute; discriminate|vm_compute; reflexivity].
  - vm_compute. discriminate.
Defined.

(** *** Participants *)

Lemma numeric_good_local n : numeric_id n = true -> good_local n.
Proof.
  intros H. apply numeric_id_inv in H as [H Hne]. split_and!; [done|by apply lower_digits|by apply all_digits_head| |];
    by apply all_digits_no.
Qed.

Lemma isIndividualWid_spec v :
  isIndividualWid v = true <->
  exists d n, entity (trim v) = Some (d, n) /\ (d = "c.us" \/ d = "lid") /\ numeric_id n = true.
Proof.
  unfold isIndividualWid, entity. split.
  - intros H. apply andb_true_iff in H as [Hk Hn].
    exists (if bool_decide (kind (parseWaId (trim v)) = KUser) then "c.us" else "lid"), (userPart (parseWaId (trim v))).
    destruct (kind (parseWaId (trim v))); simpl in *; try done; auto.
  - intros (d & n & E & Hd & Hn). destruct (kind (parseWaId (trim v))); simpl in *; simplify_eq; try done;
      by destruct Hd.
Qed.

Lemma neutral_trimmed l d : good_local l -> d ∈ neutral_domains -> trim (l +:+ String "@" d) = l +:+ String "@" d.
Proof.
  intros (Hne & _ & Hh & _) Hd. destruct (domain_facts d (neutral_domains_all d Hd)) as (H1 & _ & H3 & _).
  apply trim_id; [by rewrite head_ok_app|]. rewrite last_ok_app by done. by destruct d.
Qed.

Lemma numeric_not_at n : numeric_id (n +:+ String "@" "c.us") = false /\ numeric_id (n +:+ String "@" "lid") = false.
Proof.
  assert (forall d, numeric_id (n +:+ String "@" d) = false) as H; [|by split].
  intros d. destruct (numeric_id _) eqn:E; [|done].
  apply numeric_id_inv in E as [E _]. apply (all_digits_no "@") in E; [|done].
  rewrite has_char_app in E. simpl in E. by rewrite orb_true_r in E.
Qed.

(** Every string the participant check accepts is turned into a qualified,
    canonical individual id: [toParticipantWid] yields [<digits>@c.us] or
    [<digits>@lid], which the individual check accepts and which a second
    qualification leaves alone. *)
Theorem participant_wid_canonical v :
  isAddressableParticipant v = true ->
  exists n d, numeric_id n = true /\ (d = "c.us" \/ d = "lid") /\
    toParticipantWid v = n +:+ String "@" d /\
    isIndividualWid (toParticipantWid v) = true /\
    toParticipantWid (toParticipantWid v) = toParticipantWid v.
Proof.
  intros H.
  assert (exists n d, numeric_id n = true /\ (d = "c.us" \/ d = "lid") /\
            toParticipantWid v = n +:+ String "@" d) as (n & d & Hn & Hd & E).
  { unfold isAddressableParticipant in H. unfold toParticipantWid.
    destruct (numeric_id (trim v)) eqn:En; [by exists (trim v), "c.us"; auto|].
    rewrite orb_false_r in H. rewrite H.
    apply isIndividualWid_spec in H as (d & n & Ee & Hd & Hn). rewrite trim_idem in Ee.
    exists n, d. split_and!; [done|done|]. by apply toNeutralJid_entity. }
  exists n, d. rewrite E.
  assert (Hdn : d ∈ neutral_domains) by (unfold neutral_domains; destruct Hd; set_solver).
  pose proof (numeric_good_local n Hn) as Hg.
  pose proof (entity_neutral n d Hg Hdn) as Ee.
  assert (Hi : isIndividualWid (n +:+ String "@" d) = true).
  { apply isIndividualWid_spec. exists d, n. by rewrite neutral_trimmed. }
  split_and!; try done.
  unfold toParticipantWid. rewrite neutral_trimmed by done.
  destruct (numeric_not_at n) as [F1 F2].
  assert (numeric_id (n +:+ String "@" d) = false) as -> by (by destruct Hd; subst).
  rewrite Hi. by apply toNeutralJid_entity.
Qed.

Lemma participant_wid_canonical_witness :
  isAddressableParticipant " 555000111:3@HOSTED.LID " = true /\
  exists n d, numeric_id n = true /\ (d = "c.us" \/ d = "lid") /\
    toParticipantWid " 555000111:3@HOSTED.LID " = n +:+ String "@" d /\
    isIndividualWid (toParticipantWid " 555000111:3@HOSTED.LID ") = true /\
    toParticipantWid (toParticipantWid " 555000111:3@HOSTED.LID ") = toParticipantWid " 555000111:3@HOSTED.LID ".
Proof.
  split; [vm_compute; reflexivity|].
  apply (participant_wid_canonical " 555000111:3@HOSTED.LID "). vm_compute. reflexivity.
Defined.

(** *** The members of an expansion *)

Lemma candidates_group v d : kind (parseWaId v) = KGroup ->
  resolveJidCandidates v d = [userPart (parseWaId v) +:+ "@g.us"].
Proof. unfold resolveJidCandidates. by intros ->. Qed.

Lemma candidates_lid v dir x : kind (parseWaId v) = KLid ->
  (x ∈ resolveJidCandidates v dir <->
   x = userPart (parseWaId v) +:+ String "@" "lid" \/
   exists p, truthy (match dir with Some d => resolveLid d (userPart (parseWaId v)) | None => None end) = Some p /\
     (x = p +:+ String "@" "c.us" \/ x = p +:+ String "@" "s.whatsapp.net")).
Proof.
  unfold resolveJidCandidates. intros ->. destruct (truthy _) as [p|].
  - rewrite !elem_of_set_add, list_elem_of_singleton. naive_solver.
  - rewrite list_elem_of_singleton. naive_solver.
Qed.

Lemma candidates_phone v dir x :
  kind (parseWaId v) = KUser \/ (kind (parseWaId v) = KUnknown /\ has_char "@" v = false) ->
  (x ∈ resolveJidCandidates v dir <->
   x = v \/ x = userPart (parseWaId v) +:+ String "@" "c.us" \/
   x = userPart (parseWaId v) +:+ String "@" "s.whatsapp.net" \/
   exists l d, dir = Some d /\ l ∈ lidsForPhone d (userPart (parseWaId v)) /\ x = l +:+ String "@" "lid").
Proof.
  intros Hk. unfold resolveJidCandidates.
  assert (forall b, x ∈ set_add_all b (map (fun l => l +:+ "@lid")
             (match dir with Some d => lidsForPhone d (userPart (parseWaId v)) | None => [] end)) <->
          x ∈ b \/ exists l d, dir = Some d /\ l ∈ lidsForPhone d (userPart (parseWaId v)) /\ x = l +:+ String "@" "lid") as Hx.
  { intros b. rewrite elem_of_set_add_all, elem_of_map.
    destruct dir; set_solver. }
  assert (x ∈ set_of_list [v; userPart (parseWaId v) +:+ "@c.us"; userPart (parseWaId v) +:+ "@s.whatsapp.net"] <->
          x = v \/ x = userPart (parseWaId v) +:+ "@c.us" \/ x = userPart (parseWaId v) +:+ "@s.whatsapp.net") as Hb.
  { rewrite elem_of_set_of_list. set_solver. }
  destruct Hk as [->|[-> Hat]]; simpl; [|rewrite Hat]; rewrite Hx, Hb; naive_solver.
Qed.

Lemma candidates_other v dir x :
  (kind (parseWaId v) = KStatus \/ kind (parseWaId v) = KNewsletter \/ kind (parseWaId v) = KBroadcast \/
   (kind (parseWaId v) = KUnknown /\ has_char "@" v = true)) ->
  (x ∈ resolveJidCandidates v dir <-> x = v).
Proof.
  unfold resolveJidCandidates. intros [->|[->|[->|[-> Hat]]]]; simpl; try (by rewrite list_elem_of_singleton).
  rewrite Hat. by rewrite list_elem_of_singleton.
Qed.
