(* ===== verification/ChatScope.v ===== *)
(** * The chat fence of an API key

    [src/src/common/security/chat-scope.ts] (compiling an [allowedChats] list
    into the JIDs a key may reach) and [src/src/modules/auth/chat-scope.service.ts]
    (the service the guard and the list routes share), against an interface of
    the lid table: [LidDirectory] and its laws, which [LidStore] discharges. *)
From S2P Require Import Prelude JsString WaId.
Local Open Scope string_scope.

(** ** The lid table as its clients see it *)

Class LidDirectory (S : Type) := {
  (** [findPhoneForLid] *)
  dir_phone : S -> string -> option string;
  (** [findLidsForPhone] *)
  dir_lids : S -> string -> list string;
  (** [phonesForLidsPersisted]: a record from lid to phone or null *)
  dir_phones : S -> list string -> gmap string (option string);
  (** [lidsForPhonesPersisted]: a record from phone to lids *)
  dir_lids_batch : S -> list string -> gmap string (list string)
}.

(** What the table promises at a state [s]: the two directions of the pairing
    agree, and a batched read answers what the single reads answer, for exactly
    the keys asked for. *)
Class LidDirectoryLaws (S : Type) `{LidDirectory S} (s : S) := {
  dir_inverse : forall l p, good_local l -> (l ∈ dir_lids s p <-> dir_phone s l = Some p /\ p <> "");
  dir_phones_spec : forall ls l o, dir_phones s ls !! l = Some o -> l ∈ ls /\ (good_local l -> o = dir_phone s l);
  dir_phones_total : forall ls l, l ∈ ls -> is_Some (dir_phones s ls !! l);
  dir_lids_batch_spec : forall ps p ls, dir_lids_batch s ps !! p = Some ls -> p ∈ ps /\ (forall l, l ∈ ls <-> l ∈ dir_lids s p);
  dir_lids_batch_total : forall ps p, p ∈ ps -> is_Some (dir_lids_batch s ps !! p)
}.

(** ** Compiling an allowlist *)

(** A list column: [null] and [undefined] are [None]. *)
Abbreviation scope_list := (option (list string)).

(** [{ allowed: Set<string> }]; [null] (unrestricted) is [None]. *)
Abbreviation ChatScope := (list string).

Definition isChatScopeRestricted (allowedChats : scope_list) : bool :=
  match allowedChats with
  | Some l => (0 <? length l)%nat
  | None => false
  end.

Definition normalizeChatAllowList (l : scope_list) : scope_list :=
  match l with
  | None => None
  | Some l =>
      let cleaned := List.filter (fun e => (0 <? String.length e)%nat) (map trim l) in
      let qualified := set_of_list (map (fun e => if numeric_id e then e +:+ "@c.us" else e) cleaned) in
      if (0 <? length qualified)%nat then Some qualified else None
  end.

Definition addressForms (chatId : string) : list string :=
  let parsed := parseWaId chatId in
  match kind parsed with
  | KUser => [userPart parsed +:+ "@c.us"; userPart parsed +:+ "@s.whatsapp.net"]
  | KLid => [userPart parsed +:+ "@lid"]
  | KGroup => [userPart parsed +:+ "@g.us"]
  | _ => []
  end.

Definition or_empty (l : scope_list) : list string := match l with Some l => l | None => [] end.

Definition buildChatScope (allowedChats : scope_list) : option ChatScope :=
  if isChatScopeRestricted allowedChats
  then Some (fold_left (fun allowed entry => set_add_all allowed (addressForms entry))
               (or_empty (normalizeChatAllowList allowedChats)) [])
  else None.

Definition scope_has (s : ChatScope) (x : string) : bool := bool_decide (x ∈ s).

Definition chatScopeAllows (scope : option ChatScope) (chatId : string) : bool :=
  match scope with
  | None => true
  | Some s => existsb (scope_has s) (addressForms chatId)
  end.

Definition chatIdAllowed (scope : option ChatScope) (chatId : string)
    (directory : option ContactDirectory) : bool :=
  match scope with
  | None => true
  | Some s => existsb (scope_has s) (resolveJidCandidates chatId directory)
  end.

(** [ChatScopeDirectory]: the batched lookups. *)
Record ChatScopeDirectory := {
  phonesForLids : list string -> gmap string (option string);
  lidsForPhones : list string -> gmap string (list string)
}.

(** [Object.values] of a record. *)
Definition values {V : Type} (m : gmap string V) : list V := map snd (map_to_list m).

Definition entry_phones (l : scope_list) : list string :=
  fold_left (fun acc e => match kind (parseWaId e) with
                          | KUser => set_add acc (userPart (parseWaId e))
                          | _ => acc end) (or_empty (normalizeChatAllowList l)) [].
Definition entry_lids (l : scope_list) : list string :=
  fold_left (fun acc e => match kind (parseWaId e) with
                          | KLid => set_add acc (userPart (parseWaId e))
                          | _ => acc end) (or_empty (normalizeChatAllowList l)) [].

Definition add_phone_forms (allowed : ChatScope) (o : option string) : ChatScope :=
  match truthy o with
  | Some phone => set_add (set_add allowed (phone +:+ "@c.us")) (phone +:+ "@s.whatsapp.net")
  | None => allowed
  end.

Definition add_lid_forms (allowed : ChatScope) (mapped : list string) : ChatScope :=
  set_add_all allowed (map (fun lid => lid +:+ "@lid") mapped).

Definition buildExpandedChatScope (allowedChats : scope_list)
    (directory : option ChatScopeDirectory) : option ChatScope :=
  match buildChatScope allowedChats, directory with
  | Some scope, Some d =>
      let lidToPhone := phonesForLids d (entry_lids allowedChats) in
      let phoneToLids := lidsForPhones d (entry_phones allowedChats) in
      Some (fold_left add_lid_forms (values phoneToLids)
              (fold_left add_phone_forms (values lidToPhone) scope))
  | scope, _ => scope
  end.

Definition filterByChatScope {T : Type} (scope : option ChatScope) (items : list T)
    (chatIdOf : T -> option string) : list T :=
  match scope with
  | None => items
  | Some _ =>
      List.filter (fun item => match chatIdOf item with
                               | Some id => chatScopeAllows scope id
                               | None => false end) items
  end.

(** ** [ChatScopeService]

    The service over a store [S], absent in a stripped build.  Each method takes
    the key's [allowedChats]. *)
Module ChatScopeService.
Section Service.
Context {S : Type} `{LidDirectory S}.

Definition singleDirectory (lidStore : option S) : option ContactDirectory :=
  match lidStore with
  | Some s => Some {| resolveLid := dir_phone s; lidsForPhone := dir_lids s |}
  | None => None
  end.

Definition batchDirectory (lidStore : option S) : option ChatScopeDirectory :=
  match lidStore with
  | Some s => Some {| phonesForLids := dir_phones s; lidsForPhones := dir_lids_batch s |}
  | None => None
  end.

Definition isRestricted (allowedChats : scope_list) : bool := isChatScopeRestricted allowedChats.

(** [requireChat]: [Err] is the 403. *)
Definition requireChat (allowedChats : scope_list) (chatId : option string) : result string unit :=
  if isRestricted allowedChats &&
     match chatId with Some c => String.eqb (trim c) "" | None => true end
  then Err "chatId is required for a key restricted to selected chats"
  else Ok tt.

Definition scopeFor (allowedChats : scope_list) : option ChatScope := buildChatScope allowedChats.

Definition allows (lidStore : option S) (allowedChats : scope_list) (chatId : string) : bool :=
  chatIdAllowed (scopeFor allowedChats) chatId (singleDirectory lidStore).

Definition candidatesFor (lidStore : option S) (id : string) : list string :=
  set_of_list (id :: resolveJidCandidates id (singleDirectory lidStore)).

Definition scopeForFilter (lidStore : option S) (allowedChats : scope_list) : option ChatScope :=
  buildExpandedChatScope allowedChats (batchDirectory lidStore).

Definition idsForFilter (lidStore : option S) (allowedChats : scope_list) : option (list string) :=
  scopeForFilter lidStore allowedChats.

Definition filter {T : Type} (lidStore : option S) (allowedChats : scope_list) (items : list T)
    (chatIdOf : T -> option string) : list T :=
  filterByChatScope (scopeForFilter lidStore allowedChats) items chatIdOf.

End Service.
End ChatScopeService.

(** ** Who an id names, to the fence *)

(** The entity a requested id names: a recognised id its own, a bare number the
    phone it writes. *)
Definition request_entity (c : string) : option (string * string) :=
  match entity c with
  | Some e => Some e
  | None => if has_char "@" c then None else Some ("c.us", userPart (parseWaId c))
  end.

(** The table's pairing, empty without a store. *)
Definition paired {S : Type} `{LidDirectory S} (store : option S) (l p : string) : Prop :=
  match store with Some s => dir_phone s l = Some p /\ p <> "" | None => False end.

(** [same_contact store a c]: the entity [a] of an allowlist entry and the
    entity [c] of a requested id are one chat: the same group, the same user or
    lid, or a lid and the phone the table pairs it with.  Two lids of one phone
    are not one chat. *)
Definition same_contact {S : Type} `{LidDirectory S} (store : option S) (a c : string * string) : Prop :=
  (a = c /\ (fst a = "c.us" \/ fst a = "lid" \/ fst a = "g.us")) \/
  (fst a = "c.us" /\ fst c = "lid" /\ paired store (snd c) (snd a)) \/
  (fst a = "lid" /\ fst c = "c.us" /\ paired store (snd a) (snd c)).

Definition entries (l : scope_list) : list string := or_empty (normalizeChatAllowList l).

(** ** Lemmas *)

Definition fold_domain (d : string) : string := if String.eqb d "s.whatsapp.net" then "c.us" else d.

Definition form_domains : list string := ["c.us"; "s.whatsapp.net"; "lid"; "g.us"].

Lemma form_domain_no_at d : d ∈ form_domains -> has_char "@" d = false.
Proof. intros H. repeat (apply elem_of_cons in H as [->|H]; [done|]). by inversion H. Qed.

Lemma addressForms_elem e x :
  x ∈ addressForms e <->
  exists u d, d ∈ form_domains /\ x = u +:+ String "@" d /\ entity e = Some (fold_domain d, u).
Proof.
  unfold addressForms, entity, form_domains. split.
  - destruct (kind (parseWaId e)) eqn:K; simpl; intros Hx; try (by inversion Hx).
    + apply elem_of_cons in Hx as [->|Hx]; [exists (userPart (parseWaId e)), "c.us"; set_solver|].
      apply list_elem_of_singleton in Hx as ->. exists (userPart (parseWaId e)), "s.whatsapp.net"; set_solver.
    + apply list_elem_of_singleton in Hx as ->. exists (userPart (parseWaId e)), "g.us"; set_solver.
    + apply list_elem_of_singleton in Hx as ->. exists (userPart (parseWaId e)), "lid"; set_solver.
  - intros (u & d & Hd & -> & E).
    repeat (apply elem_of_cons in Hd as [->|Hd];
      [by destruct (kind (parseWaId e)); simpl in E; simplify_eq; set_solver|]).
    by inversion Hd.
Qed.

Lemma addressForms_at e u d :
  d ∈ form_domains -> (u +:+ String "@" d ∈ addressForms e <-> entity e = Some (fold_domain d, u)).
Proof.
  intros Hd. rewrite addressForms_elem. split.
  - intros (u' & d' & Hd' & E & Ee). apply at_split_inj in E as [-> ->]; [done| |]; by apply form_domain_no_at.
  - intros E. by exists u, d.
Qed.

Lemma addressForms_entity e x : x ∈ addressForms e -> entity x = entity e.
Proof.
  intros Hx. apply addressForms_elem in Hx as (u & d & Hd & -> & E). rewrite E.
  destruct (entity_good _ _ _ E) as [_ Hg].
  destruct (String.eqb_spec d "s.whatsapp.net") as [->|Hne].
  - unfold entity. rewrite parse_qualified; [done|done|done|done|done|done|].
    change "status@broadcast" with ("status" +:+ String "@" "broadcast").
    intros Hs. by apply at_split_inj in Hs as [_ Hs].
  - assert (fold_domain d = d) as -> by (unfold fold_domain; by destruct (String.eqb_spec d "s.whatsapp.net")).
    apply entity_neutral; [done|]. unfold neutral_domains, form_domains in *. set_solver.
Qed.

Lemma literal_elem l s x :
  buildChatScope l = Some s -> (x ∈ s <-> exists e, e ∈ entries l /\ x ∈ addressForms e).
Proof.
  unfold buildChatScope, entries. destruct (isChatScopeRestricted l); [|done]. intros [= <-].
  assert (forall es acc, x ∈ fold_left (fun allowed entry => set_add_all allowed (addressForms entry)) es acc <->
            x ∈ acc \/ exists e, e ∈ es /\ x ∈ addressForms e) as Hg.
  { induction es as [|e es IH]; intros acc; simpl; [set_solver|].
    rewrite IH, elem_of_set_add_all. set_solver. }
  rewrite Hg. set_solver.
Qed.

Lemma literal_at l s u d :
  buildChatScope l = Some s -> d ∈ form_domains ->
  (u +:+ String "@" d ∈ s <-> exists e, e ∈ entries l /\ entity e = Some (fold_domain d, u)).
Proof. intros Hs Hd. rewrite (literal_elem l s) by done. by setoid_rewrite (addressForms_at _ u d Hd). Qed.

Lemma literal_entity l s x :
  buildChatScope l = Some s -> x ∈ s -> exists e, e ∈ entries l /\ entity e = entity x.
Proof.
  intros Hs Hx. apply (literal_elem l s x Hs) in Hx as (e & He & Hx).
  exists e. split; [done|]. symmetry. by apply addressForms_entity.
Qed.

(** No entry of a scope names a status, channel, list or unrecognised id. *)
Lemma literal_chattable l s x :
  buildChatScope l = Some s -> x ∈ s -> exists d u, entity x = Some (d, u) /\ (d = "c.us" \/ d = "lid" \/ d = "g.us").
Proof.
  intros Hs Hx. apply (literal_elem l s x Hs) in Hx as (e & He & Hx).
  pose proof (addressForms_entity e x Hx) as E. apply addressForms_elem in Hx as (u & d & Hd & -> & Ee).
  rewrite E, Ee. exists (fold_domain d), u. split; [done|].
  unfold form_domains in Hd. repeat (apply elem_of_cons in Hd as [->|Hd]; [auto|]). by inversion Hd.
Qed.

Lemma scope_exists (s : ChatScope) l : existsb (scope_has s) l = true <-> exists x, x ∈ l /\ x ∈ s.
Proof. rewrite existsb_elem. unfold scope_has. setoid_rewrite bool_decide_eq_true. done. Qed.

Lemma entity_kind c : entity c = None <-> kind (parseWaId c) = KUnknown.
Proof. unfold entity. by destruct (kind (parseWaId c)). Qed.

Lemma entity_lid_kind c u : entity c = Some ("lid", u) -> kind (parseWaId c) = KLid /\ userPart (parseWaId c) = u.
Proof. apply kind_entity_lid. Qed.

Lemma entity_of_kind c k : kind (parseWaId c) = k ->
  entity c = (d ← neutral_domain k; Some (d, userPart (parseWaId c))).
Proof. unfold entity. by intros ->. Qed.

Lemma truthy_ne o p : o = Some p -> p <> "" -> truthy o = Some p.
Proof. intros -> Hp. simpl. by destruct (String.eqb_spec p ""). Qed.

Lemma entity_local_ne c d u : entity c = Some (d, u) -> u <> "".
Proof. intros E. by destruct (entity_good _ _ _ E) as [_ [Hu _]]. Qed.

Lemma fd_cus : "c.us" ∈ form_domains.
Proof. unfold form_domains. set_solver. Qed.
Lemma fd_swn : "s.whatsapp.net" ∈ form_domains.
Proof. unfold form_domains. set_solver. Qed.
Lemma fd_lid : "lid" ∈ form_domains.
Proof. unfold form_domains. set_solver. Qed.
Lemma fd_gus : "g.us" ∈ form_domains.
Proof. unfold form_domains. set_solver. Qed.
#[export] Hint Resolve fd_cus fd_swn fd_lid fd_gus : openwa.

(** *** The expanded scope of the list filter *)

Lemma elem_of_values {V : Type} (m : gmap string V) v : v ∈ values m <-> exists k, m !! k = Some v.
Proof.
  unfold values. rewrite elem_of_map. split.
  - intros ([k v'] & -> & Hin). exists k. by apply elem_of_map_to_list.
  - intros [k Hk]. exists (k, v). split; [done|]. by apply elem_of_map_to_list.
Qed.

Lemma entry_parts_elem k d al u acc :
  neutral_domain k = Some d -> (forall k', neutral_domain k' = Some d -> k' = k) ->
  (u ∈ fold_left (fun acc e => if decide (kind (parseWaId e) = k) then set_add acc (userPart (parseWaId e)) else acc)
         (entries al) acc <->
   u ∈ acc \/ exists e, e ∈ entries al /\ entity e = Some (d, u)).
Proof.
  intros Hd Hk. generalize (entries al) as es. intros es. revert acc.
  induction es as [|e es IH]; intros acc; simpl; [set_solver|]. rewrite IH.
  assert (entity e = Some (d, u) <-> kind (parseWaId e) = k /\ userPart (parseWaId e) = u) as He.
  { unfold entity. split.
    - destruct (neutral_domain (kind (parseWaId e))) eqn:E; simpl; [|done]. intros [= -> ->]. auto.
    - intros [-> ->]. by rewrite Hd. }
  case_decide as Hc.
  - rewrite elem_of_set_add. set_solver.
  - set_solver.
Qed.

Lemma entry_lids_elem al l : l ∈ entry_lids al <-> exists e, e ∈ entries al /\ entity e = Some ("lid", l).
Proof.
  assert (entry_lids al = fold_left (fun acc e => if decide (kind (parseWaId e) = KLid)
    then set_add acc (userPart (parseWaId e)) else acc) (entries al) []) as ->
    by (apply fold_left_ext'; intros acc e; by destruct (kind (parseWaId e))).
  rewrite (entry_parts_elem KLid "lid"); [set_solver|done|by intros []].
Qed.

Lemma entry_phones_elem al p : p ∈ entry_phones al <-> exists e, e ∈ entries al /\ entity e = Some ("c.us", p).
Proof.
  assert (entry_phones al = fold_left (fun acc e => if decide (kind (parseWaId e) = KUser)
    then set_add acc (userPart (parseWaId e)) else acc) (entries al) []) as ->
    by (apply fold_left_ext'; intros acc e; by destruct (kind (parseWaId e))).
  rewrite (entry_parts_elem KUser "c.us"); [set_solver|done|by intros []].
Qed.

Lemma phone_forms_elem os acc x :
  x ∈ fold_left add_phone_forms os acc <->
  x ∈ acc \/ exists o p, o ∈ os /\ truthy o = Some p /\ (x = p +:+ String "@" "c.us" \/ x = p +:+ String "@" "s.whatsapp.net").
Proof.
  revert acc. induction os as [|o os IH]; intros acc; simpl; [set_solver|]. rewrite IH. unfold add_phone_forms.
  destruct (truthy o) as [p|] eqn:T; [rewrite !elem_of_set_add|]; set_solver.
Qed.

Lemma lid_forms_elem ls acc x :
  x ∈ fold_left add_lid_forms ls acc <-> x ∈ acc \/ exists m l, m ∈ ls /\ l ∈ m /\ x = l +:+ String "@" "lid".
Proof.
  revert acc. induction ls as [|m ls IH]; intros acc; simpl; [set_solver|].
  rewrite IH. unfold add_lid_forms. rewrite elem_of_set_add_all, elem_of_map. set_solver.
Qed.

Section Fence.
Context {S : Type} `{LidDirectory S} (store : option S).
Hypothesis laws : match store with Some s => LidDirectoryLaws S s | None => True end.

(** The pairing, read in the direction the guard reads a phone in. *)
Lemma lids_paired l p d :
  ChatScopeService.singleDirectory store = Some d -> good_local l ->
  (l ∈ lidsForPhone d p <-> paired store l p).
Proof.
  unfold ChatScopeService.singleDirectory, paired. destruct store as [s|]; [|done].
  intros [= <-] Hl. simpl. by apply dir_inverse.
Qed.

Lemma paired_directory l p : paired store l p -> exists d, ChatScopeService.singleDirectory store = Some d.
Proof. unfold paired, ChatScopeService.singleDirectory. destruct store; [eauto|done]. Qed.

Lemma resolve_paired l p :
  truthy (match ChatScopeService.singleDirectory store with Some d => resolveLid d l | None => None end) = Some p <->
  paired store l p.
Proof.
  unfold paired, ChatScopeService.singleDirectory. destruct store as [s|]; simpl.
  - split; [apply truthy_Some|]. intros [E Hp]. by apply truthy_ne.
  - by split.
Qed.

(** What the guard answers on an id that writes the phone [u]. *)
Lemma guard_phone al s v u :
  buildChatScope al = Some s -> userPart (parseWaId v) = u ->
  kind (parseWaId v) = KUser \/ (kind (parseWaId v) = KUnknown /\ has_char "@" v = false) ->
  ((exists x, x ∈ resolveJidCandidates v (ChatScopeService.singleDirectory store) /\ x ∈ s) <->
   exists e a, e ∈ entries al /\ entity e = Some a /\ same_contact store a ("c.us", u)).
Proof.
  intros Hs Hu Hk. setoid_rewrite (candidates_phone v _ _ Hk). rewrite Hu. split.
  - intros (x & [->|[->|[->|(l & d & Hd & Hl & ->)]]] & Hx).
    + destruct (literal_entity al s v Hs Hx) as (e & He & Ee).
      destruct (literal_chattable al s v Hs Hx) as (d & w & Ev & _).
      rewrite Ev in Ee. exists e, (d, w). split_and!; [done|done|].
      destruct Hk as [Hk|[Hk _]]; [|by apply entity_kind in Hk; rewrite Hk in Ev].
      rewrite (entity_of_kind v KUser Hk) in Ev. simpl in Ev. simplify_eq. left. simpl. auto.
    + apply (literal_at al s _ "c.us" Hs) in Hx as (e & He & Ee); [|auto with openwa].
      exists e, ("c.us", u). split_and!; [done|done|]. left. simpl. auto.
    + apply (literal_at al s _ "s.whatsapp.net" Hs) in Hx as (e & He & Ee); [|auto with openwa].
      exists e, ("c.us", u). split_and!; [done|done|]. left. simpl. auto.
    + apply (literal_at al s _ "lid" Hs) in Hx as (e & He & Ee); [|auto with openwa].
      exists e, ("lid", l). split_and!; [done|done|]. right. right. simpl. split_and!; [done|done|].
      destruct (entity_good _ _ _ Ee) as [_ Hg]. by apply (lids_paired l u d Hd).
  - intros (e & [d w] & He & Ee & [[Hc _]|[(Hd & Hc & _)|(Hd & _ & Hp)]]); simpl in *; simplify_eq.
    + exists (userPart (parseWaId v) +:+ String "@" "c.us"). split; [auto|].
      apply (literal_at al s _ "c.us" Hs); [auto with openwa|]. eauto.
    + exists (w +:+ String "@" "lid"). destruct (paired_directory _ _ Hp) as [dir Hdir].
      split; [|apply (literal_at al s _ "lid" Hs); [auto with openwa|]; eauto].
      do 3 right. exists w, dir. split_and!; [done| |done].
      destruct (entity_good _ _ _ Ee) as [_ Hg]. by apply (lids_paired w _ dir Hdir).
Qed.

Lemma guard_lid al s v u :
  buildChatScope al = Some s -> userPart (parseWaId v) = u -> kind (parseWaId v) = KLid ->
  ((exists x, x ∈ resolveJidCandidates v (ChatScopeService.singleDirectory store) /\ x ∈ s) <->
   exists e a, e ∈ entries al /\ entity e = Some a /\ same_contact store a ("lid", u)).
Proof.
  intros Hs Hu Hk. setoid_rewrite (candidates_lid v _ _ Hk). rewrite Hu. setoid_rewrite resolve_paired. split.
  - intros (x & [->|(p & Hp & [->| ->])] & Hx).
    + apply (literal_at al s _ "lid" Hs) in Hx as (e & He & Ee); [|auto with openwa].
      exists e, ("lid", u). split_and!; [done|done|]. left. simpl. auto.
    + apply (literal_at al s _ "c.us" Hs) in Hx as (e & He & Ee); [|auto with openwa].
      exists e, ("c.us", p). split_and!; [done|done|]. right. left. simpl. auto.
    + apply (literal_at al s _ "s.whatsapp.net" Hs) in Hx as (e & He & Ee); [|auto with openwa].
      exists e, ("c.us", p). split_and!; [done|done|]. right. left. simpl. auto.
  - intros (e & [d w] & He & Ee & [[Hc _]|[(Hd & _ & Hp)|(_ & Hc & _)]]); simpl in *; simplify_eq.
    + exists (userPart (parseWaId v) +:+ String "@" "lid"). split; [auto|].
      apply (literal_at al s _ "lid" Hs); [auto with openwa|]. eauto.
    + exists (w +:+ String "@" "c.us"). split; [eauto|].
      apply (literal_at al s _ "c.us" Hs); [auto with openwa|]. eauto.
Qed.

Lemma same_contact_domain a b :
  same_contact store a b -> fst b = "c.us" \/ fst b = "lid" \/ fst b = "g.us".
Proof. intros [[-> H']|[(_ & -> & _)|(_ & -> & _)]]; auto. Qed.

(** Neither a status, a channel, a list nor an unrecognised qualified id is inside any fence. *)
Lemma guard_closed al s c dir :
  buildChatScope al = Some s ->
  kind (parseWaId c) = KStatus \/ kind (parseWaId c) = KNewsletter \/ kind (parseWaId c) = KBroadcast \/
    (kind (parseWaId c) = KUnknown /\ has_char "@" c = true) ->
  ~ exists x, x ∈ resolveJidCandidates c dir /\ x ∈ s.
Proof.
  intros Hs Hk (x & Hx & Hxs). apply (candidates_other c dir x Hk) in Hx as ->.
  destruct (literal_chattable al s c Hs Hxs) as (d & w & E & Hd). unfold entity in E.
  destruct Hk as [Hk|[Hk|[Hk|[Hk _]]]]; rewrite Hk in E; simpl in E; naive_solver.
Qed.

Lemma guard_allows_iff_restricted al s c :
  buildChatScope al = Some s ->
  (ChatScopeService.allows store al c = true <->
   exists e a b, e ∈ entries al /\ entity e = Some a /\ request_entity c = Some b /\ same_contact store a b).
Proof.
  intros Hs. unfold ChatScopeService.allows, ChatScopeService.scopeFor, chatIdAllowed. rewrite Hs, scope_exists.
  unfold request_entity.
  assert (Hno : forall b, b = "broadcast" \/ b = "newsletter" -> forall a w, ~ same_contact store a (b, w)).
  { intros b Hb a w Hc. apply same_contact_domain in Hc. simpl in Hc. naive_solver. }
  destruct (kind (parseWaId c)) eqn:K; rewrite (entity_of_kind c _ K); simpl.
  - rewrite (guard_phone al s c _ Hs eq_refl) by auto. naive_solver.
  - rewrite candidates_group by done. split.
    + intros (x & Hx & Hxs). apply list_elem_of_singleton in Hx as ->.
      apply (literal_at al s _ "g.us" Hs) in Hxs as (e & He & Ee); [|auto with openwa].
      eexists e, _, _. split_and!; [done|done|done|]. left. simpl. auto.
    + intros (e & [d w] & b & He & Ee & [= <-] & [[Hc _]|[(_ & Hc & _)|(_ & Hc & _)]]); simpl in *; simplify_eq.
      eexists. split; [by apply list_elem_of_singleton|].
      apply (literal_at al s _ "g.us" Hs); [auto with openwa|]. eauto.
  - rewrite (guard_lid al s c _ Hs eq_refl) by auto. naive_solver.
  - split; [intros H1; exfalso; eapply (guard_closed al s c); eauto|].
    intros (e & a & b & _ & _ & [= <-] & Hc). exfalso. eapply Hno; [|exact Hc]. auto.
  - split; [intros H1; exfalso; eapply (guard_closed al s c); eauto|].
    intros (e & a & b & _ & _ & [= <-] & Hc). exfalso. eapply Hno; [|exact Hc]. auto.
  - split; [intros H1; exfalso; eapply (guard_closed al s c); eauto|].
    intros (e & a & b & _ & _ & [= <-] & Hc). exfalso. eapply Hno; [|exact Hc]. auto.
  - destruct (has_char "@" c) eqn:Hat.
    { split; [intros H1; exfalso; eapply (guard_closed al s c); eauto 6|].
      by intros (e & a & b & _ & _ & [=] & _). }
    rewrite (guard_phone al s c _ Hs eq_refl) by auto. naive_solver.
Qed.

Lemma expanded_elem al s s' x :
  buildChatScope al = Some s -> ChatScopeService.scopeForFilter store al = Some s' ->
  (x ∈ s' <-> x ∈ s \/
   (exists l p, l ∈ entry_lids al /\ paired store l p /\ (x = p +:+ String "@" "c.us" \/ x = p +:+ String "@" "s.whatsapp.net")) \/
   (exists p l, p ∈ entry_phones al /\ x = l +:+ String "@" "lid" /\
      match store with Some st => l ∈ dir_lids st p | None => False end)).
Proof.
  intros Hs. unfold ChatScopeService.scopeForFilter, buildExpandedChatScope. rewrite Hs.
  unfold ChatScopeService.batchDirectory, paired. destruct store as [st|].
  - intros [= <-]. simpl. rewrite lid_forms_elem, phone_forms_elem. setoid_rewrite elem_of_values.
    rewrite Logic.or_assoc. apply Logic.or_iff_compat_l.
    assert (forall l, l ∈ entry_lids al -> good_local l) as Hgood.
    { intros l Hl. apply entry_lids_elem in Hl as (e & _ & Ee). by apply entity_good in Ee as [_ ?]. }
    split; (intros [(a & b & H1 & H2 & H3)|(a & b & H1 & H2 & H3)]; [left|right]).
    + destruct H1 as [l Hl]. destruct (dir_phones_spec _ _ _ Hl) as [Hin Ho].
      rewrite Ho in H2 by auto. apply truthy_Some in H2. by exists l, b.
    + destruct H1 as [p Hp]. destruct (dir_lids_batch_spec _ _ _ Hp) as [Hin Hl]. exists p, b.
      split_and!; [done|done|]. by apply Hl.
    + destruct (dir_phones_total (entry_lids al) a H1) as [o Ho].
      destruct (dir_phones_spec _ _ _ Ho) as [_ E]. exists o, b. split_and!; [eauto| |done].
      rewrite E by auto. by apply truthy_ne; apply H2.
    + destruct (dir_lids_batch_total (entry_phones al) a H1) as [m Hm].
      destruct (dir_lids_batch_spec _ _ _ Hm) as [_ E]. exists m, b. split_and!; [eauto| |done]. by apply E.
  - intros [= <-]. naive_solver.
Qed.

Lemma filter_allows_iff_restricted al s c :
  buildChatScope al = Some s -> has_char "@" c = true ->
  (chatScopeAllows (ChatScopeService.scopeForFilter store al) c = true <->
   exists e a b, e ∈ entries al /\ entity e = Some a /\ request_entity c = Some b /\ same_contact store a b).
Proof.
  intros Hs Hat.
  assert (exists s', ChatScopeService.scopeForFilter store al = Some s') as [s' Hs'].
  { unfold ChatScopeService.scopeForFilter, buildExpandedChatScope. rewrite Hs. case_match; eauto. }
  rewrite Hs'. simpl. rewrite scope_exists. setoid_rewrite (expanded_elem al s s' _ Hs Hs').
  assert (request_entity c = entity c) as -> by (unfold request_entity; rewrite Hat; by destruct (entity c)).
  setoid_rewrite addressForms_elem. setoid_rewrite entry_lids_elem. setoid_rewrite entry_phones_elem. split.
  - intros (x & (u & d & Hd & -> & Ec) & [Hx|[(l & p & (e & He & Ee) & Hp & Hx)|(p & l & (e & He & Ee) & Hx & Hl)]]).
    + apply (literal_at al s _ d Hs Hd) in Hx as (e & He & Ee).
      exists e, (fold_domain d, u), (fold_domain d, u). split_and!; [done|done|done|]. left. split; [done|].
      unfold form_domains in Hd. repeat (apply elem_of_cons in Hd as [->|Hd]; [simpl; auto|]). by inversion Hd.
    + assert (u = p /\ fold_domain d = "c.us") as [-> Hfd].
      { pose proof (form_domain_no_at d Hd) as Hna.
        destruct Hx as [Hx|Hx]; apply at_split_inj in Hx as [? ?]; subst; done. }
      exists e, ("lid", l), ("c.us", p). rewrite Hfd in Ec. split_and!; [done|done|done|].
      right. right. simpl. auto.
    + apply at_split_inj in Hx as [-> ->]; [|by apply form_domain_no_at|done].
      exists e, ("c.us", p), ("lid", l). split_and!; [done|done|done|]. right. left. simpl. split_and!; [done|done|].
      unfold paired. destruct store as [st|]; [|done]. apply dir_inverse; [|done].
      by apply entity_good in Ec as [_ ?].
  - intros (e & [d w] & [d' u] & He & Ee & Ec & Hsc).
    destruct Hsc as [[Hc Hd]|[(Hd & Hd' & Hp)|(Hd & Hd' & Hp)]]; simpl in *; simplify_eq.
    + exists (u +:+ String "@" d'). assert (d' ∈ form_domains) as Hf by (unfold form_domains; naive_solver set_solver).
      assert (fold_domain d' = d') as Hfd by (by destruct Hd as [->|[->| ->]]).
      split; [exists u, d'; by rewrite Hfd|]. left. apply (literal_at al s _ d' Hs Hf). rewrite Hfd. eauto.
    + exists (u +:+ String "@" "lid"). split; [exists u, "lid"; auto with openwa|].
      right. right. exists w, u. split_and!; [eauto|done|].
      unfold paired in Hp. destruct store as [st|]; [|done]. apply dir_inverse; [|done]. by apply entity_good in Ec as [_ ?].
    + exists (u +:+ String "@" "c.us"). split; [exists u, "c.us"; auto with openwa|].
      right. left. exists w, u. split_and!; eauto.
Qed.
End Fence.
