(* ===== verification/LidStore.v ===== *)
(** * The lid mapping store

    [src/src/engine/identity/lid-mapping-store.service.ts]: the persisted
    [lid -> phone] table behind the chat fence, its in-memory mirror (a forward
    map in recency order with a reverse index, bounded by an LRU cap), and the
    reads that await the table.  The file proves that the store keeps the
    promises of [LidDirectory] the fence is proved against. *)
From S2P Require Import Prelude JsString WaId ChatScope.
Local Open Scope string_scope.

(** ** State *)

(** A row of [lid_mappings], keyed by lid; a null phone is a negative result. *)
Record LidMapping := mkRow { phone : option string; isReported : bool }.

(** An entry of [unsettledWrites]; tokens stand for object identities. *)
Record Writing := mkWriting {
  w_count : nat;
  w_latestReport : option nat;
  w_latestOperation : option nat
}.

Record LidStore := mkStore {
  table : gmap string LidMapping;
  (** whether a query succeeds *)
  readable : bool;
  lidToPhone : list (string * option string);
  unreported : gset string;
  phoneToLids : gmap string (list string);
  absentFromTable : list string;
  unsettledWrites : gmap string Writing;
  seenBy : gmap string (list string);
  failedWrites : gset string;
  maxCachedLids : nat
}.

(** ** Reads *)

Definition unstored (s : LidStore) (lid : string) : bool :=
  bool_decide (is_Some (unsettledWrites s !! lid)) || bool_decide (lid ∈ failedWrites s).

Definition rowPhone (s : LidStore) (lid : string) (ph : option string) (reported : bool) : option string :=
  if negb reported || (bool_decide (lid ∈ unreported s) && unstored s lid) then None
  else
    match JMap.get lid (lidToPhone s) with
    | Some cached => if unstored s lid && negb (bool_decide (cached = ph)) then None else ph
    | None => ph
    end.

(** The mirror's answer, the fallback of a failed read. *)
Definition mirror_phone (s : LidStore) (lid : string) : option string :=
  if bool_decide (lid ∈ unreported s) then None
  else match JMap.get lid (lidToPhone s) with Some o => o | None => None end.

Definition findPhoneForLid (s : LidStore) (jid : string) : option string :=
  let lid := userPartOf jid in
  if readable s then
    match table s !! lid with
    | Some row => rowPhone s lid (phone row) (isReported row)
    | None => None
    end
  else mirror_phone s lid.

Definition lidsForPhoneCached (s : LidStore) (p : string) : list string :=
  match phoneToLids s !! p with
  | Some set => List.filter (fun lid => negb (bool_decide (lid ∈ unreported s))) set
  | None => []
  end.

(** [chunk(items, size)] *)
Fixpoint chunk_fuel {A : Type} (fuel size : nat) (items : list A) : list (list A) :=
  match fuel, items with
  | O, _ | _, [] => []
  | S fuel', _ => take size items :: chunk_fuel fuel' size (drop size items)
  end.
Definition LID_QUERY_CHUNK : nat := 500.
Definition chunk {A : Type} (items : list A) : list (list A) :=
  chunk_fuel (length items) LID_QUERY_CHUNK items.

(** One batch of [phonesForLidsPersisted]: the queried lids are reset to null,
    then each row found answers for its lid. *)
Definition read_phone_batch (s : LidStore) (out : gmap string (option string)) (batch : list string) :
    gmap string (option string) :=
  let out := fold_left (fun o lid => <[lid := None]> o) batch out in
  fold_left (fun o e => <[fst e := rowPhone s (fst e) (phone (snd e)) (isReported (snd e))]> o)
    (List.filter (fun e => bool_decide (fst e ∈ batch)) (map_to_list (table s))) out.

Definition phonesForLidsPersisted (s : LidStore) (lids : list string) : gmap string (option string) :=
  let out := fold_left (fun o lid => <[lid := mirror_phone s lid]> o) lids ∅ in
  if readable s then fold_left (read_phone_batch s) (chunk lids) out else out.

(** One row of [readLidsForPhones]. *)
Definition read_lid_row (s : LidStore) (out : gmap string (list string)) (e : string * LidMapping) :
    gmap string (list string) :=
  match phone (snd e) with
  | Some p =>
      if String.eqb p "" then out
      else match out !! p with
           | Some set =>
               if bool_decide (rowPhone s (fst e) (Some p) (isReported (snd e)) = Some p)
               then <[p := set_add set (fst e)]> out else out
           | None => out
           end
  | None => out
  end.

Definition row_in_batch (batch : list string) (e : string * LidMapping) : bool :=
  match phone (snd e) with Some p => bool_decide (p ∈ batch) | None => false end.

Definition readLidsForPhones (s : LidStore) (phones : list string) : gmap string (list string) :=
  let out := fold_left (fun o p => <[p := []]> o) phones ∅ in
  fold_left (fun o batch => fold_left (read_lid_row s) (List.filter (row_in_batch batch) (map_to_list (table s))) o)
    (chunk phones) out.

Definition lidsForPhonesPersisted (s : LidStore) (phones : list string) : gmap string (list string) :=
  if readable s then readLidsForPhones s phones
  else fold_left (fun o p => <[p := lidsForPhoneCached s p]> o) phones ∅.

Definition findLidsForPhone (s : LidStore) (p : string) : list string :=
  if readable s then default [] (readLidsForPhones s [p] !! p) else lidsForPhoneCached s p.

(** ** The mirror *)

Definition unindex (lid p : string) (m : gmap string (list string)) : gmap string (list string) :=
  match m !! p with
  | Some set =>
      if bool_decide (lid ∈ set) then
        let set' := List.filter (fun l => negb (String.eqb l lid)) set in
        if (length set' =? 0)%nat then delete p m else <[p := set']> m
      else m
  | None => m
  end.

Definition clear_tokens (w : Writing) : Writing := mkWriting (w_count w) None None.

(** One iteration of [evictIfOverCap]. *)
Definition evict_oldest (s : LidStore) : LidStore :=
  match lidToPhone s with
  | [] => s
  | (oldest, ph) :: _ =>
      mkStore (table s) (readable s) (JMap.delete oldest (lidToPhone s)) (unreported s ∖ {[oldest]})
        (match truthy ph with Some p => unindex oldest p (phoneToLids s) | None => phoneToLids s end)
        (absentFromTable s) (alter clear_tokens oldest (unsettledWrites s)) (delete oldest (seenBy s))
        (failedWrites s ∖ {[oldest]}) (maxCachedLids s)
  end.

Fixpoint evict_fuel (fuel : nat) (s : LidStore) : LidStore :=
  match fuel with
  | O => s
  | S n => if (maxCachedLids s <? length (lidToPhone s))%nat then evict_fuel n (evict_oldest s) else s
  end.

(** [evictIfOverCap]: a cap of 0 is unbounded; each iteration removes one entry,
    so as many iterations as entries are enough. *)
Definition evictIfOverCap (s : LidStore) : LidStore :=
  if (maxCachedLids s =? 0)%nat then s else evict_fuel (length (lidToPhone s)) s.

(** [index]: learn that [lid] has phone [ph], reported by [sessionId]. *)
Definition index (s : LidStore) (lid : string) (ph sessionId : option string) (reported : bool) : LidStore :=
  let previouslyReported := negb (bool_decide (lid ∈ unreported s)) in
  let unreported' := if reported then unreported s ∖ {[lid]} else unreported s ∪ {[lid]} in
  let prev := JMap.get lid (lidToPhone s) in
  let reverse :=
    match prev with
    | Some (Some q) =>
        if negb (String.eqb q "") && negb (bool_decide (Some q = ph)) then unindex lid q (phoneToLids s) else phoneToLids s
    | _ => phoneToLids s
    end in
  let seen0 :=
    if reported && previouslyReported && bool_decide (prev = Some ph) then default [] (seenBy s !! lid) else [] in
  let seen := match truthy sessionId with Some sid => if reported then set_add seen0 sid else seen0 | None => seen0 end in
  evictIfOverCap
    (mkStore (table s) (readable s)
       (JMap.set lid ph (JMap.delete lid (lidToPhone s)))
       unreported'
       (match truthy ph with
        | Some p => <[p := set_add (default [] (reverse !! p)) lid]> reverse
        | None => reverse
        end)
       (List.filter (fun l => negb (String.eqb l lid)) (absentFromTable s))
       (unsettledWrites s)
       (match truthy ph with Some _ => <[lid := seen]> (seenBy s) | None => delete lid (seenBy s) end)
       (failedWrites s) (maxCachedLids s)).

(** [getCached]: a hit moves the entry to the recent end.  The background read a
    miss starts is [warmFromTable]'s. *)
Definition getCached (s : LidStore) (lid : string) : LidStore * option (option string) :=
  match JMap.get lid (lidToPhone s) with
  | Some ph =>
      (mkStore (table s) (readable s) (JMap.set lid ph (JMap.delete lid (lidToPhone s))) (unreported s)
         (phoneToLids s) (absentFromTable s) (unsettledWrites s) (seenBy s) (failedWrites s) (maxCachedLids s),
       Some ph)
  | None => (s, None)
  end.

(** [warmFromTable]'s continuation, once the read answered [row] and no write of
    the lid raced it. *)
Definition trim_absent (cap : nat) (l : list string) : list string := drop (length l - cap) l.

Definition noteAbsent (s : LidStore) (lid : string) : LidStore :=
  if (maxCachedLids s =? 0)%nat then s
  else mkStore (table s) (readable s) (lidToPhone s) (unreported s) (phoneToLids s)
         (trim_absent (maxCachedLids s) (set_add (absentFromTable s) lid))
         (unsettledWrites s) (seenBy s) (failedWrites s) (maxCachedLids s).

Definition warmed (s : LidStore) (lid : string) (row : option (LidMapping * option string)) : LidStore :=
  if JMap.has lid (lidToPhone s) then s
  else match row with
       | Some (r, owner) => index s lid (phone r) owner (isReported r)
       | None => noteAbsent s lid
       end.

(** The in-memory half of [clear], after the statement cleared the row. *)
Definition dropCached (s : LidStore) (lid : string) : LidStore :=
  mkStore (table s) (readable s) (JMap.delete lid (lidToPhone s)) (unreported s ∖ {[lid]})
    (match truthy (match JMap.get lid (lidToPhone s) with Some o => o | None => None end) with
     | Some p => unindex lid p (phoneToLids s)
     | None => phoneToLids s
     end)
    (List.filter (fun l => negb (String.eqb l lid)) (absentFromTable s))
    (unsettledWrites s) (delete lid (seenBy s)) (failedWrites s ∖ {[lid]}) (maxCachedLids s).

(** [reload] over the rows the query returned, newest first and at most the cap
    of them. *)
Definition reload (s : LidStore) (rows : option (list (string * LidMapping * option string))) : LidStore :=
  match rows with
  | None => mkStore (table s) (readable s) (lidToPhone s) (unreported s) (phoneToLids s) []
              (unsettledWrites s) (seenBy s) (failedWrites s) (maxCachedLids s)
  | Some rows =>
      fold_left (fun s r => index s (fst (fst r)) (phone (snd (fst r))) (snd r) (isReported (snd (fst r))))
        (reverse rows)
        (mkStore (table s) (readable s) [] ∅ ∅ [] (clear_tokens <$> unsettledWrites s) ∅ ∅ (maxCachedLids s))
  end.

(** ** Invariant *)

(** The mirror is a map, within its cap, and the reverse index is its inverse on
    the phones it holds. *)
Record wf_store (s : LidStore) : Prop := {
  wf_keys : JMap.wf (lidToPhone s);
  wf_cap : maxCachedLids s = O \/ (length (lidToPhone s) <= maxCachedLids s)%nat;
  wf_reverse : forall l p, (exists set, phoneToLids s !! p = Some set /\ l ∈ set) <->
                 JMap.get l (lidToPhone s) = Some (Some p) /\ p <> ""
}.

#[export] Instance LidStore_directory : LidDirectory LidStore := {
  dir_phone := findPhoneForLid;
  dir_lids := findLidsForPhone;
  dir_phones := phonesForLidsPersisted;
  dir_lids_batch := lidsForPhonesPersisted
}.


(** ** Batched reads *)

Lemma fold_insert_lookup {V : Type} (g : string -> V) ks (o : gmap string V) k :
  fold_left (fun o k => <[k := g k]> o) ks o !! k = if decide (k ∈ ks) then Some (g k) else o !! k.
Proof.
  revert o. induction ks as [|k0 ks IH]; intros o; simpl.
  - done.
  - rewrite IH. destruct (decide (k ∈ ks)).
    { rewrite decide_True; [done|]. by apply list_elem_of_further. }
    destruct (decide (k = k0)) as [->|Hne].
    + rewrite decide_True; [|apply list_elem_of_here]. by rewrite lookup_insert_eq.
    + rewrite decide_False; [by rewrite lookup_insert_ne|]. by apply not_elem_of_cons.
Qed.

Lemma concat_chunk_fuel {A : Type} fuel size (l : list A) :
  (0 < size)%nat -> (length l <= fuel)%nat -> concat (chunk_fuel fuel size l) = l.
Proof.
  intros Hs. revert l. induction fuel as [|n IH]; intros l Hl; [by destruct l; simpl in *; [|lia]|].
  destruct l as [|x l]; [done|]. cbn [chunk_fuel concat]. rewrite IH; [by rewrite take_drop|].
  rewrite length_drop. simpl in *. lia.
Qed.

Lemma concat_chunk {A : Type} (l : list A) : concat (chunk l) = l.
Proof. apply concat_chunk_fuel; unfold LID_QUERY_CHUNK; lia. Qed.

(** *** Forward *)

(** What the table answers for a lid, the value of the single read. *)
Definition row_answer (s : LidStore) (lid : string) : option string :=
  match table s !! lid with
  | Some row => rowPhone s lid (phone row) (isReported row)
  | None => None
  end.

Lemma read_phone_batch_lookup s out batch l :
  read_phone_batch s out batch !! l = if decide (l ∈ batch) then Some (row_answer s l) else out !! l.
Proof.
  unfold read_phone_batch.
  set (rows := List.filter _ _). set (out1 := fold_left _ batch out).
  assert (forall rs (o : gmap string (option string)), (forall e, e ∈ rs -> table s !! fst e = Some (snd e)) ->
    fold_left (fun o e => <[fst e := rowPhone s (fst e) (phone (snd e)) (isReported (snd e))]> o) rs o =
    fold_left (fun o k => <[k := row_answer s k]> o) (map fst rs) o) as Hfold.
  { induction rs as [|e rs IH]; intros o He; simpl; [done|].
    rewrite IH by (intros; apply He; by right). unfold row_answer. by rewrite (He e (list_elem_of_here _ _)). }
  assert (Hrows : forall e, e ∈ rows <-> table s !! fst e = Some (snd e) /\ fst e ∈ batch).
  { intros [k v]. unfold rows. rewrite list_elem_of_In, filter_In, <- list_elem_of_In, elem_of_map_to_list.
    simpl. by rewrite bool_decide_eq_true. }
  rewrite Hfold by (intros e He; by apply Hrows). rewrite fold_insert_lookup. unfold out1.
  rewrite (fold_insert_lookup (fun _ => None)).
  destruct (decide (l ∈ map fst rows)) as [Hin|Hout].
  - apply elem_of_map in Hin as (e & -> & He). apply Hrows in He as [_ He]. by rewrite decide_True.
  - destruct (decide (l ∈ batch)) as [Hb|Hb]; [|done]. f_equal. unfold row_answer.
    destruct (table s !! l) as [row|] eqn:Hr; [|done].
    exfalso. apply Hout. apply elem_of_map. exists (l, row). split; [done|]. by apply Hrows.
Qed.

Lemma phone_batches_lookup s bs out l :
  fold_left (read_phone_batch s) bs out !! l =
  if decide (l ∈ concat bs) then Some (row_answer s l) else out !! l.
Proof.
  revert out. induction bs as [|b bs IH]; intros out; simpl.
  - done.
  - rewrite IH, read_phone_batch_lookup.
    destruct (decide (l ∈ concat bs)), (decide (l ∈ b)); repeat case_decide; try done;
      exfalso; rewrite ?elem_of_app in *; tauto.
Qed.

Definition forward_answer (s : LidStore) (lid : string) : option string :=
  if readable s then row_answer s lid else mirror_phone s lid.

Lemma phonesForLids_lookup s ls l :
  phonesForLidsPersisted s ls !! l = if decide (l ∈ ls) then Some (forward_answer s l) else None.
Proof.
  unfold phonesForLidsPersisted, forward_answer. destruct (readable s).
  - rewrite phone_batches_lookup, concat_chunk, (fold_insert_lookup (mirror_phone s)).
    by destruct (decide (l ∈ ls)).
  - by rewrite (fold_insert_lookup (mirror_phone s)).
Qed.

Lemma userPartOf_good l : good_local l -> userPartOf l = l.
Proof. intros (_ & _ & _ & Ha & Hc). unfold userPartOf. by rewrite (split_char_none "@" l Ha), split_char_none. Qed.

Lemma findPhone_good s l : good_local l -> findPhoneForLid s l = forward_answer s l.
Proof. intros Hl. unfold findPhoneForLid, forward_answer. by rewrite userPartOf_good. Qed.

(** *** Reverse *)

(** A row that answers phone [p] for its lid. *)
Definition row_names (s : LidStore) (p l : string) (row : LidMapping) : Prop :=
  phone row = Some p /\ p <> "" /\ rowPhone s l (Some p) (isReported row) = Some p.

Lemma read_lid_row_spec s out e p :
  (is_Some (read_lid_row s out e !! p) <-> is_Some (out !! p)) /\
  forall l, l ∈ default [] (read_lid_row s out e !! p) <->
    l ∈ default [] (out !! p) \/ (is_Some (out !! p) /\ l = fst e /\ row_names s p l (snd e)).
Proof.
  unfold read_lid_row, row_names. destruct e as [k row]. simpl.
  destruct (phone row) as [q|] eqn:Hq; [|naive_solver].
  destruct (String.eqb_spec q "") as [->|Hne]; [naive_solver|].
  destruct (out !! q) as [set|] eqn:Hset.
  - case_bool_decide as Hr.
    + destruct (decide (p = q)) as [->|Hpq].
      * rewrite lookup_insert_eq, Hset. simpl. split; [split; intros; eauto|]. intros l.
        rewrite elem_of_set_add. split; [intros [?| ->]; [auto|right; eauto 6]|].
        intros [?|(_ & -> & _)]; auto.
      * rewrite lookup_insert_ne by done. split; [done|]. intros l. naive_solver.
    + split; [done|]. intros l. split; [auto|]. intros [?|(_ & -> & [= ->] & _ & ?)]; [done|]. done.
  - split; [done|]. intros l. split; [auto|]. intros [?|([? Hs] & -> & [= ->] & _ & ?)]; [done|]. congruence.
Qed.

Lemma read_lid_rows_spec s rows out p :
  (is_Some (fold_left (read_lid_row s) rows out !! p) <-> is_Some (out !! p)) /\
  forall l, l ∈ default [] (fold_left (read_lid_row s) rows out !! p) <->
    l ∈ default [] (out !! p) \/ (is_Some (out !! p) /\ exists row, (l, row) ∈ rows /\ row_names s p l row).
Proof.
  revert out. induction rows as [|[k r] rows IH]; intros out; simpl; [split; [done|]; set_solver|].
  destruct (IH (read_lid_row s out (k, r))) as [IH1 IH2], (read_lid_row_spec s out (k, r) p) as [E1 E2].
  split; [by rewrite IH1|]. intros l. rewrite IH2, E2, E1. simpl.
  setoid_rewrite elem_of_cons. split.
  - intros [[H|(Hs & -> & Hr)]|(Hs & row & Hin & Hr)]; [auto| |]; right; split; eauto.
  - intros [H|(Hs & row & [[= -> ->]|Hin] & Hr)]; [auto|left; right; auto|right; eauto].
Qed.

Lemma lid_batches_spec s bs out p :
  (is_Some (fold_left (fun o batch => fold_left (read_lid_row s)
     (List.filter (row_in_batch batch) (map_to_list (table s))) o) bs out !! p) <-> is_Some (out !! p)) /\
  forall l, l ∈ default [] (fold_left (fun o batch => fold_left (read_lid_row s)
     (List.filter (row_in_batch batch) (map_to_list (table s))) o) bs out !! p) <->
    l ∈ default [] (out !! p) \/
    (is_Some (out !! p) /\ p ∈ concat bs /\ exists row, table s !! l = Some row /\ row_names s p l row).
Proof.
  revert out. induction bs as [|b bs IH]; intros out; simpl; [split; [done|]; set_solver|].
  set (rows := List.filter (row_in_batch b) (map_to_list (table s))).
  destruct (IH (fold_left (read_lid_row s) rows out)) as [IH1 IH2], (read_lid_rows_spec s rows out p) as [E1 E2].
  split; [by rewrite IH1|]. intros l. rewrite IH2, E2, E1.
  assert (forall row, (l, row) ∈ rows /\ row_names s p l row <->
            table s !! l = Some row /\ p ∈ b /\ row_names s p l row) as Hrow.
  { intros row. unfold rows, row_names. rewrite list_elem_of_In, filter_In, <- list_elem_of_In, elem_of_map_to_list.
    unfold row_in_batch. simpl. split.
    - intros [[Ht Hb] (Hp & ? & ?)]. rewrite Hp in Hb. bool_facts. auto.
    - intros (Ht & Hb & (Hp & ? & ?)). rewrite Hp. split_and!; try done. by apply bool_decide_eq_true. }
  setoid_rewrite Hrow. rewrite elem_of_app. naive_solver.
Qed.

Lemma readLidsForPhones_spec s ps p :
  (is_Some (readLidsForPhones s ps !! p) <-> p ∈ ps) /\
  forall l, l ∈ default [] (readLidsForPhones s ps !! p) <->
    p ∈ ps /\ exists row, table s !! l = Some row /\ row_names s p l row.
Proof.
  unfold readLidsForPhones. set (out := fold_left (fun o p => <[p := []]> o) ps ∅).
  assert (out !! p = if decide (p ∈ ps) then Some [] else None) as Ho
    by (unfold out; by rewrite (fold_insert_lookup (fun _ => []))).
  destruct (lid_batches_spec s (chunk ps) out p) as [E1 E2]. rewrite concat_chunk in E2. split.
  - rewrite E1, Ho. case_decide; [by split; eauto|]. by split; [intros [? ?]|].
  - intros l. rewrite E2, Ho. case_decide; simpl; set_solver.
Qed.

Lemma rowPhone_Some s l ph r p : rowPhone s l ph r = Some p -> ph = Some p.
Proof. unfold rowPhone. repeat case_match; naive_solver. Qed.

Lemma row_answer_names s l p :
  row_answer s l = Some p /\ p <> "" <-> exists row, table s !! l = Some row /\ row_names s p l row.
Proof.
  unfold row_answer, row_names. split.
  - intros [E Hp]. destruct (table s !! l) as [row|]; [|done]. exists row. split; [done|].
    pose proof (rowPhone_Some _ _ _ _ _ E) as Hph. rewrite Hph in E. auto.
  - intros (row & -> & Hph & Hp & E). rewrite Hph. auto.
Qed.

Lemma lidsForPhoneCached_elem s p l :
  wf_store s -> (l ∈ lidsForPhoneCached s p <-> mirror_phone s l = Some p /\ p <> "").
Proof.
  intros Hwf. pose proof (wf_reverse s Hwf l p) as Hrev. unfold lidsForPhoneCached, mirror_phone.
  assert (l ∈ match phoneToLids s !! p with
              | Some set => List.filter (fun lid => negb (bool_decide (lid ∈ unreported s))) set
              | None => [] end <->
          (exists set, phoneToLids s !! p = Some set /\ l ∈ set) /\ l ∉ unreported s) as ->.
  { destruct (phoneToLids s !! p) as [set|]; [|set_solver].
    rewrite list_elem_of_In, filter_In, <- list_elem_of_In, negb_true_iff, bool_decide_eq_false. naive_solver. }
  rewrite Hrev. case_bool_decide; [naive_solver|].
  destruct (JMap.get l (lidToPhone s)) as [o|]; naive_solver.
Qed.

Lemma findLids_elem s p l :
  wf_store s -> (l ∈ findLidsForPhone s p <-> forward_answer s l = Some p /\ p <> "").
Proof.
  intros Hwf. unfold findLidsForPhone, forward_answer. destruct (readable s).
  - rewrite (proj2 (readLidsForPhones_spec s [p] p)), row_answer_names. set_solver.
  - by apply lidsForPhoneCached_elem.
Qed.

Lemma lidsForPhones_elem s ps p ls :
  wf_store s -> lidsForPhonesPersisted s ps !! p = Some ls ->
  p ∈ ps /\ forall l, l ∈ ls <-> forward_answer s l = Some p /\ p <> "".
Proof.
  intros Hwf. unfold lidsForPhonesPersisted, forward_answer. destruct (readable s).
  - intros E. destruct (readLidsForPhones_spec s ps p) as [H1 H2]. rewrite E in H1, H2. simpl in *.
    assert (p ∈ ps) as Hp by (apply H1; eauto). split; [done|]. intros l. rewrite H2, row_answer_names. tauto.
  - rewrite (fold_insert_lookup (lidsForPhoneCached s)). case_decide; [|done]. intros [= <-].
    split; [done|]. intros l. by apply lidsForPhoneCached_elem.
Qed.

Lemma lidsForPhones_total s ps p : p ∈ ps -> is_Some (lidsForPhonesPersisted s ps !! p).
Proof.
  intros Hp. unfold lidsForPhonesPersisted. destruct (readable s).
  - by apply readLidsForPhones_spec.
  - rewrite (fold_insert_lookup (lidsForPhoneCached s)), decide_True by done. eauto.
Qed.

(** The store keeps the promises of the interface, whether or not its table can
    be read. *)
#[export] Instance LidStore_laws s (Hwf : wf_store s) : LidDirectoryLaws LidStore s.
Proof.
  constructor; simpl.
  - intros l p Hl. rewrite findLids_elem, findPhone_good by done. done.
  - intros ls l o. rewrite phonesForLids_lookup. case_decide; [|done]. intros [= <-].
    split; [done|]. intros Hl. by rewrite findPhone_good.
  - intros ls l Hl. rewrite phonesForLids_lookup, decide_True by done. eauto.
  - intros ps p ls E. destruct (lidsForPhones_elem s ps p ls Hwf E) as [Hp Hl].
    split; [done|]. intros l. by rewrite Hl, findLids_elem.
  - apply lidsForPhones_total.
Qed.

(** ** The mirror keeps its invariant *)

Definition listed (r : gmap string (list string)) (l p : string) : Prop := exists set, r !! p = Some set /\ l ∈ set.

Definition inverse (m : list (string * option string)) (r : gmap string (list string)) : Prop :=
  forall l p, listed r l p <-> JMap.get l m = Some (Some p) /\ p <> "".

(** What holds inside an operation, before eviction restores the cap. *)
Definition mirror_ok (s : LidStore) : Prop := JMap.wf (lidToPhone s) /\ inverse (lidToPhone s) (phoneToLids s).

Lemma wf_store_ok s :
  wf_store s <-> mirror_ok s /\ (maxCachedLids s = O \/ (length (lidToPhone s) <= maxCachedLids s)%nat).
Proof. split; [intros [? ? ?]; split; [by split|done]|intros [[? ?] ?]; by constructor]. Qed.

Lemma listed_unindex lid p r l q : listed (unindex lid p r) l q <-> listed r l q /\ ~ (l = lid /\ q = p).
Proof.
  unfold listed, unindex. destruct (r !! p) as [set|] eqn:Hp; [|naive_solver].
  case_bool_decide as Hin; [|naive_solver].
  assert (forall x, x ∈ List.filter (fun l0 => negb (String.eqb l0 lid)) set <-> x ∈ set /\ x <> lid) as Hf.
  { intros x. rewrite list_elem_of_In, filter_In, <- list_elem_of_In, negb_true_iff, String.eqb_neq. done. }
  destruct (decide (q = p)) as [->|Hne].
  - destruct (length _ =? 0)%nat eqn:He.
    + rewrite lookup_delete_eq. bool_facts. apply nil_length_inv in He. rewrite He in Hf.
      split; [by intros (? & ? & _)|]. intros [(set' & E & Hl) Hn]. simplify_eq.
      specialize (proj2 (Hf l)) as Hx. assert (l ∈ @nil string) as H0 by (apply Hx; naive_solver). by inversion H0.
    + rewrite lookup_insert_eq, Hp. split.
      * intros (? & [= <-] & Hl). apply Hf in Hl as [? ?]. split; [eauto|]. naive_solver.
      * intros [(set' & E & Hl) Hn]. simplify_eq. eexists. split; [done|]. apply Hf. naive_solver.
  - assert ((if (length (List.filter (fun l0 => negb (String.eqb l0 lid)) set) =? 0)%nat then delete p r
             else <[p := List.filter (fun l0 => negb (String.eqb l0 lid)) set]> r) !! q = r !! q) as ->.
    { case_match; [by rewrite lookup_delete_ne|by rewrite lookup_insert_ne]. }
    naive_solver.
Qed.

Lemma listed_add lid p r l q :
  listed (<[p := set_add (default [] (r !! p)) lid]> r) l q <-> listed r l q \/ (l = lid /\ q = p).
Proof.
  unfold listed. destruct (decide (q = p)) as [->|Hne].
  - rewrite lookup_insert_eq. split.
    + intros (? & [= <-] & Hl). apply elem_of_set_add in Hl as [Hl| ->]; [|auto].
      destruct (r !! p) as [set|]; simpl in Hl; [eauto|by inversion Hl].
    + intros H. eexists. split; [done|]. apply elem_of_set_add.
      destruct H as [(set & -> & Hl)|[-> _]]; auto.
  - rewrite lookup_insert_ne by done. naive_solver.
Qed.

Lemma get_delete_iff {V : Type} k l (m : list (string * V)) v :
  JMap.get l (JMap.delete k m) = Some v <-> JMap.get l m = Some v /\ l <> k.
Proof.
  destruct (decide (l = k)) as [->|Hne]; [rewrite JMap.get_delete_eq; naive_solver|].
  rewrite JMap.get_delete_ne by done. naive_solver.
Qed.

(** Dropping an entry with its reverse entry. *)
Lemma inverse_delete m r k :
  inverse m r ->
  inverse (JMap.delete k m)
    (match truthy (match JMap.get k m with Some o => o | None => None end) with
     | Some p => unindex k p r | None => r end).
Proof.
  intros Hi l p. rewrite get_delete_iff. specialize (Hi l p) as Hlp.
  destruct (JMap.get k m) as [[q|]|] eqn:Hk; simpl; [destruct (String.eqb_spec q "") as [->|Hq]| |].
  - rewrite Hlp. naive_solver.
  - rewrite listed_unindex, Hlp. destruct (decide (l = k)) as [->|]; naive_solver.
  - rewrite Hlp. naive_solver.
  - rewrite Hlp. naive_solver.
Qed.

(** Adding an entry for a key the map lacks. *)
Lemma inverse_set m r k ph :
  k ∉ JMap.keys m -> inverse m r ->
  inverse (JMap.set k ph m)
    (match truthy ph with Some p => <[p := set_add (default [] (r !! p)) k]> r | None => r end).
Proof.
  intros Hk Hi l p. specialize (Hi l p) as Hlp. apply JMap.get_None_keys in Hk.
  assert (JMap.get l (JMap.set k ph m) = if decide (l = k) then Some ph else JMap.get l m) as ->.
  { case_decide as Hd; [subst; by rewrite JMap.get_set_eq|by rewrite JMap.get_set_ne]. }
  destruct ph as [q|]; simpl; [destruct (String.eqb_spec q "") as [->|Hq]|].
  - rewrite Hlp. case_decide; subst; naive_solver.
  - rewrite listed_add, Hlp. case_decide; subst; naive_solver.
  - rewrite Hlp. case_decide; subst; naive_solver.
Qed.

Lemma inverse_listed_ext m r r' : (forall l p, listed r l p <-> listed r' l p) -> inverse m r -> inverse m r'.
Proof. intros He Hi l p. by rewrite <- He. Qed.

(** *** Eviction *)

Lemma evict_oldest_map s : mirror_ok s -> lidToPhone (evict_oldest s) = drop 1 (lidToPhone s).
Proof.
  intros [Hwf _]. unfold evict_oldest. destruct (lidToPhone s) as [|[k ph] m] eqn:E; [by rewrite E|].
  cbn [lidToPhone drop]. by apply JMap.delete_head.
Qed.

Lemma evict_oldest_ok s : mirror_ok s -> mirror_ok (evict_oldest s).
Proof.
  intros [Hwf Hi]. unfold evict_oldest, mirror_ok. destruct (lidToPhone s) as [|[k ph] m] eqn:E; [by rewrite E|].
  cbn [lidToPhone phoneToLids]. split; [by apply JMap.wf_delete|].
  pose proof (inverse_delete _ _ k Hi) as H. cbn [JMap.get] in H. by rewrite String.eqb_refl in H.
Qed.

Lemma evict_oldest_cap s : maxCachedLids (evict_oldest s) = maxCachedLids s.
Proof. unfold evict_oldest. by destruct (lidToPhone s) as [|[? ?] ?]. Qed.

Lemma evict_fuel_spec n s :
  mirror_ok s -> (length (lidToPhone s) <= n)%nat ->
  mirror_ok (evict_fuel n s) /\ maxCachedLids (evict_fuel n s) = maxCachedLids s /\
  lidToPhone (evict_fuel n s) = drop (length (lidToPhone s) - maxCachedLids s) (lidToPhone s).
Proof.
  revert s. induction n as [|n IH]; intros s Hok Hn; simpl.
  - assert (lidToPhone s = []) as -> by (destruct (lidToPhone s); simpl in *; [done|lia]).
    split_and!; [done|done|by rewrite drop_nil].
  - destruct (maxCachedLids s <? length (lidToPhone s))%nat eqn:Hc; bool_facts.
    + destruct (IH (evict_oldest s)) as (H1 & H2 & H3).
      { by apply evict_oldest_ok. }
      { rewrite evict_oldest_map, length_drop by done. lia. }
      rewrite evict_oldest_cap, evict_oldest_map in * by done.
      split_and!; [done|done|]. rewrite H3, drop_drop, length_drop. f_equal. lia.
    + split_and!; [done|done|]. replace (_ - _)%nat with O by lia. done.
Qed.

(** What the cap leaves of a recency list. *)
Definition lru_trim {A : Type} (cap : nat) (m : list A) : list A :=
  if (cap =? 0)%nat then m else drop (length m - cap) m.

Lemma evictIfOverCap_spec s :
  mirror_ok s ->
  wf_store (evictIfOverCap s) /\ maxCachedLids (evictIfOverCap s) = maxCachedLids s /\
  lidToPhone (evictIfOverCap s) = lru_trim (maxCachedLids s) (lidToPhone s).
Proof.
  intros Hok. unfold evictIfOverCap, lru_trim. destruct (maxCachedLids s =? 0)%nat eqn:H0.
  - bool_facts. split_and!; [apply wf_store_ok; auto|done|done].
  - destruct (evict_fuel_spec (length (lidToPhone s)) s Hok) as (H1 & H2 & H3); [lia|].
    split_and!; [|done|done]. apply wf_store_ok. split; [done|]. right.
    rewrite H2, H3, length_drop. lia.
Qed.

(** *** Operations *)

(** [index] before eviction. *)
Lemma index_mirror m r lid ph :
  JMap.wf m -> inverse m r ->
  let reverse :=
    match JMap.get lid m with
    | Some (Some q) => if negb (String.eqb q "") && negb (bool_decide (Some q = ph)) then unindex lid q r else r
    | _ => r
    end in
  inverse (JMap.set lid ph (JMap.delete lid m))
    (match truthy ph with Some p => <[p := set_add (default [] (reverse !! p)) lid]> reverse | None => reverse end).
Proof.
  intros Hwf Hi reverse.
  pose proof (inverse_set _ _ lid ph (JMap.delete_not_in lid m) (inverse_delete m r lid Hi)) as H.
  revert H. apply inverse_listed_ext. intros l p. unfold reverse.
  destruct (JMap.get lid m) as [[q|]|] eqn:Hg; simpl; [|done|done].
  destruct (String.eqb_spec q "") as [->|Hq]; [done|]. simpl.
  case_bool_decide as Hb; [|done]. subst ph. simpl.
  destruct (String.eqb_spec q "") as [->|_]; [done|]. simpl.
  rewrite !listed_add, listed_unindex. destruct (decide (l = lid /\ p = q)); naive_solver.
Qed.

Lemma index_spec s lid ph sid rep :
  mirror_ok s ->
  wf_store (index s lid ph sid rep) /\ maxCachedLids (index s lid ph sid rep) = maxCachedLids s /\
  lidToPhone (index s lid ph sid rep) =
    lru_trim (maxCachedLids s) (JMap.delete lid (lidToPhone s) ++ [(lid, ph)]).
Proof.
  intros [Hwf Hi]. unfold index.
  match goal with |- context [evictIfOverCap ?t] => destruct (evictIfOverCap_spec t) as (H1 & H2 & H3) end.
  { split; simpl; [by apply JMap.wf_set, JMap.wf_delete|by apply index_mirror]. }
  split_and!; [done|done|]. rewrite H3. cbn [lidToPhone maxCachedLids].
  by rewrite JMap.set_absent by apply JMap.delete_not_in.
Qed.

Lemma getCached_wf s lid : wf_store s -> wf_store (fst (getCached s lid)).
Proof.
  intros Hs. apply wf_store_ok in Hs as [[Hwf Hi] Hcap]. unfold getCached.
  destruct (JMap.get lid (lidToPhone s)) as [ph|] eqn:Hg; apply wf_store_ok; [|done].
  unfold mirror_ok. simpl. split; [split; [by apply JMap.wf_set, JMap.wf_delete|]|].
  - intros l p. destruct (decide (l = lid)) as [->|Hne].
    + by rewrite JMap.get_set_eq, (Hi lid p), Hg.
    + by rewrite JMap.get_set_ne, JMap.get_delete_ne, (Hi l p) by done.
  - destruct Hcap as [?|Hcap]; [by left|]. right.
    rewrite JMap.set_absent by apply JMap.delete_not_in. rewrite length_app. simpl.
    pose proof (JMap.length_delete_lt lid ph (lidToPhone s) Hg). lia.
Qed.

Lemma noteAbsent_wf s lid : wf_store s -> wf_store (noteAbsent s lid).
Proof. intros [? ? ?]. unfold noteAbsent. by case_match. Qed.

Lemma warmed_wf s lid row : wf_store s -> wf_store (warmed s lid row).
Proof.
  intros Hs. unfold warmed. destruct (JMap.has lid (lidToPhone s)); [done|].
  destruct row as [[r o]|]; [|by apply noteAbsent_wf].
  apply index_spec. by apply wf_store_ok in Hs as [? _].
Qed.

Lemma dropCached_wf s lid : wf_store s -> wf_store (dropCached s lid).
Proof.
  intros Hs. apply wf_store_ok in Hs as [[Hwf Hi] Hcap]. apply wf_store_ok. unfold mirror_ok, dropCached. simpl.
  split; [split; [by apply JMap.wf_delete|by apply inverse_delete]|].
  pose proof (JMap.length_delete_le lid (lidToPhone s)). destruct Hcap; [by left|right; lia].
Qed.

Lemma reload_wf s rows : wf_store s -> wf_store (reload s rows).
Proof.
  intros Hs. destruct rows as [rows|]; simpl; [|by destruct Hs].
  match goal with |- wf_store (fold_left _ _ ?t) => assert (wf_store t) as Ht; [|revert Ht; generalize t] end.
  { apply wf_store_ok. split; [split; [constructor|]|right; simpl; lia].
    intros l p. split; [|by intros [? _]]. intros (? & H & _). simpl in H. by rewrite lookup_empty in H. }
  induction (reverse rows) as [|r rs IH]; intros t Ht; simpl; [done|].
  apply IH. apply index_spec. by apply wf_store_ok in Ht as [? _].
Qed.

(** ** Properties *)

(** The store's life: the mirror's own operations, any change of the table by
    this or another process, any change of what is in flight or failed. *)
Inductive store_step : LidStore -> LidStore -> Prop :=
| step_index s lid ph sid rep : store_step s (index s lid ph sid rep)
| step_getCached s lid : store_step s (fst (getCached s lid))
| step_warmed s lid row : store_step s (warmed s lid row)
| step_dropCached s lid : store_step s (dropCached s lid)
| step_reload s rows : store_step s (reload s rows)
| step_world s t rd u uw sb fw :
    store_step s (mkStore t rd (lidToPhone s) u (phoneToLids s) (absentFromTable s) uw sb fw (maxCachedLids s)).

(** The store of a started process: nothing cached yet. *)
Definition fresh (t : gmap string LidMapping) (rd : bool) (cap : nat) : LidStore :=
  mkStore t rd [] ∅ ∅ [] ∅ ∅ ∅ cap.

Lemma fresh_wf t rd cap : wf_store (fresh t rd cap).
Proof.
  apply wf_store_ok. split; [split; [constructor|]|right; simpl; lia].
  intros l p. split; [|by intros [? _]]. intros (? & H & _). simpl in H. by rewrite lookup_empty in H.
Qed.

Lemma store_step_wf s s' : store_step s s' -> wf_store s -> wf_store s'.
Proof.
  intros Hst Hs. destruct Hst.
  - apply index_spec. by apply wf_store_ok in Hs as [? _].
  - by apply getCached_wf.
  - by apply warmed_wf.
  - by apply dropCached_wf.
  - by apply reload_wf.
  - destruct Hs. by constructor.
Qed.

Lemma reachable_wf t rd cap s : rtc store_step (fresh t rd cap) s -> wf_store s.
Proof. intros H. eapply rtc_invariant; [exact store_step_wf|exact H|apply fresh_wf]. Qed.

(** At every state the store can reach, its forward and reverse reads are one
    relation: a lid is among the lids of a phone exactly when the lid resolves to
    that phone, read from the table or, when it cannot be read, from the mirror;
    and the batched reads of a list filter, chunked into queries, answer exactly
    what the single reads of the guard answer. *)
Theorem reads_agree t rd cap s :
  rtc store_step (fresh t rd cap) s ->
  (forall l p, good_local l -> (l ∈ findLidsForPhone s p <-> findPhoneForLid s l = Some p /\ p <> "")) /\
  (forall ls l, good_local l -> phonesForLidsPersisted s ls !! l =
     if decide (l ∈ ls) then Some (findPhoneForLid s l) else None) /\
  (forall ps p, is_Some (lidsForPhonesPersisted s ps !! p) <-> p ∈ ps) /\
  (forall ps p ls, lidsForPhonesPersisted s ps !! p = Some ls -> forall l, l ∈ ls <-> l ∈ findLidsForPhone s p).
Proof.
  intros Hr. pose proof (reachable_wf _ _ _ _ Hr) as Hwf. split_and!.
  - intros l p Hl. by rewrite findLids_elem, findPhone_good.
  - intros ls l Hl. by rewrite phonesForLids_lookup, findPhone_good.
  - intros ps p. split; [intros [ls H]; by destruct (lidsForPhones_elem s ps p ls Hwf H)|].
    by apply lidsForPhones_total.
  - intros ps p ls H l. destruct (lidsForPhones_elem s ps p ls Hwf H) as [_ Hl]. by rewrite Hl, findLids_elem.
Qed.

Definition demo_table : gmap string LidMapping :=
  {["1001" := mkRow (Some "628111") true; "1002" := mkRow None true; "1003" := mkRow (Some "628111") false]}.

Lemma reads_agree_witness :
  findPhoneForLid (index (fresh demo_table true 2) "1001" (Some "628111") None true) "1001" = Some "628111" /\
  ("1001" ∈ findLidsForPhone (index (fresh demo_table true 2) "1001" (Some "628111") None true) "628111").
Proof.
  split; [vm_compute; reflexivity|].
  apply (reads_agree demo_table true 2); [|repeat split; discriminate|split; [vm_compute; reflexivity|discriminate]].
  eapply rtc_l; [apply step_index|apply rtc_refl].
Defined.

(** The mirror is a least-recently-used cache: at every reachable state,
    learning a mapping moves it to the recent end and drops exactly the oldest
    entries past the cap (none when the cap is 0), the reverse index keeps only
    the entries the forward map holds, and the cap bounds the map. *)
Theorem index_is_lru t rd cap s lid ph sid rep :
  rtc store_step (fresh t rd cap) s ->
  let s' := index s lid ph sid rep in
  lidToPhone s' = lru_trim (maxCachedLids s) (JMap.delete lid (lidToPhone s) ++ [(lid, ph)]) /\
  (maxCachedLids s' = O \/ (length (lidToPhone s') <= maxCachedLids s')%nat) /\
  JMap.get lid (lidToPhone s') = Some ph /\
  (forall l p, listed (phoneToLids s') l p <-> JMap.get l (lidToPhone s') = Some (Some p) /\ p <> "").
Proof.
  intros Hr s'. apply reachable_wf, wf_store_ok in Hr as [Hok _].
  destruct (index_spec s lid ph sid rep Hok) as (Hwf & Hmax & Hmap). fold s' in Hwf, Hmax, Hmap.
  split_and!; [done|by destruct Hwf| |by destruct Hwf].
  apply JMap.get_elem_wf; [by destruct Hwf|]. rewrite Hmap. unfold lru_trim.
  destruct (maxCachedLids s =? 0)%nat eqn:H0; [apply elem_of_app; right; by apply list_elem_of_singleton|].
  bool_facts. rewrite length_app. simpl. rewrite drop_app_le by lia.
  apply elem_of_app. right. by apply list_elem_of_singleton.
Qed.

Lemma index_is_lru_witness :
  lidToPhone (index (index (index (fresh ∅ true 2) "a" None None true) "b" None None true) "c" (Some "5") None true) =
    [("b", None); ("c", Some "5")] /\
  JMap.get "c" (lidToPhone (index (index (index (fresh ∅ true 2) "a" None None true) "b" None None true) "c" (Some "5") None true))
    = Some (Some "5").
Proof.
  split; [vm_compute; reflexivity|].
  refine (proj1 (proj2 (proj2 (index_is_lru ∅ true 2 _ _ _ _ _ _)))). eapply rtc_l; [apply step_index|]. eapply rtc_l; [apply step_index|apply rtc_refl].
Defined.

(** C28. The chat fence decides by contact, not by spelling: over a store in any
    reachable state (or with no store), a key with a non-empty allowlist may
    reach a requested id exactly when some entry of the list and the id name one
    contact, the same group, user or lid, or a lid and the phone the store pairs
    it with. *)
Theorem fence_admits_exactly_same_contact (store : option LidStore) t rd cap al c :
  match store with Some s => rtc store_step (fresh t rd cap) s | None => True end ->
  isChatScopeRestricted al = true ->
  (ChatScopeService.allows store al c = true <->
   exists e a b, e ∈ entries al /\ entity e = Some a /\ request_entity c = Some b /\ same_contact store a b).
Proof.
  intros Hs Hr. destruct (buildChatScope al) as [sc|] eqn:Hb; [|unfold buildChatScope in Hb; by rewrite Hr in Hb].
  apply (guard_allows_iff_restricted store) with (s := sc); [|done].
  destruct store as [s|]; [|done]. eauto using LidStore_laws, reachable_wf.
Qed.

Definition demo_store : LidStore := fresh demo_table true 100.

Lemma fence_admits_exactly_same_contact_witness :
  ChatScopeService.allows (Some demo_store) (Some ["628111"]) "1001@lid" = true /\
  exists e a b, e ∈ entries (Some ["628111"]) /\ entity e = Some a /\
    request_entity "1001@lid" = Some b /\ same_contact (Some demo_store) a b.
Proof.
  split; [vm_compute; reflexivity|].
  apply (fence_admits_exactly_same_contact (Some demo_store) demo_table true 100);
    [apply rtc_refl|reflexivity|vm_compute; reflexivity].
Defined.

(** The list routes and the guard agree: over a store in any reachable state
    and for any key, filtering rows returns, in order, exactly the rows whose
    chat id the guard admits, for rows that carry a qualified id; for a key with
    no allowlist it returns every row. *)
Theorem filter_agrees_with_guard {T : Type} (store : option LidStore) t rd cap al (items : list T) (f : T -> option string) :
  match store with Some s => rtc store_step (fresh t rd cap) s | None => True end ->
  Forall (fun i => match f i with Some c => has_char "@" c = true | None => True end) items ->
  ChatScopeService.filter store al items f =
  if isChatScopeRestricted al
  then List.filter (fun i => match f i with Some c => ChatScopeService.allows store al c | None => false end) items
  else items.
Proof.
  intros Hs Hat. unfold ChatScopeService.filter, filterByChatScope.
  destruct (isChatScopeRestricted al) eqn:Hr.
  2: { unfold ChatScopeService.scopeForFilter, buildExpandedChatScope, buildChatScope. by rewrite Hr. }
  destruct (buildChatScope al) as [sc|] eqn:Hb; [|unfold buildChatScope in Hb; by rewrite Hr in Hb].
  assert (match store with Some s => LidDirectoryLaws LidStore s | None => True end) as L
    by (destruct store as [s|]; [eauto using LidStore_laws, reachable_wf|done]).
  assert (exists s', ChatScopeService.scopeForFilter store al = Some s') as [s' Hs'].
  { unfold ChatScopeService.scopeForFilter, buildExpandedChatScope. rewrite Hb. case_match; eauto. }
  rewrite Hs'. apply List.filter_ext_in. intros i Hi. rewrite <- list_elem_of_In in Hi.
  rewrite Forall_forall in Hat. specialize (Hat i Hi). destruct (f i) as [c|]; [|done].
  rewrite <- Hs'. apply eq_true_iff_eq.
  by rewrite (filter_allows_iff_restricted store L al sc), (guard_allows_iff_restricted store L al sc).
Qed.

Lemma filter_agrees_with_guard_witness :
  ChatScopeService.filter (Some demo_store) (Some ["628111"; "120363@g.us"])
    ["1001@lid"; "1003@lid"; "628111@s.whatsapp.net"; "120363@g.us"; "9@g.us"] Some =
  ["1001@lid"; "628111@s.whatsapp.net"; "120363@g.us"].
Proof.
  rewrite (filter_agrees_with_guard (Some demo_store) demo_table true 100);
    [vm_compute; reflexivity|apply rtc_refl|repeat constructor].
Defined.
