(* ===== verification/IpAddr.v ===== *)
(** * IP addresses and client-IP resolution

    [src/src/common/utils/ip.ts]: normalizing, matching and resolving client
    addresses, on a model of what it uses of Node's [net] module ([isIP] and
    [BlockList]), for literals that carry no zone id. *)
From S2P Require Import Prelude JsString.
Local Open Scope string_scope.
Local Open Scope Z_scope.

(** ** Numbers written in digits *)

Definition digit_val (c : ascii) : Z := Z.of_N (code c) - 48.

Fixpoint digits_val (acc : Z) (s : string) : Z :=
  match s with
  | EmptyString => acc
  | String c r => digits_val (10 * acc + digit_val c) r
  end.

(** [/^\d{1,3}$/.test(s)] *)
Definition short_digits (s : string) : bool :=
  all_chars is_digit s && (1 <=? String.length s)%nat && (String.length s <=? 3)%nat.

(** The value of a hexadecimal digit. *)
Definition hex_val (c : ascii) : option Z :=
  let n := Z.of_N (code c) in
  if (48 <=? n) && (n <=? 57) then Some (n - 48)
  else if (97 <=? n) && (n <=? 102) then Some (n - 87)
  else if (65 <=? n) && (n <=? 70) then Some (n - 55)
  else None.

Fixpoint hex_digits (acc : Z) (s : string) : option Z :=
  match s with
  | EmptyString => Some acc
  | String c r => match hex_val c with Some d => hex_digits (16 * acc + d) r | None => None end
  end.

(** A group of an IPv6 literal, one to four hexadecimal digits. *)
Definition hextet (s : string) : option Z :=
  if (1 <=? String.length s)%nat && (String.length s <=? 4)%nat then hex_digits 0 s else None.

(** ** Node's [net] *)

(** A component of Node's IPv4 syntax: no leading zero, at most 255. *)
Definition v4_segment (s : string) : option Z :=
  if short_digits s && (String.eqb s "0" || negb (startsWith s "0")) && (digits_val 0 s <=? 255)
  then Some (digits_val 0 s) else None.

(** The 32-bit value of an IPv4 literal; [None] when [isIPv4] is false. *)
Definition parse_v4 (s : string) : option Z :=
  match split_char "." s with
  | [a; b; c; d] =>
      a ← v4_segment a; b ← v4_segment b; c ← v4_segment c; d ← v4_segment d;
      Some (((a * 256 + b) * 256 + c) * 256 + d)
  | _ => None
  end.

(** [s.split('::')] *)
Fixpoint split_dcolon (s : string) : list string :=
  match s with
  | EmptyString => [""]
  | String c r =>
      match r with
      | String d r' =>
          if Ascii.eqb c ":" && Ascii.eqb d ":" then "" :: split_dcolon r'
          else match split_dcolon r with h :: t => String c h :: t | [] => [String c ""] end
      | EmptyString => [String c ""]
      end
  end.

Definition groups_of (s : string) : list string := if String.eqb s "" then [] else split_char ":" s.

(** The values of colon-separated groups, the last of which may be a dotted IPv4
    that stands for two. *)
Fixpoint v6_groups (dotted : bool) (l : list string) : option (list Z) :=
  match l with
  | [] => Some []
  | [g] =>
      match hextet g with
      | Some x => Some [x]
      | None => if dotted then a ← parse_v4 g; Some [a / 65536; a mod 65536] else None
      end
  | g :: r => x ← hextet g; xs ← v6_groups dotted r; Some (x :: xs)
  end.

(** The eight hextets of an IPv6 literal with no zone id; [None] when [isIPv6]
    is false. *)
Definition parse_v6 (s : string) : option (list Z) :=
  match split_dcolon s with
  | [a] => gs ← v6_groups true (split_char ":" a); if (length gs =? 8)%nat then Some gs else None
  | [a; b] =>
      h ← v6_groups false (groups_of a);
      t ← v6_groups true (groups_of b);
      if (length h + length t <=? 7)%nat then Some (h ++ replicate (8 - length h - length t) 0 ++ t)%list else None
  | _ => None
  end.

Definition v6_value (h : list Z) : Z := fold_left (fun acc x => 65536 * acc + x) h 0.

Inductive IpAddr := V4 (a : Z) | V6 (h : list Z).

Definition parse_ip (s : string) : option IpAddr :=
  match parse_v4 s with
  | Some a => Some (V4 a)
  | None => match parse_v6 s with Some h => Some (V6 h) | None => None end
  end.

(** [isIP] *)
Definition isIP (s : string) : nat :=
  match parse_ip s with Some (V4 _) => 4 | Some (V6 _) => 6 | None => 0 end.

(** Membership of a subnet, as [BlockList] decides it: the families agree and so
    do the leading [bits] bits. *)
Definition in_subnet (x net : IpAddr) (bits : Z) : bool :=
  match x, net with
  | V4 a, V4 n => Z.shiftr a (32 - bits) =? Z.shiftr n (32 - bits)
  | V6 a, V6 n => Z.shiftr (v6_value a) (128 - bits) =? Z.shiftr (v6_value n) (128 - bits)
  | _, _ => false
  end.

(** ** [ip.ts] *)

(** [/^\d{1,3}(\.\d{1,3}){3}$/.test(s)] *)
Definition dotted_shape (s : string) : bool :=
  match split_char "." s with
  | [a; b; c; d] => short_digits a && short_digits b && short_digits c && short_digits d
  | _ => false
  end.

Definition normalizeIp (ip : string) : string :=
  if startsWith (toLowerCase ip) "::ffff:" && dotted_shape (drop_chars 7 ip) then drop_chars 7 ip else ip.

(** [stripHopPort]: [d.d.d.d:port], then a bracketed literal with or without a
    port; the character class is [0-9a-f:.] without case. *)
Definition v6_char (c : ascii) : bool :=
  match hex_val c with Some _ => true | None => Ascii.eqb c ":" || Ascii.eqb c "." end.

Definition port_digits (s : string) : bool := all_chars is_digit s && negb (String.eqb s "").

(** [/^\[([0-9a-f:.]+)\](?::\d+)?$/i] *)
Definition bracketed (hop : string) : option string :=
  match hop with
  | String "[" r =>
      match lsplit "]" r with
      | Some (a, rest) =>
          if all_chars v6_char a && negb (String.eqb a "") &&
             (String.eqb rest "" || match rest with String ":" p => port_digits p | _ => false end)
          then Some a else None
      | None => None
      end
  | _ => None
  end.

Definition stripHopPort (hop : string) : string :=
  match split_char ":" hop with
  | [a; p] => if dotted_shape a && port_digits p then a else default hop (bracketed hop)
  | _ => default hop (bracketed hop)
  end.

Record IpTarget := mkTarget { t_address : IpAddr; t_bits : option Z }.

Definition width (x : IpAddr) : Z := match x with V4 _ => 32 | V6 _ => 128 end.

Definition parseIpTarget (entry : string) : option IpTarget :=
  let ref := trim entry in
  match lsplit "/" ref with
  | None => a ← parse_ip (normalizeIp ref); Some (mkTarget a None)
  | Some (addr, bitsRaw) =>
      a ← parse_ip (normalizeIp addr);
      if short_digits bitsRaw && (digits_val 0 bitsRaw <=? width a)
      then Some (mkTarget a (Some (digits_val 0 bitsRaw))) else None
  end.

Definition isIpOrCidrEntry (entry : string) : bool :=
  match parseIpTarget entry with Some _ => true | None => false end.

Definition parseTrustedProxies (raw : option string) : list string :=
  List.filter (fun e => negb (String.eqb e ""))
    (map trim (split_char "," (default "" raw))).

Definition invalidTrustedProxies (raw : option string) : list string :=
  List.filter (fun e => negb (isIpOrCidrEntry e)) (parseTrustedProxies raw).

Definition ipMatches (ip target : string) : bool :=
  match parse_ip (normalizeIp (trim ip)), parseIpTarget target with
  | Some x, Some t => in_subnet x (t_address t) (default (width (t_address t)) (t_bits t))
  | _, _ => false
  end.

(** A request as the resolver sees it: the peer's address ([remoteAddress], else
    [req.ip], else empty) and the forwarded header's values. *)
Record RequestLike := { remoteAddress : option string; req_ip : option string; xForwardedFor : list string }.

Definition socket_ip (req : RequestLike) : string :=
  let nonempty o := match o with Some s => if String.eqb s "" then None else Some s | None => None end in
  normalizeIp (match nonempty (remoteAddress req) with
               | Some a => a
               | None => default "" (nonempty (req_ip req))
               end).

Definition hops_of (forwarded : list string) : list string :=
  List.filter (fun h => negb (String.eqb h ""))
    (map (fun hop => normalizeIp (stripHopPort (trim hop))) (split_char "," (join "," forwarded))).

(** The walk from the right: the first hop that is not a trusted proxy. *)
Definition last_untrusted (isTrusted : string -> bool) (hops : list string) : option string :=
  hd_error (List.filter (fun h => negb (isTrusted h)) (reverse hops)).

Definition isTrustedProxy (trustedProxies : list string) (ip : string) : bool :=
  existsb (ipMatches ip) trustedProxies.

Definition resolveClientIp (req : RequestLike) (trustedProxies : list string) : string :=
  let socketIp := socket_ip req in
  match trustedProxies with
  | [] => socketIp
  | _ =>
      if negb (isTrustedProxy trustedProxies socketIp) then socketIp
      else if String.eqb (join "," (xForwardedFor req)) "" then socketIp
      else default socketIp (last_untrusted (isTrustedProxy trustedProxies) (hops_of (xForwardedFor req)))
  end.

(** ** Printing *)

Definition digit_char (d : Z) : ascii := ascii_of_N (Z.to_N (d + 48)).

(** [`${n}`] for an octet. *)
Definition octet_str (n : Z) : string :=
  if n <? 10 then String (digit_char n) ""
  else if n <? 100 then String (digit_char (n / 10)) (String (digit_char (n mod 10)) "")
  else String (digit_char (n / 100)) (String (digit_char (n / 10 mod 10)) (String (digit_char (n mod 10)) "")).

(** The dotted form of a 32-bit address. *)
Definition print_v4 (a : Z) : string :=
  octet_str (a / 16777216) +:+ "." +:+ octet_str (a / 65536 mod 256) +:+ "." +:+
  octet_str (a / 256 mod 256) +:+ "." +:+ octet_str (a mod 256).

(** ** Lemmas *)

Definition octet_ok (n : Z) : bool :=
  bool_decide (v4_segment (octet_str n) = Some n) && short_digits (octet_str n) &&
  negb (has_char "." (octet_str n)) && negb (has_char "/" (octet_str n)) && negb (has_char ":" (octet_str n)) &&
  head_ok (octet_str n) && last_ok (octet_str n).

Lemma octet_facts n : 0 <= n < 256 ->
  v4_segment (octet_str n) = Some n /\ short_digits (octet_str n) = true /\ has_char "." (octet_str n) = false /\
  has_char "/" (octet_str n) = false /\ has_char ":" (octet_str n) = false /\
  head_ok (octet_str n) = true /\ last_ok (octet_str n) = true.
Proof.
  intros H. assert (octet_ok n = true) as Hok.
  { assert (forallb octet_ok (map Z.of_nat (seq 0 256)) = true) as Hall by reflexivity.
    rewrite forallb_forall in Hall. apply Hall. apply in_map_iff. exists (Z.to_nat n).
    split; [lia|]. apply in_seq. lia. }
  unfold octet_ok in Hok. bool_facts. auto 10.
Qed.

Lemma split_print_v4 (x y z w : Z) : 0 <= x < 256 -> 0 <= y < 256 -> 0 <= z < 256 -> 0 <= w < 256 ->
  split_char "." (octet_str x +:+ "." +:+ octet_str y +:+ "." +:+ octet_str z +:+ "." +:+ octet_str w) =
  [octet_str x; octet_str y; octet_str z; octet_str w].
Proof.
  intros Hx Hy Hz Hw.
  assert (forall l m, split_char "." (l +:+ "." +:+ m) = (split_char "." l ++ split_char "." m)%list) as D
    by (intros; apply split_char_cat).
  assert (forall n, 0 <= n < 256 -> split_char "." (octet_str n) = [octet_str n]) as E.
  { intros n Hn. apply split_char_none. by apply octet_facts. }
  by rewrite !D, !E.
Qed.

Lemma v4_octets a : 0 <= a < 2^32 ->
  (0 <= a / 16777216 < 256) /\ (0 <= a / 65536 mod 256 < 256) /\ (0 <= a / 256 mod 256 < 256) /\ 0 <= a mod 256 < 256.
Proof.
  intros H. split_and!; try (apply Z.mod_pos_bound; lia); [apply Z.div_pos; lia|].
  apply Z.div_lt_upper_bound; lia.
  all: try (apply Z.mod_pos_bound; lia).
Qed.

(** Printing then parsing is the identity on 32-bit addresses. *)
Lemma parse_print_v4 a : 0 <= a < 2^32 -> parse_v4 (print_v4 a) = Some a.
Proof.
  intros H. pose proof (v4_octets a H) as (H1 & H2 & H3 & H4). unfold parse_v4, print_v4.
  rewrite split_print_v4 by done.
  rewrite (proj1 (octet_facts _ H1)), (proj1 (octet_facts _ H2)), (proj1 (octet_facts _ H3)), (proj1 (octet_facts _ H4)).
  simpl. f_equal. clear. replace (a / 65536) with (a / 256 / 256) by (by rewrite Z.div_div).
  replace (a / 16777216) with (a / 256 / 256 / 256) by (by rewrite !Z.div_div).
  pose proof (Z.div_mod a 256). pose proof (Z.div_mod (a / 256) 256). pose proof (Z.div_mod (a / 256 / 256) 256). lia.
Qed.

Lemma short_digits_dotted a : 0 <= a < 2^32 -> dotted_shape (print_v4 a) = true.
Proof.
  intros H. pose proof (v4_octets a H) as (H1 & H2 & H3 & H4). unfold dotted_shape, print_v4.
  rewrite split_print_v4 by done.
  by rewrite (proj1 (proj2 (octet_facts _ H1))), (proj1 (proj2 (octet_facts _ H2))),
    (proj1 (proj2 (octet_facts _ H3))), (proj1 (proj2 (octet_facts _ H4))).
Qed.

Lemma octet_nonempty n : octet_str n <> "".
Proof. unfold octet_str. by repeat case_match. Qed.

Lemma octet_append_nonempty n s : octet_str n +:+ s <> "".
Proof. unfold octet_str. by repeat case_match. Qed.

Lemma print_v4_nonempty a : print_v4 a <> "".
Proof. apply octet_append_nonempty. Qed.

Lemma print_v4_last a : 0 <= a < 2^32 -> last_ok (print_v4 a) = true.
Proof.
  intros H. pose proof (v4_octets a H) as (_ & _ & _ & H4). unfold print_v4.
  rewrite !last_ok_app; try done; first [by apply octet_facts | apply octet_append_nonempty | apply octet_nonempty].
Qed.

Lemma print_v4_no c a : 0 <= a < 2^32 -> c = "/"%char \/ c = ":"%char -> has_char c (print_v4 a) = false.
Proof.
  intros H Hc. pose proof (v4_octets a H) as (H1 & H2 & H3 & H4). unfold print_v4. rewrite !has_char_app.
  assert (forall n, 0 <= n < 256 -> has_char c (octet_str n) = false) as E
    by (intros n Hn; destruct Hc as [-> | ->]; by apply octet_facts).
  rewrite !E by done. by destruct Hc as [-> | ->].
Qed.

Lemma print_v4_trim a x : 0 <= a < 2^32 -> last_ok x = true -> trim (print_v4 a +:+ x) = print_v4 a +:+ x.
Proof.
  intros H Hx. pose proof (v4_octets a H) as (H1 & _ & _ & H4).
  apply trim_id.
  - unfold print_v4. rewrite !append_assoc. rewrite head_ok_app by apply octet_nonempty. by apply octet_facts.
  - destruct x as [|c x']; [rewrite append_nil_r|by rewrite last_ok_app].
    by apply print_v4_last.
Qed.

Lemma split_char_no c s l : split_char c s = l -> has_char c s = true -> l <> [s].
Proof.
  intros <- Hc E. destruct (split_char_nonempty c s) as (h & t & Eh). pose proof (split_char_head_no c s h t Eh) as Hn.
  rewrite E in Eh. injection Eh as <- _. congruence.
Qed.

Lemma normalize_print_v4 a : 0 <= a < 2^32 -> normalizeIp (print_v4 a) = print_v4 a.
Proof.
  intros H. unfold normalizeIp. destruct (startsWith _ _) eqn:E; [|done].
  apply startsWith_spec in E as [r E]. pose proof (print_v4_no ":" a H (or_intror eq_refl)) as Hn.
  by rewrite <- lower_has_colon, E in Hn.
Qed.

(** Both spellings of an IPv4 peer: dotted, and mapped into IPv6 in any case. *)
Definition mapped_prefix (p : string) : Prop := p = "" \/ toLowerCase p = "::ffff:".

Lemma normalize_mapped p a : 0 <= a < 2^32 -> mapped_prefix p -> normalizeIp (p +:+ print_v4 a) = print_v4 a.
Proof.
  intros H [->|Hp]; [by apply normalize_print_v4|].
  assert (String.length p = 7%nat) as Hlen by (by rewrite <- length_lower, Hp).
  assert (drop_chars 7 (p +:+ print_v4 a) = print_v4 a) as Hd.
  { do 7 (destruct p as [|? p]; [done|]). by destruct p. }
  unfold normalizeIp. rewrite Hd, lower_app, Hp, short_digits_dotted by done.
  by rewrite (proj2 (startsWith_spec _ _)) by eauto.
Qed.

Lemma mapped_trim p a : 0 <= a < 2^32 -> mapped_prefix p -> trim (p +:+ print_v4 a) = p +:+ print_v4 a.
Proof.
  intros H [->|Hp]; [rewrite <- (append_nil_r ("" +:+ print_v4 a)); by apply print_v4_trim|].
  pose proof (v4_octets a H) as (_ & _ & _ & H4). apply trim_id.
  - rewrite <- head_ok_lower, lower_app, Hp. done.
  - rewrite last_ok_app by apply print_v4_nonempty. by apply print_v4_last.
Qed.

Lemma lsplit_none c s : has_char c s = false -> lsplit c s = None.
Proof.
  induction s as [|d s IH]; simpl; [done|]. intros H. apply orb_false_iff in H as [-> H]. by rewrite IH.
Qed.

Lemma lsplit_app c a b : has_char c a = false -> lsplit c (a +:+ String c b) = Some (a, b).
Proof.
  induction a as [|d a IH]; intros H; [simpl; by rewrite Ascii.eqb_refl|].
  rewrite append_cons. simpl in *. apply orb_false_iff in H as [-> H]. by rewrite IH.
Qed.

Lemma mapped_no_slash p a : 0 <= a < 2^32 -> mapped_prefix p -> has_char "/" (p +:+ print_v4 a) = false.
Proof.
  intros H Hp. rewrite has_char_app, (print_v4_no "/" a H) by auto.
  destruct Hp as [->|Hp]; [done|]. rewrite orb_false_r.
  assert (forall s, has_char "/" (toLowerCase s) = has_char "/" s) as Hs.
  { induction s as [|c s IH]; simpl; [done|]. rewrite IH. f_equal. clear. by destruct c as [[] [] [] [] [] [] [] []]. }
  by rewrite <- Hs, Hp.
Qed.

Lemma parse_ip_print a : 0 <= a < 2^32 -> parse_ip (print_v4 a) = Some (V4 a).
Proof. intros H. unfold parse_ip. by rewrite parse_print_v4. Qed.

Lemma target_exact q n : 0 <= n < 2^32 -> mapped_prefix q ->
  parseIpTarget (q +:+ print_v4 n) = Some (mkTarget (V4 n) None).
Proof.
  intros H Hq. unfold parseIpTarget. rewrite mapped_trim, lsplit_none by (try done; by apply mapped_no_slash).
  by rewrite normalize_mapped, parse_ip_print.
Qed.

Lemma v4_segment_digits s n : v4_segment s = Some n -> digits_val 0 s = n.
Proof. unfold v4_segment. case_match; naive_solver. Qed.

Lemma last_ok_slash a k : 0 <= k <= 32 -> last_ok (a +:+ "/" +:+ octet_str k) = true.
Proof.
  intros Hk. assert (0 <= k < 256) as Hk' by lia.
  rewrite !last_ok_app; [by apply octet_facts|apply octet_nonempty|done].
Qed.

Lemma target_cidr q n k : 0 <= n < 2^32 -> 0 <= k <= 32 -> mapped_prefix q ->
  parseIpTarget (q +:+ print_v4 n +:+ "/" +:+ octet_str k) = Some (mkTarget (V4 n) (Some k)).
Proof.
  intros H Hk Hq. unfold parseIpTarget.
  assert (trim (q +:+ print_v4 n +:+ "/" +:+ octet_str k) = q +:+ print_v4 n +:+ "/" +:+ octet_str k) as ->.
  { apply trim_id.
    - rewrite <- append_assoc, head_ok_app.
      + rewrite <- (mapped_trim q n H Hq). apply trim_head.
      + destruct q; [apply print_v4_nonempty|done].
    - rewrite <- append_assoc. by apply last_ok_slash. }
  rewrite <- append_assoc. change ("/" +:+ octet_str k) with (String "/" (octet_str k)).
  rewrite lsplit_app by (by apply mapped_no_slash). rewrite normalize_mapped, parse_ip_print by done. simpl.
  assert (0 <= k < 256) as Hk' by lia. destruct (octet_facts k Hk') as (Hseg & -> & _).
  apply v4_segment_digits in Hseg as ->. by rewrite (proj2 (Z.leb_le k 32)) by lia.
Qed.

(** ** Properties *)

(** An IPv4 allowlist entry matches by value: over every 32-bit peer and
    network address and every prefix length, in dotted or IPv4-mapped spelling on
    either side, an exact entry matches exactly its address and a CIDR entry
    exactly the addresses that share its leading bits. *)
Theorem ipMatches_v4 a n k p q :
  0 <= a < 2^32 -> 0 <= n < 2^32 -> 0 <= k <= 32 -> mapped_prefix p -> mapped_prefix q ->
  ipMatches (p +:+ print_v4 a) (q +:+ print_v4 n) = (a =? n) /\
  ipMatches (p +:+ print_v4 a) (q +:+ print_v4 n +:+ "/" +:+ octet_str k) =
    (Z.shiftr a (32 - k) =? Z.shiftr n (32 - k)).
Proof.
  intros Ha Hn Hk Hp Hq. unfold ipMatches. rewrite mapped_trim, normalize_mapped, parse_ip_print by done.
  rewrite target_exact, target_cidr by done. simpl. by rewrite !Z.shiftr_0_r.
Qed.

Lemma ipMatches_v4_witness :
  ipMatches "::ffff:10.1.2.3" "10.0.0.0/8" = true /\ ipMatches "11.1.2.3" "10.0.0.0/8" = false.
Proof.
  assert (mapped_prefix "::ffff:" /\ mapped_prefix "") as [Hm He] by (split; [right|left]; reflexivity).
  split.
  - apply (ipMatches_v4 (10 * 2^24 + 1 * 2^16 + 2 * 2^8 + 3) (10 * 2^24) 8 "::ffff:" ""); try done; lia.
  - apply (ipMatches_v4 (11 * 2^24 + 1 * 2^16 + 2 * 2^8 + 3) (10 * 2^24) 8 "" ""); try done; lia.
Defined.

Lemma hops_of_app evil observed :
  observed <> [] -> hops_of (evil :: observed) = (hops_of [evil] ++ hops_of observed)%list.
Proof.
  intros Hne. unfold hops_of.
  assert (join "," (evil :: observed) = evil +:+ String "," (join "," observed)) as -> by (by destruct observed).
  rewrite split_char_cat, map_app. apply List.filter_app.
Qed.

Lemma last_untrusted_app f l m h : last_untrusted f m = Some h -> last_untrusted f (l ++ m)%list = Some h.
Proof.
  unfold last_untrusted. rewrite reverse_app, List.filter_app.
  by destruct (List.filter _ (reverse m)).
Qed.

Lemma last_untrusted_spec f l h : last_untrusted f l = Some h -> h ∈ l /\ f h = false.
Proof.
  unfold last_untrusted. intros H.
  assert (h ∈ List.filter (fun h => negb (f h)) (reverse l)) as Hin by (destruct (List.filter _ _); simplify_eq/=; by left).
  apply list_elem_of_In, filter_In in Hin as [Hin Hf]. apply list_elem_of_In in Hin.
  rewrite elem_of_reverse in Hin. by apply negb_true_iff in Hf.
Qed.

(** A client cannot choose its own address.  Without trusted proxies, or from
    a peer that is not one, the peer's address answers whatever the header says.
    Behind a trusted proxy, once the hops the proxies appended name an untrusted
    address, the rightmost of those answers whatever the client wrote before
    them; and any answer other than the peer's address is a hop no trusted-proxy
    entry matches. *)
Theorem client_ip_not_spoofable req proxies :
  (isTrustedProxy proxies (socket_ip req) = false -> resolveClientIp req proxies = socket_ip req) /\
  (forall evil observed h,
     isTrustedProxy proxies (socket_ip req) = true -> observed <> [] ->
     last_untrusted (isTrustedProxy proxies) (hops_of observed) = Some h ->
     resolveClientIp {| remoteAddress := remoteAddress req; req_ip := req_ip req;
                        xForwardedFor := evil :: observed |} proxies = h) /\
  (resolveClientIp req proxies = socket_ip req \/
   isTrustedProxy proxies (resolveClientIp req proxies) = false /\
   resolveClientIp req proxies ∈ hops_of (xForwardedFor req)).
Proof.
  split_and!.
  - intros Ht. unfold resolveClientIp. destruct proxies as [|p ps]; [done|]. by rewrite Ht.
  - intros evil observed h Ht Hne Hh. unfold resolveClientIp. cbn [remoteAddress req_ip xForwardedFor].
    change (socket_ip {| remoteAddress := remoteAddress req; req_ip := req_ip req; xForwardedFor := evil :: observed |})
      with (socket_ip req).
    destruct proxies as [|p ps]; [done|]. rewrite Ht. cbn [negb].
    assert (join "," (evil :: observed) = evil +:+ String "," (join "," observed)) as Hj by (by destruct observed).
    destruct (String.eqb_spec (join "," (evil :: observed)) "") as [He|_].
    { rewrite Hj in He. by destruct evil. }
    rewrite hops_of_app by done. by rewrite (last_untrusted_app _ _ _ h Hh).
  - unfold resolveClientIp. destruct proxies as [|p ps]; [by left|].
    destruct (negb _); [by left|]. destruct (String.eqb _ ""); [by left|].
    destruct (last_untrusted _ _) as [h|] eqn:Hh; [right|by left].
    apply last_untrusted_spec in Hh as [? ?]. done.
Qed.

Lemma client_ip_not_spoofable_witness :
  resolveClientIp {| remoteAddress := Some "10.0.0.1"; req_ip := None;
                     xForwardedFor := ["1.1.1.1, 10.0.0.1"; "203.0.113.9:4711"; "10.0.0.2"] |} ["10.0.0.0/8"] = "203.0.113.9".
Proof.
  exact (proj1 (proj2 (client_ip_not_spoofable
    {| remoteAddress := Some "10.0.0.1"; req_ip := None; xForwardedFor := [] |} ["10.0.0.0/8"]))
    "1.1.1.1, 10.0.0.1" ["203.0.113.9:4711"; "10.0.0.2"] "203.0.113.9"
    eq_refl ltac:(discriminate) eq_refl).
Defined.
