(* ===== verification/SsrfGuard.v ===== *)
(** * The outbound fetch guard

    [src/src/common/security/ssrf-guard.ts]: the classification of addresses an
    outbound request must not reach, the vetting of a URL, and the guarded fetch
    with its redirect loop.  The URL parser, the resolver and the network are
    parameters; the classification of addresses is computed. *)
From S2P Require Import Prelude JsString IpAddr.
Local Open Scope string_scope.
Local Open Scope Z_scope.

(** ** Address ranges *)

Definition v4 (a b c d : Z) : Z := ((a * 256 + b) * 256 + c) * 256 + d.

Definition BLOCKED_V4_RANGES : list (Z * Z) :=
  [(v4 0 0 0 0, 8); (v4 10 0 0 0, 8); (v4 100 64 0 0, 10); (v4 127 0 0 0, 8); (v4 169 254 0 0, 16);
   (v4 172 16 0 0, 12); (v4 192 0 0 0, 24); (v4 192 168 0 0, 16); (v4 198 18 0 0, 15);
   (v4 224 0 0 0, 4); (v4 240 0 0 0, 4)].

Definition BLOCKED_V6_RANGES : list (list Z * Z) :=
  [([0;0;0;0;0;0;0;0], 128); ([0;0;0;0;0;0;0;1], 128); ([0;0;0;0;0;0;0;0], 3);
   ([0xfc00;0;0;0;0;0;0;0], 7); ([0xfe80;0;0;0;0;0;0;0], 10); ([0xfec0;0;0;0;0;0;0;0], 10)].

Definition GLOBAL_UNICAST_V6 : list Z * Z := ([0x2000;0;0;0;0;0;0;0], 3).

Definition BLOCKED_V4_check (a : Z) : bool :=
  existsb (fun r => in_subnet (V4 a) (V4 (fst r)) (snd r)) BLOCKED_V4_RANGES.
Definition BLOCKED_V6_check (h : list Z) : bool :=
  existsb (fun r => in_subnet (V6 h) (V6 (fst r)) (snd r)) BLOCKED_V6_RANGES.
Definition GLOBAL_UNICAST_V6_check (h : list Z) : bool :=
  in_subnet (V6 h) (V6 (fst GLOBAL_UNICAST_V6)) (snd GLOBAL_UNICAST_V6).

(** ** Expanding a literal *)

Definition hextetsToV4 (hi lo : Z) : string :=
  octet_str (Z.land (Z.shiftr hi 8) 255) +:+ "." +:+ octet_str (Z.land hi 255) +:+ "." +:+
  octet_str (Z.land (Z.shiftr lo 8) 255) +:+ "." +:+ octet_str (Z.land lo 255).

Definition hex_char (d : Z) : ascii := ascii_of_N (Z.to_N (if d <? 10 then d + 48 else d + 87)).

(** [n.toString(16)] for a 16-bit [n]. *)
Definition to_hex (n : Z) : string :=
  if n <? 16 then String (hex_char n) ""
  else if n <? 256 then String (hex_char (n / 16)) (String (hex_char (n mod 16)) "")
  else if n <? 4096 then
    String (hex_char (n / 256)) (String (hex_char (n / 16 mod 16)) (String (hex_char (n mod 16)) ""))
  else
    String (hex_char (n / 4096)) (String (hex_char (n / 256 mod 16))
      (String (hex_char (n / 16 mod 16)) (String (hex_char (n mod 16)) ""))).

(** The longest suffix of at most three digits, and what precedes it. *)
Fixpoint digit_tail (s : string) : string * string :=
  if all_chars is_digit s && (String.length s <=? 3)%nat then ("", s)
  else match s with
       | EmptyString => ("", "")
       | String c r => let '(p, t) := digit_tail r in (String c p, t)
       end.

(** [s.match(/(\d{1,3})\.(\d{1,3})\.(\d{1,3})\.(\d{1,3})$/)]: what precedes the
    match and its four groups. *)
Definition dotted_tail (s : string) : option (string * (string * string * string * string)) :=
  match rsplit "." s with
  | Some (s1, d) =>
      match rsplit "." s1 with
      | Some (s2, c) =>
          match rsplit "." s2 with
          | Some (s3, b) =>
              let '(pre, a) := digit_tail s3 in
              if short_digits d && short_digits c && short_digits b && short_digits a
              then Some (pre, (a, b, c, d)) else None
          | None => None
          end
      | None => None
      end
  | None => None
  end.

(** The hextets of a literal already split at ["::"], its compressed run filled
    with zeros. *)
Definition expand_halves (halves : list string) : option (list Z) :=
  if (2 <? length halves)%nat then None
  else
    let head := groups_of (nth 0 halves "") in
    let tail := if (length halves =? 2)%nat then groups_of (nth 1 halves "") else [] in
    let gap := (8 - length head - length tail)%nat in
    if (if (length halves =? 1)%nat then negb (length head =? 8)%nat
        else (8 <=? length head + length tail)%nat) then None
    else
      let parts := (head ++ replicate gap "0" ++ tail)%list in
      if (length parts =? 8)%nat then mapM hextet parts else None.

(** [expandIPv6], on a lowered literal: a trailing dotted IPv4 is folded into two
    hexadecimal groups first. *)
Definition expandIPv6 (lower : string) : option (list Z) :=
  match dotted_tail lower with
  | Some (pre, (a, b, c, d)) =>
      let '(a, b, c, d) := (digits_val 0 a, digits_val 0 b, digits_val 0 c, digits_val 0 d) in
      if existsb (fun o => 255 <? o) [a; b; c; d] then None
      else expand_halves (split_dcolon
             (pre +:+ to_hex (Z.lor (Z.shiftl a 8) b) +:+ ":" +:+ to_hex (Z.lor (Z.shiftl c 8) d)))
  | None => expand_halves (split_dcolon lower)
  end.

(** ** The ladder *)

(** [every] of the first six hextets and the rest of the ladder's tests. *)
Definition is_6to4 (h : list Z) : bool := nth 0 h 0 =? 0x2002.
Definition is_nat64 (h : list Z) : bool :=
  (nth 0 h 0 =? 0x64) && (nth 1 h 0 =? 0xff9b) && (nth 2 h 0 <=? 1) && (nth 3 h 0 =? 0) &&
  (nth 4 h 0 =? 0) && (nth 5 h 0 =? 0).
Definition is_compat (h : list Z) : bool :=
  forallb (fun x => x =? 0) (take 6 h) && negb (Z.lor (nth 6 h 0) (nth 7 h 0) =? 0).
Definition is_translatable (h : list Z) : bool :=
  (nth 0 h 0 =? 0) && (nth 1 h 0 =? 0) && (nth 2 h 0 =? 0) && (nth 3 h 0 =? 0) &&
  (nth 4 h 0 =? 0xffff) && (nth 5 h 0 =? 0).
Definition is_mapped (h : list Z) : bool :=
  (nth 0 h 0 =? 0) && (nth 1 h 0 =? 0) && (nth 2 h 0 =? 0) && (nth 3 h 0 =? 0) &&
  (nth 4 h 0 =? 0) && (nth 5 h 0 =? 0xffff).

(** The embedded IPv4 of [::ffff:] read off the text, dotted or in hextets. *)
Definition mapped_text (lower : string) : option string :=
  if startsWith lower "::ffff:" then
    let tail := drop_chars 7 lower in
    if dotted_shape tail then Some tail
    else match split_char ":" tail with
         | [hi; lo] =>
             match hextet hi, hextet lo with
             | Some hi, Some lo => Some (hextetsToV4 hi lo)
             | _, _ => None
             end
         | _ => None
         end
  else None.

(** The embedded IPv4 the expanded hextets carry, in the ladder's order. *)
Definition embedded (h : list Z) : option string :=
  if is_6to4 h then Some (hextetsToV4 (nth 1 h 0) (nth 2 h 0))
  else if is_nat64 h then Some (hextetsToV4 (nth 6 h 0) (nth 7 h 0))
  else if is_compat h then Some (hextetsToV4 (nth 6 h 0) (nth 7 h 0))
  else if is_translatable h then Some (hextetsToV4 (nth 6 h 0) (nth 7 h 0))
  else if is_mapped h then Some (hextetsToV4 (nth 6 h 0) (nth 7 h 0))
  else None.

(** [isBlockedAddress].  Every recursive call is on a dotted string, which is not
    an IPv6 literal, so two levels are enough ([isBlocked_depth]). *)
Fixpoint isBlocked (depth : nat) (ip : string) : bool :=
  match depth with
  | O => true
  | S depth' =>
      match parse_v4 ip with
      | Some a => BLOCKED_V4_check a
      | None =>
          match parse_v6 ip with
          | None => true
          | Some _ =>
              let lower := toLowerCase ip in
              match mapped_text lower with
              | Some v => isBlocked depth' v
              | None =>
                  match (match expandIPv6 lower with Some h => embedded h | None => None end) with
                  | Some v => isBlocked depth' v
                  | None =>
                      match parse_v6 lower with
                      | Some h => BLOCKED_V6_check h || negb (GLOBAL_UNICAST_V6_check h)
                      | None => true
                      end
                  end
              end
          end
      end
  end.

Definition isBlockedAddress (ip : string) : bool := isBlocked 2 ip.

(** ** Vetting a URL *)

(** What the guard reads of the URL parser's result. *)
Record Url := mkUrl { protocol : string; hostname : string; origin : string }.

(** A failure: the guard's own error, or another one (too many redirects, a
    downgrade, a transport error, the caller's abort). *)
Inductive FetchError := SsrfBlockedError (msg : string) | OtherError (msg : string).

(** [host.replace(/^\[|\]$/g, '')] *)
Definition strip_open (h : string) : string := match h with String "[" r => r | _ => h end.
Fixpoint strip_close (h : string) : string :=
  match h with
  | EmptyString => ""
  | String c r => match r with EmptyString => if Ascii.eqb c "]" then "" else h | _ => String c (strip_close r) end
  end.
Definition strip_brackets (h : string) : string := strip_close (strip_open h).

Definition allowedHostEntries (env : option string) : list string :=
  map (fun h => toLowerCase (strip_brackets (trim h))) (split_char "," (default "" env)).

Definition getAllowedHosts (env : option string) : list string :=
  List.filter (fun e => negb (String.eqb e "")) (allowedHostEntries env).

Definition is_literal (host : string) : bool := bool_decide (is_Some (parse_ip host)).

Section Fetch.
(** [new URL(rawUrl)] and [new URL(location, base).toString()] *)
Variable parseUrl : string -> option Url.
Variable resolveUrl : string -> string -> option string.
(** [lookupWithDeadline] at the [n]-th request of a fetch: the resolver may
    answer differently each time. *)
Variable lookup : nat -> string -> result FetchError (list string).
(** [SSRF_ALLOWED_HOSTS] *)
Variable allowedEnv : option string.

(** [resolveSafeFetchTarget]: the addresses to pin, [None] for a literal. *)
Definition resolveSafeFetchTarget (n : nat) (rawUrl : string) : result FetchError (option (list string)) :=
  match parseUrl rawUrl with
  | None => Err (SsrfBlockedError ("Invalid URL: " +:+ rawUrl))
  | Some url =>
      if negb (String.eqb (protocol url) "http:" || String.eqb (protocol url) "https:")
      then Err (SsrfBlockedError ("Blocked URL scheme: " +:+ protocol url))
      else
        let host := strip_brackets (hostname url) in
        if bool_decide (toLowerCase host ∈ getAllowedHosts allowedEnv)
        then (let* l := lookup n host in Ok (Some l))%result
        else if is_literal host then
          if isBlockedAddress host then Err (SsrfBlockedError ("Blocked internal address: " +:+ host)) else Ok None
        else
          (let* resolved := lookup n host in
           if (length resolved =? 0)%nat then Err (SsrfBlockedError ("Could not resolve host: " +:+ host))
           else if existsb isBlockedAddress resolved
           then Err (SsrfBlockedError ("Host " +:+ host +:+ " resolves to a blocked internal address"))
           else Ok (Some resolved))%result
  end.

(** ** The guarded fetch *)

(** What of a request's init the redirect loop rewrites. *)
Record Init := mkInit { method : option string; body : option string; headers : option (list (string * string)) }.

Record Response := mkResponse { status : Z; opaqueRedirect : bool; location : option string }.

(** A request put on the wire: its URL, its init, and the addresses the
    connection is pinned to ([None]: straight to the literal). *)
Record Request := mkRequest { rq_url : string; rq_init : Init; rq_target : option (list string) }.

(** The network, at the [n]-th request of a fetch. *)
Variable send : nat -> Request -> result FetchError Response.
(** [PLUGIN_DOWNLOAD_ALLOW_INSECURE_REDIRECTS] *)
Variable insecureHopAllowed : bool.

Definition REDIRECT_STATUSES : list Z := [301; 302; 303; 307; 308].
Definition MAX_REDIRECT_HOPS : nat := 5.

Definition assertNoRedirect (r : Response) (url : string) : result FetchError unit :=
  if opaqueRedirect r || ((300 <=? status r) && (status r <? 400))
  then Err (SsrfBlockedError ("Refusing to follow redirect from " +:+ url)) else Ok tt.

Definition drop_header (name : string) (h : list (string * string)) : list (string * string) :=
  List.filter (fun e => negb (String.eqb (toLowerCase (fst e)) name)) h.

Definition nextRedirectHopInit (init : Init) (st : Z) (nextOrigin initialOrigin : string) : Init :=
  let next :=
    match method init with
    | Some m =>
        if negb (st =? 307) && negb (st =? 308) && negb (String.eqb m "GET") && negb (String.eqb m "HEAD")
        then mkInit (Some "GET") None (headers init) else init
    | None => init
    end in
  if negb (String.eqb nextOrigin initialOrigin) then
    match headers next with
    | Some h => mkInit (method next) (body next) (Some (drop_header "cookie" (drop_header "authorization" h)))
    | None => next
    end
  else next.

(** The redirect loop from hop [hop]: the requests sent, in order, and the
    response handed to [use] or the error.  [fuel] bounds the hops; the loop
    itself stops after [MAX_REDIRECT_HOPS] redirects. *)
Fixpoint followLoop (fuel hop : nat) (currentUrl : string) (initialOrigin : option string) (hopInit : Init)
    (sawSecureHop : bool) : list Request * result FetchError Response :=
  match fuel with
  | O => ([], Err (OtherError "fuel"))
  | S fuel' =>
      match resolveSafeFetchTarget hop currentUrl, parseUrl currentUrl with
      | Err e, _ => ([], Err e)
      | Ok _, None => ([], Err (OtherError "unreachable"))
      | Ok target, Some current =>
          let origin0 := default (origin current) initialOrigin in
          if String.eqb (protocol current) "http:" && sawSecureHop && negb insecureHopAllowed
          then ([], Err (OtherError ("Refusing redirect that downgrades from https to http: " +:+ currentUrl)))
          else
            let sawSecureHop' := sawSecureHop || String.eqb (protocol current) "https:" in
            let request := mkRequest currentUrl hopInit target in
            match send hop request with
            | Err e => ([request], Err e)
            | Ok response =>
                if negb (bool_decide (status response ∈ REDIRECT_STATUSES)) then ([request], Ok response)
                else match location response with
                     | None => ([request], Err (SsrfBlockedError ("Redirect from " +:+ currentUrl +:+ " carried no Location header")))
                     | Some loc =>
                         if String.eqb loc "" then
                           ([request], Err (SsrfBlockedError ("Redirect from " +:+ currentUrl +:+ " carried no Location header")))
                         else if (MAX_REDIRECT_HOPS <=? hop)%nat
                         then ([request], Err (OtherError "Too many redirects while fetching"))
                         else match resolveUrl loc currentUrl with
                              | None => ([request], Err (OtherError "Invalid URL"))
                              | Some nextUrl =>
                                  match parseUrl nextUrl with
                                  | None => ([request], Err (OtherError "Invalid URL"))
                                  | Some next =>
                                      let '(sent, out) :=
                                        followLoop fuel' (S hop) nextUrl (Some origin0)
                                          (nextRedirectHopInit hopInit (status response) (origin next) origin0)
                                          sawSecureHop' in
                                      (request :: sent, out)
                                  end
                              end
                     end
            end
      end
  end.

(** [withSafeFetch] with the guard on. *)
Definition withSafeFetch (rawUrl : string) (init : Init) (followRedirects : bool) :
    list Request * result FetchError Response :=
  if followRedirects then followLoop (S MAX_REDIRECT_HOPS) 0 rawUrl None init false
  else
    match resolveSafeFetchTarget 0 rawUrl with
    | Err e => ([], Err e)
    | Ok target =>
        let request := mkRequest rawUrl init target in
        match send 0 request with
        | Err e => ([request], Err e)
        | Ok response =>
            ([request], (let* _ := assertNoRedirect response rawUrl in Ok response)%result)
        end
    end.
End Fetch.

(** ** Classification by value *)

(** The 32-bit address an embedding form carries. *)
Definition embedded_v4 (h : list Z) : option Z :=
  if is_6to4 h then Some (nth 1 h 0 * 65536 + nth 2 h 0)
  else if is_nat64 h || is_compat h || is_translatable h || is_mapped h
  then Some (nth 6 h 0 * 65536 + nth 7 h 0) else None.

(** What must not be reached, as a function of the address alone. *)
Definition forbidden (x : IpAddr) : bool :=
  match x with
  | V4 a => BLOCKED_V4_check a
  | V6 h =>
      match embedded_v4 h with
      | Some a => BLOCKED_V4_check a
      | None => BLOCKED_V6_check h || negb (GLOBAL_UNICAST_V6_check h)
      end
  end.

Definition is_hextet (x : Z) : Prop := 0 <= x < 65536.

(** *** Embedded addresses *)

Lemma hextetsToV4_print hi lo : is_hextet hi -> is_hextet lo -> hextetsToV4 hi lo = print_v4 (hi * 65536 + lo).
Proof.
  unfold is_hextet. intros Hh Hl. unfold hextetsToV4, print_v4.
  rewrite !Z.shiftr_div_pow2 by lia. change 255 with (Z.ones 8). rewrite !Z.land_ones by lia. change (2 ^ 8) with 256.
  assert ((hi * 65536 + lo) / 16777216 = (hi / 256) mod 256) as -> by (Z.to_euclidean_division_equations; lia).
  assert ((hi * 65536 + lo) / 65536 mod 256 = hi mod 256) as -> by (Z.to_euclidean_division_equations; lia).
  assert ((hi * 65536 + lo) / 256 mod 256 = (lo / 256) mod 256) as -> by (Z.to_euclidean_division_equations; lia).
  assert ((hi * 65536 + lo) mod 256 = lo mod 256) as -> by (Z.to_euclidean_division_equations; lia).
  done.
Qed.

Lemma parse_hextetsToV4 hi lo : is_hextet hi -> is_hextet lo -> parse_v4 (hextetsToV4 hi lo) = Some (hi * 65536 + lo).
Proof. intros Hh Hl. rewrite hextetsToV4_print by done. apply parse_print_v4. unfold is_hextet in *. lia. Qed.

Lemma hex_val_range c x : hex_val c = Some x -> 0 <= x < 16.
Proof. unfold hex_val. repeat case_match; intros [= <-]; bool_facts; lia. Qed.

Lemma hex_digits_range s acc x :
  0 <= acc -> hex_digits acc s = Some x -> 0 <= x < (acc + 1) * 16 ^ Z.of_nat (String.length s).
Proof.
  revert acc. induction s as [|c s IH]; intros acc Ha H.
  - simpl in H. injection H as <-. simpl. lia.
  - cbn [hex_digits] in H. destruct (hex_val c) as [d|] eqn:Hd; [|done]. apply hex_val_range in Hd.
    apply IH in H; [|lia]. cbn [String.length]. rewrite Nat2Z.inj_succ, Z.pow_succ_r by lia. nia.
Qed.

Lemma hextet_range s x : hextet s = Some x -> is_hextet x.
Proof.
  unfold hextet, is_hextet. destruct (_ && _) eqn:Hl; [|done]. intros Hx. bool_facts.
  apply hex_digits_range in Hx; [|lia].
  assert (16 ^ Z.of_nat (String.length s) <= 16 ^ 4) by (apply Z.pow_le_mono_r; lia).
  change (16 ^ 4) with 65536 in *. lia.
Qed.

Lemma v4_segment_range s x : v4_segment s = Some x -> 0 <= x < 256.
Proof.
  unfold v4_segment. case_match eqn:E; [|done]. intros [= <-]. bool_facts. split; [|lia].
  assert (forall s acc, all_chars is_digit s = true -> 0 <= acc -> 0 <= digits_val acc s) as Hd.
  { clear. induction s as [|c s IH]; intros acc Hs Ha; simpl in *; [done|]. bool_facts. apply IH; [done|].
    unfold is_digit in *. bool_facts. unfold digit_val. lia. }
  unfold short_digits in *. bool_facts. apply Hd; [done|lia].
Qed.

Lemma parse_v4_range s a : parse_v4 s = Some a -> 0 <= a < 2^32.
Proof.
  unfold parse_v4. destruct (split_char "." s) as [|x [|y [|z [|w [|]]]]]; try done. intros H.
  destruct (v4_segment x) eqn:E1; [|done]. destruct (v4_segment y) eqn:E2; [|done].
  destruct (v4_segment z) eqn:E3; [|done]. destruct (v4_segment w) eqn:E4; [|done]. simpl in H. injection H as <-.
  apply v4_segment_range in E1, E2, E3, E4. lia.
Qed.

Lemma v6_groups_range b l gs : v6_groups b l = Some gs -> Forall is_hextet gs.
Proof.
  revert gs. induction l as [|g l IH]; intros gs H; [injection H as <-; constructor|].
  cbn [v6_groups] in H. destruct l as [|g' l].
  - destruct (hextet g) eqn:E; [injection H as <-; repeat constructor; by eapply hextet_range|].
    destruct b; [|done]. destruct (parse_v4 g) as [a|] eqn:Ea; [|done]. simpl in H. injection H as <-.
    apply parse_v4_range in Ea. repeat constructor; unfold is_hextet; Z.to_euclidean_division_equations; lia.
  - destruct (hextet g) eqn:E; [|done]. destruct (v6_groups b (g' :: l)) eqn:Er; [|done].
    simpl in H. injection H as <-. constructor; [by eapply hextet_range|by apply IH].
Qed.

Lemma parse_v6_range s h : parse_v6 s = Some h -> length h = 8%nat /\ Forall is_hextet h.
Proof.
  unfold parse_v6. destruct (split_dcolon s) as [|a [|b [|]]]; try done.
  - destruct (v6_groups true (split_char ":" a)) eqn:E; [|done]. simpl. case_match; [|done]. intros [= <-].
    bool_facts. split; [done|by eapply v6_groups_range].
  - destruct (v6_groups false (groups_of a)) as [x|] eqn:E1; [|done].
    destruct (v6_groups true (groups_of b)) as [t|] eqn:E2; [|done]. simpl. case_match eqn:Hl; [|done]. intros [= <-].
    bool_facts. split; [rewrite !length_app, length_replicate; lia|].
    apply Forall_app; split; [by eapply v6_groups_range|]. apply Forall_app; split; [|by eapply v6_groups_range].
    apply Forall_replicate. unfold is_hextet. lia.
Qed.

(** *** Case *)

Definition case_free (c : ascii) : Prop := forall d, Ascii.eqb (lower_char d) c = Ascii.eqb d c.

Lemma case_free_colon : case_free ":".
Proof. intros c. by destruct c as [[] [] [] [] [] [] [] []]. Qed.
Lemma case_free_dot : case_free ".".
Proof. intros c. by destruct c as [[] [] [] [] [] [] [] []]. Qed.

Lemma split_char_lower c s : case_free c -> split_char c (toLowerCase s) = map toLowerCase (split_char c s).
Proof.
  intros Hc. induction s as [|d s IH]; cbn [toLowerCase split_char]; [done|]. rewrite Hc, IH.
  destruct (Ascii.eqb d c); [done|]. by destruct (split_char_nonempty c s) as (h & t & ->).
Qed.

Lemma hex_val_lower c : hex_val (lower_char c) = hex_val c.
Proof. by destruct c as [[] [] [] [] [] [] [] []]. Qed.

Lemma hextet_lower s : hextet (toLowerCase s) = hextet s.
Proof.
  unfold hextet. rewrite length_lower. case_match; [|done]. generalize 0 as acc.
  clear. induction s as [|c s IH]; intros acc; cbn [toLowerCase hex_digits]; [done|]. rewrite hex_val_lower.
  case_match; auto.
Qed.

Lemma is_digit_lower c : is_digit (lower_char c) = is_digit c.
Proof. by destruct c as [[] [] [] [] [] [] [] []]. Qed.

Lemma all_digits_lower s : all_chars is_digit (toLowerCase s) = all_chars is_digit s.
Proof. induction s as [|c s IH]; simpl; [done|]. by rewrite is_digit_lower, IH. Qed.

Lemma short_digits_lower s : short_digits (toLowerCase s) = short_digits s.
Proof. unfold short_digits. by rewrite all_digits_lower, length_lower. Qed.

Lemma v4_segment_lower s : v4_segment (toLowerCase s) = v4_segment s.
Proof.
  unfold v4_segment. rewrite short_digits_lower. destruct (short_digits s) eqn:E; [|done].
  unfold short_digits in E. bool_facts. by rewrite lower_digits.
Qed.

Lemma parse_v4_lower s : parse_v4 (toLowerCase s) = parse_v4 s.
Proof.
  unfold parse_v4. rewrite split_char_lower by apply case_free_dot.
  destruct (split_char "." s) as [|x [|y [|z [|w [|]]]]]; try done. simpl. by rewrite !v4_segment_lower.
Qed.

Lemma v6_groups_lower b l : v6_groups b (map toLowerCase l) = v6_groups b l.
Proof.
  induction l as [|g l IH]; [done|]. destruct l as [|g' l].
  - cbn [map v6_groups]. by rewrite hextet_lower, parse_v4_lower.
  - change (map toLowerCase (g :: g' :: l)) with (toLowerCase g :: map toLowerCase (g' :: l)).
    cbn [v6_groups]. cbn [map] in *. by rewrite hextet_lower, IH.
Qed.

(** Induction in steps of one or two characters. *)
Lemma string_ind2 (P : string -> Prop) :
  P "" -> (forall c, P (String c "")) -> (forall c d r, P r -> P (String d r) -> P (String c (String d r))) -> forall s, P s.
Proof.
  intros H0 H1 H2. assert (forall s, P s /\ forall c, P (String c s)) as H; [|intros s; by destruct (H s)].
  induction s as [|d s [IH1 IH2]]; [auto|]. split; [apply IH2|]. intros c. by apply H2.
Qed.

Lemma split_dcolon_nonempty s : exists h t, split_dcolon s = h :: t.
Proof.
  induction s as [|c|c d r (h1 & t1 & E1) (h2 & t2 & E2)] using string_ind2; [simpl; eauto|simpl; eauto|].
  cbn [split_dcolon]. destruct (Ascii.eqb c ":" && Ascii.eqb d ":"); [eauto|].
  cbn [split_dcolon] in E2. rewrite E2. eauto.
Qed.

Lemma split_dcolon_step c d r :
  split_dcolon (String c (String d r)) =
  if Ascii.eqb c ":" && Ascii.eqb d ":" then "" :: split_dcolon r
  else match split_dcolon (String d r) with h :: t => String c h :: t | [] => [String c ""] end.
Proof. done. Qed.

Lemma split_dcolon_lower s : split_dcolon (toLowerCase s) = map toLowerCase (split_dcolon s).
Proof.
  induction s as [|c|c d r IH1 IH2] using string_ind2; [done|done|].
  cbn [toLowerCase] in *. rewrite !split_dcolon_step, IH1, IH2, !case_free_colon.
  destruct (Ascii.eqb c ":" && Ascii.eqb d ":"); [done|].
  by destruct (split_dcolon_nonempty (String d r)) as (h & t & ->).
Qed.

Lemma groups_of_lower s : groups_of (toLowerCase s) = map toLowerCase (groups_of s).
Proof.
  unfold groups_of. destruct s as [|c s]; [done|].
  destruct (String.eqb_spec (toLowerCase (String c s)) ""); [done|]. destruct (String.eqb_spec (String c s) ""); [done|].
  apply split_char_lower, case_free_colon.
Qed.

Lemma parse_v6_lower s : parse_v6 (toLowerCase s) = parse_v6 s.
Proof.
  unfold parse_v6. rewrite split_dcolon_lower.
  destruct (split_dcolon s) as [|a [|b [|]]]; simpl; try done.
  - by rewrite split_char_lower, v6_groups_lower by apply case_free_colon.
  - by rewrite !groups_of_lower, !v6_groups_lower.
Qed.

(** *** Splitting and joining *)

Lemma join_split_char c s : join (String c "") (split_char c s) = s.
Proof.
  induction s as [|d s IH]; [done|]. cbn [split_char].
  destruct (split_char_nonempty c s) as (h & t & E). rewrite E in *.
  destruct (Ascii.eqb_spec d c) as [->|Hne].
  - change (String c (join (String c "") (h :: t)) = String c s). by rewrite IH.
  - rewrite <- IH. by destruct t.
Qed.

Lemma join_split_dcolon s : join "::" (split_dcolon s) = s.
Proof.
  induction s as [|c|c d r IH1 IH2] using string_ind2; [done|done|]. rewrite split_dcolon_step.
  destruct (Ascii.eqb_spec c ":") as [->|Hc], (Ascii.eqb_spec d ":") as [->|Hd]; cbn [andb].
  - destruct (split_dcolon_nonempty r) as (h & t & E). rewrite E in *.
    change (String ":" (String ":" (join "::" (h :: t))) = String ":" (String ":" r)). by rewrite IH1.
  - rewrite <- IH2 at 2. by destruct (split_dcolon_nonempty (String d r)) as (h & [|] & ->).
  - rewrite <- IH2 at 2. by destruct (split_dcolon_nonempty (String ":" r)) as (h & [|] & ->).
  - rewrite <- IH2 at 2. by destruct (split_dcolon_nonempty (String d r)) as (h & [|] & ->).
Qed.

(** Append to the last element. *)
Fixpoint app_last (g : string) (l : list string) : list string :=
  match l with
  | [] => [g]
  | [x] => [x +:+ g]
  | x :: r => x :: app_last g r
  end.

Lemma app_last_snoc g ts x : app_last g (ts ++ [x]) = (ts ++ [x +:+ g])%list.
Proof. induction ts as [|t ts IH]; [done|]. simpl. rewrite IH. by destruct ts. Qed.

Lemma app_last_inj1 g l y : l <> [] -> app_last g l = [y +:+ g] -> l = [y].
Proof.
  destruct l as [|x [|x' l]]; [done| |by destruct l]. intros _ [= H]. f_equal. by eapply append_inj_r.
Qed.

Lemma app_last_inj2 g l a y : l <> [] -> app_last g l = [a; y +:+ g] -> l = [a; y].
Proof.
  destruct l as [|x [|x' l]]; [done|done|]. intros _ [= -> H].
  apply (app_last_inj1 g (x' :: l)) in H; [by rewrite H|done].
Qed.

Lemma split_char_app_last c y g : has_char c g = false -> split_char c (y +:+ g) = app_last g (split_char c y).
Proof.
  intros Hg. induction y as [|d y IH]; [by apply split_char_none|]. rewrite append_cons. cbn [split_char].
  rewrite IH. destruct (split_char_nonempty c y) as (h & t & ->).
  destruct (Ascii.eqb d c); by destruct t.
Qed.

Lemma split_dcolon_app p d g :
  d <> ":"%char -> split_dcolon (String d g) = [String d g] ->
  split_dcolon (p +:+ String d g) = app_last (String d g) (split_dcolon p).
Proof.
  intros Hd Hg. induction p as [|c|c e r IH1 IH2] using string_ind2; [done| |].
  - rewrite append_cons. change ("" +:+ String d g) with (String d g). rewrite split_dcolon_step, Hg.
    rewrite (proj2 (Ascii.eqb_neq d ":") Hd), andb_false_r. done.
  - rewrite !append_cons in *. rewrite !split_dcolon_step, IH1, IH2.
    destruct (split_dcolon_nonempty r) as (h & t & E1), (split_dcolon_nonempty (String e r)) as (h' & t' & E2).
    rewrite E1, E2. destruct (_ && _); [done|by destruct t'].
Qed.

Lemma split_dcolon_none g : has_char ":" g = false -> split_dcolon g = [g].
Proof.
  induction g as [|c|c d r IH1 IH2] using string_ind2; [done|done|]. intros H.
  rewrite split_dcolon_step, IH2 by (by apply orb_false_iff in H as [_ ?]).
  apply orb_false_iff in H as [-> _]. done.
Qed.

Lemma split_dcolon_single u : has_char ":" u = false -> split_dcolon (u +:+ ":") = [u +:+ ":"].
Proof.
  induction u as [|c|c d r IH1 IH2] using string_ind2; [done|by intros H; simpl; rewrite andb_true_r; apply orb_false_iff in H as [-> _]|].
  intros H. apply orb_false_iff in H as [Hc Hr]. rewrite !append_cons in *. rewrite split_dcolon_step, IH2 by done.
  by rewrite Hc.
Qed.

(** The last piece of a split, cut off. *)
Lemma split_char_last c x ts g : split_char c x = (ts ++ [g])%list ->
  exists y, x = y +:+ g /\ split_char c y = (ts ++ [""])%list /\ has_char c g = false /\
    (y = "" \/ exists y', y = y' +:+ String c "").
Proof.
  revert ts g. induction x as [|d x IH]; intros ts g H; cbn [split_char] in H.
  - destruct ts as [|? [|]]; simplify_eq/=. exists "". auto.
  - destruct (split_char_nonempty c x) as (h & t & E). destruct (Ascii.eqb_spec d c) as [->|Hne].
    + destruct ts as [|t0 ts]; [rewrite E in H; by simplify_eq/=|]. injection H as <- H2.
      destruct (IH ts g H2) as (y & -> & Hy & Hg & Hend). exists (String c y). rewrite append_cons. cbn [split_char].
      rewrite Ascii.eqb_refl, Hy. split_and!; [done|done|done|]. right.
      destruct Hend as [->|(y' & ->)]; [by exists ""|by exists (String c y')].
    + rewrite E in H, IH. destruct ts as [|t0 ts].
      * simplify_eq/=. exists "". pose proof (split_char_head_no _ _ _ _ E) as Hn.
        pose proof (join_split_char c x) as Hx. rewrite E in Hx. simpl in Hx. subst x.
        split_and!; [done|done| |by left]. simpl. by rewrite (proj2 (Ascii.eqb_neq d c) Hne).
      * simplify_eq/=. destruct (IH (h :: ts) g eq_refl) as (y & -> & Hy & Hg & Hend). exists (String d y).
        rewrite append_cons. cbn [split_char]. rewrite (proj2 (Ascii.eqb_neq d c) Hne), Hy. split_and!; [done|done|done|].
        right. destruct Hend as [->|(y' & ->)]; [|by exists (String d y')].
        simpl in Hy. by destruct ts.
Qed.

(** *** The dotted tail *)

Lemma digit_not_colon c : is_digit c = true -> c <> ":"%char.
Proof. by intros H ->. Qed.

Lemma all_digits_app_colon p a : all_chars is_digit ((p +:+ ":") +:+ a) = false.
Proof. induction p as [|c p IH]; [done|]. rewrite !append_cons. cbn [all_chars]. by rewrite IH, andb_false_r. Qed.

Lemma digit_tail_unfold s : digit_tail s =
  if all_chars is_digit s && (String.length s <=? 3)%nat then ("", s)
  else match s with EmptyString => ("", "") | String c r => let '(p, t) := digit_tail r in (String c p, t) end.
Proof. by destruct s. Qed.

Lemma digit_tail_digits a : short_digits a = true -> digit_tail a = ("", a).
Proof.
  intros H. unfold short_digits in H. bool_facts. rewrite digit_tail_unfold, H. cbn [andb].
  by rewrite (proj2 (Nat.leb_le _ _)) by done.
Qed.

Lemma digit_tail_app p a :
  short_digits a = true -> p = "" \/ (exists p', p = p' +:+ ":") -> digit_tail (p +:+ a) = (p, a).
Proof.
  intros Ha [->|(p' & ->)]; [by apply digit_tail_digits|].
  induction p' as [|c p IH].
  - change (("" +:+ ":") +:+ a) with (String ":" a). rewrite digit_tail_unfold. simpl.
    by rewrite digit_tail_digits.
  - rewrite !append_cons in *. rewrite digit_tail_unfold. cbn [all_chars].
    rewrite all_digits_app_colon, andb_false_r. cbn [andb]. by rewrite IH.
Qed.

Lemma v4_segment_short s n : v4_segment s = Some n -> short_digits s = true /\ digits_val 0 s = n /\ n <= 255.
Proof. unfold v4_segment. case_match eqn:E; [|done]. intros [= <-]. bool_facts. auto. Qed.

Lemma short_digits_no_dot s : short_digits s = true -> has_char "." s = false.
Proof. unfold short_digits. intros H. bool_facts. by apply all_digits_no. Qed.

Lemma lor_shiftl_add x y : 0 <= x -> 0 <= y < 256 -> Z.lor (Z.shiftl x 8) y = x * 256 + y.
Proof.
  intros Hx Hy. assert (Z.land (Z.shiftl x 8) y = 0) as Hl.
  { apply Z.bits_inj'. intros i Hi. rewrite Z.land_spec, Z.bits_0, Z.shiftl_spec by done.
    destruct (Z.ltb_spec i 8); [by rewrite Z.testbit_neg_r by lia|].
    destruct (Z.eq_dec y 0) as [->|]; [by rewrite Z.bits_0, andb_false_r|].
    rewrite (Z.bits_above_log2 y i), andb_false_r; [done|lia|].
    assert (Z.log2 y < 8) by (apply Z.log2_lt_pow2; lia). lia. }
  rewrite <- Z.lxor_lor, <- Z.add_nocarry_lxor by done. by rewrite Z.shiftl_mul_pow2 by lia.
Qed.

(** A valid IPv4 ending, after nothing or a colon, is what the pattern finds. *)
Lemma dotted_tail_v4 p g n :
  parse_v4 g = Some n -> p = "" \/ (exists p', p = p' +:+ ":") ->
  exists a b c d, dotted_tail (p +:+ g) = Some (p, (a, b, c, d)) /\
    existsb (fun o => 255 <? o) [digits_val 0 a; digits_val 0 b; digits_val 0 c; digits_val 0 d] = false /\
    Z.lor (Z.shiftl (digits_val 0 a) 8) (digits_val 0 b) = n / 65536 /\
    Z.lor (Z.shiftl (digits_val 0 c) 8) (digits_val 0 d) = n mod 65536.
Proof.
  intros Hg Hp. unfold parse_v4 in Hg. pose proof (join_split_char "." g) as Hj.
  destruct (split_char "." g) as [|a [|b [|c [|d [|]]]]]; try done.
  destruct (v4_segment a) as [va|] eqn:Ea; [|done]. destruct (v4_segment b) as [vb|] eqn:Eb; [|done].
  destruct (v4_segment c) as [vc|] eqn:Ec; [|done]. destruct (v4_segment d) as [vd|] eqn:Ed; [|done].
  simpl in Hg. injection Hg as <-.
  pose proof (v4_segment_range _ _ Ea). pose proof (v4_segment_range _ _ Eb).
  pose proof (v4_segment_range _ _ Ec). pose proof (v4_segment_range _ _ Ed).
  apply v4_segment_short in Ea as (Sa & Va & _), Eb as (Sb & Vb & _), Ec as (Sc & Vc & _), Ed as (Sd & Vd & _).
  assert (p +:+ g = (((p +:+ a) +:+ String "." b) +:+ String "." c) +:+ String "." d) as ->.
  { rewrite <- Hj. cbn [join]. rewrite !append_assoc. done. }
  exists a, b, c, d. unfold dotted_tail.
  rewrite !rsplit_app by (by apply short_digits_no_dot). rewrite digit_tail_app by done.
  rewrite Sa, Sb, Sc, Sd, Va, Vb, Vc, Vd. split_and!; [done| | |].
  - cbn [existsb]. rewrite !(proj2 (Z.ltb_ge _ _)) by lia. done.
  - rewrite lor_shiftl_add by lia. Z.to_euclidean_division_equations; lia.
  - rewrite lor_shiftl_add by lia. Z.to_euclidean_division_equations; lia.
Qed.

(** *** Hexadecimal printing *)

Lemma hex_char_facts d : 0 <= d < 16 -> hex_val (hex_char d) = Some d /\ Ascii.eqb (hex_char d) ":" = false.
Proof.
  intros H. assert (forallb (fun d => bool_decide (hex_val (hex_char d) = Some d) && negb (Ascii.eqb (hex_char d) ":"))
    (map Z.of_nat (seq 0 16)) = true) as Hall by reflexivity.
  rewrite forallb_forall in Hall. specialize (Hall d). rewrite in_map_iff in Hall.
  assert (exists x, Z.of_nat x = d /\ In x (seq 0 16)) as Hd by (exists (Z.to_nat d); split; [lia|apply in_seq; lia]).
  specialize (Hall Hd). by bool_facts.
Qed.

Lemma to_hex_facts n : is_hextet n ->
  hextet (to_hex n) = Some n /\ has_char ":" (to_hex n) = false /\ exists c r, to_hex n = String c r /\ c <> ":"%char.
Proof.
  unfold is_hextet, to_hex. intros H.
  assert (forall d, 0 <= d < 16 -> hex_char d <> ":"%char) as Hne
    by (intros d Hd E; pose proof (proj2 (hex_char_facts d Hd)) as F; by rewrite E in F).
  repeat case_match; bool_facts; unfold hextet; cbn [String.length hex_digits has_char Nat.leb andb];
    repeat match goal with |- context [hex_val (hex_char ?d)] =>
      rewrite (proj1 (hex_char_facts d ltac:(Z.to_euclidean_division_equations; lia))) end;
    repeat match goal with |- context [Ascii.eqb (hex_char ?d) ":"] =>
      rewrite (proj2 (hex_char_facts d ltac:(Z.to_euclidean_division_equations; lia))) end;
    (split_and!; [f_equal; Z.to_euclidean_division_equations; lia|done|]);
    do 2 eexists; (split; [reflexivity|]); apply Hne; Z.to_euclidean_division_equations; lia.
Qed.

(** *** [expandIPv6] computes the value of a literal *)

Lemma v6_groups_cases b l gs : v6_groups b l = Some gs ->
  mapM hextet l = Some gs \/
  b = true /\ exists ts g n vs, l = (ts ++ [g])%list /\ parse_v4 g = Some n /\ mapM hextet ts = Some vs /\
    gs = (vs ++ [(n / 65536)%Z; (n mod 65536)%Z])%list.
Proof.
  revert gs. induction l as [|g l IH]; intros gs H; [by left|]. destruct l as [|g' l].
  - cbn [v6_groups] in H. simpl. destruct (hextet g) as [x|] eqn:E; [left; done|]. destruct b; [|done].
    destruct (parse_v4 g) as [n|] eqn:En; [|done]. simpl in H. injection H as <-. right. split; [done|].
    by exists [], g, n, [].
  - assert (v6_groups b (g :: g' :: l) = (x ← hextet g; xs ← v6_groups b (g' :: l); Some (x :: xs))) as E by done.
    rewrite E in H. destruct (hextet g) as [x|] eqn:Ex; [|done].
    destruct (v6_groups b (g' :: l)) as [xs|] eqn:Exs; [|done]. simpl in H. injection H as <-.
    destruct (IH xs eq_refl) as [Hm|(-> & ts & g0 & n & vs & Hl & Hn & Hv & ->)].
    + left. change (mapM hextet (g :: g' :: l)) with (y ← hextet g; k ← mapM hextet (g' :: l); Some (y :: k)).
      by rewrite Ex, Hm.
    + right. split; [done|]. exists (g :: ts), g0, n, (x :: vs). rewrite Hl. split_and!; [done|done| |done].
      change (mapM hextet (g :: ts)) with (y ← hextet g; k ← mapM hextet ts; Some (y :: k)). by rewrite Ex, Hv.
Qed.

Lemma hextet_no_dot g x : hextet g = Some x -> has_char "." g = false.
Proof.
  unfold hextet. case_match; [|done]. generalize 0 as acc. clear. revert x.
  induction g as [|c g IH]; intros x acc H; [done|]. cbn [hex_digits has_char] in *.
  destruct (hex_val c) eqn:E; [|done]. rewrite (IH x _ H), orb_false_r.
  destruct (Ascii.eqb_spec c ".") as [->|]; [done|done].
Qed.

Lemma mapM_hextet_no_dot l vs : mapM hextet l = Some vs -> forallb (fun g => negb (has_char "." g)) l = true.
Proof.
  revert vs. induction l as [|g l IH]; intros vs H; [done|].
  change (mapM hextet (g :: l)) with (y ← hextet g; k ← mapM hextet l; Some (y :: k)) in H.
  destruct (hextet g) eqn:E; [|done]. destruct (mapM hextet l) eqn:El; [|done].
  simpl. rewrite (hextet_no_dot g _ E). simpl. by eapply IH.
Qed.

Lemma has_char_join c sep l :
  has_char c sep = false -> has_char c (join sep l) = existsb (has_char c) l.
Proof.
  intros Hs. induction l as [|x l IH]; [done|]. destruct l as [|y l].
  - simpl. by rewrite orb_false_r.
  - change (join sep (x :: y :: l)) with (x +:+ sep +:+ join sep (y :: l)).
    rewrite !has_char_app, Hs, IH. done.
Qed.

Lemma existsb_forallb_negb {A : Type} (f : A -> bool) l :
  forallb (fun x => negb (f x)) l = true -> existsb f l = false.
Proof. induction l as [|x l IH]; simpl; [done|]. intros H. bool_facts. by rewrite H, IH. Qed.

Lemma split_no_dot l vs : mapM hextet (split_char ":" l) = Some vs -> has_char "." l = false.
Proof.
  intros H. rewrite <- (join_split_char ":" l), has_char_join by done.
  apply existsb_forallb_negb. by eapply mapM_hextet_no_dot.
Qed.

Lemma groups_no_dot l vs : mapM hextet (groups_of l) = Some vs -> has_char "." l = false.
Proof. unfold groups_of. destruct (String.eqb_spec l "") as [->|]; [done|]. apply split_no_dot. Qed.

Lemma dotted_tail_none s : has_char "." s = false -> dotted_tail s = None.
Proof. intros H. unfold dotted_tail. by rewrite (proj2 (rsplit_None "." s) H). Qed.

Lemma mapM_length {A B : Type} (f : A -> option B) l vs : mapM f l = Some vs -> length vs = length l.
Proof. intros H. apply mapM_Some_1 in H. symmetry. by eapply Forall2_length. Qed.

Lemma expand_one a gs :
  mapM hextet (split_char ":" a) = Some gs -> length gs = 8%nat -> expand_halves [a] = Some gs.
Proof.
  intros Hm Hl. assert (groups_of a = split_char ":" a) as Hg.
  { unfold groups_of. destruct (String.eqb_spec a "") as [->|]; [by simpl in Hm|done]. }
  unfold expand_halves. cbn [length nth Nat.ltb Nat.leb Nat.eqb]. rewrite Hg.
  assert (length (split_char ":" a) = 8%nat) as Hlen by (by rewrite <- (mapM_length _ _ _ Hm)).
  rewrite Hlen. simpl. by rewrite app_nil_r, Hlen.
Qed.

Lemma mapM_app_some (f : string -> option Z) l k x y :
  mapM f l = Some x -> mapM f k = Some y -> mapM f (l ++ k)%list = Some (x ++ y)%list.
Proof.
  intros Hl Hk. apply mapM_Some_2. apply Forall2_app; by apply mapM_Some_1.
Qed.

Lemma mapM_zeros n : mapM hextet (replicate n "0") = Some (replicate n 0).
Proof. apply mapM_Some_2. induction n; constructor; [done|done]. Qed.

Lemma expand_two a b x t :
  mapM hextet (groups_of a) = Some x -> mapM hextet (groups_of b) = Some t -> (length x + length t <= 7)%nat ->
  expand_halves [a; b] = Some (x ++ replicate (8 - length x - length t) 0 ++ t)%list.
Proof.
  intros Ha Hb Hl. pose proof (mapM_length _ _ _ Ha) as La. pose proof (mapM_length _ _ _ Hb) as Lb.
  unfold expand_halves. cbn [length nth].
  change (2 <? 2)%nat with false. change (2 =? 2)%nat with true. change (2 =? 1)%nat with false. cbn iota.
  rewrite <- La, <- Lb. rewrite (proj2 (Nat.leb_gt 8 _)) by lia.
  rewrite !length_app, length_replicate, <- La, <- Lb.
  rewrite (proj2 (Nat.eqb_eq _ 8)) by lia. apply mapM_app_some; [done|]. apply mapM_app_some; [|done].
  apply mapM_zeros.
Qed.

(** Folding the dotted ending replaces the last group by two. *)
Lemma fold_groups y ts g n vs :
  split_char ":" y = (ts ++ [""])%list -> mapM hextet ts = Some vs -> parse_v4 g = Some n ->
  let g' := to_hex (n / 65536) +:+ ":" +:+ to_hex (n mod 65536) in
  mapM hextet (split_char ":" (y +:+ g')) = Some (vs ++ [(n / 65536)%Z; (n mod 65536)%Z])%list /\
  groups_of (y +:+ g') = split_char ":" (y +:+ g').
Proof.
  intros Hy Hv Hn g'. apply parse_v4_range in Hn.
  assert (is_hextet (n / 65536) /\ is_hextet (n mod 65536)) as [Hhi Hlo]
    by (unfold is_hextet; split; Z.to_euclidean_division_equations; lia).
  destruct (to_hex_facts _ Hhi) as (H1 & C1 & c & r & E1 & _), (to_hex_facts _ Hlo) as (H2 & C2 & _). split.
  - unfold g'. rewrite <- append_assoc.
    change (":" +:+ to_hex (n mod 65536)) with (String ":" (to_hex (n mod 65536))).
    rewrite split_char_cat, split_char_app_last, Hy, app_last_snoc by done.
    rewrite (split_char_none ":" (to_hex (n mod 65536))) by done. rewrite <- app_assoc.
    apply mapM_app_some; [done|]. apply mapM_Some_2. by repeat constructor.
  - unfold groups_of. destruct (String.eqb_spec (y +:+ g') "") as [E|]; [|done].
    unfold g' in E. rewrite E1 in E. by destruct y.
Qed.

Lemma fold_dcolon p n : 0 <= n < 2^32 ->
  let g' := to_hex (n / 65536) +:+ ":" +:+ to_hex (n mod 65536) in
  split_dcolon (p +:+ g') = app_last g' (split_dcolon p).
Proof.
  intros Hn g'. assert (is_hextet (n / 65536) /\ is_hextet (n mod 65536)) as [Hhi Hlo]
    by (unfold is_hextet; split; Z.to_euclidean_division_equations; lia).
  destruct (to_hex_facts _ Hhi) as (_ & C1 & c & r & E1 & Hc), (to_hex_facts _ Hlo) as (_ & C2 & c2 & r2 & E2 & Hc2).
  assert (split_dcolon g' = [g']) as Hg.
  { unfold g'. rewrite <- append_assoc, E2. rewrite (split_dcolon_app _ c2 r2) by (try done; rewrite <- E2; by apply split_dcolon_none).
    by rewrite split_dcolon_single. }
  assert (g' = String c (r +:+ ":" +:+ to_hex (n mod 65536))) as Eg by (unfold g'; by rewrite E1, append_cons).
  rewrite Eg in *. by apply split_dcolon_app.
Qed.

(** The pieces of a literal with a dotted ending. *)
Lemma split_dcolon_v4 p g n : parse_v4 g = Some n -> has_char ":" g = false -> split_dcolon (p +:+ g) = app_last g (split_dcolon p).
Proof.
  intros Hn Hg. destruct g as [|c g]; [done|].
  apply split_dcolon_app; [|by apply split_dcolon_none]. intros ->. simpl in Hg. done.
Qed.

Lemma expandIPv6_value s h : parse_v6 s = Some h -> expandIPv6 s = Some h.
Proof.
  unfold parse_v6. pose proof (join_split_dcolon s) as Hj.
  destruct (split_dcolon s) as [|a [|b [|]]] eqn:Hs; try done.
  - destruct (v6_groups true (split_char ":" a)) as [gs|] eqn:Hg; [|done]. simpl. case_match eqn:Hl; [|done].
    intros [= <-]. bool_facts. simpl in Hj. subst a.
    apply v6_groups_cases in Hg as [Hm|(_ & ts & g & n & vs & Hsp & Hn & Hv & ->)].
    + unfold expandIPv6. rewrite dotted_tail_none by (by eapply split_no_dot). rewrite Hs. by apply expand_one.
    + destruct (split_char_last ":" s ts g Hsp) as (y & -> & Hy & Hgc & Hend).
      destruct (dotted_tail_v4 y g n Hn Hend) as (a & b & c & d & Hd & He & H1 & H2).
      destruct (fold_groups y ts g n vs Hy Hv Hn) as [Hm _].
      unfold expandIPv6. rewrite Hd, He, H1, H2. rewrite fold_dcolon by (by eapply parse_v4_range).
      assert (split_dcolon y = [y]) as ->.
      { apply (app_last_inj1 g); [by destruct (split_dcolon_nonempty y) as (? & ? & ->)|].
        rewrite <- Hs. symmetry. eapply split_dcolon_v4; done. }
      by apply expand_one.
  - destruct (v6_groups false (groups_of a)) as [x|] eqn:Ha; [|done].
    destruct (v6_groups true (groups_of b)) as [t|] eqn:Hb; [|done]. simpl. case_match eqn:Hl; [|done]. intros [= <-].
    bool_facts. cbn [join] in Hj. apply v6_groups_cases in Ha as [Ha|[? _]]; [|done].
    apply v6_groups_cases in Hb as [Hb|(_ & ts & g & n & vs & Hsp & Hn & Hv & ->)].
    + unfold expandIPv6. rewrite dotted_tail_none.
      { rewrite Hs. by apply expand_two. }
      rewrite <- Hj, !has_char_app, (groups_no_dot a _ Ha), (groups_no_dot b _ Hb). done.
    + assert (split_char ":" b = (ts ++ [g])%list) as Hsp'.
      { unfold groups_of in Hsp. destruct (String.eqb_spec b "") as [->|]; [by destruct ts|done]. }
      destruct (split_char_last ":" b ts g Hsp') as (y & -> & Hy & Hgc & Hend).
      assert (s = (a +:+ "::" +:+ y) +:+ g) as Es by (by rewrite <- Hj, !append_assoc).
      assert (exists p', a +:+ "::" +:+ y = p' +:+ ":") as Hend'.
      { destruct Hend as [->|(y' & ->)]; [exists (a +:+ ":")|exists (a +:+ "::" +:+ y')]; by rewrite !append_assoc. }
      destruct (dotted_tail_v4 (a +:+ "::" +:+ y) g n Hn (or_intror Hend')) as (a0 & b0 & c0 & d0 & Hd & He & H1 & H2).
      destruct (fold_groups y ts g n vs Hy Hv Hn) as [Hm Hgo].
      unfold expandIPv6. rewrite Es, Hd, He, H1, H2. rewrite fold_dcolon by (by eapply parse_v4_range).
      assert (split_dcolon (a +:+ "::" +:+ y) = [a; y]) as ->.
      { apply (app_last_inj2 g); [by destruct (split_dcolon_nonempty (a +:+ "::" +:+ y)) as (? & ? & ->)|].
        rewrite <- Hs, Es. symmetry. by eapply split_dcolon_v4. }
      apply expand_two; [done|by rewrite Hgo|done].
Qed.

(** *** The textual shortcut for [::ffff:] *)

Lemma dotted_shape_v4 g n : parse_v4 g = Some n -> dotted_shape g = true.
Proof.
  unfold parse_v4, dotted_shape. destruct (split_char "." g) as [|a [|b [|c [|d [|]]]]]; try done.
  destruct (v4_segment a) eqn:Ea; [|done]. destruct (v4_segment b) eqn:Eb; [|done].
  destruct (v4_segment c) eqn:Ec; [|done]. destruct (v4_segment d) eqn:Ed; [|done]. intros _.
  apply v4_segment_short in Ea as (-> & _), Eb as (-> & _), Ec as (-> & _), Ed as (-> & _). done.
Qed.

Lemma dotted_no_colon g : dotted_shape g = true -> has_char ":" g = false.
Proof.
  unfold dotted_shape. intros H. rewrite <- (join_split_char "." g), has_char_join by done.
  destruct (split_char "." g) as [|a [|b [|c [|d [|]]]]]; try done. unfold short_digits in H. bool_facts.
  cbn [existsb]. by rewrite !(all_digits_no ":") by done.
Qed.

Lemma parse_v6_ffff c r h :
  c <> ":"%char -> split_dcolon (String c r) = [String c r] -> parse_v6 ("::ffff:" +:+ String c r) = Some h ->
  exists t, v6_groups true (split_char ":" (String c r)) = Some t /\ (length t <= 6)%nat /\
    h = (replicate (7 - length t) 0 ++ 65535 :: t)%list.
Proof.
  intros Hc Hs. unfold parse_v6. rewrite split_dcolon_app by done.
  change (app_last (String c r) (split_dcolon "::ffff:")) with [""; "ffff" +:+ String ":" (String c r)].
  cbv beta iota.
  change (groups_of ("ffff" +:+ String ":" (String c r))) with (split_char ":" ("ffff" +:+ String ":" (String c r))).
  rewrite split_char_cat. change (split_char ":" "ffff") with ["ffff"]. cbn [app].
  destruct (split_char_nonempty ":" (String c r)) as (g & t & E). rewrite E.
  change (v6_groups true ("ffff" :: g :: t)) with (xs ← v6_groups true (g :: t); Some (65535 :: xs)).
  destruct (v6_groups true (g :: t)) as [xs|]; [|done]. simpl. case_match eqn:Hl; [|done]. intros [= <-]. bool_facts.
  exists xs. split_and!; [done|lia|]. done.
Qed.

Lemma dotted_first_char g : dotted_shape g = true -> exists c r, g = String c r /\ c <> ":"%char.
Proof.
  intros H. pose proof (dotted_no_colon g H) as Hn. destruct g as [|c r]; [done|]. exists c, r. split; [done|].
  intros ->. done.
Qed.

Lemma hextet_head g x : hextet g = Some x -> has_char ":" g = false /\ exists c r, g = String c r /\ c <> ":"%char.
Proof.
  intros H. assert (has_char ":" g = false) as Hn.
  { revert H. unfold hextet. case_match; [|done]. generalize 0 as acc. clear. revert x.
    induction g as [|c g IH]; intros x acc H; [done|]. cbn [hex_digits has_char] in *.
    destruct (hex_val c) eqn:E; [|done]. rewrite (IH x _ H), orb_false_r.
    destruct (Ascii.eqb_spec c ":") as [->|]; [done|done]. }
  split; [done|]. destruct g as [|c r]; [done|]. exists c, r. split; [done|]. intros ->. done.
Qed.

Lemma mapped_text_value lower v h :
  mapped_text lower = Some v -> parse_v6 lower = Some h ->
  exists n, parse_v4 v = Some n /\ h = [0; 0; 0; 0; 0; 65535; (n / 65536)%Z; (n mod 65536)%Z].
Proof.
  unfold mapped_text. destruct (startsWith lower "::ffff:") eqn:Hp; [|done].
  apply startsWith_spec in Hp as [tail ->]. change (drop_chars 7 ("::ffff:" +:+ tail)) with tail.
  destruct (dotted_shape tail) eqn:Hd.
  - intros [= <-] H. pose proof (dotted_no_colon tail Hd) as Hn.
    destruct (dotted_first_char tail Hd) as (c & r & -> & Hc).
    destruct (parse_v6_ffff c r h Hc (split_dcolon_none _ Hn) H) as (t & Ht & Hl & ->).
    rewrite (split_char_none ":" _ Hn) in Ht. apply v6_groups_cases in Ht as [Hm|(_ & ts & g & n & vs & E & Hv & Hts & ->)].
    + exfalso. pose proof (mapM_hextet_no_dot _ _ Hm) as Hno. cbn [forallb] in Hno. bool_facts.
      unfold dotted_shape in Hd. rewrite (split_char_none "." (String c r)) in Hd by done. done.
    + destruct ts as [|? [|]]; simplify_eq/=. injection Hts as <-. by exists n.
  - destruct (split_char ":" tail) as [|hi [|lo [|]]] eqn:E; try done.
    destruct (hextet hi) as [vhi|] eqn:Ehi; [|done]. destruct (hextet lo) as [vlo|] eqn:Elo; [|done].
    intros [= <-] H. pose proof (join_split_char ":" tail) as Hj. rewrite E in Hj. cbn [join] in Hj.
    destruct (hextet_head hi _ Ehi) as (Hn1 & c & r & E1 & Hc), (hextet_head lo _ Elo) as (Hn2 & c2 & r2 & E2 & Hc2).
    assert (split_dcolon tail = [tail]) as Hs.
    { rewrite <- Hj, <- append_assoc, E2.
      rewrite (split_dcolon_app _ c2 r2) by (try done; rewrite <- E2; by apply split_dcolon_none).
      by rewrite split_dcolon_single. }
    assert (tail = String c (r +:+ ":" +:+ lo)) as Et by (by rewrite <- Hj, E1).
    rewrite Et in H, Hs, E. destruct (parse_v6_ffff _ _ h Hc Hs H) as (t & Ht & Hl & ->). rewrite E in Ht.
    assert (t = [vhi; vlo]) as ->.
    { change (v6_groups true [hi; lo]) with (x ← hextet hi; xs ← v6_groups true [lo]; Some (x :: xs)) in Ht.
      cbn [v6_groups] in Ht. rewrite Ehi, Elo in Ht. by injection Ht as <-. }
    apply hextet_range in Ehi, Elo. exists (vhi * 65536 + vlo). split; [by apply parse_hextetsToV4|].
    unfold is_hextet in *.
    assert ((vhi * 65536 + vlo) / 65536 = vhi) as -> by (Z.to_euclidean_division_equations; lia).
    by assert ((vhi * 65536 + vlo) mod 65536 = vlo) as -> by (Z.to_euclidean_division_equations; lia).
Qed.

(** *** The ladder decides by value *)

Lemma embedded_value h : length h = 8%nat -> Forall is_hextet h ->
  match embedded h, embedded_v4 h with
  | Some v, Some a => parse_v4 v = Some a
  | None, None => True
  | _, _ => False
  end.
Proof.
  intros Hl Hr. do 8 (destruct h as [|? h]; [done|]). destruct h; [|done]. clear Hl.
  repeat match goal with H : Forall _ (_ :: _) |- _ => apply Forall_cons in H as [? H] end.
  unfold embedded, embedded_v4. cbn [nth].
  destruct (is_6to4 _); [by apply parse_hextetsToV4|].
  destruct (is_nat64 _); [by apply parse_hextetsToV4|]. destruct (is_compat _); [by apply parse_hextetsToV4|].
  destruct (is_translatable _); [by apply parse_hextetsToV4|]. by destruct (is_mapped _); [apply parse_hextetsToV4|].
Qed.

Lemma isBlocked_value depth s :
  isBlocked (S (S depth)) s = match parse_ip s with Some x => forbidden x | None => true end.
Proof.
  unfold parse_ip. cbn [isBlocked]. destruct (parse_v4 s) as [a|] eqn:H4; [done|].
  destruct (parse_v6 s) as [h|] eqn:H6; [|done]. cbv zeta.
  assert (parse_v6 (toLowerCase s) = Some h) as H6' by (by rewrite parse_v6_lower).
  destruct (parse_v6_range _ _ H6) as [Hlen Hr].
  pose proof (embedded_value h Hlen Hr) as He. unfold forbidden.
  destruct (mapped_text (toLowerCase s)) as [v|] eqn:Hm.
  - destruct (mapped_text_value _ _ _ Hm H6') as (n & Hn & ->). rewrite Hn.
    apply parse_v4_range in Hn.
    assert (n / 65536 * 65536 + n mod 65536 = n) as E by (Z.to_euclidean_division_equations; lia).
    unfold embedded_v4. cbn -[Z.div Z.modulo Z.mul Z.add BLOCKED_V4_check].
    by rewrite E.
  - rewrite (expandIPv6_value _ _ H6'). destruct (embedded h) as [v|], (embedded_v4 h) as [a|]; try done.
    + by rewrite He.
    + by rewrite H6'.
Qed.

(** C27. The SSRF classification is a function of the address, not of its
    spelling: for every string with no zone id, the text ladder (IPv4-mapped
    prefix, expansion with compression and dotted endings, 6to4, NAT64,
    IPv4-compatible, translatable and mapped embeddings, reserved ranges) answers
    exactly the classification of the address the string denotes, deciding an
    embedding by the IPv4 it carries and blocking whatever denotes none. *)
Theorem isBlockedAddress_by_value s :
  isBlockedAddress s = match parse_ip s with Some x => forbidden x | None => true end.
Proof. apply isBlocked_value. Qed.

(** ** The guarded fetch *)

(** An address the guard lets a connection reach. *)
Definition reachable_address (a : string) : Prop := exists x, parse_ip a = Some x /\ forbidden x = false.

Lemma isBlocked_false a : isBlockedAddress a = false -> reachable_address a.
Proof. unfold isBlockedAddress. rewrite isBlocked_value. destruct (parse_ip a) as [x|] eqn:E; [|done]. intros H. by exists x. Qed.

Section FetchProofs.
Variable parseUrl : string -> option Url.
Variable resolveUrl : string -> string -> option string.
Variable lookup : nat -> string -> result FetchError (list string).
Variable allowedEnv : option string.
Variable send : nat -> Request -> result FetchError Response.
Variable insecureHopAllowed : bool.

(** A request that was vetted: an http(s) URL whose host is an allowed literal,
    or is pinned to vetted addresses only, or is one the operator exempted. *)
Definition vetted (r : Request) : Prop :=
  exists url, parseUrl (rq_url r) = Some url /\ (protocol url = "http:" \/ protocol url = "https:") /\
    match rq_target r with
    | None => reachable_address (strip_brackets (hostname url))
    | Some pinned => toLowerCase (strip_brackets (hostname url)) ∈ getAllowedHosts allowedEnv \/
        (pinned <> [] /\ Forall reachable_address pinned)
    end.

Lemma resolve_vets n rawUrl target init :
  resolveSafeFetchTarget parseUrl lookup allowedEnv n rawUrl = Ok target -> vetted (mkRequest rawUrl init target).
Proof.
  unfold resolveSafeFetchTarget, vetted. cbn [rq_url rq_target]. destruct (parseUrl rawUrl) as [url|]; [|done].
  destruct (negb _) eqn:Hp; [done|]. bool_facts. apply orb_true_iff in Hp.
  set (host := strip_brackets (hostname url)). intros H. exists url. split; [done|].
  split; [destruct Hp as [Hp|Hp]; apply String.eqb_eq in Hp; auto|]. revert H.
  case_bool_decide as Ha.
  - destruct (lookup n host) as [l|]; [|done]. intros [= <-]. by left.
  - destruct (is_literal host).
    + destruct (isBlockedAddress host) eqn:Hb; [done|]. intros [= <-]. by apply isBlocked_false.
    + destruct (lookup n host) as [l|]; [|done]. cbn [result_bind].
      destruct (length l =? 0)%nat eqn:Hl; [done|]. destruct (existsb isBlockedAddress l) eqn:He; [done|].
      intros [= <-]. right. bool_facts. split; [by intros ->|]. apply Forall_forall. intros a Hin.
      apply isBlocked_false. by eapply existsb_false in He.
Qed.

Abbreviation loop := (followLoop parseUrl resolveUrl lookup allowedEnv send insecureHopAllowed).

Lemma loop_vetted fuel hop url o init sec :
  Forall vetted (fst (loop fuel hop url o init sec)) /\
  (length (fst (loop fuel hop url o init sec)) <= fuel)%nat /\
  (forall r, snd (loop fuel hop url o init sec) = Ok r -> status r ∉ REDIRECT_STATUSES).
Proof.
  revert hop url o init sec. induction fuel as [|fuel IH]; intros hop url o init sec; cbn [followLoop].
  { split_and!; [constructor|done|done]. }
  destruct (resolveSafeFetchTarget parseUrl lookup allowedEnv hop url) as [target|e] eqn:Hr; [|by split_and!; simpl; [constructor|lia|]].
  pose proof (resolve_vets _ _ _ init Hr) as Hv.
  destruct (parseUrl url) as [cur|]; [|by split_and!; simpl; [constructor|lia|]].
  destruct (_ && _ && _); [by split_and!; simpl; [constructor|lia|]|].
  destruct (send hop _) as [resp|e]; [|split_and!; simpl; [by repeat constructor|lia|done]].
  case_bool_decide as Hst; cbn [negb].
  2: { split_and!; simpl; [by repeat constructor|lia|]. by intros r [= <-]. }
  destruct (location resp) as [loc|]; [|split_and!; simpl; [by repeat constructor|lia|done]].
  destruct (String.eqb loc ""); [split_and!; simpl; [by repeat constructor|lia|done]|].
  destruct (MAX_REDIRECT_HOPS <=? hop)%nat; [split_and!; simpl; [by repeat constructor|lia|done]|].
  destruct (resolveUrl loc url) as [next|]; [|split_and!; simpl; [by repeat constructor|lia|done]].
  destruct (parseUrl next) as [nu|]; [|split_and!; simpl; [by repeat constructor|lia|done]].
  match goal with |- context [loop fuel ?a ?b ?c ?d ?e] => destruct (IH a b c d e) as (I1 & I2 & I3);
    destruct (loop fuel a b c d e) as [sent out] end.
  simpl in *. split_and!; [by constructor|lia|done].
Qed.

(** More fuel than the hop limit leaves changes nothing: the loop ends by itself. *)
Lemma loop_fuel fuel hop url o init sec :
  (hop <= MAX_REDIRECT_HOPS)%nat -> (MAX_REDIRECT_HOPS < fuel + hop)%nat ->
  loop (S fuel) hop url o init sec = loop fuel hop url o init sec.
Proof.
  revert hop url o init sec. induction fuel as [|fuel IH]; intros hop url o init sec Hh Hf; [lia|].
  remember (S fuel) as fuel' eqn:Ef. cbn [followLoop]. subst fuel'.
  lazymatch goal with |- ?l = ?r => let r' := eval cbn [followLoop] in r in change (l = r') end.
  repeat case_match; try done; bool_facts; subst; match goal with
  | H1 : loop (S fuel) ?a ?b ?c ?d ?e = _, H2 : loop fuel ?a ?b ?c ?d ?e = _ |- _ =>
      rewrite IH in H1 by lia; congruence end.
Qed.

(** *** Credentials and downgrades *)

Definition no_credentials (i : Init) : Prop :=
  match headers i with
  | None => True
  | Some h => forall e, e ∈ h -> toLowerCase (fst e) <> "authorization" /\ toLowerCase (fst e) <> "cookie"
  end.

Lemma drop_header_elem n h e : e ∈ drop_header n h <-> e ∈ h /\ toLowerCase (fst e) <> n.
Proof.
  unfold drop_header. rewrite list_elem_of_In, filter_In, <- list_elem_of_In, negb_true_iff, String.eqb_neq. done.
Qed.

Lemma next_init_clean init st o o0 : (o <> o0 \/ no_credentials init) -> no_credentials (nextRedirectHopInit init st o o0).
Proof.
  intros H. unfold nextRedirectHopInit.
  set (next := match method init with Some m => _ | None => init end).
  assert (headers next = headers init) as Hh by (unfold next; repeat case_match; done).
  destruct (String.eqb_spec o o0) as [->|Hne]; cbn [negb].
  - destruct H as [?|H]; [done|]. unfold no_credentials in *. by rewrite Hh.
  - unfold no_credentials. destruct (headers next) as [h|] eqn:E; [|by rewrite E].
    cbn [headers]. intros e He. rewrite !drop_header_elem in He. tauto.
Qed.

(** The origin of a request's URL. *)
Definition origin_of (u : string) : option string := origin <$> parseUrl u.
Definition secure (u : string) : Prop := exists x, parseUrl u = Some x /\ protocol x = "https:".
Definition plain (u : string) : Prop := exists x, parseUrl u = Some x /\ protocol x = "http:".

Lemma loop_hygiene fuel hop url o0 init sec :
  (forall x, parseUrl url = Some x -> origin x <> o0 -> no_credentials init) ->
  Forall (fun r => origin_of (rq_url r) <> Some o0 -> no_credentials (rq_init r))
    (fst (loop fuel hop url (Some o0) init sec)) /\
  (insecureHopAllowed = false -> sec = true -> Forall (fun r => ~ plain (rq_url r)) (fst (loop fuel hop url (Some o0) init sec))).
Proof.
  revert hop url init sec. induction fuel as [|fuel IH]; intros hop url init sec Hinit; cbn [followLoop]; [by split|].
  destruct (resolveSafeFetchTarget parseUrl lookup allowedEnv hop url) as [target|e]; [|by split].
  destruct (parseUrl url) as [cur|] eqn:Hu; [|by split].
  destruct (_ && _ && _) eqn:Hd; [by split|].
  assert (Hone : (origin_of url <> Some o0 -> no_credentials init) /\
                 (insecureHopAllowed = false -> sec = true -> ~ plain url)).
  { split.
    - unfold origin_of. rewrite Hu. simpl. intros Hne. apply (Hinit cur); [done|congruence].
    - intros Hi Hs (x & Hx & Hp). rewrite Hu in Hx. injection Hx as <-. by rewrite Hp, Hs, Hi in Hd. }
  assert (Hsingle : Forall (fun r => origin_of (rq_url r) <> Some o0 -> no_credentials (rq_init r)) [mkRequest url init target] /\
    (insecureHopAllowed = false -> sec = true -> Forall (fun r => ~ plain (rq_url r)) [mkRequest url init target])).
  { split; [|intros; apply Forall_singleton; by apply Hone]. apply Forall_singleton. by apply Hone. }
  destruct Hone as [Ho1 Ho2].
  destruct (send hop _) as [resp|e]; [|exact Hsingle].
  case_bool_decide; cbn [negb]; [|exact Hsingle].
  destruct (location resp) as [loc|]; [|exact Hsingle].
  destruct (String.eqb loc ""); [exact Hsingle|].
  destruct (MAX_REDIRECT_HOPS <=? hop)%nat; [exact Hsingle|].
  destruct (resolveUrl loc url) as [next|]; [|exact Hsingle].
  destruct (parseUrl next) as [nu|] eqn:Hn; [|exact Hsingle].
  cbn [default].
  destruct (IH (S hop) next (nextRedirectHopInit init (status resp) (origin nu) o0)
              (sec || String.eqb (protocol cur) "https:")) as (I1 & I2).
  { intros x Hx Hne. rewrite Hn in Hx. injection Hx as <-. apply next_init_clean. by left. }
  destruct (loop fuel _ _ _ _ _) as [sent out]. cbn [fst] in *. split; [by constructor|].
  intros Hi Hs. constructor; [by apply Ho2|]. apply I2; [done|]. by rewrite Hs.
Qed.

(** No plain request after a secure one. *)
Definition no_downgrade : list Request -> Prop :=
  StronglySorted (fun a b => secure (rq_url a) -> ~ plain (rq_url b)).

Lemma loop_no_downgrade fuel hop url o0 init sec :
  insecureHopAllowed = false -> no_downgrade (fst (loop fuel hop url (Some o0) init sec)).
Proof.
  intros Hi. revert hop url init sec. induction fuel as [|fuel IH]; intros hop url init sec; cbn [followLoop]; [constructor|].
  assert (forall r : Request, no_downgrade [r]) as Hone by (intros; repeat constructor).
  destruct (resolveSafeFetchTarget parseUrl lookup allowedEnv hop url) as [target|e]; [|constructor].
  destruct (parseUrl url) as [cur|] eqn:Hu; [|constructor].
  destruct (_ && _ && _); [constructor|]. destruct (send hop _) as [resp|e]; [|apply Hone].
  case_bool_decide; cbn [negb]; [|apply Hone]. destruct (location resp) as [loc|]; [|apply Hone].
  destruct (String.eqb loc ""); [apply Hone|]. destruct (MAX_REDIRECT_HOPS <=? hop)%nat; [apply Hone|].
  destruct (resolveUrl loc url) as [next|]; [|apply Hone]. destruct (parseUrl next) as [nu|] eqn:Hn; [|apply Hone].
  cbn [default]. set (init' := nextRedirectHopInit init (status resp) (origin nu) o0).
  set (sec' := sec || String.eqb (protocol cur) "https:").
  pose proof (IH (S hop) next init' sec') as Is.
  destruct (loop_hygiene fuel (S hop) next o0 init' sec') as [_ Ip].
  { intros x Hx Hne. rewrite Hn in Hx. injection Hx as <-. apply next_init_clean. by left. }
  destruct (loop fuel _ _ _ _ _) as [sent out]. cbn [fst] in *. constructor; [done|].
  destruct (decide (protocol cur = "https:")) as [Hsec|Hsec].
  - eapply Forall_impl; [apply Ip; [done|]|by intros]. unfold sec'. rewrite Hsec. apply orb_true_r.
  - apply Forall_true. intros r (x & Hx & Hp). cbn [rq_url] in Hx. congruence.
Qed.

Lemma loop_origin fuel hop url init sec cur :
  parseUrl url = Some cur -> loop fuel hop url None init sec = loop fuel hop url (Some (origin cur)) init sec.
Proof. intros Hu. destruct fuel; [done|]. cbn [followLoop]. by rewrite Hu. Qed.

Lemma loop_unparsed fuel hop url o init sec : parseUrl url = None -> fst (loop fuel hop url o init sec) = [].
Proof.
  intros Hu. destruct fuel; [done|]. cbn [followLoop]. unfold resolveSafeFetchTarget. by rewrite Hu.
Qed.

Abbreviation fetch := (withSafeFetch parseUrl resolveUrl lookup allowedEnv send insecureHopAllowed).


(** Redirects leak nothing and never weaken the transport.  On the
    redirect-following path, a request to an origin other than the first one
    carries neither an Authorization nor a Cookie header, and unless the operator
    opted in, no plain http request follows an https one. *)
Theorem guarded_redirects_keep_secrets rawUrl init o0 :
  origin_of rawUrl = Some o0 ->
  Forall (fun r => origin_of (rq_url r) <> Some o0 -> no_credentials (rq_init r)) (fst (fetch rawUrl init true)) /\
  (insecureHopAllowed = false -> no_downgrade (fst (fetch rawUrl init true))).
Proof.
  unfold origin_of. destruct (parseUrl rawUrl) as [cur|] eqn:Hu; [|done]. intros [= <-].
  unfold withSafeFetch. rewrite (loop_origin _ _ _ _ _ cur Hu). split.
  - apply loop_hygiene. intros x Hx Hne. rewrite Hu in Hx. by injection Hx as <-.
  - apply loop_no_downgrade.
Qed.
End FetchProofs.

(** A redirect from one origin to another, for the witness. *)
Definition demo_parse (u : string) : option Url :=
  if String.eqb u "https://a.example/x" then Some (mkUrl "https:" "a.example" "https://a.example")
  else if String.eqb u "https://b.example/y" then Some (mkUrl "https:" "b.example" "https://b.example")
  else None.
Definition demo_send (n : nat) (r : Request) : result FetchError Response :=
  if String.eqb (rq_url r) "https://a.example/x" then Ok (mkResponse 302 false (Some "https://b.example/y"))
  else Ok (mkResponse 200 false None).
Definition demo_init : Init := mkInit (Some "POST") (Some "{}") (Some [("Authorization", "Bearer k"); ("Accept", "*/*")]).

Lemma guarded_redirects_keep_secrets_witness :
  fst (withSafeFetch demo_parse (fun l _ => Some l) (fun _ _ => Ok ["93.184.216.34"]) None demo_send false
         "https://a.example/x" demo_init true) =
    [mkRequest "https://a.example/x" demo_init (Some ["93.184.216.34"]);
     mkRequest "https://b.example/y" (mkInit (Some "GET") None (Some [("Accept", "*/*")])) (Some ["93.184.216.34"])] /\
  no_downgrade demo_parse
    (fst (withSafeFetch demo_parse (fun l _ => Some l) (fun _ _ => Ok ["93.184.216.34"]) None demo_send false
         "https://a.example/x" demo_init true)).
Proof.
  split; [vm_compute; reflexivity|].
  apply (guarded_redirects_keep_secrets demo_parse (fun l _ => Some l) (fun _ _ => Ok ["93.184.216.34"]) None demo_send
    false "https://a.example/x" demo_init "https://a.example"); reflexivity.
Defined.
