(* ===== verification/ApiKeys.v ===== *)
(** * API keys

    [src/src/modules/auth/auth.service.ts] (the key lifecycle with its
    last-admin guard, and validation), [api-key-authorization.ts] (normalized
    scopes and the authorization fingerprint) and
    [entities/api-key.entity.ts].  Each SQL statement is one atomic step on the
    table; requests interleave between statements. *)
From S2P Require Import Prelude JsString WaId ChatScope IpAddr.
Local Open Scope string_scope.
Local Open Scope Z_scope.

(** ** The table *)

Inductive ApiKeyRole := ADMIN | OPERATOR | VIEWER.
#[export] Instance ApiKeyRole_eq : EqDecision ApiKeyRole.
Proof. solve_decision. Defined.

(** A row.  Dates are milliseconds since the epoch; a list column that is NULL is
    [None], one holding the empty string is [Some []]. *)
Record ApiKey := mkKey {
  key_id : string;
  key_name : string;
  keyHash : string;
  keyPrefix : string;
  role : ApiKeyRole;
  allowedIps : scope_list;
  allowedSessions : scope_list;
  allowedChats : scope_list;
  isActive : bool;
  expiresAt : option Z;
  lastUsedAt : option Z;
  usageCount : Z
}.

Abbreviation Db := (gmap string ApiKey).

(** ** [api-key-authorization.ts] *)

Definition normalizeScopeList (l : scope_list) : scope_list :=
  match l with
  | None => None
  | Some l =>
      let cleaned := List.filter (fun e => (0 <? String.length e)%nat) (map trim l) in
      if (0 <? length cleaned)%nat then Some cleaned else None
  end.

(** The array the fingerprint serializes; [JSON.stringify] is injective on it. *)
Definition Fingerprint : Type := ApiKeyRole * scope_list * scope_list * scope_list * option Z.

Definition fingerprint_scope (l : scope_list) : scope_list := merge_sort str_le <$> normalizeScopeList l.

Definition apiKeyAuthorizationFingerprint (k : ApiKey) : Fingerprint :=
  (role k, fingerprint_scope (allowedIps k), fingerprint_scope (allowedSessions k),
   fingerprint_scope (normalizeChatAllowList (allowedChats k)), expiresAt k).

(** ** Requests *)

(** The update body: an outer [None] is an absent field, an inner one [null]. *)
Record UpdateApiKeyDto := mkDto {
  d_name : option string;
  d_role : option ApiKeyRole;
  d_allowedIps : option scope_list;
  d_allowedSessions : option scope_list;
  d_allowedChats : option scope_list;
  d_expiresAt : option (option string)
}.

Record CreateApiKeyDto := mkCreate {
  c_name : string;
  c_role : option ApiKeyRole;
  c_allowedIps : scope_list;
  c_allowedSessions : scope_list;
  c_allowedChats : scope_list;
  c_expiresAt : option string
}.

Inductive AuthError :=
| NotFoundException (id : string)
| ConflictException
| BadRequestException
| UnresolvedApiKeyException
| Revoked
| Expired
| IpUnknown
| IpNotAllowed
| SessionNotAllowed.

(** What a lifecycle call does besides the row. *)
Inductive Effect :=
| EvictSockets (id reason : string)
| ForgetUsage (id : string)
| RemoveBootstrapKeyIf (hash : string)
| RefreshIndex.

(** ** The last-admin guard *)

Definition no_scope (l : scope_list) : bool := match l with None => true | Some l => (length l =? 0)%nat end.

(** [usableAdminCondition]: active, unexpired, unscoped ADMIN at [guardNow]. *)
Definition usableAdmin (guardNow : Z) (k : ApiKey) : bool :=
  bool_decide (role k = ADMIN) && isActive k &&
  match expiresAt k with None => true | Some e => guardNow <? e end &&
  no_scope (allowedSessions k) && no_scope (allowedChats k).

(** [OUTLASTS_TARGET] *)
Definition outlasts (other target : option Z) : bool :=
  match other, target with
  | None, _ => true
  | Some o, Some t => t <=? o
  | Some _, None => false
  end.

(** The condition [withLastAdminGuard] binds to the statement on row [k]. *)
Definition lastAdminGuard (guardNow : Z) (db : Db) (id : string) (extendsTo : option Z) (k : ApiKey) : bool :=
  negb (usableAdmin guardNow k) ||
  match extendsTo, expiresAt k with Some x, Some e => e <=? x | _, _ => false end ||
  existsb (fun r => negb (String.eqb (fst r) id) && usableAdmin guardNow (snd r) && outlasts (expiresAt (snd r)) (expiresAt k))
    (map_to_list db).

(** A guarded single-row statement: what it does to the row, [None] deletes. *)
Definition guarded (guardNow : Z) (db : Db) (id : string) (extendsTo : option Z) (f : ApiKey -> option ApiKey) : Db * bool :=
  match db !! id with
  | Some k => if lastAdminGuard guardNow db id extendsTo k then (partial_alter (fun _ => f k) id db, true) else (db, false)
  | None => (db, false)
  end.

Definition unguarded (db : Db) (id : string) (f : ApiKey -> ApiKey) : Db * bool :=
  match db !! id with
  | Some k => (<[id := f k]> db, true)
  | None => (db, false)
  end.

(** ** [AuthService] *)

Definition findOne (db : Db) (id : string) : result AuthError ApiKey :=
  match db !! id with Some k => Ok k | None => Err (NotFoundException id) end.

Definition assertMutationApplied (db : Db) (id : string) (affected : bool) : result AuthError unit :=
  if affected then Ok tt else (let* _ := findOne db id in Err ConflictException)%result.

Definition scoped (l : option scope_list) (normalize : scope_list -> scope_list) : bool :=
  match l with Some l => match normalize l with Some n => (0 <? length n)%nat | None => false end | None => false end.

Definition stripsAdmin (dto : UpdateApiKeyDto) : bool :=
  match d_role dto with Some r => negb (bool_decide (r = ADMIN)) | None => false end ||
  scoped (d_allowedSessions dto) normalizeScopeList || scoped (d_allowedChats dto) normalizeChatAllowList.

Definition patch (dto : UpdateApiKeyDto) (expiry : option Z) (k : ApiKey) : ApiKey :=
  mkKey (key_id k)
    (match truthy (d_name dto) with Some n => n | None => key_name k end)
    (keyHash k) (keyPrefix k)
    (default (role k) (d_role dto))
    (default (allowedIps k) (d_allowedIps dto))
    (match d_allowedSessions dto with Some l => normalizeScopeList l | None => allowedSessions k end)
    (match d_allowedChats dto with Some l => normalizeChatAllowList l | None => allowedChats k end)
    (isActive k)
    (match d_expiresAt dto with Some _ => expiry | None => expiresAt k end)
    (lastUsedAt k) (usageCount k).

Definition deactivate (k : ApiKey) : ApiKey :=
  mkKey (key_id k) (key_name k) (keyHash k) (keyPrefix k) (role k) (allowedIps k) (allowedSessions k) (allowedChats k)
    false (expiresAt k) (lastUsedAt k) (usageCount k).

Section Service.
(** [Date] parsing and [hashApiKey] under the configured pepper. *)
Variable parseDate : string -> option Z.
Variable hashKey : string -> string.

Definition parseExpiry (value : option string) : result AuthError (option Z) :=
  match truthy value with
  | None => Ok None
  | Some v => match parseDate v with Some at_ => Ok (Some at_) | None => Err BadRequestException end
  end.

(** [createApiKey]; the row id and the random key are the caller's. *)
Definition createApiKey (db : Db) (id rawKey : string) (dto : CreateApiKeyDto) : result AuthError (Db * ApiKey * list Effect) :=
  (let* expiry := parseExpiry (c_expiresAt dto) in
   let k := mkKey id (c_name dto) (hashKey rawKey) (String.substring 0 12 rawKey) (default OPERATOR (c_role dto))
              (c_allowedIps dto) (normalizeScopeList (c_allowedSessions dto)) (normalizeChatAllowList (c_allowedChats dto))
              true expiry None 0 in
   Ok (<[id := k]> db, k, [RefreshIndex]))%result.

(** The statement [update] issues for a dto and its parsed expiry. *)
Definition update_statement (guardNow : Z) (db : Db) (id : string) (dto : UpdateApiKeyDto) (expiry : option Z) : Db * bool :=
  if stripsAdmin dto || bool_decide (is_Some expiry)
  then guarded guardNow db id (if stripsAdmin dto then None else expiry) (fun k => Some (patch dto expiry k))
  else unguarded db id (patch dto expiry).

Definition update (now : Z) (db : Db) (id : string) (dto : UpdateApiKeyDto) :
    result AuthError (Db * ApiKey * list Effect) :=
  (let* before := findOne db id in
   let* expiry := parseExpiry (match d_expiresAt dto with Some e => e | None => None end) in
   let st := update_statement now db id dto expiry in
   let db' := fst st in
   let* _ := (if stripsAdmin dto || bool_decide (is_Some expiry) then assertMutationApplied db' id (snd st)
              else if snd st then Ok tt else result_bind (findOne db' id) (fun _ => Ok tt)) in
   let* saved := findOne db' id in
   Ok (db', saved,
       RefreshIndex ::
       (if bool_decide (apiKeyAuthorizationFingerprint saved = apiKeyAuthorizationFingerprint before) then []
        else [EvictSockets id "authorization_changed"])))%result.

Definition delete_statement (guardNow : Z) (db : Db) (id : string) : Db * bool :=
  guarded guardNow db id None (fun _ => None).

Definition delete (now : Z) (db : Db) (id : string) : result AuthError (Db * list Effect) :=
  (let* k := findOne db id in
   let st := delete_statement now db id in
   let* _ := assertMutationApplied (fst st) id (snd st) in
   Ok (fst st, [ForgetUsage id; RemoveBootstrapKeyIf (keyHash k); EvictSockets id "deleted"; RefreshIndex]))%result.

Definition revoke_statement (guardNow : Z) (db : Db) (id : string) : Db * bool :=
  guarded guardNow db id None (fun k => Some (deactivate k)).

Definition revoke (now : Z) (db : Db) (id : string) : result AuthError (Db * ApiKey * list Effect) :=
  (let* k := findOne db id in
   let st := revoke_statement now db id in
   let* _ := assertMutationApplied (fst st) id (snd st) in
   let* saved := findOne (fst st) id in
   Ok (fst st, saved, [ForgetUsage id; RemoveBootstrapKeyIf (keyHash k); EvictSockets id "revoked"; RefreshIndex]))%result.

(** [validateApiKey] after the row is found. *)
Definition authorizeKey (now : Z) (k : ApiKey) (clientIp sessionId : option string) : result AuthError unit :=
  (ensure isActive k else Revoked ;;
   ensure match expiresAt k with Some e => now <=? e | None => true end else Expired ;;
   let* _ := (match allowedIps k with
              | Some (x :: l) =>
                  match truthy clientIp with
                  | None => Err IpUnknown
                  | Some ip => guard_err (existsb (ipMatches ip) (x :: l)) IpNotAllowed
                  end
              | _ => Ok tt
              end) in
   match allowedSessions k, truthy sessionId with
   | Some (x :: l), Some sid => guard_err (bool_decide (sid ∈ x :: l)) SessionNotAllowed
   | _, _ => Ok tt
   end)%result.

Definition findByHash (db : Db) (h : string) : option ApiKey :=
  List.find (fun k => String.eqb (keyHash k) h) (map snd (map_to_list db)).

Definition validateApiKey (now : Z) (db : Db) (rawKey : string) (clientIp sessionId : option string) :
    result AuthError ApiKey :=
  match findByHash db (hashKey (trim rawKey)) with
  | None => Err UnresolvedApiKeyException
  | Some k => (let* _ := authorizeKey now k clientIp sessionId in Ok k)%result
  end.
End Service.

Definition role_rank (r : ApiKeyRole) : Z := match r with VIEWER => 1 | OPERATOR => 2 | ADMIN => 3 end.
Definition hasPermission (k : ApiKey) (requiredRole : ApiKeyRole) : bool := role_rank requiredRole <=? role_rank (role k).

(** ** The last-admin invariant *)

(** A key that can manage keys while it lasts. *)
Definition manages (k : ApiKey) : bool :=
  bool_decide (role k = ADMIN) && isActive k && no_scope (allowedSessions k) && no_scope (allowedChats k).

(** Some managing key lasts until [T] ([None]: forever). *)
Definition lasts (T : option Z) (db : Db) : Prop :=
  exists id k, db !! id = Some k /\ manages k = true /\ outlasts (expiresAt k) T = true.

Definition before_horizon (now : Z) (T : option Z) : Prop := match T with Some t => now < t | None => True end.

(** One statement on the table by any request of any process, or time passing.
    The clock a guard was bound with may lag the statement. *)
Inductive key_step (parseDate : string -> option Z) : Z * Db -> Z * Db -> Prop :=
| step_tick now now' db : now <= now' -> key_step parseDate (now, db) (now', db)
| step_insert now db id k : db !! id = None -> key_step parseDate (now, db) (now, <[id := k]> db)
| step_update now guardNow db id dto expiry :
    guardNow <= now ->
    parseExpiry parseDate (match d_expiresAt dto with Some e => e | None => None end) = Ok expiry ->
    key_step parseDate (now, db) (now, fst (update_statement guardNow db id dto expiry))
| step_delete now guardNow db id :
    guardNow <= now -> key_step parseDate (now, db) (now, fst (delete_statement guardNow db id))
| step_revoke now guardNow db id :
    guardNow <= now -> key_step parseDate (now, db) (now, fst (revoke_statement guardNow db id))
| step_usage now db id k at_ n :
    db !! id = Some k ->
    key_step parseDate (now, db)
      (now, <[id := mkKey (key_id k) (key_name k) (keyHash k) (keyPrefix k) (role k) (allowedIps k) (allowedSessions k)
                      (allowedChats k) (isActive k) (expiresAt k) at_ n]> db).

Lemma outlasts_trans a b c : outlasts a b = true -> outlasts b c = true -> outlasts a c = true.
Proof. unfold outlasts. destruct a, b, c; intros; bool_facts; try done. apply Z.leb_le. lia. Qed.

Lemma usable_manages n k : usableAdmin n k = true -> manages k = true.
Proof. unfold usableAdmin, manages. rewrite !andb_true_iff. tauto. Qed.

Lemma manages_usable n T k :
  manages k = true -> outlasts (expiresAt k) T = true -> before_horizon n T -> usableAdmin n k = true.
Proof.
  unfold manages, usableAdmin. rewrite !andb_true_iff. intros H Ho Hb. split_and!; try tauto.
  destruct (expiresAt k) as [e|]; [|done]. destruct T as [t|]; simpl in *; [|done]. bool_facts.
  apply Z.ltb_lt. lia.
Qed.

(** Replacing a row keeps the horizon when the new row keeps it, or another does. *)
Lemma lasts_partial_alter T db id k (o : option ApiKey) :
  lasts T db -> db !! id = Some k ->
  ((manages k = true -> outlasts (expiresAt k) T = true ->
      (exists k', o = Some k' /\ manages k' = true /\ outlasts (expiresAt k') T = true) \/
      (exists id' k', id' <> id /\ db !! id' = Some k' /\ manages k' = true /\ outlasts (expiresAt k') T = true))) ->
  lasts T (partial_alter (fun _ => o) id db).
Proof.
  intros (w & kw & Hw & Hm & Ho) Hk Hcase. destruct (decide (w = id)) as [->|Hne].
  - rewrite Hk in Hw. injection Hw as <-. destruct (Hcase Hm Ho) as [(k' & -> & Hm' & Ho')|(id' & k' & Hne & Hk' & Hm' & Ho')].
    + exists id, k'. by rewrite lookup_partial_alter_eq.
    + exists id', k'. by rewrite lookup_partial_alter_ne.
  - exists w, kw. by rewrite lookup_partial_alter_ne.
Qed.

(** A guarded statement that goes through leaves the horizon, when the patch
    alone would keep it for an extension. *)
Lemma guarded_keeps_horizon now guardNow T db id ext f :
  guardNow <= now -> before_horizon now T -> lasts T db ->
  (forall k x e, ext = Some x -> expiresAt k = Some e -> e <= x -> manages k = true ->
     exists k', f k = Some k' /\ manages k' = true /\ expiresAt k' = Some x) ->
  lasts T (fst (guarded guardNow db id ext f)).
Proof.
  intros Hn Hb Hl Hext. unfold guarded. destruct (db !! id) as [k|] eqn:Hk; [|done].
  destruct (lastAdminGuard guardNow db id ext k) eqn:Hg; [|done]. simpl.
  apply (lasts_partial_alter T db id k); [done|done|]. intros Hm Ho.
  assert (before_horizon guardNow T) as Hb' by (unfold before_horizon in *; destruct T; [lia|done]).
  unfold lastAdminGuard in Hg. rewrite (manages_usable _ _ _ Hm Ho Hb') in Hg. simpl in Hg.
  apply orb_true_iff in Hg as [Hg|Hg].
  - left. destruct ext as [x|]; [|done]. destruct (expiresAt k) as [e|] eqn:He; [|done]. bool_facts.
    destruct (Hext k x e eq_refl He Hg Hm) as (k' & Hf & Hm' & He'). exists k'. split_and!; [done|done|].
    rewrite He'. apply (outlasts_trans _ (Some e)); [|done]. simpl. by apply Z.leb_le.
  - right. apply existsb_elem in Hg as ([id' k'] & Hin & Hc). simpl in Hc.
    rewrite !andb_true_iff in Hc. destruct Hc as [[Hne Hus] Hout].
    apply elem_of_map_to_list in Hin. apply negb_true_iff, String.eqb_neq in Hne. exists id', k'.
    split_and!; [done|done|by eapply usable_manages|by eapply outlasts_trans].
Qed.

Lemma strips_false_patch dto expiry k :
  stripsAdmin dto = false -> manages k = true -> manages (patch dto expiry k) = true.
Proof.
  unfold stripsAdmin, manages. rewrite !orb_false_iff, !andb_true_iff. unfold patch.
  cbn [role isActive allowedSessions allowedChats]. intros [[Hr Hs] Hc] [[[Hrole Hact] Hses] Hch].
  assert (forall (o : option scope_list) nrm d, scoped o nrm = false -> no_scope d = true ->
    no_scope (match o with Some l => nrm l | None => d end) = true) as Hsc.
  { intros o nrm d. unfold scoped, no_scope. destruct o as [l|]; [|done]. destruct (nrm l) as [[|]|]; done. }
  split_and!; [|done|by apply Hsc|by apply Hsc].
  destruct (d_role dto) as [r|]; simpl; [|done]. by apply negb_false_iff in Hr.
Qed.

Lemma update_keeps_horizon pd now guardNow T db id dto expiry :
  guardNow <= now -> before_horizon now T ->
  parseExpiry pd (match d_expiresAt dto with Some e => e | None => None end) = Ok expiry ->
  lasts T db -> lasts T (fst (update_statement guardNow db id dto expiry)).
Proof.
  intros Hn Hb He Hl. unfold update_statement. destruct (stripsAdmin dto) eqn:Hs; simpl.
  { apply (guarded_keeps_horizon now); [done..|]. intros; done. }
  assert (d_expiresAt dto = None -> expiry = None) as Hnone by (intros Hd; rewrite Hd in He; by injection He as <-).
  case_bool_decide as Hx.
  - apply (guarded_keeps_horizon now); [done..|]. intros k x e -> Hk Hle Hm. eexists. split; [done|].
    split; [by apply strips_false_patch|]. simpl. destruct (d_expiresAt dto); [done|]. by specialize (Hnone eq_refl).
  - unfold unguarded. destruct (db !! id) as [k|] eqn:Hk; [|done]. simpl.
    apply (lasts_partial_alter T db id k (Some (patch dto expiry k))); [done|done|]. intros Hm Ho. left.
    eexists. split_and!; [done|by apply strips_false_patch|]. simpl.
    destruct (d_expiresAt dto); [|done]. destruct expiry; [by destruct Hx; eauto|done].
Qed.

Lemma key_step_horizon pd T c c' :
  key_step pd c c' -> before_horizon (fst c') T -> lasts T (snd c) -> before_horizon (fst c) T /\ lasts T (snd c').
Proof.
  intros Hst. destruct Hst; simpl; intros Hb Hl.
  - split; [|done]. unfold before_horizon in *. destruct T; [lia|done].
  - split; [done|]. destruct Hl as (w & kw & Hw & ?). exists w, kw. rewrite lookup_insert_ne by congruence. done.
  - split; [done|]. by eapply update_keeps_horizon.
  - split; [done|]. apply (guarded_keeps_horizon now); [done..|]. intros; done.
  - split; [done|]. apply (guarded_keeps_horizon now); [done..|]. intros; done.
  - split; [done|]. apply (lasts_partial_alter T db id k (Some _)); [done|done|]. intros Hm Ho. left. eauto.
Qed.

(** Until the horizon passes, a managing key that reaches it is still there. *)
Lemma horizon_reached pd T c c' :
  rtc (key_step pd) c c' -> before_horizon (fst c') T -> lasts T (snd c) -> lasts T (snd c').
Proof.
  intros Hr. induction Hr as [c|c d e Hcd Hde IH]; [done|]. intros Hb Hl.
  assert (fst d <= fst e) as Hmon.
  { clear -Hde. induction Hde as [x|x y z Hxy _ IH]; [lia|]. destruct Hxy; simpl in *; lia. }
  apply IH; [done|]. apply (key_step_horizon pd T c d); [done| |done].
  unfold before_horizon in *. destruct T; [lia|done].
Qed.

(** C25. No interleaving of requests locks everyone out of key management.  If at
    some moment an active, unscoped admin key lasts until a time T (or forever),
    then at every later moment before T, after any sequence of creations, updates
    (demotions, scopings, expiries set, extended or cleared), revocations,
    deletions and usage writes by any number of processes, whose guards may have
    been bound with an earlier clock, some active, unscoped, unexpired admin key
    that lasts until T exists. *)
Theorem no_admin_lockout parseDate now now' db db' T :
  rtc (key_step parseDate) (now, db) (now', db') -> before_horizon now' T -> lasts T db ->
  exists id k, db' !! id = Some k /\ usableAdmin now' k = true /\ outlasts (expiresAt k) T = true.
Proof.
  intros Hr Hb Hl. destruct (horizon_reached _ T _ _ Hr Hb Hl) as (id & k & Hk & Hm & Ho).
  exists id, k. split_and!; [done|by eapply manages_usable|done].
Qed.

Definition demo_admin (id : string) (e : option Z) : ApiKey :=
  mkKey id id ("h-" +:+ id) "owa_k1_00000" ADMIN None None None true e None 0.
Definition demo_db : Db := {["a" := demo_admin "a" None; "b" := demo_admin "b" None]}.

(** Two racing requests, each removing one of the two admins: the second is
    refused by its own statement. *)
Lemma no_admin_lockout_witness :
  exists id k, fst (revoke_statement 5 (fst (delete_statement 5 demo_db "a")) "b") !! id = Some k /\
    usableAdmin 9 k = true /\ outlasts (expiresAt k) None = true.
Proof.
  apply (no_admin_lockout (fun _ => None) 5 9 demo_db _ None).
  - eapply rtc_l; [apply (step_delete _ 5 5 demo_db "a"); reflexivity|].
    eapply rtc_l; [apply (step_revoke _ 5 5 _ "b"); reflexivity|].
    eapply rtc_l; [apply (step_tick _ 5 9); discriminate|apply rtc_refl].
  - exact I.
  - exists "a", (demo_admin "a" None). split; [reflexivity|]. split; reflexivity.
Defined.

(** ** Revocation *)

(** Every row with hash [h] is inactive. *)
Definition revoked_hash (h : string) (db : Db) : Prop := forall id k, db !! id = Some k -> keyHash k = h -> isActive k = false.

(** A step that inserts no row with hash [h] (a key's hash is unique). *)
Definition step_without (pd : string -> option Z) (h : string) (c c' : Z * Db) : Prop :=
  key_step pd c c' /\ forall id k, snd c !! id = None -> snd c' !! id = Some k -> keyHash k <> h.

Lemma guarded_lookup n db id ext f i k' :
  fst (guarded n db id ext f) !! i = Some k' -> db !! i = Some k' \/ (i = id /\ exists k, db !! id = Some k /\ f k = Some k').
Proof.
  unfold guarded. destruct (db !! id) as [k|] eqn:Hk; [|auto]. destruct (lastAdminGuard _ _ _ _ _); [|auto]. simpl.
  destruct (decide (i = id)) as [->|Hne]; [rewrite lookup_partial_alter_eq; eauto 6|].
  rewrite lookup_partial_alter_ne by done. auto.
Qed.

Lemma update_lookup n db id dto e i k' :
  fst (update_statement n db id dto e) !! i = Some k' ->
  db !! i = Some k' \/ (i = id /\ exists k, db !! id = Some k /\ patch dto e k = k').
Proof.
  unfold update_statement. case_match.
  - intros H0. apply guarded_lookup in H0 as [?|(-> & k & ? & [= ?])]; [auto|]. right. eauto.
  - unfold unguarded. destruct (db !! id) as [k|] eqn:Hk; [|auto]. simpl.
    destruct (decide (i = id)) as [->|Hne]; [rewrite lookup_insert_eq; intros [= <-]; eauto 6|].
    rewrite lookup_insert_ne by done. auto.
Qed.

Lemma step_revoked pd h c c' : step_without pd h c c' -> revoked_hash h (snd c) -> revoked_hash h (snd c').
Proof.
  intros [Hst Hno] Hr. destruct Hst; simpl in *; intros i k' Hi Hh.
  - eauto.
  - destruct (decide (i = id)) as [->|Hne]; [by destruct (Hno id k' H Hi)|]. rewrite lookup_insert_ne in Hi by done. eauto.
  - apply update_lookup in Hi as [Hi|(-> & k & Hk & <-)]; [eauto|]. apply (Hr id k Hk Hh).
  - apply guarded_lookup in Hi as [Hi|(-> & k & Hk & [=])]. eauto.
  - apply guarded_lookup in Hi as [Hi|(-> & k & Hk & [= <-])]; [eauto|done].
  - destruct (decide (i = id)) as [->|Hne].
    + rewrite lookup_insert_eq in Hi. injection Hi as <-. apply (Hr id k H Hh).
    + rewrite lookup_insert_ne in Hi by done. eauto.
Qed.

Lemma findByHash_Some db h k : findByHash db h = Some k -> keyHash k = h /\ exists id, db !! id = Some k.
Proof.
  unfold findByHash. intros H. apply find_some in H as [Hin Hh]. apply String.eqb_eq in Hh. split; [done|].
  apply in_map_iff in Hin as ([id k'] & <- & Hin). exists id. by apply elem_of_map_to_list, list_elem_of_In.
Qed.

Lemma revoked_refuses hk now db raw ip sid :
  revoked_hash (hk (trim raw)) db -> is_ok (validateApiKey hk now db raw ip sid) = false.
Proof.
  intros Hr. unfold validateApiKey. destruct (findByHash db (hk (trim raw))) as [k|] eqn:Hf; [|done].
  apply findByHash_Some in Hf as [Hh [id Hk]]. unfold authorizeKey. by rewrite (Hr id k Hk Hh).
Qed.

(** Revocation is final.  Once [revoke] returned, the revoked key never
    validates again, whatever requests follow: no update, usage write or other
    lifecycle call reactivates it (only inserting a new row with the very same
    hash could, and hashes are unique). *)
Theorem revocation_is_final parseDate hashKey now db id db1 saved eff now' db' raw ip sid :
  (forall i k, db !! i = Some k -> keyHash k = hashKey (trim raw) -> i = id) ->
  revoke now db id = Ok (db1, saved, eff) ->
  rtc (step_without parseDate (hashKey (trim raw))) (now, db1) (now', db') ->
  is_ok (validateApiKey hashKey now' db' raw ip sid) = false.
Proof.
  intros Huniq Hrev Hr. apply revoked_refuses.
  apply (rtc_invariant _ (fun c => revoked_hash (hashKey (trim raw)) (snd c)) _ _ (step_revoked _ _) Hr). simpl.
  unfold revoke in Hrev. apply bind_ok_inv in Hrev as (k & Hk & Hrev).
  apply bind_ok_inv in Hrev as (u & Happ & Hrev). apply bind_ok_inv in Hrev as (sv & Hsv & [= <- <- <-]).
  unfold findOne in Hk. destruct (db !! id) as [k0|] eqn:Hdb; [|done]. injection Hk as ->.
  unfold revoke_statement, guarded, assertMutationApplied in *. rewrite Hdb in *.
  destruct (lastAdminGuard now db id None k) eqn:Hg; simpl in *; [|unfold findOne in Happ; by rewrite Hdb in Happ].
  intros i k' Hi Hh. destruct (decide (i = id)) as [->|Hne].
  - rewrite lookup_partial_alter_eq in Hi. by injection Hi as <-.
  - rewrite lookup_partial_alter_ne in Hi by done. by destruct (Hne (Huniq i k' Hi Hh)).
Qed.

Lemma revocation_is_final_witness :
  is_ok (validateApiKey (fun r => "h-" +:+ r) 9
    (<["b" := deactivate (demo_admin "b" None)]> demo_db) " b " (Some "1.2.3.4") None) = false.
Proof.
  apply (revocation_is_final (fun _ => None) (fun r => "h-" +:+ r) 5 demo_db "b"
    (<["b" := deactivate (demo_admin "b" None)]> demo_db) (deactivate (demo_admin "b" None))
    [ForgetUsage "b"; RemoveBootstrapKeyIf "h-b"; EvictSockets "b" "revoked"; RefreshIndex] 9).
  - intros i k Hk Hh. unfold demo_db in Hk. apply lookup_insert_Some in Hk as [[<- <-]|[_ Hk]]; [discriminate|].
    apply lookup_singleton_Some in Hk as [<- _]. reflexivity.
  - reflexivity.
  - eapply rtc_l; [split; [apply (step_tick _ 5 9); discriminate|]|apply rtc_refl].
    intros i k H1 H2. simpl in *. congruence.
Defined.

(** ** Stored scopes *)

Lemma trim_filter_idem l :
  map trim (List.filter (fun e => (0 <? String.length e)%nat) (map trim l)) =
  List.filter (fun e => (0 <? String.length e)%nat) (map trim l).
Proof.
  induction l as [|x l IH]; simpl; [done|]. destruct (0 <? String.length (trim x))%nat; simpl; [|done].
  by rewrite trim_idem, IH.
Qed.

Lemma filter_idem {A : Type} (f : A -> bool) l : List.filter f (List.filter f l) = List.filter f l.
Proof. induction l as [|x l IH]; simpl; [done|]. destruct (f x) eqn:E; simpl; [by rewrite E, IH|done]. Qed.

Lemma normalizeScopeList_idem l : normalizeScopeList (normalizeScopeList l) = normalizeScopeList l.
Proof.
  destruct l as [l|]; [|done]. simpl. set (c := List.filter _ _).
  destruct (0 <? length c)%nat eqn:E; [|done]. unfold normalizeScopeList, c.
  rewrite trim_filter_idem, filter_idem. fold c. by rewrite E.
Qed.

(** An entry a stored chat list holds: trimmed, non-empty, not a bare number. *)
Definition chat_entry_ok (e : string) : Prop := trim e = e /\ e <> "" /\ numeric_id e = false.

Lemma chat_entry_qualified e : trim e = e -> e <> "" ->
  chat_entry_ok (if numeric_id e then e +:+ "@c.us" else e).
Proof.
  intros Ht Hne. destruct (numeric_id e) eqn:Hn; [|done]. split_and!.
  - apply trim_id; [rewrite head_ok_app by done; rewrite <- Ht; apply trim_head|by rewrite last_ok_app].
  - by destruct e.
  - apply (numeric_not_at e).
Qed.

Lemma set_of_list_NoDup (l : list string) : NoDup l -> set_of_list l = l.
Proof.
  intros H. unfold set_of_list. cut (forall acc, NoDup (acc ++ l)%list -> fold_left set_add l acc = (acc ++ l)%list).
  { intros Hc. by apply Hc. }
  clear H. induction l as [|x l IH]; intros acc H; simpl; [by rewrite app_nil_r|].
  unfold set_add at 2. rewrite decide_False.
  - rewrite IH by (by rewrite <- app_assoc). by rewrite <- app_assoc.
  - apply NoDup_app in H as (_ & H & _). intros Hx. apply (H x Hx). by left.
Qed.

Lemma chat_list_fixed l : Forall chat_entry_ok l -> NoDup l -> l <> [] -> normalizeChatAllowList (Some l) = Some l.
Proof.
  intros Hf Hnd Hne. simpl.
  assert (map trim l = l) as ->.
  { clear Hnd Hne. induction Hf as [|x l [Hx _] _ IH]; simpl; [done|]. by rewrite Hx, IH. }
  assert (List.filter (fun e => (0 <? String.length e)%nat) l = l) as ->.
  { clear Hnd Hne. induction Hf as [|x l (_ & Hx & _) _ IH]; simpl; [done|]. destruct x; [done|]. simpl. by rewrite IH. }
  assert (map (fun e => if numeric_id e then e +:+ "@c.us" else e) l = l) as ->.
  { clear Hnd Hne. induction Hf as [|x l (_ & _ & Hx) _ IH]; simpl; [done|]. by rewrite Hx, IH. }
  rewrite set_of_list_NoDup by done. by destruct l.
Qed.

Lemma normalizeChat_entries l q : normalizeChatAllowList l = Some q -> Forall chat_entry_ok q /\ NoDup q /\ q <> [].
Proof.
  destruct l as [l|]; [|done]. simpl. set (c := List.filter _ _). set (m := map _ c).
  destruct (0 <? length (set_of_list m))%nat eqn:E; [|done]. intros [= <-]. bool_facts.
  split_and!; [|apply NoDup_set_of_list|intros Hm; rewrite Hm in E; simpl in E; lia].
  apply Forall_forall. intros e He. apply elem_of_set_of_list, elem_of_map in He as (x & -> & Hx).
  unfold c in Hx. apply list_elem_of_In, filter_In in Hx as [Hx Hl]. apply list_elem_of_In, elem_of_map in Hx as (y & -> & _).
  bool_facts. apply chat_entry_qualified; [apply trim_idem|]. intros Hy; rewrite Hy in Hl; simpl in Hl; lia.
Qed.

Lemma normalizeChat_idem l : normalizeChatAllowList (normalizeChatAllowList l) = normalizeChatAllowList l.
Proof.
  destruct (normalizeChatAllowList l) as [q|] eqn:E; [|done].
  destruct (normalizeChat_entries l q E) as (? & ? & ?). by apply chat_list_fixed.
Qed.

(** A row whose scopes are in the stored form, as every write of the service
    leaves them. *)
Definition stored_scopes (k : ApiKey) : Prop :=
  normalizeScopeList (allowedSessions k) = allowedSessions k /\ normalizeChatAllowList (allowedChats k) = allowedChats k.

Lemma patch_stored dto e k : stored_scopes k -> stored_scopes (patch dto e k).
Proof.
  intros [Hs Hc]. unfold stored_scopes, patch. cbn [allowedSessions allowedChats].
  destruct (d_allowedSessions dto), (d_allowedChats dto); auto using normalizeScopeList_idem, normalizeChat_idem.
Qed.

Lemma elem_scope l q : normalizeScopeList l = l -> l = Some q -> q <> [].
Proof. intros Hn ->. simpl in Hn. by intros ->. Qed.

(** Equal fingerprints of stored scopes have the same members. *)
Lemma fingerprint_scope_eq a b :
  normalizeScopeList a = a -> normalizeScopeList b = b -> fingerprint_scope a = fingerprint_scope b ->
  match a, b with
  | Some x, Some y => x <> [] /\ y <> [] /\ forall e, e ∈ x <-> e ∈ y
  | None, None => True
  | _, _ => False
  end.
Proof.
  unfold fingerprint_scope. intros Ha Hb. rewrite Ha, Hb. destruct a as [x|], b as [y|]; simpl; try done.
  intros [= Hs]. split_and!; [by apply (elem_scope (Some x))|by apply (elem_scope (Some y))|]. intros e.
  rewrite <- (merge_sort_Permutation str_le x), Hs. by rewrite (merge_sort_Permutation str_le y).
Qed.

Lemma normalizeScope_of_chat l : normalizeScopeList (normalizeChatAllowList l) = normalizeChatAllowList l.
Proof.
  destruct (normalizeChatAllowList l) as [q|] eqn:E; [|done]. destruct (normalizeChat_entries l q E) as (Hf & _ & Hne).
  simpl. assert (map trim q = q) as ->.
  { clear -Hf. induction Hf as [|x l [Hx _] _ IH]; simpl; [done|]. by rewrite Hx, IH. }
  assert (List.filter (fun e => (0 <? String.length e)%nat) q = q) as ->.
  { clear -Hf. induction Hf as [|x l (_ & Hx & _) _ IH]; simpl; [done|]. destruct x; [done|]. simpl. by rewrite IH. }
  by destruct q.
Qed.

Lemma scope_same_members al bl s t id dir :
  buildChatScope al = Some s -> buildChatScope bl = Some t -> (forall e, e ∈ entries al <-> e ∈ entries bl) ->
  chatIdAllowed (Some s) id dir = chatIdAllowed (Some t) id dir.
Proof.
  intros Hs Ht He. simpl. apply eq_true_iff_eq. rewrite !scope_exists.
  setoid_rewrite (literal_elem al s _ Hs). setoid_rewrite (literal_elem bl t _ Ht). by setoid_rewrite He.
Qed.

Lemma chat_scope_eq al bl id dir :
  normalizeChatAllowList al = al -> normalizeChatAllowList bl = bl ->
  fingerprint_scope (normalizeChatAllowList al) = fingerprint_scope (normalizeChatAllowList bl) ->
  chatIdAllowed (buildChatScope al) id dir = chatIdAllowed (buildChatScope bl) id dir.
Proof.
  intros Ha Hb Hf. apply fingerprint_scope_eq in Hf; [|apply normalizeScope_of_chat..]. rewrite Ha, Hb in Hf.
  destruct al as [x|], bl as [y|]; try done. destruct Hf as (Hx & Hy & He).
  assert (isChatScopeRestricted (Some x) = true /\ isChatScopeRestricted (Some y) = true) as [Rx Ry]
    by (split; [by destruct x|by destruct y]).
  destruct (buildChatScope (Some x)) as [s|] eqn:Es; [|unfold buildChatScope in Es; by rewrite Rx in Es].
  destruct (buildChatScope (Some y)) as [t|] eqn:Et; [|unfold buildChatScope in Et; by rewrite Ry in Et].
  apply (scope_same_members (Some x) (Some y)); [done|done|]. intros e. unfold entries. by rewrite Ha, Hb.
Qed.

Lemma sessions_eq a b sid :
  normalizeScopeList a = a -> normalizeScopeList b = b -> fingerprint_scope a = fingerprint_scope b ->
  (match a, truthy sid with
   | Some (x :: l), Some s => guard_err (bool_decide (s ∈ x :: l)) SessionNotAllowed
   | _, _ => Ok tt end) =
  (match b, truthy sid with
   | Some (x :: l), Some s => guard_err (bool_decide (s ∈ x :: l)) SessionNotAllowed
   | _, _ => Ok tt end).
Proof.
  intros Ha Hb Hf. apply fingerprint_scope_eq in Hf; [|done..].
  destruct a as [[|x l]|], b as [[|y m]|]; try done; [naive_solver..|].
  destruct (truthy sid) as [s|]; [|done]. destruct Hf as (_ & _ & He).
  by rewrite (bool_decide_ext _ _ (He s)).
Qed.

Lemma ips_eq a b ip :
  normalizeScopeList a = a -> normalizeScopeList b = b -> fingerprint_scope a = fingerprint_scope b ->
  (match a with
   | Some (x :: l) => match truthy ip with None => Err IpUnknown | Some i => guard_err (existsb (ipMatches i) (x :: l)) IpNotAllowed end
   | _ => Ok tt end) =
  (match b with
   | Some (x :: l) => match truthy ip with None => Err IpUnknown | Some i => guard_err (existsb (ipMatches i) (x :: l)) IpNotAllowed end
   | _ => Ok tt end).
Proof.
  intros Ha Hb Hf. apply fingerprint_scope_eq in Hf; [|done..].
  destruct a as [[|x l]|], b as [[|y m]|]; try done; [naive_solver..|].
  destruct (truthy ip) as [i|]; [|done]. destruct Hf as (_ & _ & He). f_equal. apply eq_true_iff_eq.
  rewrite !existsb_elem. by setoid_rewrite He.
Qed.

(** The fingerprint captures authorization.  Two keys with stored scopes and
    equal fingerprints (and equally active) answer every validation alike, with
    the same refusal if any, and their chat fences admit the same ids; so a
    change the fingerprint misses cannot leave a live socket with access its key
    lost.  Every update the service writes keeps scopes in the stored form. *)
Theorem fingerprint_decides_authorization now k k' ip sid chat dir dto e :
  stored_scopes k -> stored_scopes k' ->
  normalizeScopeList (allowedIps k) = allowedIps k -> normalizeScopeList (allowedIps k') = allowedIps k' ->
  isActive k = isActive k' ->
  apiKeyAuthorizationFingerprint k = apiKeyAuthorizationFingerprint k' ->
  authorizeKey now k ip sid = authorizeKey now k' ip sid /\
  chatIdAllowed (buildChatScope (allowedChats k)) chat dir = chatIdAllowed (buildChatScope (allowedChats k')) chat dir /\
  role k = role k' /\ stored_scopes (patch dto e k).
Proof.
  intros Hk Hk' Hi Hi' Hact Hf. pose proof (patch_stored dto e k Hk) as Hp. destruct Hk as [Hs Hc], Hk' as [Hs' Hc'].
  injection Hf as Hr Hips Hsess Hchats Hexp. split_and!; [|by apply chat_scope_eq|done|done].
  unfold authorizeKey. rewrite Hact, Hexp. rewrite (ips_eq (allowedIps k) (allowedIps k')) by done.
  by rewrite (sessions_eq (allowedSessions k) (allowedSessions k')) by done.
Qed.

Definition demo_scoped (order : list string) : ApiKey :=
  mkKey "k" "n" "h" "p" OPERATOR (Some ["10.0.0.0/8"]) (Some order) (Some ["628111@c.us"]) true (Some 99) (Some 7) 3.

Lemma fingerprint_decides_authorization_witness :
  authorizeKey 50 (demo_scoped ["s1"; "s2"]) (Some "10.1.1.1") (Some "s2") =
  authorizeKey 50 (demo_scoped ["s2"; "s1"]) (Some "10.1.1.1") (Some "s2").
Proof.
  apply (fingerprint_decides_authorization 50 (demo_scoped ["s1"; "s2"]) (demo_scoped ["s2"; "s1"]) (Some "10.1.1.1") (Some "s2")
    "" None (mkDto None None None None None None) None); try split; vm_compute; reflexivity.
Defined.
