(* ===== verification/Json.v ===== *)
(** * Parsed JSON values

    What a request body, a query value or a stored filter is before validation.
    A property the object lacks reads as [None] ([undefined]); numbers are the
    integers the sources compare. *)
From stdpp Require Import pretty.
From S2P Require Import Prelude JsString.
Local Open Scope string_scope.

Inductive json :=
| JNull
| JBool (b : bool)
| JNum (n : Z)
| JStr (s : string)
| JArr (l : list json)
| JObj (fields : list (string * json)).

Definition is_object (v : json) : bool := match v with JArr _ | JObj _ | JNull => true | _ => false end.

(** [v[k]] of an object; an array has no such property. *)
Definition field (v : json) (k : string) : option json :=
  match v with JObj fs => JMap.get k fs | _ => None end.

(** [v === undefined || v === null] *)
Definition nullish (o : option json) : bool := match o with None | Some JNull => true | _ => false end.

(** [typeof v === 'string' ? v : undefined] *)
Definition str (o : option json) : option string := match o with Some (JStr s) => Some s | _ => None end.

(** The string entries of an array, none for anything else. *)
Definition toStringArray (o : option json) : list string :=
  match o with
  | Some (JArr l) => omap (fun v => str (Some v)) l
  | _ => []
  end.

(** The keys of an object, in order. *)
Definition obj_keys (v : json) : list string := match v with JObj fs => map fst fs | _ => [] end.

(** ** [JSON.stringify] *)

Definition quote_char : ascii := ascii_of_nat 34.
Definition backslash : ascii := ascii_of_nat 92.

Definition hex_digit (n : nat) : ascii := ascii_of_nat (if (n <? 10)%nat then 48 + n else 87 + n).

(** [JSON.stringify] of a character. *)
Definition escape_char (c : ascii) : string :=
  let n := nat_of_ascii c in
  let esc := fun l => String backslash (String (ascii_of_nat l) "") in
  if (n =? 34)%nat then esc 34%nat
  else if (n =? 92)%nat then esc 92%nat
  else if (n =? 8)%nat then esc 98%nat
  else if (n =? 9)%nat then esc 116%nat
  else if (n =? 10)%nat then esc 110%nat
  else if (n =? 12)%nat then esc 102%nat
  else if (n =? 13)%nat then esc 114%nat
  else if (n <? 32)%nat then String backslash ("u00" +:+ String (hex_digit (n / 16)) (String (hex_digit (n mod 16)) ""))
  else String c "".

Fixpoint escape (s : string) : string :=
  match s with EmptyString => "" | String c r => escape_char c +:+ escape r end.

Definition stringify (s : string) : string := String quote_char (escape s +:+ String quote_char "").

(** [JSON.stringify] of a value: members in the object's order, no spaces. *)
Fixpoint json_text (value : json) : string :=
  match value with
  | JNull => "null"
  | JBool b => if b then "true" else "false"
  | JNum n => pretty n
  | JStr s => stringify s
  | JArr l => "[" +:+ join "," (map json_text l) +:+ "]"
  | JObj fields => "{" +:+ join "," (map (fun e => stringify (fst e) +:+ ":" +:+ json_text (snd e)) fields) +:+ "}"
  end.

(** [Buffer.byteLength(s, 'utf8')]: a code unit from 128 on takes two bytes. *)
Fixpoint utf8_length (s : string) : Z :=
  match s with
  | EmptyString => 0
  | String c r => (if (nat_of_ascii c <? 128)%nat then 1 else 2) + utf8_length r
  end%Z.

(** [Buffer.byteLength(s, 'base64')]: up to two trailing [=] are padding. *)
Definition base64_length (s : string) : Z :=
  let n := String.length s in
  let pad := fun i => match String.get i s with Some c => Ascii.eqb c "=" | None => false end in
  let bytes := if pad (n - 1)%nat then (n - 1)%nat else n in
  let bytes := if (1 <? bytes)%nat && pad (bytes - 1)%nat then (bytes - 1)%nat else bytes in
  (Z.of_nat bytes * 3 / 4)%Z.
