(* ===== verification/ApiKeyGuard.v ===== *)
(** * The request guard

    [src/src/modules/auth/guards/api-key.guard.ts] and
    [src/src/common/security/bearer-token.ts]: the credential a request presents
    and every check between it and a handler, over the key table of [ApiKeys] and
    the chat fence of [ChatScope]. *)
From S2P Require Import Prelude JsString Json WaId ChatScope IpAddr ApiKeys.
Local Open Scope string_scope.

(** ** The presented credential *)

(** [/^bearer\s+(\S+)\s*$/i.exec(header)?.[1]] *)
Definition bearerToken (header : option string) : option string :=
  match truthy header with
  | None => None
  | Some h =>
      if startsWith (toLowerCase h) "bearer" then
        let rest := drop_chars 6 h in
        let tok := trim rest in
        if negb (head_ok rest) && negb (String.eqb tok "") && all_chars (fun c => negb (is_ws c)) tok
        then Some tok else None
      else None
  end.

Definition presentedApiKey (xApiKey authorization : option string) : option string :=
  match truthy xApiKey with
  | Some k => Some k
  | None => bearerToken authorization
  end.

(** ** Requests and routes *)

(** The metadata a route carries. *)
Record Route := mkRoute {
  isPublic : bool;
  requiredRole : option ApiKeyRole;
  sessionScoped : bool;
  chatScoped : bool;
  requireUnscoped : bool;
  quotedAllowed : bool
}.

Record HttpRequest := mkHttp {
  h_xApiKey : option string;
  h_authorization : option string;
  h_params : list (string * string);
  h_queryChatId : option json;
  h_body : option json;
  h_client : RequestLike
}.

Inductive GuardError :=
| KeyRequired
| Auth (e : AuthError)
| InsufficientPermissions
| RestrictedToSelectedChats
| ChatNotAuthorized
| GuardBadRequest (msg : string)
| SessionScopedKey.

(** ** Chat ids a request names *)

Definition CHAT_ROUTE_PARAMS : list string := ["chatId"; "groupId"; "contactId"].
Definition CHAT_BODY_FIELDS : list string := ["chatId"; "fromChatId"; "toChatId"].
Definition BULK_MESSAGES_MAX : nat := 100.

Definition param (r : HttpRequest) (name : string) : option json := JStr <$> JMap.get name (h_params r).

(** One entry of [messages]: [Err] for an array, nothing for a non-object. *)
Definition message_chat (item : json) : result GuardError (list (string * option json)) :=
  match item with
  | JArr _ => Err (GuardBadRequest "messages[i] must be an object")
  | JObj _ => Ok [("messages[i].chatId", field item "chatId")]
  | _ => Ok []
  end.

Fixpoint message_chats (items : list json) : result GuardError (list (string * option json)) :=
  match items with
  | [] => Ok []
  | item :: rest => (let* a := message_chat item in let* b := message_chats rest in Ok (a ++ b)%list)%result
  end.

Definition chatIdsIn (r : HttpRequest) : result GuardError (list (string * option json)) :=
  let out := (map (fun name => (name, param r name)) CHAT_ROUTE_PARAMS ++ [("chatId", h_queryChatId r)])%list in
  match h_body r with
  | Some (JArr _ as body) | Some (JObj _ as body) =>
      let out := (out ++ map (fun f => (f, field body f)) CHAT_BODY_FIELDS)%list in
      match field body "messages" with
      | None | Some JNull => Ok out
      | Some (JArr items) =>
          if (BULK_MESSAGES_MAX <? length items)%nat
          then Err (GuardBadRequest "messages must contain at most 100 entries")
          else (let* ms := message_chats items in Ok (out ++ ms)%list)%result
      | Some _ => Err (GuardBadRequest "messages must be an array")
      end
  | _ => Ok out
  end.

(** The loop over the ids named; [checked] holds the ones already allowed. *)
Fixpoint check_chats (allows : string -> bool) (checked : list string) (ids : list (string * option json)) :
    result GuardError unit :=
  match ids with
  | [] => Ok tt
  | (name, value) :: rest =>
      match value with
      | None | Some JNull => check_chats allows checked rest
      | Some (JStr c) =>
          if (String.length c =? 0)%nat || bool_decide (c ∈ checked) then check_chats allows checked rest
          else if allows c then check_chats allows (set_add checked c) rest
          else Err ChatNotAuthorized
      | Some _ => Err (GuardBadRequest (name +:+ " must be a single chat id string"))
      end
  end.

(** A quoted message the body names. *)
Definition quotes (r : HttpRequest) : bool :=
  match h_body r with
  | Some body =>
      match field body "quotedMessageId" with
      | None | Some JNull => false
      | Some (JStr s) => negb (String.eqb s "")
      | Some _ => true
      end
  | None => false
  end.

Section Guard.
Context {S : Type} `{LidDirectory S}.
Variable hashKey : string -> string.
Variable store : option S.
Variable trustedProxies : list string.

Definition assertChatsAllowed (rt : Route) (r : HttpRequest) (k : ApiKey) : result GuardError unit :=
  (let* ids := chatIdsIn r in
   let* _ := check_chats (ChatScopeService.allows store (allowedChats k)) [] ids in
   guard_err (quotedAllowed rt || negb (quotes r)) RestrictedToSelectedChats)%result.

(** The session id the key's [allowedSessions] is checked against. *)
Definition session_of (rt : Route) (r : HttpRequest) : option string :=
  match truthy (JMap.get "sessionId" (h_params r)) with
  | Some s => Some s
  | None => if sessionScoped rt then JMap.get "id" (h_params r) else None
  end.

Definition lift_auth {A : Type} (m : result AuthError A) : result GuardError A :=
  match m with Ok a => Ok a | Err e => Err (Auth e) end.

Definition authorize (now : Z) (db : gmap string ApiKey) (rt : Route) (r : HttpRequest) : result GuardError ApiKey :=
  match presentedApiKey (h_xApiKey r) (h_authorization r) with
  | None => Err KeyRequired
  | Some raw =>
      (let* k := lift_auth (validateApiKey hashKey now db raw (Some (resolveClientIp (h_client r) trustedProxies)) (session_of rt r)) in
       ensure match requiredRole rt with Some role => hasPermission k role | None => true end else InsufficientPermissions ;;
       let* _ := (if ChatScopeService.isRestricted (allowedChats k) then
                    if chatScoped rt then assertChatsAllowed rt r k else Err RestrictedToSelectedChats
                  else Ok tt) in
       ensure negb (requireUnscoped rt && match allowedSessions k with Some (_ :: _) => true | _ => false end) else SessionScopedKey ;;
       Ok k)%result
  end.

(** [canActivate]: [Ok None] on a public route. *)
Definition canActivate (now : Z) (db : gmap string ApiKey) (rt : Route) (r : HttpRequest) : result GuardError (option ApiKey) :=
  if isPublic rt then Ok None else (let* k := authorize now db rt r in Ok (Some k))%result.
End Guard.

(** ** What the guard promises *)

(** [names_chat r v]: the request carries [v] where a chat id belongs. *)
Inductive names_chat (r : HttpRequest) : option json -> Prop :=
| by_param name : name ∈ CHAT_ROUTE_PARAMS -> names_chat r (param r name)
| by_query : names_chat r (h_queryChatId r)
| by_body body f : h_body r = Some body -> f ∈ CHAT_BODY_FIELDS -> names_chat r (field body f)
| by_message body items item :
    h_body r = Some body -> field body "messages" = Some (JArr items) -> item ∈ items -> names_chat r (field item "chatId").

(** The bulk list, when there is one, is an array of at most a hundred entries,
    none of them an array. *)
Definition well_shaped (r : HttpRequest) : Prop :=
  match h_body r with
  | None => True
  | Some body =>
      match field body "messages" with
      | None | Some JNull => True
      | Some (JArr items) => (length items <= BULK_MESSAGES_MAX)%nat /\ forall l, JArr l ∉ items
      | Some _ => False
      end
  end.

(** A value that may stand where a chat id belongs. *)
Definition chat_ok (allows : string -> bool) (v : option json) : Prop :=
  nullish v = true \/ exists c, v = Some (JStr c) /\ (c = "" \/ allows c = true).

Lemma check_chats_spec allows checked ids :
  (forall c, c ∈ checked -> allows c = true) ->
  (check_chats allows checked ids = Ok tt <-> forall n v, (n, v) ∈ ids -> chat_ok allows v).
Proof.
  revert checked. induction ids as [|[n v] ids IH]; intros checked Hch; simpl; [split; [intros _ n v H; by inversion H|done]|].
  assert (forall P : Prop, chat_ok allows v ->
    (P <-> forall n0 v0, (n0, v0) ∈ ids -> chat_ok allows v0) ->
    (P <-> forall n0 v0, (n0, v0) ∈ (n, v) :: ids -> chat_ok allows v0)) as Hcons.
  { intros P Hv HP. rewrite HP. setoid_rewrite elem_of_cons. split; [|by eauto]. intros Ha n0 v0 [[= -> ->]|Hin]; eauto. }
  destruct v as [[| | |c| |]|];
    try (split; [done|]; intros Ha; destruct (Ha _ _ (list_elem_of_here _ _)) as [?|(? & ? & _)]; done).
  - apply Hcons; [by left|by apply IH].
  - destruct (String.length c =? 0)%nat eqn:Hl; cbn [orb].
    { apply Hcons; [|by apply IH]. right. exists c. split; [done|]. left. bool_facts. by destruct c. }
    case_bool_decide as Hc; [apply Hcons; [right; exists c; eauto|by apply IH]|].
    destruct (allows c) eqn:Ha.
    + apply Hcons; [right; exists c; eauto|]. apply IH. intros x Hx. apply elem_of_set_add in Hx as [?| ->]; eauto.
    + split; [done|]. intros Hall. destruct (Hall _ _ (list_elem_of_here _ _)) as [?|(c' & [= <-] & [->|?])]; [done| |congruence].
      by bool_facts.
  - apply Hcons; [by left|by apply IH].
Qed.

Lemma message_chats_spec items ids :
  message_chats items = Ok ids ->
  (forall l, JArr l ∉ items) /\
  (forall allows, (forall n v, (n, v) ∈ ids -> chat_ok allows v) <-> forall i, i ∈ items -> chat_ok allows (field i "chatId")).
Proof.
  revert ids. induction items as [|item items IH]; intros ids.
  - intros [= <-]. split; [intros l H; by inversion H|]. intros allows. split; intros _ ? *; intros H; by inversion H.
  - cbn [message_chats]. intros H. apply bind_ok_inv in H as (a & Ha & H). apply bind_ok_inv in H as (b & Hb & [= <-]).
    destruct (IH b Hb) as [I1 I2]. split.
    + intros l Hl. apply elem_of_cons in Hl as [<-|Hl]; [done|]. by apply (I1 l).
    + intros allows. setoid_rewrite elem_of_app. setoid_rewrite elem_of_cons.
      assert ((forall n v, (n, v) ∈ a -> chat_ok allows v) <-> chat_ok allows (field item "chatId")) as Hitem.
      { destruct item; simplify_eq/=; try (split; [by left|intros _ n0 v0 H0; by inversion H0]).
        split; [intros Hx; eapply Hx, list_elem_of_here|].
        intros Hx n v Hin. apply list_elem_of_singleton in Hin. by injection Hin as -> ->. }
      specialize (I2 allows). split.
      * intros Hall i [->|Hi]; [apply Hitem; eauto|apply I2; eauto].
      * intros Hall n v [Hin|Hin]; [eapply Hitem; eauto|eapply I2; eauto].
Qed.

Lemma message_chats_ok items : (forall l, JArr l ∉ items) -> exists ids, message_chats items = Ok ids.
Proof.
  induction items as [|item items IH]; intros H; [by eexists|]. cbn [message_chats].
  destruct IH as [ids ->]; [intros l Hl; apply (H l); by right|].
  destruct item; simpl; eauto. destruct (H l). by left.
Qed.

Lemma chatIdsIn_spec r :
  match chatIdsIn r with
  | Ok ids => well_shaped r /\ forall allows, (forall n v, (n, v) ∈ ids -> chat_ok allows v) <-> forall v, names_chat r v -> chat_ok allows v
  | Err _ => ~ well_shaped r
  end.
Proof.
  set (base := (map (fun name => (name, param r name)) CHAT_ROUTE_PARAMS ++ [("chatId", h_queryChatId r)])%list).
  assert (Hbase : forall n v, (n, v) ∈ base <-> (n ∈ CHAT_ROUTE_PARAMS /\ v = param r n) \/ (n = "chatId" /\ v = h_queryChatId r)).
  { intros n v. unfold base. rewrite elem_of_app, elem_of_map, list_elem_of_singleton. naive_solver. }
  assert (Hfields : forall body n v, (n, v) ∈ map (fun f => (f, field body f)) CHAT_BODY_FIELDS <-> n ∈ CHAT_BODY_FIELDS /\ v = field body n).
  { intros body n v. rewrite elem_of_map. naive_solver. }
  assert (Hplain : (forall body f, h_body r = Some body -> field body f = None) -> forall allows,
    (forall n v, (n, v) ∈ base -> chat_ok allows v) <-> forall v, names_chat r v -> chat_ok allows v).
  { intros Hno allows. setoid_rewrite Hbase. split.
    - intros Hall v Hv. destruct Hv as [name Hn| |body f Hb Hf|body items item Hb Hm Hi].
      + eapply Hall. eauto.
      + eapply Hall. right. eauto.
      + rewrite (Hno body f Hb). by left.
      + by rewrite (Hno body _ Hb) in Hm.
    - intros Hall n v [[Hn ->]|[_ ->]]; apply Hall; by constructor. }
  assert (Hobj : forall body ms, h_body r = Some body ->
    (forall allows, (forall n v, (n, v) ∈ ms -> chat_ok allows v) <->
       forall items i, field body "messages" = Some (JArr items) -> i ∈ items -> chat_ok allows (field i "chatId")) ->
    forall allows, (forall n v, (n, v) ∈ ((base ++ map (fun f => (f, field body f)) CHAT_BODY_FIELDS) ++ ms)%list -> chat_ok allows v) <->
      forall v, names_chat r v -> chat_ok allows v).
  { intros body ms Hb Hms allows. setoid_rewrite elem_of_app. setoid_rewrite elem_of_app.
    setoid_rewrite Hbase. setoid_rewrite Hfields. specialize (Hms allows). split.
    - intros Hall v Hv. destruct Hv as [name Hn| |body' f Hb' Hf|body' items item Hb' Hm Hi].
      + eapply Hall. eauto 6.
      + eapply Hall. left. left. right. eauto.
      + rewrite Hb in Hb'. injection Hb' as <-. eapply Hall. left. right. eauto.
      + rewrite Hb in Hb'. injection Hb' as <-. eapply (proj1 Hms); [|exact Hm|exact Hi]. intros n v Hin. eapply Hall. by right.
    - intros Hall n v [[[[Hn ->]|[_ ->]]|[Hn ->]]|Hin]; [apply Hall; by constructor..| |].
      + apply Hall. by eapply by_body.
      + eapply (proj2 Hms); [|exact Hin]. intros items i Hm Hi. apply Hall. by eapply by_message. }
  unfold chatIdsIn, well_shaped. fold base. destruct (h_body r) as [body|] eqn:Hb; [|split; [done|by apply Hplain]].
  destruct body as [| | | |l|fs]; try (split; [done|apply Hplain; by intros b' f [= <-]]).
  - change (field (JArr l) "messages") with (@None json). split; [done|]. intros allows.
    rewrite <- (app_nil_r (base ++ _)%list). apply (Hobj (JArr l) []); [done|].
    intros al. split; [intros _ items i [=]|intros _ n v H; by inversion H].
  - destruct (field (JObj fs) "messages") as [[| | | |items|]|] eqn:Hm; try (by intros []).
    + split; [done|]. intros allows. rewrite <- (app_nil_r (base ++ _)%list). apply Hobj; [done|].
      intros al. split; [intros _ items i Hx; congruence|intros _ n v H; by inversion H].
    + destruct (BULK_MESSAGES_MAX <? length items)%nat eqn:Hlen; bool_facts; [intros [? _]; lia|].
      destruct (message_chats items) as [ms|e] eqn:Hms; cbn [result_bind].
      * destruct (message_chats_spec items ms Hms) as [H1 H2]. split; [done|]. intros allows.
        apply (Hobj (JObj fs) ms); [done|]. intros al. rewrite (H2 al), Hm. naive_solver.
      * intros [_ Hno]. destruct (message_chats_ok items Hno) as [ids Hids]. congruence.
    + split; [done|]. intros allows. rewrite <- (app_nil_r (base ++ _)%list). apply Hobj; [done|].
      intros al. split; [intros _ items i Hx; congruence|intros _ n v H; by inversion H].
Qed.

Lemma truthy_role (o : option ApiKeyRole) k :
  match o with Some role => hasPermission k role | None => true end = true <->
  forall role, o = Some role -> (role_rank role <= role_rank (ApiKeys.role k))%Z.
Proof.
  unfold hasPermission. destruct o as [ro|]; [|naive_solver]. rewrite Z.leb_le. naive_solver.
Qed.

Section GuardProofs.
Context {S : Type} `{LidDirectory S}.

Lemma assertChats_spec (store : option S) rt r k :
  assertChatsAllowed store rt r k = Ok tt <->
  well_shaped r /\ (forall v, names_chat r v -> chat_ok (ChatScopeService.allows store (allowedChats k)) v) /\
  (quotedAllowed rt = true \/ quotes r = false).
Proof.
  unfold assertChatsAllowed. pose proof (chatIdsIn_spec r) as Hc. destruct (chatIdsIn r) as [ids|e].
  - destruct Hc as [Hw Hn]. cbn [result_bind]. rewrite <- (Hn (ChatScopeService.allows store (allowedChats k))).
    rewrite <- (check_chats_spec _ [] ids) by (intros c Hx; by inversion Hx).
    destruct (check_chats _ [] ids) as [[]|e]; cbn [result_bind]; [|naive_solver].
    unfold guard_err. destruct (quotedAllowed rt), (quotes r); simpl; naive_solver.
  - simpl. naive_solver.
Qed.

Lemma restricted_spec al : ChatScopeService.isRestricted al = true <-> exists x l, al = Some (x :: l).
Proof.
  unfold ChatScopeService.isRestricted, isChatScopeRestricted. destruct al as [[|x l]|]; simpl; naive_solver.
Qed.

End GuardProofs.
