(* ===== verification/UsageTracker.v ===== *)
(** * API-key usage statistics

    [src/src/modules/auth/api-key-usage-tracker.service.ts]: uses of a key are
    accumulated in memory and written at most once per window, as an increment.
    A write that is awaited is in flight: its delta is neither pending nor
    persisted yet, and it ends by landing or by going back to pending. *)
From S2P Require Import Prelude Counting.
Local Open Scope Z_scope.

Definition STAT_FLUSH_INTERVAL_MS : Z := 60000.

(** The pending increments by key, the writes being awaited, and the persisted
    counts of the keys that have a row. *)
Record Usage := mkUsage {
  pending : gmap string Z;
  inFlight : list (string * Z);
  usageCount : gmap string Z
}.

Definition pendingOf (s : Usage) (k : string) : Z := default 0 (pending s !! k).

(** [record] up to its write; the second component is the [usageCount] of the
    entity it hands back, loaded at [loaded]. *)
Definition record (now : Z) (k : string) (lastUsedAt : option Z) (loaded : Z) (s : Usage) : Usage * Z :=
  let n := pendingOf s k + 1 in
  let due := match lastUsedAt with None => true | Some t => STAT_FLUSH_INTERVAL_MS <=? now - t end in
  (if due then mkUsage (base.delete k (pending s)) ((k, n) :: inFlight s) (usageCount s)
   else mkUsage (<[k := n]> (pending s)) (inFlight s) (usageCount s),
   loaded + n).

(** An awaited write lands: an increment by id, of no row once the key is gone. *)
Definition landed (k : string) (d : Z) (m : gmap string Z) : gmap string Z := alter (Z.add d) k m.

Definition writeLands (i : nat) (s : Usage) : Usage :=
  match inFlight s !! i with
  | None => s
  | Some (k, d) => mkUsage (pending s) (base.delete i (inFlight s)) (landed k d (usageCount s))
  end.

(** An awaited write fails: its delta is merged back. *)
Definition writeFails (i : nat) (s : Usage) : Usage :=
  match inFlight s !! i with
  | None => s
  | Some (k, d) => mkUsage (<[k := pendingOf s k + d]> (pending s)) (base.delete i (inFlight s)) (usageCount s)
  end.

Definition forget (k : string) (s : Usage) : Usage := mkUsage (base.delete k (pending s)) (inFlight s) (usageCount s).

(** [flushPending]: the batch leaves the map before the first write. *)
Definition flushPending (s : Usage) : Usage :=
  mkUsage ∅ (List.filter (fun e => 0 <? snd e) (map_to_list (pending s)) ++ inFlight s)%list (usageCount s).

(** The key's row is deleted. *)
Definition deleteRow (k : string) (s : Usage) : Usage := mkUsage (pending s) (inFlight s) (base.delete k (usageCount s)).

Inductive UsageEvent :=
| Use (now : Z) (k : string) (lastUsedAt : option Z) (loaded : Z)
| Lands (i : nat) | Fails (i : nat) | Flush | Forget (k : string) | Delete (k : string).

Definition usage_event (s : Usage) (e : UsageEvent) : Usage :=
  match e with
  | Use now k last loaded => fst (record now k last loaded s)
  | Lands i => writeLands i s
  | Fails i => writeFails i s
  | Flush => flushPending s
  | Forget k => forget k s
  | Delete k => deleteRow k s
  end.

(** The uses of [k] in a history. *)
Definition uses (k : string) (events : list UsageEvent) : Z :=
  fold_right (fun e acc => match e with Use _ k' _ _ => if String.eqb k' k then 1 + acc else acc | _ => acc end) 0 events.

(** [k] is neither deleted nor forgotten in the history. *)
Definition kept (k : string) (events : list UsageEvent) : bool :=
  forallb (fun e => match e with Forget k' | Delete k' => negb (String.eqb k' k) | _ => true end) events.

(** ** Nothing is lost and nothing is counted twice *)

Definition flying (k : string) (l : list (string * Z)) : Z :=
  fold_right (fun e acc => (if String.eqb (fst e) k then snd e else 0) + acc) 0 l.

Definition accounted (k : string) (s : Usage) : Z := default 0 (usageCount s !! k) + pendingOf s k + flying k (inFlight s).

Definition usage_ok (s : Usage) : Prop :=
  (forall k d, pending s !! k = Some d -> 0 < d) /\ Forall (fun e => 0 < snd e) (inFlight s) /\
  (forall k d, usageCount s !! k = Some d -> 0 <= d).

Lemma flying_app k a b : flying k (a ++ b)%list = flying k a + flying k b.
Proof. unfold flying. induction a as [|e a IH]; simpl; [done|]. rewrite IH. lia. Qed.

Lemma flying_delete k l i k' d :
  l !! i = Some (k', d) -> flying k (base.delete i l) = flying k l - if String.eqb k' k then d else 0.
Proof.
  intros H. pose proof (delete_take_drop l i) as Hd. rewrite Hd, flying_app.
  rewrite <- (take_drop_middle l i (k', d) H) at 3. rewrite flying_app. cbn [flying fold_right fst snd].
  fold (flying k (drop (S i) l)). lia.
Qed.

Lemma flying_perm k a b : a ≡ₚ b -> flying k a = flying k b.
Proof. unfold flying. induction 1; simpl; lia. Qed.

Lemma filter_positive (l : list (string * Z)) : Forall (fun e => 0 < snd e) l -> List.filter (fun e => 0 <? snd e) l = l.
Proof. induction 1 as [|e l He _ IH]; [done|]. cbn [List.filter]. by rewrite (proj2 (Z.ltb_lt _ _) He), IH. Qed.

Lemma flying_pending k (m : gmap string Z) : flying k (map_to_list m) = default 0 (m !! k).
Proof.
  induction m as [|i x m Hi IH] using map_ind; [by rewrite map_to_list_empty, lookup_empty|].
  rewrite (flying_perm k _ _ (map_to_list_insert m i x Hi)). cbn [flying fold_right fst snd].
  fold (flying k (map_to_list m)). rewrite IH. destruct (String.eqb_spec i k) as [->|Hne].
  - rewrite lookup_insert_eq, Hi. simpl. lia.
  - by rewrite lookup_insert_ne.
Qed.

Lemma pending_positive s : usage_ok s -> Forall (fun e => 0 < snd e) (map_to_list (pending s)).
Proof. intros [Hp _]. apply Forall_forall. intros [k d] Hin. apply elem_of_map_to_list in Hin. by apply (Hp k). Qed.

Lemma event_ok s e : usage_ok s -> usage_ok (usage_event s e).
Proof.
  intros HU. pose proof (pending_positive s HU) as Hpl. destruct HU as (Hp & Hf & Hc).
  assert (forall k, 0 <= pendingOf s k) as Hn. { intros k. unfold pendingOf. destruct (pending s !! k) eqn:E; simpl; [apply Hp in E; lia|lia]. }
  destruct e as [now k last loaded|i|i| |k|k]; unfold usage_event, record, writeLands, writeFails, flushPending, forget, deleteRow; cbn [fst].
  - specialize (Hn k). destruct (match last with None => _ | Some _ => _ end); split_and!; cbn [pending inFlight usageCount]; try done.
    + intros k' d [_ H]%lookup_delete_Some. by apply Hp in H.
    + constructor; [simpl; lia|done].
    + intros k' d [[_ <-]|[_ H]]%lookup_insert_Some; [lia|by apply Hp in H].
  - destruct (inFlight s !! i) as [[k d]|] eqn:E; [|done]. pose proof (Forall_lookup_1 _ _ _ _ Hf E) as Hd. simpl in Hd.
    split_and!; [done|by apply Forall_delete|]. cbn [usageCount]. unfold landed. intros k' d'.
    destruct (decide (k = k')) as [->|Hne]; [|rewrite lookup_alter_ne by done; apply Hc].
    rewrite lookup_alter_eq. destruct (usageCount s !! k') as [v|] eqn:Ev; [|done]. simpl. intros [= <-]. specialize (Hc _ _ Ev). lia.
  - destruct (inFlight s !! i) as [[k d]|] eqn:E; [|done]. split_and!; [|by apply Forall_delete|done]. cbn [pending].
    intros k' d' [[_ <-]|[_ H]]%lookup_insert_Some; [|by apply Hp in H].
    specialize (Hn k). pose proof (Forall_lookup_1 _ _ _ _ Hf E). simpl in *. lia.
  - split_and!; cbn [pending inFlight]; [intros k d H; by rewrite lookup_empty in H| |done]. apply Forall_app. split; [|done]. by rewrite filter_positive.
  - split_and!; [|done|done]. cbn [pending]. intros k' d [_ H]%lookup_delete_Some. by apply Hp in H.
  - split_and!; [done|done|]. cbn [usageCount]. intros k' d [_ H]%lookup_delete_Some. by apply Hc in H.
Qed.

Lemma pendingOf_mk p f c k : pendingOf (mkUsage p f c) k = default 0 (p !! k).
Proof. done. Qed.

Lemma landed_at k k' d m : default 0 (landed k' d m !! k) =
  default 0 (m !! k) + if String.eqb k' k then match m !! k with Some _ => d | None => 0 end else 0.
Proof.
  unfold landed. destruct (String.eqb_spec k' k) as [->|Hne].
  - rewrite lookup_alter_eq. destruct (m !! k); simpl; lia.
  - rewrite lookup_alter_ne by done. lia.
Qed.

Lemma row_kept k s e : kept k [e] = true -> is_Some (usageCount s !! k) -> is_Some (usageCount (usage_event s e) !! k).
Proof.
  intros Hk Hr. destruct e as [now k' last loaded|i|i| |k'|k']; unfold usage_event, record, writeLands, writeFails; cbn [fst]; try done.
  - by destruct (match last with None => _ | Some _ => _ end).
  - destruct (inFlight s !! i) as [[k' d]|]; [|done]. cbn [usageCount]. unfold landed.
    destruct (decide (k' = k)) as [->|Hne]; [rewrite lookup_alter_eq; by apply fmap_is_Some|by rewrite lookup_alter_ne].
  - by destruct (inFlight s !! i) as [[k' d]|].
  - cbn in Hk. rewrite andb_true_r in Hk. apply negb_true_iff, String.eqb_neq in Hk. cbn [usageCount deleteRow]. by rewrite lookup_delete_ne.
Qed.

(** One event: a use adds one, a write moves its delta, and only a forgotten or
    deleted key loses any. *)
Lemma event_accounts k s e :
  usage_ok s ->
  accounted k (usage_event s e) <= accounted k s + uses k [e] /\
  (kept k [e] = true -> is_Some (usageCount s !! k) -> accounted k (usage_event s e) = accounted k s + uses k [e]).
Proof.
  intros HU. pose proof (pending_positive s HU) as Hpl. destruct HU as (Hp & Hf & Hc).
  assert (forall k, 0 <= pendingOf s k) as Hn. { intros k0. unfold pendingOf. destruct (pending s !! k0) eqn:E; simpl; [apply Hp in E; lia|lia]. }
  unfold accounted.
  destruct e as [now k' last loaded|i|i| |k'|k']; unfold usage_event, record, writeLands, writeFails, flushPending, forget, deleteRow; cbn [fst uses fold_right kept forallb].
  - destruct (match last with None => _ | Some _ => _ end); cbn [usageCount inFlight flying fold_right fst snd]; fold (flying k (inFlight s));
      rewrite pendingOf_mk; destruct (String.eqb_spec k' k) as [->|Hne].
    + rewrite lookup_delete_eq. cbn [default from_option]. split; intros; lia.
    + rewrite lookup_delete_ne by done. fold (pendingOf s k). split; intros; lia.
    + rewrite lookup_insert_eq. cbn [default from_option Datatypes.id]. split; intros; lia.
    + rewrite lookup_insert_ne by done. fold (pendingOf s k). split; intros; lia.
  - destruct (inFlight s !! i) as [[k' d]|] eqn:E; [|split; intros; lia]. cbn [usageCount inFlight]. rewrite landed_at, (flying_delete k _ _ _ _ E), pendingOf_mk.
    fold (pendingOf s k). pose proof (Forall_lookup_1 _ _ _ _ Hf E) as Hd. simpl in Hd.
    destruct (String.eqb k' k); [|split; intros; lia]. split; [destruct (usageCount s !! k); simpl; lia|].
    intros _ [v Hv]. rewrite Hv. simpl. lia.
  - destruct (inFlight s !! i) as [[k' d]|] eqn:E; [|split; intros; lia]. cbn [usageCount inFlight]. rewrite (flying_delete k _ _ _ _ E), pendingOf_mk.
    destruct (String.eqb_spec k' k) as [->|Hne].
    + rewrite lookup_insert_eq. cbn [default from_option Datatypes.id]. split; intros; lia.
    + rewrite lookup_insert_ne by done. fold (pendingOf s k). split; intros; lia.
  - cbn [usageCount inFlight]. rewrite filter_positive by done. rewrite flying_app, flying_pending, pendingOf_mk, lookup_empty.
    fold (pendingOf s k). cbn [default from_option]. split; intros; lia.
  - cbn [usageCount inFlight]. rewrite andb_true_r, pendingOf_mk.
    specialize (Hn k). destruct (String.eqb_spec k' k) as [->|Hne].
    + rewrite lookup_delete_eq. cbn [default from_option]. split; [lia|done].
    + rewrite lookup_delete_ne by done. fold (pendingOf s k). split; intros; lia.
  - cbn [usageCount inFlight]. rewrite andb_true_r, pendingOf_mk. fold (pendingOf s k).
    destruct (String.eqb_spec k' k) as [->|Hne].
    + rewrite lookup_delete_eq. cbn [default from_option]. split; [|done]. destruct (usageCount s !! k) eqn:E; simpl; [apply Hc in E; lia|lia].
    + rewrite lookup_delete_ne by done. split; intros; lia.
Qed.

Lemma uses_cons k e r : uses k (e :: r) = uses k [e] + uses k r.
Proof. destruct e; simpl; try lia. destruct (String.eqb _ _); lia. Qed.

Lemma kept_cons k e r : kept k (e :: r) = kept k [e] && kept k r.
Proof. unfold kept. cbn [forallb]. by rewrite andb_true_r. Qed.

Lemma events_account k events s :
  usage_ok s ->
  accounted k (fold_left usage_event events s) <= accounted k s + uses k events /\
  (kept k events = true -> is_Some (usageCount s !! k) ->
   accounted k (fold_left usage_event events s) = accounted k s + uses k events).
Proof.
  revert s. induction events as [|e r IH]; intros s HU; [simpl; split; intros; lia|]. cbn [fold_left].
  destruct (event_accounts k s e HU) as [H1 H2]. destruct (IH (usage_event s e) (event_ok s e HU)) as [H3 H4].
  rewrite uses_cons, kept_cons. split; [lia|]. intros [Hk1 Hk2]%andb_true_iff Hr.
  rewrite H4 by (done || by apply row_kept). rewrite H2 by done. lia.
Qed.

(** Usage counts lose nothing and count nothing twice: over any history of
    uses, windowed writes that land or fail, shutdown flushes, and removals of
    keys, what is persisted, pending and in flight for a key never exceeds its
    uses, and equals them as long as the key is neither deleted nor forgotten. *)
Theorem usage_is_conserved k events counts :
  (forall k d, counts !! k = Some d -> 0 <= d) ->
  let s := fold_left usage_event events (mkUsage ∅ [] counts) in
  accounted k s <= default 0 (counts !! k) + uses k events /\
  (kept k events = true -> is_Some (counts !! k) -> accounted k s = default 0 (counts !! k) + uses k events).
Proof.
  intros Hc s. assert (usage_ok (mkUsage ∅ [] counts)) as HU.
  { split_and!; cbn [pending inFlight usageCount]; [intros k' d H; by rewrite lookup_empty in H|constructor|exact Hc]. }
  assert (accounted k (mkUsage ∅ [] counts) = default 0 (counts !! k)) as Ha.
  { unfold accounted. rewrite pendingOf_mk, lookup_empty. simpl. lia. }
  destruct (events_account k events _ HU) as [H1 H2]. rewrite Ha in *. split; [exact H1|]. intros Hk Hr. by apply H2.
Qed.

(** Three uses in a window, a failed write, a flush that lands: all are counted. *)
Lemma usage_is_conserved_witness :
  let s := fold_left usage_event [Use 0 "k" None 7; Use 5 "k" (Some 0) 7; Fails 0; Use 9 "k" (Some 0) 7; Flush; Lands 0]%string
             (mkUsage ∅ [] {["k"%string := 7]}) in
  usageCount s !! "k"%string = Some 10 /\ accounted "k"%string s = 7 + 3.
Proof.
  split; [reflexivity|].
  refine (proj2 (usage_is_conserved "k"%string [Use 0 "k" None 7; Use 5 "k" (Some 0) 7; Fails 0; Use 9 "k" (Some 0) 7; Flush; Lands 0]%string {["k"%string := 7]} _) _ _).
  - intros k d [<- <-]%lookup_singleton_Some. lia.
  - reflexivity.
  - by exists 7.
Defined.
