(* ===== verification/Filters.v ===== *)
(** * Webhook filters

    [src/src/modules/webhook/filters/]: the field registry ([filter-types.ts]),
    evaluation of a webhook's conditions against an event
    ([filter-evaluator.ts]) and validation of what an operator saves
    ([filter-validation.ts]). *)
From S2P Require Import Prelude JsString Json WaId ChatScope LidStore.
Local Open Scope string_scope.

(** ** The field registry *)

Inductive FieldKind := FId | FIdArray | FText | FEnum | FBoolean.
#[export] Instance FieldKind_eq : EqDecision FieldKind.
Proof. solve_decision. Defined.

Definition MESSAGE_TYPES : list string :=
  ["text"; "image"; "video"; "audio"; "voice"; "document"; "sticker"; "location"; "contact"; "poll"; "call";
   "revoked"; "order"; "product"; "masked"; "unknown"].
Definition CHAT_KINDS : list string := ["individual"; "group"; "channel"; "status"; "broadcast"; "unknown"].

Definition MAX_CONDITIONS : nat := 20.
Definition MAX_VALUES_PER_CONDITION : nat := 100.
Definition MAX_TEXT_VALUE_LENGTH : nat := 1000.
Definition MAX_ID_VALUE_LENGTH : nat := 128.

Definition ID_OPERATORS : list string := ["is"; "isNot"].
Definition TEXT_OPERATORS : list string := ["contains"; "equals"].
Definition ENUM_OPERATORS : list string := ["is"; "isNot"].
Definition BOOLEAN_OPERATORS : list string := ["is"].

Record FieldDefinition := mkField {
  f_field : string;
  f_kind : FieldKind;
  f_operators : list string;
  f_resolve : json -> option json;
  f_enumValues : option (list string)
}.

(** [a ?? b] on strings. *)
Definition or_else (a b : option string) : option string := match a with Some _ => a | None => b end.

Definition is_true (o : option json) : bool := match o with Some (JBool true) => true | _ => false end.

Definition chat_kind_name (k : ChatKind) : string :=
  match k with
  | CIndividual => "individual" | CGroup => "group" | CChannel => "channel"
  | CStatus => "status" | CBroadcast => "broadcast" | CUnknown => "unknown"
  end.

Definition message_fields : list FieldDefinition := [
  mkField "sender" FId ID_OPERATORS
    (fun data => JStr <$> or_else (str (field data "author")) (str (field data "from"))) None;
  mkField "recipient" FId ID_OPERATORS (fun data => JStr <$> str (field data "to")) None;
  mkField "chatId" FId ID_OPERATORS (fun data => JStr <$> str (field data "chatId")) None;
  mkField "body" FText TEXT_OPERATORS (fun data => Some (JStr (default "" (str (field data "body"))))) None;
  mkField "type" FEnum ENUM_OPERATORS (fun data => JStr <$> str (field data "type")) (Some MESSAGE_TYPES);
  mkField "isGroup" FBoolean BOOLEAN_OPERATORS (fun data => Some (JBool (is_true (field data "isGroup")))) None;
  mkField "kind" FEnum ENUM_OPERATORS
    (fun data => match truthy (str (field data "kind")) with
                 | Some k => Some (JStr k)
                 | None => (fun c => JStr (chat_kind_name (chatKind c))) <$> truthy (str (field data "chatId"))
                 end) (Some CHAT_KINDS);
  mkField "fromMe" FBoolean BOOLEAN_OPERATORS (fun data => Some (JBool (is_true (field data "fromMe")))) None;
  mkField "hasMedia" FBoolean BOOLEAN_OPERATORS
    (fun data => Some (JBool (is_true (field data "hasMedia") || negb (nullish (field data "media"))))) None;
  mkField "mentions" FIdArray ID_OPERATORS
    (fun data => Some (match field data "mentionedIds" with Some (JArr l) => JArr l | _ => JArr [] end)) None
].

Definition FILTER_FIELDS : list (string * list FieldDefinition) := [("message", message_fields)].

Definition eventFamily (event : string) : string :=
  match lsplit "." event with Some (family, _) => family | None => event end.

Definition find_field (defs : list FieldDefinition) (name : string) : option FieldDefinition :=
  List.find (fun f => String.eqb (f_field f) name) defs.

Definition getFieldDefinition (family name : string) : option FieldDefinition :=
  match JMap.get family FILTER_FIELDS with Some defs => find_field defs name | None => None end.

Fixpoint findFieldDefinition_in (families : list (string * list FieldDefinition)) (name : string) : option FieldDefinition :=
  match families with
  | [] => None
  | (_, defs) :: rest =>
      match find_field defs name with Some f => Some f | None => findFieldDefinition_in rest name end
  end.
Definition findFieldDefinition (name : string) : option FieldDefinition := findFieldDefinition_in FILTER_FIELDS name.

(** ** Evaluation *)

Record Condition := mkCondition {
  c_field : string;
  c_operator : string;
  c_value : option json;
  c_caseSensitive : bool
}.

Definition canonicalActor (jid : string) (resolve : option LidResolver) : string :=
  toLowerCase (toNeutralJid jid resolve).

Fixpoint digits_only (s : string) : string :=
  match s with
  | EmptyString => ""
  | String c r => if is_digit c then String c (digits_only r) else digits_only r
  end.

Definition canonicalInput (value : string) (resolve : option LidResolver) : string :=
  let trimmed := trim value in
  if negb (String.eqb trimmed "") && negb (has_char "@" trimmed)
  then toLowerCase ((if String.eqb (digits_only trimmed) "" then trimmed else digits_only trimmed) +:+ "@c.us")
  else toLowerCase (toNeutralJid trimmed resolve).

Definition is_lid (v : string) : bool := bool_decide (kind (parseWaId v) = KLid).

Definition identitiesIntersect (candidates actual : list string) (resolve : option LidResolver) : bool :=
  let literal := map (fun v => canonicalInput v None) candidates in
  let lidPhones := map (fun v => canonicalInput v resolve) (List.filter is_lid candidates) in
  existsb (fun jid =>
    let key := canonicalActor jid None in
    if bool_decide (key ∈ literal) then true
    else match kind (parseWaId jid) with
         | KLid => bool_decide (canonicalActor jid resolve ∈ literal)
         | KUser => bool_decide (key ∈ lidPhones)
         | _ => false
         end) actual.

Definition negate_if (operator : string) (b : bool) : bool := if String.eqb operator "isNot" then negb b else b.

Definition evaluateCondition (def : FieldDefinition) (c : Condition) (data : json) (resolve : option LidResolver) : bool :=
  let resolved := f_resolve def data in
  match f_kind def with
  | FId =>
      let actual := match resolved with Some (JStr s) => [s] | _ => [] end in
      negate_if (c_operator c) (identitiesIntersect (toStringArray (c_value c)) actual resolve)
  | FEnum =>
      negate_if (c_operator c)
        (match str resolved with Some a => bool_decide (a ∈ toStringArray (c_value c)) | None => false end)
  | FIdArray =>
      negate_if (c_operator c) (identitiesIntersect (toStringArray (c_value c)) (toStringArray resolved) resolve)
  | FBoolean =>
      match resolved with Some (JBool b) => Bool.eqb b (is_true (c_value c)) | _ => false end
  | FText =>
      match c_value c with
      | Some (JStr value) =>
          let fold := fun s => if c_caseSensitive c then s else toLowerCase s in
          let haystack := fold (default "" (str resolved)) in
          if String.eqb (c_operator c) "equals" then String.eqb haystack (fold value) else includes haystack (fold value)
      | _ => true
      end
  end.

(** [evaluateFilters]; absent or empty filters are the empty list. *)
Definition evaluateFilters (conditions : list Condition) (event : string) (data : json) (resolve : option LidResolver) : bool :=
  let family := eventFamily event in
  forallb (fun c => match getFieldDefinition family (c_field c) with
                    | Some def => evaluateCondition def c data resolve
                    | None => true
                    end) conditions.

(** The lids one condition may ask the resolver about. *)
Definition condition_lids (family : string) (data : json) (c : Condition) : list string :=
  match getFieldDefinition family (c_field c) with
  | Some def =>
      match f_kind def with
      | FId | FIdArray =>
          let actual := match f_resolve def data with Some (JStr s) => [s] | v => toStringArray v end in
          map (fun j => userPart (parseWaId j)) (List.filter is_lid (actual ++ toStringArray (c_value c))%list)
      | _ => []
      end
  | None => []
  end.

(** [prepareFilterLidResolver] over the filters of every webhook an event may
    reach: one batched read, [None] when it failed. *)
Definition prepareFilterLidResolver (filters : list (list Condition)) (event : string) (data : json)
    (read : list string -> option (gmap string (option string))) : LidResolver :=
  let lids := set_of_list (concat (map (fun cs => concat (map (condition_lids (eventFamily event) data) cs)) filters)) in
  let phones := match lids with [] => ∅ | _ => default ∅ (read lids) end in
  fun jid => default None (phones !! userPart (parseWaId jid)).

(** ** Validation *)

Definition OPERATORS : list string := ["is"; "isNot"; "contains"; "equals"].
Definition CONDITION_KEYS : list string := ["field"; "operator"; "value"; "caseSensitive"].

(** One entry of a value list. *)
Definition validateEntry (boundIds : bool) (def : FieldDefinition) (v : json) : option string :=
  match v with
  | JStr s =>
      if (String.length s =? 0)%nat then Some "entries must be non-empty strings"
      else if boundIds && negb (bool_decide (f_kind def = FEnum)) && (MAX_ID_VALUE_LENGTH <? String.length s)%nat
      then Some "entries exceed 128 chars"
      else if bool_decide (f_kind def = FEnum) &&
              match f_enumValues def with Some vs => negb (bool_decide (s ∈ vs)) | None => false end
      then Some "not a valid value" else None
  | _ => Some "entries must be non-empty strings"
  end.

Fixpoint first_error (f : json -> option string) (l : list json) : option string :=
  match l with
  | [] => None
  | v :: r => match f v with Some e => Some e | None => first_error f r end
  end.

Definition validateValue (boundIds : bool) (def : FieldDefinition) (value : option json) : option string :=
  match f_kind def with
  | FBoolean => match value with Some (JBool _) => None | _ => Some "value must be a boolean" end
  | FText =>
      match value with
      | Some (JStr s) => if (MAX_TEXT_VALUE_LENGTH <? String.length s)%nat then Some "value exceeds 1000 chars" else None
      | _ => Some "value must be a string"
      end
  | FId | FIdArray | FEnum =>
      match value with
      | Some (JArr l) =>
          if (length l =? 0)%nat then Some "value must be a non-empty array"
          else if (MAX_VALUES_PER_CONDITION <? length l)%nat then Some "value exceeds 100 entries"
          else first_error (validateEntry boundIds def) l
      | _ => Some "value must be a non-empty array"
      end
  end.

Definition validateCondition (boundIds : bool) (condition : json) : option string :=
  match condition with
  | JArr _ | JObj _ =>
      let unknown := List.filter (fun k => negb (bool_decide (k ∈ CONDITION_KEYS)))
                       (match condition with JObj fs => map fst fs | JArr l => map (fun _ => "index") l | _ => [] end) in
      if (0 <? length unknown)%nat then Some "has unknown key(s)"
      else match field condition "field" with
           | Some (JStr name) =>
               match findFieldDefinition name with
               | None => Some "is not a recognized filter field"
               | Some def =>
                   match field condition "operator" with
                   | Some (JStr op) =>
                       if negb (bool_decide (op ∈ OPERATORS)) then Some "operator is invalid"
                       else if negb (bool_decide (op ∈ f_operators def)) then Some "operator is not allowed for field"
                       else match field condition "caseSensitive" with
                            | None | Some (JBool _) => validateValue boundIds def (field condition "value")
                            | Some _ => Some "caseSensitive must be a boolean"
                            end
                   | _ => Some "operator is invalid"
                   end
               end
           | _ => Some "field must be a string"
           end
  | _ => Some "must be an object"
  end.

Definition collectFilterErrors (value : option json) (boundIds : bool) : list string :=
  match value with
  | None | Some JNull => []
  | Some (JObj _ as v) | Some (JArr _ as v) =>
      let extra := List.filter (fun k => negb (String.eqb k "conditions"))
                     (match v with JObj fs => map fst fs | JArr l => map (fun _ => "index") l | _ => [] end) in
      if (0 <? length extra)%nat then ["filters has unknown key(s)"]
      else match field v "conditions" with
           | Some (JArr cs) =>
               if (MAX_CONDITIONS <? length cs)%nat then ["filters.conditions exceeds 20 entries"]
               else omap (validateCondition boundIds) cs
           | _ => ["filters.conditions must be an array"]
           end
  | Some _ => ["filters must be an object"]
  end.

(** A stored condition as the evaluator destructures it. *)
Definition condition_of (v : json) : Condition :=
  mkCondition (default "" (str (field v "field"))) (default "" (str (field v "operator"))) (field v "value")
    (is_true (field v "caseSensitive")).

(** ** Who a condition's value names *)

(** The entity a filter value names: a bare value the phone it writes. *)
Definition cand_entity (v : string) : option (string * string) :=
  let t := trim v in
  if negb (String.eqb t "") && negb (has_char "@" t)
  then Some ("c.us", toLowerCase (if String.eqb (digits_only t) "" then t else digits_only t))
  else entity t.

(** What the resolver answers about a lid. *)
Definition answer (resolve : option LidResolver) (jid : string) : option string :=
  truthy (match resolve with Some r => r jid | None => None end).

(** A value and an actor are one contact: the same id, or a lid and the phone it
    resolves to, in either direction. *)
Definition same_actor (resolve : option LidResolver) (v jid : string) : Prop :=
  exists a b, cand_entity v = Some a /\ entity jid = Some b /\
    (a = b \/
     (exists p, fst b = "lid" /\ answer resolve jid = Some p /\ a = ("c.us", p)) \/
     (exists p, b = ("c.us", p) /\ fst a = "lid" /\ answer resolve v = Some p)).

Lemma parse_trim j : kind (parseWaId (trim j)) = kind (parseWaId j) /\ userPart (parseWaId (trim j)) = userPart (parseWaId j).
Proof. unfold parseWaId. rewrite trim_idem. by repeat case_match. Qed.

Lemma entity_trim j : entity (trim j) = entity j.
Proof. unfold entity. destruct (parse_trim j) as [-> ->]. done. Qed.

Lemma entity_by_lower a b : toLowerCase (trim a) = toLowerCase (trim b) -> entity a = entity b.
Proof. intros H. unfold entity, parseWaId. rewrite H. by repeat case_match. Qed.

Lemma neutral_lower l d : good_local l -> d ∈ neutral_domains -> toLowerCase (l +:+ String "@" d) = l +:+ String "@" d.
Proof.
  intros (_ & Hl & _) Hd. rewrite lower_app, Hl. simpl. f_equal. f_equal.
  unfold neutral_domains in Hd. repeat (apply elem_of_cons in Hd as [->|Hd]; [done|]). by inversion Hd.
Qed.

Lemma neutral_domain_no_at d : d ∈ neutral_domains -> has_char "@" d = false.
Proof. intros Hd. unfold neutral_domains in Hd. repeat (apply elem_of_cons in Hd as [->|Hd]; [done|]). by inversion Hd. Qed.

Lemma canonicalInput_spec v d l :
  good_local l -> d ∈ neutral_domains ->
  (canonicalInput v None = l +:+ String "@" d <-> cand_entity v = Some (d, l)).
Proof.
  intros Hl Hd. unfold canonicalInput, cand_entity. set (t := trim v).
  destruct (negb (String.eqb t "") && negb (has_char "@" t)) eqn:Hb.
  - rewrite lower_app. change (toLowerCase "@c.us") with (String "@" "c.us"). split.
    + intros H. apply at_split_inj in H as [-> <-]; [done|done|by apply neutral_domain_no_at].
    + by intros [= <- <-].
  - destruct (entity t) as [[d' l']|] eqn:He.
    + rewrite (toNeutralJid_entity t d' l' He). destruct (entity_good _ _ _ He) as [Hd' Hl'].
      rewrite neutral_lower by done. split; [|by intros [= -> ->]].
      intros H. apply at_split_inj in H as [-> ->]; [done|by apply neutral_domain_no_at..].
    + split; [|done]. rewrite toNeutralJid_unknown by done. intros H. exfalso.
      assert (entity t = entity (l +:+ String "@" d)) as E.
      { apply entity_by_lower. unfold t in *. rewrite trim_idem, H, neutral_trimmed by done. by rewrite neutral_lower. }
      rewrite entity_neutral in E by done. congruence.
Qed.

Lemma canonicalActor_spec jid d l : entity jid = Some (d, l) -> canonicalActor jid None = l +:+ String "@" d.
Proof.
  intros He. unfold canonicalActor. rewrite (toNeutralJid_entity jid d l He).
  destruct (entity_good _ _ _ He) as [Hd Hl]. by apply neutral_lower.
Qed.

Definition answers_good (resolve : option LidResolver) : Prop :=
  (forall a b, userPart (parseWaId a) = userPart (parseWaId b) -> answer resolve a = answer resolve b) /\
  (forall a p, answer resolve a = Some p -> good_local p).

Lemma toNeutral_answer j resolve :
  toNeutralJid j resolve =
    match kind (parseWaId j), answer resolve j with
    | KLid, Some p => p +:+ String "@" "c.us"
    | _, _ => toNeutralJid j None
    end.
Proof.
  destruct resolve as [f|]; [apply toNeutralJid_resolver|]. simpl. by destruct (kind (parseWaId j)).
Qed.

Lemma cus_neutral : "c.us" ∈ neutral_domains.
Proof. unfold neutral_domains. set_solver. Qed.
#[export] Hint Resolve cus_neutral : openwa.

(** A lid actor with its resolver. *)
Lemma canonicalActor_lid jid l resolve :
  answers_good resolve -> entity jid = Some ("lid", l) ->
  canonicalActor jid resolve =
    match answer resolve jid with Some p => p +:+ String "@" "c.us" | None => l +:+ String "@" "lid" end.
Proof.
  intros [_ Hg] He. pose proof He as He'. apply kind_entity_lid in He' as [Hk _].
  destruct (answer resolve jid) as [p|] eqn:Ha.
  - unfold canonicalActor. rewrite toNeutral_answer, Hk, Ha.
    apply neutral_lower; [by eapply Hg|apply cus_neutral].
  - rewrite <- (canonicalActor_spec jid "lid" l He). unfold canonicalActor. by rewrite toNeutral_answer, Hk, Ha.
Qed.

Lemma lid_has_at v : kind (parseWaId v) = KLid -> negb (String.eqb (trim v) "") && negb (has_char "@" (trim v)) = false.
Proof.
  intros Hk. destruct (has_char "@" (trim v)) eqn:Ha; [apply andb_false_r|]. exfalso.
  unfold parseWaId in Hk. rewrite <- lower_has_at in Ha. apply rsplit_None in Ha. rewrite Ha in Hk.
  by destruct (String.eqb _ "status@broadcast").
Qed.

(** A lid value with its resolver. *)
Lemma canonicalInput_lid v l resolve u :
  answers_good resolve -> good_local u -> kind (parseWaId v) = KLid -> userPart (parseWaId v) = l ->
  (canonicalInput v resolve = u +:+ String "@" "c.us" <-> answer resolve v = Some u).
Proof.
  intros Hg Hu Hk Hl. unfold canonicalInput. rewrite (lid_has_at v Hk).
  assert (entity (trim v) = Some ("lid", l)) as He by (rewrite entity_trim; by apply kind_entity_lid).
  fold (canonicalActor (trim v) resolve). rewrite (canonicalActor_lid (trim v) l resolve Hg He).
  rewrite (proj1 Hg (trim v) v) by apply parse_trim.
  destruct (answer resolve v) as [p|].
  - split; [|by intros [= ->]]. intros H. by apply at_split_inj in H as [-> _].
  - split; [|done]. intros H. by apply at_split_inj in H as [_ ?].
Qed.

Lemma literal_elem_iff cands d l :
  good_local l -> d ∈ neutral_domains ->
  (l +:+ String "@" d ∈ map (fun v => canonicalInput v None) cands <-> exists v, v ∈ cands /\ cand_entity v = Some (d, l)).
Proof.
  intros Hl Hd. rewrite elem_of_map. setoid_rewrite <- (canonicalInput_spec _ d l Hl Hd). naive_solver.
Qed.

Lemma lidPhones_elem_iff cands resolve u :
  answers_good resolve -> good_local u ->
  (u +:+ String "@" "c.us" ∈ map (fun v => canonicalInput v resolve) (List.filter is_lid cands) <->
   exists v, v ∈ cands /\ kind (parseWaId v) = KLid /\ answer resolve v = Some u).
Proof.
  intros Hg Hu. rewrite elem_of_map. unfold is_lid. split.
  - intros (v & E & Hv). apply list_elem_of_In, filter_In in Hv as [Hin Hk]. apply list_elem_of_In in Hin. bool_facts.
    exists v. split_and!; [done|done|]. by eapply canonicalInput_lid.
  - intros (v & Hin & Hk & Ha). exists v. split; [symmetry; by eapply canonicalInput_lid|].
    apply list_elem_of_In, filter_In. rewrite <- list_elem_of_In. split; [done|]. by apply bool_decide_eq_true.
Qed.

Lemma cand_entity_lid v l : cand_entity v = Some ("lid", l) <-> kind (parseWaId v) = KLid /\ userPart (parseWaId v) = l.
Proof.
  unfold cand_entity. rewrite entity_trim. split.
  - case_match; [done|]. apply kind_entity_lid.
  - intros [Hk Hl]. rewrite (lid_has_at v Hk). by apply kind_entity_lid.
Qed.

Lemma actor_matches cands resolve jid e :
  answers_good resolve -> entity jid = Some e ->
  (identitiesIntersect cands [jid] resolve = true <-> exists v, v ∈ cands /\ same_actor resolve v jid).
Proof.
  intros Hg He. destruct e as [d l]. destruct (entity_good _ _ _ He) as [Hd Hl].
  unfold identitiesIntersect. cbn [existsb]. rewrite orb_false_r, (canonicalActor_spec jid d l He).
  pose proof (literal_elem_iff cands d l Hl Hd) as Hlit.
  case_bool_decide as Hin.
  { split; [|done]. intros _. apply Hlit in Hin as (v & Hv & Ev). exists v. split; [done|]. exists (d, l), (d, l). auto. }
  assert (forall v, v ∈ cands -> cand_entity v <> Some (d, l)) as Hno by (intros v Hv E; apply Hin, Hlit; eauto).
  assert (Hnone : d <> "c.us" -> d <> "lid" -> ~ exists v, v ∈ cands /\ same_actor resolve v jid).
  { intros Hc Hlid (v & Hv & a & b & Ea & Eb & Hx). rewrite He in Eb. injection Eb as <-.
    destruct Hx as [->|[(p & Hf & _)|(p & [= -> ->] & _)]]; [by destruct (Hno v Hv)|done|done]. }
  pose proof He as He'. unfold entity in He'.
  destruct (kind (parseWaId jid)) eqn:Hk; simpl in He'; simplify_eq; try (split; [done|by intros []%Hnone]).
  - rewrite bool_decide_eq_true, (lidPhones_elem_iff cands resolve _ Hg Hl). split.
    + intros (v & Hv & Hkv & Ha). exists v. split; [done|].
      exists ("lid", userPart (parseWaId v)), ("c.us", userPart (parseWaId jid)).
      split_and!; [by apply cand_entity_lid|done|]. right. right. eauto.
    + intros (v & Hv & [da la] & b & Ea & Eb & Hc). rewrite He in Eb. injection Eb as <-.
      destruct Hc as [Hab|[(p & Hf & _)|(p & [= <-] & Hf & Ha)]]; [rewrite Hab in Ea; by destruct (Hno v Hv)|done|].
      simpl in Hf. subst da.
      apply cand_entity_lid in Ea as [Hkv _]. eauto.
  - rewrite bool_decide_eq_true, (canonicalActor_lid jid _ resolve Hg He).
    destruct (answer resolve jid) as [p|] eqn:Ha.
    + rewrite (literal_elem_iff cands "c.us" p (proj2 Hg _ _ Ha) cus_neutral). split.
      * intros (v & Hv & Ev). exists v. split; [done|]. eexists _, _. split_and!; [done|done|]. right. left. eauto.
      * intros (v & Hv & a & b & Ea & Eb & Hc). rewrite He in Eb. injection Eb as <-.
        destruct Hc as [->|[(p' & _ & Hp & ->)|(p' & [=] & _)]]; [by destruct (Hno v Hv)|]. rewrite Ha in Hp. injection Hp as <-. eauto.
    + split; [by intros ?|]. intros (v & Hv & a & b & Ea & Eb & Hc). rewrite He in Eb. injection Eb as <-.
      destruct Hc as [->|[(p' & _ & Hp & _)|(p' & [=] & _)]]; [by destruct (Hno v Hv)|congruence].
Qed.

(** ** Properties *)

(** An id condition decides by contact.  For an event whose field holds a
    recognised id, an is condition passes exactly when some value of the
    condition names that contact (the same user, group, lid, channel or list in
    any spelling, a bare number for its phone, or a lid and the phone the resolver
    pairs it with, never two lids of one phone), and an isNot condition exactly
    when none does. *)
Theorem id_condition_matches_contact def c data resolve jid e :
  f_kind def = FId -> f_resolve def data = Some (JStr jid) -> entity jid = Some e -> answers_good resolve ->
  c_operator c = "is" \/ c_operator c = "isNot" ->
  (evaluateCondition def c data resolve = true <->
   (if String.eqb (c_operator c) "isNot" then ~ (exists v, v ∈ toStringArray (c_value c) /\ same_actor resolve v jid)
    else exists v, v ∈ toStringArray (c_value c) /\ same_actor resolve v jid)).
Proof.
  intros Hk Hr He Hg Hop. unfold evaluateCondition, negate_if. rewrite Hk, Hr.
  pose proof (actor_matches (toStringArray (c_value c)) resolve jid e Hg He) as Hm.
  destruct (String.eqb (c_operator c) "isNot"); [|done].
  rewrite negb_true_iff, <- not_true_iff_false. by rewrite Hm.
Qed.

Definition demo_resolve : option LidResolver :=
  Some (fun j => if String.eqb (userPart (parseWaId j)) "1001" then Some "628111" else None).

Lemma demo_resolve_good : answers_good demo_resolve.
Proof.
  split.
  - intros a b E. unfold answer, demo_resolve. by rewrite E.
  - intros a p. unfold answer, demo_resolve. destruct (String.eqb _ _); [|done]. intros [= <-]. by repeat split.
Qed.

Lemma id_condition_matches_contact_witness :
  evaluateCondition (mkField "sender" FId ID_OPERATORS (fun d => field d "author") None)
    (mkCondition "sender" "is" (Some (JArr [JStr "+62 8111"])) false) (JObj [("author", JStr "1001:7@lid")]) demo_resolve = true.
Proof.
  apply (id_condition_matches_contact (mkField "sender" FId ID_OPERATORS (fun d => field d "author") None)
    (mkCondition "sender" "is" (Some (JArr [JStr "+62 8111"])) false) (JObj [("author", JStr "1001:7@lid")]) demo_resolve
    "1001:7@lid" ("lid", "1001")); [reflexivity|reflexivity|reflexivity|apply demo_resolve_good|left; reflexivity|].
  exists "+62 8111". split; [apply list_elem_of_here|].
  exists ("c.us", "628111"), ("lid", "1001"). split; [reflexivity|]. split; [reflexivity|].
  right. left. exists "628111". split; [reflexivity|]. split; reflexivity.
Defined.

(** *** The resolver prepared for an event *)

Lemma identities_ext cands actual r1 r2 :
  (forall j, j ∈ (actual ++ cands)%list -> kind (parseWaId j) = KLid ->
     forall j', userPart (parseWaId j') = userPart (parseWaId j) -> answer r1 j' = answer r2 j') ->
  identitiesIntersect cands actual r1 = identitiesIntersect cands actual r2.
Proof.
  intros Heq. unfold identitiesIntersect.
  assert (map (fun v => canonicalInput v r1) (List.filter is_lid cands) =
          map (fun v => canonicalInput v r2) (List.filter is_lid cands)) as ->.
  { apply map_ext_in. intros v Hv. apply filter_In in Hv as [Hv Hk]. apply list_elem_of_In in Hv. unfold is_lid in Hk. bool_facts.
    unfold canonicalInput. rewrite (lid_has_at v Hk), (toNeutral_answer _ r1), (toNeutral_answer _ r2).
    rewrite (Heq v); [done|by apply elem_of_app; right|done|apply parse_trim]. }
  apply existsb_ext_elem. intros j Hj. case_bool_decide; [done|].
  destruct (kind (parseWaId j)) eqn:Hk; try done.
  assert (canonicalActor j r1 = canonicalActor j r2) as ->; [|done].
  unfold canonicalActor. rewrite (toNeutral_answer _ r1), (toNeutral_answer _ r2).
  by rewrite (Heq j) by (try done; apply elem_of_app; by left).
Qed.

Lemma condition_ext family data c def r1 r2 :
  getFieldDefinition family (c_field c) = Some def ->
  (forall j l, l ∈ condition_lids family data c -> userPart (parseWaId j) = l -> answer r1 j = answer r2 j) ->
  evaluateCondition def c data r1 = evaluateCondition def c data r2.
Proof.
  intros Hd Heq. unfold evaluateCondition. destruct (f_kind def) eqn:Hk; try done; f_equal; apply identities_ext;
    intros j Hj Hlid j' Hu; apply (Heq j' (userPart (parseWaId j))); try done;
    unfold condition_lids; rewrite Hd, Hk; apply elem_of_map; exists j; (split; [done|]);
    apply list_elem_of_In, filter_In; (split; [|unfold is_lid; by apply bool_decide_eq_true]); apply list_elem_of_In.
  - destruct (f_resolve def data) as [[]|]; try done; rewrite elem_of_app in *; set_solver.
  - destruct (f_resolve def data) as [[]|]; try done; rewrite elem_of_app in *; set_solver.
Qed.

Section Prepared.
Context {S : Type} `{LidDirectory S} (s : S) {laws : LidDirectoryLaws S s}.

(** The store asked about each lid as it comes up. *)
Definition live_resolver : LidResolver := fun jid => dir_phone s (userPart (parseWaId jid)).

Lemma condition_lids_good family data c l : l ∈ condition_lids family data c -> good_local l.
Proof.
  unfold condition_lids. destruct (getFieldDefinition family (c_field c)) as [def|]; [|intros H0; by inversion H0].
  destruct (f_kind def); intros H0; try (by inversion H0); apply elem_of_map in H0 as (j & -> & Hj);
    apply list_elem_of_In, filter_In in Hj as [_ Hk]; unfold is_lid in Hk; bool_facts;
    assert (entity j = Some ("lid", userPart (parseWaId j))) as He by (by apply kind_entity_lid);
    by apply entity_good in He as [_ ?].
Qed.

(** One batched read is enough.  The resolver prepared before an event fans
    out to several webhooks, from a single read of the lids their filters and the
    event mention, gives every one of them the decision a live lookup per lid
    would give. *)
Theorem prepared_resolver_is_live filters event data cs :
  cs ∈ filters ->
  evaluateFilters cs event data (Some (prepareFilterLidResolver filters event data (fun ls => Some (dir_phones s ls)))) =
  evaluateFilters cs event data (Some live_resolver).
Proof.
  intros Hcs. unfold evaluateFilters. set (family := eventFamily event).
  cut (forall c, c ∈ cs -> match getFieldDefinition family (c_field c) with
         | Some def => evaluateCondition def c data (Some (prepareFilterLidResolver filters event data (fun ls => Some (dir_phones s ls))))
         | None => true end = match getFieldDefinition family (c_field c) with
         | Some def => evaluateCondition def c data (Some live_resolver) | None => true end).
  { intros Hall. clear Hcs. induction cs as [|c cs IH]; simpl; [done|].
    rewrite (Hall c) by (by left). f_equal. apply IH. intros c' Hc'. apply Hall. by right. }
  intros c Hc. destruct (getFieldDefinition family (c_field c)) as [def|] eqn:Hd; [|done].
  apply (condition_ext family data c def); [done|]. intros j l Hl Hu. unfold answer, live_resolver, prepareFilterLidResolver.
  rewrite Hu. fold family. set (lids := set_of_list _).
  assert (l ∈ lids) as Hin.
  { unfold lids. apply elem_of_set_of_list. apply list_elem_of_In, in_concat.
    eexists. split; [apply in_map; apply list_elem_of_In; exact Hcs|]. apply in_concat.
    eexists. split; [apply in_map; apply list_elem_of_In; exact Hc|]. by apply list_elem_of_In. }
  destruct lids as [|x xs] eqn:El; [by inversion Hin|]. simpl.
  destruct (dir_phones_total (x :: xs) l Hin) as [o Ho]. rewrite Ho. simpl.
  destruct (dir_phones_spec _ _ _ Ho) as [_ Hs]. by rewrite (Hs (condition_lids_good _ _ _ _ Hl)).
Qed.
End Prepared.

Definition demo_condition (v : string) : Condition := mkCondition "sender" "is" (Some (JArr [JStr v])) false.

Lemma prepared_resolver_is_live_witness :
  evaluateFilters [demo_condition "628111"] "message.received" (JObj [("from", JStr "1001@lid")])
    (Some (prepareFilterLidResolver [[demo_condition "5551"]; [demo_condition "628111"]] "message.received"
             (JObj [("from", JStr "1001@lid")]) (fun ls => Some (dir_phones demo_store ls)))) = true.
Proof.
  rewrite (prepared_resolver_is_live demo_store (laws := LidStore_laws demo_store (fresh_wf _ _ _))
    [[demo_condition "5551"]; [demo_condition "628111"]] "message.received" (JObj [("from", JStr "1001@lid")]));
    [vm_compute; reflexivity|apply list_elem_of_further, list_elem_of_here].
Defined.

(** *** What validation bounds *)

(** A value list entry that may be stored. *)
Definition entry_fits (def : FieldDefinition) (v : json) : Prop :=
  exists s, v = JStr s /\ (1 <= String.length s)%nat /\
    (f_kind def <> FEnum -> (String.length s <= MAX_ID_VALUE_LENGTH)%nat) /\
    (f_kind def = FEnum -> forall vs, f_enumValues def = Some vs -> s ∈ vs).

(** A condition that may be stored: a registered field, an operator of that
    field, and a value of the field's shape within its bounds. *)
Definition condition_fits (v : json) : Prop :=
  exists def, findFieldDefinition (c_field (condition_of v)) = Some def /\
    c_operator (condition_of v) ∈ f_operators def /\
    match f_kind def with
    | FBoolean => exists b, c_value (condition_of v) = Some (JBool b)
    | FText => exists s, c_value (condition_of v) = Some (JStr s) /\ (String.length s <= MAX_TEXT_VALUE_LENGTH)%nat
    | FId | FIdArray | FEnum =>
        exists l, c_value (condition_of v) = Some (JArr l) /\ (1 <= length l <= MAX_VALUES_PER_CONDITION)%nat /\
          Forall (entry_fits def) l
    end.

Lemma first_error_None f l : first_error f l = None <-> Forall (fun v => f v = None) l.
Proof.
  induction l as [|v l IH]; simpl; [by split|]. rewrite Forall_cons, <- IH.
  destruct (f v); naive_solver.
Qed.

Lemma validateEntry_None def v : validateEntry true def v = None -> entry_fits def v.
Proof.
  unfold validateEntry, entry_fits. destruct v as [| | |s| |]; try done.
  destruct (String.length s =? 0)%nat eqn:H0; [done|]. cbn [andb].
  destruct (negb (bool_decide (f_kind def = FEnum)) && _) eqn:H1; [done|].
  destruct (bool_decide (f_kind def = FEnum) && _) eqn:H2; [done|]. intros _. exists s. bool_facts.
  split_and!; [done|lia| |].
  - intros Hk. rewrite bool_decide_false in H1 by done. simpl in H1. by bool_facts.
  - intros Hk vs Hvs. rewrite bool_decide_true, Hvs in H2 by done. simpl in H2. by bool_facts.
Qed.

Lemma validateCondition_None v : validateCondition true v = None -> condition_fits v.
Proof.
  unfold validateCondition, condition_fits, condition_of. cbn [c_field c_operator c_value].
  destruct v as [| | | |l|fs]; try done; (destruct (0 <? length _)%nat; [done|]);
    [by destruct l|]. set (v := JObj fs).
  destruct (field v "field") as [[| | |name| |]|]; try done. cbn [str default from_option id].
  destruct (findFieldDefinition name) as [def|]; [|done]. intros H. exists def. split; [done|]. revert H.
  destruct (field v "operator") as [[| | |op| |]|]; try done. cbn [str default from_option id].
  destruct (negb (bool_decide (op ∈ OPERATORS))); [done|].
  destruct (negb (bool_decide (op ∈ f_operators def))) eqn:Hop; [done|]. bool_facts. intros H. split; [done|].
  assert (validateValue true def (field v "value") = None) as Hv
    by (destruct (field v "caseSensitive") as [[| | | | |]|]; done).
  clear H. unfold validateValue in Hv.
  assert (forall l, (if (length l =? 0)%nat then Some "value must be a non-empty array"
          else if (MAX_VALUES_PER_CONDITION <? length l)%nat then Some "value exceeds 100 entries"
          else first_error (validateEntry true def) l) = None ->
    (1 <= length l <= MAX_VALUES_PER_CONDITION)%nat /\ Forall (entry_fits def) l) as Hlist.
  { intros l. destruct (length l =? 0)%nat eqn:H0; [done|]. destruct (MAX_VALUES_PER_CONDITION <? length l)%nat eqn:H1; [done|].
    bool_facts. intros H. split; [lia|]. apply first_error_None in H. eapply Forall_impl; [exact H|]. apply validateEntry_None. }
  destruct (f_kind def); destruct (field v "value") as [[|b|z|s|l|fs']|]; try done; eauto.
  case_match eqn:Hs; [done|]. bool_facts. eauto.
Qed.

Lemma omap_nil {A B : Type} (f : A -> option B) (l : list A) : omap f l = [] -> Forall (fun x => f x = None) l.
Proof. induction l as [|x l IH]; simpl; [constructor|]. destruct (f x) eqn:E; [done|]. constructor; auto. Qed.

(** C33. What validation accepts is what evaluation can bear.  A webhook's filters
    that pass validation at the boundary are absent, or a list of at most twenty
    conditions, each naming a registered field with an operator of that field and
    a value of the field's shape: a boolean, a text of at most a thousand
    characters, or one to a hundred non-empty entries of at most 128 characters,
    drawn from the enumeration for an enumerated field. *)
Theorem validated_filters_are_bounded value :
  collectFilterErrors value true = [] ->
  nullish value = true \/
  exists v cs, value = Some v /\ field v "conditions" = Some (JArr cs) /\ (length cs <= MAX_CONDITIONS)%nat /\
    Forall condition_fits cs.
Proof.
  unfold collectFilterErrors. destruct value as [v|]; [|by left].
  destruct v as [| | | |l|fs]; try done; [by left| |].
  - destruct l; done.
  - destruct (0 <? length _)%nat; [done|].
    destruct (field (JObj fs) "conditions") as [[| | | |cs|]|] eqn:Hc; try done.
    destruct (MAX_CONDITIONS <? length cs)%nat eqn:Hl; [done|]. bool_facts. intros H. right.
    exists (JObj fs), cs. split_and!; [done|done|done|]. apply omap_nil in H.
    eapply Forall_impl; [exact H|]. apply validateCondition_None.
Qed.

Definition demo_filters : json :=
  JObj [("conditions", JArr [
    JObj [("field", JStr "type"); ("operator", JStr "is"); ("value", JArr [JStr "image"; JStr "poll"])];
    JObj [("field", JStr "body"); ("operator", JStr "contains"); ("value", JStr "hello"); ("caseSensitive", JBool true)]])].

Lemma validated_filters_are_bounded_witness :
  collectFilterErrors (Some demo_filters) true = [] /\
  (nullish (Some demo_filters) = true \/
   exists v cs, Some demo_filters = Some v /\ field v "conditions" = Some (JArr cs) /\ (length cs <= MAX_CONDITIONS)%nat /\
     Forall condition_fits cs).
Proof. split; [vm_compute; reflexivity|]. apply validated_filters_are_bounded. vm_compute. reflexivity. Defined.
