(* ===== verification/MutationGuard.v ===== *)
(** * Whose message is it

    [src/src/modules/session/message-mutation-guard.ts]: whether an inbound edit,
    revoke, reaction or receipt may touch the stored row it names, decided by the
    entities the ids name rather than by their spelling. *)
From S2P Require Import Prelude JsString WaId Filters.
Local Open Scope string_scope.

(** ** Phone numbers and entities *)

(** [s] without its character at [n]. *)
Definition drop_at (n : nat) (s : string) : string := String.substring 0 n s +:+ drop_chars (S n) s.

(** The mobile marker digit of a Brazilian, a Mexican and an Argentine number. *)
Definition phoneKey (local : string) : string :=
  let d := digits_only local in
  let d := if (String.length d =? 13)%nat && startsWith d "55" && startsWith (drop_chars 4 d) "9" then drop_at 4 d else d in
  let d := if (String.length d =? 13)%nat && startsWith d "521" then drop_at 2 d else d in
  if (4 <=? String.length d)%nat && startsWith d "549" then drop_at 2 d else d.

(** [/^\+?\d[\d -]*$/] *)
Definition phone_text (s : string) : bool :=
  let r := if startsWith s "+" then drop_chars 1 s else s in
  match r with
  | String c rest => is_digit c && all_chars (fun x => is_digit x || Ascii.eqb x " " || Ascii.eqb x "-") rest
  | EmptyString => false
  end.

Definition entityOf (jid : string) : option (WaIdKind * string) :=
  let parsed := parseWaId jid in
  match kind parsed with
  | KUser => Some (KUser, phoneKey (userPart parsed))
  | KUnknown => if negb (has_char "@" jid) && phone_text (trim jid) then Some (KUser, phoneKey jid) else None
  | k => Some (k, userPart parsed)
  end.

Definition isPerson (k : WaIdKind) : bool := bool_decide (k = KUser) || bool_decide (k = KLid).

(** An optional id: [undefined], [null] and the empty string are all absent. *)
Abbreviation Id := (option string).

Definition provablyDifferent (a b : Id) (resolveLid : option LidResolver) : bool :=
  match truthy a, truthy b with
  | Some a, Some b =>
      if String.eqb a b then false
      else match entityOf a, entityOf b with
           | Some (ka, ia), Some (kb, ib) =>
               if bool_decide (ka = kb) then negb (String.eqb ia ib)
               else if negb (isPerson ka) || negb (isPerson kb) then true
               else
                 let lid := if bool_decide (ka = KLid) then a else b in
                 let phone := if bool_decide (ka = KUser) then ia else ib in
                 match truthy (resolveLid ≫= fun f => f lid) with
                 | Some mapped => negb (String.eqb (phoneKey mapped) phone)
                 | None => true
                 end
           | _, _ => false
           end
  | _, _ => false
  end.

(** [provablyDifferent], except that an unpaired lid and phone prove nothing. *)
Definition differentWhenPaired (a b : Id) (resolveLid : option LidResolver) : bool :=
  let left := truthy a ≫= entityOf in
  let right := truthy b ≫= entityOf in
  let unpaired :=
    match left, right with
    | Some (ka, _), Some (kb, _) =>
        negb (bool_decide (ka = kb)) && isPerson ka && isPerson kb &&
        match truthy (resolveLid ≫= fun f => f (default "" (if bool_decide (ka = KLid) then a else b))) with Some _ => false | None => true end
    | _, _ => false
    end in
  if unpaired then false else provablyDifferent a b resolveLid.

(** ** The guard *)

Inductive Direction := INCOMING | OUTGOING.
#[export] Instance Direction_eq : EqDecision Direction.
Proof. solve_decision. Defined.

Record StoredMessageRef := mkRef { row_chatId : string; row_direction : option Direction; row_author : Id }.

Inductive MutationKind := Edit | Revoke | Reaction.
#[export] Instance MutationKind_eq : EqDecision MutationKind.
Proof. solve_decision. Defined.

Record MutationSource := mkSource {
  src_kind : MutationKind;
  src_chatId : string;
  src_fromMe : option bool;
  src_author : Id;
  src_admin : option bool
}.

Inductive Foreign := ForeignChat | ForeignDirection | ForeignAuthor.

Definition isOwnBroadcast (row : StoredMessageRef) : bool :=
  bool_decide (row_direction row = Some OUTGOING) &&
  match entityOf (row_chatId row) with Some (k, _) => bool_decide (k = KBroadcast) || bool_decide (k = KStatus) | None => false end.

Definition receivedThroughList (row : StoredMessageRef) (chatId : string) (resolveLid : option LidResolver) : bool :=
  bool_decide (row_direction row = Some INCOMING) &&
  match entityOf (row_chatId row) with Some (k, _) => bool_decide (k = KBroadcast) | None => false end &&
  negb (provablyDifferent (row_author row) (Some chatId) resolveLid).

Definition mutationTargetsForeignRow (row : StoredMessageRef) (source : MutationSource) (resolveLid : option LidResolver) : option Foreign :=
  let listed := (bool_decide (src_kind source = Reaction) && isOwnBroadcast row) ||
                receivedThroughList row (src_chatId source) resolveLid in
  if negb listed && provablyDifferent (Some (row_chatId row)) (Some (src_chatId source)) resolveLid then Some ForeignChat
  else
    let group := endsWith (src_chatId source) "@g.us" || endsWith (row_chatId row) "@g.us" in
    let authorOnly := bool_decide (src_kind source = Edit) || (bool_decide (src_kind source = Revoke) && negb group) in
    let expected := match src_fromMe source with Some true => OUTGOING | _ => INCOMING end in
    if authorOnly && bool_decide (is_Some (src_fromMe source)) &&
       match row_direction row with Some d => negb (bool_decide (d = expected)) | None => false end
    then Some ForeignDirection
    else if bool_decide (src_kind source = Edit) && group && bool_decide (src_fromMe source = Some false) &&
            provablyDifferent (row_author row) (src_author source) resolveLid
    then Some ForeignAuthor
    else if bool_decide (src_kind source = Revoke) && group && bool_decide (src_fromMe source = Some false) &&
            bool_decide (src_admin source = Some false) &&
            (bool_decide (row_direction row = Some OUTGOING) || differentWhenPaired (row_author row) (src_author source) resolveLid)
    then Some ForeignAuthor
    else None.

Definition receiptTargetsForeignRow (row : StoredMessageRef) (chatId : string) (resolveLid : option LidResolver) : bool :=
  if isOwnBroadcast row || receivedThroughList row chatId resolveLid then false
  else differentWhenPaired (Some (row_chatId row)) (Some chatId) resolveLid.

(** The lids among the ids a verdict may compare, resolved in advance; a lookup
    that fails answers [null]. *)
Definition resolvedLids (ids : list Id) (resolve : string -> option string) : LidResolver :=
  fun jid => if existsb (fun i => match truthy i with Some x => String.eqb x jid | None => false end) ids &&
                bool_decide (kind (parseWaId jid) = KLid)
             then resolve jid else None.

Definition mutationTargetsForeignRowPersisted (row : StoredMessageRef) (source : MutationSource) (resolve : option (string -> option string)) : option Foreign :=
  match resolve with
  | None => mutationTargetsForeignRow row source None
  | Some f => mutationTargetsForeignRow row source
                (Some (resolvedLids [Some (row_chatId row); row_author row; Some (src_chatId source); src_author source] f))
  end.

Definition receiptTargetsForeignRowPersisted (row : StoredMessageRef) (chatId : string) (resolve : option (string -> option string)) : bool :=
  match resolve with
  | None => receiptTargetsForeignRow row chatId None
  | Some f => receiptTargetsForeignRow row chatId (Some (resolvedLids [Some (row_chatId row); row_author row; Some chatId] f))
  end.

(** ** What the comparison decides *)

(** Two entities are one: the same, or a lid and a phone the resolver pairs. *)
Definition paired_with (r : option LidResolver) (lid : string) (phone : string) : Prop :=
  exists mapped, truthy (r ≫= fun f => f lid) = Some mapped /\ phoneKey mapped = phone.

Definition one_entity (r : option LidResolver) (a b : string) (ea eb : WaIdKind * string) : Prop :=
  ea = eb \/ (fst ea = KLid /\ fst eb = KUser /\ paired_with r a (snd eb)) \/ (fst ea = KUser /\ fst eb = KLid /\ paired_with r b (snd ea)).

Lemma paired_dec r lid phone :
  match truthy (r ≫= fun f => f lid) with Some m => negb (String.eqb (phoneKey m) phone) | None => true end = true <-> ~ paired_with r lid phone.
Proof.
  unfold paired_with. destruct (truthy (r ≫= fun f => f lid)) as [m|].
  - rewrite negb_true_iff, String.eqb_neq. split; [intros Hn (m' & [= <-] & He); done|]. intros Hn He. apply Hn. by exists m.
  - split; [|done]. intros _ (m & Hm & _). done.
Qed.

Lemma isPerson_cases k : isPerson k = true <-> k = KUser \/ k = KLid.
Proof. destruct k; vm_compute; naive_solver. Qed.

Lemma different_spec a b r :
  provablyDifferent (Some a) (Some b) r = true <->
  a <> "" /\ b <> "" /\ exists ea eb, entityOf a = Some ea /\ entityOf b = Some eb /\ ~ one_entity r a b ea eb.
Proof.
  unfold provablyDifferent, truthy at 1 2. destruct (String.eqb_spec a "") as [->|Ha]; [split; [done|]; by intros [? _]|].
  destruct (String.eqb_spec b "") as [->|Hb]; [split; [done|]; by intros (_ & ? & _)|].
  destruct (String.eqb_spec a b) as [->|Hab].
  - split; [done|]. intros (_ & _ & ea & eb & H1 & H2 & Hn). exfalso. apply Hn. left. congruence.
  - destruct (entityOf a) as [[ka ia]|]; [|split; [done|]; by intros (_ & _ & ? & ? & ? & _)].
    destruct (entityOf b) as [[kb ib]|]; [|split; [done|]; by intros (_ & _ & ? & ? & _ & ? & _)].
    assert (forall P : Prop, (P <-> ~ one_entity r a b (ka, ia) (kb, ib)) ->
      (P <-> a <> "" /\ b <> "" /\ exists ea eb, Some (ka, ia) = Some ea /\ Some (kb, ib) = Some eb /\ ~ one_entity r a b ea eb)) as Hgoal.
    { intros P HP. rewrite HP. split; [eauto 10|]. by intros (_ & _ & ea & eb & [= <-] & [= <-] & H). }
    apply Hgoal. clear Hgoal. unfold one_entity. cbn [fst snd].
    destruct (decide (ka = kb)) as [->|Hk]; [rewrite bool_decide_eq_true_2 by done|rewrite bool_decide_eq_false_2 by done].
    + rewrite negb_true_iff, String.eqb_neq. split; [intros Hn [[= ->]|[(-> & ? & _)|(-> & ? & _)]]; done|]. intros Hn ->. apply Hn. by left.
    + destruct (isPerson ka) eqn:Pa; cbn [negb orb].
      * destruct (isPerson kb) eqn:Pb; cbn [negb].
        -- apply isPerson_cases in Pa, Pb. destruct Pa as [-> | ->], Pb as [-> | ->]; try done.
           ++ rewrite bool_decide_eq_false_2, bool_decide_eq_true_2 by done. rewrite paired_dec. naive_solver.
           ++ rewrite bool_decide_eq_true_2, bool_decide_eq_false_2 by done. rewrite paired_dec. naive_solver.
        -- split; [|done]. intros _ [[= -> _]|[(_ & -> & _)|(_ & -> & _)]]; done.
      * split; [|done]. intros _ [[= -> _]|[(-> & _)|(-> & _)]]; done.
Qed.

(** Two ids are taken for different exactly when they are.  The guard finds two
    ids different precisely when both name an entity it can place and the two are
    not one: not the same group, list, lid or phone number under any dialect,
    device suffix or national spelling, nor a lid and a phone a reported pairing
    joins. *)
Theorem provably_different_iff a b r :
  provablyDifferent (Some a) (Some b) r = true <->
  a <> "" /\ b <> "" /\ exists ea eb, entityOf a = Some ea /\ entityOf b = Some eb /\ ~ one_entity r a b ea eb.
Proof. apply different_spec. Qed.

(** ** Spelling does not matter *)

(** The resolver answers for the lid, not for its spelling. *)
Definition by_lid (r : option LidResolver) : Prop :=
  forall x y i, entityOf x = Some (KLid, i) -> entityOf y = Some (KLid, i) -> (r ≫= fun f => f x) = (r ≫= fun f => f y).

Lemma respell_left a a' b r :
  by_lid r -> a <> "" -> a' <> "" -> entityOf a = entityOf a' -> is_Some (entityOf a) ->
  provablyDifferent (Some a) b r = provablyDifferent (Some a') b r.
Proof.
  intros Hr Ha Ha' He Hs. destruct b as [b|]; [|unfold provablyDifferent; by destruct (truthy (Some a)), (truthy (Some a'))].
  apply eq_true_iff_eq. rewrite !different_spec, <- He. split; intros (_ & Hb & ea & eb & H1 & H2 & Hn);
    (split_and!; [done|done|]); exists ea, eb; (split_and!; [done|done|]); intros Hone; apply Hn; clear Hn.
  - destruct Hone as [?|[(Hk & ? & m & Hm & ?)|?]]; [by left| |by right; right]. right; left. split_and!; [done|done|]. exists m.
    destruct ea as [k i]; simpl in Hk; subst k. by rewrite (Hr a a' i H1 ltac:(congruence)).
  - destruct Hone as [?|[(Hk & ? & m & Hm & ?)|?]]; [by left| |by right; right]. right; left. split_and!; [done|done|]. exists m.
    destruct ea as [k i]; simpl in Hk; subst k. by rewrite <- (Hr a a' i H1 ltac:(congruence)).
Qed.

Lemma respell_when_paired a a' b r :
  by_lid r -> a <> "" -> a' <> "" -> entityOf a = entityOf a' -> is_Some (entityOf a) ->
  differentWhenPaired (Some a) b r = differentWhenPaired (Some a') b r.
Proof.
  intros Hr Ha Ha' He Hs. unfold differentWhenPaired. rewrite (respell_left a a' b r) by done.
  assert (forall x, x <> "" -> truthy (Some x) = Some x) as Ht by (intros x Hx; unfold truthy; by rewrite (proj2 (String.eqb_neq x ""))).
  rewrite (Ht a Ha), (Ht a' Ha'). cbn [mbind option_bind]. rewrite <- He. destruct (entityOf a) as [[ka ia]|] eqn:Ea; [|done].
  destruct (truthy b ≫= entityOf) as [[kb ib]|]; [|done]. destruct (bool_decide (ka = KLid)) eqn:Hk; [|done].
  apply bool_decide_eq_true in Hk as ->. cbn [default from_option Datatypes.id]. by rewrite (Hr a a' ia Ea (eq_sym He)).
Qed.

(** Two stored rows that differ only in how they spell their chat and author. *)
Definition respelled (row row' : StoredMessageRef) : Prop :=
  row_direction row = row_direction row' /\
  entityOf (row_chatId row) = entityOf (row_chatId row') /\ is_Some (entityOf (row_chatId row)) /\
  match row_author row, row_author row' with
  | Some a, Some a' => a <> "" /\ a' <> "" /\ entityOf a = entityOf a' /\ is_Some (entityOf a)
  | None, None => True
  | _, _ => False
  end.

Lemma entity_nonempty x : is_Some (entityOf x) -> x <> "".
Proof. intros [e He] ->. done. Qed.

(** A verdict on an edit, a revoke or a reaction does not depend on how the
    stored row spells its chat and its author: a row filed under another dialect,
    device form or national spelling of the same chat is judged the same, for a
    change the engine reports in a group, or when neither spelling is a group's. *)
Theorem guard_ignores_spelling row row' source r :
  by_lid r -> respelled row row' ->
  endsWith (src_chatId source) "@g.us" = true \/ endsWith (row_chatId row) "@g.us" = endsWith (row_chatId row') "@g.us" ->
  mutationTargetsForeignRow row source r = mutationTargetsForeignRow row' source r.
Proof.
  intros Hr (Hd & He & Hs & Ha) Hg. pose proof (entity_nonempty _ Hs) as Hne. assert (row_chatId row' <> "") as Hne' by (apply entity_nonempty; by rewrite <- He).
  assert (forall b, provablyDifferent (row_author row) b r = provablyDifferent (row_author row') b r /\
                    differentWhenPaired (row_author row) b r = differentWhenPaired (row_author row') b r) as Hauth.
  { intros b. destruct (row_author row) as [a|], (row_author row') as [a'|]; try done. destruct Ha as (H1 & H2 & H3 & H4).
    split; [by apply respell_left|by apply respell_when_paired]. }
  unfold mutationTargetsForeignRow, isOwnBroadcast, receivedThroughList.
  rewrite (respell_left (row_chatId row) (row_chatId row') _ r Hr Hne Hne' He Hs), <- Hd, <- He.
  rewrite (proj1 (Hauth (Some (src_chatId source)))), (proj1 (Hauth (src_author source))), (proj2 (Hauth (src_author source))).
  assert (endsWith (src_chatId source) "@g.us" || endsWith (row_chatId row) "@g.us" =
          endsWith (src_chatId source) "@g.us" || endsWith (row_chatId row') "@g.us") as ->; [|done].
  destruct Hg as [-> | ->]; done.
Qed.

Lemma guard_ignores_spelling_witness :
  let row := mkRef "5511987654321@c.us" (Some INCOMING) None in
  let row' := mkRef "+55 11 8765-4321" (Some INCOMING) None in
  mutationTargetsForeignRow row (mkSource Edit "551187654321@s.whatsapp.net" (Some false) None None) None = None /\
  mutationTargetsForeignRow row' (mkSource Edit "551187654321@s.whatsapp.net" (Some false) None None) None = None.
Proof.
  split; [reflexivity|].
  rewrite <- (guard_ignores_spelling (mkRef "5511987654321@c.us" (Some INCOMING) None)); [reflexivity|done| |by right].
  split_and!; [done|reflexivity|by eexists|done].
Defined.

(** ** Resolving in advance *)

Lemma entity_lid x i : entityOf x = Some (KLid, i) -> kind (parseWaId x) = KLid.
Proof. unfold entityOf. destruct (kind (parseWaId x)); try done. by destruct (_ && _). Qed.

(** Two resolvers that agree on the lids among the ids compared. *)
Definition agree_on (ids : list Id) (r1 r2 : option LidResolver) : Prop :=
  forall i x, i ∈ ids -> truthy i = Some x -> kind (parseWaId x) = KLid -> (r1 ≫= fun f => f x) = (r2 ≫= fun f => f x).

Lemma lid_of_pair ka kb : ka <> kb -> isPerson ka = true -> isPerson kb = true -> ka = KLid \/ (ka = KUser /\ kb = KLid).
Proof. intros Hne [-> | ->]%isPerson_cases [-> | ->]%isPerson_cases; auto; done. Qed.

Lemma different_agree ids a b r1 r2 : agree_on ids r1 r2 -> a ∈ ids -> b ∈ ids -> provablyDifferent a b r1 = provablyDifferent a b r2.
Proof.
  intros Hag Ha Hb. unfold provablyDifferent. destruct (truthy a) as [x|] eqn:Ex; [|done]. destruct (truthy b) as [y|] eqn:Ey; [|done].
  destruct (String.eqb x y); [done|]. destruct (entityOf x) as [[ka ia]|] eqn:Ea; [|done]. destruct (entityOf y) as [[kb ib]|] eqn:Eb; [|done].
  destruct (decide (ka = kb)) as [->|Hne]; [by rewrite !bool_decide_eq_true_2|]. rewrite (bool_decide_eq_false_2 (ka = kb)) by done.
  destruct (isPerson ka) eqn:Pa; [|done]. destruct (isPerson kb) eqn:Pb; [|done]. cbn [negb orb].
  destruct (lid_of_pair ka kb Hne Pa Pb) as [->|[-> ->]].
  - rewrite bool_decide_eq_true_2 by done. by rewrite (Hag a x Ha Ex (entity_lid _ _ Ea)).
  - rewrite bool_decide_eq_false_2 by done. by rewrite (Hag b y Hb Ey (entity_lid _ _ Eb)).
Qed.

Lemma paired_agree ids a b r1 r2 : agree_on ids r1 r2 -> a ∈ ids -> b ∈ ids -> differentWhenPaired a b r1 = differentWhenPaired a b r2.
Proof.
  intros Hag Ha Hb. unfold differentWhenPaired. rewrite (different_agree ids a b r1 r2) by done.
  destruct (truthy a) as [x|] eqn:Ex; [|done]. destruct (truthy b) as [y|] eqn:Ey; [|cbn [mbind option_bind]; by destruct (entityOf x) as [[??]|]].
  cbn [mbind option_bind]. destruct (entityOf x) as [[ka ia]|] eqn:Ea; [|done]. destruct (entityOf y) as [[kb ib]|] eqn:Eb; [|done].
  assert (forall i z, truthy i = Some z -> default "" i = z) as Hz.
  { intros [i|] z; simpl; [|done]. by destruct (String.eqb i ""); intros [= <-]. }
  destruct (decide (ka = kb)) as [->|Hne]; [by rewrite bool_decide_eq_true_2|]. rewrite (bool_decide_eq_false_2 (ka = kb)) by done.
  destruct (isPerson ka) eqn:Pa; [|done]. destruct (isPerson kb) eqn:Pb; [|done]. cbn [negb andb].
  destruct (lid_of_pair ka kb Hne Pa Pb) as [->|[-> ->]].
  - rewrite bool_decide_eq_true_2 by done. rewrite (Hz a x Ex). by rewrite (Hag a x Ha Ex (entity_lid _ _ Ea)).
  - rewrite bool_decide_eq_false_2 by done. rewrite (Hz b y Ey). by rewrite (Hag b y Hb Ey (entity_lid _ _ Eb)).
Qed.

Lemma resolved_agree ids f : agree_on ids (Some (resolvedLids ids f)) (Some f).
Proof.
  intros i x Hi Hx Hk. cbn [mbind option_bind]. unfold resolvedLids. rewrite (bool_decide_eq_true_2 _ Hk), andb_true_r.
  assert (existsb (fun i => match truthy i with Some x0 => String.eqb x0 x | None => false end) ids = true) as ->; [|done].
  apply existsb_elem. exists i. split; [done|]. by rewrite Hx, String.eqb_refl.
Qed.

(** The persisted guards decide what the live ones would: resolving the lids
    among a change's ids in advance, and nothing else, gives the verdict that
    asking the directory during the comparison gives, for mutations and for
    receipts. *)
Theorem persisted_guard_is_live row source chatId f :
  mutationTargetsForeignRowPersisted row source (Some f) = mutationTargetsForeignRow row source (Some f) /\
  receiptTargetsForeignRowPersisted row chatId (Some f) = receiptTargetsForeignRow row chatId (Some f).
Proof.
  split.
  - unfold mutationTargetsForeignRowPersisted, mutationTargetsForeignRow, receivedThroughList.
    set (ids := [Some (row_chatId row); row_author row; Some (src_chatId source); src_author source]).
    pose proof (resolved_agree ids f) as Hag.
    assert (Some (row_chatId row) ∈ ids /\ row_author row ∈ ids /\ Some (src_chatId source) ∈ ids /\ src_author source ∈ ids) as (H1 & H2 & H3 & H4) by set_solver.
    rewrite !(different_agree ids _ _ _ _ Hag) by done. by rewrite (paired_agree ids _ _ _ _ Hag H2 H4).
  - unfold receiptTargetsForeignRowPersisted, receiptTargetsForeignRow, receivedThroughList.
    set (ids := [Some (row_chatId row); row_author row; Some chatId]). pose proof (resolved_agree ids f) as Hag.
    assert (Some (row_chatId row) ∈ ids /\ row_author row ∈ ids /\ Some chatId ∈ ids) as (H1 & H2 & H3) by set_solver.
    rewrite (different_agree ids _ _ _ _ Hag H2 H3). by rewrite (paired_agree ids _ _ _ _ Hag H1 H3).
Qed.
