(* ===== verification/SendPacing.v ===== *)
(** * The send-pacing governor

    [src/src/modules/message/send-pacing.service.ts]: the warm-up daily cap with
    its in-memory admissions, the cold-reachout cap, the group-add tally and the
    failure-streak breaker, for one session (the service keeps one entry per
    session in each of its maps, and no rule reads another session's). *)
From S2P Require Import Prelude JsString WaId ChatScope.
Local Open Scope string_scope.
Local Open Scope Z_scope.

(** ** Constants and time *)

Definition ADMISSION_WINDOW_MS : Z := 10000.
Definition UNSETTLED_ADMISSION_MAX_MS : Z := 5 * 60000.
Definition REFUSAL_AUDIT_WINDOW_MS : Z := 60000.
Definition MAX_REFUSAL_KEYS : nat := 1000.
Definition DAY_MS : Z := 86400000.

(** Epoch milliseconds, or [Infinity]. *)
Inductive time := Fin (t : Z) | Inf.
#[export] Instance time_eq : EqDecision time.
Proof. solve_decision. Defined.

Definition tmax (a b : time) : time := match a, b with Fin x, Fin y => Fin (Z.max x y) | _, _ => Inf end.
Definition tmin (a b : time) : time := match a, b with Fin x, Fin y => Fin (Z.min x y) | Inf, _ => b | _, Inf => a end.
(** [a > now] *)
Definition later (a : time) (now : Z) : bool := match a with Fin x => now <? x | Inf => true end.

Definition startOfUtcDay (now : Z) : Z := now / DAY_MS * DAY_MS.

(** [Math.ceil(ms / 1000)] *)
Definition ceil_seconds (ms : Z) : Z := (ms + 999) / 1000.

Definition secondsUntilLapsed (now : Z) (holdEnds : list time) : Z :=
  let last := fold_left (fun m e => match tmin e (Fin (now + ADMISSION_WINDOW_MS)) with Fin x => Z.max m x | Inf => m end) holdEnds now in
  Z.max 1 (ceil_seconds (last - now)).

Definition secondsUntilNextUtcDay (now : Z) : Z := Z.max 1 (ceil_seconds (startOfUtcDay now + DAY_MS - now)).

(** ** State *)

(** [a_id] stands for the object's identity. *)
Record Admission := mkAdm {
  a_id : nat;
  a_until : time;
  a_unsettled : bool;
  a_heldUntil : time;
  a_sentToday : option Z;
  a_cold : option (string * option Z)
}.

Record AdmissionHold := mkHold { dayStartMs : Z; admissions : list Admission }.

Inductive Rule := breaker_open | daily_cap | cold_daily_cap.
Inductive Refusal := Refused (rule : Rule) (retryAfterSeconds : Z) | BadBatch.

(** ** Which errors count *)

(** What the two classifiers read of an error. *)
Record SendError := mkErr {
  e_refused : bool; e_throttled : bool; e_ssrf : bool; e_lookupUnanswered : bool;
  e_nothingSent : bool; e_unknownOutcome : bool; e_notSupported : bool;
  e_status : option Z
}.

Definition countsTowardSendBreaker (e : SendError) : bool :=
  if e_refused e || e_throttled e then true
  else if e_ssrf e || e_lookupUnanswered e then false
  else if e_nothingSent e then false
  else match e_status e with
       | Some st => negb (((400 <=? st) && (st <? 500)) || (st =? 501) || (st =? 503))
       | None => true
       end.

Definition sentNothing (e : SendError) : bool :=
  if e_unknownOutcome e then false
  else e_ssrf e || e_nothingSent e ||
       match e_status e with
       | Some st => (st <? 500) || e_notSupported e || e_throttled e
       | None => false
       end.

(** ** Held admissions *)

Definition with_heldUntil (a : Admission) (t : time) : Admission :=
  mkAdm (a_id a) (a_until a) (a_unsettled a) t (a_sentToday a) (a_cold a).

(** Newest first: an admission stays held while the next one is. *)
Fixpoint set_held (l : list Admission) : list Admission :=
  match l with
  | [] => []
  | a :: r =>
      let r' := set_held r in
      with_heldUntil a (tmax (a_until a) (match r' with b :: _ => a_heldUntil b | [] => Fin 0 end)) :: r'
  end.

(** The rollover of a hold kept from an earlier day. *)
Definition roll_over (now dayStart : Z) (h : AdmissionHold) : AdmissionHold :=
  if dayStartMs h =? dayStart then h
  else mkHold dayStart
    (map (fun a => mkAdm (a_id a) (a_until a) (a_unsettled a) (a_heldUntil a) None
                     (match a_cold a with Some (k, _) => Some (k, None) | None => None end))
       (List.filter (fun a => bool_decide (a_until a = Inf) || (a_unsettled a && later (a_until a) now)) (admissions h))).

Definition is_cold (a : Admission) : bool := match a_cold a with Some _ => true | None => false end.

Definition clear_cold (a : Admission) : Admission :=
  mkAdm (a_id a) (a_until a) (a_unsettled a) (a_heldUntil a) (a_sentToday a) None.

(** [heldAdmissions]: the hold afterwards, [None] once it is deleted, and the
    admissions held. *)
Definition heldAdmissions (now dayStart : Z) (hold : option AdmissionHold) : option AdmissionHold * list Admission :=
  match hold with
  | None => (None, [])
  | Some h =>
      let h := roll_over now dayStart h in
      let l := if existsb (fun a => is_cold a && later (a_until a) now) (admissions h) then admissions h
               else map clear_cold (admissions h) in
      let l := set_held l in
      if match l with a :: _ => later (a_heldUntil a) now | [] => later (Fin 0) now end
      then (Some (mkHold (dayStartMs h) l), l) else (None, [])
  end.

(** [a.sentToday ??= persisted] *)
Definition fill_sent (persisted : Z) (a : Admission) : Admission :=
  mkAdm (a_id a) (a_until a) (a_unsettled a) (a_heldUntil a) (Some (default persisted (a_sentToday a))) (a_cold a).

(** The larger of the persisted count and, for each held admission, the count it
    read plus the admissions held from it on. *)
Fixpoint daily_count (persisted acc : Z) (held : list Admission) : Z :=
  match held with
  | [] => acc
  | a :: r => daily_count persisted (Z.max acc (default persisted (a_sentToday a) + Z.of_nat (length held))) r
  end.

Definition with_admissions (hold : option AdmissionHold) (l : list Admission) : option AdmissionHold :=
  match hold with Some h => Some (mkHold (dayStartMs h) l) | None => None end.

Definition assertUnderDailyCap (now dayStart allowance persisted : Z) (hold : option AdmissionHold) :
    option AdmissionHold * result Refusal unit :=
  let '(hold, held) := heldAdmissions now dayStart hold in
  let sentToday := daily_count persisted persisted held in
  let hold := with_admissions hold (map (fill_sent persisted) held) in
  if sentToday <? allowance then (hold, Ok tt)
  else (hold, Err (Refused daily_cap
         (if persisted <? allowance then secondsUntilLapsed now (map a_heldUntil held) else secondsUntilNextUtcDay now))).

(** ** Cold reachouts *)

(** [chatId.replace('@s.whatsapp.net', '@c.us')]: the first occurrence. *)
Fixpoint coldChatKey (chatId : string) : string :=
  if startsWith chatId "@s.whatsapp.net" then "@c.us" +:+ drop_chars 15 chatId
  else match chatId with EmptyString => "" | String c r => String c (coldChatKey r) end.

Definition fill_cold (persisted : Z) (a : Admission) : Admission :=
  mkAdm (a_id a) (a_until a) (a_unsettled a) (a_heldUntil a) (a_sentToday a)
    (match a_cold a with Some (k, c) => Some (k, Some (default persisted c)) | None => None end).

(** Newest first: the distinct cold chats held from an admission on, and the
    count so far. *)
Definition cold_count (persisted : Z) (held : list Admission) : list string * Z :=
  fold_right (fun a acc =>
    match a_cold a with
    | Some (k, c) =>
        let chats := set_add (fst acc) k in
        (chats, Z.max (snd acc) (default persisted c + Z.of_nat (length chats)))
    | None => acc
    end) ([], persisted) held.

(** [chatReachoutsToday] *)
Definition chatReachoutsToday (now dayStart persisted : Z) (hold : option AdmissionHold) : option AdmissionHold * Z :=
  let '(hold, held) := heldAdmissions now dayStart hold in
  (with_admissions hold (map (fill_cold persisted) held), snd (cold_count persisted held)).

(** The group-add tally: its day and its count. *)
Abbreviation Tally := (option (Z * Z)).

Definition groupReachoutsToday (dayStart : Z) (tally : Tally) : Z :=
  match tally with Some (d, n) => if d =? dayStart then n else 0 | None => 0 end.

Definition addGroupReachouts (dayStart n : Z) (tally : Tally) : Tally :=
  match tally with
  | Some (d, c) => if d =? dayStart then Some (d, c + n) else Some (dayStart, n)
  | None => Some (dayStart, n)
  end.

(** [refundGroupReachouts] of a reservation: its count and its day. *)
Definition refundGroupReachouts (coldCount dayStart : Z) (tally : Tally) : Tally :=
  if coldCount <=? 0 then tally
  else match tally with
       | Some (d, c) => if d =? dayStart then Some (d, Z.max 0 (c - coldCount)) else tally
       | None => None
       end.

Definition cold_ends (held : list Admission) : list time := map a_until (List.filter is_cold held).

Definition assertUnderColdCap (now dayStart allowance persisted : Z) (tally : Tally) (hold : option AdmissionHold) :
    option AdmissionHold * result Refusal unit :=
  let groupToday := groupReachoutsToday dayStart tally in
  let '(hold, chats) := chatReachoutsToday now dayStart persisted hold in
  if chats + groupToday <? allowance then (hold, Ok tt)
  else
    let '(hold, held) := heldAdmissions now dayStart hold in
    (hold, Err (Refused cold_daily_cap
       (if persisted + groupToday <? allowance then secondsUntilLapsed now (cold_ends held) else secondsUntilNextUtcDay now))).

(** ** Admitting a send *)

Record SendOptions := mkOpts { o_hold : bool; o_untilSettled : bool; o_whilePreparing : bool }.

Definition admission_until (now : Z) (opts : SendOptions) : time :=
  if o_whilePreparing opts then Inf
  else Fin (now + (if o_untilSettled opts then UNSETTLED_ADMISSION_MAX_MS else ADMISSION_WINDOW_MS)).

Definition push_admission (dayStart : Z) (a : Admission) (hold : option AdmissionHold) : option AdmissionHold :=
  match hold with
  | Some h => if dayStartMs h =? dayStart then Some (mkHold dayStart (admissions h ++ [a])%list) else Some (mkHold dayStart [a])
  | None => Some (mkHold dayStart [a])
  end.

(** A chat already held as a cold admission is the same reachout again. *)
Definition coldGate (now dayStart : Z) (cold : option (Z * Z)) (key : string) (tally : Tally) (hold : option AdmissionHold) :
    option AdmissionHold * result Refusal unit :=
  match cold with
  | None => (hold, Ok tt)
  | Some (coldAllowance, coldToday) =>
      let '(hold, held) := heldAdmissions now dayStart hold in
      if existsb (fun a => match a_cold a with Some (k, _) => String.eqb k key | None => false end) held
      then (hold, Ok tt)
      else assertUnderColdCap now dayStart coldAllowance coldToday tally hold
  end.

(** The synchronous end of [assertSendAllowed], after its reads: judged again and
    admitted with no await in between.  [sentToday] is the persisted count it
    read, [cold] the cold allowance and count when the send is cold; the result is
    the identity of the admission held, if any. *)
Definition judgeAndAdmit (now dayStart allowance sentToday : Z) (cold : option (Z * Z)) (chatId : option string)
    (opts : SendOptions) (tally : Tally) (hold : option AdmissionHold) (newId : nat) :
    option AdmissionHold * result Refusal (option nat) :=
  let '(hold, ok) := assertUnderDailyCap now dayStart allowance sentToday hold in
  match ok with
  | Err e => (hold, Err e)
  | Ok _ =>
      match truthy chatId with
      | None => (hold, Ok None)
      | Some chat =>
          let key := coldChatKey chat in
          let '(hold, ok) := coldGate now dayStart cold key tally hold in
          match ok with
          | Err e => (hold, Err e)
          | Ok _ =>
              if o_hold opts then
                let until := admission_until now opts in
                let a := mkAdm newId until (o_untilSettled opts) until (Some sentToday)
                           (match cold with Some (_, coldToday) => Some (key, Some coldToday) | None => None end) in
                (push_admission dayStart a hold, Ok (Some newId))
              else (hold, Ok None)
          end
      end
  end.

(** The settle of an admission, called at most once: [mayHaveSent] restarts its
    window, otherwise it is handed back. *)
Definition settleAdmission (now : Z) (id : nat) (mayHaveSent : bool) (hold : option AdmissionHold) : option AdmissionHold :=
  match hold with
  | None => None
  | Some h =>
      if mayHaveSent then
        Some (mkHold (dayStartMs h)
          (map (fun a => if (a_id a =? id)%nat
                         then mkAdm (a_id a) (Fin (now + ADMISSION_WINDOW_MS)) false (a_heldUntil a) (a_sentToday a) (a_cold a)
                         else a) (admissions h)))
      else
        let l := List.filter (fun a => negb (a_id a =? id)%nat) (admissions h) in
        if (length l =? 0)%nat && negb (length (admissions h) =? 0)%nat then None else Some (mkHold (dayStartMs h) l)
  end.

(** ** Group adds *)

(** The synchronous end of [assertReachoutAllowed]: [coldCount] strangers,
    [coldChats] the persisted count. *)
Definition reserveReachouts (now dayStart allowance coldCount coldChats : Z) (tally : Tally) (hold : option AdmissionHold) :
    Tally * option AdmissionHold * result Refusal (Z * Z) :=
  if allowance <? coldCount then (tally, hold, Err BadBatch)
  else
    let groupToday := groupReachoutsToday dayStart tally in
    let '(hold, chats) := chatReachoutsToday now dayStart coldChats hold in
    if chats + groupToday + coldCount <=? allowance
    then (addGroupReachouts dayStart coldCount tally, hold, Ok (coldCount, dayStart))
    else
      let '(hold, held) := heldAdmissions now dayStart hold in
      (tally, hold, Err (Refused cold_daily_cap
        (if coldChats + groupToday + coldCount <=? allowance then secondsUntilLapsed now (cold_ends held)
         else secondsUntilNextUtcDay now))).

(** ** The breaker *)

Record BreakerState := mkBreaker { consecutiveFailures : Z; openedAt : option Z }.

Definition recordSendFailure (now threshold : Z) (b : option BreakerState) : option BreakerState :=
  let b := default (mkBreaker 0 None) b in
  let n := consecutiveFailures b + 1 in
  match openedAt b with
  | None => if threshold <=? n then Some (mkBreaker n (Some now)) else Some (mkBreaker n None)
  | Some t => Some (mkBreaker n (Some t))
  end.

Definition recordSendSuccess (b : option BreakerState) : option BreakerState := None.

Definition assertBreakerClosed (now cooldown : Z) (b : option BreakerState) : option BreakerState * result Refusal unit :=
  match b with
  | Some (mkBreaker n (Some t)) =>
      let elapsed := now - t in
      if cooldown <=? elapsed then (None, Ok tt)
      else (b, Err (Refused breaker_open (ceil_seconds (cooldown - elapsed))))
  | _ => (b, Ok tt)
  end.

(** ** Schedules and spellings *)

Definition allowanceForAge (schedule : list Z) (ageDays : Z) : Z :=
  nth (Z.to_nat (Z.min (Z.max ageDays 0) (Z.of_nat (length schedule) - 1))) schedule 0.

Definition ageInDays (dayStart createdAt : Z) : Z := (dayStart - startOfUtcDay createdAt) / DAY_MS.

Definition dialectVariants (chatId : string) : list string :=
  let lower := toLowerCase chatId in
  let keep := fun n => String.substring 0 (String.length chatId - n) chatId in
  if endsWith lower "@c.us" then [chatId; keep 5%nat +:+ "@s.whatsapp.net"]
  else if endsWith lower "@s.whatsapp.net" then [chatId; keep 15%nat +:+ "@c.us"]
  else if numeric_id (trim chatId) then [trim chatId; trim chatId +:+ "@c.us"; trim chatId +:+ "@s.whatsapp.net"]
  else [chatId].

(** [auditRefusal]: one row per session per window, the sample map bounded by the
    least recently audited session.  Returns what was suppressed when a row is
    written. *)
Definition auditRefusal (now : Z) (sessionId : string) (samples : list (string * (Z * Z))) :
    list (string * (Z * Z)) * option Z :=
  let prior := JMap.get sessionId samples in
  match prior with
  | Some (count, since) =>
      if now - since <? REFUSAL_AUDIT_WINDOW_MS then (JMap.set sessionId (count + 1, since) samples, None)
      else
        let m := JMap.set sessionId (0, now) (JMap.delete sessionId samples) in
        (drop (length m - MAX_REFUSAL_KEYS) m, Some count)
  | None =>
      let m := JMap.set sessionId (0, now) (JMap.delete sessionId samples) in
      (drop (length m - MAX_REFUSAL_KEYS) m, Some 0)
  end.

(** ** The breaker against its specification *)

(** What happens to a session's breaker, with the instant it happens. *)
Inductive BreakerEvent := Failed (t : Z) | Succeeded | Asked (t : Z).

Section breaker.
Context (threshold cooldown : Z).

Definition breaker_event (b : option BreakerState) (e : BreakerEvent) : option BreakerState :=
  match e with
  | Failed t => recordSendFailure t threshold b
  | Succeeded => recordSendSuccess b
  | Asked t => fst (assertBreakerClosed t cooldown b)
  end.

(** The specification keeps the instants of the failures of the current streak. *)
Definition tripped_at (streak : list Z) : option Z := streak !! Z.to_nat (threshold - 1).

Definition refusing (streak : list Z) (now : Z) : bool :=
  match tripped_at streak with Some t => now - t <? cooldown | None => false end.

Definition streak_event (streak : list Z) (e : BreakerEvent) : list Z :=
  match e with
  | Failed t => (streak ++ [t])%list
  | Succeeded => []
  | Asked t => if match tripped_at streak with Some t0 => cooldown <=? t - t0 | None => false end then [] else streak
  end.

Definition breaker_of (streak : list Z) : option BreakerState :=
  match streak with [] => None | _ => Some (mkBreaker (Z.of_nat (length streak)) (tripped_at streak)) end.

Lemma tripped_snoc streak t :
  1 <= threshold ->
  tripped_at (streak ++ [t])%list =
  match tripped_at streak with
  | Some x => Some x
  | None => if threshold <=? Z.of_nat (length streak) + 1 then Some t else None
  end.
Proof.
  intros Ht. unfold tripped_at. destruct (streak !! Z.to_nat (threshold - 1)) as [x|] eqn:E; [by apply lookup_app_l_Some|].
  apply lookup_ge_None in E. rewrite lookup_app_r by done.
  destruct (Z.leb_spec threshold (Z.of_nat (length streak) + 1)).
  - replace (Z.to_nat (threshold - 1) - length streak)%nat with 0%nat by lia. done.
  - apply lookup_ge_None. simpl. lia.
Qed.

Lemma breaker_step streak e : 1 <= threshold -> breaker_event (breaker_of streak) e = breaker_of (streak_event streak e).
Proof.
  intros Ht. destruct e as [t| |t]; simpl; [|done|].
  - unfold breaker_of at 2. assert (streak ++ [t] <> [])%list as Hne by (by destruct streak).
    destruct (streak ++ [t])%list as [|z l] eqn:E; [done|]. rewrite <- E, (tripped_snoc streak t Ht), length_app.
    assert (default (mkBreaker 0 None) (breaker_of streak) = mkBreaker (Z.of_nat (length streak)) (tripped_at streak)) as Hd
      by by destruct streak.
    unfold recordSendFailure. rewrite Hd. simpl. rewrite Nat2Z.inj_add. destruct (tripped_at streak); [done|].
    by destruct (threshold <=? _).
  - unfold breaker_of at 1. destruct streak as [|z l]; [by case_match|]. unfold assertBreakerClosed.
    destruct (tripped_at (z :: l)) as [t0|] eqn:E; [|unfold breaker_of; by rewrite E].
    destruct (cooldown <=? t - t0); [done|]. unfold breaker_of. by rewrite E.
Qed.

Lemma ceil_seconds_spec ms : 0 < ms -> 1 <= ceil_seconds ms /\ 1000 * (ceil_seconds ms - 1) < ms <= 1000 * ceil_seconds ms.
Proof.
  intros Hms. unfold ceil_seconds. pose proof (Z.div_mod (ms + 999) 1000). pose proof (Z.mod_pos_bound (ms + 999) 1000). lia.
Qed.

(** The failure-streak breaker keeps what its specification says, over any
    sequence of failures, successes and checks: its state is the length of the
    current streak with the instant of the failure that reached the threshold; a
    check is refused exactly while that instant is less than a cooldown ago; and
    the retry-after it names is right to the second, the check passing once it
    has elapsed and still refused a second sooner. *)
Theorem breaker_refines_streak events now :
  1 <= threshold ->
  let streak := fold_left streak_event events [] in
  let b := fold_left breaker_event events None in
  b = breaker_of streak /\
  match snd (assertBreakerClosed now cooldown b) with
  | Ok _ => refusing streak now = false
  | Err (Refused rule s) =>
      rule = breaker_open /\ 1 <= s /\ refusing streak now = true /\
      refusing streak (now + 1000 * (s - 1)) = true /\ refusing streak (now + 1000 * s) = false
  | Err BadBatch => False
  end.
Proof.
  intros Ht. simpl. assert (forall l st, fold_left breaker_event l (breaker_of st) = breaker_of (fold_left streak_event l st)) as Hr.
  { intros l. induction l as [|e l IH]; intros st; [done|]. simpl. by rewrite breaker_step, IH. }
  specialize (Hr events []). simpl in Hr. rewrite Hr. split; [done|]. generalize (fold_left streak_event events []) as st. intros st.
  unfold breaker_of, assertBreakerClosed, refusing. destruct st as [|z l]; [done|].
  destruct (tripped_at (z :: l)) as [t0|]; [|done]. destruct (Z.leb_spec cooldown (now - t0)); simpl; [by apply Z.ltb_ge|].
  pose proof (ceil_seconds_spec (cooldown - (now - t0))) as Hc. split_and!; [done|lia|apply Z.ltb_lt; lia|apply Z.ltb_lt; lia|apply Z.ltb_ge; lia].
Qed.
End breaker.

(** Three failures in a row trip a breaker of threshold three. *)
Lemma breaker_refines_streak_witness :
  1 <= 3 /\
  snd (assertBreakerClosed 2500 60000 (fold_left (breaker_event 3 60000) [Failed 0; Asked 5; Failed 1000; Failed 2000; Failed 2100] None)) =
    Err (Refused breaker_open 60) /\
  refusing 3 60000 (fold_left (streak_event 3 60000) [Failed 0; Asked 5; Failed 1000; Failed 2000; Failed 2100] []) (2500 + 1000 * 60) = false.
Proof.
  pose proof (breaker_refines_streak 3 60000 [Failed 0; Asked 5; Failed 1000; Failed 2000; Failed 2100] 2500 ltac:(lia)) as [_ H].
  split; [lia|]. split; [reflexivity|]. exact (proj2 (proj2 (proj2 (proj2 H)))).
Defined.

(** ** Group adds stay within the cold allowance *)

(** The reservations a session's requests have taken and not given back. *)
Record GroupAdds := mkAdds { tally : Tally; outstanding : list (Z * Z) }.

Definition spent (day : Z) (l : list (Z * Z)) : Z :=
  fold_right (fun r acc => (if snd r =? day then fst r else 0) + acc) 0 l.

Section group_adds.
Context (allowance : Z).

(** A request reserves a batch of at least one stranger on a day no earlier than
    any reserved on before, or gives a reservation of its own back; the cold chat
    messages it counts are whatever the table and the hold say. *)
Inductive group_step : GroupAdds -> GroupAdds -> Prop :=
| g_reserve s now day n coldChats hold tally' hold' r :
    1 <= n -> 0 <= coldChats -> Forall (fun x => snd x <= day) (outstanding s) ->
    match tally s with Some (d, _) => d <= day | None => True end ->
    reserveReachouts now day allowance n coldChats (tally s) hold = (tally', hold', r) ->
    group_step s (mkAdds tally' (match r with Ok res => res :: outstanding s | Err _ => outstanding s end))
| g_refund s l1 n day l2 :
    outstanding s = (l1 ++ (n, day) :: l2)%list ->
    group_step s (mkAdds (refundGroupReachouts n day (tally s)) (l1 ++ l2)%list).

Definition adds_ok (s : GroupAdds) : Prop :=
  Forall (fun x => 1 <= fst x) (outstanding s) /\
  match tally s with
  | Some (d, c) => c = spent d (outstanding s) /\ c <= allowance /\ Forall (fun x => snd x <= d) (outstanding s)
  | None => outstanding s = []
  end.

Lemma spent_cons day n d l : spent day ((n, d) :: l) = (if d =? day then n else 0) + spent day l.
Proof. done. Qed.

Lemma spent_app day a b : spent day (a ++ b)%list = spent day a + spent day b.
Proof. induction a as [|x a IH]; cbn [app spent fold_right]; [done|]. fold (spent day (a ++ b)%list). rewrite IH. unfold spent. lia. Qed.

Lemma spent_later day day' l : day < day' -> Forall (fun x => snd x <= day) l -> spent day' l = 0.
Proof.
  intros Hd. unfold spent. induction 1 as [|x l Hx _ IH]; simpl; [done|]. rewrite (proj2 (Z.eqb_neq (snd x) day')) by lia. lia.
Qed.

Lemma spent_nonneg day l : Forall (fun x => 1 <= fst x) l -> 0 <= spent day l.
Proof. unfold spent. induction 1 as [|x l Hx _ IH]; simpl; [lia|]. case_match; lia. Qed.

Lemma cold_count_ge p held : p <= snd (cold_count p held).
Proof. unfold cold_count. induction held as [|a l IH]; simpl; [lia|]. destruct (a_cold a) as [[k c]|]; simpl; lia. Qed.

Lemma reachouts_ge now day p hold : p <= snd (chatReachoutsToday now day p hold).
Proof. unfold chatReachoutsToday. destruct (heldAdmissions now day hold). apply cold_count_ge. Qed.

(** A granted reservation fits in the allowance with everything else counted. *)
Lemma reserve_ok now day n coldChats t hold t' hold' res :
  reserveReachouts now day allowance n coldChats t hold = (t', hold', Ok res) ->
  res = (n, day) /\ t' = addGroupReachouts day n t /\ coldChats + groupReachoutsToday day t + n <= allowance.
Proof.
  unfold reserveReachouts. destruct (allowance <? n); [done|]. pose proof (reachouts_ge now day coldChats hold) as Hge.
  destruct (chatReachoutsToday now day coldChats hold) as [h1 chats]. simpl in Hge.
  destruct (Z.leb_spec (chats + groupReachoutsToday day t + n) allowance) as [Hle|].
  - intros [= <- <- <-]. split_and!; [done|done|lia].
  - by destruct (heldAdmissions now day h1).
Qed.

Lemma reserve_err now day n coldChats t hold t' hold' e :
  reserveReachouts now day allowance n coldChats t hold = (t', hold', Err e) -> t' = t.
Proof.
  unfold reserveReachouts. destruct (allowance <? n); [by intros [= <- _ _]|].
  destruct (chatReachoutsToday now day coldChats hold) as [h1 chats].
  destruct (chats + groupReachoutsToday day t + n <=? allowance); [done|].
  destruct (heldAdmissions now day h1). by intros [= <- _ _].
Qed.

Lemma adds_step s s' : group_step s s' -> adds_ok s -> adds_ok s'.
Proof.
  intros Hst [Hpos Hok]. destruct Hst as [s now day n p hold t' hold' r Hn Hp Hold Hday Hr|s l1 n day l2 He].
  - destruct r as [res|e]; [|apply reserve_err in Hr as ->; split; [done|exact Hok]].
    apply reserve_ok in Hr as (-> & -> & Hle). split; [by constructor|]. cbn [tally outstanding].
    destruct (tally s) as [[d c]|] eqn:Ht; cbn [addGroupReachouts groupReachoutsToday] in *.
    + destruct Hok as (-> & Hc & Hl). destruct (Z.eqb_spec d day) as [->|Hne].
      * rewrite spent_cons, Z.eqb_refl. split_and!; [lia|lia|by constructor].
      * rewrite spent_cons, Z.eqb_refl.
        rewrite (spent_later d day) by (done || lia). split_and!; [lia|lia|by constructor].
    + rewrite Hok, spent_cons, Z.eqb_refl. split_and!; [simpl; lia|lia|by repeat constructor].
  - rewrite He in Hpos. apply Forall_app in Hpos as [Hp1 Hp2]. apply Forall_cons in Hp2 as [Hn Hp2]. simpl in Hn.
    split; [by apply Forall_app|]. cbn [tally outstanding]. unfold refundGroupReachouts.
    rewrite (proj2 (Z.leb_gt n 0)) by lia. destruct (tally s) as [[d c]|] eqn:Ht; [|rewrite He in Hok; by destruct l1].
    destruct Hok as (-> & Hc & Hl). rewrite He in Hc, Hl |- *. apply Forall_app in Hl as [Hl1 Hl2]. apply Forall_cons in Hl2 as [_ Hl2].
    assert (spent d (l1 ++ (n, day) :: l2)%list = spent d (l1 ++ l2)%list + (if day =? d then n else 0)) as Hsp.
    { rewrite !spent_app, spent_cons. lia. }
    rewrite Hsp in *. rewrite (Z.eqb_sym day d) in *. pose proof (spent_nonneg d (l1 ++ l2)%list) as Hnn.
    specialize (Hnn ltac:(by apply Forall_app)). destruct (d =? day); (split_and!; [lia|lia|by apply Forall_app]).
Qed.

(** Group adds cannot outspend the cold allowance: over any interleaving of
    reservations and refunds, across days, the strangers reserved on a day and not
    given back are exactly what the tally of that day says, and never more than
    the allowance; a refund on an earlier day leaves the new day's tally alone. *)
Theorem group_adds_within_allowance s :
  rtc group_step (mkAdds None []) s ->
  match tally s with
  | Some (d, c) => c = spent d (outstanding s) /\ c <= allowance
  | None => outstanding s = []
  end.
Proof.
  intros Hr. assert (adds_ok s) as [_ H]; [|destruct (tally s) as [[d c]|]; [by destruct H as (? & ? & _)|done]].
  refine (rtc_invariant group_step adds_ok _ _ _ Hr _); [apply adds_step|]. split; [constructor|done].
Qed.
End group_adds.

(** A batch of three out of five, a batch of three refused, the first given back
    and a batch of five taken. *)
Lemma group_adds_within_allowance_witness :
  exists s, rtc (group_step 5) (mkAdds None []) s /\ tally s = Some (0, 5) /\ 5 = spent 0 (outstanding s).
Proof.
  assert (rtc (group_step 5) (mkAdds None []) (mkAdds (Some (0, 5)) [(5, 0)])) as Hr.
  { eapply rtc_l; [eapply (g_reserve 5 _ 10 0 3 0 None); [lia|lia|constructor|done|reflexivity]|]. cbn [outstanding].
    eapply rtc_l; [eapply (g_reserve 5 _ 11 0 3 0 None); [lia|lia|repeat constructor; simpl; lia|simpl; lia|reflexivity]|]. cbn [outstanding].
    eapply rtc_l; [eapply (g_refund 5 _ [] 3 0 []); reflexivity|].
    eapply rtc_l; [eapply (g_reserve 5 _ 12 0 5 0 None); [lia|lia|constructor|simpl; lia|reflexivity]|]. apply rtc_refl. }
  eexists. split; [exact Hr|]. split; [reflexivity|]. exact (proj1 (group_adds_within_allowance 5 _ Hr)).
Defined.
