(* ===== verification/SendPacingTrace.v ===== *)
(** * The daily cap under concurrency

    Requests read the persisted count, are judged against the held admissions and
    admitted, write their rows and settle, in any interleaving.  This file proves
    that the rows a session writes in a UTC day never exceed its allowance, over
    the operations of [SendPacing]. *)
From S2P Require Import Prelude JsString WaId ChatScope SendPacing.
Local Open Scope Z_scope.

(** ** What the caps read of an admission *)

Abbreviation Core := (nat * time * option Z)%type.
Definition core (a : Admission) : Core := (a_id a, a_until a, a_sentToday a).
Definition c_id (x : Core) : nat := fst (fst x).
Definition c_until (x : Core) : time := snd (fst x).
Definition c_sent (x : Core) : option Z := snd x.

Definition held_core (hold : option AdmissionHold) : list Core :=
  match hold with Some h => map core (admissions h) | None => [] end.

(** The hold belongs to the day. *)
Definition of_day (day : Z) (hold : option AdmissionHold) : Prop :=
  match hold with Some h => dayStartMs h = day | None => True end.

(** What a lapse check does: keep the admissions, or drop them all once every
    term has ended. *)
Definition evolves (now : Z) (c c' : list Core) : Prop :=
  c' = c \/ (c' = [] /\ Forall (fun x => later (c_until x) now = false) c).

Lemma evolves_trans now a b c : evolves now a b -> evolves now b c -> evolves now a c.
Proof. unfold evolves. intros [->|[-> Ha]] [->|[-> Hb]]; auto. Qed.

Lemma evolves_refl now c : evolves now c c.
Proof. by left. Qed.

(** *** The lapse check *)

Lemma set_held_core l : map core (set_held l) = map core l.
Proof. induction l as [|a l IH]; simpl; [done|]. by rewrite IH. Qed.

Lemma later_tmax a b now : later (tmax a b) now = later a now || later b now.
Proof.
  destruct a as [x|], b as [y|]; simpl; rewrite ?orb_true_r; try done.
  destruct (Z.ltb_spec now (Z.max x y)), (Z.ltb_spec now x), (Z.ltb_spec now y); simpl; lia || done.
Qed.

Lemma set_held_head now l :
  0 <= now ->
  match set_held l with a :: _ => later (a_heldUntil a) now | [] => later (Fin 0) now end =
  existsb (fun x => later (c_until x) now) (map core l).
Proof.
  intros Hn. induction l as [|a l IH]; [simpl; by apply Z.ltb_ge|]. cbn [set_held a_heldUntil with_heldUntil map existsb].
  rewrite later_tmax, <- IH. f_equal. by destruct (set_held l).
Qed.

Lemma held_spec now day hold :
  0 <= now -> of_day day hold ->
  let '(hold', held) := heldAdmissions now day hold in
  of_day day hold' /\ held_core hold' = map core held /\ evolves now (held_core hold) (held_core hold') /\
  (hold' = None -> held = []).
Proof.
  intros Hn Hd. unfold heldAdmissions. destruct hold as [h|]; [|split_and!; [done|done|apply evolves_refl|done]].
  simpl in Hd. unfold roll_over. rewrite Hd, Z.eqb_refl.
  set (l := if existsb _ _ then admissions h else map clear_cold (admissions h)).
  assert (map core l = map core (admissions h)) as Hl.
  { unfold l. case_match; [done|]. rewrite map_map. done. }
  rewrite (set_held_head now l Hn), Hl.
  destruct (existsb (fun x => later (c_until x) now) (map core (admissions h))) eqn:He; simpl.
  - split_and!; [done|done| |done]. left. by rewrite set_held_core.
  - split_and!; [done|done| |done]. right. split; [done|]. apply Forall_forall. intros x Hx. by eapply existsb_false in He.
Qed.

Lemma held_day now day hold : 0 <= now -> of_day day hold -> of_day day (fst (heldAdmissions now day hold)).
Proof. intros Hn Hd. pose proof (held_spec now day hold Hn Hd) as H. destruct (heldAdmissions now day hold). by destruct H. Qed.

(** ** The caps as the admissions bound them *)

(** From each admission on, the count it read plus the admissions held stay
    within [b]. *)
Fixpoint caps (b : Z) (c : list Core) : Prop :=
  match c with
  | [] => True
  | x :: r => (exists s, c_sent x = Some s /\ s + Z.of_nat (length c) <= b) /\ caps b r
  end.

(** Every admission has a count. *)
Definition counted (c : list Core) : Prop := Forall (fun x => is_Some (c_sent x)) c.

Lemma caps_counted b c : caps b c -> counted c.
Proof. induction c as [|x c IH]; [constructor|]. intros [(s & Hs & _) Hc]. constructor; [by exists s|by apply IH]. Qed.

Lemma daily_count_acc p acc held : acc <= daily_count p acc held.
Proof.
  revert acc. induction held as [|a l IH]; intros acc; cbn [daily_count]; [lia|].
  specialize (IH (Z.max acc (default p (a_sentToday a) + Z.of_nat (length (a :: l))))). lia.
Qed.

Lemma daily_count_caps p acc held b :
  counted (map core held) -> daily_count p acc held < b -> caps (b - 1) (map core held).
Proof.
  revert acc. induction held as [|a l IH]; intros acc Hc Hd; [done|]. cbn [daily_count map caps] in *.
  apply Forall_cons in Hc as [[s Hs] Hc]. split; [|by eapply IH].
  exists s. split; [done|]. unfold c_sent in Hs. simpl in Hs. rewrite Hs in Hd. simpl in Hd.
  pose proof (daily_count_acc p (Z.max acc (s + Z.of_nat (S (length l)))) l).
  cbn [length]. rewrite length_map. lia.
Qed.

Lemma fill_sent_core p l : counted (map core l) -> map core (map (fill_sent p) l) = map core l.
Proof.
  induction l as [|a l IH]; intros Hc; [done|]. apply Forall_cons in Hc as [[s Hs] Hc]. simpl. rewrite IH by done.
  f_equal. unfold core, c_sent in *. simpl in *. by rewrite Hs.
Qed.

Lemma evolves_counted now c c' : evolves now c c' -> counted c -> counted c'.
Proof. intros [->|[-> _]] H; [done|constructor]. Qed.

Lemma with_admissions_core hold l : (hold = None -> l = []) -> held_core (with_admissions hold l) = map core l.
Proof. destruct hold; simpl; [done|]. by intros ->. Qed.

Lemma with_admissions_day day hold l : of_day day hold -> of_day day (with_admissions hold l).
Proof. by destruct hold. Qed.

Lemma daily_cap_spec now day A p hold :
  0 <= now -> of_day day hold -> counted (held_core hold) ->
  let '(hold', r) := assertUnderDailyCap now day A p hold in
  of_day day hold' /\ evolves now (held_core hold) (held_core hold') /\
  (r = Ok tt -> p < A /\ caps (A - 1) (held_core hold')).
Proof.
  intros Hn Hd Hc. unfold assertUnderDailyCap. pose proof (held_spec now day hold Hn Hd) as Hh.
  destruct (heldAdmissions now day hold) as [hold' held]. destruct Hh as (Hd' & Hcore & Hev & Hnone).
  pose proof (evolves_counted _ _ _ Hev Hc) as Hc'. rewrite Hcore in Hc'.
  assert (held_core (with_admissions hold' (map (fill_sent p) held)) = held_core hold') as Hw.
  { rewrite with_admissions_core by (intros Hx; by rewrite (Hnone Hx)). by rewrite fill_sent_core. }
  destruct (daily_count p p held <? A) eqn:Hlt; rewrite Hw; (split_and!; [by apply with_admissions_day|done|]); [|done].
  bool_facts. intros _. pose proof (daily_count_acc p p held). split; [lia|]. rewrite Hcore. by eapply daily_count_caps.
Qed.

Lemma fill_cold_core p l : map core (map (fill_cold p) l) = map core l.
Proof. rewrite map_map. done. Qed.

Lemma reachouts_spec now day p hold :
  0 <= now -> of_day day hold ->
  let '(hold', _) := chatReachoutsToday now day p hold in
  of_day day hold' /\ evolves now (held_core hold) (held_core hold').
Proof.
  intros Hn Hd. unfold chatReachoutsToday. pose proof (held_spec now day hold Hn Hd) as Hh.
  destruct (heldAdmissions now day hold) as [hold' held]. destruct Hh as (Hd' & Hcore & Hev & Hnone).
  split; [by apply with_admissions_day|].
  rewrite with_admissions_core by (intros Hx; by rewrite (Hnone Hx)). by rewrite fill_cold_core, <- Hcore.
Qed.

Lemma cold_cap_spec now day A p tally hold :
  0 <= now -> of_day day hold ->
  let '(hold', _) := assertUnderColdCap now day A p tally hold in
  of_day day hold' /\ evolves now (held_core hold) (held_core hold').
Proof.
  intros Hn Hd. unfold assertUnderColdCap. pose proof (reachouts_spec now day p hold Hn Hd) as Hr.
  destruct (chatReachoutsToday now day p hold) as [h1 chats]. destruct Hr as [Hd1 He1].
  destruct (chats + groupReachoutsToday day tally <? A); [done|]. pose proof (held_spec now day h1 Hn Hd1) as Hh.
  destruct (heldAdmissions now day h1) as [h2 held]. destruct Hh as (Hd2 & _ & He2 & _).
  split; [done|]. by eapply evolves_trans.
Qed.

Lemma cold_gate_spec now day cold key tally hold :
  0 <= now -> of_day day hold ->
  let '(hold', _) := coldGate now day cold key tally hold in
  of_day day hold' /\ evolves now (held_core hold) (held_core hold').
Proof.
  intros Hn Hd. unfold coldGate. destruct cold as [[ca ct]|]; [|split; [done|apply evolves_refl]].
  pose proof (held_spec now day hold Hn Hd) as Hh. destruct (heldAdmissions now day hold) as [h2 held].
  destruct Hh as (Hd2 & _ & He2 & _). destruct (existsb _ held); [done|].
  pose proof (cold_cap_spec now day ca ct tally h2 Hn Hd2) as Hcc.
  destruct (assertUnderColdCap now day ca ct tally h2) as [h3 r3]. destruct Hcc. split; [done|]. by eapply evolves_trans.
Qed.

(** What the synchronous end of an admission does to what the caps read. *)
Lemma judge_spec now day A p cold chat opts tally hold id :
  0 <= now -> of_day day hold -> counted (held_core hold) ->
  let '(hold', r) := judgeAndAdmit now day A p cold chat opts tally hold id in
  of_day day hold' /\ exists c1, evolves now (held_core hold) c1 /\
    (held_core hold' = c1 \/
     (p < A /\ caps (A - 1) c1 /\ held_core hold' = c1 ++ [(id, admission_until now opts, Some p)])%list).
Proof.
  intros Hn Hd Hc. unfold judgeAndAdmit. pose proof (daily_cap_spec now day A p hold Hn Hd Hc) as Hdc.
  destruct (assertUnderDailyCap now day A p hold) as [h1 [[]|e]]; destruct Hdc as (Hd1 & He1 & Hok); [|by eauto].
  destruct (Hok eq_refl) as [Hp Hcaps]. destruct (truthy chat) as [ch|]; [|by eauto].
  pose proof (cold_gate_spec now day cold (coldChatKey ch) tally h1 Hn Hd1) as Hg.
  destruct (coldGate now day cold (coldChatKey ch) tally h1) as [h2 [u|e]]; destruct Hg as [Hd2 He2];
    [|split; [done|]; exists (held_core h2); split; [by eapply evolves_trans|by left]].
  assert (caps (A - 1) (held_core h2)) as Hcaps2 by (destruct He2 as [->|[-> _]]; done).
  destruct (o_hold opts); [|split; [done|]; exists (held_core h2); split; [by eapply evolves_trans|by left]].
  unfold push_admission. destruct h2 as [hh|].
  - simpl in Hd2. rewrite Hd2, Z.eqb_refl. split; [done|]. exists (held_core (Some hh)).
    split; [by eapply evolves_trans|]. right. split_and!; [done|done|]. simpl. by rewrite map_app.
  - split; [done|]. exists []. split; [by eapply evolves_trans|]. right. by split_and!.
Qed.

Lemma reserve_spec now day A n p tally hold :
  0 <= now -> of_day day hold ->
  let '(_, hold', _) := reserveReachouts now day A n p tally hold in
  of_day day hold' /\ evolves now (held_core hold) (held_core hold').
Proof.
  intros Hn Hd. unfold reserveReachouts. destruct (A <? n); [split; [done|apply evolves_refl]|].
  pose proof (reachouts_spec now day p hold Hn Hd) as Hr.
  destruct (chatReachoutsToday now day p hold) as [h1 chats]. destruct Hr as [Hd1 He1].
  destruct (chats + groupReachoutsToday day tally + n <=? A); [done|]. pose proof (held_spec now day h1 Hn Hd1) as Hh.
  destruct (heldAdmissions now day h1) as [h2 held]. destruct Hh as (Hd2 & _ & He2 & _).
  split; [done|]. by eapply evolves_trans.
Qed.

(** ** The system *)

(** The clock, the hold, the rows written today, the counts read so far with the
    instant of each, the admissions whose row is in the table, and the next
    admission's identity. *)
Record System := mkSys {
  clock : Z;
  hold : option AdmissionHold;
  rows : Z;
  reads : list (Z * Z);
  landed : list nat;
  nextId : nat
}.

Section trace.
(** The UTC day, the session's allowance, and how long a count is used after it
    was read; a row is written at least that long before its admission's term
    ends, which is what the admission window is for. *)
Context (day allowance delay : Z).

Definition fresh_read (s : System) (c : Z) : Prop := exists t, (t, c) ∈ reads s /\ clock s <= t + delay.

(** One step of the clock, of a request, or of a caller's settle. *)
Inductive step : System -> System -> Prop :=
| s_tick s n :
    clock s <= n -> startOfUtcDay n = day ->
    step s (mkSys n (hold s) (rows s) (reads s) (landed s) (nextId s))
| s_read s :
    step s (mkSys (clock s) (hold s) (rows s) ((clock s, rows s) :: reads s) (landed s) (nextId s))
| s_first_check s c h' r :
    fresh_read s c -> assertUnderDailyCap (clock s) day allowance c (hold s) = (h', r) ->
    step s (mkSys (clock s) h' (rows s) (reads s) (landed s) (nextId s))
| s_admit s c cold chat opts tally h' r :
    fresh_read s c -> judgeAndAdmit (clock s) day allowance c cold chat opts tally (hold s) (nextId s) = (h', r) ->
    step s (mkSys (clock s) h' (rows s) (reads s) (landed s) (S (nextId s)))
| s_group_add s ca n p tally tally' h' r :
    reserveReachouts (clock s) day ca n p tally (hold s) = (tally', h', r) ->
    step s (mkSys (clock s) h' (rows s) (reads s) (landed s) (nextId s))
| s_land s x :
    x ∈ held_core (hold s) -> c_id x ∉ landed s -> later (c_until x) (clock s + delay) = true ->
    step s (mkSys (clock s) (hold s) (rows s + 1) (reads s) (c_id x :: landed s) (nextId s))
| s_settle_sent s id :
    step s (mkSys (clock s) (settleAdmission (clock s) id true (hold s)) (rows s) (reads s) (landed s) (nextId s))
| s_settle_back s id :
    id ∉ landed s ->
    step s (mkSys (clock s) (settleAdmission (clock s) id false (hold s)) (rows s) (reads s) (landed s) (nextId s)).

(** A process that just started, [n] rows already written today. *)
Definition started (t n : Z) : System := mkSys t None n [] [] 0.

(** *** The invariant *)

Definition is_landed (ids : list nat) (x : Core) : bool := bool_decide (c_id x ∈ ids).
Definition landedIn (ids : list nat) (c : list Core) : Z := Z.of_nat (length (List.filter (is_landed ids) c)).
Definition landedLate (ids : list nat) (t : Z) (c : list Core) : Z :=
  Z.of_nat (length (List.filter (fun x => is_landed ids x && later (c_until x) t) c)).

Record Inv (s : System) : Prop := mkInv {
  i_clock : 0 <= clock s;
  i_day : of_day day (hold s);
  i_ids : Forall (fun i => (i < nextId s)%nat) (landed s);
  i_held : Forall (fun x => (c_id x < nextId s)%nat) (held_core (hold s));
  i_caps : caps allowance (held_core (hold s));
  i_sent : forall x n, x ∈ held_core (hold s) -> c_sent x = Some n -> rows s <= n + landedIn (landed s) (held_core (hold s));
  i_rows : rows s <= allowance;
  i_reads : forall t c, (t, c) ∈ reads s -> t <= clock s /\
      (clock s <= t + delay -> rows s <= c + landedLate (landed s) (t + delay) (held_core (hold s)))
}.

Lemma late_in ids t c : landedLate ids t c <= landedIn ids c.
Proof.
  unfold landedLate, landedIn. induction c as [|x c IH]; simpl; [lia|].
  destruct (is_landed ids x), (later (c_until x) t); simpl; lia.
Qed.

Lemma late_nil ids t now c : now <= t -> Forall (fun x => later (c_until x) now = false) c -> landedLate ids t c = 0.
Proof.
  intros Ht. unfold landedLate. induction 1 as [|x c Hx _ IH]; simpl; [done|].
  destruct (c_until x) as [u|]; simpl in *; [|done]. apply Z.ltb_ge in Hx.
  rewrite (proj2 (Z.ltb_ge t u)) by lia. rewrite andb_false_r. exact IH.
Qed.

(** A lapse check keeps the invariant. *)
Lemma inv_evolves s h' :
  Inv s -> of_day day h' -> evolves (clock s) (held_core (hold s)) (held_core h') ->
  Inv (mkSys (clock s) h' (rows s) (reads s) (landed s) (nextId s)).
Proof.
  intros [Hc Hd Hi Hh Hcap Hs Hr Hrd] Hd' [He|[He Hall]]; constructor; cbn [clock hold rows reads landed nextId]; rewrite ?He; try done.
  - intros x n Hx. by apply elem_of_nil in Hx.
  - intros t c Hin. destruct (Hrd t c Hin) as [Ht Hb]. split; [done|]. intros Hf. specialize (Hb Hf).
    rewrite (late_nil _ _ (clock s)) in Hb by done. unfold landedLate. simpl. lia.
Qed.

Lemma caps_snoc A c id u p :
  caps (A - 1) c -> p < A -> caps A (c ++ [(id, u, Some p)])%list.
Proof.
  intros Hc Hp. induction c as [|x c IH]; [split; [exists p; simpl; split; [done|lia]|done]|].
  destruct Hc as [(n & Hn & Hb) Hc]. cbn [app caps]. split; [|by apply IH].
  exists n. split; [done|]. cbn [length] in *. rewrite length_app. cbn [length]. lia.
Qed.

Lemma landed_snoc ids c y : is_landed ids y = false -> landedIn ids (c ++ [y])%list = landedIn ids c.
Proof. intros H. unfold landedIn. rewrite List.filter_app. simpl. rewrite H, app_nil_r. done. Qed.

Lemma late_snoc ids t c y : is_landed ids y = false -> landedLate ids t (c ++ [y])%list = landedLate ids t c.
Proof. intros H. unfold landedLate. rewrite List.filter_app. simpl. rewrite H. simpl. by rewrite app_nil_r. Qed.

(** Admitting under a count read at most [delay] ago keeps the invariant. *)
Lemma inv_push s t c u h' :
  Inv s -> of_day day h' -> (t, c) ∈ reads s -> clock s <= t + delay ->
  c < allowance -> caps (allowance - 1) (held_core (hold s)) ->
  held_core h' = (held_core (hold s) ++ [(nextId s, u, Some c)])%list ->
  Inv (mkSys (clock s) h' (rows s) (reads s) (landed s) (S (nextId s))).
Proof.
  intros [Hc Hd Hi Hh Hcap Hs Hr Hrd] Hd' Hin Hf Hlt Hcaps He.
  assert (is_landed (landed s) (nextId s, u, Some c) = false) as Hnew.
  { apply bool_decide_eq_false_2. intros Hx. rewrite Forall_forall in Hi. specialize (Hi _ Hx). unfold c_id in Hi. simpl in Hi. lia. }
  constructor; cbn [clock hold rows reads landed nextId]; rewrite ?He; try done.
  - eapply Forall_impl; [exact Hi|]. simpl. lia.
  - apply Forall_app. split; [eapply Forall_impl; [exact Hh|]; simpl; lia|]. constructor; [unfold c_id; simpl; lia|done].
  - by apply caps_snoc.
  - intros x n Hx Hn. rewrite landed_snoc by done. apply elem_of_app in Hx as [Hx|Hx]; [by eauto|].
    apply list_elem_of_singleton in Hx. subst x. injection Hn as <-.
    destruct (Hrd t c Hin) as [_ Hb]. specialize (Hb Hf). pose proof (late_in (landed s) (t + delay) (held_core (hold s))). lia.
  - intros t' c' Hin'. destruct (Hrd t' c' Hin') as [Ht' Hb']. split; [done|]. intros Hf'. rewrite late_snoc by done. auto.
Qed.

Lemma landed_cons ids i x : is_landed ids x = true -> is_landed (i :: ids) x = true.
Proof. unfold is_landed. rewrite !bool_decide_eq_true. by right. Qed.

Lemma landed_head ids x : is_landed (c_id x :: ids) x = true.
Proof. apply bool_decide_eq_true_2. by left. Qed.

(** A row landing is counted by the admissions it is held in. *)
Lemma landed_counts ids c x :
  x ∈ c -> c_id x ∉ ids -> landedIn ids c + 1 <= landedIn (c_id x :: ids) c.
Proof.
  intros Hx Hn. unfold landedIn.
  pose proof (filter_length_lt (is_landed ids) (is_landed (c_id x :: ids)) c x (fun y _ => landed_cons ids (c_id x) y) Hx
    (bool_decide_eq_false_2 _ Hn) (landed_head ids x)). lia.
Qed.

Lemma late_counts ids c x t :
  x ∈ c -> c_id x ∉ ids -> later (c_until x) t = true -> landedLate ids t c + 1 <= landedLate (c_id x :: ids) t c.
Proof.
  intros Hx Hn Hl. unfold landedLate.
  assert (is_landed ids x = false) as Hf by by apply bool_decide_eq_false_2.
  assert (length (List.filter (fun y => is_landed ids y && later (c_until y) t) c) <
    length (List.filter (fun y => is_landed (c_id x :: ids) y && later (c_until y) t) c))%nat; [|lia].
  apply (filter_length_lt _ _ c x); [|done|by rewrite Hf|by rewrite landed_head, Hl].
  intros y _. rewrite !andb_true_iff. intros [H1 H2]. split; [by apply landed_cons|done].
Qed.

(** The oldest admission bounds the day's rows together with the admissions whose
    row is still to come. *)
Definition pending (s : System) : Z :=
  Z.of_nat (length (List.filter (fun x => negb (is_landed (landed s) x)) (held_core (hold s)))).

Lemma filter_split {A} (f : A -> bool) (l : list A) :
  (length (List.filter f l) + length (List.filter (fun x => negb (f x)) l) = length l)%nat.
Proof. induction l as [|y l IH]; simpl; [done|]. destruct (f y); simpl; lia. Qed.

Lemma inv_bound s : Inv s -> rows s + pending s <= allowance.
Proof.
  intros [_ _ _ _ Hcap Hs Hr _]. unfold pending.
  pose proof (filter_split (is_landed (landed s)) (held_core (hold s))) as Hsp. unfold landedIn in Hs.
  destruct (held_core (hold s)) as [|x c] eqn:He; [simpl; lia|].
  destruct Hcap as [(n & Hn & Hb) _]. specialize (Hs x n (list_elem_of_here _ _) Hn). lia.
Qed.

Lemma inv_land s x :
  Inv s -> x ∈ held_core (hold s) -> c_id x ∉ landed s ->
  later (c_until x) (clock s + delay) = true ->
  Inv (mkSys (clock s) (hold s) (rows s + 1) (reads s) (c_id x :: landed s) (nextId s)).
Proof.
  intros HI Hx Hn Hl. pose proof (inv_bound s HI) as Hb. destruct HI as [Hc Hd Hi Hh Hcap Hs Hr Hrd].
  assert (1 <= pending s) as Hp.
  { unfold pending.
    assert (length (List.filter (fun _ => false) (held_core (hold s))) <
      length (List.filter (fun y => negb (is_landed (landed s) y)) (held_core (hold s))))%nat; [|lia].
    apply (filter_length_lt _ _ _ x); [done|done|done|]. unfold is_landed. by rewrite bool_decide_eq_false_2. }
  constructor; cbn [clock hold rows reads landed nextId]; try done; [| |lia|].
  - constructor; [|done]. rewrite Forall_forall in Hh. by apply Hh.
  - intros y n Hy Hny. specialize (Hs y n Hy Hny). pose proof (landed_counts (landed s) _ x Hx Hn). lia.
  - intros t c Hin. destruct (Hrd t c Hin) as [Ht Hbd]. split; [done|]. intros Hf. specialize (Hbd Hf).
    assert (later (c_until x) (t + delay) = true) as Hl'.
    { destruct (c_until x) as [u|]; [|done]. simpl in *. apply Z.ltb_lt in Hl. apply Z.ltb_lt. lia. }
    pose proof (late_counts (landed s) _ x (t + delay) Hx Hn Hl'). lia.
Qed.

(** Settling an admission. *)

Definition restart (now : Z) (id : nat) (x : Core) : Core :=
  if (c_id x =? id)%nat then (c_id x, Fin (now + ADMISSION_WINDOW_MS), c_sent x) else x.

Lemma settle_sent_core now id h :
  held_core (settleAdmission now id true h) = map (restart now id) (held_core h).
Proof.
  destruct h as [h|]; [|done]. simpl. rewrite !map_map. apply map_ext. intros a. unfold restart, c_id. simpl.
  by destruct (a_id a =? id)%nat.
Qed.

Lemma settle_back_core now id h :
  held_core (settleAdmission now id false h) = List.filter (fun x => negb (c_id x =? id)%nat) (held_core h).
Proof.
  destruct h as [h|]; [|done]. simpl.
  assert (List.filter (fun x => negb (c_id x =? id)%nat) (map core (admissions h)) =
          map core (List.filter (fun a => negb (a_id a =? id)%nat) (admissions h))) as ->.
  { induction (admissions h) as [|a l IH]; [done|]. simpl. unfold c_id at 1. simpl. destruct (a_id a =? id)%nat; simpl; by rewrite IH. }
  destruct (List.filter _ (admissions h)), (admissions h); done.
Qed.

Lemma settle_day now id b h : of_day day h -> of_day day (settleAdmission now id b h).
Proof. destruct h as [h|]; [|done]. simpl. intros H. destruct b; [done|]. by destruct (_ && _). Qed.

Lemma restart_id now id x : c_id (restart now id x) = c_id x.
Proof. unfold restart. by case_match. Qed.

Lemma restart_sent now id x : c_sent (restart now id x) = c_sent x.
Proof. unfold restart. by case_match. Qed.

Lemma caps_restart now id b c : caps b c -> caps b (map (restart now id) c).
Proof.
  induction c as [|x c IH]; [done|]. intros [(n & Hn & Hb) Hc]. split; [|by apply IH]. exists n.
  rewrite restart_sent. cbn [length map] in *. rewrite length_map. done.
Qed.

Lemma landed_restart now id ids c : landedIn ids (map (restart now id) c) = landedIn ids c.
Proof.
  unfold landedIn, is_landed. induction c as [|x c IH]; [done|]. simpl. rewrite restart_id. case_match; simpl; lia.
Qed.

Lemma late_restart now id ids t c :
  t < now + ADMISSION_WINDOW_MS -> landedLate ids t c <= landedLate ids t (map (restart now id) c).
Proof.
  intros Ht. unfold landedLate, is_landed. induction c as [|x c IH]; [done|]. simpl. rewrite restart_id.
  assert (later (c_until x) t = true -> later (c_until (restart now id x)) t = true) as Hm.
  { unfold restart. destruct (c_id x =? id)%nat; [|done]. intros _. simpl. by apply Z.ltb_lt. }
  destruct (bool_decide (c_id x ∈ ids)); simpl; [|exact IH].
  destruct (later (c_until x) t); [rewrite Hm by done; simpl; lia|]. case_match; simpl; lia.
Qed.

Lemma inv_settle_sent s id :
  delay < ADMISSION_WINDOW_MS -> Inv s ->
  Inv (mkSys (clock s) (settleAdmission (clock s) id true (hold s)) (rows s) (reads s) (landed s) (nextId s)).
Proof.
  intros Hdl [Hc Hd Hi Hh Hcap Hs Hr Hrd].
  constructor; cbn [clock hold rows reads landed nextId]; rewrite ?settle_sent_core, ?landed_restart; try done.
  - by apply settle_day.
  - apply Forall_map. eapply Forall_impl; [exact Hh|]. intros x. simpl. by rewrite restart_id.
  - by apply caps_restart.
  - intros x n Hx Hn. apply list_elem_of_fmap in Hx as (y & -> & Hy). rewrite restart_sent in Hn. by eapply Hs.
  - intros t c Hin. destruct (Hrd t c Hin) as [Ht Hb]. split; [done|]. intros Hf. specialize (Hb Hf).
    pose proof (late_restart (clock s) id (landed s) (t + delay) (held_core (hold s))). lia.
Qed.

Lemma caps_filter b f c : caps b c -> caps b (List.filter f c).
Proof.
  induction c as [|x c IH]; [done|]. intros [(n & Hn & Hb) Hc]. simpl. destruct (f x); [|by apply IH].
  split; [|by apply IH]. exists n. split; [done|]. cbn [length] in *.
  pose proof (filter_split f c). lia.
Qed.

(** Handing an unsent admission back leaves the landed ones. *)
Lemma filter_back ids id (g : Core -> bool) c :
  id ∉ ids -> (forall x, g x = true -> is_landed ids x = true) ->
  List.filter g (List.filter (fun x => negb (c_id x =? id)%nat) c) = List.filter g c.
Proof.
  intros Hid Hg. induction c as [|x c IH]; [done|]. cbn [List.filter].
  destruct (Nat.eqb_spec (c_id x) id) as [He|He]; cbn [negb List.filter]; rewrite IH; [|done].
  destruct (g x) eqn:Hgx; [|done]. apply Hg in Hgx. unfold is_landed in Hgx. rewrite He in Hgx. by apply bool_decide_eq_true in Hgx.
Qed.

Lemma inv_settle_back s id :
  Inv s -> id ∉ landed s ->
  Inv (mkSys (clock s) (settleAdmission (clock s) id false (hold s)) (rows s) (reads s) (landed s) (nextId s)).
Proof.
  intros [Hc Hd Hi Hh Hcap Hs Hr Hrd] Hid. rewrite Forall_forall in Hh.
  constructor; cbn [clock hold rows reads landed nextId]; rewrite ?settle_back_core; try done.
  - by apply settle_day.
  - apply Forall_forall. intros x Hx. apply list_elem_of_In, List.filter_In in Hx as [Hx _]. apply Hh. by apply list_elem_of_In.
  - by apply caps_filter.
  - intros x n Hx Hn. apply list_elem_of_In, List.filter_In in Hx as [Hx _]. apply list_elem_of_In in Hx.
    unfold landedIn. rewrite (filter_back (landed s)) by done. by eapply Hs.
  - intros t c Hin. destruct (Hrd t c Hin) as [Ht Hb]. split; [done|]. intros Hf. unfold landedLate.
    rewrite (filter_back (landed s)); [by apply Hb|done|]. intros x Hx. by apply andb_true_iff in Hx as [Hx _].
Qed.

Lemma inv_mono_id s : Inv s -> Inv (mkSys (clock s) (hold s) (rows s) (reads s) (landed s) (S (nextId s))).
Proof.
  intros [Hc Hd Hi Hh Hcap Hs Hr Hrd]. constructor; cbn [clock hold rows reads landed nextId]; try done;
    (eapply Forall_impl; [eassumption|]); simpl; lia.
Qed.

Lemma inv_admit s c cold chat opts tally h' r :
  Inv s -> fresh_read s c ->
  judgeAndAdmit (clock s) day allowance c cold chat opts tally (hold s) (nextId s) = (h', r) ->
  Inv (mkSys (clock s) h' (rows s) (reads s) (landed s) (S (nextId s))).
Proof.
  intros HI (t & Hin & Hf) Hj.
  pose proof (judge_spec (clock s) day allowance c cold chat opts tally (hold s) (nextId s)
    (i_clock s HI) (i_day s HI) (caps_counted _ _ (i_caps s HI))) as Hspec.
  rewrite Hj in Hspec. destruct Hspec as (Hd' & c1 & Hev & [He|(Hlt & Hcaps & He)]).
  - apply (inv_mono_id (mkSys (clock s) h' (rows s) (reads s) (landed s) (nextId s))). apply inv_evolves; [done|done|by rewrite He].
  - (* the hold the lapse checks left, and the new admission on it *)
    set (h1 := match c1 with [] => None | _ => hold s end).
    assert (held_core h1 = c1 /\ of_day day h1) as [Hh1 Hd1].
    { unfold h1. pose proof (i_day s HI). destruct Hev as [->|[-> _]]; [|done]. by destruct (held_core (hold s)) eqn:E. }
    apply (inv_push (mkSys (clock s) h1 (rows s) (reads s) (landed s) (nextId s)) t c (admission_until (clock s) opts) h');
      cbn [clock hold rows reads landed nextId]; rewrite ?Hh1; try done.
    apply inv_evolves; [done|done|by rewrite Hh1].
Qed.

Lemma inv_step s s' : delay < ADMISSION_WINDOW_MS -> Inv s -> step s s' -> Inv s'.
Proof.
  intros Hdl HI Hst. destruct Hst as [s n Hle Hd|s|s c h' r (t & Hin & Hf) Hch|s c cold chat opts tally h' r Hf Hj
    |s ca n p tally tally' h' r Hg|s x Hx Hn Hl|s id|s id Hid].
  - destruct HI as [Hc Hd' Hi Hh Hcap Hs Hr Hrd]. constructor; cbn [clock hold rows reads landed nextId]; try done; [lia|].
    intros t c Hin. destruct (Hrd t c Hin) as [Ht Hb]. split; [lia|]. intros Hf. apply Hb. lia.
  - destruct HI as [Hc Hd' Hi Hh Hcap Hs Hr Hrd]. constructor; cbn [clock hold rows reads landed nextId]; try done.
    intros t c Hin. apply elem_of_cons in Hin as [[= -> ->]|Hin]; [|by apply Hrd]. split; [lia|]. unfold landedLate. lia.
  - pose proof (daily_cap_spec (clock s) day allowance c (hold s) (i_clock s HI) (i_day s HI) (caps_counted _ _ (i_caps s HI))) as H.
    rewrite Hch in H. destruct H as (H1 & H2 & _). by apply inv_evolves.
  - by eapply inv_admit.
  - pose proof (reserve_spec (clock s) day ca n p tally (hold s) (i_clock s HI) (i_day s HI)) as H.
    rewrite Hg in H. destruct H. by apply inv_evolves.
  - by apply inv_land.
  - by apply inv_settle_sent.
  - by apply inv_settle_back.
Qed.

Lemma inv_started t n : 0 <= t -> n <= allowance -> Inv (started t n).
Proof.
  intros Ht Hn. constructor; simpl; try done.
  - intros x m Hx. by apply elem_of_nil in Hx.
  - intros u c Hx. by apply elem_of_nil in Hx.
Qed.

End trace.

