(* ===== verification/Idempotency.v ===== *)
(** * Idempotent sends

    [src/src/modules/message/idempotency/send-idempotency.service.ts] and
    [send-idempotency.interceptor.ts]: the claim of an Idempotency-Key, the
    answers a retry gets, and the settling of a claim, as the statements the code
    issues one by one against a table other requests and nodes share. *)
From stdpp Require Import pretty.
From S2P Require Import Prelude JsString Json.
Local Open Scope string_scope.
Local Open Scope Z_scope.

Definition SEND_IDEMPOTENCY_TTL_MS : Z := 24 * 60 * 60 * 1000.
Definition SEND_IDEMPOTENCY_STALE_PENDING_MS : Z := 10 * 60 * 1000.

(** [/^[\x21-\x7E]{1,255}$/] *)
Definition isValidIdempotencyKey (key : string) : bool :=
  all_chars (fun c => (33 <=? code c)%N && (code c <=? 126)%N) key && (1 <=? String.length key)%nat && (String.length key <=? 255)%nat.

(** ** The request fingerprint *)

(** The members of an object whose values are written already, keys sorted. *)
Definition sorted_members (fields : list (string * string)) : string :=
  join "," (map (fun k => stringify k +:+ ":" +:+ default "" (JMap.get k fields)) (merge_sort str_le (map fst fields))).

Fixpoint canonicalJson (value : json) : string :=
  match value with
  | JNull => "null"
  | JBool b => if b then "true" else "false"
  | JNum n => pretty n
  | JStr s => stringify s
  | JArr l => "[" +:+ join "," (map canonicalJson l) +:+ "]"
  | JObj fields => "{" +:+ sorted_members (map (fun e => (fst e, canonicalJson (snd e))) fields) +:+ "}"
  end.

(** ** The table *)

Inductive RowState := Pending | Completed (body : json) | Failed.

Record KeyRow := mkKeyRow {
  sessionId : string;
  idempotencyKey : string;
  requestHash : string;
  state : RowState;
  expiresAt : Z
}.

Abbreviation Keys := (gmap nat KeyRow).

Definition holds_key (s k : string) (r : KeyRow) : bool := String.eqb (sessionId r) s && String.eqb (idempotencyKey r) k.

(** [findOne] by session and key. *)
Definition findKey (s k : string) (t : Keys) : option (nat * KeyRow) :=
  List.find (fun e => holds_key s k (snd e)) (map_to_list t).

Record ClaimInput := mkInput { in_session : string; in_key : string; in_hash : string }.

Inductive ClaimAnswer := Replay (body : json) | Mismatch | InProgress | OutcomeUnknown.

(** The insert, refused by the unique index. *)
Definition insertKey (id : nat) (now : Z) (i : ClaimInput) (t : Keys) : option Keys :=
  match findKey (in_session i) (in_key i) t with
  | Some _ => None
  | None => Some (<[id := mkKeyRow (in_session i) (in_key i) (in_hash i) Pending (now + SEND_IDEMPOTENCY_TTL_MS)]> t)
  end.

Definition classify (row : KeyRow) (hash : string) (now : Z) : ClaimAnswer :=
  if negb (String.eqb (requestHash row) hash) then Mismatch
  else match state row with
       | Completed body => Replay body
       | Failed => OutcomeUnknown
       | Pending => if SEND_IDEMPOTENCY_STALE_PENDING_MS <? now - (expiresAt row - SEND_IDEMPOTENCY_TTL_MS)
                    then OutcomeUnknown else InProgress
       end.

(** [delete({ id, expiresAt: LessThan(now) })] *)
Definition deleteExpired (id : nat) (now : Z) (t : Keys) : Keys :=
  match t !! id with Some r => if expiresAt r <? now then base.delete id t else t | None => t end.

Definition with_state (st : RowState) (r : KeyRow) : KeyRow :=
  mkKeyRow (sessionId r) (idempotencyKey r) (requestHash r) st (expiresAt r).

Definition complete (id : nat) (body : option json) (t : Keys) : Keys := alter (with_state (Completed (default JNull body))) id t.
Definition markFailed (id : nat) (t : Keys) : Keys := alter (with_state Failed) id t.
Definition release (id : nat) (t : Keys) : Keys :=
  match t !! id with Some r => match state r with Pending => base.delete id t | _ => t end | None => t end.
Definition pruneExpired (now : Z) (t : Keys) : Keys := filter (fun e => ~ (expiresAt (snd e) < now)) t.

(** ** The interceptor *)

(** What the failure of a send proves. *)
Record SendFailure := mkFailure { f_provesNothingSent : bool; f_throttled : bool; f_engine : bool; f_status : option Z }.

Definition sendFailureProvesNothingSent (e : SendFailure) : bool :=
  if f_provesNothingSent e || f_throttled e then true
  else if f_engine e then false
  else match f_status e with Some st => (st <? 500) || (st =? 501) | None => false end.

Inductive HandlerOutcome := Returned (body : option json) | Threw (e : SendFailure).

(** Where a request is: at the top of a round, at its insert, its read, its
    delete, running the send, recording the outcome, or answered. *)
Inductive Phase :=
| Round (n : nat) | Inserting (n : nat) (now : Z) | Reading (n : nat) (now : Z) | Deleting (n : nat) (now : Z) (id : nat)
| Sending (id : nat) | Settling (id : nat) (o : HandlerOutcome) | Answered (a : ClaimAnswer) | Ran (o : HandlerOutcome).

Definition settleRow (id : nat) (o : HandlerOutcome) (t : Keys) : Keys :=
  match o with
  | Returned body => complete id body t
  | Threw e => if sendFailureProvesNothingSent e then release id t else markFailed id t
  end.

(** [intercept] before and after the claim: a request without the header, or whose
    session segment is too long to claim, runs as it is; a malformed key is
    refused. *)
Inductive KeyHeader := NoHeader | SeveralHeaders | OneHeader (value : string).
Inductive Intercepted := RunsUnkeyed | KeyInvalid | Claims (key : string).

Definition CLAIMABLE_SESSION_ID_MAX_LENGTH : nat := 255.

Definition intercept (isHttp : bool) (header : KeyHeader) (session : string) : Intercepted :=
  if negb isHttp then RunsUnkeyed
  else match header with
       | NoHeader => RunsUnkeyed
       | SeveralHeaders => KeyInvalid
       | OneHeader key =>
           if negb (isValidIdempotencyKey key) then KeyInvalid
           else if (CLAIMABLE_SESSION_ID_MAX_LENGTH <? String.length session)%nat then RunsUnkeyed
           else Claims key
       end.

(** The status of an answer that sends nothing. *)
Definition answer_status (a : ClaimAnswer) : Z :=
  match a with Replay _ => 200 | Mismatch => 422 | InProgress | OutcomeUnknown => 409 end.

(** ** The system *)

(** A claim ever made: its input, the instant its round began and the instant its
    insert ran. *)
Record Claim := mkClaim { c_input : ClaimInput; c_now : Z; c_at : Z }.

(** The table; the claims, by row id; the requests; what was sent, by the row id
    it ran under, with the body of a send that returned; and the ids released. *)
Record Sys := mkSys {
  clock : Z;
  table : Keys;
  claims : list Claim;
  requests : gmap nat (ClaimInput * Phase);
  sent : list (nat * option json);
  released : list nat
}.

(** A send whose failure proves nothing was sent sent nothing. *)
Definition may_have_sent (o : HandlerOutcome) : bool :=
  match o with Returned _ => true | Threw e => negb (sendFailureProvesNothingSent e) end.
Definition sent_body (o : HandlerOutcome) : option json :=
  match o with Returned b => Some (default JNull b) | Threw _ => None end.

Definition with_phase (s : Sys) (rid : nat) (i : ClaimInput) (p : Phase) : gmap nat (ClaimInput * Phase) :=
  <[rid := (i, p)]> (requests s).

(** One statement of one request, a tick of the clock, or a prune. *)
Inductive idem_step : Sys -> Sys -> Prop :=
| i_tick s t : clock s <= t -> idem_step s (mkSys t (table s) (claims s) (requests s) (sent s) (released s))
| i_prune s now : now <= clock s ->
    idem_step s (mkSys (clock s) (pruneExpired now (table s)) (claims s) (requests s) (sent s) (released s))
| i_arrive s rid i : requests s !! rid = None ->
    idem_step s (mkSys (clock s) (table s) (claims s) (with_phase s rid i (Round 0)) (sent s) (released s))
| i_round s rid i n : requests s !! rid = Some (i, Round n) ->
    idem_step s (mkSys (clock s) (table s) (claims s)
      (with_phase s rid i (if (n <? 2)%nat then Inserting n (clock s) else Answered InProgress)) (sent s) (released s))
| i_insert s rid i n now : requests s !! rid = Some (i, Inserting n now) ->
    idem_step s
      (match insertKey (length (claims s)) now i (table s) with
       | Some t => mkSys (clock s) t (claims s ++ [mkClaim i now (clock s)])%list
                     (with_phase s rid i (Sending (length (claims s)))) (sent s) (released s)
       | None => mkSys (clock s) (table s) (claims s) (with_phase s rid i (Reading n now)) (sent s) (released s)
       end)
| i_read s rid i n now : requests s !! rid = Some (i, Reading n now) ->
    idem_step s (mkSys (clock s) (table s) (claims s)
      (with_phase s rid i
         (match findKey (in_session i) (in_key i) (table s) with
          | None => Round (S n)
          | Some (id, r) => if expiresAt r <=? now then Deleting n now id else Answered (classify r (in_hash i) now)
          end)) (sent s) (released s))
| i_delete s rid i n now id : requests s !! rid = Some (i, Deleting n now id) ->
    idem_step s (mkSys (clock s) (deleteExpired id now (table s)) (claims s) (with_phase s rid i (Round (S n))) (sent s) (released s))
| i_send s rid i id o : requests s !! rid = Some (i, Sending id) ->
    idem_step s (mkSys (clock s) (table s) (claims s) (with_phase s rid i (Settling id o))
      (if may_have_sent o then (id, sent_body o) :: sent s else sent s) (released s))
| i_settle s rid i id o (recorded : bool) : requests s !! rid = Some (i, Settling id o) ->
    idem_step s (mkSys (clock s) (if recorded then settleRow id o (table s) else table s) (claims s) (with_phase s rid i (Ran o)) (sent s)
      (if recorded && negb (may_have_sent o) then id :: released s else released s)).

Definition empty_sys (t : Z) : Sys := mkSys t ∅ [] ∅ [] [].

(** ** The invariant *)

Definition row_of (c : Claim) (r : KeyRow) : Prop :=
  sessionId r = in_session (c_input c) /\ idempotencyKey r = in_key (c_input c) /\ requestHash r = in_hash (c_input c) /\
  expiresAt r = c_now c + SEND_IDEMPOTENCY_TTL_MS.

Definition same_key (a b : Claim) : Prop :=
  in_session (c_input a) = in_session (c_input b) /\ in_key (c_input a) = in_key (c_input b).

(** The row id a request runs or settles its send under. *)
Definition runs (p : Phase) : option nat := match p with Sending id | Settling id _ => Some id | _ => None end.

Definition sent_ids (s : Sys) : list nat := map fst (sent s).

Definition phase_ok (s : Sys) (i : ClaimInput) (p : Phase) : Prop :=
  match p with
  | Inserting _ now | Reading _ now | Deleting _ now _ => now <= clock s
  | Sending id => (id < length (claims s))%nat /\ id ∉ released s /\ id ∉ sent_ids s
  | Settling id o =>
      (id < length (claims s))%nat /\ id ∉ released s /\
      (may_have_sent o = false -> id ∉ sent_ids s) /\ (forall b, sent_body o = Some b -> (id, Some b) ∈ sent s)
  | Answered (Replay b) => exists id c, claims s !! id = Some c /\ c_input c = i /\ (id, Some b) ∈ sent s
  | _ => True
  end.

Record Inv (s : Sys) : Prop := mkInv {
  v_rows : forall id r, table s !! id = Some r -> exists c, claims s !! id = Some c /\ row_of c r;
  v_done : forall id r b, table s !! id = Some r -> state r = Completed b -> (id, Some b) ∈ sent s;
  v_gone : forall id c, claims s !! id = Some c ->
      is_Some (table s !! id) \/ c_now c + SEND_IDEMPOTENCY_TTL_MS < clock s \/ id ∈ released s;
  v_pairs : forall i j ci cj, (i < j)%nat -> claims s !! i = Some ci -> claims s !! j = Some cj -> same_key ci cj ->
      i ∈ released s \/ c_now ci + SEND_IDEMPOTENCY_TTL_MS < c_at cj;
  v_phases : forall rid i p, requests s !! rid = Some (i, p) -> phase_ok s i p;
  v_holder : forall r1 r2 i1 i2 p1 p2 id, requests s !! r1 = Some (i1, p1) -> requests s !! r2 = Some (i2, p2) ->
      runs p1 = Some id -> runs p2 = Some id -> r1 = r2;
  v_sent : NoDup (sent_ids s) /\ forall id, id ∈ sent_ids s -> id ∉ released s;
  v_known : forall id, id ∈ sent_ids s \/ id ∈ released s -> (id < length (claims s))%nat
}.

(** Rows only disappear once expired, and time passes. *)
Lemma inv_table s t' cl :
  Inv s -> clock s <= cl ->
  (forall id r, t' !! id = Some r -> table s !! id = Some r) ->
  (forall id r, table s !! id = Some r -> is_Some (t' !! id) \/ expiresAt r < cl) ->
  Inv (mkSys cl t' (claims s) (requests s) (sent s) (released s)).
Proof.
  intros [Vr Vd Vg Vp Vph Vh Vs Vk] Hcl Hsub Hgone. constructor; cbn [clock table claims requests sent released]; try done.
  - intros id r H. by apply Vr, Hsub.
  - intros id r b H. by apply Vd, Hsub.
  - intros id c Hc. destruct (Vg id c Hc) as [[r Hr]|[He|Hre]]; [|right; left; lia|by right; right].
    destruct (Hgone id r Hr) as [H|H]; [by left|]. right. left. destruct (Vr id r Hr) as (c' & Hc' & _ & _ & _ & Hx).
    rewrite Hc in Hc'. injection Hc' as ->. lia.
  - intros rid i p Hp. specialize (Vph rid i p Hp). destruct p as [n|n now|n now|n now id|id|id o|[b| | |]|o]; simpl in *; try done; lia.
Qed.

(** A request moves to a phase in which it runs no send. *)
Lemma inv_phase s rid i p' :
  Inv s -> runs p' = None -> phase_ok s i p' ->
  Inv (mkSys (clock s) (table s) (claims s) (with_phase s rid i p') (sent s) (released s)).
Proof.
  intros [Vr Vd Vg Vp Vph Vh Vs Vk] Hr Hok. constructor; cbn [clock table claims requests sent released]; try done; unfold with_phase.
  - intros rid' i' q [[-> [= <- <-]]|[Hne Hq]]%lookup_insert_Some; [exact Hok|]. exact (Vph rid' i' q Hq).
  - intros r1 r2 i1 i2 p1 p2 id [[-> [= <- <-]]|[Hn1 H1]]%lookup_insert_Some [[-> [= <- <-]]|[Hn2 H2]]%lookup_insert_Some Hr1 Hr2; try congruence.
    by eapply Vh.
Qed.

Lemma findKey_spec s k t :
  match findKey s k t with
  | Some (id, r) => t !! id = Some r /\ sessionId r = s /\ idempotencyKey r = k
  | None => forall id r, t !! id = Some r -> ~ (sessionId r = s /\ idempotencyKey r = k)
  end.
Proof.
  unfold findKey. destruct (List.find _ _) as [[id r]|] eqn:E.
  - apply List.find_some in E as [Hin Hk]. apply list_elem_of_In, elem_of_map_to_list in Hin. unfold holds_key in Hk. simpl in Hk.
    apply andb_true_iff in Hk as [H1%String.eqb_eq H2%String.eqb_eq]. done.
  - intros id r Hr [H1 H2]. apply elem_of_map_to_list, list_elem_of_In in Hr. pose proof (List.find_none _ _ E _ Hr) as Hn.
    unfold holds_key in Hn. simpl in Hn. by rewrite H1, H2, !String.eqb_refl in Hn.
Qed.

(** A claim that went through: every earlier one on the key is expired or released. *)
Lemma inv_claimed s rid i n now t :
  Inv s -> requests s !! rid = Some (i, Inserting n now) -> insertKey (length (claims s)) now i (table s) = Some t ->
  Inv (mkSys (clock s) t (claims s ++ [mkClaim i now (clock s)])%list (with_phase s rid i (Sending (length (claims s)))) (sent s) (released s)).
Proof.
  intros [Vr Vd Vg Vp Vph Vh [Vs1 Vs2] Vk] Hrid Hins. unfold insertKey in Hins. pose proof (findKey_spec (in_session i) (in_key i) (table s)) as Hf.
  destruct (findKey _ _ _) as [[??]|]; [done|]. injection Hins as <-. set (L := length (claims s)) in *.
  assert (forall id, (L <= id)%nat -> table s !! id = None) as Hnew.
  { intros id Hid. destruct (table s !! id) as [r|] eqn:E; [|done]. destruct (Vr id r E) as (c & Hc & _). apply lookup_lt_Some in Hc. lia. }
  assert (forall id, id ∈ sent_ids s -> (id < L)%nat) as Hsl by eauto.
  assert (forall id, id ∈ released s -> (id < L)%nat) as Hrl by eauto.
  constructor; cbn [clock table claims requests sent released]; unfold with_phase.
  - intros id r [[<- <-]|[Hne Hr]]%lookup_insert_Some.
    + exists (mkClaim i now (clock s)). split; [by rewrite lookup_app_r, Nat.sub_diag by done|]. by split_and!.
    + destruct (Vr id r Hr) as (c & Hc & Hrow). exists c. split; [by apply lookup_app_l_Some|done].
  - intros id r b [[<- <-]|[Hne Hr]]%lookup_insert_Some; [done|by eauto].
  - intros id c Hc. apply lookup_app_Some in Hc as [Hc|[Hge Hc]].
    + destruct (Vg id c Hc) as [H|H]; [left|by right]. destruct (decide (L = id)) as [->|Hne]; [by rewrite lookup_insert_eq|by rewrite lookup_insert_ne].
    + left. assert (id = L) as -> by (apply lookup_lt_Some in Hc; simpl in Hc; lia). by rewrite lookup_insert_eq.
  - intros a b ca cb Hab Ha Hb Hsame. apply lookup_app_Some in Hb as [Hb|[Hge Hb]].
    + apply lookup_lt_Some in Hb as Hbl. rewrite lookup_app_l in Ha by lia. by eapply Vp.
    + assert (b = L) as -> by (apply lookup_lt_Some in Hb; simpl in Hb; lia). rewrite Nat.sub_diag in Hb. injection Hb as <-.
      rewrite lookup_app_l in Ha by lia. destruct (Vg a ca Ha) as [[r Hr]|[He|Hre]]; [|by right|by left].
      exfalso. destruct (Vr a r Hr) as (c' & Hc' & Hs & Hk & _). rewrite Ha in Hc'. injection Hc' as ->.
      destruct Hsame as [E1 E2]. apply (Hf a r Hr). rewrite Hs, Hk. done.
  - intros rid' i' q [[-> [= <- <-]]|[Hne Hq]]%lookup_insert_Some.
    + simpl. rewrite length_app. split_and!; [simpl; lia|intros H; apply Hrl in H; lia|intros H; apply Hsl in H; lia].
    + specialize (Vph rid' i' q Hq). destruct q as [?|?|?|?|id|id o|[b| | |]|o]; simpl in *; try done.
      * rewrite length_app. destruct Vph as (? & ? & ?). split_and!; [lia|done|done].
      * rewrite length_app. destruct Vph as (? & ? & ? & ?). split_and!; [lia|done|done|done].
      * destruct Vph as (id & c & Hc & ? & ?). exists id, c. split; [by apply lookup_app_l_Some|done].
  - intros r1 r2 i1 i2 p1 p2 id [[-> [= <- <-]]|[Hn1 H1]]%lookup_insert_Some [[-> [= <- <-]]|[Hn2 H2]]%lookup_insert_Some Hr1 Hr2; try done.
    + injection Hr1 as <-. pose proof (Vph _ _ _ H2) as Hx. destruct p2; simpl in Hr2; try done; injection Hr2 as ->; simpl in Hx; lia.
    + injection Hr2 as <-. pose proof (Vph _ _ _ H1) as Hx. destruct p1; simpl in Hr1; try done; injection Hr1 as ->; simpl in Hx; lia.
    + by eapply Vh.
  - done.
  - intros id Hid. rewrite length_app. specialize (Vk id Hid). simpl. lia.
Qed.

(** The send ran. *)
Lemma inv_sent s rid i id o :
  Inv s -> requests s !! rid = Some (i, Sending id) ->
  Inv (mkSys (clock s) (table s) (claims s) (with_phase s rid i (Settling id o))
         (if may_have_sent o then (id, sent_body o) :: sent s else sent s) (released s)).
Proof.
  intros [Vr Vd Vg Vp Vph Vh [Vs1 Vs2] Vk] Hrid. destruct (Vph _ _ _ Hrid) as (Hlt & Hnr & Hns).
  set (snt := if may_have_sent o then _ else _).
  assert (forall x, x ∈ sent s -> x ∈ snt) as Hmono by (intros x Hx; unfold snt; destruct (may_have_sent o); [by right|done]).
  assert (forall x, x ∈ map fst snt -> x = id \/ x ∈ sent_ids s) as Hback.
  { intros x Hx. unfold snt in Hx. destruct (may_have_sent o); [|by right]. apply elem_of_cons in Hx as [->|Hx]; [by left|by right]. }
  constructor; cbn [clock table claims requests sent released]; unfold with_phase, sent_ids in *; cbn [sent] in *; try done.
  - intros id' r b H1 H2. apply Hmono. by eauto.
  - intros rid' i' q [[-> [= <- <-]]|[Hne Hq]]%lookup_insert_Some.
    + simpl. unfold sent_ids. cbn [sent]. split_and!; [done|done| |].
      * intros Hm. unfold snt. by rewrite Hm.
      * intros b Hb. unfold snt. destruct o; [|done]. simpl in *. injection Hb as <-. by left.
    + specialize (Vph rid' i' q Hq).
      assert (runs q <> Some id) as Hq'. { intros Hru. apply Hne. eapply (Vh rid rid'); [exact Hrid|exact Hq|done|done]. }
      destruct q as [?|?|?|?|id'|id' o'|[b| | |]|o']; simpl in *; unfold sent_ids in *; cbn [sent] in *; try done.
      * destruct Vph as (? & ? & Hn). split_and!; [done|done|]. intros Hx. apply Hback in Hx as [->|Hx]; done.
      * destruct Vph as (? & ? & Hn & Hb). split_and!; [done|done| |by auto]. intros Hm Hx. apply Hback in Hx as [->|Hx]; [done|by apply Hn].
      * destruct Vph as (id' & c & Hc & Hi & Hb). exists id', c. auto.
  - intros r1 r2 i1 i2 p1 p2 x [[-> [= <- <-]]|[Hn1 H1]]%lookup_insert_Some [[-> [= <- <-]]|[Hn2 H2]]%lookup_insert_Some Hr1 Hr2; try done.
    + eapply (Vh _ _ _ _ _ _ x Hrid H2); [exact Hr1|exact Hr2].
    + eapply (Vh _ _ _ _ _ _ x H1 Hrid); [exact Hr1|exact Hr2].
    + by eapply Vh.
  - split.
    + unfold snt. destruct (may_have_sent o); [|done]. apply NoDup_cons. done.
    + intros x Hx. apply Hback in Hx as [->|Hx]; [done|by apply Vs2].
  - intros x [Hx|Hx]; [|by apply Vk; right]. apply Hback in Hx as [->|Hx]; [done|by apply Vk; left].
Qed.

Lemma settleRow_lookup id o t x r :
  settleRow id o t !! x = Some r ->
  exists r0, t !! x = Some r0 /\ sessionId r = sessionId r0 /\ idempotencyKey r = idempotencyKey r0 /\
    requestHash r = requestHash r0 /\ expiresAt r = expiresAt r0 /\
    (state r = state r0 \/ (x = id /\ forall b, state r = Completed b -> sent_body o = Some b)).
Proof.
  intros H. assert (forall st, alter (with_state st) id t !! x = Some r ->
    exists r0, t !! x = Some r0 /\ sessionId r = sessionId r0 /\ idempotencyKey r = idempotencyKey r0 /\
      requestHash r = requestHash r0 /\ expiresAt r = expiresAt r0 /\ (state r = state r0 \/ (x = id /\ state r = st))) as Halt.
  { intros st Hs. destruct (decide (id = x)) as [->|Hne].
    - rewrite lookup_alter_eq in Hs. destruct (t !! x) as [r0|]; [|done]. injection Hs as <-. exists r0. split_and!; try done. by right.
    - rewrite lookup_alter_ne in Hs by done. exists r. split_and!; try done. by left. }
  unfold settleRow, complete, markFailed, release in H. destruct o as [body|e].
  - destruct (Halt _ H) as (r0 & ? & ? & ? & ? & ? & [?|[-> Hst]]); exists r0; split_and!; try done; [by left|].
    right. split; [done|]. intros b Hb. rewrite Hst in Hb. simpl. congruence.
  - destruct (sendFailureProvesNothingSent e).
    + assert (t !! x = Some r) as Hx. { destruct (t !! id) as [r0|] eqn:E; [|done]. destruct (state r0); [|done|done]. by apply lookup_delete_Some in H as [_ ?]. }
      exists r. split_and!; try done. by left.
    + destruct (Halt _ H) as (r0 & ? & ? & ? & ? & ? & [?|[-> Hst]]); exists r0; split_and!; try done; [by left|].
      right. split; [done|]. intros b Hb. congruence.
Qed.

Lemma settleRow_kept id o t x : is_Some (t !! x) -> is_Some (settleRow id o t !! x) \/ (x = id /\ may_have_sent o = false).
Proof.
  intros [r Hr]. unfold settleRow, complete, markFailed, release.
  assert (forall st, is_Some (alter (with_state st) id t !! x)) as Halt.
  { intros st. destruct (decide (id = x)) as [->|Hne]; [rewrite lookup_alter_eq, Hr; by eexists|rewrite lookup_alter_ne by done; by eexists]. }
  destruct o as [body|e]; [by left|]. simpl. destruct (sendFailureProvesNothingSent e); [|by left].
  destruct (t !! id) as [r0|] eqn:E; [|left; by eexists]. destruct (state r0); [|left; by eexists|left; by eexists].
  destruct (decide (x = id)) as [->|Hne]; [by right|]. left. rewrite lookup_delete_ne by done. by eexists.
Qed.

(** The outcome is recorded, or fails to be. *)
Lemma inv_settled s rid i id o (rec : bool) :
  Inv s -> requests s !! rid = Some (i, Settling id o) ->
  Inv (mkSys (clock s) (if rec then settleRow id o (table s) else table s) (claims s) (with_phase s rid i (Ran o)) (sent s)
         (if rec && negb (may_have_sent o) then id :: released s else released s)).
Proof.
  intros [Vr Vd Vg Vp Vph Vh [Vs1 Vs2] Vk] Hrid. destruct (Vph _ _ _ Hrid) as (Hlt & Hnr & Hns & Hb).
  set (t := if rec then _ else _). set (rel := if rec && _ then _ else _).
  assert (forall x, x ∈ released s -> x ∈ rel) as Hmono by (intros x Hx; unfold rel; destruct (rec && _); [by right|done]).
  assert (forall x, x ∈ rel -> x ∈ released s \/ (x = id /\ may_have_sent o = false)) as Hback.
  { intros x Hx. unfold rel in Hx. destruct rec, (may_have_sent o); simpl in Hx; try (by left). apply elem_of_cons in Hx as [->|Hx]; [by right|by left]. }
  assert (forall x r, t !! x = Some r -> exists r0, table s !! x = Some r0 /\ sessionId r = sessionId r0 /\ idempotencyKey r = idempotencyKey r0 /\
    requestHash r = requestHash r0 /\ expiresAt r = expiresAt r0 /\
    (state r = state r0 \/ (x = id /\ forall b, state r = Completed b -> sent_body o = Some b))) as Hrow.
  { intros x r Hx. unfold t in Hx. destruct rec; [by apply settleRow_lookup|]. exists r. split_and!; try done. by left. }
  assert (forall x, runs (Settling id o) = Some x -> x = id) as Hrx by (intros x [= ->]; done).
  constructor; cbn [clock table claims requests sent released]; unfold with_phase; try done.
  - intros x r Hx. destruct (Hrow x r Hx) as (r0 & H0 & E1 & E2 & E3 & E4 & _). destruct (Vr x r0 H0) as (c & Hc & F1 & F2 & F3 & F4).
    exists c. split; [done|]. unfold row_of. split_and!; congruence.
  - intros x r b Hx Hst. destruct (Hrow x r Hx) as (r0 & H0 & _ & _ & _ & _ & [E|[-> E]]); [|by apply Hb, E].
    apply (Vd x r0 b); [done|congruence].
  - intros x c Hc. destruct (Vg x c Hc) as [Hs|[He|Hre]]; [|by right; left|right; right; by apply Hmono].
    unfold t, rel. destruct rec; [|by left]. destruct (settleRow_kept id o (table s) x Hs) as [?|[-> Hm]]; [by left|].
    right. right. rewrite Hm. simpl. by left.
  - intros a b ca cb Hab Ha Hcb Hsame. destruct (Vp a b ca cb Hab Ha Hcb Hsame) as [H|H]; [left; by apply Hmono|by right].
  - intros rid' i' q [[-> [= <- <-]]|[Hne Hq]]%lookup_insert_Some; [done|]. specialize (Vph rid' i' q Hq).
    assert (runs q <> Some id) as Hq'. { intros Hru. apply Hne. eapply (Vh rid rid'); [exact Hrid|exact Hq|done|done]. }
    destruct q as [?|?|?|?|x|x o'|[b| | |]|o']; simpl in *; unfold sent_ids in *; cbn [sent released clock claims] in *; try done.
    + destruct Vph as (? & Hn & ?). split_and!; [done| |done]. intros Hx. apply Hback in Hx as [Hx|[-> _]]; done.
    + destruct Vph as (? & Hn & ? & ?). split_and!; [done| |done|done]. intros Hx. apply Hback in Hx as [Hx|[-> _]]; done.
  - intros r1 r2 i1 i2 p1 p2 x [[-> [= <- <-]]|[Hn1 H1]]%lookup_insert_Some [[-> [= <- <-]]|[Hn2 H2]]%lookup_insert_Some Hr1 Hr2; try done.
    by eapply Vh.
  - split; [done|]. intros x Hx Hin. apply Hback in Hin as [Hin|[-> Hm]]; [by apply (Vs2 x)|by apply Hns].
  - intros x [Hx|Hx]; [by apply Vk; left|]. apply Hback in Hx as [Hx|[-> _]]; [by apply Vk; right|done].
Qed.

Lemma inv_read s rid i n now :
  Inv s -> requests s !! rid = Some (i, Reading n now) ->
  phase_ok s i (match findKey (in_session i) (in_key i) (table s) with
                | None => Round (S n)
                | Some (id, r) => if expiresAt r <=? now then Deleting n now id else Answered (classify r (in_hash i) now)
                end).
Proof.
  intros [Vr Vd Vg Vp Vph Vh Vs Vk] Hrid. pose proof (Vph _ _ _ Hrid) as Hnow. simpl in Hnow.
  pose proof (findKey_spec (in_session i) (in_key i) (table s)) as Hf. destruct (findKey _ _ _) as [[id r]|]; [|done].
  destruct Hf as (Hr & Hs & Hk). destruct (expiresAt r <=? now); [done|]. unfold classify.
  destruct (String.eqb_spec (requestHash r) (in_hash i)) as [Hh|]; [|done]. cbn [negb].
  destruct (state r) as [|b|] eqn:Hst; [by destruct (_ <? _)| |done].
  destruct (Vr id r Hr) as (c & Hc & E1 & E2 & E3 & _). exists id, c. split_and!; [done| |by eapply Vd].
  destruct (c_input c), i; simpl in *. congruence.
Qed.

Lemma idem_step_inv s s' : idem_step s s' -> Inv s -> Inv s'.
Proof.
  intros Hst HI. destruct Hst as [s t Ht|s now Hn|s rid i Hr|s rid i n Hr|s rid i n now Hr|s rid i n now Hr|s rid i n now id Hr|s rid i id o Hr|s rid i id o rec Hr].
  - apply inv_table; [done|done|done|]. intros id r H. left. by eexists.
  - apply inv_table; [done|lia| |].
    + intros id r [H _]%map_lookup_filter_Some. done.
    + intros id r H. destruct (decide (expiresAt r < now)); [right; lia|left]. exists r. by apply map_lookup_filter_Some.
  - by apply inv_phase.
  - apply inv_phase; [done| |]; destruct (n <? 2)%nat; simpl; lia || done.
  - pose proof (v_phases s HI _ _ _ Hr) as Hnow. simpl in Hnow. destruct (insertKey _ _ _ _) as [t|] eqn:E; [by eapply inv_claimed|by apply inv_phase].
  - apply inv_phase; [done| |exact (inv_read s rid i n now HI Hr)]. destruct (findKey _ _ _) as [[id r]|]; [|done]. by destruct (expiresAt r <=? now).
  - pose proof (v_phases s HI _ _ _ Hr) as Hnow. simpl in Hnow.
    pose proof (inv_phase s rid i (Round (S n)) HI eq_refl I) as H1.
    apply (inv_table _ (deleteExpired id now (table s)) (clock s)) in H1; [exact H1|simpl; lia| |]; cbn [table]; unfold deleteExpired.
    + intros x r. destruct (table s !! id) as [r0|]; [|done]. destruct (expiresAt r0 <? now); [|done]. by intros [_ ?]%lookup_delete_Some.
    + intros x r Hx. destruct (table s !! id) as [r0|] eqn:E; [|left; by eexists]. destruct (Z.ltb_spec (expiresAt r0) now); [|left; by eexists].
      destruct (decide (id = x)) as [->|Hne]; [right; rewrite Hx in E; injection E as ->; lia|left; rewrite lookup_delete_ne by done; by eexists].
  - by apply inv_sent.
  - by apply inv_settled.
Qed.

Lemma empty_inv t : Inv (empty_sys t).
Proof.
  constructor; cbn [empty_sys clock table claims requests sent released]; try done.
  - split; [constructor|]. intros id Hid. by apply elem_of_nil in Hid.
  - intros id [H|H]; by apply elem_of_nil in H.
Qed.

Lemma reachable_inv t s : rtc idem_step (empty_sys t) s -> Inv s.
Proof. intros Hr. refine (rtc_invariant idem_step Inv _ _ _ Hr (empty_inv t)). apply idem_step_inv. Qed.


(** A replay is the answer of the same request: a request answered from the
    store gets the body that a send under the same session, key and request
    fingerprint returned. *)
Theorem replay_is_the_same_send t s rid i b :
  rtc idem_step (empty_sys t) s -> requests s !! rid = Some (i, Answered (Replay b)) ->
  exists id c, claims s !! id = Some c /\ c_input c = i /\ (id, Some b) ∈ sent s.
Proof. intros Hr Hrid. exact (v_phases s (reachable_inv t s Hr) rid i _ Hrid). Qed.

(** ** Runs *)

(** A move of the system, executable: [None] when it is not enabled. *)
Inductive Move := MTick (t : Z) | MArrive (rid : nat) (i : ClaimInput) | MNext (rid : nat) | MSend (rid : nat) (o : HandlerOutcome) | MSettle (rid : nat).

Definition exec (s : Sys) (m : Move) : option Sys :=
  let upd := fun t rid i p => mkSys (clock s) t (claims s) (with_phase s rid i p) (sent s) (released s) in
  match m with
  | MTick t => if clock s <=? t then Some (mkSys t (table s) (claims s) (requests s) (sent s) (released s)) else None
  | MArrive rid i => match requests s !! rid with None => Some (upd (table s) rid i (Round 0)) | Some _ => None end
  | MNext rid =>
      match requests s !! rid with
      | Some (i, Round n) => Some (upd (table s) rid i (if (n <? 2)%nat then Inserting n (clock s) else Answered InProgress))
      | Some (i, Inserting n now) =>
          Some (match insertKey (length (claims s)) now i (table s) with
                | Some t => mkSys (clock s) t (claims s ++ [mkClaim i now (clock s)])%list
                              (with_phase s rid i (Sending (length (claims s)))) (sent s) (released s)
                | None => upd (table s) rid i (Reading n now)
                end)
      | Some (i, Reading n now) =>
          Some (upd (table s) rid i
            (match findKey (in_session i) (in_key i) (table s) with
             | None => Round (S n)
             | Some (id, r) => if expiresAt r <=? now then Deleting n now id else Answered (classify r (in_hash i) now)
             end))
      | Some (i, Deleting n now id) => Some (upd (deleteExpired id now (table s)) rid i (Round (S n)))
      | _ => None
      end
  | MSend rid o =>
      match requests s !! rid with
      | Some (i, Sending id) => Some (mkSys (clock s) (table s) (claims s) (with_phase s rid i (Settling id o))
                                        (if may_have_sent o then (id, sent_body o) :: sent s else sent s) (released s))
      | _ => None
      end
  | MSettle rid =>
      match requests s !! rid with
      | Some (i, Settling id o) => Some (mkSys (clock s) (settleRow id o (table s)) (claims s) (with_phase s rid i (Ran o)) (sent s)
                                           (if negb (may_have_sent o) then id :: released s else released s))
      | _ => None
      end
  end.

Lemma exec_sound s m s' : exec s m = Some s' -> idem_step s s'.
Proof.
  destruct m as [t|rid i|rid|rid o|rid]; simpl.
  - destruct (Z.leb_spec (clock s) t); [|done]. intros [= <-]. by apply i_tick.
  - destruct (requests s !! rid) eqn:E; [done|]. intros [= <-]. by apply i_arrive.
  - destruct (requests s !! rid) as [[i [n|n now|n now|n now id|id|id o|a|o]]|] eqn:E; try done; intros [= <-].
    + by apply i_round.
    + by apply i_insert.
    + by apply i_read.
    + by apply i_delete.
  - destruct (requests s !! rid) as [[i [n|n now|n now|n now id|id|id o'|a|o']]|] eqn:E; try done. intros [= <-]. by apply i_send.
  - destruct (requests s !! rid) as [[i [n|n now|n now|n now id|id|id o'|a|o']]|] eqn:E; try done. intros [= <-]. by apply (i_settle s rid i id o' true).
Qed.

Definition run (s : Sys) (ms : list Move) : option Sys := fold_left (fun o m => o ≫= fun s => exec s m) ms (Some s).

Lemma run_sound ms : forall s s', run s ms = Some s' -> rtc idem_step s s'.
Proof.
  unfold run. induction ms as [|m ms IH]; intros s s' H; simpl in H; [injection H as <-; apply rtc_refl|].
  destruct (exec s m) as [s1|] eqn:E; [eapply rtc_l; [by eapply exec_sound|by apply IH]|].
  exfalso. clear -H. induction ms as [|m' ms IH]; [done|]. by apply IH.
Qed.

(** A first send under a key, then a retry with [d] milliseconds between. *)
Definition demo_input : ClaimInput := mkInput "s" "k" "h".
Definition demo_moves (d : Z) (steps : nat) : list Move :=
  ([MArrive 0 demo_input; MNext 0; MNext 0; MSend 0 (Returned (Some (JStr "sent"))); MSettle 0; MTick (5 + d); MArrive 1 demo_input]
   ++ repeat (MNext 1) steps)%list.
Definition demo_end (d : Z) (steps : nat) : Sys := default (empty_sys 0) (run (empty_sys 5) (demo_moves d steps)).

Lemma demo_retry : rtc idem_step (empty_sys 5) (demo_end 60000 3).
Proof. apply (run_sound (demo_moves 60000 3)). vm_compute. reflexivity. Qed.


Lemma replay_is_the_same_send_witness :
  exists id c, claims (demo_end 60000 3) !! id = Some c /\ c_input c = demo_input /\ (id, Some (JStr "sent")) ∈ sent (demo_end 60000 3).
Proof.
  refine (replay_is_the_same_send 5 _ 1%nat demo_input (JStr "sent") demo_retry _). vm_compute. reflexivity.
Defined.

(** At the very instant a row expires, a claim takes it for expired and deletes
    only rows that expired before: a retry of a completed send is told it is
    still running. *)
Lemma expiry_instant_reports_in_progress :
  let s := demo_end SEND_IDEMPOTENCY_TTL_MS 9 in
  rtc idem_step (empty_sys 5) s /\ (state <$> table s !! 0%nat) = Some (Completed (JStr "sent")) /\
  requests s !! 1%nat = Some (demo_input, Answered InProgress).
Proof.
  split_and!; [|vm_compute; reflexivity|vm_compute; reflexivity].
  apply (run_sound (demo_moves SEND_IDEMPOTENCY_TTL_MS 9)). vm_compute. reflexivity.
Qed.

(** ** The fingerprint of a body ignores the order of its members *)

(** Two bodies with the same members, in whatever order, at every depth. *)
Inductive same_json : json -> json -> Prop :=
| sj_same v : same_json v v
| sj_arr l l' : Forall2 same_json l l' -> same_json (JArr l) (JArr l')
| sj_obj fields mid fields' :
    NoDup (map fst fields) -> fields ≡ₚ mid ->
    Forall2 (fun e e' => fst e = fst e' /\ same_json (snd e) (snd e')) mid fields' ->
    same_json (JObj fields) (JObj fields').

Lemma get_perm {V} k (m m' : list (string * V)) : JMap.wf m -> m ≡ₚ m' -> JMap.get k m = JMap.get k m'.
Proof.
  intros Hwf Hp. assert (JMap.wf m') as Hwf'. { unfold JMap.wf, JMap.keys in *. by rewrite <- Hp. }
  destruct (JMap.get k m) as [v|] eqn:E.
  - apply JMap.get_Some_elem in E. rewrite Hp in E. symmetry. by apply JMap.get_elem_wf.
  - destruct (JMap.get k m') as [v|] eqn:E'; [|done]. apply JMap.get_Some_elem in E'. rewrite <- Hp in E'.
    apply (JMap.get_elem_wf _ _ _ Hwf) in E'. congruence.
Qed.

Lemma sorted_members_perm m m' : JMap.wf m -> m ≡ₚ m' -> sorted_members m = sorted_members m'.
Proof.
  intros Hwf Hp. unfold sorted_members. f_equal.
  assert (merge_sort str_le (map fst m) = merge_sort str_le (map fst m')) as ->.
  { apply (StronglySorted_unique str_le); [apply StronglySorted_merge_sort; apply _|apply StronglySorted_merge_sort; apply _|].
    rewrite !merge_sort_Permutation. by rewrite Hp. }
  apply map_ext. intros k. by rewrite (get_perm k m m').
Qed.

Lemma canonical_same : forall a b, same_json a b -> canonicalJson a = canonicalJson b.
Proof.
  fix IH 3. intros a b [v|l l' H|fields mid fields' Hnd Hp H]; [done| |].
  - cbn [canonicalJson]. assert (map canonicalJson l = map canonicalJson l') as ->; [|done].
    induction H as [|x y l l' Hxy _ IHl]; [done|]. cbn [map]. f_equal; [by apply IH|exact IHl].
  - cbn [canonicalJson].
    assert (map (fun e => (fst e, canonicalJson (snd e))) mid = map (fun e => (fst e, canonicalJson (snd e))) fields') as He.
    { clear Hp. induction H as [|x y l l' [Hk Hv] _ IHl]; [done|]. cbn [map]. f_equal; [|exact IHl]. f_equal; [exact Hk|by apply IH]. }
    rewrite <- He. rewrite (sorted_members_perm _ (map (fun e => (fst e, canonicalJson (snd e))) mid)); [done| |by rewrite Hp].
    unfold JMap.wf, JMap.keys. rewrite map_map. exact Hnd.
Qed.

(** A retry may write its body's members in another order: the canonical text
    that is fingerprinted depends only on the members and their values, at every
    depth, while array entries keep their order. *)
Theorem canonical_json_ignores_member_order a b : same_json a b -> canonicalJson a = canonicalJson b.
Proof. apply canonical_same. Qed.

Lemma canonical_json_ignores_member_order_witness :
  let a := JObj [("text", JStr "hi"); ("opts", JObj [("b", JNum 2); ("a", JArr [JNum 1; JNull])])] in
  let b := JObj [("opts", JObj [("a", JArr [JNum 1; JNull]); ("b", JNum 2)]); ("text", JStr "hi")] in
  canonicalJson a = canonicalJson b /\ String.length (canonicalJson a) = 41%nat.
Proof.
  split; [|vm_compute; reflexivity]. apply canonical_json_ignores_member_order.
  eapply sj_obj; [repeat constructor; set_solver|apply perm_swap|].
  repeat constructor; simpl; try apply sj_same.
  eapply sj_obj; [repeat constructor; set_solver|apply perm_swap|]. repeat constructor; apply sj_same.
Defined.
