(* ===== verification/Template.v ===== *)
(** * Text templates

    [src/src/common/utils/template-render.ts]: placeholders [{{name}}] and the
    legacy [{name}], the rendering of a template, and the length of a rendering
    computed without building it. *)
From S2P Require Import Prelude JsString.
Local Open Scope string_scope.
Local Open Scope Z_scope.

(** ** The placeholder pattern *)

(** The longest prefix of characters in a class, and the rest. *)
Fixpoint span (p : ascii -> bool) (s : string) : string * string :=
  match s with
  | EmptyString => ("", "")
  | String c r => if p c then let '(a, b) := span p r in (String c a, b) else ("", s)
  end.

(** [[\w.-]] *)
Definition key_char (c : ascii) : bool := is_word c || Ascii.eqb c "." || Ascii.eqb c "-".

(** A match of [\{\{\s*([\w.-]+)\s*\}\}] at the start: its text, its group, the
    rest.  The classes are disjoint, so the greedy match is the only one. *)
Definition match_double (s : string) : option (string * string * string) :=
  if startsWith s "{{" then
    let '(w1, r1) := span is_ws (drop_chars 2 s) in
    let '(k, r2) := span key_char r1 in
    let '(w2, r3) := span is_ws r2 in
    if negb (String.eqb k "") && startsWith r3 "}}"
    then Some ("{{" +:+ w1 +:+ k +:+ w2 +:+ "}}", k, drop_chars 2 r3) else None
  else None.

(** A match of [\{(\w+)\}]. *)
Definition match_single (s : string) : option (string * string * string) :=
  if startsWith s "{" then
    let '(k, r1) := span is_word (drop_chars 1 s) in
    if negb (String.eqb k "") && startsWith r1 "}" then Some ("{" +:+ k +:+ "}", k, drop_chars 1 r1) else None
  else None.

Definition match_here (s : string) : option (string * string * string) :=
  match match_double s with Some m => Some m | None => match_single s end.

(** A body as the global pattern cuts it: text between matches, and matches. *)
Inductive Piece := Text (c : ascii) | Placeholder (raw key : string).

Fixpoint pieces (fuel : nat) (s : string) : list Piece :=
  match fuel, s with
  | S n, String c r =>
      match match_here s with
      | Some (raw, key, rest) => Placeholder raw key :: pieces n rest
      | None => Text c :: pieces n r
      end
  | _, _ => []
  end.

(** Every step takes a character, so the length is fuel enough. *)
Definition cut (body : string) : list Piece := pieces (String.length body) body.

Definition templateVariableNames (body : string) : list string :=
  omap (fun p => match p with Placeholder _ k => Some k | Text _ => None end) (cut body).

(** ** Values *)

(** A variable's value: null, a value with a text form, or one without. *)
Inductive Value := Null | AsText (s : string) | NoText.

Inductive RenderError := TemplateRenderError (key : string).

Abbreviation Vars := (list (string * Value)).
Abbreviation Seen := (list (string * option string)).

Definition substitution (vars : Vars) (key : string) (seen : Seen) : result RenderError (option string * Seen) :=
  match JMap.get key seen with
  | Some t => Ok (t, seen)
  | None =>
      match JMap.get key vars with
      | Some NoText => Err (TemplateRenderError key)
      | Some (AsText t) => Ok (Some t, JMap.set key (Some t) seen)
      | Some Null | None => Ok (None, JMap.set key None seen)
      end
  end.

(** ** Rendering *)

Fixpoint render (vars : Vars) (seen : Seen) (l : list Piece) : result RenderError string :=
  match l with
  | [] => Ok ""
  | Text c :: r => result_bind (render vars seen r) (fun out => Ok (String c out))
  | Placeholder raw key :: r =>
      result_bind (substitution vars key seen) (fun '(t, seen) =>
      result_bind (render vars seen r) (fun out => Ok (default raw t +:+ out)))
  end.

Definition renderTemplate (body : string) (vars : Vars) : result RenderError string :=
  if has_char "{" body then render vars [] (cut body) else Ok body.

Fixpoint measure (vars : Vars) (seen : Seen) (l : list Piece) (length : Z) : result RenderError Z :=
  match l with
  | [] => Ok length
  | Text _ :: r => measure vars seen r length
  | Placeholder raw key :: r =>
      result_bind (substitution vars key seen) (fun '(t, seen) =>
      measure vars seen r (match t with
                           | Some t => length + (Z.of_nat (String.length t) - Z.of_nat (String.length raw))
                           | None => length
                           end))
  end.

Definition renderedLength (body : string) (vars : Vars) : result RenderError Z :=
  if has_char "{" body then measure vars [] (cut body) (Z.of_nat (String.length body)) else Ok (Z.of_nat (String.length body)).

(** ** The cut is a partition of the body *)

Definition piece_text (p : Piece) : string := match p with Text c => String c "" | Placeholder raw _ => raw end.
Definition glue (l : list Piece) : string := fold_right (fun p acc => piece_text p +:+ acc) "" l.

Lemma span_app p s : let '(a, b) := span p s in s = a +:+ b.
Proof. induction s as [|c r IH]; [done|]. simpl. destruct (p c); [|done]. destruct (span p r). by rewrite append_cons, <- IH. Qed.

Lemma startsWith_drop s p : startsWith s p = true -> s = p +:+ drop_chars (String.length p) s.
Proof.
  intros H. apply startsWith_spec in H as [r ->]. f_equal. induction p as [|c p IH]; [by destruct r|]. simpl. exact IH.
Qed.

Lemma match_double_app s raw k rest : match_double s = Some (raw, k, rest) -> s = raw +:+ rest /\ raw <> "".
Proof.
  unfold match_double. destruct (startsWith s "{{") eqn:E; [|done]. apply startsWith_drop in E. cbn [String.length] in E.
  pose proof (span_app is_ws (drop_chars 2 s)) as H1. destruct (span is_ws (drop_chars 2 s)) as [w1 r1].
  pose proof (span_app key_char r1) as H2. destruct (span key_char r1) as [k' r2].
  pose proof (span_app is_ws r2) as H3. destruct (span is_ws r2) as [w2 r3].
  destruct (startsWith r3 "}}") eqn:E2; rewrite ?andb_false_r; [|done]. apply startsWith_drop in E2. cbn [String.length] in E2.
  remember (drop_chars _ _) as tl eqn:Htl in E2 |- *. clear Htl.
  destruct (negb (String.eqb k' "")); [|done]. cbn [andb]. intros [= <- <- <-]. split; [|done].
  rewrite !append_assoc, <- E2, <- H3, <- H2, <- H1. exact E.
Qed.

Lemma match_single_app s raw k rest : match_single s = Some (raw, k, rest) -> s = raw +:+ rest /\ raw <> "".
Proof.
  unfold match_single. destruct (startsWith s "{") eqn:E; [|done]. apply startsWith_drop in E. cbn [String.length] in E.
  pose proof (span_app is_word (drop_chars 1 s)) as H1. destruct (span is_word (drop_chars 1 s)) as [k' r1].
  destruct (startsWith r1 "}") eqn:E2; rewrite ?andb_false_r; [|done]. apply startsWith_drop in E2. cbn [String.length] in E2.
  remember (drop_chars _ _) as tl eqn:Htl in E2 |- *. clear Htl.
  destruct (negb (String.eqb k' "")); [|done]. cbn [andb]. intros [= <- <- <-]. split; [|done].
  rewrite !append_assoc, <- E2, <- H1. exact E.
Qed.

Lemma match_here_app s raw k rest : match_here s = Some (raw, k, rest) -> s = raw +:+ rest /\ raw <> "".
Proof.
  unfold match_here. destruct (match_double s) as [[[a b] c]|] eqn:E; [intros [= <- <- <-]; by eapply match_double_app|by apply match_single_app].
Qed.

Lemma pieces_glue n s : (String.length s <= n)%nat -> glue (pieces n s) = s.
Proof.
  revert s. induction n as [|n IH]; intros [|c r] Hn; simpl in *; try done; [lia|].
  destruct (match_here (String c r)) as [[[raw k] rest]|] eqn:E; simpl.
  - apply match_here_app in E as [E Hne]. rewrite IH; [done|]. apply (f_equal String.length) in E. rewrite length_append in E.
    simpl in E. destruct raw; [done|]. simpl in E. lia.
  - by rewrite IH by lia.
Qed.

Lemma cut_glue body : glue (cut body) = body.
Proof. by apply pieces_glue. Qed.

(** ** The length is the length of the rendering *)

Lemma measure_render vars l seen n :
  measure vars seen l n =
  result_bind (render vars seen l) (fun out => Ok (n + (Z.of_nat (String.length out) - Z.of_nat (String.length (glue l))))).
Proof.
  revert seen n. induction l as [|[c|raw key] r IH]; intros seen n; cbn [measure render glue fold_right piece_text].
  - simpl. f_equal. lia.
  - rewrite IH. destruct (render vars seen r) as [out|e]; [|done]. cbn [result_bind]. f_equal. fold (glue r). change (String.length (String c "" +:+ glue r)) with (S (String.length (glue r))). cbn [String.length]. lia.
  - destruct (substitution vars key seen) as [[t seen']|e]; [|done]. cbn [result_bind]. rewrite IH.
    destruct (render vars seen' r) as [out|e]; [|done]. cbn [result_bind]. f_equal. fold (glue r). rewrite !length_append.
    destruct t; simpl; lia.
Qed.

Lemma no_brace_text s : has_char "{" s = false -> forall n, (String.length s <= n)%nat -> pieces n s = map Text (String.list_ascii_of_string s).
Proof.
  intros Hs n. revert s Hs. induction n as [|n IH]; intros [|c r] Hs Hn; simpl in *; try done; [lia|].
  apply orb_false_iff in Hs as [Hc Hr]. assert (match_here (String c r) = None) as ->.
  { assert (forall p, startsWith (String c r) (String "{" p) = false) as Hno.
    { intros p. destruct (startsWith (String c r) (String "{" p)) eqn:E; [|done]. apply startsWith_spec in E as [x Hx].
      injection Hx as -> _. by rewrite Ascii.eqb_refl in Hc. }
    unfold match_here, match_double, match_single. by rewrite !Hno. }
  by rewrite IH by (done || lia).
Qed.

(** The measured length is exact: for every body and every variables, the
    length computed without building the text is the length of the rendered
    text, and it fails exactly when the rendering fails, with the same error. *)
Theorem rendered_length_exact body vars :
  renderedLength body vars = result_bind (renderTemplate body vars) (fun out => Ok (Z.of_nat (String.length out))).
Proof.
  unfold renderedLength, renderTemplate. destruct (has_char "{" body); [|done]. rewrite measure_render, cut_glue.
  destruct (render vars [] (cut body)); [|done]. simpl. f_equal. lia.
Qed.

(** The memo holds what the variables say. *)
Definition memo_ok (vars : Vars) (seen : Seen) : Prop :=
  forall k t, JMap.get k seen = Some t ->
    match JMap.get k vars with Some (AsText s) => t = Some s | Some Null | None => t = None | Some NoText => False end.

Definition value_text (vars : Vars) (k : string) : result RenderError (option string) :=
  match JMap.get k vars with Some (AsText s) => Ok (Some s) | Some Null | None => Ok None | Some NoText => Err (TemplateRenderError k) end.

Lemma substitution_spec vars key seen :
  memo_ok vars seen ->
  match substitution vars key seen with
  | Ok (t, seen') => value_text vars key = Ok t /\ memo_ok vars seen'
  | Err e => value_text vars key = Err e
  end.
Proof.
  intros Hm. unfold substitution, value_text. destruct (JMap.get key seen) as [t|] eqn:E.
  - pose proof (Hm key t E) as Ht. destruct (JMap.get key vars) as [[|s|]|]; subst; done.
  - assert (forall t, (match JMap.get key vars with Some (AsText s) => t = Some s | Some Null | None => t = None | Some NoText => False end) ->
      memo_ok vars (JMap.set key t seen)) as Hset.
    { intros t Ht k t'. destruct (decide (key = k)) as [->|Hne]; [rewrite JMap.get_set_eq; by intros [= <-]|].
      rewrite JMap.get_set_ne by done. apply Hm. }
    destruct (JMap.get key vars) as [[|s|]|] eqn:Ev; try rewrite Ev in Hset; try done; (split; [done|by apply Hset]).
Qed.

(** What a rendering is: each placeholder with a value replaced by it, everything
    else as it stands, in one pass. *)
Fixpoint replaced (vars : Vars) (l : list Piece) : result RenderError string :=
  match l with
  | [] => Ok ""
  | Text c :: r => result_bind (replaced vars r) (fun out => Ok (String c out))
  | Placeholder raw key :: r =>
      result_bind (value_text vars key) (fun t => result_bind (replaced vars r) (fun out => Ok (default raw t +:+ out)))
  end.

Lemma render_replaced vars l seen : memo_ok vars seen -> render vars seen l = replaced vars l.
Proof.
  revert seen. induction l as [|[c|raw key] r IH]; intros seen Hm; cbn [render replaced]; [done|by rewrite IH|].
  pose proof (substitution_spec vars key seen Hm) as H. destruct (substitution vars key seen) as [[t seen']|e].
  - destruct H as [-> Hm']. cbn [result_bind]. by rewrite IH.
  - by rewrite H.
Qed.

Lemma replaced_text vars s : replaced vars (map Text (String.list_ascii_of_string s)) = Ok s.
Proof. induction s as [|c r IH]; [done|]. simpl. by rewrite IH. Qed.

Lemma replaced_unknown vars l :
  Forall (fun p => match p with Placeholder _ k => value_text vars k = Ok None | Text _ => True end) l -> replaced vars l = Ok (glue l).
Proof.
  induction 1 as [|[c|raw k] r Hp _ IH]; [done| |]; cbn [replaced glue fold_right piece_text].
  - by rewrite IH.
  - by rewrite Hp, IH.
Qed.

(** Rendering is one pass over the body's placeholders: the memo and the
    brace-free shortcut change nothing, the pieces are exactly the body, and a body
    none of whose variables has a value renders to itself. *)
Theorem render_is_one_pass body vars :
  renderTemplate body vars = replaced vars (cut body) /\ glue (cut body) = body /\
  (Forall (fun k => value_text vars k = Ok None) (templateVariableNames body) -> renderTemplate body vars = Ok body).
Proof.
  assert (renderTemplate body vars = replaced vars (cut body)) as Hr.
  { unfold renderTemplate. destruct (has_char "{" body) eqn:E; [by apply render_replaced|].
    unfold cut. rewrite no_brace_text by done. by rewrite replaced_text. }
  split_and!; [done|apply cut_glue|]. intros Hn. rewrite Hr, replaced_unknown; [by rewrite cut_glue|].
  unfold templateVariableNames in Hn. clear Hr. induction (cut body) as [|[c|raw k] r IH]; [constructor|constructor; [done|by apply IH]|].
  cbn [omap list_omap] in Hn. apply Forall_cons in Hn as [Hk Hn]. constructor; [done|by apply IH].
Qed.

(** A name, a legacy one, one without a value, and a value that looks like a
    placeholder. *)
Example render_example :
  renderTemplate "Hi {{ name }}, {code}! {{x.y-z}} {{{a}}} {}" [("name", AsText "{code}"); ("code", AsText "7"); ("a", Null)] =
  Ok "Hi {code}, 7! {{x.y-z}} {{{a}}} {}".
Proof. reflexivity. Qed.
