(* ===== verification/RateLimit.v ===== *)
(** * The WebSocket rate limiters

    [src/src/modules/events/ws-rate-limit.ts]: the per-key token bucket on client
    frames and the per-address sliding window on handshakes, each over a map capped
    by least recent use.  Tokens are counted in thousandths, so that a refill over
    whole milliseconds is exact; the code's are doubles. *)
From S2P Require Import Prelude JsString.
Local Open Scope Z_scope.

(** ** The capped maps *)

(** Delete the oldest entries until the map fits. *)
Fixpoint evictOverflow {V : Type} (m : list (string * V)) (maxKeys : Z) : list (string * V) :=
  match m with
  | [] => []
  | e :: r => if Z.max 1 maxKeys <? Z.of_nat (length (e :: r)) then evictOverflow r maxKeys else e :: r
  end.

(** [delete] then [set], then the eviction. *)
Definition touch {V : Type} (k : string) (v : V) (m : list (string * V)) (maxKeys : Z) : list (string * V) :=
  evictOverflow (JMap.set k v (JMap.delete k m)) maxKeys.

(** ** The token bucket *)

Record Bucket := mkBucket { tokens : Z; lastRefill : Z }.

Section token_bucket.
Context (refillPerSecond capacity maxKeys : Z).

Definition refill (t : Z) (b : option Bucket) : Bucket :=
  match b with
  | None => mkBucket (1000 * capacity) t
  | Some b => if lastRefill b <? t
              then mkBucket (Z.min (1000 * capacity) (tokens b + (t - lastRefill b) * refillPerSecond)) t
              else b
  end.

Definition take (b : Bucket) : Bucket * bool :=
  if 1000 <=? tokens b then (mkBucket (tokens b - 1000) (lastRefill b), true) else (b, false).

(** [TokenBucketLimiter.allow] *)
Definition allowFrame (t : Z) (subject : string) (buckets : list (string * Bucket)) : list (string * Bucket) * bool :=
  let '(b, allowed) := take (refill t (JMap.get subject buckets)) in
  (touch subject b buckets maxKeys, allowed).
End token_bucket.

(** ** The sliding window *)

Record Hit := mkHit { at_ : Z; reservation : option nat }.

Section sliding_window.
Context (max_ windowMs maxKeys : Z).

Definition recent (t : Z) (hits : list Hit) : list Hit := List.filter (fun h => t - at_ h <? windowMs) hits.

(** [SlidingWindowLimiter.allow] *)
Definition allowHit (t : Z) (subject : string) (res : option nat) (m : list (string * list Hit)) :
    list (string * list Hit) * bool :=
  let r := recent t (default [] (JMap.get subject m)) in
  let allowed := Z.of_nat (length r) <? max_ in
  (touch subject (if allowed then r ++ [mkHit t res] else r)%list m maxKeys, allowed).

(** Remove the first hit of a reservation. *)
Fixpoint remove_first (res : nat) (l : list Hit) : list Hit :=
  match l with
  | [] => []
  | h :: r => if bool_decide (reservation h = Some res) then r else h :: remove_first res r
  end.

Definition pop (l : list Hit) : list Hit := removelast l.

(** [SlidingWindowLimiter.refund] *)
Definition refund (subject : string) (res : option nat) (m : list (string * list Hit)) : list (string * list Hit) :=
  match JMap.get subject m with
  | None | Some [] => m
  | Some l => JMap.set subject (match res with None => pop l | Some r => remove_first r l end) m
  end.
End sliding_window.

(** ** The maps stay capped, and small maps are not evicted *)

Lemma evict_cons {V} (e : string * V) r k :
  evictOverflow (e :: r) k = if Z.max 1 k <? Z.of_nat (length (e :: r)) then evictOverflow r k else e :: r.
Proof. done. Qed.

Lemma evict_bounded {V} (m : list (string * V)) k : Z.of_nat (length (evictOverflow m k)) <= Z.max 1 k.
Proof.
  induction m as [|e r IH]; [simpl; lia|]. rewrite evict_cons.
  destruct (Z.ltb_spec (Z.max 1 k) (Z.of_nat (length (e :: r)))); [exact IH|done].
Qed.

Lemma evict_small {V} (m : list (string * V)) k : Z.of_nat (length m) <= Z.max 1 k -> evictOverflow m k = m.
Proof. destruct m as [|e r]; [done|]. intros H. rewrite evict_cons. by rewrite (proj2 (Z.ltb_ge _ _) H). Qed.

(** A map whose keys are among few subjects. *)
Definition small_map {V} (S : list string) (m : list (string * V)) : Prop :=
  JMap.wf m /\ forall k, k ∈ JMap.keys m -> k ∈ S.

Lemma small_length {V} S (m : list (string * V)) : small_map S m -> (length m <= length S)%nat.
Proof.
  intros [Hwf Hk]. unfold JMap.wf in Hwf. rewrite <- (length_map fst m). change (map fst m) with (JMap.keys m).
  apply NoDup_incl_length; [by apply NoDup_ListNoDup|]. intros x Hx. apply list_elem_of_In. apply Hk. by apply list_elem_of_In.
Qed.

Lemma touch_small {V} S k (v : V) m mk :
  small_map S m -> k ∈ S -> Z.of_nat (length S) <= mk ->
  small_map S (touch k v m mk) /\ forall k', JMap.get k' (touch k v m mk) = if String.eqb k' k then Some v else JMap.get k' m.
Proof.
  intros [Hwf Hk] Hin Hlen.
  assert (small_map S (JMap.set k v (JMap.delete k m))) as Hs.
  { split; [apply JMap.wf_set, JMap.wf_delete; done|]. intros k'. rewrite JMap.keys_set_elem, JMap.keys_delete_elem. intros [->|[? _]]; auto. }
  unfold touch. rewrite evict_small by (pose proof (small_length S _ Hs); lia). split; [done|].
  intros k'. destruct (String.eqb_spec k' k) as [->|Hne]; [apply JMap.get_set_eq|].
  rewrite JMap.get_set_ne, JMap.get_delete_ne by congruence. done.
Qed.

(** ** The token bucket's rate *)

Section token_rate.
Context (refillPerSecond capacity maxKeys : Z) (Hrate : 0 <= refillPerSecond) (Hcap : 0 <= capacity).

Abbreviation allow := (allowFrame refillPerSecond capacity maxKeys).

(** The frames of [events] that were let through for [s]. *)
Fixpoint frames (s : string) (events : list (Z * string)) (m : list (string * Bucket)) : list (string * Bucket) * Z :=
  match events with
  | [] => (m, 0)
  | (t, k) :: r =>
      let '(m', ok) := allow t k m in
      let '(m'', n) := frames s r m' in
      (m'', n + if String.eqb k s && ok then 1 else 0)
  end.

(** Ascending instants within [a, b]. *)
Fixpoint instants (a b : Z) (events : list (Z * string)) : Prop :=
  match events with [] => a <= b | (t, _) :: r => a <= t /\ instants t b r end.

Lemma instants_le a b ev : instants a b ev -> a <= b.
Proof. revert a. induction ev as [|[t k] r IH]; intros a; simpl; [done|]. intros [H1 H2]. specialize (IH t H2). lia. Qed.

(** What is left in the bucket of [s] at an instant no earlier than its refill. *)
Definition credit (s : string) (m : list (string * Bucket)) (t : Z) : Z := tokens (refill refillPerSecond capacity t (JMap.get s m)).

Definition bucket_ok (t : Z) (b : Bucket) : Prop := 0 <= tokens b <= 1000 * capacity /\ lastRefill b <= t.
Definition buckets_ok (t : Z) (m : list (string * Bucket)) : Prop := forall k b, JMap.get k m = Some b -> bucket_ok t b.

Lemma refill_ok t b : (forall b0, b = Some b0 -> bucket_ok t b0) -> bucket_ok t (refill refillPerSecond capacity t b) /\
  lastRefill (refill refillPerSecond capacity t b) = t.
Proof.
  intros Hb. destruct b as [b|]; simpl; [|unfold bucket_ok; simpl; lia]. specialize (Hb b eq_refl) as [Ht Hl].
  destruct (Z.ltb_spec (lastRefill b) t); [|split; [done|lia]]. unfold bucket_ok. simpl. nia.
Qed.

Lemma refill_mono t t' b : (forall b0, b = Some b0 -> bucket_ok t b0) -> t <= t' ->
  tokens (refill refillPerSecond capacity t' b) <= tokens (refill refillPerSecond capacity t b) + (t' - t) * refillPerSecond.
Proof.
  intros Hb Htt. destruct b as [b|]; simpl; [|nia]. specialize (Hb b eq_refl) as [Ht Hl].
  destruct (Z.ltb_spec (lastRefill b) t), (Z.ltb_spec (lastRefill b) t'); simpl; nia.
Qed.

Lemma take_spec b : let '(b', ok) := take b in lastRefill b' = lastRefill b /\ tokens b' = tokens b - 1000 * (if ok then 1 else 0) /\
  (0 <= tokens b -> 0 <= tokens b').
Proof. unfold take. destruct (Z.leb_spec 1000 (tokens b)); simpl; lia. Qed.

(** Every frame let through costs a thousand thousandths of the credit. *)
Lemma frames_cost S s ev a b m :
  Z.of_nat (length S) <= maxKeys -> small_map S m -> (forall t k, (t, k) ∈ ev -> k ∈ S) ->
  instants a b ev -> buckets_ok a m ->
  let '(m', n) := frames s ev m in
  1000 * n <= credit s m a + (b - a) * refillPerSecond.
Proof.
  intros Hlen. revert a m. induction ev as [|[t k] r IH]; intros a m Hm HS Hi Hb; cbn [frames instants] in *.
  - unfold credit. pose proof (refill_ok a (JMap.get s m) (fun b0 => Hb s b0)) as [[[H0 _] _] _]. nia.
  - destruct Hi as [Hat Hi]. unfold allowFrame.
    assert (buckets_ok t m) as Hbt by (intros k0 b0 H0; destruct (Hb k0 b0 H0); split; [done|lia]).
    pose proof (refill_ok t (JMap.get k m) (fun b0 => Hbt k b0)) as [[Hr1 Hr2] Hr3].
    pose proof (take_spec (refill refillPerSecond capacity t (JMap.get k m))) as Ht.
    destruct (take (refill refillPerSecond capacity t (JMap.get k m))) as [b' ok]. destruct Ht as (Hl' & Htk & Hnn).
    destruct (touch_small S k b' m maxKeys Hm (HS t k (list_elem_of_here _ _)) Hlen) as [Hm' Hget].
    assert (buckets_ok t (touch k b' m maxKeys)) as Hb'.
    { intros k0 b0. rewrite Hget. destruct (String.eqb k0 k); [|by apply Hbt]. intros [= <-]. split; [|lia].
      specialize (Hnn (proj1 Hr1)). destruct ok; lia. }
    specialize (IH t _ Hm' (fun t0 k0 H0 => HS t0 k0 (list_elem_of_further _ _ _ H0)) Hi Hb').
    destruct (frames s r (touch k b' m maxKeys)) as [m'' n]. unfold credit in *. rewrite Hget in IH. rewrite (String.eqb_sym s k) in IH.
    pose proof (refill_mono a t (JMap.get s m) (fun b0 => Hb s b0) Hat) as Hmono.
    destruct (String.eqb_spec k s) as [->|Hne]; cbn [andb].
    + unfold refill in IH at 1. rewrite Hl', Hr3, Z.ltb_irrefl in IH. destruct ok; nia.
    + nia.
Qed.

Lemma frames_state S s ev a b m :
  Z.of_nat (length S) <= maxKeys -> small_map S m -> (forall t k, (t, k) ∈ ev -> k ∈ S) ->
  instants a b ev -> buckets_ok a m ->
  small_map S (fst (frames s ev m)) /\ buckets_ok b (fst (frames s ev m)).
Proof.
  intros Hlen. revert a m. induction ev as [|[t k] r IH]; intros a m Hm HS Hi Hb; cbn [frames instants] in *.
  - split; [done|]. intros k b0 H0. destruct (Hb k b0 H0). split; [done|lia].
  - destruct Hi as [Hat Hi]. unfold allowFrame.
    assert (buckets_ok t m) as Hbt by (intros k0 b0 H0; destruct (Hb k0 b0 H0); split; [done|lia]).
    pose proof (refill_ok t (JMap.get k m) (fun b0 => Hbt k b0)) as [[Hr1 Hr2] Hr3].
    pose proof (take_spec (refill refillPerSecond capacity t (JMap.get k m))) as Ht.
    destruct (take (refill refillPerSecond capacity t (JMap.get k m))) as [b' ok]. destruct Ht as (Hl' & Htk & Hnn).
    destruct (touch_small S k b' m maxKeys Hm (HS t k (list_elem_of_here _ _)) Hlen) as [Hm' Hget].
    assert (buckets_ok t (touch k b' m maxKeys)) as Hb'.
    { intros k0 b0. rewrite Hget. destruct (String.eqb k0 k); [|by apply Hbt]. intros [= <-]. split; [|lia].
      specialize (Hnn (proj1 Hr1)). destruct ok; lia. }
    specialize (IH t _ Hm' (fun t0 k0 H0 => HS t0 k0 (list_elem_of_further _ _ _ H0)) Hi Hb').
    by destruct (frames s r (touch k b' m maxKeys)).
Qed.

(** A key cannot exceed its frame rate: after any history, over any interval,
    the frames let through for a subject are at most the burst capacity plus what
    the sustained rate refills in that interval, while no more subjects are seen
    than the map holds. *)
Theorem frame_rate_bounded S s past a0 a now b :
  Z.of_nat (length S) <= maxKeys ->
  (forall t k, (t, k) ∈ past \/ (t, k) ∈ now -> k ∈ S) ->
  instants a0 a past -> instants a b now ->
  1000 * snd (frames s now (fst (frames s past []))) <= 1000 * capacity + (b - a) * refillPerSecond.
Proof.
  intros Hlen HS Hp Hn.
  destruct (frames_state S s past a0 a [] Hlen) as [Hm Hb]; [split; [constructor|]; intros k Hk; by apply elem_of_nil in Hk|by eauto|done|done|].
  set (m := fst (frames s past [])) in *.
  pose proof (frames_cost S s now a b m Hlen Hm (fun t k H => HS t k (or_intror H)) Hn Hb) as H.
  destruct (frames s now m) as [m' n]. simpl. unfold credit in H.
  pose proof (refill_ok a (JMap.get s m) (fun b0 => Hb s b0)) as [[[_ Hle] _] _]. lia.
Qed.
End token_rate.

(** A burst of two and one frame a second: of five frames in a second, three. *)
Lemma frame_rate_bounded_witness :
  snd (frames 1 2 10 "k" [(0, "k"); (1, "k"); (2, "j"); (3, "k"); (1000, "k"); (1000, "k")]%string []) = 3 /\
  1000 * snd (frames 1 2 10 "k" [(0, "k"); (1, "k"); (2, "j"); (3, "k"); (1000, "k"); (1000, "k")]%string []) <= 1000 * 2 + (1000 - 0) * 1.
Proof.
  split; [reflexivity|].
  apply (frame_rate_bounded 1 2 10 ltac:(lia) ltac:(lia) ["k"; "j"]%string "k"%string [] 0 0); [simpl; lia| |simpl; lia|simpl; lia].
  intros t k [H|H]; [by apply elem_of_nil in H|]. repeat (apply elem_of_cons in H as [[= -> ->]|H]; [set_solver|]). by apply elem_of_nil in H.
Defined.

(** ** The handshake window *)

Section window.
Context (max_ windowMs maxKeys : Z) (Hmax : 0 <= max_) (Hwin : 0 < windowMs).

(** The specification: the attempts let in and not given back, never pruned; a
    refund without a reservation gives back the latest still in the window. *)
Inductive HsEvent := Attempt (t : Z) (subject : string) (res : option nat) | Refund (subject : string) (res : option nat).

Definition inWindow (t : Z) (log : list Hit) : Z :=
  Z.of_nat (length (List.filter (fun h => (at_ h <=? t) && (t - at_ h <? windowMs)) log)).

Definition hs_step (m : list (string * list Hit)) (e : HsEvent) : list (string * list Hit) :=
  match e with
  | Attempt t k res => fst (allowHit max_ windowMs maxKeys t k res m)
  | Refund k res => refund k res m
  end.

Definition log_step (s : string) (st : Z * list Hit) (m : list (string * list Hit)) (e : HsEvent) : Z * list Hit :=
  let '(last, log) := st in
  match e with
  | Attempt t k res =>
      (if String.eqb k s then t else last,
       if String.eqb k s && snd (allowHit max_ windowMs maxKeys t k res m) then log ++ [mkHit t res] else log)%list
  | Refund k res =>
      (last, if String.eqb k s
             then match res with
                  | Some r => remove_first r log
                  | None => match recent windowMs last log with [] => log | _ => removelast log end
                  end
             else log)
  end.

(** The log of [s] and the map after a run. *)
Fixpoint hs_run (s : string) (st : Z * list Hit) (m : list (string * list Hit)) (events : list HsEvent) :
    (Z * list Hit) * list (string * list Hit) :=
  match events with
  | [] => (st, m)
  | e :: r => hs_run s (log_step s st m e) (hs_step m e) r
  end.

(** Instants ascend, a reservation names one attempt, and the subjects are among [S]. *)
Fixpoint hs_valid (S : list string) (t0 : Z) (used : list nat) (events : list HsEvent) : Prop :=
  match events with
  | [] => True
  | Attempt t k res :: r =>
      t0 <= t /\ k ∈ S /\
      match res with Some n => n ∉ used /\ hs_valid S t (n :: used) r | None => hs_valid S t used r end
  | Refund _ _ :: r => hs_valid S t0 used r
  end.

(** *** Windows over a log *)

Definition names (log : list Hit) : list nat := omap reservation log.

Record LogOk (last : Z) (used : list nat) (log : list Hit) : Prop := mkLogOk {
  lg_past : Forall (fun h => at_ h <= last) log;
  lg_sorted : StronglySorted (fun a b => at_ a <= at_ b) log;
  lg_names : NoDup (names log);
  lg_used : forall n, n ∈ names log -> n ∈ used;
  lg_bound : forall t, inWindow t log <= max_
}.

Lemma recent_later t t' log : t <= t' -> recent windowMs t' (recent windowMs t log) = recent windowMs t' log.
Proof.
  intros Ht. unfold recent. induction log as [|h r IH]; [done|]. cbn [List.filter].
  destruct (Z.ltb_spec (t - at_ h) windowMs); cbn [List.filter]; rewrite IH; [done|].
  by rewrite (proj2 (Z.ltb_ge (t' - at_ h) windowMs)) by lia.
Qed.

Lemma inWindow_sublist t a b : sublist a b -> inWindow t a <= inWindow t b.
Proof.
  intros Hs. unfold inWindow. induction Hs as [|x a b _ IH|x a b _ IH]; cbn [List.filter]; [lia| |];
    destruct (_ && _); cbn [length]; lia.
Qed.

Lemma inWindow_recent t t' log : t <= t' -> inWindow t' log <= Z.of_nat (length (recent windowMs t log)).
Proof.
  intros Ht. unfold inWindow, recent. apply inj_le. apply filter_length_le. intros h _. rewrite andb_true_iff, !Z.ltb_lt. lia.
Qed.

Lemma inWindow_snoc t log h : inWindow t (log ++ [h])%list = inWindow t log + if (at_ h <=? t) && (t - at_ h <? windowMs) then 1 else 0.
Proof. unfold inWindow. rewrite List.filter_app, length_app. cbn [List.filter]. destruct (_ && _); cbn [length]; lia. Qed.

Lemma remove_first_absent n log : n ∉ names log -> remove_first n log = log.
Proof.
  unfold names. induction log as [|h r IH]; [done|]. cbn [remove_first omap list_omap]. intros Hn.
  destruct (reservation h) as [x|] eqn:E.
  - rewrite bool_decide_eq_false_2; [|intros [= ->]; apply Hn; by left]. rewrite IH; [done|]. intros H. apply Hn. by right.
  - rewrite bool_decide_eq_false_2 by done. by rewrite IH.
Qed.

Lemma names_recent n t log : n ∈ names (recent windowMs t log) -> n ∈ names log.
Proof.
  unfold names. rewrite !list_elem_of_omap. intros (h & Hh & Hr). exists h. split; [|done].
  apply list_elem_of_In, List.filter_In in Hh as [Hh _]. by apply list_elem_of_In.
Qed.

Lemma names_cons h log : names (h :: log) = match reservation h with Some n => n :: names log | None => names log end.
Proof. unfold names. cbn [omap list_omap]. by destruct (reservation h). Qed.

Lemma remove_first_recent n t log :
  NoDup (names log) -> recent windowMs t (remove_first n log) = remove_first n (recent windowMs t log).
Proof.
  induction log as [|h r IH]; [done|]. rewrite names_cons. intros Hnd. cbn [remove_first].
  destruct (bool_decide (reservation h = Some n)) eqn:E.
  - apply bool_decide_eq_true in E. rewrite E in Hnd. apply NoDup_cons in Hnd as [Hn Hnd]. unfold recent at 2. cbn [List.filter].
    destruct (t - at_ h <? windowMs); fold (recent windowMs t r).
    + cbn [remove_first]. by rewrite bool_decide_eq_true_2.
    + rewrite remove_first_absent; [done|]. intros H. by apply names_recent in H.
  - assert (NoDup (names r)) as Hr by (destruct (reservation h); [by apply NoDup_cons in Hnd as [_ ?]|done]).
    unfold recent. cbn [List.filter]. fold (recent windowMs t (remove_first n r)) (recent windowMs t r).
    destruct (t - at_ h <? windowMs); cbn [remove_first]; [rewrite E|]; by rewrite IH.
Qed.

Lemma remove_first_sublist n log : sublist (remove_first n log) log.
Proof.
  induction log as [|h r IH]; [constructor|]. cbn [remove_first]. destruct (bool_decide _); [by apply sublist_cons|by apply sublist_skip].
Qed.

Lemma removelast_recent t log :
  StronglySorted (fun a b => at_ a <= at_ b) log -> recent windowMs t log <> [] ->
  recent windowMs t (removelast log) = removelast (recent windowMs t log).
Proof.
  intros Hs Hne. destruct (decide (log = [])) as [->|Hlog]; [done|].
  destruct (exists_last Hlog) as (l & h & ->). rewrite removelast_last. unfold recent in *. rewrite List.filter_app in *.
  assert (t - at_ h <? windowMs = true) as Hh.
  { destruct (t - at_ h <? windowMs) eqn:E; [done|]. exfalso. apply Hne. cbn [List.filter]. rewrite E, app_nil_r.
    destruct (List.filter (fun h => t - at_ h <? windowMs) l) as [|e r] eqn:Ef; [done|]. exfalso.
    assert (In e (List.filter (fun h => t - at_ h <? windowMs) l)) as He by (rewrite Ef; by left).
    apply List.filter_In in He as [He1 He2]. apply Z.ltb_lt in He2. apply Z.ltb_ge in E.
    apply list_elem_of_In in He1. pose proof (StronglySorted_app_1_elem_of _ l [h] e h Hs He1 (list_elem_of_here _ _)) as Hle. simpl in Hle. lia. }
  cbn [List.filter]. rewrite Hh. by rewrite removelast_last.
Qed.

Lemma names_sublist a b : sublist a b -> sublist (names a) (names b).
Proof.
  induction 1 as [|x a b _ IH|x a b _ IH]; [constructor| |]; rewrite !names_cons; destruct (reservation x); try done;
    [by apply sublist_skip|by apply sublist_cons].
Qed.

Lemma sorted_sublist a b : sublist a b -> StronglySorted (fun a b => at_ a <= at_ b) b -> StronglySorted (fun a b => at_ a <= at_ b) a.
Proof.
  induction 1 as [|x a b Hs IH|x a b Hs IH]; [done| |]; intros H; apply StronglySorted_inv in H as [H1 H2]; [|by apply IH].
  constructor; [by apply IH|]. rewrite Forall_forall in *. intros y Hy. apply H2. by eapply elem_of_sublist.
Qed.

Lemma log_sublist last used a b : sublist a b -> LogOk last used b -> LogOk last used a.
Proof.
  intros Hs [Hp Hso Hn Hu Hb]. constructor.
  - rewrite Forall_forall in *. intros y Hy. apply Hp. by eapply elem_of_sublist.
  - by eapply sorted_sublist.
  - eapply sublist_NoDup; [exact Hn|]. by apply names_sublist.
  - intros n Hin. apply Hu. eapply elem_of_sublist; [exact Hin|]. by apply names_sublist.
  - intros t. pose proof (inWindow_sublist t a b Hs). specialize (Hb t). lia.
Qed.

Lemma log_later last last' used used' log :
  last <= last' -> (forall n, n ∈ used -> n ∈ used') -> LogOk last used log -> LogOk last' used' log.
Proof.
  intros Hl Hu [Hp Hso Hn Hus Hb]. constructor; [|done|done|by auto|done]. eapply Forall_impl; [exact Hp|]. simpl. lia.
Qed.

(** Letting an attempt in keeps the window within its bound. *)
Lemma log_attempt last used log t res :
  LogOk last used log -> last <= t -> (forall n, res = Some n -> n ∉ used) ->
  Z.of_nat (length (recent windowMs t log)) < max_ ->
  LogOk t (match res with Some n => n :: used | None => used end) (log ++ [mkHit t res])%list.
Proof.
  intros [Hp Hso Hn Hu Hb] Ht Hfresh Hroom. constructor.
  - apply Forall_app. split; [eapply Forall_impl; [exact Hp|]; simpl; lia|]. constructor; [simpl; lia|done].
  - apply StronglySorted_app. split_and!; [|done|by repeat constructor].
    intros x y Hx Hy. apply list_elem_of_singleton in Hy as ->. rewrite Forall_forall in Hp. specialize (Hp x Hx). simpl in *. lia.
  - unfold names in *. rewrite omap_app. destruct res as [n|]; cbn; [|by rewrite app_nil_r].
    apply NoDup_app. split_and!; [done| |apply NoDup_singleton]. intros x Hx Hy. apply list_elem_of_singleton in Hy as ->.
    apply (Hfresh n eq_refl). by apply Hu.
  - intros n Hin. unfold names in Hin. rewrite omap_app in Hin. apply elem_of_app in Hin as [Hin|Hin].
    + destruct res; [right|]; by apply Hu.
    + destruct res as [x|]; cbn in Hin; [|by apply elem_of_nil in Hin]. apply list_elem_of_singleton in Hin as ->. by left.
  - intros t'. rewrite inWindow_snoc. cbn [at_]. destruct (Z.leb_spec t t'); cbn [andb].
    + pose proof (inWindow_recent t t' log). case_match; lia.
    + specialize (Hb t'). lia.
Qed.

(** The limiter's list of [s] is its log, pruned at the last attempt. *)
Definition sim (s : string) (st : Z * list Hit) (m : list (string * list Hit)) : Prop :=
  default [] (JMap.get s m) = recent windowMs (fst st) (snd st).

Lemma sim_attempt S s last log used t k res m :
  Z.of_nat (length S) <= maxKeys -> small_map S m -> k ∈ S -> last <= t ->
  (forall n, res = Some n -> n ∉ used) ->
  sim s (last, log) m -> LogOk last used log ->
  let e := Attempt t k res in
  let '(last', log') := log_step s (last, log) m e in
  small_map S (hs_step m e) /\ sim s (last', log') (hs_step m e) /\ last' <= t /\
  LogOk last' (match res with Some n => n :: used | None => used end) log'.
Proof.
  intros Hlen Hm Hk Ht Hfresh Hsim Hlog. cbn [log_step hs_step allowHit fst snd].
  destruct (touch_small S k (if Z.of_nat (length (recent windowMs t (default [] (JMap.get k m)))) <? max_
    then recent windowMs t (default [] (JMap.get k m)) ++ [mkHit t res] else recent windowMs t (default [] (JMap.get k m)))%list m maxKeys Hm Hk Hlen) as [Hm' Hget].
  split; [exact Hm'|]. unfold sim in *. cbn [fst snd] in *. rewrite Hget. rewrite (String.eqb_sym s k).
  destruct (String.eqb_spec k s) as [->|Hne]; cbn [andb].
  - rewrite Hsim, recent_later by done. destruct (Z.ltb_spec (Z.of_nat (length (recent windowMs t log))) max_) as [Hr|Hr]; split_and!; try done.
    + cbn [default from_option Datatypes.id]. unfold recent. rewrite List.filter_app. cbn [List.filter at_]. rewrite (proj2 (Z.ltb_lt (t - t) windowMs)) by lia. done.
    + by eapply log_attempt.
    + eapply log_later; [exact Ht| |exact Hlog]. intros n Hn. destruct res; [by right|done].
  - split_and!; [done|done|]. eapply log_later; [reflexivity| |exact Hlog]. intros n Hn. destruct res; [by right|done].
Qed.

Lemma refund_get k res m k' :
  default [] (JMap.get k' (refund k res m)) =
  if String.eqb k k' then match res with None => pop (default [] (JMap.get k m)) | Some r => remove_first r (default [] (JMap.get k m)) end
  else default [] (JMap.get k' m).
Proof.
  unfold refund. destruct (String.eqb_spec k k') as [<-|Hne].
  - destruct (JMap.get k m) as [[|h l]|] eqn:E; [by rewrite E; destruct res|by rewrite JMap.get_set_eq|by rewrite E; destruct res].
  - destruct (JMap.get k m) as [[|h l]|]; [done|by rewrite JMap.get_set_ne|done].
Qed.

Lemma refund_small S k res m : small_map S m -> small_map S (refund k res m).
Proof.
  intros [Hwf Hk]. unfold refund. destruct (JMap.get k m) as [[|h l]|] eqn:E; [done| |done].
  split; [by apply JMap.wf_set|]. intros k'. rewrite JMap.keys_set_elem. intros [->|H]; [|by apply Hk].
  apply Hk. destruct (decide (k ∈ JMap.keys m)) as [|Hn]; [done|]. apply JMap.get_None_keys in Hn. congruence.
Qed.

Lemma sim_refund s last log used k res m :
  sim s (last, log) m -> LogOk last used log ->
  let e := Refund k res in
  let '(last', log') := log_step s (last, log) m e in
  last' = last /\ sim s (last', log') (hs_step m e) /\ LogOk last used log'.
Proof.
  unfold sim. intros Hsim Hlog. cbn [log_step hs_step fst snd] in *. rewrite refund_get.
  destruct (String.eqb_spec k s) as [->|Hne]; [|done]. rewrite Hsim. split; [done|]. destruct res as [r|].
  - split; [symmetry; apply remove_first_recent; apply Hlog|]. eapply log_sublist; [apply remove_first_sublist|done].
  - destruct (recent windowMs last log) as [|h l] eqn:E; [by rewrite E|]. split.
    + unfold pop. rewrite removelast_recent; [by rewrite E|apply Hlog|by rewrite E].
    + eapply log_sublist; [|done]. destruct (decide (log = [])) as [->|Hn]; [done|]. destruct (exists_last Hn) as (a & x & ->).
      rewrite removelast_last. apply sublist_inserts_r. done.
Qed.

Lemma hs_run_ok S s events last log used m t0 :
  Z.of_nat (length S) <= maxKeys -> hs_valid S t0 used events -> small_map S m -> last <= t0 ->
  sim s (last, log) m -> LogOk last used log ->
  exists used', LogOk (fst (fst (hs_run s (last, log) m events))) used' (snd (fst (hs_run s (last, log) m events))) /\
    sim s (fst (hs_run s (last, log) m events)) (snd (hs_run s (last, log) m events)).
Proof.
  intros Hlen. revert last log used m t0. induction events as [|e r IH]; intros last log used m t0 Hv Hm Hl Hsim Hlog; [by exists used|].
  cbn [hs_run]. destruct e as [t k res|k res]; cbn [hs_valid] in Hv.
  - destruct Hv as (Ht & Hk & Hv).
    assert (forall n, res = Some n -> n ∉ used) as Hfresh by (intros n ->; by destruct Hv).
    pose proof (sim_attempt S s last log used t k res m Hlen Hm Hk ltac:(lia) Hfresh Hsim Hlog) as H. cbn zeta in H.
    destruct (log_step s (last, log) m (Attempt t k res)) as [last' log']. destruct H as (Hm' & Hs' & Hl' & Hlog').
    apply (IH last' log' (match res with Some n => n :: used | None => used end) _ t); try done. by destruct res; [destruct Hv|].
  - pose proof (sim_refund s last log used k res m Hsim Hlog) as H. cbn zeta in H.
    destruct (log_step s (last, log) m (Refund k res)) as [last' log']. destruct H as (-> & Hs' & Hlog').
    apply (IH last log' used _ t0); try done. by apply refund_small.
Qed.

(** The handshake window is enforced: after any run of attempts and refunds,
    the attempts of an address that were let in and not given back number at most
    the maximum in every window of the configured length, and the limiter's own
    list is exactly those still in the window, while no more addresses are seen
    than the map holds. *)
Theorem handshake_window_bounded S s events t0 t :
  Z.of_nat (length S) <= maxKeys -> hs_valid S t0 [] events ->
  let '((last, log), m) := hs_run s (t0, []) [] events in
  inWindow t log <= max_ /\ default [] (JMap.get s m) = recent windowMs last log.
Proof.
  intros Hlen Hv. assert (LogOk t0 [] []) as H0.
  { constructor; [done|constructor|constructor|done|]. intros t'. unfold inWindow. simpl. lia. }
  destruct (hs_run_ok S s events t0 [] [] [] t0 Hlen Hv) as (used & Hlog & Hsim); [split; [constructor|]; intros k Hk; by apply elem_of_nil in Hk|lia|done|done|].
  destruct (hs_run s (t0, []) [] events) as [[last log] m]. simpl in *. split; [apply Hlog|exact Hsim].
Qed.
End window.

(** Two attempts a minute: the third is refused until one is given back. *)
Lemma handshake_window_bounded_witness :
  snd (fst (hs_run 2 60000 10 "a" (0, []) []
    [Attempt 0 "a" (Some 1%nat); Attempt 5 "a" (Some 2%nat); Attempt 6 "a" None; Refund "a" (Some 1%nat); Attempt 7 "a" None]%string)) =
    [mkHit 5 (Some 2%nat); mkHit 7 None] /\
  inWindow 60000 60004 [mkHit 5 (Some 2%nat); mkHit 7 None] <= 2.
Proof.
  split; [reflexivity|].
  exact (proj1 (handshake_window_bounded 2 60000 10 ltac:(lia) ltac:(lia) ["a"]%string "a"%string
    [Attempt 0 "a" (Some 1%nat); Attempt 5 "a" (Some 2%nat); Attempt 6 "a" None; Refund "a" (Some 1%nat); Attempt 7 "a" None]%string 0 60004
    ltac:(simpl; lia) ltac:(cbn [hs_valid]; split_and!; try lia; set_solver))).
Defined.
