(* ===== verification/BodyBudget.v ===== *)
(** * The in-flight request-body budget

    [src/src/config/inflight-body-budget.ts]: admission of request bodies against
    an aggregate budget, a per-client share and an anonymous pool; the exactly-once
    release; the re-pricing of chunked bodies; the stall and pace reaper.  Header
    parsing, client-address resolution and the key classifier come in as fields of
    the request. *)
From S2P Require Import Prelude JsString.
Local Open Scope string_scope.
Local Open Scope Z_scope.

Definition STALL_TIMEOUT_MS : Z := 15000.
Definition UNDECLARED_OPENING_RESERVATION_BYTES : Z := 1024 * 1024.
Definition MAX_TRACKED_CLIENTS : nat := N.to_nat 10000.

(** ** Configuration *)

Record BudgetConfig := mkCfg {
  budgetBytes : Z;
  perClientCap : Z;
  anonPool : Z;
  anonClientCap : Z;
  bodyLimitBytes : Z;
  undeclaredReservation : Z;
  requestTimeoutMs : Z;
  classifies : bool
}.

(** The caps [createInflightBodyBudget] derives; the client share is the fraction
    [num / den] in (0, 1]. *)
Definition createInflightBodyBudget (budget num den bodyLimit timeout : Z) (hasClassify : bool) : BudgetConfig :=
  let pool := Z.min budget (Z.max (2 * bodyLimit) (budget / 4)) in
  mkCfg budget
    (Z.max 1 (budget * num / den))
    pool
    (Z.max (Z.min bodyLimit pool) (pool * num / den))
    bodyLimit
    (Z.max 1 (Z.min UNDECLARED_OPENING_RESERVATION_BYTES budget))
    timeout
    hasClassify.

(** ** State *)

(** A request whose reservation is not released.  Bytes are counted from
    [startBytes]; [l_complete] records that it was re-priced after its body was
    whole, and nothing reads it. *)
Record Live := mkLive {
  l_id : nat;
  l_declared : option Z;
  l_reserved : Z;
  l_clientKey : string;
  l_anonymous : bool;
  l_armed : bool;
  l_admittedAt : Z;
  l_lastBytes : Z;
  l_lastProgress : Z;
  l_complete : bool
}.

Record Budget := mkBudget {
  inFlightBytes : Z;
  anonInFlight : Z;
  clientInFlight : gmap string Z;
  live : list Live
}.

Record BodyRequest := mkReq {
  r_declared : option Z;
  r_chunked : bool;
  r_bodyIndicated : bool;
  r_encoding : string;
  r_keyId : option string;
  r_ipKey : string
}.

Inductive Verdict := Next | Tracked | Compressed415 | TooLarge413 | Busy503.

Section budget.
Context (cfg : BudgetConfig).

(** ** Admission *)

Definition anonymous_req (r : BodyRequest) : bool :=
  classifies cfg && match r_keyId r with Some _ => false | None => true end.
Definition clientKey (r : BodyRequest) : string :=
  match r_keyId r with Some k => "key:" +:+ k | None => r_ipKey r end.
Definition shareCap (anonymous : bool) : Z := if anonymous then anonClientCap cfg else perClientCap cfg.
(** [Math.min(x, ceiling)] *)
Definition under_ceiling (anonymous : bool) (x : Z) : Z := if anonymous then Z.min x (bodyLimitBytes cfg) else x.

Definition reservation (r : BodyRequest) : Z :=
  match r_declared r with Some d => d | None => if r_chunked r then undeclaredReservation cfg else 0 end.

Definition middleware (now : Z) (id : nat) (r : BodyRequest) (s : Budget) : Budget * Verdict :=
  let reserved := reservation r in
  let encoding := toLowerCase (trim (r_encoding r)) in
  if r_bodyIndicated r && negb (String.eqb encoding "") && negb (String.eqb encoding "identity") then (s, Compressed415)
  else if reserved =? 0 then (s, Next)
  else
    let anon := anonymous_req r in
    let key := clientKey r in
    let cap := shareCap anon in
    let clientBusy := default 0 (clientInFlight s !! key) in
    let mapAtCapacity := match r_keyId r with
                         | Some _ => false
                         | None => (MAX_TRACKED_CLIENTS <=? size (clientInFlight s))%nat && negb (bool_decide (is_Some (clientInFlight s !! key)))
                         end in
    let charge := under_ceiling anon reserved in
    if match r_declared r with
       | Some d => (budgetBytes cfg <? d) || (cap <? charge) || (anon && (anonPool cfg <? charge))
       | None => false
       end then (s, TooLarge413)
    else if (budgetBytes cfg <? inFlightBytes s + reserved) || (cap <? clientBusy + charge) ||
            (anon && (anonPool cfg <? anonInFlight s + charge)) || mapAtCapacity then (s, Busy503)
    else
      (mkBudget (inFlightBytes s + charge) (if anon then anonInFlight s + charge else anonInFlight s)
         (<[key := clientBusy + charge]> (clientInFlight s))
         (mkLive id (r_declared r) charge key anon true now 0 now false :: live s), Tracked).

(** ** Release *)

Fixpoint find_live (id : nat) (l : list Live) : option Live :=
  match l with [] => None | x :: r => if (l_id x =? id)%nat then Some x else find_live id r end.
Definition drop_live (id : nat) (l : list Live) : list Live := List.filter (fun x => negb (l_id x =? id)%nat) l.
Definition set_live (y : Live) (l : list Live) : list Live := map (fun x => if (l_id x =? l_id y)%nat then y else x) l.

(** The first terminal event of a request; a later one finds it released. *)
Definition release (id : nat) (s : Budget) : Budget :=
  match find_live id (live s) with
  | None => s
  | Some x =>
      let busy := default (l_reserved x) (clientInFlight s !! l_clientKey x) - l_reserved x in
      mkBudget (inFlightBytes s - l_reserved x)
        (if l_anonymous x then anonInFlight s - l_reserved x else anonInFlight s)
        (if 0 <? busy then <[l_clientKey x := busy]> (clientInFlight s) else base.delete (l_clientKey x) (clientInFlight s))
        (drop_live id (live s))
  end.

(** ** Re-pricing *)

Definition with_reserved (x : Live) (v : Z) (c : bool) : Live :=
  mkLive (l_id x) (l_declared x) v (l_clientKey x) (l_anonymous x) (l_armed x) (l_admittedAt x) (l_lastBytes x) (l_lastProgress x) c.
Definition disarmed (x : Live) : Live :=
  mkLive (l_id x) (l_declared x) (l_reserved x) (l_clientKey x) (l_anonymous x) false (l_admittedAt x) (l_lastBytes x) (l_lastProgress x) (l_complete x).

(** [reconcile] at [read] bytes received. *)
Definition reconcile (id : nat) (read : Z) (complete : bool) (s : Budget) : Budget :=
  match find_live id (live s) with
  | None => s
  | Some x =>
      match l_declared x with
      | Some _ => s
      | None =>
          let actual := under_ceiling (l_anonymous x) (Z.max (undeclaredReservation cfg) read) in
          let delta := actual - l_reserved x in
          if delta =? 0 then s
          else
            let busy := default 0 (clientInFlight s !! l_clientKey x) + delta in
            let s' := mkBudget (inFlightBytes s + delta)
                        (if l_anonymous x then anonInFlight s + delta else anonInFlight s)
                        (<[l_clientKey x := busy]> (clientInFlight s))
                        (set_live (with_reserved x actual (complete || l_complete x)) (live s)) in
            let overTier := l_anonymous x && (anonPool cfg <? anonInFlight s') in
            if negb complete && (0 <? delta) &&
               ((shareCap (l_anonymous x) <? busy) || (budgetBytes cfg <? inFlightBytes s') || overTier)
            then release id s' else s'
      end
  end.

Definition disarmStallReaper (id : nat) (s : Budget) : Budget :=
  match find_live id (live s) with
  | None => s
  | Some x => mkBudget (inFlightBytes s) (anonInFlight s) (clientInFlight s) (set_live (disarmed x) (live s))
  end.

Definition settle (id : nat) (read : Z) (s : Budget) : Budget := disarmStallReaper id (reconcile id read true s).

(** ** The reaper *)

(** [readNow < Math.min(target, paced)], the pace scaled by the request timeout. *)
Definition behind_pace (now read : Z) (x : Live) : bool :=
  let target := default (l_reserved x) (l_declared x) in
  (0 <? requestTimeoutMs cfg) && (read <? target) &&
  (read * requestTimeoutMs cfg <? target * (now - l_admittedAt x - STALL_TIMEOUT_MS)).

Definition progressed (now read : Z) (x : Live) : Live :=
  mkLive (l_id x) (l_declared x) (l_reserved x) (l_clientKey x) (l_anonymous x)
    (l_armed x && negb (match l_declared x with Some d => d <=? read | None => false end))
    (l_admittedAt x) read now (l_complete x).

(** One tick of the interval of an armed request. *)
Definition poll (id : nat) (now read : Z) (complete : bool) (s : Budget) : Budget :=
  match find_live id (live s) with
  | None => s
  | Some x0 =>
      if negb (l_armed x0) then s
      else if complete then settle id read s
      else
        let s := reconcile id read false s in
        match find_live id (live s) with
        | None => s
        | Some x =>
            if behind_pace now read x then release id s
            else if negb (read =? l_lastBytes x) then
              mkBudget (inFlightBytes s) (anonInFlight s) (clientInFlight s) (set_live (progressed now read x) (live s))
            else if STALL_TIMEOUT_MS <=? now - l_lastProgress x then release id s
            else s
        end
  end.

(** ** Reachable states *)

Inductive budget_step : Budget -> Budget -> Prop :=
| b_request s now id r s' v :
    0 <= reservation r -> Forall (fun x => l_id x <> id) (live s) -> middleware now id r s = (s', v) -> budget_step s s'
| b_terminal s id : budget_step s (release id s)
| b_end s id read : budget_step s (settle id read s)
| b_poll s id now read complete : budget_step s (poll id now read complete s).

Definition idle : Budget := mkBudget 0 0 ∅ [].

(** What the live reservations selected by [f] add up to. *)
Definition total (f : Live -> bool) (l : list Live) : Z :=
  fold_right (fun x acc => (if f x then l_reserved x else 0) + acc) 0 l.

Definition all : Live -> bool := fun _ => true.
Definition of_client (k : string) : Live -> bool := fun x => String.eqb (l_clientKey x) k.
(** The bodies still arriving, of those [f] selects. *)
Definition arriving (f : Live -> bool) : Live -> bool := fun x => f x && negb (l_complete x).

(** The books balance. *)
Record Balanced (s : Budget) : Prop := mkBal {
  bal_ids : NoDup (map l_id (live s));
  bal_pos : Forall (fun x => 0 < l_reserved x) (live s);
  bal_all : inFlightBytes s = total all (live s);
  bal_anon : anonInFlight s = total l_anonymous (live s);
  bal_client : forall k, default 0 (clientInFlight s !! k) = total (of_client k) (live s);
  bal_tracked : forall k b, clientInFlight s !! k = Some b -> 0 < b
}.

(** Bodies still arriving hold no more than their limits. *)
Record Within (s : Budget) : Prop := mkWithin {
  w_all : total (arriving all) (live s) <= budgetBytes cfg;
  w_anon : total (arriving l_anonymous) (live s) <= anonPool cfg;
  w_client : forall k, total (arriving (of_client k)) (live s) <= Z.max (perClientCap cfg) (anonClientCap cfg)
}.

(** *** Sums over the live requests *)

Definition part (f : Live -> bool) (x : Live) : Z := if f x then l_reserved x else 0.

Lemma total_cons f x l : total f (x :: l) = part f x + total f l.
Proof. done. Qed.

Lemma find_live_in id l x : find_live id l = Some x -> x ∈ l /\ l_id x = id.
Proof.
  induction l as [|y l IH]; [done|]. simpl. destruct (Nat.eqb_spec (l_id y) id) as [He|He].
  - intros [= ->]. split; [by left|done].
  - intros H. destruct (IH H). split; [by right|done].
Qed.

Lemma drop_live_none id l : Forall (fun x => l_id x <> id) l -> drop_live id l = l.
Proof.
  induction 1 as [|y l Hy _ IH]; [done|]. unfold drop_live in *. simpl. by rewrite (proj2 (Nat.eqb_neq _ _) Hy), IH.
Qed.

Lemma set_live_none y l : Forall (fun x => l_id x <> l_id y) l -> set_live y l = l.
Proof.
  induction 1 as [|z l Hz _ IH]; [done|]. unfold set_live in *. simpl. by rewrite (proj2 (Nat.eqb_neq _ _) Hz), IH.
Qed.

Lemma fresh_tail y (l : list Live) : l_id y ∉ map l_id l -> Forall (fun x => l_id x <> l_id y) l.
Proof. intros H. apply Forall_forall. intros x Hx He. apply H. rewrite <- He. apply list_elem_of_fmap. by exists x. Qed.

Lemma total_drop f id l x :
  NoDup (map l_id l) -> find_live id l = Some x -> total f (drop_live id l) = total f l - part f x.
Proof.
  induction l as [|y l IH]; [done|]. cbn [map find_live]. intros Hnd Hf. apply NoDup_cons in Hnd as [Hn Hnd].
  unfold drop_live. cbn [List.filter]. fold (drop_live id l). destruct (Nat.eqb_spec (l_id y) id) as [He|He]; cbn [negb].
  - injection Hf as ->. subst id. rewrite drop_live_none by by apply fresh_tail. unfold part. simpl. lia.
  - specialize (IH Hnd Hf). unfold total in *. cbn [fold_right]. lia.
Qed.

Lemma total_set f y l x :
  NoDup (map l_id l) -> find_live (l_id y) l = Some x -> total f (set_live y l) = total f l - part f x + part f y.
Proof.
  induction l as [|z l IH]; [done|]. cbn [map find_live]. intros Hnd Hf. apply NoDup_cons in Hnd as [Hn Hnd].
  unfold set_live. cbn [map]. fold (set_live y l). destruct (Nat.eqb_spec (l_id z) (l_id y)) as [He|He].
  - injection Hf as ->. rewrite set_live_none by (rewrite <- He; by apply fresh_tail). unfold part. simpl. lia.
  - specialize (IH Hnd Hf). unfold total in *. cbn [fold_right]. lia.
Qed.

Lemma set_live_ids y l : map l_id (set_live y l) = map l_id l.
Proof.
  unfold set_live. rewrite map_map. apply map_ext. intros x. by destruct (Nat.eqb_spec (l_id x) (l_id y)).
Qed.

Lemma find_set y l x : find_live (l_id y) l = Some x -> find_live (l_id y) (set_live y l) = Some y.
Proof.
  induction l as [|z l IH]; [done|]. cbn [find_live set_live map]. destruct (Nat.eqb_spec (l_id z) (l_id y)) as [He|He].
  - intros _. by rewrite Nat.eqb_refl.
  - intros H. rewrite (proj2 (Nat.eqb_neq _ _) He). by apply IH.
Qed.

Lemma drop_live_ids id l : NoDup (map l_id l) -> NoDup (map l_id (drop_live id l)).
Proof.
  induction l as [|y l IH]; [done|]. cbn [map]. intros [Hn Hnd]%NoDup_cons. unfold drop_live. cbn [List.filter].
  fold (drop_live id l). destruct (negb _); [|by apply IH]. cbn [map]. apply NoDup_cons. split; [|by apply IH].
  intros Hin. apply Hn. apply list_elem_of_fmap in Hin as (z & Hz & Hin). apply list_elem_of_fmap. exists z. split; [done|].
  apply list_elem_of_In, List.filter_In in Hin as [Hin _]. by apply list_elem_of_In.
Qed.

Lemma Forall_drop (P : Live -> Prop) id l : Forall P l -> Forall P (drop_live id l).
Proof.
  rewrite !Forall_forall. intros H x Hx. apply H. apply list_elem_of_In, List.filter_In in Hx as [Hx _]. by apply list_elem_of_In.
Qed.

Lemma Forall_set (P : Live -> Prop) y l : P y -> Forall P l -> Forall P (set_live y l).
Proof. intros Hy Hl. unfold set_live. apply Forall_map. eapply Forall_impl; [exact Hl|]. intros x Hx. simpl. by case_match. Qed.

Lemma total_nonneg f l : Forall (fun x => 0 < l_reserved x) l -> 0 <= total f l.
Proof. induction 1 as [|x l Hx _ IH]; [done|]. unfold total in *. cbn [fold_right]. case_match; lia. Qed.

Lemma total_part f l x : Forall (fun x => 0 < l_reserved x) l -> x ∈ l -> part f x <= total f l.
Proof.
  intros Hl Hx. induction l as [|y l IH]; [by apply elem_of_nil in Hx|]. apply Forall_cons in Hl as [Hy Hl].
  pose proof (total_nonneg f l Hl). apply elem_of_cons in Hx as [->|Hx]; unfold part, total in *; cbn [fold_right].
  - lia.
  - specialize (IH Hl Hx). destruct (f y); lia.
Qed.

(** *** Each operation keeps the books *)

Lemma part_client k x : part (of_client k) x = if String.eqb (l_clientKey x) k then l_reserved x else 0.
Proof. done. Qed.

Lemma part_all x : part all x = l_reserved x.
Proof. done. Qed.

Lemma part_anon x : part l_anonymous x = if l_anonymous x then l_reserved x else 0.
Proof. done. Qed.

(** A client with a live reservation is tracked at what its requests hold. *)
Lemma tracked_client s x :
  Balanced s -> x ∈ live s ->
  clientInFlight s !! l_clientKey x = Some (total (of_client (l_clientKey x)) (live s)).
Proof.
  intros [_ Hpos _ _ Hc _] Hx. pose proof (total_part (of_client (l_clientKey x)) _ x Hpos Hx) as Hp.
  rewrite part_client, String.eqb_refl in Hp.
  rewrite Forall_forall in Hpos. specialize (Hpos x Hx). simpl in Hpos. rewrite <- Hc in *.
  destruct (clientInFlight s !! l_clientKey x); simpl in *; [done|lia].
Qed.

Lemma release_balanced id s : Balanced s -> Balanced (release id s).
Proof.
  intros HB. unfold release. destruct (find_live id (live s)) as [x|] eqn:Hf; [|done].
  pose proof (find_live_in _ _ _ Hf) as [Hx Hid]. rewrite (tracked_client s x HB Hx).
  destruct HB as [Hnd Hpos Ha Hn Hc Ht]. pose proof (Forall_drop _ id _ Hpos) as Hpos'. cbn [default from_option Datatypes.id].
  assert (forall f, total f (drop_live id (live s)) = total f (live s) - part f x) as Hd by (intros f; by apply total_drop).
  constructor; cbn [inFlightBytes anonInFlight clientInFlight live].
  - by apply drop_live_ids.
  - done.
  - rewrite Hd, Ha. done.
  - rewrite Hd, Hn. unfold part. destruct (l_anonymous x); lia.
  - intros k. rewrite Hd, part_client. destruct (String.eqb_spec (l_clientKey x) k) as [<-|Hne].
    + pose proof (total_nonneg (of_client (l_clientKey x)) _ Hpos') as Hnn. rewrite Hd, part_client, String.eqb_refl in Hnn.
      destruct (Z.ltb_spec 0 (total (of_client (l_clientKey x)) (live s) - l_reserved x)).
      * by rewrite lookup_insert_eq.
      * rewrite lookup_delete_eq. simpl. lia.
    + destruct (0 <? _); [rewrite lookup_insert_ne by done|rewrite lookup_delete_ne by done]; rewrite Hc; lia.
  - intros k b. destruct (Z.ltb_spec 0 (total (of_client (l_clientKey x)) (live s) - l_reserved x)).
    + intros [[_ <-]|[_ Hb]]%lookup_insert_Some; [done|by eapply Ht].
    + intros [_ Hb]%lookup_delete_Some. by eapply Ht.
Qed.

Lemma part_le f g x : 0 < l_reserved x -> (f x = true -> g x = true) -> part f x <= part g x.
Proof. intros Hp H. unfold part. destruct (f x); [rewrite H by done; lia|]. case_match; lia. Qed.

Lemma part_nonneg f x : 0 < l_reserved x -> 0 <= part f x.
Proof. intros. unfold part. case_match; lia. Qed.

Lemma release_within id s : Balanced s -> Within s -> Within (release id s).
Proof.
  intros HB [Ha Hn Hc]. unfold release. destruct (find_live id (live s)) as [x|] eqn:Hf; [|done].
  pose proof (find_live_in _ _ _ Hf) as [Hx _]. pose proof (bal_pos s HB) as Hpos. rewrite Forall_forall in Hpos. specialize (Hpos x Hx).
  assert (forall f, total f (drop_live id (live s)) <= total f (live s)) as Hd.
  { intros f. rewrite (total_drop f id _ x (bal_ids s HB) Hf). pose proof (part_nonneg f x Hpos). lia. }
  constructor; cbn [live]; [pose proof (Hd (arriving all)); lia|pose proof (Hd (arriving l_anonymous)); lia|].
  intros k. specialize (Hc k). pose proof (Hd (arriving (of_client k))). lia.
Qed.

Lemma total_le f g l : Forall (fun x => 0 < l_reserved x) l -> (forall x, f x = true -> g x = true) -> total f l <= total g l.
Proof.
  intros Hl H. induction Hl as [|x l Hx _ IH]; [done|]. pose proof (part_le f g x Hx (H x)) as Hp. unfold part, total in *. cbn [fold_right]. lia.
Qed.

Lemma arriving_le f l : Forall (fun x => 0 < l_reserved x) l -> total (arriving f) l <= total f l.
Proof. intros Hl. apply total_le; [done|]. intros x. unfold arriving. by intros [? _]%andb_true_iff. Qed.

(** A request re-priced, with every account it is charged to. *)
Definition repriced (s : Budget) (x y : Live) : Budget :=
  let delta := l_reserved y - l_reserved x in
  mkBudget (inFlightBytes s + delta)
    (if l_anonymous x then anonInFlight s + delta else anonInFlight s)
    (<[l_clientKey x := default 0 (clientInFlight s !! l_clientKey x) + delta]> (clientInFlight s))
    (set_live y (live s)).

(** The same request, at another price. *)
Definition same_request (x y : Live) : Prop :=
  l_id y = l_id x /\ l_clientKey y = l_clientKey x /\ l_anonymous y = l_anonymous x /\ 0 < l_reserved y.

Lemma repriced_balanced s x y id :
  Balanced s -> find_live id (live s) = Some x -> same_request x y -> Balanced (repriced s x y).
Proof.
  intros HB Hf (Hi & Hk & Ha & Hp). pose proof (find_live_in _ _ _ Hf) as [Hx <-]. rewrite <- Hi in Hf.
  destruct HB as [Hnd Hpos Hall Han Hc Ht].
  assert (forall f, total f (set_live y (live s)) = total f (live s) - part f x + part f y) as Hd by (intros f; by apply total_set).
  assert (Forall (fun x => 0 < l_reserved x) (set_live y (live s))) as Hpos' by by apply Forall_set.
  assert (forall k, default 0 (<[l_clientKey x := default 0 (clientInFlight s !! l_clientKey x) + (l_reserved y - l_reserved x)]>
            (clientInFlight s) !! k) = total (of_client k) (set_live y (live s))) as Hk'.
  { intros k. rewrite Hd, !part_client, Hk. destruct (String.eqb_spec (l_clientKey x) k) as [<-|Hne].
    - rewrite lookup_insert_eq. simpl. rewrite Hc. lia.
    - rewrite lookup_insert_ne by done. rewrite Hc. lia. }
  constructor; cbn [repriced inFlightBytes anonInFlight clientInFlight live].
  - by rewrite set_live_ids.
  - done.
  - rewrite Hd, Hall. unfold part, all. lia.
  - rewrite Hd, Han. unfold part. rewrite Ha. destruct (l_anonymous x); lia.
  - exact Hk'.
  - intros k b Hb. specialize (Hk' k). rewrite Hb in Hk'. simpl in Hk'. destruct (decide (k = l_clientKey x)) as [->|Hne].
    + rewrite lookup_insert_eq in Hb. pose proof (total_part (of_client (l_clientKey x)) _ y Hpos') as Hpt.
      rewrite part_client, Hk, String.eqb_refl in Hpt. subst b. apply Z.lt_le_trans with (l_reserved y); [done|]. apply Hpt.
      unfold set_live. apply list_elem_of_fmap. exists x. by rewrite Hi, Nat.eqb_refl.
    + rewrite lookup_insert_ne in Hb by done. by eapply Ht.
Qed.

Lemma within_le s s' : Within s -> (forall f, total (arriving f) (live s') <= total (arriving f) (live s)) -> Within s'.
Proof.
  intros [Ha Hn Hc] H. constructor; [specialize (H all); lia|specialize (H l_anonymous); lia|].
  intros k. specialize (Hc k). specialize (H (of_client k)). lia.
Qed.

(** An admitted or re-priced request that passed its three checks. *)
Lemma within_checked s s' (k0 : string) (anon : bool) :
  Balanced s' -> Within s -> inFlightBytes s' <= budgetBytes cfg ->
  default 0 (clientInFlight s' !! k0) <= shareCap anon ->
  (anon = true -> anonInFlight s' <= anonPool cfg) ->
  (anon = false -> total (arriving l_anonymous) (live s') <= total (arriving l_anonymous) (live s)) ->
  (forall k, k <> k0 -> total (arriving (of_client k)) (live s') <= total (arriving (of_client k)) (live s)) ->
  Within s'.
Proof.
  intros [Hnd Hpos Hall Han Hc Ht] [Wa Wn Wc] Hb Hsh Hpool Hkeep Hother. constructor.
  - pose proof (arriving_le all _ Hpos). lia.
  - pose proof (arriving_le l_anonymous _ Hpos). destruct anon; [specialize (Hpool eq_refl); lia|specialize (Hkeep eq_refl); lia].
  - intros k. destruct (decide (k = k0)) as [->|Hne]; [|specialize (Hother k Hne); specialize (Wc k); lia].
    pose proof (arriving_le (of_client k0) _ Hpos). rewrite Hc in Hsh. unfold shareCap in Hsh. destruct anon; lia.
Qed.

(** What the derived configuration always satisfies. *)
Definition sane : Prop :=
  0 <= budgetBytes cfg /\ 0 <= anonPool cfg /\ 0 <= perClientCap cfg /\ 0 < bodyLimitBytes cfg /\ 0 < undeclaredReservation cfg.
Context (Hsane : sane).

Definition Good (s : Budget) : Prop := Balanced s /\ Within s.

Lemma ceiling_pos a x : 0 < x -> 0 < under_ceiling a x.
Proof. intros Hx. destruct Hsane as (_ & _ & _ & Hl & _). unfold under_ceiling. destruct a; lia. Qed.

Lemma arriving_part f x : part (arriving f) x = if l_complete x then 0 else part f x.
Proof. unfold part, arriving. destruct (f x), (l_complete x); done. Qed.

Lemma repriced_within s x y id (complete : bool) :
  Balanced s -> Within s -> find_live id (live s) = Some x -> same_request x y ->
  l_complete y = complete || l_complete x ->
  let s' := repriced s x y in
  (complete = true \/ l_reserved y <= l_reserved x \/
   (inFlightBytes s' <= budgetBytes cfg /\ default 0 (clientInFlight s' !! l_clientKey x) <= shareCap (l_anonymous x) /\
    (l_anonymous x = true -> anonInFlight s' <= anonPool cfg))) ->
  Within s'.
Proof.
  intros HB HW Hf Hs Hcp s' Hcase. pose proof (repriced_balanced s x y id HB Hf Hs) as HB'.
  pose proof (find_live_in _ _ _ Hf) as [Hx Hid]. destruct Hs as (Hi & Hk & Ha & Hp).
  pose proof (bal_pos s HB) as Hpos. rewrite Forall_forall in Hpos. specialize (Hpos x Hx). simpl in Hpos.
  assert (forall f, total (arriving f) (live s') = total (arriving f) (live s) - part (arriving f) x + part (arriving f) y) as Hd.
  { intros f. unfold s'. cbn [repriced live]. apply total_set; [by apply bal_ids|]. by rewrite Hi, Hid. }
  destruct Hcase as [->|[Hle|(Hb & Hsh & Hpool)]].
  - apply (within_le s); [done|]. intros f. rewrite Hd, !arriving_part, Hcp. simpl. pose proof (part_nonneg f x Hpos).
    destruct (l_complete x); lia.
  - destruct complete; [apply (within_le s); [done|]; intros f; rewrite Hd, !arriving_part, Hcp; simpl; pose proof (part_nonneg f x Hpos); destruct (l_complete x); lia|].
    constructor.
    + rewrite Hd, !arriving_part, Hcp, (part_all x), (part_all y). pose proof (w_all s HW). simpl. destruct (l_complete x); lia.
    + rewrite Hd, !arriving_part, Hcp, (part_anon x), (part_anon y), Ha. pose proof (w_anon s HW). simpl. destruct (l_complete x), (l_anonymous x); lia.
    + intros k. rewrite Hd, !arriving_part, Hcp, (part_client k x), (part_client k y), Hk. pose proof (w_client s HW k). simpl.
      destruct (l_complete x), (String.eqb (l_clientKey x) k); lia.
  - apply (within_checked s s' (l_clientKey x) (l_anonymous x)); [done|done|done|done|done| |].
    + intros Hn. rewrite Hd, !arriving_part, (part_anon x), (part_anon y), Ha, Hn. destruct (l_complete x), (l_complete y); lia.
    + intros k Hne. rewrite Hd, !arriving_part, (part_client k x), (part_client k y), Hk. rewrite (proj2 (String.eqb_neq _ _)) by congruence.
      destruct (l_complete x), (l_complete y); lia.
Qed.

Lemma reconcile_good id read complete s : Good s -> Good (reconcile id read complete s).
Proof.
  intros [HB HW]. unfold reconcile. destruct (find_live id (live s)) as [x|] eqn:Hf; [|done].
  destruct (l_declared x) as [d|]; [done|]. set (actual := under_ceiling _ _).
  destruct (Z.eqb_spec (actual - l_reserved x) 0) as [He|He]; [done|].
  set (y := with_reserved x actual (complete || l_complete x)).
  assert (same_request x y) as Hs.
  { split_and!; [done|done|done|]. apply ceiling_pos. destruct Hsane as (_ & _ & _ & _ & Hu). lia. }
  change (mkBudget _ _ _ _) with (repriced s x y). set (s' := repriced s x y).
  pose proof (repriced_balanced s x y id HB Hf Hs) as HB'.
  pose proof (repriced_within s x y id complete HB HW Hf Hs eq_refl) as HW'. fold s' in HB', HW'. cbn zeta in HW'.
  match goal with |- context [if ?b then _ else _] => destruct b eqn:Hdrop end.
  - split; [by apply release_balanced|]. apply (within_le s); [done|]. intros f. pose proof (find_live_in _ _ _ Hf) as [Hx Hid].
    assert (find_live id (live s') = Some y) as Hy.
    { unfold s'. cbn [repriced live]. rewrite <- Hid in Hf |- *. exact (find_set y _ x Hf). }
    unfold release. rewrite Hy. cbn [live]. rewrite (total_drop _ id _ y (bal_ids s' HB') Hy). unfold s'. cbn [repriced live].
    rewrite (total_set _ y _ x (bal_ids s HB)) by (change (l_id y) with (l_id x); by rewrite Hid).
    pose proof (bal_pos s HB) as Hpos. rewrite Forall_forall in Hpos. specialize (Hpos x Hx). pose proof (part_nonneg (arriving f) x Hpos). lia.
  - split; [done|]. apply HW'. destruct complete; [by left|right]. simpl in Hdrop.
    destruct (Z.ltb_spec 0 (actual - l_reserved x)); [right|left; simpl; lia]. simpl in Hdrop.
    rewrite !orb_false_iff, !Z.ltb_ge in Hdrop. destruct Hdrop as [[Hsh Hb] Hov]. split_and!; [exact Hb| |].
    + unfold s'. cbn [repriced clientInFlight]. rewrite lookup_insert_eq. exact Hsh.
    + intros Hanon. rewrite Hanon, andb_true_l in Hov. apply Z.ltb_ge in Hov. unfold s'. cbn [repriced anonInFlight] in *. by rewrite Hanon in *.
Qed.

(** A change that leaves every price alone. *)
Lemma touch_good s x y id :
  Good s -> find_live id (live s) = Some x -> same_request x y -> l_reserved y = l_reserved x -> l_complete y = l_complete x ->
  Good (mkBudget (inFlightBytes s) (anonInFlight s) (clientInFlight s) (set_live y (live s))).
Proof.
  intros [HB HW] Hf Hs Hr Hc. pose proof (find_live_in _ _ _ Hf) as [Hx Hid]. destruct Hs as (Hi & Hk & Ha & Hp).
  assert (forall f, part f y = part f x -> total f (set_live y (live s)) = total f (live s)) as Hd.
  { intros f Hpf. rewrite (total_set f y _ x (bal_ids s HB)) by (by rewrite Hi, Hid). lia. }
  split.
  - destruct HB as [Hnd Hpos Hall Han Hcl Ht]. constructor; cbn [inFlightBytes anonInFlight clientInFlight live]; [by rewrite set_live_ids|by apply Forall_set| | | |done].
    + rewrite Hd; [done|]. unfold part. by rewrite Hr.
    + rewrite Hd; [done|]. unfold part. by rewrite Ha, Hr.
    + intros k. rewrite Hd; [done|]. by rewrite !part_client, Hk, Hr.
  - destruct HW as [Wa Wn Wc]. constructor; cbn [live].
    + rewrite Hd; [done|]. rewrite !arriving_part, Hc. unfold part, all. by rewrite Hr.
    + rewrite Hd; [done|]. rewrite !arriving_part, Hc. unfold part. by rewrite Ha, Hr.
    + intros k. rewrite Hd; [done|]. rewrite !arriving_part, Hc. unfold part, of_client. by rewrite Hk, Hr.
Qed.

Lemma release_good id s : Good s -> Good (release id s).
Proof. intros [HB HW]. split; [by apply release_balanced|by apply release_within]. Qed.

Lemma live_pos s x : Good s -> x ∈ live s -> 0 < l_reserved x.
Proof. intros [HB _] Hx. pose proof (bal_pos s HB) as Hpos. rewrite Forall_forall in Hpos. by apply Hpos. Qed.

Lemma settle_good id read s : Good s -> Good (settle id read s).
Proof.
  intros HG. unfold settle, disarmStallReaper. pose proof (reconcile_good id read true s HG) as HG'.
  destruct (find_live id (live (reconcile id read true s))) as [x|] eqn:Hf; [|done].
  pose proof (find_live_in _ _ _ Hf) as [Hx _]. apply (touch_good _ x _ id); [done|done| |done|done]. split_and!; [done|done|done|].
  exact (live_pos _ x HG' Hx).
Qed.

Lemma poll_good id now read complete s : Good s -> Good (poll id now read complete s).
Proof.
  intros HG. unfold poll. destruct (find_live id (live s)) as [x0|]; [|done]. destruct (negb (l_armed x0)); [done|].
  destruct complete; [by apply settle_good|]. pose proof (reconcile_good id read false s HG) as HG'.
  destruct (find_live id (live (reconcile id read false s))) as [x|] eqn:Hf; [|done].
  destruct (behind_pace now read x); [by apply release_good|]. destruct (negb (read =? l_lastBytes x)).
  - pose proof (find_live_in _ _ _ Hf) as [Hx _]. apply (touch_good _ x _ id); [done|done| |done|done]. split_and!; [done|done|done|].
    exact (live_pos _ x HG' Hx).
  - destruct (STALL_TIMEOUT_MS <=? now - l_lastProgress x); [by apply release_good|done].
Qed.

Lemma middleware_good now id r s :
  Good s -> 0 <= reservation r -> Forall (fun x => l_id x <> id) (live s) -> Good (fst (middleware now id r s)).
Proof.
  intros [HB HW] Hr Hfresh. unfold middleware. destruct (_ && _ && _); [done|].
  destruct (Z.eqb_spec (reservation r) 0) as [|Hnz]; [done|]. destruct (match r_declared r with Some _ => _ | None => _ end); [done|].
  set (a := anonymous_req r). set (k := clientKey r). set (ch := under_ceiling a (reservation r)).
  match goal with |- context [if ?b then (s, Busy503) else _] => destruct b eqn:Hbusy end; [done|].
  rewrite !orb_false_iff, !Z.ltb_ge in Hbusy. destruct Hbusy as [[[Hb Hsh] Hpool] _]. cbn [fst].
  assert (0 < ch) as Hch by (apply ceiling_pos; lia).
  assert (ch <= reservation r) as Hle by (unfold ch, under_ceiling; destruct a; lia).
  set (x := mkLive id (r_declared r) ch k a true now 0 now false).
  set (s' := mkBudget _ _ _ _).
  assert (Balanced s') as HB'.
  { destruct HB as [Hnd Hpos Hall Han Hc Ht]. unfold s'. constructor; cbn [inFlightBytes anonInFlight clientInFlight live].
    - cbn [map]. apply NoDup_cons. split; [|done]. intros Hin. apply list_elem_of_fmap in Hin as (z & Hz & Hin).
      rewrite Forall_forall in Hfresh. by apply (Hfresh z).
    - by constructor.
    - rewrite total_cons, part_all, Hall. simpl. lia.
    - rewrite total_cons, part_anon, Han. simpl. destruct a; lia.
    - intros k'. rewrite total_cons, part_client, <- Hc. cbn [l_clientKey l_reserved x].
      destruct (String.eqb_spec k k') as [<-|Hne]; [rewrite lookup_insert_eq; simpl; lia|by rewrite lookup_insert_ne by done].
    - intros k' b [[-> <-]|[_ Hlk]]%lookup_insert_Some; [|by eapply Ht]. rewrite Hc. pose proof (total_nonneg (of_client k') _ Hpos). lia. }
  split; [done|]. apply (within_checked s s' k a); [done|done|unfold s'; simpl; lia| | | |].
  - unfold s'. cbn [clientInFlight]. rewrite lookup_insert_eq. exact Hsh.
  - intros ->. unfold s'. cbn [anonInFlight]. simpl in Hpool. by apply Z.ltb_ge in Hpool.
  - intros Ha. unfold s'. cbn [live]. rewrite total_cons, arriving_part, part_anon. simpl. rewrite Ha. lia.
  - intros k' Hne. unfold s'. cbn [live]. rewrite total_cons, arriving_part, part_client. cbn [l_complete l_clientKey x].
    rewrite (proj2 (String.eqb_neq k k')) by congruence. simpl. lia.
Qed.

Lemma step_good s s' : budget_step s s' -> Good s -> Good s'.
Proof.
  intros [s0 now id r s1 v Hr Hf Hm|s0 id|s0 id read|s0 id now read c] HG.
  - replace s1 with (fst (middleware now id r s0)) by by rewrite Hm. by apply middleware_good.
  - by apply release_good.
  - by apply settle_good.
  - by apply poll_good.
Qed.

Lemma idle_good : Good idle.
Proof.
  destruct Hsane as (Hb & Hp & Hc & _). split; constructor; cbn [idle inFlightBytes anonInFlight clientInFlight live total fold_right map];
    try done; try constructor; try (intros; rewrite lookup_empty in *; done).
  intros k. lia.
Qed.

Lemma reachable_good s : rtc budget_step idle s -> Good s.
Proof. intros Hr. refine (rtc_invariant budget_step Good _ _ _ Hr idle_good). apply step_good. Qed.

Lemma nothing_live s : Balanced s -> live s = [] -> s = idle.
Proof.
  intros [_ _ Ha Hn Hc Ht] Hl. rewrite Hl in *. destruct s as [a n m l]. simpl in *. subst. unfold idle. f_equal.
  apply map_eq. intros k. rewrite lookup_empty. destruct (m !! k) as [b|] eqn:E; [|done].
  specialize (Ht k b E). specialize (Hc k). rewrite E in Hc. simpl in Hc. lia.
Qed.

Lemma find_drop id l : find_live id (drop_live id l) = None.
Proof.
  induction l as [|y l IH]; [done|]. unfold drop_live in *. cbn [List.filter]. destruct (l_id y =? id)%nat eqn:E; [exact IH|].
  cbn [negb find_live]. by rewrite E.
Qed.

Lemma find_release id s : find_live id (live (release id s)) = None.
Proof. unfold release. destruct (find_live id (live s)) eqn:E; [apply find_drop|done]. Qed.

Lemma poll_declared id now read s x d :
  find_live id (live s) = Some x -> l_armed x = true -> l_declared x = Some d ->
  let s' := poll id now read false s in
  if behind_pace now read x || ((read =? l_lastBytes x) && (STALL_TIMEOUT_MS <=? now - l_lastProgress x))
  then find_live id (live s') = None
  else exists y, find_live id (live s') = Some y /\ l_reserved y = l_reserved x /\ inFlightBytes s' = inFlightBytes s.
Proof.
  intros Hf Ha Hd. pose proof (find_live_in _ _ _ Hf) as [_ Hid]. unfold poll. rewrite Hf, Ha. cbn [negb]. unfold reconcile.
  rewrite Hf, Hd, Hf. destruct (behind_pace now read x); [simpl; apply find_release|]. cbn [orb].
  destruct (read =? l_lastBytes x); cbn [negb andb].
  - destruct (STALL_TIMEOUT_MS <=? now - l_lastProgress x); [apply find_release|by exists x].
  - exists (progressed now read x). cbn [live inFlightBytes]. split_and!; [|done|done]. rewrite <- Hid in Hf |- *. exact (find_set (progressed now read x) _ x Hf).
Qed.
End budget.

(** ** The budget's guarantees *)

Lemma derived_sane budget num den bodyLimit timeout c :
  0 <= budget -> 0 < bodyLimit -> sane (createInflightBodyBudget budget num den bodyLimit timeout c).
Proof.
  intros Hb Hl. unfold sane, createInflightBodyBudget, UNDECLARED_OPENING_RESERVATION_BYTES. cbn [budgetBytes anonPool perClientCap bodyLimitBytes undeclaredReservation].
  pose proof (Z.div_pos budget 4). split_and!; lia.
Qed.

(** C31. Every account balances, whatever requests arrive and however they end:
    at any reachable state the aggregate, the anonymous pool and each client's
    share are exactly the reservations of the requests still live, so a request
    is released exactly once; and once none is live, every account is empty. *)
Theorem body_accounts_balance budget num den bodyLimit timeout c s :
  0 <= budget -> 0 < bodyLimit ->
  rtc (budget_step (createInflightBodyBudget budget num den bodyLimit timeout c)) idle s ->
  inFlightBytes s = total all (live s) /\
  anonInFlight s = total l_anonymous (live s) /\
  (forall k, default 0 (clientInFlight s !! k) = total (of_client k) (live s)) /\
  (live s = [] -> s = idle).
Proof.
  intros Hb Hl Hr. destruct (reachable_good _ (derived_sane budget num den bodyLimit timeout c Hb Hl) s Hr) as [HB _].
  split_and!; [apply HB|apply HB|apply HB|by apply nothing_live].
Qed.

(** The bodies still arriving never hold more than the budget, the anonymous
    ones among them never more than their pool, and no client more than its
    share: a body past that is refused at admission or cut mid-stream, and only
    one that is already whole is left standing. *)
Theorem arriving_bodies_within_budget budget num den bodyLimit timeout c s k :
  0 <= budget -> 0 < bodyLimit ->
  let cfg := createInflightBodyBudget budget num den bodyLimit timeout c in
  rtc (budget_step cfg) idle s ->
  total (arriving all) (live s) <= budget /\
  total (arriving l_anonymous) (live s) <= anonPool cfg /\
  total (arriving (of_client k)) (live s) <= Z.max (perClientCap cfg) (anonClientCap cfg).
Proof.
  intros Hb Hl cfg Hr. destruct (reachable_good cfg (derived_sane budget num den bodyLimit timeout c Hb Hl) s Hr) as [_ [Wa Wn Wc]].
  split_and!; [exact Wa|exact Wn|apply Wc].
Qed.

(** The reaper's verdict on a declared body still arriving: one poll drops it
    exactly when it has fallen behind the pace that lands it within the request
    timeout, or has not moved for the stall timeout; any other body keeps its
    reservation, and the aggregate does not change. *)
Theorem reaper_verdict cfg id now read s x d :
  find_live id (live s) = Some x -> l_armed x = true -> l_declared x = Some d ->
  let s' := poll cfg id now read false s in
  (find_live id (live s') = None <->
     behind_pace cfg now read x = true \/ (read = l_lastBytes x /\ STALL_TIMEOUT_MS <= now - l_lastProgress x)) /\
  (is_Some (find_live id (live s')) -> inFlightBytes s' = inFlightBytes s).
Proof.
  intros Hf Ha Hd. cbn zeta. pose proof (poll_declared cfg id now read s x d Hf Ha Hd) as H. cbn zeta in H.
  rewrite <- Z.eqb_eq, <- Z.leb_le, <- andb_true_iff, <- orb_true_iff.
  destruct (_ || _).
  - rewrite H. split; [done|]. by intros [? ?].
  - destruct H as (y & -> & _ & ->). done.
Qed.

(** A keyed body of half the budget, and an anonymous one charged its ceiling. *)
Definition demo_cfg : BudgetConfig := createInflightBodyBudget 100 1 2 40 300000 true.
Definition demo_run (s : Budget) : Budget :=
  let s := fst (middleware demo_cfg 0 0 (mkReq (Some 50) false true "" (Some "k") "1.2.3.4") s) in
  fst (middleware demo_cfg 5 1 (mkReq (Some 50) false true "" None "1.2.3.4") s).

Lemma demo_reachable : rtc (budget_step demo_cfg) idle (demo_run idle).
Proof.
  eapply rtc_l; [eapply (b_request demo_cfg idle 0 0 (mkReq (Some 50) false true "" (Some "k") "1.2.3.4")); [vm_compute; congruence|constructor|apply surjective_pairing]|].
  eapply rtc_l; [eapply (b_request demo_cfg _ 5 1 (mkReq (Some 50) false true "" None "1.2.3.4")); [vm_compute; congruence|repeat constructor; discriminate|apply surjective_pairing]|].
  apply rtc_refl.
Defined.

Lemma body_accounts_balance_witness :
  0 <= 100 /\ inFlightBytes (demo_run idle) = 90 /\ total all (live (demo_run idle)) = 90.
Proof.
  split; [lia|]. split; [reflexivity|].
  rewrite <- (proj1 (body_accounts_balance 100 1 2 40 300000 true _ ltac:(lia) ltac:(lia) demo_reachable)). reflexivity.
Defined.

Lemma arriving_bodies_within_budget_witness :
  length (live (demo_run idle)) = 2%nat /\ total (arriving all) (live (demo_run idle)) <= 100.
Proof.
  split; [reflexivity|].
  exact (proj1 (arriving_bodies_within_budget 100 1 2 40 300000 true _ "x" ltac:(lia) ltac:(lia) demo_reachable)).
Defined.

Lemma reaper_verdict_witness :
  find_live 0 (live (poll demo_cfg 0 20000 0 false (demo_run idle))) = None.
Proof.
  refine (proj2 (proj1 (reaper_verdict demo_cfg 0 20000 0 (demo_run idle) _ 50 eq_refl eq_refl eq_refl)) _).
  right. split; [reflexivity|]. vm_compute. congruence.
Defined.
