(* ===== verification/Limiter.v ===== *)
(** * The concurrency limiter

    [src/src/common/utils/concurrency-limiter.ts]: at most [max] tasks hold a slot,
    the rest wait in a queue, a finishing task hands its slot to the first waiter.
    A resolved promise resumes in a later microtask, so a task that was handed a
    slot and has not resumed is a state of its own. *)
From S2P Require Import Prelude Counting.
Local Open Scope Z_scope.

(** ** The limiter *)

(** [waiters] holds each waiter's task and whether it is taking a slot back. *)
Record Limiter := mkLim {
  lim_max : Z;
  maxQueued : option Z;
  active : Z;
  waiters : list (nat * bool);
  reacquiring : Z;
  closed : bool
}.

(** The constructor; [None] is [Infinity]. *)
Definition createLimiter (m : Z) (q : option Z) : Limiter :=
  mkLim (Z.max 1 m) (Z.max 0 <$> q) 0 [] 0 false.

Inductive AcquireError := LimiterClosed | QueueFull.

(** [Ok true] when the caller parked. *)
Definition acquire (bounded : bool) (id : nat) (l : Limiter) : result AcquireError (Limiter * bool) :=
  if closed l then Err LimiterClosed
  else if active l <? lim_max l then
    Ok (mkLim (lim_max l) (maxQueued l) (active l + 1) (waiters l) (reacquiring l) (closed l), false)
  else if bounded && match maxQueued l with Some q => q <=? Z.of_nat (length (waiters l)) - reacquiring l | None => false end
  then Err QueueFull
  else Ok (mkLim (lim_max l) (maxQueued l) (active l) (waiters l ++ [(id, negb bounded)])%list (reacquiring l) (closed l), true).

(** The waiter handed the slot, if there is one. *)
Definition release (l : Limiter) : Limiter * option (nat * bool) :=
  match waiters l with
  | w :: r => (mkLim (lim_max l) (maxQueued l) (active l) r (reacquiring l) (closed l), Some w)
  | [] => (mkLim (lim_max l) (maxQueued l) (active l - 1) [] (reacquiring l) (closed l), None)
  end.

Definition close (l : Limiter) : Limiter :=
  mkLim (lim_max l) (maxQueued l) (active l) [] (reacquiring l) true.

Definition add_reacquiring (d : Z) (l : Limiter) : Limiter :=
  mkLim (lim_max l) (maxQueued l) (active l) (waiters l) (reacquiring l + d) (closed l).

(** ** The tasks of [run] *)

(** Where a task of [run] is: parked, handed a slot and not resumed yet, running,
    inside the function it gave its slot up for, or turned away by [close] while
    it was taking a slot back and not resumed yet.  The flag tells a task taking
    a slot back from a new one. *)
Inductive Status := Parked (re : bool) | Woken (re : bool) | Running | Away | TurnedAway.
#[export] Instance Status_eq : EqDecision Status.
Proof. solve_decision. Defined.

Record Pool := mkPool { lim : Limiter; tasks : gmap nat Status }.

Definition wake (w : option (nat * bool)) (ts : gmap nat Status) : gmap nat Status :=
  match w with Some (id, re) => <[id := Woken re]> ts | None => ts end.

(** [run]: a slot at once, a place in the queue, or a refusal. *)
Definition start (id : nat) (p : Pool) : Pool * option AcquireError :=
  match acquire true id (lim p) with
  | Err e => (p, Some e)
  | Ok (l, parked) => (mkPool l (<[id := if parked then Parked false else Running]> (tasks p)), None)
  end.

(** The continuation after an awaited slot. *)
Definition resume (id : nat) (p : Pool) : Pool :=
  match tasks p !! id with
  | Some (Woken re) => mkPool (if re then add_reacquiring (-1) (lim p) else lim p) (<[id := Running]> (tasks p))
  | Some TurnedAway => mkPool (add_reacquiring (-1) (lim p)) (base.delete id (tasks p))
  | _ => p
  end.

(** [yieldSlot]: give the slot up. *)
Definition giveUp (id : nat) (p : Pool) : Pool :=
  match tasks p !! id with
  | Some Running => let '(l, w) := release (lim p) in mkPool l (wake w (<[id := Away]> (tasks p)))
  | _ => p
  end.

(** The end of [yieldSlot]: take a slot back; a closed limiter fails the task,
    which holds nothing then. *)
Definition takeBack (id : nat) (p : Pool) : Pool :=
  match tasks p !! id with
  | Some Away =>
      match acquire false id (lim p) with
      | Err _ => mkPool (lim p) (base.delete id (tasks p))
      | Ok (l, true) => mkPool (add_reacquiring 1 l) (<[id := Parked true]> (tasks p))
      | Ok (l, false) => mkPool l (<[id := Running]> (tasks p))
      end
  | _ => p
  end.

(** The task returned or threw while holding its slot. *)
Definition finish (id : nat) (p : Pool) : Pool :=
  match tasks p !! id with
  | Some Running => let '(l, w) := release (lim p) in mkPool l (wake w (base.delete id (tasks p)))
  | _ => p
  end.

Definition turned_away (st : Status) : option Status :=
  match st with Parked true => Some TurnedAway | Parked false => None | st => Some st end.

Definition closePool (p : Pool) : Pool := mkPool (close (lim p)) (omap turned_away (tasks p)).

Inductive pool_step : Pool -> Pool -> Prop :=
| p_start p id : tasks p !! id = None -> pool_step p (fst (start id p))
| p_resume p id : pool_step p (resume id p)
| p_giveUp p id : pool_step p (giveUp id p)
| p_takeBack p id : pool_step p (takeBack id p)
| p_finish p id : pool_step p (finish id p)
| p_close p : pool_step p (closePool p).

(** ** The invariant *)

Definition weight (b : bool) : Z := if b then 1 else 0.
Definition holds (st : Status) : Z := weight (match st with Running | Woken _ => true | _ => false end).
Definition retaking (st : Status) : Z := weight (match st with Parked true | Woken true | TurnedAway => true | _ => false end).
Definition waiting (re : bool) (st : Status) : Z := weight (bool_decide (st = Parked re)).
Definition rewoken (st : Status) : Z := weight (bool_decide (st = Woken true)).

Definition refused (st : Status) : Z := weight (bool_decide (st = TurnedAway)).

Definition queued (re : bool) (l : list (nat * bool)) : Z :=
  Z.of_nat (length (List.filter (fun w => Bool.eqb (snd w) re) l)).

Record PoolOk (p : Pool) : Prop := mkOk {
  k_active : active (lim p) = msum holds (tasks p);
  k_max : active (lim p) <= lim_max (lim p);
  k_full : waiters (lim p) <> [] -> active (lim p) = lim_max (lim p);
  k_re : reacquiring (lim p) = msum retaking (tasks p);
  k_queue : forall re, queued re (waiters (lim p)) = msum (waiting re) (tasks p);
  k_ids : NoDup (map fst (waiters (lim p)));
  k_waiters : forall id re, (id, re) ∈ waiters (lim p) -> tasks p !! id = Some (Parked re);
  k_bound : match maxQueued (lim p) with
            | Some q => queued false (waiters (lim p)) <= q + lim_max (lim p)
            | None => True
            end;
  k_open : closed (lim p) = false -> msum refused (tasks p) = 0;
  k_pos : 1 <= lim_max (lim p) /\ match maxQueued (lim p) with Some q => 0 <= q | None => True end
}.

Lemma queued_app re a b : queued re (a ++ b)%list = queued re a + queued re b.
Proof. unfold queued. rewrite List.filter_app, length_app. lia. Qed.

Lemma queued_cons re id r l : queued re ((id, r) :: l) = weight (Bool.eqb r re) + queued re l.
Proof. unfold queued. simpl. destruct (Bool.eqb r re); simpl; lia. Qed.

Lemma queued_all l : Z.of_nat (length l) = queued true l + queued false l.
Proof. induction l as [|[id r] l IH]; [done|]. rewrite !queued_cons. destruct r; simpl in *; lia. Qed.

Lemma waiting_parked re r : waiting re (Parked r) = weight (Bool.eqb r re).
Proof. by destruct re, r. Qed.

(** Where a task is not parked, it is in no queue. *)
Lemma not_queued p id re st : PoolOk p -> tasks p !! id = Some st -> (forall r, st <> Parked r) -> (id, re) ∉ waiters (lim p).
Proof. intros HK Hst Hn Hin. apply (k_waiters p HK) in Hin. rewrite Hst in Hin. injection Hin. apply Hn. Qed.

(** A running task lets go of its slot. *)
Lemma let_go_ok p id ts l w :
  PoolOk p -> tasks p !! id = Some Running ->
  (forall v, v Away = 0 -> msum v ts = msum v (tasks p) - v Running) ->
  (forall j, j <> id -> ts !! j = tasks p !! j) ->
  release (lim p) = (l, w) -> PoolOk (mkPool l (wake w ts)).
Proof.
  intros HK Hid Hsum Hsame Hrel. pose proof (fun re => not_queued p id re Running HK Hid (fun r => ltac:(discriminate))) as Hnq.
  destruct HK as [Ka Km Kf Kr Kq Ki Kw Kb Ko Kp]. unfold release in Hrel. destruct (waiters (lim p)) as [|[wid re] r] eqn:Hw; injection Hrel as <- <-.
  - constructor; cbn [lim tasks wake active lim_max waiters reacquiring maxQueued]; try done.
    + rewrite (Hsum holds) by done. rewrite Ka. done.
    + lia.
    + rewrite (Hsum retaking) by done. rewrite Kr. unfold retaking at 3. simpl. lia.
    + intros re. rewrite (Hsum (waiting re)) by done. rewrite <- Kq. simpl. unfold waiting. simpl. lia.
    + intros j re Hin. by apply elem_of_nil in Hin.
    + intros Hc. rewrite (Hsum refused) by done. by rewrite (Ko Hc).
  - cbn [map fst] in Ki. apply NoDup_cons in Ki as [Hni Ki].
    assert (tasks p !! wid = Some (Parked re)) as Hwid by (apply Kw; by left).
    assert (wid <> id) as Hne by (intros ->; congruence).
    assert (forall v, v Away = 0 -> msum v (<[wid := Woken re]> ts) = msum v (tasks p) - v Running - v (Parked re) + v (Woken re)) as Hs.
    { intros v Hv. rewrite msum_insert, (Hsum v Hv). unfold at_key. rewrite Hsame, Hwid by done. lia. }
    constructor; cbn [lim tasks wake active lim_max waiters reacquiring maxQueued]; try done.
    + rewrite (Hs holds) by done. rewrite Ka. unfold holds at 3 4 5. simpl. lia.
    + intros _. by apply Kf.
    + rewrite (Hs retaking) by done. rewrite Kr. unfold retaking at 3 4 5. destruct re; simpl; lia.
    + intros re'. rewrite (Hs (waiting re')) by done. rewrite <- Kq, queued_cons, waiting_parked. unfold waiting. simpl. lia.
    + intros j re' Hin. assert (j <> wid) as Hj. { intros ->. apply Hni. apply list_elem_of_fmap. by exists (wid, re'). }
      rewrite lookup_insert_ne by done. rewrite Hsame; [apply Kw; by right|]. intros ->. apply (Hnq re'). by right.
    + destruct (maxQueued (lim p)); [|done]. rewrite queued_cons in Kb. destruct re; simpl in Kb; lia.
    + intros Hc. rewrite (Hs refused) by done. by rewrite (Ko Hc).
Qed.

(** A task's status changed, neither from nor to a place in the queue, and with
    it the two counters. *)
Lemma recount_ok p l ts id :
  PoolOk p -> (forall re, (id, re) ∉ waiters (lim p)) ->
  (forall j, j <> id -> ts !! j = tasks p !! j) ->
  lim_max l = lim_max (lim p) -> maxQueued l = maxQueued (lim p) -> waiters l = waiters (lim p) ->
  active l = msum holds ts -> active l <= lim_max (lim p) -> (waiters (lim p) <> [] -> active l = lim_max (lim p)) ->
  reacquiring l = msum retaking ts -> (forall re, msum (waiting re) ts = msum (waiting re) (tasks p)) ->
  closed l = closed (lim p) -> msum refused ts <= msum refused (tasks p) ->
  PoolOk (mkPool l ts).
Proof.
  intros [Ka Km Kf Kr Kq Ki Kw Kb Ko Kp] Hnq Hsame Hm Hq Hw Ha Hle Hfull Hr Hwait Hcl Href.
  constructor; cbn [lim tasks]; rewrite ?Hm, ?Hq, ?Hw; try done.
  - intros re. by rewrite Hwait.
  - intros j re Hin. rewrite Hsame; [by apply Kw|]. intros ->. by apply (Hnq re).
  - rewrite Hcl. intros Hc. specialize (Ko Hc). pose proof (msum_nonneg refused ts) as Hn.
    assert (forall x, 0 <= refused x) as Hx by (intros []; vm_compute; congruence). specialize (Hn Hx). lia.
Qed.

Lemma rewoken_le (ts : gmap nat Status) : msum rewoken ts <= msum holds ts.
Proof. apply msum_le. intros [[]|[]| | |]; vm_compute; congruence. Qed.

(** What [waiters.length - reacquiring] counts: the new waiters, less the tasks
    handed their slot back that have not resumed. *)
Lemma gap_counts p :
  PoolOk p -> Z.of_nat (length (waiters (lim p))) - reacquiring (lim p) >= queued false (waiters (lim p)) - msum rewoken (tasks p) - msum refused (tasks p).
Proof.
  intros HK. rewrite queued_all, (k_re p HK), (k_queue p HK true).
  assert (msum retaking (tasks p) = msum (waiting true) (tasks p) + msum rewoken (tasks p) + msum refused (tasks p)) as ->; [|lia].
  rewrite <- !msum_add. apply msum_ext. intros _ [[]|[]| | |] _; reflexivity.
Qed.

(** *** Each step keeps it *)

Lemma acquire_ok_inv b id l l' parked :
  acquire b id l = Ok (l', parked) ->
  closed l = false /\
  ((parked = false /\ active l < lim_max l /\ l' = mkLim (lim_max l) (maxQueued l) (active l + 1) (waiters l) (reacquiring l) (closed l)) \/
   (parked = true /\ lim_max l <= active l /\
    (b = true -> match maxQueued l with Some q => Z.of_nat (length (waiters l)) - reacquiring l < q | None => True end) /\
    l' = mkLim (lim_max l) (maxQueued l) (active l) (waiters l ++ [(id, negb b)])%list (reacquiring l) (closed l))).
Proof.
  unfold acquire. destruct (closed l); [done|]. destruct (Z.ltb_spec (active l) (lim_max l)).
  - intros [= <- <-]. split; [done|]. by left.
  - destruct (b && _) eqn:E; [done|]. intros [= <- <-]. split; [done|]. right. split_and!; [done|lia| |done].
    intros ->. simpl in E. destruct (maxQueued l); [|done]. apply Z.leb_gt in E. lia.
Qed.

(** A task parks. *)
Lemma park_ok p id re st0 :
  PoolOk p -> closed (lim p) = false -> lim_max (lim p) <= active (lim p) ->
  tasks p !! id = st0 -> st0 = None \/ st0 = Some Away ->
  (re = false -> match maxQueued (lim p) with Some q => Z.of_nat (length (waiters (lim p))) - reacquiring (lim p) < q | None => True end) ->
  PoolOk (mkPool (mkLim (lim_max (lim p)) (maxQueued (lim p)) (active (lim p)) (waiters (lim p) ++ [(id, re)])%list
                    (reacquiring (lim p) + weight re) (closed (lim p)))
            (<[id := Parked re]> (tasks p))).
Proof.
  intros HK Hcl Hfull Hid Hst Hroom. pose proof (gap_counts p HK) as Hgap. pose proof (rewoken_le (tasks p)) as Hrw.
  assert (forall v, v Away = 0 -> msum v (<[id := Parked re]> (tasks p)) = msum v (tasks p) + v (Parked re)) as Hs.
  { intros v Hv. rewrite msum_insert. unfold at_key. rewrite Hid. destruct Hst as [->| ->]; lia. }
  assert (id ∉ map fst (waiters (lim p))) as Hnew.
  { intros Hin. apply list_elem_of_fmap in Hin as ([i r] & -> & Hin). apply (k_waiters p HK) in Hin. simpl in Hid.
    rewrite Hin in Hid. destruct Hst as [-> | ->]; congruence. }
  destruct HK as [Ka Km Kf Kr Kq Ki Kw Kb Ko Kp].
  constructor; cbn [lim tasks active lim_max waiters reacquiring maxQueued closed]; try done.
  - rewrite (Hs holds) by done. rewrite Ka. unfold holds at 3. simpl. lia.
  - intros _. lia.
  - rewrite (Hs retaking) by done. rewrite Kr. unfold retaking at 3. destruct re; simpl; lia.
  - intros r. rewrite (Hs (waiting r)) by done. rewrite queued_app, queued_cons, Kq, waiting_parked. unfold queued. simpl. lia.
  - rewrite map_app. apply NoDup_app. split_and!; [done| |apply NoDup_singleton].
    intros x Hx Hx'. apply list_elem_of_singleton in Hx'. subst. by apply Hnew.
  - intros j r Hin. apply elem_of_app in Hin as [Hin|Hin].
    + rewrite lookup_insert_ne; [by apply Kw|]. intros <-. apply Hnew. apply list_elem_of_fmap. by exists (id, r).
    + apply list_elem_of_singleton in Hin. injection Hin as -> ->. apply lookup_insert_eq.
  - destruct (maxQueued (lim p)) as [q|]; [|done]. rewrite queued_app, queued_cons. unfold queued at 2. simpl.
    destruct re; simpl; [lia|]. specialize (Hroom eq_refl). specialize (Ko Hcl). lia.
  - intros _. rewrite (Hs refused) by done. rewrite (Ko Hcl). done.
Qed.

Lemma start_ok p id : PoolOk p -> tasks p !! id = None -> PoolOk (fst (start id p)).
Proof.
  intros HK Hid. unfold start. destruct (acquire true id (lim p)) as [[l parked]|e] eqn:E; [|done].
  apply acquire_ok_inv in E as (Hcl & [(-> & Hlt & ->)|(-> & Hfull & Hroom & ->)]); cbn [fst].
  - assert (forall v, msum v (<[id := Running]> (tasks p)) = msum v (tasks p) + v Running) as Hs.
    { intros v. rewrite msum_insert. unfold at_key. rewrite Hid. lia. }
    apply (recount_ok p _ _ id); cbn [lim_max maxQueued active waiters reacquiring closed]; try done.
    + intros re Hin. apply (k_waiters p HK) in Hin. congruence.
    + intros j Hj. by rewrite lookup_insert_ne.
    + rewrite Hs, (k_active p HK). done.
    + lia.
    + intros Hw. pose proof (k_full p HK Hw). lia.
    + rewrite Hs, (k_re p HK). unfold retaking at 3. simpl. lia.
    + intros re. rewrite Hs. unfold waiting at 2. simpl. lia.
    + rewrite Hs. unfold refused at 2. simpl. lia.
  - pose proof (park_ok p id false None HK Hcl Hfull Hid (or_introl eq_refl) (fun _ => Hroom eq_refl)) as H.
    simpl in H. by rewrite Z.add_0_r in H.
Qed.

(** A task that is in no queue takes another status in no queue. *)
Lemma swap_ok p id st0 l (st : option Status) :
  PoolOk p -> tasks p !! id = Some st0 -> (forall r, st0 <> Parked r) -> (forall r, st <> Some (Parked r)) -> st <> Some TurnedAway ->
  let w := fun v : Status -> Z => match st with Some x => v x | None => 0 end in
  lim_max l = lim_max (lim p) -> maxQueued l = maxQueued (lim p) -> waiters l = waiters (lim p) -> closed l = closed (lim p) ->
  active l = active (lim p) - holds st0 + w holds -> active l <= lim_max (lim p) ->
  (waiters (lim p) <> [] -> active l = lim_max (lim p)) ->
  reacquiring l = reacquiring (lim p) - retaking st0 + w retaking ->
  PoolOk (mkPool l (match st with Some x => <[id := x]> (tasks p) | None => base.delete id (tasks p) end)).
Proof.
  intros HK Hid Hn0 Hn Hnt w Hm Hq Hw Hc Ha Hle Hfull Hr.
  set (ts := match st with Some x => _ | None => _ end).
  assert (forall v, msum v ts = msum v (tasks p) - v st0 + w v) as Hs.
  { intros v. unfold ts, w. destruct st; [rewrite msum_insert|rewrite msum_delete]; unfold at_key; rewrite Hid; lia. }
  apply (recount_ok p l ts id); try done.
  - intros re. by eapply not_queued.
  - intros j Hj. unfold ts. destruct st; [by rewrite lookup_insert_ne|by rewrite lookup_delete_ne].
  - rewrite Hs, Ha, (k_active p HK). done.
  - rewrite Hs, Hr, (k_re p HK). done.
  - intros re. rewrite Hs. assert (waiting re st0 = 0) as ->.
    { unfold waiting. by rewrite bool_decide_eq_false_2. }
    unfold w. destruct st as [x|]; [|lia]. unfold waiting at 2. rewrite bool_decide_eq_false_2; [simpl; lia|]. intros ->. by apply (Hn re).
  - rewrite Hs. assert (0 <= refused st0) by (destruct st0; vm_compute; congruence).
    assert (w refused = 0) as ->; [|lia]. unfold w. destruct st as [x|]; [|done]. unfold refused. rewrite bool_decide_eq_false_2; [done|congruence].
Qed.

Lemma resume_ok p id : PoolOk p -> PoolOk (resume id p).
Proof.
  intros HK. unfold resume. destruct (tasks p !! id) as [[| re | | |]|] eqn:Hid; try done.
  - apply (swap_ok p id (Woken re) _ (Some Running)); destruct re; cbn [add_reacquiring lim_max maxQueued waiters closed active reacquiring]; try done;
      try (unfold holds, retaking; simpl; lia); try apply HK.
  - apply (swap_ok p id TurnedAway _ None); cbn [add_reacquiring lim_max maxQueued waiters closed active reacquiring]; try done;
      try (unfold holds, retaking; simpl; lia); try apply HK.
Qed.

Lemma giveUp_ok p id : PoolOk p -> PoolOk (giveUp id p).
Proof.
  intros HK. unfold giveUp. destruct (tasks p !! id) as [[| | | |]|] eqn:Hid; try done.
  destruct (release (lim p)) as [l w] eqn:Hr. apply (let_go_ok p id _ l w); [done|done| | |done].
  - intros v Hv. rewrite msum_insert. unfold at_key. rewrite Hid. lia.
  - intros j Hj. by rewrite lookup_insert_ne.
Qed.

Lemma finish_ok p id : PoolOk p -> PoolOk (finish id p).
Proof.
  intros HK. unfold finish. destruct (tasks p !! id) as [[| | | |]|] eqn:Hid; try done.
  destruct (release (lim p)) as [l w] eqn:Hr. apply (let_go_ok p id _ l w); [done|done| | |done].
  - intros v Hv. rewrite msum_delete. unfold at_key. by rewrite Hid.
  - intros j Hj. by rewrite lookup_delete_ne.
Qed.

Lemma takeBack_ok p id : PoolOk p -> PoolOk (takeBack id p).
Proof.
  intros HK. unfold takeBack. destruct (tasks p !! id) as [[| | | |]|] eqn:Hid; try done.
  destruct (acquire false id (lim p)) as [[l parked]|e] eqn:E.
  - apply acquire_ok_inv in E as (Hcl & [(-> & Hlt & ->)|(-> & Hfull & _ & ->)]).
    + apply (swap_ok p id Away _ (Some Running)); cbn [lim_max maxQueued waiters closed active reacquiring]; try done;
        try (unfold holds, retaking; simpl; lia). intros Hw. pose proof (k_full p HK Hw). lia.
    + apply (park_ok p id true (Some Away) HK Hcl Hfull Hid (or_intror eq_refl)). done.
  - apply (swap_ok p id Away (lim p) None); try done; try (unfold holds, retaking; simpl; lia); apply HK.
Qed.

Lemma close_ok p : PoolOk p -> PoolOk (closePool p).
Proof.
  intros [Ka Km Kf Kr Kq Ki Kw Kb Ko Kp]. constructor; cbn [closePool close lim tasks lim_max maxQueued active waiters reacquiring closed]; try done.
  - rewrite Ka, msum_omap. apply msum_ext. by intros _ [[]|[]| | |] _.
  - rewrite Kr, msum_omap. apply msum_ext. by intros _ [[]|[]| | |] _.
  - intros re. rewrite msum_omap. symmetry. etransitivity; [apply (msum_ext _ (fun _ => 0)); by intros _ [[]|[]| | |] _|].
    clear. induction (tasks p) as [|i x m Hi IH] using map_ind; [apply msum_empty|]. by rewrite msum_new.
  - constructor.
  - intros id re Hin. by apply elem_of_nil in Hin.
  - destruct (maxQueued (lim p)); [|done]. unfold queued. simpl. lia.
Qed.

Lemma pool_step_ok p p' : pool_step p p' -> PoolOk p -> PoolOk p'.
Proof.
  intros [p0 id Hid|p0 id|p0 id|p0 id|p0 id|p0] HK;
    [by apply start_ok|by apply resume_ok|by apply giveUp_ok|by apply takeBack_ok|by apply finish_ok|by apply close_ok].
Qed.

Lemma release_config l : lim_max (fst (release l)) = lim_max l /\ maxQueued (fst (release l)) = maxQueued l.
Proof. unfold release. by destruct (waiters l). Qed.

Lemma step_config p p' : pool_step p p' -> lim_max (lim p') = lim_max (lim p) /\ maxQueued (lim p') = maxQueued (lim p).
Proof.
  intros [p0 id Hid|p0 id|p0 id|p0 id|p0 id|p0]; unfold start, resume, giveUp, takeBack, finish.
  - destruct (acquire true id (lim p0)) as [[l parked]|e] eqn:E; [|done].
    by apply acquire_ok_inv in E as (_ & [(_ & _ & ->)|(_ & _ & _ & ->)]).
  - by destruct (tasks p0 !! id) as [[|[]| | |]|].
  - pose proof (release_config (lim p0)) as H. destruct (tasks p0 !! id) as [[| | | |]|], (release (lim p0)); done.
  - destruct (tasks p0 !! id) as [[| | | |]|]; try done. destruct (acquire false id (lim p0)) as [[l parked]|e] eqn:E; [|done].
    by apply acquire_ok_inv in E as (_ & [(-> & _ & ->)|(-> & _ & _ & ->)]).
  - pose proof (release_config (lim p0)) as H. destruct (tasks p0 !! id) as [[| | | |]|], (release (lim p0)); done.
  - done.
Qed.

Definition newPool (m : Z) (q : option Z) : Pool := mkPool (createLimiter m q) ∅.

Lemma newPool_ok m q : PoolOk (newPool m q).
Proof.
  constructor; cbn [newPool createLimiter lim tasks lim_max maxQueued active waiters reacquiring closed]; try done; try apply msum_empty.
  - lia.
  - constructor.
  - intros id re Hin. by apply elem_of_nil in Hin.
  - destruct q as [q|]; simpl; [|done]. unfold queued. simpl. lia.
  - split; [lia|]. destruct q; simpl; [lia|done].
Qed.

(** The gate holds under any interleaving of starts, slots given up and taken
    back, finishes and [close], with promises resuming late: the tasks holding a
    slot are exactly [active] and never more than the clamped maximum; a slot is
    never idle while a task waits; the queue is exactly the parked tasks; and the
    tasks parked by [run] never exceed the queue bound by more than the slots. *)
Theorem limiter_never_over_admits m q p :
  rtc pool_step (newPool m q) p ->
  active (lim p) = msum holds (tasks p) /\
  msum holds (tasks p) <= Z.max 1 m /\
  (waiters (lim p) <> [] -> msum holds (tasks p) = Z.max 1 m) /\
  (forall re, queued re (waiters (lim p)) = msum (waiting re) (tasks p)) /\
  (forall b, q = Some b -> queued false (waiters (lim p)) <= Z.max 0 b + Z.max 1 m).
Proof.
  intros Hr. assert (PoolOk p /\ lim_max (lim p) = Z.max 1 m /\ maxQueued (lim p) = Z.max 0 <$> q) as (HK & Hm & Hq).
  { split.
    - refine (rtc_invariant pool_step PoolOk _ _ _ Hr (newPool_ok m q)). apply pool_step_ok.
    - refine (rtc_invariant pool_step (fun p => lim_max (lim p) = Z.max 1 m /\ maxQueued (lim p) = Z.max 0 <$> q) _ _ _ Hr _); [|done].
      intros a b Hs [H1 H2]. destruct (step_config a b Hs) as [-> ->]. done. }
  destruct HK as [Ka Km Kf Kr Kq Ki Kw Kb Ko Kp]. rewrite <- Hm. split_and!; [done|lia| |done|].
  - intros Hw. rewrite <- Ka. by apply Kf.
  - intros b ->. rewrite Hq in Kb. simpl in Kb. exact Kb.
Qed.

(** One slot, one place in the queue: a task gives its slot up and takes it back
    behind another that parks. *)
Definition demo_pool : Pool :=
  fst (start 3 (finish 1 (fst (start 2 (takeBack 0 (fst (start 1 (giveUp 0 (fst (start 0 (newPool 1 (Some 1)))))))))))).

Lemma demo_pool_reachable : rtc pool_step (newPool 1 (Some 1)) demo_pool.
Proof.
  unfold demo_pool.
  eapply rtc_l; [apply (p_start _ 0%nat); vm_compute; reflexivity|]. eapply rtc_l; [apply (p_giveUp _ 0%nat)|].
  eapply rtc_l; [apply (p_start _ 1%nat); vm_compute; reflexivity|]. eapply rtc_l; [apply (p_takeBack _ 0%nat)|].
  eapply rtc_l; [apply (p_start _ 2%nat); vm_compute; reflexivity|]. eapply rtc_l; [apply (p_finish _ 1%nat)|].
  eapply rtc_l; [apply (p_start _ 3%nat); vm_compute; reflexivity|]. apply rtc_refl.
Defined.

Lemma limiter_never_over_admits_witness :
  active (lim demo_pool) = 1 /\ msum holds (tasks demo_pool) <= Z.max 1 1.
Proof.
  split; [vm_compute; reflexivity|]. exact (proj1 (proj2 (limiter_never_over_admits 1 (Some 1) demo_pool demo_pool_reachable))).
Defined.

(** The queue bound is not exact: while a task handed its slot back has not
    resumed, it is in the count of tasks taking a slot back and no longer in the
    queue, so one more [run] than the bound allows can park. *)
Theorem queue_bound_overshoots :
  exists p, rtc pool_step (newPool 1 (Some 1)) p /\ maxQueued (lim p) = Some 1 /\
    msum (waiting false) (tasks p) = 2.
Proof. exists demo_pool. split; [exact demo_pool_reachable|]. split; vm_compute; reflexivity. Qed.
