(* ===== verification/Reconnect.v ===== *)
(** * The reconnect policy

    [src/src/modules/session/reconnect-policy.ts]: the backoff decision of a dropped
    session, over whole milliseconds; the jitter is an argument, as in the source. *)
From S2P Require Import Prelude.
Local Open Scope Z_scope.

Definition RECONNECT_LOOP_ALERT_INTERVAL_ATTEMPTS : Z := 5.
Definition RECONNECT_DELAY_CAP_MS : Z := 300000.

(** [maxAttempts] is [None] when unlimited. *)
Record ReconnectAttemptState := mkAttempts { attempts : Z; maxAttempts : option Z; baseDelay : Z }.

Inductive ReconnectDecision :=
| Exhausted (disabled : bool)
| Schedule (delayMs attempt : Z) (loopAlert : bool).

Definition clampNumber (value min max : Z) : Z := Z.min (Z.max value min) max.

(** [None] is [NaN]. *)
Definition clampReconnectDelay (rawDelay : option Z) (base : Z) : Z := clampNumber (default base rawDelay) 0 RECONNECT_DELAY_CAP_MS.

Definition decideReconnect (state : ReconnectAttemptState) (jitter : Z) : ReconnectAttemptState * ReconnectDecision :=
  if match maxAttempts state with Some m => m <=? attempts state | None => false end
  then (state, Exhausted (bool_decide (maxAttempts state = Some 0)))
  else
    let delayMs := clampReconnectDelay (Some (baseDelay state * 2 ^ Z.min (attempts state) 30 + jitter)) (baseDelay state) in
    let n := attempts state + 1 in
    (mkAttempts n (maxAttempts state) (baseDelay state),
     Schedule delayMs n ((0 <? n) && (n mod RECONNECT_LOOP_ALERT_INTERVAL_ATTEMPTS =? 0))).

(** The decisions of an episode, one per drop. *)
Fixpoint episode (state : ReconnectAttemptState) (jitters : list Z) : list ReconnectDecision :=
  match jitters with
  | [] => []
  | j :: r => let '(state', d) := decideReconnect state j in d :: episode state' r
  end.

Definition budget_left (max : option Z) (n : Z) : Prop := match max with Some m => n < m | None => True end.

Lemma decide_left max base n j :
  budget_left max n ->
  decideReconnect (mkAttempts n max base) j =
  (mkAttempts (n + 1) max base,
   Schedule (clampNumber (base * 2 ^ Z.min n 30 + j) 0 RECONNECT_DELAY_CAP_MS) (n + 1)
     ((0 <? n + 1) && ((n + 1) mod RECONNECT_LOOP_ALERT_INTERVAL_ATTEMPTS =? 0))).
Proof.
  intros Hb. unfold decideReconnect. cbn [attempts maxAttempts baseDelay].
  destruct max as [m|]; [|done]. simpl in Hb. by rewrite (proj2 (Z.leb_gt m n)).
Qed.

Lemma decide_spent m base n j : m <= n -> decideReconnect (mkAttempts n (Some m) base) j = (mkAttempts n (Some m) base, Exhausted (bool_decide (Some m = Some 0))).
Proof. intros H. unfold decideReconnect. cbn [attempts maxAttempts]. by rewrite (proj2 (Z.leb_le m n)). Qed.

Lemma episode_nth jitters : forall n max base i j,
  0 <= n -> jitters !! i = Some j ->
  (budget_left max (n + Z.of_nat i) ->
   episode (mkAttempts n max base) jitters !! i =
     Some (Schedule (clampNumber (base * 2 ^ Z.min (n + Z.of_nat i) 30 + j) 0 RECONNECT_DELAY_CAP_MS) (n + Z.of_nat i + 1)
             ((n + Z.of_nat i + 1) mod 5 =? 0))) /\
  (forall m, max = Some m -> m <= n + Z.of_nat i ->
   episode (mkAttempts n max base) jitters !! i = Some (Exhausted (bool_decide (m = 0)))).
Proof.
  assert (forall x, 0 <= x -> (0 <? x + 1) = true) as Hpos by (intros; apply Z.ltb_lt; lia).
  induction jitters as [|j0 r IH]; intros n max base i j Hn Hi; [done|]. cbn [episode].
  assert (budget_left max n \/ exists m, max = Some m /\ m <= n) as [Hb|(m & -> & Hm)].
  { destruct max as [m|]; simpl; [|by left]. destruct (Z.lt_ge_cases n m); [by left|right; by exists m]. }
  - rewrite (decide_left max base n j0 Hb). destruct i as [|i]; cbn [lookup list_lookup] in *.
    + injection Hi as ->. rewrite Nat2Z.inj_0, Z.add_0_r. split; [by rewrite Hpos|]. intros m -> Hm. simpl in Hb. lia.
    + destruct (IH (n + 1) max base i j ltac:(lia) Hi) as [H1 H2]. replace (n + Z.of_nat (S i)) with (n + 1 + Z.of_nat i) by lia.
      split; [exact H1|exact H2].
  - rewrite (decide_spent m base n j0 Hm). destruct i as [|i]; cbn [lookup list_lookup] in *.
    + split; [intros Hb; simpl in Hb; lia|]. intros m' [= <-] _. do 2 f_equal. apply bool_decide_ext. naive_solver.
    + destruct (IH n (Some m) base i j Hn Hi) as [_ H2]. split; [intros Hb; simpl in Hb; lia|]. intros m' [= <-] Hle. apply H2; [done|lia].
Qed.

(** The whole schedule of a flapping episode: attempt [i] of a session whose
    budget is not spent waits the base delay doubled [i] times plus its jitter,
    clamped to five minutes, and raises an alert exactly on every fifth attempt;
    once the budget is spent every further drop is refused; and a base delay and a
    jitter that are not negative never give a negative or over-long timer, nor a
    shorter backoff later in the episode than the doubling before jitter. *)
Theorem reconnect_schedule jitters max base i j :
  jitters !! i = Some j -> 0 <= base -> 0 <= j ->
  let n := Z.of_nat i in
  (budget_left max n ->
   exists delay,
     episode (mkAttempts 0 max base) jitters !! i = Some (Schedule delay (n + 1) ((n + 1) mod 5 =? 0)) /\
     delay = Z.min (base * 2 ^ Z.min n 30 + j) RECONNECT_DELAY_CAP_MS /\
     0 <= delay <= RECONNECT_DELAY_CAP_MS /\
     (forall k, 0 <= k <= n -> Z.min (base * 2 ^ Z.min k 30) RECONNECT_DELAY_CAP_MS <= delay)) /\
  (forall m, max = Some m -> m <= n -> episode (mkAttempts 0 max base) jitters !! i = Some (Exhausted (bool_decide (m = 0)))).
Proof.
  intros Hi Hbase Hj n. destruct (episode_nth jitters 0 max base i j ltac:(lia) Hi) as [H1 H2]. rewrite Z.add_0_l in *. fold n in H1, H2.
  split; [|exact H2]. intros Hb. specialize (H1 Hb). eexists. split; [exact H1|].
  assert (0 <= base * 2 ^ Z.min n 30) as Hp by (apply Z.mul_nonneg_nonneg; [lia|apply Z.pow_nonneg; lia]).
  unfold clampNumber, RECONNECT_DELAY_CAP_MS. rewrite Z.max_l by lia. split_and!; [done|lia|lia|].
  intros k Hk. assert (2 ^ Z.min k 30 <= 2 ^ Z.min n 30) by (apply Z.pow_le_mono_r; lia). nia.
Qed.

(** Four drops of a session allowed three attempts. *)
Lemma reconnect_schedule_witness :
  episode (mkAttempts 0 (Some 3) 5000) [0; 100; 200; 0] = [Schedule 5000 1 false; Schedule 10100 2 false; Schedule 20200 3 false; Exhausted false] /\
  episode (mkAttempts 0 (Some 3) 5000) [0; 100; 200; 0] !! 3%nat = Some (Exhausted (bool_decide (3 = 0))).
Proof.
  split; [reflexivity|].
  apply (proj2 (reconnect_schedule [0; 100; 200; 0] (Some 3) 5000 3%nat 0 eq_refl ltac:(lia) ltac:(lia))); [done|simpl; lia].
Defined.
