(* ===== verification/Hooks.v ===== *)
(** * The plugin hook chain

    [src/src/core/hooks/hook-manager.service.ts] (the registry of handlers and the
    chain that runs them), [sending-gate.ts] (the moderation gate on outbound
    sends) and [hook-results.ts].  A handler is the function of the chain's data it
    computes; the asynchronous context's in-flight events are an argument. *)
From S2P Require Import Prelude JsString Json.
Local Open Scope string_scope.
Local Open Scope Z_scope.

(** [None] stands for anything that is not a finite number. *)
Definition normalizeHookPriority (priority : option Z) : Z := default 100 priority.

(** What a handler did: it threw, or returned a result. *)
Inductive HandlerResult :=
| HThrew
| HReturned (continue : bool) (data : option json) (error : bool).

(** The hook id is the text of the plugin, the event and the counter. *)
Record Registration := mkReg {
  r_id : string * string * nat;
  r_plugin : string;
  r_handler : json -> HandlerResult;
  r_priority : Z
}.

Record HookManager := mkHooks {
  hooks : list (string * list Registration);
  pluginHooks : list (string * list (string * string * nat));
  nextHookId : nat
}.

(** ** The registry *)

(** The stable sort by priority. *)
Fixpoint insert_reg (x : Registration) (l : list Registration) : list Registration :=
  match l with
  | [] => [x]
  | y :: r => if r_priority y <=? r_priority x then y :: insert_reg x r else x :: y :: r
  end.
Definition sort_regs (l : list Registration) : list Registration := fold_left (fun acc x => insert_reg x acc) l [].

Definition register (pluginId event : string) (handler : json -> HandlerResult) (priority : option Z) (m : HookManager) :
    HookManager * (string * string * nat) :=
  let id := (pluginId, event, nextHookId m) in
  let reg := mkReg id pluginId handler (normalizeHookPriority priority) in
  let chain := default [] (JMap.get event (hooks m)) in
  let mine := default [] (JMap.get pluginId (pluginHooks m)) in
  (mkHooks (JMap.set event (sort_regs (chain ++ [reg])%list) (hooks m))
     (JMap.set pluginId (set_add mine id) (pluginHooks m)) (S (nextHookId m)), id).

Definition is_hook (id : string * string * nat) (r : Registration) : bool := bool_decide (r_id r = id).

(** Remove the first registration with the id; the registration removed. *)
Fixpoint splice_hook (id : string * string * nat) (l : list Registration) : option (Registration * list Registration) :=
  match l with
  | [] => None
  | r :: rest =>
      if is_hook id r then Some (r, rest)
      else match splice_hook id rest with Some (x, rest') => Some (x, r :: rest') | None => None end
  end.

Fixpoint splice_hooks (id : string * string * nat) (hs : list (string * list Registration)) :
    option (Registration * list (string * list Registration)) :=
  match hs with
  | [] => None
  | (e, l) :: rest =>
      match splice_hook id l with
      | Some (x, l') => Some (x, (e, l') :: rest)
      | None => match splice_hooks id rest with Some (x, rest') => Some (x, (e, l) :: rest') | None => None end
      end
  end.

Definition unregister (id : string * string * nat) (m : HookManager) : HookManager :=
  match splice_hooks id (hooks m) with
  | None => m
  | Some (r, hs) =>
      mkHooks hs
        (match JMap.get (r_plugin r) (pluginHooks m) with
         | Some ids => JMap.set (r_plugin r) (List.filter (fun x => negb (bool_decide (x = id))) ids) (pluginHooks m)
         | None => pluginHooks m
         end) (nextHookId m)
  end.

Definition with_priority (p : Z) (r : Registration) : Registration := mkReg (r_id r) (r_plugin r) (r_handler r) p.

(** The first chain that holds the id, with the registration moved. *)
Fixpoint move_hook (id : string * string * nat) (p : Z) (hs : list (string * list Registration)) : list (string * list Registration) :=
  match hs with
  | [] => []
  | (e, l) :: rest =>
      if existsb (is_hook id) l then (e, sort_regs (map (fun r => if is_hook id r then with_priority p r else r) l)) :: rest
      else (e, l) :: move_hook id p rest
  end.

Definition setPriority (id : string * string * nat) (priority : option Z) (m : HookManager) : HookManager :=
  mkHooks (move_hook id (normalizeHookPriority priority) (hooks m)) (pluginHooks m) (nextHookId m).

Definition unregisterPlugin (pluginId : string) (m : HookManager) : HookManager :=
  match JMap.get pluginId (pluginHooks m) with
  | None => m
  | Some _ =>
      mkHooks (map (fun e => (fst e, List.filter (fun r => negb (String.eqb (r_plugin r) pluginId)) (snd e))) (hooks m))
        (JMap.delete pluginId (pluginHooks m)) (nextHookId m)
  end.

(** ** The chain *)

(** [runHandlers] over the snapshot of the chain. *)
Fixpoint runHandlers (accept : option (json -> bool)) (chain : list Registration) (data : json) : bool * json :=
  match chain with
  | [] => (true, data)
  | r :: rest =>
      match r_handler r data with
      | HThrew => runHandlers accept rest data
      | HReturned continue result error =>
          let data' := match result with
                       | Some d => if negb error && match accept with Some f => f d | None => true end then d else data
                       | None => data
                       end in
          if negb continue then (false, data') else runHandlers accept rest data'
      end
  end.

(** [isInFlight]: the scopes of the active asynchronous context. *)
Definition isInFlight (event : string) (scopes : list (list string)) : bool :=
  existsb (fun scope => existsb (String.eqb event) scope) scopes.

(** The scopes [runInFlight] runs its function under: the parents that are still
    open, and a new one. *)
Definition enter (events : list string) (scopes : list (list string)) : list (list string) :=
  (List.filter (fun sc => (0 <? length sc)%nat) scopes ++ [events])%list.

Definition execute (scopes : list (list string)) (event : string) (accept : option (json -> bool)) (data : json) (m : HookManager) : bool * json :=
  if isInFlight event scopes then (true, data)
  else runHandlers accept (default [] (JMap.get event (hooks m))) data.

(** ** Usable results *)

Definition isPlainObject (v : option json) : bool := match v with Some (JObj _) => true | _ => false end.

Definition isMessagePayload (d : json) : bool :=
  isPlainObject (Some d) && bool_decide (is_Some (str (field d "id"))) && bool_decide (is_Some (str (field d "chatId"))).

Definition isWebhookBeforeResult (d : json) : bool := isPlainObject (Some d) && isPlainObject (field d "payload").

Definition HOOK_RESULT_ACCEPT (event : string) : option (json -> bool) :=
  if String.eqb event "message:received" || String.eqb event "message:sent" then Some isMessagePayload
  else if String.eqb event "webhook:before" then Some isWebhookBeforeResult
  else None.

(** ** The sending gate *)

Inductive GateError := BlockedByPlugin | UnusablePayload.

(** [typeof v === 'object' && v !== null] *)
Definition is_ref (v : json) : bool := match v with JObj _ | JArr _ => true | _ => false end.

Definition sending_envelope (sessionId type : string) (input : json) : json :=
  JObj [("sessionId", JStr sessionId); ("input", input); ("type", JStr type)].

Definition applySendingGate (scopes : list (list string)) (m : HookManager) (sessionId type : string) (input : json) : result GateError json :=
  let '(shouldContinue, hookData) := execute scopes "message:sending" None (sending_envelope sessionId type input) m in
  if negb shouldContinue then Err BlockedByPlugin
  else match field hookData "input" with
       | Some v => if is_ref v then Ok v else Err UnusablePayload
       | None => Err UnusablePayload
       end.

(** ** The registry keeps its order and its books *)

Definition by_priority (a b : Registration) : Prop := r_priority a <= r_priority b.
Definition all_regs (m : HookManager) : list Registration := concat (map snd (hooks m)).
Definition tracked (m : HookManager) (p : string) : list (string * string * nat) := default [] (JMap.get p (pluginHooks m)).

Record RegOk (m : HookManager) : Prop := mkRegOk {
  g_sorted : Forall (fun e => StronglySorted by_priority (snd e)) (hooks m);
  g_ids : NoDup (map r_id (all_regs m));
  g_named : Forall (fun r => (snd (r_id r) < nextHookId m)%nat) (all_regs m);
  g_tracked : forall p id, id ∈ tracked m p <-> exists r, r ∈ all_regs m /\ r_plugin r = p /\ r_id r = id
}.

Lemma insert_reg_perm x l : insert_reg x l ≡ₚ x :: l.
Proof. induction l as [|y l IH]; simpl; [done|]. case_match; [|done]. rewrite IH. apply perm_swap. Qed.

Lemma insert_reg_sorted x l : StronglySorted by_priority l -> StronglySorted by_priority (insert_reg x l).
Proof.
  induction l as [|y l IH]; simpl; intros Hs; [by repeat constructor|]. apply StronglySorted_inv in Hs as [Hs Hf].
  destruct (Z.leb_spec (r_priority y) (r_priority x)).
  - constructor; [by apply IH|]. rewrite insert_reg_perm. by constructor.
  - constructor; [by constructor|]. constructor; [unfold by_priority; lia|]. eapply Forall_impl; [exact Hf|]. unfold by_priority. intros z. lia.
Qed.

Lemma sort_regs_acc l acc : fold_left (fun acc x => insert_reg x acc) l acc ≡ₚ l ++ acc.
Proof. revert acc. induction l as [|x l IH]; intros acc; simpl; [done|]. rewrite IH, insert_reg_perm. by rewrite <- Permutation_middle. Qed.

Lemma sort_regs_perm l : sort_regs l ≡ₚ l.
Proof. unfold sort_regs. by rewrite sort_regs_acc, app_nil_r. Qed.

Lemma sort_regs_sorted l : StronglySorted by_priority (sort_regs l).
Proof.
  unfold sort_regs. assert (forall acc, StronglySorted by_priority acc -> StronglySorted by_priority (fold_left (fun acc x => insert_reg x acc) l acc)) as H.
  { induction l as [|x l IH]; intros acc Ha; simpl; [done|]. by apply IH, insert_reg_sorted. }
  apply H. constructor.
Qed.

(** A chain replaced by another, under its event. *)
Lemma set_chain_perm e l' (hs : list (string * list Registration)) x :
  l' ≡ₚ x ++ default [] (JMap.get e hs) -> concat (map snd (JMap.set e l' hs)) ≡ₚ x ++ concat (map snd hs).
Proof.
  intros Hl. induction hs as [|[k l] rest IH]; cbn [JMap.set JMap.get map concat snd fst] in *.
  - simpl in *. by rewrite !app_nil_r in *.
  - destruct (String.eqb k e); cbn [map concat snd].
    + simpl in Hl. rewrite Hl. by rewrite <- app_assoc.
    + rewrite IH by done. rewrite !app_assoc. f_equiv. apply Permutation_app_comm.
Qed.

Lemma set_chain_sorted e l' (hs : list (string * list Registration)) :
  StronglySorted by_priority l' -> Forall (fun e => StronglySorted by_priority (snd e)) hs ->
  Forall (fun e => StronglySorted by_priority (snd e)) (JMap.set e l' hs).
Proof.
  intros Hl. induction 1 as [|[k l] rest Hh Hr IH]; cbn [JMap.set]; [by repeat constructor|].
  destruct (String.eqb k e); by constructor.
Qed.

Lemma tracked_set m p ids q : tracked (mkHooks (hooks m) (JMap.set p ids (pluginHooks m)) (nextHookId m)) q = if String.eqb p q then ids else tracked m q.
Proof.
  unfold tracked. cbn [pluginHooks]. destruct (String.eqb_spec p q) as [->|Hne]; [by rewrite JMap.get_set_eq|by rewrite JMap.get_set_ne].
Qed.

Lemma register_ok p e h pr m : RegOk m -> RegOk (fst (register p e h pr m)).
Proof.
  intros [Gs Gi Gn Gt]. unfold register. cbn [fst].
  set (reg := mkReg (p, e, nextHookId m) p h (normalizeHookPriority pr)).
  set (m' := mkHooks _ _ _).
  assert (all_regs m' ≡ₚ reg :: all_regs m) as Hp.
  { unfold all_regs, m'. cbn [hooks]. apply (set_chain_perm e _ _ [reg]). rewrite sort_regs_perm. apply Permutation_app_comm. }
  constructor.
  - apply set_chain_sorted; [apply sort_regs_sorted|done].
  - rewrite Hp. cbn [map]. apply NoDup_cons. split; [|done]. intros Hin. apply list_elem_of_fmap in Hin as (r & Hr & Hin).
    rewrite Forall_forall in Gn. specialize (Gn r Hin). rewrite <- Hr in Gn. simpl in Gn. lia.
  - rewrite Hp. constructor; [simpl; lia|]. eapply Forall_impl; [exact Gn|]. simpl. intros r. lia.
  - intros q id. setoid_rewrite Hp. change (tracked m' q) with (tracked (mkHooks (hooks m) (JMap.set p (set_add (tracked m p) (p, e, nextHookId m)) (pluginHooks m)) (nextHookId m)) q).
    rewrite tracked_set. setoid_rewrite elem_of_cons. destruct (String.eqb_spec p q) as [<-|Hne].
    + rewrite elem_of_set_add, Gt. split.
      * intros [(r & Hr & Hpl & Hid)| ->]; [exists r; auto|exists reg; auto].
      * intros (r & [->|Hr] & Hpl & Hid); [right; by rewrite <- Hid|left; by exists r].
    + rewrite Gt. split.
      * intros (r & Hr & Hpl & Hid). exists r. auto.
      * intros (r & [->|Hr] & Hpl & Hid); [done|by exists r].
Qed.

Lemma splice_hook_spec id l x l' : splice_hook id l = Some (x, l') -> r_id x = id /\ l ≡ₚ x :: l' /\ sublist l' l.
Proof.
  revert l'. induction l as [|r l IH]; simpl; intros l' H; [done|]. destruct (is_hook id r) eqn:E.
  - injection H as <- <-. apply bool_decide_eq_true in E. split_and!; [done|done|by apply sublist_cons].
  - destruct (splice_hook id l) as [[y l1]|]; [|done]. injection H as <- <-. destruct (IH l1 eq_refl) as (H1 & H2 & H3).
    split_and!; [done|rewrite H2; apply perm_swap|by apply sublist_skip].
Qed.

Lemma by_priority_sublist a b : sublist a b -> StronglySorted by_priority b -> StronglySorted by_priority a.
Proof.
  induction 1 as [|x a b Hs IH|x a b Hs IH]; [done| |]; intros H; apply StronglySorted_inv in H as [H1 H2]; [|by apply IH].
  constructor; [by apply IH|]. rewrite Forall_forall in *. intros y Hy. apply H2. by eapply elem_of_sublist.
Qed.

Lemma splice_hooks_spec id hs x hs' :
  splice_hooks id hs = Some (x, hs') -> Forall (fun e => StronglySorted by_priority (snd e)) hs ->
  r_id x = id /\ concat (map snd hs) ≡ₚ x :: concat (map snd hs') /\ Forall (fun e => StronglySorted by_priority (snd e)) hs'.
Proof.
  revert hs'. induction hs as [|[e l] rest IH]; simpl; intros hs' H Hs; [done|]. apply Forall_cons in Hs as [Hl Hs].
  destruct (splice_hook id l) as [[y l1]|] eqn:E.
  - injection H as <- <-. apply splice_hook_spec in E as (H1 & H2 & H3). split_and!; [done|simpl; by rewrite H2|].
    constructor; [by eapply by_priority_sublist|done].
  - destruct (splice_hooks id rest) as [[y rest1]|] eqn:E2; [|done]. injection H as <- <-. destruct (IH rest1 eq_refl Hs) as (H1 & H2 & H3).
    split_and!; [done| |by constructor]. simpl. rewrite H2. by rewrite <- Permutation_middle.
Qed.

Lemma unregister_ok id m : RegOk m -> RegOk (unregister id m).
Proof.
  intros [Gs Gi Gn Gt]. unfold unregister. destruct (splice_hooks id (hooks m)) as [[x hs]|] eqn:E; [|done].
  destruct (splice_hooks_spec id (hooks m) x hs E Gs) as (Hid & Hp & Hs). fold (all_regs m) in Hp.
  assert (x ∈ all_regs m) as Hx by (rewrite Hp; by left).
  assert (id ∈ tracked m (r_plugin x)) as Htr by (apply Gt; eauto).
  unfold tracked in Htr. destruct (JMap.get (r_plugin x) (pluginHooks m)) as [ids|] eqn:Hget; [|by apply elem_of_nil in Htr].
  rewrite Hp in Gi, Gn. cbn [map] in Gi. apply NoDup_cons in Gi as [Hn Gi]. apply Forall_cons in Gn as [_ Gn].
  constructor; [exact Hs|exact Gi|exact Gn|].
  intros q i. unfold all_regs in *. cbn [hooks]. setoid_rewrite Hp in Gt.
  change (tracked (mkHooks hs _ _) q) with (tracked (mkHooks (hooks m) (JMap.set (r_plugin x) (List.filter (fun y => negb (bool_decide (y = id))) ids) (pluginHooks m)) (nextHookId m)) q).
  rewrite tracked_set. destruct (String.eqb_spec (r_plugin x) q) as [<-|Hne].
  - rewrite list_elem_of_In, List.filter_In, <- list_elem_of_In. specialize (Gt (r_plugin x) i). unfold tracked in Gt. rewrite Hget in Gt. simpl in Gt.
    rewrite Gt, negb_true_iff, bool_decide_eq_false. setoid_rewrite elem_of_cons. split.
    + intros [(r & [->|Hr] & Hpl & Hri) Hni]; [congruence|by exists r].
    + intros (r & Hr & Hpl & Hri). split; [exists r; auto|]. intros ->. apply Hn. apply list_elem_of_fmap. exists r. split; [congruence|done].
  - rewrite (Gt q i). setoid_rewrite elem_of_cons. split.
    + intros (r & [->|Hr] & Hpl & Hri); [done|by exists r].
    + intros (r & Hr & Hpl & Hri). exists r. auto.
Qed.

(** A priority moved changes nobody's id or plugin. *)
Definition face (r : Registration) : (string * string * nat) * string := (r_id r, r_plugin r).

Lemma move_hook_faces id p hs : map face (concat (map snd (move_hook id p hs))) ≡ₚ map face (concat (map snd hs)).
Proof.
  induction hs as [|[e l] rest IH]; [done|]. cbn [move_hook]. destruct (existsb (is_hook id) l); cbn [map concat snd]; rewrite !map_app.
  - f_equiv. rewrite (sort_regs_perm _), map_map. apply Permutation_refl'. apply map_ext. intros r. by destruct (is_hook id r).
  - by rewrite IH.
Qed.

Lemma faces_ok m m' :
  RegOk m -> map face (all_regs m') ≡ₚ map face (all_regs m) -> pluginHooks m' = pluginHooks m -> nextHookId m' = nextHookId m ->
  Forall (fun e => StronglySorted by_priority (snd e)) (hooks m') -> RegOk m'.
Proof.
  intros [Gs Gi Gn Gt] Hf Hph Hni Hs.
  assert (forall l, map r_id l = map fst (map face l)) as Hids by (intros l; by rewrite map_map).
  constructor; [done| | |].
  - rewrite Hids, Hf, <- Hids. done.
  - rewrite Hni, Forall_forall in *. intros r Hr. assert (face r ∈ map face (all_regs m)) as Hin.
    { rewrite <- Hf. apply elem_of_map. by exists r. }
    apply elem_of_map in Hin as (r' & Hface & Hr'). injection Hface as -> _. by apply Gn.
  - intros p id. unfold tracked. rewrite Hph. fold (tracked m p). rewrite Gt.
    assert (forall n, (exists r, r ∈ all_regs n /\ r_plugin r = p /\ r_id r = id) <-> (id, p) ∈ map face (all_regs n)) as Hin.
    { intros n. rewrite elem_of_map. split.
      - intros (r & Hr & <- & <-). exists r. done.
      - intros (r & Hr & Hin). injection Hr as -> ->. by exists r. }
    rewrite !Hin, Hf. done.
Qed.

Lemma move_hook_sorted id p hs :
  Forall (fun e => StronglySorted by_priority (snd e)) hs -> Forall (fun e => StronglySorted by_priority (snd e)) (move_hook id p hs).
Proof.
  induction 1 as [|[e l] rest Hl Hrest IH]; [constructor|]. cbn [move_hook]. destruct (existsb (is_hook id) l).
  - constructor; [apply sort_regs_sorted|done].
  - by constructor.
Qed.

Lemma setPriority_ok id pr m : RegOk m -> RegOk (setPriority id pr m).
Proof.
  intros HG. apply (faces_ok m); [done|apply move_hook_faces|done|done|]. apply move_hook_sorted. apply HG.
Qed.

Lemma concat_filter (f : Registration -> bool) hs :
  concat (map snd (map (fun e : string * list Registration => (fst e, List.filter f (snd e))) hs)) = List.filter f (concat (map snd hs)).
Proof. induction hs as [|[e l] rest IH]; [done|]. cbn [map concat snd fst]. by rewrite List.filter_app, IH. Qed.

Lemma filter_sublist {A} (f : A -> bool) l : sublist (List.filter f l) l.
Proof. induction l as [|x l IH]; simpl; [constructor|]. destruct (f x); [by apply sublist_skip|by apply sublist_cons]. Qed.

Lemma unregisterPlugin_ok p m : RegOk m -> RegOk (unregisterPlugin p m).
Proof.
  intros [Gs Gi Gn Gt]. unfold unregisterPlugin. destruct (JMap.get p (pluginHooks m)) as [ids|] eqn:Hget; [|done].
  set (m' := mkHooks _ _ _).
  assert (all_regs m' = List.filter (fun r => negb (String.eqb (r_plugin r) p)) (all_regs m)) as Ha by apply concat_filter.
  assert (forall r, r ∈ all_regs m' <-> r ∈ all_regs m /\ r_plugin r <> p) as Hin.
  { intros r. rewrite Ha, list_elem_of_In, List.filter_In, <- list_elem_of_In, negb_true_iff, String.eqb_neq. done. }
  constructor.
  - unfold m'. cbn [hooks]. apply Forall_forall. intros e He. apply elem_of_map in He as (e0 & -> & He). simpl.
    rewrite Forall_forall in Gs. eapply by_priority_sublist; [apply filter_sublist|by apply Gs].
  - rewrite Ha. eapply sublist_NoDup; [exact Gi|]. assert (forall a b : list Registration, sublist a b -> sublist (map r_id a) (map r_id b)) as Hm.
    { induction 1; simpl; constructor; done. }
    apply Hm, filter_sublist.
  - apply Forall_forall. intros r Hr. apply Hin in Hr as [Hr _]. rewrite Forall_forall in Gn. by apply Gn.
  - intros q id. setoid_rewrite Hin. unfold tracked, m'. cbn [pluginHooks]. destruct (decide (p = q)) as [->|Hne].
    + rewrite JMap.get_delete_eq. simpl. split; [intros H; by apply elem_of_nil in H|]. by intros (r & [_ Hn] & Hpl & _).
    + rewrite JMap.get_delete_ne by done. fold (tracked m q). rewrite Gt. split.
      * intros (r & Hr & Hpl & Hid). exists r. split; [split; [done|congruence]|done].
      * intros (r & [Hr _] & Hpl & Hid). by exists r.
Qed.

Inductive hook_step : HookManager -> HookManager -> Prop :=
| h_register m p e h pr : hook_step m (fst (register p e h pr m))
| h_unregister m id : hook_step m (unregister id m)
| h_setPriority m id pr : hook_step m (setPriority id pr m)
| h_unregisterPlugin m p : hook_step m (unregisterPlugin p m).

Definition no_hooks : HookManager := mkHooks [] [] 0.

Lemma hooks_reachable_ok m : rtc hook_step no_hooks m -> RegOk m.
Proof.
  intros Hr. refine (rtc_invariant hook_step RegOk _ _ _ Hr _).
  - intros a b [m0 p e h pr|m0 id|m0 id pr|m0 p] HG; [by apply register_ok|by apply unregister_ok|by apply setPriority_ok|by apply unregisterPlugin_ok].
  - constructor; [constructor|constructor|constructor|]. intros p id. split; [intros H; by apply elem_of_nil in H|]. by intros (r & Hr' & _); apply elem_of_nil in Hr'.
Qed.

(** The hook registry keeps its order and its books.  After any sequence of
    registrations, removals and priority changes, every event's chain is sorted by
    priority and no hook id appears twice; the ids tracked for a plugin are
    exactly its registrations; and removing the plugin leaves none of them, in
    any chain. *)
Theorem hook_registry_consistent m p :
  rtc hook_step no_hooks m ->
  (forall e chain, JMap.get e (hooks m) = Some chain -> StronglySorted by_priority chain) /\
  NoDup (map r_id (all_regs m)) /\
  (forall id, id ∈ tracked m p <-> exists r, r ∈ all_regs m /\ r_plugin r = p /\ r_id r = id) /\
  (forall r, r ∈ all_regs (unregisterPlugin p m) -> r_plugin r <> p).
Proof.
  intros Hr. pose proof (hooks_reachable_ok m Hr) as HG. pose proof (unregisterPlugin_ok p m HG) as HG'. destruct HG as [Gs Gi Gn Gt].
  split_and!; [|done|apply Gt|].
  - intros e chain Hget. apply JMap.get_Some_elem in Hget. rewrite Forall_forall in Gs. by apply (Gs (e, chain)).
  - intros r Hin Hpl. assert (r_id r ∈ tracked (unregisterPlugin p m) p) as Htr by (apply (g_tracked _ HG'); eauto).
    revert Hin Htr. unfold unregisterPlugin, tracked. destruct (JMap.get p (pluginHooks m)) eqn:E; cbn [pluginHooks].
    + rewrite JMap.get_delete_eq. simpl. intros _ H. by apply elem_of_nil in H.
    + rewrite E. simpl. intros _ H. by apply elem_of_nil in H.
Qed.

(** ** The chain *)

Definition veto (r : HandlerResult) : bool := match r with HReturned false _ _ => true | _ => false end.

(** A handler that fails without stopping the chain. *)
Definition fails (r : HandlerResult) : bool := match r with HThrew | HReturned true _ true => true | _ => false end.

(** The handlers a chain runs, with the data each of them sees. *)
Fixpoint seen (accept : option (json -> bool)) (chain : list Registration) (data : json) : list (Registration * json) :=
  match chain with
  | [] => []
  | r :: rest =>
      (r, data) ::
      match r_handler r data with
      | HThrew => seen accept rest data
      | HReturned continue result error =>
          let data' := match result with
                       | Some d => if negb error && match accept with Some f => f d | None => true end then d else data
                       | None => data
                       end in
          if continue then seen accept rest data' else []
      end
  end.

Lemma run_vetoed accept chain data :
  fst (runHandlers accept chain data) = negb (existsb (fun e => veto (r_handler (fst e) (snd e))) (seen accept chain data)) /\
  (fst (runHandlers accept chain data) = true -> map fst (seen accept chain data) = chain).
Proof.
  revert data. induction chain as [|r rest IH]; intros data; [done|]. cbn [runHandlers seen existsb fst snd].
  destruct (r_handler r data) as [|[] result error]; cbn [veto orb negb map fst]; [|set (d' := match result with Some d => _ | None => _ end)|done].
  - destruct (IH data) as [H1 H2]. split; [exact H1|]. intros H. by rewrite (H2 H).
  - destruct (IH d') as [H1 H2]. split; [exact H1|]. intros H. by rewrite (H2 H).
Qed.

(** A broken plugin is as if absent: a handler that throws, or reports an
    error without stopping the chain, on whatever data it is given, changes
    neither the outcome of the chain nor its data, wherever it stands. *)
Theorem failing_handler_is_absent accept before r after data :
  (forall d, fails (r_handler r d) = true) ->
  runHandlers accept (before ++ r :: after)%list data = runHandlers accept (before ++ after)%list data.
Proof.
  intros Hf. revert data. induction before as [|b before IH]; intros data; cbn [app runHandlers].
  - specialize (Hf data). destruct (r_handler r data) as [|[] [d|] []]; done.
  - destruct (r_handler b data) as [|continue result error]; [apply IH|]. destruct (negb continue); [done|apply IH].
Qed.

(** A handler that rewrites the text of a send, and one that is broken. *)
Definition demo_redact (d : json) : HandlerResult := HReturned true (Some (JObj [("input", JObj [("text", JStr "***")])])) false.
Definition demo_broken (d : json) : HandlerResult := HReturned true (Some JNull) true.
Definition demo_hooks : HookManager :=
  fst (register "broken" "message:sending" demo_broken None (fst (register "redact" "message:sending" demo_redact (Some 10) no_hooks))).

Lemma demo_hooks_reachable : rtc hook_step no_hooks demo_hooks.
Proof. unfold demo_hooks. eapply rtc_l; [apply h_register|]. eapply rtc_l; [apply h_register|]. apply rtc_refl. Qed.

Lemma hook_registry_consistent_witness :
  length (all_regs demo_hooks) = 2%nat /\ NoDup (map r_id (all_regs demo_hooks)) /\
  (forall r, r ∈ all_regs (unregisterPlugin "broken" demo_hooks) -> r_plugin r <> "broken").
Proof.
  pose proof (hook_registry_consistent demo_hooks "broken" demo_hooks_reachable) as (_ & Hn & _ & Hp).
  split; [reflexivity|]. split; [exact Hn|exact Hp].
Defined.

Lemma failing_handler_is_absent_witness :
  runHandlers None ([mkReg ("p", "e", 0%nat) "p" demo_redact 1] ++ mkReg ("q", "e", 1%nat) "q" demo_broken 2 :: [])%list JNull =
  (true, JObj [("input", JObj [("text", JStr "***")])]).
Proof. rewrite failing_handler_is_absent; [reflexivity|done]. Defined.

(** C39. The moderation gate fails closed.  A send passes only when every handler of
    the chain ran and none vetoed on the data it saw, or the send was made from
    inside a handler of the same event; and what is sent is an object: the caller's
    input or the one the chain left in the envelope. *)
Theorem sending_gate_fails_closed scopes m sid type input v :
  applySendingGate scopes m sid type input = Ok v ->
  is_ref v = true /\
  (isInFlight "message:sending" scopes = true /\ v = input \/
   let chain := default [] (JMap.get "message:sending" (hooks m)) in
   let envelope := sending_envelope sid type input in
   map fst (seen None chain envelope) = chain /\
   existsb (fun e => veto (r_handler (fst e) (snd e))) (seen None chain envelope) = false /\
   field (snd (runHandlers None chain envelope)) "input" = Some v).
Proof.
  unfold applySendingGate, execute. destruct (isInFlight "message:sending" scopes) eqn:Hfl.
  - simpl. destruct (is_ref input) eqn:Hr; [|done]. intros [= <-]. auto.
  - set (chain := default [] (JMap.get "message:sending" (hooks m))). set (env := sending_envelope sid type input).
    destruct (run_vetoed None chain env) as [Hv Hall]. destruct (runHandlers None chain env) as [[] d]; simpl in *; [|done].
    destruct (field d "input") as [w|]; [|done]. destruct (is_ref w) eqn:Hr; [|done]. intros [= <-]. split; [done|]. right.
    split_and!; [by apply Hall|by apply negb_true_iff|done].
Qed.

Lemma sending_gate_fails_closed_witness :
  applySendingGate [] demo_hooks "s" "text" (JObj [("text", JStr "secret")]) = Ok (JObj [("text", JStr "***")]) /\
  is_ref (JObj [("text", JStr "***")]) = true.
Proof.
  split; [reflexivity|].
  exact (proj1 (sending_gate_fails_closed [] demo_hooks "s" "text" (JObj [("text", JStr "secret")]) (JObj [("text", JStr "***")]) eq_refl)).
Defined.
