(* ===== verification/Prog.v ===== *)
(** * Concurrent programs over shared tables

    The asynchronous code of the server is a set of tasks that interleave at their
    awaits.  A task is a value of [prog]: the effects it performs on shared state,
    one by one, each followed by what it does with the answer.  A pool of tasks
    steps by performing the next effect of one of them; tasks appear, stop at any
    point (a crash), and the environment moves between steps.  The file proves a
    rely-guarantee rule: tasks that only perform effects whose precondition they
    have established, from facts no step can undo, keep the invariant. *)
From S2P Require Import Prelude.

Inductive prog (E : Type -> Type) (A : Type) : Type :=
| Ret (a : A)
| Do {B : Type} (e : E B) (k : B -> prog E A).
Arguments Ret {E A} a.
Arguments Do {E A B} e k.

Fixpoint pbind {E : Type -> Type} {A B : Type} (p : prog E A) (f : A -> prog E B) : prog E B :=
  match p with
  | Ret a => f a
  | Do e k => Do e (fun b => pbind (k b) f)
  end.

(** One effect, its answer returned. *)
Definition act {E : Type -> Type} {B : Type} (e : E B) : prog E B := Do e Ret.

Declare Scope prog_scope.
Delimit Scope prog_scope with prog.
Notation "'let!' x ':=' m 'in' k" := (pbind m (fun x => k))
  (at level 10, x pattern, m at level 100, k at level 200) : prog_scope.
Notation "m ';;;' k" := (pbind m (fun _ => k)) (at level 100, k at level 200, right associativity) : prog_scope.

(** A program that may throw: the rest runs on what it returned. *)
Notation "'let?' x ':=' m 'in' k" :=
  (pbind m (fun r => match r with Ok x => k | Err e => Ret (Err e) end))
  (at level 10, x pattern, m at level 100, k at level 200) : prog_scope.

Section pool.
Context {E : Type -> Type} {S : Type}.

(** [run e s b s']: performing [e] in [s] can answer [b] and leave [s']. *)
Context (run : forall B, E B -> S -> B -> S -> Prop).
(** How the rest of the world moves, and which tasks it may start. *)
Context (env : S -> S -> Prop) (starts : S -> prog E unit -> Prop).

Definition prog_step {A : Type} (p : prog E A) (s : S) (p' : prog E A) (s' : S) : Prop :=
  match p with
  | Ret _ => False
  | Do e k => exists b, run _ e s b s' /\ p' = k b
  end.

Inductive pool_step : list (prog E unit) * S -> list (prog E unit) * S -> Prop :=
| ps_task ts1 p p' ts2 s s' : prog_step p s p' s' -> pool_step ((ts1 ++ p :: ts2)%list, s) ((ts1 ++ p' :: ts2)%list, s')
| ps_start p ts s : starts s p -> pool_step (ts, s) (p :: ts, s)
| ps_crash ts ts' s : sublist ts' ts -> pool_step (ts, s) (ts', s)
| ps_env ts s s' : env s s' -> pool_step (ts, s) (ts, s').

(** A program running to its end on its own. *)
Inductive exec {A : Type} : prog E A -> S -> A -> S -> Prop :=
| exec_ret a s : exec (Ret a) s a s
| exec_do B (e : E B) k b s s1 a s2 : run _ e s b s1 -> exec (k b) s1 a s2 -> exec (Do e k) s a s2.

Lemma exec_bind {A B : Type} (p : prog E A) (f : A -> prog E B) s a s1 b s2 :
  exec p s a s1 -> exec (f a) s1 b s2 -> exec (pbind p f) s b s2.
Proof. intros H Hf. induction H as [a s|C e k c s s3 a s1 Hrun H IH]; [done|]. cbn [pbind]. eapply exec_do; [exact Hrun|]. by apply IH. Qed.

Lemma exec_act {A B : Type} (e : E B) (f : B -> prog E A) s b s1 a s2 :
  run _ e s b s1 -> exec (f b) s1 a s2 -> exec (pbind (act e) f) s a s2.
Proof. intros H Hf. eapply exec_do; [exact H|exact Hf]. Qed.

(** What a program run on its own ends with, whatever its effects answer. *)
Fixpoint wp {A : Type} (p : prog E A) (Q : A -> S -> Prop) (s : S) : Prop :=
  match p with
  | Ret a => Q a s
  | Do e k => forall b s1, run _ e s b s1 -> wp (k b) Q s1
  end.

Lemma wp_exec {A : Type} (p : prog E A) Q s a s1 : wp p Q s -> exec p s a s1 -> Q a s1.
Proof. intros Hw H. induction H as [a s|B e k b s s1 a s2 Hrun H IH]; [done|]. by apply IH, Hw. Qed.

Lemma wp_mono {A : Type} (p : prog E A) (Q Q' : A -> S -> Prop) s : wp p Q s -> (forall a s1, Q a s1 -> Q' a s1) -> wp p Q' s.
Proof. revert s. induction p as [a|B e k IH]; intros s H HQ; [by apply HQ|]. intros b s1 Hrun. apply IH; [by apply H|done]. Qed.

Lemma wp_bind {A B : Type} (p : prog E A) (f : A -> prog E B) Q s : wp p (fun a s1 => wp (f a) Q s1) s -> wp (pbind p f) Q s.
Proof. revert s. induction p as [a|C e k IH]; intros s H; [done|]. intros b s1 Hrun. by apply IH, H. Qed.

Lemma wp_act {A B : Type} (e : E B) (f : B -> prog E A) Q s : (forall b s1, run _ e s b s1 -> wp (f b) Q s1) -> wp (pbind (act e) f) Q s.
Proof. done. Qed.

(** Running a program by a function that answers its effects. *)
Context (answer : forall B, E B -> S -> option (B * S)).

Fixpoint play {A : Type} (p : prog E A) (s : S) : option (A * S) :=
  match p with
  | Ret a => Some (a, s)
  | Do e k => match answer _ e s with Some (b, s1) => play (k b) s1 | None => None end
  end.

Lemma play_exec (answer_ok : forall B (e : E B) s b s1, answer _ e s = Some (b, s1) -> run _ e s b s1)
    {A : Type} (p : prog E A) s a s1 : play p s = Some (a, s1) -> exec p s a s1.
Proof.
  revert s. induction p as [a'|B e k IH]; intros s; simpl; [intros [= <- <-]; apply exec_ret|].
  destruct (answer B e s) as [[b s2]|] eqn:E1; [|done]. intros H. eapply exec_do; [by apply answer_ok|by apply IH].
Qed.

(** The first [n] effects of a program. *)
Fixpoint advance {A : Type} (n : nat) (p : prog E A) (s : S) : prog E A * S :=
  match n, p with
  | Datatypes.S n, Do e k => match answer _ e s with Some (b, s1) => advance n (k b) s1 | None => (p, s) end
  | _, _ => (p, s)
  end.

Lemma advance_steps (answer_ok : forall B (e : E B) s b s1, answer _ e s = Some (b, s1) -> run _ e s b s1) n ts1 (p : prog E unit) ts2 s :
  rtc pool_step ((ts1 ++ p :: ts2)%list, s) ((ts1 ++ fst (advance n p s) :: ts2)%list, snd (advance n p s)).
Proof.
  revert p s. induction n as [|n IH]; intros p s; [reflexivity|]. destruct p as [a|B e k]; cbn [advance]; [reflexivity|].
  destruct (answer B e s) as [[b s1]|] eqn:Ea; [|reflexivity]. eapply rtc_l; [|apply IH]. apply ps_task. exists b. split; [by apply answer_ok|done].
Qed.

(** The first task of a pool can run to its end. *)
Lemma exec_steps (p : prog E unit) ts s u s' : exec p s u s' -> rtc pool_step (p :: ts, s) (Ret u :: ts, s').
Proof.
  intros H. induction H as [a s|C e k c s s1 a s2 Hrun H IH]; [reflexivity|].
  eapply rtc_l; [|exact IH]. eapply (ps_task []). exists c. done.
Qed.

(** ** The rule *)

(** [le] orders states by what is known for good, [pre] is what a task must know
    to perform an effect, [Inv] the invariant. *)
Context (le : S -> S -> Prop) `{!PreOrder le}.
Context (pre : forall B, E B -> S -> Prop) (Inv : S -> Prop).

(** From any later state the program meets the precondition of each effect it
    performs, whatever the answers, and ends knowing [Q]. *)
Fixpoint safe {A : Type} (p : prog E A) (Q : A -> S -> Prop) (s : S) : Prop :=
  match p with
  | Ret a => forall s1, le s s1 -> Q a s1
  | Do e k => forall s1, le s s1 -> Inv s1 ->
      pre _ e s1 /\ forall b s2, run _ e s1 b s2 -> Inv s2 -> le s1 s2 -> safe (k b) Q s2
  end.

Lemma safe_le {A : Type} (p : prog E A) Q s s' : safe p Q s -> le s s' -> safe p Q s'.
Proof. destruct p; simpl; intros H Hle s1 H1; apply H; by transitivity s'. Qed.

Lemma safe_ret {A : Type} (a : A) (Q : A -> S -> Prop) s : (forall s1, le s s1 -> Q a s1) -> safe (Ret a) Q s.
Proof. done. Qed.

Lemma safe_bind {A B : Type} (p : prog E A) (f : A -> prog E B) Q s :
  safe p (fun a s1 => safe (f a) Q s1) s -> safe (pbind p f) Q s.
Proof.
  revert s. induction p as [a|C e k IH]; intros s H.
  - simpl in *. apply H. reflexivity.
  - cbn [pbind safe] in *. intros s1 Hle HI. destruct (H s1 Hle HI) as [Hpre Hk]. split; [done|].
    intros b s2 Hrun HI2 Hle2. by apply IH, Hk.
Qed.

Lemma safe_conseq {A : Type} (p : prog E A) (Q Q' : A -> S -> Prop) s :
  safe p Q s -> (forall a s1, le s s1 -> Q a s1 -> Q' a s1) -> safe p Q' s.
Proof.
  revert s. induction p as [a|C e k IH]; intros s H HQ; simpl in *.
  - intros s1 Hle. by apply HQ, H.
  - intros s1 Hle HI. destruct (H s1 Hle HI) as [Hpre Hk]. split; [done|]. intros b s2 Hrun HI2 Hle2.
    apply (IH b s2); [by apply Hk|]. intros a s3 Hle3. apply HQ. transitivity s1; [done|]. by transitivity s2.
Qed.

Lemma safe_act {B : Type} (e : E B) Q s :
  (forall s1, le s s1 -> Inv s1 -> pre _ e s1 /\
     forall b s2, run _ e s1 b s2 -> Inv s2 -> le s1 s2 -> forall s3, le s2 s3 -> Q b s3) ->
  safe (act e) Q s.
Proof. done. Qed.

(** Each permitted effect and each move of the world keeps the invariant and what
    is known; what is started is safe. *)
Context (run_ok : forall B (e : E B) s b s', Inv s -> pre _ e s -> run _ e s b s' -> Inv s' /\ le s s').
Context (env_ok : forall s s', Inv s -> env s s' -> Inv s' /\ le s s').
Context (starts_ok : forall s p, Inv s -> starts s p -> safe p (fun _ _ => True) s).

Lemma task_step_ok (p p' : prog E unit) s s' :
  Inv s -> safe p (fun _ _ => True) s -> prog_step p s p' s' -> Inv s' /\ le s s' /\ safe p' (fun _ _ => True) s'.
Proof.
  intros HI Hs. destruct p as [a|B e k]; simpl; [done|]. intros (b & Hrun & ->).
  destruct (Hs s (reflexivity s) HI) as [Hpre Hk]. destruct (run_ok B e s b s' HI Hpre Hrun) as [HI' Hle].
  split_and!; [done|done|by apply Hk].
Qed.

Lemma prog_pool_ok c c' :
  pool_step c c' -> Inv (snd c) /\ Forall (fun p => safe p (fun _ _ => True) (snd c)) (fst c) ->
  Inv (snd c') /\ Forall (fun p => safe p (fun _ _ => True) (snd c')) (fst c').
Proof.
  intros Hst [HI HF]. destruct Hst as [ts1 p p' ts2 s s' Hp|p ts s Hp|ts ts' s Hp|ts s s' Hp]; simpl in *.
  - apply Forall_app in HF as [H1 [H2 H3]%Forall_cons]. destruct (task_step_ok p p' s s' HI H2 Hp) as (HI' & Hle & Hp').
    split; [done|]. apply Forall_app. assert (forall l : list (prog E unit), Forall (fun q => safe q (fun _ _ => True) s) l -> Forall (fun q => safe q (fun _ _ => True) s') l) as Hmono.
    { intros l Hl. eapply Forall_impl; [exact Hl|]. intros q Hq. exact (safe_le q _ s s' Hq Hle). }
    split; [by apply Hmono|]. constructor; [done|by apply Hmono].
  - split; [done|]. constructor; [by apply starts_ok|done].
  - split; [done|]. apply Forall_forall. intros x Hx. rewrite Forall_forall in HF. apply HF. by eapply elem_of_sublist.
  - destruct (env_ok s s' HI Hp) as [HI' Hle]. split; [done|].
    eapply Forall_impl; [exact HF|]. intros q Hq. exact (safe_le q _ s s' Hq Hle).
Qed.

Lemma pool_step_le c c' :
  pool_step c c' -> Inv (snd c) /\ Forall (fun p => safe p (fun _ _ => True) (snd c)) (fst c) -> le (snd c) (snd c').
Proof.
  intros Hst [HI HF]. destruct Hst as [ts1 p p' ts2 s s' Hp|p ts s Hp|ts ts' s Hp|ts s s' Hp]; simpl in *; try reflexivity.
  - apply Forall_app in HF as [_ [H2 _]%Forall_cons]. by destruct (task_step_ok p p' s s' HI H2 Hp) as (_ & Hle & _).
  - by destruct (env_ok s s' HI Hp).
Qed.

(** What is known at one state a pool reaches is known at every later one. *)
Lemma pool_knows s c c' : Inv s -> rtc pool_step ([], s) c -> rtc pool_step c c' -> le (snd c) (snd c').
Proof.
  intros HI Hr. assert (Inv (snd c) /\ Forall (fun p => safe p (fun _ _ => True) (snd c)) (fst c)) as Hc.
  { refine (rtc_invariant pool_step (fun c => Inv (snd c) /\ Forall (fun p => safe p (fun _ _ => True) (snd c)) (fst c)) _ _ _ Hr _);
      [exact prog_pool_ok|split; [done|constructor]]. }
  clear Hr. intros Hr. induction Hr as [c|c1 c2 c3 Hst Hr IH]; [reflexivity|].
  transitivity (snd c2); [by apply pool_step_le|]. by apply IH, (prog_pool_ok c1).
Qed.

(** The invariant holds at every state a pool reaches. *)
Lemma pool_invariant s c :
  Inv s -> rtc pool_step ([], s) c -> Inv (snd c).
Proof.
  intros HI Hr. refine (proj1 (rtc_invariant pool_step
    (fun c => Inv (snd c) /\ Forall (fun p => safe p (fun _ _ => True) (snd c)) (fst c)) _ _ _ Hr _)).
  - exact prog_pool_ok.
  - split; [done|constructor].
Qed.
End pool.
