(* ===== verification/Webhooks.v ===== *)
(** * Webhook delivery: data, statements and tasks

    [src/src/modules/webhook/]: the outbox ([webhook-outbox.service.ts]), the
    delivery engine ([webhook-delivery.service.ts]), the failure record
    ([utils/record-delivery-failure.ts]), one delivery ([utils/deliver-once.ts]),
    the reconciler and the operator redrive, with the queue worker
    ([modules/queue/processors/webhook.processor.ts]).  Every SQL statement, queue
    call, POST, hook and wait is an effect; the code between is a program over
    them, so that all of it interleaves as the server's tasks do. *)
From stdpp Require Import pretty.
From S2P Require Import Prelude JsString Json Prog.
Local Open Scope string_scope.
Local Open Scope Z_scope.

(** ** Subscriptions, headers and payloads *)

(** A delivery is named by its webhook and its idempotency key. *)
Abbreviation DKey := (string * string)%type.

(** [events] is [None] when the column does not hold an array. *)
Record Webhook := mkWebhook {
  wh_sessionId : string;
  wh_url : string;
  wh_events : option (list string);
  wh_secret : option string;
  wh_headers : list (string * string);
  wh_active : bool;
  wh_retryCount : Z
}.

Definition WILDCARD_EXCLUDED_EVENTS : list string := ["message.receipt"].

Definition subscriptionCoversEvent (events : list string) (event : string) : bool :=
  existsb (String.eqb event) events ||
  existsb (String.eqb "*") events && negb (existsb (String.eqb event) WILDCARD_EXCLUDED_EVENTS).

Definition isDeliverableWebhook (row : option Webhook) (event : string) (sessionId : option string) : bool :=
  match row with
  | None => false
  | Some w =>
      match sessionId with None => true | Some sid => String.eqb (wh_sessionId w) sid end &&
      wh_active w &&
      match wh_events w with Some events => subscriptionCoversEvent events event | None => false end
  end.

(** [/^(content-type|x-openwa-)/i] and the names the HTTP client owns. *)
Definition reserved_header (name : string) : bool :=
  let n := toLowerCase name in
  startsWith n "content-type" || startsWith n "x-openwa-" ||
  existsb (String.eqb n)
    ["user-agent"; "connection"; "content-length"; "expect"; "keep-alive"; "te"; "trailer"; "transfer-encoding"; "upgrade"].

Definition sanitizeCustomHeaders (custom : list (string * string)) : list (string * string) :=
  fold_left (fun safe e => if reserved_header (fst e) then safe else JMap.set (fst e) (snd e) safe) custom [].

Section signing.
Context (hmac : string -> string -> string).

Definition generateSignature (payload secret : string) : string := "sha256=" +:+ hmac secret payload.

Definition buildDeliveryHeaders (w : Webhook) (event idempotencyKey deliveryId body : string) (retryCount : Z) :
    list (string * string) :=
  let h := sanitizeCustomHeaders (wh_headers w) in
  let h := JMap.set "Content-Type" "application/json" h in
  let h := JMap.set "User-Agent" "OpenWA-Webhook/1.0.0" h in
  let h := JMap.set "X-OpenWA-Event" event h in
  let h := JMap.set "X-OpenWA-Idempotency-Key" idempotencyKey h in
  let h := JMap.set "X-OpenWA-Delivery-Id" deliveryId h in
  let h := JMap.set "X-OpenWA-Retry-Count" (pretty retryCount) h in
  match truthy (wh_secret w) with
  | Some secret => JMap.set "X-OpenWA-Signature" (generateSignature body secret) h
  | None => h
  end.
End signing.

(** [shedInlineMedia] *)
Definition shedInlineMedia (data : json) (maxBytes : Z) : json :=
  match data with
  | JObj fs =>
      match field data "media" with
      | Some (JObj media) =>
          match JMap.get "data" media with
          | Some (JStr blob) =>
              let sizeBytes := base64_length blob in
              if (String.length blob =? 0)%nat || (sizeBytes <=? maxBytes) then data
              else JObj (JMap.set "media"
                (JObj (match JMap.get "mimetype" media with Some m => [("mimetype", m)] | None => [] end ++
                       match JMap.get "filename" media with Some (JStr f) => [("filename", JStr f)] | _ => [] end ++
                       [("omitted", JBool true); ("sizeBytes", JNum sizeBytes)])%list) fs)
          | _ => data
          end
      | _ => data
      end
  | _ => data
  end.

(** The body of a delivery before the hooks. *)
Definition webhook_payload (event timestamp sessionId idempotencyKey deliveryId : string) (data : json) : json :=
  JObj [("event", JStr event); ("timestamp", JStr timestamp); ("sessionId", JStr sessionId);
        ("idempotencyKey", JStr idempotencyKey); ("deliveryId", JStr deliveryId); ("data", data)].

(** Every identity field written again over what the hooks returned. *)
Definition assert_identity (event timestamp sessionId idempotencyKey deliveryId : string)
    (fs : list (string * json)) : list (string * json) :=
  let fs := JMap.set "event" (JStr event) fs in
  let fs := JMap.set "sessionId" (JStr sessionId) fs in
  let fs := JMap.set "timestamp" (JStr timestamp) fs in
  let fs := JMap.set "idempotencyKey" (JStr idempotencyKey) fs in
  JMap.set "deliveryId" (JStr deliveryId) fs.

(** The payload the hooks leave: theirs when it is an object, the original else. *)
Definition hook_payload (payload : json) (hookResult : json) : json :=
  match field hookResult "payload" with
  | None | Some JNull => payload
  | Some (JObj fs) => JObj fs
  | Some _ => payload
  end.

(** Over the cap, any inline media left is shed. *)
Definition fit_payload (maxPayloadBytes : Z) (fs : list (string * json)) : list (string * json) :=
  if maxPayloadBytes <? utf8_length (json_text (JObj fs)) then
    match JMap.get "data" fs with
    | Some data => JMap.set "data" (shedInlineMedia data 0) fs
    | None => fs
    end
  else fs.

(** [/^HTTP (\d{3})\b/] *)
Definition statusCodeFromError (message : string) : option Z :=
  if startsWith message "HTTP " then
    match drop_chars 5 message with
    | String a (String b (String c rest)) =>
        if is_digit a && is_digit b && is_digit c &&
           match rest with String d _ => negb (is_word d) | EmptyString => true end
        then Some (100 * (Z.of_N (code a) - 48) + 10 * (Z.of_N (code b) - 48) + (Z.of_N (code c) - 48))
        else None
    | _ => None
    end
  else None.

(** ** The tables *)

(** [None] is an unwatched legacy row. *)
Inductive WebhookOutboxState := Pending | Queued | Dispatched | FailedState.
#[export] Instance WebhookOutboxState_eq_dec : EqDecision WebhookOutboxState.
Proof. solve_decision. Defined.

Record OutboxRow := mkOutbox {
  o_id : nat;
  o_sessionId : string;
  o_event : string;
  o_deliveryId : string;
  o_payload : option json;
  o_state : option WebhookOutboxState;
  o_attempts : Z;
  o_createdAt : Z
}.

Record FailureRow := mkFailure {
  f_id : nat;
  f_key : DKey;
  f_sessionId : string;
  f_event : string;
  f_url : string;
  f_deliveryId : option string;
  f_attempts : Z;
  f_lastStatusCode : option Z;
  f_lastError : string;
  f_payload : option json;
  f_createdAt : Z
}.

(** What a caller records; [in_retention] is the payload's window in hours. *)
Record FailureInput := mkInput {
  in_key : DKey;
  in_sessionId : string;
  in_event : string;
  in_url : string;
  in_deliveryId : option string;
  in_attempts : Z;
  in_lastStatusCode : option Z;
  in_lastError : string;
  in_payload : option json;
  in_retention : Z
}.

(** A queued job; the queue library moves its state and counts its attempts. *)
Inductive JobState := JWaiting | JActive | JDelayed | JCompleted | JFailed | JUnknown.
#[export] Instance JobState_eq_dec : EqDecision JobState.
Proof. solve_decision. Defined.

Record Job := mkJob {
  j_key : DKey;
  j_event : string;
  j_sessionId : string;
  j_url : string;
  j_deliveryId : string;
  j_body : json;
  j_maxRetries : Z;
  j_replayData : option json;
  j_attemptsMade : Z;
  j_attemptsStarted : Z;
  j_state : JobState
}.

(** A request that left the process. *)
Record Posted := mkPosted { p_key : DKey; p_url : string; p_headers : list (string * string); p_body : json }.

(** The shared world.  [minted] records which delivery a delivery id was drawn
    for; [opened], [delivered], [cancelled] and [undeliverable] record what has
    happened to a delivery, and [posts] every request sent. *)
Record World := mkWorld {
  webhooks : gmap string Webhook;
  outbox : gmap DKey OutboxRow;
  failures : list FailureRow;
  jobs : gmap string Job;
  clock : Z;
  nextId : nat;
  minted : gmap string DKey;
  opened : gset DKey;
  delivered : gset DKey;
  cancelled : gset DKey;
  undeliverable : gset DKey;
  posts : list Posted
}.

(** ** Statements *)

Definition watched (st : option WebhookOutboxState) : bool :=
  match st with Some Pending | Some Queued => true | _ => false end.

Definition with_outbox (s : World) (o : gmap DKey OutboxRow) : World :=
  mkWorld (webhooks s) o (failures s) (jobs s) (clock s) (S (nextId s)) (minted s) (opened s) (delivered s) (cancelled s) (undeliverable s) (posts s).
Definition with_failures (s : World) (f : list FailureRow) : World :=
  mkWorld (webhooks s) (outbox s) f (jobs s) (clock s) (S (nextId s)) (minted s) (opened s) (delivered s) (cancelled s) (undeliverable s) (posts s).
Definition with_jobs (s : World) (j : gmap string Job) : World :=
  mkWorld (webhooks s) (outbox s) (failures s) j (clock s) (nextId s) (minted s) (opened s) (delivered s) (cancelled s) (undeliverable s) (posts s).
Definition with_minted (s : World) (m : gmap string DKey) : World :=
  mkWorld (webhooks s) (outbox s) (failures s) (jobs s) (clock s) (nextId s) m (opened s) (delivered s) (cancelled s) (undeliverable s) (posts s).
Definition note_opened (k : DKey) (s : World) : World :=
  mkWorld (webhooks s) (outbox s) (failures s) (jobs s) (clock s) (nextId s) (minted s) ({[k]} ∪ opened s) (delivered s) (cancelled s) (undeliverable s) (posts s).
Definition note_delivered (k : DKey) (s : World) : World :=
  mkWorld (webhooks s) (outbox s) (failures s) (jobs s) (clock s) (nextId s) (minted s) (opened s) ({[k]} ∪ delivered s) (cancelled s) (undeliverable s) (posts s).
Definition note_cancelled (k : DKey) (s : World) : World :=
  mkWorld (webhooks s) (outbox s) (failures s) (jobs s) (clock s) (nextId s) (minted s) (opened s) (delivered s) ({[k]} ∪ cancelled s) (undeliverable s) (posts s).
Definition note_undeliverable (k : DKey) (s : World) : World :=
  mkWorld (webhooks s) (outbox s) (failures s) (jobs s) (clock s) (nextId s) (minted s) (opened s) (delivered s) (cancelled s) ({[k]} ∪ undeliverable s) (posts s).
Definition note_post (p : Posted) (s : World) : World :=
  mkWorld (webhooks s) (outbox s) (failures s) (jobs s) (clock s) (nextId s) (minted s) (opened s) (delivered s) (cancelled s) (undeliverable s) (p :: posts s).

(** The INSERT of [open]. *)
Definition insert_outbox (k : DKey) (sessionId event deliveryId : string) (payload : json) (s : World) : World :=
  with_outbox (note_opened k s)
    (<[k := mkOutbox (nextId s) sessionId event deliveryId (Some payload) (Some Pending) 0 (clock s)]> (outbox s)).

(** The UPDATE of [close], of [markQueued] and of [countAttempt], the DELETE of
    [pruneSettled]. *)
Definition close_row (st : WebhookOutboxState) (r : OutboxRow) : OutboxRow :=
  mkOutbox (o_id r) (o_sessionId r) (o_event r) (o_deliveryId r) None (Some st) (o_attempts r) (o_createdAt r).

Definition queue_row (d : string) (r : OutboxRow) : OutboxRow :=
  match o_payload r with
  | Some p => if watched (o_state r) then mkOutbox (o_id r) (o_sessionId r) (o_event r) d (Some p) (Some Queued) (o_attempts r) (o_createdAt r) else r
  | None => r
  end.

Definition count_row (id : nat) (attempts : Z) (r : OutboxRow) : OutboxRow :=
  if (o_id r =? id)%nat && watched (o_state r)
  then mkOutbox (o_id r) (o_sessionId r) (o_event r) (o_deliveryId r) (o_payload r) (o_state r) (attempts + 1) (o_createdAt r) else r.

Definition counted_row (id : nat) (r : OutboxRow) : bool := (o_id r =? id)%nat && watched (o_state r).

(** [state NOT IN (...)]: a null state is not selected. *)
Definition prunable (cutoff : Z) (r : OutboxRow) : bool :=
  match o_state r with Some st => negb (watched (Some st)) && (o_createdAt r <? cutoff) | None => false end.

(** The stranded rows of [findStale], in order, past the cursor's row. *)
Definition older (a b : DKey * OutboxRow) : Prop :=
  o_createdAt (snd a) < o_createdAt (snd b) \/ (o_createdAt (snd a) = o_createdAt (snd b) /\ (o_id (snd a) <= o_id (snd b))%nat).
#[export] Instance older_dec : RelDecision older.
Proof. intros a b. unfold older. apply _. Defined.

Definition stranded (olderThan : Z) (r : OutboxRow) : bool :=
  watched (o_state r) && bool_decide (is_Some (o_payload r)) && (o_createdAt r <? olderThan).

Definition past_cursor (afterId : option nat) (s : World) (e : DKey * OutboxRow) : bool :=
  match afterId with
  | None => true
  | Some id =>
      existsb (fun c => (o_id (snd c) =? id)%nat &&
        ((o_createdAt (snd c) <? o_createdAt (snd e)) ||
         ((o_createdAt (snd c) =? o_createdAt (snd e)) && (id <? o_id (snd e))%nat))) (map_to_list (outbox s))
  end.

Definition stale_page (olderThan : Z) (limit : nat) (afterId : option nat) (s : World) : list (DKey * OutboxRow) :=
  take limit (merge_sort older
    (List.filter (fun e => stranded olderThan (snd e) && past_cursor afterId s e) (map_to_list (outbox s)))).

(** Failure rows: of a delivery, and among them the terminal ones. *)
Definition row_of (k : DKey) (f : FailureRow) : bool := bool_decide (f_key f = k).
Definition terminal_of (k : DKey) (f : FailureRow) : bool := row_of k f && (0 <? f_attempts f).
Definition unsent_of (k : DKey) (f : FailureRow) : bool := row_of k f && (f_attempts f =? 0).

Definition failure_row (i : FailureInput) (s : World) : FailureRow :=
  mkFailure (nextId s) (in_key i) (in_sessionId i) (in_event i) (in_url i) (in_deliveryId i) (in_attempts i)
    (in_lastStatusCode i) (in_lastError i) (if 0 <? in_attempts i then in_payload i else None) (clock s).

Definition refresh_terminal_row (i : FailureInput) (f : FailureRow) : FailureRow :=
  if terminal_of (in_key i) f
  then mkFailure (f_id f) (f_key f) (f_sessionId f) (f_event f) (in_url i) (in_deliveryId i) (f_attempts f + in_attempts i)
         (in_lastStatusCode i) (in_lastError i) (f_payload f) (f_createdAt f)
  else f.

Definition keep_payload_row (k : DKey) (hours now : Z) (payload : json) (f : FailureRow) : FailureRow :=
  if terminal_of k f && bool_decide (f_payload f = None) && (now - hours * 3600000 <? f_createdAt f)
  then mkFailure (f_id f) (f_key f) (f_sessionId f) (f_event f) (f_url f) (f_deliveryId f) (f_attempts f)
         (f_lastStatusCode f) (f_lastError f) (Some payload) (f_createdAt f)
  else f.

Definition refresh_unsent_row (i : FailureInput) (f : FailureRow) : FailureRow :=
  if unsent_of (in_key i) f
  then mkFailure (f_id f) (f_key f) (f_sessionId f) (f_event f) (in_url i)
         (match truthy (in_deliveryId i) with Some d => Some d | None => f_deliveryId f end) (f_attempts f)
         (f_lastStatusCode f) (in_lastError i) (f_payload f) (f_createdAt f)
  else f.

Definition bump_row (id : nat) (f : FailureRow) : FailureRow :=
  if (f_id f =? id)%nat
  then mkFailure (f_id f) (f_key f) (f_sessionId f) (f_event f) (f_url f) (f_deliveryId f) (f_attempts f + 1)
         (f_lastStatusCode f) (f_lastError f) (f_payload f) (f_createdAt f)
  else f.

(** ** Effects *)

Inductive InsertResult := Inserted | UniqueViolation | Faulted.
(** What the [webhook:before] chain did. *)
Inductive BeforeResult := BeforeThrew | BeforeCancelled | BeforeReturned (hookResult : json).
(** How a retry backoff ended. *)
Inductive BackoffResult := Slept | LimiterClosed | BackoffAborted.
(** What the dispatch limiter and the degraded-session gate decided. *)
Inductive Admission := Shed | ShutDown | Granted (gated : bool).

Inductive eff : Type -> Type :=
| LoadWebhook (k : DKey) (event : string) (sessionId : option string) : eff (result unit (option Webhook))
| TouchWebhook (id : string) : eff bool
| InsertOutbox (k : DKey) (sessionId event deliveryId : string) (payload : json) : eff InsertResult
| CloseOutbox (k : DKey) (st : WebhookOutboxState) : eff bool
| QueueOutbox (k : DKey) (deliveryId : string) : eff bool
| StalePage (olderThan : Z) (limit : nat) (afterId : option nat) : eff (result unit (list (DKey * OutboxRow)))
| StaleIds (olderThan : Z) (limit : nat) (afterId : option nat) : eff (result unit (list nat))
| OutboxById (id : nat) : eff (result unit (option (DKey * OutboxRow)))
| CountAttempt (k : DKey) (id : nat) (attempts : Z) : eff (result unit bool)
| PruneOutbox (cutoff : Z) : eff bool
| CountFailures (k : DKey) (terminalOnly : bool) : eff (result unit Z)
| RefreshTerminal (i : FailureInput) : eff (result unit bool)
| KeepPayload (k : DKey) (hours : Z) (payload : json) : eff bool
| RefreshUnsent (i : FailureInput) : eff bool
| InsertFailure (i : FailureInput) : eff InsertResult
| ClearFailures (k : DKey) (onlyUnattempted : bool) : eff bool
| FindUnsent (k : DKey) : eff (result unit (option string))
| ReadFailure (id : nat) : eff (result unit (option FailureRow))
| BumpAttempts (id : nat) : eff bool
| AddJob (deliveryId : string) (job : Job) : eff bool
| GetJobState (deliveryId : string) : eff (result unit (option JobState))
| CompleteJob (deliveryId : string) (k : DKey) : eff unit
| MintDelivery (k : DKey) : eff string
| Timestamp : eff string
| HookBefore (k : DKey) (payload : json) : eff BeforeResult
| Hook (name : string) : eff unit
| Post (p : Posted) : eff (result string unit)
| Backoff (ms : Z) : eff BackoffResult
| Admit (k : DKey) : eff Admission
| DegradedSlot (webhookId sessionId : string) : eff bool
| SignalAborted : eff bool
| LocallyPending (idempotencyKey : string) : eff bool
| Halt : eff Empty_set.

(** An effect that changes nothing and may fail. *)
Definition reads {A : Type} (v : A) (s : World) (r : result unit A) (s' : World) : Prop :=
  s' = s /\ (r = Err tt \/ r = Ok v).
(** A statement that fails and changes nothing, or does its work. *)
Definition writes (t : World) (s : World) (ok : bool) (s' : World) : Prop :=
  (ok = false /\ s' = s) \/ s' = t.

Definition run (B : Type) (e : eff B) (s : World) : B -> World -> Prop :=
  match e in eff B return B -> World -> Prop with
  | LoadWebhook k event sid => fun r s' =>
      (r = Err tt /\ s' = s) \/
      (r = Ok (webhooks s !! fst k) /\
       s' = if isDeliverableWebhook (webhooks s !! fst k) event sid then s else note_undeliverable k s)
  | TouchWebhook _ => fun _ s' => s' = s
  | InsertOutbox k sid ev d payload => fun r s' =>
      match outbox s !! k with
      | Some _ => (r = UniqueViolation \/ r = Faulted) /\ s' = s
      | None => (r = Faulted /\ s' = s) \/ ((r = Faulted \/ r = Inserted) /\ s' = insert_outbox k sid ev d payload s)
      end
  | CloseOutbox k st => writes (with_outbox s (alter (close_row st) k (outbox s))) s
  | QueueOutbox k d => writes (with_outbox s (alter (queue_row d) k (outbox s))) s
  | StalePage t limit after => reads (stale_page t limit after s) s
  | StaleIds t limit after => reads (map (fun e => o_id (snd e)) (stale_page t limit after s)) s
  | OutboxById id => reads (List.find (fun e => (o_id (snd e) =? id)%nat) (map_to_list (outbox s))) s
  | CountAttempt k id attempts => fun r s' =>
      (r = Err tt /\ s' = s) \/
      ((r = Err tt \/ r = Ok (match outbox s !! k with Some row => counted_row id row | None => false end)) /\
       s' = with_outbox s (alter (count_row id attempts) k (outbox s)))
  | PruneOutbox cutoff => writes (with_outbox s (filter (fun e => prunable cutoff (snd e) = false) (outbox s))) s
  | CountFailures k terminalOnly =>
      reads (Z.of_nat (length (List.filter (if terminalOnly then terminal_of k else row_of k) (failures s)))) s
  | RefreshTerminal i => fun r s' =>
      (r = Err tt /\ s' = s) \/
      ((r = Err tt \/ r = Ok (existsb (terminal_of (in_key i)) (failures s))) /\
       s' = with_failures s (map (refresh_terminal_row i) (failures s)))
  | KeepPayload k hours payload => writes (with_failures s (map (keep_payload_row k hours (clock s) payload) (failures s))) s
  | RefreshUnsent i => writes (with_failures s (map (refresh_unsent_row i) (failures s))) s
  | InsertFailure i => fun r s' =>
      (r = Faulted /\ s' = s) \/
      (r = UniqueViolation /\ s' = s /\ 0 < in_attempts i /\ existsb (terminal_of (in_key i)) (failures s) = true) \/
      ((r = Faulted \/ r = Inserted) /\ (0 <? in_attempts i) && existsb (terminal_of (in_key i)) (failures s) = false /\
       s' = with_failures s (failures s ++ [failure_row i s])%list)
  | ClearFailures k onlyUnattempted =>
      writes (with_failures s (List.filter (fun f => negb (if onlyUnattempted then unsent_of k f else row_of k f)) (failures s))) s
  | FindUnsent k => reads (f_lastError <$> List.find (unsent_of k) (failures s)) s
  | ReadFailure id => reads (List.find (fun f => (f_id f =? id)%nat) (failures s)) s
  | BumpAttempts id => writes (with_failures s (map (bump_row id) (failures s))) s
  | AddJob d job => writes (with_jobs s (match jobs s !! d with Some _ => jobs s | None => <[d := job]> (jobs s) end)) s
  | GetJobState d => reads (j_state <$> jobs s !! d) s
  | CompleteJob d k => fun _ s' =>
      s' = with_jobs s (alter (fun j => mkJob (j_key j) (j_event j) (j_sessionId j) (j_url j) (j_deliveryId j) (j_body j)
        (j_maxRetries j) (j_replayData j) (j_attemptsMade j) (j_attemptsStarted j) JCompleted) d (jobs s))
  | MintDelivery k => fun d s' => minted s !! d = None /\ s' = with_minted s (<[d := k]> (minted s))
  | Timestamp => fun _ s' => s' = s
  | HookBefore k _ => fun r s' => s' = match r with BeforeCancelled => note_cancelled k s | _ => s end
  | Hook _ => fun _ s' => s' = s
  | Post p => fun r s' => s' = match r with Ok _ => note_delivered (p_key p) (note_post p s) | Err _ => note_post p s end
  | Backoff _ => fun _ s' => s' = s
  | Admit _ => fun _ s' => s' = s
  | DegradedSlot _ _ => fun _ s' => s' = s
  | SignalAborted => fun _ s' => s' = s
  | LocallyPending _ => fun _ s' => s' = s
  | Halt => fun _ _ => False
  end.

(** ** The outbox service *)

Local Open Scope prog_scope.
Abbreviation task := (prog eff).

Definition open (k : DKey) (sessionId event deliveryId : string) (payload : json) : task unit :=
  let! _ := act (InsertOutbox k sessionId event deliveryId payload) in Ret tt.

Definition close (k : DKey) (st : WebhookOutboxState) : task unit := let! _ := act (CloseOutbox k st) in Ret tt.

Definition markQueued (k : DKey) (deliveryId : string) : task unit := let! _ := act (QueueOutbox k deliveryId) in Ret tt.

(** The page read row by row: an unreadable or vanished row is passed over. *)
Fixpoint read_rows (ids : list nat) : task (list (DKey * OutboxRow)) :=
  match ids with
  | [] => Ret []
  | id :: rest =>
      let! row := act (OutboxById id) in
      let! rows := read_rows rest in
      Ret (match row with Ok (Some r) => r :: rows | _ => rows end)
  end.

(** The rows with a payload, and the last id the page covered when it was read
    row by row; [Err] is a read that failed outright. *)
Definition findStale (olderThan : Z) (limit : nat) (afterId : option nat) :
    task (result unit (list (DKey * OutboxRow) * option nat)) :=
  let readable := List.filter (fun e : DKey * OutboxRow => bool_decide (is_Some (o_payload (snd e)))) in
  let! page := act (StalePage olderThan limit afterId) in
  match page with
  | Ok rows => Ret (Ok (readable rows, None))
  | Err _ =>
      let! ids := act (StaleIds olderThan limit afterId) in
      match ids with
      | Err _ => Ret (Err tt)
      | Ok ids => let! rows := read_rows ids in Ret (Ok (readable rows, last ids))
      end
  end.

Definition countAttempt (k : DKey) (id : nat) (attempts : Z) : task bool :=
  let! r := act (CountAttempt k id attempts) in
  Ret (match r with Ok affected => affected | Err _ => true end).

Definition pruneSettled (cutoff : Z) : task unit := let! _ := act (PruneOutbox cutoff) in Ret tt.

(** ** The failure record *)

Definition clearDeliveryFailureRows (k : DKey) (onlyUnattempted : bool) : task unit :=
  let! _ := act (ClearFailures k onlyUnattempted) in Ret tt.

Definition refreshTerminal (i : FailureInput) : task (option bool) :=
  let! updated := act (RefreshTerminal i) in
  match updated with
  | Ok true =>
      let! kept := match in_payload i with
                   | Some p => if in_retention i =? 0 then Ret true else act (KeepPayload (in_key i) (in_retention i) p)
                   | None => Ret true
                   end in
      if negb kept then Ret None
      else let! _ := clearDeliveryFailureRows (in_key i) true in Ret (Some false)
  | _ => Ret None
  end.

(** True for a new row, false for an existing one, [None] when nothing durable was
    written. *)
Definition recordWebhookDeliveryFailure (i : FailureInput) : task (option bool) :=
  let terminal := 0 <? in_attempts i in
  let! existing := act (CountFailures (in_key i) terminal) in
  match existing with
  | Err _ => Ret None
  | Ok n =>
      if 0 <? n then
        if terminal then refreshTerminal i
        else let! _ := act (RefreshUnsent i) in Ret (Some false)
      else
        let! r := act (InsertFailure i) in
        match r with
        | Inserted =>
            let! _ := if terminal then clearDeliveryFailureRows (in_key i) true else Ret tt in
            Ret (Some true)
        | UniqueViolation => if terminal then refreshTerminal i else Ret None
        | Faulted => Ret None
        end
  end.

(** ** The delivery engine *)

Record Config := mkConfig {
  queueEnabled : bool;
  retryDelay : Z;
  retentionHours : Z;
  maxPayloadBytes : Z;
  maxAttempts : Z;
  graceMs : Z;
  batchSize : nat
}.

(** [DispatchEventContext]; [c_signal] tells whether an abort signal came with it. *)
Record Ctx := mkCtx {
  c_sessionId : string;
  c_event : string;
  c_baseData : json;
  c_singleAttempt : bool;
  c_oneDirectAttempt : bool;
  c_signal : bool
}.

Inductive WebhookDeliveryOutcome := Delivered | Enqueued | Cancelled | DeliveryFailed | Unrecorded.
(** What escapes a delivery as an exception. *)
Inductive Exn := EClosed | EAborted | EUnrecorded | EFailed (message : string).

Section delivery.
Context (hmac : string -> string -> string) (redactSsrfError : string -> string) (cfg : Config).

Definition keepsFailurePayload : bool := 0 <? retentionHours cfg.

(** [signal?.throwIfAborted()] *)
Definition aborted (ctx : Ctx) : task bool := if c_signal ctx then act SignalAborted else Ret false.

Definition recordUndelivered (w : Webhook) (k : DKey) (deliveryId error : string) (ctx : Ctx) : task bool :=
  let! recorded := recordWebhookDeliveryFailure
    (mkInput k (c_sessionId ctx) (c_event ctx) (wh_url w) (Some deliveryId) 0 None (redactSsrfError error) None 0) in
  let! _ := act (Hook "webhook:error") in
  Ret (match recorded with Some _ => true | None => false end).

Inductive Preflight := PCancelled | PUnrecorded | PRefused | PReady (payload : json).

Definition preflightDelivery (w : Webhook) (k : DKey) (deliveryId : string) (ctx : Ctx) : task Preflight :=
  let! timestamp := act Timestamp in
  let payload := webhook_payload (c_event ctx) timestamp (c_sessionId ctx) (snd k) deliveryId (c_baseData ctx) in
  let refused := fun error =>
    let! recorded := recordUndelivered w k deliveryId error ctx in
    Ret (if recorded then PRefused else PUnrecorded) in
  let! before := act (HookBefore k payload) in
  match before with
  | BeforeThrew => refused "preflight failed"
  | BeforeCancelled => Ret PCancelled
  | BeforeReturned hookResult =>
      match hook_payload payload hookResult with
      | JObj fs =>
          let fs := assert_identity (c_event ctx) timestamp (c_sessionId ctx) (snd k) deliveryId fs in
          let fs := fit_payload (maxPayloadBytes cfg) fs in
          if maxPayloadBytes cfg <? utf8_length (json_text (JObj fs)) then refused "payload over the cap"
          else Ret (PReady (JObj fs))
      | _ => refused "preflight failed"
      end
  end.

(** The event data a terminal row keeps, and for how long. *)
Definition replay_data (ctx : Ctx) : option json := if keepsFailurePayload then Some (c_baseData ctx) else None.

(** The [catch] of [deliverWebhook]: [retry] is the next turn of the loop. *)
Definition attempt_failed (retry : Webhook -> task (result Exn bool)) (attempt : Z) (k : DKey) (deliveryId : string)
    (ctx : Ctx) (current : Webhook) (message : string) : task (result Exn bool) :=
  let single := c_singleAttempt ctx || c_oneDirectAttempt ctx in
  if attempt <? (if single then 1 else wh_retryCount current) then
    let! woke := act (Backoff (retryDelay cfg * 2 ^ (attempt - 1))) in
    match woke with
    | Slept => retry current
    | LimiterClosed => Ret (Err EClosed)
    | BackoffAborted => Ret (Err EAborted)
    end
  else
    let! recorded := recordWebhookDeliveryFailure
      (mkInput k (c_sessionId ctx) (c_event ctx) (wh_url current) (Some deliveryId) attempt
         (statusCodeFromError (redactSsrfError message)) (redactSsrfError message) (replay_data ctx) (retentionHours cfg)) in
    Ret (Err (match recorded with None => EUnrecorded | Some _ => EFailed message end)).

(** One POST and what follows its answer. *)
Definition post_once (failed : Webhook -> string -> task (result Exn bool)) (attempt : Z) (k : DKey) (deliveryId : string)
    (body : json) (ctx : Ctx) (current : Webhook) (stop : bool) : task (result Exn bool) :=
  if stop then Ret (Err EAborted)
  else
    let! answer := act (Post (mkPosted k (wh_url current)
      (buildDeliveryHeaders hmac current (c_event ctx) (snd k) deliveryId (json_text body) (attempt - 1)) body)) in
    match answer with
    | Ok _ =>
        let! _ := act (TouchWebhook (fst k)) in
        let! _ := clearDeliveryFailureRows k false in
        Ret (Ok true)
    | Err message => failed current message
    end.

(** [deliverWebhook]: the retry loop from attempt [attempt] on.  The attempts a
    row allows are read again each time, so the loop has no bound of its own; out
    of [fuel] the task stops, as one does when its process dies. *)
Fixpoint deliverLoop (fuel : nat) (attempt : Z) (current : Webhook) (k : DKey) (deliveryId : string) (body : json) (ctx : Ctx) :
    task (result Exn bool) :=
  match fuel with
  | O => Do Halt (fun impossible : Empty_set => match impossible with end)
  | S fuel' =>
      let failed := attempt_failed (fun current => deliverLoop fuel' (attempt + 1) current k deliveryId body ctx) attempt k deliveryId ctx in
      let! row := act (LoadWebhook k (c_event ctx) (Some (c_sessionId ctx))) in
      match row with
      | Err _ => failed current "webhook read failed"
      | Ok row =>
          match row with
          | Some current =>
              if isDeliverableWebhook row (c_event ctx) (Some (c_sessionId ctx)) then
                let! stop := if 1 <? attempt then aborted ctx else Ret false in
                post_once failed attempt k deliveryId body ctx current stop
              else Ret (Ok false)
          | None => Ret (Ok false)
          end
      end
  end.

Context (fuel : nat).

Definition deliverWebhook (w : Webhook) (k : DKey) (deliveryId : string) (body : json) (ctx : Ctx) : task (result Exn bool) :=
  deliverLoop fuel 1 w k deliveryId body ctx.

(** The outcome of a direct delivery and its hooks, shared by [deliverDirect] and
    the fallback of a failed enqueue. *)
Definition conclude (r : result Exn bool) : task (result Exn WebhookDeliveryOutcome) :=
  match r with
  | Ok false => Ret (Ok Cancelled)
  | Ok true =>
      let! _ := act (Hook "webhook:delivered") in
      let! _ := act (Hook "webhook:after") in
      Ret (Ok Delivered)
  | Err EClosed => Ret (Err EClosed)
  | Err EAborted => Ret (Err EAborted)
  | Err EUnrecorded => let! _ := act (Hook "webhook:error") in Ret (Ok Unrecorded)
  | Err (EFailed _) => let! _ := act (Hook "webhook:error") in Ret (Ok DeliveryFailed)
  end.

Definition deliverDirect (w : Webhook) (k : DKey) (deliveryId : string) (body : json) (ctx : Ctx) :
    task (result Exn WebhookDeliveryOutcome) :=
  let! r := deliverWebhook w k deliveryId body ctx in conclude r.

Definition enqueueWithFallback (w : Webhook) (k : DKey) (deliveryId : string) (body : json) (ctx : Ctx) :
    task (result Exn WebhookDeliveryOutcome) :=
  let! added := act (AddJob deliveryId (mkJob k (c_event ctx) (c_sessionId ctx) (wh_url w) deliveryId body (wh_retryCount w)
    (replay_data ctx) 0 0 JWaiting)) in
  if (added : bool) then
    let! _ := markQueued k deliveryId in
    let! _ := act (Hook "webhook:queued") in
    Ret (Ok Enqueued)
  else
    let! stop := aborted ctx in
    if stop then Ret (Err EAborted)
    else
      let! _ := act (Hook "webhook:error") in
      let! r := deliverWebhook w k deliveryId body ctx in
      conclude r.

Definition deliverOne (w : Webhook) (k : DKey) (deliveryId : string) (ctx : Ctx) : task (result Exn WebhookDeliveryOutcome) :=
  let! preflight := preflightDelivery w k deliveryId ctx in
  match preflight with
  | PUnrecorded => Ret (Ok Unrecorded)
  | PCancelled => Ret (Ok Cancelled)
  | PRefused => Ret (Ok DeliveryFailed)
  | PReady body =>
      if negb (c_singleAttempt ctx) && queueEnabled cfg then enqueueWithFallback w k deliveryId body ctx
      else deliverDirect w k deliveryId body ctx
  end.

(** [runLimited]: what the limiter decides comes back as an admission. *)
Definition runLimited (w : Webhook) (k : DKey) (deliveryId : string) (ctx : Ctx) : task unit :=
  let undelivered := fun error => let! _ := recordUndelivered w k deliveryId error ctx in Ret tt in
  let deliver := fun target =>
    let! outcome := deliverOne target k deliveryId ctx in
    match outcome with
    | Ok Unrecorded | Ok Enqueued => Ret tt
    | Ok _ => close k Dispatched
    | Err EClosed => undelivered "ConcurrencyLimiter closed"
    | Err _ => Ret tt
    end in
  let! admitted := act (Admit k) in
  match admitted with
  | Shed => undelivered "ConcurrencyLimiter queue full"
  | ShutDown => undelivered "ConcurrencyLimiter closed"
  | Granted false => deliver w
  | Granted true =>
      let! read := act (LoadWebhook k (c_event ctx) None) in
      let row := match read with Ok row => row | Err _ => Some w end in
      if isDeliverableWebhook row (c_event ctx) None then deliver (default w row)
      else close k Dispatched
  end.

(** [dispatchWithLimit]; the key is salted with the webhook's id. *)
Definition dispatchWithLimit (webhookId : string) (w : Webhook) (baseIdempotencyKey : string) (ctx : Ctx) : task unit :=
  let k := (webhookId, baseIdempotencyKey +:+ "_" +:+ webhookId) in
  let! deliveryId := act (MintDelivery k) in
  let! _ := open k (c_sessionId ctx) (c_event ctx) deliveryId (c_baseData ctx) in
  runLimited w k deliveryId ctx.

Definition redeliver (w : Webhook) (k : DKey) (ctx : Ctx) : task (result Exn WebhookDeliveryOutcome) :=
  let! deliveryId := act (MintDelivery k) in
  let! outcome := deliverOne w k deliveryId ctx in
  let! _ := match outcome with Ok Delivered => close k Dispatched | _ => Ret tt end in
  Ret outcome.

Definition isQueueJobPending (deliveryId : string) : task bool :=
  if queueEnabled cfg then
    let! job := act (GetJobState deliveryId) in
    Ret (match job with
         | Err _ => true
         | Ok None => false
         | Ok (Some st) => negb (bool_decide (st = JCompleted) || bool_decide (st = JFailed) || bool_decide (st = JUnknown))
         end)
  else Ret false.

Definition hasQueueJobCompleted (deliveryId : string) : task bool :=
  if queueEnabled cfg then
    let! job := act (GetJobState deliveryId) in
    Ret (match job with Ok (Some st) => bool_decide (st = JCompleted) | _ => false end)
  else Ret false.

(** Whether a durable terminal row now owns the delivery; [Err] is a read that
    threw. *)
Definition recordReplayExhaustion (k : DKey) (row : OutboxRow) (payload : json) (url : string) : task (result unit bool) :=
  let! existing := act (CountFailures k true) in
  match existing with
  | Err _ => Ret (Err tt)
  | Ok n =>
      if 0 <? n then
        if keepsFailurePayload then let! kept := act (KeepPayload k (retentionHours cfg) payload) in Ret (Ok kept)
        else Ret (Ok true)
      else
        let! unsent := act (FindUnsent k) in
        match unsent with
        | Err _ => Ret (Err tt)
        | Ok unsent =>
            let! recorded := recordWebhookDeliveryFailure
              (mkInput k (o_sessionId row) (o_event row) url None (Z.max 1 (o_attempts row)) None
                 (match truthy unsent with
                  | Some e => "Webhook replay budget exhausted; last error: " +:+ e
                  | None => "Webhook replay budget exhausted"
                  end)
                 (if keepsFailurePayload then Some payload else None) (if keepsFailurePayload then retentionHours cfg else 0)) in
            Ret (Ok (match recorded with Some _ => true | None => false end))
        end
  end.

(** ** The reconciler *)

Record WebhookReconcileStats := mkStats { scanned : Z; replayed : Z; failed_ : Z; skipped : Z }.
Definition add_replayed (st : WebhookReconcileStats) := mkStats (scanned st) (replayed st + 1) (failed_ st) (skipped st).
Definition add_failed (st : WebhookReconcileStats) := mkStats (scanned st) (replayed st) (failed_ st + 1) (skipped st).
Definition add_skipped (st : WebhookReconcileStats) := mkStats (scanned st) (replayed st) (failed_ st) (skipped st + 1).

(** One replay: handed on, not delivered, cut short by shutdown, or thrown. *)
Inductive Replay := RReplayed | RFailed | RInterrupted | RFaulted.

Definition replayRow (w : Webhook) (k : DKey) (row : OutboxRow) (payload : json) (oneDirectAttempt : bool) : task Replay :=
  let! outcome := redeliver w k (mkCtx (o_sessionId row) (o_event row) payload false oneDirectAttempt true) in
  match outcome with
  | Ok DeliveryFailed | Ok Unrecorded => Ret RFailed
  | Ok Cancelled => let! _ := close k Dispatched in Ret RReplayed
  | Ok _ => Ret RReplayed
  | Err EAborted => Ret RInterrupted
  | Err _ => Ret RFaulted
  end.

(** The body of the sweep's loop; [Err] is a query that threw out of the sweep. *)
Fixpoint sweepRows (rows : list (DKey * OutboxRow)) (failedWebhooks : list string) (stats : WebhookReconcileStats) :
    task (result unit WebhookReconcileStats) :=
  match rows with
  | [] => Ret (Ok stats)
  | (k, row) :: rest =>
      let! stop := act SignalAborted in
      if (stop : bool) then Ret (Ok stats) else
      let! mine := act (LocallyPending (snd k)) in
      if (mine : bool) then sweepRows rest failedWebhooks (add_skipped stats) else
      let! read := act (LoadWebhook k (o_event row) (Some (o_sessionId row))) in
      match read with
      | Err _ => Ret (Err tt)
      | Ok None => let! _ := close k FailedState in sweepRows rest failedWebhooks (add_skipped stats)
      | Ok (Some w) =>
          if negb (isDeliverableWebhook (Some w) (o_event row) (Some (o_sessionId row))) then
            let! _ := close k FailedState in sweepRows rest failedWebhooks (add_skipped stats)
          else
          let named := negb (String.eqb (o_deliveryId row) "") in
          let! live := if named then isQueueJobPending (o_deliveryId row) else Ret false in
          if (live : bool) then sweepRows rest failedWebhooks (add_skipped stats) else
          let! done := if named then hasQueueJobCompleted (o_deliveryId row) else Ret false in
          if (done : bool) then let! _ := close k Dispatched in sweepRows rest failedWebhooks (add_skipped stats) else
          let payload := default JNull (o_payload row) in
          if maxAttempts cfg <=? o_attempts row then
            let! handed := recordReplayExhaustion k row payload (wh_url w) in
            match handed with
            | Err _ => Ret (Err tt)
            | Ok handed =>
                let! _ := if (handed : bool) then close k FailedState else Ret tt in
                sweepRows rest failedWebhooks (add_failed stats)
            end
          else
          let! stop := act SignalAborted in
          if (stop : bool) then Ret (Ok stats) else
          let! counted := countAttempt k (o_id row) (o_attempts row) in
          if negb counted then sweepRows rest failedWebhooks (add_skipped stats) else
          let! ok := replayRow w k row payload (existsb (String.eqb (fst k)) failedWebhooks) in
          match ok with
          | RReplayed => sweepRows rest failedWebhooks (add_replayed stats)
          | RFailed => sweepRows rest (set_add failedWebhooks (fst k)) (add_failed stats)
          | RInterrupted => sweepRows rest failedWebhooks (add_skipped stats)
          | RFaulted => sweepRows rest failedWebhooks (add_failed stats)
          end
      end
  end.

(** One pass from [cursor]; with it the cursor of the next. *)
Definition sweep (now : Z) (cursor : option nat) : task (result unit (WebhookReconcileStats * option nat)) :=
  let cutoff := now - graceMs cfg in
  let! first := findStale cutoff (batchSize cfg) cursor in
  let! found := match first, cursor with
                | Ok ([], None), Some _ => findStale cutoff (batchSize cfg) None
                | _, _ => Ret first
                end in
  match found with
  | Err _ => Ret (Err tt)
  | Ok (rows, scannedThrough) =>
      let cursor' := match scannedThrough with Some id => Some id | None => o_id ∘ snd <$> last rows end in
      let! stats := sweepRows rows [] (mkStats (Z.of_nat (length rows)) 0 0 0) in
      Ret (match stats with Ok st => Ok (st, cursor') | Err _ => Err tt end)
  end.

(** ** The operator redrive *)

Record WebhookRedriveResult := mkRedrive { rd_delivered : Z; rd_enqueued : Z; rd_failed : Z; rd_skipped : Z }.
Definition count_outcome (o : WebhookDeliveryOutcome) (r : WebhookRedriveResult) : WebhookRedriveResult :=
  match o with
  | Delivered => mkRedrive (rd_delivered r + 1) (rd_enqueued r) (rd_failed r) (rd_skipped r)
  | Enqueued => mkRedrive (rd_delivered r) (rd_enqueued r + 1) (rd_failed r) (rd_skipped r)
  | Cancelled => mkRedrive (rd_delivered r) (rd_enqueued r) (rd_failed r) (rd_skipped r + 1)
  | DeliveryFailed | Unrecorded => mkRedrive (rd_delivered r) (rd_enqueued r) (rd_failed r + 1) (rd_skipped r)
  end.

Definition bumpAttempts (row : FailureRow) : task unit := let! _ := act (BumpAttempts (f_id row)) in Ret tt.

Definition redriveRow (row : FailureRow) (w : option Webhook) (result : WebhookRedriveResult) : task WebhookRedriveResult :=
  let raised := fun r => let! _ := bumpAttempts row in Ret (count_outcome DeliveryFailed r) in
  match w with
  | None => Ret (count_outcome Cancelled result)
  | Some w =>
      if negb (String.eqb (wh_sessionId w) (f_sessionId row)) || negb (isDeliverableWebhook (Some w) (f_event row) None)
      then Ret (count_outcome Cancelled result)
      else
        let! read := act (ReadFailure (f_id row)) in
        match read with
        | Err _ => raised result
        | Ok current =>
            match (match current with Some f => f_payload f | None => None end) with
            | None => Ret (count_outcome Cancelled result)
            | Some payload =>
                let! outcome := redeliver w (f_key row) (mkCtx (f_sessionId row) (f_event row) payload true false false) in
                match outcome with
                | Err _ => raised result
                | Ok o =>
                    let result := count_outcome o result in
                    match o with
                    | Delivered | Enqueued => Ret result
                    | Cancelled | Unrecorded => let! _ := bumpAttempts row in Ret result
                    | DeliveryFailed =>
                        let! again := act (ReadFailure (f_id row)) in
                        match again with
                        | Err _ => raised result
                        | Ok (Some cur) => if f_attempts cur =? f_attempts row then let! _ := bumpAttempts row in Ret result else Ret result
                        | Ok None => Ret result
                        end
                    end
                end
            end
        end
  end.

(** ** The queue worker *)

(** How long a job bounced off the degraded-session gate waits, before jitter. *)
Definition bounceDelay (job : Job) : Z :=
  Z.max 1000 (retryDelay cfg) * 2 ^ Z.min (Z.max 0 (j_attemptsStarted job - j_attemptsMade job - 1)) 6.

Definition failurePayload (replayData : option json) : option json := if keepsFailurePayload then replayData else None.

Definition recordDeliveryFailure (job : Job) (url error : string) : task unit :=
  if j_maxRetries job <=? j_attemptsMade job + 1 then
    let! _ := act (Hook "webhook:error") in
    let! recorded := recordWebhookDeliveryFailure
      (mkInput (j_key job) (j_sessionId job) (j_event job) url (Some (j_deliveryId job)) (j_attemptsMade job + 1)
         (statusCodeFromError error) (redactSsrfError error) (failurePayload (j_replayData job)) (retentionHours cfg)) in
    match recorded with Some _ => close (j_key job) Dispatched | None => Ret tt end
  else Ret tt.

Definition recordSuccessfulDelivery (job : Job) : task unit :=
  let! _ := act (TouchWebhook (fst (j_key job))) in
  let! _ := clearDeliveryFailureRows (j_key job) false in
  let! _ := act (Hook "webhook:delivered") in
  Ret tt.

(** Whether the attempt returned; otherwise it threw, for the queue to retry. *)
Definition deliver (job : Job) : task bool :=
  let k := j_key job in
  let! read := act (LoadWebhook k (j_event job) (Some (j_sessionId job))) in
  match read with
  | Err _ => let! _ := recordDeliveryFailure job (j_url job) "webhook read failed" in Ret false
  | Ok row =>
      match row with
      | Some current =>
          if isDeliverableWebhook row (j_event job) (Some (j_sessionId job)) then
            let! answer := act (Post (mkPosted k (wh_url current)
              (buildDeliveryHeaders hmac current (j_event job) (snd k) (j_deliveryId job) (json_text (j_body job)) (j_attemptsMade job))
              (j_body job))) in
            match answer with
            | Ok _ =>
                let! _ := close k Dispatched in
                let! _ := recordSuccessfulDelivery job in
                Ret true
            | Err message => let! _ := recordDeliveryFailure job (wh_url current) message in Ret false
            end
          else let! _ := close k Dispatched in Ret true
      | None => let! _ := close k Dispatched in Ret true
      end
  end.

Definition process (deliveryId : string) (job : Job) : task unit :=
  let! slot := act (DegradedSlot (fst (j_key job)) (j_sessionId job)) in
  if (slot : bool) then
    let! returned := deliver job in
    if (returned : bool) then act (CompleteJob deliveryId (j_key job)) else Ret tt
  else Ret tt.

(** A job the queue failed because it stalled. *)
Definition onWorkerFailed (job : Job) : task unit :=
  let k := j_key job in
  let record := fun url =>
    let! _ := act (Hook "webhook:error") in
    let! recorded := recordWebhookDeliveryFailure
      (mkInput k (j_sessionId job) (j_event job) url (Some (j_deliveryId job)) (Z.max 1 (j_attemptsMade job)) None
         "job stalled more than allowable limit" (failurePayload (j_replayData job)) (retentionHours cfg)) in
    match recorded with Some _ => close k Dispatched | None => Ret tt end in
  let! read := act (LoadWebhook k (j_event job) (Some (j_sessionId job))) in
  match read with
  | Err _ => record (j_url job)
  | Ok (Some current) =>
      if isDeliverableWebhook (Some current) (j_event job) (Some (j_sessionId job)) then record (wh_url current) else Ret tt
  | Ok None => Ret tt
  end.

(** ** The tasks the server starts, and how the rest of the world moves *)

Inductive starts (s : World) : task unit -> Prop :=
| st_dispatch webhookId w base ctx :
    isDeliverableWebhook (Some w) (c_event ctx) None = true -> starts s (dispatchWithLimit webhookId w base ctx)
| st_sweep now cursor : starts s (pbind (sweep now cursor) (fun _ => Ret tt))
| st_redrive row w r : row ∈ failures s -> starts s (pbind (redriveRow row w r) (fun _ => Ret tt))
| st_process d job : jobs s !! d = Some job -> starts s (process d job)
| st_stalled d job : jobs s !! d = Some job -> starts s (onWorkerFailed job)
| st_prune cutoff : starts s (pruneSettled cutoff).

(** The state of a job, as the queue moves it. *)
Definition moved (j j' : Job) : Prop :=
  j_key j' = j_key j /\ j_event j' = j_event j /\ j_sessionId j' = j_sessionId j /\ j_url j' = j_url j /\
  j_deliveryId j' = j_deliveryId j /\ j_body j' = j_body j /\ j_maxRetries j' = j_maxRetries j /\
  j_replayData j' = j_replayData j /\ 0 <= j_attemptsMade j' /\ (j_state j' = JCompleted -> j_state j = JCompleted).

(** Webhooks change at will; the queue retries, delays, fails, drops and forgets
    jobs; time passes. *)
Inductive env (s : World) : World -> Prop :=
| env_webhooks w : env s (mkWorld w (outbox s) (failures s) (jobs s) (clock s) (nextId s) (minted s) (opened s) (delivered s) (cancelled s) (undeliverable s) (posts s))
| env_clock t : clock s <= t ->
    env s (mkWorld (webhooks s) (outbox s) (failures s) (jobs s) t (nextId s) (minted s) (opened s) (delivered s) (cancelled s) (undeliverable s) (posts s))
| env_job d j j' : jobs s !! d = Some j -> moved j j' -> env s (with_jobs s (<[d := j']> (jobs s)))
| env_job_gone d : env s (with_jobs s (base.delete d (jobs s))).
End delivery.
