(* ===== verification/WebhookDurable.v ===== *)
(** * No delivery is lost

    Over any interleaving of the tasks of [Webhooks] with failing statements,
    crashes, queue retries and changing webhooks: a delivery whose outbox row was
    written is delivered, cancelled, no longer wanted, on record as failed, or
    still held with its payload for replay; and every request sent carries the
    delivery's own key.  By the rely-guarantee rule of [Prog]. *)
From S2P Require Import Prelude JsString Json Prog Webhooks.
Local Open Scope string_scope.
Local Open Scope Z_scope.

(** ** What is known for good *)

(** The delivery needs no replay: it was delivered, a plugin cancelled it, its
    webhook no longer took it, or a failure row records it. *)
Definition settled (s : World) (k : DKey) : Prop :=
  k ∈ delivered s \/ k ∈ cancelled s \/ k ∈ undeliverable s \/ existsb (row_of k) (failures s) = true.

(** It was delivered, or a terminal row records it. *)
Definition attested (s : World) (k : DKey) : Prop :=
  k ∈ delivered s \/ existsb (terminal_of k) (failures s) = true.

(** Its outbox row will be replayed. *)
Definition replayable (s : World) (k : DKey) : Prop :=
  exists r, outbox s !! k = Some r /\ watched (o_state r) = true /\ is_Some (o_payload r).

(** A body that names the delivery and the attempt. *)
Definition identified (k : DKey) (d : string) (body : json) : Prop :=
  field body "idempotencyKey" = Some (JStr (snd k)) /\ field body "deliveryId" = Some (JStr d).

Definition posted_ok (s : World) (p : Posted) : Prop :=
  exists d, minted s !! d = Some (p_key p) /\ identified (p_key p) d (p_body p) /\
    JMap.get "X-OpenWA-Idempotency-Key" (p_headers p) = Some (snd (p_key p)) /\
    JMap.get "X-OpenWA-Delivery-Id" (p_headers p) = Some d.

Record le (s s' : World) : Prop := mkLe {
  le_settled : forall k, settled s k -> settled s' k;
  le_attested : forall k, attested s k -> attested s' k;
  le_delivered : forall k, k ∈ delivered s -> k ∈ delivered s';
  le_minted : forall d k, minted s !! d = Some k -> minted s' !! d = Some k
}.
#[export] Instance le_preorder : PreOrder le.
Proof. split; [by intros s|]. intros s1 s2 s3 [? ? ? ?] [? ? ? ?]. split; auto. Qed.

Lemma attested_settled s k : attested s k -> settled s k.
Proof.
  intros [H|H]; [by left|]. right; right; right. apply existsb_elem in H as (f & Hf & Ht). apply existsb_elem. exists f. split; [done|].
  unfold terminal_of in Ht. by apply andb_true_iff in Ht as [? _].
Qed.

Lemma posted_le s s' p : le s s' -> posted_ok s p -> posted_ok s' p.
Proof. intros Hle (d & Hm & H). exists d. split; [by apply (le_minted _ _ Hle)|done]. Qed.

Definition job_ok (s : World) (d : string) (j : Job) : Prop :=
  minted s !! d = Some (j_key j) /\ j_deliveryId j = d /\ identified (j_key j) d (j_body j) /\ 0 <= j_attemptsMade j.

Lemma job_le s s' d j : le s s' -> job_ok s d j -> job_ok s' d j.
Proof. intros Hle (H & ?). split; [by apply (le_minted _ _ Hle)|done]. Qed.

Record Inv (s : World) : Prop := mkInv {
  i_kept : forall k, k ∈ opened s -> replayable s k \/ settled s k;
  i_rows : forall k r, outbox s !! k = Some r -> minted s !! o_deliveryId r = Some k;
  i_jobs : forall d j, jobs s !! d = Some j -> job_ok s d j /\ (j_state j = JCompleted -> settled s (j_key j));
  i_posts : Forall (posted_ok s) (posts s)
}.

(** What a task must know to perform an effect. *)
Definition pre (B : Type) (e : eff B) (s : World) : Prop :=
  match e with
  | InsertOutbox k _ _ d _ | QueueOutbox k d => minted s !! d = Some k
  | CloseOutbox k _ => settled s k
  | RefreshTerminal i => 0 < in_attempts i
  | ClearFailures k onlyUnattempted => if onlyUnattempted then attested s k else k ∈ delivered s
  | AddJob d job => job_ok s d job /\ j_state job <> JCompleted
  | CompleteJob d k => minted s !! d = Some k /\ settled s k
  | Post p => posted_ok s p
  | _ => True
  end.

(** ** Every statement keeps the invariant *)

(** A change of the failure rows that keeps each delivery's rows and its terminal
    ones. *)
Definition keeps_failures (f f' : list FailureRow) : Prop :=
  forall k, (existsb (row_of k) f = true -> existsb (row_of k) f' = true) /\
            (existsb (terminal_of k) f = true -> existsb (terminal_of k) f' = true).

Lemma failures_le s f' : keeps_failures (failures s) f' -> le s (with_failures s f').
Proof.
  intros Hk. split; [|intros k [H|H]; [by left|right; by apply Hk]|done|done].
  intros k [H|[H|[H|H]]]; [by left|by right; left|by right; right; left|]. right; right; right. by apply (Hk k).
Qed.

Lemma failures_inv s f' : Inv s -> le s (with_failures s f') -> Inv (with_failures s f').
Proof.
  intros [Ik Ir Ij Ip] Hle. split.
  - intros k Hk. destruct (Ik k Hk) as [H|H]; [by left|right; by apply (le_settled _ _ Hle)].
  - exact Ir.
  - intros d j Hj. destruct (Ij d j Hj) as [H1 H2]. split; [by apply (job_le s)|]. intros Hc. by apply (le_settled _ _ Hle), H2.
  - eapply Forall_impl; [exact Ip|]. intros p Hp. by eapply posted_le.
Qed.

Lemma map_keeps_failures (g : FailureRow -> FailureRow) f :
  (forall x, f_key (g x) = f_key x /\ (0 <? f_attempts x = true -> 0 <? f_attempts (g x) = true)) -> keeps_failures f (map g f).
Proof.
  intros Hg k. split; intros (x & Hx & Ht)%existsb_elem; apply existsb_elem; exists (g x); (split; [by apply elem_of_map; exists x|]);
    destruct (Hg x) as [H1 H2]; unfold terminal_of, row_of in *; rewrite H1; [done|].
  apply andb_true_iff in Ht as [-> Hb]. by apply H2.
Qed.

Lemma existsb_filter_neg {A : Type} (p q : A -> bool) (l : list A) :
  (forall x, p x = true -> q x = false) -> existsb p l = true -> existsb p (List.filter (fun x => negb (q x)) l) = true.
Proof.
  intros Hpq (x & Hx & Hp)%existsb_elem. apply existsb_elem. exists x. split; [|done].
  apply list_elem_of_In, filter_In. split; [by apply list_elem_of_In|]. by rewrite Hpq.
Qed.

(** Clearing the unattempted rows of an attested delivery, or every row of a
    delivered one, forgets nothing that matters. *)
Lemma clear_le s k (only : bool) :
  (if only then attested s k else k ∈ delivered s) ->
  le s (with_failures s (List.filter (fun f => negb (if only then unsent_of k f else row_of k f)) (failures s))).
Proof.
  intros Hpre.
  assert (forall k', (existsb (terminal_of k') (failures s) = true -> k' ∈ delivered s \/ 
    existsb (terminal_of k') (List.filter (fun f => negb (if only then unsent_of k f else row_of k f)) (failures s)) = true)) as Ht.
  { intros k' H. destruct only.
    - right. revert H. apply existsb_filter_neg. intros x Hx. unfold terminal_of, unsent_of in *. bool_facts.
      apply andb_false_iff. right. apply Z.eqb_neq. lia.
    - destruct (decide (k' = k)) as [->|Hne]; [by left|]. right. revert H. apply existsb_filter_neg. intros x Hx.
      unfold terminal_of, row_of in *. bool_facts. apply bool_decide_eq_false_2. congruence. }
  split; [|intros k' [H|H]; [by left|]; destruct (Ht k' H); [by left|by right]|done|done].
  intros k' [H|[H|[H|H]]]; [by left|by right; left|by right; right; left|]. destruct (decide (k' = k)) as [->|Hne].
  - assert (attested (with_failures s (List.filter (fun f => negb (if only then unsent_of k f else row_of k f)) (failures s))) k) as Ha;
      [|by apply attested_settled].
    destruct only; [|by left]. destruct Hpre as [Hd|Hd]; [by left|]. destruct (Ht k Hd); [by left|by right].
  - right; right; right. revert H. apply existsb_filter_neg. intros x Hx. unfold unsent_of, row_of in *. bool_facts. subst k'.
    destruct only; [apply andb_false_iff; left|]; apply bool_decide_eq_false_2; congruence.
Qed.

(** A change of the outbox: each row keeps its key's delivery id, and no replay
    copy disappears but a settled delivery's. *)
Lemma outbox_inv s o :
  Inv s ->
  (forall k, (exists r, outbox s !! k = Some r /\ watched (o_state r) = true /\ is_Some (o_payload r)) ->
     settled s k \/ exists r, o !! k = Some r /\ watched (o_state r) = true /\ is_Some (o_payload r)) ->
  (forall k r, o !! k = Some r -> minted s !! o_deliveryId r = Some k) ->
  Inv (with_outbox s o) /\ le s (with_outbox s o).
Proof.
  intros [Ik Ir Ij Ip] Hk Hr. split; [|done]. split; [|exact Hr|exact Ij|exact Ip].
  intros k Ho. destruct (Ik k Ho) as [H|H]; [|by right]. destruct (Hk k H); [by right|by left].
Qed.

(** An update of one row. *)
Lemma alter_outbox_inv s k (g : OutboxRow -> OutboxRow) :
  Inv s ->
  (forall r, outbox s !! k = Some r -> minted s !! o_deliveryId (g r) = Some k) ->
  (settled s k \/ forall r, watched (o_state r) = true -> is_Some (o_payload r) -> watched (o_state (g r)) = true /\ is_Some (o_payload (g r))) ->
  Inv (with_outbox s (alter g k (outbox s))) /\ le s (with_outbox s (alter g k (outbox s))).
Proof.
  intros HI Hm Hg. apply outbox_inv; [done| |].
  - intros k' (r & Hr & Hw & Hp). destruct (decide (k' = k)) as [->|Hne].
    + destruct Hg as [Hg|Hg]; [by left|right]. exists (g r). by rewrite lookup_alter_eq, Hr; split; [|apply Hg].
    + right. exists r. by rewrite lookup_alter_ne.
  - intros k' r Hr. destruct (decide (k' = k)) as [->|Hne].
    + rewrite lookup_alter_eq in Hr. destruct (outbox s !! k) as [r0|] eqn:E; [|done]. injection Hr as <-. by apply Hm.
    + rewrite lookup_alter_ne in Hr by done. by apply (i_rows _ HI).
Qed.

(** A change that only adds to what is known. *)
Lemma grow_inv s s' :
  Inv s -> outbox s' = outbox s -> jobs s' = jobs s -> opened s' = opened s -> le s s' -> Forall (posted_ok s') (posts s') -> Inv s'.
Proof.
  intros [Ik Ir Ij Ip] Ho Hj Hop Hle Hp. split; [| | |done].
  - intros k. rewrite Hop. intros Hk. destruct (Ik k Hk) as [H|H]; [left|right; by apply (le_settled _ _ Hle)]. unfold replayable. by rewrite Ho.
  - intros k r. rewrite Ho. intros Hr. by apply (le_minted _ _ Hle), Ir.
  - intros d j. rewrite Hj. intros Hd. destruct (Ij d j Hd) as [H1 H2]. split; [by apply (job_le s)|]. intros Hc. by apply (le_settled _ _ Hle), H2.
Qed.

Lemma posts_le s s' : Inv s -> le s s' -> Forall (posted_ok s') (posts s).
Proof. intros [_ _ _ Ip] Hle. eapply Forall_impl; [exact Ip|]. intros p Hp. exact (posted_le s s' p Hle Hp). Qed.

Lemma note_undeliverable_ok k s : Inv s -> Inv (note_undeliverable k s) /\ le s (note_undeliverable k s).
Proof.
  intros HI. assert (le s (note_undeliverable k s)) as Hle.
  { split; [|done|done|done]. unfold settled. intros k' H. simpl. set_solver. }
  split; [|done]. apply (grow_inv s); [done|done|done|done|done|exact (posts_le s _ HI Hle)].
Qed.

Lemma note_cancelled_ok k s : Inv s -> Inv (note_cancelled k s) /\ le s (note_cancelled k s).
Proof.
  intros HI. assert (le s (note_cancelled k s)) as Hle.
  { split; [|done|done|done]. unfold settled. intros k' H. simpl. set_solver. }
  split; [|done]. apply (grow_inv s); [done|done|done|done|done|exact (posts_le s _ HI Hle)].
Qed.

Lemma note_delivered_ok k s : Inv s -> Inv (note_delivered k s) /\ le s (note_delivered k s).
Proof.
  intros HI. assert (le s (note_delivered k s)) as Hle.
  { split; [| | |done]; unfold settled, attested; simpl; intros k' H; set_solver. }
  split; [|done]. apply (grow_inv s); [done|done|done|done|done|exact (posts_le s _ HI Hle)].
Qed.

Lemma note_post_ok p s : Inv s -> posted_ok s p -> Inv (note_post p s) /\ le s (note_post p s).
Proof.
  intros HI Hp. assert (le s (note_post p s)) as Hle by done. split; [|done].
  apply (grow_inv s); [done|done|done|done|done|]. constructor; [done|exact (posts_le s _ HI Hle)].
Qed.

Lemma mint_ok d k s : Inv s -> minted s !! d = None -> Inv (with_minted s (<[d := k]> (minted s))) /\ le s (with_minted s (<[d := k]> (minted s))).
Proof.
  intros HI Hd. assert (le s (with_minted s (<[d := k]> (minted s)))) as Hle.
  { split; [done|done|done|]. intros d' k' H. simpl. rewrite lookup_insert_ne; [done|]. intros ->. by rewrite Hd in H. }
  split; [|done]. apply (grow_inv s); [done|done|done|done|done|exact (posts_le s _ HI Hle)].
Qed.

Lemma jobs_inv s j' :
  Inv s -> (forall d j, j' !! d = Some j -> job_ok s d j /\ (j_state j = JCompleted -> settled s (j_key j))) ->
  Inv (with_jobs s j') /\ le s (with_jobs s j').
Proof. intros [Ik Ir Ij Ip] Hj. split; [|done]. by split. Qed.

Lemma insert_outbox_ok k sid ev d p s :
  Inv s -> outbox s !! k = None -> minted s !! d = Some k -> Inv (insert_outbox k sid ev d p s) /\ le s (insert_outbox k sid ev d p s).
Proof.
  intros [Ik Ir Ij Ip] Hn Hm. split; [|done]. split; [| |exact Ij|exact Ip].
  - intros k' Hk. simpl in Hk. destruct (decide (k' = k)) as [->|Hne].
    + left. eexists. simpl. rewrite lookup_insert_eq. split_and!; [done|done|by eexists].
    + apply elem_of_union in Hk as [Hk%elem_of_singleton|Hk]; [done|]. destruct (Ik k' Hk) as [(r & Hr & H)|H]; [|by right].
      left. exists r. simpl. by rewrite lookup_insert_ne.
  - intros k' r. simpl. destruct (decide (k' = k)) as [->|Hne].
    + rewrite lookup_insert_eq. intros [= <-]. done.
    + rewrite lookup_insert_ne by done. apply Ir.
Qed.

Lemma writes_ok (t s s' : World) (ok : bool) : Inv s -> (Inv t /\ le s t) -> writes t s ok s' -> Inv s' /\ le s s'.
Proof. intros HI Ht [[_ ->]| ->]; [split; [done|reflexivity]|done]. Qed.

Lemma reads_ok {A : Type} (v : A) (s s' : World) r : Inv s -> reads v s r s' -> Inv s' /\ le s s'.
Proof. intros HI [-> _]. split; [done|reflexivity]. Qed.

Lemma failures_ok s f' : Inv s -> keeps_failures (failures s) f' -> Inv (with_failures s f') /\ le s (with_failures s f').
Proof. intros HI Hk. pose proof (failures_le s f' Hk). split; [by apply failures_inv|done]. Qed.

Lemma close_row_ok s k st : Inv s -> settled s k ->
  Inv (with_outbox s (alter (close_row st) k (outbox s))) /\ le s (with_outbox s (alter (close_row st) k (outbox s))).
Proof. intros HI Hs. apply alter_outbox_inv; [done| |by left]. intros r Hr. by apply (i_rows _ HI) in Hr. Qed.

Lemma queue_ok s k d : Inv s -> minted s !! d = Some k ->
  Inv (with_outbox s (alter (queue_row d) k (outbox s))) /\ le s (with_outbox s (alter (queue_row d) k (outbox s))).
Proof.
  intros HI Hm. apply alter_outbox_inv; [done| |right].
  - intros r Hr. unfold queue_row. destruct (o_payload r); [|exact (i_rows _ HI k r Hr)].
    destruct (watched (o_state r)); [done|exact (i_rows _ HI k r Hr)].
  - intros r Hw [p Hp]. unfold queue_row. by rewrite Hp, Hw.
Qed.

Lemma count_ok s k id n : Inv s ->
  Inv (with_outbox s (alter (count_row id n) k (outbox s))) /\ le s (with_outbox s (alter (count_row id n) k (outbox s))).
Proof.
  intros HI. apply alter_outbox_inv; [done| |right].
  - intros r Hr. unfold count_row. destruct (_ && _); exact (i_rows _ HI k r Hr).
  - intros r Hw Hp. unfold count_row. by destruct (_ && _).
Qed.

Lemma prune_ok s cutoff : Inv s ->
  Inv (with_outbox s (filter (fun e => prunable cutoff (snd e) = false) (outbox s))) /\
  le s (with_outbox s (filter (fun e => prunable cutoff (snd e) = false) (outbox s))).
Proof.
  intros HI. apply outbox_inv; [done| |].
  - intros k (r & Hr & Hw & Hp). right. exists r. split; [|done]. apply map_lookup_filter_Some_2; [done|].
    unfold prunable. simpl. destruct (o_state r) as [[]|]; simpl in *; done.
  - intros k r Hr%map_lookup_filter_Some_1_1. by apply (i_rows _ HI).
Qed.

Lemma insert_failure_ok s i : Inv s ->
  Inv (with_failures s (failures s ++ [failure_row i s])%list) /\ le s (with_failures s (failures s ++ [failure_row i s])%list).
Proof. intros HI. apply failures_ok; [done|]. intros k. rewrite !existsb_app. split; intros ->; done. Qed.

Lemma row_key_ok (i : FailureInput) x : 0 < in_attempts i ->
  f_key (refresh_terminal_row i x) = f_key x /\ (0 <? f_attempts x = true -> 0 <? f_attempts (refresh_terminal_row i x) = true).
Proof. intros Hi. unfold refresh_terminal_row. destruct (terminal_of (in_key i) x); [|done]. simpl. split; [done|]. intros H. bool_facts. apply Z.ltb_lt. lia. Qed.

Lemma hook_run_ok B (e : eff B) s b s' : Inv s -> pre B e s -> run B e s b s' -> Inv s' /\ le s s'.
Proof.
  intros HI. assert (Inv s /\ le s s) as Hsame by (split; [done|reflexivity]).
  destruct e; cbn [pre run]; intros Hpre Hrun; try exact (False_ind _ Hrun); try (subst s'; exact Hsame); try (by eapply reads_ok);
    try (eapply writes_ok; [done| |exact Hrun]).
  - destruct Hrun as [[_ ->]|[_ ->]]; [exact Hsame|]. case_match; [exact Hsame|by apply note_undeliverable_ok].
  - destruct (outbox s !! k) eqn:E; [destruct Hrun as [_ ->]; exact Hsame|].
    destruct Hrun as [[_ ->]|[_ ->]]; [exact Hsame|by apply insert_outbox_ok].
  - by apply close_row_ok.
  - by apply queue_ok.
  - destruct Hrun as [[_ ->]|[_ ->]]; [exact Hsame|by apply count_ok].
  - by apply prune_ok.
  - destruct Hrun as [[_ ->]|[_ ->]]; [exact Hsame|]. apply failures_ok; [done|]. apply map_keeps_failures. intros x. by apply row_key_ok.
  - apply failures_ok; [done|]. apply map_keeps_failures. intros x. unfold keep_payload_row. by destruct (_ && _).
  - apply failures_ok; [done|]. apply map_keeps_failures. intros x. unfold refresh_unsent_row. by destruct (unsent_of _ _).
  - destruct Hrun as [[_ ->]|[(_ & -> & _)|(_ & _ & ->)]]; [exact Hsame|exact Hsame|by apply insert_failure_ok].
  - pose proof (clear_le s k onlyUnattempted Hpre). split; [by apply failures_inv|done].
  - apply failures_ok; [done|]. apply map_keeps_failures. intros x. unfold bump_row. destruct (_ =? _)%nat; [|done]. simpl.
    split; [done|]. intros H. bool_facts. apply Z.ltb_lt. lia.
  - assert (Inv (with_jobs s (match jobs s !! deliveryId with Some _ => jobs s | None => <[deliveryId := job]> (jobs s) end)) /\
      le s (with_jobs s (match jobs s !! deliveryId with Some _ => jobs s | None => <[deliveryId := job]> (jobs s) end))) as Ht.
    { destruct (jobs s !! deliveryId) eqn:E; [by apply jobs_inv; [|apply (i_jobs _ HI)]|]. apply jobs_inv; [done|]. intros d j.
      destruct (decide (d = deliveryId)) as [->|Hne]; [|rewrite lookup_insert_ne by done; apply (i_jobs _ HI)].
      rewrite lookup_insert_eq. intros [= <-]. destruct Hpre as [Hj Hn]. done. }
    exact Ht.
  - subst s'. apply jobs_inv; [done|]. intros d j. destruct (decide (d = deliveryId)) as [->|Hne];
      [|rewrite lookup_alter_ne by done; apply (i_jobs _ HI)].
    rewrite lookup_alter_eq. destruct (jobs s !! deliveryId) as [j0|] eqn:E; [|done]. intros [= <-].
    destruct (i_jobs _ HI _ _ E) as [Hj _]. split; [exact Hj|]. intros _. simpl. destruct Hpre as [Hm Hs]. destruct Hj as [Hj _].
    replace (j_key j0) with k by congruence. done.
  - destruct Hrun as [Hd ->]. by apply mint_ok.
  - subst s'. destruct b; [exact Hsame|by apply note_cancelled_ok|exact Hsame].
  - destruct (note_post_ok p s HI Hpre) as [HI1 Hle1]. destruct b as [u|msg]; subst s'; [|done].
    destruct (note_delivered_ok (p_key p) _ HI1) as [HI2 Hle2]. split; [done|]. by transitivity (note_post p s).
Qed.

Lemma hook_env_inv s s' : Inv s -> env s s' -> Inv s' /\ le s s'.
Proof.
  intros HI Henv. destruct Henv as [w|t Ht|d j j' Hj Hm|d].
  - split; [|done]. apply (grow_inv s); try done. apply HI.
  - split; [|done]. apply (grow_inv s); try done. apply HI.
  - apply jobs_inv; [done|]. intros d' j0. destruct (decide (d' = d)) as [->|Hne];
      [|rewrite lookup_insert_ne by done; apply (i_jobs _ HI)].
    rewrite lookup_insert_eq. intros [= <-]. destruct (i_jobs _ HI _ _ Hj) as [(H1 & H2 & H3 & H4) Hc].
    destruct Hm as (M1 & M2 & M3 & M4 & M5 & M6 & M7 & M8 & M9 & M10). unfold job_ok. rewrite M1, M5, M6.
    split_and!; try done. intros Hst. by apply Hc, M10.
  - apply jobs_inv; [done|]. intros d' j0 [_ H]%lookup_delete_Some. exact (i_jobs _ HI d' j0 H).
Qed.

(** ** Every task is safe *)

Abbreviation ok p Q s := (safe run le pre Inv p Q s).

Lemma hook_bind_ok {A B : Type} (p : task A) (f : A -> task B) Q s : ok p (fun a s1 => ok (f a) Q s1) s -> ok (pbind p f) Q s.
Proof. exact (safe_bind run le pre Inv p f Q s). Qed.

Lemma hook_conseq_ok {A : Type} (p : task A) (Q Q' : A -> World -> Prop) s :
  ok p Q s -> (forall a s1, le s s1 -> Q a s1 -> Q' a s1) -> ok p Q' s.
Proof. exact (safe_conseq run le pre Inv p Q Q' s). Qed.

(** Perform the next effect: the goals are its precondition, and the rest with the
    answer [b] at a later state. *)
Ltac perform b Hrun :=
  let s1 := fresh "s1" in let s2 := fresh "s2" in let s3 := fresh "s3" in
  let L1 := fresh "L" in let I1 := fresh "I" in let L2 := fresh "L" in let I2 := fresh "I" in let L3 := fresh "L" in
  apply hook_bind_ok; apply safe_act; intros s1 L1 I1; split; [|intros b s2 Hrun I2 L2 s3 L3; cbv beta].

Lemma undeliverable_settled k s : k ∈ undeliverable s -> settled s k.
Proof. unfold settled. auto. Qed.
Lemma delivered_attested k s : k ∈ delivered s -> attested s k.
Proof. unfold attested. auto. Qed.
Lemma delivered_settled k s : k ∈ delivered s -> settled s k.
Proof. unfold settled. auto. Qed.
Lemma cancelled_settled k s : k ∈ cancelled s -> settled s k.
Proof. unfold settled. auto. Qed.

(** An effect that needs nothing, its answer taken as it comes. *)
Lemma plain_ok {A B : Type} (e : eff B) (f : B -> task A) Q s :
  (forall s1, pre B e s1) -> (forall b s1, le s s1 -> ok (f b) Q s1) -> ok (pbind (act e) f) Q s.
Proof. intros Hpre Hf. perform b Hb; [apply Hpre|]. apply Hf. etrans; [|eassumption]. by etrans. Qed.

(** Bring what is known to the latest state. *)
Ltac later :=
  repeat match goal with
  | H : settled ?s ?k, L : le ?s ?s' |- _ => apply (le_settled _ _ L) in H
  | H : attested ?s ?k, L : le ?s ?s' |- _ => apply (le_attested _ _ L) in H
  | H : ?k ∈ delivered ?s, L : le ?s ?s' |- _ => apply (le_delivered _ _ L) in H
  | H : minted ?s !! ?d = Some ?k, L : le ?s ?s' |- _ => apply (le_minted _ _ L) in H
  end.

Lemma count_attested s k n r s' :
  reads (Z.of_nat (length (List.filter (terminal_of k) (failures s)))) s r s' -> r = Ok n -> 0 < n -> attested s k.
Proof.
  intros [_ [->| ->]] Hr Hn; [done|]. injection Hr as <-. right. apply existsb_elem.
  destruct (List.filter (terminal_of k) (failures s)) as [|f l] eqn:E; [simpl in Hn; lia|]. exists f.
  assert (f ∈ List.filter (terminal_of k) (failures s)) as Hf by (rewrite E; by left). by apply list_elem_of_In, filter_In in Hf as [?%list_elem_of_In ?].
Qed.

Lemma count_settled s k n r s' :
  reads (Z.of_nat (length (List.filter (row_of k) (failures s)))) s r s' -> r = Ok n -> 0 < n -> settled s k.
Proof.
  intros [_ [->| ->]] Hr Hn; [done|]. injection Hr as <-. right; right; right. apply existsb_elem.
  destruct (List.filter (row_of k) (failures s)) as [|f l] eqn:E; [simpl in Hn; lia|]. exists f.
  assert (f ∈ List.filter (row_of k) (failures s)) as Hf by (rewrite E; by left). by apply list_elem_of_In, filter_In in Hf as [?%list_elem_of_In ?].
Qed.

(** The clear that follows a terminal record. *)
Lemma clear_unsent_ok {A : Type} k (p : task A) Q s :
  attested s k -> (forall s1, attested s1 k -> ok p Q s1) -> ok (pbind (clearDeliveryFailureRows k true) (fun _ => p)) Q s.
Proof.
  intros Ha Hp. unfold clearDeliveryFailureRows. apply hook_bind_ok. perform b Hrun; [by later|]. later.
  apply safe_ret. intros s4 ?. later. by apply Hp.
Qed.

Lemma refresh_ok i s : 0 < in_attempts i -> ok (refreshTerminal i) (fun r s => is_Some r -> attested s (in_key i)) s.
Proof.
  intros Hi. unfold refreshTerminal. perform b Hrun; [done|].
  destruct b as [[]|]; [|by apply safe_ret; intros ? ? [? ?]|by apply safe_ret; intros ? ? [? ?]].
  assert (attested s2 (in_key i)) as Ha.
  { destruct Hrun as [[? _]|[[?|Hex] ->]]; [done|done|]. apply (le_attested _ _ (proj2 (failures_ok s1 _ ltac:(done) (map_keeps_failures _ _ (fun x => row_key_ok i x Hi))))).
    right. by injection Hex. }
  later. clear Hrun. apply hook_bind_ok. 
  assert (forall kept s4, attested s4 (in_key i) -> ok (if negb kept then Ret None else pbind (clearDeliveryFailureRows (in_key i) true) (fun _ => Ret (Some false)))
    (fun r s => is_Some r -> attested s (in_key i)) s4) as Hk.
  { intros [] s4 H4; cbn [negb]; [|by apply safe_ret; intros ? ? [? ?]]. apply clear_unsent_ok; [done|]. intros s5 H5.
    apply safe_ret. intros s6 ? _. by later. }
  destruct (in_payload i); [destruct (in_retention i =? 0)|].
  - apply safe_ret. intros s4 ?. later. by apply Hk.
  - apply safe_act. intros s4 ? ?. split; [done|]. intros kept s5 _ ? ? s6 ?. later. by apply Hk.
  - apply safe_ret. intros s4 ?. later. by apply Hk.
Qed.

(** A row that a record leaves, new or found, settles the delivery. *)
Lemma record_ok i s : 0 <= in_attempts i -> ok (recordWebhookDeliveryFailure i) (fun r s => is_Some r -> settled s (in_key i)) s.
Proof.
  intros Hi. unfold recordWebhookDeliveryFailure. perform n Hrun; [done|].
  assert (forall s, 0 < in_attempts i -> ok (refreshTerminal i) (fun r s => is_Some r -> settled s (in_key i)) s) as Href.
  { intros s0 Hp. eapply hook_conseq_ok; [by apply refresh_ok|]. intros r s5 _ Hatt Hr. by apply attested_settled, Hatt. }
  assert (forall s4, ok (Ret (E := eff) (@None bool)) (fun r s => is_Some r -> settled s (in_key i)) s4) as Hnone
    by (intros s4; apply safe_ret; by intros ? ? [? ?]).
  destruct n as [n|]; [|apply Hnone].
  destruct (0 <? n) eqn:Hn.
  - destruct (0 <? in_attempts i) eqn:Ht; bool_facts; [by apply Href|].
    assert (settled s1 (in_key i)) by (eapply count_settled; [exact Hrun|done|done]). later.
    perform b Hb; [done|]. apply safe_ret. intros s7 ? _. by later.
  - clear Hrun. perform r Hrun; [done|]. destruct r; [|destruct (0 <? in_attempts i) eqn:Ht; bool_facts; [by apply Href|apply Hnone]|apply Hnone].
    destruct Hrun as [[? _]|[[? _]|(_ & _ & ->)]]; [done|done|].
    match goal with L : le (with_failures ?s4 _) _ |- _ => rename s4 into w end.
    assert (settled (with_failures w (failures w ++ [failure_row i w])%list) (in_key i)) as Hset.
    { right; right; right. simpl. rewrite existsb_app. simpl. apply orb_true_iff. right. unfold row_of. by rewrite bool_decide_eq_true_2. }
    destruct (0 <? in_attempts i) eqn:Ht.
    + assert (attested (with_failures w (failures w ++ [failure_row i w])%list) (in_key i)) as Hatt.
      { right. simpl. rewrite existsb_app. simpl. apply orb_true_iff. right. unfold terminal_of, row_of. rewrite bool_decide_eq_true_2 by done. simpl. by rewrite Ht. }
      later. apply clear_unsent_ok; [done|]. intros s7 H7. apply safe_ret. intros s8 ? _. later. by apply attested_settled.
    + later. apply hook_bind_ok, safe_ret. intros s7 ?. later. apply safe_ret. intros s8 ? _. by later.
Qed.

(** *** Bodies and headers *)

Lemma assert_identity_ok ev ts sid k d fs : identified k d (JObj (assert_identity ev ts sid (snd k) d fs)).
Proof. unfold identified, assert_identity, field. split; [|by rewrite JMap.get_set_eq]. by rewrite JMap.get_set_ne, JMap.get_set_eq by done. Qed.

Lemma fit_payload_ok cap k d fs : identified k d (JObj fs) -> identified k d (JObj (fit_payload cap fs)).
Proof.
  unfold fit_payload. destruct (_ <? _); [|done]. destruct (JMap.get "data" fs); [|done]. unfold identified, field.
  intros [H1 H2]. by rewrite !JMap.get_set_ne.
Qed.

Lemma headers_ok hmac w ev key d body n :
  let h := buildDeliveryHeaders hmac w ev key d body n in
  JMap.get "X-OpenWA-Idempotency-Key" h = Some key /\ JMap.get "X-OpenWA-Delivery-Id" h = Some d.
Proof.
  intros h. unfold h, buildDeliveryHeaders.
  destruct (truthy (wh_secret w)); split; repeat (rewrite JMap.get_set_ne by done); by rewrite JMap.get_set_eq.
Qed.

Section tasks.
Context (hmac : string -> string -> string) (redact : string -> string) (cfg : Config) (fuel : nat).

Lemma undelivered_ok w k d err ctx s :
  ok (recordUndelivered redact w k d err ctx) (fun r s => r = true -> settled s k) s.
Proof.
  unfold recordUndelivered. apply hook_bind_ok. eapply hook_conseq_ok; [by apply record_ok|]. intros r s1 _ Hr. cbn [in_key] in Hr.
  destruct r as [b|].
  - pose proof (Hr ltac:(by eexists)) as Hs. perform u Hu; [done|]. apply safe_ret. intros s5 L9 _. by later.
  - perform u Hu; [done|]. by apply safe_ret.
Qed.

Lemma preflight_ok w k d ctx s :
  ok (preflightDelivery redact cfg w k d ctx)
    (fun r s => match r with PCancelled | PRefused => settled s k | PUnrecorded => True | PReady body => identified k d body end) s.
Proof.
  unfold preflightDelivery. perform ts Hts; [done|].
  assert (forall err s, ok (pbind (recordUndelivered redact w k d err ctx) (fun recorded : bool => Ret (if recorded then PRefused else PUnrecorded)))
    (fun r s => match r with PCancelled | PRefused => settled s k | PUnrecorded => True | PReady body => identified k d body end) s) as Href.
  { intros err s0. apply hook_bind_ok. eapply hook_conseq_ok; [apply undelivered_ok|]. intros [] s4 _ H4; apply safe_ret; intros s5 L5; [|done].
    specialize (H4 eq_refl). by later. }
  perform b Hb; [done|]. destruct b as [| |hr]; [apply Href| |].
  - apply safe_ret. intros s7 L7. cbn [run] in Hb. assert (settled s4 k) as Hs by (subst s4; apply cancelled_settled; simpl; set_solver). by later.
  - destruct (hook_payload _ hr) as [| | | | |fs]; try apply Href. destruct (_ <? _); [apply Href|].
    apply safe_ret. intros _ _. apply fit_payload_ok, assert_identity_ok.
Qed.

(** What a delivery's end proves. *)
Definition ended (k : DKey) (r : result Exn bool) (s : World) : Prop :=
  match r with Ok _ | Err (EFailed _) => settled s k | _ => True end.

Lemma load_settled k ev sid s (row : option Webhook) s' :
  run _ (LoadWebhook k ev sid) s (Ok row) s' -> isDeliverableWebhook row ev sid = false -> settled s' k.
Proof.
  cbn [run]. intros [[? _]|[[= <-] ->]] Hd; [done|]. rewrite Hd. apply undeliverable_settled. simpl. set_solver.
Qed.

(** A read of the webhook: it failed, it shows the delivery unwanted, or it shows
    the row to deliver to. *)
Lemma load_ok {A : Type} k ev sid (f : result unit (option Webhook) -> task A) Q s :
  (forall s1, ok (f (Err tt)) Q s1) ->
  (forall r s1, le s s1 -> settled s1 k -> isDeliverableWebhook r ev sid = false -> ok (f (Ok r)) Q s1) ->
  (forall w s1, le s s1 -> isDeliverableWebhook (Some w) ev sid = true -> ok (f (Ok (Some w))) Q s1) ->
  ok (pbind (act (LoadWebhook k ev sid)) f) Q s.
Proof.
  intros He Hu Hd. perform r Hr; [done|]. assert (le s s3) as Hle by (etrans; [|eassumption]; by etrans).
  destruct r as [r|[]]; [|apply He]. destruct (isDeliverableWebhook r ev sid) eqn:E.
  - destruct r as [w|]; [|done]. by apply Hd.
  - pose proof (load_settled _ _ _ _ _ _ Hr E). later. by apply Hu.
Qed.

Lemma failed_ok retry attempt k d ctx w msg s :
  0 < attempt -> minted s !! d = Some k ->
  (forall w s, minted s !! d = Some k -> ok (retry w) (ended k) s) ->
  ok (attempt_failed redact cfg retry attempt k d ctx w msg) (ended k) s.
Proof.
  intros Ha Hm Hretry. unfold attempt_failed. destruct (attempt <? _).
  - perform wk Hw; [done|]. later. destruct wk; [by apply Hretry|by apply safe_ret|by apply safe_ret].
  - apply hook_bind_ok. eapply hook_conseq_ok; [apply record_ok; simpl; lia|]. intros [x|] s4 _ H4; [|by apply safe_ret].
    apply safe_ret. intros s5 L5. specialize (H4 ltac:(by eexists)). cbn [in_key ended] in H4 |- *. by later.
Qed.

Lemma post_ok failed attempt k d body ctx w (stop : bool) s :
  minted s !! d = Some k -> identified k d body ->
  (forall w msg s, minted s !! d = Some k -> ok (failed w msg) (ended k) s) ->
  ok (post_once hmac failed attempt k d body ctx w stop) (ended k) s.
Proof.
  intros Hm Hid Hfail. unfold post_once. destruct stop; [by apply safe_ret|]. perform ans Hans.
  - exists d. split; [by later|]. split; [done|]. apply headers_ok.
  - later. destruct ans as [u|msg]; [|by apply Hfail].
    match type of Hans with run _ _ _ _ ?s2 => assert (k ∈ delivered s2) as Hd by (cbn [run] in Hans; subst s2; simpl; set_solver) end.
    later. perform u1 Hu1; [done|]. later. unfold clearDeliveryFailureRows. apply hook_bind_ok. perform u2 Hu2; [by later|].
    apply safe_ret. intros s12 L12. apply safe_ret. intros s13 L13. cbn [ended]. apply delivered_settled. by later.
Qed.

Lemma loop_ok n attempt w k d body ctx s :
  0 < attempt -> minted s !! d = Some k -> identified k d body ->
  ok (deliverLoop hmac redact cfg n attempt w k d body ctx) (ended k) s.
Proof.
  revert attempt w s. induction n as [|n IH]; intros attempt w s Ha Hm Hid; cbn [deliverLoop]; [by intros s1 _ _; split|].
  assert (forall w msg s, minted s !! d = Some k -> ok (attempt_failed redact cfg
    (fun current => deliverLoop hmac redact cfg n (attempt + 1) current k d body ctx) attempt k d ctx w msg) (ended k) s) as Hfail.
  { intros w0 msg s0 Hm0. apply failed_ok; [done|done|]. intros w1 s1 Hm1. by apply IH; [lia| |]. }
  perform row Hrow; [done|]. destruct row as [row|]; [|later; by apply Hfail].
  destruct (isDeliverableWebhook row (c_event ctx) (Some (c_sessionId ctx))) eqn:Hdel.
  - destruct row as [cur|]; [|done]. later. apply hook_bind_ok. destruct (1 <? attempt); [unfold aborted; destruct (c_signal ctx)|].
    + apply safe_act. intros s4 ? ?. split; [done|]. intros stop s5 _ ? ? s6 ?. later. by apply post_ok.
    + apply safe_ret. intros s4 ?. later. by apply post_ok.
    + apply safe_ret. intros s4 ?. later. by apply post_ok.
  - assert (settled s2 k) as Hs by (exact (load_settled _ _ _ _ _ _ Hrow Hdel)). later.
    destruct row; apply safe_ret; intros s4 ?; cbn [ended]; by later.
Qed.

(** What an outcome proves. *)
Definition concluded (k : DKey) (r : result Exn WebhookDeliveryOutcome) (s : World) : Prop :=
  match r with Ok Delivered | Ok Cancelled | Ok DeliveryFailed => settled s k | _ => True end.

Lemma hook_ok {A : Type} name k (a : A) (Q : A -> World -> Prop) s :
  settled s k -> (forall s, settled s k -> Q a s) -> ok (pbind (act (Hook name)) (fun _ => Ret a)) Q s.
Proof. intros Hs HQ. perform u Hu; [done|]. apply safe_ret. intros s4 L4. later. by apply HQ. Qed.

Lemma conclude_ok k r s : ended k r s -> ok (conclude r) (concluded k) s.
Proof.
  intros He. unfold conclude. destruct r as [[]|[]]; cbn [ended] in He.
  - perform u Hu; [done|]. later. by apply (hook_ok _ k).
  - apply safe_ret. intros s1 L1. cbn [concluded]. by later.
  - by apply safe_ret.
  - by apply safe_ret.
  - perform u Hu; [done|]. by apply safe_ret.
  - by apply (hook_ok _ k).
Qed.

Lemma delivery_ok w k d body ctx s :
  minted s !! d = Some k -> identified k d body ->
  ok (pbind (deliverWebhook hmac redact cfg fuel w k d body ctx) conclude) (concluded k) s.
Proof.
  intros Hm Hid. apply hook_bind_ok. eapply hook_conseq_ok; [by apply loop_ok|]. intros r s1 _ Hr. by apply conclude_ok.
Qed.

Lemma enqueue_ok w k d body ctx s :
  minted s !! d = Some k -> identified k d body ->
  ok (enqueueWithFallback hmac redact cfg fuel w k d body ctx) (concluded k) s.
Proof.
  intros Hm Hid. unfold enqueueWithFallback. perform added Hadd; [split; [|done]; split_and!; [by later|done|done|done]|].
  later. destruct added.
  - unfold markQueued. apply hook_bind_ok. perform u Hu; [by later|]. apply safe_ret. intros s7 L7. perform u2 Hu2; [done|]. by apply safe_ret.
  - apply hook_bind_ok. unfold aborted.
    assert (forall (stop : bool) s, minted s !! d = Some k -> ok (if stop then Ret (Err EAborted) else
      pbind (act (Hook "webhook:error")) (fun _ => pbind (deliverWebhook hmac redact cfg fuel w k d body ctx) conclude)) (concluded k) s) as Hgo.
    { intros [] s0 Hm0; [by apply safe_ret|]. perform u Hu; [done|]. later. by apply delivery_ok. }
    destruct (c_signal ctx).
    + apply safe_act. intros s4 ? ?. split; [done|]. intros stop s5 _ ? ? s6 ?. later. by apply Hgo.
    + apply safe_ret. intros s4 ?. later. by apply (Hgo false).
Qed.

Lemma deliverOne_ok w k d ctx s :
  minted s !! d = Some k -> ok (deliverOne hmac redact cfg fuel w k d ctx) (concluded k) s.
Proof.
  intros Hm. unfold deliverOne. apply hook_bind_ok. eapply hook_conseq_ok; [apply preflight_ok|]. intros r s1 L1 Hr. later.
  destruct r; try (apply safe_ret; intros s2 L2; cbn [concluded]; by later).
  destruct (_ && _); [by apply enqueue_ok|by apply delivery_ok].
Qed.

Lemma close_task_ok k st s : settled s k -> ok (close k st) (fun _ s => settled s k) s.
Proof. intros Hs. unfold close. perform u Hu; [by later|]. apply safe_ret. intros s4 L4. by later. Qed.

(** A close by a task that knows the delivery settled, and the rest. *)
Lemma close_then_ok {A : Type} k st (p : task A) Q s :
  settled s k -> (forall s1, le s s1 -> ok p Q s1) -> ok (pbind (close k st) (fun _ => p)) Q s.
Proof. intros Hs Hp. apply hook_bind_ok. eapply hook_conseq_ok; [by apply close_task_ok|]. intros _ s1 L1 _. by apply Hp. Qed.

Abbreviation fine := (fun _ _ => True).

Lemma close_fine k st s : settled s k -> ok (close k st) fine s.
Proof. intros Hs. eapply hook_conseq_ok; [by apply close_task_ok|done]. Qed.

Lemma record_close_ok i k s : in_key i = k -> 0 <= in_attempts i ->
  ok (pbind (recordWebhookDeliveryFailure i) (fun recorded => match recorded with Some _ => close k Dispatched | None => Ret tt end)) fine s.
Proof.
  intros <- Hi. apply hook_bind_ok. eapply hook_conseq_ok; [by apply record_ok|]. intros [b|] s1 _ H1; [|by apply safe_ret].
  apply close_fine, H1. by eexists.
Qed.

Lemma limited_ok w k d ctx s :
  isDeliverableWebhook (Some w) (c_event ctx) None = true -> minted s !! d = Some k ->
  ok (runLimited hmac redact cfg fuel w k d ctx) fine s.
Proof.
  intros Hw Hm. unfold runLimited.
  assert (forall err s, ok (pbind (recordUndelivered redact w k d err ctx) (fun _ => Ret tt)) fine s) as Hund.
  { intros err s0. apply hook_bind_ok. eapply hook_conseq_ok; [apply undelivered_ok|]. intros r s1 _ _. by apply safe_ret. }
  assert (forall target s, minted s !! d = Some k -> ok (pbind (deliverOne hmac redact cfg fuel target k d ctx) (fun outcome =>
    match outcome with Ok Unrecorded | Ok Enqueued => Ret tt | Ok _ => close k Dispatched
    | Err EClosed => pbind (recordUndelivered redact w k d "ConcurrencyLimiter closed" ctx) (fun _ => Ret tt) | Err _ => Ret tt end)) fine s) as Hdel.
  { intros target s0 Hm0. apply hook_bind_ok. eapply hook_conseq_ok; [by apply deliverOne_ok|]. intros [[]|[]] s1 _ H1;
      cbn [concluded] in H1; try (by apply close_fine); try (by apply safe_ret). apply Hund. }
  perform adm Hadm; [done|]. later. destruct adm as [| |[]]; [apply Hund|apply Hund| |by apply Hdel].
  perform row Hrow; [done|]. later. destruct row as [row|]; [|rewrite Hw; by apply Hdel].
  destruct (isDeliverableWebhook row (c_event ctx) None) eqn:E; [by apply Hdel|].
  pose proof (load_settled _ _ _ _ _ _ Hrow E). later. by apply close_fine.
Qed.

Lemma mint_task_ok {A : Type} k (f : string -> task A) Q s :
  (forall d s1, le s s1 -> minted s1 !! d = Some k -> ok (f d) Q s1) -> ok (pbind (act (MintDelivery k)) f) Q s.
Proof.
  intros Hf. perform d Hd; [done|]. cbn [run] in Hd. destruct Hd as [_ Hd].
  apply Hf; [etrans; [|done]; by etrans|]. apply (le_minted _ _ ltac:(eassumption)). subst. simpl. apply lookup_insert_eq.
Qed.

Lemma dispatch_ok id w base ctx s :
  isDeliverableWebhook (Some w) (c_event ctx) None = true -> ok (dispatchWithLimit hmac redact cfg fuel id w base ctx) fine s.
Proof.
  intros Hw. unfold dispatchWithLimit. apply mint_task_ok. intros d s1 _ Hm. unfold open. apply hook_bind_ok. perform u Hu; [by later|].
  apply safe_ret. intros s5 L5. later. by apply limited_ok.
Qed.

Lemma redeliver_ok w k ctx s : ok (redeliver hmac redact cfg fuel w k ctx) (concluded k) s.
Proof.
  unfold redeliver. apply mint_task_ok. intros d s1 _ Hm. apply hook_bind_ok. eapply hook_conseq_ok; [by apply deliverOne_ok|]. intros r s2 _ Hr.
  assert (ok (Ret (E := eff) r) (concluded k) s2) as Hret.
  { apply safe_ret. intros s3 L3. destruct r as [[]|]; cbn [concluded] in *; by later. }
  destruct r as [[]|]; try (apply hook_bind_ok, safe_ret; intros s3 L3; exact (safe_le _ _ _ _ _ _ s2 s3 Hret L3)).
  apply close_then_ok; [done|]. intros s3 L3. exact (safe_le _ _ _ _ _ _ s2 s3 Hret L3).
Qed.

(** *** The reconciler *)

Definition rows_ok (s : World) (rows : list (DKey * OutboxRow)) : Prop :=
  Forall (fun e => minted s !! o_deliveryId (snd e) = Some (fst e)) rows.

Lemma rows_le s s' rows : le s s' -> rows_ok s rows -> rows_ok s' rows.
Proof. intros Hle Hr. eapply Forall_impl; [exact Hr|]. intros e He. by apply (le_minted _ _ Hle). Qed.

Lemma stale_rows_ok t limit after s : Inv s -> rows_ok s (stale_page t limit after s).
Proof.
  intros HI. apply Forall_take. apply Forall_forall. intros [k r]. rewrite merge_sort_Permutation. rewrite list_elem_of_In, filter_In.
  intros [Hin%list_elem_of_In _]. apply elem_of_map_to_list in Hin. by apply (i_rows _ HI).
Qed.

Lemma rows_filter s (p : DKey * OutboxRow -> bool) rows : rows_ok s rows -> rows_ok s (List.filter p rows).
Proof.
  unfold rows_ok. rewrite !Forall_forall. intros H e He. apply H. apply list_elem_of_In, filter_In in He as [He%list_elem_of_In _]. done.
Qed.

Lemma read_rows_ok ids s : ok (read_rows ids) (fun rows s => rows_ok s rows) s.
Proof.
  revert s. induction ids as [|id ids IH]; intros s; cbn [read_rows]; [apply safe_ret; intros; constructor|].
  perform row Hrow; [done|]. apply hook_bind_ok. eapply hook_conseq_ok; [apply IH|]. intros rows s4 L4 Hrows.
  cbn [run] in Hrow. destruct Hrow as [-> Hrow]. apply safe_ret. intros s5 L5.
  assert (rows_ok s5 rows) as H5 by exact (rows_le _ _ _ L5 Hrows).
  destruct Hrow as [->|Hrow]; [done|]. destruct row as [[[k r]|]|]; [|done|done]. constructor; [|done].
  injection Hrow as Hrow. symmetry in Hrow. apply List.find_some in Hrow as [Hin%list_elem_of_In _]. apply elem_of_map_to_list in Hin.
  apply (i_rows s1) in Hin; [|done]. cbn [fst snd]. by later.
Qed.

Lemma findStale_ok t limit after s :
  ok (findStale t limit after) (fun r s => match r with Ok (rows, _) => rows_ok s rows | Err _ => True end) s.
Proof.
  unfold findStale. perform page Hpage; [done|]. cbn [run] in Hpage. destruct Hpage as [-> Hpage]. destruct page as [rows|].
  - destruct Hpage as [?|[= ->]]; [done|]. apply safe_ret. intros s4 L4. apply rows_filter. apply (rows_le s1); [etrans; done|]. by apply stale_rows_ok.
  - clear Hpage. perform ids Hids; [done|]. destruct ids as [ids|]; [|by apply safe_ret]. apply hook_bind_ok. eapply hook_conseq_ok; [apply read_rows_ok|].
    intros rows s7 L7 Hrows. apply safe_ret. intros s8 L8. apply rows_filter. exact (rows_le _ _ _ L8 Hrows).
Qed.

Lemma pending_ok (named : bool) d s : ok (if named then isQueueJobPending cfg d else Ret false) (fun _ _ => True) s.
Proof. unfold isQueueJobPending. destruct named; [|by apply safe_ret]. destruct (queueEnabled cfg); [|by apply safe_ret]. apply plain_ok; [done|]. intros. by apply safe_ret. Qed.

Lemma completed_ok k (named : bool) d s : minted s !! d = Some k ->
  ok (if named then hasQueueJobCompleted cfg d else Ret false) (fun r s => r = true -> settled s k) s.
Proof.
  intros Hm. unfold hasQueueJobCompleted. destruct named; [|by apply safe_ret]. destruct (queueEnabled cfg); [|by apply safe_ret].
  perform st Hst; [done|]. cbn [run] in Hst. destruct Hst as [-> Hst]. apply safe_ret. intros s4 L4 Hdone.
  destruct st as [[st|]|]; [|done|done]. bool_facts. subst st. destruct Hst as [?|Hst]; [done|]. injection Hst as Hst.
  symmetry in Hst. apply fmap_Some in Hst as (j & Hj & Hc). destruct (i_jobs s1 ltac:(done) d j Hj) as [[Hk _] Hs].
  apply (le_minted _ _ L) in Hm. assert (j_key j = k) as <- by congruence. specialize (Hs (eq_sym Hc)). by later.
Qed.

Lemma exhaustion_ok k row payload url s :
  ok (recordReplayExhaustion cfg k row payload url) (fun r s => r = Ok true -> settled s k) s.
Proof.
  unfold recordReplayExhaustion. perform n Hn; [done|]. destruct n as [n|]; [|by apply safe_ret].
  destruct (0 <? n) eqn:E; bool_facts.
  - assert (attested s1 k) as Ha by (eapply count_attested; [exact Hn|done|done]). clear Hn. later. apply attested_settled in Ha.
    destruct (keepsFailurePayload cfg); [|apply safe_ret; intros s4 L4 _; by later].
    perform kept Hk; [done|]. apply safe_ret. intros s7 L7 _. by later.
  - clear Hn. perform u Hu; [done|]. destruct u as [u|]; [|by apply safe_ret]. apply hook_bind_ok.
    eapply hook_conseq_ok; [apply record_ok; simpl; lia|]. intros r s7 _ Hr. cbn [in_key] in Hr. apply safe_ret. intros s8 L8 Hok.
    destruct r; [|done]. specialize (Hr ltac:(by eexists)). by later.
Qed.

Lemma replayRow_ok w k row payload one s : ok (replayRow hmac redact cfg fuel w k row payload one) fine s.
Proof.
  unfold replayRow. apply hook_bind_ok. eapply hook_conseq_ok; [apply redeliver_ok|]. intros [[]|[]] s1 _ H1; cbn [concluded] in H1; try (by apply safe_ret).
  apply close_then_ok; [done|]. intros s2 _. by apply safe_ret.
Qed.

Lemma sweepRows_ok rows failedWebhooks stats s :
  rows_ok s rows -> ok (sweepRows hmac redact cfg fuel rows failedWebhooks stats) fine s.
Proof.
  revert failedWebhooks stats s. induction rows as [|[k row] rows IH]; intros fw stats s Hr; cbn [sweepRows]; [by apply safe_ret|].
  apply Forall_cons in Hr as [Hm Hr]. cbn [fst snd] in Hm.
  assert (forall fw stats s1, le s s1 -> ok (sweepRows hmac redact cfg fuel rows fw stats) fine s1) as IH'.
  { intros fw' st' s' L'. apply IH. exact (rows_le _ _ _ L' Hr). }
  assert (forall st s1, le s s1 -> settled s1 k ->
    ok (pbind (close k st) (fun _ => sweepRows hmac redact cfg fuel rows fw (add_skipped stats))) fine s1) as Hclose.
  { intros st s' L' Hs. apply close_then_ok; [done|]. intros s'' L''. apply IH'. by etrans. }
  apply plain_ok; [done|]. intros [] s1 L1; [by apply safe_ret|].
  apply plain_ok; [done|]. intros [] s2 L2; [apply IH'; by etrans|].
  apply load_ok; [by intros; apply safe_ret| |].
  { intros r s3 L3 Hs Hdel. destruct r as [w|]; [rewrite Hdel; cbn [negb]|]; (apply Hclose; [|done]; etrans; [|exact L3]; by etrans). }
  intros w s3 L3 Hdel. rewrite Hdel; cbn [negb]. assert (le s s3) as L by (etrans; [|exact L3]; by etrans). clear L1 L2 L3 s1 s2.
  apply hook_bind_ok. eapply hook_conseq_ok; [apply pending_ok|]. intros [] s1 L1 _; [apply IH'; by etrans|].
  apply hook_bind_ok. eapply hook_conseq_ok; [apply (completed_ok k); by later|]. intros [] s2 L2 Hdone; [apply Hclose; [|by apply Hdone]; etrans; [|exact L2]; by etrans|].
  assert (le s s2) as L' by (etrans; [|exact L2]; by etrans). clear L L1 L2 Hdone s1 s3.
  destruct (maxAttempts cfg <=? o_attempts row).
  - apply hook_bind_ok. eapply hook_conseq_ok; [apply exhaustion_ok|]. intros [[]|] s1 L1 H1; [| |by apply safe_ret].
    + apply close_then_ok; [by apply H1|]. intros s3 L3. apply IH'. etrans; [|exact L3]. by etrans.
    + apply hook_bind_ok, safe_ret. intros s3 L3. apply IH'. etrans; [|exact L3]. by etrans.
  - apply plain_ok; [done|]. intros [] s1 L1; [by apply safe_ret|].
    unfold countAttempt. apply hook_bind_ok, plain_ok; [done|]. intros c s3 L3. apply safe_ret. intros s4 L4.
    assert (le s s4) as L by (etrans; [|exact L4]; etrans; [|exact L3]; by etrans).
    destruct (negb _); [by apply IH'|]. apply hook_bind_ok. eapply hook_conseq_ok; [apply replayRow_ok|].
    intros [] s5 L5 _; apply IH'; by etrans.
Qed.

Lemma sweep_ok now cursor s : ok (sweep hmac redact cfg fuel now cursor) fine s.
Proof.
  unfold sweep. apply hook_bind_ok. eapply hook_conseq_ok; [apply findStale_ok|]. intros first s1 _ H1. apply hook_bind_ok.
  assert (forall (found : result unit (list (DKey * OutboxRow) * option nat)) s, (match found with Ok (rows, _) => rows_ok s rows | Err _ => True end) ->
    ok (match found with Err _ => Ret (E := eff) (Err tt) | Ok (rows, scannedThrough) =>
      pbind (sweepRows hmac redact cfg fuel rows [] (mkStats (Z.of_nat (length rows)) 0 0 0))
       (fun stats => Ret (match stats with Ok st => Ok (st, match scannedThrough with Some id => Some id | None => o_id ∘ snd <$> last rows end) | Err _ => Err tt end)) end)
      fine s) as Hgo.
  { intros [[rows t]|] s2 H2; [|by apply safe_ret]. apply hook_bind_ok. eapply hook_conseq_ok; [by apply sweepRows_ok|]. intros. by apply safe_ret. }
  assert (forall s2, le s1 s2 -> match first with Ok (rows, _) => rows_ok s2 rows | Err _ => True end) as Hle.
  { intros s2 L2. destruct first as [[rows t]|]; [|done]. exact (rows_le _ _ _ L2 H1). }
  assert (ok (Ret (E := eff) first) (fun found s => match found with Ok (rows, _) => rows_ok s rows | Err _ => True end) s1) as Hsame
    by (apply safe_ret; exact Hle).
  eapply hook_conseq_ok; [|intros found s2 _ H2; exact (Hgo found s2 H2)].
  destruct first as [[[|] [|]]|], cursor; try exact Hsame. apply findStale_ok.
Qed.

(** *** The redrive and the worker *)

Lemma bump_ok {A : Type} row (a : A) s : ok (pbind (bumpAttempts row) (fun _ => Ret a)) fine s.
Proof. unfold bumpAttempts. apply hook_bind_ok, plain_ok; [done|]. intros b s1 _. apply safe_ret. intros. by apply safe_ret. Qed.

Lemma redriveRow_ok row w r s : ok (redriveRow hmac redact cfg fuel row w r) fine s.
Proof.
  unfold redriveRow. destruct w as [w|]; [|by apply safe_ret]. destruct (_ || _); [by apply safe_ret|].
  apply plain_ok; [done|]. intros [cur|] s1 _; [|apply bump_ok].
  destruct (match cur with Some f => f_payload f | None => None end); [|by apply safe_ret]. apply hook_bind_ok.
  eapply hook_conseq_ok; [apply redeliver_ok|]. intros [o|] s2 _ _; [|apply bump_ok].
  destruct o; try (by apply safe_ret); try apply bump_ok.
  apply plain_ok; [done|]. intros [[f|]|] s3 _; [destruct (_ =? _)| |]; try (by apply safe_ret); apply bump_ok.
Qed.

Lemma worker_record_ok job url err s : 0 <= j_attemptsMade job -> ok (recordDeliveryFailure redact cfg job url err) fine s.
Proof.
  intros Ha. unfold recordDeliveryFailure. destruct (_ <=? _); [|by apply safe_ret]. apply plain_ok; [done|]. intros _ s1 _.
  apply record_close_ok; simpl; [done|lia].
Qed.

Lemma success_ok job s : j_key job ∈ delivered s -> ok (recordSuccessfulDelivery job) (fun _ s => settled s (j_key job)) s.
Proof.
  intros Hd. unfold recordSuccessfulDelivery. apply plain_ok; [done|]. intros _ s1 L1. later. unfold clearDeliveryFailureRows.
  apply hook_bind_ok. perform b Hb; [by later|]. apply safe_ret. intros s5 L5. later. apply delivered_settled in Hd.
  by apply (hook_ok _ (j_key job)).
Qed.

Lemma deliver_ok d job s :
  job_ok s d job -> ok (deliver hmac redact cfg job) (fun r s => r = true -> settled s (j_key job)) s.
Proof.
  intros (Hm & Hd & Hid & Ha). unfold deliver.
  assert (forall url err s, ok (pbind (recordDeliveryFailure redact cfg job url err) (fun _ => Ret false)) (fun r s => r = true -> settled s (j_key job)) s) as Hfail.
  { intros url err s0. apply hook_bind_ok. eapply hook_conseq_ok; [by apply worker_record_ok|]. intros. by apply safe_ret. }
  assert (forall s1, settled s1 (j_key job) -> ok (pbind (close (j_key job) Dispatched) (fun _ => Ret true)) (fun r s => r = true -> settled s (j_key job)) s1) as Hdone.
  { intros s0 Hs. apply hook_bind_ok. eapply hook_conseq_ok; [by apply close_task_ok|]. intros [] s1 _ H1. apply safe_ret. intros s2 L2 _. by later. }
  apply load_ok; [intros; apply Hfail| |].
  - intros [w|] s1 L1 Hs Hw; [rewrite Hw|]; by apply Hdone.
  - intros w s1 L1 Hw. rewrite Hw. later. perform ans Hans.
    + exists d. split; [by later|]. split; [done|]. rewrite Hd. apply headers_ok.
    + destruct ans as [u|msg]; [|apply Hfail].
      match type of Hans with run _ _ _ _ ?s2 => assert (j_key job ∈ delivered s2) as Hdel by (cbn [run] in Hans; subst s2; simpl; set_solver) end. later.
      apply close_then_ok; [by apply delivered_settled|]. intros s5 L5. later. apply hook_bind_ok. eapply hook_conseq_ok; [by apply success_ok|].
      intros [] s6 _ H6. apply safe_ret. intros s7 L7 _. by later.
Qed.

Lemma process_ok d job s : job_ok s d job -> ok (process hmac redact cfg d job) fine s.
Proof.
  intros Hj. unfold process. apply plain_ok; [done|]. intros [] s1 L1; [|by apply safe_ret].
  apply hook_bind_ok. eapply hook_conseq_ok; [by apply (deliver_ok d), (job_le s)|]. intros [] s2 L2 H2; [|by apply safe_ret].
  specialize (H2 eq_refl). destruct Hj as [Hm _]. apply safe_act. intros s3 L3 I3. split; [|done]. split; by later.
Qed.

Lemma stalled_ok job s : 0 <= j_attemptsMade job -> ok (onWorkerFailed cfg job) fine s.
Proof.
  intros Ha. unfold onWorkerFailed.
  apply plain_ok; [done|]. intros [[w|]|] s1 _; [destruct (isDeliverableWebhook _ _ _)| |]; try (by apply safe_ret);
    (apply plain_ok; [done|]; intros _ s2 _; apply record_close_ok; simpl; [done|lia]).
Qed.

Lemma hook_starts_ok s p : Inv s -> starts hmac redact cfg fuel s p -> ok p fine s.
Proof.
  intros HI Hst. destruct Hst as [id w base ctx Hw|now cursor|row w r Hr|d job Hj|d job Hj|cutoff].
  - by apply dispatch_ok.
  - apply hook_bind_ok. eapply hook_conseq_ok; [apply sweep_ok|]. intros. by apply safe_ret.
  - apply hook_bind_ok. eapply hook_conseq_ok; [apply redriveRow_ok|]. intros. by apply safe_ret.
  - apply process_ok. by destruct (i_jobs _ HI _ _ Hj).
  - apply stalled_ok. by destruct (i_jobs _ HI _ _ Hj) as [(_ & _ & _ & ?) _].
  - unfold pruneSettled. apply plain_ok; [done|]. intros. by apply safe_ret.
Qed.

(** ** The properties *)

(** The server starts with empty tables, any webhooks and any time. *)
Definition fresh (w : gmap string Webhook) (now : Z) : World := mkWorld w ∅ [] ∅ now 0 ∅ ∅ ∅ ∅ ∅ [].

Definition reachable (w : gmap string Webhook) (now : Z) (c : list (task unit) * World) : Prop :=
  rtc (pool_step run env (starts hmac redact cfg fuel)) ([], fresh w now) c.

Lemma hook_reachable_inv w now c : reachable w now c -> Inv (snd c).
Proof.
  intros Hr. refine (pool_invariant run env (starts hmac redact cfg fuel) le pre Inv hook_run_ok hook_env_inv hook_starts_ok (fresh w now) c _ Hr).
  split; [set_solver|done|done|constructor].
Qed.


(** Every request that leaves the process carries the delivery's own
    idempotency key, in its body and its header, and a delivery id drawn for that
    delivery and no other: whatever the plugins' hooks made of the body, and
    whichever of the direct path, the queue, the reconciler or the redrive sent it. *)
Theorem posts_carry_the_key w now ts s p :
  reachable w now (ts, s) -> p ∈ posts s ->
  exists d, minted s !! d = Some (p_key p) /\
    field (p_body p) "idempotencyKey" = Some (JStr (snd (p_key p))) /\ field (p_body p) "deliveryId" = Some (JStr d) /\
    JMap.get "X-OpenWA-Idempotency-Key" (p_headers p) = Some (snd (p_key p)) /\
    JMap.get "X-OpenWA-Delivery-Id" (p_headers p) = Some d.
Proof.
  intros Hr Hp. pose proof (i_posts _ (hook_reachable_inv _ _ _ Hr)) as Hf. rewrite Forall_forall in Hf.
  destruct (Hf p Hp) as (d & Hm & [H1 H2] & H3 & H4). by exists d.
Qed.
End tasks.

(** ** A run *)

Definition hook_w : Webhook := mkWebhook "s1" "https://h/" (Some ["*"]) None [] true 3.
Definition hooks_w : gmap string Webhook := {["w" := hook_w]}.
Definition cfg_w : Config := mkConfig false 1000 24 100000 5 60000 10.
Definition ctx_w : Ctx := mkCtx "s1" "message" (JObj []) false false false.
Definition key_w : DKey := ("w", "m_w").

(** The first task of the pool performs its next effect, answered by [b]. *)
Ltac answer b :=
  eapply rtc_l; [eapply (ps_task run env _ []); cbn [prog_step pbind act]; exists b; (split; [cbn [run]|cbn [pbind]; reflexivity])|].

Definition hmac_w (_ _ : string) : string := "".
Definition redact_w (s : string) : string := s.

Lemma run_w : exists ts s, reachable hmac_w redact_w cfg_w 5 hooks_w 0 (ts, s) /\ key_w ∈ opened s /\ exists p, p ∈ posts s /\ p_key p = key_w.
Proof.
  eexists _, _. split.
  - eapply rtc_l; [eapply ps_start, (st_dispatch _ _ _ _ _ "w" hook_w "m" ctx_w); reflexivity|].
    unfold dispatchWithLimit, open, fresh.
    answer "d". { split; [reflexivity|reflexivity]. }
    answer Inserted. { right. split; [by right|reflexivity]. }
    unfold runLimited, deliverOne, preflightDelivery.
    answer (Granted false). { reflexivity. }
    answer "now". { reflexivity. }
    answer (BeforeReturned (JObj [])). { reflexivity. }
    unfold deliverDirect, deliverWebhook. cbn -[run].
    answer (Ok (E := unit) (Some hook_w)). { right. split; reflexivity. }
    answer (Err (A := unit) "HTTP 500"). { reflexivity. }
    apply rtc_refl.
  - split; [vm_compute; tauto|]. eexists. split; [by left|reflexivity].
Qed.


Lemma posts_carry_the_key_witness :
  exists ts s p d, reachable hmac_w redact_w cfg_w 5 hooks_w 0 (ts, s) /\ p ∈ posts s /\ p_key p = key_w /\
    field (p_body p) "deliveryId" = Some (JStr d).
Proof.
  destruct run_w as (ts & s & Hr & _ & p & Hp & Hk). exists ts, s, p.
  destruct (posts_carry_the_key _ _ _ _ _ _ _ _ _ Hr Hp) as (d & _ & _ & Hd & _). by exists d.
Defined.
