(* ===== verification/Ownership.v ===== *)
(** * Session ownership: leases and claims

    [src/src/modules/session/session-ownership.service.ts]: which process hosts a
    session's engine, as a lease on the session's row that its holder keeps
    renewing.  Every SQL statement and every synchronous block of the service is
    an effect, every method a program over them, so that the methods of any
    number of processes interleave at their awaits.  The theorems say what a lease
    is worth: while it runs nobody else writes the row, it never runs for longer
    than the TTL, a claim's token does not come back, and a loss is only ever
    concluded from a row that named another holder. *)
From S2P Require Import Prelude JsString Prog.
Local Open Scope string_scope.
Local Open Scope Z_scope.

(** ** Data *)

Record Row := mkRow {
  nodeId : option string;
  claimedAt : option Z;
  leaseExpiresAt : option Z;
  nodeUrl : option string;
  desiredState : option string
}.

(** What one process keeps in memory. *)
Record Proc := mkProc {
  owned : gset string;
  claimGen : gmap string Z;
  claimSeq : Z;
  lossDetectionSuspended : Z;
  lastSeenLease : gmap string Z;
  foreignStreak : gmap string Z;
  duplicateReported : bool
}.
Definition idle : Proc := mkProc ∅ ∅ 0 0 ∅ ∅ false.

(** A write of a row: by which process, when, and what it changed. *)
Record Write := mkWrite { w_by : nat; w_sid : string; w_before : Row; w_after : Row; w_at : Z }.

(** The shared world.  The processes are numbered, a restarted one anew.  [log]
    holds the writes, newest first; [seen] the reads that found a held claim's row
    naming another holder, with the claim's generation; [lost] the losses a
    process concluded; [admitted] the starts it let through. *)
Record World := mkWorld {
  rows : gmap string Row;
  procs : gmap nat Proc;
  clock : Z;
  log : list Write;
  seen : list (nat * string * Z);
  lost : list (nat * string * Z);
  admitted : list (nat * string * Z * Z)
}.

Definition proc (s : World) (p : nat) : Proc := default idle (procs s !! p).
Definition with_proc (s : World) (p : nat) (st : Proc) : World :=
  mkWorld (rows s) (<[p := st]> (procs s)) (clock s) (log s) (seen s) (lost s) (admitted s).

(** ** Statements *)

Inductive Stmt :=
| Renew (lease : Z)
| Claim (now lease : Z) (url : option string)
| Prepare (now lease : Z) (desired : option string)
| StopForeign (now : Z)
| ReleaseOwn
| ReleaseLapsed (now : Z)
| ClearOwn.

Definition is_me (me : string) (r : Row) : bool := bool_decide (nodeId r = Some me).
(** [nodeId <> me] in SQL: a null does not match. *)
Definition is_other (me : string) (r : Row) : bool :=
  match nodeId r with Some n => negb (String.eqb n me) | None => false end.
Definition lease_before (now : Z) (r : Row) : bool := match leaseExpiresAt r with Some t => t <? now | None => false end.
Definition lease_after (now : Z) (r : Row) : bool := match leaseExpiresAt r with Some t => now <? t | None => false end.
Definition deleting (r : Row) : bool :=
  bool_decide (desiredState r = Some "deleting") || bool_decide (desiredState r = Some "deleting-stopped").

(** The rule of [claimableWhere] and of the claim's own [WHERE]. *)
Definition takeable (me : string) (now : Z) (r : Row) : bool :=
  bool_decide (nodeId r = None) || is_me me r || lease_before now r.

(** The [WHERE] of each statement. *)
Definition hits (me : string) (st : Stmt) (r : Row) : bool :=
  match st with
  | Renew _ | ReleaseOwn | ClearOwn => is_me me r
  | Claim now _ _ => takeable me now r
  | Prepare now _ desired => is_me me r && lease_after now r && bool_decide (desiredState r = desired)
  | StopForeign now =>
      is_other me r && negb (deleting r) &&
      match leaseExpiresAt r with None => true | Some t => t <=? now end
  | ReleaseLapsed now => is_other me r && lease_before now r && negb (deleting r)
  end.

(** Its [SET]. *)
Definition cleared (desired : option string) : Row := mkRow None None None None desired.

Definition applied (me : string) (st : Stmt) (r : Row) : Row :=
  match st with
  | Renew lease => mkRow (nodeId r) (claimedAt r) (Some lease) (nodeUrl r) (desiredState r)
  | Claim now lease url => mkRow (Some me) (Some now) (Some lease) url (desiredState r)
  | Prepare _ lease _ => mkRow (nodeId r) (claimedAt r) (Some lease) (nodeUrl r) None
  | StopForeign _ => cleared (Some "stopped")
  | ReleaseOwn => cleared (if bool_decide (desiredState r = Some "deleting-stopped") then Some "stopped" else desiredState r)
  | ReleaseLapsed _ | ClearOwn => cleared (desiredState r)
  end.

Section nodes.
(** The configuration: each process's node id and URL, the lease's TTL, and what
    [onAdoption] registered ([None], or whether it is transactional). *)
Context (nodeOf : nat -> string) (urlOf : nat -> option string) (leaseTtlMs : Z) (onAdopted : option bool).

(** A statement of process [p] on one row. *)
Definition write_row (p : nat) (st : Stmt) (s : World) (sid : string) : World :=
  match rows s !! sid with
  | Some r =>
      if hits (nodeOf p) st r then
        let r' := applied (nodeOf p) st r in
        mkWorld (<[sid := r']> (rows s)) (procs s) (clock s) (mkWrite p sid r r' (clock s) :: log s) (seen s) (lost s) (admitted s)
      else s
  | None => s
  end.

Definition row_hit (p : nat) (st : Stmt) (s : World) (sid : string) : bool :=
  match rows s !! sid with Some r => hits (nodeOf p) st r | None => false end.

(** The ids among [ids] whose row names [p]'s node. *)
Definition named (p : nat) (s : World) (ids : list string) : list string :=
  List.filter (fun id => match rows s !! id with Some r => is_me (nodeOf p) r | None => false end) ids.

(** ** Effects *)

Inductive eff : Type -> Type :=
| Now : eff Z
| Local {B : Type} (p : nat) (f : Proc -> B * Proc) : eff B
| Update (p : nat) (st : Stmt) (sid : string) : eff (result unit bool)
| UpdateIn (p : nat) (st : Stmt) (ids : list string) : eff bool
| ReadRow (sid : string) : eff (result unit (option Row))
| MyRows (p : nat) : eff (result unit (list (string * Row)))
| StillNamed (p : nat) (ids : list string) : eff (result unit (list string))
| TransactionFree : eff bool
| CommitLost : eff bool
| EngineLiveness (p : nat) : eff (gset string)
| Adopted (p : nat) (sid : string) : eff unit
| LeaseLost (p : nat) (ids : list (string * Z)) : eff unit
| StartAdmitted (p : nat) (sid : string) (lease at_ : Z) : eff unit.

(** The held claims, with their generations, that a read did not find. *)
Definition unnamed (p : nat) (s : World) (ids : list string) : list (nat * string * Z) :=
  omap (fun id => if existsb (String.eqb id) (named p s ids) then None
                  else (fun g => (p, id, g)) <$> claimGen (proc s p) !! id) ids.

Definition run (B : Type) (e : eff B) (s : World) : B -> World -> Prop :=
  match e in eff B return B -> World -> Prop with
  | Now => fun t s' => t = clock s /\ s' = s
  | Local p f => fun b s' => b = fst (f (proc s p)) /\ s' = with_proc s p (snd (f (proc s p)))
  | Update p st sid => fun r s' =>
      (r = Err tt /\ s' = s) \/ ((r = Err tt \/ r = Ok (row_hit p st s sid)) /\ s' = write_row p st s sid)
  | UpdateIn p st ids => fun ok s' => (ok = false /\ s' = s) \/ s' = fold_left (write_row p st) ids s
  | ReadRow sid => fun r s' => s' = s /\ (r = Err tt \/ r = Ok (rows s !! sid))
  | MyRows p => fun r s' => s' = s /\ (r = Err tt \/ r = Ok (List.filter (fun e => is_me (nodeOf p) (snd e)) (map_to_list (rows s))))
  | StillNamed p ids => fun r s' =>
      (r = Err tt /\ s' = s) \/
      (r = Ok (named p s ids) /\
       s' = mkWorld (rows s) (procs s) (clock s) (log s) (unnamed p s ids ++ seen s)%list (lost s) (admitted s))
  | LeaseLost p ids => fun _ s' =>
      s' = mkWorld (rows s) (procs s) (clock s) (log s) (seen s) (map (fun e => (p, fst e, snd e)) ids ++ lost s)%list (admitted s)
  | StartAdmitted p sid lease at_ => fun _ s' =>
      s' = mkWorld (rows s) (procs s) (clock s) (log s) (seen s) (lost s) ((p, sid, lease, at_) :: admitted s)
  | TransactionFree | CommitLost | EngineLiveness _ | Adopted _ _ => fun _ s' => s' = s
  end.

Abbreviation task := (prog eff).
Local Open Scope prog_scope.

(** ** The synchronous blocks *)

Definition with_owned (st : Proc) (o : gset string) : Proc :=
  mkProc o (claimGen st) (claimSeq st) (lossDetectionSuspended st) (lastSeenLease st) (foreignStreak st) (duplicateReported st).
Definition with_gens (st : Proc) (g : gmap string Z) (seq : Z) : Proc :=
  mkProc (owned st) g seq (lossDetectionSuspended st) (lastSeenLease st) (foreignStreak st) (duplicateReported st).
Definition with_leases (st : Proc) (l f : gmap string Z) (reported : bool) : Proc :=
  mkProc (owned st) (claimGen st) (claimSeq st) (lossDetectionSuspended st) l f reported.
Definition note_lease (sid : string) (lease : Z) (st : Proc) : Proc :=
  with_leases st (<[sid := lease]> (lastSeenLease st)) (foreignStreak st) (duplicateReported st).

(** [owned.delete] and [claimGen.delete] *)
Definition forget (sid : string) (st : Proc) : Proc :=
  with_gens (with_owned st (owned st ∖ {[sid]})) (base.delete sid (claimGen st)) (claimSeq st).

(** [claimGen.set(sessionId, ++claimSeq)] *)
Definition allocate (sid : string) (st : Proc) : Z * Proc :=
  (claimSeq st + 1, with_gens st (<[sid := claimSeq st + 1]> (claimGen st)) (claimSeq st + 1)).

(** [owned.add] and the lease it was added with. *)
Definition own (sid : string) (lease : Z) (st : Proc) : Proc := note_lease sid lease (with_owned st ({[sid]} ∪ owned st)).

Definition captureClaim (sid : string) (st : Proc) : option Z := claimGen st !! sid.
Definition ownsClaim (sid : string) (generation : option Z) (st : Proc) : bool :=
  match generation with
  | Some g => bool_decide (sid ∈ owned st) && bool_decide (claimGen st !! sid = Some g)
  | None => false
  end.
Definition owns (sid : string) (st : Proc) : bool := bool_decide (sid ∈ owned st).

Definition suspendLossDetection (p : nat) : task unit :=
  act (Local p (fun st => (tt, mkProc (owned st) (claimGen st) (claimSeq st) (lossDetectionSuspended st + 1) (lastSeenLease st) (foreignStreak st) (duplicateReported st)))).
Definition resumeLossDetection (p : nat) : task unit :=
  act (Local p (fun st => (tt, mkProc (owned st) (claimGen st) (claimSeq st) (lossDetectionSuspended st - 1) (lastSeenLease st) (foreignStreak st) (duplicateReported st)))).

(** One row of [noteForeignRenewals]: the ids seen, those flagged, the maps. *)
Definition note_row (now : Z) (acc : gset string * list string * Proc) (e : string * Row) : gset string * list string * Proc :=
  let '(seen, flagged, st) := acc in
  match leaseExpiresAt (snd e) with
  | Some at_ =>
      if at_ <=? now then acc
      else
        let streak := match lastSeenLease st !! fst e with
                      | Some prev => if prev =? at_ then 0 else default 0 (foreignStreak st !! fst e) + 1
                      | None => 0
                      end in
        ({[fst e]} ∪ seen, (if 2 <=? streak then flagged ++ [fst e] else flagged)%list,
         with_leases st (<[fst e := at_]> (lastSeenLease st)) (<[fst e := streak]> (foreignStreak st)) (duplicateReported st))
  | None => acc
  end.

Definition noteForeignRenewals (now : Z) (mine : list (string * Row)) (st : Proc) : Proc :=
  if 0 <? lossDetectionSuspended st then with_leases st ∅ ∅ (duplicateReported st)
  else
    let '(seen, flagged, st) := fold_left (note_row now) mine (∅, [], st) in
    let keep := fun m : gmap string Z => filter (fun e => fst e ∈ seen) m in
    with_leases st (keep (lastSeenLease st)) (filter (fun e => fst e ∈ seen \/ lastSeenLease st !! fst e = None) (foreignStreak st))
      (duplicateReported st || negb (length flagged =? 0)%nat).

(** ** The methods *)

(** The losses [renew] concludes: claims it read, still held under the same
    generation, that the rows no longer name. *)
Definition conclude_loss (held : list (string * option Z)) (kept : list string) (st : Proc) : list (string * Z) * Proc :=
  if 0 <? lossDetectionSuspended st then ([], st)
  else
    let gone := omap (fun e => match claimGen st !! fst e with
                               | Some g => if negb (existsb (String.eqb (fst e)) kept) && bool_decide (fst e ∈ owned st) &&
                                              bool_decide (snd e = Some g) then Some (fst e, g) else None
                               | None => None
                               end) held in
    (gone, fold_left (fun st e => forget (fst e) st) gone st).

Definition renew (p : nat) : task unit :=
  let! held := act (Local p (fun st => (map (fun id => (id, claimGen st !! id)) (elements (owned st)), st))) in
  let ids := map fst held in
  let! alive := act (EngineLiveness p) in
  let live := List.filter (fun id => bool_decide (id ∈ (alive : gset string))) ids in
  let! mine := act (MyRows p) in
  match mine with
  | Err _ => Ret tt
  | Ok mine =>
      let! now := act Now in
      let! _ := act (Local p (fun st => (tt, noteForeignRenewals now mine st))) in
      if (length ids =? 0)%nat then Ret tt else
      let! now := act Now in
      let lease := now + leaseTtlMs in
      let! written := if (length live =? 0)%nat then Ret true else act (UpdateIn p (Renew lease) live) in
      if negb written then Ret tt else
      let! _ := act (Local p (fun st => (tt, fold_left (fun st id => note_lease id lease st) live st))) in
      let! kept := act (StillNamed p ids) in
      match kept with
      | Err _ => Ret tt
      | Ok kept =>
          let! gone := act (Local p (conclude_loss held kept)) in
          if (length gone =? 0)%nat then Ret tt else act (LeaseLost p gone)
      end
  end.

(** [withAdoption]: whether a transactional handler finds the connection free. *)
Definition adoption_ready : task bool := match onAdopted with Some true => act TransactionFree | _ => Ret true end.
Definition followAdoption (p : nat) (sid : string) : task unit :=
  match onAdopted with Some _ => act (Adopted p sid) | None => Ret tt end.

(** The [catch] of the claim's write, then the error thrown on. *)
Definition claim_failed (p : nat) (sid : string) (generation : Z) : task (result unit (option (option Z))) :=
  let! reconcile := act (Local p (fun st =>
    if bool_decide (claimGen st !! sid = Some generation) then
      if bool_decide (sid ∈ owned st) then (true, st)
      else (false, with_gens st (base.delete sid (claimGen st)) (claimSeq st))
    else (false, st))) in
  let! _ := if (reconcile : bool) then renew p else Ret tt in
  Ret (Err tt).

(** What follows the claim's write. *)
Inductive Landed := Superseded | Taken (captured : option Z) | Refused (reconcile : bool).

Definition land (sid : string) (generation lease : Z) (affected : bool) (st : Proc) : Landed * Proc :=
  if negb (bool_decide (claimGen st !! sid = Some generation)) then (Superseded, st)
  else if affected then let st := own sid lease st in (Taken (captureClaim sid st), st)
  else if bool_decide (sid ∈ owned st) then (Refused true, st)
  else (Refused false, with_gens st (base.delete sid (claimGen st)) (claimSeq st)).

Definition adopts (me : string) (now : Z) (previous : option Row) : bool :=
  match previous with Some r => is_other me r && lease_before now r | None => false end.

(** The claim's [UPDATE], once the row's previous holder was read; a transaction
    takes effect with it. *)
Definition claim_update (p : nat) (sid : string) (now lease generation : Z) (previous : result unit (option Row)) :
    task (result unit (option (option Z))) :=
  let current := act (Local p (fun st => (bool_decide (claimGen st !! sid = Some generation), st))) in
  match previous with
  | Err _ => claim_failed p sid generation
  | Ok previous =>
      let! before := current in
      if negb before then Ret (Ok None) else
      let! result := act (Update p (Claim now lease (urlOf p)) sid) in
      match result with
      | Err _ => claim_failed p sid generation
      | Ok affected =>
          let! after := current in
          if negb after then Ret (Ok None) else
          let adopted := affected && adopts (nodeOf p) now previous in
          let! _ := if adopted && bool_decide (onAdopted = Some true) then followAdoption p sid else Ret tt in
          let! landed := act (Local p (land sid generation lease affected)) in
          match landed with
          | Superseded => Ret (Ok None)
          | Taken captured =>
              let! _ := if adopted && bool_decide (onAdopted = Some false) then followAdoption p sid else Ret tt in
              Ret (Ok (Some captured))
          | Refused reconcile => let! _ := if (reconcile : bool) then renew p else Ret tt in Ret (Ok None)
          end
      end
  end.

Definition claim_write (p : nat) (sid : string) (now lease generation : Z) : task (result unit (option (option Z))) :=
  let! ready := adoption_ready in
  if negb ready then claim_failed p sid generation else
  let! previous := match onAdopted with Some _ => act (ReadRow sid) | None => Ret (Ok None) end in
  claim_update p sid now lease generation previous.

(** The start of a claim: an overlap of a local claim renews it, else a generation
    is allocated before the write. *)
Inductive Entry := Overlap (generation : option Z) | Fresh (generation : Z).

Definition enter (sid : string) (st : Proc) : Entry * Proc :=
  if bool_decide (sid ∈ owned st) || bool_decide (is_Some (claimGen st !! sid)) then (Overlap (claimGen st !! sid), st)
  else let '(g, st) := allocate sid st in (Fresh g, st).

Inductive Renewed := Replaced | Kept (captured : option Z) | Claims (generation : Z).

Definition overlap (sid : string) (generation : option Z) (lease : Z) (affected : bool) (st : Proc) : Renewed * Proc :=
  if negb (bool_decide (claimGen st !! sid = generation)) then (Replaced, st)
  else if affected then
    let st := with_owned st ({[sid]} ∪ owned st) in
    let st := match claimGen st !! sid with Some _ => st | None => snd (allocate sid st) end in
    let st := note_lease sid lease st in
    (Kept (captureClaim sid st), st)
  else let '(g, st) := allocate sid st in (Claims g, st).

(** [claim]: true is [Ok (Some token)], the token being what [onClaimed] gets. *)
Definition claim (p : nat) (sid : string) : task (result unit (option (option Z))) :=
  let! now := act Now in
  let lease := now + leaseTtlMs in
  let! entry := act (Local p (enter sid)) in
  match entry with
  | Fresh generation => claim_write p sid now lease generation
  | Overlap generation =>
      let! renewed := act (Update p (Renew lease) sid) in
      match renewed with
      | Err _ => Ret (Err tt)
      | Ok affected =>
          let! next := act (Local p (overlap sid generation lease affected)) in
          match next with
          | Replaced => Ret (Ok None)
          | Kept captured => Ret (Ok (Some captured))
          | Claims generation => claim_write p sid now lease generation
          end
      end
  end.

(** [prepareStart]; true admits the start of an engine. *)
Definition prepareStart (p : nat) (sid : string) (desired : option string) : task (result unit bool) :=
  let! now := act Now in
  let lease := now + leaseTtlMs in
  let! affected := act (Update p (Prepare now lease desired) sid) in
  match affected with
  | Err _ => Ret (Err tt)
  | Ok affected =>
      let! later := act Now in
      if negb affected || (lease <=? later) then Ret (Ok false) else
      let! _ := act (Local p (fun st => (tt, note_lease sid lease st))) in
      let! _ := act (StartAdmitted p sid lease later) in
      Ret (Ok true)
  end.

Definition stopExpiredForeignClaim (p : nat) (sid : string) : task (result unit bool) :=
  let! ready := adoption_ready in
  if negb ready then Ret (Err tt) else
  let! now := act Now in
  let! affected := act (Update p (StopForeign now) sid) in
  match affected with
  | Err _ => Ret (Err tt)
  | Ok false => Ret (Ok false)
  | Ok true => let! _ := followAdoption p sid in Ret (Ok true)
  end.

(** [release] with a captured claim.  [CommitLost] tells whether the commit will
    fail and undo the transaction's write. *)
Definition release_captured (p : nat) (sid : string) (captured : option Z) : task (result unit unit) :=
  let! free := act TransactionFree in
  if negb free then Ret (Err tt) else
  let! row := act (ReadRow sid) in
  match row with
  | Err _ => Ret (Err tt)
  | Ok row =>
      let affected := match row with Some r => is_me (nodeOf p) r | None => false end in
      let! mine := act (Local p (fun st => (ownsClaim sid captured st, st))) in
      if negb mine then Ret (Ok tt) else
      let! undone := act CommitLost in
      let! written := if affected && negb undone then act (Update p ClearOwn sid) else Ret (Ok false) in
      match written with
      | Err _ => Ret (Err tt)
      | Ok _ =>
          let! _ := act (Local p (fun st => (tt, if ownsClaim sid captured st then forget sid st else st))) in
          Ret (if (undone : bool) then Err tt else Ok tt)
      end
  end.

Definition release (p : nat) (sid : string) : task (result unit unit) :=
  let! now := act Now in
  let! _ := act (Local p (fun st => (tt, forget sid st))) in
  let! own := act (Update p ReleaseOwn sid) in
  match own with
  | Err _ => Ret (Err tt)
  | Ok true => Ret (Ok tt)
  | Ok false =>
      let! ready := adoption_ready in
      if negb ready then Ret (Err tt) else
      let! lapsed := act (Update p (ReleaseLapsed now) sid) in
      match lapsed with
      | Err _ => Ret (Err tt)
      | Ok true => let! _ := followAdoption p sid in Ret (Ok tt)
      | Ok false => Ret (Ok tt)
      end
  end.

Definition releaseAll (p : nat) (keep : list string) : task (result unit unit) :=
  let! ids := act (Local p (fun st =>
    let ids := List.filter (fun id => negb (existsb (String.eqb id) keep)) (elements (owned st)) in
    (ids, fold_left (fun st id => forget id st) ids st))) in
  if (length ids =? 0)%nat then Ret (Ok tt) else
  let! ok := act (UpdateIn p ClearOwn ids) in
  Ret (if (ok : bool) then Ok tt else Err tt).

(** ** The questions other services ask *)

Definition claimable (p : nat) (now : Z) (ids : list string) (s : World) : list string :=
  List.filter (fun id => match rows s !! id with Some r => takeable (nodeOf p) now r | None => false end) ids.
Definition lapsedHeldByOthers (p : nat) (now : Z) (s : World) : list (string * Row) :=
  List.filter (fun e => is_other (nodeOf p) (snd e) && lease_before now (snd e)) (map_to_list (rows s)).
Definition heldByOtherLiveNode (p : nat) (now : Z) (r : Row) : bool := is_other (nodeOf p) r && lease_after now r.
Definition isHeldByOtherNode (p : nat) (now : Z) (sid : string) (s : World) : bool :=
  match rows s !! sid with Some r => heldByOtherLiveNode p now r | None => false end.
Definition heldByOtherNodes (p : nat) (now : Z) (s : World) : list string :=
  map fst (List.filter (fun e => heldByOtherLiveNode p now (snd e)) (map_to_list (rows s))).

(** ** What runs *)

Definition ignore {A : Type} (t : task A) : task unit := let! _ := t in Ret tt.

Inductive starts (s : World) : task unit -> Prop :=
| st_claim p sid : starts s (ignore (claim p sid))
| st_prepare p sid desired : starts s (ignore (prepareStart p sid desired))
| st_stop p sid : starts s (ignore (stopExpiredForeignClaim p sid))
| st_release p sid : starts s (ignore (release p sid))
| st_release_captured p sid captured : starts s (ignore (release_captured p sid captured))
| st_releaseAll p keep : starts s (ignore (releaseAll p keep))
| st_renew p : starts s (renew p)
| st_suspend p : starts s (suspendLossDetection p)
| st_resume p : starts s (resumeLossDetection p).

(** Time passes; sessions are created, under ids never used, and deleted; other
    code records what it wants of a session. *)
Inductive env (s : World) : World -> Prop :=
| env_clock t : clock s <= t -> env s (mkWorld (rows s) (procs s) t (log s) (seen s) (lost s) (admitted s))
| env_create sid desired : rows s !! sid = None -> Forall (fun w => w_sid w <> sid) (log s) ->
    env s (mkWorld (<[sid := cleared desired]> (rows s)) (procs s) (clock s) (log s) (seen s) (lost s) (admitted s))
| env_delete sid : env s (mkWorld (base.delete sid (rows s)) (procs s) (clock s) (log s) (seen s) (lost s) (admitted s))
| env_desired sid r desired : rows s !! sid = Some r ->
    env s (mkWorld (<[sid := mkRow (nodeId r) (claimedAt r) (leaseExpiresAt r) (nodeUrl r) desired]> (rows s)) (procs s) (clock s) (log s) (seen s) (lost s) (admitted s)).
End nodes.
