(* ===== verification/Leases.v ===== *)
(** * What a session lease is worth

    The invariants of [Ownership] over any interleaving of any number of
    processes, with failing statements, by the rely-guarantee rule of [Prog]. *)
From S2P Require Import Prelude JsString Prog Ownership.
Local Open Scope string_scope.
Local Open Scope Z_scope.

Section leases.
Context (nodeOf : nat -> string) (urlOf : nat -> option string) (leaseTtlMs : Z) (onAdopted : option bool).
Abbreviation run := (run nodeOf).
Abbreviation task := (prog eff).

(** ** The log *)

Definition holder (r : Row) : option string * option Z := (nodeId r, leaseExpiresAt r).

(** The last write of a row. *)
Definition last_write (sid : string) (l : list Write) : option Write := List.find (fun w => String.eqb (w_sid w) sid) l.

(** A write on a running lease is its holder's. *)
Definition exclusive (w : Write) : Prop :=
  forall n t, nodeId (w_before w) = Some n -> leaseExpiresAt (w_before w) = Some t -> w_at w < t -> nodeOf (w_by w) = n.

(** Each write is exclusive, finds the holder the write before it left, and comes
    no earlier than it. *)
Fixpoint log_ok (l : list Write) : Prop :=
  match l with
  | [] => True
  | w :: l' =>
      exclusive w /\ (forall v, last_write (w_sid w) l' = Some v -> holder (w_before w) = holder (w_after v)) /\
      Forall (fun v => w_at v <= w_at w) l' /\ log_ok l'
  end.

Lemma log_ok_app l1 l2 : log_ok (l1 ++ l2)%list -> log_ok l2.
Proof. induction l1 as [|w l1 IH]; [done|]. simpl. intros (_ & _ & _ & H). by apply IH. Qed.

Lemma log_ordered l1 l2 v w : log_ok (l1 ++ v :: l2)%list -> w ∈ l1 -> w_at v <= w_at w.
Proof.
  induction l1 as [|u l1 IH]; [by intros _ ?%elem_of_nil|]. simpl. intros (_ & _ & Hf & Hlog) [->|Hin]%elem_of_cons; [|by apply IH].
  rewrite Forall_forall in Hf. apply Hf. set_solver.
Qed.

(** After a write that leaves node [n] the lease until [t], a write of the row by
    another node before [t] comes after one by [n]. *)
Lemma holder_writes_first sid w n t w' l1 m :
  log_ok (l1 ++ m)%list -> last_write sid m = Some w -> holder (w_after w) = (Some n, Some t) -> w' ∈ l1 ->
  w_sid w' = sid -> w_at w' < t -> nodeOf (w_by w') <> n ->
  exists k1 v k2, l1 = (k1 ++ v :: k2)%list /\ w' ∈ k1 /\ w_sid v = sid /\ nodeOf (w_by v) = n.
Proof.
  revert m. induction l1 as [|u l1 IH] using rev_ind; intros m Hlog Hm Hw Hin Hsid Hat Hn; [by apply elem_of_nil in Hin|].
  rewrite <- app_assoc in Hlog. apply elem_of_app in Hin. destruct (decide (w_sid u = sid)) as [Hu|Hu].
  - assert (w_at u < t) as Hut.
    { destruct Hin as [Hin|Hin%list_elem_of_singleton]; [|by subst u]. pose proof (log_ordered l1 m u w' Hlog Hin). lia. }
    apply log_ok_app in Hlog as (Hex & Hch & _). rewrite Hu in Hch. specialize (Hch w Hm). rewrite Hw in Hch. injection Hch as H1 H2.
    pose proof (Hex n t H1 H2 Hut) as Hby. destruct Hin as [Hin|Hin%list_elem_of_singleton]; [|by subst u].
    by exists l1, u, [].
  - destruct Hin as [Hin|Hin%list_elem_of_singleton]; [|by subst u].
    destruct (IH (u :: m)) as (k1 & v & k2 & -> & ?); try done.
    + unfold last_write. simpl. destruct (String.eqb_spec (w_sid u) sid); [done|exact Hm].
    + exists k1, v, (k2 ++ [u])%list. by rewrite <- app_assoc.
Qed.

(** ** The invariant *)

(** A held claim has a generation, and generations are numbered by [claimSeq]. *)
Definition proc_ok (st : Proc) : Prop :=
  (forall sid, sid ∈ owned st -> is_Some (claimGen st !! sid)) /\ (forall sid g, claimGen st !! sid = Some g -> g <= claimSeq st).

(** A generation that has passed does not come back, and its claim is owned for as
    long as the generation stands. *)
Definition proc_le (st st' : Proc) : Prop :=
  claimSeq st <= claimSeq st' /\
  forall sid g, g <= claimSeq st -> claimGen st' !! sid = Some g ->
    claimGen st !! sid = Some g /\ (sid ∈ owned st -> sid ∈ owned st').

#[export] Instance proc_le_preorder : PreOrder proc_le.
Proof.
  split; [by intros st; split; [lia|]|]. intros s1 s2 s3 [H1 H2] [H3 H4]. split; [lia|]. intros sid g Hg Hs3.
  destruct (H4 sid g ltac:(lia) Hs3) as [Hs2 Ho]. destruct (H2 sid g Hg Hs2) as [Hs1 Ho']. auto.
Qed.

Record le (s s' : World) : Prop := mkLe {
  le_clock : clock s <= clock s';
  le_proc : forall p, proc_le (proc s p) (proc s' p);
  le_log : forall w, w ∈ log s -> w ∈ log s';
  le_seen : forall x, x ∈ seen s -> x ∈ seen s'
}.
#[export] Instance le_preorder : PreOrder le.
Proof.
  split; [intros s; by split|]. intros s1 s2 s3 [? ? ? ?] [? ? ? ?]. split; [lia| |auto|auto].
  intros p. by transitivity (proc s2 p).
Qed.

(** A lease process [p] wrote. *)
Definition leased (s : World) (p : nat) (sid : string) (lease : Z) : Prop :=
  exists w, w ∈ log s /\ w_by w = p /\ w_sid w = sid /\ holder (w_after w) = (Some (nodeOf p), Some lease).

(** A claim that has ended. *)
Definition over (s : World) (p : nat) (sid : string) (g : Z) : Prop :=
  g <= claimSeq (proc s p) /\ claimGen (proc s p) !! sid <> Some g.

Lemma over_le s s' p sid g : le s s' -> over s p sid g -> over s' p sid g.
Proof.
  intros Hle [H1 H2]. destruct (le_proc _ _ Hle p) as [H3 H4]. split; [lia|]. intros H. by destruct (H4 sid g H1 H).
Qed.

Record Inv (s : World) : Prop := mkInv {
  i_rows : forall sid r, rows s !! sid = Some r ->
    (nodeId r = None <-> leaseExpiresAt r = None) /\ (forall t, leaseExpiresAt r = Some t -> t <= clock s + leaseTtlMs);
  i_log : log_ok (log s) /\ Forall (fun w => w_at w <= clock s) (log s);
  i_last : forall sid r w, rows s !! sid = Some r -> last_write sid (log s) = Some w -> holder r = holder (w_after w);
  i_procs : forall p, proc_ok (proc s p);
  i_lost : forall p sid g, (p, sid, g) ∈ lost s -> (p, sid, g) ∈ seen s /\ over s p sid g;
  i_admitted : forall p sid lease at_, (p, sid, lease, at_) ∈ admitted s -> leased s p sid lease /\ at_ < lease
}.

Definition stmt_ok (now : Z) (st : Stmt) : Prop :=
  match st with
  | Renew lease | Prepare _ lease _ => lease <= now + leaseTtlMs
  | Claim t lease _ => t <= now /\ lease <= now + leaseTtlMs
  | StopForeign t | ReleaseLapsed t => t <= now
  | ReleaseOwn | ClearOwn => True
  end.

Definition local_ok {B : Type} (f : Proc -> B * Proc) : Prop :=
  forall st, proc_ok st -> proc_ok (snd (f st)) /\ proc_le st (snd (f st)).

Definition pre (B : Type) (e : eff B) (s : World) : Prop :=
  match e with
  | Local _ f => local_ok f
  | Update _ st _ | UpdateIn _ st _ => stmt_ok (clock s) st
  | LeaseLost p ids => Forall (fun e => (p, fst e, snd e) ∈ seen s /\ over s p (fst e) (snd e)) ids
  | StartAdmitted p sid lease at_ => leased s p sid lease /\ at_ < lease
  | _ => True
  end.

(** ** Every effect keeps it *)

Lemma hits_exclusive me st r now n t :
  stmt_ok now st -> hits me st r = true -> nodeId r = Some n -> leaseExpiresAt r = Some t -> now < t -> me = n.
Proof.
  intros Hst Hh Hn Ht Hlt. destruct st; cbn [hits stmt_ok] in *; unfold takeable, is_me, is_other, lease_before, lease_after in *;
    rewrite ?Hn, ?Ht in *; bool_facts; try congruence; try lia.
  apply orb_true_iff in Hh as [[Hh|Hh]%orb_true_iff|Hh]; bool_facts; try congruence; lia.
Qed.

Lemma write_row_ok p st s sid :
  Inv s -> stmt_ok (clock s) st -> Inv (write_row nodeOf p st s sid) /\ le s (write_row nodeOf p st s sid).
Proof.
  intros HI Hst. unfold write_row. destruct (rows s !! sid) as [r|] eqn:Hr; [|split; [done|reflexivity]].
  destruct (hits (nodeOf p) st r) eqn:Hh; [|split; [done|reflexivity]].
  set (r' := applied (nodeOf p) st r). destruct HI as [Ir [Il1 Il2] Ila Ip Ilo Ia].
  assert (le s (mkWorld (<[sid := r']> (rows s)) (procs s) (clock s) (mkWrite p sid r r' (clock s) :: log s) (seen s) (lost s) (admitted s))) as Hle.
  { split; [simpl; lia|done|simpl; intros w Hw; by right|done]. }
  split; [|done]. split; simpl.
  - intros sid' r0. destruct (decide (sid' = sid)) as [->|Hne]; [|rewrite lookup_insert_ne by done; apply Ir].
    rewrite lookup_insert_eq. intros [= <-]. destruct (Ir sid r Hr) as [H1 H2]. unfold r'.
    destruct st; simpl in *; unfold is_me in *; bool_facts; split; try done; try (intros ? [= <-]; lia);
      rewrite ?Hh; try (split; intros; congruence).
  - split; [|constructor; [simpl; lia|done]]. split_and!; [|simpl; intros v Hv; by apply (Ila sid)|done|done].
    intros n t Hn Ht Hlt. by eapply hits_exclusive.
  - intros sid' r0 w. destruct (String.eqb_spec sid sid') as [<-|Hne].
    + rewrite lookup_insert_eq. unfold last_write. cbn [List.find w_sid]. destruct (String.eqb_spec sid sid); [|done]. by intros [= <-] [= <-].
    + rewrite lookup_insert_ne by done. unfold last_write. simpl. destruct (String.eqb_spec sid sid'); [done|]. apply Ila.
  - exact Ip.
  - exact Ilo.
  - intros q sid' lease at_ Hin. destruct (Ia _ _ _ _ Hin) as [(w & Hw & H) Hlt]. split; [|done]. exists w. split; [by right|done].
Qed.

Lemma write_rows_ok p st ids s :
  Inv s -> stmt_ok (clock s) st -> Inv (fold_left (write_row nodeOf p st) ids s) /\ le s (fold_left (write_row nodeOf p st) ids s).
Proof.
  revert s. induction ids as [|sid ids IH]; intros s HI Hst; simpl; [split; [done|reflexivity]|].
  destruct (write_row_ok p st s sid HI Hst) as [H1 H2]. assert (clock (write_row nodeOf p st s sid) = clock s) as Hc.
  { unfold write_row. destruct (rows s !! sid); [|done]. by destruct (hits _ _ _). }
  destruct (IH (write_row nodeOf p st s sid) H1) as [H3 H4]; [by rewrite Hc|]. split; [done|]. by transitivity (write_row nodeOf p st s sid).
Qed.

Lemma leased_le s s' p sid lease : le s s' -> leased s p sid lease -> leased s' p sid lease.
Proof. intros Hle (w & Hw & H). exists w. split; [by apply (le_log _ _ Hle)|done]. Qed.

(** A change outside the rows and the log. *)
Lemma beside_ok s s' :
  Inv s -> le s s' -> rows s' = rows s -> log s' = log s -> (forall p, proc_ok (proc s' p)) ->
  (forall p sid g, (p, sid, g) ∈ lost s' -> (p, sid, g) ∈ seen s' /\ over s' p sid g) ->
  (forall p sid lease at_, (p, sid, lease, at_) ∈ admitted s' -> leased s' p sid lease /\ at_ < lease) -> Inv s'.
Proof.
  intros [Ir [Il1 Il2] Ila Ip Ilo Ia] Hle Hr Hl Hp Hlo Ha. pose proof (le_clock _ _ Hle). split; [| | |done|done|done]; rewrite ?Hr, ?Hl.
  - intros sid r Hs. destruct (Ir sid r Hs) as [H1 H2]. split; [done|]. intros t Ht. specialize (H2 t Ht). lia.
  - split; [done|]. eapply Forall_impl; [exact Il2|]. simpl. lia.
  - exact Ila.
Qed.

Lemma proc_with s p st q : proc (with_proc s p st) q = if decide (q = p) then st else proc s q.
Proof.
  unfold proc, with_proc. simpl. destruct (decide (q = p)) as [->|Hne]; [by rewrite lookup_insert_eq|by rewrite lookup_insert_ne].
Qed.

Lemma lease_run_ok B (e : eff B) s b s' : Inv s -> pre B e s -> run B e s b s' -> Inv s' /\ le s s'.
Proof.
  intros HI. assert (Inv s /\ le s s) as Hsame by (split; [done|reflexivity]).
  destruct e; cbn [pre Ownership.run]; intros Hpre Hrun; try (subst s'; exact Hsame).
  - destruct Hrun as [_ ->]. exact Hsame.
  - destruct Hrun as [_ ->]. destruct (Hpre (proc s p) (i_procs _ HI p)) as [Hok Hple].
    assert (le s (with_proc s p (snd (f (proc s p))))) as Hle.
    { split; [simpl; lia| |done|done]. intros q. rewrite proc_with. by destruct (decide (q = p)) as [->|]. }
    split; [|done]. apply (beside_ok s); try done; [| |apply HI].
    2: { intros q sid g Hin. destruct (i_lost _ HI _ _ _ Hin). split; [done|]. by apply (over_le s). }
    intros q. rewrite proc_with. destruct (decide (q = p)) as [->|]; [done|apply HI].
  - destruct Hrun as [[_ ->]|[_ ->]]; [exact Hsame|by apply write_row_ok].
  - destruct Hrun as [[_ Hs]|Hs]; rewrite Hs; [exact Hsame|by apply write_rows_ok].
  - destruct Hrun as [-> _]. exact Hsame.
  - destruct Hrun as [-> _]. exact Hsame.
  - destruct Hrun as [[_ ->]|[_ ->]]; [exact Hsame|].
    match goal with |- Inv ?t /\ _ => assert (le s t) as Hle end.
    { split; [simpl; lia|done|done|]. simpl. intros x Hx. apply elem_of_app. by right. }
    split; [|done]. apply (beside_ok s); try done; try apply HI. simpl. intros q sid g Hx. destruct (i_lost _ HI _ _ _ Hx). split; [apply elem_of_app; by right|done].
  - subst s'. match goal with |- Inv ?t /\ _ => assert (le s t) as Hle by (split; [simpl; lia|done|done|done]) end.
    split; [|done]. apply (beside_ok s); try done; try apply HI. simpl. intros q sid g [(e & [= -> -> ->] & He)%elem_of_map|Hx]%elem_of_app; [|by apply HI].
    rewrite Forall_forall in Hpre. by apply Hpre.
  - subst s'. match goal with |- Inv ?t /\ _ => assert (le s t) as Hle by (split; [simpl; lia|done|done|done]) end.
    split; [|done]. apply (beside_ok s); try done; try apply HI. simpl.
    intros q sid' l a [[= -> -> -> ->]|Hin]%elem_of_cons; [done|]. by apply (i_admitted _ HI) in Hin.
Qed.

Lemma lease_env_inv s s' : Inv s -> env s s' -> Inv s' /\ le s s'.
Proof.
  intros HI Henv. destruct Henv as [t Ht|sid desired Hn Hfresh|sid|sid r desired Hr].
  - match goal with |- Inv ?t /\ _ => assert (le s t) as Hle by (split; [done|done|done|done]) end. split; [|done].
    apply (beside_ok s); try done; apply HI.
  - split; [|split; [simpl; lia|done|done|done]]. destruct HI as [Ir [Il1 Il2] Ila Ip Ilo Ia]. split; simpl; try done.
    + intros sid' r. destruct (decide (sid' = sid)) as [->|Hne]; [|rewrite lookup_insert_ne by done; apply Ir].
      rewrite lookup_insert_eq. by intros [= <-].
    + intros sid' r w. destruct (decide (sid' = sid)) as [->|Hne]; [|rewrite lookup_insert_ne by done; apply Ila].
      intros _ Hw. apply List.find_some in Hw as [Hin%list_elem_of_In Heq]. rewrite Forall_forall in Hfresh.
      destruct (String.eqb_spec (w_sid w) sid); [|done]. by destruct (Hfresh w Hin).
  - split; [|split; [simpl; lia|done|done|done]]. destruct HI as [Ir [Il1 Il2] Ila Ip Ilo Ia]. split; simpl; try done.
    + intros sid' r [_ H]%lookup_delete_Some. by apply (Ir sid').
    + intros sid' r w [_ H]%lookup_delete_Some. by apply Ila.
  - split; [|split; [simpl; lia|done|done|done]]. destruct HI as [Ir [Il1 Il2] Ila Ip Ilo Ia]. split; simpl; try done.
    + intros sid' r'. destruct (decide (sid' = sid)) as [->|Hne]; [|rewrite lookup_insert_ne by done; apply Ir].
      rewrite lookup_insert_eq. intros [= <-]. by apply (Ir sid r).
    + intros sid' r' w. destruct (decide (sid' = sid)) as [->|Hne]; [|rewrite lookup_insert_ne by done; apply Ila].
      rewrite lookup_insert_eq. intros [= <-] Hw. by rewrite <- (Ila sid r w Hr Hw).
Qed.

(** ** The synchronous blocks keep a process's claims *)

Definition step_ok (st st' : Proc) : Prop := proc_ok st' /\ proc_le st st'.

Lemma step_refl st : proc_ok st -> step_ok st st.
Proof. intros H. split; [done|reflexivity]. Qed.

Lemma step_trans st1 st2 st3 : step_ok st1 st2 -> (proc_ok st2 -> step_ok st2 st3) -> step_ok st1 st3.
Proof. intros [H1 H2] H. destruct (H H1) as [H3 H4]. split; [done|]. by transitivity st2. Qed.

Lemma same_claims st st' : owned st' = owned st -> claimGen st' = claimGen st -> claimSeq st' = claimSeq st -> proc_ok st -> step_ok st st'.
Proof. intros Ho Hg Hs Hok. unfold step_ok, proc_ok, proc_le. rewrite Ho, Hg, Hs. split; [done|]. split; [lia|done]. Qed.

Lemma forget_ok sid st : proc_ok st -> step_ok st (forget sid st).
Proof.
  intros [H1 H2]. split; split; simpl.
  - intros sid' Hin. rewrite lookup_delete_ne by set_solver. apply H1. set_solver.
  - intros sid' g [_ Hg]%lookup_delete_Some. by apply (H2 sid').
  - lia.
  - intros sid' g _ [Hne Hg]%lookup_delete_Some. split; [done|]. set_solver.
Qed.

Lemma forget_all_ok {A : Type} (f : A -> string) l st : proc_ok st -> step_ok st (fold_left (fun st e => forget (f e) st) l st).
Proof.
  revert st. induction l as [|e l IH]; intros st Hok; simpl; [by apply step_refl|].
  eapply step_trans; [by apply forget_ok|]. apply IH.
Qed.

Lemma allocate_ok sid st : proc_ok st -> step_ok st (snd (allocate sid st)).
Proof.
  intros [H1 H2]. split; split; simpl.
  - intros sid' Hin. destruct (decide (sid' = sid)) as [->|Hne]; [rewrite lookup_insert_eq; by eexists|]. rewrite lookup_insert_ne by done. by apply H1.
  - intros sid' g. destruct (decide (sid' = sid)) as [->|Hne]; [rewrite lookup_insert_eq; by intros [= <-]|]. rewrite lookup_insert_ne by done.
    intros Hg. specialize (H2 sid' g Hg). lia.
  - lia.
  - intros sid' g Hg. destruct (decide (sid' = sid)) as [->|Hne]; [rewrite lookup_insert_eq; intros [= <-]; lia|]. rewrite lookup_insert_ne by done. done.
Qed.

Lemma drop_gen_ok sid st : proc_ok st -> sid ∉ owned st -> step_ok st (with_gens st (base.delete sid (claimGen st)) (claimSeq st)).
Proof.
  intros [H1 H2] Hn. split; split; simpl.
  - intros sid' Hin. rewrite lookup_delete_ne by (intros ->; done). by apply H1.
  - intros sid' g [_ Hg]%lookup_delete_Some. by apply (H2 sid').
  - lia.
  - intros sid' g _ [Hne Hg]%lookup_delete_Some. done.
Qed.

Lemma add_owned_ok sid st : proc_ok st -> is_Some (claimGen st !! sid) -> step_ok st (with_owned st ({[sid]} ∪ owned st)).
Proof.
  intros [H1 H2] Hs. split; split; simpl; [|done|lia|].
  - intros sid' [->%elem_of_singleton|Hin]%elem_of_union; [done|by apply H1].
  - intros sid' g _ Hg. split; [done|]. set_solver.
Qed.

Lemma note_leases_ok lease ids st : proc_ok st -> step_ok st (fold_left (fun st id => note_lease id lease st) ids st).
Proof.
  revert st. induction ids as [|id ids IH]; intros st Hok; simpl; [by apply step_refl|].
  eapply step_trans; [by apply (same_claims st (note_lease id lease st))|]. apply IH.
Qed.

Lemma note_rows_ok now mine acc : proc_ok (snd acc) -> step_ok (snd acc) (snd (fold_left (note_row now) mine acc)).
Proof.
  revert acc. induction mine as [|e mine IH]; intros [[x y] st] Hok; simpl; [by apply step_refl|].
  assert (step_ok st (snd (note_row now (x, y, st) e))) as H.
  { unfold note_row. destruct (leaseExpiresAt (snd e)); [|by apply step_refl]. destruct (_ <=? _); [by apply step_refl|]. by apply same_claims. }
  eapply step_trans; [exact H|]. apply IH.
Qed.

Lemma noteForeignRenewals_ok now mine : local_ok (fun st => (tt, noteForeignRenewals now mine st)).
Proof.
  intros st Hok. simpl. unfold noteForeignRenewals. destruct (0 <? _); [by apply same_claims|].
  pose proof (note_rows_ok now mine (∅, [], st) Hok) as H. destruct (fold_left (note_row now) mine (∅, [], st)) as [[x y] st'].
  eapply step_trans; [exact H|]. intros H'. by apply same_claims.
Qed.

Lemma conclude_loss_ok held kept : local_ok (conclude_loss held kept).
Proof. intros st Hok. unfold conclude_loss. destruct (0 <? _); [by apply step_refl|]. simpl. by apply (forget_all_ok fst). Qed.

Lemma enter_ok sid : local_ok (enter sid).
Proof. intros st Hok. unfold enter. destruct (_ || _); [by apply step_refl|]. by apply allocate_ok. Qed.

Lemma overlap_ok sid generation lease affected : local_ok (overlap sid generation lease affected).
Proof.
  intros st Hok. unfold overlap. destruct (negb _); [by apply step_refl|]. destruct affected; [|by apply allocate_ok]. simpl.
  destruct (claimGen st !! sid) as [g|] eqn:Hg.
  - eapply step_trans; [by apply (add_owned_ok sid st)|]. intros H'. by apply same_claims.
  - destruct Hok as [H1 H2]. split; split; simpl.
    + intros sid' Hin. destruct (decide (sid' = sid)) as [->|Hne]; [rewrite lookup_insert_eq; by eexists|]. rewrite lookup_insert_ne by done. apply H1. set_solver.
    + intros sid' g. destruct (decide (sid' = sid)) as [->|Hne]; [rewrite lookup_insert_eq; by intros [= <-]|]. rewrite lookup_insert_ne by done.
      intros Hg'. specialize (H2 sid' g Hg'). lia.
    + lia.
    + intros sid' g Hle. destruct (decide (sid' = sid)) as [->|Hne]; [rewrite lookup_insert_eq; intros [= <-]; lia|]. rewrite lookup_insert_ne by done.
      intros Hg'. split; [done|]. set_solver.
Qed.

Lemma land_ok sid generation lease affected : local_ok (land sid generation lease affected).
Proof.
  intros st Hok. unfold land. destruct (negb _) eqn:E; bool_facts; [by apply step_refl|]. destruct affected.
  - simpl. eapply step_trans; [apply (add_owned_ok sid st); [done|by rewrite E]|]. intros H'. by apply same_claims.
  - destruct (bool_decide (sid ∈ owned st)) eqn:Eo; bool_facts; [by apply step_refl|]. by apply drop_gen_ok.
Qed.

Lemma look_ok {B : Type} (f : Proc -> B) : local_ok (fun st => (f st, st)).
Proof. intros st Hok. by apply step_refl. Qed.

Lemma note_lease_ok sid lease : local_ok (fun st => (tt, note_lease sid lease st)).
Proof. intros st Hok. by apply same_claims. Qed.

(** ** Every method is safe *)

Abbreviation ok p Q s := (safe run le pre Inv p Q s).
Abbreviation fine := (fun _ _ => True).

Lemma lease_bind_ok {A B : Type} (p : task A) (f : A -> task B) Q s : ok p (fun a s1 => ok (f a) Q s1) s -> ok (pbind p f) Q s.
Proof. exact (safe_bind run le pre Inv p f Q s). Qed.

Lemma lease_conseq_ok {A : Type} (p : task A) (Q Q' : A -> World -> Prop) s :
  ok p Q s -> (forall a s1, le s s1 -> Q a s1 -> Q' a s1) -> ok p Q' s.
Proof. exact (safe_conseq run le pre Inv p Q Q' s). Qed.

Lemma ret_fine {A : Type} (a : A) s : ok (Ret (E := eff) a) fine s.
Proof. by apply safe_ret. Qed.

(** A later state is later, step by step. *)
Ltac chain :=
  match goal with
  | |- le ?a ?a => reflexivity
  | L : le ?c ?b |- le ?a ?b => solve [exact L | transitivity c; [chain|exact L]]
  end.

(** An effect whose answer is taken as it comes. *)
Lemma act_ok {A B : Type} (e : eff B) (f : B -> task A) Q s :
  (forall s1, le s s1 -> pre B e s1) -> (forall b s1, le s s1 -> ok (f b) Q s1) -> ok (pbind (act e) f) Q s.
Proof.
  intros Hpre Hf. apply lease_bind_ok, safe_act. intros s1 L1 I1. split; [by apply Hpre|]. intros b s2 _ _ L2 s3 L3. apply Hf.
  transitivity s1; [done|]. by transitivity s2.
Qed.

Lemma now_ok {A : Type} (f : Z -> task A) Q s :
  (forall t s1, le s s1 -> t <= clock s1 -> ok (f t) Q s1) -> ok (pbind (act Now) f) Q s.
Proof.
  intros Hf. apply lease_bind_ok, safe_act. intros s1 L1 I1. split; [done|]. intros t s2 [-> ->] _ _ s3 L3. apply Hf; [by transitivity s1|].
  apply (le_clock _ _ L3).
Qed.

Lemma local_do {A B : Type} p (g : Proc -> B * Proc) (f : B -> task A) Q s :
  local_ok g -> (forall b s1, le s s1 -> ok (f b) Q s1) -> ok (pbind (act (Local p g)) f) Q s.
Proof. intros Hg Hf. by apply act_ok. Qed.

(** An optional effect without consequence. *)
Lemma maybe_ok {A : Type} (p : task unit) (b : bool) (f : task A) Q s :
  (forall s1, ok p fine s1) -> (forall s1, le s s1 -> ok f Q s1) -> ok (pbind (if b then p else Ret tt) (fun _ => f)) Q s.
Proof.
  intros Hp Hf. apply lease_bind_ok. destruct b; [eapply lease_conseq_ok; [apply Hp|]; intros _ s1 L1 _; by apply Hf|].
  apply safe_ret. exact Hf.
Qed.

Lemma forget_gen l st sid : sid ∈ map fst l -> claimGen (fold_left (fun st (e : string * Z) => forget (fst e) st) l st) !! sid = None.
Proof.
  revert st. induction l as [|e l IH]; intros st Hin; [by apply elem_of_nil in Hin|]. simpl in *.
  destruct (decide (sid ∈ map fst l)) as [H|H]; [by apply IH|]. apply elem_of_cons in Hin as [->|Hin]; [|done].
  clear IH. assert (claimGen (forget (fst e) st) !! fst e = None) as Hn by apply lookup_delete_eq.
  generalize dependent (forget (fst e) st). clear st. induction l as [|e' l IH]; intros st Hn; [done|]. simpl. apply IH; [set_solver|].
  simpl. rewrite lookup_delete_ne by set_solver. done.
Qed.

(** The losses concluded are over. *)
Lemma loss_over held kept st e : proc_ok st -> e ∈ fst (conclude_loss held kept st) ->
  snd e <= claimSeq (snd (conclude_loss held kept st)) /\ claimGen (snd (conclude_loss held kept st)) !! fst e = None.
Proof.
  intros Hok Hin. destruct (conclude_loss_ok held kept st Hok) as [_ [Hseq _]].
  unfold conclude_loss in *. destruct (0 <? _); [by apply elem_of_nil in Hin|]. cbn [fst snd] in *. split.
  - apply list_elem_of_omap in Hin as ([id og] & _ & He). cbn [fst snd] in He. destruct (claimGen st !! id) as [g|] eqn:Hg; [|done].
    destruct (_ && _); [|done]. injection He as <-. pose proof (proj2 Hok id g Hg). simpl. lia.
  - apply forget_gen, elem_of_map. by exists e.
Qed.

Lemma elements_loss p held kept s st gone :
  conclude_loss held kept st = (gone, snd (conclude_loss held kept st)) ->
  Forall (fun e => forall g, snd e = Some g -> g <= claimSeq (proc s p)) held ->
  proc_le (proc s p) st ->
  (forall e, e ∈ held -> fst e ∉ kept -> forall g, claimGen (proc s p) !! fst e = Some g -> (p, fst e, g) ∈ seen s) ->
  Forall (fun e => (p, fst e, snd e) ∈ seen s) gone.
Proof.
  intros Hc Hseq Hle Hseen. unfold conclude_loss in Hc. destruct (0 <? _); [injection Hc as <-; constructor|].
  injection Hc as <-. apply Forall_forall. intros [id g] Hin. apply list_elem_of_omap in Hin as ([id' og] & Hin & He). cbn [fst snd] in *.
  destruct (claimGen st !! id') as [g'|] eqn:Hg'; [|done]. destruct (_ && _) eqn:Hb; [|done]. injection He as -> ->. bool_facts. subst og.
  rewrite Forall_forall in Hseq. specialize (Hseq _ Hin g eq_refl). destruct Hle as [_ Hle]. destruct (Hle id g Hseq Hg') as [Hcur _].
  apply (Hseen (id, Some g) Hin); [|done]. intros Hk. cbn [fst] in Hk.
  assert (existsb (String.eqb id) kept = true) as Hex; [|by rewrite Hex in *].
  apply existsb_elem. exists id. split; [done|]. apply String.eqb_refl.
Qed.

Lemma renew_ok p s : ok (renew leaseTtlMs p) fine s.
Proof.
  unfold renew. apply lease_bind_ok, safe_act. intros s1 L1 I1. split; [apply look_ok|]. intros held s2 [-> ->] _ _ s3 L3.
  set (held := fst _). assert (Forall (fun e => forall g, snd e = Some g -> g <= claimSeq (proc s1 p)) held) as Hseq.
  { apply Forall_forall. intros e He g Hg. unfold held in He. simpl in He. apply elem_of_map in He as (id & -> & _). simpl in Hg.
    by apply (proj2 (i_procs _ I1 p) id). }
  assert (forall s4, le s3 s4 -> Forall (fun e => forall g, snd e = Some g -> g <= claimSeq (proc s4 p)) held) as Hseq'.
  { intros s4 L4. eapply Forall_impl; [exact Hseq|]. simpl. intros e He g Hg. specialize (He g Hg).
    assert (le s1 s4) as L. { transitivity (with_proc s1 p (proc s1 p)); [|by transitivity s3].
      split; [simpl; lia| |done|done]. intros q. rewrite proc_with. by destruct (decide (q = p)) as [->|]. }
    pose proof (proj1 (le_proc _ _ L p)). lia. }
  clearbody held. clear Hseq L3 s1 L1 I1.
  apply act_ok; [done|]. intros alive s4 L4. apply act_ok; [done|]. intros [mine|] s5 L5; [|apply ret_fine].
  apply now_ok. intros t s6 L6 _. apply local_do; [apply noteForeignRenewals_ok|]. intros _ s7 L7.
  destruct (_ =? _)%nat; [apply ret_fine|]. apply now_ok. intros t' s8 L8 Ht'. apply lease_bind_ok.
  set (live := List.filter _ _).
  assert (le s3 s8) as L by chain. clear L4 L5 L6 L7 L8 s4 s5 s6 s7.
  assert (forall s4 (written : bool), le s8 s4 -> ok (if negb written then Ret tt else
    pbind (act (Local p (fun st => (tt, fold_left (fun st id => note_lease id (t' + leaseTtlMs) st) live st)))) (fun _ =>
    pbind (act (StillNamed p (map fst held))) (fun kept => match kept with Err _ => Ret tt | Ok kept =>
      pbind (act (Local p (conclude_loss held kept))) (fun gone => if (length gone =? 0)%nat then Ret tt else act (LeaseLost p gone)) end))) fine s4) as Hrest.
  { intros s4 written L4. destruct written; cbn [negb]; [|apply ret_fine]. apply local_do; [intros st Hok; by apply note_leases_ok|].
    intros _ s5 L5. apply lease_bind_ok, safe_act. intros s6 L6 I6. split; [done|]. intros r s7 Hr I7 L7 s9 L9.
    destruct r as [kept|]; [|apply ret_fine]. destruct Hr as [[? _]|[[= ->] ->]]; [done|].
    apply lease_bind_ok, safe_act. intros s10 L10 I10. split; [apply conclude_loss_ok|]. intros gone s11 [Hg ->] I11 L11 s12 L12.
    destruct (_ =? _)%nat; [apply ret_fine|]. apply safe_act. intros s13 L13 I13. split; [|done].
    match type of L9 with le ?t _ => set (s7 := t) in * end.
    assert (le s7 s13) as Lx by chain. cbn [pre].
    assert (Forall (fun e => (p, fst e, snd e) ∈ seen s7) gone) as Hf.
    { eapply (elements_loss p held (named nodeOf p s6 (map fst held)) s7 (proc s10 p)).
      - rewrite Hg. apply surjective_pairing.
      - apply Hseq'. chain.
      - assert (le s7 s10) as Ly by chain. apply (le_proc _ _ Ly).
      - intros e He Hk g Hgen. unfold s7. simpl. apply elem_of_app. left. unfold unnamed. apply list_elem_of_omap. exists (fst e).
        split; [apply elem_of_map; by exists e|]. destruct (existsb _ _) eqn:Ex.
        + apply existsb_elem in Ex as (x & Hx & Heq). apply String.eqb_eq in Heq as <-. done.
        + change (proc s7 p) with (proc s6 p) in Hgen. by rewrite Hgen. }
    apply Forall_forall. intros e He. rewrite Forall_forall in Hf. split; [by apply (le_seen _ _ Lx), Hf|].
    subst gone. destruct (loss_over _ _ _ e (i_procs _ I10 p) He) as [H1 H2].
    match type of L12 with le ?t _ => apply (over_le t); [chain|]; unfold over; rewrite proc_with, decide_True by done; rewrite H2; done end. }
  destruct (_ =? _)%nat; [apply safe_ret; intros s4 L4; by apply (Hrest s4 true)|].
  apply safe_act. intros s4 L4 I4. split; [cbn; pose proof (le_clock _ _ L4); lia|]. intros w s5 _ _ L5 s6 L6. apply Hrest. chain.
Qed.

Lemma follow_ok p sid s : ok (followAdoption onAdopted p sid) fine s.
Proof. unfold followAdoption. destruct onAdopted; [|apply ret_fine]. by apply safe_act. Qed.

Lemma ready_ok {A : Type} (f : bool -> task A) Q s : (forall b s1, le s s1 -> ok (f b) Q s1) -> ok (pbind (adoption_ready onAdopted) f) Q s.
Proof.
  intros Hf. unfold adoption_ready. destruct onAdopted as [[]|]; [by apply act_ok| |]; apply lease_bind_ok, safe_ret; intros s1 L1; by apply Hf.
Qed.

Lemma claim_failed_ok p sid g s : ok (claim_failed leaseTtlMs p sid g) fine s.
Proof.
  unfold claim_failed. apply local_do.
  - intros st Hok. destruct (bool_decide (claimGen st !! sid = Some g)); [|by apply step_refl].
    destruct (bool_decide (sid ∈ owned st)) eqn:E; bool_facts; [by apply step_refl|by apply drop_gen_ok].
  - intros b s1 L1. apply maybe_ok; [apply renew_ok|]. intros s2 _. apply ret_fine.
Qed.

Lemma claim_update_ok p sid now lease g previous s :
  now <= clock s -> lease <= clock s + leaseTtlMs -> ok (claim_update nodeOf urlOf leaseTtlMs onAdopted p sid now lease g previous) fine s.
Proof.
  intros Hn Hl. unfold claim_update. destruct previous as [previous|[]]; [|apply claim_failed_ok].
  apply local_do; [apply look_ok|]. intros [] s3 L3; cbn [negb]; [|apply ret_fine].
  apply act_ok. { intros s4 L4. cbn. assert (le s s4) as Lx by chain. pose proof (le_clock _ _ Lx). lia. }
  intros [affected|] s4 L4; [|apply claim_failed_ok]. apply local_do; [apply look_ok|]. intros [] s5 L5; cbn [negb]; [|apply ret_fine].
  apply maybe_ok; [intros; apply follow_ok|]. intros s6 L6. apply local_do; [apply land_ok|]. intros [| |] s7 L7; [apply ret_fine| |].
  - apply maybe_ok; [intros; apply follow_ok|]. intros; apply ret_fine.
  - apply maybe_ok; [intros; apply renew_ok|]. intros; apply ret_fine.
Qed.

Lemma claim_write_ok p sid now lease g s :
  now <= clock s -> lease <= clock s + leaseTtlMs -> ok (claim_write nodeOf urlOf leaseTtlMs onAdopted p sid now lease g) fine s.
Proof.
  intros Hn Hl. unfold claim_write. apply ready_ok. intros [] s1 L1; cbn [negb]; [|apply claim_failed_ok]. apply lease_bind_ok.
  assert (forall previous s2, le s s2 -> ok (claim_update nodeOf urlOf leaseTtlMs onAdopted p sid now lease g previous) fine s2) as Hrest.
  { intros previous s2 L2. pose proof (le_clock _ _ L2). apply claim_update_ok; lia. }
  destruct onAdopted as [ad|] eqn:E; [|apply safe_ret; intros s2 L2; apply Hrest; chain].
  apply safe_act. intros s2 L2 I2. split; [done|]. intros r s3 _ _ L3 s4 L4. apply Hrest. chain.
Qed.

Lemma claim_ok p sid s : ok (claim nodeOf urlOf leaseTtlMs onAdopted p sid) fine s.
Proof.
  unfold claim. apply now_ok. intros now s1 L1 Hn. apply local_do; [apply enter_ok|]. intros e s2 L2. pose proof (le_clock _ _ L2).
  destruct e as [g|g]; [|by apply claim_write_ok; lia].
  apply act_ok. { intros s3 L3. cbn. pose proof (le_clock _ _ L3). lia. }
  intros [affected|] s3 L3; [|apply ret_fine]. apply local_do; [apply overlap_ok|]. intros [| |g'] s4 L4; [apply ret_fine|apply ret_fine|].
  assert (le s2 s4) as Lx by chain. pose proof (le_clock _ _ Lx). apply claim_write_ok; lia.
Qed.

Lemma write_leased p st s sid lease :
  row_hit nodeOf p st s sid = true -> (forall r, hits (nodeOf p) st r = true -> holder (applied (nodeOf p) st r) = (Some (nodeOf p), Some lease)) ->
  leased (write_row nodeOf p st s sid) p sid lease.
Proof.
  unfold row_hit, write_row, leased. intros Hh Ha. destruct (rows s !! sid) as [r|]; [|done]. rewrite Hh. eexists. split; [by left|]. simpl.
  split_and!; [done|done|by apply Ha].
Qed.

Lemma prepare_ok p sid desired s : ok (prepareStart leaseTtlMs p sid desired) fine s.
Proof.
  unfold prepareStart. apply now_ok. intros now s1 L1 Hn. apply lease_bind_ok, safe_act. intros s2 L2 I2.
  split; [cbn; pose proof (le_clock _ _ L2); lia|]. intros r s3 Hr _ L3 s4 L4. destruct r as [affected|]; [|apply ret_fine].
  apply now_ok. intros t s5 L5 _. destruct affected; cbn [negb orb]; [|apply ret_fine]. destruct (_ <=? _) eqn:Ht; bool_facts; [apply ret_fine|].
  destruct Hr as [[? _]|[[?|[= Hh]] ->]]; [done|done|].
  assert (leased (write_row nodeOf p (Prepare now (now + leaseTtlMs) desired) s2 sid) p sid (now + leaseTtlMs)) as Hle.
  { apply write_leased; [done|]. intros r Hr. cbn [hits] in Hr. unfold is_me in Hr. bool_facts. unfold holder. simpl. by f_equal. }
  apply local_do; [apply note_lease_ok|]. intros _ s6 L6. apply act_ok; [|intros; apply ret_fine]. intros s7 L7. split; [|done].
  eapply leased_le; [|exact Hle]. chain.
Qed.

Lemma stop_ok p sid s : ok (stopExpiredForeignClaim onAdopted p sid) fine s.
Proof.
  unfold stopExpiredForeignClaim. apply ready_ok. intros [] s1 L1; cbn [negb]; [|apply ret_fine]. apply now_ok. intros now s2 L2 Hn.
  apply act_ok. { intros s3 L3. cbn. pose proof (le_clock _ _ L3). lia. }
  intros [[]|] s3 L3; [|apply ret_fine|apply ret_fine]. apply lease_bind_ok. eapply lease_conseq_ok; [apply follow_ok|]. intros. apply ret_fine.
Qed.

Lemma release_captured_ok p sid captured s : ok (release_captured nodeOf p sid captured) fine s.
Proof.
  unfold release_captured. apply act_ok; [done|]. intros [] s1 L1; cbn [negb]; [|apply ret_fine]. apply act_ok; [done|].
  intros [row|] s2 L2; [|apply ret_fine]. apply local_do; [apply look_ok|]. intros [] s3 L3; cbn [negb]; [|apply ret_fine].
  apply act_ok; [done|]. intros undone s4 L4. apply lease_bind_ok.
  assert (forall (written : result unit bool) s5, ok (match written with Err _ => Ret (Err tt) | Ok _ =>
    pbind (act (Local p (fun st => (tt, if ownsClaim sid captured st then forget sid st else st)))) (fun _ => Ret (if (undone : bool) then Err tt else Ok tt)) end) fine s5) as Hrest.
  { intros [w|] s5; [|apply ret_fine]. apply local_do; [|intros; apply ret_fine]. intros st Hok. simpl.
    destruct (ownsClaim sid captured st); [by apply forget_ok|by apply step_refl]. }
  destruct (_ && _); [|apply safe_ret; intros s5 _; exact (Hrest (Ok false) s5)].
  apply safe_act. intros s5 L5 I5. split; [done|]. intros w s6 _ _ _ s7 _. apply Hrest.
Qed.

Lemma release_ok p sid s : ok (release onAdopted p sid) fine s.
Proof.
  unfold release. apply now_ok. intros now s1 L1 Hn. apply local_do; [intros st Hok; by apply forget_ok|]. intros _ s2 L2.
  apply act_ok; [done|]. intros [[]|] s3 L3; [apply ret_fine| |apply ret_fine]. apply ready_ok. intros [] s4 L4; cbn [negb]; [|apply ret_fine].
  apply act_ok. { intros s5 L5. assert (le s1 s5) as Lx by chain. pose proof (le_clock _ _ Lx). cbn. lia. }
  intros [[]|] s5 L5; [|apply ret_fine|apply ret_fine]. apply lease_bind_ok. eapply lease_conseq_ok; [apply follow_ok|]. intros. apply ret_fine.
Qed.

Lemma releaseAll_ok p keep s : ok (releaseAll p keep) fine s.
Proof.
  unfold releaseAll. apply local_do.
  - intros st Hok. simpl. by apply (forget_all_ok (fun x => x)).
  - intros ids s1 L1. destruct (_ =? _)%nat; [apply ret_fine|]. apply act_ok; [done|]. intros. apply ret_fine.
Qed.

Lemma lease_starts_ok s p : Inv s -> starts nodeOf urlOf leaseTtlMs onAdopted s p -> ok p fine s.
Proof.
  intros _ Hst. assert (forall A (t : task A) s, ok t fine s -> ok (ignore t) fine s) as Hign.
  { intros A t s0 Ht. apply lease_bind_ok. eapply lease_conseq_ok; [exact Ht|]. intros. apply ret_fine. }
  destruct Hst; try (apply Hign); [apply claim_ok|apply prepare_ok|apply stop_ok|apply release_ok|apply release_captured_ok|apply releaseAll_ok|apply renew_ok| |];
    (apply safe_act; intros s1 _ _; split; [intros st Hok; by apply same_claims|done]).
Qed.

(** ** The properties *)

(** The sessions of a fresh deployment: nobody holds them. *)
Definition fresh (sessions : gset string) (now : Z) : World :=
  mkWorld (set_to_map (fun sid => (sid, cleared None)) sessions) ∅ now [] [] [] [].

Abbreviation step := (pool_step run env (starts nodeOf urlOf leaseTtlMs onAdopted)).
Definition reachable (sessions : gset string) (now : Z) (c : list (task unit) * World) : Prop := rtc step ([], fresh sessions now) c.

Lemma fresh_inv sessions now : Inv (fresh sessions now).
Proof.
  split; simpl; [|done|done| |set_solver|set_solver].
  - intros sid r Hr. apply lookup_set_to_map in Hr as (sid' & _ & [= <- <-]); [done|]. intros y y' _ _ Hy. exact Hy.
  - intros p. split; simpl; [set_solver|]. intros sid g. unfold proc. simpl. rewrite lookup_empty. simpl. by rewrite lookup_empty.
Qed.

Lemma lease_reachable_inv sessions now c : reachable sessions now c -> Inv (snd c).
Proof.
  exact (pool_invariant run env (starts nodeOf urlOf leaseTtlMs onAdopted) le pre Inv lease_run_ok lease_env_inv lease_starts_ok (fresh sessions now) c (fresh_inv sessions now)).
Qed.

Lemma reachable_le sessions now c c' : reachable sessions now c -> rtc step c c' -> le (snd c) (snd c').
Proof.
  exact (pool_knows run env (starts nodeOf urlOf leaseTtlMs onAdopted) le pre Inv lease_run_ok lease_env_inv lease_starts_ok (fresh sessions now) c c' (fresh_inv sessions now)).
Qed.

(** ** Recovery *)

Definition taken (p : nat) (sid : string) (lease now : Z) (s : World) : Prop :=
  (exists r, rows s !! sid = Some r /\ holder r = (Some (nodeOf p), Some lease)) /\ sid ∈ owned (proc s p) /\ clock s = now.

Lemma follow_exec p sid s : exec run (followAdoption onAdopted p sid) s tt s.
Proof. unfold followAdoption. destruct onAdopted; [eapply exec_do; [|apply exec_ret]; done|apply exec_ret]. Qed.

Lemma maybe_exec (b : bool) p sid s : exec run (if b then followAdoption onAdopted p sid else Ret tt) s tt s.
Proof. destruct b; [apply follow_exec|apply exec_ret]. Qed.

Lemma look_exec p (f : Proc -> bool) s :
  exists s', run bool (Local p (fun st => (f st, st))) s (f (proc s p)) s' /\ rows s' = rows s /\ clock s' = clock s /\ proc s' p = proc s p.
Proof. exists (with_proc s p (proc s p)). split_and!; [done|done|done|]. rewrite proc_with. by rewrite decide_True. Qed.

Lemma write_exec p st s sid r : rows s !! sid = Some r -> hits (nodeOf p) st r = true ->
  exists s', run _ (Update p st sid) s (Ok true) s' /\ rows s' !! sid = Some (applied (nodeOf p) st r) /\ clock s' = clock s /\ proc s' p = proc s p.
Proof.
  intros Hr Hh. exists (write_row nodeOf p st s sid). split; [right; split; [right; unfold row_hit; by rewrite Hr, Hh|done]|].
  unfold write_row. rewrite Hr, Hh. split_and!; [apply lookup_insert_eq|done|done].
Qed.

(** A claim of a takeable row, unhindered, takes it. *)
Lemma claim_update_exec p sid now lease g previous s r :
  rows s !! sid = Some r -> takeable (nodeOf p) now r = true -> claimGen (proc s p) !! sid = Some g ->
  exists tok s', exec run (claim_update nodeOf urlOf leaseTtlMs onAdopted p sid now lease g (Ok previous)) s (Ok (Some tok)) s' /\
    taken p sid lease (clock s) s'.
Proof.
  intros Hr Ht Hg. unfold claim_update.
  destruct (look_exec p (fun st => bool_decide (claimGen st !! sid = Some g)) s) as (s1 & H1 & R1 & C1 & P1).
  rewrite bool_decide_eq_true_2 in H1 by done.
  destruct (write_exec p (Claim now lease (urlOf p)) s1 sid r) as (s2 & H2 & R2 & C2 & P2); [by rewrite R1|done|].
  destruct (look_exec p (fun st => bool_decide (claimGen st !! sid = Some g)) s2) as (s3 & H3 & R3 & C3 & P3).
  rewrite bool_decide_eq_true_2 in H3 by (rewrite P2, P1; done).
  set (st := own sid lease (proc s p)). exists (captureClaim sid st), (with_proc s3 p st). split.
  - eapply exec_act; [exact H1|]. cbn [negb]. eapply exec_act; [exact H2|]. eapply exec_act; [exact H3|]. cbn [negb].
    eapply exec_bind; [apply maybe_exec|]. eapply (exec_act _ _ _ _ (Taken (captureClaim sid st)) (with_proc s3 p st)).
    + assert (land sid g lease true (proc s3 p) = (Taken (captureClaim sid st), st)) as Hl.
      { unfold land, st. rewrite P3, P2, P1. by rewrite bool_decide_eq_true_2. }
      split; by rewrite Hl.
    + eapply exec_bind; [apply maybe_exec|]. apply exec_ret.
  - split_and!.
    + exists (applied (nodeOf p) (Claim now lease (urlOf p)) r). cbn [rows with_proc]. by rewrite R3.
    + rewrite proc_with, decide_True by done. cbn. set_solver.
    + cbn [clock with_proc]. congruence.
Qed.

Lemma claim_write_exec p sid now lease g s r :
  rows s !! sid = Some r -> takeable (nodeOf p) now r = true -> claimGen (proc s p) !! sid = Some g ->
  exists tok s', exec run (claim_write nodeOf urlOf leaseTtlMs onAdopted p sid now lease g) s (Ok (Some tok)) s' /\ taken p sid lease (clock s) s'.
Proof.
  intros Hr Ht Hg. destruct (claim_update_exec p sid now lease g (match onAdopted with Some _ => Some r | None => None end) s r Hr Ht Hg) as (tok & s' & H & Hs').
  exists tok, s'. split; [|done]. unfold claim_write, adoption_ready. destruct onAdopted as [[]|].
  - apply (exec_act _ _ _ _ true s); [done|]. cbn [negb]. eapply exec_act; [split; [done|right; by rewrite Hr]|]. exact H.
  - cbn [pbind negb]. eapply exec_act; [split; [done|right; by rewrite Hr]|]. exact H.
  - exact H.
Qed.

Lemma claim_exec p sid s r :
  proc_ok (proc s p) -> rows s !! sid = Some r -> takeable (nodeOf p) (clock s) r = true ->
  exists tok s', exec run (claim nodeOf urlOf leaseTtlMs onAdopted p sid) s (Ok (Some tok)) s' /\ taken p sid (clock s + leaseTtlMs) (clock s) s'.
Proof.
  intros Hok Hr Ht. unfold claim. set (lease := clock s + leaseTtlMs).
  assert (forall entry, enter sid (proc s p) = (entry, snd (enter sid (proc s p))) -> run Entry (Local p (enter sid)) s entry (with_proc s p (snd (enter sid (proc s p))))) as Hent.
  { intros entry He. split; [by rewrite He|done]. }
  unfold enter in Hent. destruct (_ || _) eqn:Eh.
  - set (s1 := with_proc s p (proc s p)). assert (proc s1 p = proc s p) as P1 by (unfold s1; rewrite proc_with; by rewrite decide_True).
    specialize (Hent _ eq_refl). cbn [snd] in Hent. destruct (claimGen (proc s p) !! sid) as [g|] eqn:Hg.
    2: { apply orb_true_iff in Eh as [Eh|Eh]; bool_facts; [|by destruct Eh]. apply (proj1 Hok) in Eh. rewrite Hg in Eh. by destruct Eh. }
    destruct (is_me (nodeOf p) r) eqn:Hme.
    + destruct (write_exec p (Renew lease) s1 sid r Hr Hme) as (s2 & H2 & R2 & C2 & P2).
      set (st := note_lease sid lease (with_owned (proc s p) ({[sid]} ∪ owned (proc s p)))).
      assert (overlap sid (Some g) lease true (proc s2 p) = (Kept (captureClaim sid st), st)) as Ho.
      { unfold overlap, st. rewrite P2, P1. rewrite bool_decide_eq_true_2 by done. cbn. by rewrite Hg. }
      exists (captureClaim sid st), (with_proc s2 p st). split.
      * eapply exec_act; [split; reflexivity|]. eapply exec_act; [exact Hent|]. cbn [fst]. eapply exec_act; [exact H2|].
        fold lease. eapply (exec_act _ _ _ _ (Kept (captureClaim sid st)) (with_proc s2 p st)); [split; by rewrite Ho|]. apply exec_ret.
      * unfold is_me in Hme. bool_facts. split_and!.
        -- eexists. split; [exact R2|]. unfold holder. cbn. by rewrite Hme.
        -- rewrite proc_with, decide_True by done. cbn. set_solver.
        -- cbn [clock with_proc]. by rewrite C2.
    + destruct (allocate sid (proc s p)) as [g' st] eqn:Ea. unfold allocate in Ea. injection Ea as <- <-.
      set (st := with_gens (proc s p) (<[sid := claimSeq (proc s p) + 1]> (claimGen (proc s p))) (claimSeq (proc s p) + 1)).
      assert (run _ (Update p (Renew lease) sid) s1 (Ok false) s1) as Hup.
      { right. unfold row_hit, write_row, s1. cbn [rows with_proc]. rewrite Hr. cbn [hits]. rewrite Hme. split; [by right|done]. }
      assert (overlap sid (Some g) lease false (proc s1 p) = (Claims (claimSeq (proc s p) + 1), st)) as Ho.
      { unfold overlap. rewrite P1, Hg. by rewrite bool_decide_eq_true_2. }
      destruct (claim_write_exec p sid (clock s) lease (claimSeq (proc s p) + 1) (with_proc s1 p st) r) as (tok & s' & H & Hs'); [done|done| |].
      { rewrite proc_with, decide_True by done. apply lookup_insert_eq. }
      exists tok, s'. split; [|exact Hs'].
      eapply exec_act; [split; reflexivity|]. eapply exec_act; [exact Hent|]. cbn [fst]. eapply exec_act; [exact Hup|].
      fold lease. eapply (exec_act _ _ _ _ (Claims (claimSeq (proc s p) + 1)) (with_proc s1 p st)); [split; by rewrite Ho|]. exact H.
  - specialize (Hent _ eq_refl). cbn [snd allocate] in Hent.
    match type of Hent with run _ _ _ _ ?t => destruct (claim_write_exec p sid (clock s) lease (claimSeq (proc s p) + 1) t r) as (tok & s' & H & Hs'); [done|done| |] end.
    { rewrite proc_with, decide_True by done. apply lookup_insert_eq. }
    exists tok, s'. split; [|exact Hs']. eapply exec_act; [split; reflexivity|]. eapply exec_act; [exact Hent|]. exact H.
Qed.

(** C4. A lease is exclusive while it runs.  In any interleaving of any number of
    processes, once a statement leaves a session to node [n] until [t], no process
    of another node writes that session's row before [t] unless a process of [n]
    wrote it in between: a claim, a stop and a release all stand back from a lease
    that has not lapsed, even when they act on a clock they read long before. *)
Theorem lease_is_exclusive sessions now ts s l1 w l2 n t w' :
  reachable sessions now (ts, s) -> log s = (l1 ++ w :: l2)%list ->
  nodeId (w_after w) = Some n -> leaseExpiresAt (w_after w) = Some t ->
  w' ∈ l1 -> w_sid w' = w_sid w -> w_at w' < t -> nodeOf (w_by w') <> n ->
  exists k1 v k2, l1 = (k1 ++ v :: k2)%list /\ w' ∈ k1 /\ w_sid v = w_sid w /\ nodeOf (w_by v) = n.
Proof.
  intros Hr Hl Hn Ht Hin Hs Hat Hne. pose proof (proj1 (i_log _ (lease_reachable_inv _ _ _ Hr))) as Hlog. simpl in Hlog. rewrite Hl in Hlog.
  apply (holder_writes_first (w_sid w) w n t w' l1 (w :: l2)); try done.
  - unfold last_write. cbn [List.find]. by destruct (String.eqb_spec (w_sid w) (w_sid w)).
  - unfold holder. by rewrite Hn, Ht.
Qed.

(** A start is admitted only on a lease: whenever [prepareStart] answers true,
    the process itself had written the session's row with its own node and an
    expiry still ahead when it answered. *)
Theorem starts_are_leased sessions now ts s p sid lease at_ :
  reachable sessions now (ts, s) -> (p, sid, lease, at_) ∈ admitted s ->
  at_ < lease /\ exists w, w ∈ log s /\ w_by w = p /\ w_sid w = sid /\ nodeId (w_after w) = Some (nodeOf p) /\ leaseExpiresAt (w_after w) = Some lease.
Proof.
  intros Hr Hin. destruct (i_admitted _ (lease_reachable_inv _ _ _ Hr) _ _ _ _ Hin) as [(w & Hw & H1 & H2 & H3) Hlt].
  split; [done|]. injection H3 as H3 H4. by exists w.
Qed.

(** A captured claim does not come back: once the token a claim handed out has
    stopped answering true, through a release, a loss or a newer claim of the same
    session by the same process, it never answers true again. *)
Theorem claim_token_is_final sessions now c1 c2 c3 p sid g :
  reachable sessions now c1 -> rtc step c1 c2 -> rtc step c2 c3 ->
  ownsClaim sid (Some g) (proc (snd c1) p) = true -> ownsClaim sid (Some g) (proc (snd c2) p) = false ->
  ownsClaim sid (Some g) (proc (snd c3) p) = false.
Proof.
  intros H1 H12 H23 Ht Hf. destruct (ownsClaim sid (Some g) (proc (snd c3) p)) eqn:E; [|done]. exfalso. cbn [ownsClaim] in *. bool_facts.
  pose proof (reachable_le _ _ _ _ H1 H12) as L12. assert (reachable sessions now c2) as Hr2 by (unfold reachable in *; by etrans).
  pose proof (reachable_le _ _ _ _ Hr2 H23) as L23. pose proof (proj2 (i_procs _ (lease_reachable_inv _ _ _ H1) p) sid g ltac:(done)) as Hg.
  destruct (le_proc _ _ L12 p) as [Hs12 Hp12]. destruct (le_proc _ _ L23 p) as [_ Hp23].
  destruct (Hp23 sid g ltac:(lia) ltac:(done)) as [Hg2 _]. destruct (Hp12 sid g Hg Hg2) as [_ Ho].
  apply andb_false_iff in Hf as [Hf|Hf]; bool_facts; [|done]. by apply Hf, Ho.
Qed.

(** A loss is only concluded from the rows: whenever [renew] tears a claim
    down, a read made while that very claim stood found the session's row naming
    no longer this node (not a failed query, not a claim released or retaken while
    the queries ran), and the claim is over. *)
Theorem losses_are_observed sessions now ts s p sid g :
  reachable sessions now (ts, s) -> (p, sid, g) ∈ lost s ->
  (p, sid, g) ∈ seen s /\ ownsClaim sid (Some g) (proc s p) = false.
Proof.
  intros Hr Hin. destruct (i_lost _ (lease_reachable_inv _ _ _ Hr) _ _ _ Hin) as [H1 [_ H2]]. split; [done|]. cbn [ownsClaim].
  apply andb_false_iff. right. by apply bool_decide_eq_false_2.
Qed.

(** C37. No session stays with a process that is gone: from every reachable state,
    every process can take any session over once a TTL has passed without its
    holder renewing, by a claim that runs to its end, answers true and leaves the
    row to its node with a full lease. *)
Theorem abandoned_sessions_recover sessions now ts s p sid r :
  reachable sessions now (ts, s) -> rows s !! sid = Some r ->
  exists s', rtc step (ts, s) (Ret tt :: ts, s') /\ clock s' = clock s + (Z.max 0 leaseTtlMs + 1) /\ sid ∈ owned (proc s' p) /\
    exists r', rows s' !! sid = Some r' /\ nodeId r' = Some (nodeOf p) /\ leaseExpiresAt r' = Some (clock s' + leaseTtlMs).
Proof.
  intros Hr Hrow. set (t := clock s + (Z.max 0 leaseTtlMs + 1)).
  set (s1 := mkWorld (rows s) (procs s) t (log s) (seen s) (lost s) (admitted s)).
  assert (step (ts, s) (ts, s1)) as Hclock by (apply ps_env, env_clock; lia).
  pose proof (lease_reachable_inv _ _ _ Hr) as HI. destruct (i_rows _ HI sid r Hrow) as [Hnl Hlt].
  destruct (claim_exec p sid s1 r) as (tok & s2 & Hexec & (r' & Hr' & Hh) & Ho & Hc); [apply (i_procs _ HI)|done| |].
  { unfold takeable. destruct (nodeId r) as [n|] eqn:En; [|done]. destruct (leaseExpiresAt r) as [l|] eqn:El; [|by destruct Hnl as [_ Hnl]; specialize (Hnl eq_refl)].
    apply orb_true_iff. right. unfold lease_before. rewrite El. apply Z.ltb_lt. specialize (Hlt l eq_refl). simpl in *. lia. }
  exists s2. split; [|split; [exact Hc|split; [exact Ho|]]].
  - eapply rtc_l; [exact Hclock|]. eapply rtc_l; [apply ps_start, (st_claim _ _ _ _ s1 p sid)|]. apply exec_steps.
    eapply exec_bind; [exact Hexec|]. apply exec_ret.
  - exists r'. injection Hh as Hh1 Hh2. split_and!; [done|done|]. by rewrite Hh2, Hc.
Qed.
End leases.

(** ** A run *)

Definition node_w (p : nat) : string := match p with O => "a" | _ => "b" end.
Definition sessions_w : gset string := {["s"]}.

(** Statements that succeed, engines that live. *)
Definition answer_w (B : Type) (e : eff B) (s : World) : option (B * World) :=
  match e in eff B return option (B * World) with
  | Now => Some (clock s, s)
  | Local p f => Some (fst (f (proc s p)), with_proc s p (snd (f (proc s p))))
  | Update p st sid => Some (Ok (row_hit node_w p st s sid), write_row node_w p st s sid)
  | UpdateIn p st ids => Some (true, fold_left (write_row node_w p st) ids s)
  | ReadRow sid => Some (Ok (rows s !! sid), s)
  | MyRows p => Some (Ok (List.filter (fun e => is_me (node_w p) (snd e)) (map_to_list (rows s))), s)
  | StillNamed p ids => Some (Ok (named node_w p s ids),
      mkWorld (rows s) (procs s) (clock s) (log s) (unnamed node_w p s ids ++ seen s)%list (lost s) (admitted s))
  | LeaseLost p ids => Some (tt, mkWorld (rows s) (procs s) (clock s) (log s) (seen s) (map (fun e => (p, fst e, snd e)) ids ++ lost s)%list (admitted s))
  | StartAdmitted p sid lease at_ => Some (tt, mkWorld (rows s) (procs s) (clock s) (log s) (seen s) (lost s) ((p, sid, lease, at_) :: admitted s))
  | TransactionFree => Some (true, s)
  | CommitLost => Some (false, s)
  | EngineLiveness _ => Some (sessions_w, s)
  | Adopted _ _ => Some (tt, s)
  end.

Lemma answer_w_ok B (e : eff B) s b s1 : answer_w B e s = Some (b, s1) -> Ownership.run node_w B e s b s1.
Proof. destruct e; cbn [answer_w Ownership.run]; intros [= <- <-]; auto. Qed.

Definition url_w (_ : nat) : option string := None.
Abbreviation reach := (reachable node_w url_w 60 None sessions_w 0).
Abbreviation step_w := (pool_step (Ownership.run node_w) env (starts node_w url_w 60 None)).

Definition after (t : prog eff unit) (s : World) : World := match play answer_w t s with Some (_, s') => s' | None => s end.
Definition at_time (t : Z) (s : World) : World := mkWorld (rows s) (procs s) t (log s) (seen s) (lost s) (admitted s).

(** Time passes, and a task is started and runs to its end. *)
Lemma then_task t time ts s :
  clock s <= time -> starts node_w url_w 60 None (at_time time s) t ->
  bool_decide (is_Some (play answer_w t (at_time time s))) = true -> rtc step_w (ts, s) (Ret tt :: ts, after t (at_time time s)).
Proof.
  intros Hc Hst Hp. eapply rtc_l; [by apply ps_env, env_clock|]. eapply rtc_l; [by apply ps_start|]. apply exec_steps. unfold after.
  apply bool_decide_eq_true_1 in Hp. destruct (play answer_w t (at_time time s)) as [[[] s']|] eqn:E; [|by destruct Hp].
  exact (play_exec _ answer_w answer_w_ok t _ tt s' E).
Qed.

(** Node [a] claims the session at 0 and starts it at 10; it releases it at 20 and
    [b] claims it at 30; [b] goes silent, and at 100 [a] claims it back; [b]'s
    heartbeat finds its claim lost. *)
Definition w0 : World := fresh sessions_w 0.
Definition w1 : World := after (ignore (claim node_w url_w 60 None 0 "s")) (at_time 0 w0).
Definition w2 : World := after (ignore (prepareStart 60 0 "s" None)) (at_time 10 w1).
Definition w3 : World := after (ignore (release None 0 "s")) (at_time 20 w2).
Definition w4 : World := after (ignore (claim node_w url_w 60 None 1 "s")) (at_time 30 w3).
Definition w5 : World := after (ignore (claim node_w url_w 60 None 0 "s")) (at_time 100 w4).
Definition w6 : World := after (renew 60 1) (at_time 100 w5).
Definition done_w (n : nat) : list (prog eff unit) := repeat (Ret tt) n.

Lemma step_1 : rtc step_w ([], w0) (done_w 1, w1).
Proof. refine (then_task (ignore (claim node_w url_w 60 None 0 "s")) 0 [] w0 _ (st_claim _ _ _ _ _ _ _) _); vm_compute; done. Qed.
Lemma step_2 : rtc step_w (done_w 1, w1) (done_w 2, w2).
Proof. refine (then_task (ignore (prepareStart 60 0 "s" None)) 10 (done_w 1) w1 _ (st_prepare _ _ _ _ _ _ _ _) _); vm_compute; done. Qed.
Lemma step_3 : rtc step_w (done_w 2, w2) (done_w 3, w3).
Proof. refine (then_task (ignore (release None 0 "s")) 20 (done_w 2) w2 _ (st_release _ _ _ _ _ _ _) _); vm_compute; done. Qed.
Lemma step_4 : rtc step_w (done_w 3, w3) (done_w 4, w4).
Proof. refine (then_task (ignore (claim node_w url_w 60 None 1 "s")) 30 (done_w 3) w3 _ (st_claim _ _ _ _ _ _ _) _); vm_compute; done. Qed.
Lemma step_5 : rtc step_w (done_w 4, w4) (done_w 5, w5).
Proof. refine (then_task (ignore (claim node_w url_w 60 None 0 "s")) 100 (done_w 4) w4 _ (st_claim _ _ _ _ _ _ _) _); vm_compute; done. Qed.
Lemma step_6 : rtc step_w (done_w 5, w5) (done_w 6, w6).
Proof. refine (then_task (renew 60 1) 100 (done_w 5) w5 _ (st_renew _ _ _ _ _ _) _); vm_compute; done. Qed.

Lemma reach_1 : reach (done_w 1, w1).
Proof. unfold reachable. exact step_1. Qed.
Lemma steps_1_3 : rtc step_w (done_w 1, w1) (done_w 3, w3).
Proof. etrans; [exact step_2|exact step_3]. Qed.
Lemma steps_3_6 : rtc step_w (done_w 3, w3) (done_w 6, w6).
Proof. etrans; [exact step_4|]. etrans; [exact step_5|exact step_6]. Qed.
Lemma reach_4 : reach (done_w 4, w4).
Proof. unfold reachable. etrans; [exact step_1|]. etrans; [exact step_2|]. etrans; [exact step_3|exact step_4]. Qed.
Lemma reach_6 : reach (done_w 6, w6).
Proof. unfold reachable. etrans; [exact reach_4|]. etrans; [exact step_5|exact step_6]. Qed.

Definition row_w (node : option string) (claimed lease : option Z) : Row := mkRow node claimed lease None None.
Definition claimed_b : Write := mkWrite 1 "s" (row_w None None None) (row_w (Some "b") (Some 30) (Some 90)) 30.
Definition released_a : Write := mkWrite 0 "s" (row_w (Some "a") (Some 0) (Some 70)) (row_w None None None) 20.
Definition started_a : Write := mkWrite 0 "s" (row_w (Some "a") (Some 0) (Some 60)) (row_w (Some "a") (Some 0) (Some 70)) 10.
Definition claimed_a : Write := mkWrite 0 "s" (row_w None None None) (row_w (Some "a") (Some 0) (Some 60)) 0.

Lemma lease_is_exclusive_witness :
  log w4 = [claimed_b; released_a; started_a; claimed_a] /\
  exists k1 v k2, [claimed_b; released_a] = (k1 ++ v :: k2)%list /\ claimed_b ∈ k1 /\ w_sid v = "s" /\ node_w (w_by v) = "a".
Proof.
  split; [vm_compute; reflexivity|].
  refine (lease_is_exclusive node_w url_w 60 None sessions_w 0 _ _ [claimed_b; released_a] started_a [claimed_a] "a" 70 claimed_b reach_4 _ eq_refl eq_refl _ eq_refl _ _);
    [vm_compute; reflexivity|by left|vm_compute; reflexivity|vm_compute; discriminate].
Defined.

Lemma starts_are_leased_witness :
  (0%nat, "s", 70, 10) ∈ admitted w4 /\
  (10 < 70 /\ exists w, w ∈ log w4 /\ w_by w = 0%nat /\ w_sid w = "s" /\ nodeId (w_after w) = Some (node_w 0) /\ leaseExpiresAt (w_after w) = Some 70).
Proof.
  assert ((0%nat, "s", 70, 10) ∈ admitted w4) as Hin by (vm_compute; left).
  split; [exact Hin|]. exact (starts_are_leased node_w url_w 60 None sessions_w 0 _ _ 0 "s" 70 10 reach_4 Hin).
Defined.

(** Whether process 0 still answers for its first claim. *)
Definition token_w (c : list (prog eff unit) * World) : bool := ownsClaim "s" (Some 1) (proc (snd c) 0).
Lemma token_1 : token_w (done_w 1, w1) = true.
Proof. vm_compute. reflexivity. Qed.
Lemma token_3 : token_w (done_w 3, w3) = false.
Proof. vm_compute. reflexivity. Qed.

Lemma claim_token_is_final_witness :
  token_w (done_w 1, w1) = true /\ token_w (done_w 3, w3) = false /\ token_w (done_w 6, w6) = false.
Proof.
  exact (conj token_1 (conj token_3
    (claim_token_is_final node_w url_w 60 None sessions_w 0 (done_w 1, w1) (done_w 3, w3) (done_w 6, w6) 0 "s" 1 reach_1 steps_1_3 steps_3_6 token_1 token_3))).
Defined.

Lemma losses_are_observed_witness :
  (1%nat, "s", 1) ∈ lost w6 /\ (1%nat, "s", 1) ∈ seen w6 /\ ownsClaim "s" (Some 1) (proc w6 1) = false.
Proof.
  assert ((1%nat, "s", 1) ∈ lost w6) as Hin by (vm_compute; left).
  split; [exact Hin|]. exact (losses_are_observed node_w url_w 60 None sessions_w 0 _ _ 1 "s" 1 reach_6 Hin).
Defined.

Lemma abandoned_sessions_recover_witness :
  rows w4 !! "s" = Some (row_w (Some "b") (Some 30) (Some 90)) /\
  exists s', rtc step_w (done_w 4, w4) (Ret tt :: done_w 4, s') /\ clock s' = clock w4 + (Z.max 0 60 + 1) /\ "s" ∈ owned (proc s' 0) /\
    exists r', rows s' !! "s" = Some r' /\ nodeId r' = Some (node_w 0) /\ leaseExpiresAt r' = Some (clock s' + 60).
Proof.
  assert (rows w4 !! "s" = Some (row_w (Some "b") (Some 30) (Some 90))) as Hr by (vm_compute; reflexivity).
  split; [exact Hr|]. exact (abandoned_sessions_recover node_w url_w 60 None sessions_w 0 _ _ 0 "s" _ reach_4 Hr).
Defined.
