(* ===== verification/Base64.v ===== *)
(** * Base64 and UTF-8

    What the plugin storage uses of Node's [Buffer]: [toString('base64')], the
    lenient decoder [Buffer.from(_, 'base64')], and the well-formed byte sequences
    of UTF-8.  A string is here its UTF-8 bytes. *)
From S2P Require Import Prelude JsString.
Local Open Scope string_scope.
Local Open Scope N_scope.

Definition bytes_of (s : string) : list N := map code (String.list_ascii_of_string s).
Definition of_bytes (l : list N) : string := String.string_of_list_ascii (map ascii_of_N l).

(** The alphabet; the decoder takes the URL-safe letters too. *)
Definition b64_char (n : N) : ascii :=
  ascii_of_N (if n <? 26 then 65 + n else if n <? 52 then 71 + n else if n <? 62 then n - 4 else if n =? 62 then 43 else 47).

Definition b64_value (c : ascii) : option N :=
  let n := code c in
  if (65 <=? n) && (n <=? 90) then Some (n - 65)
  else if (97 <=? n) && (n <=? 122) then Some (n - 71)
  else if (48 <=? n) && (n <=? 57) then Some (n + 4)
  else if (n =? 43) || (n =? 45) then Some 62
  else if (n =? 47) || (n =? 95) then Some 63
  else None.

Fixpoint sextets (l : list N) : list N :=
  match l with
  | a :: b :: c :: r => a / 4 :: (a mod 4) * 16 + b / 16 :: (b mod 16) * 4 + c / 64 :: c mod 64 :: sextets r
  | [a; b] => [a / 4; (a mod 4) * 16 + b / 16; (b mod 16) * 4]
  | [a] => [a / 4; (a mod 4) * 16]
  | [] => []
  end.

Fixpoint octets (l : list N) : list N :=
  match l with
  | a :: b :: c :: d :: r => a * 4 + b / 16 :: (b mod 16) * 16 + c / 4 :: (c mod 4) * 64 + d :: octets r
  | [a; b; c] => [a * 4 + b / 16; (b mod 16) * 16 + c / 4]
  | [a; b] => [a * 4 + b / 16]
  | _ => []
  end.

Definition padding (n : nat) : string := match (n mod 3)%nat with 1%nat => "==" | 2%nat => "=" | _ => "" end.

(** [Buffer.from(s, 'utf8').toString('base64')] *)
Definition toBase64 (s : string) : string :=
  String.string_of_list_ascii (map b64_char (sextets (bytes_of s))) +:+ padding (String.length s).

(** The letters of the alphabet up to the first [=]; other characters are skipped. *)
Fixpoint b64_values (s : string) : list N :=
  match s with
  | EmptyString => []
  | String c r =>
      if Ascii.eqb c "=" then [] else match b64_value c with Some n => n :: b64_values r | None => b64_values r end
  end.

(** [Buffer.from(s, 'base64')] *)
Definition fromBase64 (s : string) : string := of_bytes (octets (b64_values s)).

(** The byte sequences [toString('utf8')] reads back unchanged. *)
Definition tail_byte (n : N) : bool := (128 <=? n) && (n <=? 191).

Fixpoint utf8_ok (l : list N) : bool :=
  match l with
  | [] => true
  | a :: r =>
      if a <? 128 then utf8_ok r else
      match r with
      | b :: r2 =>
          if (194 <=? a) && (a <=? 223) then tail_byte b && utf8_ok r2 else
          match r2 with
          | c :: r3 =>
              if (224 <=? a) && (a <=? 239) then
                tail_byte b && tail_byte c && (if a =? 224 then 160 <=? b else true) && (if a =? 237 then b <=? 159 else true) && utf8_ok r3
              else
              match r3 with
              | d :: r4 =>
                  (240 <=? a) && (a <=? 244) && tail_byte b && tail_byte c && tail_byte d &&
                  (if a =? 240 then 144 <=? b else true) && (if a =? 244 then b <=? 143 else true) && utf8_ok r4
              | [] => false
              end
          | [] => false
          end
      | [] => false
      end
  end.
Definition well_formed (s : string) : bool := utf8_ok (bytes_of s).

(** ** The codec *)

Local Ltac Zify.zify_post_hook ::= Z.to_euclidean_division_equations.

Lemma list_ind3 {A : Type} (P : list A -> Prop) :
  P [] -> (forall a, P [a]) -> (forall a b, P [a; b]) -> (forall a b c r, P r -> P (a :: b :: c :: r)) -> forall l, P l.
Proof.
  intros H0 H1 H2 H3 l. assert (P l /\ (forall a, P (a :: l)) /\ (forall a b, P (a :: b :: l))) as [? _]; [|done].
  induction l as [|x l (IH1 & IH2 & IH3)]; [done|]. split; [apply IH2|]. split; [intros a; apply IH3|]. intros a b. by apply H3.
Qed.

Lemma octets_sextets l : Forall (fun n => n < 256) l -> octets (sextets l) = l.
Proof.
  induction l as [|a|a b|a b c r IH] using list_ind3; intros Hf; repeat (apply Forall_cons in Hf as [? Hf]); cbn [sextets octets]; [done| | |].
  - f_equal. lia.
  - f_equal; [lia|]. f_equal. lia.
  - rewrite (IH Hf). f_equal; [lia|]. f_equal; [lia|]. f_equal. lia.
Qed.

Lemma sextets_bound l : Forall (fun n => n < 256) l -> Forall (fun n => n < 64) (sextets l).
Proof.
  induction l as [|a|a b|a b c r IH] using list_ind3; intros Hf; repeat (apply Forall_cons in Hf as [? Hf]); cbn [sextets];
    repeat (constructor; [lia|]); auto.
Qed.

Lemma code_bound c : code c < 256.
Proof. unfold code. apply N_ascii_bounded. Qed.

Lemma bytes_bound s : Forall (fun n => n < 256) (bytes_of s).
Proof. unfold bytes_of. apply Forall_forall. intros n (c & -> & _)%elem_of_map. apply code_bound. Qed.

Lemma of_bytes_of s : of_bytes (bytes_of s) = s.
Proof.
  unfold of_bytes, bytes_of. rewrite List.map_map. etrans; [|apply String.string_of_list_ascii_of_string]. f_equal.
  etrans; [apply List.map_ext; intros c; apply ascii_N_embedding|]. apply List.map_id.
Qed.

(** Every sextet, and what becomes of its letter. *)
Lemma sextet_cases (P : N -> bool) : forallb (fun k => P (N.of_nat k)) (seq 0 64) = true -> forall n, n < 64 -> P n = true.
Proof.
  intros H n Hn. rewrite forallb_forall in H. specialize (H (N.to_nat n)). rewrite N2Nat.id in H. apply H. apply in_seq. lia.
Qed.
