(* ===== verification/PluginStorage.v ===== *)
(** * Plugin storage

    [src/src/core/plugins/plugin-storage.service.ts] and
    [src/src/common/utils/path-safety.ts]: the per-plugin key-value store over a
    directory of files, its file names, its quota, and the plugin registry with
    its writes that must reach the disk.  A string is its UTF-8 bytes; a directory
    maps the normalized relative path of a file to its content.  The theorems: the
    names are a bijection, the directory implements a map, the quota holds, and a
    failed registry write leaves nothing behind. *)
From S2P Require Import Prelude JsString Json Base64.
Local Open Scope string_scope.

(** ** File names *)

Fixpoint replace_char (x y : ascii) (s : string) : string :=
  match s with
  | EmptyString => ""
  | String c r => String (if Ascii.eqb c x then y else c) (replace_char x y r)
  end.

(** [s.replace(/=+$/g, '')] *)
Fixpoint strip_pad (s : string) : string :=
  match s with
  | EmptyString => ""
  | String c r =>
      match strip_pad r with
      | EmptyString => if Ascii.eqb c "=" then "" else String c ""
      | r' => String c r'
      end
  end.

Fixpoint repeat_char (c : ascii) (n : nat) : string := match n with O => "" | S n => String c (repeat_char c n) end.

Definition ENCODED_KEY_PREFIX : string := "key-".

Definition encodeStorageKey (key : string) : string :=
  ENCODED_KEY_PREFIX +:+ strip_pad (replace_char "/" "_" (replace_char "+" "-" (toBase64 key))).

Definition decodeStorageFileName (stem : string) : option string :=
  if startsWith stem ENCODED_KEY_PREFIX then
    let encoded := drop_chars (String.length ENCODED_KEY_PREFIX) stem in
    let padded := replace_char "_" "/" (replace_char "-" "+" encoded) +:+ repeat_char "=" ((4 - String.length encoded mod 4) mod 4) in
    let decoded := fromBase64 padded in
    if well_formed decoded && String.eqb (encodeStorageKey decoded) stem then Some decoded else None
  else None.

(** ** Paths *)

(** [key.split(/[/\\]/)] *)
Definition segments (key : string) : list string := flat_map (split_char (ascii_of_nat 92)) (split_char "/" key).

Definition is_control (c : ascii) : bool := (code c <=? 31)%N.

Definition isSafeStorageKey (key : string) : bool :=
  negb (String.length key =? 0)%nat && negb (existsb is_control (String.list_ascii_of_string key)) &&
  negb (startsWith key "/") && negb (existsb (String.eqb "..") (segments key)).

(** A relative path resolved against its directory: empty and [.] segments drop,
    [..] goes up; [None] is a path outside. *)
Fixpoint resolve_segments (done : list string) (l : list string) : option (list string) :=
  match l with
  | [] => Some (rev done)
  | s :: r =>
      if String.eqb s "" || String.eqb s "." then resolve_segments done r
      else if String.eqb s ".." then match done with _ :: done' => resolve_segments done' r | [] => None end
      else resolve_segments (s :: done) r
  end.

(** [isPathWithin(dir, file)] with [path.join(dir, file)]: the normalized path
    below [dir], or [None] outside of it. *)
Definition within (file : string) : option string :=
  if startsWith file "/" then None else join "/" <$> resolve_segments [] (split_char "/" file).

(** [/^[a-zA-Z0-9-]+$/] *)
Definition isSafeSessionName (value : string) : bool :=
  negb (String.length value =? 0)%nat && all_chars (fun c => is_word c && negb (Ascii.eqb c "_") || Ascii.eqb c "-") value.

Definition resolveKeyPath (key : string) : option string :=
  if isSafeStorageKey key then within (encodeStorageKey key +:+ ".json") else None.

Definition resolveLegacyKeyPath (key : string) : option string :=
  if isSafeStorageKey key then
    if String.eqb key "manifest" || String.eqb key "package" then None
    else match decodeStorageFileName key with
         | Some _ => None
         | None => within (key +:+ ".json")
         end
  else None.

(** ** The store of one plugin *)

Local Open Scope Z_scope.

(** [usage] is the plugin's running total, once seeded. *)
Record Store := mkStore { files : gmap string string; usage : option Z }.

Definition size (content : string) : Z := Z.of_nat (String.length content).

(** The encoded key files of the directory itself. *)
Definition is_key_file (name : string) : bool :=
  startsWith name ENCODED_KEY_PREFIX && endsWith name ".json" && negb (has_char "/" name).

Definition scanStorageBytes (dir : gmap string string) : Z :=
  map_fold (fun name content total => if is_key_file name then total + size content else total) 0 dir.

Definition releaseStorageBytes (bytes : Z) (st : Store) : Store :=
  mkStore (files st) ((fun total => Z.max 0 (total - bytes)) <$> usage st).

Section store.
(** [JSON.stringify(_, null, 2)] and [JSON.parse]. *)
Context {V : Type} (stringify : V -> string) (parse : string -> option V) (maxPluginStorageBytes : Z).

(** The bytes of the other keys, or a refusal; with the total it confirmed. *)
Definition assertStorageQuota (target : string) (incoming : Z) (st : Store) : result unit Z * Store :=
  let replaced := match files st !! target with Some content => size content | None => 0 end in
  let total := default (scanStorageBytes (files st)) (usage st) in
  let used := Z.max 0 (total - replaced) in
  if maxPluginStorageBytes <? used + incoming then
    let total := scanStorageBytes (files st) in
    let used := Z.max 0 (total - replaced) in
    let st := mkStore (files st) (Some total) in
    (if maxPluginStorageBytes <? used + incoming then Err tt else Ok used, st)
  else (Ok used, st).

(** How the file operations of a write end. *)
Inductive Io := Done | WriteFails | ChmodFails.

Inductive StorageError := UnsafeKey | KeyTooLong | QuotaExceeded | IoFailed.

Definition set (key : string) (value : V) (io : Io) (st : Store) : result StorageError unit * Store :=
  match resolveKeyPath key with
  | None => (Err UnsafeKey, st)
  | Some filePath =>
      if (255 <? size filePath) then (Err KeyTooLong, st) else
      let payload := stringify value in
      let '(quota, st) := assertStorageQuota filePath (size payload) st in
      match quota with
      | Err _ => (Err QuotaExceeded, st)
      | Ok usedByOtherKeys =>
          match io with
          | WriteFails => (Err IoFailed, st)
          | ChmodFails => (Err IoFailed, mkStore (<[filePath := payload]> (files st)) (usage st))
          | Done => (Ok tt, mkStore (<[filePath := payload]> (files st)) (Some (usedByOtherKeys + size payload)))
          end
      end
  end.

(** The files a key may be read from, the encoded one first. *)
Definition candidates (key filePath : string) : list string :=
  match resolveLegacyKeyPath key with
  | Some legacyPath => if String.eqb legacyPath filePath then [filePath] else [filePath; legacyPath]
  | None => [filePath]
  end.

Definition get (key : string) (st : Store) : option V :=
  match resolveKeyPath key with
  | None => None
  | Some filePath =>
      match List.find (fun c => bool_decide (is_Some (files st !! c))) (candidates key filePath) with
      | Some c => match files st !! c with Some content => parse content | None => None end
      | None => None
      end
  end.

Definition delete_file (filePath : string) (st : Store) (candidate : string) : Store :=
  match files st !! candidate with
  | Some content =>
      releaseStorageBytes (if String.eqb candidate filePath then size content else 0)
        (mkStore (base.delete candidate (files st)) (usage st))
  | None => st
  end.

Definition delete (key : string) (st : Store) : result StorageError unit * Store :=
  match resolveKeyPath key with
  | None => (Err UnsafeKey, st)
  | Some filePath => (Ok tt, fold_left (delete_file filePath) (candidates key filePath) st)
  end.

(** The key a file of the directory stands for. *)
Definition key_of_stem (isPackageDir : bool) (stem : string) : option string :=
  match decodeStorageFileName stem with
  | Some decoded => if isSafeStorageKey decoded then Some decoded else None
  | None => if negb isPackageDir && bool_decide (is_Some (resolveLegacyKeyPath stem)) then Some stem else None
  end.

Definition list_keys (prefix : option string) (st : Store) : list string :=
  let names := List.filter (fun f => negb (has_char "/" f)) (map fst (map_to_list (files st))) in
  let isPackageDir := bool_decide (is_Some (files st !! "manifest.json")) in
  let stems := map (fun f => String.substring 0 (String.length f - 5) f) (List.filter (fun f => endsWith f ".json") names) in
  let keys := set_of_list (omap (key_of_stem isPackageDir) stems) in
  match truthy prefix with Some p => List.filter (fun k => startsWith k p) keys | None => keys end.
End store.

(** ** The names are a bijection *)

Lemma replace_append x y a b : replace_char x y (a +:+ b) = replace_char x y a +:+ replace_char x y b.
Proof. induction a as [|c a IH]; [done|]. rewrite append_cons. cbn [replace_char]. by rewrite IH, append_cons. Qed.

Lemma strip_pad_letters s p : has_char "=" s = false -> all_chars (fun c => Ascii.eqb c "=") p = true -> strip_pad (s +:+ p) = s.
Proof.
  intros Hs Hp. assert (strip_pad p = "") as Hp'.
  { clear Hs. induction p as [|c p IH]; [done|]. cbn [all_chars strip_pad] in *. apply andb_true_iff in Hp as [Hc Hp]. by rewrite (IH Hp), Hc. }
  induction s as [|c s IH]; [done|]. cbn [has_char] in Hs. apply orb_false_iff in Hs as [Hc Hs]. rewrite append_cons. cbn [strip_pad]. rewrite (IH Hs).
  destruct s; [by rewrite Hc|done].
Qed.

(** The URL-safe letter of a sextet. *)
Definition url_char (n : N) : ascii :=
  let c := b64_char n in let c := if Ascii.eqb c "+" then "-"%char else c in if Ascii.eqb c "/" then "_"%char else c.
Definition letters (f : N -> ascii) (l : list N) : string := String.string_of_list_ascii (map f l).

Lemma letters_cons f n l : letters f (n :: l) = String (f n) (letters f l).
Proof. done. Qed.

Lemma url_letters l : replace_char "/" "_" (replace_char "+" "-" (letters b64_char l)) = letters url_char l.
Proof. induction l as [|n l IH]; [done|]. rewrite !letters_cons. cbn [replace_char]. by rewrite IH. Qed.

Lemma letters_no_pad f l : (forall n, (n < 64)%N -> Ascii.eqb (f n) "=" = false) -> Forall (fun n => n < 64)%N l -> has_char "=" (letters f l) = false.
Proof.
  intros Hf. induction l as [|n l IH]; [done|]. intros [Hn Hl]%Forall_cons. rewrite letters_cons. cbn [has_char].
  rewrite Hf by done. by apply IH.
Qed.

(** The letter, read back by the decoder's replacements. *)
Definition back_char (c : ascii) : ascii :=
  let c := if Ascii.eqb c "-" then "+"%char else c in if Ascii.eqb c "_" then "/"%char else c.

Definition sextet_ok (n : N) : bool :=
  negb (Ascii.eqb (url_char n) "=") && negb (Ascii.eqb (url_char n) "/") && negb (Ascii.eqb (back_char (url_char n)) "=") &&
  match b64_value (back_char (url_char n)) with Some m => (m =? n)%N | None => false end.

Lemma url_char_facts n : (n < 64)%N ->
  Ascii.eqb (url_char n) "=" = false /\ Ascii.eqb (url_char n) "/" = false /\
  Ascii.eqb (back_char (url_char n)) "=" = false /\ b64_value (back_char (url_char n)) = Some n.
Proof.
  intros Hn. assert (forallb (fun k => sextet_ok (N.of_nat k)) (seq 0 64) = true) as Hall by (vm_compute; reflexivity).
  pose proof (sextet_cases sextet_ok Hall n Hn) as H. unfold sextet_ok in H. bool_facts. split_and!; try done.
  destruct (b64_value _); [|done]. bool_facts. by f_equal.
Qed.

Lemma values_of_letters l p : Forall (fun n => n < 64)%N l -> (p = "" \/ exists p', p = String "=" p') ->
  b64_values (replace_char "_" "/" (replace_char "-" "+" (letters url_char l)) +:+ p) = l.
Proof.
  intros Hl Hp. induction l as [|n l IH].
  - by destruct Hp as [->|[p' ->]].
  - apply Forall_cons in Hl as [Hn Hl]. rewrite letters_cons. cbn [replace_char]. rewrite append_cons. cbn [b64_values].
    destruct (url_char_facts n Hn) as (_ & _ & He & Hv).
    unfold back_char in He, Hv. cbv zeta in He, Hv. rewrite He, Hv. f_equal. by apply IH.
Qed.

Lemma encode_letters key : encodeStorageKey key = ENCODED_KEY_PREFIX +:+ letters url_char (sextets (bytes_of key)).
Proof.
  unfold encodeStorageKey, toBase64. f_equal. rewrite !replace_append. change (String.string_of_list_ascii (map b64_char ?l)) with (letters b64_char l).
  rewrite url_letters. apply strip_pad_letters.
  - apply letters_no_pad; [intros n Hn; by apply url_char_facts|]. apply sextets_bound, bytes_bound.
  - unfold padding. by destruct (String.length key mod 3)%nat as [|[|[|]]].
Qed.

Lemma drop_prefix p s : drop_chars (String.length p) (p +:+ s) = s.
Proof. induction p as [|c p IH]; [done|]. rewrite append_cons. exact IH. Qed.

Lemma decode_encode key : well_formed key = true -> decodeStorageFileName (encodeStorageKey key) = Some key.
Proof.
  intros Hk. unfold decodeStorageFileName. rewrite (proj2 (startsWith_spec (encodeStorageKey key) ENCODED_KEY_PREFIX)) by (eexists; reflexivity).
  cbv zeta. match goal with |- context [fromBase64 ?x] => assert (fromBase64 x = key) as Hd; [|rewrite Hd, Hk, String.eqb_refl; done] end.
  unfold fromBase64. rewrite encode_letters, drop_prefix.
  rewrite values_of_letters; [|apply sextets_bound, bytes_bound|destruct ((4 - _) mod 4)%nat; [by left|right; by eexists]].
  rewrite octets_sextets by apply bytes_bound. apply of_bytes_of.
Qed.

Lemma decode_Some stem key : decodeStorageFileName stem = Some key -> stem = encodeStorageKey key /\ well_formed key = true.
Proof.
  unfold decodeStorageFileName. destruct (startsWith _ _); [|done]. destruct (_ && _) eqn:E; [|done]. intros [= <-]. bool_facts.
  split; [|done]. symmetry. by apply String.eqb_eq.
Qed.

Lemma encode_inj k k' : well_formed k = true -> well_formed k' = true -> encodeStorageKey k = encodeStorageKey k' -> k = k'.
Proof. intros H H' He. apply decode_encode in H, H'. rewrite He, H' in H. by injection H. Qed.

(** The storage file names and the keys are in bijection: every key's name
    decodes to that key, and a name that decodes to a key is that key's name, for
    every key and every name, however it is spelled. *)
Theorem storage_names_roundtrip key :
  well_formed key = true ->
  decodeStorageFileName (encodeStorageKey key) = Some key /\
  forall stem, decodeStorageFileName stem = Some key <-> stem = encodeStorageKey key.
Proof.
  intros Hk. split; [by apply decode_encode|]. intros stem. split; [intros H; by destruct (decode_Some _ _ H)|]. intros ->. by apply decode_encode.
Qed.

Lemma storage_names_roundtrip_witness :
  well_formed "group:1@g.us" = true /\ encodeStorageKey "group:1@g.us" = "key-Z3JvdXA6MUBnLnVz" /\
  decodeStorageFileName "key-Z3JvdXA6MUBnLnVz" = Some "group:1@g.us".
Proof.
  split; [reflexivity|]. split; [reflexivity|]. apply (storage_names_roundtrip "group:1@g.us" eq_refl). reflexivity.
Defined.

(** ** Paths *)

Lemma join_cons sep x y l : join sep (x :: y :: l) = x +:+ sep +:+ join sep (y :: l).
Proof. done. Qed.

Lemma join_split s : join "/" (split_char "/" s) = s.
Proof.
  induction s as [|c s IH]; [done|]. cbn [split_char]. destruct (split_char_nonempty "/" s) as (h & t & E). rewrite E in *.
  destruct (Ascii.eqb_spec c "/") as [->|_].
  - rewrite join_cons, IH. done.
  - destruct t; [cbn [join] in *; by rewrite IH|]. rewrite join_cons in *. by rewrite append_cons, IH.
Qed.

Lemma split_last_segment c s t : has_char c t = false ->
  exists init last, split_char c s = (init ++ [last])%list /\ split_char c (s +:+ t) = (init ++ [last +:+ t])%list.
Proof.
  intros Ht. induction s as [|d s (init & last & E1 & E2)].
  - exists [], "". split; [done|]. by apply split_char_none.
  - rewrite append_cons. cbn [split_char]. rewrite E1, E2. destruct (Ascii.eqb d c).
    + by exists ("" :: init), last.
    + destruct init as [|h init]; [by exists [], (String d last)|]. by exists (String d h :: init), last.
Qed.

Definition ordinary (s : string) : bool := negb (String.eqb s "" || String.eqb s "." || String.eqb s "..").

Lemma resolve_ordinary l done : forallb ordinary l = true -> resolve_segments done l = Some (rev done ++ l)%list.
Proof.
  revert done. induction l as [|s l IH]; intros done; cbn [forallb resolve_segments]; [by rewrite app_nil_r|].
  unfold ordinary at 1. intros [Hs Hl]%andb_true_iff. bool_facts. rewrite H, H1, H0. cbn [orb]. rewrite (IH _ Hl). cbn [rev]. by rewrite <- app_assoc.
Qed.

Lemma within_ordinary s : forallb ordinary (split_char "/" s) = true -> within s = Some s.
Proof.
  intros H. unfold within. rewrite resolve_ordinary by done. cbn [rev app fmap option_fmap option_map]. rewrite join_split.
  destruct s as [|c s]; [done|]. destruct (Ascii.eqb_spec c "/") as [->|Hc]; [by cbn in H|].
  destruct (startsWith (String c s) "/") eqn:E; [|done]. apply startsWith_spec in E as [r E]. by injection E.
Qed.

(** A key without empty or [.] segments. *)
Definition normal (key : string) : bool := forallb (fun s => negb (String.eqb s "" || String.eqb s ".")) (split_char "/" key).

Lemma json_ordinary s : ordinary (s +:+ ".json") = true.
Proof.
  unfold ordinary. assert (5 <= String.length (s +:+ ".json"))%nat as H by (rewrite length_append; cbn [String.length]; lia).
  destruct (s +:+ ".json") as [|a [|b [|c r]]] eqn:E; cbn [String.length] in H; try lia.
  destruct (String.eqb_spec (String a (String b (String c r))) ""), (String.eqb_spec (String a (String b (String c r))) "."),
    (String.eqb_spec (String a (String b (String c r))) ".."); done.
Qed.

Lemma split_no_dots key : existsb (String.eqb "..") (segments key) = false -> forallb (fun s => negb (String.eqb s "..")) (split_char "/" key) = true.
Proof.
  unfold segments. intros H. apply forallb_forall. intros s Hs. apply negb_true_iff. destruct (String.eqb_spec s "..") as [->|]; [|done]. exfalso.
  assert (existsb (String.eqb "..") (flat_map (split_char (ascii_of_nat 92)) (split_char "/" key)) = true) as Ht; [|by rewrite H in Ht].
  apply existsb_exists. exists "..". split; [|done]. apply in_flat_map. exists "..". split; [done|]. by left.
Qed.

Lemma legacy_path key : isSafeStorageKey key = true -> normal key = true -> within (key +:+ ".json") = Some (key +:+ ".json").
Proof.
  intros Hs Hn. apply within_ordinary. unfold isSafeStorageKey in Hs. apply andb_true_iff in Hs as [_ Hd]. apply negb_true_iff, split_no_dots in Hd.
  destruct (split_last_segment "/" key ".json" eq_refl) as (init & last & E1 & E2). rewrite E2. unfold normal in Hn. rewrite E1 in Hn, Hd.
  rewrite forallb_app in *. apply andb_true_iff in Hn as [Hn _], Hd as [Hd _]. apply andb_true_iff. split; [|cbn [forallb]; by rewrite json_ordinary].
  rewrite forallb_forall in *. intros s Hin. specialize (Hn s Hin). specialize (Hd s Hin). unfold ordinary. apply negb_true_iff.
  apply negb_true_iff in Hn, Hd. apply orb_false_iff. done.
Qed.

Lemma letters_no_slash l : Forall (fun n => n < 64)%N l -> has_char "/" (letters url_char l) = false.
Proof.
  induction l as [|n l IH]; [done|]. intros [Hn Hl]%Forall_cons. rewrite letters_cons. cbn [has_char].
  destruct (url_char_facts n Hn) as (_ & -> & _). by apply IH.
Qed.

Lemma encoded_no_slash key : has_char "/" (encodeStorageKey key +:+ ".json") = false.
Proof.
  rewrite encode_letters, !has_char_app. apply orb_false_iff. split; [|done]. apply orb_false_iff. split; [done|].
  apply letters_no_slash, sextets_bound, bytes_bound.
Qed.

Lemma key_path key : isSafeStorageKey key = true -> resolveKeyPath key = Some (encodeStorageKey key +:+ ".json").
Proof.
  intros Hs. unfold resolveKeyPath. rewrite Hs. apply within_ordinary. rewrite split_char_none by apply encoded_no_slash. cbn [forallb]. by rewrite json_ordinary.
Qed.

(** ** The directory implements a map *)

Section laws.
Context {V : Type} (stringify : V -> string) (parse : string -> option V) (maxBytes : Z).
(** A value survives [JSON.stringify] and [JSON.parse]. *)
Context (parse_stringify : forall v, parse (stringify v) = Some v).

Abbreviation set := (set stringify maxBytes).
Abbreviation get := (get parse).
Abbreviation file_of key := (encodeStorageKey key +:+ ".json").

(** The value a file holds. *)
Definition value_at (path : string) (st : Store) : option V := files st !! path ≫= parse.

Lemma get_eq key st : isSafeStorageKey key = true ->
  get key st = match files st !! file_of key with
               | Some content => parse content
               | None => match resolveLegacyKeyPath key with Some lp => value_at lp st | None => None end
               end.
Proof.
  intros Hs. unfold PluginStorage.get. rewrite (key_path key Hs). unfold candidates, value_at.
  destruct (files st !! file_of key) as [c|] eqn:E.
  - assert (bool_decide (is_Some (files st !! file_of key)) = true) as Hb by (apply bool_decide_eq_true_2; by rewrite E).
    destruct (resolveLegacyKeyPath key) as [lp|]; [destruct (String.eqb lp (file_of key))|]; cbn [List.find]; by rewrite Hb, E.
  - assert (bool_decide (is_Some (files st !! file_of key)) = false) as Hb by (apply bool_decide_eq_false_2; rewrite E; by intros [? ?]).
    destruct (resolveLegacyKeyPath key) as [lp|]; [|cbn [List.find]; by rewrite Hb].
    destruct (String.eqb_spec lp (file_of key)) as [->|_]; cbn [List.find]; rewrite Hb; [by rewrite E|].
    destruct (files st !! lp) as [c|] eqn:E'; [rewrite bool_decide_eq_true_2 by done; by rewrite E'|].
    by rewrite bool_decide_eq_false_2 by (by intros [? ?]).
Qed.

(** A key whose spelling is its own: well formed, safe and without [.] segments. *)
Definition proper (key : string) : bool := well_formed key && isSafeStorageKey key && normal key.

Lemma legacy_spec key lp : resolveLegacyKeyPath key = Some lp -> normal key = true ->
  lp = key +:+ ".json" /\ decodeStorageFileName key = None.
Proof.
  unfold resolveLegacyKeyPath. destruct (isSafeStorageKey key) eqn:Hs; [|done]. destruct (_ || _); [done|].
  destruct (decodeStorageFileName key); [done|]. intros H Hn. rewrite (legacy_path key Hs Hn) in H. by injection H as <-.
Qed.

(** The files of two keys do not meet. *)
Lemma files_apart key key' lp' :
  proper key = true -> proper key' = true -> key <> key' ->
  file_of key <> file_of key' /\ (resolveLegacyKeyPath key' = Some lp' -> file_of key <> lp').
Proof.
  unfold proper. intros Hk Hk' Hne. bool_facts. split.
  - intros He%append_inj_r. by apply Hne, encode_inj.
  - intros Hl. destruct (legacy_spec _ _ Hl) as [-> Hd]; [done|]. intros He%append_inj_r. subst key'. by rewrite decode_encode in Hd.
Qed.

Lemma proper_safe key : proper key = true -> isSafeStorageKey key = true.
Proof. unfold proper. intros H. by bool_facts. Qed.

Lemma quota_files target n st : files (snd (assertStorageQuota maxBytes target n st)) = files st.
Proof. unfold assertStorageQuota. by destruct (_ <? _); [destruct (_ <? _)|]. Qed.

Lemma set_Ok key v io st st' : set key v io st = (Ok tt, st') ->
  isSafeStorageKey key = true /\ files st' = <[file_of key := stringify v]> (files st).
Proof.
  unfold PluginStorage.set. destruct (isSafeStorageKey key) eqn:Hs; [|unfold resolveKeyPath; by rewrite Hs]. rewrite (key_path key Hs).
  destruct (_ <? _); [done|]. pose proof (quota_files (file_of key) (size (stringify v)) st) as Hf.
  destruct (assertStorageQuota _ _ _ _) as [q st1]. cbn [snd] in Hf. destruct q; [|done]. destruct io; try done. intros [= <-]. simpl. by rewrite Hf.
Qed.

Lemma storage_set_get key v io st st' :
  proper key = true -> set key v io st = (Ok tt, st') ->
  get key st' = Some v /\ forall key', proper key' = true -> key' <> key -> get key' st' = get key' st.
Proof.
  intros Hp Hset. destruct (set_Ok _ _ _ _ _ Hset) as [Hs Hf]. split.
  - rewrite get_eq, Hf, lookup_insert_eq by done. apply parse_stringify.
  - intros key' Hp' Hne. rewrite !get_eq by (by apply proper_safe). unfold value_at. rewrite Hf.
    destruct (resolveLegacyKeyPath key') as [lp'|] eqn:El.
    + destruct (files_apart key key' lp' Hp Hp' (not_eq_sym Hne)) as [H1 H2]. rewrite !lookup_insert_ne; auto.
    + destruct (files_apart key key' "" Hp Hp' (not_eq_sym Hne)) as [H1 _]. by rewrite lookup_insert_ne.
Qed.

Lemma delete_files key st st' : delete key st = (Ok tt, st') -> isSafeStorageKey key = true /\
  forall path, files st' !! path = if bool_decide (path = file_of key \/ resolveLegacyKeyPath key = Some path) then None else files st !! path.
Proof.
  unfold delete. destruct (isSafeStorageKey key) eqn:Hs; [|unfold resolveKeyPath; by rewrite Hs]. rewrite (key_path key Hs). intros [= <-]. split; [done|].
  assert (forall fp st c path, files (delete_file fp st c) !! path = if decide (path = c) then None else files st !! path) as Hdf.
  { intros fp st0 c path. unfold delete_file. destruct (files st0 !! c) as [x|] eqn:E; simpl; destruct (decide (path = c)) as [->|Hne]; try done.
    - apply lookup_delete_eq.
    - by apply lookup_delete_ne. }
  intros path. unfold candidates. destruct (resolveLegacyKeyPath key) as [lp|]; [destruct (String.eqb_spec lp (file_of key)) as [->|Hlp]|];
    cbn [fold_left]; rewrite !Hdf; repeat case_decide; repeat case_bool_decide; subst; naive_solver.
Qed.

Lemma storage_delete_get key st st' :
  proper key = true -> delete key st = (Ok tt, st') ->
  get key st' = None /\ forall key', proper key' = true -> key' <> key -> get key' st' = get key' st.
Proof.
  intros Hp Hdel. destruct (delete_files _ _ _ Hdel) as [Hs Hf]. split.
  - rewrite get_eq by done. rewrite Hf, bool_decide_eq_true_2 by auto. destruct (resolveLegacyKeyPath key) as [lp|] eqn:E; [|done].
    unfold value_at. rewrite Hf, bool_decide_eq_true_2 by auto. done.
  - intros key' Hp' Hne. assert (forall path, (path = file_of key' \/ resolveLegacyKeyPath key' = Some path) -> files st' !! path = files st !! path) as Hsame.
    { intros path Hpath. rewrite Hf, bool_decide_eq_false_2; [done|]. intros Hc.
      pose proof (fun lp => files_apart key key' lp Hp Hp' (not_eq_sym Hne)) as HA. pose proof (fun lp => files_apart key' key lp Hp' Hp Hne) as HB.
      destruct Hpath as [->|Hpath], Hc as [Hc|Hc].
      - by destruct (HA "") as [? _].
      - destruct (HB (file_of key')) as [_ H]. by apply (H Hc).
      - subst path. destruct (HA (file_of key)) as [_ H]. by apply (H Hpath).
      - unfold proper in *. bool_facts. destruct (legacy_spec _ _ Hpath) as [-> _]; [done|]. destruct (legacy_spec _ _ Hc) as [He _]; [done|].
        apply append_inj_r in He. by subst. }
    rewrite !get_eq by (by apply proper_safe). rewrite Hsame by auto. destruct (resolveLegacyKeyPath key') as [lp'|] eqn:E; [|done].
    unfold value_at. by rewrite Hsame by auto.
Qed.

(** *** Listing *)

Lemma cut_string n f : (n <= String.length f)%nat -> f = String.substring 0 n f +:+ drop_chars n f.
Proof.
  revert f. induction n as [|n IH]; intros f Hn; [by destruct f|]. destruct f as [|c f]; [cbn in Hn; lia|]. cbn [String.length] in Hn.
  cbn [String.substring drop_chars]. rewrite append_cons. f_equal. apply IH. lia.
Qed.

Lemma stem_of s : String.substring 0 (String.length (s +:+ ".json") - 5) (s +:+ ".json") = s /\ endsWith (s +:+ ".json") ".json" = true.
Proof.
  assert (String.length (s +:+ ".json") - 5 = String.length s)%nat as E by (rewrite length_append; cbn [String.length]; lia).
  assert (drop_chars (String.length s) (s +:+ ".json") = ".json") as Hd by apply drop_prefix. split.
  - rewrite E. apply (append_inj_r _ _ ".json"). rewrite <- Hd at 2. symmetry. apply cut_string. rewrite length_append. lia.
  - unfold endsWith. change (String.length ".json") with 5%nat. rewrite E, Hd. rewrite length_append. cbn [String.length]. apply andb_true_iff.
    split; [apply Nat.leb_le; lia|done].
Qed.

Lemma stem_inv f : endsWith f ".json" = true -> f = String.substring 0 (String.length f - 5) f +:+ ".json".
Proof.
  unfold endsWith. change (String.length ".json") with 5%nat. intros [H1 H2]%andb_true_iff. apply Nat.leb_le in H1. apply String.eqb_eq in H2.
  etrans; [apply (cut_string (String.length f - 5)); lia|]. by rewrite H2.
Qed.

(** A key is listed when a file of the directory stands for it. *)
Lemma elem_of_list_keys key st :
  key ∈ list_keys None st <->
  exists stem, is_Some (files st !! (stem +:+ ".json")) /\ has_char "/" stem = false /\
    key_of_stem (bool_decide (is_Some (files st !! "manifest.json"))) stem = Some key.
Proof.
  unfold list_keys. cbn [truthy]. rewrite elem_of_set_of_list, list_elem_of_omap. split.
  - intros (stem & Hin & Hk). apply elem_of_map in Hin as (f & -> & Hf). apply list_elem_of_In, filter_In in Hf as [Hf Hj].
    apply filter_In in Hf as [Hf Hslash]. apply list_elem_of_In, elem_of_map in Hf as ([f' c] & -> & Hf). apply elem_of_map_to_list in Hf.
    exists (String.substring 0 (String.length f' - 5) f'). cbn [fst] in *. pose proof (stem_inv f' Hj) as E. split_and!; [rewrite <- E; by eexists| |done].
    apply negb_true_iff in Hslash. rewrite E in Hslash. rewrite has_char_app in Hslash. by apply orb_false_iff in Hslash as [? _].
  - intros (stem & [c Hc] & Hslash & Hk). exists stem. split; [|done]. apply elem_of_map. exists (stem +:+ ".json"). destruct (stem_of stem) as [E1 E2].
    split; [by rewrite E1|]. apply list_elem_of_In, filter_In. split; [|done]. apply filter_In. split; [|rewrite has_char_app, Hslash; done].
    apply list_elem_of_In, elem_of_map. exists (stem +:+ ".json", c). split; [done|]. by apply elem_of_map_to_list.
Qed.

End laws.

(** ** The quota *)

Definition weight (name content : string) : Z := if is_key_file name then size content else 0.

Lemma weight_nonneg name content : 0 <= weight name content.
Proof. unfold weight, size. destruct (is_key_file name); lia. Qed.

Lemma scan_insert name content dir : dir !! name = None -> scanStorageBytes (<[name := content]> dir) = weight name content + scanStorageBytes dir.
Proof.
  intros Hn. unfold scanStorageBytes. rewrite map_fold_insert_L; [|intros|done].
  - unfold weight. destruct (is_key_file name); lia.
  - destruct (is_key_file j1), (is_key_file j2); lia.
Qed.

Lemma scan_delete name content dir : dir !! name = Some content -> scanStorageBytes dir = weight name content + scanStorageBytes (base.delete name dir).
Proof. intros Hn. rewrite <- (insert_delete_id dir name content Hn) at 1. apply scan_insert, lookup_delete_eq. Qed.

Lemma scan_nonneg dir : 0 <= scanStorageBytes dir.
Proof.
  unfold scanStorageBytes. apply (map_fold_weak_ind (fun total _ => 0 <= total)); [lia|]. intros i x m r _ Hr. destruct (is_key_file i); unfold size; lia.
Qed.

(** An overwrite replaces the file's own bytes only. *)
Lemma scan_overwrite name content dir :
  scanStorageBytes (<[name := content]> dir) = weight name content + (scanStorageBytes dir - match dir !! name with Some old => weight name old | None => 0 end).
Proof.
  destruct (dir !! name) as [old|] eqn:E; [|rewrite scan_insert by done; lia].
  rewrite (scan_delete name old dir E). rewrite <- insert_delete_eq, scan_insert by apply lookup_delete_eq. lia.
Qed.

Lemma scan_delete_le name dir : scanStorageBytes (base.delete name dir) <= scanStorageBytes dir.
Proof.
  destruct (dir !! name) as [c|] eqn:E; [rewrite (scan_delete name c dir E); pose proof (weight_nonneg name c); lia|]. by rewrite delete_id.
Qed.

Section quota.
Context {V : Type} (stringify : V -> string) (maxBytes : Z).

(** What happens to a plugin's directory: writes whose [chmod] succeeds, deletes,
    removal of its data, files removed behind the service's back, and package
    files appearing. *)
Inductive storage_step : Store -> Store -> Prop :=
| ss_set key v io st : io <> ChmodFails -> storage_step st (snd (set stringify maxBytes key v io st))
| ss_delete key st : storage_step st (snd (delete key st))
| ss_cleared st : storage_step st (mkStore ∅ None)
| ss_removed name st : storage_step st (mkStore (base.delete name (files st)) (usage st))
| ss_package name content st : is_key_file name = false -> storage_step st (mkStore (<[name := content]> (files st)) (usage st)).

Definition within_quota (st : Store) : Prop :=
  scanStorageBytes (files st) <= maxBytes /\ forall t, usage st = Some t -> scanStorageBytes (files st) <= t.

Lemma quota_used target n st : within_quota st ->
  let '(q, st') := assertStorageQuota maxBytes target n st in
  within_quota st' /\ files st' = files st /\
  forall used, q = Ok used -> used + n <= maxBytes /\ scanStorageBytes (files st) - match files st !! target with Some c => size c | None => 0 end <= used.
Proof.
  intros [H1 H2]. unfold assertStorageQuota. set (replaced := match files st !! target with Some c => size c | None => 0 end).
  assert (scanStorageBytes (files st) <= default (scanStorageBytes (files st)) (usage st)) as Hle.
  { destruct (usage st); cbn [default from_option Datatypes.id]; [by apply H2|lia]. }
  destruct (maxBytes <? _) eqn:E; bool_facts.
  - split; [split; [done|]; intros t [= <-]; simpl; lia|]. split; [done|]. intros used. destruct (maxBytes <? _) eqn:E'; [done|]. intros [= <-]. bool_facts. lia.
  - split; [done|]. split; [done|]. intros used [= <-]. lia.
Qed.

Lemma key_file key : is_key_file (encodeStorageKey key +:+ ".json") = true.
Proof.
  unfold is_key_file. rewrite encoded_no_slash. apply andb_true_iff. split; [|done]. apply andb_true_iff.
  split; [|apply stem_of]. apply startsWith_spec. eexists. unfold encodeStorageKey. rewrite append_assoc. reflexivity.
Qed.

Lemma set_quota key v io st : io <> ChmodFails -> within_quota st -> within_quota (snd (set stringify maxBytes key v io st)).
Proof.
  intros Hio HQ. unfold set. destruct (isSafeStorageKey key) eqn:Hs; [|unfold resolveKeyPath; by rewrite Hs]. rewrite (key_path key Hs).
  destruct (_ <? _); [done|]. pose proof (quota_used (encodeStorageKey key +:+ ".json") (size (stringify v)) st HQ) as Hq.
  destruct (assertStorageQuota _ _ _ _) as [q st1]. destruct Hq as (HQ1 & Hf & Hu). destruct q as [used|]; [|done]. destruct (Hu used eq_refl) as [U1 U2].
  destruct io; [|done|done]. unfold within_quota. cbn [snd files usage]. rewrite scan_overwrite, Hf. unfold weight. rewrite key_file.
  split; [|intros t [= <-]]; destruct (files st !! (encodeStorageKey key +:+ ".json")); lia.
Qed.

Lemma delete_file_quota fp st c : is_key_file fp = true -> within_quota st -> within_quota (delete_file fp st c).
Proof.
  intros Hk [H1 H2]. unfold delete_file. destruct (files st !! c) as [content|] eqn:E; [|done].
  pose proof (scan_delete c content (files st) E) as Hd. pose proof (weight_nonneg c content). unfold within_quota. simpl. split; [lia|].
  intros t Ht. destruct (usage st) as [u|]; [|done]. injection Ht as <-. specialize (H2 u eq_refl). pose proof (scan_nonneg (base.delete c (files st))).
  destruct (String.eqb_spec c fp) as [->|_]; [|lia]. unfold weight in Hd. rewrite Hk in Hd. lia.
Qed.

(** A plugin never holds more than its quota: over any sequence of writes,
    deletes, removals behind the service's back and package installs, the bytes of
    its key files stay within the maximum, although the running total is only
    seeded once and corrected only before a refusal. *)
Theorem plugin_quota_holds st st' :
  within_quota st -> rtc storage_step st st' -> scanStorageBytes (files st') <= maxBytes.
Proof.
  intros HQ Hr. refine (proj1 (rtc_invariant storage_step within_quota st st' _ Hr HQ)). clear.
  intros st st' Hst HQ. destruct Hst as [key v io st Hio|key st|st|name st|name content st Hn].
  - by apply set_quota.
  - unfold delete. destruct (isSafeStorageKey key) eqn:Hs; [|unfold resolveKeyPath; by rewrite Hs]. rewrite (key_path key Hs). cbn [snd].
    generalize (candidates key (encodeStorageKey key +:+ ".json")) as l. intros l. revert st HQ. induction l as [|c l IH]; intros st HQ; [done|].
    cbn [fold_left]. apply IH, delete_file_quota; [apply key_file|done].
  - destruct HQ as [H1 _]. split; [|done]. pose proof (scan_nonneg (files st)). simpl. unfold scanStorageBytes. rewrite map_fold_empty. lia.
  - destruct HQ as [H1 H2]. pose proof (scan_delete_le name (files st)). split; simpl; [lia|]. intros t Ht. specialize (H2 t Ht). lia.
  - destruct HQ as [H1 H2]. assert (scanStorageBytes (<[name := content]> (files st)) = scanStorageBytes (files st)) as E.
    { rewrite scan_overwrite. unfold weight. rewrite Hn. destruct (files st !! name); lia. }
    split; simpl; rewrite E; [done|]. intros t Ht. by apply H2.
Qed.
End quota.

(** ** Witnesses *)

Definition store_w : Store := mkStore {["state.json" := "old"]} None.


Definition same (v : string) : string := v.
Definition store_1 : Store := snd (set same 10 "k" "12345678" Done store_w).
Definition store_2 : Store := snd (set same 10 "l" "xyz" Done store_1).

Lemma store_steps : rtc (storage_step same 10) store_w store_2.
Proof.
  apply (rtc_l _ _ store_1); [exact (ss_set same 10 "k" "12345678" Done store_w ltac:(discriminate))|].
  apply (rtc_l _ _ store_2); [exact (ss_set same 10 "l" "xyz" Done store_1 ltac:(discriminate))|]. apply rtc_refl.
Qed.

Lemma store_within : within_quota 10 store_w.
Proof. unfold within_quota. refine (conj _ _); [vm_compute; discriminate|]. intros t H. discriminate H. Qed.

Lemma store_1_bytes : scanStorageBytes (files store_1) = 8.
Proof. vm_compute. reflexivity. Qed.

Lemma plugin_quota_holds_witness :
  within_quota 10 store_w /\ scanStorageBytes (files store_1) = 8 /\ scanStorageBytes (files store_2) <= 10.
Proof.
  exact (conj store_within (conj store_1_bytes (plugin_quota_holds same 10 store_w store_2 store_within store_steps))).
Defined.

(** A legacy key spelled with a [.] segment reaches the package's own manifest,
    which its plain spelling does not. *)
Example dotted_key_reaches_manifest :
  resolveLegacyKeyPath "manifest" = None /\ resolveLegacyKeyPath "./manifest" = Some "manifest.json" /\
  files (snd (delete "./manifest" (mkStore {["manifest.json" := "{}"]} None))) !! "manifest.json" = None.
Proof. vm_compute. done. Qed.

(** A write whose [chmod] fails leaves the file without its bytes in the total. *)
Example failed_chmod_is_not_counted :
  let st := snd (set (fun v => v) 10 "k" "12345678" ChmodFails (mkStore ∅ (Some 0))) in
  scanStorageBytes (files st) = 8 /\ usage st = Some 0 /\
  scanStorageBytes (files (snd (set (fun v => v) 10 "l" "12345678" Done st))) = 16.
Proof. vm_compute. done. Qed.

(** ** The registry *)

Inductive PluginStatus := INSTALLED | ENABLED | DISABLED | ERROR_.

Record PluginRegistryEntry := mkEntry {
  pe_type : string;
  pe_name : string;
  pe_version : string;
  pe_status : PluginStatus;
  pe_config : json;
  pe_builtIn : bool;
  pe_installedAt : Z;
  pe_updatedAt : Z;
  pe_activeSessions : option (list string);
  pe_sessionConfig : option json;
  pe_enabledByOperator : option bool
}.

(** A partial entry: the fields a change names. *)
Record Change := mkChange {
  ch_config : option json;
  ch_activeSessions : option (option (list string));
  ch_sessionConfig : option (option json);
  ch_enabledByOperator : option (option bool)
}.

(** [Object.assign(entry, change, { updatedAt })] *)
Definition assign (e : PluginRegistryEntry) (c : Change) (updatedAt : Z) : PluginRegistryEntry :=
  mkEntry (pe_type e) (pe_name e) (pe_version e) (pe_status e) (default (pe_config e) (ch_config c)) (pe_builtIn e) (pe_installedAt e) updatedAt
    (default (pe_activeSessions e) (ch_activeSessions c)) (default (pe_sessionConfig e) (ch_sessionConfig c))
    (default (pe_enabledByOperator e) (ch_enabledByOperator c)).

(** The fields of [change], as the entry has them. *)
Definition previous (e : PluginRegistryEntry) (c : Change) : Change :=
  mkChange ((fun _ => pe_config e) <$> ch_config c) ((fun _ => pe_activeSessions e) <$> ch_activeSessions c)
    ((fun _ => pe_sessionConfig e) <$> ch_sessionConfig c) ((fun _ => pe_enabledByOperator e) <$> ch_enabledByOperator c).

(** The entries in memory and those in the file. *)
Record Registry := mkRegistry { memory : gmap string PluginRegistryEntry; disk : gmap string PluginRegistryEntry }.

(** [writes] tells whether the atomic write succeeds. *)
Definition writeRegistry (writes : bool) (r : Registry) : bool * Registry :=
  if writes then (true, mkRegistry (memory r) (memory r)) else (false, r).

Inductive RegistryError := PluginRegistryWriteError.

Definition commitEntryChange (id : string) (e : PluginRegistryEntry) (c : Change) (mustPersist : bool) (now : Z) (writes : bool) (r : Registry) :
    result RegistryError unit * Registry :=
  let r1 := mkRegistry (<[id := assign e c now]> (memory r)) (disk r) in
  let '(written, r2) := writeRegistry writes r1 in
  if mustPersist && negb written then
    (Err PluginRegistryWriteError, mkRegistry (<[id := assign (assign e c now) (previous e c) (pe_updatedAt e)]> (memory r2)) (disk r2))
  else (Ok tt, r2).

Definition change_entry (id : string) (c : Change) (mustPersist : bool) (now : Z) (writes : bool) (r : Registry) : result RegistryError unit * Registry :=
  match memory r !! id with
  | Some e => commitEntryChange id e c mustPersist now writes r
  | None => (Ok tt, r)
  end.

Definition setPluginEnabledByOperator (id : string) (enabled : bool) :=
  change_entry id (mkChange None None None (Some (Some enabled))) true.
Definition clearOperatorSettings (id : string) :=
  change_entry id (mkChange (Some (JObj [])) (Some None) (Some None) (Some (Some false))).
Definition setPluginConfig (id : string) (config : json) := change_entry id (mkChange (Some config) None None None).
Definition setPluginSessions (id : string) (sessions : list string) := change_entry id (mkChange None (Some (Some sessions)) None None).
Definition setPluginSessionConfig (id : string) (config : json) := change_entry id (mkChange None None (Some (Some config)) None).

Definition setPluginEntry (id : string) (e : PluginRegistryEntry) (now : Z) (writes : bool) (r : Registry) : Registry :=
  let e := assign e (mkChange None None None None) now in
  snd (writeRegistry writes (mkRegistry (<[id := e]> (memory r)) (disk r))).

Definition setPluginStatus (id : string) (status : PluginStatus) (now : Z) (writes : bool) (r : Registry) : Registry :=
  match memory r !! id with
  | Some e =>
      let e := mkEntry (pe_type e) (pe_name e) (pe_version e) status (pe_config e) (pe_builtIn e) (pe_installedAt e) now
        (pe_activeSessions e) (pe_sessionConfig e) (pe_enabledByOperator e) in
      snd (writeRegistry writes (mkRegistry (<[id := e]> (memory r)) (disk r)))
  | None => r
  end.

Definition deletePluginEntry (id : string) (writes : bool) (r : Registry) : result RegistryError unit * Registry :=
  match memory r !! id with
  | None => (Ok tt, r)
  | Some e =>
      let '(written, r2) := writeRegistry writes (mkRegistry (base.delete id (memory r)) (disk r)) in
      if written then (Ok tt, r2) else (Err PluginRegistryWriteError, mkRegistry (<[id := e]> (memory r2)) (disk r2))
  end.

Lemma assign_previous e c now : assign (assign e c now) (previous e c) (pe_updatedAt e) = e.
Proof. destruct e, c as [[] [] [] []]; done. Qed.

Lemma change_refused id c now writes r r' : change_entry id c true now writes r = (Err PluginRegistryWriteError, r') -> r' = r.
Proof.
  unfold change_entry. destruct (memory r !! id) as [e|] eqn:E; [|done]. unfold commitEntryChange, writeRegistry. destruct writes; [done|]. cbn.
  intros [= <-]. rewrite assign_previous, insert_insert_eq, insert_id by done. by destruct r.
Qed.

(** C38. An operator's change to the plugin registry is stored or refused: when the
    file cannot be written the operation throws and every entry, in memory and on
    disk, is what it was; when it returns, the entry carries the change and the
    file carries the entries, so a restart undoes nothing. *)
Theorem operator_changes_are_stored_or_refused id c now writes r :
  match change_entry id c true now writes r with
  | (Err _, r') => r' = r
  | (Ok _, r') => match memory r !! id with
                  | Some e => memory r' = <[id := assign e c now]> (memory r) /\ disk r' = memory r'
                  | None => r' = r
                  end
  end /\
  match deletePluginEntry id writes r with
  | (Err _, r') => r' = r
  | (Ok _, r') => match memory r !! id with Some _ => memory r' = base.delete id (memory r) /\ disk r' = memory r' | None => r' = r end
  end.
Proof.
  split.
  - destruct (change_entry id c true now writes r) as [[u|[]] r'] eqn:E; [|by eapply change_refused].
    unfold change_entry in E. destruct (memory r !! id) as [e|]; [|by injection E]. unfold commitEntryChange, writeRegistry in E.
    destruct writes; [by injection E as _ <-|done].
  - unfold deletePluginEntry, writeRegistry. destruct (memory r !! id) as [e|] eqn:E; [|done]. destruct writes; [done|]. cbn.
    rewrite insert_delete_id by done. by destruct r.
Qed.
