(* ===== verification/Csv.v ===== *)
(** * CSV exports

    [src/dashboard/src/utils/csv.ts] and the join of the cells it escapes
    ([pages/Logs.tsx]), against a reader of RFC 4180 that also ends a plain cell
    at a carriage return. *)
From S2P Require Import Prelude JsString.
Local Open Scope string_scope.

Definition quote : ascii := ascii_of_nat 34.
Definition newline : ascii := ascii_of_nat 10.
Definition carriage : ascii := ascii_of_nat 13.

(** [/^[=+\-@\t\r]/] *)
Definition starts_formula (s : string) : bool :=
  match s with
  | String c _ => existsb (Ascii.eqb c) ["="%char; "+"%char; "-"%char; "@"%char; ascii_of_nat 9; carriage]
  | EmptyString => false
  end.

(** What makes a cell be quoted: a quote, a comma or a line break. *)
Definition structural (c : ascii) : bool := existsb (Ascii.eqb c) [quote; ","%char; carriage; newline].

(** Every quote doubled. *)
Fixpoint double_quotes (s : string) : string :=
  match s with
  | EmptyString => ""
  | String c r => if Ascii.eqb c quote then String c (String c (double_quotes r)) else String c (double_quotes r)
  end.

Definition neutralize (s : string) : string := if starts_formula s then "'" +:+ s else s.

(** [escapeCsvCell]; a missing value is the empty string. *)
Definition escapeCsvCell (value : option string) : string :=
  let s := neutralize (default "" value) in
  if all_chars (fun c => negb (structural c)) s then s else String quote (double_quotes s +:+ String quote "").

(** A document of rows. *)
Definition csv_row (row : list (option string)) : string := join "," (map escapeCsvCell row).
Definition toCsv (rows : list (list (option string))) : string := join (String newline "") (map csv_row rows).

(** ** The reader *)

(** The rest of a quoted cell, up to its closing quote. *)
Fixpoint read_quoted (s : string) : string * string :=
  match s with
  | EmptyString => ("", "")
  | String c r =>
      if Ascii.eqb c quote then
        match r with
        | String d r' => if Ascii.eqb d quote then let '(cell, rest) := read_quoted r' in (String quote cell, rest) else ("", r)
        | EmptyString => ("", "")
        end
      else let '(cell, rest) := read_quoted r in (String c cell, rest)
  end.

Fixpoint read_plain (s : string) : string * string :=
  match s with
  | EmptyString => ("", "")
  | String c r =>
      if Ascii.eqb c "," || Ascii.eqb c newline || Ascii.eqb c carriage then ("", s)
      else let '(cell, rest) := read_plain r in (String c cell, rest)
  end.

Definition read_cell (s : string) : string * string :=
  match s with
  | String c r => if Ascii.eqb c quote then read_quoted r else read_plain s
  | EmptyString => ("", "")
  end.

Fixpoint read_csv (fuel : nat) (s : string) : list (list string) :=
  match fuel with
  | O => []
  | S fuel =>
      let '(cell, rest) := read_cell s in
      match rest with
      | EmptyString => [[cell]]
      | String c r =>
          if Ascii.eqb c "," then
            match read_csv fuel r with row :: rows => (cell :: row) :: rows | [] => [[cell]] end
          else [cell] :: read_csv fuel r
      end
  end.

(** ** Reading back *)

(** What may follow a cell. *)
Definition ends_cell (rest : string) : bool :=
  match rest with EmptyString => true | String c _ => Ascii.eqb c "," || Ascii.eqb c newline end.

Lemma read_quoted_spec s rest : (match rest with String c _ => Ascii.eqb c quote = false | EmptyString => True end) ->
  read_quoted (double_quotes s +:+ String quote rest) = (s, rest).
Proof.
  intros Hr. induction s as [|c s IH].
  - cbn [double_quotes]. change ("" +:+ String quote rest) with (String quote rest). cbn [read_quoted]. rewrite Ascii.eqb_refl. destruct rest as [|d r]; [done|]. by rewrite Hr.
  - cbn [double_quotes]. destruct (Ascii.eqb_spec c quote) as [->|Hc]; rewrite !append_cons; cbn [read_quoted].
    + rewrite Ascii.eqb_refl, IH. done.
    + destruct (Ascii.eqb_spec c quote); [done|]. by rewrite IH.
Qed.

Lemma read_plain_spec s rest : all_chars (fun c => negb (structural c)) s = true -> ends_cell rest = true -> read_plain (s +:+ rest) = (s, rest).
Proof.
  intros Hs Hr. induction s as [|c s IH].
  - change ("" +:+ rest) with rest. destruct rest as [|c r]; [done|]. cbn [read_plain]. cbn [ends_cell] in Hr. by rewrite Hr.
  - cbn [all_chars] in Hs. apply andb_true_iff in Hs as [Hc Hs]. rewrite append_cons. cbn [read_plain]. rewrite (IH Hs).
    unfold structural in Hc. cbn [existsb] in Hc. apply negb_true_iff in Hc. repeat (apply orb_false_iff in Hc as [? Hc]).
    match goal with |- context [Ascii.eqb c newline] => destruct (Ascii.eqb_spec c newline) as [->|_]; [done|] end.
    rewrite H0, H1. done.
Qed.

Lemma read_escaped value rest : ends_cell rest = true -> read_cell (escapeCsvCell value +:+ rest) = (neutralize (default "" value), rest).
Proof.
  intros Hr. unfold escapeCsvCell. set (s := neutralize _). destruct (all_chars _ s) eqn:E.
  - destruct s as [|c s'] eqn:Es.
    + change ("" +:+ rest) with rest. destruct rest as [|c r]; [done|]. cbn [ends_cell] in Hr. unfold read_cell.
      destruct (Ascii.eqb_spec c quote) as [->|_]; [done|]. cbn [read_plain]. by rewrite Hr.
    + rewrite append_cons. cbn [read_cell]. destruct (Ascii.eqb_spec c quote) as [->|_]; [by cbn in E|]. rewrite <- append_cons. by apply read_plain_spec.
  - rewrite append_cons. cbn [read_cell]. rewrite Ascii.eqb_refl, append_assoc. apply read_quoted_spec. destruct rest as [|c r]; [done|].
    cbn [ends_cell] in Hr. destruct (Ascii.eqb_spec c quote) as [->|]; done.
Qed.

Lemma join_two sep x y l : join sep (x :: y :: l) = x +:+ sep +:+ join sep (y :: l).
Proof. done. Qed.

(** The text a reader finds in a cell. *)
Definition shown (v : option string) : string := neutralize (default "" v).

(** A row and what follows it. *)
Lemma read_row row rest fuel : row <> [] -> ends_cell rest = true -> (match rest with String c _ => c = newline | _ => True end) ->
  (length row <= fuel)%nat ->
  read_csv fuel (csv_row row +:+ rest) = map shown row :: match rest with String _ r => read_csv (fuel - length row) r | EmptyString => [] end.
Proof.
  revert fuel. induction row as [|v row IH]; intros fuel Hne Hr Hn Hf; [done|]. destruct fuel as [|fuel]; [cbn in Hf; lia|]. cbn [length] in Hf.
  destruct row as [|v' row].
  - unfold csv_row. cbn [map join read_csv]. rewrite read_escaped by done. cbn [length Nat.sub]. rewrite Nat.sub_0_r. destruct rest as [|c r]; [done|]. by subst c.
  - assert (csv_row (v :: v' :: row) +:+ rest = escapeCsvCell v +:+ String "," (csv_row (v' :: row) +:+ rest)) as ->.
    { unfold csv_row. cbn [map]. rewrite join_two, !append_assoc. done. }
    cbn [read_csv]. rewrite read_escaped by done. rewrite Ascii.eqb_refl. rewrite IH by (done || (cbn [length] in *; lia)). done.
Qed.

Lemma read_rows rows fuel : rows <> [] -> Forall (fun row => row <> []) rows -> (length (concat rows) <= fuel)%nat ->
  read_csv fuel (toCsv rows) = map (map shown) rows.
Proof.
  unfold toCsv. revert fuel. induction rows as [|row rows IH]; intros fuel Hne Hall Hf; [done|]. apply Forall_cons in Hall as [Hrow Hrows].
  cbn [concat] in Hf. rewrite length_app in Hf. destruct rows as [|row' rows].
  - cbn [map join]. rewrite <- (append_nil_r (csv_row row)). rewrite read_row by (done || lia). done.
  - cbn [map] in *. rewrite join_two, append_cons. change ("" +:+ ?x) with x. rewrite read_row by (done || lia). rewrite IH by (done || lia). done.
Qed.

Lemma neutralize_plain s : starts_formula (neutralize s) = false.
Proof. unfold neutralize. by destruct (starts_formula s) eqn:E. Qed.

(** C40. An exported log reads back exactly: the RFC 4180 reader finds in the
    exported document the same rows of the same cells, whatever quotes, commas and
    line breaks they hold, except that a cell that a spreadsheet would run as a
    formula carries an apostrophe first, and so no cell of the export is one. *)
Theorem csv_export_reads_back rows fuel :
  rows <> [] -> Forall (fun row => row <> []) rows -> (length (concat rows) <= fuel)%nat ->
  read_csv fuel (toCsv rows) = map (map shown) rows /\
  (forall row cell, row ∈ read_csv fuel (toCsv rows) -> cell ∈ row -> starts_formula cell = false) /\
  (forall v, starts_formula (default "" v) = false -> shown v = default "" v).
Proof.
  intros Hne Hall Hf. rewrite read_rows by done. split; [done|]. split.
  - intros row cell (r & -> & _)%elem_of_map (v & -> & _)%elem_of_map. apply neutralize_plain.
  - intros v Hv. unfold shown, neutralize. by rewrite Hv.
Qed.

Definition rows_w : list (list (option string)) := [[Some "id"; Some "path"]; [Some "1"; Some "=HYPERLINK(x)"]; [None; Some (String quote "a,b")]].

Lemma csv_export_reads_back_witness :
  toCsv rows_w = "id,path" +:+ String newline "1,'=HYPERLINK(x)" +:+ String newline ("," +:+ String quote (String quote (String quote "a,b")) +:+ String quote "") /\
  read_csv 6 (toCsv rows_w) = [["id"; "path"]; ["1"; "'=HYPERLINK(x)"]; [""; String quote "a,b"]].
Proof.
  split; [reflexivity|]. apply (csv_export_reads_back rows_w 6); [discriminate| |apply le_n].
  repeat constructor; discriminate.
Defined.
