(* ===== verification/Paging.v ===== *)
(** * List windows and walks over pages

    [src/src/common/utils/paginate.ts], the window every list endpoint answers with,
    and what the dashboard does with such endpoints:
    [src/dashboard/src/utils/fetchAllPages.ts], the walk over every page with its
    retries, and [pageWindow.ts], the numbered paginator.  The walk ends whatever the
    server answers, and against the server's own windows it reads every item. *)
From S2P Require Import Prelude.
Local Open Scope Z_scope.

(** ** The server's window *)

Definition DEFAULT_LIST_LIMIT : Z := 1000.
Definition MAX_SAFE_INTEGER : Z := 2 ^ 53 - 1.

(** [None] is a number that is missing or not finite; a finite one comes truncated. *)
Definition resolveListWindow (limit offset : option Z) : Z * Z :=
  (match limit with Some l => Z.min (Z.max l 1) DEFAULT_LIST_LIMIT | None => DEFAULT_LIST_LIMIT end,
   match offset with Some o => Z.min (Z.max o 0) MAX_SAFE_INTEGER | None => 0 end).

Definition paginate {T : Type} (items : list T) (limit offset : option Z) : list T :=
  let '(lim, off) := resolveListWindow limit offset in
  take (Z.to_nat lim) (drop (Z.to_nat off) items).

(** ** The walk *)

Definition THROTTLE_RETRIES : nat := 2.
Definition MAX_RETRY_AFTER_MS : Z := 10000.

(** What one request ends with: a page; an error with the status and the wait it
    carries; or the key having changed. *)
Inductive Answer (T : Type) :=
| Page (data : list T) (total : Z)
| Refused (status : option Z) (retryAfterSeconds : option Z)
| SignedOut.
Arguments Page {T} data total.
Arguments Refused {T} status retryAfterSeconds.
Arguments SignedOut {T}.

Definition status_of {T : Type} (a : Answer T) : option Z := match a with Refused s _ => s | _ => None end.

(** How the retries ended, the requests made and the waits between them. *)
Record Tried (T : Type) := mkTried { answer : Answer T; requests : nat; waits : list Z }.
Arguments mkTried {T} answer requests waits.
Arguments answer {T} t.
Arguments requests {T} t.
Arguments waits {T} t.

(** [retryThrottled] from attempt [attempt] on, [left] retries before the last; the
    [n]-th request of the walk answers [fetch n]. *)
Fixpoint retryThrottled {T : Type} (fetch : nat -> Answer T) (statuses : list Z) (delayMs : Z) (left : nat) (attempt : Z) (n : nat) : Tried T :=
  match fetch n with
  | Refused (Some status) retryAfter as a =>
      if existsb (Z.eqb status) statuses then
        match left with
        | O => mkTried a 1 []
        | S left' =>
            let asked := if status =? 429 then 0 else Z.min (default 0 retryAfter * 1000) MAX_RETRY_AFTER_MS in
            let t := retryThrottled fetch statuses delayMs left' (attempt + 1) (S n) in
            mkTried (answer t) (S (requests t)) (Z.max (delayMs * 2 ^ attempt) asked :: waits t)
        end
      else mkTried a 1 []
  | a => mkTried a 1 []
  end.

Inductive Walked (T : Type) :=
| Items (items : list T) (truncated throttled : bool)
| Threw (a : Answer T).
Arguments Items {T} items truncated throttled.
Arguments Threw {T} a.

(** [fetchAllPages] with [all] in hand; the offset is its length.  [server n limit
    offset] is the answer to the [n]-th request. *)
Fixpoint walk {T : Type} (server : nat -> Z -> Z -> Answer T) (pageSize maxItems retryDelayMs : Z) (fuel : nat) (n : nat) (all : list T) :
    option (Walked T * nat) :=
  match fuel with
  | O => None
  | S fuel =>
      let t := retryThrottled (fun n => server n pageSize (Z.of_nat (length all))) [429] retryDelayMs THROTTLE_RETRIES 0 n in
      let n := (n + requests t)%nat in
      match answer t with
      | Page data total =>
          let all' := (all ++ data)%list in
          if (length data =? 0)%nat || (total <=? Z.of_nat (length all')) then Some (Items all' false false, n)
          else if maxItems <=? Z.of_nat (length all') then Some (Items all' true false, n)
          else walk server pageSize maxItems retryDelayMs fuel n all'
      | a => Some (if negb (length all =? 0)%nat && bool_decide (status_of a = Some 429) then Items all true true else Threw a, n)
      end
  end.

Definition fetchAllPages {T : Type} (server : nat -> Z -> Z -> Answer T) (pageSize maxItems retryDelayMs : Z) : option (Walked T * nat) :=
  walk server pageSize maxItems retryDelayMs (S (Z.to_nat maxItems)) 0 [].

(** ** The paginator *)

Definition pageWindow (current totalPages size : Z) : list Z :=
  if totalPages <=? 0 then [] else
  let clamped := Z.min (Z.max current 1) totalPages in
  let count := Z.min size totalPages in
  let start := clamped - count / 2 in
  let start := Z.max 1 (Z.min start (totalPages - count + 1)) in
  map (fun i => start + Z.of_nat i) (seq 0 (Z.to_nat count)).

(** ** Lemmas *)

Section walk.
Context {T : Type}.
Implicit Types all items : list T.

Lemma retry_requests (fetch : nat -> Answer T) statuses delay left attempt n :
  (1 <= requests (retryThrottled fetch statuses delay left attempt n) <= S left)%nat.
Proof.
  revert attempt n. induction left as [|left IH]; intros attempt n; cbn [retryThrottled];
    destruct (fetch n) as [| [status|] |]; try (cbn; lia); destruct (existsb _ _); try (cbn; lia).
  specialize (IH (attempt + 1) (S n)). cbn [requests]. lia.
Qed.

Lemma retry_answer (fetch : nat -> Answer T) statuses delay left attempt n :
  exists n', (n <= n')%nat /\ answer (retryThrottled fetch statuses delay left attempt n) = fetch n'.
Proof.
  revert attempt n. induction left as [|left IH]; intros attempt n; cbn [retryThrottled];
    destruct (fetch n) as [| [status|] |] eqn:E; try (exists n; by rewrite E); destruct (existsb _ _); try (exists n; by rewrite E).
  destruct (IH (attempt + 1) (S n)) as (n' & Hn & Ha). exists n'. split; [lia|done].
Qed.

Lemma walk_ends server pageSize maxItems delay fuel n all :
  (Z.to_nat maxItems - length all < fuel)%nat ->
  exists r n', walk server pageSize maxItems delay fuel n all = Some (r, n') /\ (n' <= n + 3 * fuel)%nat.
Proof.
  revert n all. induction fuel as [|fuel IH]; intros n all Hf; [lia|]. cbn [walk].
  set (t := retryThrottled _ _ _ _ _ _). assert (requests t <= 3)%nat as Hq by apply (retry_requests _ _ _ THROTTLE_RETRIES).
  destruct (answer t) as [data total|status after|] eqn:Ha.
  - destruct (_ || _) eqn:E; [eexists _, _; split; [done|lia]|]. destruct (maxItems <=? _) eqn:Em; [eexists _, _; split; [done|lia]|]. bool_facts.
    destruct (IH (n + requests t)%nat (all ++ data)%list) as (r & n' & Hw & Hn); [rewrite length_app in *; lia|]. exists r, n'. split; [done|lia].
  - destruct (_ && _); eexists _, _; (split; [done|lia]).
  - destruct (_ && _); eexists _, _; (split; [done|lia]).
Qed.

(** The walk over a list's pages ends whatever the server answers: with totals
    that lie, pages of any size and refusals at any moment, after at most one page
    per allowed item and three requests per page. *)
Theorem page_walk_ends (server : nat -> Z -> Z -> Answer T) pageSize maxItems retryDelayMs :
  exists r n, fetchAllPages server pageSize maxItems retryDelayMs = Some (r, n) /\ (n <= 3 * S (Z.to_nat maxItems))%nat.
Proof.
  unfold fetchAllPages. destruct (walk_ends server pageSize maxItems retryDelayMs (S (Z.to_nat maxItems)) 0 []) as (r & n & Hw & Hn); [cbn; lia|].
  exists r, n. split; [done|lia].
Qed.

(** ** Against the server's own windows *)

(** Each answer is the window of [items], or a refusal. *)
Definition serves (items : list T) (server : nat -> Z -> Z -> Answer T) : Prop :=
  forall n limit offset, 0 <= offset ->
    server n limit offset = Page (paginate items (Some limit) (Some offset)) (Z.of_nat (length items)) \/
    forall data total, server n limit offset <> Page data total.

Lemma paginate_at items k limit : Z.of_nat k <= MAX_SAFE_INTEGER -> exists m, (1 <= m)%nat /\
  paginate items (Some limit) (Some (Z.of_nat k)) = take m (drop k items).
Proof.
  intros Hk. unfold paginate, resolveListWindow, DEFAULT_LIST_LIMIT. exists (Z.to_nat (Z.min (Z.max limit 1) 1000)). split; [lia|].
  f_equal. f_equal. lia.
Qed.

Lemma walk_reads items server pageSize maxItems delay fuel n k r n' :
  serves items server -> Z.of_nat (length items) <= MAX_SAFE_INTEGER -> (k <= length items)%nat ->
  walk server pageSize maxItems delay fuel n (take k items) = Some (r, n') ->
  match r with
  | Items all truncated throttled =>
      exists j, all = take j items /\ (truncated = false -> all = items) /\ (throttled = false -> truncated = true -> maxItems <= Z.of_nat (length all))
  | Threw a => forall data total, a <> Page data total
  end.
Proof.
  intros Hs Hmax. revert n k. induction fuel as [|fuel IH]; intros n k Hk Hw; [done|]. cbn [walk] in Hw.
  assert (length (take k items) = k) as Hlen by (rewrite length_take; lia). rewrite Hlen in Hw.
  destruct (retry_answer (fun n => server n pageSize (Z.of_nat k)) [429] delay THROTTLE_RETRIES 0 n) as (m & _ & Ha). rewrite Ha in Hw.
  destruct (Hs m pageSize (Z.of_nat k)) as [Hp|Hp]; [lia| |].
  - rewrite Hp in Hw. destruct (paginate_at items k pageSize) as (w & Hw1 & Hpag); [lia|]. rewrite Hpag in Hw.
    rewrite take_take_drop in Hw.
    assert (length (take w (drop k items)) = Nat.min w (length items - k))%nat as Hd by (rewrite length_take, length_drop; lia).
    assert (length (take (k + w) items) = Nat.min (k + w) (length items)) as Hall by (rewrite length_take; lia). rewrite Hd, Hall in Hw.
    destruct (_ || _) eqn:E.
    + injection Hw as <- _. exists (k + w)%nat. split; [done|]. split; [intros _|done]. apply take_ge. apply orb_true_iff in E as [E|E]; bool_facts; lia.
    + bool_facts. destruct (maxItems <=? _) eqn:Em; bool_facts.
      * injection Hw as <- _. exists (k + w)%nat. split; [done|]. split; [done|]. intros _ _. rewrite Hall. lia.
      * eapply (IH _ (k + w)%nat); [lia|exact Hw].
  - assert (Some (if negb (k =? 0)%nat && bool_decide (status_of (server m pageSize (Z.of_nat k)) = Some 429) then Items (take k items) true true
      else Threw (server m pageSize (Z.of_nat k)), (n + requests (retryThrottled (fun n => server n pageSize (Z.of_nat k)) [429%Z] delay THROTTLE_RETRIES 0 n))%nat) = Some (r, n')) as He.
    { destruct (server m pageSize (Z.of_nat k)) as [data total| |] eqn:Es; [by destruct (Hp data total)|exact Hw|exact Hw]. }
    clear Hw. injection He as <- _. destruct (_ && _); [|exact Hp]. exists k. done.
Qed.

(** The walk reads the whole list: against an endpoint that answers with its own
    windows, however it clamps the page size and whichever requests it refuses, the
    items returned are the list from its start; they are all of it unless the
    result says so, and without a throttled page they stop short only past the cap
    the caller set. *)
Theorem page_walk_is_complete items server pageSize maxItems retryDelayMs all truncated throttled n :
  serves items server -> Z.of_nat (length items) <= MAX_SAFE_INTEGER ->
  fetchAllPages server pageSize maxItems retryDelayMs = Some (Items all truncated throttled, n) ->
  (exists j, all = take j items) /\ (truncated = false -> all = items) /\
  (throttled = false -> Z.of_nat (length items) < maxItems -> all = items).
Proof.
  intros Hs Hmax Hw. destruct (walk_reads items server pageSize maxItems retryDelayMs _ 0 0 _ _ Hs Hmax (Nat.le_0_l _) Hw) as (j & Hj & H1 & H2).
  split; [by exists j|]. split; [done|]. intros Ht Hlt. destruct truncated; [|by apply H1]. specialize (H2 Ht eq_refl). subst all.
  rewrite length_take in H2. lia.
Qed.
End walk.

(** The paginator's numbers are a run of consecutive pages, as many as asked for
    or as there are, all of them pages of the list and the current one among them. *)
Theorem page_window_shows_current current totalPages size :
  0 < totalPages -> 0 < size ->
  exists start, pageWindow current totalPages size = seqZ start (Z.min size totalPages) /\
    1 <= start /\ start + Z.min size totalPages - 1 <= totalPages /\
    Z.min (Z.max current 1) totalPages ∈ pageWindow current totalPages size.
Proof.
  intros Ht Hs. unfold pageWindow. rewrite (proj2 (Z.leb_gt totalPages 0)) by lia.
  set (count := Z.min size totalPages). set (c := Z.min (Z.max current 1) totalPages).
  set (start := Z.max 1 (Z.min (c - count / 2) (totalPages - count + 1))). exists start.
  assert (0 <= count / 2 < count) as Hc by (split; [apply Z.div_pos; lia|apply Z.div_lt; lia]).
  assert (map (fun i => start + Z.of_nat i) (seq 0 (Z.to_nat count)) = seqZ start count) as ->.
  { unfold seqZ. apply List.map_ext. intros i. lia. }
  split; [done|]. split; [lia|]. split; [lia|]. apply elem_of_seqZ. lia.
Qed.

(** ** Witnesses *)

Definition items_w : list Z := [10; 20; 30; 40; 50].
Definition server_w (_ : nat) (limit offset : Z) : Answer Z := Page (paginate items_w (Some limit) (Some offset)) (Z.of_nat (length items_w)).

Lemma server_w_serves : serves items_w server_w.
Proof. intros n limit offset _. by left. Qed.

Lemma page_walk_is_complete_witness :
  fetchAllPages server_w 2 100 1000 = Some (Items items_w false false, 3%nat) /\ (exists j, items_w = take j items_w) /\ items_w = items_w.
Proof.
  assert (fetchAllPages server_w 2 100 1000 = Some (Items items_w false false, 3%nat)) as Hw by (vm_compute; reflexivity).
  split; [exact Hw|].
  destruct (page_walk_is_complete items_w server_w 2 100 1000 items_w false false 3 server_w_serves ltac:(vm_compute; discriminate) Hw) as (H1 & H2 & _).
  split; [exact H1|exact (H2 eq_refl)].
Defined.

Lemma page_window_shows_current_witness :
  pageWindow 7 9 5 = [5; 6; 7; 8; 9] /\
  exists start, pageWindow 7 9 5 = seqZ start (Z.min 5 9) /\ 1 <= start /\ start + Z.min 5 9 - 1 <= 9 /\ Z.min (Z.max 7 1) 9 ∈ pageWindow 7 9 5.
Proof. split; [reflexivity|]. apply page_window_shows_current; lia. Defined.
