(* ===== verification/Owned.v ===== *)
(** * Concurrent programs that own what they created

    A refinement of the rely-guarantee rule of [Prog] for tasks that create a thing
    of their own (a row under a fresh id) and from then on know about it what
    nobody else may change.  A task owns a set of tokens; an effect may draw fresh
    ones for it.  What a task knows is kept by every step of the others ([rely]),
    not by its own: after an effect of its own it knows exactly what that effect
    did. *)
From stdpp Require Import sets gmap.
From S2P Require Import Prelude Prog.

Section owned.
Context {E : Type -> Type} {S : Type} {T : Type} `{Countable T}.
Context (run : forall B, E B -> S -> B -> S -> Prop).
Context (env : S -> S -> Prop) (starts : S -> prog E unit -> Prop).

(** The tokens drawn so far, and those an answer gives its task. *)
Context (used : S -> gset T) (gain : forall B, E B -> B -> gset T).
(** [le]: what no step of anybody undoes; [rely X]: what the owner of [X] may also
    count on; [pre X e]: what it must know to perform [e]. *)
Context (le : S -> S -> Prop) (rely : gset T -> S -> S -> Prop) `{!PreOrder le} `{!forall X, PreOrder (rely X)}.
Context (pre : gset T -> forall B, E B -> S -> Prop) (Inv : S -> Prop).

(** From any state the others may leave, the program meets the precondition of
    each effect it performs, whatever the answers, and ends knowing [Q]. *)
Fixpoint holds {A : Type} (X : gset T) (p : prog E A) (Q : gset T -> A -> S -> Prop) (s : S) : Prop :=
  match p with
  | Ret a => forall s1, rely X s s1 -> Q X a s1
  | Do e k => forall s1, rely X s s1 -> Inv s1 ->
      pre X _ e s1 /\ forall b s2, run _ e s1 b s2 -> Inv s2 -> holds (X ∪ gain _ e b) (k b) Q s2
  end.

Lemma holds_rely {A : Type} X (p : prog E A) Q s s' : holds X p Q s -> rely X s s' -> holds X p Q s'.
Proof. destruct p; simpl; intros Hp Hle s1 H1; apply Hp; by transitivity s'. Qed.

Lemma holds_bind {A B : Type} X (p : prog E A) (f : A -> prog E B) Q s :
  holds X p (fun Y a s1 => holds Y (f a) Q s1) s -> holds X (pbind p f) Q s.
Proof.
  revert X s. induction p as [a|C e k IH]; intros X s Hp.
  - simpl in *. apply Hp. reflexivity.
  - cbn [pbind holds] in *. intros s1 Hle HI. destruct (Hp s1 Hle HI) as [Hpre Hk]. split; [done|].
    intros b s2 Hrun HI2. by apply IH, Hk.
Qed.

Lemma holds_conseq {A : Type} X (p : prog E A) (Q Q' : gset T -> A -> S -> Prop) s :
  holds X p Q s -> (forall Y a s1, X ⊆ Y -> Q Y a s1 -> Q' Y a s1) -> holds X p Q' s.
Proof.
  revert X s. induction p as [a|C e k IH]; intros X s Hp HQ; simpl in *.
  - intros s1 Hle. by apply HQ, Hp.
  - intros s1 Hle HI. destruct (Hp s1 Hle HI) as [Hpre Hk]. split; [done|]. intros b s2 Hrun HI2.
    apply (IH b _ s2); [by apply Hk|]. intros Y a s3 HY. apply HQ. etransitivity; [apply union_subseteq_l|exact HY].
Qed.

(** ** The pool *)

Context (run_ok : forall X B (e : E B) s b s', Inv s -> X ⊆ used s -> pre X B e s -> run B e s b s' ->
  Inv s' /\ le s s' /\ used s ⊆ used s' /\ gain B e b ⊆ used s' ∖ used s /\ forall Y, Y ## X -> Y ⊆ used s -> rely Y s s').
Context (env_ok : forall s s', Inv s -> env s s' -> Inv s' /\ le s s' /\ used s ⊆ used s' /\ forall Y, Y ⊆ used s -> rely Y s s').
Context (starts_ok : forall s p, Inv s -> starts s p -> holds ∅ p (fun _ _ _ => True) s).

(** The tasks of a pool, each with what it owns: no token twice. *)
Fixpoint shared (ts : list (prog E unit)) (Xs : list (gset T)) (s : S) : Prop :=
  match ts, Xs with
  | [], [] => True
  | p :: ts, X :: Xs => X ⊆ used s /\ Forall (fun Y => Y ## X) Xs /\ holds X p (fun _ _ _ => True) s /\ shared ts Xs s
  | _, _ => False
  end.

Definition good (c : list (prog E unit) * S) : Prop := Inv (snd c) /\ exists Xs, shared (fst c) Xs (snd c).

Lemma shared_moves ts Xs s s' :
  shared ts Xs s -> used s ⊆ used s' -> Forall (fun X => X ⊆ used s -> rely X s s') Xs -> shared ts Xs s'.
Proof.
  revert Xs. induction ts as [|p ts IH]; intros [|X Xs]; simpl; try done. intros (Hu & Hd & Hp & Hs) Hle [HX HXs]%Forall_cons.
  split_and!; [set_solver|done|by apply (holds_rely X p _ s); [|apply HX]|by apply IH].
Qed.

Lemma shared_sublist ts ts' Xs s : sublist ts' ts -> shared ts Xs s -> exists Xs', sublist Xs' Xs /\ shared ts' Xs' s.
Proof.
  intros Hs. revert Xs. induction Hs as [|p ts' ts Hs IH|p ts' ts Hs IH]; intros [|X Xs]; simpl; try done.
  - intros _. exists []. split; [constructor|done].
  - intros (Hu & Hd & Hp & Hr). destruct (IH Xs Hr) as (Xs' & Hsub & Hr'). exists (X :: Xs'). split; [by constructor|]. simpl.
    split_and!; [done| |done|done]. apply Forall_forall. intros Y HY. rewrite Forall_forall in Hd. apply Hd. by eapply elem_of_sublist.
  - intros (_ & _ & _ & Hr). destruct (IH Xs Hr) as (Xs' & Hsub & Hr'). exists Xs'. split; [by constructor|done].
Qed.

Lemma shared_step ts1 p p' ts2 Xs s s' :
  Inv s -> shared (ts1 ++ p :: ts2) Xs s -> prog_step run p s p' s' ->
  Inv s' /\ le s s' /\ used s ⊆ used s' /\
  exists Xs', shared (ts1 ++ p' :: ts2) Xs' s' /\ Forall2 (fun X X' => X ⊆ X' /\ X' ∖ X ⊆ used s' ∖ used s) Xs Xs' /\
    forall Y, Y ⊆ used s -> Forall (fun X => Y ## X) Xs -> rely Y s s'.
Proof.
  intros HI. revert Xs. induction ts1 as [|q ts1 IH]; intros [|X Xs]; simpl; try done.
  - intros (Hu & Hd & Hp & Hs) Hst. destruct p as [a|B e k]; [done|]. destruct Hst as (b & Hrun & ->).
    destruct (Hp s (reflexivity s) HI) as [Hpre Hk].
    destruct (run_ok X B e s b s' HI Hu Hpre Hrun) as (HI' & Hle & Huu & Hg & Hr). split_and!; [done|done|done|].
    exists ((X ∪ gain B e b) :: Xs). split_and!.
    + set_solver.
    + rewrite Forall_forall in Hd |- *. intros Y HY. assert (Y ⊆ used s) as HYu.
      { clear -Hs HY. revert ts2 Hs. induction Xs as [|Z Xs IH]; [by apply not_elem_of_nil in HY|]. intros [|q ts2]; simpl; [done|].
        intros (Hu & _ & _ & Hs). apply elem_of_cons in HY as [->|HY]; [done|by apply (IH HY ts2)]. }
      specialize (Hd Y HY). set_solver.
    + by apply Hk.
    + apply (shared_moves _ _ s s'); [done|done|]. rewrite Forall_forall in Hd |- *. intros Y HY HYu. apply Hr; [by apply Hd|done].
    + constructor; [set_solver|]. apply Forall_Forall2_diag, Forall_true. set_solver.
    + intros Y HY [HYX _]%Forall_cons. by apply Hr.
  - intros (Hu & Hd & Hq & Hs) Hst. destruct (IH Xs Hs Hst) as (HI' & Hle & Huu & Xs' & Hs' & Hg & Hr). split_and!; [done|done|done|].
    exists (X :: Xs'). split_and!.
    + set_solver.
    + clear -Hd Hg Hu. induction Hg as [|Y Y' Xs Xs' [H1 H2] Hg IHg]; [constructor|]. apply Forall_cons in Hd as [HY Hd].
      constructor; [|by apply IHg]. set_solver.
    + apply (holds_rely X q _ s); [done|]. apply Hr; [done|]. eapply Forall_impl; [exact Hd|]. simpl. set_solver.
    + done.
    + constructor; [set_solver|done].
    + intros Y HY [_ HYX]%Forall_cons. by apply Hr.
Qed.

Lemma owned_step_ok c c' : pool_step run env starts c c' -> good c -> good c'.
Proof.
  intros Hst [HI [Xs HF]]. destruct Hst as [ts1 p p' ts2 s s' Hp|p ts s Hp|ts ts' s Hp|ts s s' Hp]; simpl in *.
  - destruct (shared_step ts1 p p' ts2 Xs s s' HI HF Hp) as (HI' & _ & _ & Xs' & Hs' & _). split; [done|]. by exists Xs'.
  - split; [done|]. exists (∅ :: Xs). simpl. split_and!; [set_solver|by apply Forall_true; intros; set_solver|by apply starts_ok|done].
  - split; [done|]. destruct (shared_sublist _ _ _ _ Hp HF) as (Xs' & _ & H'). by exists Xs'.
  - destruct (env_ok s s' HI Hp) as (HI' & _ & Huu & Hr). split; [done|]. exists Xs. apply (shared_moves _ _ s s'); [done|done|].
    apply Forall_true. intros X HX. by apply Hr.
Qed.

Lemma owned_step_le c c' : pool_step run env starts c c' -> good c -> le (snd c) (snd c').
Proof.
  intros Hst [HI [Xs HF]]. destruct Hst as [ts1 p p' ts2 s s' Hp|p ts s Hp|ts ts' s Hp|ts s s' Hp]; simpl in *; try reflexivity.
  - by destruct (shared_step ts1 p p' ts2 Xs s s' HI HF Hp) as (_ & Hle & _).
  - by destruct (env_ok s s' HI Hp) as (_ & Hle & _).
Qed.

Lemma owned_reachable s c : Inv s -> rtc (pool_step run env starts) ([], s) c -> good c.
Proof. intros HI Hr. refine (rtc_invariant _ good _ _ owned_step_ok Hr _). split; [done|]. by exists []. Qed.

(** The invariant holds at every state a pool reaches, and what is known for good
    at one of them is known at every later one. *)
Lemma owned_invariant s c : Inv s -> rtc (pool_step run env starts) ([], s) c -> Inv (snd c).
Proof. intros HI Hr. exact (proj1 (owned_reachable s c HI Hr)). Qed.

Lemma owned_knows s c c' : Inv s -> rtc (pool_step run env starts) ([], s) c -> rtc (pool_step run env starts) c c' -> le (snd c) (snd c').
Proof.
  intros HI Hr. pose proof (owned_reachable s c HI Hr) as Hc. clear Hr. intros Hr.
  induction Hr as [c|c1 c2 c3 Hst Hr IH]; [reflexivity|].
  transitivity (snd c2); [by apply owned_step_le|]. by apply IH, (owned_step_ok c1).
Qed.
End owned.
