(* ===== verification/BulkContent.v ===== *)
(** * Bulk items: what one message of a batch is made of

    The content of a batch item (modules/message/bulk-message.service.ts): duplicate
    entries dropped, template variables applied under caps measured before anything
    is rendered, the checks on what is about to be sent, the engine call it becomes,
    and the media payloads a finished batch drops (batch-media.util.ts,
    media-cap.util.ts). *)
From S2P Require Import Prelude JsString Json WaId Template.
Local Open Scope string_scope.
Local Open Scope Z_scope.
Local Open Scope result_scope.

Record Item := mkItem { i_chatId : string; i_type : string; i_content : json; i_variables : option Vars }.

Inductive ItemError := BadRequest | PayloadTooLarge | NotText.

(** [!!v] *)
Definition truthy_json (v : json) : bool :=
  match v with JNull => false | JBool b => b | JNum n => negb (n =? 0) | JStr s => negb (String.eqb s "") | JArr _ | JObj _ => true end.
Definition given (o : option json) : bool := match o with Some v => truthy_json v | None => false end.

Definition len (s : string) : Z := Z.of_nat (String.length s).
Definition MEDIA_KINDS : list string := ["image"; "video"; "audio"; "document"].

(** ** Duplicate entries *)

Definition var_json (v : Value) : json := match v with AsText s => JStr s | _ => JNull end.

(** What is hashed: [JSON.stringify([chatId, type, content, variables])]. *)
Definition entry_text (m : Item) : string :=
  json_text (JArr [JStr (i_chatId m); JStr (i_type m); i_content m;
                   match i_variables m with Some vs => JObj (map (fun e => (fst e, var_json (snd e))) vs) | None => JNull end]).

Section entries.
Context (sha256 : string -> string).

Fixpoint collapse (seenEntries : list string) (l : list Item) : list Item :=
  match l with
  | [] => []
  | m :: r =>
      let fingerprint := sha256 (entry_text m) in
      if existsb (String.eqb fingerprint) seenEntries then collapse seenEntries r
      else m :: collapse (fingerprint :: seenEntries) r
  end.

Definition distinctEntries (l : list Item) : list Item := collapse [] l.
End entries.

(** ** Base64 *)

(** [/^data:[^,]*;base64,/i]: the first comma ends the match. *)
Definition stripBase64DataUri (s : string) : string :=
  match lsplit "," s with
  | Some (head, rest) =>
      let h := toLowerCase head in
      if startsWith h "data:" && (12 <=? len h) && endsWith h ";base64" then rest else s
  | None => s
  end.

Definition strip_json (o : option json) : option json :=
  match o with Some (JStr s) => Some (JStr (stripBase64DataUri s)) | Some JNull => None | o => o end.

Section content.
(** [inboundMediaMaxBytes()], the render cap, and the host of a URL that parses. *)
Context (mediaMaxBytes maxChars : Z) (hostname : string -> option string).

Definition assertBase64WithinMediaCap (o : option json) : result ItemError unit :=
  match strip_json o with
  | Some (JStr s) => if String.eqb s "" then Ok tt else if mediaMaxBytes <? base64_length s then Err PayloadTooLarge else Ok tt
  | o => if given o then Err NotText else Ok tt
  end.

Definition assertBase64LengthWithinMediaCap (chars : Z) : result ItemError unit :=
  if mediaMaxBytes <? (chars - 256) * 3 / 4 then Err PayloadTooLarge else Ok tt.

Definition media_within_cap (content : json) (kind : string) : result ItemError unit :=
  match field content kind with
  | Some media =>
      let base64 := strip_json (field media "base64") in
      if negb (match field media "base64" with None => true | _ => false end) && negb (given base64) && negb (given (field media "url"))
      then Err BadRequest else assertBase64WithinMediaCap base64
  | None => Ok tt
  end.

Fixpoint each_kind (check : string -> result ItemError unit) (kinds : list string) : result ItemError unit :=
  match kinds with [] => Ok tt | k :: r => let* _ := check k in each_kind check r end.

Definition assertContentMediaWithinCap (content : json) : result ItemError unit := each_kind (media_within_cap content) MEDIA_KINDS.

Definition isMediaUrl (o : option json) : bool :=
  match o with
  | Some (JStr url) =>
      let u := toLowerCase url in
      (startsWith u "http://" || startsWith u "https://") &&
      match hostname url with Some host => negb (String.eqb host "") | None => false end
  | _ => false
  end.

Definition MENTIONS_MAX : Z := 1024.
Definition MENTION_WID_MAX_LENGTH : Z := 64.
Definition isMentionWid (v : json) : bool := match v with JStr s => isIndividualWid s | _ => false end.

Definition mentions_ok (mentions : option json) : bool :=
  match mentions with
  | None | Some JNull => true
  | Some (JArr l) =>
      (Z.of_nat (length l) <=? MENTIONS_MAX) &&
      forallb (fun wid => match wid with JStr s => (len s <=? MENTION_WID_MAX_LENGTH) && isMentionWid wid | _ => false end) l
  | Some _ => false
  end.

Definition assertItemContent (type : string) (content : json) (beforeRender : bool) : result ItemError unit :=
  if negb beforeRender && negb (mentions_ok (field content "mentions")) then Err BadRequest
  else if String.eqb type "text" then
    match field content "text" with Some (JStr s) => if String.eqb s "" then Err BadRequest else Ok tt | _ => Err BadRequest end
  else
    let media := default JNull (field content type) in
    let url := field media "url" in
    if given (strip_json (field media "base64")) then Ok tt
    else if negb (given url) then Err BadRequest
    else if negb (beforeRender && match url with Some (JStr s) => has_char "{" s | _ => false end) && negb (isMediaUrl url) then Err BadRequest
    else Ok tt.

(** ** Template variables *)

Definition lengthOf (vars : Vars) (s : string) : result ItemError Z :=
  match renderedLength s vars with Ok n => Ok n | Err _ => Err BadRequest end.

(** [/^(text|caption|(image|video|audio|document)\.base64)$/] *)
Definition hasOwnCap (path : string) : bool :=
  existsb (String.eqb path) ("text" :: "caption" :: map (fun k => k +:+ ".base64") MEDIA_KINDS).

Definition sub_path (path key : string) : string := if String.eqb path "" then key else path +:+ "." +:+ key.

(** What the strings without a cap of their own grow by, together. *)
Fixpoint added (vars : Vars) (path : string) (v : json) : result ItemError Z :=
  match v with
  | JStr s => if hasOwnCap path then Ok 0 else let* n := lengthOf vars s in Ok (Z.max 0 (n - len s))
  | JArr l =>
      (fix go l := match l with [] => Ok 0 | x :: r => let* a := added vars path x in let* b := go r in Ok (a + b) end) l
  | JObj fs =>
      (fix go l := match l with
                   | [] => Ok 0
                   | e :: r => let* a := added vars (sub_path path (fst e)) (snd e) in let* b := go r in Ok (a + b)
                   end) fs
  | _ => Ok 0
  end.

Fixpoint processValue (vars : Vars) (v : json) : result ItemError json :=
  match v with
  | JStr s => match renderTemplate s vars with Ok t => Ok (JStr t) | Err _ => Err NotText end
  | JArr l =>
      let* l := (fix go l := match l with [] => Ok [] | x :: r => let* x := processValue vars x in let* r := go r in Ok (x :: r) end) l in
      Ok (JArr l)
  | JObj fs =>
      let* fs := (fix go l := match l with
                              | [] => Ok []
                              | e :: r => let* x := processValue vars (snd e) in let* r := go r in Ok ((fst e, x) :: r)
                              end) fs in
      Ok (JObj fs)
  | v => Ok v
  end.

Definition text_within_cap (vars : Vars) (content : json) (key : string) : result ItemError unit :=
  match field content key with
  | Some (JStr s) => let* n := lengthOf vars s in if maxChars <? n then Err BadRequest else Ok tt
  | _ => Ok tt
  end.

Definition base64_fits (vars : Vars) (content : json) (kind : string) : result ItemError unit :=
  match field (default JNull (field content kind)) "base64" with
  | Some (JStr s) => let* n := lengthOf vars s in assertBase64LengthWithinMediaCap n
  | _ => Ok tt
  end.

Definition applyVariables (content : json) (variables : option Vars) : result ItemError json :=
  match variables with
  | None => Ok content
  | Some vars =>
      let* _ := each_kind (text_within_cap vars content) ["text"; "caption"] in
      let* _ := each_kind (base64_fits vars content) MEDIA_KINDS in
      let* n := added vars "" content in
      ensure negb (maxChars <? n) else BadRequest ;;
      processValue vars content
  end.
End content.

(** ** The engine call of an item *)

(** A voice note is an audio item flagged [ptt]. *)
Definition messageTypeOf (type : string) (content : json) : string :=
  if String.eqb type "audio" && given (field (default JNull (field content "audio")) "ptt") then "voice" else type.

Definition or_else (o : option json) (d : json) : json := match o with Some v => if truthy_json v then v else d | None => d end.

Definition mediaMimetype (type : string) (content : json) : json :=
  let media := default JNull (field content type) in
  let fallback :=
    if String.eqb type "audio" && given (field (default JNull (field content "audio")) "ptt") then "audio/ogg; codecs=opus"
    else if negb (given (strip_json (field media "base64"))) then "application/octet-stream"
    else if String.eqb type "image" then "image/jpeg"
    else if String.eqb type "video" then "video/mp4"
    else if String.eqb type "audio" then "audio/mpeg"
    else "application/octet-stream" in
  or_else (field media "mimetype") (JStr fallback).

(** What the engine is asked; a property left out is [None]. *)
Inductive EngineCall :=
| SendText (chatId : string) (text : json) (mentions : option json)
| SendMedia (kind chatId : string) (mimetype data : json) (ptt filename caption mentions : option json).

(** [None]: an unsupported type, refused before the engine is asked. *)
Definition sendMessage (chatId type : string) (content : json) : option EngineCall :=
  let media := default JNull (field content type) in
  let data := or_else (strip_json (field media "base64")) (or_else (field media "url") (JStr "")) in
  let mentions := field content "mentions" in
  let call := fun ptt filename caption => Some (SendMedia type chatId (mediaMimetype type content) data ptt filename caption mentions) in
  if String.eqb type "text" then
    Some (SendText chatId (or_else (field content "text") (JStr ""))
      (match mentions with Some (JArr (_ :: _)) => mentions | _ => None end))
  else if String.eqb type "image" || String.eqb type "video" then call None None (field content "caption")
  else if String.eqb type "audio" then call (field media "ptt") None None
  else if String.eqb type "document" then call None (field media "filename") (field content "caption")
  else None.

(** ** A finished batch drops its media *)

(** [stripBatchMediaPayloads], one message. *)
Definition strip_kind (m : Item) (kind : string) : Item :=
  match i_content m with
  | JObj fs =>
      match JMap.get kind fs with
      | Some (JObj media) =>
          match JMap.get "base64" media with
          | Some base64 =>
              let vars := match base64, i_variables m with
                          | JStr s, Some vs => Some (fold_left (fun vs name => JMap.delete name vs) (templateVariableNames s) vs)
                          | _, vs => vs
                          end in
              mkItem (i_chatId m) (i_type m) (JObj (JMap.set kind (JObj (JMap.delete "base64" media)) fs)) vars
          | None => m
          end
      | _ => m
      end
  | _ => m
  end.

Definition stripBatchMediaPayloads (messages : list Item) : list Item :=
  map (fun m => fold_left strip_kind MEDIA_KINDS m) messages.

(** ** Outcomes *)

Inductive BatchStatus := PENDING | PROCESSING | COMPLETED | CANCELLED | FAILED.
#[export] Instance BatchStatus_eq_dec : EqDecision BatchStatus.
Proof. solve_decision. Defined.

Definition resolveFinalBatchStatus (cancelled stoppedOnError : bool) (sent failed : Z) : BatchStatus :=
  if cancelled then CANCELLED
  else if stoppedOnError then FAILED
  else if (0 <? failed) && (sent =? 0) then FAILED else COMPLETED.

(** What an item fails with. *)
Inductive ItemFailure := SsrfBlocked (message : string) | PacingLimited (message : string) | OtherError (message : string).

Definition sanitizeBatchError (e : ItemFailure) : string * string :=
  match e with
  | SsrfBlocked _ => ("SEND_BLOCKED", "Destination address is not allowed")
  | PacingLimited m => ("SEND_PACING_LIMITED", m)
  | OtherError m => ("SEND_FAILED", m)
  end.

(** ** Rendering is bounded before it is done *)

(** Variables that hold text, as the request's do; a null one renders to nothing. *)
Definition text_vars (vars : Vars) : bool := forallb (fun e => match snd e with NoText => false | _ => true end) vars.

Definition render_text (vars : Vars) (s : string) : string := match renderTemplate s vars with Ok t => t | Err _ => s end.

Fixpoint rendered (vars : Vars) (v : json) : json :=
  match v with
  | JStr s => JStr (render_text vars s)
  | JArr l => JArr (map (rendered vars) l)
  | JObj fs => JObj (map (fun e => (fst e, rendered vars (snd e))) fs)
  | v => v
  end.

(** What the strings without a cap of their own grow by when [f] rewrites them. *)
Fixpoint growth (f : string -> string) (path : string) (v : json) : Z :=
  match v with
  | JStr s => if hasOwnCap path then 0 else Z.max 0 (len (f s) - len s)
  | JArr l => foldr Z.add 0 (map (growth f path) l)
  | JObj fs => foldr Z.add 0 (map (fun e => growth f (sub_path path (fst e)) (snd e)) fs)
  | _ => 0
  end.

(** The caps on an item's content [v] that renders to [v']. *)
Definition caps_hold (mediaMaxBytes maxChars : Z) (f : string -> string) (v v' : json) : bool :=
  forallb (fun key => match field v' key with Some (JStr s) => len s <=? maxChars | _ => true end) ["text"; "caption"] &&
  forallb (fun kind => match field (default JNull (field v' kind)) "base64" with
                       | Some (JStr s) => (len s - 256) * 3 / 4 <=? mediaMaxBytes | _ => true end) MEDIA_KINDS &&
  (growth f "" v <=? maxChars).

Fixpoint json_nested_ind (P : json -> Prop) (Hnull : P JNull) (Hbool : forall b, P (JBool b)) (Hnum : forall n, P (JNum n))
    (Hstr : forall s, P (JStr s)) (Harr : forall l, Forall P l -> P (JArr l)) (Hobj : forall fs, Forall (fun e => P (snd e)) fs -> P (JObj fs))
    (v : json) : P v :=
  let rec := json_nested_ind P Hnull Hbool Hnum Hstr Harr Hobj in
  match v with
  | JNull => Hnull | JBool b => Hbool b | JNum n => Hnum n | JStr s => Hstr s
  | JArr l => Harr l ((fix go l := match l return Forall P l with [] => @Forall_nil_2 json P | x :: r => @Forall_cons_2 json P x r (rec x) (go r) end) l)
  | JObj fs => Hobj fs ((fix go l := match l return Forall (fun e => P (snd e)) l with
                                     | [] => @Forall_nil_2 _ (fun e => P (snd e)) | e :: r => @Forall_cons_2 _ (fun e => P (snd e)) e r (rec (snd e)) (go r) end) fs)
  end.

Section bounded.
Context (vars : Vars) (Htext : text_vars vars = true).

Lemma value_text_ok k : exists t, value_text vars k = Ok t.
Proof.
  unfold value_text. destruct (JMap.get k vars) as [[|s|]|] eqn:E; [by eexists|by eexists| |by eexists].
  apply JMap.get_Some_elem in E. unfold text_vars in Htext. rewrite forallb_forall in Htext.
  by specialize (Htext _ (proj1 (list_elem_of_In _ _) E)).
Qed.

Lemma replaced_ok l : exists t, replaced vars l = Ok t.
Proof.
  induction l as [|[c|raw k] r [t IH]]; cbn [replaced]; [by eexists|rewrite IH; by eexists|].
  destruct (value_text_ok k) as [u ->]. cbn [result_bind]. rewrite IH. by eexists.
Qed.

Lemma render_ok s : renderTemplate s vars = Ok (render_text vars s).
Proof.
  unfold render_text. destruct (render_is_one_pass s vars) as (Hr & _). rewrite Hr. by destruct (replaced_ok (cut s)) as [t ->].
Qed.

Lemma length_ok s : lengthOf vars s = Ok (len (render_text vars s)).
Proof. unfold lengthOf. by rewrite rendered_length_exact, render_ok. Qed.

Lemma added_ok path v : added vars path v = Ok (growth (render_text vars) path v).
Proof.
  revert path. induction v as [|b|n|s|l IH|fs IH] using json_nested_ind; intros path; cbn [added growth]; try done.
  - destruct (hasOwnCap path); [done|]. by rewrite length_ok.
  - induction IH as [|x r Hx _ IHr]; [done|]. rewrite Hx. cbn [result_bind]. by rewrite IHr.
  - induction IH as [|e r Hx _ IHr]; [done|]. rewrite Hx. cbn [result_bind]. by rewrite IHr.
Qed.

Lemma process_value_ok v : processValue vars v = Ok (rendered vars v).
Proof.
  induction v as [|b|n|s|l IH|fs IH] using json_nested_ind; cbn [processValue rendered]; try done.
  - by rewrite render_ok.
  - match goal with |- result_bind ?m _ = _ => assert (m = Ok (map (rendered vars) l)) as -> end; [|done].
    induction IH as [|x r Hx _ IHr]; [done|]. rewrite Hx. cbn [result_bind]. by rewrite IHr.
  - match goal with |- result_bind ?m _ = _ => assert (m = Ok (map (fun e => (fst e, rendered vars (snd e))) fs)) as -> end; [|done].
    induction IH as [|e r Hx _ IHr]; [done|]. rewrite Hx. cbn [result_bind]. by rewrite IHr.
Qed.

Lemma field_rendered v k : field (rendered vars v) k = rendered vars <$> field v k.
Proof.
  destruct v as [| | | | |fs]; try done. cbn [rendered field]. induction fs as [|[k' x] r IH]; [done|].
  cbn [map JMap.get fst snd]. by destruct (String.eqb k' k).
Qed.

Lemma each_kind_ok (check : string -> result ItemError unit) (p : string -> bool) ks :
  (forall k, check k = Ok tt <-> p k = true) -> each_kind check ks = Ok tt <-> forallb p ks = true.
Proof.
  intros Hk. induction ks as [|k r IH]; [done|]. cbn [each_kind forallb]. rewrite andb_true_iff, <- Hk, <- IH.
  destruct (check k) as [[]|e]; cbn [result_bind]; split; try done; by intros [].
Qed.

(** Template variables cannot inflate a bulk item: the variables of an item are
    applied exactly when what they render to keeps every cap (the text and the
    caption, each media payload, and what all other strings grow by together), and
    then every string of the content is its one-pass rendering; the sizes are
    known before anything is rendered. *)
Theorem bulk_rendering_is_bounded mediaMaxBytes maxChars content content' :
  applyVariables mediaMaxBytes maxChars content (Some vars) = Ok content' <->
  content' = rendered vars content /\ caps_hold mediaMaxBytes maxChars (render_text vars) content content' = true.
Proof.
  unfold applyVariables, caps_hold. rewrite added_ok, process_value_ok.
  assert (each_kind (text_within_cap maxChars vars content) ["text"; "caption"] = Ok tt <->
    forallb (fun key => match field (rendered vars content) key with Some (JStr s) => len s <=? maxChars | _ => true end) ["text"; "caption"] = true) as H1.
  { apply each_kind_ok. intros k. unfold text_within_cap. rewrite field_rendered. destruct (field content k) as [[| | |s| |]|]; try done.
    cbn [fmap option_fmap option_map rendered]. rewrite length_ok. cbn [result_bind]. destruct (Z.ltb_spec maxChars (len (render_text vars s))), (Z.leb_spec (len (render_text vars s)) maxChars); by try lia. }
  assert (each_kind (base64_fits mediaMaxBytes vars content) MEDIA_KINDS = Ok tt <->
    forallb (fun kind => match field (default JNull (field (rendered vars content) kind)) "base64" with
      | Some (JStr s) => (len s - 256) * 3 / 4 <=? mediaMaxBytes | _ => true end) MEDIA_KINDS = true) as H2.
  { apply each_kind_ok. intros k. unfold base64_fits, assertBase64LengthWithinMediaCap. rewrite field_rendered.
    destruct (field content k) as [m|]; [|done]. cbn [fmap option_fmap option_map default from_option id]. rewrite field_rendered.
    destruct (field m "base64") as [[| | |s| |]|]; try done. cbn [fmap option_fmap option_map rendered]. rewrite length_ok. cbn [result_bind].
    destruct (Z.ltb_spec mediaMaxBytes ((len (render_text vars s) - 256) * 3 / 4)), (Z.leb_spec ((len (render_text vars s) - 256) * 3 / 4) mediaMaxBytes); by try lia. }
  split.
  - destruct (each_kind (text_within_cap _ _ _) _) as [[]|]; [|done]. destruct (each_kind (base64_fits _ _ _) _) as [[]|]; [|done].
    cbn [result_bind]. unfold guard_err. destruct (Z.ltb_spec maxChars (growth (render_text vars) "" content)) as [|Hg]; [done|].
    cbn [negb result_bind]. intros [= <-]. split; [done|]. rewrite (proj1 H1 eq_refl), (proj1 H2 eq_refl). by apply Z.leb_le.
  - intros [-> [[Ha Hb]%andb_true_iff Hc]%andb_true_iff]. rewrite (proj2 H1 Ha), (proj2 H2 Hb). cbn [result_bind]. unfold guard_err.
    apply Z.leb_le in Hc. by rewrite (proj2 (Z.ltb_ge _ _) Hc).
Qed.
End bounded.

Definition content_w : json := JObj [("text", JStr "Hi {{name}}"); ("image", JObj [("url", JStr "https://h/{{name}}.png")])].
Definition vars_w : Vars := [("name", AsText "Ada")].

Lemma bulk_rendering_is_bounded_witness :
  text_vars vars_w = true /\ caps_hold 1000 100 (render_text vars_w) content_w (rendered vars_w content_w) = true /\
  applyVariables 1000 100 content_w (Some vars_w) = Ok (rendered vars_w content_w).
Proof.
  split; [reflexivity|]. split; [vm_compute; reflexivity|].
  apply (bulk_rendering_is_bounded vars_w eq_refl). split; [reflexivity|vm_compute; reflexivity].
Defined.
