(* ===== verification/Bulk.v ===== *)
(** * Bulk messages

    modules/message/bulk-message.service.ts: a batch of messages is a row; the
    process that created it runs it item by item, writing its progress under guards
    in the UPDATEs; callers cancel it, a node that takes the session over fails it,
    and so do a boot and a shutdown.  Every SQL statement, engine call and
    synchronous block on a process's memory is one effect, and the programs run by
    any number of processes interleave ([Prog]).  A process number is one life of a
    process: a restart is a new number. *)
From stdpp Require Import sets gmap pretty.
From S2P Require Import Prelude JsString Json Template Prog BulkContent.
From S2P Require SendPacing.
Local Open Scope string_scope.
Local Open Scope Z_scope.

(** ** Data *)

Record Progress := mkProgress { total : Z; sent : Z; failed : Z; pending : Z; cancelled : Z }.

Inductive BatchMessageStatus := MPending | MSent | MFailed | MCancelled.
Record BatchMessageResult := mkResult {
  r_chatId : string;
  r_status : BatchMessageStatus;
  r_messageId : option string;
  r_error : option (string * string);
  r_sentAt : option Z
}.

Record Options := mkOptions { delayBetweenMessages : Z; randomizeDelay : bool; stopOnError : bool }.

Record MessageBatch := mkBatch {
  b_batchId : string;
  b_sessionId : string;
  b_status : BatchStatus;
  b_messages : list Item;
  b_options : Options;
  b_progress : Progress;
  b_results : list BatchMessageResult;
  b_currentIndex : nat;
  b_startedAt : option Z;
  b_completedAt : option Z
}.

Definition with_status (st : BatchStatus) (b : MessageBatch) : MessageBatch :=
  mkBatch (b_batchId b) (b_sessionId b) st (b_messages b) (b_options b) (b_progress b) (b_results b) (b_currentIndex b) (b_startedAt b) (b_completedAt b).
Definition with_messages (msgs : list Item) (b : MessageBatch) : MessageBatch :=
  mkBatch (b_batchId b) (b_sessionId b) (b_status b) msgs (b_options b) (b_progress b) (b_results b) (b_currentIndex b) (b_startedAt b) (b_completedAt b).
Definition with_run (pr : Progress) (rs : list BatchMessageResult) (ix : nat) (b : MessageBatch) : MessageBatch :=
  mkBatch (b_batchId b) (b_sessionId b) (b_status b) (b_messages b) (b_options b) pr rs ix (b_startedAt b) (b_completedAt b).
Definition with_progress (pr : Progress) (b : MessageBatch) : MessageBatch := with_run pr (b_results b) (b_currentIndex b) b.
Definition started_at (t : Z) (b : MessageBatch) : MessageBatch :=
  mkBatch (b_batchId b) (b_sessionId b) (b_status b) (b_messages b) (b_options b) (b_progress b) (b_results b) (b_currentIndex b) (Some t) (b_completedAt b).
Definition completed_at (t : Z) (b : MessageBatch) : MessageBatch :=
  mkBatch (b_batchId b) (b_sessionId b) (b_status b) (b_messages b) (b_options b) (b_progress b) (b_results b) (b_currentIndex b) (b_startedAt b) (Some t).
Definition strip (b : MessageBatch) : MessageBatch := with_messages (stripBatchMediaPayloads (b_messages b)) b.

(** A process's memory. *)
Record Proc := mkProc { processingBatches : gmap string bool; inFlightBatches : Z; shuttingDown : bool }.
Definition booted : Proc := mkProc ∅ 0 false.
Definition with_batches (m : gmap string bool) (st : Proc) : Proc := mkProc m (inFlightBatches st) (shuttingDown st).

(** The table and the processes; beside them what has happened: the ids drawn
    ([minted]) and inserted ([born]), the items the engine was asked to send and
    those it accepted (newest first, each its batch and index), the batches callers
    cancelled, those a shutdown deleted unsent ([freed]), and those whose run
    returned. *)
Record World := mkWorld {
  batches : gmap string MessageBatch;
  procs : gmap nat Proc;
  clock : Z;
  minted : gset string;
  born : gset string;
  sends : list (string * nat);
  accepted : list (string * nat);
  cancels : gset string;
  freed : gset string;
  finished : gset string
}.

Definition proc (s : World) (p : nat) : Proc := default booted (procs s !! p).
Definition with_rows (s : World) (rows : gmap string MessageBatch) : World :=
  mkWorld rows (procs s) (clock s) (minted s) (born s) (sends s) (accepted s) (cancels s) (freed s) (finished s).
Definition with_proc (s : World) (p : nat) (st : Proc) : World :=
  mkWorld (batches s) (<[p := st]> (procs s)) (clock s) (minted s) (born s) (sends s) (accepted s) (cancels s) (freed s) (finished s).

(** ** Statements *)

(** The UPDATEs of a row, the time taken before each. *)
Inductive Stmt :=
| Start (now : Z)
| Fail (now : Z) (msgs : option (list Item)) (runState : option (Progress * list BatchMessageResult * nat))
| FailNoEngine (now : Z) (msgs : list Item)
| SaveProgress (pr : Progress) (rs : list BatchMessageResult) (ix : nat)
| KeepResults (st : BatchStatus) (pr : Progress) (rs : list BatchMessageResult) (ix : nat)
| Finish (st : BatchStatus) (now : Z) (pr : Progress) (rs : list BatchMessageResult) (ix : nat) (msgs : list Item)
| FinishCancelled (now : Z) (pr : Progress) (rs : list BatchMessageResult) (ix : nat) (msgs : list Item)
| Cancel (now : Z) (pr : Progress) (msgs : list Item).

Definition unfinished (st : BatchStatus) : bool := match st with PENDING | PROCESSING => true | _ => false end.

(** The WHERE of each beside the id, and its SET. *)
Definition hits (st : Stmt) (b : MessageBatch) : bool :=
  match st with
  | Start _ => bool_decide (b_status b = PENDING)
  | Fail _ _ _ | Cancel _ _ _ => unfinished (b_status b)
  | FailNoEngine _ _ => negb (bool_decide (b_status b = CANCELLED))
  | SaveProgress _ _ _ | Finish _ _ _ _ _ _ => bool_decide (b_status b = PROCESSING)
  | KeepResults st _ _ _ => bool_decide (b_status b = st)
  | FinishCancelled _ _ _ _ _ => bool_decide (b_status b = PROCESSING) || bool_decide (b_status b = CANCELLED)
  end.

Definition applied (st : Stmt) (b : MessageBatch) : MessageBatch :=
  match st with
  | Start now => started_at now (with_status PROCESSING b)
  | Fail now msgs runState =>
      let b := completed_at now (with_status FAILED b) in
      let b := match msgs with Some msgs => with_messages msgs b | None => b end in
      match runState with Some (pr, rs, ix) => with_run pr rs ix b | None => b end
  | FailNoEngine now msgs => with_messages msgs (completed_at now (with_status FAILED b))
  | SaveProgress pr rs ix | KeepResults _ pr rs ix => with_run pr rs ix b
  | Finish st now pr rs ix msgs => with_messages msgs (completed_at now (with_run pr rs ix (with_status st b)))
  | FinishCancelled now pr rs ix msgs => with_messages msgs (completed_at now (with_run pr rs ix (with_status CANCELLED b)))
  | Cancel now pr msgs => with_messages msgs (completed_at now (with_progress pr (with_status CANCELLED b)))
  end.

Definition update_row (id : string) (st : Stmt) (s : World) : World :=
  match batches s !! id with
  | Some b => if hits st b then with_rows s (<[id := applied st b]> (batches s)) else s
  | None => s
  end.
Definition row_hit (id : string) (st : Stmt) (s : World) : bool :=
  match batches s !! id with Some b => hits st b | None => false end.

Definition same_batch (sid batchId : string) (b : MessageBatch) : bool := String.eqb (b_sessionId b) sid && String.eqb (b_batchId b) batchId.
Definition taken (sid batchId : string) (s : World) : bool := existsb (fun e => same_batch sid batchId (snd e)) (map_to_list (batches s)).

Definition insert_row (id : string) (b : MessageBatch) (s : World) : World :=
  mkWorld (<[id := b]> (batches s)) (procs s) (clock s) (minted s) ({[id]} ∪ born s) (sends s) (accepted s) (cancels s) (freed s) (finished s).

Definition unsent (s : World) (id : string) : bool :=
  match batches s !! id with Some b => bool_decide (b_startedAt b = None) | None => false end.
Definition delete_unsent (id : string) (s : World) : World :=
  if unsent s id then mkWorld (base.delete id (batches s)) (procs s) (clock s) (minted s) (born s) (sends s) (accepted s) (cancels s) ({[id]} ∪ freed s) (finished s)
  else s.

(** ** Effects *)

Inductive InsertResult := Inserted | UniqueViolation | Faulted.
Inductive GateAnswer := Vetoed | Continues (data : option json).
(** What the engine throws: what a caller may read of it, and how pacing takes it. *)
Record EngineError := mkEngineError { ee_failure : ItemFailure; ee_class : SendPacing.SendError }.

Inductive eff : Type -> Type :=
| Now : eff Z
| Local {B : Type} (p : nat) (f : Proc -> B * Proc) : eff B
| Signal (p : nat) (id : string) : eff unit
| FindRow (id : string) : eff (result unit (option MessageBatch))
| FindBatch (sid batchId : string) : eff (result unit (option (string * MessageBatch)))
| FindUnfinished (sid : option string) : eff (result unit (list string))
| Claimable (ids : list string) : eff (result unit (list string))
| Update (id : string) (st : Stmt) : eff (result unit bool)
| InsertRow (id : string) (b : MessageBatch) : eff InsertResult
| DeleteUnsent (id : string) : eff (result unit bool)
| MintId : eff string
| MintBatchId : eff string
| Current : eff bool
| EngineReady : eff bool
| Draining : eff bool
| Admit (chatId : string) : eff (result ItemFailure unit)
| SettleAdmission (accepted : option bool) : eff unit
| Breaker (success : bool) : eff unit
| Gate (input : json) (type : string) : eff GateAnswer
| Send (id : string) (i : nat) (call : EngineCall) : eff (result EngineError string)
| MessageFailed (error : string) (input : json) (type : string) : eff unit
| Persist (chatId type messageId : string) (content : json) : eff unit
| Sleep (ms : Z) : eff unit
| RunReturned (id : string) : eff unit.

Definition log_send (id : string) (i : nat) (ok : bool) (s : World) : World :=
  mkWorld (batches s) (procs s) (clock s) (minted s) (born s) ((id, i) :: sends s) (if ok then (id, i) :: accepted s else accepted s) (cancels s) (freed s) (finished s).

(** [cancelBatch]'s signal to a run of this process. *)
Definition signal (p : nat) (id : string) (s : World) : World :=
  let st := proc s p in
  let m := match processingBatches st !! id with Some _ => <[id := false]> (processingBatches st) | None => processingBatches st end in
  mkWorld (batches s) (<[p := with_batches m st]> (procs s)) (clock s) (minted s) (born s) (sends s) (accepted s) ({[id]} ∪ cancels s) (freed s) (finished s).

Definition run (B : Type) (e : eff B) (s : World) : B -> World -> Prop :=
  match e in eff B return B -> World -> Prop with
  | Now => fun t s' => t = clock s /\ s' = s
  | Local p f => fun b s' => b = fst (f (proc s p)) /\ s' = with_proc s p (snd (f (proc s p)))
  | Signal p id => fun _ s' => s' = signal p id s
  | FindRow id => fun r s' => s' = s /\ (r = Err tt \/ r = Ok (batches s !! id))
  | FindBatch sid batchId => fun r s' =>
      s' = s /\ (r = Err tt \/ r = Ok (List.find (fun e => same_batch sid batchId (snd e)) (map_to_list (batches s))))
  | FindUnfinished sid => fun r s' =>
      s' = s /\ (r = Err tt \/
        r = Ok (map fst (List.filter (fun e => unfinished (b_status (snd e)) &&
          match sid with Some sid => String.eqb (b_sessionId (snd e)) sid | None => true end) (map_to_list (batches s)))))
  | Claimable ids => fun r s' => s' = s /\ (r = Err tt \/ exists l, r = Ok l /\ sublist l ids)
  | Update id st => fun r s' =>
      (r = Err tt /\ s' = s) \/ ((r = Err tt \/ r = Ok (row_hit id st s)) /\ s' = update_row id st s)
  | InsertRow id b => fun r s' =>
      (r = Faulted /\ s' = s) \/
      (if taken (b_sessionId b) (b_batchId b) s then r = UniqueViolation /\ s' = s
       else (r = Faulted \/ r = Inserted) /\ s' = insert_row id b s)
  | DeleteUnsent id => fun r s' =>
      (r = Err tt /\ s' = s) \/ ((r = Err tt \/ r = Ok (unsent s id)) /\ s' = delete_unsent id s)
  | MintId => fun id s' =>
      id ∉ minted s /\
      s' = mkWorld (batches s) (procs s) (clock s) ({[id]} ∪ minted s) (born s) (sends s) (accepted s) (cancels s) (freed s) (finished s)
  | Send id i _ => fun r s' => s' = log_send id i (match r with Ok _ => true | Err _ => false end) s
  | RunReturned id => fun _ s' =>
      s' = mkWorld (batches s) (procs s) (clock s) (minted s) (born s) (sends s) (accepted s) (cancels s) (freed s) ({[id]} ∪ finished s)
  | MintBatchId | Current | EngineReady | Draining | Admit _ | SettleAdmission _ | Breaker _ | Gate _ _
  | MessageFailed _ _ _ | Persist _ _ _ _ | Sleep _ => fun _ s' => s' = s
  end.

Abbreviation task := (prog eff).
Local Open Scope prog_scope.

(** ** Exceptions *)

Inductive Exn := Gone | DbError | NotFound | Refused | TooMany | Unavailable (unsent : bool).

Definition db {A : Type} (e : eff (result unit A)) : task (result Exn A) :=
  let! r := act e in Ret (match r with Ok a => Ok a | Err _ => Err DbError end).

(** [lifetime.assertCurrent()], and [lifetime.write]. *)
Definition assertCurrent : task (result Exn unit) := let! ok := act Current in Ret (if (ok : bool) then Ok tt else Err Gone).
Definition write {A : Type} (m : task (result Exn A)) : task (result Exn A) := let? _ := assertCurrent in m.

Definition update (id : string) (st : Z -> Stmt) : task (result Exn bool) := let! now := act Now in db (Update id (st now)).

Definition flag (p : nat) (id : string) : task (option bool) := act (Local p (fun st => (processingBatches st !! id, st))).

(** ** One run of a batch *)

Section service.
(** The caps of [BulkContent]; [BULK_MAX_CONCURRENT_BATCHES]; [sha256]. *)
Context (mediaMaxBytes maxChars : Z) (hostname : string -> option string) (maxConcurrentBatches : Z) (sha256 : string -> string).

Record BatchExecutionState := mkState { stoppedOnError : bool; cancelledByDb : bool; endedElsewhere : bool }.

(** How one item went. *)
Inductive Attempt :=
| Delivered (messageId : string) (sentAt : Z) (content : json)
| NotDelivered (failure : ItemFailure) (blockedByPlugin engineAsked admitted : bool) (content : json).

Definition item_failure (e : ItemError) : ItemFailure :=
  OtherError (match e with BadRequest => "Bad request" | PayloadTooLarge => "Payload too large" | NotText => "Not text" end).

Definition plain_error : SendPacing.SendError := SendPacing.mkErr false false false false false false false None.

(** [{ ...content, chatId }] *)
Definition with_chat (content : json) (chatId : string) : json :=
  JObj (JMap.set "chatId" (JStr chatId)
    (match content with JObj fs => fs | JArr l => imap (fun i v => (pretty i, v)) l | _ => [] end)).

(** The content the gate's envelope leaves; [None] when it is unusable. *)
Definition gated (data : option json) (content : json) : option json :=
  match data with
  | None => Some content
  | Some envelope => match field envelope "input" with Some (JObj fs) => Some (JObj fs) | Some (JArr l) => Some (JArr l) | _ => None end
  end.

(** The engine asked, and what its answer means to the pacing. *)
Definition ask_engine (id : string) (i : nat) (msg : Item) (content : json) : task Attempt :=
  let refused := fun e =>
    let! _ := if SendPacing.countsTowardSendBreaker (ee_class e) then act (Breaker false) else Ret tt in
    let! _ := act (SettleAdmission (Some (negb (SendPacing.sentNothing (ee_class e))))) in
    Ret (NotDelivered (ee_failure e) false true true content) in
  match sendMessage (i_chatId msg) (i_type msg) content with
  | None => refused (mkEngineError (OtherError ("Unsupported message type: " +:+ i_type msg)) plain_error)
  | Some call =>
      let! r := act (Send id i call) in
      match r with
      | Err e => refused e
      | Ok messageId =>
          let! _ := act (SettleAdmission (Some true)) in
          let! _ := act (Breaker true) in
          let! now := act Now in
          Ret (Delivered messageId now content)
      end
  end.

(** The [try] of [processBatchMessage]. *)
Definition attempt (id : string) (i : nat) (msg : Item) : task Attempt :=
  match applyVariables mediaMaxBytes maxChars (i_content msg) (i_variables msg) with
  | Err e => Ret (NotDelivered (item_failure e) false false false (i_content msg))
  | Ok content =>
      let! admitted := act (Admit (i_chatId msg)) in
      match admitted with
      | Err failure => Ret (NotDelivered failure false false false content)
      | Ok _ =>
          let! gate := act (Gate (with_chat content (i_chatId msg)) (messageTypeOf (i_type msg) content)) in
          match gate with
          | Vetoed => Ret (NotDelivered (item_failure BadRequest) true false true content)
          | Continues data =>
              match gated data content with
              | None => Ret (NotDelivered (item_failure BadRequest) true false true content)
              | Some content =>
                  match result_bind (assertContentMediaWithinCap mediaMaxBytes content)
                          (fun _ => assertItemContent hostname (i_type msg) content false) with
                  | Err e => Ret (NotDelivered (item_failure e) false false true content)
                  | Ok _ =>
                      let! current := act Current in
                      if negb current then Ret (NotDelivered (OtherError "Session is no longer available") false false true content)
                      else
                        let! ready := act EngineReady in
                        if negb ready then Ret (NotDelivered (OtherError "Engine not ready") false false true content)
                        else ask_engine id i msg content
                  end
              end
          end
      end
  end.

Definition count_sent (pr : Progress) : Progress := mkProgress (total pr) (sent pr + 1) (failed pr) (pending pr - 1) (cancelled pr).
Definition count_failed (pr : Progress) : Progress := mkProgress (total pr) (sent pr) (failed pr + 1) (pending pr - 1) (cancelled pr).
Definition count_cancelled (pr : Progress) : Progress := mkProgress (total pr) (sent pr) (failed pr) 0 (pending pr).

(** [results] is [batch.results]: a push shows in both. *)
Definition push_result (r : BatchMessageResult) (b : MessageBatch) : MessageBatch :=
  with_run (b_progress b) (b_results b ++ [r])%list (b_currentIndex b) b.

Definition is_pacing (f : ItemFailure) : bool := match f with PacingLimited _ => true | _ => false end.

Definition noteRowLeftProcessing (id : string) (st : BatchExecutionState) : task (result Exn BatchExecutionState) :=
  let? fresh := db (FindRow id) in
  Ret (Ok (match fresh with
           | Some b => match b_status b with
                       | FAILED | COMPLETED => mkState (stoppedOnError st) (cancelledByDb st) true
                       | _ => mkState (stoppedOnError st) true (endedElsewhere st)
                       end
           | None => mkState (stoppedOnError st) true (endedElsewhere st)
           end)).

(** From [results.push] on: whether to go on to the next item, with the batch in
    memory. *)
Definition record_item (p : nat) (id : string) (i : nat) (r : BatchMessageResult) (batch : MessageBatch) (st : BatchExecutionState) :
    task (result Exn bool * MessageBatch * BatchExecutionState) :=
  let! current := assertCurrent in
  match current with
  | Err e => Ret (Err e, batch, st)
  | Ok _ =>
      let batch := push_result r batch in
      let batch := with_run (b_progress batch) (b_results batch) (S i) batch in
      let! saved := write (db (Update id (SaveProgress (b_progress batch) (b_results batch) (b_currentIndex batch)))) in
      match saved with
      | Err e => Ret (Err e, batch, st)
      | Ok false =>
          let! noted := noteRowLeftProcessing id st in
          match noted with Ok st => Ret (Ok false, batch, st) | Err e => Ret (Err e, batch, st) end
      | Ok true =>
          let! marker := flag p id in
          let! _ := if (S i <? length (b_messages batch))%nat && bool_decide (marker = Some true)
                    then act (Sleep (delayBetweenMessages (b_options batch))) else Ret tt in
          Ret (Ok true, batch, st)
      end
  end.

Definition processBatchMessage (p : nat) (id : string) (i : nat) (msg : Item) (batch : MessageBatch) (st : BatchExecutionState) :
    task (result Exn bool * MessageBatch * BatchExecutionState) :=
  let! marker := flag p id in
  if negb (bool_decide (marker = Some true)) then Ret (Ok false, batch, st)
  else
    let! outcome := attempt id i msg in
    match outcome with
    | Delivered messageId sentAt content =>
        let batch := with_progress (count_sent (b_progress batch)) batch in
        let! _ := act (Persist (i_chatId msg) (messageTypeOf (i_type msg) content) messageId content) in
        record_item p id i (mkResult (i_chatId msg) MSent (Some messageId) None (Some sentAt)) batch st
    | NotDelivered failure blockedByPlugin engineAsked admitted content =>
        let! current :=
          if engineAsked then Ret (Ok tt)
          else let! _ := if admitted then act (SettleAdmission None) else Ret tt in assertCurrent in
        match current with
        | Err e => Ret (Err e, batch, st)
        | Ok _ =>
            let error := sanitizeBatchError failure in
            let batch := with_progress (count_failed (b_progress batch)) batch in
            let! _ := if negb blockedByPlugin && negb (is_pacing failure)
                      then act (MessageFailed (snd error) (with_chat content (i_chatId msg)) (messageTypeOf (i_type msg) content))
                      else Ret tt in
            let r := mkResult (i_chatId msg) MFailed None (Some error) None in
            if stopOnError (b_options batch)
            then Ret (Ok false, push_result r (with_status FAILED batch), mkState true (cancelledByDb st) (endedElsewhere st))
            else record_item p id i r batch st
        end
    end.

(** The loop, over the messages from index [i] on. *)
Fixpoint processBatchMessages (p : nat) (id : string) (i : nat) (msgs : list Item) (batch : MessageBatch) (st : BatchExecutionState) :
    task (result Exn unit * MessageBatch * BatchExecutionState) :=
  match msgs with
  | [] => Ret (Ok tt, batch, st)
  | msg :: rest =>
      let! current := assertCurrent in
      match current with
      | Err e => Ret (Err e, batch, st)
      | Ok _ =>
          let! out := processBatchMessage p id i msg batch st in
          let '(more, batch, st) := out in
          match more with
          | Err e => Ret (Err e, batch, st)
          | Ok false => Ret (Ok tt, batch, st)
          | Ok true => processBatchMessages p id (S i) rest batch st
          end
      end
  end.

(** ** The end of a run *)

Definition keepResultsOnEndedRow (id : string) (batch : MessageBatch) (st : BatchStatus) (pr : Progress) : task (result Exn unit) :=
  let? _ := db (Update id (KeepResults st pr (b_results batch) (b_currentIndex batch))) in Ret (Ok tt).

Definition finalizeBatch (p : nat) (id : string) (batch : MessageBatch) (st : BatchExecutionState) : task (result Exn unit) :=
  let keep := keepResultsOnEndedRow id batch in
  let pr := b_progress batch in
  if endedElsewhere st then keep FAILED pr
  else
    let? fresh := if cancelledByDb st then Ret (Ok None) else db (FindRow id) in
    let status := b_status <$> fresh in
    if bool_decide (status = Some FAILED) || bool_decide (status = Some COMPLETED) then keep FAILED pr
    else
      let! marker := flag p id in
      let cancelled := cancelledByDb st || bool_decide (status = Some CANCELLED) || negb (bool_decide (marker = Some true)) in
      let final := resolveFinalBatchStatus cancelled (stoppedOnError st) (sent pr) (failed pr) in
      let msgs := stripBatchMediaPayloads (b_messages batch) in
      let cancelledProgress := count_cancelled pr in
      if bool_decide (final = CANCELLED) then
        let? reconciled := update id (fun now => FinishCancelled now cancelledProgress (b_results batch) (b_currentIndex batch) msgs) in
        if (reconciled : bool) then Ret (Ok tt) else keep FAILED pr
      else
        let? finalized := update id (fun now => Finish final now pr (b_results batch) (b_currentIndex batch) msgs) in
        if (finalized : bool) then Ret (Ok tt)
        else
          let? stored := db (FindRow id) in
          match b_status <$> stored with
          | Some FAILED => keep FAILED pr
          | Some CANCELLED => keep CANCELLED cancelledProgress
          | _ => Ret (Ok tt)
          end.

Definition failOrphanedBatch (id : string) (batch : option MessageBatch) (withRunState : bool) : task (result Exn bool) :=
  update id (fun now => Fail now (stripBatchMediaPayloads ∘ b_messages <$> batch)
    (if withRunState then (fun b => (b_progress b, b_results b, b_currentIndex b)) <$> batch else None)).

(** What is thrown, with the batch in memory when it was. *)
Definition executeBatch (p : nat) (id : string) (batch : MessageBatch) : task (result Exn unit * MessageBatch) :=
  let! now := act Now in
  let batch := started_at now (with_status PROCESSING batch) in
  let! started := write (db (Update id (Start now))) in
  match started with
  | Err e => Ret (Err e, batch)
  | Ok false => Ret (Ok tt, batch)
  | Ok true =>
      let! current := assertCurrent in
      match current with
      | Err e => Ret (Err e, batch)
      | Ok _ =>
          let! ready := act EngineReady in
          if negb ready then
            let! r := write (update id (fun now => FailNoEngine now (stripBatchMediaPayloads (b_messages batch)))) in
            Ret (match r with Ok _ => Ok tt | Err e => Err e end, strip batch)
          else
            let! out := processBatchMessages p id (b_currentIndex batch) (drop (b_currentIndex batch) (b_messages batch)) batch
                          (mkState false false false) in
            let '(r, batch, st) := out in
            match r with
            | Err e => Ret (Err e, batch)
            | Ok _ => let! r := write (finalizeBatch p id batch st) in Ret (r, batch)
            end
      end
  end.

(** What a pickup finds in its process's memory; a run that goes ahead marks the
    batch as running in the same turn. *)
Inductive Pickup := Skip | FailUnsent | Go.
Definition pick_up (id : string) (status : BatchStatus) (st : Proc) : Pickup * Proc :=
  if bool_decide (processingBatches st !! id = Some false) || bool_decide (status = CANCELLED) then (Skip, st)
  else if shuttingDown st then (FailUnsent, st)
  else (Go, with_batches (<[id := true]> (processingBatches st)) st).

Definition pickup (p : nat) (id : string) (batch : MessageBatch) : task (result Exn unit * MessageBatch) :=
  let! current := assertCurrent in
  match current with
  | Err e => Ret (Err e, batch)
  | Ok _ =>
      let! decision := act (Local p (pick_up id (b_status batch))) in
      match decision with
      | Skip => Ret (Ok tt, batch)
      | FailUnsent =>
          let! r := write (failOrphanedBatch id (Some batch) false) in
          Ret (match r with Ok _ => Ok tt | Err e => Err e end, strip batch)
      | Go => executeBatch p id batch
      end
  end.

Definition unregister (id : string) (st : Proc) : unit * Proc :=
  (tt, mkProc (base.delete id (processingBatches st)) (inFlightBatches st - 1) (shuttingDown st)).

Definition processBatch (p : nat) (id : string) : task (result Exn unit) :=
  let! found := db (FindRow id) in
  let! out := match found with
              | Err e => Ret (Err e, None)
              | Ok None => Ret (Ok tt, None)
              | Ok (Some batch) => let! out := pickup p id batch in Ret (fst out, Some (snd out))
              end in
  let! r := match fst out with
            | Ok _ => let! _ := act (RunReturned id) in Ret (Ok tt)
            | Err e =>
                let? _ := assertCurrent in
                let! _ := write (failOrphanedBatch id (snd out) true) in Ret (Err e)
            end in
  let! _ := act (Local p (unregister id)) in
  Ret r.

(** ** The requests *)

Record BulkRequest := mkBulk { q_messages : list Item; q_batchId : option string; q_options : Options }.

Fixpoint item_checks (l : list Item) : result ItemError unit :=
  match l with
  | [] => Ok tt
  | m :: r =>
      result_bind (assertContentMediaWithinCap mediaMaxBytes (i_content m)) (fun _ =>
      result_bind (assertItemContent hostname (i_type m) (i_content m) true) (fun _ => item_checks r))
  end.

(** The shutdown check, the cap and the registration, in one turn. *)
Inductive Reservation := RClosed | RFull | RReserved.
Definition reserve (draining : bool) (id : string) (st : Proc) : Reservation * Proc :=
  if shuttingDown st || draining then (RClosed, st)
  else if (0 <? maxConcurrentBatches) && (maxConcurrentBatches <=? inFlightBatches st) then (RFull, st)
  else (RReserved, mkProc (<[id := true]> (processingBatches st)) (inFlightBatches st + 1) (shuttingDown st)).

Definition new_batch (batchId sid : string) (messages : list Item) (options : Options) : MessageBatch :=
  let n := Z.of_nat (length messages) in
  mkBatch batchId sid PENDING messages options (mkProgress n 0 0 n 0) [] 0 None None.

Definition save_and_run (p : nat) (id : string) (batch : MessageBatch) : task (result Exn string) :=
  let! saved := write (let! r := act (InsertRow id batch) in
                       Ret (match r with Inserted => Ok tt | UniqueViolation => Err Refused | Faulted => Err DbError end)) in
  match saved with
  | Err e => let! _ := act (Local p (unregister id)) in Ret (Err e)
  | Ok _ =>
      let! down := act (Local p (fun st => (shuttingDown st, st))) in
      let! _ := processBatch p id in
      if (down : bool) then
        let! freed := act (DeleteUnsent id) in
        Ret (Err (Unavailable (match freed with Ok b => b | Err _ => false end)))
      else Ret (Ok id)
  end.

Definition createBatch (p : nat) (sid : string) (dto : BulkRequest) : task (result Exn string) :=
  let! ready := act EngineReady in
  if negb ready then Ret (Err Refused)
  else
    let messages := distinctEntries sha256 (q_messages dto) in
    match item_checks messages with
    | Err _ => Ret (Err Refused)
    | Ok _ =>
        let! batchId := match truthy (q_batchId dto) with Some b => Ret b | None => act MintBatchId end in
        if String.eqb batchId "." || String.eqb batchId ".." then Ret (Err Refused)
        else
          let? existing := db (FindBatch sid batchId) in
          if bool_decide (is_Some (fst <$> existing)) then Ret (Err Refused)
          else
            let! draining := act Draining in
            let! id := act MintId in
            let! reservation := act (Local p (reserve draining id)) in
            match reservation with
            | RClosed => Ret (Err (Unavailable true))
            | RFull => Ret (Err TooMany)
            | RReserved => save_and_run p id (new_batch batchId sid messages (q_options dto))
            end
    end.

Definition getBatchStatus (sid batchId : string) : task (result Exn MessageBatch) :=
  let? found := db (FindBatch sid batchId) in
  Ret (match found with Some (_, b) => Ok b | None => Err NotFound end).

Definition cancelBatch (p : nat) (sid batchId : string) : task (result Exn unit) :=
  let? found := db (FindBatch sid batchId) in
  match found with
  | None => Ret (Err NotFound)
  | Some (id, batch) =>
      if negb (unfinished (b_status batch)) then Ret (Err Refused)
      else
        let! _ := act (Signal p id) in
        let? cancelled := update id (fun now => Cancel now (count_cancelled (b_progress batch)) (stripBatchMediaPayloads (b_messages batch))) in
        if (cancelled : bool) then Ret (Ok tt) else let? _ := db (FindRow id) in Ret (Err Refused)
  end.

(** ** The reapers *)

Fixpoint reap_each (reap : string -> task (result Exn bool)) (ids : list string) : task (result Exn unit) :=
  match ids with [] => Ret (Ok tt) | id :: rest => let? _ := reap id in reap_each reap rest end.

Definition fail_read (id : string) : task (result Exn bool) := let? row := db (FindRow id) in failOrphanedBatch id row false.

Definition onApplicationBootstrap : task (result Exn unit) :=
  let? unfinished := db (FindUnfinished None) in
  let? orphaned := db (Claimable unfinished) in
  reap_each fail_read orphaned.

Definition reapProcessingBatches (p : nat) (sid : string) : task (result Exn unit) :=
  let? unfinished := db (FindUnfinished (Some sid)) in
  let! others := act (Local p (fun st => (List.filter (fun id => negb (bool_decide (is_Some (processingBatches st !! id)))) unfinished, st))) in
  reap_each fail_read others.

(** batch-media.util.ts *)
Definition failUnfinishedSessionBatches (sid : string) : task (result Exn unit) :=
  let? unfinished := db (FindUnfinished (Some sid)) in
  reap_each (fun id => let? row := db (FindRow id) in
                       match row with None => Ret (Ok false) | Some b => failOrphanedBatch id (Some b) false end) unfinished.

Definition shut_down (st : Proc) : list string * Proc :=
  (map fst (map_to_list (processingBatches st)), mkProc (processingBatches st) (inFlightBatches st) true).

Fixpoint fail_held (p : nat) (ids : list string) : task unit :=
  match ids with
  | [] => Ret tt
  | id :: rest =>
      let! r := fail_read id in
      let! _ := match r with
                | Ok true => act (Local p (fun st => (tt, with_batches (<[id := false]> (processingBatches st)) st)))
                | _ => Ret tt
                end in
      fail_held p rest
  end.

Definition onModuleDestroy (p : nat) : task unit :=
  let! ids := act (Local p shut_down) in fail_held p ids.

(** ** What runs *)

Definition ignore {A : Type} (t : task A) : task unit := let! _ := t in Ret tt.

Inductive starts (s : World) : task unit -> Prop :=
| st_create p sid dto : starts s (ignore (createBatch p sid dto))
| st_cancel p sid batchId : starts s (ignore (cancelBatch p sid batchId))
| st_status sid batchId : starts s (ignore (getBatchStatus sid batchId))
| st_boot : starts s (ignore onApplicationBootstrap)
| st_reap p sid : starts s (ignore (reapProcessingBatches p sid))
| st_fail sid : starts s (ignore (failUnfinishedSessionBatches sid))
| st_destroy p : starts s (onModuleDestroy p).

(** Time passes; rows are deleted with their session or by retention. *)
Inductive env (s : World) : World -> Prop :=
| env_clock t : clock s <= t -> env s (mkWorld (batches s) (procs s) t (minted s) (born s) (sends s) (accepted s) (cancels s) (freed s) (finished s))
| env_delete id : env s (with_rows s (base.delete id (batches s))).

Definition fresh (now : Z) : World := mkWorld ∅ ∅ now ∅ ∅ [] [] ∅ ∅ ∅.
Definition reachable (now : Z) (c : list (task unit) * World) : Prop := rtc (pool_step run env starts) ([], fresh now) c.
End service.
