(* ===== verification/BulkRun.v ===== *)
(** * Bulk messages: each item once, counted truthfully, one outcome

    The invariant of the programs of [Bulk], by the ownership rule of [Owned]: the
    task that creates a batch owns its id, and with it the right to start the
    batch, to ask the engine for its items and to write its results; everyone else
    may only end it. *)
From stdpp Require Import sets gmap.
From S2P Require Import Prelude Json Prog Owned BulkContent Bulk.
Local Open Scope string_scope.
Local Open Scope Z_scope.

(** ** What is known *)

Abbreviation Log := (list (string * nat)).

(** The entries of a batch in a log, newest first. *)
Definition mine (id : string) (l : Log) : Log := List.filter (fun e => String.eqb (fst e) id) l.
#[local] Arguments mine : simpl never.
Definition count (id : string) (l : Log) : Z := Z.of_nat (length (mine id l)).

(** The items of each batch in a log come in its order, each once. *)
Fixpoint ordered (l : Log) : Prop :=
  match l with [] => True | (id, i) :: r => (forall j, (id, j) ∈ r -> (j < i)%nat) /\ ordered r end.

Definition counts_ok (pr : Progress) : Prop :=
  0 <= sent pr /\ 0 <= failed pr /\ 0 <= pending pr /\ 0 <= cancelled pr /\ sent pr + failed pr + pending pr + cancelled pr = total pr.

Definition results_ok (s : World) (id : string) (rs : list BatchMessageResult) : Prop :=
  forall j r, rs !! j = Some r -> r_status r = MSent -> (id, j) ∈ accepted s.

(** Every accepted item shows in the results. *)
Definition shown (s : World) (id : string) (rs : list BatchMessageResult) : Prop :=
  forall j, (id, j) ∈ accepted s -> exists r, rs !! j = Some r /\ r_status r = MSent.

Definition complete (s : World) (id : string) (pr : Progress) (rs : list BatchMessageResult) : Prop :=
  pending pr = 0 /\ cancelled pr = 0 /\ Z.of_nat (length rs) = total pr /\ sent pr = count id (accepted s) /\ shown s id rs.

(** A row nobody has run. *)
Definition untouched (b : MessageBatch) : Prop :=
  b_startedAt b = None /\ b_results b = [] /\ b_currentIndex b = 0%nat /\ sent (b_progress b) = 0 /\ failed (b_progress b) = 0 /\
  cancelled (b_progress b) = 0.

Record row_ok (s : World) (id : string) (b : MessageBatch) : Prop := mkRowOk {
  ro_counts : counts_ok (b_progress b);
  ro_total : total (b_progress b) = Z.of_nat (length (b_messages b));
  ro_sent : sent (b_progress b) <= count id (accepted s);
  ro_length : Z.of_nat (length (b_results b)) <= total (b_progress b);
  ro_results : results_ok s id (b_results b);
  ro_complete : b_status b = COMPLETED -> complete s id (b_progress b) (b_results b);
  ro_unsent : b_startedAt b = None -> mine id (sends s) = [];
  ro_pending : b_status b = PENDING -> untouched b;
  ro_open : unfinished (b_status b) = true -> cancelled (b_progress b) = 0
}.

(** The batch is over: its row has a terminal status, or is gone. *)
Definition ended (s : World) (id : string) : Prop :=
  id ∈ born s /\ forall b, batches s !! id = Some b -> unfinished (b_status b) = false.
Definition returned (s : World) (id : string) : Prop := id ∈ cancels s \/ ended s id.

(** What no step undoes. *)
Record le (s s' : World) : Prop := mkLe {
  le_minted : minted s ⊆ minted s';
  le_born : born s ⊆ born s';
  le_accepted : forall e, e ∈ accepted s -> e ∈ accepted s';
  le_count : forall id, count id (accepted s) <= count id (accepted s');
  le_cancels : cancels s ⊆ cancels s';
  le_gone : forall id, id ∈ born s -> batches s !! id = None -> batches s' !! id = None;
  le_row : forall id b b', id ∈ born s -> batches s !! id = Some b -> batches s' !! id = Some b' ->
    total (b_progress b') = total (b_progress b) /\ (unfinished (b_status b) = false -> b_status b' = b_status b)
}.
#[export] Instance le_preorder : PreOrder le.
Proof.
  split.
  - intros s. split; [done|done|auto|lia|done|auto|]. intros id b b' _ H1 H2. by simplify_eq.
  - intros s1 s2 s3 [A1 B1 C1 D1 E1 F1 G1] [A2 B2 C2 D2 E2 F2 G2]. split; [by etransitivity|by etransitivity|auto|intros id; specialize (D1 id); specialize (D2 id); lia|by etransitivity|auto|].
    intros id b b' Hb H1 H3. destruct (batches s2 !! id) as [b2|] eqn:H2; [|by rewrite (F2 id (B1 _ Hb) H2) in H3].
    destruct (G1 id b b2 Hb H1 H2) as [T1 S1]. destruct (G2 id b2 b' (B1 _ Hb) H2 H3) as [T2 S2]. split; [congruence|].
    intros Hu. specialize (S1 Hu). rewrite S2; congruence.
Qed.

(** What others may do to a row its owner did not finish. *)
Definition kept_row (b b' : MessageBatch) : Prop :=
  b_startedAt b' = b_startedAt b /\ total (b_progress b') = total (b_progress b) /\ (b_status b' = b_status b \/ b_status b' = CANCELLED \/ b_status b' = FAILED).

Definition running_flag (s : World) (p : nat) (id : string) : Prop := processingBatches (proc s p) !! id = Some true.

(** What the owner of a batch may count on. *)
Record kept_at (id : string) (s s' : World) : Prop := mkKept {
  ra_sends : mine id (sends s') = mine id (sends s);
  ra_accepted : mine id (accepted s') = mine id (accepted s);
  ra_born : id ∈ born s <-> id ∈ born s';
  ra_freed : id ∈ freed s' -> id ∈ freed s;
  ra_row : forall b', batches s' !! id = Some b' -> exists b, batches s !! id = Some b /\ kept_row b b'
}.
Definition rely_at (id : string) (s s' : World) : Prop := kept_at id s s' /\ forall p, running_flag s' p id -> running_flag s p id.
Definition rely (X : gset string) (s s' : World) : Prop := le s s' /\ forall id, id ∈ X -> rely_at id s s'.

#[export] Instance rely_preorder X : PreOrder (rely X).
Proof.
  split.
  - intros s. split; [reflexivity|]. intros id _. split; [|done]. split; try done; auto. intros b' H. exists b'. split; [done|]. split_and!; auto.
  - intros s1 s2 s3 [L1 R1] [L2 R2]. split; [by transitivity s2|]. intros id Hid. destruct (R1 id Hid) as [[A1 B1 C1 D1 E1] F1], (R2 id Hid) as [[A2 B2 C2 D2 E2] F2].
    split; [|auto]. split; [congruence|congruence|tauto|auto|]. intros b3 H3. destruct (E2 b3 H3) as (b2 & H2 & K2 & T2 & S2). destruct (E1 b2 H2) as (b1 & H1 & K1 & T1 & S1).
    exists b1. split; [done|]. split_and!; [congruence|congruence|]. destruct S2 as [-> | S2]; [done|by right].
Qed.

(** ** The invariant *)

Record Inv (s : World) : Prop := mkInv {
  i_born : forall id b, batches s !! id = Some b -> id ∈ born s;
  i_minted : born s ⊆ minted s;
  i_sends : forall id i, (id, i) ∈ sends s -> id ∈ born s;
  i_order : ordered (sends s);
  i_accepted : forall e, e ∈ accepted s -> e ∈ sends s;
  i_rows : forall id b, batches s !! id = Some b -> row_ok s id b;
  i_freed : forall id, id ∈ freed s -> id ∈ born s /\ mine id (sends s) = [];
  i_flags : forall p id, processingBatches (proc s p) !! id = Some false -> returned s id;
  i_finished : forall id, id ∈ finished s -> returned s id
}.

(** ** What an effect needs *)

Definition msgs_fit (s : World) (id : string) (msgs : list Item) : Prop :=
  forall b, batches s !! id = Some b -> total (b_progress b) = Z.of_nat (length msgs).

(** Counts and results a run may write. *)
Definition data (s : World) (id : string) (pr : Progress) (rs : list BatchMessageResult) : Prop :=
  counts_ok pr /\ sent pr <= count id (accepted s) /\ Z.of_nat (length rs) <= total pr /\ results_ok s id rs /\
  forall b, batches s !! id = Some b -> total (b_progress b) = total pr.

Definition not_completed (s : World) (id : string) : Prop := forall b, batches s !! id = Some b -> b_status b <> COMPLETED.

Definition stmt_pre (X : gset string) (id : string) (st : Stmt) (s : World) : Prop :=
  match st with
  | Start _ => id ∈ X
  | Fail _ msgs runState =>
      match msgs with Some msgs => msgs_fit s id msgs | None => True end /\
      match runState with Some (pr, rs, _) => id ∈ X /\ data s id pr rs | None => True end
  | FailNoEngine _ msgs => id ∈ X /\ msgs_fit s id msgs /\ not_completed s id
  | SaveProgress pr rs _ => id ∈ X /\ data s id pr rs /\ cancelled pr = 0
  | KeepResults st pr rs _ => id ∈ X /\ data s id pr rs /\ (st = FAILED \/ st = CANCELLED)
  | Finish st _ pr rs _ msgs =>
      id ∈ X /\ data s id pr rs /\ msgs_fit s id msgs /\ (st = FAILED \/ st = COMPLETED /\ complete s id pr rs)
  | FinishCancelled _ pr rs _ msgs => id ∈ X /\ data s id pr rs /\ msgs_fit s id msgs
  | Cancel _ pr msgs => msgs_fit s id msgs /\ counts_ok pr /\ sent pr <= count id (accepted s) /\
      forall b, batches s !! id = Some b -> total (b_progress b) = total pr
  end.

(** A block on a process's memory may stop a batch that returned or ended, and
    mark only its own as running. *)
Definition local_pre {B : Type} (X : gset string) (f : Proc -> B * Proc) (s : World) : Prop :=
  forall st id,
    (processingBatches (snd (f st)) !! id = Some false -> processingBatches st !! id = Some false \/ returned s id) /\
    (processingBatches (snd (f st)) !! id = Some true -> processingBatches st !! id = Some true \/ id ∈ X).

Definition started (s : World) (id : string) : Prop :=
  id ∈ born s /\ id ∉ freed s /\ forall b, batches s !! id = Some b -> b_startedAt b <> None /\ b_status b <> COMPLETED /\ b_status b <> PENDING.

Definition pre (X : gset string) (B : Type) (e : eff B) (s : World) : Prop :=
  match e with
  | Local _ f => local_pre X f s
  | Update id st => stmt_pre X id st s
  | InsertRow id b => id ∈ X /\ id ∉ born s /\ exists batchId sid msgs options, b = new_batch batchId sid msgs options
  | DeleteUnsent id => id ∈ X
  | Send id i _ => id ∈ X /\ started s id /\ forall j, (id, j) ∈ sends s -> (j < i)%nat
  | RunReturned id => returned s id
  | _ => True
  end.

Definition gain (B : Type) (e : eff B) : B -> gset string := match e with MintId => fun id => {[id]} | _ => fun _ => ∅ end.

(** ** Every effect keeps the invariant *)

Lemma returned_le s s' id : le s s' -> returned s id -> returned s' id.
Proof.
  intros L [Hc|[Hb He]]; [left; by apply (le_cancels _ _ L)|]. right. split; [by apply (le_born _ _ L)|]. intros b' Hb'.
  destruct (batches s !! id) as [b|] eqn:E; [|by rewrite (le_gone _ _ L id Hb E) in Hb'].
  destruct (le_row _ _ L id b b' Hb E Hb') as [_ Hs]. rewrite Hs; by apply He.
Qed.

Lemma count_eq id l l' : mine id l' = mine id l -> count id l' = count id l.
Proof. unfold count. by intros ->. Qed.

Lemma elem_of_mine id l i : (id, i) ∈ mine id l <-> (id, i) ∈ l.
Proof.
  unfold mine. rewrite !list_elem_of_In, filter_In. cbn [fst].
  split; [by intros []|]. intros H. split; [done|]. by destruct (String.eqb_spec id id).
Qed.

Lemma log_eq id l l' : mine id l' = mine id l -> forall i, (id, i) ∈ l' <-> (id, i) ∈ l.
Proof. intros E i. by rewrite <- elem_of_mine, E, elem_of_mine. Qed.

(** A change beside the rows and the logs. *)
Lemma beside s s' :
  batches s' = batches s -> sends s' = sends s -> accepted s' = accepted s -> born s' = born s -> freed s' = freed s ->
  minted s ⊆ minted s' -> cancels s ⊆ cancels s' ->
  le s s' /\ forall id, (forall p, running_flag s' p id -> running_flag s p id) -> rely_at id s s'.
Proof.
  intros Hb Hs Ha Hbo Hf Hm Hc. split.
  - split; rewrite ?Hbo, ?Ha; try done; rewrite ?Hb; [done|]. intros id b b' _ H1 H2. by simplify_eq.
  - intros id Hfl. split; [|done]. split; rewrite ?Hbo, ?Hf, ?Hs, ?Ha, ?Hb; try done. intros b' H. exists b'. split; [done|]. split_and!; auto.
Qed.

Lemma row_ok_eq s s' id b : sends s' = sends s -> accepted s' = accepted s -> row_ok s id b -> row_ok s' id b.
Proof. intros Hs Ha []. split; unfold results_ok, complete, shown in *; rewrite ?Ha, ?Hs; done. Qed.

Lemma beside_inv s s' :
  Inv s -> le s s' -> batches s' = batches s -> sends s' = sends s -> accepted s' = accepted s -> born s' = born s -> freed s' = freed s ->
  (forall p id, processingBatches (proc s' p) !! id = Some false -> returned s' id) ->
  (forall id, id ∈ finished s' -> returned s' id) -> Inv s'.
Proof.
  intros [] L Hb Hs Ha Hbo Hf Hfl Hfi. split; rewrite ?Hb, ?Hs, ?Ha, ?Hbo, ?Hf; try done.
  - etransitivity; [done|apply L].
  - intros id b Hrow. by apply (row_ok_eq s), i_rows0.
Qed.

Lemma set_row X s id b b' :
  Inv s -> batches s !! id = Some b -> total (b_progress b') = total (b_progress b) -> row_ok s id b' ->
  (unfinished (b_status b) = false -> b_status b' = b_status b) -> (id ∉ X -> kept_row b b') ->
  let s' := with_rows s (<[id := b']> (batches s)) in Inv s' /\ le s s' /\ forall Y, Y ## X -> rely Y s s'.
Proof.
  intros HI Hb Ht Hok Hst Hk s'.
  assert (le s s') as L.
  { split; [done|done|auto|cbn; lia|done| |].
    - intros id' Hbo Hn. cbn. destruct (decide (id' = id)) as [->|Hne]; [congruence|by rewrite lookup_insert_ne].
    - intros id' c c' _ H1 H2. cbn in H2. destruct (decide (id' = id)) as [->|Hne].
      + rewrite lookup_insert_eq in H2. by simplify_eq.
      + rewrite lookup_insert_ne in H2 by done. by simplify_eq. }
  split_and!; [|done|].
  - pose proof HI as []. split; try done.
    + intros id' c H. cbn in H. destruct (decide (id' = id)) as [->|Hne]; [exact (i_born0 id b Hb)|]. rewrite lookup_insert_ne in H by done. exact (i_born0 id' c H).
    + intros id' c H. cbn in H. destruct (decide (id' = id)) as [->|Hne]; [rewrite lookup_insert_eq in H; injection H as <-; by apply (row_ok_eq s)|].
      rewrite lookup_insert_ne in H by done. by apply (row_ok_eq s), i_rows0.
    + intros p id' H. by apply (returned_le s), (i_flags0 p).
    + intros id' H. by apply (returned_le s), i_finished0.
  - intros Y HY. split; [done|]. intros id' Hid'. split; [|done]. split; try done. cbn. intros c H. destruct (decide (id' = id)) as [->|Hne].
    + rewrite lookup_insert_eq in H. simplify_eq. exists b. split; [done|]. apply Hk. set_solver.
    + rewrite lookup_insert_ne in H by done. exists c. split; [done|]. split_and!; auto.
Qed.

Lemma applied_row_ok X s id st b :
  row_ok s id b -> batches s !! id = Some b -> stmt_pre X id st s -> hits st b = true ->
  row_ok s id (applied st b) /\ total (b_progress (applied st b)) = total (b_progress b) /\
  (unfinished (b_status b) = false -> b_status (applied st b) = b_status b) /\ (id ∉ X -> kept_row b (applied st b)).
Proof.
  intros [R1 R2 R3 R4 R5 R6 R7 R8 R9] Hb Hp Hh. destruct st as [now|now msgs run|now msgs|pr rs ix|st pr rs ix|st now pr rs ix msgs|now pr rs ix msgs|now pr msgs]; cbn [stmt_pre hits applied] in *; bool_facts.
  - rewrite Hh in *. split_and!; [split; try done; by intros; apply R9|done|done|]. intros Hx. by destruct Hx.
  - destruct Hp as [Hm Hr]. assert (forall c, b_progress c = b_progress b -> b_results c = b_results b -> b_startedAt c = b_startedAt b ->
      b_status c = FAILED -> length (b_messages c) = length (b_messages b) ->
      row_ok s id c) as Hkeep.
    { intros c E1 E2 E3 E4 E5. split; rewrite ?E1, ?E2, ?E3, ?E4, ?E5; done. }
    assert (match msgs with Some m => length m = length (b_messages b) | None => True end) as Hl.
    { destruct msgs as [m|]; [|done]. specialize (Hm b Hb). lia. }
    destruct run as [[[pr rs] ix]|].
    + destruct Hr as [HX (D1 & D2 & D3 & D4 & D5)]. specialize (D5 b Hb). split_and!.
      * destruct msgs; split; cbn; try done; lia.
      * by destruct msgs.
      * intros Hu. congruence.
      * done.
    + split_and!; [destruct msgs; by apply Hkeep|by destruct msgs|intros Hu; congruence|].
      intros _. split_and!; [by destruct msgs|by destruct msgs|]. right; right. by destruct msgs.
  - destruct Hp as (HX & Hm & Hc). specialize (Hm b Hb). specialize (Hc b Hb). split_and!; [split; cbn; try done; lia|done| |done].
    cbn. destruct (b_status b); done.
  - destruct Hp as (HX & (D1 & D2 & D3 & D4 & D5) & Hc). specialize (D5 b Hb). split_and!; [split; cbn; try done; try lia; congruence|done|done|done].
  - destruct Hp as (HX & (D1 & D2 & D3 & D4 & D5) & Hc). specialize (D5 b Hb). rewrite <- Hh in Hc.
    split_and!; [split; cbn; try done; try lia; destruct Hc as [Hc|Hc]; rewrite Hc; done|done|done|done].
  - destruct Hp as (HX & (D1 & D2 & D3 & D4 & D5) & Hm & Hc). specialize (D5 b Hb). specialize (Hm b Hb). split_and!; [split; cbn; try done; try lia|done| |done].
    + destruct Hc as [->|[_ Hc]]; [done|]. by intros _.
    + by destruct Hc as [->|[-> _]].
    + by destruct Hc as [->|[-> _]].
    + by rewrite Hh.
  - destruct Hp as (HX & (D1 & D2 & D3 & D4 & D5) & Hm). specialize (D5 b Hb). specialize (Hm b Hb). split_and!; [split; cbn; try done; try lia|done| |done].
    apply orb_true_iff in Hh as [Hh|Hh]; bool_facts; by rewrite Hh.
  - destruct Hp as (Hm & D1 & D2 & D5). specialize (D5 b Hb). specialize (Hm b Hb). split_and!; [split; cbn; try done; lia|done|intros Hu; congruence|].
    intros _. split_and!; [done|done|]. right; by left.
Qed.

Lemma batch_update_ok X s id st :
  Inv s -> stmt_pre X id st s ->
  let s' := update_row id st s in Inv s' /\ le s s' /\ forall Y, Y ## X -> rely Y s s'.
Proof.
  intros HI Hp. unfold update_row. assert (Inv s /\ le s s /\ forall Y, Y ## X -> rely Y s s) as Hsame by (split_and!; [done|reflexivity|reflexivity]).
  destruct (batches s !! id) as [b|] eqn:Hb; [|exact Hsame]. destruct (hits st b) eqn:Hh; [|exact Hsame].
  destruct (applied_row_ok X s id st b (i_rows _ HI _ _ Hb) Hb Hp Hh) as (H1 & H2 & H3 & H4). by apply (set_row X s id b).
Qed.

Lemma mine_nil id l : (forall i, (id, i) ∉ l) -> mine id l = [].
Proof.
  intros H. destruct (mine id l) as [|[k i] r] eqn:E; [done|]. assert ((k, i) ∈ mine id l) as Hin by (rewrite E; by left).
  assert (k = id) as ->. { unfold mine in Hin. apply list_elem_of_In, filter_In in Hin as [_ Hk]. cbn in Hk. by destruct (String.eqb_spec k id). }
  by apply elem_of_mine, H in Hin.
Qed.

Lemma no_sends s id : Inv s -> id ∉ born s -> mine id (sends s) = [] /\ mine id (accepted s) = [].
Proof.
  intros HI Hb. split; apply mine_nil; intros i Hi; apply Hb, (i_sends _ HI id i); [done|]. by apply (i_accepted _ HI).
Qed.

Lemma batch_insert_ok X s id batchId sid msgs options :
  Inv s -> id ∈ minted s -> id ∈ X -> id ∉ born s ->
  let s' := insert_row id (new_batch batchId sid msgs options) s in Inv s' /\ le s s' /\ forall Y, Y ## X -> rely Y s s'.
Proof.
  intros HI Hm HX Hb s'. destruct (no_sends s id HI Hb) as [Hs Ha].
  assert (batches s !! id = None) as Hn.
  { destruct (batches s !! id) eqn:E; [|done]. by apply (i_born _ HI) in E. }
  assert (le s s') as L.
  { split; cbn; [done|set_solver|auto|lia|done| |].
    - intros id' Hbo Hno. rewrite lookup_insert_ne by congruence. done.
    - intros id' c c' Hbo H1 H2. rewrite lookup_insert_ne in H2 by congruence. by simplify_eq. }
  split_and!; [|done|].
  - pose proof HI as []. split; cbn; try done.
    + intros id' c H. destruct (decide (id' = id)) as [->|Hne]; [set_solver|]. rewrite lookup_insert_ne in H by done. apply elem_of_union_r. exact (i_born0 id' c H).
    + set_solver.
    + intros id' i H. apply elem_of_union_r. by eapply i_sends0.
    + intros id' c H. destruct (decide (id' = id)) as [->|Hne]; [|rewrite lookup_insert_ne in H by done; by apply (row_ok_eq s), i_rows0].
      rewrite lookup_insert_eq in H. injection H as <-. unfold new_batch. split; cbn; unfold count; try done; try lia.
      unfold counts_ok. cbn. lia.
    + intros id' H. destruct (i_freed0 id' H). split; [set_solver|done].
    + intros p id' H. by apply (returned_le s), (i_flags0 p).
    + intros id' H. by apply (returned_le s), i_finished0.
  - intros Y HY. split; [done|]. intros id' Hid'. assert (id' <> id) by set_solver. split; [|done]. split; cbn; try done; [set_solver|].
    intros c Hc. rewrite lookup_insert_ne in Hc by done. exists c. split; [done|]. split_and!; auto.
Qed.

Lemma batch_drop_ok s s' id :
  Inv s -> batches s' = base.delete id (batches s) -> procs s' = procs s -> minted s' = minted s -> born s' = born s -> sends s' = sends s ->
  accepted s' = accepted s -> cancels s' = cancels s -> finished s' = finished s ->
  (freed s' = freed s \/ (freed s' = {[id]} ∪ freed s /\ id ∈ born s /\ mine id (sends s) = [])) ->
  Inv s' /\ le s s' /\ forall Y, (freed s' = freed s \/ id ∉ Y) -> rely Y s s'.
Proof.
  intros HI Eb Ep Em Ebo Es Ea Ec Ef Hf.
  assert (le s s') as L.
  { split; rewrite ?Em, ?Ebo, ?Ea, ?Ec; [done|done|auto|lia|done| |]; rewrite Eb.
    - intros id' _ Hn. rewrite lookup_delete_None. by right.
    - intros id' c c' _ H1 [_ H2]%lookup_delete_Some. by simplify_eq. }
  split_and!; [|done|].
  - pose proof HI as []. split; rewrite ?Em, ?Ebo, ?Es, ?Ea, ?Ef; try done; rewrite ?Eb.
    + intros id' c [_ H]%lookup_delete_Some. exact (i_born0 id' c H).
    + intros id' c [_ H]%lookup_delete_Some. by apply (row_ok_eq s), i_rows0.
    + intros id' H. destruct Hf as [E|(E & Hb & Hm)]; rewrite E in H; [by apply i_freed0|].
      apply elem_of_union in H as [->%elem_of_singleton|H]; [done|by apply i_freed0].
    + unfold proc. rewrite Ep. intros p id' H. by apply (returned_le s), (i_flags0 p).
    + intros id' H. by apply (returned_le s), i_finished0.
  - intros Y HY. split; [done|]. intros id' Hid'. split; [|intros p; unfold running_flag, proc; by rewrite Ep]. split; rewrite ?Es, ?Ea, ?Ebo; try done.
    + destruct Hf as [E|(E & _)]; rewrite E; [done|]. destruct HY as [E2|HY]; [congruence|]. set_solver.
    + rewrite Eb. intros c [_ H]%lookup_delete_Some. exists c. split; [done|]. split_and!; auto.
Qed.

Lemma mine_cons id k i l : mine id ((k, i) :: l) = if String.eqb k id then (k, i) :: mine id l else mine id l.
Proof. reflexivity. Qed.

Lemma batch_send_ok X s id i ok :
  Inv s -> id ∈ X -> started s id -> (forall j, (id, j) ∈ sends s -> (j < i)%nat) ->
  let s' := log_send id i ok s in Inv s' /\ le s s' /\ forall Y, Y ## X -> rely Y s s'.
Proof.
  intros HI HX (Hbo & Hfr & Hrow) Hi s'.
  assert (forall id', count id' (accepted s) <= count id' (accepted s')) as Hcnt.
  { intros id'. unfold count. destruct ok; cbn [s' log_send accepted]; [|lia]. rewrite mine_cons. destruct (String.eqb id id'); cbn [length]; lia. }
  assert (forall e, e ∈ accepted s -> e ∈ accepted s') as Hacc by (intros e He; destruct ok; cbn; [by right|done]).
  assert (le s s') as L.
  { split; [done|done|done|done|done|auto|]. intros id' c c' _ H1 H2. cbn in H2. by simplify_eq. }
  assert (forall id', id' <> id -> mine id' (sends s') = mine id' (sends s) /\ mine id' (accepted s') = mine id' (accepted s)) as Hother.
  { intros id' Hne. cbn. rewrite mine_cons. destruct (String.eqb_spec id id'); [congruence|]. split; [done|]. destruct ok; [|done].
    rewrite mine_cons. by destruct (String.eqb_spec id id'); [congruence|]. }
  split_and!; [|done|].
  - pose proof HI as []. split; try done.
    + intros id' j H. cbn in H. apply elem_of_cons in H as [[= -> ->]|H]; [done|]. by eapply i_sends0.
    + intros e He. cbn. destruct ok; cbn in He; [apply elem_of_cons in He as [->|He]; [by left|]|]; right; by apply i_accepted0.
    + intros id' c Hc. cbn in Hc. destruct (i_rows0 id' c Hc) as [R1 R2 R3 R4 R5 R6 R7 R8 R9]. destruct (decide (id' = id)) as [->|Hne].
      * destruct (Hrow c Hc) as (Hst & Hnc & _). split; try done; [by etransitivity|].
        intros j r Hj Hs. by apply Hacc, (R5 j r).
      * destruct (Hother id' Hne) as [O1 O2]. split; try done; [by etransitivity| | |by rewrite O1].
        -- intros j r Hj Hs. by apply Hacc, (R5 j r).
        -- intros Hcomp. destruct (R6 Hcomp) as (C1 & C2 & C3 & C4 & C5). split_and!; try done; [by rewrite (count_eq _ _ _ O2)|].
           intros j Hj. apply C5. by apply (log_eq _ _ _ O2).
    + intros id' H. destruct (i_freed0 id' H) as [F1 F2]. split; [done|]. destruct (decide (id' = id)) as [->|Hne]; [done|]. by rewrite (proj1 (Hother id' Hne)).
  - intros Y HY. split; [done|]. intros id' Hid'. assert (id' <> id) as Hne by set_solver. destruct (Hother id' Hne).
    split; [|done]. split; try done. cbn. intros c H'. exists c. split; [done|]. split_and!; auto.
Qed.

Lemma memory_with s p st q : proc (with_proc s p st) q = if decide (q = p) then st else proc s q.
Proof. unfold proc, with_proc. cbn. destruct (decide (q = p)) as [->|Hne]; [by rewrite lookup_insert_eq|by rewrite lookup_insert_ne]. Qed.

Lemma batch_local_ok X B p (f : Proc -> B * Proc) s :
  Inv s -> local_pre X f s ->
  let s' := with_proc s p (snd (f (proc s p))) in Inv s' /\ le s s' /\ forall Y, Y ## X -> rely Y s s'.
Proof.
  intros HI Hp s'. destruct (beside s s') as [L Hr]; try done. split_and!; [|done|].
  - apply (beside_inv s); try done; [|intros id Hid; apply (returned_le s); [done|by apply (i_finished _ HI)]].
    intros q id. unfold s'. rewrite memory_with. destruct (decide (q = p)) as [->|]; intros H; apply (returned_le s); try done.
    + destruct (proj1 (Hp (proc s p) id) H) as [H'|H']; [|done]. by apply (i_flags _ HI p).
    + by apply (i_flags _ HI q).
  - intros Y HY. split; [done|]. intros id Hid. apply Hr. intros q. unfold running_flag, s'. rewrite memory_with.
    destruct (decide (q = p)) as [->|]; [|done]. intros H. destruct (proj2 (Hp (proc s p) id) H) as [|HX]; [done|]. set_solver.
Qed.

Lemma batch_signal_ok p id s : Inv s -> Inv (signal p id s) /\ le s (signal p id s) /\ forall Y, rely Y s (signal p id s).
Proof.
  intros HI. set (s' := signal p id s). destruct (beside s s') as [L Hr]; try done; [cbn; set_solver|]. 
  assert (forall q id', processingBatches (proc s' q) !! id' = processingBatches (proc s q) !! id' \/
    (id' = id /\ processingBatches (proc s' q) !! id' = Some false)) as Hfl.
  { intros q id'. unfold proc at 1 3, s', signal. cbn. destruct (decide (q = p)) as [->|]; [rewrite lookup_insert_eq|rewrite lookup_insert_ne by done; by left].
    cbn. destruct (processingBatches (proc s p) !! id) eqn:E; [|by left]. destruct (decide (id' = id)) as [->|]; [rewrite lookup_insert_eq; by right|].
    rewrite lookup_insert_ne by done. by left. }
  split_and!; [|done|].
  - apply (beside_inv s); try done; [|intros id' Hid; apply (returned_le s); [done|by apply (i_finished _ HI)]].
    intros q id' H. destruct (Hfl q id') as [E|[-> _]]; [rewrite E in H; apply (returned_le s); [done|by apply (i_flags _ HI q)]|].
    left. cbn. set_solver.
  - intros Y. split; [done|]. intros id' _. apply Hr. intros q. unfold running_flag. by destruct (Hfl q id') as [->|[_ ->]].
Qed.

Lemma bulk_run_ok X B (e : eff B) s b s' :
  Inv s -> X ⊆ minted s -> pre X B e s -> run B e s b s' ->
  Inv s' /\ le s s' /\ minted s ⊆ minted s' /\ gain B e b ⊆ minted s' ∖ minted s /\ forall Y, Y ## X -> Y ⊆ minted s -> rely Y s s'.
Proof.
  intros HI HXm Hp Hrun.
  assert (forall t, (Inv t /\ le s t /\ forall Y, Y ## X -> rely Y s t) -> s' = t -> gain B e b = ∅ ->
    Inv s' /\ le s s' /\ minted s ⊆ minted s' /\ gain B e b ⊆ minted s' ∖ minted s /\ forall Y, Y ## X -> Y ⊆ minted s -> rely Y s s') as Hok.
  { intros t (H1 & H2 & H3) -> ->. split_and!; [done|done|apply H2|set_solver|auto]. }
  assert (Inv s /\ le s s /\ forall Y, Y ## X -> rely Y s s) as Hsame by (split_and!; [done|reflexivity|reflexivity]).
  destruct e; cbn [pre run] in *; try (by apply (Hok s)).
  - by destruct Hrun as [_ ->]; apply (Hok s).
  - destruct Hrun as [_ ->]. by apply (Hok _ (batch_local_ok X _ p f s HI Hp)).
  - destruct (batch_signal_ok p id s HI) as (S1 & S2 & S3). by apply (Hok (signal p id s)); [split_and!; auto| |].
  - by destruct Hrun as [-> _]; apply (Hok s).
  - by destruct Hrun as [-> _]; apply (Hok s).
  - by destruct Hrun as [-> _]; apply (Hok s).
  - by destruct Hrun as [-> _]; apply (Hok s).
  - destruct Hrun as [[_ ->]|[_ ->]]; [by apply (Hok s)|]. by apply (Hok _ (batch_update_ok X s id st HI Hp)).
  - destruct Hp as (HX & Hb & batchId & sid & msgs & options & ->). destruct Hrun as [[_ ->]|Hrun]; [by apply (Hok s)|].
    destruct (taken _ _ _); destruct Hrun as [_ ->]; [by apply (Hok s)|]. apply (Hok _ (batch_insert_ok X s id batchId sid msgs options HI ltac:(set_solver) HX Hb)); done.
  - destruct Hrun as [[_ ->]|[_ ->]]; [by apply (Hok s)|]. eapply Hok; [|reflexivity|reflexivity]. unfold delete_unsent. destruct (unsent s id) eqn:Hu; [|exact Hsame].
    unfold unsent in Hu. destruct (batches s !! id) as [b0|] eqn:Hb; [|done]. bool_facts.
    destruct (batch_drop_ok s (mkWorld (base.delete id (batches s)) (procs s) (clock s) (minted s) (born s) (sends s) (accepted s) (cancels s) ({[id]} ∪ freed s) (finished s)) id)
      as (D1 & D2 & D3); try done.
    { right. split_and!; [done|exact (i_born _ HI id b0 Hb)|]. by apply (ro_unsent _ _ _ (i_rows _ HI id b0 Hb)). }
    split_and!; [done|done|]. intros Y HY. apply D3. right. set_solver.
  - destruct Hrun as [Hf ->]. match goal with |- Inv ?t /\ _ => destruct (beside s t) as [L Hr]; try done; [cbn; set_solver|] end.
    split_and!; [|done|cbn; set_solver|cbn; set_solver|].
    + apply (beside_inv s); try done; intros; apply (returned_le s); try done; [by eapply (i_flags _ HI)|by apply (i_finished _ HI)].
    + intros Y _ _. split; [done|]. intros id _. by apply Hr.
  - destruct Hp as (HX & Hst & Hi). eapply Hok; [exact (batch_send_ok X s id i (match b with Ok _ => true | Err _ => false end) HI HX Hst Hi)|done|done].
  - subst s'. match goal with |- Inv ?t /\ _ => destruct (beside s t) as [L Hr]; try done end.
    eapply Hok; [|reflexivity|reflexivity]. split_and!; [|done|].
    + apply (beside_inv s); try done; [intros; apply (returned_le s); try done; by eapply (i_flags _ HI)|].
      cbn. intros id' [->%elem_of_singleton|H]%elem_of_union; apply (returned_le s); try done. by apply (i_finished _ HI).
    + intros Y _. split; [done|]. intros id' _. by apply Hr.
Qed.

Lemma bulk_env_ok s s' : Inv s -> env s s' -> Inv s' /\ le s s' /\ minted s ⊆ minted s' /\ forall Y, Y ⊆ minted s -> rely Y s s'.
Proof.
  intros HI Henv. destruct Henv as [t Ht|id].
  - match goal with |- Inv ?t /\ _ => destruct (beside s t) as [L Hr]; try done end. split_and!; [|done|done|].
    + apply (beside_inv s); try done; intros; apply (returned_le s); try done; [by eapply (i_flags _ HI)|by apply (i_finished _ HI)].
    + intros Y _. split; [done|]. intros id _. by apply Hr.
  - destruct (batch_drop_ok s (with_rows s (base.delete id (batches s))) id HI) as (D1 & D2 & D3); try done; [by left|].
    split_and!; [done|done|done|]. intros Y _. apply D3. by left.
Qed.
