(* ===== verification/BulkSafe.v ===== *)
(** * Bulk messages: the programs meet the invariant

    Each program of [Bulk] performs only effects whose precondition ([BulkRun.pre])
    it has established, and a run that returns has ended its batch.  The theorems
    then hold of every interleaving: no item is sent twice, an outcome is final,
    the counts are truthful. *)
From stdpp Require Import sets gmap.
From S2P Require Import Prelude Json Prog Owned BulkContent Bulk BulkRun.
Local Open Scope string_scope.
Local Open Scope Z_scope.

(** ** The rule, for programs that draw no id *)

Definition does {A : Type} (X : gset string) (p : task A) (Q : A -> World -> Prop) (s : World) : Prop :=
  holds run gain rely pre Inv X p (fun Y a s => Y = X /\ Q a s) s.

(** Knowledge the owner of [X] keeps. *)
Class Stable (X : gset string) (K : World -> Prop) : Prop := stable : forall s s', K s -> rely X s s' -> K s'.

Section rules.
Context {A : Type} (X : gset string) (Q : A -> World -> Prop).

Lemma does_bind {B : Type} (p : task B) (f : B -> task A) s :
  does X p (fun a s1 => does X (f a) Q s1) s -> does X (pbind p f) Q s.
Proof. intros H. apply holds_bind; [exact _|]. refine (holds_conseq run gain rely pre Inv X p _ _ s H _). by intros Y a s1 _ [-> Ha]. Qed.

Lemma does_ret (K : World -> Prop) `{!Stable X K} a s : K s -> (forall s1, K s1 -> Q a s1) -> does X (Ret a) Q s.
Proof. intros HK HQ s1 R. split; [done|]. apply HQ. exact (stable s s1 HK R). Qed.

Lemma does_do {B : Type} (K : World -> Prop) `{!Stable X K} (e : eff B) (k : B -> task A) s :
  K s -> (forall b, gain B e b = ∅) ->
  (forall s1, K s1 -> Inv s1 -> pre X B e s1 /\ forall b s2, run B e s1 b s2 -> Inv s2 -> does X (k b) Q s2) ->
  does X (Do e k) Q s.
Proof.
  intros HK Hg H s1 R HI. destruct (H s1 (stable s s1 HK R) HI) as [Hp Hk]. split; [done|]. intros b s2 Hrun HI2.
  rewrite Hg, union_empty_r_L. by apply Hk.
Qed.

(** Effects that leave the state alone. *)
Definition quiet {B : Type} (e : eff B) : Prop :=
  (forall s, pre X B e s) /\ (forall b, gain B e b = ∅) /\ forall s b s', run B e s b s' -> s' = s.

Lemma does_quiet {B : Type} (K : World -> Prop) `{!Stable X K} (e : eff B) (k : B -> task A) s :
  K s -> quiet e -> (forall b s1, K s1 -> Inv s1 -> does X (k b) Q s1) -> does X (Do e k) Q s.
Proof.
  intros HK (Hp & Hg & Hq) H. apply (does_do K); [done|done|]. intros s1 HK1 HI. split; [done|].
  intros b s2 Hrun HI2. rewrite (Hq _ _ _ Hrun). by apply H.
Qed.

(** A read, and what it shows. *)
Lemma does_read {B : Type} (K : World -> Prop) `{!Stable X K} (e : eff (result unit B)) (k : result unit B -> task A) (v : World -> B -> Prop) s :
  K s -> quiet e -> (forall s b s', run _ e s b s' -> match b with Ok x => v s x | Err _ => True end) ->
  (forall r s1, K s1 -> Inv s1 -> match r with Ok x => v s1 x | Err _ => True end -> does X (k r) Q s1) -> does X (Do e k) Q s.
Proof.
  intros HK (Hp & Hg & Hq) Hv H. apply (does_do K); [done|done|]. intros s1 HK1 HI. split; [done|].
  intros b s2 Hrun HI2. rewrite (Hq _ _ _ Hrun). apply H; [done|done|exact (Hv _ _ _ Hrun)].
Qed.

(** An UPDATE: it failed, with or without effect, or it says whether it hit. *)
Lemma does_update (K : World -> Prop) `{!Stable X K} id st (k : result unit bool -> task A) s :
  K s -> (forall s1, K s1 -> Inv s1 -> stmt_pre X id st s1) ->
  (forall r s1 s2, K s1 -> Inv s1 -> Inv s2 -> le s1 s2 -> (s2 = s1 \/ s2 = update_row id st s1) ->
     match r with Ok hit => hit = row_hit id st s1 /\ s2 = update_row id st s1 | Err _ => True end -> does X (k r) Q s2) ->
  does X (Do (Update id st) k) Q s.
Proof.
  intros HK Hp H. apply (does_do K); [done|done|]. intros s1 HK1 HI. split; [by apply Hp|].
  intros b s2 Hrun HI2. destruct (batch_update_ok X s1 id st HI (Hp s1 HK1 HI)) as (_ & L & _).
  destruct Hrun as [[-> ->]|[[->| ->] ->]]; eapply H; eauto. reflexivity.
Qed.

(** A block on the memory that stops and marks no batch. *)
Lemma does_look {B : Type} (K : World -> Prop) `{!Stable X K} p (f : Proc -> B * Proc) (k : B -> task A) s :
  K s -> (forall s, local_pre ∅ f s) ->
  (forall s1 s2, K s1 -> K s2 -> Inv s1 -> Inv s2 -> s2 = with_proc s1 p (snd (f (proc s1 p))) -> does X (k (fst (f (proc s1 p)))) Q s2) ->
  does X (Do (Local p f) k) Q s.
Proof.
  intros HK Hp H. apply (does_do K); [done|done|]. intros s1 HK1 HI. split.
  - intros st i. destruct (Hp s1 st i) as [H1 H2]. split; [done|]. intros Ht. destruct (H2 Ht) as [|He]; [by left|set_solver].
  - intros b s2 [-> ->] HI2. destruct (batch_local_ok ∅ B p f s1 HI (Hp s1)) as (_ & _ & R). apply (H s1); try done.
    eapply stable; [exact HK1|]. apply R. set_solver.
Qed.

Lemma does_flag (K : World -> Prop) `{!Stable X K} p id (k : option bool -> task A) s :
  K s -> (forall m s1, K s1 -> Inv s1 -> processingBatches (proc s1 p) !! id = m -> does X (k m) Q s1) -> does X (pbind (flag p id) k) Q s.
Proof.
  intros HK H. unfold flag. cbn [pbind act]. apply (does_look K); [done|by intros s1 st i; cbn; auto|].
  intros s1 s2 _ HK2 _ HI2 E. apply H; [done|done|]. rewrite E, memory_with. by destruct (decide (p = p)).
Qed.
End rules.

Ltac is_quiet := let H := fresh in split_and!; [done|done|by intros ? ? ? H; cbn in H; try destruct H].

Lemma does_conseq {A : Type} X (p : task A) (Q Q' : A -> World -> Prop) s :
  does X p Q s -> (forall a s1, Q a s1 -> Q' a s1) -> does X p Q' s.
Proof. intros H HQ. refine (holds_conseq run gain rely pre Inv X p _ _ s H _). intros Y a s1 _ [-> Ha]. split; [done|by apply HQ]. Qed.

#[local] Opaque does.

(** ** Knowledge that is kept *)

(** A fact about the total of a batch's row. *)
Definition fits (s : World) (id : string) (n : Z) : Prop := forall b, batches s !! id = Some b -> total (b_progress b) = n.

(** The run of a batch after its first [n] items: what its memory counts and shows
    is what the engine answered. *)
Record runs (s : World) (id : string) (pr : Progress) (rs : list BatchMessageResult) (n : nat) : Prop := mkRuns {
  rn_started : started s id;
  rn_data : data s id pr rs;
  rn_open : cancelled pr = 0;
  rn_pending : pending pr = total pr - Z.of_nat n;
  rn_sent : sent pr = count id (accepted s);
  rn_length : length rs = n;
  rn_shown : shown s id rs;
  rn_below : forall j, (id, j) ∈ sends s -> (j < n)%nat
}.

(** A batch its owner inserted and has not started. *)
Definition inserted (s : World) (id : string) : Prop :=
  id ∈ born s /\ id ∉ freed s /\ forall b, batches s !! id = Some b -> b_status b <> PROCESSING.

(** What it read of it. *)
Definition picked (s : World) (id : string) (b : MessageBatch) : Prop :=
  inserted s id /\ data s id (b_progress b) (b_results b) /\ total (b_progress b) = Z.of_nat (length (b_messages b)) /\
  forall b', batches s !! id = Some b' -> b_status b' = PENDING -> untouched b /\ mine id (sends s) = [].

#[export] Instance stable_pure X (P : Prop) : Stable X (fun _ => P).
Proof. by intros s s'. Qed.
#[export] Instance stable_and X (K K' : World -> Prop) : Stable X K -> Stable X K' -> Stable X (fun s => K s /\ K' s).
Proof. intros S1 S2 s s' [] R. split; by eapply stable. Qed.
#[export] Instance stable_forall X {A : Type} (K : A -> World -> Prop) : (forall a, Stable X (K a)) -> Stable X (fun s => forall a, K a s).
Proof. intros S s s' H R a. by eapply stable. Qed.
#[export] Instance stable_imp X (P : Prop) (K : World -> Prop) : Stable X K -> Stable X (fun s => P -> K s).
Proof. intros S s s' H R HP. eapply stable; [by apply H|done]. Qed.
#[export] Instance stable_or X (K K' : World -> Prop) : Stable X K -> Stable X K' -> Stable X (fun s => K s \/ K' s).
Proof. intros S1 S2 s s' [H|H] R; [left|right]; by eapply stable. Qed.
#[export] Instance stable_returned X id : Stable X (fun s => returned s id).
Proof. intros s s' H [L _]. by eapply returned_le. Qed.

Lemma ended_le s s' id : le s s' -> ended s id -> ended s' id.
Proof.
  intros L [Hb He]. split; [by apply (le_born _ _ L)|]. intros b' Hb'.
  destruct (batches s !! id) as [b|] eqn:E; [|by rewrite (le_gone _ _ L id Hb E) in Hb'].
  destruct (le_row _ _ L id b b' Hb E Hb') as [_ Hs]. rewrite Hs; by apply He.
Qed.
#[export] Instance stable_ended X id : Stable X (fun s => ended s id).
Proof. intros s s' H [L _]. by eapply ended_le. Qed.

Lemma fits_le s s' id n : le s s' -> id ∈ born s -> fits s id n -> fits s' id n.
Proof.
  intros L Hb Hf b' Hb'. destruct (batches s !! id) as [b|] eqn:E; [|by rewrite (le_gone _ _ L id Hb E) in Hb'].
  rewrite (proj1 (le_row _ _ L id b b' Hb E Hb')). by apply Hf.
Qed.
#[export] Instance stable_fits X id n : Stable X (fun s => id ∈ born s /\ fits s id n).
Proof. intros s s' [Hb H] [L _]. split; [by apply (le_born _ _ L)|by eapply fits_le]. Qed.

Lemma data_le s s' id pr rs : le s s' -> id ∈ born s -> data s id pr rs -> data s' id pr rs.
Proof.
  intros L Hb (D1 & D2 & D3 & D4 & D5). split_and!; [done| |done| |exact (fits_le s s' id _ L Hb D5)].
  - etransitivity; [done|apply (le_count _ _ L)].
  - intros j r Hj Hs. by apply (le_accepted _ _ L), (D4 j r).
Qed.

Section owner.
Context (X : gset string) (id : string) (HX : id ∈ X).

#[local] Instance stable_unborn : Stable X (fun s => id ∉ born s).
Proof. intros s s' H [_ R]. by rewrite <- (ra_born _ _ _ (proj1 (R id HX))). Qed.
#[local] Instance stable_unfreed : Stable X (fun s => id ∉ freed s).
Proof. intros s s' H [_ R] Hf. by apply H, (ra_freed _ _ _ (proj1 (R id HX))). Qed.
#[local] Instance stable_born : Stable X (fun s => id ∈ born s).
Proof. intros s s' H [L _]. by apply (le_born _ _ L). Qed.
#[local] Instance stable_stopped p : Stable X (fun s => ~ running_flag s p id).
Proof. intros s s' H [_ R] Hf. by apply H, (proj2 (R id HX)). Qed.
#[local] Instance stable_data pr rs : Stable X (fun s => id ∈ born s /\ data s id pr rs).
Proof. intros s s' [Hb H] [L _]. split; [by apply (le_born _ _ L)|by apply (data_le s)]. Qed.

#[local] Instance stable_started : Stable X (fun s => started s id).
Proof.
  intros s s' (Hb & Hf & Hr) R. split_and!; [by eapply stable_born|by eapply stable_unfreed|].
  intros b' Hb'. destruct R as [_ R]. destruct (ra_row _ _ _ (proj1 (R id HX)) b' Hb') as (b & E & K1 & _ & K3).
  destruct (Hr b E) as (R1 & R2 & R3). rewrite K1. destruct K3 as [->|[-> | ->]]; done.
Qed.

#[local] Instance stable_runs pr rs n : Stable X (fun s => runs s id pr rs n).
Proof.
  intros s s' [H1 H2 H3 H4 H5 H6 H7 H8] R. pose proof (proj1 (proj2 R id HX)) as [A1 A2 _ _ _].
  split; try done; [by eapply stable_started|by apply (data_le s); [apply R|apply H1|]|by rewrite (count_eq _ _ _ A2)| |].
  - intros j Hj. apply H7. by apply (log_eq _ _ _ A2).
  - intros j Hj. apply H8. by apply (log_eq _ _ _ A1).
Qed.

#[local] Instance stable_inserted : Stable X (fun s => inserted s id).
Proof.
  intros s s' (H1 & H2 & H3) R. split_and!; [by eapply stable_born|by eapply stable_unfreed|].
  intros b' Hb'. destruct (ra_row _ _ _ (proj1 (proj2 R id HX)) b' Hb') as (b & E & _ & _ & [->|[-> | ->]]); [by apply H3|done|done].
Qed.

#[local] Instance stable_picked b : Stable X (fun s => picked s id b).
Proof.
  intros s s' (H1 & H3 & H4 & H5) R. pose proof (proj1 (proj2 R id HX)) as [A1 A2 _ _ A5].
  split_and!; [by eapply stable_inserted|by apply (data_le s); [apply R|apply H1|]|done|].
  intros b' Hb' Hp. destruct (A5 b' Hb') as (b0 & E & _ & _ & K3). rewrite A1. apply (H5 b0); [done|].
  rewrite Hp in K3. by destruct K3 as [K3|[K3|K3]].
Qed.

(** ** An attempt *)

(** The run after an attempt at item [n], once its result is pushed. *)
Definition tried (s : World) (pr : Progress) (rs : list BatchMessageResult) (n : nat) (ok : bool) : Prop :=
  forall r, r_status r = (if ok then MSent else MFailed) -> runs s id (if ok then count_sent pr else count_failed pr) (rs ++ [r])%list (S n).

#[local] Instance stable_tried pr rs n ok : Stable X (fun s => tried s pr rs n ok).
Proof. intros s s' H R r Hr. eapply stable_runs; [by apply H|done]. Qed.

Lemma results_push s rs r n :
  results_ok s id rs -> length rs = n -> (r_status r = MSent -> (id, n) ∈ accepted s) -> results_ok s id (rs ++ [r]).
Proof.
  intros H Hl Hr j r' Hj Hs. destruct (decide (j < length rs)%nat) as [Hlt|Hge].
  - rewrite lookup_app_l in Hj by done. by apply (H j r').
  - rewrite lookup_app_r in Hj by lia. destruct (j - length rs)%nat eqn:E; [|done]. cbn in Hj. simplify_eq.
    replace j with (length rs) by lia. by apply Hr.
Qed.

Lemma shown_push s rs r : shown s id rs -> shown s id (rs ++ [r]).
Proof. intros H j Hj. destruct (H j Hj) as (r' & E & Hr). exists r'. split; [|done]. by apply lookup_app_l_Some. Qed.

(** An item the engine was not asked for. *)
Lemma skipped s pr rs n : runs s id pr rs n -> Z.of_nat n < total pr -> tried s pr rs n false.
Proof.
  intros [H1 (D1 & D2 & D3 & D4 & D5) H3 H4 H5 H6 H7 H8] Hn r Hr. unfold counts_ok in D1.
  split; cbn; try done; [|lia|rewrite length_app; cbn; lia|by apply shown_push|intros j Hj; specialize (H8 j Hj); lia].
  split_and!; cbn; [unfold counts_ok; cbn; lia|lia|rewrite length_app; cbn; lia| |done].
  eapply results_push; [done|done|]. congruence.
Qed.

Lemma count_accept s n ok : count id (accepted (log_send id n ok s)) = count id (accepted s) + (if ok then 1 else 0).
Proof.
  unfold count. destruct ok; cbn [log_send accepted]; [|lia]. rewrite mine_cons. destruct (String.eqb_spec id id); [|done]. cbn [length]. lia.
Qed.

(** An item it was asked for. *)
Lemma asked s pr rs n ok : runs s id pr rs n -> Z.of_nat n < total pr -> tried (log_send id n ok s) pr rs n ok.
Proof.
  intros [H1 (D1 & D2 & D3 & D4 & D5) H3 H4 H5 H6 H7 H8] Hn r Hr. unfold counts_ok in D1. pose proof (count_accept s n ok) as Hc.
  assert (forall j, (id, j) ∈ accepted s -> (id, j) ∈ accepted (log_send id n ok s)) as Hacc by (intros j Hj; destruct ok; [by right|done]).
  split; try (destruct ok; cbn; done).
  - split_and!; [destruct ok; unfold counts_ok; cbn; lia|rewrite Hc; destruct ok; cbn [sent count_sent count_failed]; lia|rewrite length_app; destruct ok; cbn; lia| |by destruct ok].
    eapply results_push; [intros j r' Hj Hs; by apply Hacc, (D4 j r')|done|]. intros Hs. destruct ok; [by left|congruence].
  - destruct ok; cbn; lia.
  - rewrite Hc. destruct ok; cbn [sent count_sent count_failed]; lia.
  - rewrite length_app; cbn; lia.
  - destruct ok; [|by apply (shown_push s)]. intros j Hj. cbn in Hj. apply elem_of_cons in Hj as [[= ->]|Hj].
    + exists r. split; [|done]. by rewrite lookup_app_r, H6, Nat.sub_diag by lia.
    + by apply (shown_push s).
  - intros j Hj. cbn in Hj. apply elem_of_cons in Hj as [[= ->]|Hj]; [lia|]. specialize (H8 j Hj). lia.
Qed.

Context (mediaMaxBytes maxChars : Z) (hostname : string -> option string).

Definition delivered (o : Attempt) : bool := match o with Delivered _ _ _ => true | NotDelivered _ _ _ _ _ => false end.

Lemma ask_engine_ok s n msg content pr rs :
  runs s id pr rs n -> Z.of_nat n < total pr -> does X (ask_engine id n msg content) (fun o s => tried s pr rs n (delivered o)) s.
Proof.
  intros HK Hn. unfold ask_engine.
  assert (forall e s, tried s pr rs n false -> does X
    (let! _ := if SendPacing.countsTowardSendBreaker (ee_class e) then act (Breaker false) else Ret tt in
     let! _ := act (SettleAdmission (Some (negb (SendPacing.sentNothing (ee_class e))))) in
     Ret (NotDelivered (ee_failure e) false true true content))%prog (fun o s => tried s pr rs n (delivered o)) s) as Hrefused.
  { intros e s0 H0. destruct (SendPacing.countsTowardSendBreaker _); cbn [pbind act]; repeat (apply (does_quiet X _ (fun s => tried s pr rs n false)); [done|is_quiet|intros ? ? ? ?]);
      by apply (does_ret X _ (fun s => tried s pr rs n false)). }
  destruct (sendMessage _ _ _) as [call|]; [|by apply Hrefused, skipped].
  cbn [pbind act]. apply (does_do X _ (fun s => runs s id pr rs n)); [done|done|]. intros s1 HK1 HI1.
  split; [by split_and!; [|apply HK1|apply HK1]|]. intros r s2 -> HI2. destruct r as [mid|e]; [|by apply Hrefused, (asked s1)].
  pose proof (asked s1 pr rs n true HK1 Hn) as HT. repeat (apply (does_quiet X _ (fun s => tried s pr rs n true)); [done|is_quiet|clear HT; intros ? ? HT ?]).
  by apply (does_ret X _ (fun s => tried s pr rs n true)).
Qed.

Lemma attempt_ok s n msg pr rs :
  runs s id pr rs n -> Z.of_nat n < total pr ->
  does X (attempt mediaMaxBytes maxChars hostname id n msg) (fun o s => tried s pr rs n (delivered o)) s.
Proof.
  intros HK Hn. unfold attempt.
  assert (forall o s, delivered o = false -> runs s id pr rs n -> does X (Ret o) (fun o s => tried s pr rs n (delivered o)) s) as Hret.
  { intros o s0 Ho H0. apply (does_ret X _ (fun s => runs s id pr rs n)); [done|]. intros s1 H1. rewrite Ho. by apply skipped. }
  repeat match goal with
  | |- does _ (Ret _) _ _ => by apply Hret
  | |- does _ (ask_engine _ _ _ _) _ _ => by apply ask_engine_ok
  | |- does _ (Do _ _) _ _ => apply (does_quiet X _ (fun s => runs s id pr rs n)); [done|is_quiet|clear dependent s; intros ? s HK ?]
  | |- does _ (pbind (act _) _) _ _ => cbn [pbind act]
  | |- does _ (match ?x with _ => _ end) _ _ => destruct x
  end.
Qed.

(** ** An item, and the loop *)

Definition clean : BatchExecutionState := mkState false false false.

(** The batch in memory when a run stops. *)
Definition held (s : World) (b : MessageBatch) : Prop :=
  started s id /\ (id ∈ born s /\ data s id (b_progress b) (b_results b)) /\ cancelled (b_progress b) = 0.

(** Why a run stopped before the last item. *)
Definition halted (s : World) (p : nat) (st : BatchExecutionState) : Prop :=
  (endedElsewhere st = true \/ cancelledByDb st = true -> ended s id) /\
  (stoppedOnError st = true \/ endedElsewhere st = true \/ cancelledByDb st = true \/ ~ running_flag s p id).

Definition sized (n : nat) (b : MessageBatch) : Prop := total (b_progress b) = Z.of_nat n /\ length (b_messages b) = n.

#[local] Instance stable_held b : Stable X (fun s => held s b).
Proof. unfold held. apply _. Qed.
#[local] Instance stable_halted p st : Stable X (fun s => halted s p st).
Proof. unfold halted. apply _. Qed.

Definition went (total : nat) (p n : nat) (out : result Exn bool * MessageBatch * BatchExecutionState) (s : World) : Prop :=
  let '(r, b, st) := out in
  sized total b /\
  match r with
  | Ok true => runs s id (b_progress b) (b_results b) n /\ st = clean
  | Ok false => held s b /\ halted s p st
  | Err _ => id ∈ born s /\ data s id (b_progress b) (b_results b)
  end.
#[local] Instance stable_went N p n out : Stable X (went N p n out).
Proof. destruct out as [[[[]|] b] st]; unfold went; apply _. Qed.

Lemma runs_data s pr rs n : runs s id pr rs n -> id ∈ born s /\ data s id pr rs.
Proof. intros H. split; apply H. Qed.

Lemma runs_held s b n : runs s id (b_progress b) (b_results b) n -> held s b.
Proof. intros H. split_and!; apply H. Qed.

(** What an UPDATE leaves alone. *)
Lemma update_logs st s :
  let s' := update_row id st s in
  sends s' = sends s /\ accepted s' = accepted s /\ born s' = born s /\ freed s' = freed s.
Proof. unfold update_row. destruct (batches s !! id) as [b|]; [|done]. by destruct (hits st b). Qed.

Lemma started_save s pr rs ix : started s id -> started (update_row id (SaveProgress pr rs ix) s) id.
Proof.
  intros (H1 & H2 & H3). destruct (update_logs (SaveProgress pr rs ix) s) as (_ & _ & E3 & E4). split_and!; [by rewrite E3|by rewrite E4|].
  intros b. unfold update_row. destruct (batches s !! id) as [b0|] eqn:E; [|by rewrite E]. destruct (hits (SaveProgress pr rs ix) b0); [|rewrite E; exact (H3 b)].
  cbn. rewrite lookup_insert_eq. intros [= <-]. cbn. by apply H3.
Qed.

Lemma runs_save s s' pr rs n ix :
  le s s' -> s' = s \/ s' = update_row id (SaveProgress pr rs ix) s -> runs s id pr rs n -> runs s' id pr rs n.
Proof.
  intros L [->|E] H; [done|]. destruct (update_logs (SaveProgress pr rs ix) s) as (E1 & E2 & _ & _). cbn zeta in E1, E2. rewrite <- E in E1, E2.
  destruct H as [H1 H2 H3 H4 H5 H6 H7 H8]. split; try done; [rewrite E; exact (started_save s pr rs ix H1)|by apply (data_le s); [|apply H1|]|by rewrite E2|unfold shown; by rewrite E2|by rewrite E1].
Qed.

(** A started row that an UPDATE of running rows did not hit is over. *)
Lemma missed s st : (forall b, b_status b = PROCESSING -> hits st b = true) -> started s id -> row_hit id st s = false -> ended s id.
Proof.
  intros Hst (H1 & _ & H3) Hh. split; [done|]. intros b Hb. unfold row_hit in Hh. rewrite Hb in Hh. specialize (Hst b).
  destruct (H3 b Hb) as (_ & _ & Hp). destruct (b_status b); try done. by rewrite Hst in Hh.
Qed.

(** One it hit is over when the UPDATE is an outcome. *)
Lemma hit_ends s st : (forall b, unfinished (b_status (applied st b)) = false) -> id ∈ born s -> row_hit id st s = true -> ended (update_row id st s) id.
Proof.
  intros Hst Hb Hh. split; [by destruct (update_logs st s) as (_ & _ & -> & _)|]. unfold row_hit in Hh. unfold update_row.
  destruct (batches s !! id) as [b|]; [|done]. rewrite Hh. cbn. rewrite lookup_insert_eq. by intros ? [= <-].
Qed.

Lemma record_item_ok s N p n r batch :
  runs s id (b_progress batch) (b_results batch ++ [r]) (S n) -> id ∈ born s /\ data s id (b_progress batch) (b_results batch) -> sized N batch ->
  does X (record_item p id n r batch clean) (went N p (S n)) s.
Proof.
  intros HK HD HN. unfold record_item, assertCurrent, write, db. cbn [pbind act].
  set (K := fun s => runs s id (b_progress batch) (b_results batch ++ [r]) (S n) /\ (id ∈ born s /\ data s id (b_progress batch) (b_results batch))).
  assert (Stable X K) as SK by apply _.
  apply (does_quiet X _ K); [done|is_quiet|]. clear dependent s. intros [] s1 HK1 _; cbn [pbind].
  2: { apply (does_ret X _ K); [done|]. intros s2 []. by split. }
  apply (does_quiet X _ K); [done|is_quiet|]. clear dependent s1. intros [] s1 [HK HD] _; cbn [pbind act].
  2: { apply (does_ret X _ K); [done|]. intros s2 [H2 _]. split; [done|]. exact (runs_data _ _ _ _ H2). }
  apply (does_update X _ (fun s => runs s id (b_progress batch) (b_results batch ++ [r]) (S n))); [done|intros s2 H2 _; split_and!; [done|apply H2|apply H2]|].
  intros sv s2 s3 H2 _ _ L Hs Hr. pose proof (runs_save s2 s3 _ _ _ _ L Hs H2) as H3. destruct sv as [hit|e]; cbn [pbind].
  2: { apply (does_ret X _ (fun s => runs s id (b_progress batch) (b_results batch ++ [r]) (S n))); [done|].
       intros s4 H4. split; [done|]. exact (runs_data _ _ _ _ H4). }
  destruct Hr as [-> ->]. destruct (row_hit _ _ _) eqn:Hh.
  - apply (does_flag X _ (fun s => runs s id (b_progress batch) (b_results batch ++ [r]) (S n))); [done|]. intros m s4 H4 _ _.
    assert (forall s, runs s id (b_progress batch) (b_results batch ++ [r]) (S n) ->
      does X (Ret (Ok true, with_run (b_progress (push_result r batch)) (b_results (push_result r batch)) (S n) (push_result r batch), clean)) (went N p (S n)) s) as Hend.
    { intros s5 H5. apply (does_ret X _ (fun s => runs s id (b_progress batch) (b_results batch ++ [r]) (S n))); [done|]. by intros s6 H6. }
    destruct (_ && _); cbn [pbind act]; [|by apply Hend].
    apply (does_quiet X _ (fun s => runs s id (b_progress batch) (b_results batch ++ [r]) (S n))); [done|is_quiet|]. intros _ s5 H5 _. by apply Hend.
  - assert (ended s2 id) as He by (eapply missed; [|apply H2|exact Hh]; intros b E; by apply bool_decide_eq_true_2).
    apply (ended_le _ _ id L) in He. clear L Hs Hh HK HD H2.
    set (K2 := fun s => runs s id (b_progress batch) (b_results batch ++ [r]) (S n) /\ ended s id). assert (Stable X K2) as SK2 by apply _.
    unfold noteRowLeftProcessing, db. cbn [pbind act]. apply (does_quiet X _ K2); [done|is_quiet|]. intros row s5 H5 _.
    destruct row as [row|]; cbn [pbind].
    + apply (does_ret X _ K2); [done|]. intros s6 [H6 He6]. split; [done|]. split; [exact (runs_held _ (with_run _ _ _ _) _ H6)|].
      split; [done|]. destruct row as [b|]; [destruct (b_status b)|]; cbn; auto.
    + apply (does_ret X _ K2); [done|]. intros s6 [H6 He6]. split; [done|]. exact (runs_data _ _ _ _ H6).
Qed.

(** The batch in memory between the count and the push. *)
Lemma unpushed s pr rs r n : counts_ok pr -> runs s id pr (rs ++ [r]) (S n) -> id ∈ born s /\ data s id pr rs.
Proof.
  intros Hc [H1 (D1 & D2 & D3 & D4 & D5) _ _ _ _ _ _]. split; [apply H1|]. rewrite length_app in D3. cbn in D3. split_and!; try done; [lia|].
  intros j r' Hj. apply D4. by apply lookup_app_l_Some.
Qed.

Lemma tried_uncounted s pr rs n ok : counts_ok pr -> tried s pr rs n ok -> id ∈ born s /\ data s id pr rs.
Proof.
  intros Hc HT. set (r := mkResult "" (if ok then MSent else MFailed) None None None).
  pose proof (HT r eq_refl) as HR. destruct (unpushed s _ rs r n (proj1 (rn_data _ _ _ _ _ HR)) HR) as [Hb (D1 & D2 & D3 & D4 & D5)].
  split; [done|]. destruct ok; cbn in *; split_and!; try done; lia.
Qed.

Lemma processBatchMessage_ok s N p n msg batch :
  runs s id (b_progress batch) (b_results batch) n -> sized N batch -> (n < N)%nat ->
  does X (processBatchMessage mediaMaxBytes maxChars hostname p id n msg batch clean) (went N p (S n)) s.
Proof.
  intros HK HN Hn. destruct (rn_data _ _ _ _ _ HK) as (Hc & _). unfold processBatchMessage.
  apply (does_flag X _ (fun s => runs s id (b_progress batch) (b_results batch) n)); [done|]. clear dependent s. intros m s HK HI Hm.
  destruct (decide (m = Some true)) as [->|Hne]; [rewrite bool_decide_true by done|rewrite bool_decide_false by done]; cbn [negb].
  2: { apply (does_ret X _ (fun s => runs s id (b_progress batch) (b_results batch) n /\ ~ running_flag s p id)); [split; [done|]; unfold running_flag; congruence|].
       intros s1 [H1 Hf]. split; [done|]. split; [by apply (runs_held s1 batch n)|]. split; [by intros []|auto]. }
  apply does_bind. eapply does_conseq; [apply attempt_ok; [exact HK|destruct HN; lia]|]. clear dependent s. intros o s HT.
  pose proof (tried_uncounted s _ _ _ _ Hc HT) as HD.
  destruct o as [messageId sentAt content|failure blocked engineAsked admitted content]; cbn [delivered] in HT.
  - cbn [pbind act]. apply (does_quiet X _ (fun s => tried s (b_progress batch) (b_results batch) n true)); [done|is_quiet|].
    intros _ s1 H1 _. specialize (H1 (mkResult (i_chatId msg) MSent (Some messageId) None (Some sentAt)) eq_refl).
    apply record_item_ok; [done| |by destruct HN]. exact (unpushed _ _ _ _ _ (proj1 (rn_data _ _ _ _ _ H1)) H1).
  - set (K := fun s => tried s (b_progress batch) (b_results batch) n false /\ (id ∈ born s /\ data s id (b_progress batch) (b_results batch))).
    assert (Stable X K) as SK by apply _.
    apply does_bind. apply (does_conseq X _ (fun (_ : result Exn unit) s => K s)).
    { destruct engineAsked; [by apply (does_ret X _ K)|]. unfold assertCurrent.
      destruct admitted; cbn [pbind act]; repeat (apply (does_quiet X _ K); [done|is_quiet|clear dependent s; intros ? s ? ?]); by apply (does_ret X _ K). }
    clear dependent s. intros cur s HK. destruct cur as [[]|]; [|apply (does_ret X _ K); [done|]; intros s1 [_ H1]; by split].
    set (error := sanitizeBatchError failure). set (r := mkResult (i_chatId msg) MFailed None (Some error) None).
    cbv zeta. apply does_bind. apply (does_conseq X _ (fun _ s => K s)).
    { destruct (_ && _); [|by apply (does_ret X _ K)]. apply (does_quiet X _ K); [done|is_quiet|]. intros ? ? ? ?. by apply (does_ret X _ K). }
    clear dependent s. intros _ s [HT HD]. destruct (stopOnError _).
    + apply (does_ret X _ K); [done|]. intros s1 [H1 _]. specialize (H1 r eq_refl). split; [by destruct HN|].
      split; [exact (runs_held s1 (push_result r (with_status FAILED (with_progress (count_failed (b_progress batch)) batch))) _ H1)|].
      split; [by intros []|by left].
    + specialize (HT r eq_refl). apply record_item_ok; [done| |by destruct HN]. exact (unpushed _ _ _ _ _ (proj1 (rn_data _ _ _ _ _ HT)) HT).
Qed.

(** What the loop leaves. *)
Definition looped (N p : nat) (out : result Exn unit * MessageBatch * BatchExecutionState) (s : World) : Prop :=
  let '(r, b, st) := out in
  sized N b /\
  match r with
  | Ok _ => held s b /\ (halted s p st \/ st = clean /\ runs s id (b_progress b) (b_results b) N)
  | Err _ => id ∈ born s /\ data s id (b_progress b) (b_results b)
  end.

Lemma processBatchMessages_ok s N p n msgs batch :
  runs s id (b_progress batch) (b_results batch) n -> sized N batch -> (n + length msgs = N)%nat ->
  does X (processBatchMessages mediaMaxBytes maxChars hostname p id n msgs batch clean) (looped N p) s.
Proof.
  revert s n batch. induction msgs as [|msg msgs IH]; intros s n batch HK HN Hn; cbn [processBatchMessages length] in *.
  - apply (does_ret X _ (fun s => runs s id (b_progress batch) (b_results batch) n)); [done|]. intros s1 H1. split; [done|].
    split; [by apply (runs_held s1 batch n)|]. right. split; [done|]. by replace N with n by lia.
  - unfold assertCurrent. cbn [pbind act]. apply (does_quiet X _ (fun s => runs s id (b_progress batch) (b_results batch) n)); [done|is_quiet|].
    clear dependent s. intros [] s HK _; cbn [pbind].
    2: { apply (does_ret X _ (fun s => runs s id (b_progress batch) (b_results batch) n)); [done|]. intros s1 H1. split; [done|]. exact (runs_data _ _ _ _ H1). }
    apply does_bind. eapply does_conseq; [apply (processBatchMessage_ok s N); [done|done|lia]|]. clear dependent s. intros out s Hout.
    assert (K : went N p (S n) out s) by done. destruct out as [[more b] st]. destruct Hout as [HN' Hout]. destruct more as [[]|].
    + destruct Hout as [HR ->]. apply IH; [done|done|lia].
    + apply (does_ret X _ (went N p (S n) (Ok false, b, st))); [done|]. intros s1 [_ [H1 H2]]. split; [done|]. auto.
    + apply (does_ret X _ (went N p (S n) (Err e, b, st))); [done|]. intros s1 [_ H1]. by split.
Qed.

(** ** The end of a run *)

Lemma data_cancelled s pr rs : cancelled pr = 0 -> data s id pr rs -> data s id (count_cancelled pr) rs.
Proof. intros H0 (D1 & D2 & D3 & D4 & D5). unfold counts_ok in D1. split_and!; try done. unfold counts_ok. cbn. lia. Qed.

Lemma data_fits s b N rs : sized N b -> data s id (b_progress b) rs -> msgs_fit s id (stripBatchMediaPayloads (b_messages b)).
Proof.
  intros [Ht Hl] (_ & _ & _ & _ & D5) row Hrow. rewrite (D5 row Hrow). unfold stripBatchMediaPayloads. rewrite length_map. lia.
Qed.

(** What is known when a run is over, or stopped on an error. *)
Definition over {A : Type} (b : MessageBatch) (r : result Exn A) (s : World) : Prop :=
  (id ∈ born s /\ data s id (b_progress b) (b_results b)) /\ match r with Ok _ => ended s id | Err _ => True end.
#[local] Instance stable_over {A : Type} b (r : result Exn A) : Stable X (over b r).
Proof. unfold over. destruct r; apply _. Qed.

Lemma keep_ok s b st pr :
  (st = FAILED \/ st = CANCELLED) -> over b (Ok tt) s -> data s id pr (b_results b) -> does X (keepResultsOnEndedRow id b st pr) (over b) s.
Proof.
  intros Hst Ho Hd. unfold keepResultsOnEndedRow, db. cbn [pbind act].
  set (K := fun s => over b (Ok tt) s /\ (id ∈ born s /\ data s id pr (b_results b))). assert (Stable X K) as SK by apply _.
  apply (does_update X _ K); [split; [done|]; split; [apply Ho|done]|by intros s1 (_ & _ & H1) _|].
  intros r s1 s2 [[H1 E1] [B1 D1]] _ _ L _ _. assert (over b (Ok tt) s2) as H2.
  { split; [split; [by apply (le_born _ _ L)|by apply (data_le s1); [|apply H1|apply H1]]|by apply (ended_le s1)]. }
  destruct r; cbn [pbind]; apply (does_ret X _ (over b (Ok tt))); try done. intros s3 H3. split; [apply H3|done].
Qed.

(** An UPDATE that ends a batch: it hit, or the row was over already. *)
Lemma update_ends s (K : World -> Prop) `{!Stable X K} b (st : Z -> Stmt) :
  (forall s, K s -> id ∈ born s /\ data s id (b_progress b) (b_results b)) -> K s ->
  (forall now s, K s -> stmt_pre X id (st now) s) ->
  (forall now c, unfinished (b_status (applied (st now) c)) = false) ->
  (forall now s, K s -> row_hit id (st now) s = false -> ended s id) ->
  does X (update id st) (over b) s.
Proof.
  intros HKb HK Hp Hc Hh. unfold update, db. cbn [pbind act]. apply (does_quiet X _ K); [done|is_quiet|]. intros now s1 HK1 _.
  apply (does_update X _ K); [done|by intros; apply Hp|]. intros r s2 s3 HK2 _ _ L _ Hr.
  assert (id ∈ born s3 /\ data s3 id (b_progress b) (b_results b)) as HD.
  { destruct (HKb s2 HK2) as [Hb Hd]. split; [by apply (le_born _ _ L)|by apply (data_le s2)]. }
  destruct r as [hit|].
  2: { apply (does_ret X _ (fun s => id ∈ born s /\ data s id (b_progress b) (b_results b))); [done|]. intros s4 H4. by split. }
  destruct Hr as [-> E]. apply (does_ret X _ (over b (Ok tt))); [|done].
  split; [done|]. destruct (HKb _ HK2) as [Hb _]. destruct (row_hit id (st now) s2) eqn:Hhit.
  - rewrite E. exact (hit_ends s2 (st now) (Hc now) Hb Hhit).
  - apply (ended_le s2); [done|]. exact (Hh now s2 HK2 Hhit).
Qed.

Lemma end_with s (K : World -> Prop) `{!Stable X K} b (st : Z -> Stmt) (missing : task (result Exn unit)) :
  (forall s, K s -> held s b) -> K s ->
  (forall now s, K s -> stmt_pre X id (st now) s) ->
  (forall now c, unfinished (b_status (applied (st now) c)) = false) ->
  (forall now c, b_status c = PROCESSING -> hits (st now) c = true) ->
  (forall s, over b (Ok tt) s -> does X missing (over b) s) ->
  does X (let? hit := update id st in if (hit : bool) then Ret (Ok tt) else missing)%prog (over b) s.
Proof.
  intros HKb HK Hp Hc Hh Hm. apply does_bind. eapply does_conseq; [apply (update_ends s K b); try done|].
  - intros s1 H1. apply (HKb s1 H1).
  - intros now s1 H1. apply missed; [exact (Hh now)|apply (HKb s1 H1)].
  - clear dependent s. intros r s Ho. destruct r as [[]|e]; [|by apply Hm|].
    + by apply (does_ret X _ (over b (Ok tt))).
    + by apply (does_ret X _ (over b (@Err _ unit e))).
Qed.

Definition ready (N p : nat) (b : MessageBatch) (st : BatchExecutionState) (s : World) : Prop :=
  held s b /\ (halted s p st \/ st = clean /\ runs s id (b_progress b) (b_results b) N).
#[local] Instance stable_ready N p b st : Stable X (ready N p b st).
Proof. unfold ready. apply _. Qed.

Lemma runs_complete s b N : sized N b -> runs s id (b_progress b) (b_results b) N -> complete s id (b_progress b) (b_results b).
Proof. intros [Ht _] [H1 H2 H3 H4 H5 H6 H7 H8]. split_and!; [lia|done|lia|done|done]. Qed.

(** The row read at the end. *)
Lemma end_read_ok s N p b st :
  ready N p b st s ->
  does X (if cancelledByDb st then Ret (Ok None) else db (FindRow id))
    (fun r s => ready N p b st s /\ match r with Ok (Some row) => unfinished (b_status row) = false -> ended s id | _ => True end) s.
Proof.
  intros HK. destruct (cancelledByDb st); [by apply (does_ret X _ (ready N p b st))|].
  unfold db. cbn [pbind act]. apply (does_read X _ (ready N p b st) (FindRow id) _ (fun s row => row = batches s !! id)); [done|is_quiet| |].
  { intros s1 r s2 [_ [->| ->]]; done. }
  intros r s1 HK1 _ Hr. destruct r as [[row|]|]; [|by apply (does_ret X _ (ready N p b st))..].
  apply (does_ret X _ (fun s => ready N p b st s /\ (unfinished (b_status row) = false -> ended s id))); [|done].
  split; [done|]. intros Hu. destruct HK1 as [(_ & [Hb _] & _) _]. split; [done|]. intros b' Hb'. congruence.
Qed.

Lemma finalizeBatch_ok s N p b st : sized N b -> ready N p b st s -> does X (finalizeBatch p id b st) (over b) s.
Proof.
  intros HN HK. unfold finalizeBatch. destruct (endedElsewhere st) eqn:Eel.
  { destruct HK as [(H1 & H2 & H3) [[He _]|[-> _]]]; [|done]. apply keep_ok; [auto|split; [done|by apply He; left]|apply H2]. }
  apply does_bind. eapply does_conseq; [exact (end_read_ok s N p b st HK)|]. clear dependent s. intros r s [HK Hr].
  destruct r as [row|]; [|apply (does_ret X _ (ready N p b st)); [done|]; intros s1 [(_ & H1 & _) _]; by split].
  set (status := b_status <$> row). assert (status = Some FAILED \/ status = Some COMPLETED -> ended s id) as Hend.
  { destruct row as [row|]; [|by intros []]. intros [[= E]|[= E]]; apply Hr; by rewrite E. }
  clearbody status. clear Hr. cbv zeta. destruct (bool_decide (status = Some FAILED) || bool_decide (status = Some COMPLETED)) eqn:Eover.
  { destruct HK as [(H1 & H2 & H3) _]. apply keep_ok; [auto|split; [done|]|apply H2]. apply Hend.
    apply orb_true_iff in Eover as [E|E]; bool_facts; auto. }
  apply (does_flag X _ (ready N p b st)); [done|]. clear dependent s. intros m s HK _ Hm.
  set (final := resolveFinalBatchStatus _ _ _ _). destruct (decide (final = CANCELLED)) as [Ef|Ef]; [rewrite bool_decide_true by done|rewrite bool_decide_false by done].
  - apply (end_with s (fun s => held s b)); [done|apply HK| |done|by intros now c Hc; cbn; rewrite Hc|].
    + intros now s1 (H1 & [H2 H3] & H4). split_and!; [done|by apply data_cancelled|by eapply data_fits].
    + intros s1 Ho. apply keep_ok; [auto|done|apply Ho].
  - assert (held s b /\ (stoppedOnError st = true \/ runs s id (b_progress b) (b_results b) N)) as HF.
    { destruct HK as [Hh [[_ Hw]|[_ HR]]]; split; auto. destruct Hw as [Hw|[Hw|[Hw|Hw]]]; auto; [congruence|..]; exfalso; apply Ef; subst final.
      - by rewrite Hw.
      - unfold running_flag in Hw. rewrite Hm in Hw. rewrite (bool_decide_false _ Hw), orb_true_r. done. }
    assert (final = FAILED \/ final = COMPLETED /\ stoppedOnError st = false) as Hfin.
    { subst final. unfold resolveFinalBatchStatus in *. destruct (_ || _ || _); [done|]. destruct (stoppedOnError st); [auto|]. destruct (_ && _); auto. }
    clearbody final. apply (end_with s (fun s => held s b /\ (stoppedOnError st = true \/ runs s id (b_progress b) (b_results b) N)) b
      (fun now => Finish final now (b_progress b) (b_results b) (b_currentIndex b) (stripBatchMediaPayloads (b_messages b)))); [by intros ? []|done| | | |].
    + intros now s1 [(H1 & [H2 H3] & H4) H5]. split_and!; [done|done|by eapply data_fits|]. destruct Hfin as [->|[-> Hs]]; [by left|].
      right. split; [done|]. destruct H5 as [H5|H5]; [congruence|by eapply runs_complete].
    + intros now c. cbn. by destruct Hfin as [->|[-> _]].
    + intros now c Hc. cbn. by apply bool_decide_eq_true_2.
    + intros s1 Ho. unfold db. cbn [pbind act]. apply (does_quiet X _ (over b (Ok tt) )); [done|is_quiet|]. intros r s2 H2 _.
      destruct r as [row'|]; cbn [pbind]; [|apply (does_ret X _ (over b (Ok tt))); [done|]; intros s3 [H3 _]; by split].
      destruct HF as [(_ & _ & H0) _]. destruct (b_status <$> row') as [[]|]; try (by apply (does_ret X _ (over b (Ok tt)))).
      * apply keep_ok; [auto|done|]. apply data_cancelled; [done|apply H2].
      * apply keep_ok; [auto|done|apply H2].
Qed.

(** ** From the pickup to the end *)

(** The batch in memory when [executeBatch] or the pickup is over. *)
Definition parted (out : result Exn unit * MessageBatch) (s : World) : Prop :=
  sized (length (b_messages (snd out))) (snd out) /\ (id ∈ born s /\ data s id (b_progress (snd out)) (b_results (snd out))) /\
  match fst out with Ok _ => returned s id | Err _ => True end.
#[local] Instance stable_parted out : Stable X (parted out).
Proof. destruct out as [[[]|] b]; unfold parted; cbn; apply _. Qed.

Lemma over_parted {A : Type} s (r : result Exn A) b b' :
  over b r s -> b_progress b' = b_progress b -> b_results b' = b_results b -> sized (length (b_messages b')) b' ->
  parted (match r with Ok _ => Ok tt | Err e => Err e end, b') s.
Proof. intros [H1 H2] E1 E2 HN. split_and!; cbn; rewrite ?E1, ?E2; try apply H1; [done|]. destruct r; [by right|done]. Qed.

Lemma picked_data s b : picked s id b -> id ∈ born s /\ data s id (b_progress b) (b_results b).
Proof. intros (H1 & H2 & _). split; [apply H1|done]. Qed.

Lemma picked_sized s b : picked s id b -> sized (length (b_messages b)) b.
Proof. intros (_ & _ & H & _). by split. Qed.

Lemma picked_parted s b b' e :
  picked s id b -> b_progress b' = b_progress b -> b_results b' = b_results b -> b_messages b' = b_messages b -> parted (Err e, b') s.
Proof. intros H E1 E2 E3. split_and!; cbn; rewrite ?E1, ?E2, ?E3; [|apply (picked_data _ _ H)..|done]. unfold sized. rewrite E1, E3. apply (picked_sized _ _ H). Qed.

(** The run begins: nothing sent, nothing counted. *)
Lemma starts_run s b now :
  Inv s -> picked s id b -> row_hit id (Start now) s = true -> Inv (update_row id (Start now) s) -> le s (update_row id (Start now) s) ->
  runs (update_row id (Start now) s) id (b_progress b) (b_results b) 0 /\ b_currentIndex b = 0%nat.
Proof.
  intros HI ((P1 & P2 & _) & P3 & P4 & P5) Hh HI2 L. destruct (update_logs (Start now) s) as (E1 & E2 & E3 & E4). cbn zeta in *.
  unfold row_hit in Hh. destruct (batches s !! id) as [row|] eqn:Erow; [|done]. pose proof Hh as Hp. cbn in Hp. bool_facts.
  destruct (P5 row eq_refl Hp) as [(U1 & U2 & U3 & U4 & U5 & U6) Hs]. split; [|done].
  assert (mine id (accepted s) = []) as Ha.
  { apply mine_nil. intros j Hj. apply (i_accepted _ HI), elem_of_mine in Hj. rewrite Hs in Hj. by apply not_elem_of_nil in Hj. }
  assert (forall j, (id, j) ∉ sends s) as Hnone by (intros j Hj; apply elem_of_mine in Hj; rewrite Hs in Hj; by apply not_elem_of_nil in Hj).
  destruct (P3) as (D1 & _). unfold counts_ok in D1. split; [|by apply (data_le s)|done|lia| | | |].
  - split_and!; [by rewrite E3|by rewrite E4|]. unfold update_row. rewrite Erow, Hh. cbn. rewrite lookup_insert_eq. by intros ? [= <-].
  - rewrite E2, U4. unfold count. by rewrite Ha.
  - by rewrite U2.
  - intros j Hj. rewrite E2 in Hj. apply elem_of_mine in Hj. rewrite Ha in Hj. by apply not_elem_of_nil in Hj.
  - intros j Hj. rewrite E1 in Hj. by apply Hnone in Hj.
Qed.

Lemma miss_start s now : inserted s id -> row_hit id (Start now) s = false -> ended s id.
Proof.
  intros (H1 & _ & H3) Hh. split; [done|]. intros b Hb. specialize (H3 b Hb). unfold row_hit in Hh. rewrite Hb in Hh. cbn in Hh. bool_facts.
  by destruct (b_status b).
Qed.

(** [lifetime.write]: nothing done, or the write done. *)
Lemma write_ok {A : Type} (K : World -> Prop) `{!Stable X K} (m : task (result Exn A)) (Q : result Exn A -> World -> Prop) s :
  K s -> (forall s, K s -> does X m Q s) -> (forall s e, K s -> Q (Err e) s) -> does X (write m) Q s.
Proof.
  intros HK Hm He. unfold write, assertCurrent. cbn [pbind act]. apply (does_quiet X _ K); [done|is_quiet|].
  intros [] s1 HK1 _; cbn [pbind]; [by apply Hm|]. apply (does_ret X _ K); [done|]. intros s2 H2. by apply He.
Qed.

(** The loop and what follows it. *)
Lemma items_ok s p b :
  runs s id (b_progress b) (b_results b) 0 -> sized (length (b_messages b)) b ->
  does X (let! out := processBatchMessages mediaMaxBytes maxChars hostname p id 0 (b_messages b) b clean in
          let '(r, b, st) := out in
          match r with Err e => Ret (Err e, b) | Ok _ => let! r := write (finalizeBatch p id b st) in Ret (r, b) end)%prog parted s.
Proof.
  intros HK HN. apply does_bind. eapply does_conseq; [apply (processBatchMessages_ok s (length (b_messages b))); done|].
  clear dependent s. intros [[r c] st] s [HN' HL]. assert (sized (length (b_messages c)) c) as Hc by (rewrite (proj2 HN'); done). destruct r as [[]|e].
  - apply does_bind. eapply does_conseq; [apply (write_ok (ready (length (b_messages b)) p c st) _ (over c)); [done| |]|].
    + intros s1 H1. apply (finalizeBatch_ok s1 (length (b_messages b))); done.
    + intros s1 e [(_ & H1 & _) _]. by split.
    + clear HL s. intros r s Ho. apply (does_ret X _ (over c r)); [done|]. intros s1 H1. destruct (over_parted s1 r c c H1) as (P1 & P2 & P3); try done.
      split; [done|]. split; [done|]. by destruct r.
  - apply (does_ret X _ (fun s => id ∈ born s /\ data s id (b_progress c) (b_results c))); [done|]. intros s1 H1. by split_and!; try apply H1.
Qed.

Lemma executeBatch_ok s p b : picked s id b -> does X (executeBatch mediaMaxBytes maxChars hostname p id b) parted s.
Proof.
  intros HK. unfold executeBatch. cbn [pbind act]. apply (does_quiet X _ (fun s => picked s id b)); [done|is_quiet|]. clear dependent s. intros now s HK _.
  unfold write, assertCurrent, db. cbn [pbind act]. apply (does_quiet X _ (fun s => picked s id b)); [done|is_quiet|].
  clear dependent s. intros [] s HK _; cbn [pbind act].
  2: { apply (does_ret X _ (fun s => picked s id b)); [done|]. intros s1 H1. by apply (picked_parted s1 b). }
  apply (does_update X _ (fun s => picked s id b)); [done|done|]. intros r s1 s2 HK1 HI1 HI2 L _ Hr. destruct r as [hit|]; cbn [pbind].
  2: { apply (does_ret X _ (fun s => id ∈ born s /\ data s id (b_progress b) (b_results b))).
       - destruct (picked_data _ _ HK1). split; [by apply (le_born _ _ L)|by apply (data_le s1)].
       - intros s3 H3. split_and!; [exact (picked_sized _ _ HK1)|apply H3..|done]. }
  destruct Hr as [-> ->]. set (b1 := started_at now (with_status PROCESSING b)). destruct (row_hit id (Start now) s1) eqn:Hh.
  2: { apply (does_ret X _ (over b (Ok tt))); [|intros s3 H3; by apply (over_parted s3 (Ok tt) b b1 H3), (picked_sized _ _ HK1)].
       destruct (picked_data _ _ HK1). split; [split; [by apply (le_born _ _ L)|by apply (data_le s1)]|].
       apply (ended_le s1); [done|]. apply (miss_start s1 now); [apply HK1|done]. }
  destruct (starts_run s1 b now HI1 HK1 Hh HI2 L) as [HR Hix]. pose proof (picked_sized _ _ HK1) as HN. clear HK s Hh HI1 HI2 L HK1.
  apply (does_quiet X _ (fun s => runs s id (b_progress b) (b_results b) 0)); [done|is_quiet|]. clear HR s1. intros [] s HK _; cbn [pbind act].
  2: { apply (does_ret X _ (fun s => runs s id (b_progress b) (b_results b) 0)); [done|]. intros s3 H3.
       split_and!; [exact HN|apply (runs_data _ _ _ _ H3)..|done]. }
  apply (does_quiet X _ (fun s => runs s id (b_progress b) (b_results b) 0)); [done|is_quiet|]. clear dependent s. intros [] s HK _; cbn [negb].
  - change (b_currentIndex b1) with (b_currentIndex b). rewrite Hix. exact (items_ok s p b1 HK HN).
  - change (does X (let! r := write (update id (fun now => FailNoEngine now (stripBatchMediaPayloads (b_messages b1)))) in
      Ret (match r with Ok _ => Ok tt | Err e => Err e end, strip b1))%prog parted s). apply does_bind. eapply does_conseq; [apply (write_ok (fun s => runs s id (b_progress b) (b_results b) 0) _ (over b)); [done| |]|].
    + intros s1 H1. apply (update_ends s1 (fun s => runs s id (b_progress b) (b_results b) 0) b); [intros s2 H2; exact (runs_data _ _ _ _ H2)|done| |done|].
      * intros now' s2 H2. split_and!; [done|exact (data_fits s2 b1 _ _ HN (rn_data _ _ _ _ _ H2))|]. intros row Hrow.
        by destruct (proj2 (proj2 (rn_started _ _ _ _ _ H2)) row Hrow) as (_ & Hc & _).
      * intros now' s2 H2. apply missed; [intros c Hc; cbn; by rewrite Hc|apply H2].
    + intros s1 e H1. split; [exact (runs_data _ _ _ _ H1)|done].
    + clear dependent s. intros r s Ho. apply (does_ret X _ (over b r)); [done|]. intros s1 H1. apply (over_parted s1 r b (strip b1) H1); try done.
      destruct HN as [H2 H3]. split; [|done]. cbn. unfold stripBatchMediaPayloads. rewrite length_map. done.
Qed.

(** Failing a batch that has not started, or any other: its messages fit. *)
Lemma fail_pre now s b : msgs_fit s id (stripBatchMediaPayloads (b_messages b)) -> stmt_pre X id (Fail now (Some (stripBatchMediaPayloads (b_messages b))) None) s.
Proof. done. Qed.

Lemma miss_fail now msgs rn s : id ∈ born s -> row_hit id (Fail now msgs rn) s = false -> ended s id.
Proof. intros Hb Hh. split; [done|]. intros b E. unfold row_hit in Hh. by rewrite E in Hh. Qed.

Lemma fail_ends now msgs rn c : unfinished (b_status (applied (Fail now msgs rn) c)) = false.
Proof. by destruct msgs, rn as [[[] ?]|]. Qed.

Lemma pick_up_pre status s : local_pre X (pick_up id status) s.
Proof.
  intros st i. unfold pick_up. destruct (_ || _); [by auto|]. destruct (shuttingDown st); [by auto|]. cbn.
  destruct (decide (i = id)) as [->|Hne]; [rewrite lookup_insert_eq|rewrite lookup_insert_ne by done]; [|by auto]. split; [done|by auto].
Qed.

Lemma pickup_ok s p b :
  picked s id b -> (b_status b = CANCELLED -> ended s id) -> does X (pickup mediaMaxBytes maxChars hostname p id b) parted s.
Proof.
  intros HP HC. unfold pickup, assertCurrent. cbn [pbind act].
  set (K := fun s => picked s id b /\ (b_status b = CANCELLED -> ended s id)). assert (Stable X K) as SK by apply _.
  apply (does_quiet X _ K); [done|is_quiet|]. clear dependent s. intros [] s HK _; cbn [pbind].
  2: { apply (does_ret X _ (fun s => picked s id b)); [apply HK|]. intros s1 H1. by apply (picked_parted s1 b). }
  apply (does_do X _ K); [done|done|]. clear dependent s. intros s [HP HC] HI. split; [apply pick_up_pre|]. intros d s2 [-> ->] HI2. unfold pick_up.
  destruct (_ || _) eqn:Eskip; [|destruct (shuttingDown _)]; cbn [fst snd].
  - apply (does_ret X _ (fun s => picked s id b /\ returned s id)).
    + split; [exact HP|]. apply orb_true_iff in Eskip as [E|E]; bool_facts; [exact (i_flags _ HI p id E)|]. right. exact (HC E).
    + intros s3 [H3 H4]. split_and!; [exact (picked_sized _ _ H3)|apply (picked_data _ _ H3)..|done].
  - apply does_bind. eapply does_conseq; [apply (write_ok (fun s => picked s id b) _ (over b)); [exact HP| |]|].
    + intros s1 H1. unfold failOrphanedBatch. cbn [fmap option_fmap option_map compose].
      apply (update_ends s1 (fun s => picked s id b) b); [intros s3; apply picked_data|done| |intros now c; apply fail_ends|].
      * intros now s3 H3. apply fail_pre. exact (data_fits s3 b _ _ (picked_sized _ _ H3) (proj2 (picked_data _ _ H3))).
      * intros now s3 H3. apply miss_fail, (picked_data _ _ H3).
    + intros s1 e H1. split; [exact (picked_data _ _ H1)|done].
    + intros r s3 Ho. apply (does_ret X _ (over b r)); [done|]. intros s4 H4. apply (over_parted s4 r b (strip b) H4); try done.
      destruct (picked_sized _ _ HP) as [H5 H6]. split; [|done]. cbn. unfold stripBatchMediaPayloads. rewrite length_map. done.
  - by apply executeBatch_ok.
Qed.

Lemma row_picked s b : Inv s -> inserted s id -> batches s !! id = Some b -> picked s id b.
Proof.
  intros HI H Hb. destruct (i_rows _ HI id b Hb) as [R1 R2 R3 R4 R5 R6 R7 R8 R9]. split_and!; [done| |done|].
  - split_and!; try done. intros b' Hb'. congruence.
  - intros b' Hb' Hp. assert (b' = b) as -> by congruence. split; [by apply R8|]. by apply R7, R8.
Qed.

(** A block that forgets a batch. *)
Lemma batch_forgotten_ok {A : Type} p (k : unit -> task A) Q s : (forall s, does X (k tt) Q s) -> does X (Do (Local p (unregister id)) k) Q s.
Proof.
  intros Hk. apply (does_do X _ (fun _ => True)); [done|done|]. intros s1 _ _. split; [|by intros [] s2 _ _; apply Hk].
  intros st i. cbn. split; intros [_ H]%lookup_delete_Some; auto.
Qed.

(** The batch in memory, when there is one, after a run. *)
Definition parted_opt (out : result Exn unit * option MessageBatch) (s : World) : Prop :=
  match snd out with
  | Some b => parted (fst out, b) s
  | None => match fst out with Ok _ => returned s id | Err _ => True end
  end.
#[local] Instance stable_parted_opt out : Stable X (parted_opt out).
Proof. destruct out as [[[]|] [b|]]; unfold parted_opt; cbn; apply _. Qed.

Lemma orphan_pre now out s :
  parted_opt out s -> stmt_pre X id (Fail now (stripBatchMediaPayloads ∘ b_messages <$> snd out) ((fun b => (b_progress b, b_results b, b_currentIndex b)) <$> snd out)) s.
Proof.
  destruct out as [r [b|]]; cbn; [|done]. intros (H1 & [H2 H3] & _). split; [exact (data_fits s b _ _ H1 H3)|done].
Qed.

(** What the pickup's read shows. *)
Definition row_read (r : result Exn (option MessageBatch)) (s : World) : Prop :=
  match r with
  | Ok (Some b) => picked s id b /\ (b_status b = CANCELLED -> ended s id)
  | Ok None => ended s id
  | Err _ => True
  end.
#[local] Instance stable_row_read r : Stable X (row_read r).
Proof. destruct r as [[b|]|]; unfold row_read; apply _. Qed.

Lemma row_read_ok s : inserted s id -> does X (db (FindRow id)) row_read s.
Proof.
  intros HK. unfold db. cbn [pbind act].
  apply (does_read X _ (fun s => inserted s id) (FindRow id) _ (fun s row => row = batches s !! id)); [done|is_quiet|by intros s1 r s2 [_ [->| ->]]|].
  clear dependent s. intros row s HK HI Hr. apply (does_ret X _ (row_read (match row with Ok a => Ok a | Err _ => Err DbError end))); [|done].
  destruct row as [[b|]|]; [|split; [apply HK|intros b Hb; congruence]|done].
  split; [by apply row_picked|]. intros E. split; [apply HK|]. intros b' Hb'. assert (b' = b) as -> by congruence. by rewrite E.
Qed.

Lemma processBatch_ok s p : inserted s id -> does X (processBatch mediaMaxBytes maxChars hostname p id) (fun _ _ => True) s.
Proof.
  intros HK. unfold processBatch. apply does_bind. eapply does_conseq; [exact (row_read_ok s HK)|]. clear dependent s. intros found s HR.
  apply does_bind. apply (does_conseq X _ parted_opt).
  { destruct found as [[b|]|e].
    - destruct HR as [HP HC]. apply does_bind. eapply does_conseq; [exact (pickup_ok s p b HP HC)|]. intros [r b'] s1 H1. by apply (does_ret X _ (parted (r, b'))).
    - apply (does_ret X _ (fun s => ended s id)); [done|]. intros s1 H1. by right.
    - by apply (does_ret X _ (fun _ => True)). }
  clear dependent s. intros out s HK. apply does_bind. apply (does_conseq X _ (fun (_ : result Exn unit) _ => True)).
  2: { intros r s1 _. cbn [pbind act]. apply batch_forgotten_ok. intros s2. by apply (does_ret X _ (fun _ => True)). }
  assert (fst out = Ok tt -> returned s id) as Hret. { destruct out as [[[]|] [b|]]; cbn in HK; [intros _; apply HK|done..]. }
  destruct (fst out) as [[]|e].
  - cbn [pbind act]. apply (does_do X _ (fun s => returned s id)); [by apply Hret|done|]. intros s1 H1 _. split; [done|].
    intros [] s2 _ _. by apply (does_ret X _ (fun _ => True)).
  - unfold assertCurrent. cbn [pbind act]. apply (does_quiet X _ (parted_opt out)); [done|is_quiet|]. clear Hret; clear dependent s. intros [] s HK _; cbn [pbind].
    2: by apply (does_ret X _ (fun _ => True)).
    apply does_bind. apply (does_conseq X _ (fun _ _ => True)); [|by intros ? ? _; apply (does_ret X _ (fun _ => True))].
    apply (write_ok (parted_opt out)); [done| |done]. intros s1 H1. unfold failOrphanedBatch, update, db. cbn [pbind act].
    apply (does_quiet X _ (parted_opt out)); [done|is_quiet|]. intros now s2 H2 _.
    apply (does_update X _ (parted_opt out)); [done|by intros; apply orphan_pre|]. intros; by apply (does_ret X _ (fun _ => True)).
Qed.

Lemma save_and_run_ok s p batchId sid msgs options :
  id ∉ born s -> id ∉ freed s ->
  does X (save_and_run mediaMaxBytes maxChars hostname p id (new_batch batchId sid msgs options)) (fun _ _ => True) s.
Proof.
  intros Hb Hf. unfold save_and_run. apply does_bind. apply (does_conseq X _ (fun (r : result Exn unit) s => match r with Ok _ => inserted s id | Err _ => True end)).
  - apply (write_ok (fun s => id ∉ born s /\ id ∉ freed s)); [done| |done]. clear dependent s. intros s HK. cbn [pbind act].
    apply (does_do X _ (fun s => id ∉ born s /\ id ∉ freed s)); [done|done|]. clear dependent s. intros s [Hb Hf] HI. split; [split_and!; [done|done|eauto]|].
    intros r s2 Hrun HI2. destruct r; try (by apply (does_ret X _ (fun _ => True))). apply (does_ret X _ (fun s => inserted s id)); [|done].
    destruct Hrun as [[? _]|Hrun]; [done|]. destruct (taken _ _ _); destruct Hrun as [Hr ->]; [done|].
    split_and!; cbn; [set_solver|done|]. rewrite lookup_insert_eq. by intros ? [= <-].
  - clear dependent s. intros r s HK. destruct r as [[]|]; cbn [pbind act].
    + apply (does_look X _ (fun s => inserted s id)); [done|by intros s1 st i; cbn; auto|]. intros s1 s2 _ HK2 _ _ _.
      apply does_bind. eapply does_conseq; [exact (processBatch_ok s2 p HK2)|]. intros _ s3 _. cbn [fst]. destruct (shuttingDown _); [|by apply (does_ret X _ (fun _ => True))].
      cbn [pbind act]. apply (does_do X _ (fun _ => True)); [done|done|]. intros s4 _ _. split; [done|]. intros ? ? _ _. by apply (does_ret X _ (fun _ => True)).
    + apply batch_forgotten_ok. intros s1. by apply (does_ret X _ (fun _ => True)).
Qed.
End owner.

(** ** The others *)

Section others.
Context (X : gset string).

Lemma fail_read_ok s id (readers : result Exn (option MessageBatch) -> task (result Exn bool)) :
  (forall r, readers r = match r with Ok row => failOrphanedBatch id row false | Err e => Ret (Err e) end \/ readers r = Ret (Ok false)) ->
  does X (pbind (db (FindRow id)) readers) (fun r s => match r with Ok true => returned s id | _ => True end) s.
Proof.
  intros Hrd. unfold db. cbn [pbind act].
  apply (does_read X _ (fun _ => True) (FindRow id) _ (fun s row => row = batches s !! id)); [done|is_quiet|by intros s1 r s2 [_ [->| ->]]|].
  intros r s1 _ HI Hr. cbn [pbind]. destruct (Hrd (match r with Ok a => Ok a | Err _ => Err DbError end)) as [-> | ->]; [|by apply (does_ret X _ (fun _ => True))].
  destruct r as [row|]; [|by apply (does_ret X _ (fun _ => True))].
  unfold failOrphanedBatch, update, db. cbn [pbind act].
  assert (exists K : World -> Prop, Stable X K /\ K s1 /\ forall now s, K s -> stmt_pre X id (Fail now (stripBatchMediaPayloads ∘ b_messages <$> row) None) s) as (K & SK & HK & Hp).
  { destruct row as [b|]; [|exists (fun _ => True); split_and!; [apply _|done|done]].
    exists (fun s => id ∈ born s /\ fits s id (Z.of_nat (length (b_messages b)))). split_and!; [apply _|by apply (i_born _ HI id b)| |].
    - intros b' Hb'. assert (b' = b) as -> by congruence. by apply (ro_total s1 id), (i_rows _ HI).
    - intros now s2 [_ H2]. split; [|done]. intros b' Hb'. unfold compose, stripBatchMediaPayloads. rewrite length_map. by apply H2. }
  apply (does_quiet X _ K); [done|is_quiet|]. intros now s2 H2 _. apply (does_update X _ K); [done|by intros; apply Hp|].
  intros r s3 s4 H3 HI3 HI4 L _ Hr4. destruct r as [hit|]; [|by apply (does_ret X _ (fun _ => True))]. destruct Hr4 as [-> ->].
  destruct (row_hit _ _ _) eqn:Hh; [|by apply (does_ret X _ (fun _ => True))].
  apply (does_ret X _ (fun s => ended s id)); [|by right]. apply hit_ends; [intros c; apply fail_ends| |done].
  unfold row_hit in Hh. destruct (batches s3 !! id) as [b|] eqn:E; [|done]. exact (i_born _ HI3 id b E).
Qed.

Lemma reap_each_ok (reap : string -> task (result Exn bool)) ids s :
  (forall id s, does X (reap id) (fun _ _ => True) s) -> does X (reap_each reap ids) (fun _ _ => True) s.
Proof.
  intros Hr. revert s. induction ids as [|id ids IH]; intros s; cbn [reap_each]; [by apply (does_ret X _ (fun _ => True))|].
  apply does_bind. eapply does_conseq; [apply Hr|]. intros [] s1 _; [apply IH|by apply (does_ret X _ (fun _ => True))].
Qed.

Lemma fail_one_ok id s : does X (fail_read id) (fun r s => match r with Ok true => returned s id | _ => True end) s.
Proof. apply fail_read_ok. intros []; by left. Qed.

Lemma find_then {A B : Type} (e : eff (result unit B)) (k : result Exn B -> task A) Q s :
  quiet X e -> (forall r s, does X (k r) Q s) -> does X (pbind (db e) k) Q s.
Proof. intros Hq Hk. unfold db. cbn [pbind act]. apply (does_quiet X _ (fun _ => True)); [done|done|]. intros. apply Hk. Qed.

Definition anyway {A : Type} (t : task A) : Prop := forall s, does X t (fun _ _ => True) s.

Lemma reapers_ok p sid : anyway onApplicationBootstrap /\ anyway (reapProcessingBatches p sid) /\ anyway (failUnfinishedSessionBatches sid).
Proof.
  split_and!; intros s.
  - apply find_then; [is_quiet|]. intros [] s1; [|by apply (does_ret X _ (fun _ => True))]. apply find_then; [is_quiet|].
    intros [] s2; [|by apply (does_ret X _ (fun _ => True))]. apply reap_each_ok. intros id s3. eapply does_conseq; [apply fail_one_ok|done].
  - apply find_then; [is_quiet|]. intros [] s1; [|by apply (does_ret X _ (fun _ => True))]. cbn [pbind act].
    apply (does_look X _ (fun _ => True)); [done|by intros s2 st i; cbn; auto|]. intros s2 s3 _ _ _ _ _.
    apply reap_each_ok. intros id s4. eapply does_conseq; [apply fail_one_ok|done].
  - apply find_then; [is_quiet|]. intros [] s1; [|by apply (does_ret X _ (fun _ => True))]. apply reap_each_ok. intros id s2.
    eapply does_conseq; [apply fail_read_ok|done]. intros [[b|]|]; auto.
Qed.

Lemma shutdown_ok p : anyway (onModuleDestroy p).
Proof.
  intros s. unfold onModuleDestroy. cbn [pbind act]. apply (does_look X _ (fun _ => True)); [done|by intros s1 st i; cbn; auto|].
  intros s1 s2 _ _ _ _ _. generalize (fst (shut_down (proc s1 p))). intros ids. revert s2. clear. induction ids as [|id ids IH]; intros s; cbn [fail_held]; [by apply (does_ret X _ (fun _ => True))|].
  apply does_bind. eapply does_conseq; [apply fail_one_ok|]. intros r s1 Hr. apply does_bind. apply (does_conseq X _ (fun _ _ => True)); [|intros; apply IH].
  destruct r as [[]|]; try (by apply (does_ret X _ (fun _ => True))). cbn [act]. apply (does_do X _ (fun s => returned s id)); [done|done|]. intros s2 H2 _.
  split; [|intros; by apply (does_ret X _ (fun _ => True))]. intros st i. cbn. destruct (decide (i = id)) as [->|Hne]; [rewrite lookup_insert_eq|rewrite lookup_insert_ne by done]; [split; [by auto|done]|by auto].
Qed.

#[local] Existing Instance stable_data.

Lemma row_data s id b : Inv s -> batches s !! id = Some b -> data s id (b_progress b) (b_results b).
Proof. intros HI Hb. destruct (i_rows _ HI id b Hb). split_and!; try done. intros b' Hb'. congruence. Qed.

Lemma cancelBatch_ok p sid batchId : anyway (cancelBatch p sid batchId).
Proof.
  intros s. unfold cancelBatch, db. cbn [pbind act].
  apply (does_read X _ (fun _ => True) (FindBatch sid batchId) _ (fun s e => forall id b, e = Some (id, b) -> batches s !! id = Some b)); [done|is_quiet| |].
  { intros s1 r s2 [_ [->| ->]]; [done|]. intros id b E. apply find_some in E as [E _]. apply elem_of_map_to_list. by apply list_elem_of_In. }
  clear s. intros r s _ HI Hr. destruct r as [[[id b]|]|]; cbn [pbind]; [|by apply (does_ret X _ (fun _ => True))..].
  specialize (Hr id b eq_refl). destruct (unfinished (b_status b)) eqn:Hu; cbn [negb]; [|by apply (does_ret X _ (fun _ => True))].
  destruct (i_rows _ HI id b Hr) as [_ R2 _ _ _ _ _ _ R9].
  set (K := fun s => id ∈ born s /\ data s id (count_cancelled (b_progress b)) (b_results b)). assert (Stable X K) as SK by apply _.
  assert (K s) as HK by (split; [exact (i_born _ HI id b Hr)|apply data_cancelled; [by apply R9|by apply row_data]]).
  cbn [pbind act]. apply (does_do X _ K); [done|done|]. clear HK HI Hr. intros s1 [H1 H2] HI1. split; [done|]. intros [] s2 -> HI2.
  unfold update, db. cbn [pbind act]. apply (does_quiet X _ K); [split; [exact H1|exact H2]|is_quiet|]. intros now s3 H3 _.
  apply (does_update X _ K); [done| |].
  - intros s4 [_ (D1 & D2 & D3 & D4 & D5)] _. split_and!; [|done|done|done]. intros row Hrow. rewrite (D5 row Hrow). unfold stripBatchMediaPayloads. by rewrite length_map.
  - intros r s4 s5 _ _ _ _ _ _. destruct r as [[]|]; cbn [pbind act]; try (by apply (does_ret X _ (fun _ => True))).
    apply (does_quiet X _ (fun _ => True)); [done|is_quiet|]. intros [] s6 _ _; by apply (does_ret X _ (fun _ => True)).
Qed.

Lemma getBatchStatus_ok sid batchId : anyway (getBatchStatus sid batchId).
Proof. intros s. apply find_then; [is_quiet|]. intros [] s1; by apply (does_ret X _ (fun _ => True)). Qed.
End others.

(** ** Everything that runs *)

Section service_ok.
Context (mediaMaxBytes maxChars : Z) (hostname : string -> option string) (maxConcurrentBatches : Z) (sha256 : string -> string).

Abbreviation safely X t := (holds run gain rely pre Inv X t (fun _ _ _ => True)).

Lemma does_safely {A : Type} X (t : task A) Q s : does X t Q s -> safely X t s.
Proof. intros H. refine (holds_conseq run gain rely pre Inv X t _ _ s H _). done. Qed.

Lemma safely_quiet {A B : Type} X (e : eff B) (k : B -> task A) s : quiet X e -> (forall b s, safely X (k b) s) -> safely X (Do e k) s.
Proof. intros (Hp & Hg & _) Hk s1 _ _. split; [apply Hp|]. intros b s2 _ _. rewrite Hg, union_empty_r_L. apply Hk. Qed.

Lemma safely_bind {A B : Type} X (t : task A) (f : A -> task B) s :
  safely X t s -> (forall Y a s, X ⊆ Y -> safely Y (f a) s) -> safely X (pbind t f) s.
Proof. intros Ht Hf. apply holds_bind; [exact _|]. refine (holds_conseq run gain rely pre Inv X t _ _ s Ht _). intros Y a s1 HY _. by apply Hf. Qed.

Lemma reserve_pre id draining s : local_pre {[id]} (reserve maxConcurrentBatches draining id) s.
Proof.
  intros st i. unfold reserve. destruct (_ || _); [by auto|]. destruct (_ && _); [by auto|]. cbn.
  destruct (decide (i = id)) as [->|Hne]; [rewrite lookup_insert_eq|rewrite lookup_insert_ne by done]; [|by auto]. split; [done|]. right. set_solver.
Qed.

(** The id is drawn, the batch registered, saved and run. *)
Lemma admit_ok p sid batchId messages options draining s :
  safely ∅ (let! id := act MintId in
            let! reservation := act (Local p (reserve maxConcurrentBatches draining id)) in
            match reservation with
            | RClosed => Ret (Err (Unavailable true))
            | RFull => Ret (Err TooMany)
            | RReserved => save_and_run mediaMaxBytes maxChars hostname p id (new_batch batchId sid messages options)
            end)%prog s.
Proof.
  cbn [pbind act]. intros s1 _ HI1. split; [done|]. intros id s2 [Hid ->] HI2. cbn [gain]. rewrite union_empty_l_L.
  assert (id ∉ born s1) as Hb by (intros Hb; by apply Hid, (i_minted _ HI1)).
  assert (id ∉ freed s1) as Hf by (intros Hf; by apply Hb, (i_freed _ HI1)).
  apply (does_safely _ _ (fun _ _ => True)).
  set (K := fun s : World => id ∉ born s /\ id ∉ freed s).
  assert (Stable {[id]} K) as SK by (apply stable_and; [apply stable_unborn|apply stable_unfreed]; set_solver).
  apply (does_do {[id]} _ K); [by split|done|]. intros s3 [H3 H4] HI3. split; [apply reserve_pre|].
  intros r s4 [-> ->] HI4. destruct (fst _); [by apply (does_ret _ _ (fun _ => True))..|]. apply save_and_run_ok; [set_solver|exact H3|exact H4].
Qed.
Lemma createBatch_ok p sid dto s : safely ∅ (createBatch mediaMaxBytes maxChars hostname maxConcurrentBatches sha256 p sid dto) s.
Proof.
  assert (forall (e : Exn) s, safely ∅ (Ret (Err e) : task (result Exn string)) s) as Hret by done.
  unfold createBatch. cbn [pbind act]. apply safely_quiet; [is_quiet|]. clear s. intros [] s; cbn [negb]; [|apply Hret].
  destruct (item_checks _ _ _); [|apply Hret].
  assert (forall batchId s, safely ∅ (if String.eqb batchId "." || String.eqb batchId ".." then Ret (Err Refused)
    else let? existing := db (FindBatch sid batchId) in
         if bool_decide (is_Some (fst <$> existing)) then Ret (Err Refused)
         else let! draining := act Draining in
              let! id := act MintId in
              let! reservation := act (Local p (reserve maxConcurrentBatches draining id)) in
              match reservation with
              | RClosed => Ret (Err (Unavailable true))
              | RFull => Ret (Err TooMany)
              | RReserved => save_and_run mediaMaxBytes maxChars hostname p id (new_batch batchId sid (distinctEntries sha256 (q_messages dto)) (q_options dto))
              end)%prog s) as Hrest.
  { intros batchId s1. destruct (_ || _); [apply Hret|]. unfold db. cbn [pbind act]. apply safely_quiet; [is_quiet|]. intros [row|] s2; cbn [pbind]; [|apply Hret].
    destruct (bool_decide _); [apply Hret|]. cbn [pbind act]. apply safely_quiet; [is_quiet|]. intros draining s3. apply admit_ok. }
  destruct (JsString.truthy _); cbn [pbind act]; [apply Hrest|]. apply safely_quiet; [is_quiet|]. intros b s1. apply Hrest.
Qed.

Lemma bulk_starts_ok s t : Inv s -> starts mediaMaxBytes maxChars hostname maxConcurrentBatches sha256 s t -> safely ∅ t s.
Proof.
  intros _ Hst. assert (forall A (u : task A), (forall s, safely ∅ u s) -> safely ∅ (ignore u) s) as Hig.
  { intros A u Hu. apply safely_bind; [apply Hu|done]. }
  assert (forall A (u : task A), anyway ∅ u -> safely ∅ (ignore u) s) as Hany.
  { intros A u Hu. apply Hig. intros s1. exact (does_safely _ _ _ _ (Hu s1)). }
  destruct Hst.
  - apply Hig. intros s1. apply createBatch_ok.
  - apply Hany, cancelBatch_ok.
  - apply Hany, getBatchStatus_ok.
  - apply Hany. exact (proj1 (reapers_ok ∅ 0%nat "")).
  - apply Hany, reapers_ok.
  - apply Hany. apply (reapers_ok ∅ 0%nat).
  - exact (does_safely _ _ _ _ (shutdown_ok ∅ p s)).
Qed.

Lemma bulk_fresh_inv now : Inv (fresh now).
Proof.
  split; cbn; try done; try (by intros *; rewrite ?lookup_empty; intros; set_solver).
  all: try (intros * H; by apply not_elem_of_nil in H).
Qed.
Abbreviation reach := (reachable mediaMaxBytes maxChars hostname maxConcurrentBatches sha256).
Abbreviation steps := (rtc (pool_step run env (starts mediaMaxBytes maxChars hostname maxConcurrentBatches sha256))).

Lemma bulk_inv now c : reach now c -> Inv (snd c).
Proof.
  intros Hr. exact (owned_invariant run env _ minted gain le rely pre Inv bulk_run_ok bulk_env_ok bulk_starts_ok (fresh now) c (bulk_fresh_inv now) Hr).
Qed.

Lemma bulk_le now c c' : reach now c -> steps c c' -> le (snd c) (snd c').
Proof.
  intros Hr. exact (owned_knows run env _ minted gain le rely pre Inv bulk_run_ok bulk_env_ok bulk_starts_ok (fresh now) c c' (bulk_fresh_inv now) Hr).
Qed.

Lemma ordered_app l1 l2 : ordered (l1 ++ l2) -> ordered l2.
Proof. induction l1 as [|[id i] l1 IH]; [done|]. intros [_ H]. by apply IH. Qed.

Lemma ordered_nodup l : ordered l -> NoDup l.
Proof.
  induction l as [|[id i] l IH]; [constructor|]. intros [H1 H2]. constructor; [|by apply IH]. intros Hin. specialize (H1 i Hin). lia.
Qed.

(** ** The theorems *)

(** C9. However the requests, runs, cancellations, takeovers, restarts and
    failures of any number of processes interleave, the engine is asked for an item
    of a batch at most once, a batch's items are asked for in their order, and none
    is asked for of a batch whose caller was told it may repeat the request. *)
Theorem bulk_items_sent_once now c :
  reachable mediaMaxBytes maxChars hostname maxConcurrentBatches sha256 now c ->
  NoDup (sends (snd c)) /\
  (forall l1 id i l2, sends (snd c) = (l1 ++ (id, i) :: l2)%list -> forall j, (id, j) ∈ l2 -> (j < i)%nat) /\
  (forall id i, id ∈ freed (snd c) -> (id, i) ∉ sends (snd c)).
Proof.
  intros Hr. pose proof (bulk_inv now c Hr) as HI. split_and!; [apply ordered_nodup, HI| |].
  - intros l1 id i l2 E. pose proof (i_order _ HI) as Ho. rewrite E in Ho. apply ordered_app in Ho. apply Ho.
  - intros id i Hf Hin. destruct (i_freed _ HI id Hf) as [_ Hn]. apply elem_of_mine in Hin. rewrite Hn in Hin. by apply not_elem_of_nil in Hin.
Qed.

(** C24. The outcome of a batch is final: once its row has a terminal status no
    later step gives it another one, a row that is gone never comes back, and its
    total never changes. *)
Theorem bulk_outcome_is_final now c c' id :
  reachable mediaMaxBytes maxChars hostname maxConcurrentBatches sha256 now c -> steps c c' -> id ∈ born (snd c) ->
  (batches (snd c) !! id = None -> batches (snd c') !! id = None) /\
  (forall b b', batches (snd c) !! id = Some b -> batches (snd c') !! id = Some b' ->
     total (b_progress b') = total (b_progress b) /\ (unfinished (b_status b) = false -> b_status b' = b_status b)).
Proof. intros Hr Hs Hb. pose proof (bulk_le now c c' Hr Hs) as L. split; [by apply (le_gone _ _ L)|]. intros b b'. by apply (le_row _ _ L id). Qed.

(** C23. What a batch reports is true at every moment: its counts are not negative
    and add up to its total, which is the number of its messages; it counts no more
    items sent than the engine accepted, and every result that says sent is of an
    accepted item; and a completed batch tried every item, has a result for each,
    counts exactly the accepted ones and shows every one of them as sent. *)
Theorem bulk_counts_are_truthful now c id b :
  reachable mediaMaxBytes maxChars hostname maxConcurrentBatches sha256 now c -> batches (snd c) !! id = Some b ->
  counts_ok (b_progress b) /\ total (b_progress b) = Z.of_nat (length (b_messages b)) /\
  sent (b_progress b) <= count id (accepted (snd c)) /\ results_ok (snd c) id (b_results b) /\
  (b_status b = COMPLETED -> complete (snd c) id (b_progress b) (b_results b)).
Proof. intros Hr Hb. by destruct (i_rows _ (bulk_inv now c Hr) id b Hb). Qed.

(** A run that returns without an exception leaves nothing running: a caller
    asked to cancel the batch, or its row has a terminal status or is gone. *)
Theorem returned_runs_end_their_batch now c id :
  reachable mediaMaxBytes maxChars hostname maxConcurrentBatches sha256 now c -> id ∈ finished (snd c) ->
  id ∈ cancels (snd c) \/ forall b, batches (snd c) !! id = Some b -> unfinished (b_status b) = false.
Proof. intros Hr Hf. destruct (i_finished _ (bulk_inv now c Hr) id Hf) as [Hc|[_ He]]; auto. Qed.
End service_ok.

(** ** A run *)

(** Statements that succeed; the engine refuses the second item. *)
Definition bulk_answer_w (B : Type) (e : eff B) (s : World) : option (B * World) :=
  match e in eff B return option (B * World) with
  | Now => Some (clock s, s)
  | Local p f => Some (fst (f (proc s p)), with_proc s p (snd (f (proc s p))))
  | Signal p id => Some (tt, signal p id s)
  | FindRow id => Some (Ok (batches s !! id), s)
  | FindBatch sid batchId => Some (Ok (List.find (fun e => same_batch sid batchId (snd e)) (map_to_list (batches s))), s)
  | FindUnfinished sid => Some (Ok (map fst (List.filter (fun e => unfinished (b_status (snd e)) &&
      match sid with Some sid => String.eqb (b_sessionId (snd e)) sid | None => true end) (map_to_list (batches s)))), s)
  | Claimable ids => Some (Ok ids, s)
  | Update id st => Some (Ok (row_hit id st s), update_row id st s)
  | InsertRow id b => Some (if taken (b_sessionId b) (b_batchId b) s then (UniqueViolation, s) else (Inserted, insert_row id b s))
  | DeleteUnsent id => Some (Ok (unsent s id), delete_unsent id s)
  | MintId => if decide ("1" ∈ minted s) then None
      else Some ("1", mkWorld (batches s) (procs s) (clock s) ({["1"]} ∪ minted s) (born s) (sends s) (accepted s) (cancels s) (freed s) (finished s))
  | MintBatchId => Some ("batch", s)
  | Current => Some (true, s)
  | EngineReady => Some (true, s)
  | Draining => Some (false, s)
  | Admit _ => Some (Ok tt, s)
  | SettleAdmission _ => Some (tt, s)
  | Breaker _ => Some (tt, s)
  | Gate _ _ => Some (Continues None, s)
  | Send id i _ => Some (if (i =? 1)%nat then (Err (mkEngineError (OtherError "refused") plain_error), log_send id i false s) else (Ok "m", log_send id i true s))
  | MessageFailed _ _ _ => Some (tt, s)
  | Persist _ _ _ _ => Some (tt, s)
  | Sleep _ => Some (tt, s)
  | RunReturned id => Some (tt, mkWorld (batches s) (procs s) (clock s) (minted s) (born s) (sends s) (accepted s) (cancels s) (freed s) ({[id]} ∪ finished s))
  end.

Lemma bulk_answer_w_ok B (e : eff B) s b s1 : bulk_answer_w B e s = Some (b, s1) -> run B e s b s1.
Proof.
  destruct e; cbn [bulk_answer_w run]; try (intros [= <- <-]; auto; done).
  - intros [= <- <-]. split; [done|]. right. exists ids. by split.
  - destruct (taken _ _ _); intros [= <- <-]; right; auto.
  - destruct (decide _); intros [= <- <-]; done.
  - destruct (i =? 1)%nat; intros [= <- <-]; done.
Qed.

Definition text_w (to text : string) : Item := mkItem to "text" (JObj [("text", JStr text)]) None.
Definition dto_w : BulkRequest := mkBulk [text_w "1@c.us" "a"; text_w "2@c.us" "b"; text_w "3@c.us" "c"] None (mkOptions 1000 false false).
Definition host_w (_ : string) : option string := None.
Definition hash_w (s : string) : string := s.
Definition create_w : task unit := ignore (createBatch 1000 1000 host_w 5 hash_w 0 "s" dto_w).
Definition cancel_w : task unit := ignore (cancelBatch 0 "s" "batch").
Definition bulk_w0 : World := fresh 0.
Definition bulk_after (t : task unit) (s : World) : World := match play bulk_answer_w t s with Some (_, s') => s' | None => s end.
Definition bulk_w1 : World := bulk_after create_w bulk_w0.
Definition bulk_w2 : World := bulk_after cancel_w bulk_w1.

Abbreviation bulk_steps_w := (rtc (pool_step run env (starts 1000 1000 host_w 5 hash_w))).

Lemma bulk_then t ts s :
  starts 1000 1000 host_w 5 hash_w s t -> bool_decide (is_Some (play bulk_answer_w t s)) = true -> bulk_steps_w (ts, s) (Ret tt :: ts, bulk_after t s).
Proof.
  intros Hst Hp. eapply rtc_l; [by apply ps_start|]. apply exec_steps. unfold bulk_after.
  apply bool_decide_eq_true_1 in Hp. destruct (play bulk_answer_w t s) as [[[] s']|] eqn:E; [|by destruct Hp].
  exact (play_exec _ bulk_answer_w bulk_answer_w_ok t _ tt s' E).
Qed.

Lemma bulk_reach_1 : reachable 1000 1000 host_w 5 hash_w 0 ([Ret tt], bulk_w1).
Proof. refine (bulk_then create_w [] bulk_w0 _ _); [apply st_create|vm_compute; done]. Qed.
Lemma bulk_steps_2 : bulk_steps_w ([Ret tt], bulk_w1) ([Ret tt; Ret tt], bulk_w2).
Proof. refine (bulk_then cancel_w [Ret tt] bulk_w1 _ _); [apply st_cancel|vm_compute; done]. Qed.

Lemma bulk_items_sent_once_witness :
  sends bulk_w1 = [("1", 2%nat); ("1", 1%nat); ("1", 0%nat)] /\ NoDup (sends bulk_w1).
Proof. split; [vm_compute; reflexivity|]. exact (proj1 (bulk_items_sent_once 1000 1000 host_w 5 hash_w 0 _ bulk_reach_1)). Defined.

Definition row_in (s : World) : MessageBatch := default (new_batch "" "" [] (mkOptions 0 false false)) (batches s !! "1").
Definition row_w : MessageBatch := row_in bulk_w1.
Lemma row_w_found : batches bulk_w1 !! "1" = Some row_w.
Proof. vm_compute. reflexivity. Qed.
Lemma row_w_kept : batches bulk_w2 !! "1" = Some (row_in bulk_w2).
Proof. vm_compute. reflexivity. Qed.

Lemma bulk_outcome_is_final_witness : b_status row_w = COMPLETED /\ b_status (row_in bulk_w2) = b_status row_w.
Proof.
  split; [vm_compute; reflexivity|].
  refine (proj2 (proj2 (bulk_outcome_is_final 1000 1000 host_w 5 hash_w 0 _ _ "1" bulk_reach_1 bulk_steps_2 _) row_w (row_in bulk_w2) row_w_found row_w_kept) _); vm_compute; reflexivity.
Defined.

Lemma bulk_counts_are_truthful_witness :
  accepted bulk_w1 = [("1", 2%nat); ("1", 0%nat)] /\ complete bulk_w1 "1" (b_progress row_w) (b_results row_w).
Proof.
  split; [vm_compute; reflexivity|].
  destruct (bulk_counts_are_truthful 1000 1000 host_w 5 hash_w 0 _ "1" row_w bulk_reach_1 row_w_found) as (_ & _ & _ & _ & H). apply H. vm_compute. reflexivity.
Defined.

Lemma returned_runs_end_their_batch_witness :
  "1" ∈ finished bulk_w1 /\ ("1" ∈ cancels bulk_w1 \/ forall b, batches bulk_w1 !! "1" = Some b -> unfinished (b_status b) = false).
Proof.
  assert ("1" ∈ finished bulk_w1) as Hin by (vm_compute; reflexivity). split; [exact Hin|].
  exact (returned_runs_end_their_batch 1000 1000 host_w 5 hash_w 0 _ "1" bulk_reach_1 Hin).
Defined.

(** ** A cancel whose UPDATE fails *)

(** The same answers, except that no UPDATE goes through. *)
Definition failing_answer_w (B : Type) (e : eff B) (s : World) : option (B * World) :=
  match e in eff B return option (B * World) with
  | Update id st => Some (Err tt, s)
  | e => bulk_answer_w _ e s
  end.

Lemma failing_answer_w_ok B (e : eff B) s b s1 : failing_answer_w B e s = Some (b, s1) -> run B e s b s1.
Proof. destruct e; try (by apply bulk_answer_w_ok). intros [= <- <-]. by left. Qed.

(** The batch is inserted; a caller's cancel fails; the run is picked up. *)
Definition saved_w : task unit * World := advance bulk_answer_w 8 create_w bulk_w0.
Definition cancelled_w : task unit * World := advance failing_answer_w 10 cancel_w (snd saved_w).
Definition stranded_w : task unit * World := advance bulk_answer_w 100 (fst saved_w) (snd cancelled_w).

(** [cancelBatch] marks the run as stopped before its UPDATE.  When that UPDATE
    fails and the run has not been picked up yet, the run returns at once: nothing
    is running any more, and the row stays pending. *)
Theorem failed_cancel_strands_a_batch :
  exists c, reachable 1000 1000 host_w 5 hash_w 0 c /\ fst c = [Ret tt; Ret tt] /\
    "1" ∈ finished (snd c) /\ b_status <$> batches (snd c) !! "1" = Some PENDING /\ sends (snd c) = [].
Proof.
  exists ([fst cancelled_w; fst stranded_w], snd stranded_w). split; [|vm_compute; done].
  eapply rtc_l; [apply ps_start, st_create|]. etrans; [exact (advance_steps run env _ bulk_answer_w bulk_answer_w_ok 8 [] create_w [] bulk_w0)|].
  eapply rtc_l; [apply ps_start, (st_cancel _ _ _ _ _ _ 0 "s" "batch")|].
  etrans; [exact (advance_steps run env _ failing_answer_w failing_answer_w_ok 10 [] cancel_w [fst saved_w] (snd saved_w))|].
  exact (advance_steps run env _ bulk_answer_w bulk_answer_w_ok 100 [fst cancelled_w] (fst saved_w) [] (snd cancelled_w)).
Qed.
