(* ===== verification/IngressAuth.v ===== *)
(** * Provider deliveries: authentication, acknowledgement, identity

    The pure parts of modules/integration an inbound provider delivery goes through:
    ingress-signature.ts (the signature schemes and the replay window), ingress-ack.ts
    (the acknowledgement and what of it may reach the wire), ingress-preflight.ts, and
    of ingress.service.ts the delivery id, the conversation id and the redaction of
    headers.  Node's SHA-256 and HMAC are parameters, and so is [JSON.parse]. *)
From stdpp Require Import pretty.
From S2P Require Import Prelude JsString Json IpAddr Base64 Template.
Local Open Scope string_scope.
Local Open Scope Z_scope.
Local Open Scope result_scope.

Definition Headers := list (string * string).

(** ** Numbers and bytes *)

(** The integers that round to a finite double. *)
Definition finite_double (n : Z) : bool := Z.abs n <? 2 ^ 1024 - 2 ^ 970.

(** [Number.parseInt(s, 10)], [None] when that is [NaN] or infinite. *)
Definition parseInt10 (s : string) : option Z :=
  let s := trimStart s in
  let '(neg, s) := match s with String c r => if Ascii.eqb c "-" then (true, r) else if Ascii.eqb c "+" then (false, r) else (false, s) | EmptyString => (false, s) end in
  let digits := fst (span is_digit s) in
  if String.eqb digits "" then None
  else let n := digits_val 0 digits in if finite_double n then Some (if neg then - n else n) else None.

(** The UTF-8 bytes of a string. *)
Fixpoint utf8 (s : string) : string :=
  match s with
  | EmptyString => ""
  | String c r =>
      (if (code c <? 128)%N then String c (utf8 r) else String (ascii_of_N (192 + code c / 64)) (String (ascii_of_N (128 + code c mod 64)) (utf8 r)))%N
  end.

Fixpoint toHex (bytes : string) : string :=
  match bytes with
  | EmptyString => ""
  | String c r => String (hex_digit (nat_of_ascii c / 16)) (String (hex_digit (nat_of_ascii c mod 16)) (toHex r))
  end.

(** ** Signatures *)

Inductive Scheme := HmacSha256 | SharedSecret | StandardWebhooks | NoScheme.
Inductive Encoding := Hex | Base64Enc.
Record SignatureSpec := mkSig {
  scheme : Scheme; sig_header : option string; contentTemplate : option string; encoding : option Encoding;
  sig_prefix : option string; timestampHeader : option string; toleranceSec : option Z; sig_dedupHeader : option string }.
Record VerifyInput := mkVerify { v_rawBody : string; v_headers : Headers; v_secret : string; v_now : Z; v_instanceId : string }.

(** [parsed] is the integer [INGRESS_TIMESTAMP_TOLERANCE_SEC] reads as, if it does. *)
Definition resolveIngressTimestampToleranceSec (parsed : option Z) : Z :=
  match parsed with Some n => if 0 <? n then n else 300 | None => 300 end.

Definition header (headers : Headers) (name : option string) : option string :=
  name ← truthy name; JMap.get (toLowerCase name) headers.

Definition parseWebhookSecret (secret : string) : option string :=
  let s := trim secret in
  let s := if startsWith s "v1," then drop_chars 3 s else s in
  let s := if startsWith s "whsec_" then drop_chars 6 s else s in
  truthy (Some s).

(** [Math.abs(now / 1000 - ts) > tolerance], [now] in milliseconds. *)
Definition outside (now ts tolerance : Z) : bool := 1000 * tolerance <? Z.abs (now - 1000 * ts).

(** The value of the token a template has at this point, and the token's length. *)
Definition token_at (rawBody timestamp id : string) (s : string) : option (string * nat) :=
  if startsWith s "{rawBody}" then Some (rawBody, 9%nat)
  else if startsWith s "{timestamp}" then Some (timestamp, 11%nat)
  else if startsWith s "{id}" then Some (id, 4%nat)
  else None.

(** [template.replace(/{rawBody}|{timestamp}|{id}/g, ...)]: one pass from the left,
    [skip] characters of a token left to pass over. *)
Fixpoint replaceTokens (rawBody timestamp id : string) (skip : nat) (template : string) : string :=
  match template with
  | EmptyString => ""
  | String c r =>
      match skip with
      | S n => replaceTokens rawBody timestamp id n r
      | O => match token_at rawBody timestamp id template with
             | Some (value, len) => value +:+ replaceTokens rawBody timestamp id (len - 1) r
             | None => String c (replaceTokens rawBody timestamp id 0 r)
             end
      end
  end.

Section crypto.
(** [createHash('sha256')] and [createHmac('sha256', key)] on bytes, the random key of
    the process, and the replay window of the host. *)
Context (sha256 : string -> string) (hmac : string -> string -> string) (EQ_KEY : string) (hostTolerance : Z).

Definition constantTimeEqual (a b : string) : bool := String.eqb (sha256 (EQ_KEY +:+ utf8 a)) (sha256 (EQ_KEY +:+ utf8 b)).

Definition digest (key content : string) (e : Encoding) : string :=
  let d := hmac key (utf8 content) in match e with Hex => toHex d | Base64Enc => toBase64 d end.

(** The candidates of a Standard Webhooks signature header. *)
Definition candidate_ok (expected candidate : string) : bool :=
  match lsplit "," candidate with
  | Some (version, signature) => String.eqb version "v1" && constantTimeEqual signature expected
  | None => false
  end.

Definition verifyStandardWebhooks (spec : SignatureSpec) (input : VerifyInput) : result string unit :=
  match parseWebhookSecret (v_secret input) with
  | None => Err "empty standard-webhooks secret"
  | Some keyB64 =>
      let key := fromBase64 keyB64 in
      ensure negb (String.eqb key "") else "standard-webhooks secret decodes to empty key" ;;
      match truthy (header (v_headers input) (Some "webhook-id")), truthy (header (v_headers input) (Some "webhook-timestamp")), truthy (header (v_headers input) (Some "webhook-signature")) with
      | Some id, Some tsRaw, Some sigHeader =>
          match parseInt10 tsRaw with
          | None => Err "invalid webhook-timestamp"
          | Some ts =>
              ensure negb (outside (v_now input) ts (default hostTolerance (toleranceSec spec))) else "replay: timestamp outside tolerance" ;;
              let expected := digest key (id +:+ "." +:+ tsRaw +:+ "." +:+ v_rawBody input) Base64Enc in
              if existsb (candidate_ok expected) (split_char " " sigHeader) then Ok tt else Err "webhook-signature mismatch"
          end
      | _, _, _ => Err "missing webhook-id/webhook-timestamp/webhook-signature header"
      end
  end.

(** The replay window of a route that declares a timestamp header. *)
Definition check_timestamp (spec : SignatureSpec) (input : VerifyInput) : result string unit :=
  match truthy (timestampHeader spec) with
  | None => Ok tt
  | Some name =>
      match parseInt10 (default "" (header (v_headers input) (Some name))) with
      | None => Err "missing/invalid timestamp"
      | Some ts => ensure negb (outside (v_now input) ts (default hostTolerance (toleranceSec spec))) else "replay: timestamp outside tolerance" ;; Ok tt
      end
  end.

(** What an [hmac-sha256] route signs. *)
Definition signedContent (spec : SignatureSpec) (input : VerifyInput) : string :=
  replaceTokens (v_rawBody input) (default "" (header (v_headers input) (timestampHeader spec))) (v_instanceId input) 0 (default "{rawBody}" (contentTemplate spec)).

Definition verifyIngressSignature (spec : SignatureSpec) (input : VerifyInput) : result string unit :=
  match scheme spec with
  | NoScheme => Ok tt
  | _ =>
      ensure negb (String.eqb (v_secret input) "") else "empty ingress secret" ;;
      match scheme spec with
      | StandardWebhooks => verifyStandardWebhooks spec input
      | _ =>
          let* _ := check_timestamp spec input in
          match truthy (header (v_headers input) (sig_header spec)) with
          | None => Err "missing signature header"
          | Some provided =>
              match scheme spec with
              | SharedSecret => if constantTimeEqual provided (v_secret input) then Ok tt else Err "shared-secret mismatch"
              | _ =>
                  let expected := default "" (sig_prefix spec) +:+ digest (utf8 (v_secret input)) (signedContent spec input) (default Hex (encoding spec)) in
                  if constantTimeEqual provided expected then Ok tt else Err "hmac mismatch"
              end
          end
      end
  end.

(** [Object.keys(query).length > 0] of an empty body. *)
Definition isQueryBorne (rawBody : string) (query : list (string * string)) : bool :=
  String.eqb rawBody "" && match query with [] => false | _ => true end.

Definition ingressDeliveryVerified (sch : Scheme) (rawBody : string) (query : list (string * string)) : bool :=
  match sch with NoScheme => false | SharedSecret => true | _ => negb (isQueryBorne rawBody query) end.

(** ** The identity of a delivery *)

(** [Object.entries(query).sort(...)]: by key, code unit by code unit. *)
Fixpoint insert_entry (e : string * string) (l : list (string * string)) : list (string * string) :=
  match l with [] => [e] | x :: r => if String.leb (fst e) (fst x) then e :: l else x :: insert_entry e r end.
Definition sorted_entries (query : list (string * string)) : list (string * string) := fold_right insert_entry [] query.

(** [JSON.stringify] of a list of pairs of strings. *)
Definition pairs_text (l : list (string * string)) : string := json_text (JArr (map (fun e => JArr [JStr (fst e); JStr (snd e)]) l)).

Definition nul : string := String (ascii_of_nat 0) "".
Definition deriveDeliveryId (pluginId instanceId route method : string) (query : list (string * string)) (rawBody : string) : string :=
  let parts := [pluginId; instanceId; route; rawBody] in
  let parts := if isQueryBorne rawBody query then (parts ++ [method; pairs_text (sorted_entries query)])%list else parts in
  toHex (sha256 (utf8 (join nul parts))).
End crypto.

(** ** The conversation of a delivery *)

(** A pointer into a body: an unescaped [~] must be followed by 0 or 1. *)
Fixpoint bad_escape (token : string) : bool :=
  match token with
  | EmptyString => false
  | String c r =>
      if Ascii.eqb c "~" then match r with String d r' => negb (Ascii.eqb d "0" || Ascii.eqb d "1") || bad_escape r | EmptyString => true end
      else bad_escape r
  end.

(** [token.replace(/~x/g, value)] for a two-character pattern. *)
Fixpoint replace_tilde (x value : ascii) (s : string) : string :=
  match s with
  | String c (String d r as t) => if Ascii.eqb c "~" && Ascii.eqb d x then String value (replace_tilde x value r) else String c (replace_tilde x value t)
  | _ => s
  end.
Definition unescape_token (token : string) : string := replace_tilde "0" "~" (replace_tilde "1" "/" token).

(** A decimal index without leading zeros. *)
Definition array_index (key : string) : option nat :=
  match key with
  | String c r =>
      if negb (is_digit c) || negb (all_chars is_digit r) || (Ascii.eqb c "0" && negb (String.eqb r "")) then None
      else Some (Z.to_nat (digits_val 0 key))
  | EmptyString => None
  end.

Definition member (node : json) (key : string) : option json :=
  match node with
  | JObj _ => field node key
  | JArr l => i ← array_index key; l !! i
  | _ => None
  end.

Fixpoint resolve_tokens (tokens : list string) (node : json) : option json :=
  match tokens with
  | [] => Some node
  | token :: r => if bad_escape token then None else n ← member node (unescape_token token); resolve_tokens r n
  end.

Definition scalar_text (node : json) : option string :=
  match node with
  | JStr s => Some s
  | JNum n => Some (pretty n)
  | JBool b => Some (if b then "true" else "false")
  | _ => None
  end.

Record ConversationSpec := mkConvSpec { conv_header : option string; jsonPointer : option string }.

Definition extractConversationId (parse : string -> option json) (spec : option ConversationSpec) (headers : Headers) (rawBody : string) : option string :=
  spec ← spec;
  match truthy (name ← truthy (conv_header spec); JMap.get (toLowerCase name) headers) with
  | Some v => Some v
  | None =>
      pointer ← truthy (jsonPointer spec);
      node ← parse rawBody;
      let path := if startsWith pointer "/" then drop_chars 1 pointer else pointer in
      node ← resolve_tokens (split_char "/" path) node;
      scalar_text node
  end.

(** ** Redaction *)

Definition SENSITIVE_INGRESS_HEADERS : list string :=
  ["authorization"; "proxy-authorization"; "cookie"; "x-hub-signature"; "x-hub-signature-256"; "x-signature"; "x-signature-ed25519"; "x-webhook-signature"; "webhook-signature"].
Definition sensitive (extra : option string) (name : string) : bool :=
  bool_decide (toLowerCase name ∈ SENSITIVE_INGRESS_HEADERS) || bool_decide (Some (toLowerCase name) = (toLowerCase <$> extra)).
Definition redactSensitiveHeaders (headers : Headers) (credentialHeader : option string) : Headers :=
  map (fun e => (fst e, if sensitive credentialHeader (fst e) then "[redacted]" else snd e)) headers.

(** ** Acknowledgements *)

Record AckSpec := mkAckSpec { ack_status : option Z; ack_body : option string; ack_headers : option Headers }.
Record AckResult := mkAck { status : Z; body : option string; headers : option Headers }.

Definition renderAck (spec : option AckSpec) (rawBody timestamp id : string) : AckResult :=
  match spec with
  | None => mkAck 202 (Some "accepted") None
  | Some spec => mkAck (default 202 (ack_status spec)) (replaceTokens rawBody timestamp id 0 <$> ack_body spec) (ack_headers spec)
  end.

Definition RESERVED_ACK_HEADERS : list string :=
  ["content-type"; "content-length"; "transfer-encoding"; "content-encoding"; "trailer"; "content-security-policy"; "x-content-type-options";
   "x-frame-options"; "strict-transport-security"; "referrer-policy"; "set-cookie"; "access-control-allow-origin"; "access-control-allow-credentials"].
Definition safeAckHeaders (headers : option Headers) : Headers :=
  List.filter (fun e => negb (bool_decide (toLowerCase (fst e) ∈ RESERVED_ACK_HEADERS))) (default [] headers).

Definition HONORED_ACK_MEDIA_TYPES : list string := ["application/json"; "text/plain"].
Definition ackContentType (headers : option Headers) : string :=
  let declared := snd <$> List.find (fun e => String.eqb (toLowerCase (fst e)) "content-type") (default [] headers) in
  match truthy declared with
  | None => "text/plain"
  | Some d =>
      let mediaType := toLowerCase (trim (default "" (head (split_char ";" d)))) in
      if bool_decide (mediaType ∈ HONORED_ACK_MEDIA_TYPES) then mediaType else "text/plain"
  end.

(** ** The host-side checks *)

Inductive EngineStatus := DISCONNECTED | INITIALIZING | QR_READY | AUTHENTICATING | READY | ACTION_REQUIRED | FAILED.
(** The checks a manifest may declare; one the host does not know is passed over. *)
Inductive PreflightCheck := SessionAlive | OtherCheck.

Definition retryable503 (text : string) : AckResult := mkAck 503 (Some text) (Some [("Retry-After", "5")]).
Definition pluginRestoringRejection : AckResult := retryable503 "plugin restoring".

Fixpoint evaluatePreflight (checks : list PreflightCheck) (sessionScope : option string) (sessionStatus : option (string -> option EngineStatus)) : option AckResult :=
  match checks with
  | [] => None
  | OtherCheck :: r => evaluatePreflight r sessionScope sessionStatus
  | SessionAlive :: r =>
      match truthy sessionScope, sessionStatus with
      | Some scope, Some probe =>
          if String.eqb scope "*" then evaluatePreflight r sessionScope sessionStatus
          else match probe scope with
               | None | Some FAILED => Some (retryable503 "session not ready")
               | Some _ => evaluatePreflight r sessionScope sessionStatus
               end
      | _, _ => evaluatePreflight r sessionScope sessionStatus
      end
  end.

(** ** Encodings are faithful *)

Lemma utf8_inj a b : utf8 a = utf8 b -> a = b.
Proof.
  revert b. induction a as [|c a IH]; intros [|d b]; cbn; [done| | |].
  - by destruct (_ <? _)%N.
  - by destruct (_ <? _)%N.
  - assert (forall x : ascii, (code x < 256)%N) as Hlt by (intros x; apply N_ascii_bounded).
    pose proof (Hlt c). pose proof (Hlt d).
    assert (forall n, (n < 256)%N -> N_of_ascii (ascii_of_N n) = n) as Hn by (intros; by apply N_ascii_embedding).
    assert (forall k, (k < 256)%N -> (k / 64 < 4)%N) as Hq by (intros k Hk; apply N.Div0.div_lt_upper_bound; lia).
    pose proof (Hq _ (Hlt c)). pose proof (Hq _ (Hlt d)).
    destruct (N.ltb_spec (code c) 128) as [Hc|Hc], (N.ltb_spec (code d) 128) as [Hd|Hd]; intros E; injection E as E1 E2.
    + subst. f_equal. by apply IH.
    + exfalso. apply (f_equal N_of_ascii) in E1. rewrite Hn in E1 by lia. unfold code in Hc. rewrite E1 in Hc. revert Hc. clear. generalize (code d / 64)%N. lia.
    + exfalso. apply (f_equal N_of_ascii) in E1. rewrite Hn in E1 by lia. unfold code in Hd. rewrite <- E1 in Hd. revert Hd. clear. generalize (code c / 64)%N. lia.
    + match goal with E3 : utf8 a = utf8 b |- _ => apply IH in E3 as -> end. f_equal. apply (f_equal N_of_ascii) in E1, E2.
      assert (forall k, (k mod 64 < 64)%N) as Hm by (intros k; apply N.mod_lt; lia).
      pose proof (Hm (code c)). pose proof (Hm (code d)).
      rewrite !Hn in E1 by lia. rewrite !Hn in E2 by lia.
      assert (code c = code d) as E by (rewrite (N.div_mod (code c) 64), (N.div_mod (code d) 64) by lia; lia).
      unfold code in E. rewrite <- (ascii_N_embedding c), <- (ascii_N_embedding d). by rewrite E.
Qed.

Lemma hex_digit_inj m n : (m < 16)%nat -> (n < 16)%nat -> hex_digit m = hex_digit n -> m = n.
Proof.
  intros Hm Hn E.
  assert (forallb (fun p => implb (Ascii.eqb (hex_digit (fst p)) (hex_digit (snd p))) (fst p =? snd p)%nat) (List.list_prod (List.seq 0 16) (List.seq 0 16)) = true) as H by (vm_compute; reflexivity).
  rewrite forallb_forall in H. specialize (H (m, n)). cbn [fst snd] in H. rewrite E, Ascii.eqb_refl in H. apply Nat.eqb_eq, H.
  apply in_prod; apply in_seq; lia.
Qed.

Lemma toHex_inj a b : toHex a = toHex b -> a = b.
Proof.
  revert b. induction a as [|c a IH]; intros [|d b]; cbn [toHex]; [done..|]. intros E.
  assert (forall x y z x' y' z', String x (String y z) = String x' (String y' z') -> x = x' /\ y = y' /\ z = z') as Hinj by (intros *; by intros [= -> -> ->]).
  apply Hinj in E as (E1 & E2 & E3). apply IH in E3 as ->. f_equal.
  pose proof (nat_ascii_bounded c). pose proof (nat_ascii_bounded d).
  apply hex_digit_inj in E1; [|apply Nat.Div0.div_lt_upper_bound; lia..]. apply hex_digit_inj in E2; [|apply Nat.mod_upper_bound; lia..].
  rewrite <- (ascii_nat_embedding c), <- (ascii_nat_embedding d), (Nat.div_mod (nat_of_ascii c) 16), (Nat.div_mod (nat_of_ascii d) 16) by lia. by rewrite E1, E2.
Qed.

(** Reading back one character of a quoted string. *)
Definition unescape1 (s : string) : option (ascii * string) :=
  match s with
  | String c r =>
      if Ascii.eqb c backslash then
        match r with
        | String d r =>
            let n := nat_of_ascii d in
            let as_char := fun m => Some (ascii_of_nat m, r) in
            if (n =? 98)%nat then as_char 8%nat else if (n =? 116)%nat then as_char 9%nat else if (n =? 110)%nat then as_char 10%nat
            else if (n =? 102)%nat then as_char 12%nat else if (n =? 114)%nat then as_char 13%nat
            else if (n =? 117)%nat then
              match r with
              | String _ (String _ (String h (String l r))) =>
                  h ← hex_val h; l ← hex_val l; Some (ascii_of_N (Z.to_N (16 * h + l)), r)
              | _ => None
              end
            else Some (d, r)
        | EmptyString => None
        end
      else Some (c, r)
  | EmptyString => None
  end.

Lemma unescape_char c r : unescape1 (escape_char c +:+ r) = Some (c, r).
Proof. destruct c as [[] [] [] [] [] [] [] []]; reflexivity. Qed.
Lemma escape_head c : match escape_char c with String d _ => Ascii.eqb d quote_char = false | EmptyString => False end.
Proof. destruct c as [[] [] [] [] [] [] [] []]; reflexivity. Qed.

Lemma escape_cancel a b x y : escape a +:+ String quote_char x = escape b +:+ String quote_char y -> a = b /\ x = y.
Proof.
  assert (forall c s z, escape_char c +:+ s = String quote_char z -> False) as Hno.
  { intros c s z E. pose proof (escape_head c) as H. destruct (escape_char c) as [|d t]; [done|]. injection E as -> _. by rewrite Ascii.eqb_refl in H. }
  revert b. induction a as [|c a IH]; intros [|d b] E; cbn in E.
  - by injection E as ->.
  - exfalso. rewrite append_assoc in E. by apply (Hno d _ x (eq_sym E)).
  - exfalso. rewrite append_assoc in E. by apply (Hno c _ y E).
  - rewrite !append_assoc in E. apply (f_equal unescape1) in E. rewrite !unescape_char in E. injection E as -> E. by destruct (IH b E) as [-> ->].
Qed.

(** Texts that can be read off the front of a longer one. *)
Definition prefix_code {A : Type} (f : A -> string) : Prop := forall a b x y, f a +:+ x = f b +:+ y -> a = b /\ x = y.

Lemma stringify_code : prefix_code stringify.
Proof. intros a b x y E. unfold stringify in E. cbn in E. injection E as E. rewrite !append_assoc in E. by apply escape_cancel. Qed.

Definition pair_text (e : string * string) : string := json_text (JArr [JStr (fst e); JStr (snd e)]).
Lemma pair_text_app a b x : pair_text (a, b) +:+ x = String "[" (stringify a +:+ String "," (stringify b +:+ String "]" x)).
Proof. unfold pair_text. cbn [json_text map fst snd join]. rewrite !append_assoc. reflexivity. Qed.
Lemma string_tail c x y : String c x = String c y -> x = y.
Proof. by intros [= ->]. Qed.
Lemma pair_code : prefix_code pair_text.
Proof.
  intros [a1 a2] [b1 b2] x y E. rewrite !pair_text_app in E.
  apply string_tail, stringify_code in E as [-> E]. apply string_tail, stringify_code in E as [-> E%string_tail]. done.
Qed.

Lemma join_code {A : Type} (f : A -> string) l m :
  prefix_code f -> (forall a, exists r, f a = String "[" r) -> join "," (map f l) +:+ "]" = join "," (map f m) +:+ "]" -> l = m.
Proof.
  intros Hf Hh. assert (forall l, l <> [] -> exists r, join "," (map f l) +:+ "]" = String "[" r) as Hj.
  { intros [|a [|b r]] Hne; [done| |]; destruct (Hh a) as [t Ht]; cbn [map join]; rewrite Ht; eexists; cbn; reflexivity. }
  revert m. induction l as [|a l IH]; intros [|b m] E.
  - done.
  - exfalso. destruct (Hj (b :: m)) as [r Hr]; [done|]. rewrite Hr in E. done.
  - exfalso. destruct (Hj (a :: l)) as [r Hr]; [done|]. rewrite Hr in E. done.
  - assert (forall a l, join "," (map f (a :: l)) +:+ "]" = f a +:+ match l with [] => "]" | _ => "," +:+ (join "," (map f l) +:+ "]") end) as Hc.
    { intros c [|d r]; [done|]. cbn [map join]. by rewrite !append_assoc. }
    rewrite !Hc in E. apply Hf in E as [-> E]. f_equal. destruct l, m; [done..|]. injection E as E. by apply IH.
Qed.

Lemma pairs_text_inj l m : pairs_text l = pairs_text m -> l = m.
Proof.
  unfold pairs_text. cbn [json_text]. rewrite !map_map. intros E. injection E as E.
  apply (join_code pair_text); [apply pair_code|intros a; eexists; reflexivity|exact E].
Qed.

(** ** Sorting the parameters *)

Lemma sorted_perm q : sorted_entries q ≡ₚ q.
Proof.
  assert (forall e l, insert_entry e l ≡ₚ e :: l) as Hi.
  { intros e l. induction l as [|x l IH]; [done|]. cbn. destruct (String.leb _ _); [done|]. rewrite IH. apply perm_swap. }
  induction q as [|e q IH]; [done|]. cbn. by rewrite Hi, IH.
Qed.

Lemma insert_comm a b l : fst a <> fst b -> insert_entry a (insert_entry b l) = insert_entry b (insert_entry a l).
Proof.
  intros Hne. assert (forall x y z : string, String.leb x y = true -> String.leb y z = true -> String.leb x z = true) as Htr by (intros x y z; apply (str_le_trans x y z)).
  assert (forall x y, String.leb x y = false -> String.leb y x = true) as Htot by (intros x y H; destruct (String.leb_total x y); congruence).
  assert (String.leb (fst a) (fst b) = negb (String.leb (fst b) (fst a))) as Hab.
  { destruct (String.leb (fst a) (fst b)) eqn:E1, (String.leb (fst b) (fst a)) eqn:E2; try done; [by destruct Hne; apply String.leb_antisym|apply Htot in E1; congruence]. }
  induction l as [|z l IH]; cbn; [rewrite Hab; by destruct (String.leb (fst b) (fst a))|].
  destruct (String.leb (fst b) (fst z)) eqn:Eb, (String.leb (fst a) (fst z)) eqn:Ea; cbn; rewrite ?Ea, ?Eb, ?IH; try done.
  - rewrite Hab. by destruct (String.leb (fst b) (fst a)).
  - destruct (String.leb (fst a) (fst b)) eqn:E1; [|done]. exfalso. by rewrite (Htr _ _ _ E1 Eb) in Ea.
  - destruct (String.leb (fst b) (fst a)) eqn:E1; [|done]. exfalso. by rewrite (Htr _ _ _ E1 Ea) in Eb.
Qed.

Lemma sorted_unique q q' : NoDup (map fst q) -> q ≡ₚ q' -> sorted_entries q = sorted_entries q'.
Proof.
  unfold sorted_entries. intros Hnd Hp. revert Hnd. induction Hp as [|e q q' Hp IH|a b q|q1 q2 q3 H1 IH1 H2 IH2]; intros Hnd; cbn.
  - done.
  - apply NoDup_cons in Hnd as [_ Hnd]. by rewrite IH.
  - apply insert_comm. apply NoDup_cons in Hnd as [Hn _]. intros E. apply Hn. rewrite E. by left.
  - rewrite IH1 by done. apply IH2. by rewrite <- H1.
Qed.

Definition starts_nul (s : string) : bool := match s with String c _ => Ascii.eqb c (ascii_of_nat 0) | EmptyString => false end.

(** What of a request identifies a delivery without a provider id: the method and the
    query count when the body is empty, the parameters in any order. *)
Definition same_delivery (pluginId instanceId route method : string) (query : list (string * string)) (rawBody : string)
    (pluginId' instanceId' route' method' : string) (query' : list (string * string)) (rawBody' : string) : Prop :=
  pluginId = pluginId' /\ instanceId = instanceId' /\ route = route' /\ rawBody = rawBody' /\
  isQueryBorne rawBody query = isQueryBorne rawBody' query' /\
  (isQueryBorne rawBody query = true -> method = method' /\ query ≡ₚ query').

Definition plain (s : string) : bool := negb (has_char (ascii_of_nat 0) s).

Lemma derive_text sha256 p i r me q b :
  deriveDeliveryId sha256 p i r me q b =
  toHex (sha256 (utf8 (p +:+ nul +:+ i +:+ nul +:+ r +:+ nul +:+ (if isQueryBorne b q then nul +:+ me +:+ nul +:+ pairs_text (sorted_entries q) else b)))).
Proof.
  unfold deriveDeliveryId. destruct (isQueryBorne b q) eqn:E; [|done]. unfold isQueryBorne in E. apply andb_prop in E as [->%String.eqb_eq _]. done.
Qed.

(** Two deliveries without a provider id get one id exactly when they are one
    delivery: same plugin, instance, route and body, and, for a delivery carried in
    the query of an empty body, same method and parameters in any order.  So a retry
    is dropped as a duplicate, and nothing else is. *)
Theorem delivery_id_is_the_delivery sha256 (collision_free : forall x y : string, sha256 x = sha256 y -> x = y) p i r me q b p' i' r' me' q' b' :
  Forall (fun s => plain s = true) [p; i; r; me; p'; i'; r'; me'] -> NoDup (map fst q) -> NoDup (map fst q') ->
  starts_nul b = false -> starts_nul b' = false ->
  deriveDeliveryId sha256 p i r me q b = deriveDeliveryId sha256 p' i' r' me' q' b' <-> same_delivery p i r me q b p' i' r' me' q' b'.
Proof.
  intros Hp Hq Hq' Hb Hb'. rewrite !Forall_cons in Hp. unfold plain in Hp. rewrite !negb_true_iff in Hp. destruct Hp as (Hp & Hi & Hr & Hm & Hp' & Hi' & Hr' & Hm' & _).
  rewrite !derive_text. unfold same_delivery. split.
  - intros E%toHex_inj%collision_free%utf8_inj. unfold nul in E.
    apply append_sep_inj in E as [-> E]; [|done..]. apply append_sep_inj in E as [-> E]; [|done..]. apply append_sep_inj in E as [-> E]; [|done..].
    assert (forall s z, starts_nul s = false -> s = String (ascii_of_nat 0) z -> False) as Hno by (intros s z Hs ->; done).
    destruct (isQueryBorne b q) eqn:Eb, (isQueryBorne b' q') eqn:Eb'.
    + apply string_tail in E. apply append_sep_inj in E as [-> E%pairs_text_inj]; [|done..].
      assert (b = "" /\ b' = "") as [-> ->] by (unfold isQueryBorne in *; apply andb_prop in Eb as [?%String.eqb_eq _], Eb' as [?%String.eqb_eq _]; done).
      repeat split. rewrite <- (sorted_perm q), E. apply sorted_perm.
    + exfalso. by eapply (Hno b').
    + exfalso. by eapply (Hno b).
    + subst b'. done.
  - intros (-> & -> & -> & -> & E & Hrest). rewrite E. destruct (isQueryBorne b' q') eqn:Eb'; [|done]. destruct Hrest as [-> Hperm]; [done|]. by rewrite (sorted_unique q q').
Qed.

Definition query_w : list (string * string) := [("hub", "1"); ("event", "ping")].
Lemma delivery_id_is_the_delivery_witness :
  deriveDeliveryId id "crm" "prod" "hook" "GET" query_w "" = deriveDeliveryId id "crm" "prod" "hook" "GET" (reverse query_w) "" /\
  deriveDeliveryId id "crm" "prod" "hook" "GET" query_w "" <> deriveDeliveryId id "crm" "prod" "hook" "POST" query_w "".
Proof.
  assert (NoDup (map fst query_w)) as Hnd by (apply (bool_decide_unpack (NoDup (map fst query_w))); vm_compute; exact I).
  assert (NoDup (map fst (reverse query_w))) as Hnd2 by (apply (bool_decide_unpack (NoDup (map fst (reverse query_w)))); vm_compute; exact I).
  split.
  - apply (delivery_id_is_the_delivery id (fun x y e => e)); try done; [repeat (apply Forall_cons; split; [reflexivity|]); apply Forall_nil_2|].
    repeat split. symmetry. apply reverse_Permutation.
  - intros E. apply (delivery_id_is_the_delivery id (fun x y e => e)) in E; try done.
    destruct E as (_ & _ & _ & _ & _ & E). destruct E as [E _]; [reflexivity|done].
Defined.

(** ** What a signature proves *)

Section signatures.
Context (sha256 : string -> string) (hmac : string -> string -> string) (EQ_KEY : string) (hostTolerance : Z).
Context (collision_free : forall x y : string, sha256 x = sha256 y -> x = y).

Lemma constant_time_equal a b : constantTimeEqual sha256 EQ_KEY a b = String.eqb a b.
Proof.
  unfold constantTimeEqual. destruct (String.eqb_spec a b) as [->|Hne]; [apply String.eqb_refl|]. apply String.eqb_neq. intros E%collision_free. apply Hne, utf8_inj.
  revert E. induction EQ_KEY as [|c k IH]; [done|]. intros E%string_tail. by apply IH.
Qed.

Definition within (spec : SignatureSpec) (now : Z) (text : string) : Prop :=
  exists ts, parseInt10 text = Some ts /\ Z.abs (now - 1000 * ts) <= 1000 * default hostTolerance (toleranceSec spec).

Definition fresh_timestamp (spec : SignatureSpec) (input : VerifyInput) : Prop :=
  match truthy (timestampHeader spec) with
  | Some name => within spec (v_now input) (default "" (header (v_headers input) (Some name)))
  | None => True
  end.

(** What each scheme demands of a request. *)
Definition authentic (spec : SignatureSpec) (input : VerifyInput) : Prop :=
  match scheme spec with
  | NoScheme => True
  | SharedSecret => v_secret input <> "" /\ fresh_timestamp spec input /\ header (v_headers input) (sig_header spec) = Some (v_secret input)
  | HmacSha256 =>
      v_secret input <> "" /\ fresh_timestamp spec input /\
      exists text, text <> "" /\ header (v_headers input) (sig_header spec) = Some text /\
        text = default "" (sig_prefix spec) +:+ digest hmac (utf8 (v_secret input)) (signedContent spec input) (default Hex (encoding spec))
  | StandardWebhooks =>
      exists keyB64 id tsRaw sigs, parseWebhookSecret (v_secret input) = Some keyB64 /\ fromBase64 keyB64 <> "" /\
        id <> "" /\ header (v_headers input) (Some "webhook-id") = Some id /\
        tsRaw <> "" /\ header (v_headers input) (Some "webhook-timestamp") = Some tsRaw /\ within spec (v_now input) tsRaw /\
        sigs <> "" /\ header (v_headers input) (Some "webhook-signature") = Some sigs /\
        ("v1," +:+ digest hmac (fromBase64 keyB64) (id +:+ "." +:+ tsRaw +:+ "." +:+ v_rawBody input) Base64Enc) ∈ split_char " " sigs
  end.

Lemma truthy_spec o s : truthy o = Some s <-> o = Some s /\ s <> "".
Proof.
  destruct o as [t|]; cbn; [|by split; [|intros [? _]]]. destruct (String.eqb_spec t "") as [->|Hne]; split; try done; [by intros [[= <-] ?]|by intros [= ->]|by intros [[= ->] _]].
Qed.

Lemma outside_within now ts tol : negb (outside now ts tol) = true <-> Z.abs (now - 1000 * ts) <= 1000 * tol.
Proof. unfold outside. rewrite negb_true_iff, Z.ltb_ge. done. Qed.

Lemma check_timestamp_ok spec input : check_timestamp hostTolerance spec input = Ok tt <-> fresh_timestamp spec input.
Proof.
  unfold check_timestamp, fresh_timestamp. destruct (truthy _) as [name|]; [|done]. unfold within. destruct (parseInt10 _) as [ts|] eqn:Hts; [|by split; [|intros (? & ? & _)]].
  split.
  - intros [H _]%guard_ok_inv. exists ts. split; [done|]. by apply outside_within.
  - intros (ts' & [= <-] & Hw). rewrite guard_pass; [done|by apply outside_within].
Qed.

Lemma candidate_spec expected c : candidate_ok sha256 EQ_KEY expected c = true <-> c = "v1," +:+ expected.
Proof.
  unfold candidate_ok. destruct (lsplit "," c) as [[v s]|] eqn:E.
  - assert (c = v +:+ String "," s /\ has_char "," v = false) as [-> Hv].
    { clear -E. revert v s E. induction c as [|d c IH]; intros v s; cbn; [done|]. destruct (Ascii.eqb_spec d ",") as [->|Hne]; [by intros [= <- <-]|].
      destruct (lsplit "," c) as [[v' s']|]; [|done]. intros [= <- <-]. destruct (IH v' s' eq_refl) as [-> Hv]. split; [done|]. cbn. rewrite Hv. by destruct (Ascii.eqb_spec d ","). }
    rewrite andb_true_iff, String.eqb_eq, constant_time_equal, String.eqb_eq. split; [by intros [-> ->]|].
    intros [-> ->]%(append_sep_inj "," v "v1"); done.
  - split; [done|]. intros ->. done.
Qed.

Lemma standard_ok spec input :
  scheme spec = StandardWebhooks -> verifyStandardWebhooks sha256 hmac EQ_KEY hostTolerance spec input = Ok tt <-> authentic spec input.
Proof.
  intros Es. unfold verifyStandardWebhooks, authentic. rewrite Es. destruct (parseWebhookSecret (v_secret input)) as [k|]; [|by split; [|intros (? & ? & ? & ? & ? & _)]].
  destruct (String.eqb_spec (fromBase64 k) "") as [Ek|Ek]; cbn [negb]; [split; [done|intros (? & ? & ? & ? & [= <-] & ? & _); done]|]. rewrite guard_pass by done.
  set (h := fun n => header (v_headers input) (Some n)). change (header (v_headers input) (Some ?n)) with (h n).
  destruct (truthy (h "webhook-id")) as [i|] eqn:Hi; [|by split; [|intros (? & i' & ? & ? & _ & _ & Hn & E & _); assert (truthy (h "webhook-id") = Some i') by (by apply truthy_spec); congruence]].
  destruct (truthy (h "webhook-timestamp")) as [t|] eqn:Ht; [|by split; [|intros (? & ? & t' & ? & _ & _ & _ & _ & Hn & E & _); assert (truthy (h "webhook-timestamp") = Some t') by (by apply truthy_spec); congruence]].
  destruct (truthy (h "webhook-signature")) as [g|] eqn:Hg; [|by split; [|intros (? & ? & ? & g' & _ & _ & _ & _ & _ & _ & _ & Hn & E & _); assert (truthy (h "webhook-signature") = Some g') by (by apply truthy_spec); congruence]].
  apply truthy_spec in Hi as [Hi Hi0], Ht as [Ht Ht0], Hg as [Hg Hg0]. unfold within.
  destruct (parseInt10 t) as [ts|] eqn:Hts; [|split; [done|intros (? & ? & t' & ? & _ & _ & _ & _ & _ & E & (ts & Ets & _) & _); congruence]].
  split.
  - intros H%guard_ok_inv. destruct H as [Hw%outside_within H]. destruct (existsb _ _) eqn:Hex; [|done]. apply existsb_elem in Hex as (c & Hc & Hok%candidate_spec). subst c.
    exists k, i, t, g. repeat (split; [done|]). split; [by exists ts|]. done.
  - intros (k' & i' & t' & g' & [= <-] & _ & _ & Ei & _ & Et & (ts' & Ets & Hw) & _ & Eg & Hin). assert (i' = i /\ t' = t /\ g' = g) as (-> & -> & ->) by (repeat split; congruence).
    rewrite guard_pass by (apply outside_within; congruence). assert (existsb (candidate_ok sha256 EQ_KEY (digest hmac (fromBase64 k) (i +:+ "." +:+ t +:+ "." +:+ v_rawBody input) Base64Enc)) (split_char " " g) = true) as ->; [|done].
    apply existsb_elem. eexists. split; [exact Hin|]. by apply candidate_spec.
Qed.
End signatures.


Definition sig_w : SignatureSpec := mkSig HmacSha256 (Some "X-Signature") (Some "{timestamp}.{rawBody}") None (Some "sha256=") (Some "X-Time") None None.
Definition input_w (signature : string) : VerifyInput := mkVerify "{}" [("x-signature", signature); ("x-time", "1000")] "key" 1100000 "prod".
Definition hmac_w (key content : string) : string := key +:+ content.


(** ** Pointers *)

(** [k] written as a token of a pointer. *)
Fixpoint escape_token (k : string) : string :=
  match k with
  | EmptyString => ""
  | String c r => (if Ascii.eqb c "~" then "~0" else if Ascii.eqb c "/" then "~1" else String c "") +:+ escape_token r
  end.
Definition pointer_to (keys : list string) : string := String "/" (join "/" (map escape_token keys)).

(** The value at the end of a path of members. *)
Fixpoint at_path (keys : list string) (node : json) : option json :=
  match keys with [] => Some node | k :: r => n ← member node k; at_path r n end.

Lemma escape_no_slash k : has_char "/" (escape_token k) = false.
Proof. induction k as [|c k IH]; [done|]. cbn [escape_token]. rewrite has_char_app, IH, orb_false_r. destruct (Ascii.eqb_spec c "~"); [done|]. destruct (Ascii.eqb_spec c "/"); [done|]. cbn. by destruct (Ascii.eqb_spec c "/"). Qed.

Lemma escape_ok k : bad_escape (escape_token k) = false.
Proof.
  induction k as [|c k IH]; [done|]. cbn [escape_token]. destruct (Ascii.eqb_spec c "~"); [exact IH|]. destruct (Ascii.eqb_spec c "/"); [exact IH|].
  change (String c "" +:+ escape_token k) with (String c (escape_token k)). cbn [bad_escape]. destruct (Ascii.eqb_spec c "~"); [done|exact IH].
Qed.

Lemma unescape_escape k : unescape_token (escape_token k) = k.
Proof.
  unfold unescape_token.
  assert (forall k, replace_tilde "1" "/" (escape_token k) = (fix only0 (k : string) := match k with EmptyString => "" | String c r => if Ascii.eqb c "~" then "~0" +:+ only0 r else String c (only0 r) end) k) as H1.
  { clear k. induction k as [|c k IH]; [done|]. cbn [escape_token]. rewrite <- IH. clear IH. destruct (Ascii.eqb_spec c "~") as [->|H].
    - change ("~0" +:+ ?x) with (String "~" (String "0" x)). cbn [replace_tilde Ascii.eqb Bool.eqb andb]. destruct (escape_token k); reflexivity.
    - destruct (Ascii.eqb_spec c "/") as [->|H2]; [reflexivity|]. change (String c "" +:+ ?x) with (String c x). cbn [replace_tilde]. destruct (escape_token k) as [|d t]; [done|].
      destruct (Ascii.eqb_spec c "~"); [done|]. reflexivity. }
  rewrite H1. clear H1. induction k as [|c k IH]; [done|]. destruct (Ascii.eqb_spec c "~") as [->|H].
  - change ("~0" +:+ ?x) with (String "~" (String "0" x)). cbn [replace_tilde Ascii.eqb Bool.eqb andb]. by f_equal.
  - cbn [replace_tilde]. destruct ((fix only0 (k : string) := match k with EmptyString => "" | String c r => if Ascii.eqb c "~" then "~0" +:+ only0 r else String c (only0 r) end) k) as [|d t] eqn:E.
    + by rewrite <- IH.
    + destruct (Ascii.eqb_spec c "~"); [done|]. cbn [andb]. by f_equal.
Qed.

Lemma resolve_escaped keys node : resolve_tokens (map escape_token keys) node = at_path keys node.
Proof.
  revert node. induction keys as [|k r IH]; intros node; [done|]. cbn [map resolve_tokens at_path]. rewrite escape_ok, unescape_escape. by destruct (member node k); cbn.
Qed.

Lemma split_escaped keys : keys <> [] -> split_char "/" (join "/" (map escape_token keys)) = map escape_token keys.
Proof.
  induction keys as [|k [|k' r] IH]; intros Hne; [done|cbn; apply split_char_none, escape_no_slash|].
  change (join "/" (map escape_token (k :: k' :: r))) with (escape_token k +:+ String "/" (join "/" (map escape_token (k' :: r)))).
  rewrite split_char_cat, IH by done. by rewrite (split_char_none "/" (escape_token k)) by apply escape_no_slash.
Qed.

(** A JSON pointer reaches exactly the value at its path: any list of member
    names, whatever characters they hold, written as a pointer (RFC 6901) and
    resolved against a body, gives the scalar at that path of the parsed body, and
    nothing when the path leads nowhere or to an array or object. *)
Theorem pointer_round_trip parse keys hdrs rawBody node :
  keys <> [] -> parse rawBody = Some node ->
  extractConversationId parse (Some (mkConvSpec None (Some (pointer_to keys)))) hdrs rawBody = (n ← at_path keys node; scalar_text n).
Proof.
  intros Hne Hp. unfold extractConversationId. cbn [mbind option_bind conv_header jsonPointer].
  change (truthy (Some (pointer_to keys))) with (Some (pointer_to keys)). cbn [mbind option_bind truthy]. rewrite Hp. cbn [mbind option_bind].
  assert (startsWith (pointer_to keys) "/" = true) as -> by (apply startsWith_spec; by exists (join "/" (map escape_token keys))). change (drop_chars 1 (pointer_to keys)) with (join "/" (map escape_token keys)).
  by rewrite split_escaped, resolve_escaped.
Qed.

Definition body_w : json := JObj [("a/b", JArr [JObj [("~id", JNum 42)]])].
Lemma pointer_round_trip_witness :
  pointer_to ["a/b"; "0"; "~id"] = "/a~1b/0/~0id" /\
  extractConversationId (fun _ => Some body_w) (Some (mkConvSpec None (Some (pointer_to ["a/b"; "0"; "~id"])))) [] "{}" = Some "42".
Proof. split; [reflexivity|]. rewrite (pointer_round_trip (fun _ => Some body_w) _ [] "{}" body_w); [vm_compute; reflexivity|done..]. Defined.
