(* ===== verification/Ingress.v ===== *)
(** * Provider deliveries: tables, statements and tasks

    modules/integration and modules/queue/processors/ingress.processor.ts: the request
    pipeline ([IngressService.handle]), the event table that is both the durable copy
    and the duplicate oracle ([IngressEventService]), the enqueue with its inline
    fallback ([IngressEnqueueService] and the wiring of integration.module.ts), the
    queue worker ([IngressProcessor]), the reconciler's sweep and its retention
    hand-off ([IngressReconcilerService]), the operator redrive ([RedriveService]) and
    the retention prune.  Every statement, queue call and plugin dispatch is an effect;
    the code between is a program over them, so that all of it interleaves.

    A delivery is named by its plugin, instance and stored delivery id.  The rows of
    integration_delivery_failures are the inbound ones, the only ones written. *)
From stdpp Require Import pretty sorting.
From S2P Require Import Prelude JsString Json Prog IngressAuth.
Local Open Scope string_scope.
Local Open Scope Z_scope.

(** ** Data *)

Abbreviation EKey := (string * string * string)%type.

(** [p_method] is only on the stored copy. *)
Record Payload := mkPayload {
  p_headers : Headers; p_query : list (string * string); p_body : string; p_rawBody : string;
  p_providerDeliveryId : option string; p_method : option string; p_verified : option bool }.

Record IngressJobData := mkData {
  d_pluginId : string; d_instanceId : string; d_route : string; d_method : option string; d_deliveryId : string;
  d_sessionId : option string; d_conversation : option string; d_payload : option Payload }.
Definition key_of (d : IngressJobData) : EKey := (d_pluginId d, d_instanceId d, d_deliveryId d).

Record ResolvedInstance := mkInstance { i_secret : string; i_enabled : bool; i_sessionScope : option string; i_verifyToken : option string }.

(** [maxBodyBytes] as a manifest may hold it. *)
Inductive Cap := CapNumber (n : option Z) | CapText (s : string) | CapOther.
Record Challenge := mkChallenge { tokenParam : string; echoParam : string }.
Record ResponseContract := mkContract { preflight : list PreflightCheck; ack : option AckSpec }.
Record IngressRoute := mkIngressRoute {
  r_route : string; signature : SignatureSpec; challenge : option Challenge; maxBodyBytes : Cap; conversationId : option ConversationSpec;
  dedupHeader : option string; dedupOnBody : bool; dedupBodyMismatchAsNew : bool; response : option ResponseContract }.

Inductive DispatchState := Pending | Dispatched | Failed.
#[export] Instance DispatchState_eq : EqDecision DispatchState.
Proof. solve_decision. Defined.

Record IngressEvent := mkEvent {
  e_id : nat; e_route : string; e_payload : option Payload; e_hash : option string; e_sessionId : option string;
  e_state : option DispatchState; e_attempts : Z; e_lastDispatchAt : option Z; e_createdAt : Z }.

Record DeadLetter := mkDead {
  f_pluginId : string; f_instanceId : string; f_sessionId : option string; f_deliveryId : option string; f_attempts : Z; f_lastError : string;
  f_route : option string; f_method : option string; f_conversation : option string; f_ingress : option Payload; f_redriven : bool; f_createdAt : Z }.
Definition dead_key (f : DeadLetter) (k : EKey) : bool :=
  bool_decide (f_pluginId f = fst (fst k)) && bool_decide (f_instanceId f = snd (fst k)) && bool_decide (f_deliveryId f = Some (snd k)).

(** A queue job's id: the delivery's own or a redrive's, and which of the two copies
    it is, if one ([sanitizeIngressJobId], [requeuedJobIds]). *)
Inductive BaseId := OfDelivery (k : EKey) | OfRedrive (plugin instance : string) (row : nat).
Definition JobId := (BaseId * option bool)%type.
#[export] Instance BaseId_eq : EqDecision BaseId.
Proof. solve_decision. Defined.
#[export] Instance BaseId_countable : Countable BaseId.
Proof.
  refine (inj_countable' (fun b => match b with OfDelivery k => inl k | OfRedrive p i r => inr (p, i, r) end)
    (fun s => match s with inl k => OfDelivery k | inr (p, i, r) => OfRedrive p i r end) _). by intros [].
Defined.

(** [JStalled]: failed by the queue itself for stalling too often. *)
Inductive JobState := JLive | JCompleted | JFailed (stalled : bool).
#[export] Instance JobState_eq : EqDecision JobState.
Proof. solve_decision. Defined.
Record Job := mkJob { j_data : IngressJobData; j_attempts : Z; j_attemptsMade : Z; j_state : JobState }.

(** The shared world.  [accepted], [delivered], [dropped], [released] and [aged] are
    for the statements only: what was recorded, what a plugin took, what had lost its
    instance or session, what the queue let go of, and whose dead letter aged out;
    [rowKeys] remembers which delivery a dead letter was written for. *)
Record World := mkWorld {
  instances : gmap (string * string) ResolvedInstance; manifests : gmap (string * string) IngressRoute; restoring : gset string; sessions : gset string;
  events : gmap EKey IngressEvent; failures : gmap nat DeadLetter; jobs : gmap JobId Job; clock : Z;
  rowKeys : gmap nat EKey; accepted : gset EKey; delivered : gset EKey; dropped : gset EKey; released : gset EKey; aged : gset EKey }.

Definition with_events (s : World) x := mkWorld (instances s) (manifests s) (restoring s) (sessions s) x (failures s) (jobs s) (clock s) (rowKeys s) (accepted s) (delivered s) (dropped s) (released s) (aged s).
Definition with_failures (s : World) x := mkWorld (instances s) (manifests s) (restoring s) (sessions s) (events s) x (jobs s) (clock s) (rowKeys s) (accepted s) (delivered s) (dropped s) (released s) (aged s).
Definition with_jobs (s : World) x := mkWorld (instances s) (manifests s) (restoring s) (sessions s) (events s) (failures s) x (clock s) (rowKeys s) (accepted s) (delivered s) (dropped s) (released s) (aged s).
Definition with_rowKeys (s : World) x := mkWorld (instances s) (manifests s) (restoring s) (sessions s) (events s) (failures s) (jobs s) (clock s) x (accepted s) (delivered s) (dropped s) (released s) (aged s).
Definition note_accepted (k : EKey) (s : World) := mkWorld (instances s) (manifests s) (restoring s) (sessions s) (events s) (failures s) (jobs s) (clock s) (rowKeys s) ({[k]} ∪ accepted s) (delivered s) (dropped s) (released s) (aged s).
Definition note_delivered (k : EKey) (s : World) := mkWorld (instances s) (manifests s) (restoring s) (sessions s) (events s) (failures s) (jobs s) (clock s) (rowKeys s) (accepted s) ({[k]} ∪ delivered s) (dropped s) (released s) (aged s).
Definition note_dropped (k : EKey) (s : World) := mkWorld (instances s) (manifests s) (restoring s) (sessions s) (events s) (failures s) (jobs s) (clock s) (rowKeys s) (accepted s) (delivered s) ({[k]} ∪ dropped s) (released s) (aged s).
Definition note_released (ks : gset EKey) (s : World) := mkWorld (instances s) (manifests s) (restoring s) (sessions s) (events s) (failures s) (jobs s) (clock s) (rowKeys s) (accepted s) (delivered s) (dropped s) (ks ∪ released s) (aged s).
Definition note_aged (ks : gset EKey) (s : World) := mkWorld (instances s) (manifests s) (restoring s) (sessions s) (events s) (failures s) (jobs s) (clock s) (rowKeys s) (accepted s) (delivered s) (dropped s) (released s) (ks ∪ aged s).

(** ** Statements *)

(** The columns an UPDATE of an event sets. *)
Inductive Change :=
| Settle (st : DispatchState) (lastDispatchAt : option Z) (attempts : option Z)
| CountAttempt
| Touch (lastDispatchAt : Z) (attempts : option Z).
Definition change_event (c : Change) (e : IngressEvent) : IngressEvent :=
  match c with
  | Settle st at_ n => mkEvent (e_id e) (e_route e) None (e_hash e) (e_sessionId e) (Some st) (default (e_attempts e) n)
      (match at_ with Some t => Some t | None => e_lastDispatchAt e end) (e_createdAt e)
  | CountAttempt => mkEvent (e_id e) (e_route e) (e_payload e) (e_hash e) (e_sessionId e) (e_state e) (e_attempts e + 1) (e_lastDispatchAt e) (e_createdAt e)
  | Touch t n => mkEvent (e_id e) (e_route e) (e_payload e) (e_hash e) (e_sessionId e) (e_state e) (default (e_attempts e) n) (Some t) (e_createdAt e)
  end.

(** The row an UPDATE selects: the delivery's, of this row id when given, still
    pending when asked. *)
Definition selected (id : option nat) (onlyPending : bool) (e : IngressEvent) : bool :=
  match id with Some n => (e_id e =? n)%nat | None => true end && (negb onlyPending || bool_decide (e_state e = Some Pending)).
Definition update_event (k : EKey) (id : option nat) (onlyPending : bool) (c : Change) (s : World) : World :=
  with_events s (alter (fun e => if selected id onlyPending e then change_event c e else e) k (events s)).
Definition affected (k : EKey) (id : option nat) (onlyPending : bool) (s : World) : bool :=
  match events s !! k with Some e => selected id onlyPending e | None => false end.

Definition older (a b : EKey * IngressEvent) : Prop := e_createdAt (snd a) <= e_createdAt (snd b).
#[export] Instance older_dec : RelDecision older.
Proof. intros a b. unfold older. apply _. Defined.
Definition replayable (e : IngressEvent) : bool := bool_decide (e_state e = Some Pending) && bool_decide (is_Some (e_payload e)).

(** The sweep's batch: stranded rows of enabled instances of restored plugins. *)
Definition stale_batch (cutoff : Z) (limit : nat) (skip : list nat) (s : World) : list (EKey * nat) :=
  map (fun r => (fst r, e_id (snd r))) (take limit (merge_sort older (List.filter (fun r =>
    replayable (snd r) && (e_createdAt (snd r) <? cutoff) && negb (bool_decide (e_id (snd r) ∈ skip)) &&
    negb (bool_decide (fst (fst (fst r)) ∈ restoring s)) &&
    match instances s !! fst (fst r) with Some i => i_enabled i | None => false end) (map_to_list (events s))))).
(** The hand-off's. *)
Definition aged_batch (cutoff : Z) (limit : nat) (skip : list nat) (s : World) : list (EKey * nat) :=
  map (fun r => (fst r, e_id (snd r))) (take limit (merge_sort older (List.filter (fun r =>
    replayable (snd r) && (e_createdAt (snd r) <? cutoff) && negb (bool_decide (e_id (snd r) ∈ skip))) (map_to_list (events s))))).

Definition insert_event (k : EKey) (id : nat) (route : string) (payload : Payload) (hash : string) (sessionId : option string) (s : World) : World :=
  note_accepted k (with_events s (<[k := mkEvent id route (Some payload) (Some hash) sessionId (Some Pending) 0 None (clock s)]> (events s))).

Definition open_row (k : EKey) (below : option nat) (r : nat * DeadLetter) : bool :=
  dead_key (snd r) k && negb (f_redriven (snd r)) && match below with Some n => (fst r <? n)%nat | None => true end.
Definition open_rows (k : EKey) (below : option nat) (s : World) : Z := Z.of_nat (length (List.filter (open_row k below) (map_to_list (failures s)))).
Definition close_dead (f : DeadLetter) : DeadLetter :=
  mkDead (f_pluginId f) (f_instanceId f) (f_sessionId f) (f_deliveryId f) (f_attempts f) (f_lastError f) (f_route f) (f_method f) (f_conversation f) (f_ingress f) true (f_createdAt f).
Definition retry_dead (attempts : Z) (lastError : option string) (f : DeadLetter) : DeadLetter :=
  mkDead (f_pluginId f) (f_instanceId f) (f_sessionId f) (f_deliveryId f) attempts (default (f_lastError f) lastError) (f_route f) (f_method f) (f_conversation f) (f_ingress f) (f_redriven f) (f_createdAt f).
Definition insert_dead (id : nat) (k : EKey) (f : DeadLetter) (s : World) : World :=
  with_failures (with_rowKeys s (<[id := k]> (rowKeys s))) (<[id := f]> (failures s)).

(** The rows an operator's redrive takes: open ones of the instance's binding. *)
Definition same_binding (scope session : option string) : bool :=
  match truthy scope with
  | None | Some "*" => match session with None | Some "*" => true | _ => false end
  | Some sc => bool_decide (session = Some sc)
  end.
Definition redrivable (plugin instance : string) (scope : option string) (f : DeadLetter) : bool :=
  bool_decide (f_pluginId f = plugin) && bool_decide (f_instanceId f = instance) && negb (f_redriven f) && same_binding scope (f_sessionId f).
Definition redrive_order (a b : nat * DeadLetter) : Prop :=
  f_attempts (snd a) < f_attempts (snd b) \/ (f_attempts (snd a) = f_attempts (snd b) /\ f_createdAt (snd a) <= f_createdAt (snd b)).
#[export] Instance redrive_order_dec : RelDecision redrive_order.
Proof. intros a b. unfold redrive_order. apply _. Defined.
Definition redrive_page (plugin instance : string) (scope : option string) (limit : nat) (s : World) : list nat :=
  map fst (take limit (merge_sort redrive_order (List.filter (fun r => redrivable plugin instance scope (snd r)) (map_to_list (failures s))))).

(** The deliveries whose dead letter the prune takes, and the rows it keeps. *)
Definition aged_dead (cutoff : Z) (s : World) : gset EKey :=
  list_to_set (omap (fun r => if f_createdAt (snd r) <? cutoff then (fun d => (f_pluginId (snd r), f_instanceId (snd r), d)) <$> f_deliveryId (snd r) else None) (map_to_list (failures s))).
Definition prune_dead (cutoff : Z) (s : World) : World :=
  note_aged (aged_dead cutoff s) (with_failures s (filter (fun r => cutoff <= f_createdAt (snd r)) (failures s))).
Definition prunable (cutoff : Z) (e : IngressEvent) : bool := (e_createdAt e <? cutoff) && negb (replayable e).

(** A job leaves the queue: a delivery of which no other job is left is let go. *)
Definition in_queue (k : EKey) (js : gmap JobId Job) : bool := existsb (fun r => bool_decide (key_of (j_data (snd r)) = k)) (map_to_list js).
Definition drop_job (id : JobId) (s : World) : World :=
  match jobs s !! id with
  | Some j =>
      let js := base.delete id (jobs s) in
      let s' := with_jobs s js in
      if in_queue (key_of (j_data j)) js then s' else note_released {[key_of (j_data j)]} s'
  | None => s
  end.
Definition set_state (st : JobState) (j : Job) : Job := mkJob (j_data j) (j_attempts j) (j_attemptsMade j) st.

(** ** Effects *)

(** The verdict of the instance's rate bucket and the headers it adds. *)
Record IngressAdmission := mkAdmission { adm_ok : bool; adm_headers : Headers }.

Inductive eff : Type -> Type :=
| Resolve (plugin instance : string) : eff (result string (option ResolvedInstance))
| Manifest (plugin route : string) : eff (option IngressRoute)
| RestorePending (plugin : string) : eff bool
| SessionStatus (scope : string) : eff (option EngineStatus)
| SessionExists (id : string) : eff (result string bool)
| AdmitInstance (plugin instance : string) : eff (result string IngressAdmission)
| Now : eff Z
| Stopped : eff bool
| InsertEvent (k : EKey) (route : string) (payload : Payload) (hash : string) (sessionId : option string) : eff (result string bool)
| ReadHash (k : EKey) : eff (result string (option string))
| ReadEvent (k : EKey) (id : nat) : eff (result string (option IngressEvent))
| UpdateEvent (k : EKey) (id : option nat) (onlyPending : bool) (c : Change) : eff (result string bool)
| NoteDropped (k : EKey) : eff unit
| StaleBatch (cutoff : Z) (limit : nat) (skip : list nat) : eff (result string (list (EKey * nat)))
| AgedBatch (cutoff : Z) (limit : nat) (skip : list nat) : eff (result string (list (EKey * nat)))
| PruneEvents (cutoff : Z) : eff (result string unit)
| InsertDead (k : EKey) (f : DeadLetter) : eff (result string nat)
| CountOpen (k : EKey) (below : option nat) : eff (result string Z)
| CloseDead (k : EKey) (id : nat) : eff (result string unit)
| CloseOpen (k : EKey) : eff (result string unit)
| RedrivePage (plugin instance : string) (scope : option string) (limit : nat) : eff (result string (list nat))
| ReadDead (plugin instance : string) (scope : option string) (id : nat) : eff (result string (option DeadLetter))
| RetryDead (id : nat) (attempts : Z) (lastError : string) : eff (result string unit)
| BumpDead (id : nat) : eff (result string unit)
| CountRedrivable (plugin instance : string) (scope : option string) : eff (result string Z)
| PruneDead (cutoff : Z) : eff (result string unit)
| GetJobState (id : JobId) : eff (result string (option JobState))
| AddJob (id : JobId) (j : Job) : eff (result string unit)
| RemoveJob (id : JobId) : eff (result string unit)
| CompleteJob (id : JobId) : eff unit
| Dispatch (d : IngressJobData) : eff (result string unit)
| ErrorHook : eff (result string unit).

(** A read answers or fails; a write fails, works, or works and reports a failure. *)
Definition reads {A : Type} (v : A) (s : World) (r : result string A) (s' : World) : Prop := s' = s /\ (r = Ok v \/ exists e, r = Err e).
Definition writes {A : Type} (v : A) (t : World) (s : World) (r : result string A) (s' : World) : Prop :=
  (exists e, r = Err e /\ s' = s) \/ ((r = Ok v \/ exists e, r = Err e) /\ s' = t).

Definition run (B : Type) (e : eff B) (s : World) : B -> World -> Prop :=
  match e in eff B return B -> World -> Prop with
  | Resolve p i => reads (instances s !! (p, i)) s
  | Manifest p r => fun v s' => s' = s /\ v = manifests s !! (p, r)
  | RestorePending p => fun v s' => s' = s /\ v = bool_decide (p ∈ restoring s)
  | SessionStatus _ => fun _ s' => s' = s
  | SessionExists id => reads (bool_decide (id ∈ sessions s)) s
  | AdmitInstance _ _ => fun _ s' => s' = s
  | Now => fun v s' => s' = s /\ v = clock s
  | Stopped => fun _ s' => s' = s
  | InsertEvent k route payload hash sid => fun r s' =>
      match events s !! k with
      | Some _ => s' = s /\ (r = Ok false \/ exists e, r = Err e)
      | None => (exists e, r = Err e /\ s' = s) \/ exists id, (r = Ok true \/ exists e, r = Err e) /\ s' = insert_event k id route payload hash sid s
      end
  | ReadHash k => reads (events s !! k ≫= e_hash) s
  | ReadEvent k id => reads (e ← events s !! k; if (e_id e =? id)%nat then Some e else None) s
  | UpdateEvent k id onlyPending c => writes (affected k id onlyPending s) (update_event k id onlyPending c s) s
  | NoteDropped k => fun _ s' => s' = note_dropped k s
  | StaleBatch cutoff limit skip => reads (stale_batch cutoff limit skip s) s
  | AgedBatch cutoff limit skip => reads (aged_batch cutoff limit skip s) s
  | PruneEvents cutoff => writes tt (with_events s (filter (fun r => prunable cutoff (snd r) = false) (events s))) s
  | InsertDead k f => fun r s' =>
      (exists e, r = Err e /\ s' = s) \/
      exists id, rowKeys s !! id = None /\ failures s !! id = None /\ (r = Ok id \/ exists e, r = Err e) /\ s' = insert_dead id k f s
  | CountOpen k below => reads (open_rows k below s) s
  | CloseDead k id => writes tt (with_failures s (alter close_dead id (failures s))) s
  | CloseOpen k => writes tt (with_failures s ((fun f => if dead_key f k then close_dead f else f) <$> failures s)) s
  | RedrivePage p i scope limit => reads (redrive_page p i scope limit s) s
  | ReadDead p i scope id => reads (f ← failures s !! id; if redrivable p i scope f then Some f else None) s
  | RetryDead id n msg => writes tt (with_failures s (alter (retry_dead n (Some msg)) id (failures s))) s
  | BumpDead id => writes tt (with_failures s (alter (fun f => retry_dead (f_attempts f + 1) None f) id (failures s))) s
  | CountRedrivable p i scope => reads (Z.of_nat (length (List.filter (fun r => redrivable p i scope (snd r)) (map_to_list (failures s))))) s
  | PruneDead cutoff => writes tt (prune_dead cutoff s) s
  | GetJobState id => reads (j_state <$> jobs s !! id) s
  | AddJob id j => writes tt (with_jobs s (match jobs s !! id with Some _ => jobs s | None => <[id := j]> (jobs s) end)) s
  | RemoveJob id => writes tt (drop_job id s) s
  | CompleteJob id => fun _ s' => s' = with_jobs s (alter (set_state JCompleted) id (jobs s))
  | Dispatch d => fun r s' => s' = match r with Ok _ => note_delivered (key_of d) s | Err _ => s end
  | ErrorHook => fun _ s' => s' = s
  end.

(** ** The request pipeline *)

Local Open Scope prog_scope.
Abbreviation task := (prog eff).
Abbreviation fallible A := (task (result string A)).
(** An exception skips the rest. *)
Definition try_ {A B : Type} (m : fallible A) (k : A -> fallible B) : fallible B := let! r := m in match r with Ok a => k a | Err e => Ret (Err e) end.
Notation "'try!' x ':=' m 'in' k" := (try_ m (fun x => k)) (at level 10, x pattern, m at level 100, k at level 200) : prog_scope.

Record IngressRequest := mkRequest {
  q_pluginId : string; q_instanceId : string; q_route : string; q_method : string; q_headers : Headers; q_query : list (string * string);
  q_rawBody : string; q_unparsedBody : bool }.

(** [useQueue]: the queue is enabled and resolved; [reconciles]: the sweep has an
    interval; [maxJobAttempts], [maxAttempts]: the budgets of a job and of a replay. *)
Record Config := mkConfig { useQueue : bool; reconciles : bool; maxJobAttempts : Z; maxAttempts : Z; graceMs : Z; batchSize : nat }.

Section pipeline.
Context (sha256 : string -> string) (hmac : string -> string -> string) (EQ_KEY : string) (hostTolerance : Z).
(** What [Number] reads in a text, the process body limit, the throttler's message,
    and [JSON.parse]. *)
Context (numberOf : string -> option Z) (processBodyLimit : Z) (throttlerMessage : string) (parseJson : string -> option json).
Context (cfg : Config).

Definition effectiveCap (c : Cap) : Z :=
  let parsed := match c with CapNumber n => n | CapText s => if String.eqb (trim s) "" then None else numberOf s | CapOther => None end in
  match parsed with Some n => if 0 <=? n then n else processBodyLimit | None => processBodyLimit end.

(** Everything before the rate bucket: the answer, or [None] to go on. *)
Definition screen (req : IngressRequest) (inst : ResolvedInstance) (route : IngressRoute) (now : Z) : option AckResult :=
  let rest :=
    if q_unparsedBody req then Some (mkAck 415 (Some "unsupported ingress content type") None)
    else if effectiveCap (maxBodyBytes route) <? utf8_length (q_rawBody req) then Some (mkAck 413 (Some "payload too large") None)
    else match verifyIngressSignature sha256 hmac EQ_KEY hostTolerance (signature route)
                 (mkVerify (q_rawBody req) (q_headers req) (i_secret inst) now (q_instanceId req)) with
         | Err reason => Some (mkAck 401 (Some reason) None)
         | Ok _ => None
         end in
  match challenge route with
  | Some c =>
      if String.eqb (q_method req) "GET" then
        let token := truthy (JMap.get (tokenParam c) (q_query req)) in
        let echo := JMap.get (echoParam c) (q_query req) in
        Some match token, truthy (i_verifyToken inst) with
             | Some t, Some v => if constantTimeEqual sha256 EQ_KEY t v then mkAck 200 (Some (default "" echo)) None else mkAck 403 (Some "challenge failed") None
             | _, _ => mkAck 403 (Some "challenge failed") None
             end
      else rest
  | None => rest
  end.

(** [{ ...a, ...b }] *)
Definition spread (a b : Headers) : Headers := fold_left (fun h e => JMap.set (fst e) (snd e) h) b a.
Definition rate_limited (headers : Headers) : AckResult :=
  mkAck 429 (Some (json_text (JObj [("statusCode", JNum 429); ("message", JStr throttlerMessage)]))) (Some (spread [("content-type", "application/json")] headers)).

(** The provider's retry id, or the delivery's own. *)
Definition deliveryIdOf (req : IngressRequest) (route : IngressRoute) : string :=
  let fallback := match scheme (signature route) with StandardWebhooks => "webhook-id" | _ => "x-delivery" end in
  let name := toLowerCase (default (default fallback (sig_dedupHeader (signature route))) (dedupHeader route)) in
  match truthy (trim <$> JMap.get name (q_headers req)) with
  | Some id => if dedupOnBody route || (255 <? String.length id)%nat then deriveDeliveryId sha256 (q_pluginId req) (q_instanceId req) (q_route req) (q_method req) (q_query req) (q_rawBody req) else id
  | None => deriveDeliveryId sha256 (q_pluginId req) (q_instanceId req) (q_route req) (q_method req) (q_query req) (q_rawBody req)
  end.

Definition credentialHeader (route : IngressRoute) : option string :=
  match scheme (signature route) with SharedSecret | HmacSha256 => sig_header (signature route) | _ => None end.
Definition payloadOf (req : IngressRequest) (route : IngressRoute) : Payload :=
  mkPayload (redactSensitiveHeaders (q_headers req) (credentialHeader route)) (q_query req) (q_rawBody req) (q_rawBody req) None None
    (Some (ingressDeliveryVerified (scheme (signature route)) (q_rawBody req) (q_query req))).
Definition stored (p : Payload) (providerDeliveryId : option string) (method : option string) : Payload :=
  mkPayload (p_headers p) (p_query p) (p_body p) (p_rawBody p) providerDeliveryId method (p_verified p).

Definition payloadHash (rawBody : string) : string := toHex (sha256 (utf8 rawBody)).

(** The probes of the preflight, asked one by one. *)
Fixpoint run_preflight (checks : list PreflightCheck) (scope : option string) : task (option AckResult) :=
  match checks with
  | [] => Ret None
  | c :: r =>
      match c, truthy scope with
      | SessionAlive, Some sc =>
          if String.eqb sc "*" then run_preflight r scope
          else let! st := act (SessionStatus sc) in
               match evaluatePreflight [SessionAlive] scope (Some (fun _ => st)) with Some rej => Ret (Some rej) | None => run_preflight r scope end
      | _, _ => run_preflight r scope
      end
  end.

(** ** Enqueue *)

Definition base_of (d : IngressJobData) (redriveRow : option nat) : BaseId :=
  match redriveRow with Some row => OfRedrive (d_pluginId d) (d_instanceId d) row | None => OfDelivery (key_of d) end.

Inductive Outcome := Queued | DispatchedInline | FailedInline (error : string).

(** The dispatch without the queue; a failure is swallowed and reported. *)
Definition dispatch_inline (d : IngressJobData) : fallible Outcome :=
  let! r := act (Dispatch d) in
  Ret (Ok match r with Ok _ => DispatchedInline | Err e => FailedInline e end).

(** [withSignal]: a caller that refuses the inline fallback once shutdown began. *)
Definition enqueue (d : IngressJobData) (redriveRow : option nat) (withSignal : bool) : fallible Outcome :=
  if useQueue cfg then
    let! added := act (AddJob (base_of d redriveRow, None) (mkJob d (maxJobAttempts cfg) 0 JLive)) in
    match added with
    | Ok _ => Ret (Ok Queued)
    | Err e =>
        let! stop := if withSignal then act Stopped else Ret false in
        if (stop : bool) then Ret (Err "aborted") else dispatch_inline d
    end
  else dispatch_inline d.

Definition live_or_completed (st : option JobState) : bool := match st with Some JLive | Some JCompleted => true | _ => false end.

(** The state that answers for a delivery: its job's, a live or completed copy's. *)
Definition existingJobState (d : IngressJobData) : task (option JobState) :=
  let base := OfDelivery (key_of d) in
  if negb (useQueue cfg) then Ret None else
  let! st := act (GetJobState (base, None)) in
  match st with
  | Err _ => Ret None
  | Ok st =>
      if live_or_completed st then Ret st else
      let! first := act (GetJobState (base, Some false)) in
      match first with
      | Err _ => Ret None
      | Ok first =>
          if live_or_completed first then Ret first else
          let! second := act (GetJobState (base, Some true)) in
          match second with
          | Err _ => Ret None
          | Ok second => Ret (if live_or_completed second then second else st)
          end
      end
  end.

Definition dead_letter (d : IngressJobData) (attempts : Z) (error : string) (now : Z) : DeadLetter :=
  mkDead (d_pluginId d) (d_instanceId d) (d_sessionId d) (Some (d_deliveryId d)) attempts error (Some (d_route d)) (d_method d) (d_conversation d) (d_payload d) false now.
Definition save_dead (d : IngressJobData) (attempts : Z) (error : string) : fallible nat :=
  let! now := act Now in act (InsertDead (key_of d) (dead_letter d attempts error now)).

Definition markDispatchOutcome (k : EKey) (o : Outcome) : fallible unit :=
  let! now := act Now in
  match o with
  | FailedInline _ =>
      try! _ := act (UpdateEvent k None false CountAttempt) in
      try! _ := act (UpdateEvent k None false (Touch now None)) in Ret (Ok tt)
  | _ => try! _ := act (UpdateEvent k None false (Settle Dispatched (Some now) None)) in Ret (Ok tt)
  end.

(** The [enqueue] the pipeline is wired with: the outcome on the event, and a dead
    letter for a failed inline dispatch, each best effort. *)
Definition enqueueLive (d : IngressJobData) : task unit :=
  let! r := enqueue d None false in
  match r with
  | Err _ => Ret tt
  | Ok o =>
      let! _ := markDispatchOutcome (key_of d) o in
      match o with
      | FailedInline e => let! _ := save_dead d 1 e in Ret tt
      | _ => Ret tt
      end
  end.

Definition defersInlineDispatch (plugin : string) : task bool :=
  if useQueue cfg then Ret false else act (RestorePending plugin).

(** ** [handle] *)

(** The recording of a delivery: its stored id when it is new, [None] for a
    duplicate. *)
Definition record (req : IngressRequest) (route : IngressRoute) (sessionId : option string) (deliveryId : string) (payload : Payload) :
    fallible (option (string * Payload)) :=
  let key := fun id => (q_pluginId req, q_instanceId req, id) in
  let hash := payloadHash (q_rawBody req) in
  try! fresh := act (InsertEvent (key deliveryId) (q_route req) (stored payload None (Some (q_method req))) hash sessionId) in
  if fresh : bool then Ret (Ok (Some (deliveryId, payload)))
  else
    try! storedHash := act (ReadHash (key deliveryId)) in
    match storedHash with
    | None => Ret (Ok None)
    | Some h =>
        if String.eqb h hash then Ret (Ok None)
        else if negb (dedupBodyMismatchAsNew route) then Ret (Ok None)
        else
          let id := deliveryId +:+ ":" +:+ hash in
          let payload := stored payload (Some deliveryId) None in
          try! fresh := act (InsertEvent (key id) (q_route req) (stored payload (Some deliveryId) (Some (q_method req))) hash sessionId) in
          Ret (Ok (if fresh : bool then Some (id, payload) else None))
    end.

Definition ack_for (route : IngressRoute) (rawBody deliveryId : string) (now : Z) (admission : IngressAdmission) : AckResult :=
  let rendered := renderAck (response route ≫= ack) rawBody (pretty (now / 1000)) deliveryId in
  mkAck (status rendered) (body rendered) (Some (spread (default [] (headers rendered)) (adm_headers admission))).

(** A delivery past every check: recorded, and dispatched unless it is deferred.  The
    second component is the dispatch a response route does not wait for. *)
Definition store_and_dispatch (req : IngressRequest) (inst : ResolvedInstance) (route : IngressRoute) (admission : IngressAdmission) :
    fallible (AckResult * option IngressJobData) :=
  let deliveryId := deliveryIdOf req route in
  let! now := act Now in
  let answer := ack_for route (q_rawBody req) deliveryId now admission in
  try! recorded := record req route (i_sessionScope inst) deliveryId (payloadOf req route) in
  match recorded with
  | None => Ret (Ok (answer, None))
  | Some (id, payload) =>
      let! deferred := if reconciles cfg then defersInlineDispatch (q_pluginId req) else Ret false in
      if (deferred : bool) then Ret (Ok (answer, None)) else
      let d := mkData (q_pluginId req) (q_instanceId req) (q_route req) (Some (q_method req)) id (i_sessionScope inst)
                 (extractConversationId parseJson (conversationId route) (q_headers req) (q_rawBody req)) (Some payload) in
      match response route with
      | Some _ => Ret (Ok (answer, Some d))
      | None => let! _ := enqueueLive d in Ret (Ok (answer, None))
      end
  end.

Definition handle_full (req : IngressRequest) : fallible (AckResult * option IngressJobData) :=
  let answer := fun a => Ret (Ok (a, None)) in
  try! inst := act (Resolve (q_pluginId req) (q_instanceId req)) in
  match inst with
  | None => answer (mkAck 404 (Some "unknown instance") None)
  | Some inst =>
      if negb (i_enabled inst) then answer (mkAck 404 (Some "unknown instance") None) else
      let! route := act (Manifest (q_pluginId req) (q_route req)) in
      match route with
      | None => answer (mkAck 404 (Some "unknown route") None)
      | Some route =>
          let! now := act Now in
          match screen req inst route now with
          | Some rejection => answer rejection
          | None =>
              try! admission := act (AdmitInstance (q_pluginId req) (q_instanceId req)) in
              if negb (adm_ok admission) then answer (rate_limited (adm_headers admission)) else
              let! restoring := match response route with Some _ => act (RestorePending (q_pluginId req)) | None => Ret false end in
              let! rejection := if (restoring : bool) then Ret (Some pluginRestoringRejection)
                                else run_preflight (match response route with Some c => preflight c | None => [] end) (i_sessionScope inst) in
              match rejection with
              | Some rejection => answer rejection
              | None => store_and_dispatch req inst route admission
              end
          end
      end
  end.

(** The answer goes out before a response route's dispatch, which nothing awaits. *)
Definition handle (req : IngressRequest) : fallible AckResult :=
  try! r := handle_full req in
  let! _ := match snd r with Some d => enqueueLive d | None => Ret tt end in
  Ret (Ok (fst r)).

(** ** The queue worker *)

Definition other_copy (id : JobId) : JobId := (fst id, Some (match snd id with Some false => true | _ => false end)).
Definition is_copy (id : JobId) : bool := match snd id with Some _ => true | None => false end.

Definition deadLetter (d : IngressJobData) (attempts : Z) (error : string) (requeued : bool) : fallible unit :=
  try! _ := act ErrorHook in
  try! open := if requeued then act (CountOpen (key_of d) None) else Ret (Ok 0) in
  if 0 <? open then Ret (Ok tt)
  else try! _ := save_dead d attempts error in Ret (Ok tt).

Definition deadLetterOrRequeue (id : JobId) (job : Job) (attempts : Z) (error : string) : task unit :=
  let! r := deadLetter (j_data job) attempts error (is_copy id) in
  match r with
  | Ok _ => Ret tt
  | Err _ =>
      let! removed := act (RemoveJob (other_copy id)) in
      match removed with
      | Err _ => Ret tt
      | Ok _ => let! _ := act (AddJob (other_copy id) (mkJob (j_data job) (j_attempts job) 0 JLive)) in Ret tt
      end
  end.

Definition settleRequeued (d : IngressJobData) : task unit :=
  let! r := act (UpdateEvent (key_of d) None false (Settle Dispatched None None)) in
  match r with Err _ => Ret tt | Ok _ => let! _ := act (CloseOpen (key_of d)) in Ret tt end.

(** One run of a job.  The queue moves the job when the run ends: a job held for its
    plugin's restore is delayed, a failed one is retried or fails. *)
Definition process (id : JobId) (job : Job) : task unit :=
  let d := j_data job in
  let! held := act (RestorePending (d_pluginId d)) in
  if (held : bool) then Ret tt else
  let! r := act (Dispatch d) in
  match r with
  | Err e =>
      if j_attempts job <=? j_attemptsMade job + 1 then deadLetterOrRequeue id job (j_attemptsMade job + 1) e else Ret tt
  | Ok _ =>
      let! _ := if is_copy id then settleRequeued d else Ret tt in
      act (CompleteJob id)
  end.

Definition onWorkerFailed (id : JobId) (job : Job) : task unit :=
  deadLetterOrRequeue id job (j_attemptsMade job) "job stalled more than allowable limit".

(** ** The reconciler *)

Definition jobDataFor (k : EKey) (row : IngressEvent) (p : Payload) : task IngressJobData :=
  let '(plugin, instance, id) := k in
  let! route := act (Manifest plugin (e_route row)) in
  Ret (mkData plugin instance (e_route row) (p_method p) id (e_sessionId row)
    (extractConversationId parseJson ((route : option IngressRoute) ≫= conversationId) (p_headers p) (p_rawBody p)) (Some (stored p (p_providerDeliveryId p) None))).

(** The id of the row written, [None] when an open one exists. *)
Definition ensureDeadLetterRow (d : IngressJobData) (attempts : Z) (error : string) : fallible (option nat) :=
  try! open := act (CountOpen (key_of d) None) in
  if 0 <? open then Ret (Ok None)
  else try! id := save_dead d attempts error in Ret (Ok (Some id)).

Definition hasOpenDeadLetter (k : EKey) (below : option nat) : fallible bool :=
  try! n := act (CountOpen k below) in Ret (Ok (0 <? n)).

Definition settleDeadLetter (k : EKey) (rowId : nat) (written : option nat) (marked : bool) : fallible (option DispatchState) :=
  try! st := if marked then Ret (Ok (Some Failed)) else (try! row := act (ReadEvent k rowId) in Ret (Ok ((row : option IngressEvent) ≫= e_state))) in
  match written with
  | None => Ret (Ok st)
  | Some id =>
      try! surplus := match st with
                      | Some Dispatched => Ret (Ok true)
                      | Some Failed => hasOpenDeadLetter k (Some id)
                      | _ => Ret (Ok false)
                      end in
      if (surplus : bool) then (try! _ := act (CloseDead k id) in Ret (Ok st)) else Ret (Ok st)
  end.

Definition settledElsewhere (k : EKey) (rowId : nat) (written : option nat) (marked : bool) : fallible bool :=
  try! st := settleDeadLetter k rowId written marked in
  match st with
  | Some Dispatched => try! open := hasOpenDeadLetter k None in Ret (Ok (negb open))
  | _ => Ret (Ok false)
  end.

Inductive ReconcileOutcome := Replayed | ReconcileFailed | Interrupted.

(** A dead letter, then the terminal mark, then the settling of both. *)
Definition abandon (d : IngressJobData) (rowId : nat) (attempts : Z) (error : string) (c : Change) : fallible ReconcileOutcome :=
  try! written := ensureDeadLetterRow d attempts error in
  try! marked := act (UpdateEvent (key_of d) (Some rowId) true c) in
  try! elsewhere := settledElsewhere (key_of d) rowId written marked in
  Ret (Ok (if elsewhere : bool then Replayed else ReconcileFailed)).

Definition reconcileRow (k : EKey) (row : IngressEvent) (p : Payload) (now : Z) : fallible ReconcileOutcome :=
  let! d := jobDataFor k row p in
  let! existing := existingJobState d in
  let! stop := act Stopped in
  if (stop : bool) then Ret (Ok Interrupted) else
  match existing with
  | Some (JFailed _) => abandon d (e_id row) (maxJobAttempts cfg) "ingress queue job failed" (Settle Failed (Some now) None)
  | _ =>
      let! r := match existing with Some _ => Ret (Ok Queued) | None => enqueue d None true end in
      match r with
      | Err e => let! stop := act Stopped in Ret (if (stop : bool) then Ok Interrupted else Err e)
      | Ok (FailedInline e) =>
          let! stop := act Stopped in
          if (stop : bool) then Ret (Ok Interrupted) else
          let attempts := e_attempts row + 1 in
          if maxAttempts cfg <=? attempts then abandon d (e_id row) attempts e (Settle Failed (Some now) (Some attempts))
          else try! _ := act (UpdateEvent k (Some (e_id row)) false (Touch now (Some attempts))) in Ret (Ok ReconcileFailed)
      | Ok _ =>
          try! _ := act (UpdateEvent k (Some (e_id row)) false (Settle Dispatched (Some now) None)) in
          try! _ := act (CloseOpen k) in
          Ret (Ok Replayed)
      end
  end.

(** The rows of a sweep's batch, one by one; a row that cannot be read is set aside,
    and one that fails waits for the next sweep. *)
Definition sweep_row (k : EKey) (id : nat) (cutoff now : Z) : task unit :=
  let! row := act (ReadEvent k id) in
  match row with
  | Ok (Some row) =>
      if negb (bool_decide (e_state row = Some Pending)) then Ret tt
      else if match e_lastDispatchAt row with Some t => cutoff <? t | None => false end then Ret tt
      else match e_payload row with
           | None => Ret tt
           | Some p =>
               let! inst := act (Resolve (fst (fst k)) (snd (fst k))) in
               match inst with
               | Ok (Some inst) =>
                   if negb (i_enabled inst) then Ret tt else
                   let! restoring := act (RestorePending (fst (fst k))) in
                   if (restoring : bool) then Ret tt else
                   let! _ := reconcileRow k row p now in Ret tt
               | _ => Ret tt
               end
           end
  | _ => Ret tt
  end.
Fixpoint sweep_rows (rows : list (EKey * nat)) (cutoff now : Z) : task unit :=
  match rows with
  | [] => Ret tt
  | (k, id) :: r => let! stop := act Stopped in if (stop : bool) then Ret tt else let! _ := sweep_row k id cutoff now in sweep_rows r cutoff now
  end.
(** [skip]: the rows remembered as unreadable. *)
Definition sweep (skip : list nat) : task unit :=
  let! now := act Now in
  let cutoff := now - graceMs cfg in
  let! batch := act (StaleBatch cutoff (batchSize cfg) skip) in
  match batch with Ok rows => sweep_rows rows cutoff now | Err _ => Ret tt end.

(** ** The retention hand-off *)

(** [uuid]: whether a text is a UUID. *)
Definition ownerDeleted (uuid : string -> bool) (k : EKey) (row : IngressEvent) : fallible bool :=
  try! inst := act (Resolve (fst (fst k)) (snd (fst k))) in
  match inst with
  | None => Ret (Ok true)
  | Some _ =>
      match truthy (e_sessionId row) with
      | Some sid => if uuid sid then (try! found := act (SessionExists sid) in Ret (Ok (negb found))) else Ret (Ok false)
      | None => Ret (Ok false)
      end
  end.

(** One row of the hand-off: [None] when the pass stops, else whether the row is kept
    for the next run because it threw. *)
Definition handoff_row (uuid : string -> bool) (k : EKey) (row : IngressEvent) (p : Payload) : fallible (option unit) :=
  try! gone := ownerDeleted uuid k row in
  if gone : bool then
    let! _ := act (NoteDropped k) in
    try! _ := act (UpdateEvent k (Some (e_id row)) true (Settle Failed None None)) in Ret (Ok (Some tt))
  else
    let! d := jobDataFor k row p in
    let! existing := existingJobState d in
    let! stop := act Stopped in
    if (stop : bool) then Ret (Ok None) else
    if live_or_completed existing then
      try! settled := act (UpdateEvent k (Some (e_id row)) true (Settle Dispatched None None)) in
      if settled : bool then (try! _ := act (CloseOpen k) in Ret (Ok (Some tt))) else Ret (Ok (Some tt))
    else
      try! written := ensureDeadLetterRow d (e_attempts row) "not dispatched within the ingress dedup retention window" in
      try! marked := act (UpdateEvent k (Some (e_id row)) true (Settle Failed None None)) in
      try! _ := match written with Some id => settleDeadLetter k (e_id row) (Some id) marked | None => Ret (Ok None) end in
      Ret (Ok (Some tt)).

(** The rows of one batch: the ids kept for the next run, [None] when the pass stops. *)
Fixpoint handoff_rows (uuid : string -> bool) (rows : list (EKey * nat)) : task (option (list nat)) :=
  match rows with
  | [] => Ret (Some [])
  | (k, id) :: rest =>
      let! stop := act Stopped in
      if (stop : bool) then Ret None else
      let! row := act (ReadEvent k id) in
      let! kept := match row with
                   | Ok (Some row) =>
                       if bool_decide (e_state row = Some Pending) then
                         match e_payload row with
                         | Some p => let! r := handoff_row uuid k row p in Ret (match r with Ok (Some _) => Some [] | Ok None => None | Err _ => Some [id] end)
                         | None => Ret (Some [id])
                         end
                       else Ret (Some [])
                   | Ok None => Ret (Some [])
                   | Err _ => Ret (Some [id])
                   end in
      match kept with
      | None => Ret None
      | Some kept => let! more := handoff_rows uuid rest in Ret ((fun l => (kept ++ l)%list) <$> more)
      end
  end.

(** Batch after batch, at most [fuel] of them. *)
Fixpoint deadLetterAgedPending (fuel : nat) (uuid : string -> bool) (cutoff : Z) (limit : nat) (kept : list nat) : task unit :=
  match fuel with
  | O => Ret tt
  | S fuel =>
      let! rows := act (AgedBatch cutoff limit kept) in
      match rows with
      | Err _ => Ret tt
      | Ok rows =>
          let! r := handoff_rows uuid rows in
          match r with
          | None => Ret tt
          | Some more =>
              let kept := (kept ++ more)%list in
              if (length rows <? limit)%nat || (10 * limit <=? length kept)%nat then Ret tt
              else deadLetterAgedPending fuel uuid cutoff limit kept
          end
      end
  end.

(** ** The redrive and the prune *)

Definition redrive_row (plugin instance : string) (scope : option string) (id : nat) (f : DeadLetter) : fallible bool :=
  let d := mkData plugin instance (default "" (f_route f)) (Some (default "POST" (f_method f))) (default (pretty id) (f_deliveryId f))
             (f_sessionId f) (f_conversation f) (f_ingress f) in
  let! r := enqueue d (Some id) true in
  match r with
  | Err e => let! stop := act Stopped in Ret (if (stop : bool) then Ok false else Err e)
  | Ok (FailedInline e) => try! _ := act (RetryDead id (Z.max 0 (f_attempts f) + 1) e) in Ret (Ok true)
  | Ok _ =>
      let! now := act Now in
      try! _ := match truthy (f_deliveryId f) with
                | Some delivery => act (UpdateEvent (plugin, instance, delivery) None true (Settle Dispatched (Some now) None))
                | None => Ret (Ok true)
                end in
      try! _ := act (CloseDead (key_of d) id) in
      Ret (Ok true)
  end.

Fixpoint redrive_rows (plugin instance : string) (scope : option string) (ids : list nat) : fallible unit :=
  match ids with
  | [] => Ret (Ok tt)
  | id :: rest =>
      let! stop := act Stopped in
      if (stop : bool) then Ret (Ok tt) else
      let! row := act (ReadDead plugin instance scope id) in
      match row with
      | Err _ => let! _ := act (BumpDead id) in redrive_rows plugin instance scope rest
      | Ok None => redrive_rows plugin instance scope rest
      | Ok (Some f) =>
          let! stop := act Stopped in
          if (stop : bool) then Ret (Ok tt) else
          try! more := redrive_row plugin instance scope id f in
          if more : bool then redrive_rows plugin instance scope rest else Ret (Ok tt)
      end
  end.

Definition REDRIVE_BATCH_SIZE : nat := 100.
(** The rows left open afterwards. *)
Definition redriveBatch (plugin instance : string) (scope : option string) : fallible Z :=
  let! stop := act Stopped in
  try! ids := if (stop : bool) then Ret (Ok []) else act (RedrivePage plugin instance scope REDRIVE_BATCH_SIZE) in
  try! _ := redrive_rows plugin instance scope ids in
  act (CountRedrivable plugin instance scope).

(** The controller's door: an instance that is gone or disabled is refused. *)
Definition redriveInstance (plugin instance : string) : fallible (option Z) :=
  try! inst := act (Resolve plugin instance) in
  match inst with
  | Some inst => if i_enabled inst then (try! n := redriveBatch plugin instance (i_sessionScope inst) in Ret (Ok (Some n))) else Ret (Ok None)
  | None => Ret (Ok None)
  end.

(** [failuresCutoff] is [None] when the dead letters are kept for good. *)
Definition pruneOlderThan (fuel : nat) (uuid : string -> bool) (eventsCutoff : Z) (failuresCutoff : option Z) : task unit :=
  let! _ := match failuresCutoff with Some t => act (PruneDead t) | None => Ret (Ok tt) end in
  let! _ := act (PruneEvents eventsCutoff) in
  deadLetterAgedPending fuel uuid eventsCutoff 100 [].
End pipeline.

(** What the controller writes of an answer. *)
Record Wire := mkWire { wire_status : Z; wire_type : string; wire_headers : Headers; wire_body : string }.
Definition to_wire (a : AckResult) : Wire := mkWire (status a) (ackContentType (headers a)) (safeAckHeaders (headers a)) (default "" (body a)).

(** ** The tasks and the world around them *)

Section tasks.
Context (sha256 : string -> string) (hmac : string -> string -> string) (EQ_KEY : string) (hostTolerance : Z).
Context (numberOf : string -> option Z) (processBodyLimit : Z) (throttlerMessage : string) (parseJson : string -> option json) (uuid : string -> bool).
Context (cfg : Config).

Inductive starts (s : World) : task unit -> Prop :=
| st_handle req : starts s (let! _ := handle sha256 hmac EQ_KEY hostTolerance numberOf processBodyLimit throttlerMessage parseJson cfg req in Ret tt)
| st_process id job : jobs s !! id = Some job -> j_state job = JLive -> starts s (process id job)
| st_stalled id job : jobs s !! id = Some job -> j_state job = JFailed true -> starts s (onWorkerFailed id job)
| st_sweep skip : starts s (sweep parseJson cfg skip)
| st_redrive plugin instance : starts s (let! _ := redriveInstance cfg plugin instance in Ret tt)
| st_prune fuel eventsCutoff failuresCutoff : starts s (pruneOlderThan parseJson cfg fuel uuid eventsCutoff failuresCutoff).

(** Operators and plugins change what they own, time passes, and the queue moves and
    prunes its jobs; only a run that ended completes one. *)
Inductive env (s : World) : World -> Prop :=
| env_config i m r ss t : env s (mkWorld i m r ss (events s) (failures s) (jobs s) t (rowKeys s) (accepted s) (delivered s) (dropped s) (released s) (aged s))
| env_job id j n st : jobs s !! id = Some j -> (st = JCompleted -> j_state j = JCompleted) ->
    env s (with_jobs s (<[id := mkJob (j_data j) (j_attempts j) n st]> (jobs s)))
| env_prune id : env s (drop_job id s).

Definition fresh : World := mkWorld ∅ ∅ ∅ ∅ ∅ ∅ ∅ 0 ∅ ∅ ∅ ∅ ∅ ∅.
Definition reachable (c : list (task unit) * World) : Prop := rtc (pool_step run env starts) ([], fresh) c.
End tasks.
