(* ===== verification/IngressDurable.v ===== *)
(** * No provider delivery is lost

    Over any interleaving of the tasks of [Ingress], with failing statements, crashes,
    job retries and changing instances: a delivery that was recorded still waits in the
    event table with its payload, or has an open dead letter, or reached its plugin, or
    is held by a job, or lost its owner, or outlived what keeps it.  By the
    rely-guarantee rule of [Prog]. *)
From S2P Require Import Prelude JsString Json Prog IngressAuth Ingress.
Local Open Scope string_scope.
Local Open Scope Z_scope.
Local Open Scope prog_scope.

(** ** What is known for good *)

(** A plugin took it, or nothing is owed: its owner is gone, the queue or the
    retention let it go; or a job holds it. *)
Definition reached (s : World) (k : EKey) : Prop :=
  k ∈ delivered s \/ k ∈ dropped s \/ k ∈ released s \/ k ∈ aged s \/ exists id j, jobs s !! id = Some j /\ key_of (j_data j) = k.

(** A dead letter of it was written, below the given row when one is given. *)
Definition row_below (s : World) (k : EKey) (below : option nat) : Prop :=
  exists id f, failures s !! id = Some f /\ dead_key f k = true /\ match below with Some n => (id < n)%nat | None => True end.
Definition handed (s : World) (k : EKey) (below : option nat) : Prop := reached s k \/ row_below s k below.

Definition job_key (s : World) (id : JobId) (k : EKey) : Prop :=
  match fst id with OfDelivery k' => k' = k | OfRedrive _ _ row => rowKeys s !! row = Some k end.

Record le (s s' : World) : Prop := mkLe {
  le_reached : forall k, reached s k -> reached s' k;
  le_handed : forall k b, handed s k b -> handed s' k b;
  le_delivered : forall k, k ∈ delivered s -> k ∈ delivered s';
  le_rowKeys : forall id k, rowKeys s !! id = Some k -> rowKeys s' !! id = Some k
}.
#[export] Instance le_preorder : PreOrder le.
Proof. split; [by intros s|]. intros s1 s2 s3 [? ? ? ?] [? ? ? ?]. split; auto. Qed.

Lemma job_key_le s s' id k : le s s' -> job_key s id k -> job_key s' id k.
Proof. unfold job_key. intros Hle. destruct (fst id); [done|]. apply (le_rowKeys _ _ Hle). Qed.

Record Inv (s : World) : Prop := mkInv {
  v_kept : forall k, k ∈ accepted s -> (exists e, events s !! k = Some e /\ replayable e = true) \/ handed s k None;
  v_dispatched : forall k e, events s !! k = Some e -> e_state e = Some Dispatched -> reached s k;
  v_jobs : forall id j, jobs s !! id = Some j -> job_key s id (key_of (j_data j)) /\ (j_state j = JCompleted -> key_of (j_data j) ∈ delivered s);
  v_rows : forall id f, failures s !! id = Some f -> exists k, rowKeys s !! id = Some k /\ dead_key f k = true /\ (f_redriven f = false \/ handed s k (Some id))
}.

(** What a task must know to perform an effect. *)
Definition pre (B : Type) (e : eff B) (s : World) : Prop :=
  match e with
  | UpdateEvent k _ _ (Settle Dispatched _ _) => reached s k
  | UpdateEvent k _ _ (Settle Failed _ _) => handed s k None
  | UpdateEvent k _ _ (Settle Pending _ _) => False
  | InsertDead k f => dead_key f k = true /\ f_redriven f = false
  | CloseDead k id => rowKeys s !! id = Some k /\ handed s k (Some id)
  | CloseOpen k => reached s k
  | AddJob id j => job_key s id (key_of (j_data j)) /\ j_state j = JLive
  | CompleteJob id => exists k, job_key s id k /\ k ∈ delivered s
  | _ => True
  end.

(** ** Every statement keeps the invariant *)

Lemma reached_handed s k b : reached s k -> handed s k b.
Proof. by left. Qed.

Lemma dead_key_inj f k k' : dead_key f k = true -> dead_key f k' = true -> k = k'.
Proof.
  unfold dead_key. intros H H'. bool_facts. destruct k as [[a b] c], k' as [[a' b'] c']. cbn in *. congruence.
Qed.

(** A world that forgets nothing that is known and keeps the tables' own facts. *)
Lemma grow s s' :
  Inv s -> le s s' ->
  (forall k, k ∈ accepted s' -> k ∈ accepted s \/ exists e, events s' !! k = Some e /\ replayable e = true) ->
  (forall k e, events s !! k = Some e -> replayable e = true -> (exists e', events s' !! k = Some e' /\ replayable e' = true) \/ handed s' k None) ->
  (forall k e, events s' !! k = Some e -> e_state e = Some Dispatched -> reached s' k) ->
  (forall id j, jobs s' !! id = Some j -> job_key s' id (key_of (j_data j)) /\ (j_state j = JCompleted -> key_of (j_data j) ∈ delivered s')) ->
  (forall id f, failures s' !! id = Some f -> exists k, rowKeys s' !! id = Some k /\ dead_key f k = true /\ (f_redriven f = false \/ handed s' k (Some id))) ->
  Inv s' /\ le s s'.
Proof.
  intros HI Hle Ha He Hd Hj Hf. split; [|done]. split; [|exact Hd|exact Hj|exact Hf].
  intros k [Hk|Hk]%Ha; [|by left]. destruct (v_kept _ HI k Hk) as [(e & Hev & Hr)|Hh]; [by apply (He k e)|right; by apply (le_handed _ _ Hle)].
Qed.

Lemma jobs_le s s' id j : Inv s -> le s s' -> jobs s !! id = Some j -> job_key s' id (key_of (j_data j)) /\ (j_state j = JCompleted -> key_of (j_data j) ∈ delivered s').
Proof. intros HI Hle Hj. destruct (v_jobs _ HI id j Hj) as [H1 H2]. split; [by apply (job_key_le s)|]. intros Hc. by apply (le_delivered _ _ Hle), H2. Qed.
Lemma ing_rows_le s s' id f : Inv s -> le s s' -> failures s !! id = Some f -> exists k, rowKeys s' !! id = Some k /\ dead_key f k = true /\ (f_redriven f = false \/ handed s' k (Some id)).
Proof. intros HI Hle Hf. destruct (v_rows _ HI id f Hf) as (k & H1 & H2 & H3). exists k. split; [by apply (le_rowKeys _ _ Hle)|]. split; [done|]. destruct H3; [by left|right; by apply (le_handed _ _ Hle)]. Qed.
Lemma events_le s s' k e : Inv s -> le s s' -> events s !! k = Some e -> e_state e = Some Dispatched -> reached s' k.
Proof. intros HI Hle He Hs. by apply (le_reached _ _ Hle), (v_dispatched _ HI k e). Qed.

(** More is noted, the tables stay. *)
Lemma noted s s' :
  Inv s -> le s s' -> events s' = events s -> jobs s' = jobs s -> failures s' = failures s -> accepted s' = accepted s -> Inv s' /\ le s s'.
Proof.
  intros HI Hle E1 E2 E3 E4. apply grow; try done; rewrite ?E1, ?E2, ?E3, ?E4.
  - auto.
  - intros k e Hk Hr. left. by exists e.
  - intros k e. by apply events_le.
  - intros id j. by apply jobs_le.
  - intros id f. by apply ing_rows_le.
Qed.

Lemma le_note s s' :
  failures s' = failures s -> jobs s' = jobs s -> rowKeys s' = rowKeys s -> delivered s ⊆ delivered s' -> dropped s ⊆ dropped s' -> released s ⊆ released s' -> aged s ⊆ aged s' -> le s s'.
Proof.
  intros E1 E2 E3 H1 H2 H3 H4. assert (forall k, reached s k -> reached s' k) as Hr by (unfold reached; rewrite E2; intros k; set_solver).
  split; [done| |set_solver|by rewrite E3]. intros k b [H|H]; [left; by apply Hr|right]. unfold row_below. by rewrite E1.
Qed.

(** Events changed, the rest kept: [le] only looks at the rest. *)
Lemma events_changed s ev :
  Inv s ->
  (forall k e, events s !! k = Some e -> replayable e = true -> (exists e', ev !! k = Some e' /\ replayable e' = true) \/ handed s k None) ->
  (forall k e, ev !! k = Some e -> e_state e = Some Dispatched -> reached s k) ->
  Inv (with_events s ev) /\ le s (with_events s ev).
Proof.
  intros HI He Hd. apply grow; try done; [by auto|apply (v_jobs _ HI)|apply (v_rows _ HI)].
Qed.

Lemma update_event_ok k id pend c s : Inv s -> pre _ (UpdateEvent k id pend c) s -> Inv (update_event k id pend c s) /\ le s (update_event k id pend c s).
Proof.
  intros HI Hpre. unfold update_event. apply events_changed; [done| |].
  - intros k' e Hk Hr. destruct (decide (k' = k)) as [->|Hne]; [|left; exists e; by rewrite lookup_alter_ne].
    rewrite lookup_alter_eq, Hk. cbn. destruct (selected id pend e); [|left; by exists e]. destruct c as [st t n| |t n]; [|left; by eexists..].
    right. cbn in Hpre. destruct st; [done|by apply reached_handed|done].
  - intros k' e. destruct (decide (k' = k)) as [->|Hne]; [|rewrite lookup_alter_ne by done; apply (v_dispatched _ HI)].
    rewrite lookup_alter_eq. destruct (events s !! k) as [e0|] eqn:E; [|done]. cbn. intros [= <-]. destruct (selected id pend e0); [|by apply (v_dispatched _ HI)].
    destruct c as [st t n| |t n]; cbn; [|by apply (v_dispatched _ HI)..]. intros [= ->]. exact Hpre.
Qed.

Lemma insert_event_ok k id route p h sid s : Inv s -> events s !! k = None -> Inv (insert_event k id route p h sid s) /\ le s (insert_event k id route p h sid s).
Proof.
  intros HI Hn. apply grow; try done.
  - intros k' Hk. cbn in *. destruct (decide (k' = k)) as [->|Hne]; [right; eexists; by rewrite lookup_insert_eq|left; set_solver].
  - intros k' e Hk Hr. left. exists e. cbn. rewrite lookup_insert_ne by congruence. done.
  - intros k' e. cbn. destruct (decide (k' = k)) as [->|Hne]; [rewrite lookup_insert_eq; by intros [= <-]|rewrite lookup_insert_ne by done; apply (v_dispatched _ HI)].
  - apply (v_jobs _ HI).
  - apply (v_rows _ HI).
Qed.

Lemma prune_events_ok cutoff s : Inv s ->
  Inv (with_events s (filter (fun r => prunable cutoff (snd r) = false) (events s))) /\ le s (with_events s (filter (fun r => prunable cutoff (snd r) = false) (events s))).
Proof.
  intros HI. apply events_changed; [done| |].
  - intros k e Hk Hr. left. exists e. split; [|done]. apply map_lookup_filter_Some_2; [done|]. unfold prunable. cbn. rewrite Hr. by rewrite andb_false_r.
  - intros k e Hk%map_lookup_filter_Some_1_1. by apply (v_dispatched _ HI).
Qed.

(** The dead letters changed. *)
Lemma rows_changed s fs :
  Inv s ->
  (forall id f, failures s !! id = Some f -> exists f', fs !! id = Some f' /\ forall k, dead_key f' k = dead_key f k) ->
  (forall id f', fs !! id = Some f' -> exists f, failures s !! id = Some f /\ (forall k, dead_key f' k = dead_key f k) /\
     (f_redriven f' = f_redriven f \/ exists k, dead_key f k = true /\ handed s k (Some id))) ->
  Inv (with_failures s fs) /\ le s (with_failures s fs).
Proof.
  intros HI H1 H2. assert (forall k b, handed s k b -> handed (with_failures s fs) k b) as Hh.
  { intros k b [H|(id & f & Hf & Hk & Hb)]; [by left|right]. destruct (H1 id f Hf) as (f' & Hf' & E). exists id, f'. by rewrite E. }
  assert (le s (with_failures s fs)) as Hle by (by split). apply grow; try done.
  - auto.
  - intros k e Hk Hr. left. by exists e.
  - intros k e. by apply (events_le s).
  - intros id j. by apply (jobs_le s).
  - intros id f' Hf'. destruct (H2 id f' Hf') as (f & Hf & E & Hc). destruct (v_rows _ HI id f Hf) as (k & Hk & Hd & Ho). exists k. split; [done|]. split; [by rewrite E|].
    destruct Hc as [->|(k' & Hd' & Hh')]; [destruct Ho; [by left|right; by apply Hh]|]. rewrite (dead_key_inj f k k' Hd Hd'). right. by apply Hh.
Qed.

Lemma alter_dead_ok g id s :
  Inv s -> (forall f k, dead_key (g f) k = dead_key f k) ->
  (forall f, failures s !! id = Some f -> f_redriven (g f) = f_redriven f \/ exists k, dead_key f k = true /\ handed s k (Some id)) ->
  Inv (with_failures s (alter g id (failures s))) /\ le s (with_failures s (alter g id (failures s))).
Proof.
  intros HI Hg Hc. apply rows_changed; [done| |].
  - intros i f Hf. destruct (decide (i = id)) as [->|Hne]; [exists (g f); rewrite lookup_alter_eq, Hf; by split; [|apply Hg]|exists f; by rewrite lookup_alter_ne].
  - intros i f'. destruct (decide (i = id)) as [->|Hne]; [|rewrite lookup_alter_ne by done; intros Hf; exists f'; auto].
    rewrite lookup_alter_eq. destruct (failures s !! id) as [f|] eqn:E; [|done]. intros [= <-]. exists f. split; [done|]. split; [apply Hg|by apply Hc].
Qed.

Lemma close_open_ok k s : Inv s -> reached s k ->
  Inv (with_failures s ((fun f => if dead_key f k then close_dead f else f) <$> failures s)) /\ le s (with_failures s ((fun f => if dead_key f k then close_dead f else f) <$> failures s)).
Proof.
  intros HI Hr. apply rows_changed; [done| |].
  - intros i f Hf. eexists. rewrite lookup_fmap, Hf. split; [done|]. intros k'. by destruct (dead_key f k).
  - intros i f'. rewrite lookup_fmap. destruct (failures s !! i) as [f|] eqn:E; [|done]. intros [= <-]. exists f. split; [done|].
    destruct (dead_key f k) eqn:Ek; [|auto]. split; [done|]. right. exists k. split; [done|by left].
Qed.

Lemma insert_dead_ok id k f s : Inv s -> rowKeys s !! id = None -> failures s !! id = None -> dead_key f k = true -> f_redriven f = false ->
  Inv (insert_dead id k f s) /\ le s (insert_dead id k f s).
Proof.
  intros HI Hn Hnf Hd Ho. assert (le s (insert_dead id k f s)) as Hle.
  { split; [done| |done|].
    - intros k' b [H|(i & g & Hg & Hk & Hb)]; [by left|right]. exists i, g. cbn. rewrite lookup_insert_ne by congruence. done.
    - intros i k'. cbn. intros Hi. rewrite lookup_insert_ne by congruence. done. }
  apply grow; try done.
  - auto.
  - intros k' e Hk Hr. left. by exists e.
  - intros k' e. by apply (events_le s).
  - intros i j. by apply (jobs_le s).
  - intros i g Hg. destruct (decide (i = id)) as [->|Hne]; cbn in Hg.
    + rewrite lookup_insert_eq in Hg. injection Hg as <-. exists k. cbn. rewrite lookup_insert_eq. auto.
    + rewrite lookup_insert_ne in Hg by done. by apply (ing_rows_le s).
Qed.

Lemma elem_of_aged cutoff s id f k : failures s !! id = Some f -> dead_key f k = true -> f_createdAt f <? cutoff = true -> k ∈ aged_dead cutoff s.
Proof.
  intros Hf Hk Hc. unfold aged_dead. apply elem_of_list_to_set, list_elem_of_omap. exists (id, f). split; [by apply elem_of_map_to_list|]. cbn. rewrite Hc.
  unfold dead_key in Hk. bool_facts. destruct k as [[a b] c]. cbn in *. subst. by rewrite H0.
Qed.

Lemma prune_dead_ok cutoff s : Inv s -> Inv (prune_dead cutoff s) /\ le s (prune_dead cutoff s).
Proof.
  intros HI. assert (forall k, reached s k -> reached (prune_dead cutoff s) k) as Hr.
  { intros k [H|[H|[H|[H|H]]]]; [by left|by right; left|by right; right; left| |by right; right; right; right]. right; right; right; left. cbn. set_solver. }
  assert (le s (prune_dead cutoff s)) as Hle.
  { split; [done| |done|done]. intros k b [H|(id & f & Hf & Hk & Hb)]; [left; by apply Hr|].
    destruct (f_createdAt f <? cutoff) eqn:Ec.
    - left. right; right; right; left. cbn. apply elem_of_union. left. by eapply elem_of_aged.
    - right. exists id, f. split; [|done]. cbn. apply map_lookup_filter_Some_2; [done|]. cbn. by apply Z.ltb_ge in Ec. }
  apply grow; try done.
  - auto.
  - intros k e Hk Hrp. left. by exists e.
  - intros k e. by apply (events_le s).
  - intros id j. by apply (jobs_le s).
  - intros id f Hf. cbn in Hf. apply map_lookup_filter_Some_1_1 in Hf. by apply (ing_rows_le s).
Qed.

(** The queue changed: what a job held stays reached. *)
Lemma jobs_changed s s' :
  Inv s -> events s' = events s -> failures s' = failures s -> rowKeys s' = rowKeys s -> accepted s' = accepted s -> delivered s' = delivered s ->
  (forall k, reached s k -> reached s' k) ->
  (forall id j, jobs s' !! id = Some j -> job_key s id (key_of (j_data j)) /\ (j_state j = JCompleted -> key_of (j_data j) ∈ delivered s)) ->
  Inv s' /\ le s s'.
Proof.
  intros HI E1 E2 E3 E4 E5 Hr Hj. assert (le s s') as Hle.
  { split; [done| |by rewrite E5|by rewrite E3]. intros k b [H|H]; [left; by apply Hr|right; unfold row_below; by rewrite E2]. }
  apply grow; try done; rewrite ?E1, ?E2, ?E4, ?E5.
  - auto.
  - intros k e Hk Hrp. left. by exists e.
  - intros k e. by apply (events_le s).
  - intros id j Hi. destruct (Hj id j Hi) as [H1 H2]. split; [|done]. unfold job_key in *. by rewrite E3.
  - intros id f. by apply (ing_rows_le s).
Qed.

Lemma same_jobs_reached s js : (forall id j, jobs s !! id = Some j -> exists j', js !! id = Some j' /\ key_of (j_data j') = key_of (j_data j)) -> forall k, reached s k -> reached (with_jobs s js) k.
Proof.
  intros H k [Hr|[Hr|[Hr|[Hr|(id & j & Hj & E)]]]]; [by left|by right; left|by right; right; left|by right; right; right; left|].
  right; right; right; right. destruct (H id j Hj) as (j' & Hj' & E'). exists id, j'. split; [done|congruence].
Qed.

Lemma in_queue_spec k js : in_queue k js = true <-> exists id j, js !! id = Some j /\ key_of (j_data j) = k.
Proof.
  unfold in_queue. split.
  - intros ([id j] & Hj%elem_of_map_to_list & Hk%bool_decide_eq_true)%existsb_elem. by exists id, j.
  - intros (id & j & Hj & Hk). apply existsb_elem. exists (id, j). split; [by apply elem_of_map_to_list|by apply bool_decide_eq_true].
Qed.

Lemma drop_job_ok id s : Inv s -> Inv (drop_job id s) /\ le s (drop_job id s).
Proof.
  intros HI. unfold drop_job. destruct (jobs s !! id) as [j|] eqn:Hj; [|by split; [|reflexivity]].
  set (k := key_of (j_data j)). set (js := base.delete id (jobs s)).
  assert (forall s', jobs s' = js -> delivered s' = delivered s -> dropped s' = dropped s -> released s ⊆ released s' -> aged s' = aged s -> (in_queue k js = true \/ k ∈ released s') ->
    forall k', reached s k' -> reached s' k') as Hr.
  { intros s' Ej E1 E2 E3 E4 Hk k' H. unfold reached. rewrite Ej, E1, E2, E4. destruct H as [H|[H|[H|[H|(i & j' & Hi & E)]]]]; [by left|by right; left|right; right; left; set_solver|by right; right; right; left|].
    destruct (decide (i = id)) as [->|Hne].
    - rewrite Hj in Hi. injection Hi as <-. fold k in E. subst k'. destruct Hk as [Hk|Hk]; [right; right; right; right; by apply in_queue_spec|by right; right; left].
    - right; right; right; right. exists i, j'. split; [|done]. unfold js. by rewrite lookup_delete_ne. }
  assert (forall i j', js !! i = Some j' -> job_key s i (key_of (j_data j')) /\ (j_state j' = JCompleted -> key_of (j_data j') ∈ delivered s)) as Hjs by (intros i j' [_ Hi]%lookup_delete_Some; by apply (v_jobs _ HI)).
  destruct (in_queue k js) eqn:Hq; apply jobs_changed; try done; apply Hr; try done; [by left| |right]; cbn; set_solver.
Qed.

Lemma ing_writes_ok {A : Type} (v : A) (t s s' : World) r : Inv s -> (Inv t /\ le s t) -> writes v t s r s' -> Inv s' /\ le s s'.
Proof. intros HI Ht [(e & _ & ->)|(_ & ->)]; [split; [done|reflexivity]|done]. Qed.
Lemma ing_reads_ok {A : Type} (v : A) (s s' : World) r : Inv s -> reads v s r s' -> Inv s' /\ le s s'.
Proof. intros HI [-> _]. split; [done|reflexivity]. Qed.

Lemma jobs_put_ok s id j : Inv s -> job_key s id (key_of (j_data j)) -> (j_state j = JCompleted -> key_of (j_data j) ∈ delivered s) ->
  (forall j0, jobs s !! id = Some j0 -> key_of (j_data j0) = key_of (j_data j)) -> Inv (with_jobs s (<[id := j]> (jobs s))) /\ le s (with_jobs s (<[id := j]> (jobs s))).
Proof.
  intros HI Hk Hc Hold. apply jobs_changed; try done.
  - apply same_jobs_reached. intros i j0 Hj0. destruct (decide (i = id)) as [->|Hne]; [exists j; rewrite lookup_insert_eq; split; [done|symmetry; by apply Hold]|exists j0; by rewrite lookup_insert_ne].
  - intros i j0. cbn. destruct (decide (i = id)) as [->|Hne]; [rewrite lookup_insert_eq; by intros [= <-]|rewrite lookup_insert_ne by done; apply (v_jobs _ HI)].
Qed.

Lemma same_job_key s id k k' : job_key s id k -> job_key s id k' -> k = k'.
Proof. unfold job_key. destruct (fst id); congruence. Qed.

Lemma ingress_run_ok B (e : eff B) s b s' : Inv s -> pre B e s -> run B e s b s' -> Inv s' /\ le s s'.
Proof.
  intros HI. assert (Inv s /\ le s s) as Hsame by (split; [done|reflexivity]).
  destruct e; cbn [run]; intros Hpre Hrun; try (subst s'; exact Hsame); try (destruct Hrun as [-> _]; exact Hsame); try (by eapply ing_reads_ok);
    try (eapply ing_writes_ok; [done| |exact Hrun]).
  - destruct (events s !! k) eqn:E; [destruct Hrun as [-> _]; exact Hsame|]. destruct Hrun as [(e & _ & ->)|(id & _ & ->)]; [exact Hsame|by apply insert_event_ok].
  - by apply update_event_ok.
  - subst s'. apply noted; try done. apply le_note; try done. set_solver.
  - by apply prune_events_ok.
  - destruct Hrun as [(e & _ & ->)|(id & H1 & H2 & _ & ->)]; [exact Hsame|]. destruct Hpre. by apply insert_dead_ok.
  - destruct Hpre as [Hk Hh]. apply alter_dead_ok; [done|done|]. intros f Hf. right. exists k. split; [|done].
    destruct (v_rows _ HI id f Hf) as (k' & Hk' & Hd & _). congruence.
  - by apply close_open_ok.
  - apply alter_dead_ok; [done|done|]. auto.
  - apply alter_dead_ok; [done|done|]. auto.
  - by apply prune_dead_ok.
  - destruct Hpre as [Hk Hl]. destruct (jobs s !! id) as [j0|] eqn:E.
    + apply jobs_changed; try done. apply (v_jobs _ HI).
    + apply jobs_put_ok; try done; [by rewrite Hl|congruence].
  - by apply drop_job_ok.
  - subst s'. destruct (jobs s !! id) as [j|] eqn:E.
    + assert (alter (set_state JCompleted) id (jobs s) = <[id := set_state JCompleted j]> (jobs s)) as ->.
      { apply map_eq. intros i. destruct (decide (i = id)) as [->|Hne]; [by rewrite lookup_alter_eq, lookup_insert_eq, E|by rewrite lookup_alter_ne, lookup_insert_ne]. }
      destruct (v_jobs _ HI id j E) as [Hj _]. destruct Hpre as (k & Hk & Hd). apply jobs_put_ok; try done; [|intros j0 Hj0; cbn; congruence].
      intros _. cbn. by rewrite (same_job_key s id _ k Hj Hk).
    + assert (alter (set_state JCompleted) id (jobs s) = jobs s) as ->.
      { apply map_eq. intros i. destruct (decide (i = id)) as [->|Hne]; [by rewrite lookup_alter_eq, E|by rewrite lookup_alter_ne]. }
      apply jobs_changed; try done. apply (v_jobs _ HI).
  - subst s'. destruct b; [|exact Hsame]. apply noted; try done. apply le_note; try done. set_solver.
Qed.

Lemma ingress_env_ok s s' : Inv s -> env s s' -> Inv s' /\ le s s'.
Proof.
  intros HI Henv. destruct Henv as [i m r ss t|id j n st Hj Hst|id].
  - apply noted; try done.
  - destruct (v_jobs _ HI id j Hj) as [Hk Hc]. apply jobs_put_ok; try done; [cbn; auto|]. intros j0 Hj0. cbn. congruence.
  - by apply drop_job_ok.
Qed.

(** ** Every task is safe *)

Abbreviation ok p Q s := (safe run le pre Inv p Q s).
Abbreviation fine := (fun _ _ => True).

Lemma ingress_bind_ok {A B : Type} (p : task A) (f : A -> task B) Q s : ok p (fun a s1 => ok (f a) Q s1) s -> ok (pbind p f) Q s.
Proof. exact (safe_bind run le pre Inv p f Q s). Qed.
Lemma ingress_conseq_ok {A : Type} (p : task A) (Q Q' : A -> World -> Prop) s :
  ok p Q s -> (forall a s1, le s s1 -> Q a s1 -> Q' a s1) -> ok p Q' s.
Proof. exact (safe_conseq run le pre Inv p Q Q' s). Qed.
Lemma ret_ok {A : Type} (a : A) (Q : A -> World -> Prop) s : (forall s1, le s s1 -> Q a s1) -> ok (Ret a) Q s.
Proof. done. Qed.

(** An effect whose precondition holds for good, its answer taken as it comes. *)
Lemma ing_act_ok {A B : Type} (e : eff B) (f : B -> task A) Q s :
  (forall s1, le s s1 -> Inv s1 -> pre B e s1) -> (forall b s1 s2, le s s1 -> Inv s1 -> run B e s1 b s2 -> Inv s2 -> le s1 s2 -> ok (f b) Q s2) -> ok (pbind (act e) f) Q s.
Proof.
  intros Hpre Hf. apply ingress_bind_ok, safe_act. intros s1 L1 I1. split; [by apply Hpre|]. intros b s2 Hrun I2 L2 s3 L3.
  eapply safe_le; [exact _|by apply (Hf b s1 s2)|done].
Qed.
Lemma ing_plain_ok {A B : Type} (e : eff B) (f : B -> task A) Q s :
  (forall s1, pre B e s1) -> (forall b s1, le s s1 -> ok (f b) Q s1) -> ok (pbind (act e) f) Q s.
Proof. intros Hpre Hf. apply ing_act_ok; [auto|]. intros b s1 s2 L1 _ _ _ L2. apply Hf. by transitivity s1. Qed.

(** A step that may throw. *)
Lemma try_ok {A B : Type} (m : fallible A) (k : A -> fallible B) Q Q' s :
  ok m Q' s -> (forall e s1, le s s1 -> Q (Err e) s1) -> (forall a s1, le s s1 -> Q' (Ok a) s1 -> ok (k a) Q s1) -> ok (try_ m k) Q s.
Proof.
  intros Hm He Hk. apply ingress_bind_ok. eapply ingress_conseq_ok; [exact Hm|]. intros [a|e] s1 L1 Ha; [by apply Hk|].
  apply ret_ok. intros s2 L2. apply He. by transitivity s1.
Qed.
Lemma act_post {B : Type} (e : eff B) (Q : B -> World -> Prop) s :
  (forall s1, le s s1 -> Inv s1 -> pre B e s1) -> (forall b s1 s2, le s s1 -> Inv s1 -> run B e s1 b s2 -> Inv s2 -> le s1 s2 -> forall s3, le s2 s3 -> Q b s3) -> ok (act e) Q s.
Proof. intros Hpre Hq. apply safe_act. intros s1 L1 I1. split; [by apply Hpre|]. intros b s2 Hrun I2 L2. by apply (Hq b s1 s2). Qed.
Lemma act_fine {B : Type} (e : eff B) s : (forall s1, le s s1 -> Inv s1 -> pre B e s1) -> ok (act e) fine s.
Proof. intros Hpre. by apply act_post. Qed.

(** Bring what is known to the latest state. *)
Ltac later :=
  repeat match goal with
  | H : reached ?s ?k, L : le ?s ?s' |- _ => apply (le_reached _ _ L) in H
  | H : handed ?s ?k ?b, L : le ?s ?s' |- _ => apply (le_handed _ _ L) in H
  | H : ?k ∈ delivered ?s, L : le ?s ?s' |- _ => apply (le_delivered _ _ L) in H
  | H : rowKeys ?s !! ?d = Some ?k, L : le ?s ?s' |- _ => apply (le_rowKeys _ _ L) in H
  | H : job_key ?s ?d ?k, L : le ?s ?s' |- _ => apply (job_key_le _ _ _ _ L) in H
  end.

Definition good_outcome (o : Outcome) : bool := match o with FailedInline _ => false | _ => true end.

Lemma ing_dispatch_ok d Q s : (forall r s1, (is_ok r = true -> reached s1 (key_of d)) -> Q r s1) -> ok (act (Dispatch d)) Q s.
Proof.
  intros HQ. apply act_post; [done|]. intros b s1 s2 L1 I1 Hrun I2 L2 s3 L3. apply HQ. intros Hb. destruct b; [|done].
  cbn in Hrun. subst s2. apply (le_reached _ _ L3). left. cbn. set_solver.
Qed.

Lemma added_reached s id j : Inv s -> job_key s id (key_of (j_data j)) ->
  reached (with_jobs s (match jobs s !! id with Some _ => jobs s | None => <[id := j]> (jobs s) end)) (key_of (j_data j)).
Proof.
  intros HI Hk. right; right; right; right. exists id. destruct (jobs s !! id) as [j0|] eqn:E.
  - exists j0. split; [exact E|]. destruct (v_jobs _ HI id j0 E) as [Hk0 _]. by apply (same_job_key s id).
  - exists j. split; [apply lookup_insert_eq|done].
Qed.

Lemma ing_enqueue_ok cfg d row sig s :
  (match row with Some r => rowKeys s !! r = Some (key_of d) | None => True end) ->
  ok (enqueue cfg d row sig) (fun r s1 => match r with Ok o => good_outcome o = true -> reached s1 (key_of d) | Err _ => True end) s.
Proof.
  intros Hrow. unfold enqueue.
  assert (forall s, ok (dispatch_inline d) (fun r s1 => match r with Ok o => good_outcome o = true -> reached s1 (key_of d) | Err _ => True end) s) as Hin.
  { intros s0. apply ingress_bind_ok, ing_dispatch_ok. intros r s1 Hr. apply ret_ok. intros s2 L2. destruct r; [|done]. intros _. apply (le_reached _ _ L2), Hr. done. }
  destruct (useQueue cfg); [|apply Hin]. apply ing_act_ok.
  - intros s1 L1 _. split; [|done]. destruct row as [r|]; [|done]. unfold job_key. cbn. by later.
  - intros b s1 s2 L1 I1 Hrun I2 L2. destruct b as [u|e].
    + apply ret_ok. intros s3 L3 _. apply (le_reached _ _ L3). destruct Hrun as [(e & ? & _)|[_ ->]]; [done|].
      apply (added_reached s1 (base_of d row, None) (mkJob d (maxJobAttempts cfg) 0 JLive) I1). unfold job_key. destruct row as [r|]; cbn; [by apply (le_rowKeys _ _ L1)|done].
    + apply ingress_bind_ok. assert (forall s3, le s2 s3 -> ok (if sig then act Stopped else Ret false) fine s3) as Hs by (intros s3 _; destruct sig; [by apply act_fine|by apply ret_ok]).
      eapply ingress_conseq_ok; [by apply Hs|]. intros [] s3 _ _; [by apply ret_ok|apply Hin].
Qed.

Lemma mark_ok cfgk o s : (good_outcome o = true -> reached s cfgk) -> ok (markDispatchOutcome cfgk o) fine s.
Proof.
  intros Ho. unfold markDispatchOutcome. apply ing_plain_ok; [done|]. intros now s1 L1.
  assert (good_outcome o = true -> ok (try_ (act (UpdateEvent cfgk None false (Settle Dispatched (Some now) None))) (fun _ => Ret (Ok tt))) fine s1) as Hd.
  { intros Hg. specialize (Ho Hg). later. eapply try_ok; [apply act_fine; intros s2 L2 _; cbn; by later|done|]. intros. by apply ret_ok. }
  destruct o; [by apply Hd|by apply Hd|]. eapply try_ok; [by apply act_fine|done|]. intros. eapply try_ok; [by apply act_fine|done|]. intros. by apply ret_ok.
Qed.

(** A dead letter written for a delivery. *)
Lemma save_ok d n e s : ok (save_dead d n e) (fun r s1 => match r with Ok id => rowKeys s1 !! id = Some (key_of d) /\ handed s1 (key_of d) None | Err _ => True end) s.
Proof.
  unfold save_dead. apply ing_plain_ok; [done|]. intros now s1 L1. assert (dead_key (dead_letter d n e now) (key_of d) = true) as Hd by (unfold dead_key; cbn; by rewrite !bool_decide_eq_true_2).
  apply act_post; [done|]. intros r s2 s3 L2 I2 Hrun I3 L3 s4 L4. destruct r as [id|]; [|done].
  destruct Hrun as [(? & ? & _)|(id' & _ & _ & [[= ->]|[? ?]] & ->)]; [done| |done]. split.
  - apply (le_rowKeys _ _ L4). cbn. apply lookup_insert_eq.
  - apply (le_handed _ _ L4). right. exists id', (dead_letter d n e now). split; [apply lookup_insert_eq|done].
Qed.

Lemma enqueueLive_ok cfg d s : ok (enqueueLive cfg d) fine s.
Proof.
  unfold enqueueLive. apply ingress_bind_ok. eapply ingress_conseq_ok; [by apply ing_enqueue_ok|]. intros [o|e] s1 L1 Ho; [|by apply ret_ok].
  apply ingress_bind_ok. eapply ingress_conseq_ok; [by apply mark_ok|]. intros _ s2 _ _. destruct o; [by apply ret_ok..|].
  apply ingress_bind_ok. eapply ingress_conseq_ok; [apply save_ok|]. intros. by apply ret_ok.
Qed.

(** What a job's presence says of its delivery. *)
Definition found_job (k : EKey) (st : option JobState) (s : World) : Prop := match st with Some _ => reached s k | None => True end.
Lemma found_job_le k st s s' : le s s' -> found_job k st s -> found_job k st s'.
Proof. intros L. destruct st; [apply (le_reached _ _ L)|done]. Qed.

Lemma get_job_ok {A : Type} k c (f : result string (option JobState) -> task A) Q s :
  (forall r s1, le s s1 -> match r with Ok st => found_job k st s1 | Err _ => True end -> ok (f r) Q s1) ->
  ok (pbind (act (GetJobState (OfDelivery k, c))) f) Q s.
Proof.
  intros Hf. apply ing_act_ok; [done|]. intros b s1 s2 L1 I1 [-> Hb] _ _. apply Hf; [done|]. destruct Hb as [->|[e ->]]; [|done].
  destruct (jobs s1 !! ((OfDelivery k, c) : JobId)) as [j|] eqn:E; [|exact I]. right; right; right; right. eexists _, j. split; [exact E|].
  destruct (v_jobs _ I1 _ j E) as [H _]. exact (eq_sym H).
Qed.

Lemma found_ret_ok k st s : found_job k st s -> ok (Ret (E:=eff) st) (found_job k) s.
Proof. intros H. apply ret_ok. intros s1 L1. by apply (found_job_le _ _ s). Qed.

Lemma existing_ok cfg d s : ok (existingJobState cfg d) (found_job (key_of d)) s.
Proof.
  unfold existingJobState. destruct (useQueue cfg); cbn [negb]; [|by apply (found_ret_ok _ None)].
  apply get_job_ok. intros [st|e] s1 L1 H1; [|by apply (found_ret_ok _ None)]. destruct (live_or_completed st); [by apply found_ret_ok|].
  apply get_job_ok. intros [st1|e] s2 L2 H2; [|by apply (found_ret_ok _ None)]. destruct (live_or_completed st1); [by apply found_ret_ok|].
  apply get_job_ok. intros [st2|e] s3 L3 H3; [|by apply (found_ret_ok _ None)]. destruct (live_or_completed st2); apply found_ret_ok; [done|].
  by apply (found_job_le _ _ s2), (found_job_le _ _ s1).
Qed.

(** The handler: it only inserts, and dispatches. *)
Ltac fine_act := apply act_fine; done.
Lemma fine_bind {A B : Type} (p : task A) (f : A -> task B) s : ok p fine s -> (forall a s1, le s s1 -> ok (f a) fine s1) -> ok (pbind p f) fine s.
Proof. intros Hp Hf. apply ingress_bind_ok. eapply ingress_conseq_ok; [apply Hp|]. intros. by apply Hf. Qed.
Lemma fine_try {A B : Type} (m : fallible A) (k : A -> fallible B) s : ok m fine s -> (forall a s1, le s s1 -> ok (k a) fine s1) -> ok (try_ m k) fine s.
Proof. intros Hm Hk. eapply try_ok; [apply Hm|done|auto]. Qed.
Lemma fine_ret {A : Type} (a : A) s : ok (Ret a) fine s.
Proof. done. Qed.

(** Walk a program whose effects need nothing. *)
Ltac walk :=
  repeat match goal with
  | |- ok (Ret _) _ _ => exact (fine_ret _ _)
  | |- ok (act _) _ _ => by apply act_fine
  | |- ok (enqueueLive _ _) _ _ => apply enqueueLive_ok
  | |- ok (pbind _ _) _ _ => apply fine_bind; intros
  | |- ok (try_ _ _) _ _ => apply fine_try; intros
  | |- ok (match ?x with _ => _ end) _ _ => destruct x
  end.

Lemma ing_preflight_ok checks scope s : ok (run_preflight checks scope) fine s.
Proof.
  revert s. induction checks as [|c r IH]; intros s; cbn [run_preflight]; [done|]. destruct c, (truthy scope) as [sc|]; try apply IH.
  destruct (String.eqb sc "*"); [apply IH|]. walk. apply IH.
Qed.

Section tasks.
Context (sha256 : string -> string) (hmac : string -> string -> string) (EQ_KEY : string) (hostTolerance : Z).
Context (numberOf : string -> option Z) (processBodyLimit : Z) (throttlerMessage : string) (parseJson : string -> option json) (uuid : string -> bool).
Context (cfg : Config).

Lemma handle_ok req s : ok (handle sha256 hmac EQ_KEY hostTolerance numberOf processBodyLimit throttlerMessage parseJson cfg req) fine s.
Proof.
  unfold handle, handle_full, store_and_dispatch, record, defersInlineDispatch. walk; apply ing_preflight_ok.
Qed.

(** The worker. *)
Lemma deadLetter_ok d n e requeued s : ok (deadLetter d n e requeued) fine s.
Proof.
  unfold deadLetter. apply fine_try; intros; [by apply act_fine|]. apply fine_try; intros; [walk|]. destruct (0 <? a0); [done|].
  apply fine_try; intros; [|done]. eapply ingress_conseq_ok; [apply save_ok|done].
Qed.

Lemma requeue_ok id job n e s : job_key s id (key_of (j_data job)) -> ok (deadLetterOrRequeue id job n e) fine s.
Proof.
  intros Hk. unfold deadLetterOrRequeue. apply ingress_bind_ok. eapply ingress_conseq_ok; [apply deadLetter_ok|]. intros [u|err] s1 L1 _; [done|].
  apply ing_plain_ok; [done|]. intros [u|err'] s2 L2; [|done]. apply ing_act_ok; [|done]. intros s3 L3 _. split; [|done]. later. exact Hk.
Qed.

Lemma settleRequeued_ok d s : reached s (key_of d) -> ok (settleRequeued d) fine s.
Proof.
  intros Hr. unfold settleRequeued. apply ing_act_ok; [intros s1 L1 _; cbn; by later|]. intros [u|e] s1 s2 L1 _ _ _ L2; [|done].
  apply ing_act_ok; [|done]. intros s3 L3 _. cbn. by later.
Qed.

Lemma ing_process_ok id job s : job_key s id (key_of (j_data job)) -> ok (process id job) fine s.
Proof.
  intros Hk. unfold process. apply ing_plain_ok; [done|]. intros [] s1 L1; [done|]. apply ing_act_ok; [done|]. intros [u|e] s2 s3 L2 _ Hrun _ L3.
  - cbn in Hrun. assert (key_of (j_data job) ∈ delivered s3) as Hd by (subst s3; cbn; set_solver). later. apply ingress_bind_ok.
    eapply ingress_conseq_ok; [instantiate (1 := fine); destruct (is_copy id); [apply settleRequeued_ok; by left|done]|]. intros _ s4 L4 _.
    apply act_fine. intros s5 L5 _. later. by exists (key_of (j_data job)).
  - destruct (j_attempts job <=? j_attemptsMade job + 1); [|done]. later. by apply requeue_ok.
Qed.

(** The reconciler. *)
Lemma open_rows_handed k below s : 0 <? open_rows k below s = true -> handed s k below.
Proof.
  unfold open_rows. intros H%Z.ltb_lt. destruct (List.filter (open_row k below) (map_to_list (failures s))) as [|[id f] l] eqn:E; [done|].
  assert ((id, f) ∈ List.filter (open_row k below) (map_to_list (failures s))) as Hin by (rewrite E; by left).
  apply list_elem_of_In, filter_In in Hin as [Hin%list_elem_of_In Ho]. apply elem_of_map_to_list in Hin. unfold open_row in Ho. cbn in Ho. bool_facts.
  right. exists id, f. split; [done|]. split; [done|]. destruct below; [by apply Nat.ltb_lt|done].
Qed.

Lemma jobDataFor_ok k row p s : ok (jobDataFor parseJson k row p) (fun d _ => key_of d = k) s.
Proof. destruct k as [[plugin instance] id]. unfold jobDataFor. apply ing_plain_ok; [done|]. intros route s1 L1. by apply ret_ok. Qed.

Definition written_row (k : EKey) (w : option nat) (s : World) : Prop := match w with Some id => rowKeys s !! id = Some k | None => True end.
Lemma written_row_le k w s s' : le s s' -> written_row k w s -> written_row k w s'.
Proof. intros L. destruct w; [apply (le_rowKeys _ _ L)|done]. Qed.

Lemma ing_count_ok k below s : ok (act (CountOpen k below)) (fun r s1 => match r with Ok n => 0 <? n = true -> handed s1 k below | Err _ => True end) s.
Proof.
  apply act_post; [done|]. intros r s1 s2 L1 _ [-> Hr] _ _ s3 L3. destruct Hr as [->|[e ->]]; [|done]. intros H. by apply (le_handed _ _ L3), open_rows_handed.
Qed.

Lemma hasOpen_ok k below s : ok (hasOpenDeadLetter k below) (fun r s1 => match r with Ok true => handed s1 k below | _ => True end) s.
Proof.
  unfold hasOpenDeadLetter. eapply try_ok; [apply ing_count_ok|done|]. intros n s1 L1 Hn. apply ret_ok. intros s2 L2.
  destruct (0 <? n) eqn:E; [apply (le_handed _ _ L2); by apply Hn|done].
Qed.

Lemma ensure_ok d n e s : ok (ensureDeadLetterRow d n e) (fun r s1 => match r with Ok w => written_row (key_of d) w s1 /\ handed s1 (key_of d) None | Err _ => True end) s.
Proof.
  unfold ensureDeadLetterRow. eapply try_ok; [apply ing_count_ok|done|]. intros m s1 L1 Hm.
  destruct (0 <? m) eqn:E; [apply ret_ok; intros s2 L2; split; [done|apply (le_handed _ _ L2); by apply Hm]|].
  eapply try_ok; [apply save_ok|done|]. intros id s2 L2 [H1 H2]. apply ret_ok. intros s3 L3. cbn. by later.
Qed.

Lemma ing_settle_ok k rowId w marked s : written_row k w s -> ok (settleDeadLetter k rowId w marked) fine s.
Proof.
  intros Hw. unfold settleDeadLetter. eapply try_ok with (Q' := fun r s1 => match r with Ok (Some Dispatched) => reached s1 k | _ => True end); [|done|].
  - destruct marked; [by apply ret_ok|]. apply ing_act_ok; [done|]. intros r s1 s2 L1 I1 [-> Hr] _ _. destruct Hr as [->|[e ->]]; [|done]. apply ret_ok. intros s3 L3.
    destruct (events s1 !! k) as [ev|] eqn:E; cbn; [|done]. destruct (e_id ev =? rowId)%nat; cbn; [|done]. destruct (e_state ev) as [[]|] eqn:Es; try done.
    by apply (le_reached _ _ L3), (v_dispatched _ I1 k ev).
  - intros st s1 L1 Hst. destruct w as [id|]; [|done]. cbn in Hw. later.
    eapply try_ok with (Q' := fun r s1 => match r with Ok true => handed s1 k (Some id) | _ => True end); [|done|].
    + destruct st as [[]|]; try by apply ret_ok.
      * apply ret_ok. intros s2 L2. later. by apply reached_handed.
      * apply hasOpen_ok.
    + intros [] s2 L2 Hs; [|done]. apply ing_act_ok; [|by intros [] ? ? ? ? ? ?].
      intros s3 L3 _. later. done.
Qed.

Lemma settledElsewhere_ok k rowId w marked s : written_row k w s -> ok (settledElsewhere k rowId w marked) fine s.
Proof.
  intros Hw. unfold settledElsewhere. eapply try_ok; [by apply ing_settle_ok|done|]. intros [[]|] s1 L1 _; try done.
  apply fine_try; intros; [|done]. eapply ingress_conseq_ok; [apply hasOpen_ok|done].
Qed.

Definition abandons (c : Change) : Prop := match c with Settle Failed _ _ => True | _ => False end.
Lemma abandon_ok d rowId n e c s : abandons c -> ok (abandon d rowId n e c) fine s.
Proof.
  intros Hc. unfold abandon. eapply try_ok; [apply ensure_ok|done|]. intros w s1 L1 [Hw Hh].
  apply ing_act_ok; [destruct c as [[]| |]; try done; intros s2 L2 _; cbn; by later|]. intros [marked|err] s2 s3 L2 _ _ _ L3; [|done]. cbn.
  apply fine_try; [|by intros]. apply settledElsewhere_ok. by apply (written_row_le _ _ s2), (written_row_le _ _ s1).
Qed.

Lemma reconcileRow_ok k row p now s : ok (reconcileRow parseJson cfg k row p now) fine s.
Proof.
  unfold reconcileRow. apply ingress_bind_ok. eapply ingress_conseq_ok; [apply jobDataFor_ok|]. intros d s1 L1 Hd.
  apply ingress_bind_ok. eapply ingress_conseq_ok; [apply existing_ok|]. intros st s2 L2 Hst. apply ing_plain_ok; [done|]. intros [] s3 L3; [done|].
  assert (ok (let! r := match st with Some _ => Ret (Ok Queued) | None => enqueue cfg d None true end in
    match r with
    | Err e => let! stop := act Stopped in Ret (if (stop : bool) then Ok Interrupted else Err e)
    | Ok (FailedInline e) => let! stop := act Stopped in
        if (stop : bool) then Ret (Ok Interrupted) else
        let attempts := e_attempts row + 1 in
        if maxAttempts cfg <=? attempts then abandon d (e_id row) attempts e (Settle Failed (Some now) (Some attempts))
        else try! _ := act (UpdateEvent k (Some (e_id row)) false (Touch now (Some attempts))) in Ret (Ok ReconcileFailed)
    | Ok _ => try! _ := act (UpdateEvent k (Some (e_id row)) false (Settle Dispatched (Some now) None)) in
        try! _ := act (CloseOpen k) in Ret (Ok Replayed)
    end) fine s3) as Hgo.
  { apply ingress_bind_ok. eapply ingress_conseq_ok with (Q := fun r s1 => match r with Ok o => good_outcome o = true -> reached s1 (key_of d) | Err _ => True end).
    - destruct st as [st|]; [|by apply ing_enqueue_ok]. apply ret_ok. intros s4 L4 _. cbn in Hst. later. done.
    - rewrite Hd. intros [o|e] s4 L4 Ho; [|walk].
      assert (reached s4 k -> ok (try! _ := act (UpdateEvent k (Some (e_id row)) false (Settle Dispatched (Some now) None)) in
        try! _ := act (CloseOpen k) in Ret (Ok Replayed)) fine s4) as Hgood.
      { intros Hr. apply fine_try; [apply act_fine; intros s5 L5 _; cbn; by later|]. intros _ s5 L5.
        apply fine_try; [apply act_fine; intros s6 L6 _; cbn; by later|]. by intros. }
      destruct o as [| |e]; [by apply Hgood, Ho..|]. apply ing_plain_ok; [done|]. intros [] s5 L5; [done|]. cbv beta iota zeta.
      destruct (maxAttempts cfg <=? e_attempts row + 1); [by apply abandon_ok|walk]. }
  destruct st as [[]|]; try exact Hgo. by apply abandon_ok.
Qed.

Lemma ing_sweep_ok skip s : ok (sweep parseJson cfg skip) fine s.
Proof.
  unfold sweep. apply fine_bind; [by apply act_fine|]. intros now s1 _. apply fine_bind; [by apply act_fine|]. intros [rows|e] s2 _; [|done].
  revert s2. induction rows as [|[k id] r IH]; intros s2; cbn [sweep_rows]; [done|]. unfold sweep_row. walk; [apply reconcileRow_ok|apply IH..].
Qed.

(** The hand-off. *)
Lemma ownerDeleted_ok k row s : ok (ownerDeleted uuid k row) fine s.
Proof. unfold ownerDeleted. walk. Qed.

Lemma mark_failed_ok k id t n s : handed s k None -> ok (act (UpdateEvent k id true (Settle Failed t n))) fine s.
Proof. intros H. apply act_fine. intros s1 L1 _. cbn. by later. Qed.
Lemma mark_dispatched_ok k id pend t n s : reached s k -> ok (act (UpdateEvent k id pend (Settle Dispatched t n))) fine s.
Proof. intros H. apply act_fine. intros s1 L1 _. cbn. by later. Qed.
Lemma close_all_ok k s : reached s k -> ok (act (CloseOpen k)) fine s.
Proof. intros H. apply act_fine. intros s1 L1 _. cbn. by later. Qed.

Lemma handoff_row_ok k row p s : ok (handoff_row parseJson cfg uuid k row p) fine s.
Proof.
  unfold handoff_row. apply fine_try; [apply ownerDeleted_ok|]. intros [] s1 L1.
  - apply ing_act_ok; [done|]. intros u s2 s3 L2 _ Hrun _ L3. cbn in Hrun. assert (reached s3 k) as Hr by (subst s3; right; left; cbn; set_solver).
    apply fine_try; [by apply mark_failed_ok, reached_handed|by intros].
  - apply ingress_bind_ok. eapply ingress_conseq_ok; [apply jobDataFor_ok|]. intros d s2 L2 Hd.
    apply ingress_bind_ok. eapply ingress_conseq_ok; [apply existing_ok|]. intros st s3 L3 Hst. apply ing_plain_ok; [done|]. intros [] s4 L4; [done|]. rewrite Hd in Hst.
    destruct (live_or_completed st) eqn:Hl.
    + assert (reached s4 k) as Hr by (apply (le_reached _ _ L4); by destruct st).
      apply fine_try; [by apply mark_dispatched_ok|]. intros [] s5 L5; [|done]. apply fine_try; [|by intros]. apply close_all_ok. by later.
    + eapply try_ok; [apply ensure_ok|done|]. intros w s5 L5 [Hw Hh]. rewrite Hd in Hw, Hh. apply fine_try; [by apply mark_failed_ok|].
      intros marked s6 L6. apply fine_try; [|by intros]. destruct w as [id|]; [|done]. apply ing_settle_ok. by apply (written_row_le _ _ s5).
Qed.

Lemma handoff_rows_ok rows s : ok (handoff_rows parseJson cfg uuid rows) fine s.
Proof.
  revert s. induction rows as [|[k id] rest IH]; intros s; cbn [handoff_rows]; [done|]. walk; try apply handoff_row_ok; apply IH.
Qed.

Lemma handoff_ok fuel cutoff limit kept s : ok (deadLetterAgedPending parseJson cfg fuel uuid cutoff limit kept) fine s.
Proof.
  revert kept s. induction fuel as [|fuel IH]; intros kept s; cbn [deadLetterAgedPending]; [done|]. walk; [apply handoff_rows_ok|apply IH].
Qed.

Lemma ing_prune_ok fuel cutoff fcutoff s : ok (pruneOlderThan parseJson cfg fuel uuid cutoff fcutoff) fine s.
Proof. unfold pruneOlderThan. walk; apply handoff_ok. Qed.

(** The redrive. *)
Lemma redrive_row_ok plugin instance scope id f k s :
  rowKeys s !! id = Some k -> dead_key f k = true -> redrivable plugin instance scope f = true -> ok (redrive_row cfg plugin instance scope id f) fine s.
Proof.
  intros Hk Hd Hr. unfold redrive_row. set (d := mkData _ _ _ _ _ _ _ _). unfold dead_key in Hd. unfold redrivable in Hr. bool_facts. destruct k as [[a b] c]. cbn [fst snd] in *.
  assert (f_deliveryId f = Some c) as Hc by done. assert (key_of d = (a, b, c)) as Hkey by (unfold d, key_of; cbn; rewrite Hc; cbn; congruence).
  apply ingress_bind_ok. eapply ingress_conseq_ok; [apply ing_enqueue_ok; by rewrite Hkey|]. rewrite Hkey. intros [o|e] s1 L1 Ho; [|walk].
  assert (reached s1 (a, b, c) -> ok (let! now := act Now in
    try! _ := match truthy (f_deliveryId f) with
              | Some delivery => act (UpdateEvent (plugin, instance, delivery) None true (Settle Dispatched (Some now) None))
              | None => Ret (Ok true)
              end in
    try! _ := act (CloseDead (a, b, c) id) in Ret (Ok true)) fine s1) as Hgood.
  { intros Hre. apply ing_plain_ok; [done|]. intros now s2 L2. later. apply fine_try.
    - destruct (truthy (f_deliveryId f)) as [c'|] eqn:E; [|done]. assert ((plugin, instance, c') = (a, b, c)) as -> by (rewrite Hc in E; unfold truthy in E; destruct (String.eqb c ""); [done|congruence]).
      by apply mark_dispatched_ok.
    - intros _ s3 L3. apply fine_try; [|by intros]. apply act_fine. intros s4 L4 _. later. split; [done|]. by apply reached_handed. }
  destruct o as [| |e]; [by apply Hgood, Ho..|]. walk.
Qed.

Lemma redrive_rows_ok plugin instance scope ids s : ok (redrive_rows cfg plugin instance scope ids) fine s.
Proof.
  revert s. induction ids as [|id rest IH]; intros s; cbn [redrive_rows]; [done|]. apply ing_plain_ok; [done|]. intros [] s1 L1; [done|].
  apply ing_act_ok; [done|]. intros r s2 s3 L2 I2 [-> Hr] _ _. destruct r as [[f|]|e]; [|apply IH|apply fine_bind; [by apply act_fine|intros; apply IH]].
  assert (failures s2 !! id = Some f /\ redrivable plugin instance scope f = true) as [Hf Hd].
  { destruct Hr as [Hr|[e [=]]]. injection Hr as Hr. destruct (failures s2 !! id) as [g|]; cbn in Hr; [|done]. destruct (redrivable plugin instance scope g) eqn:Eg; [|done]. by injection Hr as <-. }
  destruct (v_rows _ I2 id f Hf) as (k & Hk & Hkey & _). apply ing_plain_ok; [done|]. intros [] s4 L4; [done|]. later.
  apply fine_try; [by eapply redrive_row_ok|]. intros [] s5 L5; [apply IH|done].
Qed.

Lemma redrive_ok plugin instance s : ok (redriveInstance cfg plugin instance) fine s.
Proof. unfold redriveInstance, redriveBatch. walk; apply redrive_rows_ok. Qed.

Lemma ingress_starts_ok s p : Inv s -> starts sha256 hmac EQ_KEY hostTolerance numberOf processBodyLimit throttlerMessage parseJson uuid cfg s p -> ok p fine s.
Proof.
  intros HI Hp. destruct Hp as [req|id job Hj Hl|id job Hj Hl|skip|plugin instance|fuel e f].
  - apply fine_bind; [apply handle_ok|done].
  - apply ing_process_ok. by apply (v_jobs _ HI).
  - apply requeue_ok. by apply (v_jobs _ HI).
  - apply ing_sweep_ok.
  - apply fine_bind; [apply redrive_ok|done].
  - apply ing_prune_ok.
Qed.

Lemma ingress_fresh_inv : Inv fresh.
Proof. split; cbn; intros *; [set_solver|by rewrite lookup_empty..]. Qed.

Lemma ingress_inv c : reachable sha256 hmac EQ_KEY hostTolerance numberOf processBodyLimit throttlerMessage parseJson uuid cfg c -> Inv (snd c).
Proof. exact (pool_invariant run env _ le pre Inv ingress_run_ok ingress_env_ok ingress_starts_ok fresh c ingress_fresh_inv). Qed.

(** ** The theorems *)

Lemma row_below_open s k : Inv s -> row_below s k None -> reached s k \/ exists id f, failures s !! id = Some f /\ dead_key f k = true /\ f_redriven f = false.
Proof.
  intros HI (id & f & Hf & Hk & _). revert f Hf Hk. induction id as [id IH] using lt_wf_ind. intros f Hf Hk.
  destruct (v_rows _ HI id f Hf) as (k' & _ & Hk' & [Ho|[Hr|(id' & f' & Hf' & Hd & Hlt)]]); [by right; exists id, f|left; by rewrite (dead_key_inj f k k')|].
  rewrite <- (dead_key_inj f k k') in Hd by done. by apply (IH id' Hlt f').
Qed.

(** Where a delivery that was recorded still is, or how it ended. *)
Definition waits (s : World) (k : EKey) : Prop := exists e, events s !! k = Some e /\ replayable e = true.
Definition dead_lettered (s : World) (k : EKey) : Prop := exists id f, failures s !! id = Some f /\ dead_key f k = true /\ f_redriven f = false.
Definition held_by_job (s : World) (k : EKey) : Prop := exists id j, jobs s !! id = Some j /\ key_of (j_data j) = k /\ j_state j <> JCompleted.
Definition let_go (s : World) (k : EKey) : Prop := k ∈ dropped s \/ k ∈ released s \/ k ∈ aged s.

Lemma reached_split s k : Inv s -> reached s k -> k ∈ delivered s \/ held_by_job s k \/ let_go s k.
Proof.
  unfold let_go. intros HI [H|[H|[H|[H|(id & j & Hj & E)]]]]; [tauto..|].
  destruct (decide (j_state j = JCompleted)) as [Hc|Hc]; [left; rewrite <- E; by apply (v_jobs _ HI id)|right; left; by exists id, j].
Qed.

End tasks.

(** ** A run *)

(** Every statement works; a plugin takes what [takes] says. *)
Definition ingress_answer_w (takes marks : bool) (B : Type) (e : eff B) (s : World) : option (B * World) :=
  match e in eff B return option (B * World) with
  | Resolve p i => Some (Ok (instances s !! (p, i)), s)
  | Manifest p r => Some (manifests s !! (p, r), s)
  | RestorePending p => Some (bool_decide (p ∈ restoring s), s)
  | SessionStatus _ => Some (None, s)
  | SessionExists id => Some (Ok (bool_decide (id ∈ sessions s)), s)
  | AdmitInstance _ _ => Some (Ok (mkAdmission true []), s)
  | Now => Some (clock s, s)
  | Stopped => Some (false, s)
  | InsertEvent k route payload hash sid =>
      match events s !! k with
      | Some _ => Some (Ok false, s)
      | None => Some (Ok true, insert_event k (size (events s)) route payload hash sid s)
      end
  | ReadHash k => Some (Ok (events s !! k ≫= e_hash), s)
  | ReadEvent k id => Some (Ok (e ← events s !! k; if (e_id e =? id)%nat then Some e else None), s)
  | UpdateEvent k id onlyPending c => Some (if marks then (Ok (affected k id onlyPending s), update_event k id onlyPending c s) else (Err "busy", s))
  | NoteDropped k => Some (tt, note_dropped k s)
  | StaleBatch cutoff limit skip => Some (Ok (stale_batch cutoff limit skip s), s)
  | AgedBatch cutoff limit skip => Some (Ok (aged_batch cutoff limit skip s), s)
  | PruneEvents cutoff => Some (Err "", s)
  | InsertDead k f => match rowKeys s !! size (rowKeys s), failures s !! size (rowKeys s) with
                      | None, None => Some (Ok (size (rowKeys s)), insert_dead (size (rowKeys s)) k f s)
                      | _, _ => None
                      end
  | CountOpen k below => Some (Ok (open_rows k below s), s)
  | CloseDead k id => Some (Ok tt, with_failures s (alter close_dead id (failures s)))
  | CloseOpen k => Some (Ok tt, with_failures s ((fun f => if dead_key f k then close_dead f else f) <$> failures s))
  | RedrivePage p i scope limit => Some (Ok (redrive_page p i scope limit s), s)
  | ReadDead p i scope id => Some (Ok (f ← failures s !! id; if redrivable p i scope f then Some f else None), s)
  | RetryDead id n msg => Some (Err "", s)
  | BumpDead id => Some (Err "", s)
  | CountRedrivable p i scope => Some (Err "", s)
  | PruneDead cutoff => Some (Err "", s)
  | GetJobState id => Some (Ok (j_state <$> jobs s !! id), s)
  | AddJob id j => Some (Ok tt, with_jobs s (match jobs s !! id with Some _ => jobs s | None => <[id := j]> (jobs s) end))
  | RemoveJob id => Some (Ok tt, drop_job id s)
  | CompleteJob id => Some (tt, with_jobs s (alter (set_state JCompleted) id (jobs s)))
  | Dispatch d => Some (if takes then (Ok tt, note_delivered (key_of d) s) else (Err "handler threw", s))
  | ErrorHook => Some (Ok tt, s)
  end.

Lemma ingress_answer_w_ok takes marks B (e : eff B) s b s1 : ingress_answer_w takes marks B e s = Some (b, s1) -> run B e s b s1.
Proof.
  destruct e; cbn [ingress_answer_w run]; unfold reads, writes; try (intros [= <- <-]; split; [done|]; by left); try (intros [= <- <-]; by auto);
    try (intros [= <- <-]; left; eexists; done); try (intros [= <- <-]; right; split; [by left|done]).
  - destruct (events s !! k); intros [= <- <-]; [auto|]. right. eexists. split; [by left|done].
  - destruct marks; intros [= <- <-]; [right; split; [by left|done]|left; by eexists].
  - destruct (rowKeys s !! size (rowKeys s)) eqn:E1; [done|]. destruct (failures s !! size (rowKeys s)) eqn:E2; [done|]. intros [= <- <-]. right. eexists. eauto.
  - intros [= <- <-]. split; [done|right; by eexists].
  - destruct takes; intros [= <- <-]; done.
Qed.

Definition route_w : IngressRoute := mkIngressRoute "hook" (mkSig NoScheme None None None None None None None) None (CapNumber None) None None false false None.
Definition config_w : Config := mkConfig true true 1 5 10 50.
Definition number_w (_ : string) : option Z := None.
Definition parse_w (_ : string) : option json := None.
Definition uuid_w (_ : string) : bool := false.
Definition hash_id_w (s : string) : string := s.
Definition hmac_id_w (k s : string) : string := k +:+ s.
Definition request_w : IngressRequest := mkRequest "p" "i" "hook" "POST" [("x-delivery", "d1")] [] "{}" false.
Definition key_w : EKey := ("p", "i", "d1").
Definition job_w : JobId := (OfDelivery key_w, None).

Abbreviation ingress_steps_w := (rtc (pool_step run env (starts hash_id_w hmac_id_w "k" 300 number_w 1000 "slow down" parse_w uuid_w config_w))).
Abbreviation ingress_reachable_w := (reachable hash_id_w hmac_id_w "k" 300 number_w 1000 "slow down" parse_w uuid_w config_w).
Definition handle_w : task unit := (let! _ := handle hash_id_w hmac_id_w "k" 300 number_w 1000 "slow down" parse_w config_w request_w in Ret tt).
Definition sweep_w : task unit := sweep parse_w config_w [].
(** The instance is enabled, its plugin serves the route, and the clock reads [t]. *)
Definition at_time_w (t : Z) (s : World) : World :=
  mkWorld {[("p", "i") := mkInstance "" true None None]} {[("p", "hook") := route_w]} ∅ ∅ (events s) (failures s) (jobs s) t (rowKeys s) (accepted s) (delivered s) (dropped s) (released s) (aged s).
Lemma at_time_step t ts s : ingress_steps_w (ts, s) (ts, at_time_w t s).
Proof. apply rtc_once, ps_env. apply env_config. Qed.

(** The delivery is recorded and queued; marking it dispatched fails. *)
Definition recorded_w : task unit * World := advance (ingress_answer_w true false) 100 handle_w (at_time_w 0 fresh).
Lemma recorded_reach : ingress_reachable_w ([fst recorded_w], snd recorded_w).
Proof.
  unfold reachable. etrans; [exact (at_time_step 0 [] fresh)|]. eapply rtc_l; [apply ps_start, st_handle with (req := request_w)|].
  exact (advance_steps run env _ (ingress_answer_w true false) (ingress_answer_w_ok true false) 100 [] handle_w [] (at_time_w 0 fresh)).
Qed.


(** ** A dead letter closed by a sweep that saw its job alive *)

(** The sweep reads the job's state; the job's last attempt fails and writes its dead
    letter; the queue marks the job failed; the sweep goes on. *)
Definition looked_w : task unit * World := advance (ingress_answer_w true true) 8 sweep_w (at_time_w 100 (snd recorded_w)).
Definition the_job_w (s : World) : Job := default (mkJob (mkData "" "" "" None "" None None None) 0 0 JLive) (jobs s !! job_w).
Definition failed_w : task unit * World := advance (ingress_answer_w false true) 100 (process job_w (the_job_w (snd looked_w))) (snd looked_w).
Definition marked_failed_w : World :=
  let j := the_job_w (snd failed_w) in with_jobs (snd failed_w) (<[job_w := mkJob (j_data j) (j_attempts j) 1 (JFailed false)]> (jobs (snd failed_w))).
Definition closed_w : task unit * World := advance (ingress_answer_w true true) 100 (fst looked_w) marked_failed_w.

(** [reconcileRow] (and the hand-off) close every open dead letter of a delivery
    because its job was alive when they looked.  When that job's last attempt fails in
    between, the dead letter it has just written is the one closed: the event is marked
    dispatched and holds no payload, no dead letter is open, the plugin never took the
    delivery, and only the failed job, which nothing retries, still has it. *)
Theorem sweep_closes_a_failed_jobs_dead_letter :
  exists c, ingress_reachable_w c /\ Forall (fun t => t = Ret tt) (fst c) /\ let s := snd c in
    key_w ∈ accepted s /\ key_w ∉ delivered s /\ ~ let_go s key_w /\
    (exists f, failures s !! 0%nat = Some f /\ dead_key f key_w = true /\ f_redriven f = true) /\ open_rows key_w None s = 0 /\
    e_state <$> events s !! key_w = Some (Some Dispatched) /\ events s !! key_w ≫= e_payload = None /\
    j_state <$> jobs s !! job_w = Some (JFailed false).
Proof.
  exists ([fst failed_w; fst closed_w; fst recorded_w], snd closed_w). split.
  - unfold reachable. etrans; [exact recorded_reach|]. etrans; [exact (at_time_step 100 _ _)|]. eapply rtc_l; [apply ps_start, (st_sweep _ _ _ _ _ _ _ _ _ _ _ [])|].
    etrans; [exact (advance_steps run env _ (ingress_answer_w true true) (ingress_answer_w_ok true true) 8 [] sweep_w [fst recorded_w] (at_time_w 100 (snd recorded_w)))|].
    eapply rtc_l; [apply ps_start, (st_process _ _ _ _ _ _ _ _ _ _ _ job_w (the_job_w (snd looked_w))); vm_compute; reflexivity|].
    etrans; [exact (advance_steps run env _ (ingress_answer_w false true) (ingress_answer_w_ok false true) 100 [] (process job_w (the_job_w (snd looked_w))) [fst looked_w; fst recorded_w] (snd looked_w))|].
    eapply rtc_l; [apply (ps_env _ _ _ _ _ marked_failed_w)|].
    + apply (env_job _ job_w (the_job_w (snd failed_w)) 1 (JFailed false)); [vm_compute; reflexivity|done].
    + exact (advance_steps run env _ (ingress_answer_w true true) (ingress_answer_w_ok true true) 100 [fst failed_w] (fst looked_w) [fst recorded_w] marked_failed_w).
  - split; [repeat constructor; vm_compute; reflexivity|]. cbv zeta. split; [vm_compute; reflexivity|]. split; [vm_compute; intros ?; discriminate|].
    split; [vm_compute; intros [?|[?|?]]; discriminate|]. split; [eexists; split; [vm_compute; reflexivity|split; vm_compute; reflexivity]|].
    repeat split; vm_compute; reflexivity.
Qed.
