(* ===== verification/IngressDoor.v ===== *)
(** * What a provider delivery has to pass, and what its answer may carry

    The request pipeline of [Ingress] run on its own: a request that is not admitted
    changes nothing, a duplicate is answered without being recorded or dispatched
    again, what is stored holds no credential, and the answer cannot speak for the
    gateway's own origin. *)
From S2P Require Import Prelude JsString Json Prog IngressAuth Ingress IngressDurable.
Local Open Scope string_scope.
Local Open Scope Z_scope.
Local Open Scope prog_scope.

(** ** The door *)

Section door.
Context (sha256 : string -> string) (hmac : string -> string -> string) (EQ_KEY : string) (hostTolerance : Z).
Context (numberOf : string -> option Z) (processBodyLimit : Z) (throttlerMessage : string) (parseJson : string -> option json).
Context (cfg : Config).
Abbreviation theHandle := (handle sha256 hmac EQ_KEY hostTolerance numberOf processBodyLimit throttlerMessage parseJson cfg).
Abbreviation theScreen := (screen sha256 hmac EQ_KEY hostTolerance numberOf processBodyLimit).
Abbreviation theId := (deliveryIdOf sha256).

Abbreviation wpr p Q s := (wp run p Q s).

Lemma wp_try {A B : Type} (m : fallible A) (k : A -> fallible B) Q s :
  wpr m (fun r s1 => match r with Ok a => wpr (k a) Q s1 | Err e => Q (Err e) s1 end) s -> wpr (try_ m k) Q s.
Proof. intros H. apply wp_bind. eapply wp_mono; [exact H|]. by intros [a|e] s1. Qed.

(** What the screen lets through. *)
Definition presented (req : IngressRequest) (inst : ResolvedInstance) (route : IngressRoute) (now : Z) : Prop :=
  (challenge route <> None -> q_method req <> "GET") /\ q_unparsedBody req = false /\
  utf8_length (q_rawBody req) <= effectiveCap numberOf processBodyLimit (maxBodyBytes route) /\
  verifyIngressSignature sha256 hmac EQ_KEY hostTolerance (signature route)
    (mkVerify (q_rawBody req) (q_headers req) (i_secret inst) now (q_instanceId req)) = Ok tt.

Lemma screen_none req inst route now : theScreen req inst route now = None -> presented req inst route now.
Proof.
  unfold screen, presented. set (rest := if q_unparsedBody req then _ else _).
  assert (rest = None -> q_unparsedBody req = false /\ utf8_length (q_rawBody req) <= effectiveCap numberOf processBodyLimit (maxBodyBytes route) /\
    verifyIngressSignature sha256 hmac EQ_KEY hostTolerance (signature route) (mkVerify (q_rawBody req) (q_headers req) (i_secret inst) now (q_instanceId req)) = Ok tt) as Hrest.
  { unfold rest. destruct (q_unparsedBody req); [done|]. destruct (Z.ltb_spec (effectiveCap numberOf processBodyLimit (maxBodyBytes route)) (utf8_length (q_rawBody req))); [done|].
    destruct (verifyIngressSignature _ _ _ _ _ _) as [[]|]; [|done]. intros _. by split. }
  destruct (challenge route) as [c|]; [|by intros H; split; [|apply Hrest]].
  destruct (String.eqb_spec (q_method req) "GET"); [done|]. intros H. split; [done|by apply Hrest].
Qed.

(** What a stored event of the request may look like. *)
Definition stored_as (req : IngressRequest) (route : IngressRoute) (k : EKey) (e : IngressEvent) : Prop :=
  fst k = (q_pluginId req, q_instanceId req) /\ e_route e = q_route req /\
  forall p, e_payload e = Some p -> p_headers p = redactSensitiveHeaders (q_headers req) (credentialHeader route) /\ p_rawBody p = q_rawBody req /\
    p_verified p = Some (ingressDeliveryVerified (scheme (signature route)) (q_rawBody req) (q_query req)).
Definition only_stores (req : IngressRequest) (route : IngressRoute) (s s' : World) : Prop :=
  forall k e, events s' !! k = Some e -> stored_as req route k e \/ exists e0, events s !! k = Some e0.

Lemma update_only_stores req route s s1 k id pend c : only_stores req route s s1 -> only_stores req route s (update_event k id pend c s1).
Proof.
  intros H k' e. cbn. destruct (decide (k' = k)) as [->|Hne]; [|rewrite lookup_alter_ne by done; apply H]. rewrite lookup_alter_eq.
  destruct (events s1 !! k) as [e1|] eqn:E; [|done]. cbn. intros [= <-]. destruct (H k e1 E) as [(Hk & Hr & Hp)|He]; [left|by right].
  destruct (selected id pend e1); [|done]. destruct c; cbn; (split; [done|split; [done|]]); cbn; [done|exact Hp..].
Qed.

(** No effect but an insertion adds an event. *)
Definition inserts (B : Type) (e : eff B) : bool := match e with InsertEvent _ _ _ _ _ => true | _ => false end.
Lemma run_only_stores req route s B (e : eff B) s1 b s2 :
  inserts B e = false -> run B e s1 b s2 -> only_stores req route s s1 -> only_stores req route s s2.
Proof.
  intros Hi Hrun H. destruct e; try done; cbn [run] in Hrun; unfold reads, writes in Hrun; try (by subst s2); try (by destruct Hrun as [-> _]);
    try (by destruct Hrun as [(? & _ & ->)|(_ & ->)]).
  - destruct Hrun as [(? & _ & ->)|(_ & ->)]; [done|by apply update_only_stores].
  - destruct Hrun as [(? & _ & ->)|(_ & ->)]; [done|]. intros k e Hk%map_lookup_filter_Some_1_1. by apply H.
  - destruct Hrun as [(? & _ & ->)|(? & _ & _ & _ & ->)]; done.
  - destruct Hrun as [(? & _ & ->)|(_ & ->)]; [done|]. unfold drop_job. destruct (jobs s1 !! id) as [j|]; [|done]. by destruct (in_queue _ _).
  - by destruct b; subst s2.
Qed.

(** A program without insertions. *)
Definition keeps {A : Type} (p : task A) : Prop := forall req route s s1, only_stores req route s s1 -> wpr p (fun _ s2 => only_stores req route s s2) s1.
Lemma keeps_ret {A : Type} (a : A) : keeps (Ret a).
Proof. by intros req route s s1 H. Qed.
Lemma keeps_act {B : Type} (e : eff B) : inserts B e = false -> keeps (act e).
Proof. intros Hi req route s s1 H b s2 Hrun. by eapply run_only_stores. Qed.
Lemma keeps_bind {A B : Type} (p : task A) (f : A -> task B) : keeps p -> (forall a, keeps (f a)) -> keeps (pbind p f).
Proof. intros Hp Hf req route s s1 H. apply wp_bind. eapply wp_mono; [by apply Hp|]. intros a s2 H2. by apply Hf. Qed.
Lemma keeps_try {A B : Type} (m : fallible A) (k : A -> fallible B) : keeps m -> (forall a, keeps (k a)) -> keeps (try_ m k).
Proof. intros Hm Hk. apply keeps_bind; [done|]. intros [a|e]; [apply Hk|apply keeps_ret]. Qed.

Ltac keep :=
  repeat match goal with
  | |- keeps (Ret _) => apply keeps_ret
  | |- keeps (act _) => by apply keeps_act
  | |- keeps (pbind _ _) => apply keeps_bind; intros
  | |- keeps (try_ _ _) => apply keeps_try; intros
  | |- keeps (match ?x with _ => _ end) => destruct x
  end.

Lemma enqueueLive_keeps d : keeps (enqueueLive cfg d).
Proof. unfold enqueueLive, enqueue, dispatch_inline, markDispatchOutcome, save_dead. keep. Qed.

(** The recording adds events of the request alone, and answers with a new delivery
    only when it inserted one. *)
Lemma insert_only_stores req route id n p h sid s :
  p_headers p = redactSensitiveHeaders (q_headers req) (credentialHeader route) /\ p_rawBody p = q_rawBody req /\
    p_verified p = Some (ingressDeliveryVerified (scheme (signature route)) (q_rawBody req) (q_query req)) ->
  forall s0, only_stores req route s0 s -> only_stores req route s0 (insert_event (q_pluginId req, q_instanceId req, id) n (q_route req) p h sid s).
Proof.
  intros Hp s0 H k e. cbn. destruct (decide (k = (q_pluginId req, q_instanceId req, id))) as [->|Hne]; [|rewrite lookup_insert_ne by done; apply H].
  rewrite lookup_insert_eq. intros [= <-]. left. split; [done|]. split; [done|]. by intros p' [= <-].
Qed.
Lemma only_stores_refl req route s : only_stores req route s s.
Proof. intros k e H. right. by exists e. Qed.

Lemma record_keeps req route sid id s s1 :
  only_stores req route s s1 -> wpr (record sha256 req route sid id (payloadOf req route)) (fun _ s2 => only_stores req route s s2) s1.
Proof.
  assert (forall id p h s1 (Q : result string bool -> World -> Prop), only_stores req route s s1 ->
     p_headers p = redactSensitiveHeaders (q_headers req) (credentialHeader route) /\ p_rawBody p = q_rawBody req /\
       p_verified p = Some (ingressDeliveryVerified (scheme (signature route)) (q_rawBody req) (q_query req)) ->
     (forall r s2, only_stores req route s s2 -> Q r s2) -> wpr (act (InsertEvent (q_pluginId req, q_instanceId req, id) (q_route req) p h sid)) Q s1) as Hins.
  { intros id0 p h s2 Q H Hp HQ b s3 Hrun. apply HQ. cbn in Hrun. destruct (events s2 !! _); [by destruct Hrun as [-> _]|].
    destruct Hrun as [(e & _ & ->)|(n & _ & ->)]; [done|by apply insert_only_stores]. }
  intros H. unfold record. apply wp_try, Hins; [done|done|]. intros [[]|e] s2 H2; try done.
  apply wp_try, wp_act. intros b s3 [-> Hb]. destruct b as [h|e]; [|done]. cbn [wp]. destruct h as [h|]; [|done].
  destruct (String.eqb h _); [done|]. destruct (dedupBodyMismatchAsNew route); [|done]. cbn [negb].
  apply wp_try, Hins; [done|done|]. by intros [[]|e] s4 H4.
Qed.

Lemma store_keeps req inst route admission s s1 :
  only_stores req route s s1 -> wpr (store_and_dispatch sha256 parseJson cfg req inst route admission) (fun _ s2 => only_stores req route s s2) s1.
Proof.
  intros H. unfold store_and_dispatch. apply wp_act. intros now s2 [-> _]. apply wp_try. eapply wp_mono; [by apply record_keeps|].
  intros [[[id p]|]|e] s2 H2; [|done..].
  assert (forall A (q : task A), keeps q -> wpr q (fun _ s2 => only_stores req route s s2) s2) as Hk by (intros A q Hq; by apply Hq).
  apply Hk. unfold defersInlineDispatch. keep. apply enqueueLive_keeps.
Qed.

(** A program that only looks. *)
Lemma preflight_looks checks scope s : wpr (run_preflight checks scope) (fun _ s1 => s1 = s) s.
Proof.
  induction checks as [|c r IH]; cbn [run_preflight]; [done|]. destruct c, (truthy scope) as [sc|]; try exact IH.
  destruct (String.eqb sc "*"); [exact IH|]. apply wp_act. intros st s1 ->. by destruct (evaluatePreflight _ _ _).
Qed.

(** How a request passes the door. *)
Definition admitted (req : IngressRequest) (s : World) (inst : ResolvedInstance) (route : IngressRoute) : Prop :=
  instances s !! (q_pluginId req, q_instanceId req) = Some inst /\ i_enabled inst = true /\
  manifests s !! (q_pluginId req, q_route req) = Some route /\ presented req inst route (clock s) /\
  (response route <> None -> q_pluginId req ∉ restoring s).

(** A request is refused, and nothing changed, or comes to be stored. *)
Lemma handle_full_door req s Q :
  (forall r, match r with Ok (_, Some _) => False | _ => True end -> Q r s) ->
  (forall inst route admission, admitted req s inst route -> wpr (store_and_dispatch sha256 parseJson cfg req inst route admission) Q s) ->
  wpr (handle_full sha256 hmac EQ_KEY hostTolerance numberOf processBodyLimit throttlerMessage parseJson cfg req) Q s.
Proof.
  intros Hno Hyes. unfold handle_full. apply wp_try, wp_act. intros r s1 [-> Hi]. cbn [wp]. destruct r as [[inst|]|e]; [|by apply Hno..].
  assert (instances s !! (q_pluginId req, q_instanceId req) = Some inst) as Hinst by (by destruct Hi as [[= ->]|[? [=]]]).
  destruct (i_enabled inst) eqn:Hen; [|by apply Hno]. cbn [negb]. apply wp_act. intros route s1 [-> Hroute]. destruct route as [route|]; [|by apply Hno].
  apply wp_act. intros now s1 [-> ->]. destruct (theScreen req inst route (clock s)) as [rej|] eqn:Hsc; [by apply Hno|]. apply screen_none in Hsc.
  apply wp_try, wp_act. intros r s1 ->. cbn [wp]. destruct r as [admission|e]; [|by apply Hno]. destruct (adm_ok admission); [|by apply Hno]. cbn [negb].
  apply wp_bind. eapply wp_mono with (Q := fun b s1 => s1 = s /\ (b = false -> response route <> None -> q_pluginId req ∉ restoring s)).
  { destruct (response route); [|by split]. intros b s1 [-> ->]. split; [done|]. by intros Hb%bool_decide_eq_false_1. }
  intros restoring s1 [-> Hres]. apply wp_bind. eapply wp_mono with (Q := fun r s1 => s1 = s /\ (r = None -> restoring = false)).
  { destruct restoring; [by split|]. eapply wp_mono; [apply preflight_looks|]. by intros ? ? ->. }
  intros [rej|] s1 [-> Hrej]; [by apply Hno|]. apply Hyes. split; [done|]. split; [done|]. split; [done|]. split; [done|]. by apply Hres, Hrej.
Qed.

(** C10. Only an admitted delivery is recorded.  Whatever a request carries and whichever
    statement fails, it leaves every table and the queue as they were and reaches no
    plugin, unless its instance is known and enabled, its route declared, its body
    parsed and within the route's cap, its signature valid at the server's time, it is
    no challenge, and a plugin that answers synchronously is restored.  Then the events
    it adds are of its plugin, instance and route, and until they are retired hold
    its raw body, its headers with every credential redacted, and whether the signature
    covers the body. *)
Theorem only_admitted_deliveries_are_recorded req s r s' :
  exec run (theHandle req) s r s' -> s' = s \/ exists inst route, admitted req s inst route /\ only_stores req route s s'.
Proof.
  apply (wp_exec run (theHandle req) (fun _ s' => s' = s \/ exists inst route, admitted req s inst route /\ only_stores req route s s')).
  apply wp_try, handle_full_door; [by intros [[a [d|]]|e]; [|left..]|]. intros inst route admission Ha.
  eapply wp_mono; [by apply store_keeps, only_stores_refl|]. intros [[a d]|e] s1 Hs; [|right; by exists inst, route].
  apply wp_bind. cbn [snd]. eapply wp_mono with (Q := fun _ s2 => only_stores req route s s2); [destruct d; [by apply enqueueLive_keeps|done]|].
  intros _ s2 H2. right. by exists inst, route.
Qed.

(** A duplicate is answered and nothing else.  A request whose delivery id is
    already recorded for its plugin and instance leaves every table and the queue as
    they were and reaches no plugin, whether or not it is genuine, if its body is the
    recorded one, or the route takes a repeated id for a repeat whatever its body, or
    the id under which a different body is stored is recorded as well. *)
Theorem duplicate_delivery_changes_nothing req s r s' route e :
  exec run (theHandle req) s r s' ->
  manifests s !! (q_pluginId req, q_route req) = Some route ->
  events s !! (q_pluginId req, q_instanceId req, theId req route) = Some e ->
  dedupBodyMismatchAsNew route = false \/ e_hash e = Some (payloadHash sha256 (q_rawBody req)) \/
    is_Some (events s !! (q_pluginId req, q_instanceId req, theId req route +:+ ":" +:+ payloadHash sha256 (q_rawBody req))) ->
  s' = s.
Proof.
  intros Hex Hroute He Hdup. revert Hex. apply (wp_exec run (theHandle req) (fun _ s' => s' = s)).
  apply wp_try, handle_full_door; [by intros [[a [d|]]|err]|]. intros inst route' admission (_ & _ & Hr' & _). assert (route' = route) as -> by congruence.
  unfold store_and_dispatch. apply wp_act. intros now s1 [-> _]. apply wp_try.
  eapply wp_mono with (Q := fun r s1 => s1 = s /\ match r with Ok (Some _) => False | _ => True end); [|by intros [[[id p]|]|err] s1 [-> Hno]].
  assert (forall k rt p h sid (Q : result string bool -> World -> Prop), is_Some (events s !! k) -> (forall r, r <> Ok true -> Q r s) ->
    wpr (act (InsertEvent k rt p h sid)) Q s) as Hins.
  { intros k rt p h sid Q [e' Hk] HQ b s1 Hrun. cbn in Hrun. rewrite Hk in Hrun. destruct Hrun as [-> [->|[? ->]]]; by apply HQ. }
  unfold record. apply wp_try, Hins; [by eexists|]. intros [[]|err] Hne; [done| |done].
  apply wp_try, wp_act. intros b s1 [-> Hb]. cbn [wp]. destruct b as [h|err]; [|done]. rewrite He in Hb. destruct h as [h|]; [|done].
  assert (e_hash e = Some h) as Hh by (destruct Hb as [[= ->]|[? [=]]]; done). destruct (String.eqb_spec h (payloadHash sha256 (q_rawBody req))); [done|].
  destruct (dedupBodyMismatchAsNew route); [|done]. cbn [negb]. destruct Hdup as [?|[?|Hdup]]; [done|congruence|].
  apply wp_try, Hins; [done|]. by intros [[]|err'] Hne'.
Qed.
End door.

(** ** Two runs *)

Abbreviation handled_w := (handle hash_id_w hmac_id_w "k" 300 number_w 1000 "slow down" parse_w config_w request_w).
Definition first_w : option (result string AckResult * World) := play (ingress_answer_w true true) handled_w (at_time_w 0 fresh).
Definition answer_of (r : option (result string AckResult * World)) : result string AckResult := match r with Some (a, _) => a | None => Err "" end.
Definition world_of (r : option (result string AckResult * World)) : World := match r with Some (_, s) => s | None => fresh end.
Definition second_w : option (result string AckResult * World) := play (ingress_answer_w true true) handled_w (world_of first_w).

Lemma played_w s r : play (ingress_answer_w true true) handled_w s = r -> bool_decide (is_Some r) = true -> exec run handled_w s (answer_of r) (world_of r).
Proof. intros H [[a s'] ->]%bool_decide_eq_true. exact (play_exec run (ingress_answer_w true true) (ingress_answer_w_ok true true) _ _ _ _ H). Qed.

Lemma only_admitted_deliveries_are_recorded_witness :
  key_w ∈ accepted (world_of first_w) /\
  (world_of first_w = at_time_w 0 fresh \/ exists inst route, admitted hash_id_w hmac_id_w "k" 300 number_w 1000 request_w (at_time_w 0 fresh) inst route /\
     only_stores request_w route (at_time_w 0 fresh) (world_of first_w)).
Proof.
  split; [vm_compute; reflexivity|].
  apply (only_admitted_deliveries_are_recorded hash_id_w hmac_id_w "k" 300 number_w 1000 "slow down" parse_w config_w request_w (at_time_w 0 fresh) (answer_of first_w)).
  apply played_w; [reflexivity|vm_compute; reflexivity].
Defined.

Definition event_w : IngressEvent := default (mkEvent 0 "" None None None None 0 None 0) (events (world_of first_w) !! key_w).
Lemma duplicate_delivery_changes_nothing_witness :
  answer_of second_w = answer_of first_w /\ world_of second_w = world_of first_w.
Proof.
  split; [vm_compute; reflexivity|].
  apply (duplicate_delivery_changes_nothing hash_id_w hmac_id_w "k" 300 number_w 1000 "slow down" parse_w config_w request_w _ (answer_of second_w) _ route_w event_w);
    [apply played_w; [reflexivity|vm_compute; reflexivity]|vm_compute; reflexivity|vm_compute; reflexivity|by left].
Defined.
