(* ===== verification/PluginWorker.v ===== *)
(** * The host side of a sandboxed plugin

    core/plugins/sandbox/plugin-worker-host.ts: the requests the host makes of a
    plugin's worker (load, lifecycle, hook, webhook, search, health), their timers, the
    worker's messages, the claims that guard a plugin's capability calls against
    re-entering a hook, the bound on those calls, and the liveness probe.  One event of
    the host's loop is one step; a callback is the event it would cause.  A worker may
    send anything, in any order; what the host posts can be copied.  The texts of the
    host's own errors leave out the numbers and names in them. *)
From S2P Require Import Prelude JsString Json.
Local Open Scope string_scope.
Local Open Scope Z_scope.

(** ** Messages *)

(** The five tables of pending requests. *)
Inductive Kind := KLifecycle | KHook | KWebhook | KHealth | KSearch.
#[export] Instance Kind_eq : EqDecision Kind.
Proof. solve_decision. Defined.
#[export] Instance Kind_countable : Countable Kind.
Proof.
  refine (inj_countable' (fun k => match k with KLifecycle => 0 | KHook => 1 | KWebhook => 2 | KHealth => 3 | KSearch => 4 end)%nat
    (fun n => match n with 0 => KLifecycle | 1 => KHook | 2 => KWebhook | 3 => KHealth | _ => KSearch end)%nat _). by intros [].
Defined.

(** What a caller's promise settles with; [None] is [undefined]. *)
Inductive Settlement :=
| Done (r : result string unit)
| HookDone (continue : option json) (data : option json) (error : option string)
| WebhookDone (ok : bool) (status headers body : option json) (error : option string)
| HealthDone (healthy : bool) (message : option string)
| SearchDone (r : result string (option json)).

(** A worker's message: no field is what its type says.  An id that is no number names
    nothing ([None]); [MCallback] is a subscription or a log line. *)
Inductive WorkerMessage :=
| MReady
| MError (error : option json)
| MLifecycleResult (id : option Z) (ok : bool) (error : option json)
| MCap (id : json) (verb : option json) (inFlight : option json)
| MCallback
| MHookResult (id : option Z) (continue data error : option json)
| MWebhookResult (id : option Z) (status headers body error : option json)
| MHealthResult (id : option Z) (healthy message : option json)
| MSearchResult (id : option Z) (ok : bool) (results error : option json)
| MPong (id : option Z)
| MMalformed.

Inductive HostMessage :=
| PLoad
| PRequest (k : Kind) (id : Z) (inFlight : list string)
| PConfig
| PPing (id : Z)
| PCapResult (id : json) (r : result string json).

(** ** State *)

(** A pending request: its caller's promise and whether its timer is armed. *)
Record Entry := mkEntry { e_call : nat; e_timer : bool }.

(** A capability call: running under the events it is guarded against, or answered;
    [late] while the work of one that timed out still runs. *)
Inductive CapStage := Running (verb : string) (guard : list string) | Answered (late : bool).

Record Calls := mkCalls { nextId : Z; waiting : gmap (Kind * Z) Entry; readyWaiters : list (nat * bool); promises : list (option Settlement) }.
(** [unreleased]: the dispatches whose claim has not been given back. *)
Record Flight := mkFlight { inFlightHookEvents : gmap string Z; unreleased : gmap Z (list string); lateHookClaims : list Z }.
Record Caps := mkCaps { inFlightCaps : Z; capCalls : list (json * CapStage) }.
Record Life := mkLife { ready : bool; dead : bool; terminated : bool; lastWorkerError : option string }.
(** The probe's id and timer.  For the statements: how many answers the worker has given,
    how many it had when the timer was armed, and the same two counts at a report. *)
Record Probe := mkProbe { p_id : Z; p_timer : nat; p_seen : nat }.
Record Watch := mkWatch { probe : option Probe; unresponsiveReported : bool; timerSeq : nat; answers : nat; reports : list (nat * nat) }.
Record Host := mkHost { calls : Calls; flight : Flight; caps : Caps; life : Life; watch : Watch; posted : list HostMessage }.

Definition new_host : Host :=
  mkHost (mkCalls 1 ∅ [] []) (mkFlight ∅ ∅ []) (mkCaps 0 []) (mkLife false false false None) (mkWatch None false 0 0 []) [].

Definition with_calls (s : Host) x := mkHost x (flight s) (caps s) (life s) (watch s) (posted s).
Definition with_flight (s : Host) x := mkHost (calls s) x (caps s) (life s) (watch s) (posted s).
Definition with_caps (s : Host) x := mkHost (calls s) (flight s) x (life s) (watch s) (posted s).
Definition with_life (s : Host) x := mkHost (calls s) (flight s) (caps s) x (watch s) (posted s).
Definition with_watch (s : Host) x := mkHost (calls s) (flight s) (caps s) (life s) x (posted s).
Definition post (s : Host) (m : HostMessage) : Host := mkHost (calls s) (flight s) (caps s) (life s) (watch s) (posted s ++ [m])%list.

Section host.
(** The mark of a cut text; [maxInFlightCaps], [capTimeoutMs], and whether a dispatcher
    and the liveness probe are wired. *)
Context (cut : string) (maxInFlightCaps : option Z) (capTimeoutMs : option Z) (hasDispatcher probing : bool).

(** ** Texts *)

Definition MAX_WORKER_ERROR_CHARS : nat := 500.
Definition MAX_WORKER_TEXT_CHARS : nat := 8192.
Definition NON_STRING_WORKER_VALUE : string := "[non-string worker value]".
Definition MAX_LATE_HOOK_CLAIMS : nat := 32.

Definition workerText (value : option json) : string :=
  match value with
  | Some (JStr v) => if (MAX_WORKER_TEXT_CHARS <? String.length v)%nat then String.substring 0 MAX_WORKER_TEXT_CHARS v +:+ cut else v
  | _ => NON_STRING_WORKER_VALUE
  end.

(** Each run of white space becomes one space. *)
Fixpoint one_line (after_ws : bool) (s : string) : string :=
  match s with
  | EmptyString => ""
  | String c r => if is_ws c then (if after_ws then one_line true r else String " " (one_line true r)) else String c (one_line false r)
  end.

(** ** Promises *)

(** A promise settles once: [resolve] or [reject] again is a no-op. *)
Definition settle (p : nat) (v : Settlement) (c : Calls) : Calls :=
  match promises c !! p with
  | Some None => mkCalls (nextId c) (waiting c) (readyWaiters c) (<[p := Some v]> (promises c))
  | _ => c
  end.
(** A call refused on the spot. *)
Definition refuse (v : Settlement) (s : Host) : Host :=
  let c := calls s in with_calls s (mkCalls (nextId c) (waiting c) (readyWaiters c) (promises c ++ [Some v])%list).
(** A request: a fresh id, a pending entry, a message. *)
Definition request (k : Kind) (timed : bool) (inFlight : list string) (s : Host) : Host :=
  let c := calls s in
  let id := nextId c in
  post (with_calls s (mkCalls (id + 1) (<[(k, id) := mkEntry (length (promises c)) timed]> (waiting c)) (readyWaiters c) (promises c ++ [None])%list))
    (PRequest k id inFlight).
Definition remove_entry (k : Kind) (id : Z) (c : Calls) : Calls :=
  mkCalls (nextId c) (base.delete (k, id) (waiting c)) (readyWaiters c) (promises c).

(** ** The claims of hook dispatches *)

Definition incInFlightHook (event : string) (m : gmap string Z) : gmap string Z := <[event := default 0 (m !! event) + 1]> m.
Definition decInFlightHook (event : string) (m : gmap string Z) : gmap string Z :=
  match m !! event with
  | None => m
  | Some count => if count <=? 1 then base.delete event m else <[event := count - 1]> m
  end.
Definition without_id (id : Z) (l : list Z) : list Z := List.filter (fun x => negb (x =? id)) l.

(** The [release] of a dispatch; a second one is a no-op. *)
Definition release (id : Z) (f : Flight) : Flight :=
  match unreleased f !! id with
  | None => f
  | Some events => mkFlight (fold_left (fun m e => decInFlightHook e m) events (inFlightHookEvents f)) (base.delete id (unreleased f)) (without_id id (lateHookClaims f))
  end.

Definition holdLateClaim (id : Z) (s : Host) : Host :=
  let f := flight s in
  let f := mkFlight (inFlightHookEvents f) (unreleased f) (lateHookClaims f ++ [id])%list in
  if (length (lateHookClaims f) <=? MAX_LATE_HOOK_CLAIMS)%nat then with_flight s f
  else match lateHookClaims f with
       | oldest :: _ => with_flight (with_calls s (remove_entry KHook oldest (calls s))) (release oldest f)
       | [] => with_flight s f
       end.

(** ** The liveness probe *)

Definition armProbe (id : Z) (s : Host) : Host :=
  let w := watch s in
  with_watch s (mkWatch (Some (mkProbe id (timerSeq w) (answers w))) (unresponsiveReported w) (S (timerSeq w)) (answers w) (reports w)).
Definition dropProbe (s : Host) : Host :=
  let w := watch s in with_watch s (mkWatch None (unresponsiveReported w) (timerSeq w) (answers w) (reports w)).
Definition probeLiveness (s : Host) : Host :=
  let w := watch s in
  if negb probing || dead (life s) || terminated (life s) || bool_decide (is_Some (probe w)) || unresponsiveReported w then s
  else
    let c := calls s in
    let id := nextId c in
    post (armProbe id (with_calls s (mkCalls (id + 1) (waiting c) (readyWaiters c) (promises c)))) (PPing id).

(** The window of a timer is over, and the loop turn after it. *)
Definition verdict (timer : nat) (s : Host) : Host :=
  match probe (watch s) with
  | Some p =>
      if (p_timer p =? timer)%nat then
        let s := dropProbe s in
        if dead (life s) || terminated (life s) || unresponsiveReported (watch s) then s
        else let w := watch s in with_watch s (mkWatch (probe w) true (timerSeq w) (answers w) (reports w ++ [(p_seen p, answers w)])%list)
      else s
  | None => s
  end.

(** ** Requests *)

Definition hook_open : Settlement := HookDone (Some (JBool true)) None None.
Definition gone_error : string := "plugin worker is no longer running".

Definition dispatchHook (event : string) (ancestors : list string) (s : Host) : Host :=
  if dead (life s) then refuse hook_open s
  else
    let id := nextId (calls s) in
    let inFlight := set_of_list (ancestors ++ [event])%list in
    let f := flight s in
    request KHook true inFlight (with_flight s (mkFlight (fold_left (fun m e => incInFlightHook e m) inFlight (inFlightHookEvents f))
      (<[id := inFlight]> (unreleased f)) (lateHookClaims f))).
Definition dispatchWebhook (s : Host) : Host :=
  if dead (life s) then refuse (WebhookDone false (Some (JNum 502)) None None None) s else request KWebhook true [] s.
Definition dispatchSearch (s : Host) : Host :=
  if dead (life s) then refuse (SearchDone (Err gone_error)) s else request KSearch true [] s.
Definition load (timed : bool) (s : Host) : Host :=
  if dead (life s) then refuse (Done (Err gone_error)) s
  else if ready (life s) then refuse (Done (Ok tt)) s
  else
    let c := calls s in
    post (with_calls s (mkCalls (nextId c) (waiting c) (readyWaiters c ++ [(length (promises c), timed)])%list (promises c ++ [None])%list)) PLoad.
Definition runLifecycle (timed : bool) (s : Host) : Host :=
  if dead (life s) then refuse (Done (Err gone_error)) s else request KLifecycle timed [] s.
Definition sendConfigChange (s : Host) : Host := if dead (life s) then s else post s PConfig.
Definition healthCheck (s : Host) : Host :=
  if dead (life s) then refuse (HealthDone false (Some gone_error)) s else request KHealth true [] s.
Definition terminate (s : Host) : Host := let l := life s in with_life s (mkLife (ready l) (dead l) true (lastWorkerError l)).

(** What a request is answered with when its timer fires. *)
Definition timeout_answer (k : Kind) : Settlement :=
  match k with
  | KLifecycle => Done (Err "plugin worker lifecycle timed out")
  | KHook => hook_open
  | KWebhook => WebhookDone false (Some (JNum 504)) None None None
  | KHealth => HealthDone false (Some "health check timed out")
  | KSearch => SearchDone (Err "search timed out")
  end.

Definition timer_fires (k : Kind) (id : Z) (s : Host) : Host :=
  match waiting (calls s) !! (k, id) with
  | Some e =>
      if negb (e_timer e) then s else
      match k with
      | KHook =>
          let s := probeLiveness s in
          let c := settle (e_call e) hook_open (calls s) in
          holdLateClaim id (with_calls s (mkCalls (nextId c) (<[(KHook, id) := mkEntry (e_call e) false]> (waiting c)) (readyWaiters c) (promises c)))
      | KWebhook | KSearch =>
          let s := probeLiveness (with_calls s (remove_entry k id (calls s))) in
          with_calls s (settle (e_call e) (timeout_answer k) (calls s))
      | KHealth | KLifecycle => with_calls s (settle (e_call e) (timeout_answer k) (remove_entry k id (calls s)))
      end
  | None => s
  end.
Definition without_waiter (p : nat) (l : list (nat * bool)) : list (nat * bool) := List.filter (fun w => negb (fst w =? p)%nat) l.
Definition load_timer_fires (p : nat) (s : Host) : Host :=
  if bool_decide ((p, true) ∈ readyWaiters (calls s)) then
    let c := calls s in
    with_calls s (settle p (Done (Err "plugin worker load timed out")) (mkCalls (nextId c) (waiting c) (without_waiter p (readyWaiters c)) (promises c)))
  else s.

(** ** Messages from the worker *)

Definition settle_waiters (v : Settlement) (s : Host) : Host :=
  let c := calls s in
  with_calls s (fold_left (fun c w => settle (fst w) v c) (readyWaiters c) (mkCalls (nextId c) (waiting c) [] (promises c))).

(** The answer of a request's own kind and id, if one is pending. *)
Definition answer (k : Kind) (id : option Z) (v : Settlement) (s : Host) : Host :=
  match id with
  | None => s
  | Some id =>
      match waiting (calls s) !! (k, id) with
      | None => s
      | Some e =>
          let s := with_calls s (remove_entry k id (calls s)) in
          let s := match k with KHook => with_flight s (release id (flight s)) | _ => s end in
          with_calls s (settle (e_call e) v (calls s))
      end
  end.

Definition is_null (v : option json) : bool := match v with None | Some JNull => true | _ => false end.
Definition nullable_text (v : option json) : option string := match v with None => None | Some v => Some (workerText (Some v)) end.

(** The events a capability call claims and the host has in flight. *)
Definition guard_of (inFlight : option json) (f : Flight) : list string :=
  match inFlight with
  | Some (JArr l) => omap (fun v => match v with JStr e => if bool_decide (is_Some (inFlightHookEvents f !! e)) then Some e else None | _ => None end) l
  | _ => []
  end.
Definition reject_cap (id : json) (e : string) (s : Host) : Host :=
  let p := caps s in post (with_caps s (mkCaps (inFlightCaps p) (capCalls p ++ [(id, Answered false)])%list)) (PCapResult id (Err e)).
Definition handleCapRequest (id : json) (verb inFlight : option json) (s : Host) : Host :=
  match verb with
  | Some (JStr verb) =>
      if match maxInFlightCaps with Some n => n <=? inFlightCaps (caps s) | None => false end then reject_cap id "capability call rejected: too many concurrent capability calls" s
      else if negb hasDispatcher then reject_cap id "no capability dispatcher" s
      else let p := caps s in with_caps s (mkCaps (inFlightCaps p + 1) (capCalls p ++ [(id, Running verb (guard_of inFlight (flight s)))])%list)
  | _ => reject_cap id NON_STRING_WORKER_VALUE s
  end.

(** Answers to requests count as progress, and restart a probe's window. *)
Definition progress_kind (m : WorkerMessage) : bool :=
  match m with MLifecycleResult _ _ _ | MHookResult _ _ _ _ | MWebhookResult _ _ _ _ _ | MHealthResult _ _ _ | MSearchResult _ _ _ _ => true | _ => false end.
Definition note_progress (m : WorkerMessage) (s : Host) : Host :=
  if progress_kind m then
    let w := watch s in
    let s := with_watch s (mkWatch (probe w) (unresponsiveReported w) (timerSeq w) (S (answers w)) (reports w)) in
    match probe w with Some p => armProbe (p_id p) s | None => s end
  else s.

Definition routeMessage (m : WorkerMessage) (s : Host) : Host :=
  let s := note_progress m s in
  match m with
  | MReady => let l := life s in settle_waiters (Done (Ok tt)) (with_life s (mkLife true (dead l) (terminated l) (lastWorkerError l)))
  | MError error =>
      let text := workerText error in
      let l := life s in
      settle_waiters (Done (Err text)) (with_life s (mkLife (ready l) (dead l) (terminated l) (Some (String.substring 0 MAX_WORKER_ERROR_CHARS (one_line false text)))))
  | MLifecycleResult id ok error => answer KLifecycle id (Done (if ok then Ok tt else Err (workerText error))) s
  | MCap id verb inFlight => handleCapRequest id verb inFlight s
  | MCallback | MMalformed => s
  | MHookResult id continue data error => answer KHook id (HookDone continue data (nullable_text error)) s
  | MWebhookResult id status headers body error =>
      answer KWebhook id (WebhookDone (is_null error) status headers body (if is_null error then None else Some (workerText error))) s
  | MHealthResult id healthy message => answer KHealth id (HealthDone (match healthy with Some (JBool true) => true | _ => false end) (nullable_text message)) s
  | MSearchResult id ok results error => answer KSearch id (SearchDone (if ok then Ok results else Err (workerText error))) s
  | MPong id => match probe (watch s), id with Some p, Some id => if p_id p =? id then dropProbe s else s | _, _ => s end
  end.

(** ** Capability calls *)

Definition SEND_CAP_VERBS : list string := ["messages.sendText"; "messages.reply"; "conversation.send"].
Definition SEND_CAP_TIMEOUT_FACTOR : Z := 4.
(** The budget of one call. *)
Definition capBudget (verb : string) : option Z :=
  (fun t => if bool_decide (verb ∈ SEND_CAP_VERBS) then t * SEND_CAP_TIMEOUT_FACTOR else t) <$> capTimeoutMs.

Definition end_cap (n : nat) (id : json) (late : bool) (r : result string json) (s : Host) : Host :=
  let p := caps s in post (with_caps s (mkCaps (inFlightCaps p - 1) (<[n := (id, Answered late)]> (capCalls p)))) (PCapResult id r).
(** The host's work for a call ends. *)
Definition cap_settles (n : nat) (r : result string json) (s : Host) : Host :=
  match capCalls (caps s) !! n with
  | Some (id, Running _ _) => end_cap n id false r s
  | Some (id, Answered true) => let p := caps s in with_caps s (mkCaps (inFlightCaps p) (<[n := (id, Answered false)]> (capCalls p)))
  | _ => s
  end.
Definition cap_times_out (n : nat) (s : Host) : Host :=
  match capCalls (caps s) !! n with
  | Some (id, Running verb _) => match capBudget verb with Some t => end_cap n id true (Err "capability timed out") s | None => s end
  | _ => s
  end.

(** ** The worker's exit *)

Definition exit_error (s : Host) : string :=
  "plugin worker exited unexpectedly" +:+ match lastWorkerError (life s) with Some e => if String.eqb e "" then "" else ": " +:+ e | None => "" end.
Definition exit_answer (k : Kind) (s : Host) : Settlement :=
  match k with
  | KLifecycle => Done (Err (exit_error s))
  | KHook => hook_open
  | KWebhook => WebhookDone false (Some (JNum 502)) None None None
  | KHealth => HealthDone false (Some "plugin worker exited")
  | KSearch => SearchDone (Err "plugin worker exited")
  end.
Definition drain_entry (s0 : Host) (x : Kind * Z * Entry) (s : Host) : Host :=
  let '(k, id, e) := x in
  let s := match k with KHook => with_flight s (release id (flight s)) | _ => s end in
  with_calls s (settle (e_call e) (exit_answer k s0) (calls s)).
Definition handleExit (s : Host) : Host :=
  let l := life s in
  let s := dropProbe (with_life s (mkLife (ready l) true (terminated l) (lastWorkerError l))) in
  let s := settle_waiters (Done (Err (exit_error s))) s in
  let pending := map_to_list (waiting (calls s)) in
  let s := fold_left (fun t x => drain_entry s x t) pending s in
  let c := calls s in with_calls s (mkCalls (nextId c) ∅ (readyWaiters c) (promises c)).

(** ** Events *)

Inductive Event :=
| DispatchHook (event : string) (ancestors : list string) | DispatchWebhook | DispatchSearch | Load (timed : bool) | RunLifecycle (timed : bool)
| SendConfigChange | HealthCheck | Terminate
| Message (m : WorkerMessage) | TimerFires (k : Kind) (id : Z) | LoadTimerFires (p : nat) | Verdict (timer : nat)
| CapSettles (n : nat) (r : result string json) | CapTimesOut (n : nat) | Exit.

Definition step (ev : Event) (s : Host) : Host :=
  match ev with
  | DispatchHook event ancestors => dispatchHook event ancestors s
  | DispatchWebhook => dispatchWebhook s
  | DispatchSearch => dispatchSearch s
  | Load timed => load timed s
  | RunLifecycle timed => runLifecycle timed s
  | SendConfigChange => sendConfigChange s
  | HealthCheck => healthCheck s
  | Terminate => terminate s
  | Message m => routeMessage m s
  | TimerFires k id => timer_fires k id s
  | LoadTimerFires p => load_timer_fires p s
  | Verdict timer => verdict timer s
  | CapSettles n r => cap_settles n r s
  | CapTimesOut n => cap_times_out n s
  | Exit => handleExit s
  end.
Definition run_events (l : list Event) (s : Host) : Host := fold_left (fun s ev => step ev s) l s.
Definition reachable (s : Host) : Prop := exists l, run_events l new_host = s.
End host.
