(* ===== verification/PluginWorkerSafe.v ===== *)
(** * What a plugin's worker cannot do to the host

    Over any events of [PluginWorker]: every call of the host settles, with its own
    answer, and none outlives the worker; the events guarding a plugin's capability
    calls are exactly those of the hook dispatches the host has not seen answered; the
    calls in flight are counted and bounded and each is answered once; and a worker is
    reported unresponsive at most once, after a window of silence. *)
From S2P Require Import Prelude JsString Json Counting PluginWorker.
Local Open Scope string_scope.
Local Open Scope Z_scope.

(** ** Requests and claims *)

(** A request whose caller still waits: a hook's entry outlives its timer. *)
Definition open (k : Kind) (e : Entry) : bool := match k with KHook => e_timer e | _ => true end.
Definition claims (ev : string) (l : list string) : Z := if bool_decide (ev ∈ l) then 1 else 0.
Definition counted (n : Z) : option Z := if n =? 0 then None else Some n.

Record Core (c : Calls) (f : Flight) : Prop := mkCore {
  c_ids : forall k i e, waiting c !! (k, i) = Some e -> i < nextId c;
  c_one : forall k k' i e e', waiting c !! (k, i) = Some e -> waiting c !! (k', i) = Some e' -> k = k';
  c_call : forall k i e, waiting c !! (k, i) = Some e -> if open k e then promises c !! e_call e = Some None else exists v, promises c !! e_call e = Some (Some v);
  c_inj : forall k i e k' i' e', waiting c !! (k, i) = Some e -> waiting c !! (k', i') = Some e' -> e_call e = e_call e' -> (k, i) = (k', i');
  c_apart : forall k i e t, waiting c !! (k, i) = Some e -> (e_call e, t) ∉ readyWaiters c;
  c_waiters : NoDup (map fst (readyWaiters c));
  c_load : forall p t, (p, t) ∈ readyWaiters c -> promises c !! p = Some None;
  c_owner : forall p, promises c !! p = Some None -> (exists k i e, waiting c !! (k, i) = Some e /\ e_call e = p /\ open k e = true) \/ exists t, (p, t) ∈ readyWaiters c;
  c_dom : forall i, is_Some (unreleased f !! i) <-> is_Some (waiting c !! (KHook, i));
  c_nodup : forall i l, unreleased f !! i = Some l -> NoDup l;
  c_count : forall ev, inFlightHookEvents f !! ev = counted (msum (claims ev) (unreleased f));
  c_late : NoDup (lateHookClaims f);
  c_late_of : forall i, i ∈ lateHookClaims f <-> exists e, waiting c !! (KHook, i) = Some e /\ e_timer e = false
}.

Lemma claims_nonneg ev l : 0 <= claims ev l.
Proof. unfold claims. by case_bool_decide. Qed.

(** *** Claims taken and given back *)

Lemma inc_lookup ev l m : NoDup l -> fold_left (fun m e => incInFlightHook e m) l m !! ev = if bool_decide (ev ∈ l) then Some (default 0 (m !! ev) + 1) else m !! ev.
Proof.
  revert m. induction l as [|e l IH]; intros m Hn; [done|]. apply NoDup_cons in Hn as [He Hn]. cbn [fold_left]. rewrite IH by done. unfold incInFlightHook.
  destruct (decide (ev = e)) as [->|Hne].
  - rewrite (bool_decide_eq_false_2 _ He), bool_decide_eq_true_2 by left. by rewrite lookup_insert_eq.
  - rewrite lookup_insert_ne by done. destruct (bool_decide (ev ∈ l)) eqn:E; [rewrite bool_decide_eq_true_2; [done|right; by apply bool_decide_eq_true in E]|].
    apply bool_decide_eq_false in E. rewrite bool_decide_eq_false_2; [done|]. set_solver.
Qed.

Lemma dec_lookup ev l m : NoDup l -> (forall e, e ∈ l -> exists n, m !! e = Some n /\ 0 < n) ->
  fold_left (fun m e => decInFlightHook e m) l m !! ev = if bool_decide (ev ∈ l) then n ← m !! ev; counted (n - 1) else m !! ev.
Proof.
  revert m. induction l as [|e l IH]; intros m Hn Hm; [done|]. apply NoDup_cons in Hn as [He Hn]. cbn [fold_left].
  destruct (Hm e) as (n & En & Hn0); [left|]. assert (forall e', e' <> e -> decInFlightHook e m !! e' = m !! e') as Hother.
  { intros e' Hne. unfold decInFlightHook. rewrite En. destruct (n <=? 1); [by rewrite lookup_delete_ne|by rewrite lookup_insert_ne]. }
  rewrite IH; [|done|].
  - destruct (decide (ev = e)) as [->|Hne].
    + rewrite (bool_decide_eq_false_2 _ He), bool_decide_eq_true_2 by left. unfold decInFlightHook, counted. rewrite En. cbn. destruct (Z.leb_spec n 1).
      * rewrite lookup_delete_eq. by destruct (Z.eqb_spec (n - 1) 0); [|lia].
      * rewrite lookup_insert_eq. by destruct (Z.eqb_spec (n - 1) 0); [lia|].
    + rewrite Hother by done. destruct (bool_decide (ev ∈ l)) eqn:E; [rewrite bool_decide_eq_true_2; [done|right; by apply bool_decide_eq_true in E]|].
      apply bool_decide_eq_false in E. rewrite bool_decide_eq_false_2; [done|]. set_solver.
  - intros e' He'. rewrite Hother by (intros ->; done). apply Hm. by right.
Qed.

Lemma count_pos (m : gmap string Z) ev (i : gmap Z (list string)) l : (forall e, m !! e = counted (msum (claims e) i)) -> (exists k, i !! k = Some l /\ ev ∈ l) -> exists n, m !! ev = Some n /\ 0 < n.
Proof.
  intros Hm (k & Hk & Hev). exists (msum (claims ev) i). rewrite Hm. unfold counted.
  assert (1 <= msum (claims ev) i); [|destruct (Z.eqb_spec (msum (claims ev) i) 0); [lia|split; [done|lia]]].
  pose proof (at_le (claims ev) i k (claims_nonneg ev)) as H. unfold at_key in H. rewrite Hk in H. unfold claims in H at 1. rewrite bool_decide_eq_true_2 in H by done. done.
Qed.

Lemma release_count id f :
  (forall i l, unreleased f !! i = Some l -> NoDup l) -> (forall ev, inFlightHookEvents f !! ev = counted (msum (claims ev) (unreleased f))) ->
  forall ev, inFlightHookEvents (release id f) !! ev = counted (msum (claims ev) (unreleased (release id f))).
Proof.
  intros Hn Hc ev. unfold release. destruct (unreleased f !! id) as [l|] eqn:E; [|apply Hc]. cbn.
  rewrite dec_lookup; [|by eapply Hn|intros e He; eapply count_pos; [apply Hc|by exists id]]. rewrite Hc, msum_delete. unfold at_key. rewrite E.
  assert (claims ev l = if bool_decide (ev ∈ l) then 1 else 0) as -> by done. case_bool_decide as Hev; [|by rewrite Z.sub_0_r]. destruct (count_pos _ ev _ l Hc) as (n & En & Hn0); [by exists id|]. rewrite Hc in En. rewrite En. cbn.
  unfold counted in En. destruct (Z.eqb_spec (msum (claims ev) (unreleased f)) 0); [done|]. by injection En as ->.
Qed.

Lemma release_unreleased id f i : unreleased (release id f) !! i = if decide (i = id) then None else unreleased f !! i.
Proof.
  unfold release. destruct (unreleased f !! id) as [l|] eqn:E; cbn.
  - destruct (decide (i = id)) as [->|]; [apply lookup_delete_eq|by rewrite lookup_delete_ne].
  - destruct (decide (i = id)) as [->|]; [done|done].
Qed.
Lemma elem_of_without_id i id l : i ∈ without_id id l <-> i ∈ l /\ i <> id.
Proof. unfold without_id. rewrite list_elem_of_In, filter_In, list_elem_of_In, negb_true_iff, Z.eqb_neq. done. Qed.
Lemma NoDup_without id l : NoDup l -> NoDup (without_id id l).
Proof. intros H. unfold without_id. apply NoDup_ListNoDup, List.NoDup_filter. by apply NoDup_ListNoDup. Qed.

(** *** A request is answered *)

Lemma settle_lookup p v c q : promises (settle p v c) !! q = if decide (q = p) then match promises c !! p with Some None => Some (Some v) | x => x end else promises c !! q.
Proof.
  unfold settle. destruct (promises c !! p) as [[w|]|] eqn:E; cbn; try (destruct (decide (q = p)) as [->|]; [by rewrite E|done]).
  destruct (decide (q = p)) as [->|]; [apply list_lookup_insert_eq; by eapply lookup_lt_Some|by rewrite list_lookup_insert_ne].
Qed.
Lemma settle_waiting p v c : waiting (settle p v c) = waiting c.
Proof. unfold settle. by destruct (promises c !! p) as [[]|]. Qed.
Lemma settle_waiters_same p v c : readyWaiters (settle p v c) = readyWaiters c.
Proof. unfold settle. by destruct (promises c !! p) as [[]|]. Qed.
Lemma settle_nextId p v c : nextId (settle p v c) = nextId c.
Proof. unfold settle. by destruct (promises c !! p) as [[]|]. Qed.
Lemma settle_length p v c : length (promises (settle p v c)) = length (promises c).
Proof. unfold settle. destruct (promises c !! p) as [[]|]; cbn; try done. apply length_insert. Qed.

(** The calls with a table of requests of its own. *)
Definition with_waiting (c : Calls) w : Calls := mkCalls (nextId c) w (readyWaiters c) (promises c).
Lemma settle_with_waiting p v c w : settle p v (with_waiting c w) = with_waiting (settle p v c) w.
Proof. unfold settle. cbn. by destruct (promises c !! p) as [[]|]. Qed.

Definition released (k : Kind) (id : Z) (f : Flight) : Flight := match k with KHook => release id f | _ => f end.

Lemma request_closes c f k id e v :
  Core c f -> waiting c !! (k, id) = Some e -> Core (with_waiting (settle (e_call e) v c) (base.delete (k, id) (waiting c))) (released k id f).
Proof.
  intros HC He. assert (forall k' i e', base.delete (k, id) (waiting c) !! (k', i) = Some e' -> waiting c !! (k', i) = Some e' /\ (k', i) <> (k, id)) as Hd by (intros * [? ?]%lookup_delete_Some; done).
  assert (forall k' i e', base.delete (k, id) (waiting c) !! (k', i) = Some e' -> e_call e' <> e_call e) as Hne.
  { intros k' i e' [H Hn]%Hd E. apply Hn. by apply (c_inj _ _ HC _ _ e' _ _ e). }
  split; cbn; rewrite ?settle_nextId, ?settle_waiters_same.
  - intros k' i e' [H _]%Hd. by apply (c_ids _ _ HC k' i e').
  - intros k1 k2 i e1 e2 [H1 _]%Hd [H2 _]%Hd. by apply (c_one _ _ HC k1 k2 i e1 e2).
  - intros k' i e' H. rewrite settle_lookup. rewrite decide_False by (by eapply Hne). apply Hd in H as [H _]. by apply (c_call _ _ HC k' i).
  - intros k1 i1 e1 k2 i2 e2 [H1 _]%Hd [H2 _]%Hd. by apply (c_inj _ _ HC).
  - intros k' i e' t [H _]%Hd. by apply (c_apart _ _ HC k' i).
  - apply (c_waiters _ _ HC).
  - intros p t Hp. rewrite settle_lookup. rewrite decide_False; [by apply (c_load _ _ HC p t)|]. intros ->. by apply (c_apart _ _ HC k id e t He).
  - intros p Hp. rewrite settle_lookup in Hp. destruct (decide (p = e_call e)) as [->|Hpe]; [by destruct (promises c !! e_call e) as [[]|]|].
    destruct (c_owner _ _ HC p Hp) as [(k' & i & e' & H & E & Ho)|?]; [|by right]. left. exists k', i, e'. split; [|done]. apply lookup_delete_Some. split; [|done]. congruence.
  - intros i. destruct k; cbn [released]; try (rewrite lookup_delete_ne by done; apply (c_dom _ _ HC)).
    rewrite release_unreleased. destruct (decide (i = id)) as [->|Hi]; [rewrite lookup_delete_eq; split; by intros [? [=]]|rewrite lookup_delete_ne by congruence; apply (c_dom _ _ HC)].
  - intros i l. destruct k; cbn [released]; try apply (c_nodup _ _ HC). rewrite release_unreleased. destruct (decide (i = id)); [done|apply (c_nodup _ _ HC)].
  - destruct k; cbn [released]; try apply (c_count _ _ HC). apply release_count; [apply (c_nodup _ _ HC)|apply (c_count _ _ HC)].
  - destruct k; cbn [released]; try apply (c_late _ _ HC). unfold release. destruct (unreleased f !! id); [|apply (c_late _ _ HC)]. apply NoDup_without, (c_late _ _ HC).
  - intros i. destruct k; cbn [released]; try (rewrite (c_late_of _ _ HC); setoid_rewrite lookup_delete_ne; [done|done]).
    assert (is_Some (unreleased f !! id)) as [l El] by (apply (c_dom _ _ HC); by eexists). unfold release. rewrite El. cbn. rewrite elem_of_without_id, (c_late_of _ _ HC). split.
    + intros ((e' & H & Ht) & Hi). exists e'. split; [|done]. apply lookup_delete_Some. split; [congruence|done].
    + intros (e' & [Hi H]%lookup_delete_Some & Ht). split; [by exists e'|congruence].
Qed.

(** *** A request is made *)

(** Promises beyond the entries. *)
Lemma core_refuse c f v : Core c f -> Core (mkCalls (nextId c) (waiting c) (readyWaiters c) (promises c ++ [Some v])%list) f.
Proof.
  intros HC. split; cbn; try apply HC.
  - intros k i e H. pose proof (c_call _ _ HC k i e H) as Hc. destruct (open k e); [apply lookup_snoc; by left|]. destruct Hc as [w Hw]. exists w. apply lookup_snoc. by left.
  - intros p t H. apply lookup_snoc. left. by apply (c_load _ _ HC p t).
  - intros p [H|[_ [=]]]%lookup_snoc. by apply (c_owner _ _ HC).
Qed.
Lemma core_bump c f : Core c f -> Core (mkCalls (nextId c + 1) (waiting c) (readyWaiters c) (promises c)) f.
Proof. intros HC. split; cbn; try apply HC. intros k i e H. pose proof (c_ids _ _ HC k i e H). lia. Qed.

Lemma core_call_lt c f k i e : Core c f -> waiting c !! (k, i) = Some e -> (e_call e < length (promises c))%nat.
Proof. intros HC H. pose proof (c_call _ _ HC k i e H) as Hc. destruct (open k e); [by eapply lookup_lt_Some|]. destruct Hc as [v Hv]. by eapply lookup_lt_Some. Qed.
Lemma core_waiter_lt c f p t : Core c f -> (p, t) ∈ readyWaiters c -> (p < length (promises c))%nat.
Proof. intros HC H. eapply lookup_lt_Some. by apply (c_load _ _ HC p t). Qed.

Lemma core_request c f k timed f' :
  Core c f -> (k = KHook -> timed = true) ->
  match k with
  | KHook => exists l, NoDup l /\ f' = mkFlight (fold_left (fun m e => incInFlightHook e m) l (inFlightHookEvents f)) (<[nextId c := l]> (unreleased f)) (lateHookClaims f)
  | _ => f' = f
  end ->
  Core (mkCalls (nextId c + 1) (<[(k, nextId c) := mkEntry (length (promises c)) timed]> (waiting c)) (readyWaiters c) (promises c ++ [None])%list) f'.
Proof.
  intros HC Ht Hf. set (id := nextId c). assert (forall k' e, waiting c !! (k', id) = Some e -> False) as Hfresh by (intros k' e H; pose proof (c_ids _ _ HC k' id e H); unfold id in *; lia).
  assert (unreleased f !! id = None) as Hu by (apply eq_None_not_Some; intros [e He]%(c_dom _ _ HC); by eapply Hfresh).
  assert (forall k' i e, <[(k, id) := mkEntry (length (promises c)) timed]> (waiting c) !! (k', i) = Some e ->
    ((k', i) = (k, id) /\ e = mkEntry (length (promises c)) timed) \/ ((k', i) <> (k, id) /\ waiting c !! (k', i) = Some e)) as Hin.
  { intros k' i e [[E <-]|[Hne H]]%lookup_insert_Some; [left; by split; [symmetry|]|right; split; [congruence|done]]. }
  assert (open k (mkEntry (length (promises c)) timed) = true) as Hopen by (destruct k; try done; by apply Ht).
  split; cbn.
  - intros k' i e [[[= -> ->] _]|[_ H]]%Hin; [unfold id; lia|]. pose proof (c_ids _ _ HC k' i e H). lia.
  - intros k1 k2 i e1 e2 [[E1 _]|[N1 H1]]%Hin [[E2 _]|[N2 H2]]%Hin; [congruence| | |by apply (c_one _ _ HC k1 k2 i e1 e2)].
    + injection E1 as -> ->. exfalso. by eapply Hfresh.
    + injection E2 as -> ->. exfalso. by eapply Hfresh.
  - intros k' i e [[[= -> ->] ->]|[_ H]]%Hin; [rewrite Hopen; apply lookup_snoc; by right|].
    pose proof (c_call _ _ HC k' i e H) as Hc. destruct (open k' e); [apply lookup_snoc; by left|]. destruct Hc as [w Hw]. exists w. apply lookup_snoc. by left.
  - intros k1 i1 e1 k2 i2 e2 [[E1 ->]|[N1 H1]]%Hin [[E2 ->]|[N2 H2]]%Hin; cbn; [congruence| | |by apply (c_inj _ _ HC)]; intros E.
    + pose proof (core_call_lt c f k2 i2 e2 HC H2). lia.
    + pose proof (core_call_lt c f k1 i1 e1 HC H1). lia.
  - intros k' i e t [[_ ->]|[_ H]]%Hin; [|by apply (c_apart _ _ HC k' i)]. cbn. intros Hw. pose proof (core_waiter_lt c f _ t HC Hw). lia.
  - apply (c_waiters _ _ HC).
  - intros p t H. apply lookup_snoc. left. by apply (c_load _ _ HC p t).
  - intros p [H|[-> _]]%lookup_snoc.
    + destruct (c_owner _ _ HC p H) as [(k' & i & e' & H' & E & Ho)|?]; [|by right]. left. exists k', i, e'. split; [|done]. apply lookup_insert_Some. right. split; [|done]. intros [= -> <-]. by eapply Hfresh.
    + left. exists k, id, (mkEntry (length (promises c)) timed). rewrite lookup_insert_eq. done.
  - intros i. destruct k; subst; try (rewrite lookup_insert_ne by done; apply (c_dom _ _ HC)). destruct Hf as (l & _ & ->). cbn. destruct (decide (i = id)) as [->|Hi].
    + unfold id. rewrite !lookup_insert_eq. split; by eexists.
    + rewrite !lookup_insert_ne by (unfold id in *; congruence). apply (c_dom _ _ HC).
  - intros i l. destruct k; subst; try apply (c_nodup _ _ HC). destruct Hf as (l' & Hn & ->). cbn. intros [[_ <-]|[_ H]]%lookup_insert_Some; [done|by apply (c_nodup _ _ HC i)].
  - intros ev. destruct k; subst; try apply (c_count _ _ HC). destruct Hf as (l & Hn & ->). cbn. rewrite inc_lookup by done. fold id. rewrite msum_new by done. rewrite !(c_count _ _ HC).
    assert (claims ev l = if bool_decide (ev ∈ l) then 1 else 0) as -> by done. case_bool_decide; [|done].
    assert (0 <= msum (claims ev) (unreleased f)) by (apply msum_nonneg, claims_nonneg). unfold counted.
    destruct (Z.eqb_spec (1 + msum (claims ev) (unreleased f)) 0); [lia|]. destruct (Z.eqb_spec (msum (claims ev) (unreleased f)) 0); cbn; f_equal; lia.
  - destruct k; subst; try apply (c_late _ _ HC). destruct Hf as (l & _ & ->). apply (c_late _ _ HC).
  - intros i. assert (lateHookClaims f' = lateHookClaims f) as -> by (destruct k; subst; try done; by destruct Hf as (l & _ & ->)). rewrite (c_late_of _ _ HC). split.
    + intros (e & H & Hl). exists e. split; [|done]. apply lookup_insert_Some. right. split; [|done]. intros [= -> <-]. by eapply Hfresh.
    + intros (e & [[[= <- ->] ->]|[_ H]]%Hin & Hl); [|by exists e]. cbn in Hl. rewrite Ht in Hl by done; done.
Qed.

(** *** A hook's timer fires: its caller is answered, its claim is kept *)

Lemma core_fire c f id e v :
  Core c f -> waiting c !! (KHook, id) = Some e -> e_timer e = true ->
  Core (with_waiting (settle (e_call e) v c) (<[(KHook, id) := mkEntry (e_call e) false]> (waiting c)))
    (mkFlight (inFlightHookEvents f) (unreleased f) (lateHookClaims f ++ [id])%list).
Proof.
  intros HC He Ht. assert (forall k' i e', <[(KHook, id) := mkEntry (e_call e) false]> (waiting c) !! (k', i) = Some e' ->
    ((k', i) = (KHook, id) /\ e' = mkEntry (e_call e) false) \/ ((k', i) <> (KHook, id) /\ waiting c !! (k', i) = Some e' /\ e_call e' <> e_call e)) as Hin.
  { intros k' i e' [[E <-]|[Hne H]]%lookup_insert_Some; [left; by split|right]. split; [congruence|]. split; [done|]. intros E. apply Hne. symmetry. by apply (c_inj _ _ HC k' i e' KHook id e). }
  assert (promises c !! e_call e = Some None) as Hp by (pose proof (c_call _ _ HC KHook id e He) as H; cbn in H; by rewrite Ht in H).
  split; cbn; rewrite ?settle_nextId, ?settle_waiters_same.
  - intros k' i e' [[E _]|[_ [H _]]]%Hin; [injection E as -> ->; by apply (c_ids _ _ HC KHook id e)|by apply (c_ids _ _ HC k' i e')].
  - intros k1 k2 i e1 e2 [[E1 _]|[_ [H1 _]]]%Hin [[E2 _]|[_ [H2 _]]]%Hin; [congruence| | |by apply (c_one _ _ HC k1 k2 i e1 e2)].
    + injection E1 as -> ->. by apply (c_one _ _ HC KHook k2 id e e2).
    + injection E2 as -> ->. by apply (c_one _ _ HC k1 KHook id e1 e).
  - intros k' i e' [[E ->]|[_ [H Hne]]]%Hin; rewrite settle_lookup.
    + injection E as -> ->. cbn. rewrite decide_True by done. rewrite Hp. by eexists.
    + rewrite decide_False by done. by apply (c_call _ _ HC k' i).
  - intros k1 i1 e1 k2 i2 e2 [[E1 ->]|[_ [H1 N1]]]%Hin [[E2 ->]|[_ [H2 N2]]]%Hin; cbn; intros E; [congruence|by rewrite E in N2|done|by apply (c_inj _ _ HC k1 i1 e1 k2 i2 e2)].
  - intros k' i e' t [[_ ->]|[_ [H _]]]%Hin; [by apply (c_apart _ _ HC KHook id e t)|by apply (c_apart _ _ HC k' i)].
  - apply (c_waiters _ _ HC).
  - intros p t H. rewrite settle_lookup. rewrite decide_False; [by apply (c_load _ _ HC p t)|]. intros ->. by apply (c_apart _ _ HC KHook id e t He).
  - intros p H. rewrite settle_lookup in H. destruct (decide (p = e_call e)) as [->|Hne]; [by rewrite Hp in H|].
    destruct (c_owner _ _ HC p H) as [(k' & i & e' & H' & E & Ho)|?]; [|by right]. left. exists k', i, e'. split; [|done]. apply lookup_insert_Some. right. split; [|done].
    intros E'. injection E' as <- <-. congruence.
  - intros i. rewrite (c_dom _ _ HC). destruct (decide (i = id)) as [->|Hi]; [rewrite lookup_insert_eq, He; split; by eexists|by rewrite lookup_insert_ne by congruence].
  - apply (c_nodup _ _ HC).
  - apply (c_count _ _ HC).
  - apply NoDup_app. split; [apply (c_late _ _ HC)|]. split; [|by apply NoDup_singleton]. intros i Hi ->%list_elem_of_singleton. apply (c_late_of _ _ HC) in Hi as (e' & H & Hf). congruence.
  - intros i. rewrite elem_of_app, list_elem_of_singleton, (c_late_of _ _ HC). split.
    + intros [(e' & H & Hf)| ->]; [|eexists; by rewrite lookup_insert_eq]. exists e'. split; [|done]. apply lookup_insert_Some. right. split; [|done]. intros E. injection E as <-. congruence.
    + intros (e' & [[E ->]|[_ [H _]]]%Hin & Hf); [injection E as ->; by right|left; by exists e'].
Qed.

(** *** Loading *)

Lemma core_load c f timed : Core c f -> Core (mkCalls (nextId c) (waiting c) (readyWaiters c ++ [(length (promises c), timed)])%list (promises c ++ [None])%list) f.
Proof.
  intros HC. split; cbn; try apply HC.
  - intros k i e H. pose proof (c_call _ _ HC k i e H) as Hc. destruct (open k e); [apply lookup_snoc; by left|]. destruct Hc as [w Hw]. exists w. apply lookup_snoc. by left.
  - intros k i e t H [Hw|Hw%list_elem_of_singleton]%elem_of_app; [by apply (c_apart _ _ HC k i e t)|]. injection Hw as E _. pose proof (core_call_lt c f k i e HC H). lia.
  - rewrite map_app. apply NoDup_app. split; [apply (c_waiters _ _ HC)|]. split; [|by apply NoDup_singleton].
    intros p [[p' t] [-> Hp]]%elem_of_map E%list_elem_of_singleton. cbn in E. pose proof (core_waiter_lt c f p' t HC Hp). lia.
  - intros p t [H|H%list_elem_of_singleton]%elem_of_app; apply lookup_snoc; [left; by apply (c_load _ _ HC p t)|right; by injection H as -> ->].
  - intros p [H|[-> _]]%lookup_snoc.
    + destruct (c_owner _ _ HC p H) as [?|[t Ht]]; [by left|right; exists t; apply elem_of_app; by left].
    + right. exists timed. apply elem_of_app. right. by apply list_elem_of_singleton.
Qed.

(** Some of the waiters are answered and leave. *)
Lemma core_waiters c f p v :
  Core c f -> p ∈ map fst (readyWaiters c) -> Core (settle p v (mkCalls (nextId c) (waiting c) (without_waiter p (readyWaiters c)) (promises c))) f.
Proof.
  intros HC [[p' tp] [-> Hp]]%elem_of_map. cbn [fst]. set (c' := mkCalls _ _ _ _).
  assert (forall q t, (q, t) ∈ without_waiter p' (readyWaiters c) <-> (q, t) ∈ readyWaiters c /\ q <> p') as Hw.
  { intros q t. unfold without_waiter. rewrite list_elem_of_In, filter_In, list_elem_of_In, negb_true_iff, Nat.eqb_neq. done. }
  assert (forall k i e, waiting c !! (k, i) = Some e -> e_call e <> p') as Hne by (intros k i e H E; apply (c_apart _ _ HC k i e tp H); by rewrite E).
  split; rewrite ?settle_nextId, ?settle_waiters_same, ?settle_waiting; cbn.
  - apply (c_ids _ _ HC).
  - apply (c_one _ _ HC).
  - intros k i e H. rewrite settle_lookup. cbn. rewrite decide_False by (by eapply Hne). by apply (c_call _ _ HC k i).
  - apply (c_inj _ _ HC).
  - intros k i e t H [Hin _]%Hw. by apply (c_apart _ _ HC k i e t).
  - unfold without_waiter. pose proof (c_waiters _ _ HC) as Hn. revert Hn. generalize (readyWaiters c). induction l as [|[q t] l IH]; [done|]. cbn. intros [Hq Hn]%NoDup_cons.
    destruct (q =? p')%nat; cbn; [by apply IH|]. apply NoDup_cons. split; [|by apply IH]. intros [[q' t'] [E H]]%elem_of_map. apply list_elem_of_In, filter_In in H as [H _]. apply Hq.
    apply elem_of_map. exists (q', t'). split; [done|]. by apply list_elem_of_In.
  - intros q t [H Hq]%Hw. rewrite settle_lookup, decide_False by done. by apply (c_load _ _ HC q t).
  - intros q H. rewrite settle_lookup in H. cbn in H. destruct (decide (q = p')) as [->|Hq]; [by destruct (promises c !! p') as [[]|]|].
    destruct (c_owner _ _ HC q H) as [?|[t Ht]]; [by left|]. right. exists t. by apply Hw.
  - apply (c_dom _ _ HC).
  - apply (c_nodup _ _ HC).
  - apply (c_count _ _ HC).
  - apply (c_late _ _ HC).
  - apply (c_late_of _ _ HC).
Qed.

Lemma without_waiter_cons p t l : NoDup (map fst ((p, t) :: l)) -> without_waiter p ((p, t) :: l) = l.
Proof.
  cbn. intros [Hp _]%NoDup_cons. unfold without_waiter. cbn. rewrite Nat.eqb_refl. cbn. induction l as [|[q u] l IH]; [done|]. cbn in *.
  assert (q <> p /\ p ∉ map fst l) as [Hq Hl] by (split; [intros ->; apply Hp; left|intros H; apply Hp; by right]). apply Nat.eqb_neq in Hq. rewrite Hq. cbn. by rewrite IH.
Qed.

Lemma core_all_waiters f v : forall l c, readyWaiters c = l -> Core c f -> Core (fold_left (fun c w => settle (fst w) v c) l (mkCalls (nextId c) (waiting c) [] (promises c))) f.
Proof.
  induction l as [|[p t] l IH]; intros c El HC; cbn [fold_left fst]; [destruct c; cbn in *; by subst|].
  pose proof (core_waiters c f p v HC) as H. rewrite El in H. specialize (H ltac:(left)). rewrite without_waiter_cons in H by (rewrite <- El; apply (c_waiters _ _ HC)).
  assert (settle p v (mkCalls (nextId c) (waiting c) [] (promises c)) = let c' := settle p v (mkCalls (nextId c) (waiting c) l (promises c)) in mkCalls (nextId c') (waiting c') [] (promises c')) as ->.
  { unfold settle. cbn. by destruct (promises c !! p) as [[]|]. }
  apply IH; [by rewrite settle_waiters_same|done].
Qed.

Section safe.
Context (cut : string) (maxInFlightCaps : option Z) (capTimeoutMs : option Z) (hasDispatcher probing : bool).
Notation step := (step cut maxInFlightCaps capTimeoutMs hasDispatcher probing).
Notation reachable := (reachable cut maxInFlightCaps capTimeoutMs hasDispatcher probing).
Notation probeLiveness := (probeLiveness probing).
Notation timer_fires := (timer_fires probing).

(** ** The invariant of the requests *)

Record Sound (s : Host) : Prop := mkSound {
  s_core : Core (calls s) (flight s);
  s_dead : dead (life s) = true -> waiting (calls s) = ∅ /\ readyWaiters (calls s) = [];
  s_late : (length (lateHookClaims (flight s)) <= MAX_LATE_HOOK_CLAIMS)%nat
}.

(** Steps that leave the requests alone but may number one more message. *)
Lemma sound_same s s' : Sound s -> calls s' = calls s -> flight s' = flight s -> dead (life s') = dead (life s) -> Sound s'.
Proof. intros [HC HD HL] Ec Ef Ed. split; rewrite ?Ec, ?Ef, ?Ed; done. Qed.

Lemma probe_calls s : calls (probeLiveness s) = calls s \/ calls (probeLiveness s) = mkCalls (nextId (calls s) + 1) (waiting (calls s)) (readyWaiters (calls s)) (promises (calls s)).
Proof. unfold PluginWorker.probeLiveness. destruct (_ || _); [by left|by right]. Qed.
Lemma probe_flight s : flight (probeLiveness s) = flight s.
Proof. unfold PluginWorker.probeLiveness. by destruct (_ || _). Qed.
Lemma probe_life s : life (probeLiveness s) = life s.
Proof. unfold PluginWorker.probeLiveness. by destruct (_ || _). Qed.
Lemma probe_caps s : caps (probeLiveness s) = caps s.
Proof. unfold PluginWorker.probeLiveness. by destruct (_ || _). Qed.
Lemma probe_promises s : promises (calls (probeLiveness s)) = promises (calls s).
Proof. by destruct (probe_calls s) as [->| ->]. Qed.
Lemma probe_waiting s : waiting (calls (probeLiveness s)) = waiting (calls s).
Proof. by destruct (probe_calls s) as [->| ->]. Qed.
Lemma probe_readyWaiters s : readyWaiters (calls (probeLiveness s)) = readyWaiters (calls s).
Proof. by destruct (probe_calls s) as [->| ->]. Qed.
Lemma sound_probe s : Sound s -> Sound (probeLiveness s).
Proof.
  intros [HC HD HL]. split; rewrite ?probe_flight, ?probe_life, ?probe_waiting, ?probe_readyWaiters; try done.
  destruct (probe_calls s) as [->| ->]; [done|by apply core_bump].
Qed.

Lemma sound_waiting_alive s k id e : Sound s -> waiting (calls s) !! (k, id) = Some e -> dead (life s) = false.
Proof. intros [_ HD _] H. destruct (dead (life s)); [|done]. by destruct (HD eq_refl) as [E _]; rewrite E in H. Qed.
Lemma sound_waiters_alive s x : Sound s -> x ∈ readyWaiters (calls s) -> dead (life s) = false.
Proof. intros [_ HD _] H. destruct (dead (life s)); [|done]. destruct (HD eq_refl) as [_ E]; rewrite E in H. by apply not_elem_of_nil in H. Qed.

Lemma released_late k id f : (length (lateHookClaims (released k id f)) <= length (lateHookClaims f))%nat.
Proof. destruct k; cbn; try done. unfold release. destruct (unreleased f !! id); cbn; [|done]. apply List.filter_length_le. Qed.

(** A request is answered and leaves. *)
Lemma sound_close s k id e v :
  Sound s -> waiting (calls s) !! (k, id) = Some e ->
  Sound (with_calls (with_flight s (released k id (flight s))) (settle (e_call e) v (remove_entry k id (calls s)))).
Proof.
  intros HS He. pose proof (sound_waiting_alive s k id e HS He) as Hd. destruct HS as [HC HD HL]. split; cbn.
  - change (remove_entry k id (calls s)) with (with_waiting (calls s) (base.delete (k, id) (waiting (calls s)))). rewrite settle_with_waiting. by apply request_closes.
  - congruence.
  - pose proof (released_late k id (flight s)). lia.
Qed.

Lemma settled_again p v c w : promises c !! p = Some (Some w) -> settle p v c = c.
Proof. intros H. unfold settle. by rewrite H. Qed.

Lemma holdLateClaim_sound s id :
  Core (calls s) (mkFlight (inFlightHookEvents (flight s)) (unreleased (flight s)) (lateHookClaims (flight s) ++ [id])%list) -> dead (life s) = false ->
  (length (lateHookClaims (flight s)) <= MAX_LATE_HOOK_CLAIMS)%nat -> Sound (holdLateClaim id s).
Proof.
  intros HC Hd HL. unfold holdLateClaim. cbn. destruct (Nat.leb_spec (length (lateHookClaims (flight s) ++ [id])%list) MAX_LATE_HOOK_CLAIMS) as [Hle|Hgt]; [split; cbn; [done|congruence|done]|].
  destruct (lateHookClaims (flight s) ++ [id])%list as [|oldest l] eqn:El; [cbn in Hgt; lia|].
  assert (exists e, waiting (calls s) !! (KHook, oldest) = Some e /\ e_timer e = false) as (e & He & Ht) by (apply (c_late_of _ _ HC); left).
  pose proof (c_call _ _ HC KHook oldest e He) as Hp. cbn in Hp. rewrite Ht in Hp. destruct Hp as [v Hv].
  assert (is_Some (unreleased (flight s) !! oldest)) as [evs Eu] by (apply (c_dom _ _ HC); by eexists).
  split; cbn; [|congruence|].
  - pose proof (request_closes _ _ KHook oldest e v HC He) as H. by rewrite (settled_again _ _ _ _ Hv) in H.
  - unfold release. cbn. rewrite Eu. cbn. unfold without_id. cbn. rewrite Z.eqb_refl. cbn. pose proof (List.filter_length_le (fun x => negb (x =? oldest)) l). apply (f_equal length) in El. rewrite length_app in El. cbn in El. lia.
Qed.

Lemma sound_hook_timer s id e v :
  Sound s -> waiting (calls s) !! (KHook, id) = Some e -> e_timer e = true ->
  Sound (holdLateClaim id (with_calls s (mkCalls (nextId (settle (e_call e) v (calls s))) (<[(KHook, id) := mkEntry (e_call e) false]> (waiting (settle (e_call e) v (calls s)))) (readyWaiters (settle (e_call e) v (calls s))) (promises (settle (e_call e) v (calls s)))))).
Proof.
  intros HS He Ht. pose proof (sound_waiting_alive s KHook id e HS He) as Hd. destruct HS as [HC _ HL]. apply holdLateClaim_sound; cbn; [|done|done].
  pose proof (core_fire _ _ id e v HC He Ht) as H. unfold with_waiting in H. by rewrite settle_waiting.
Qed.

(** A timer's own order: the entry leaves, the worker is probed, the caller is answered. *)
Lemma sound_settle_probe s p v : Sound (with_calls s (settle p v (calls s))) -> Sound (with_calls (probeLiveness s) (settle p v (calls (probeLiveness s)))).
Proof.
  intros HS%sound_probe. eapply sound_same; [exact HS|..]; cbn; rewrite ?probe_flight, ?probe_life; try done.
  unfold PluginWorker.probeLiveness. cbn. destruct (_ || _); [done|]. cbn. unfold settle. cbn. by destruct (promises (calls s) !! p) as [[]|].
Qed.

Lemma timer_fires_sound s k id : Sound s -> Sound (timer_fires k id s).
Proof.
  intros HS. unfold PluginWorker.timer_fires. destruct (waiting (calls s) !! (k, id)) as [e|] eqn:He; [|done]. destruct (e_timer e) eqn:Ht; cbn [negb]; [|done].
  assert (k <> KHook -> Sound (with_calls s (settle (e_call e) (timeout_answer k) (remove_entry k id (calls s))))) as Hclose.
  { intros Hk. eapply sound_same; [by apply (sound_close s k id e (timeout_answer k))|..]; cbn; try done. by destruct k. }
  destruct k; try (by apply Hclose).
  - apply sound_hook_timer; [by apply sound_probe|by rewrite probe_waiting|done].
  - apply sound_settle_probe. by apply Hclose.
  - apply sound_settle_probe. by apply Hclose.
Qed.

Lemma load_timer_fires_sound s p : Sound s -> Sound (load_timer_fires p s).
Proof.
  intros HS. unfold load_timer_fires. case_bool_decide as Hp; [|done]. pose proof (sound_waiters_alive s _ HS Hp) as Hd. destruct HS as [HC HD HL]. split; cbn; [|congruence|done].
  apply core_waiters; [done|]. apply elem_of_map. by exists (p, true).
Qed.

(** *** Messages and calls *)

Lemma note_progress_same m s : calls (note_progress m s) = calls s /\ flight (note_progress m s) = flight s /\ caps (note_progress m s) = caps s /\ life (note_progress m s) = life s /\ posted (note_progress m s) = posted s.
Proof. unfold note_progress. destruct (progress_kind m); [|done]. by destruct (probe (watch s)). Qed.

Lemma answer_sound k id v s : Sound s -> Sound (answer k id v s).
Proof.
  intros HS. unfold answer. destruct id as [id|]; [|done]. destruct (waiting (calls s) !! (k, id)) as [e|] eqn:He; [|done].
  eapply sound_same; [by apply (sound_close s k id e v)|..]; by destruct k.
Qed.

Lemma settle_waiters_sound v s : Sound s -> Sound (settle_waiters v s).
Proof.
  intros [HC HD HL]. unfold settle_waiters. split; cbn; [by apply core_all_waiters| |done]. intros Hd. destruct (HD Hd) as [Hw ->]. done.
Qed.

Lemma cap_sound id verb inFlight s : Sound s -> Sound (handleCapRequest maxInFlightCaps hasDispatcher id verb inFlight s).
Proof.
  intros HS. eapply sound_same; [exact HS|..]; unfold handleCapRequest, reject_cap; destruct verb as [[]|]; try done; cbn zeta; by repeat case_match.
Qed.

Lemma route_sound m s : Sound s -> Sound (routeMessage cut maxInFlightCaps hasDispatcher m s).
Proof.
  intros HS. destruct (note_progress_same m s) as (Ec & Ef & _ & El & _). assert (Sound (note_progress m s)) as HS' by (eapply sound_same; [exact HS|done..|by rewrite El]).
  unfold routeMessage. destruct m; try (by apply answer_sound); try done.
  - apply settle_waiters_sound. by eapply sound_same; [exact HS'|..].
  - apply settle_waiters_sound. by eapply sound_same; [exact HS'|..].
  - by apply cap_sound.
  - destruct (probe _) as [p|]; [|done]. destruct id as [id|]; [|done]. destruct (p_id p =? id); [|done]. by eapply sound_same; [exact HS'|..].
Qed.

Lemma refuse_sound v s : Sound s -> Sound (refuse v s).
Proof. intros [HC HD HL]. split; cbn; [by apply core_refuse|done|done]. Qed.

Lemma request_sound k timed evs s : k <> KHook -> dead (life s) = false -> Sound s -> Sound (request k timed evs s).
Proof. intros Hk Hd [HC HD HL]. split; cbn; [|congruence|done]. apply (core_request _ (flight s)); [done|done|by destruct k]. Qed.

Lemma dispatch_sound event ancestors s : Sound s -> Sound (dispatchHook event ancestors s).
Proof.
  intros HS. unfold dispatchHook. destruct (dead (life s)) eqn:Hd; [by apply refuse_sound|]. destruct HS as [HC _ HL]. split; cbn; [|congruence|done].
  apply (core_request _ (flight s)); [done|done|]. exists (set_of_list (ancestors ++ [event])%list). split; [|done]. apply NoDup_set_of_list.
Qed.

(** *** The exit *)

Definition drained (s0 s : Host) (l : list (Kind * Z * Entry)) : Host := fold_left (fun t x => drain_entry s0 x t) l s.

Lemma drain_frame s0 x s : life (drain_entry s0 x s) = life s /\ caps (drain_entry s0 x s) = caps s /\ watch (drain_entry s0 x s) = watch s /\ posted (drain_entry s0 x s) = posted s /\
  readyWaiters (calls (drain_entry s0 x s)) = readyWaiters (calls s).
Proof. destruct x as [[k id] e]. unfold drain_entry. destruct k; cbn; by rewrite settle_waiters_same. Qed.
Lemma drain_all_frame s0 l : forall s, life (drained s0 s l) = life s /\ caps (drained s0 s l) = caps s /\ watch (drained s0 s l) = watch s /\ posted (drained s0 s l) = posted s /\
  readyWaiters (calls (drained s0 s l)) = readyWaiters (calls s).
Proof.
  induction l as [|x l IH]; intros s; [done|]. cbn. specialize (IH (drain_entry s0 x s)). unfold drained in IH. destruct (drain_frame s0 x s) as (E1 & E2 & E3 & E4 & E5). by rewrite E1, E2, E3, E4, E5 in IH.
Qed.
Lemma drained_late s0 l : forall s, (length (lateHookClaims (flight (drained s0 s l))) <= length (lateHookClaims (flight s)))%nat.
Proof.
  induction l as [|[[k id] e] l IH]; intros s; [done|]. cbn [drained fold_left]. etrans; [apply IH|]. destruct k; cbn [drain_entry]; try done. apply (released_late KHook).
Qed.

Lemma drained_core s0 : forall l s, NoDup (l.*1) -> Core (with_waiting (calls s) (list_to_map l)) (flight s) -> Core (with_waiting (calls (drained s0 s l)) ∅) (flight (drained s0 s l)).
Proof.
  induction l as [|[[k id] e] l IH]; intros s Hn HC; [done|]. cbn in Hn. apply NoDup_cons in Hn as [Hk Hn]. cbn [drained fold_left]. apply IH; [done|].
  pose proof (request_closes _ _ k id e (exit_answer k s0) HC) as H. cbn in H. specialize (H (lookup_insert_eq _ _ _)). rewrite delete_insert_id in H by (by apply not_elem_of_list_to_map_1).
  rewrite settle_with_waiting in H. destruct k; exact H.
Qed.

(** A host whose worker is gone owes nothing. *)
Lemma exit_empty s : waiting (calls (handleExit s)) = ∅ /\ readyWaiters (calls (handleExit s)) = [].
Proof.
  unfold handleExit. set (s1 := settle_waiters _ _). cbn. split; [done|]. pose proof (drain_all_frame s1 (map_to_list (waiting (calls s1))) s1) as (_ & _ & _ & _ & E). etrans; [exact E|].
  unfold s1, settle_waiters. cbn. generalize (readyWaiters (calls s)) as l. intros l. set (c := mkCalls _ _ _ _). assert (readyWaiters c = []) as Hc by done. revert Hc. generalize c.
  induction l as [|w l IH]; intros c' Hc; [done|]. cbn. apply IH. by rewrite settle_waiters_same.
Qed.
Lemma exit_sound s : Sound s -> Sound (handleExit s).
Proof.
  intros [HC HD HL]. split; [|intros _; apply exit_empty|].
  - unfold handleExit. set (s1 := settle_waiters _ _). assert (Core (calls s1) (flight s1)) as HC1 by (by apply core_all_waiters).
    apply (drained_core s1 _ s1); [apply NoDup_fst_map_to_list|]. rewrite list_to_map_to_list. unfold with_waiting. by destruct (calls s1).
  - unfold handleExit. set (s1 := settle_waiters _ _). etrans; [apply (drained_late s1)|]. done.
Qed.

Lemma new_sound : Sound new_host.
Proof.
  split; cbn; [|done|lia]. split; cbn; try (intros *; rewrite ?lookup_empty; done); try (by constructor).
  - by intros p t ?%not_elem_of_nil.
  - intros i. setoid_rewrite lookup_empty. split; [by intros ?%not_elem_of_nil|by intros (? & ? & _)].
Qed.

Theorem step_sound ev s : Sound s -> Sound (step ev s).
Proof.
  intros HS. destruct ev; cbn [PluginWorker.step].
  - by apply dispatch_sound.
  - unfold dispatchWebhook. destruct (dead (life s)) eqn:Hd; [by apply refuse_sound|by apply request_sound].
  - unfold dispatchSearch. destruct (dead (life s)) eqn:Hd; [by apply refuse_sound|by apply request_sound].
  - unfold load. destruct (dead (life s)) eqn:Hd; [by apply refuse_sound|]. destruct (ready (life s)); [by apply refuse_sound|].
    destruct HS as [HC _ HL]. split; cbn; [by apply core_load|congruence|done].
  - unfold runLifecycle. destruct (dead (life s)) eqn:Hd; [by apply refuse_sound|by apply request_sound].
  - unfold sendConfigChange. destruct (dead (life s)); [done|]. by eapply sound_same; [exact HS|..].
  - unfold healthCheck. destruct (dead (life s)) eqn:Hd; [by apply refuse_sound|by apply request_sound].
  - by eapply sound_same; [exact HS|..].
  - by apply route_sound.
  - by apply timer_fires_sound.
  - by apply load_timer_fires_sound.
  - eapply sound_same; [exact HS|..]; unfold verdict; repeat case_match; done.
  - eapply sound_same; [exact HS|..]; unfold cap_settles; repeat case_match; done.
  - eapply sound_same; [exact HS|..]; unfold cap_times_out; repeat case_match; done.
  - by apply exit_sound.
Qed.

Lemma run_invariant (P : Host -> Prop) : P new_host -> (forall ev s, P s -> P (step ev s)) -> forall s, reachable s -> P s.
Proof.
  intros H0 HP s [l <-]. unfold run_events. revert H0. generalize new_host as h. induction l as [|ev l IH]; intros h Hh; [done|]. cbn. by apply IH, HP.
Qed.
Lemma reachable_sound s : reachable s -> Sound s.
Proof. apply run_invariant; [apply new_sound|]. intros. by apply step_sound. Qed.

(** ** Promises settle once *)

Definition grows (c c' : Calls) : Prop := forall p x, promises c !! p = Some x -> exists y, promises c' !! p = Some y /\ (x <> None -> y = x).
#[local] Instance grows_preorder : PreOrder grows.
Proof.
  split; [by intros c p x ->; eexists|]. intros c1 c2 c3 H12 H23 p x Hx. destruct (H12 p x Hx) as (y & Hy & Exy). destruct (H23 p y Hy) as (z & Hz & Eyz). exists z. split; [done|].
  intros Hn. specialize (Exy Hn). subst. by apply Eyz.
Qed.
Lemma grows_eq c c' : promises c' = promises c -> grows c c'.
Proof. intros E p x Hx. exists x. by rewrite E. Qed.
Lemma grows_settle p v c c' : grows c c' -> grows c (settle p v c').
Proof.
  intros H. etrans; [exact H|]. intros q x Hx. rewrite settle_lookup. destruct (decide (q = p)) as [->|]; [|by eexists]. rewrite Hx. destruct x; by eexists.
Qed.
Lemma grows_push c c' x : promises c' = (promises c ++ [x])%list -> grows c c'.
Proof. intros E p y Hy. exists y. rewrite E. split; [by apply lookup_app_l_Some|done]. Qed.
Lemma grows_waiters v l : forall c c', grows c c' -> grows c (fold_left (fun c (w : nat * bool) => settle (fst w) v c) l c').
Proof. induction l as [|w l IH]; intros c c' H; [done|]. cbn. by apply IH, grows_settle. Qed.
Lemma grows_drained s0 l : forall s, grows (calls s) (calls (drained s0 s l)).
Proof.
  induction l as [|[[k id] e] l IH]; intros s; [done|]. cbn [drained fold_left]. etrans; [|apply IH]. destruct k; cbn; by apply grows_settle.
Qed.

Lemma step_grows ev s : grows (calls s) (calls (step ev s)).
Proof.
  assert (forall k timed evs, grows (calls s) (calls (request k timed evs s))) as Hreq by (intros; by eapply grows_push).
  assert (forall v, grows (calls s) (calls (refuse v s))) as Href by (intros; by eapply grows_push).
  assert (forall k id v t, promises (calls t) = promises (calls s) -> grows (calls s) (calls (answer k id v t))) as Hans.
  { intros k id v t E. unfold answer. destruct id as [id|]; [|by apply grows_eq]. destruct (waiting (calls t) !! (k, id)) as [e|]; [|by apply grows_eq]. cbn. apply grows_settle, grows_eq. by destruct k. }
  destruct ev; cbn [PluginWorker.step]; try done.
  - unfold dispatchHook. destruct (dead (life s)); [done|]. by eapply grows_push.
  - unfold dispatchWebhook. by destruct (dead (life s)).
  - unfold dispatchSearch. by destruct (dead (life s)).
  - unfold load. destruct (dead (life s)); [done|]. destruct (ready (life s)); [done|]. by eapply grows_push.
  - unfold runLifecycle. by destruct (dead (life s)).
  - unfold sendConfigChange. by destruct (dead (life s)).
  - unfold healthCheck. by destruct (dead (life s)).
  - destruct (note_progress_same m s) as (Ec & _). unfold routeMessage. destruct m; try (apply Hans; by rewrite Ec); cbn; try done.
    + by apply grows_waiters, grows_eq.
    + by apply grows_waiters, grows_eq.
    + apply grows_eq. unfold handleCapRequest, reject_cap. destruct verb as [[]|]; try done. by repeat case_match.
    + apply grows_eq. by repeat case_match.
  - unfold PluginWorker.timer_fires. destruct (waiting (calls s) !! (k, id)) as [e|]; [|done]. destruct (negb (e_timer e)); [done|].
    destruct k; cbn; try (by apply grows_settle, grows_eq).
    + transitivity (settle (e_call e) hook_open (calls (probeLiveness s))); [apply grows_settle, grows_eq, probe_promises|]. unfold holdLateClaim. cbn. repeat case_match; by apply grows_eq.
    + apply grows_settle, grows_eq. by rewrite probe_promises.
    + apply grows_settle, grows_eq. by rewrite probe_promises.
  - unfold load_timer_fires. case_bool_decide; [|done]. cbn. by apply grows_settle, grows_eq.
  - unfold verdict. apply grows_eq. repeat case_match; done.
  - unfold cap_settles. apply grows_eq. repeat case_match; done.
  - unfold cap_times_out. apply grows_eq. repeat case_match; done.
  - unfold handleExit. set (s1 := settle_waiters _ _). transitivity (calls s1); [by apply grows_waiters, grows_eq|]. etrans; [apply (grows_drained s1 (map_to_list (waiting (calls s1))))|]. by apply grows_eq.
Qed.

Lemma waiters_settled v p t l : forall c, (p, t) ∈ l -> promises c !! p = Some None -> promises (fold_left (fun c (w : nat * bool) => settle (fst w) v c) l c) !! p = Some (Some v).
Proof.
  induction l as [|[q u] l IH]; intros c Hin Hp; [by apply not_elem_of_nil in Hin|]. cbn. destruct (decide (q = p)) as [->|Hq].
  - destruct (grows_waiters v l _ _ (reflexivity (settle p v c)) p (Some v)) as (y & Hy & E); [by rewrite settle_lookup, decide_True, Hp|]. rewrite Hy. f_equal. by apply E.
  - apply IH; [|by rewrite settle_lookup, decide_False]. apply elem_of_cons in Hin as [[= <- <-]|?]; done.
Qed.
Lemma waiters_others v p l : forall c, (forall t, (p, t) ∉ l) -> promises c !! p = Some None ->
  waiting (fold_left (fun c (w : nat * bool) => settle (fst w) v c) l c) = waiting c /\ promises (fold_left (fun c (w : nat * bool) => settle (fst w) v c) l c) !! p = Some None.
Proof.
  induction l as [|[q t] l IH]; intros c Hl Hc; [done|]. cbn. rewrite <- (settle_waiting q v c). apply IH; [intros t' Ht; apply (Hl t'); by right|].
  rewrite settle_lookup, decide_False; [done|]. intros E. apply (Hl t). rewrite E. left.
Qed.
Lemma drained_settled s0 k id e l : forall s, (k, id, e) ∈ l -> promises (calls s) !! e_call e = Some None ->
  (forall k' id' e', (k', id', e') ∈ l -> e_call e' = e_call e -> k' = k) -> promises (calls (drained s0 s l)) !! e_call e = Some (Some (exit_answer k s0)).
Proof.
  induction l as [|[[k' id'] e'] l IH]; intros s Hin Hp Hk; [by apply not_elem_of_nil in Hin|]. cbn [drained fold_left].
  assert (forall q, promises (calls (drain_entry s0 (k', id', e') s)) !! q = promises (settle (e_call e') (exit_answer k' s0) (calls s)) !! q) as Hd by (intros; by destruct k').
  destruct (decide (e_call e' = e_call e)) as [E|E].
  - pose proof (Hk k' id' e' ltac:(left) E) as ->. destruct (grows_drained s0 l (drain_entry s0 (k, id', e') s) (e_call e) (Some (exit_answer k s0))) as (y & Hy & Ey).
    { rewrite Hd, settle_lookup, E, decide_True, Hp; done. }
    etrans; [exact Hy|]. f_equal. by apply Ey.
  - apply IH; [|by rewrite Hd, settle_lookup, decide_False|].
    + apply elem_of_cons in Hin as [[= <- <- <-]|?]; done.
    + intros. eapply Hk; [right|]; done.
Qed.

Lemma timer_settles s k id e :
  Sound s -> waiting (calls s) !! (k, id) = Some e -> e_timer e = true -> promises (calls s) !! e_call e = Some None ->
  promises (calls (timer_fires k id s)) !! e_call e = Some (Some (timeout_answer k)).
Proof.
  intros HS He Ht Hp. unfold PluginWorker.timer_fires. rewrite He, Ht. cbn [negb]. destruct k; cbn; try (rewrite settle_lookup, decide_True by done; cbn; rewrite ?probe_promises; cbn; by rewrite Hp).
  unfold holdLateClaim. cbn. assert (promises (settle (e_call e) hook_open (calls (probeLiveness s))) !! e_call e = Some (Some hook_open)) as H by (rewrite settle_lookup, decide_True, probe_promises, Hp; done).
  repeat case_match; exact H.
Qed.

Lemma exit_settles s k id e :
  Sound s -> waiting (calls s) !! (k, id) = Some e -> promises (calls s) !! e_call e = Some None -> promises (calls (handleExit s)) !! e_call e = Some (Some (exit_answer k s)).
Proof.
  intros [HC _ _] He Hp. unfold handleExit. set (s1 := settle_waiters _ _).
  assert (waiting (calls s1) = waiting (calls s) /\ promises (calls s1) !! e_call e = Some None) as [Hw Hp1].
  { apply (waiters_others _ _ (readyWaiters (calls s)) (mkCalls (nextId (calls s)) (waiting (calls s)) [] (promises (calls s)))); [|done]. intros t. by apply (c_apart _ _ HC k id). }
  etrans; [apply (drained_settled s1 k id e (map_to_list (waiting (calls s1))) s1)|].
  - apply elem_of_map_to_list. by rewrite Hw.
  - done.
  - intros k' id' e' Hin Ecall. apply elem_of_map_to_list in Hin. rewrite Hw in Hin. pose proof (c_inj _ _ HC k' id' e' k id e Hin He Ecall) as [= -> ->]. done.
  - done.
Qed.

(** C32. A caller the host has not answered waits on a worker that is alive, behind exactly one
    request of its own: the request's timer answers it with the failure of its kind, and
    the worker's exit answers it with the failure that exit means; a caller of [load] is
    answered by the worker's [ready], by its timer and by the exit. *)
Theorem no_call_is_left_waiting s p :
  reachable s -> promises (calls s) !! p = Some None ->
  dead (life s) = false /\
  ((exists k id e, waiting (calls s) !! (k, id) = Some e /\ e_call e = p /\
     (e_timer e = true -> promises (calls (step (TimerFires k id) s)) !! p = Some (Some (timeout_answer k))) /\
     promises (calls (step Exit s)) !! p = Some (Some (exit_answer k s))) \/
   (exists timed, (p, timed) ∈ readyWaiters (calls s) /\
     (timed = true -> promises (calls (step (LoadTimerFires p) s)) !! p = Some (Some (Done (Err "plugin worker load timed out")))) /\
     promises (calls (step (Message MReady) s)) !! p = Some (Some (Done (Ok tt))) /\
     promises (calls (step Exit s)) !! p = Some (Some (Done (Err (exit_error s)))))).
Proof.
  intros HS%reachable_sound Hp. destruct (c_owner _ _ (s_core _ HS) p Hp) as [(k & id & e & He & <- & _)|(t & Hw)].
  - split; [by eapply sound_waiting_alive|]. left. exists k, id, e. do 2 (split; [done|]). split; [intros; by apply timer_settles|by apply exit_settles with id].
  - split; [by eapply sound_waiters_alive|]. right. exists t. split; [done|]. split; [|split].
    + intros ->. cbn. unfold load_timer_fires. rewrite bool_decide_eq_true_2 by done. cbn. rewrite settle_lookup, decide_True by done. cbn. by rewrite Hp.
    + cbn. by eapply waiters_settled.
    + cbn. unfold handleExit. set (s1 := settle_waiters _ _). destruct (grows_drained s1 (map_to_list (waiting (calls s1))) s1 p (Some (Done (Err (exit_error s))))) as (y & Hy & E); [by eapply waiters_settled|].
      etrans; [exact Hy|]. f_equal. by apply E.
Qed.

(** The request a message of the worker answers, and with what. *)
Definition answers_of (m : WorkerMessage) : option (Kind * Z * Settlement) :=
  match m with
  | MLifecycleResult (Some id) ok error => Some (KLifecycle, id, Done (if ok then Ok tt else Err (workerText cut error)))
  | MHookResult (Some id) continue data error => Some (KHook, id, HookDone continue data (nullable_text cut error))
  | MWebhookResult (Some id) status headers body error =>
      Some (KWebhook, id, WebhookDone (is_null error) status headers body (if is_null error then None else Some (workerText cut error)))
  | MHealthResult (Some id) healthy message => Some (KHealth, id, HealthDone (match healthy with Some (JBool true) => true | _ => false end) (nullable_text cut message))
  | MSearchResult (Some id) ok results error => Some (KSearch, id, SearchDone (if ok then Ok results else Err (workerText cut error)))
  | _ => None
  end.
Lemma answer_promises k id v s t :
  Sound s -> calls t = calls s -> 
  promises (calls (answer k (Some id) v t)) = match waiting (calls s) !! (k, id) with Some e => if open k e then <[e_call e := Some v]> (promises (calls s)) else promises (calls s) | None => promises (calls s) end
  /\ waiting (calls (answer k (Some id) v t)) = base.delete (k, id) (waiting (calls s)).
Proof.
  intros [HC _ _] Ec. cbn. rewrite Ec. destruct (waiting (calls s) !! (k, id)) as [e|] eqn:He; [|by rewrite Ec, delete_id].
  assert (forall t', calls t' = remove_entry k id (calls s) -> promises (calls (with_calls t' (settle (e_call e) v (calls t')))) = (if open k e then <[e_call e := Some v]> (promises (calls s)) else promises (calls s)) /\
    waiting (calls (with_calls t' (settle (e_call e) v (calls t')))) = base.delete (k, id) (waiting (calls s))) as H.
  { intros t' Et. cbn. rewrite Et, settle_waiting. split; [|done]. unfold settle. cbn. pose proof (c_call _ _ HC k id e He) as Hp. destruct (open k e); [by rewrite Hp|]. destruct Hp as [w Hw]. by rewrite Hw. }
  apply H. by destruct k; cbn; rewrite ?Ec.
Qed.

(** A message settles at most the one call that made the request it names, with what it
    says; it is spent by doing so; and what a caller was answered never changes. *)
Theorem an_answer_settles_its_own_call s m k id v :
  reachable s -> answers_of m = Some (k, id, v) ->
  promises (calls (step (Message m) s)) =
    match waiting (calls s) !! (k, id) with
    | Some e => if open k e then <[e_call e := Some v]> (promises (calls s)) else promises (calls s)
    | None => promises (calls s)
    end /\
  waiting (calls (step (Message m) s)) = base.delete (k, id) (waiting (calls s)) /\
  forall ev p w, promises (calls s) !! p = Some (Some w) -> promises (calls (step ev s)) !! p = Some (Some w).
Proof.
  intros HS%reachable_sound Hm. destruct (note_progress_same m s) as (Ec & _). apply Logic.and_assoc. split.
  - destruct m as [| |[i|]| | |[i|]|[i|]|[i|]|[i|]| |]; cbn in Hm; try done; injection Hm as <- <- <-; cbn [PluginWorker.step]; unfold routeMessage; by apply answer_promises.
  - intros ev p w Hw. destruct (step_grows ev s p (Some w) Hw) as (y & Hy & E). rewrite Hy. f_equal. by apply E.
Qed.

(** ** The guard of a capability call *)

Definition told (s : Host) : Prop := forall id evs, unreleased (flight s) !! id = Some evs -> PRequest KHook id evs ∈ posted s.

Lemma release_sub i f id evs : unreleased (release i f) !! id = Some evs -> unreleased f !! id = Some evs.
Proof. rewrite release_unreleased. by destruct (decide (id = i)). Qed.
Lemma drained_sub s0 l : forall s id evs, unreleased (flight (drained s0 s l)) !! id = Some evs -> unreleased (flight s) !! id = Some evs.
Proof.
  induction l as [|[[k i] e] l IH]; intros s id evs H; [done|]. cbn [drained fold_left] in H. apply IH in H. destruct k; try exact H. cbn in H. by apply release_sub in H.
Qed.
Lemma probe_posted s : posted (probeLiveness s) = posted s \/ posted (probeLiveness s) = (posted s ++ [PPing (nextId (calls s))])%list.
Proof. unfold PluginWorker.probeLiveness. destruct (_ || _); [by left|by right]. Qed.

Lemma told_step s s' : told s -> (forall id evs, unreleased (flight s') !! id = Some evs -> unreleased (flight s) !! id = Some evs) -> (forall m, m ∈ posted s -> m ∈ posted s') -> told s'.
Proof. intros H Hu Hp id evs ?%Hu. by apply Hp, H. Qed.

(** What a step that is no capability call does to them. *)
Definition result_id (m : HostMessage) : option json := match m with PCapResult id _ => Some id | _ => None end.
Definition quiet (s s' : Host) : Prop := caps s' = caps s /\ omap result_id (posted s') = omap result_id (posted s).
#[local] Instance quiet_preorder : PreOrder quiet.
Proof. split; [done|]. intros s1 s2 s3 [E1 E2] [E3 E4]. split; congruence. Qed.
Definition is_cap (ev : Event) : bool := match ev with Message (MCap _ _ _) | CapSettles _ _ | CapTimesOut _ => true | _ => false end.

Lemma quiet_post s s' m : caps s' = caps s -> posted s' = (posted s ++ [m])%list -> result_id m = None -> quiet s s'.
Proof. intros Hc E Hm. split; [done|]. rewrite E, omap_app. cbn. rewrite Hm. cbn. by rewrite app_nil_r. Qed.
Lemma quiet_probe s : quiet s (probeLiveness s).
Proof. destruct (probe_posted s) as [E|E]; [split; [apply probe_caps|by rewrite E]|]. by eapply quiet_post; [apply probe_caps|exact E|]. Qed.
Lemma holdLate_same id s : caps (holdLateClaim id s) = caps s /\ posted (holdLateClaim id s) = posted s /\ watch (holdLateClaim id s) = watch s /\ life (holdLateClaim id s) = life s.
Proof. unfold holdLateClaim. cbn. repeat case_match; done. Qed.

Lemma step_quiet ev s : is_cap ev = false -> quiet s (step ev s).
Proof.
  intros Hev. destruct ev; try done; cbn [PluginWorker.step].
  - unfold dispatchHook. destruct (dead (life s)); [done|]. by eapply quiet_post.
  - unfold dispatchWebhook. destruct (dead (life s)); [done|]. by eapply quiet_post.
  - unfold dispatchSearch. destruct (dead (life s)); [done|]. by eapply quiet_post.
  - unfold load. destruct (dead (life s)); [done|]. destruct (ready (life s)); [done|]. by eapply quiet_post.
  - unfold runLifecycle. destruct (dead (life s)); [done|]. by eapply quiet_post.
  - unfold sendConfigChange. destruct (dead (life s)); [done|]. by eapply quiet_post.
  - unfold healthCheck. destruct (dead (life s)); [done|]. by eapply quiet_post.
  - assert (forall k id v t, quiet t (answer k id v t)) as Hans by (intros k id v t; unfold answer; repeat case_match; done).
    destruct (note_progress_same m s) as (_ & _ & Ec & _ & Ep). assert (quiet s (note_progress m s)) as Hn by (unfold quiet; by rewrite Ec, Ep). unfold routeMessage.
    destruct m; try done; try (etrans; [exact Hn|apply Hans]). by repeat case_match.
  - unfold PluginWorker.timer_fires. destruct (waiting (calls s) !! (k, id)) as [e|]; [|done]. destruct (negb (e_timer e)); [done|]. destruct k; try done.
    + destruct (holdLate_same id (with_calls (probeLiveness s) (mkCalls (nextId (settle (e_call e) hook_open (calls (probeLiveness s)))) (<[(KHook, id):=mkEntry (e_call e) false]> (waiting (settle (e_call e) hook_open (calls (probeLiveness s))))) (readyWaiters (settle (e_call e) hook_open (calls (probeLiveness s)))) (promises (settle (e_call e) hook_open (calls (probeLiveness s))))))) as (E1 & E2 & _).
      destruct (quiet_probe s) as [E3 E4]. split; [by rewrite E1|by rewrite E2].
    + apply (quiet_probe (with_calls s _)).
    + apply (quiet_probe (with_calls s _)).
  - unfold load_timer_fires. case_bool_decide; done.
  - unfold verdict. repeat case_match; done.
  - unfold handleExit. set (s1 := settle_waiters _ _). destruct (drain_all_frame s1 (map_to_list (waiting (calls s1))) s1) as (_ & E1 & _ & E2 & _). split; cbn; [exact E1|]. by apply (f_equal (omap result_id)) in E2.
Qed.

Lemma probe_posts s m : m ∈ posted s -> m ∈ posted (probeLiveness s).
Proof. intros Hm. destruct (probe_posted s) as [->| ->]; [done|]. apply elem_of_app. by left. Qed.
Lemma post_posts s x m : m ∈ posted s -> m ∈ posted (post s x).
Proof. intros Hm. apply elem_of_app. by left. Qed.
#[local] Hint Resolve post_posts probe_posts : core.

Lemma step_posts ev s m : m ∈ posted s -> m ∈ posted (step ev s).
Proof.
  intros Hm. destruct ev; cbn [PluginWorker.step]; try done.
  - unfold dispatchHook. destruct (dead (life s)); [done|]. by apply post_posts.
  - unfold dispatchWebhook. destruct (dead (life s)); [done|]. by apply post_posts.
  - unfold dispatchSearch. destruct (dead (life s)); [done|]. by apply post_posts.
  - unfold load. destruct (dead (life s)); [done|]. destruct (ready (life s)); [done|]. by apply post_posts.
  - unfold runLifecycle. destruct (dead (life s)); [done|]. by apply post_posts.
  - unfold sendConfigChange. destruct (dead (life s)); [done|]. by apply post_posts.
  - unfold healthCheck. destruct (dead (life s)); [done|]. by apply post_posts.
  - destruct (note_progress_same m0 s) as (_ & _ & _ & _ & Ep). rewrite <- Ep in Hm. unfold routeMessage. destruct m0; try done; try (unfold answer; by repeat case_match).
    unfold handleCapRequest, reject_cap. repeat case_match; try done; by apply post_posts.
  - unfold PluginWorker.timer_fires. destruct (waiting (calls s) !! (k, id)) as [e|]; [|done]. destruct (negb (e_timer e)); [done|]. destruct k; try done.
    + match goal with |- context [holdLateClaim ?i ?t] => destruct (holdLate_same i t) as (_ & E & _) end. rewrite E. by apply probe_posts.
    + by apply probe_posts.
    + by apply probe_posts.
  - unfold load_timer_fires. by case_bool_decide.
  - unfold verdict. by repeat case_match.
  - unfold cap_settles, end_cap. repeat case_match; try done; by apply post_posts.
  - unfold cap_times_out, end_cap. repeat case_match; try done; by apply post_posts.
  - unfold handleExit. set (s1 := settle_waiters _ _). destruct (drain_all_frame s1 (map_to_list (waiting (calls s1))) s1) as (_ & _ & _ & E & _). assert (m ∈ posted (drained s1 s1 (map_to_list (waiting (calls s1))))) as H by (by rewrite E). exact H.
Qed.

Lemma hold_sub i s id evs : unreleased (flight (holdLateClaim i s)) !! id = Some evs -> unreleased (flight s) !! id = Some evs.
Proof. unfold holdLateClaim. cbn. repeat case_match; cbn; try done. intros H'%release_sub. exact H'. Qed.

Lemma step_unreleased ev s id evs :
  unreleased (flight (step ev s)) !! id = Some evs -> unreleased (flight s) !! id = Some evs \/ PRequest KHook id evs ∈ posted (step ev s).
Proof.
  destruct ev; cbn [PluginWorker.step]; try (by left).
  - unfold dispatchHook. destruct (dead (life s)); [by left|]. cbn. intros [[<- <-]|[_ H]]%lookup_insert_Some; [right|by left]. apply elem_of_app. right. by apply list_elem_of_singleton.
  - unfold dispatchWebhook. destruct (dead (life s)); by left.
  - unfold dispatchSearch. destruct (dead (life s)); by left.
  - unfold load. destruct (dead (life s)); [by left|]. destruct (ready (life s)); by left.
  - unfold runLifecycle. destruct (dead (life s)); by left.
  - unfold sendConfigChange. destruct (dead (life s)); by left.
  - unfold healthCheck. destruct (dead (life s)); by left.
  - intros H. left. destruct (note_progress_same m s) as (_ & Ef & _). rewrite <- Ef. unfold routeMessage in H. destruct m; try exact H; try (unfold answer in H; repeat case_match; try done; cbn in H; try done; by apply release_sub in H).
    unfold handleCapRequest, reject_cap in H. by repeat case_match.
  - intros H. left. unfold PluginWorker.timer_fires in H. destruct (waiting (calls s) !! (k, id0)) as [e|]; [|done]. destruct (negb (e_timer e)); [done|]. destruct k; cbn in H; try done; try by rewrite probe_flight in H.
    apply hold_sub in H. cbn in H. by rewrite probe_flight in H.
  - unfold load_timer_fires. case_bool_decide; by left.
  - unfold verdict. repeat case_match; by left.
  - unfold cap_settles, end_cap. repeat case_match; by left.
  - unfold cap_times_out, end_cap. repeat case_match; by left.
  - unfold handleExit. set (s1 := settle_waiters _ _). intros H. left. by apply (drained_sub s1 (map_to_list (waiting (calls s1))) s1) in H.
Qed.

Lemma reachable_told s : reachable s -> told s.
Proof.
  apply run_invariant; [intros id evs H; cbn in H; by rewrite lookup_empty in H|]. intros ev t H id evs [Hu|?]%step_unreleased; [|done]. apply step_posts. by apply H.
Qed.

Lemma guard_of_own l f : (forall e, e ∈ l -> is_Some (inFlightHookEvents f !! e)) -> guard_of (Some (JArr (map JStr l))) f = l.
Proof.
  intros H. cbn. induction l as [|e l IH]; [done|]. cbn. rewrite bool_decide_eq_true_2 by (apply H; left). cbn. f_equal. apply IH. intros e' He. apply H. by right.
Qed.
Lemma guard_of_flying claim f ev : ev ∈ guard_of claim f -> is_Some (inFlightHookEvents f !! ev).
Proof.
  unfold guard_of. destruct claim as [[]|]; try by intros ?%elem_of_nil. intros (v & _ & Hv)%list_elem_of_omap. destruct v; try done. by case_bool_decide; simplify_eq.
Qed.
Lemma msum_pos_exists ev (m : gmap Z (list string)) : msum (claims ev) m <> 0 -> exists id l, m !! id = Some l /\ ev ∈ l.
Proof.
  induction m as [|i l m Hi IH] using map_ind; [by rewrite msum_empty|]. rewrite msum_new by done. intros H. unfold claims in H at 1. case_bool_decide as Hev.
  - exists i, l. by rewrite lookup_insert_eq.
  - destruct IH as (id & l' & Hl & He); [lia|]. exists id, l'. split; [|done]. rewrite lookup_insert_ne; [done|]. congruence.
Qed.

(** The events a capability call runs guarded against: all those of the hook dispatch it
    echoes, whose chain the worker was told, and never an event outside a dispatch still
    unanswered.  A dispatch keeps its guard while the worker has not answered it: its own
    time limit does not end it, except for the oldest when more than 32 are late. *)
Theorem capability_guard_is_exact s :
  reachable s ->
  (forall id evs, unreleased (flight s) !! id = Some evs ->
     is_Some (waiting (calls s) !! (KHook, id)) /\ PRequest KHook id evs ∈ posted s /\ guard_of (Some (JArr (map JStr evs))) (flight s) = evs) /\
  (forall claim ev, ev ∈ guard_of claim (flight s) -> exists id evs, unreleased (flight s) !! id = Some evs /\ ev ∈ evs) /\
  (length (lateHookClaims (flight s)) <= 32)%nat /\
  (forall k id, (length (lateHookClaims (flight s)) < 32)%nat -> unreleased (flight (step (TimerFires k id) s)) = unreleased (flight s)).
Proof.
  intros Hr. pose proof (reachable_told s Hr) as Htold. destruct (reachable_sound s Hr) as [HC HD HL]. split; [|split; [|split; [exact HL|]]].
  - intros id evs Hu. split; [apply (c_dom _ _ HC); by eexists|]. split; [by apply Htold|]. apply guard_of_own. intros e He.
    destruct (count_pos _ e _ evs (c_count _ _ HC)) as (n & Hn & _); [by exists id|by exists n].
  - intros claim ev [n Hn]%guard_of_flying. rewrite (c_count _ _ HC) in Hn. apply msum_pos_exists. intros E. unfold counted in Hn. by rewrite E in Hn.
  - intros k id Hlt. cbn [PluginWorker.step]. unfold PluginWorker.timer_fires. destruct (waiting (calls s) !! (k, id)) as [e|]; [|done]. destruct (negb (e_timer e)); [done|]. destruct k; cbn; rewrite ?probe_flight; try done.
    unfold holdLateClaim. cbn. rewrite !probe_flight, length_app. cbn. destruct (Nat.leb_spec (length (lateHookClaims (flight s)) + 1) MAX_LATE_HOOK_CLAIMS) as [|Hgt]; [done|]. unfold MAX_LATE_HOOK_CLAIMS in Hgt. lia.
Qed.

(** ** The bound on capability calls *)

Definition running (x : json * CapStage) : bool := match snd x with Running _ _ => true | _ => false end.
Definition answered (x : json * CapStage) : option json := match snd x with Running _ _ => None | Answered _ => Some (fst x) end.
Definition asked (ev : Event) : option json := match ev with Message (MCap id _ _) => Some id | _ => None end.
Definition in_flight (l : list (json * CapStage)) : Z := Z.of_nat (length (List.filter running l)).

Record Bounded (evs : list Event) (s : Host) : Prop := mkBounded {
  b_asked : map fst (capCalls (caps s)) = omap asked evs;
  b_count : inFlightCaps (caps s) = in_flight (capCalls (caps s));
  b_max : forall n, maxInFlightCaps = Some n -> inFlightCaps (caps s) <= Z.max 0 n;
  b_answered : omap result_id (posted s) ≡ₚ omap answered (capCalls (caps s))
}.

Lemma in_flight_snoc l x : in_flight (l ++ [x])%list = in_flight l + (if running x then 1 else 0).
Proof. unfold in_flight. rewrite List.filter_app, length_app. cbn. destruct (running x); cbn; lia. Qed.
Lemma in_flight_insert n l x y : l !! n = Some x -> in_flight (<[n := y]> l) = in_flight l - (if running x then 1 else 0) + (if running y then 1 else 0).
Proof.
  intros H. rewrite <- (take_drop_middle l n x H) at 2. rewrite (insert_take_drop l n y) by (by eapply lookup_lt_Some).
  unfold in_flight. rewrite !List.filter_app, !length_app. cbn. destruct (running x), (running y); cbn; lia.
Qed.
Lemma answered_insert n l x y : l !! n = Some x -> answered x = None -> forall id, answered y = Some id -> omap answered (<[n := y]> l) ≡ₚ id :: omap answered l.
Proof.
  intros H Hx id Hy. rewrite <- (take_drop_middle l n x H) at 2. rewrite (insert_take_drop l n y) by (by eapply lookup_lt_Some).
  rewrite !omap_app. cbn. rewrite Hx, Hy. by rewrite <- Permutation_middle.
Qed.
Lemma fst_insert n (l : list (json * CapStage)) id st st' : l !! n = Some (id, st) -> map fst (<[n := (id, st')]> l) = map fst l.
Proof. intros H. rewrite list_fmap_insert. cbn. apply list_insert_id. by rewrite list_lookup_fmap, H. Qed.

Lemma omap_snoc {A B : Type} (f : A -> option B) l x : omap f (l ++ [x])%list = (omap f l ++ match f x with Some y => [y] | None => [] end)%list.
Proof. rewrite omap_app. cbn. by destruct (f x). Qed.

(** A call ends: its slot is given back and it is answered. *)
Lemma bounded_end evs ev s n id verb guard late r :
  asked ev = None -> Bounded evs s -> capCalls (caps s) !! n = Some (id, Running verb guard) -> Bounded (evs ++ [ev])%list (end_cap n id late r s).
Proof.
  intros Hev [Ha Hc Hm Hp] Hn. split; cbn.
  - rewrite (fst_insert _ _ _ _ _ Hn), omap_snoc, Hev, app_nil_r. done.
  - rewrite (in_flight_insert _ _ _ _ Hn), Hc. cbn. lia.
  - intros m E. specialize (Hm m E). lia.
  - rewrite omap_snoc. cbn. rewrite (answered_insert _ _ _ (id, Answered late) Hn eq_refl id eq_refl), Hp. apply Permutation_app_comm.
Qed.
Lemma bounded_add evs s id v g st s' :
  Bounded evs s -> caps s' = mkCaps (inFlightCaps (caps s) + (if running (id, st) then 1 else 0)) (capCalls (caps s) ++ [(id, st)])%list ->
  omap result_id (posted s') = (omap result_id (posted s) ++ match answered (id, st) with Some i => [i] | None => [] end)%list ->
  (running (id, st) = true -> forall n, maxInFlightCaps = Some n -> inFlightCaps (caps s) < n) -> Bounded (evs ++ [Message (MCap id v g)])%list s'.
Proof.
  intros [Ha Hc Hm Hp] Ec Ep Hlt. split; rewrite ?Ec, ?Ep; cbn [inFlightCaps capCalls].
  - rewrite map_app, Ha, omap_snoc. done.
  - by rewrite in_flight_snoc, Hc.
  - intros n E. specialize (Hm n E). destruct (running (id, st)); [specialize (Hlt eq_refl n E)|]; lia.
  - by rewrite omap_snoc, Hp.
Qed.

Lemma bounded_step evs ev s : Bounded evs s -> Bounded (evs ++ [ev])%list (step ev s).
Proof.
  intros HB. destruct (is_cap ev) eqn:Hcap.
  - destruct ev; try done; cbn [PluginWorker.step].
    + destruct m; try done. unfold routeMessage. cbn [note_progress progress_kind].
      assert (forall e, Bounded (evs ++ [Message (MCap id verb inFlight)])%list (reject_cap id e s)) as Hrej.
      { intros e. eapply (bounded_add evs s id verb inFlight (Answered false)); [done|..]; cbn; [by rewrite Z.add_0_r|by rewrite omap_snoc|done]. }
      unfold handleCapRequest. destruct verb as [[]|]; try apply Hrej. destruct (match maxInFlightCaps with Some n => n <=? inFlightCaps (caps s) | None => false end) eqn:Emax; [apply Hrej|].
      destruct hasDispatcher; cbn [negb]; [|apply Hrej]. apply (bounded_add evs s _ _ _ (Running s0 (guard_of inFlight (flight s)))); [done|done|by rewrite app_nil_r|]. intros _ n E. rewrite E in Emax. apply Z.leb_gt in Emax. lia.
    + unfold cap_settles. destruct (capCalls (caps s) !! n) as [[id [verb guard|late]]|] eqn:En.
      * by eapply bounded_end.
      * destruct HB as [Ha Hc Hm Hp]. assert (omap answered (<[n := (id, Answered false)]> (capCalls (caps s))) = omap answered (capCalls (caps s))) as Eo.
        { rewrite <- (take_drop_middle _ n _ En) at 2. rewrite insert_take_drop by (by eapply lookup_lt_Some). by rewrite !omap_app. }
        destruct late; (split; cbn; [rewrite omap_snoc, app_nil_r, <- Ha; try done; by eapply fst_insert|rewrite Hc; try done; rewrite (in_flight_insert _ _ _ _ En); cbn; lia|done|by rewrite ?Eo]).
      * destruct HB as [Ha Hc Hm Hp]. split; try done. by rewrite omap_snoc, app_nil_r.
    + unfold cap_times_out. destruct (capCalls (caps s) !! n) as [[id [verb guard|late]]|] eqn:En; [destruct (capBudget capTimeoutMs verb); [by eapply bounded_end|]|..];
        (destruct HB as [Ha Hc Hm Hp]; split; try done; by rewrite omap_snoc, app_nil_r).
  - destruct (step_quiet ev s Hcap) as [Ec Ep]. destruct HB as [Ha Hc Hm Hp]. assert (asked ev = None) as Hask by (destruct ev as [| | | | | | | |[]| | | | | |]; done).
    split; rewrite ?Ec, ?Ep; try done. by rewrite omap_snoc, Hask, app_nil_r.
Qed.

Lemma run_bounded evs : Bounded evs (run_events cut maxInFlightCaps capTimeoutMs hasDispatcher probing evs new_host).
Proof.
  induction evs as [|ev evs IH] using rev_ind; [split; cbn; [done|done|intros; lia|done]|].
  unfold run_events. rewrite fold_left_app. cbn. by apply bounded_step.
Qed.


(** ** The liveness probe *)

Record Watching (w : Watch) : Prop := mkWatching {
  w_probe : forall p, probe w = Some p -> p_seen p = answers w /\ (p_timer p < timerSeq w)%nat /\ unresponsiveReported w = false;
  w_reports : if unresponsiveReported w then exists a, reports w = [(a, a)] else reports w = []
}.

Lemma watching_drop s : Watching (watch s) -> Watching (watch (dropProbe s)).
Proof. intros [Hp Hr]. by split. Qed.
Lemma watching_arm id s : Watching (watch s) -> unresponsiveReported (watch s) = false -> Watching (watch (armProbe id s)).
Proof. intros [Hp Hr] Hu. split; [|done]. intros p. cbn. intros [= <-]. cbn. split; [done|]. split; [lia|done]. Qed.
Lemma watching_probe s : Watching (watch s) -> Watching (watch (probeLiveness s)).
Proof.
  intros H. unfold PluginWorker.probeLiveness. destruct (_ || _) eqn:E; [done|]. apply (watching_arm _ (with_calls s _)); [done|]. cbn. by apply orb_false_iff in E as [_ E].
Qed.
Lemma watching_progress m s : Watching (watch s) -> Watching (watch (note_progress m s)).
Proof.
  intros [Hp Hr]. unfold note_progress. destruct (progress_kind m); [|done]. destruct (probe (watch s)) as [p|] eqn:Ep; [|by split].
  destruct (Hp p eq_refl) as (_ & _ & Hu). split; cbn; [|done]. intros q [= <-]. cbn. split; [done|]. split; [lia|done].
Qed.

Lemma step_watch_same ev s : match ev with Message _ | TimerFires _ _ | Verdict _ | Exit => False | _ => True end -> watch (step ev s) = watch s.
Proof.
  destruct ev; try done; intros _; cbn [PluginWorker.step];
    unfold dispatchHook, dispatchWebhook, dispatchSearch, load, runLifecycle, sendConfigChange, healthCheck, load_timer_fires, cap_settles, cap_times_out; repeat case_match; done.
Qed.
Lemma route_watch m s : watch (routeMessage cut maxInFlightCaps hasDispatcher m s) = watch (note_progress m s) \/
  watch (routeMessage cut maxInFlightCaps hasDispatcher m s) = watch (dropProbe (note_progress m s)).
Proof.
  unfold routeMessage. destruct m; try (by left); try (left; unfold answer, handleCapRequest, reject_cap; repeat case_match; done). repeat case_match; by (left + right).
Qed.

Lemma step_watching ev s : Watching (watch s) -> Watching (watch (step ev s)).
Proof.
  intros H. destruct ev; try by rewrite step_watch_same.
  - cbn [PluginWorker.step]. destruct (route_watch m s) as [->| ->]; [|apply watching_drop]; by apply watching_progress.
  - cbn [PluginWorker.step]. unfold PluginWorker.timer_fires. destruct (waiting (calls s) !! (k, id)) as [e|]; [|done]. destruct (negb (e_timer e)); [done|]. destruct k; try done.
    + match goal with |- context [holdLateClaim ?i ?t] => destruct (holdLate_same i t) as (_ & _ & E & _) end. rewrite E. by apply watching_probe.
    + by apply (watching_probe (with_calls s _)).
    + by apply (watching_probe (with_calls s _)).
  - cbn [PluginWorker.step]. unfold verdict. destruct (probe (watch s)) as [p|] eqn:Ep; [|done]. destruct (p_timer p =? timer)%nat; [|done].
    destruct H as [Hp Hr]. destruct (Hp p Ep) as (Hs & _ & Hu). cbn. rewrite Hu, orb_false_r. rewrite Hu in Hr.
    destruct (dead (life s) || terminated (life s)); split; cbn; try done; [by rewrite Hu|]. rewrite Hr, Hs. by exists (answers (watch s)).
  - cbn [PluginWorker.step]. unfold handleExit. set (s1 := settle_waiters _ _). destruct (drain_all_frame s1 (map_to_list (waiting (calls s1))) s1) as (_ & _ & E & _).
    assert (Watching (watch (drained s1 s1 (map_to_list (waiting (calls s1)))))) as Hd by (rewrite E; by apply watching_drop). exact Hd.
Qed.
Lemma reachable_watching s : reachable s -> Watching (watch s).
Proof. apply (run_invariant (fun t => Watching (watch t))); [by split|]. intros. by apply step_watching. Qed.

(** A worker is reported unresponsive at most once, only while it runs and nobody ended
    it, and only if it answered nothing between the start of the window and its end; any
    answer, and the pong, spare it the verdict of the window they fall in. *)
Theorem unresponsive_is_reported_once_after_silence s :
  reachable s ->
  (reports (watch s) = [] \/ exists a, reports (watch s) = [(a, a)]) /\
  (forall ev, reports (watch (step ev s)) <> reports (watch s) -> dead (life s) = false /\ terminated (life s) = false /\ reports (watch s) = [] /\ probe (watch (step ev s)) = None) /\
  (forall p m, probe (watch s) = Some p -> progress_kind m = true \/ m = MPong (Some (p_id p)) ->
     reports (watch (step (Verdict (p_timer p)) (step (Message m) s))) = reports (watch s)).
Proof.
  intros Hr. pose proof (reachable_watching s Hr) as [Hp Hrep]. split; [|split].
  - destruct (unresponsiveReported (watch s)); [by right|by left].
  - assert (forall t, reports (watch (probeLiveness t)) = reports (watch t)) as Hprobe by (intros t; unfold PluginWorker.probeLiveness; by destruct (_ || _)).
    assert (forall m, reports (watch (note_progress m s)) = reports (watch s)) as Hnote by (intros m; unfold note_progress; by repeat case_match).
    intros ev Hne. destruct ev; try (by rewrite step_watch_same in Hne); cbn [PluginWorker.step] in *.
    + destruct Hne. destruct (route_watch m s) as [->| ->]; apply Hnote.
    + destruct Hne. unfold PluginWorker.timer_fires. destruct (waiting (calls s) !! (k, id)) as [e|]; [|done]. destruct (negb (e_timer e)); [done|]. destruct k; try done; try apply (Hprobe (with_calls s _)).
      match goal with |- context [holdLateClaim ?i ?t] => destruct (holdLate_same i t) as (_ & _ & E & _) end. rewrite E. apply Hprobe.
    + unfold verdict in *. destruct (probe (watch s)) as [p|] eqn:Ep; [|done]. destruct (p_timer p =? timer)%nat; [|done]. destruct (Hp p eq_refl) as (_ & _ & Hu). rewrite Hu in Hrep.
      cbn in *. destruct (dead (life s)), (terminated (life s)); cbn in *; try done. by rewrite Hu in *.
    + destruct Hne. unfold handleExit. set (s1 := settle_waiters _ _). destruct (drain_all_frame s1 (map_to_list (waiting (calls s1))) s1) as (_ & _ & E & _). apply (f_equal reports) in E. exact E.
  - intros p m Ep Hm. cbn [PluginWorker.step]. destruct (Hp p Ep) as (_ & Ht & _). destruct Hm as [Hm| ->].
    + assert (exists q, watch (note_progress m s) = mkWatch (Some q) (unresponsiveReported (watch s)) (S (timerSeq (watch s))) (S (answers (watch s))) (reports (watch s)) /\ p_timer q = timerSeq (watch s)) as (q & Eq & Etq).
      { unfold note_progress. rewrite Hm, Ep. cbn. eexists. by split. }
      unfold verdict. destruct (route_watch m s) as [E|E]; rewrite E; cbn; [|by rewrite E; cbn; rewrite Eq].
      rewrite Eq. cbn. rewrite Etq. destruct (Nat.eqb_spec (timerSeq (watch s)) (p_timer p)); [lia|]. by rewrite E, Eq.
    + unfold routeMessage. cbn. rewrite Ep. by rewrite Z.eqb_refl.
Qed.
End safe.

(** ** The theorems at work *)

Definition a_run (evs : list Event) : Host := run_events "..." (Some 1) (Some 30000) true true evs new_host.
Lemma a_run_reachable evs : reachable "..." (Some 1) (Some 30000) true true (a_run evs).
Proof. by exists evs. Defined.

Lemma no_call_is_left_waiting_witness : dead (life (a_run [DispatchHook "message:sending" []])) = false.
Proof. apply (no_call_is_left_waiting "..." (Some 1) (Some 30000) true true _ 0%nat); [apply a_run_reachable|vm_compute; reflexivity]. Defined.

(** The late answer of a hook whose caller has moved on changes no promise. *)
Definition after_a_late_hook : Host := a_run [DispatchHook "message:sending" []; TimerFires KHook 1].
Lemma an_answer_settles_its_own_call_witness :
  promises (calls (step "..." (Some 1) (Some 30000) true true (Message (MHookResult (Some 1) (Some (JBool false)) None None)) after_a_late_hook)) = [Some hook_open].
Proof.
  etrans; [apply (an_answer_settles_its_own_call "..." (Some 1) (Some 30000) true true after_a_late_hook (MHookResult (Some 1) (Some (JBool false)) None None) KHook 1 (HookDone (Some (JBool false)) None None));
    [apply a_run_reachable|reflexivity]|]. vm_compute. reflexivity.
Defined.

Lemma capability_guard_is_exact_witness : guard_of (Some (JArr (map JStr ["message:received"; "message:sending"]))) (flight (a_run [DispatchHook "message:sending" ["message:received"]; TimerFires KHook 1])) = ["message:received"; "message:sending"].
Proof.
  apply (capability_guard_is_exact "..." (Some 1) (Some 30000) true true (a_run [DispatchHook "message:sending" ["message:received"]; TimerFires KHook 1]) ltac:(apply a_run_reachable)) with 1.
  vm_compute. reflexivity.
Defined.

(** A worker that stays silent is reported; one that answers in the window is not. *)
Lemma unresponsive_is_reported_once_after_silence_witness :
  reports (watch (a_run [DispatchWebhook; TimerFires KWebhook 1; Verdict 0])) = [(0, 0)]%nat /\
  reports (watch (step "..." (Some 1) (Some 30000) true true (Verdict 0) (step "..." (Some 1) (Some 30000) true true (Message (MPong (Some 2))) (a_run [DispatchWebhook; TimerFires KWebhook 1])))) = [].
Proof.
  split; [vm_compute; reflexivity|].
  apply (unresponsive_is_reported_once_after_silence "..." (Some 1) (Some 30000) true true (a_run [DispatchWebhook; TimerFires KWebhook 1]) ltac:(apply a_run_reachable)) with (p := mkProbe 2 0 0); [vm_compute; reflexivity|right; reflexivity].
Defined.
