(* ===== verification/SessionEngine.v ===== *)
(** * The engines of one session: what its process remembers

    modules/session/session-engine-lifecycle.service.ts, session-engine-controls.ts,
    session-engine-event-wiring.ts, session-lifecycle-fences.ts and engine/
    engine-registry.service.ts, for one session in one process: the state, and the
    blocks of code that run without an await, from the reports of an engine to the
    reconnects they arm.  The verbs and handlers that await are in SessionVerbs.v.

    Every call out of the lifecycle that awaits nothing is recorded in [log]. *)
From stdpp Require Import gmap pretty.
From S2P Require Import Prelude JsString WaId StopMarks Reconnect.
Local Open Scope string_scope.
Local Open Scope Z_scope.

(** ** Data *)

Inductive Status := CREATED | INITIALIZING | QR_READY | AUTHENTICATING | READY | DISCONNECTED | ACTION_REQUIRED | FAILED.
#[export] Instance Status_eq : EqDecision Status.
Proof. solve_decision. Defined.

(** The columns of a session's row the lifecycle reads; [s_max] and [s_base] are the
    numbers of its config, floored, [None] where [Number] makes none of them. *)
Record Session := mkSession {
  s_phone : option string;
  s_desired : option string;
  s_node : option string;
  s_lease : option Z;
  s_max : option Z;
  s_base : option Z
}.
Definition with_phone (p : option string) (x : Session) : Session := mkSession p (s_desired x) (s_node x) (s_lease x) (s_max x) (s_base x).

(** What stood when an engine was registered, and when it was told to initialize: the
    live engine, the stop mark, whether the lifecycle had shut down, how many credential
    teardowns of the lifecycle's own were still running, and whether the session's row
    had been found gone or removed. *)
Record Moment := mkMoment { m_live : option nat; m_marked : bool; m_closed : bool; m_teardowns : nat; m_gone : bool }.

(** An engine: whether its end was asked for (disconnect, logout, destroy or
    forceDestroy), the binding its callbacks check, and the moments of its launch. *)
Record Eng := mkEng {
  e_ended : bool;
  e_phone : option string;
  e_epoch : Z;
  e_tok : nat;
  e_launch : Moment;
  e_inits : list Moment
}.

(** A failure parked while a reconnect's engine initializes. *)
Inductive ParkedRun := ParkStatus | ParkError (e : nat) (reason : string).

(** The retry of a disconnect whose row could not be read. *)
Record Retry := mkRetry { r_timer : nat; r_attempts : Z; r_reason : string; r_ended : bool }.

(** [ReconnectState]; [ep_started] is zero where [started] is undefined. *)
Record Ep := mkEp {
  ep_att : ReconnectAttemptState;
  ep_timer : option nat;
  ep_session : option Session;
  ep_tearing : bool;
  ep_init : bool;
  ep_parked : option (ParkedRun * bool);
  ep_started : nat;
  ep_readyAt : option Z;
  ep_readyEndedAt : option Z;
  ep_retry : option nat;
  ep_tok : nat
}.

(** What an armed timer runs. *)
Inductive Job := JReconnect (i : nat) (session : Session) | JRetry (i : nat) (retry : nat) (e : nat).

(** A tracked credential teardown.  [Held]: the placeholder of a logout that has not
    called its engine yet.  [td_own]: begun by the lifecycle, not by an adapter on its
    own; [td_mark]: the stop mark its operation set. *)
Inductive TdPhase := Held (tok : nat) | Running | Settled.
Record Td := mkTd { td_own : bool; td_mark : Z; td_phase : TdPhase }.
Definition td_settled (x : Td) : bool := match td_phase x with Settled => true | _ => false end.

Inductive Call :=
| PresenceClear | WatchdogClear | RestrictionDisproved | PresenceReapplied | SeedStatuses
| Announced (st : Status) | WriteStatus (st : Status) | WriteReady | WritePhone (phone : option string) (ownRowsOnly : bool) | WritePushName
| Tell (event : string) | Audit (action : string) | Retired (e : nat) | SetTimeout (ms : Z) | CloseWrites | ReleaseWrites.

Record Registry := mkReg { live : option nat; engs : list Eng }.
Record Gates := mkGates {
  marks : StopMarks; deleting : nat; initializing : option nat; closed : bool;
  operatorTeardown : option nat; pendingInitial : option nat; tds : list Td
}.
Record Episodes := mkEpisodes { current : option nat; eps : list Ep; retries : list Retry; timers : list (option Job) }.
Record Memory := mkMem { lastError : option string; lastDispatched : option Status; stuckAuthUsed : bool; bindingEpoch : Z; log : list Call }.
(** What the process reads of the rest of the world: the claim it believes in, the
    draining flag, the clock, the random jitter, whether the live engine says READY, and
    the status store's configuration. *)
Record Outside := mkOutside { owned : bool; draining : bool; clock : Z; jitter : Z; engineReady : bool; seeding : bool }.
(** For the statements alone, nothing of the program reads it: the next token (every
    start, logout and reconnect attempt draws one), the token of the task that alone may
    register an engine now, the engines a verb has retired, and whether the session's
    row was ever found missing or removed. *)
Record Ghost := mkGhost { nextTok : nat; right : option nat; retired : list nat; gone : bool }.

Record Local := mkL { reg : Registry; gates : Gates; epi : Episodes; mem : Memory; out : Outside; ghost : Ghost }.

Definition booted : Local :=
  mkL (mkReg None []) (mkGates no_marks 0 None false None None []) (mkEpisodes None [] [] []) (mkMem None None false 0 [])
    (mkOutside true false 0 0 false false) (mkGhost 0 None [] false).

Definition on_reg (f : Registry -> Registry) (s : Local) := mkL (f (reg s)) (gates s) (epi s) (mem s) (out s) (ghost s).
Definition on_gates (f : Gates -> Gates) (s : Local) := mkL (reg s) (f (gates s)) (epi s) (mem s) (out s) (ghost s).
Definition on_epi (f : Episodes -> Episodes) (s : Local) := mkL (reg s) (gates s) (f (epi s)) (mem s) (out s) (ghost s).
Definition on_mem (f : Memory -> Memory) (s : Local) := mkL (reg s) (gates s) (epi s) (f (mem s)) (out s) (ghost s).
Definition on_ghost (f : Ghost -> Ghost) (s : Local) := mkL (reg s) (gates s) (epi s) (mem s) (out s) (f (ghost s)).

Definition set_live (x : option nat) (r : Registry) := mkReg x (engs r).
Definition on_eng (e : nat) (f : Eng -> Eng) (r : Registry) := mkReg (live r) (alter f e (engs r)).
Definition set_marks (x : StopMarks) (g : Gates) := mkGates x (deleting g) (initializing g) (closed g) (operatorTeardown g) (pendingInitial g) (tds g).
Definition set_deleting (x : nat) (g : Gates) := mkGates (marks g) x (initializing g) (closed g) (operatorTeardown g) (pendingInitial g) (tds g).
Definition set_initializing (x : option nat) (g : Gates) := mkGates (marks g) (deleting g) x (closed g) (operatorTeardown g) (pendingInitial g) (tds g).
Definition set_closed (g : Gates) := mkGates (marks g) (deleting g) (initializing g) true (operatorTeardown g) (pendingInitial g) (tds g).
Definition set_operator (x : option nat) (g : Gates) := mkGates (marks g) (deleting g) (initializing g) (closed g) x (pendingInitial g) (tds g).
Definition set_pending (x : option nat) (g : Gates) := mkGates (marks g) (deleting g) (initializing g) (closed g) (operatorTeardown g) x (tds g).
Definition set_tds (x : list Td) (g : Gates) := mkGates (marks g) (deleting g) (initializing g) (closed g) (operatorTeardown g) (pendingInitial g) x.
Definition set_current (x : option nat) (p : Episodes) := mkEpisodes x (eps p) (retries p) (timers p).
Definition on_ep (i : nat) (f : Ep -> Ep) (p : Episodes) := mkEpisodes (current p) (alter f i (eps p)) (retries p) (timers p).
Definition on_retry (r : nat) (f : Retry -> Retry) (p : Episodes) := mkEpisodes (current p) (eps p) (alter f r (retries p)) (timers p).
Definition set_timers (x : list (option Job)) (p : Episodes) := mkEpisodes (current p) (eps p) (retries p) x.
Definition set_error (x : option string) (m : Memory) := mkMem x (lastDispatched m) (stuckAuthUsed m) (bindingEpoch m) (log m).
Definition set_dispatched (x : option Status) (m : Memory) := mkMem (lastError m) x (stuckAuthUsed m) (bindingEpoch m) (log m).
Definition set_stuck (x : bool) (m : Memory) := mkMem (lastError m) (lastDispatched m) x (bindingEpoch m) (log m).
Definition set_epoch (x : Z) (m : Memory) := mkMem (lastError m) (lastDispatched m) (stuckAuthUsed m) x (log m).
Definition record (c : Call) (s : Local) : Local := on_mem (fun m => mkMem (lastError m) (lastDispatched m) (stuckAuthUsed m) (bindingEpoch m) (log m ++ [c])%list) s.
Definition record_all (l : list Call) (s : Local) : Local := fold_left (fun s c => record c s) l s.

Definition set_timer (t : option nat) (x : Ep) := mkEp (ep_att x) t (ep_session x) (ep_tearing x) (ep_init x) (ep_parked x) (ep_started x) (ep_readyAt x) (ep_readyEndedAt x) (ep_retry x) (ep_tok x).
Definition set_session (v : option Session) (x : Ep) := mkEp (ep_att x) (ep_timer x) v (ep_tearing x) (ep_init x) (ep_parked x) (ep_started x) (ep_readyAt x) (ep_readyEndedAt x) (ep_retry x) (ep_tok x).
Definition set_tearing (v : bool) (x : Ep) := mkEp (ep_att x) (ep_timer x) (ep_session x) v (ep_init x) (ep_parked x) (ep_started x) (ep_readyAt x) (ep_readyEndedAt x) (ep_retry x) (ep_tok x).
Definition set_init (v : bool) (x : Ep) := mkEp (ep_att x) (ep_timer x) (ep_session x) (ep_tearing x) v (ep_parked x) (ep_started x) (ep_readyAt x) (ep_readyEndedAt x) (ep_retry x) (ep_tok x).
Definition set_parked (v : option (ParkedRun * bool)) (x : Ep) := mkEp (ep_att x) (ep_timer x) (ep_session x) (ep_tearing x) (ep_init x) v (ep_started x) (ep_readyAt x) (ep_readyEndedAt x) (ep_retry x) (ep_tok x).
Definition set_started (n tok : nat) (x : Ep) := mkEp (ep_att x) (ep_timer x) (ep_session x) (ep_tearing x) (ep_init x) (ep_parked x) n (ep_readyAt x) (ep_readyEndedAt x) (ep_retry x) tok.
Definition set_ready (at_ ended : option Z) (x : Ep) := mkEp (ep_att x) (ep_timer x) (ep_session x) (ep_tearing x) (ep_init x) (ep_parked x) (ep_started x) at_ ended (ep_retry x) (ep_tok x).
Definition set_retry (v : option nat) (x : Ep) := mkEp (ep_att x) (ep_timer x) (ep_session x) (ep_tearing x) (ep_init x) (ep_parked x) (ep_started x) (ep_readyAt x) (ep_readyEndedAt x) v (ep_tok x).
Definition set_att (v : ReconnectAttemptState) (x : Ep) := mkEp v (ep_timer x) (ep_session x) (ep_tearing x) (ep_init x) (ep_parked x) (ep_started x) (ep_readyAt x) (ep_readyEndedAt x) (ep_retry x) (ep_tok x).

(** The state [reconnectStates] holds, by reference. *)
Definition state_of (s : Local) : option (nat * Ep) :=
  match current (epi s) with Some i => match eps (epi s) !! i with Some x => Some (i, x) | None => None end | None => None end.
Definition is_current (i : nat) (s : Local) : bool := bool_decide (current (epi s) = Some i).
Definition started_of (i : nat) (s : Local) : nat := match eps (epi s) !! i with Some x => ep_started x | None => 0%nat end.

(** ** The registry *)

Definition isLive (e : nat) (s : Local) : bool := bool_decide (live (reg s) = Some e).
Definition has_engine (s : Local) : bool := bool_decide (is_Some (live (reg s))).
Definition deleteIfLive (e : nat) (s : Local) : bool * Local :=
  if isLive e s then (true, record (Retired e) (on_reg (set_live None) s)) else (false, s).

Definition own_running (x : Td) : bool := td_own x && negb (td_settled x).
Definition unsettled_own (s : Local) : nat := length (List.filter own_running (tds (gates s))).
(** Whether the first [n] tracked teardowns have settled: those a wait began behind. *)
Definition settled_before (n : nat) (s : Local) : bool := forallb td_settled (take n (tds (gates s))).

Definition draw (s : Local) : nat * Local := (nextTok (ghost s), on_ghost (fun g => mkGhost (S (nextTok g)) (right g) (retired g) (gone g)) s).
Definition set_right (x : option nat) (s : Local) : Local := on_ghost (fun g => mkGhost (nextTok g) x (retired g) (gone g)) s.
Definition note_retired (e : nat) (s : Local) : Local := on_ghost (fun g => mkGhost (nextTok g) (right g) (e :: retired g) (gone g)) s.
Definition note_gone (s : Local) : Local := on_ghost (fun g => mkGhost (nextTok g) (right g) (retired g) true) s.

Section lifecycle.
(** The session's id, this node's id where there is an ownership service, and
    [sessions.maxConcurrent]. *)
Context (sid : string) (nodeId : option string) (maxConcurrent : option Z).

Definition marked (s : Local) : bool := has (marks (gates s)) sid.
Definition moment (s : Local) : Moment := mkMoment (live (reg s)) (marked s) (closed (gates s)) (unsettled_own s) (gone (ghost s)).

(** [EngineRegistry.set] of a fresh engine. *)
Definition register (tok : nat) (s : Local) : nat * Local :=
  let e := length (engs (reg s)) in
  let s' := on_reg (fun r => mkReg (Some e) (engs r ++ [mkEng false None 0 tok (moment s) []])%list) s in
  (e, match live (reg s) with Some p => record (Retired p) s' | None => s' end).

(** ** Fences *)

(** A teardown is called: the engine is told to end. *)
Definition begin_end (e : nat) (s : Local) : Local := on_reg (on_eng e (fun x => mkEng true (e_phone x) (e_epoch x) (e_tok x) (e_launch x) (e_inits x))) s.
Definition track (own : bool) (mark : Z) (phase : TdPhase) (s : Local) : Local := on_gates (fun g => set_tds (tds g ++ [mkTd own mark phase])%list g) s.
Definition evictAndForceDestroy (e : nat) (s : Local) : Local := begin_end e (snd (deleteIfLive e s)).

(** ** The disconnect's records *)

Definition TERMINAL_UNLINK_REASONS : list string := ["LOGOUT"; "UNPAIRED"; "UNPAIRED_IDLE"; "logged out"].
Definition terminal (reason : string) : bool := bool_decide (reason ∈ TERMINAL_UNLINK_REASONS).

Definition announceDisconnected (s : Local) : Local := record (Tell "session.disconnected") s.

Definition clear_snapshot (s : Local) : Local :=
  match state_of s with
  | Some (i, x) => match ep_session x with Some v => on_epi (on_ep i (set_session (Some (with_phone None v)))) s | None => s end
  | None => s
  end.
Definition recordTerminalUnlink (ownRowsOnly : bool) (s : Local) : bool * Local :=
  let s := record (Audit "SESSION_DISCONNECTED") s in
  if negb (owned (out s)) then (false, s)
  else
    let s := on_mem (fun m => set_epoch (bindingEpoch m + 1) m) s in
    let s := record (WritePhone None (ownRowsOnly && bool_decide (is_Some nodeId))) s in
    (true, clear_snapshot s).
Definition reportUnlinkWithoutRow (s : Local) : bool * Local :=
  let '(cleared, s) := recordTerminalUnlink true s in (cleared, announceDisconnected s).

(** The read retry [r] as the code holds it. *)
Definition retry_at (r : nat) (s : Local) : option Retry := retries (epi s) !! r.
Definition end_retry (r : nat) (s : Local) : Local := on_epi (on_retry r (fun x => mkRetry (r_timer x) (r_attempts x) (r_reason x) true)) s.
Definition retry_ended (retry : option nat) (s : Local) : bool :=
  match retry with Some r => match retry_at r s with Some x => r_ended x | None => false end | None => false end.
Definition reason_of (retry : option nat) (reason : string) (s : Local) : string :=
  match retry with
  | Some r => match retry_at r s with Some x => if terminal (r_reason x) then r_reason x else reason | None => reason end
  | None => reason
  end.

Definition reportDroppedUnlink (reason : string) (retry : option nat) (s : Local) : Local :=
  let unlink := reason_of retry reason s in
  if negb (terminal unlink) then s
  else
    let s :=
      match retry with
      | Some r =>
          let s := end_retry r s in
          match state_of s with Some (i, x) => if bool_decide (ep_retry x = Some r) then on_epi (on_ep i (set_retry None)) s else s | None => s end
      | None => s
      end in
    if has_engine s && engineReady (out s) then s else snd (reportUnlinkWithoutRow s).

(** ** Timers *)

Definition arm (job : Job) (ms : Z) (s : Local) : nat * Local :=
  (length (timers (epi s)), record (SetTimeout ms) (on_epi (fun p => set_timers (timers p ++ [Some job])%list p) s)).
Definition clearTimeout (t : nat) (s : Local) : Local := on_epi (fun p => set_timers (<[t := None]> (timers p)) p) s.

(** The timer of a state is cleared and forgotten. *)
Definition drop_timer (i : nat) (s : Local) : Local :=
  match eps (epi s) !! i with
  | Some x => match ep_timer x with Some t => on_epi (on_ep i (set_timer None)) (clearTimeout t s) | None => s end
  | None => s
  end.

Definition endReadRetry (callerRetry : option nat) (callerReason : option string) (s : Local) : option string * Local :=
  match state_of s with
  | Some (i, x) =>
      match ep_retry x with
      | Some r =>
          match retry_at r s with
          | Some y =>
              if bool_decide (ep_timer x = Some (r_timer y)) then
                let s := on_epi (on_ep i (set_retry None)) s in
                (Some (r_reason y), drop_timer i s)
              else if bool_decide (callerRetry = Some r) || negb (terminal (r_reason y)) || match callerReason with Some c => terminal c | None => false end then
                let s := if bool_decide (callerRetry = Some r) then s else end_retry r s in
                (None, on_epi (on_ep i (set_retry None)) s)
              else (None, s)
          | None => (None, s)
          end
      | None => (None, s)
      end
  | None => (None, s)
  end.

Definition endReadRetryOfGoneEngine (s : Local) : bool * Local :=
  let retry := match state_of s with Some (_, x) => ep_retry x | None => None end in
  let s := match retry with Some r => end_retry r s | None => s end in
  let reason := match retry with Some r => r_reason <$> retry_at r s | None => None end in
  let s := snd (endReadRetry retry None s) in
  match reason with Some reason => if terminal reason then reportUnlinkWithoutRow s else (false, s) | None => (false, s) end.

Definition cancelReconnect (s : Local) : Local :=
  let s := snd (endReadRetryOfGoneEngine s) in
  let s := match current (epi s) with Some i => drop_timer i s | None => s end in
  on_epi (set_current None) s.

(** ** The reconnect *)

Definition STABLE_READY_MS : Z := RECONNECT_DELAY_CAP_MS.
Definition readyStretchHeld (x : Ep) (s : Local) : bool :=
  match ep_readyAt x with
  | Some a => STABLE_READY_MS <=? default (clock (out s)) (ep_readyEndedAt x) - a
  | None => false
  end.
Definition endReadyStretch (s : Local) : Local :=
  match state_of s with
  | Some (i, x) =>
      match ep_readyAt x, ep_readyEndedAt x with
      | Some a, None => on_epi (on_ep i (set_ready (Some a) (Some (clock (out s))))) s
      | _, _ => s
      end
  | None => s
  end.

Definition isReconnectPending (x : Ep) : bool :=
  bool_decide (is_Some (ep_timer x)) || ((0 <? attempts (ep_att x)) && bool_decide (ep_readyAt x = None)).
Definition isEngineActive (s : Local) : bool :=
  has_engine s || bool_decide (is_Some (initializing (gates s))) || (0 <? Z.of_nat (deleting (gates s))) ||
  match state_of s with Some (_, x) => isReconnectPending x | None => false end.

Definition RECONNECT_LOOP_REASON : string := "Reconnecting after a dropped connection".
Definition no_streak (a : ReconnectAttemptState) : ReconnectAttemptState := mkAttempts 0 (maxAttempts a) (baseDelay a).

(** The budget is spent: the session ends FAILED. *)
Definition exhausted_reason (disabled : bool) (n : Z) : string :=
  if disabled then "Auto-reconnect is disabled (max attempts set to 0), so the dropped session was marked failed. Start it again manually."
  else "Reconnection failed after " +:+ pretty n +:+ " attempts — restart the session.".
Definition give_session_up (why : string) (s : Local) : Local :=
  let reason := match lastError (mem s) with
                | Some e => if String.eqb e "" || startsWith e RECONNECT_LOOP_REASON then why else why +:+ " Last error: " +:+ e
                | None => why
                end in
  let s := on_mem (set_error (Some reason)) s in
  let s := if owned (out s) then record (WriteStatus FAILED) s else s in
  let s := record (Tell "session:error") s in
  let s := match live (reg s) with Some e => evictAndForceDestroy e s | None => s end in
  cancelReconnect s.

Definition scheduleReconnect (session : Session) (s : Local) : Local :=
  if draining (out s) then s
  else
    match state_of s with
    | None => s
    | Some (i, x) =>
        if bool_decide (is_Some (ep_timer x)) || ep_tearing x then
          match ep_session x, s_phone session with
          | Some v, None => on_epi (on_ep i (set_session (Some (with_phone None v)))) s
          | _, _ => s
          end
        else
          let att := if readyStretchHeld x s then no_streak (ep_att x) else ep_att x in
          let s := match ep_readyAt x with Some _ => on_epi (on_ep i (set_ready None None)) s | None => s end in
          let '(att, decision) := decideReconnect att (jitter (out s)) in
          let s := on_epi (on_ep i (set_att att)) s in
          match decision with
          | Exhausted disabled => give_session_up (exhausted_reason disabled (attempts att)) s
          | Schedule delayMs _ loopAlert =>
              let s := if loopAlert then record (Tell "session.reconnect_loop") s else s in
              let s := on_epi (on_ep i (set_session (Some session))) s in
              let '(t, s) := arm (JReconnect i session) delayMs s in
              on_epi (on_ep i (set_timer (Some t))) s
          end
    end.

Definition RECONNECT_BASE_DELAY_MIN_MS : Z := 1000.
Definition RECONNECT_BASE_DELAY_MAX_MS : Z := 300000.
Definition RECONNECT_MAX_ATTEMPTS_CAP : Z := 20.
Definition resolveReconnectConfig (maxRaw baseRaw : option Z) : ReconnectAttemptState :=
  mkAttempts 0 ((fun v => clampNumber v 0 RECONNECT_MAX_ATTEMPTS_CAP) <$> maxRaw)
    (clampNumber (default 5000 baseRaw) RECONNECT_BASE_DELAY_MIN_MS RECONNECT_BASE_DELAY_MAX_MS).
Definition retryDelay (x : Ep) (n : Z) : Z := Z.min (baseDelay (ep_att x) * 2 ^ (n - 1)) RECONNECT_BASE_DELAY_MAX_MS.
Definition retryDisconnectAfterFailedRead (e : nat) (reason : string) (callerRetry : option nat) (s : Local) : Local :=
  let dropped := match callerRetry with None => reportDroppedUnlink reason None s | Some _ => s end in
  match state_of s with
  | None => dropped
  | Some (i, x) =>
      if closed (gates s) || draining (out s) || negb (isLive e s) then dropped
      else
        match ep_timer x with
        | Some t =>
            if negb (terminal reason) then s
            else
              match ep_retry x with
              | Some r =>
                  if bool_decide (r_timer <$> retry_at r s = Some t) then on_epi (on_retry r (fun y => mkRetry (r_timer y) (r_attempts y) reason (r_ended y))) s
                  else snd (reportUnlinkWithoutRow (on_epi (on_ep i (set_retry None)) (end_retry r s)))
              | None => snd (reportUnlinkWithoutRow s)
              end
        | None =>
            match ep_retry x with
            | Some r =>
                if bool_decide (callerRetry <> Some r) then
                  if terminal reason then on_epi (on_retry r (fun y => mkRetry (r_timer y) (r_attempts y) reason (r_ended y))) s else s
                else
                  let n := match retry_at r s with Some y => r_attempts y | None => 0 end + 1 in
                  let r' := length (retries (epi s)) in
                  let '(t, s) := arm (JRetry i r' e) (retryDelay x n) s in
                  let s := on_epi (fun p => mkEpisodes (current p) (eps p) (retries p ++ [mkRetry t n reason false])%list (timers p)) s in
                  on_epi (on_ep i (fun x => set_retry (Some r') (set_timer (Some t) x))) s
            | None =>
                let r' := length (retries (epi s)) in
                let '(t, s) := arm (JRetry i r' e) (retryDelay x 1) s in
                let s := on_epi (fun p => mkEpisodes (current p) (eps p) (retries p ++ [mkRetry t 1 reason false])%list (timers p)) s in
                on_epi (on_ep i (fun x => set_retry (Some r') (set_timer (Some t) x))) s
            end
        end
  end.

(** ** Engine failures *)

Definition TERMINAL_PREFIXES : list string :=
  ["Authentication failed"; "Connection replaced by another instance (440)"; "Account rejected by WhatsApp (403)"; "Logged out by WhatsApp, but the local credential cleanup failed"].
Definition STALE_PROFILE_ADVICE : string := "WhatsApp Web's page context was destroyed during startup.".
Fixpoint includes (s needle : string) : bool :=
  startsWith s needle || match s with EmptyString => false | String _ r => includes r needle end.
Definition isKnownTerminalEngineFailure (reason : string) : bool := existsb (fun p => startsWith reason p) TERMINAL_PREFIXES || includes reason STALE_PROFILE_ADVICE.

Definition persistStatus (st : Status) (s : Local) : Local := if owned (out s) then record (WriteStatus st) s else s.
Definition run_parked (p : ParkedRun) (s : Local) : Local :=
  match p with
  | ParkStatus => persistStatus FAILED s
  | ParkError e _ => evictAndForceDestroy e (persistStatus FAILED (record (Tell "session:error") (cancelReconnect s)))
  end.
Definition parkReconnectInitFailure (run : ParkedRun) (reason : option string) (s : Local) : bool * Local :=
  match state_of s with
  | Some (i, x) =>
      if negb (ep_init x) then (false, s)
      else
        let known := match reason with Some r => isKnownTerminalEngineFailure r | None => false end in
        let replace := match ep_parked x with None => true | Some (_, terminal) => bool_decide (is_Some reason) && negb terminal end in
        (true, if replace then on_epi (on_ep i (set_parked (Some (run, known)))) s else s)
  | None => (false, s)
  end.

(** ** The stop mark, the status, the retiring control *)

Definition add_mark (s : Local) : Local := on_gates (fun g => set_marks (add (marks g) sid) g) s.
Definition hold_mark (s : Local) : Z * Local := let '(t, m) := hold (marks (gates s)) sid in (t, on_gates (set_marks m) s).
Definition clear_marks (s : Local) : Local := on_gates (fun g => set_marks (StopMarks.delete (marks g) sid) g) s.
Definition drop_mark (t : Z) (s : Local) : Local := on_gates (fun g => set_marks (snd (deleteStamped (marks g) sid t)) g) s.
Definition settle_mark (t : Z) (s : Local) : Local := on_gates (fun g => set_marks (settle (marks g) sid t) g) s.
(** A read found no row: the marks of operations that are done go. *)
Definition drop_finished (s : Local) : Local := note_gone (on_gates (fun g => set_marks (dropFinished (marks g) sid) g) s).

(** [SessionStatusBroadcaster.announce] *)
Definition announce (st : Status) (s : Local) : Local :=
  if bool_decide (lastDispatched (mem s) = Some st) then s else record (Announced st) (on_mem (set_dispatched (Some st)) s).

Definition mark_operator (e : nat) (s : Local) : Local := on_gates (set_operator (Some e)) s.
Definition unmark_operator (e : nat) (s : Local) : Local := if bool_decide (operatorTeardown (gates s) = Some e) then on_gates (set_operator None) s else s.
Definition isOperatorTeardown (e : nat) (s : Local) : bool := bool_decide (operatorTeardown (gates s) = Some e).
(** A control is done with the engine it captured. *)
Definition evict (e : nat) (s : Local) : Local := note_retired e (snd (deleteIfLive e s)).
Definition awaitsInitialStatus (e : nat) (s : Local) : bool := bool_decide (pendingInitial (gates s) = Some e).

(** The step a control marks its session down in: the engine it is to retire, if any. *)
Definition take_down (s : Local) : option nat * Local := let s := cancelReconnect (add_mark s) in (live (reg s), s).

(** ** Initialization *)

Inductive Exn :=
| DbError | NotFound | AlreadyStarting | AlreadyStarted | TooMany | Stopped | TeardownPending | ShuttingDown
| CreateFailed | InitTimedOut | AuthTimedOut | InitRejected (error : string) | NotStarted | Incomplete | NeverLinked | HeldElsewhere.

(** [initializeEngine] up to its first await; [works]: the factory makes an engine. *)
Definition init_begin (works : bool) (tok : nat) (s : Local) : result Exn (option (nat * Z)) * Local :=
  let epoch := bindingEpoch (mem s) in
  if marked s then (Ok None, s)
  else if closed (gates s) then (Err ShuttingDown, s)
  else if negb works then (Err CreateFailed, s)
  else
    let '(e, s) := register tok s in
    let s := record PresenceClear s in
    let s := on_mem (set_error None) s in
    (Ok (Some (e, epoch)), on_gates (set_pending (Some e)) s).

(** The write of INITIALIZING has been answered. *)
Definition init_written (e : nat) (written : bool) (s : Local) : Local :=
  if written && negb (closed (gates s)) && isLive e s && negb (marked s) then announce INITIALIZING s else s.

(** The block after that write: whether the engine is told to initialize, with the
    binding its callbacks check. *)
Definition init_resume (e : nat) (epoch : Z) (phone : option string) (written : bool) (s : Local) : result Exn bool * Local :=
  let s := if bool_decide (pendingInitial (gates s) = Some e) then on_gates (set_pending None) s else s in
  if negb written then (Err DbError, s)
  else if closed (gates s) || negb (isLive e s) then (Ok false, s)
  else if marked s then (Ok false, s)
  else
    let previousPhone := if bindingEpoch (mem s) =? epoch then phone else None in
    (Ok true, on_reg (on_eng e (fun x => mkEng (e_ended x) previousPhone (bindingEpoch (mem s)) (e_tok x) (e_launch x) (e_inits x ++ [moment s])%list)) s).

(** The deadline of an initialization: what it saw, to recognise later. *)
Definition episode_of (s : Local) : option nat * nat := (current (epi s), match state_of s with Some (_, x) => ep_started x | None => 0%nat end).
Definition isCurrentTimeout (wasLive : bool) (seen : option nat * nat) (s : Local) : bool :=
  wasLive && negb (has_engine s) && bool_decide (current (epi s) = fst seen) && bool_decide (snd (episode_of s) = snd seen).
Definition init_expired (ms : Z) (e : nat) (s : Local) : (bool * (option nat * nat)) * Local :=
  let '(wasLive, s) := deleteIfLive e s in
  let seen := episode_of s in
  let s := if wasLive then on_mem (set_error (Some ("engine.initialize() timed out after " +:+ pretty ms +:+ "ms"))) s else s in
  ((wasLive, seen), begin_end e s).

(** A state nothing has started goes with its engine. *)
Definition drop_unstarted (i : nat) (s : Local) : Local :=
  if negb (has_engine s) && is_current i s && bool_decide (started_of i s = 0%nat) then cancelReconnect s else s.

(** ** Reports of an engine *)

Definition refusesLink (e : nat) (phone : option string) (s : Local) : bool :=
  match engs (reg s) !! e with
  | Some x =>
      match e_phone x, phone with
      | Some previous, Some phone =>
          negb (String.eqb previous "") && (bindingEpoch (mem s) =? e_epoch x) && negb (String.eqb phone "") &&
          negb (String.eqb (userPartOf phone) (userPartOf previous))
      | _, _ => false
      end
  | None => false
  end.

Definition onQRCode (e : nat) (s : Local) : Local :=
  if negb (isLive e s) then s
  else
    let s := match lastError (mem s) with Some r => if startsWith r RECONNECT_LOOP_REASON then on_mem (set_error None) s else s | None => s end in
    persistStatus QR_READY (record (Tell "session:qr") (record (Tell "session.qr") s)).

Definition ready_episode (phone : string) (s : Local) : Local :=
  match state_of s with
  | None => s
  | Some (i, x) =>
      let x1 := match ep_session x with Some v => if String.eqb phone "" then x else set_session (Some (with_phone (Some phone) v)) x | None => x end in
      let x2 := if readyStretchHeld x s then set_att (no_streak (ep_att x)) x1 else x1 in
      let s := match ep_retry x with Some r => end_retry r s | None => s end in
      drop_timer i (on_epi (on_ep i (fun _ => set_retry None (set_ready (Some (clock (out s))) None x2))) s)
  end.
Definition handleEngineReady (e : nat) (phone : string) (s : Local) : Local :=
  if negb (isLive e s) then s
  else
    let s := record_all [Tell "session.authenticated"; Tell "session:ready"] s in
    let s := record WatchdogClear (ready_episode phone s) in
    let s := record RestrictionDisproved (on_mem (set_error None) s) in
    let s := record WriteReady (on_mem (set_stuck false) s) in
    let s := if String.eqb phone "" then s else record (WritePhone (Some phone) false) s in
    let s := record PresenceReapplied s in
    if seeding (out s) then record SeedStatuses s else s.

Definition handleEnginePushName (e : nat) (pushName : string) (s : Local) : Local :=
  if String.eqb pushName "" || negb (isLive e s) || negb (owned (out s)) then s else record WritePushName s.

(** [own]: the number the engine itself reports. *)
Definition onStateChanged (e : nat) (st : Status) (own : option string) (s : Local) : Local :=
  if negb (isLive e s) then s
  else if bool_decide (st = READY) && refusesLink e own s then s
  else
    let s := if bool_decide (st <> READY) then endReadyStretch s else s in
    if bool_decide (st = DISCONNECTED) && isOperatorTeardown e s then s
    else if bool_decide (st = FAILED)
    then let '(parked, s) := parkReconnectInitFailure ParkStatus None s in if (parked : bool) then s else persistStatus FAILED s
    else persistStatus st s.

Definition onActionRequired (e : nat) (reason : string) (s : Local) : Local :=
  if negb (isLive e s) then s else record (Tell "session:error") (on_mem (set_error (Some reason)) s).

Definition onError (e : nat) (reason : string) (s : Local) : Local :=
  if negb (isLive e s) then s
  else
    let s := on_mem (set_error (Some reason)) s in
    let '(parked, s) := parkReconnectInitFailure (ParkError e reason) (Some reason) s in
    if (parked : bool) then s else run_parked (ParkError e reason) s.

Definition onCredentialTeardownStarted (s : Local) : Local := track false 0 Running s.

Definition claimStuckAuthRecovery (e : nat) (s : Local) : bool * Local :=
  if negb (isLive e s) then (false, s) else if stuckAuthUsed (mem s) then (false, s) else (true, on_mem (set_stuck true) s).

Definition rebind_reason (previous incoming : string) : string :=
  "Link rejected: this session is bound to " +:+ previous +:+ ", but a different WhatsApp number (" +:+ incoming +:+
  ") scanned its QR. Re-pair the original number, or delete the session to bind a new one.".
(** [rejectRebind] up to its first await. *)
Definition rejectRebind_begin (e : nat) (previous incoming : string) (s : Local) : bool * Local :=
  if negb (isLive e s) then (false, s)
  else
    let s := record WatchdogClear (cancelReconnect (add_mark s)) in
    let s := record (Audit "SESSION_REBIND_REJECTED") (on_mem (set_error (Some (rebind_reason previous incoming))) s) in
    let s := begin_end e (snd (deleteIfLive e s)) in
    (true, track true (seq (marks (gates s))) Running s).

(** ** A disconnect *)

(** [handleEngineDisconnected] up to its read: the binding it compares with, if it goes on. *)
Definition disconnected_begin (e : nat) (reason : string) (retry : option nat) (s : Local) : option Z * Local :=
  if retry_ended retry s then (None, s)
  else if negb (isLive e s) then (None, reportDroppedUnlink reason retry s)
  else (Some (bindingEpoch (mem s)), s).
Definition disconnected_unread (e : nat) (reason : string) (retry : option nat) (s : Local) : Local :=
  if retry_ended retry s then s
  else
    let reason := match retry with Some r => match retry_at r s with Some y => r_reason y | None => reason end | None => reason end in
    retryDisconnectAfterFailedRead e reason retry s.
Definition disconnected_read (e : nat) (reason : string) (retry : option nat) (epoch : Z) (session : Session) (s : Local) : Local :=
  let session := if bindingEpoch (mem s) =? epoch then session else with_phone None session in
  if retry_ended retry s then s
  else if negb (isLive e s) then reportDroppedUnlink reason retry s
  else
    let reason := if terminal reason then reason else reason_of retry reason s in
    let '(pending, s) := endReadRetry retry (Some reason) s in
    let reason := match pending with Some p => if terminal p && negb (terminal reason) then p else reason | None => reason end in
    let '(cleared, s) := if terminal reason then recordTerminalUnlink false s else (false, s) in
    let session := if (cleared : bool) then with_phone None session else session in
    let s := record (WriteStatus DISCONNECTED) (announceDisconnected s) in
    if negb (isLive e s) then s else scheduleReconnect session s.
End lifecycle.
