(* ===== verification/SessionVerbs.v ===== *)
(** * The engines of one session: the verbs and handlers that await

    modules/session/session-engine-controls.ts, session-engine-lifecycle.service.ts and
    session-lifecycle-fences.ts: start, stop, logout, force-kill and delete, the reconnect
    attempt, the handling of a disconnect and the refusal of a foreign account, as
    programs over the state of SessionEngine.v.  A block of code without an await is one
    effect on the process's memory; what is awaited (the rows, the engine, the hooks, a
    deadline) answers anything.  Where a block is cut into several effects, which it is when
    it goes on from a read of the memory alone, the model only has more interleavings.  A
    report an engine makes from inside a call of the lifecycle comes right after its block.
    stop and delete carry the stop mark SessionService sets for them, from its first step
    to its last. *)
From stdpp Require Import gmap pretty.
From S2P Require Import Prelude JsString WaId Prog StopMarks Reconnect SessionEngine.
Local Open Scope string_scope.
Local Open Scope Z_scope.

(** How an engine's initialize ends, and how SessionService lets a stop or a delete in:
    refused, the session runs elsewhere; failed or missing, the mark is dropped. *)
Inductive InitOutcome := InitDone | InitTimeout | InitRejects (error : string).
Inductive Admission := LetIn | Refused | Failed | Missing.

(** What a task draws for itself, for the statements alone: tokens, and the stamps of the
    stop marks it holds. *)
Definition Token : Type := nat + Z.

Inductive eff : Type -> Type :=
| Sync {B : Type} (f : Local -> B * Local) (drawn : B -> gset Token) : eff B
| TeardownsSettle (n : nat) : eff bool
| ReadSession : eff (result unit (option Session))
| WriteRow : eff (result unit bool)
| PrepareStart : eff (result unit bool)
| InitSettles (e : nat) : eff InitOutcome
| EndSettles (e : nat) : eff bool
| LogoutSettles (e : nat) : eff (bool * bool)
| InitialStatusSettles (e : nat) : eff unit
| OtherHolders : eff Z
| StoppedSince : eff bool
| CreateWorks : eff bool
| Admission_ : eff Admission
| RecordStop : eff (result unit unit)
| RunHook (event : string) : eff unit
| WritesDrained : eff unit
| RemoveRows : eff (result unit unit)
| FailBatches : eff unit
| PurgeDirs : eff unit.

(** A wait at the credential fence answers whether every teardown it began behind has
    settled, by then or by its deadline. *)
Definition run (B : Type) (e : eff B) (s : Local) : B -> Local -> Prop :=
  match e in eff B return B -> Local -> Prop with
  | Sync f _ => fun b s' => (b, s') = f s
  | TeardownsSettle n => fun b s' => b = settled_before n s /\ s' = s
  | _ => fun _ s' => s' = s
  end.

Abbreviation task := (prog eff).
Local Open Scope prog_scope.

Definition sync {B : Type} (f : Local -> B * Local) : task B := act (Sync f (fun _ => ∅)).
Definition sync_ (f : Local -> Local) : task unit := act (Sync (fun s => (tt, f s)) (fun _ => ∅)).
Definition ask {B : Type} (f : Local -> B) : task B := act (Sync (fun s => (f s, s)) (fun _ => ∅)).
Definition sync_drawing {B : Type} (drawn : B -> gset Token) (f : Local -> B * Local) : task B := act (Sync f drawn).

Section verbs.
(** The session's id, this node's id where there is an ownership service,
    [sessions.maxConcurrent] and the deadline of an initialization. *)
Context (sid : string) (nodeId : option string) (maxConcurrent : option Z) (initTimeoutMs : Z).

Local Abbreviation marked := (marked sid).
Local Abbreviation cancelReconnect := (cancelReconnect nodeId).
Local Abbreviation add_mark := (add_mark sid).

Definition AUTH_TIMEOUT : string := "auth timeout".
(** What the lifecycle keeps of an error as its text.  A credential teardown's names the
    session, and a database's or the factory's is its own: here neither is spelled out. *)
Definition exn_text (e : Exn) : string :=
  match e with
  | InitRejected text => text
  | InitTimedOut => "Engine initialization timed out after " +:+ pretty initTimeoutMs +:+ "ms: the engine did not finish starting. WhatsApp Web, the network or the session proxy may be unreachable, or the browser may have stalled during startup (for example a container memory/resource limit). Retry the session; for chronically slow first boots, raise WWEBJS_AUTH_TIMEOUT_MS."
  | AuthTimedOut => "WhatsApp Web authentication timed out. Verify the session proxy URL and network egress can reach WhatsApp; for slow first boots, raise WWEBJS_AUTH_TIMEOUT_MS."
  | ShuttingDown => "Server is shutting down"
  | TeardownPending => "A credential teardown is still in flight. Wait for it to settle and retry."
  | _ => "Error"
  end.

Definition requireSession : task (result Exn Session) :=
  let! r := act ReadSession in
  Ret (match r with Ok (Some x) => Ok x | Ok None => Err NotFound | Err _ => Err DbError end).

Definition updateStatus (st : Status) : task (result Exn unit) :=
  let! r := act WriteRow in
  match r with Err _ => Ret (Err DbError) | Ok _ => let! _ := sync_ (announce st) in Ret (Ok tt) end.

(** ** Fences *)

(** A teardown, bounded: whether it ended in time. *)
Definition teardownEngineSafely (e : nat) : task bool := let! _ := sync_ (begin_end e) in act (EndSettles e).
(** The escalation of a teardown that failed. *)
Definition escalate (e : nat) (ok : bool) : task bool := if ok then Ret true else teardownEngineSafely e.
Definition destroyWithEscalation (e : nat) : task bool := let! ok := teardownEngineSafely e in escalate e ok.
Definition awaitInitialStatus (e : nat) : task unit :=
  let! pending := ask (awaitsInitialStatus e) in
  if (pending : bool) then act (InitialStatusSettles e) else Ret tt.
(** Whether every teardown in flight when it began settled in time. *)
Definition awaitPendingTeardown : task bool :=
  let! n := ask (fun s => length (tds (gates s))) in act (TeardownsSettle n).

(** ** Initialization *)

Definition init_timeout (e : nat) : task (result Exn unit) :=
  let! x := sync (init_expired initTimeoutMs e) in
  let! _ := act (EndSettles e) in
  let! writes := ask (fun s => isCurrentTimeout (fst x) (snd x) s && bool_decide (snd (snd x) = 0%nat)) in
  if (writes : bool) then
    let! w := act WriteRow in
    match w with
    | Err _ => Ret (Err DbError)
    | Ok affected =>
        let! _ := sync_ (fun s => if affected && isCurrentTimeout (fst x) (snd x) s then announce DISCONNECTED s else s) in
        Ret (Err InitTimedOut)
    end
  else Ret (Err InitTimedOut).

(** [initializeEngine] from its first await. *)
Definition init_rest (e : nat) (epoch : Z) (phone : option string) : task (result Exn unit) :=
  let! w := act WriteRow in
  let! _ := sync_ (init_written sid e (is_ok w)) in
  let? goes := sync (init_resume sid e epoch phone (is_ok w)) in
  if negb goes then Ret (Ok tt)
  else
    let! o := act (InitSettles e) in
    match o with
    | InitDone => Ret (Ok tt)
    | InitTimeout => init_timeout e
    | InitRejects error => Ret (Err (if String.eqb error AUTH_TIMEOUT then AuthTimedOut else InitRejected error))
    end.

Definition initializes (r : result Exn (option (nat * Z))) (phone : option string) : task (result Exn unit) :=
  match r with
  | Err ex => Ret (Err ex)
  | Ok None => Ret (Ok tt)
  | Ok (Some (e, epoch)) => init_rest e epoch phone
  end.
(** The engine a call of [initializeEngine] registered. *)
Definition registered (r : result Exn (option (nat * Z))) : option nat := match r with Ok (Some (e, _)) => Some e | _ => None end.

(** ** Retirement *)

Definition present (d : option string) : bool := match d with Some d => negb (String.eqb d "") | None => false end.
Definition isSessionRetired : task (result Exn bool) :=
  let! m := ask marked in
  if (m : bool) then Ret (Ok true)
  else
    let! r := act ReadSession in
    let! now := ask (fun s => clock (out s)) in
    Ret (match r with
         | Err _ => Err DbError
         | Ok None => Ok true
         | Ok (Some x) =>
             Ok (present (s_desired x) ||
                 match nodeId with
                 | Some me => negb (bool_decide (s_node x = Some me)) || match s_lease x with Some t => t <=? now | None => true end
                 | None => false
                 end)
         end).
(** Where a failed read counts as not retired. *)
Definition retired_for_sure (r : result Exn bool) : bool := match r with Ok b => b | Err _ => false end.

Definition purgeAuthDirsIfDeleted : task unit :=
  let! r := act ReadSession in match r with Ok None => act PurgeDirs | _ => Ret tt end.

Definition retireLaunchedEngine (e : nat) : task unit :=
  let! mine := sync (fun s => if isLive e s then (true, begin_end e (mark_operator e s)) else (false, s)) in
  if negb mine then Ret tt
  else
    let! ok := act (EndSettles e) in
    let! _ := escalate e ok in
    let! _ := sync_ (fun s => unmark_operator e (evict e s)) in
    let! w := act WriteRow in
    match w with Ok true => sync_ (announce DISCONNECTED) | _ => Ret tt end.

Definition retire_mine (mine : option nat) : task unit := match mine with Some e => retireLaunchedEngine e | None => Ret tt end.
Definition reapRetiredEngine (mine : option nat) (i : nat) : task unit :=
  let! _ := retire_mine mine in
  let! _ := sync_ (drop_unstarted nodeId i) in
  purgeAuthDirsIfDeleted.

(** ** start *)

(** The reservation: the start's token, the newest stop mark it saw and the binding epoch. *)
Definition start_reserve (s : Local) : result Exn (nat * option Z * Z) * Local :=
  match initializing (gates s) with
  | Some _ => (Err AlreadyStarting, s)
  | None =>
      let '(tok, s) := draw s in
      let s := on_gates (set_initializing (Some tok)) s in
      (Ok (tok, stamp (marks (gates s)) sid, bindingEpoch (mem s)), s)
  end.

Definition start_checks (explicit : bool) (session : Session) (others : Z) (s : Local) : result Exn unit :=
  if present (s_desired session) && negb explicit then Err Stopped
  else if has_engine s then Err AlreadyStarted
  else match maxConcurrent with Some n => if n <=? others then Err TooMany else Ok tt | None => Ok tt end.

(** Past the credential fence. *)
Definition start_gate (tok : nat) (seen : option Z) (settled : bool) (s : Local) : result Exn unit * Local :=
  if negb settled then (Err TeardownPending, s)
  else if has_engine s then (Err AlreadyStarted, s)
  else if bool_decide (deleting (gates s) <> 0%nat) then (Err Stopped, s)
  else if markedSince (marks (gates s)) sid seen then (Err Stopped, s)
  else (Ok tt, set_right (Some tok) (cancelReconnect (clear_marks sid s))).

Definition closedRefusal (s : Local) : Exn := if marked s then Stopped else ShuttingDown.
(** Past the second read: whether the start yields to a stop or to the shutdown. *)
Definition start_yields (explicit : bool) (session current : Session) (since : bool) (s : Local) : result Exn unit * Local :=
  if (present (s_desired current) && (negb explicit || negb (bool_decide (s_desired current = s_desired session)))) || since
  then (Err Stopped, add_mark s)
  else if closed (gates s) then (Err (closedRefusal s), s)
  else (Ok tt, s).
Definition unless_closed (s : Local) : result Exn unit := if closed (gates s) then Err (closedRefusal s) else Ok tt.

(** A start the row refused: a missing row answers for itself, else it was stopped. *)
Definition refused_start {A : Type} : task (result Exn A) :=
  let? _ := requireSession in
  let! _ := sync_ add_mark in Ret (Err Stopped).

(** The launch: a new episode, a new recovery budget, the engine registered. *)
Definition start_launch (works : bool) (tok : nat) (session current : Session) (epoch : Z) (s : Local) :
    (nat * result Exn (option (nat * Z)) * option string) * Local :=
  let phone := if bindingEpoch (mem s) =? epoch then s_phone current else None in
  let i := length (eps (epi s)) in
  let x := mkEp (resolveReconnectConfig (s_max session) (s_base session)) None None false false None 0 None None None tok in
  let s := on_epi (fun p => mkEpisodes (Some i) (eps p ++ [x])%list (retries p) (timers p)) s in
  let s := on_mem (set_stuck false) s in
  let '(r, s) := init_begin sid works tok s in
  ((i, r, phone), set_right None s).

(** What follows the second write that prepares the start: the start reads the row and
    ends, is refused by the row, fails, or launches. *)
Inductive Launch := LaunchReads | LaunchRefused | LaunchFails (ex : Exn) | Launched (i : nat) (init : result Exn (option (nat * Z))) (phone : option string).
Definition start_proceeds (prepared since works : bool) (tok : nat) (session current : Session) (epoch : Z) (s : Local) : Launch * Local :=
  if marked s || since then (LaunchReads, s)
  else if negb prepared then (LaunchRefused, s)
  else if closed (gates s) then (LaunchFails (closedRefusal s), s)
  else let '(i, init, phone, s) := start_launch works tok session current epoch s in (Launched i init phone, s).

(** The launch failed. *)
Definition start_evicts (mine : option nat) (ex : Exn) (s : Local) : option nat * Local :=
  match mine with
  | Some e => let '(b, s) := deleteIfLive e s in
              if b then (Some e, begin_end e (on_mem (set_error (Some (exn_text ex))) s)) else (None, s)
  | None => (None, s)
  end.
Definition start_failed (mine : option nat) (i : nat) (ex : Exn) : task Exn :=
  let! evicted := sync (start_evicts mine ex) in
  let! failedWritten :=
    match evicted with
    | None => Ret false
    | Some e =>
        let! _ := act (EndSettles e) in
        let! writes := ask (fun s => owned (out s) && negb (closed (gates s))) in
        if (writes : bool) then let! _ := updateStatus FAILED in Ret true else Ret false
    end in
  let! _ := sync_ (drop_unstarted nodeId i) in
  ask (fun s => if closed (gates s) && negb failedWritten && negb (marked s) then ShuttingDown else ex).

(** The launch succeeded: what start answers. *)
Definition start_settles (session : Session) (mine : option nat) (i : nat) : task (result Exn Session) :=
  let! r := isSessionRetired in
  let retired := retired_for_sure r in
  let! closing := ask (fun s => closed (gates s)) in
  let! _ := (if retired then reapRetiredEngine mine i else Ret tt) in
  if negb retired && closing then Ret (Err ShuttingDown)
  else
    let! final := requireSession in
    match final with
    | Ok x => Ret (Ok x)
    | Err NotFound => let! _ := (if retired then Ret tt else reapRetiredEngine mine i) in Ret (Err NotFound)
    | Err ex => Ret (if retired then Err ex else Ok session)
    end.

Definition start_body (explicit : bool) (tok : nat) (seen : option Z) (epoch : Z) : task (result Exn Session) :=
  let? session := requireSession in
  let! others := act OtherHolders in
  let? _ := ask (start_checks explicit session others) in
  let! settled := awaitPendingTeardown in
  let? _ := sync (start_gate tok seen settled) in
  let? current := requireSession in
  let! since := act StoppedSince in
  let? _ := sync (start_yields explicit session current since) in
  let! prepared := act PrepareStart in
  match prepared with
  | Err _ => Ret (Err DbError)
  | Ok false => refused_start
  | Ok true =>
    let? _ := ask unless_closed in
    let! _ := act (RunHook "session:starting") in
    let! stopped := ask marked in
    if (stopped : bool) then requireSession
    else
      let! prepared := act PrepareStart in
      let! since := act StoppedSince in
      let! works := act CreateWorks in
      match prepared with
      | Err _ => Ret (Err DbError)
      | Ok p =>
        let! l := sync (start_proceeds p since works tok session current epoch) in
        match l with
        | LaunchReads => requireSession
        | LaunchRefused => refused_start
        | LaunchFails ex => Ret (Err ex)
        | Launched i init phone =>
          let! r := initializes init phone in
          match r with
          | Err ex => let! ex := start_failed (registered init) i ex in Ret (Err ex)
          | Ok _ => start_settles session (registered init) i
          end
        end
      end
  end.

(** The reservation ends. *)
Definition start_release (tok : nat) (s : Local) : Local :=
  let s := on_gates (set_initializing None) s in
  if bool_decide (right (ghost s) = Some tok) then set_right None s else s.

Definition start_drawn (r : result Exn (nat * option Z * Z)) : gset Token := match r with Ok (tok, _, _) => {[inl tok]} | Err _ => ∅ end.
Definition start (explicit : bool) : task (result Exn Session) :=
  let! r := sync_drawing start_drawn start_reserve in
  match r with
  | Err ex => Ret (Err ex)
  | Ok (tok, seen, epoch) =>
      let! a := start_body explicit tok seen epoch in
      let! _ := sync_ (start_release tok) in Ret a
  end.

(** ** The reconnect attempt *)

(** [withEpisodeBinding] *)
Definition withEpisodeBinding (i : nat) (session : Session) (s : Local) : Session :=
  match eps (epi s) !! i with
  | Some x => match ep_session x with
              | Some v => if bool_decide (s_phone v = s_phone session) then session else with_phone (s_phone v) session
              | None => session
              end
  | None => session
  end.
Definition attempt_stands (i attempt : nat) (s : Local) : bool := is_current i s && bool_decide (started_of i s = attempt).
Definition set_attempt_flag (f : bool -> Ep -> Ep) (v : bool) (i attempt : nat) (s : Local) : Local :=
  if bool_decide (started_of i s = attempt) then on_epi (on_ep i (f v)) s else s.

(** [executeReconnect] up to its first await: its number, its token and the old engine,
    which is told to end. *)
Definition attempt_begin (i : nat) (s : Local) : option (nat * nat * option nat) * Local :=
  if marked s then (None, if is_current i s then cancelReconnect s else s)
  else
    let '(tok, s) := draw s in
    let attempt := S (started_of i s) in
    let s := on_epi (on_ep i (fun x => set_tearing true (set_started attempt tok x))) s in
    match live (reg s) with
    | Some e => (Some (attempt, tok, Some e), begin_end e s)
    | None => (Some (attempt, tok, None), if is_current i s then set_right (Some tok) s else s)
    end.

(** The old engine is gone: whether its unlink cleared the phone. *)
Definition attempt_evict (i attempt tok e : nat) (s : Local) : bool * Local :=
  let s := snd (deleteIfLive e s) in
  if attempt_stands i attempt s then endReadRetryOfGoneEngine nodeId (set_right (Some tok) s) else (false, s).

(** Past the credential fence: an error for the catch, the end, or the new engine. *)
Inductive Gate := GateFails (ex : Exn) | GateEnds | GateInits (init : result Exn (option (nat * Z))) (session : Session).
Definition attempt_gate (i attempt tok : nat) (settled works : bool) (session : Session) (s : Local) : Gate * Local :=
  let s := set_attempt_flag set_tearing false i attempt s in
  if negb settled then (GateFails TeardownPending, s)
  else if negb (is_current i s) || marked s then (GateEnds, if is_current i s then cancelReconnect s else s)
  else if negb (bool_decide (started_of i s = attempt)) then (GateEnds, s)
  else
    let session := withEpisodeBinding i session s in
    let s := on_epi (on_ep i (set_init true)) s in
    let '(r, s) := init_begin sid works tok s in
    (GateInits r session, set_right None s).

(** The initialization settled: whether the attempt is still this episode's. *)
Definition attempt_settled (i attempt : nat) (s : Local) : bool * Local :=
  let s := set_attempt_flag set_init false i attempt s in
  if negb (attempt_stands i attempt s) then (false, s)
  else
    let parked := match eps (epi s) !! i with Some x => ep_parked x | None => None end in
    let s := on_epi (on_ep i (set_parked None)) s in
    (true, match parked with Some (run, _) => if is_current i s then run_parked nodeId run s else s | None => s end).

(** The catch: whether another attempt or a control owns the episode now. *)
Definition attempt_failed (i attempt : nat) (mine : option nat) (session : Session) (ex : Exn) (s : Local) : bool * Local :=
  let s := set_attempt_flag set_init false i attempt s in
  if negb (attempt_stands i attempt s) then (false, s)
  else
    let parked := match eps (epi s) !! i with Some x => ep_parked x | None => None end in
    let s := on_epi (on_ep i (set_parked None)) s in
    let over := match parked with Some (run, terminal) => if terminal || isKnownTerminalEngineFailure (exn_text ex) then Some run else None | None => None end in
    (true,
     match over with
     | Some run => run_parked nodeId run s
     | None =>
         let s := match mine with Some e => if isLive e s then evictAndForceDestroy e s else s | None => s end in
         if has_engine s || negb (bool_decide (started_of i s = attempt)) then s
         else if marked s then cancelReconnect s
         else
           let '(cleared, s) := endReadRetryOfGoneEngine nodeId s in
           let session := if (cleared : bool) then with_phone None session else session in
           scheduleReconnect nodeId (withEpisodeBinding i session s) s
     end).

Definition attempt_catches (i attempt : nat) (mine : option nat) (session : Session) (ex : Exn) : task unit :=
  let! stands := sync (attempt_failed i attempt mine session ex) in
  if (stands : bool) then Ret tt else purgeAuthDirsIfDeleted.

Definition attempt_retires (i attempt : nat) (mine : option nat) : task unit :=
  let! r := isSessionRetired in
  if retired_for_sure r then
    let! _ := retire_mine mine in
    let! _ := sync_ (fun s => if negb (has_engine s) && attempt_stands i attempt s then cancelReconnect s else s) in
    purgeAuthDirsIfDeleted
  else Ret tt.

Definition attempt_rest (i attempt tok : nat) (session : Session) : task unit :=
  let! settled := awaitPendingTeardown in
  let! works := act CreateWorks in
  let! g := sync (attempt_gate i attempt tok settled works session) in
  match g with
  | GateFails ex => attempt_catches i attempt None session ex
  | GateEnds => Ret tt
  | GateInits init session =>
      let! r := initializes init (s_phone session) in
      match r with
      | Err ex => attempt_catches i attempt (registered init) session ex
      | Ok _ =>
          let! stands := sync (attempt_settled i attempt) in
          if (stands : bool) then attempt_retires i attempt (registered init) else purgeAuthDirsIfDeleted
      end
  end.

(** [executeReconnect], given what its first step did. *)
Definition executeReconnect (i : nat) (session : Session) (b : option (nat * nat * option nat)) : task unit :=
  match b with
  | None => Ret tt
  | Some (attempt, tok, None) => attempt_rest i attempt tok session
  | Some (attempt, tok, Some e) =>
      let! ok := act (EndSettles e) in
      let! _ := escalate e ok in
      let! cleared := sync (attempt_evict i attempt tok e) in
      attempt_rest i attempt tok (if (cleared : bool) then with_phone None session else session)
  end.

(** ** A disconnect, and the timers *)

Definition disconnected_rest (e : nat) (reason : string) (retry : option nat) (epoch : Z) : task unit :=
  let! r := act ReadSession in
  match r with
  | Err _ => sync_ (disconnected_unread nodeId e reason retry)
  | Ok None => Ret tt
  | Ok (Some session) => sync_ (disconnected_read nodeId e reason retry epoch session)
  end.
Definition handleEngineDisconnected (e : nat) (reason : string) (retry : option nat) : task unit :=
  let! b := sync (disconnected_begin nodeId e reason retry) in
  match b with None => Ret tt | Some epoch => disconnected_rest e reason retry epoch end.

Inductive Fired := FireNone | FireAttempt (i : nat) (session : Session) (b : option (nat * nat * option nat)) | FireRetry (e : nat) (reason : string) (retry : nat) (b : option Z).
(** The callback of a timer, up to its first await. *)
Definition fire_begin (t : nat) (s : Local) : Fired * Local :=
  match timers (epi s) !! t with
  | Some (Some (JReconnect i session)) =>
      let s := on_epi (on_ep i (set_timer None)) (clearTimeout t s) in
      let session := match eps (epi s) !! i with Some x => default session (ep_session x) | None => session end in
      let '(b, s) := attempt_begin i s in (FireAttempt i session b, s)
  | Some (Some (JRetry i r e)) =>
      let s := on_epi (on_ep i (set_timer None)) (clearTimeout t s) in
      let reason := match retry_at r s with Some y => r_reason y | None => "" end in
      let '(b, s) := disconnected_begin nodeId e reason (Some r) s in (FireRetry e reason r b, s)
  | _ => (FireNone, s)
  end.
Definition fire_drawn (f : Fired) : gset Token := match f with FireAttempt _ _ (Some (_, tok, _)) => {[inl tok]} | _ => ∅ end.
Definition fire (t : nat) : task unit :=
  let! f := sync_drawing fire_drawn (fire_begin t) in
  match f with
  | FireNone => Ret tt
  | FireAttempt i session b => executeReconnect i session b
  | FireRetry _ _ _ None => Ret tt
  | FireRetry e reason r (Some epoch) => disconnected_rest e reason (Some r) epoch
  end.

(** ** stop *)

(** [requireSessionOrDropStopMark] *)
Definition requireSessionOrDropStopMark (mark : Z) : task (result Exn Session) :=
  let! r := requireSession in
  match r with
  | Ok x => Ret (Ok x)
  | Err ex =>
      let! _ := sync_ (drop_mark sid mark) in
      let! _ := (match ex with NotFound => sync_ (drop_finished sid) | _ => Ret tt end) in
      Ret (Err ex)
  end.

(** The engine a control captured is torn down, gracefully first, and leaves the registry. *)
Definition retires (e : nat) : task bool :=
  let! _ := awaitInitialStatus e in
  let! (ok : bool) := teardownEngineSafely e in
  let! ok := escalate e ok in
  let! _ := sync_ (evict e) in
  Ret ok.
(** The control's own write of DISCONNECTED; its mark as the retiring control ends with it
    where [ends]. *)
Definition stop (mark : Z) : task (result Exn Session) :=
  let? _ := requireSessionOrDropStopMark mark in
  let! recorded := act RecordStop in
  match recorded with
  | Err _ => let! _ := sync_ (drop_mark sid mark) in Ret (Err DbError)
  | Ok _ =>
      let! engine := sync (fun s => let '(e, s) := take_down sid nodeId s in (e, match e with Some e => mark_operator e s | None => s end)) in
      let! ok := (match engine with Some e => retires e | None => Ret true end) in
      let! r := (if ok then Ret (Ok tt) else updateStatus DISCONNECTED) in
      let! _ := sync_ (fun s => match engine with Some e => unmark_operator e s | None => s end) in
      let? _ := Ret r in
      if negb ok then Ret (Err Incomplete)
      else
        let? _ := updateStatus DISCONNECTED in
        requireSession
  end.

(** How SessionService admits a stop or a delete, its mark set. *)
Definition admitted (mark : Z) (body : task (result Exn unit)) : task (result Exn unit) :=
  let! a := act Admission_ in
  match a with
  | LetIn => body
  | Refused => Ret (Err HeldElsewhere)
  | Failed => let! _ := sync_ (drop_mark sid mark) in Ret (Err DbError)
  | Missing => let! _ := sync_ (drop_mark sid mark) in Ret (Err NotFound)
  end.
Definition holdDelete (s : Local) : Local := on_gates (fun g => set_deleting (S (deleting g)) g) s.
Definition endDelete (s : Local) : Local := on_gates (fun g => set_deleting (pred (deleting g)) g) s.
(** The mark is set in the request's first step; [deletes]: the delete counts as running from there. *)
Definition mark_begin (deletes : bool) (s : Local) : Z * Local :=
  let '(mark, s) := hold_mark sid s in (mark, if deletes then holdDelete s else s).
Definition marked_request (deletes : bool) (body : Z -> task (result Exn unit)) : task (result Exn unit) :=
  let! mark := sync_drawing (fun t => {[inr t]}) (mark_begin deletes) in
  let! r := admitted mark (body mark) in
  let! _ := (if deletes then sync_ endDelete else Ret tt) in
  let! _ := (match r with
             | Err NotFound => let! _ := sync_ (drop_mark sid mark) in sync_ (drop_finished sid)
             | _ => Ret tt
             end) in
  let! _ := sync_ (settle_mark sid mark) in
  Ret r.
Definition requestStop : task (result Exn unit) :=
  marked_request false (fun mark => let? _ := stop mark in Ret (Ok tt)).

(** ** logout *)

(** The engine is found, the session marked down and the placeholder of the teardown
    tracked: the engine, the placeholder's place and the token that holds it. *)
Definition logout_begin (s : Local) : result Exn (nat * nat * nat) * Local :=
  match live (reg s) with
  | None => (Err NotStarted, s)
  | Some e =>
      let '(tok, s) := draw s in
      let s := mark_operator e (cancelReconnect (add_mark s)) in
      let h := length (tds (gates s)) in
      (Ok (e, h, tok), track true (seq (marks (gates s))) (Held tok) s)
  end.
(** The engine's logout is called: the teardown runs. *)
Definition logout_launch (e h : nat) (s : Local) : Local :=
  begin_end e (on_gates (fun g => set_tds (alter (fun x => mkTd (td_own x) (td_mark x) Running) h (tds g)) g) s).

Definition logout_drawn (r : result Exn (nat * nat * nat)) : gset Token := match r with Ok (_, _, tok) => {[inl tok]} | Err _ => ∅ end.
Definition logout : task (result Exn Session) :=
  let? _ := requireSession in
  let? (e, h, tok) := sync_drawing logout_drawn logout_begin in
  let! _ := awaitInitialStatus e in
  let! _ := sync_ (logout_launch e h) in
  let! (o : bool * bool) := act (LogoutSettles e) in
  let! _ := sync_ (evict e) in
  let! w := act WriteRow in
  let! (r : result Exn unit) := (match w with Err _ => Ret (Err DbError) | Ok _ => updateStatus DISCONNECTED end) in
  let! _ := sync_ (unmark_operator e) in
  let? _ := Ret r in
  if snd o then Ret (Err NeverLinked)
  else if negb (fst o) then Ret (Err Incomplete)
  else requireSession.

(** ** force-kill *)

Definition kill_begin (s : Local) : result Exn nat * Local :=
  match live (reg s) with None => (Err NotStarted, s) | Some e => (Ok e, cancelReconnect (add_mark s)) end.
Definition forceKill : task (result Exn Session) :=
  let? _ := requireSession in
  let? e := sync kill_begin in
  let! _ := act RecordStop in
  let! _ := sync_ (mark_operator e) in
  let! _ := awaitInitialStatus e in
  let! (ok : bool) := teardownEngineSafely e in
  let! _ := sync_ (evict e) in
  let! r := updateStatus DISCONNECTED in
  let! _ := sync_ (unmark_operator e) in
  let? _ := Ret r in
  if ok then requireSession else Ret (Err Incomplete).

(** ** delete *)

Definition delete_begin (s : Local) : (Z * option nat) * Local :=
  let '(own, s) := hold_mark sid s in
  let s := holdDelete (record CloseWrites (cancelReconnect s)) in
  ((own, live (reg s)), s).
Definition delete_end (removed : bool) (mark own : Z) (s : Local) : Local :=
  let s := endDelete (record ReleaseWrites s) in
  if removed
  then record PresenceClear (on_mem (fun m => set_epoch 0 (set_stuck false (set_error None (set_dispatched None m)))) (note_gone (clear_marks sid s)))
  else drop_mark sid mark (drop_mark sid own s).

Definition delete_body (engine : option nat) : task (result Exn unit) :=
  let! _ := (match engine with
             | Some e => let! _ := awaitInitialStatus e in let! _ := teardownEngineSafely e in sync_ (evict e)
             | None => Ret tt
             end) in
  let! settled := awaitPendingTeardown in
  if negb settled then
    let! _ := (match engine with Some _ => updateStatus DISCONNECTED | None => Ret (Ok tt) end) in
    Ret (Err TeardownPending)
  else
    let! _ := act WritesDrained in
    let! _ := act (RunHook "session:deleted") in
    let! r := act RemoveRows in
    match r with Err _ => Ret (Err DbError) | Ok _ => let! _ := act PurgeDirs in Ret (Ok tt) end.

Definition delete (mark : Z) : task (result Exn unit) :=
  let? _ := requireSessionOrDropStopMark mark in
  let! settled := awaitPendingTeardown in
  if negb settled then Ret (Err TeardownPending)
  else
    let! x := sync_drawing (fun x => {[inr (fst x)]}) delete_begin in
    let! r := delete_body (snd x) in
    let! _ := (if is_ok r then Ret tt else act FailBatches) in
    let! _ := sync_ (delete_end (is_ok r) mark (fst x)) in
    Ret r.

Definition requestDelete : task (result Exn unit) := marked_request true delete.

(** ** The rest *)

(** One id of [stopOrphanEngines]: whether an engine was stopped, if there was one. *)
Definition stopOrphanEngine : task (option bool) :=
  let! engine := sync (take_down sid nodeId) in
  match engine with
  | None => Ret None
  | Some e => let! ok := destroyWithEscalation e in let! _ := sync_ (evict e) in Ret (Some ok)
  end.

Definition shutdown_begin (s : Local) : option nat * Local :=
  let s := on_epi (set_current None) (cancelReconnect (on_gates set_closed s)) in
  match live (reg s) with Some e => (Some e, begin_end e s) | None => (None, s) end.
Definition clear_registry (s : Local) : Local :=
  match live (reg s) with Some e => record (Retired e) (on_reg (set_live None) s) | None => s end.
Definition shutdown : task unit :=
  let! engine := sync shutdown_begin in
  let! _ := (match engine with Some e => act (EndSettles e) | None => Ret true end) in
  sync_ clear_registry.

(** [rejectRebind] *)
Definition rejectRebind (e : nat) (previous incoming : string) : task unit :=
  let! goes := sync (rejectRebind_begin sid nodeId e previous incoming) in
  if negb goes then Ret tt
  else
    let! _ := act (LogoutSettles e) in
    let! writes := ask (fun s => negb (has_engine s) && owned (out s)) in
    if (writes : bool) then let! _ := updateStatus FAILED in Ret tt else Ret tt.

Definition onReady (e : nat) (phone : string) : task unit :=
  let! refused := sync (fun s =>
    if refusesLink e (Some phone) s
    then (match engs (reg s) !! e with Some x => e_phone x | None => None end, s)
    else (None, handleEngineReady e phone s)) in
  match refused with Some previous => rejectRebind e previous phone | None => Ret tt end.
Definition onDisconnected (e : nat) (reason : string) : task unit :=
  let! b := sync (fun s => if isLive e s then disconnected_begin nodeId e reason None s else (None, reportDroppedUnlink nodeId reason None s)) in
  match b with None => Ret tt | Some epoch => disconnected_rest e reason None epoch end.

(** What may start at any moment: a verb of the API, the timers, the reports of an
    engine, the answer to a status write that nothing waits for. *)
Inductive starts (s : Local) : task unit -> Prop :=
| st_start explicit : starts s (let! _ := start explicit in Ret tt)
| st_stop : starts s (let! _ := requestStop in Ret tt)
| st_logout : starts s (let! _ := logout in Ret tt)
| st_kill : starts s (let! _ := forceKill in Ret tt)
| st_delete : starts s (let! _ := requestDelete in Ret tt)
| st_orphan : starts s (let! _ := stopOrphanEngine in Ret tt)
| st_shutdown : starts s shutdown
| st_fire t : starts s (fire t)
| st_watchdog e reason : starts s (handleEngineDisconnected e reason None)
| st_qr e : starts s (sync_ (onQRCode e))
| st_ready e phone : starts s (onReady e phone)
| st_name e name : starts s (sync_ (handleEnginePushName e name))
| st_state e st own : starts s (sync_ (onStateChanged e st own))
| st_action e reason : starts s (sync_ (onActionRequired e reason))
| st_error e reason : starts s (sync_ (onError nodeId e reason))
| st_disconnected e reason : starts s (onDisconnected e reason)
| st_teardown : starts s (sync_ onCredentialTeardownStarted)
| st_claim e : starts s (let! _ := sync (claimStuckAuthRecovery e) in Ret tt)
| st_written st : In (WriteStatus st) (log (mem s)) -> starts s (sync_ (announce st)).

(** The world moves: the claim, the clock, the drain flag; a teardown that runs settles. *)
Inductive env (s : Local) : Local -> Prop :=
| env_out o : env s (mkL (reg s) (gates s) (epi s) (mem s) o (ghost s))
| env_settle h x : tds (gates s) !! h = Some x -> td_phase x = Running ->
    env s (on_gates (fun g => set_tds (<[h := mkTd (td_own x) (td_mark x) Settled]> (tds g)) g) s).
End verbs.
