(* ===== verification/SessionEngineLaws.v ===== *)
(** * The engines of one session: laws of the blocks

    What the blocks of SessionEngine.v that neither register an engine nor move a gate
    may do ([calm]): end and evict the live engine, drop the episode, arm or clear its
    timer; and what the operations on the stop marks keep. *)
From stdpp Require Import gmap sorting pretty.
From S2P Require Import Prelude JsString StopMarks Reconnect SessionEngine.
Local Open Scope Z_scope.

(** ** Lists changed in place *)

Lemma Forall2_alter {A : Type} (R : A -> A -> Prop) (f : A -> A) i l : Reflexive R -> (forall x, l !! i = Some x -> R x (f x)) -> Forall2 R l (alter f i l).
Proof.
  intros HR. revert i. induction l as [|a l IH]; intros [|i] H; cbn; [constructor|constructor|constructor|constructor].
  - by apply H.
  - by apply Forall_Forall2_diag, Forall_true.
  - done.
  - apply IH. intros x Hx. by apply H.
Qed.
Lemma Forall2_refl' {A : Type} (R : A -> A -> Prop) l : Reflexive R -> Forall2 R l l.
Proof. intros HR. by apply Forall_Forall2_diag, Forall_true. Qed.

(** ** Calm blocks *)

Record eng_le (x y : Eng) : Prop := mkEngLe {
  el_end : e_ended x = true -> e_ended y = true; el_phone : e_phone y = e_phone x; el_epoch : e_epoch y = e_epoch x;
  el_tok : e_tok y = e_tok x; el_launch : e_launch y = e_launch x; el_inits : e_inits y = e_inits x }.
Definition ep_le (x y : Ep) : Prop := ep_started y = ep_started x /\ ep_tok y = ep_tok x.
#[export] Instance eng_le_preorder : PreOrder eng_le.
Proof. split; [by intros [? ? ? ? ? ?]; split|]. intros x y z [H1 H2 H3 H4 H5 H6] [K1 K2 K3 K4 K5 K6]. split; [auto|congruence..]. Qed.
#[export] Instance ep_le_preorder : PreOrder ep_le.
Proof. split; [done|]. unfold ep_le. intros x y z [H1 H2] [K1 K2]. split; congruence. Qed.

Definition job_ep (j : Job) : nat := match j with JReconnect i _ => i | JRetry i _ _ => i end.
(** An armed timer is the one of the current episode. *)
Definition timers_ok (p : Episodes) : Prop :=
  forall t j, timers p !! t = Some (Some j) -> exists x, current p = Some (job_ep j) /\ eps p !! job_ep j = Some x /\ ep_timer x = Some t.

Definition has_ended (e : nat) (r : Registry) : Prop := forall x, engs r !! e = Some x -> e_ended x = true.

Record calm (s s' : Local) : Prop := mkCalm {
  c_gates : gates s' = gates s;
  c_out : out s' = out s;
  c_ghost : ghost s' = ghost s;
  c_live : live (reg s') = live (reg s) \/ exists e, live (reg s) = Some e /\ live (reg s') = None /\ has_ended e (reg s');
  c_engs : Forall2 eng_le (engs (reg s)) (engs (reg s'));
  c_cur : current (epi s') = current (epi s) \/ current (epi s') = None;
  c_eps : Forall2 ep_le (eps (epi s)) (eps (epi s'));
  c_timers : timers_ok (epi s) -> timers_ok (epi s')
}.

Lemma has_ended_le e r r' : Forall2 eng_le (engs r) (engs r') -> has_ended e r -> has_ended e r'.
Proof. intros HF H y Hy. destruct (Forall2_lookup_r _ _ _ _ _ HF Hy) as (x & Hx & Hle). by apply (el_end _ _ Hle), H. Qed.

#[export] Instance calm_preorder : PreOrder calm.
Proof.
  split.
  - intros s. split; auto; by apply Forall2_refl'; intros ?.
  - intros s1 s2 s3 H K. destruct H as [G O Gh L E C P T], K as [G' O' Gh' L' E' C' P' T']. split.
    + congruence.
    + congruence.
    + congruence.
    + destruct L as [L|(e & L1 & L2 & L3)], L' as [L'|(e' & L1' & L2' & L3')].
      * left. congruence.
      * right. exists e'. split_and!; [congruence|done|done].
      * right. exists e. split_and!; [done|congruence|by eapply has_ended_le].
      * congruence.
    + by etrans.
    + destruct C as [C|C], C' as [C'|C']; rewrite ?C' in *; auto; left; congruence.
    + by etrans.
    + auto.
Qed.

(** A block that keeps the registry and the episodes. *)
Lemma calm_same s s' : gates s' = gates s -> out s' = out s -> ghost s' = ghost s -> reg s' = reg s -> epi s' = epi s -> calm s s'.
Proof. intros H1 H2 H3 H4 H5. split; rewrite ?H1, ?H2, ?H3, ?H4, ?H5; auto; by apply Forall2_refl'; intros ?. Qed.
Lemma calm_mem f s : calm s (on_mem f s).
Proof. by apply calm_same. Qed.
Lemma calm_record c s : calm s (record c s).
Proof. by apply calm_same. Qed.
Lemma calm_record_all l s : calm s (record_all l s).
Proof. unfold record_all. revert s. induction l as [|c l IH]; intros s; [done|]. cbn [fold_left]. etrans; [|apply IH]. apply calm_record. Qed.

(** A block on the registry. *)
Lemma calm_reg f s :
  (live (f (reg s)) = live (reg s) \/ exists e, live (reg s) = Some e /\ live (f (reg s)) = None /\ has_ended e (f (reg s))) ->
  Forall2 eng_le (engs (reg s)) (engs (f (reg s))) -> calm s (on_reg f s).
Proof. intros HL HE. split; cbn; auto; by apply Forall2_refl'; intros ?. Qed.
(** A block on the episodes. *)
Lemma calm_epi f s :
  (current (f (epi s)) = current (epi s) \/ current (f (epi s)) = None) -> Forall2 ep_le (eps (epi s)) (eps (f (epi s))) ->
  (timers_ok (epi s) -> timers_ok (f (epi s))) -> calm s (on_epi f s).
Proof. intros HC HE HT. split; cbn; auto; by apply Forall2_refl'; intros ?. Qed.

Lemma calm_retries g s : calm s (on_epi (fun p => mkEpisodes (current p) (eps p) (g (retries p)) (timers p)) s).
Proof. apply calm_epi; cbn; auto. by apply Forall2_refl'; intros ?. Qed.

Lemma timers_alter i f p : (forall x, ep_timer (f x) = ep_timer x) -> timers_ok p -> timers_ok (on_ep i f p).
Proof.
  intros Hf H t j Ht. destruct (H t j Ht) as (x & Hc & Hx & Hxt). cbn. destruct (decide (i = job_ep j)) as [->|Hne].
  - exists (f x). rewrite list_lookup_alter_eq, Hx. split_and!; [done|done|by rewrite Hf].
  - exists x. by rewrite list_lookup_alter_ne.
Qed.
Lemma calm_ep i f s : (forall x, ep_timer (f x) = ep_timer x) -> (forall x, ep_le x (f x)) -> calm s (on_epi (on_ep i f) s).
Proof. intros Ht Hf. apply calm_epi; [by left| |by apply timers_alter]. apply Forall2_alter; [by intros ?|auto]. Qed.

Ltac calm_ep := apply calm_ep; [by intros []|by intros []; split].

Lemma calm_begin_end e s : calm s (begin_end e s).
Proof. apply calm_reg; [by left|]. apply Forall2_alter; [by intros ?|]. intros x _. by destruct x. Qed.
Lemma begin_end_ends e s : has_ended e (reg (begin_end e s)).
Proof. intros x Hx. unfold begin_end, on_eng in Hx. cbn in Hx. rewrite list_lookup_alter_eq in Hx. destruct (engs (reg s) !! e); [|done]. cbn in Hx. by injection Hx as <-. Qed.

Lemma isLive_spec e s : isLive e s = true <-> live (reg s) = Some e.
Proof. unfold isLive. apply bool_decide_eq_true. Qed.
Lemma isLive_false e s : isLive e s = false <-> live (reg s) <> Some e.
Proof. unfold isLive. apply bool_decide_eq_false. Qed.
Lemma has_engine_false s : has_engine s = false <-> live (reg s) = None.
Proof. unfold has_engine. rewrite bool_decide_eq_false. symmetry. apply eq_None_not_Some. Qed.

(** An engine that has ended leaves the registry. *)
Lemma calm_delete e s : has_ended e (reg s) -> calm s (snd (deleteIfLive e s)).
Proof.
  intros He. unfold deleteIfLive. destruct (isLive e s) eqn:El; [|done]. cbn [snd]. etrans; [|apply calm_record]. apply isLive_spec in El.
  apply calm_reg; [|by apply Forall2_refl'; intros ?]. right. by exists e.
Qed.
(** An engine is evicted and ended, in either order. *)
Lemma calm_evict_end e g s :
  (forall s1, reg (g s1) = reg s1 /\ gates (g s1) = gates s1 /\ out (g s1) = out s1 /\ ghost (g s1) = ghost s1 /\ epi (g s1) = epi s1) ->
  calm s (begin_end e (g (snd (deleteIfLive e s)))).
Proof.
  intros Hg. unfold deleteIfLive. destruct (isLive e s) eqn:El; cbn [snd].
  - apply isLive_spec in El. destruct (Hg (record (Retired e) (on_reg (set_live None) s))) as (H1 & H2 & H3 & H4 & H5).
    assert (Forall2 ep_le (eps (epi s)) (eps (epi s))) as HE by (by apply Forall2_refl'; intros ?).
    split; cbn; rewrite ?H1, ?H2, ?H3, ?H4, ?H5; cbn; auto.
    + right. exists e. split_and!; [done|done|]. pose proof (begin_end_ends e (g (record (Retired e) (on_reg (set_live None) s)))) as Hb. cbn in Hb. by rewrite H1 in Hb.
    + apply Forall2_alter; [by intros ?|]. intros x _. by destruct x.
  - destruct (Hg s) as (H1 & H2 & H3 & H4 & H5). etrans; [|apply calm_begin_end]. by apply calm_same.
Qed.
Lemma calm_evictAndForceDestroy e s : calm s (evictAndForceDestroy e s).
Proof. unfold evictAndForceDestroy. by apply (calm_evict_end e (fun s => s)). Qed.

(** ** Timers *)

Lemma timers_drop i p :
  timers_ok p -> timers_ok (match eps p !! i with
                            | Some x => match ep_timer x with Some t => on_ep i (set_timer None) (set_timers (<[t := None]> (timers p)) p) | None => p end
                            | None => p end).
Proof.
  intros H. destruct (eps p !! i) as [x|] eqn:Ex; [|done]. destruct (ep_timer x) as [t|] eqn:Et; [|done].
  intros t' j Ht. cbn in Ht. destruct (decide (t = t')) as [<-|Hne].
  { destruct (decide (t < length (timers p))%nat); [by rewrite list_lookup_insert_eq in Ht|].
    rewrite list_insert_ge in Ht by lia. apply lookup_lt_Some in Ht. lia. }
  rewrite list_lookup_insert_ne in Ht by done. destruct (H t' j Ht) as (y & Hc & Hy & Hyt). exists y. cbn.
  destruct (decide (i = job_ep j)) as [->|Hi]; [congruence|]. by rewrite list_lookup_alter_ne.
Qed.
Lemma drop_timer_epi i s : epi (drop_timer i s) =
  match eps (epi s) !! i with
  | Some x => match ep_timer x with Some t => on_ep i (set_timer None) (set_timers (<[t := None]> (timers (epi s))) (epi s)) | None => epi s end
  | None => epi s end.
Proof. unfold drop_timer. destruct (eps (epi s) !! i) as [x|]; [|done]. by destruct (ep_timer x). Qed.
Lemma calm_drop_timer i s : calm s (drop_timer i s).
Proof.
  pose proof (timers_drop i (epi s)) as HT. rewrite <- drop_timer_epi in HT.
  assert (gates (drop_timer i s) = gates s /\ out (drop_timer i s) = out s /\ ghost (drop_timer i s) = ghost s /\ reg (drop_timer i s) = reg s
    /\ current (epi (drop_timer i s)) = current (epi s) /\ Forall2 ep_le (eps (epi s)) (eps (epi (drop_timer i s)))) as (H1 & H2 & H3 & H4 & H5 & H6).
  { unfold drop_timer. destruct (eps (epi s) !! i) as [x|]; [|by split_and!; try done; apply Forall2_refl'; intros ?].
    destruct (ep_timer x); [|by split_and!; try done; apply Forall2_refl'; intros ?]. split_and!; try done. cbn. apply Forall2_alter; [by intros ?|]. by intros []. }
  split; rewrite ?H1, ?H2, ?H3, ?H4; auto. by apply Forall2_refl'; intros ?.
Qed.

(** No timer is armed once the current episode's is dropped. *)
Lemma dropped_unarmed s t j : timers_ok (epi s) -> timers (epi (match current (epi s) with Some i => drop_timer i s | None => s end)) !! t = Some (Some j) -> False.
Proof.
  intros H Ht. destruct (current (epi s)) as [i|] eqn:Ec.
  - rewrite drop_timer_epi in Ht. destruct (eps (epi s) !! i) as [x|] eqn:Ex.
    + destruct (ep_timer x) as [t0|] eqn:Et.
      * cbn in Ht. destruct (decide (t0 = t)) as [->|Hne].
        { destruct (decide (t < length (timers (epi s)))%nat); [by rewrite list_lookup_insert_eq in Ht|].
          rewrite list_insert_ge in Ht by lia. apply lookup_lt_Some in Ht. lia. }
        rewrite list_lookup_insert_ne in Ht by done. destruct (H t j Ht) as (y & Hc & Hy & Hyt). congruence.
      * destruct (H t j Ht) as (y & Hc & Hy & Hyt). congruence.
    + destruct (H t j Ht) as (y & Hc & Hy & Hyt). congruence.
  - destruct (H t j Ht) as (y & Hc & _). congruence.
Qed.

Section calm.
Context (sid : string) (nodeId : option string).

Lemma calm_recordTerminalUnlink own s : calm s (snd (recordTerminalUnlink nodeId own s)).
Proof.
  unfold recordTerminalUnlink. destruct (negb (owned (out (record _ s)))) eqn:Eo; cbn [snd]; [apply calm_record|].
  etrans; [apply calm_record|]. etrans; [apply calm_mem|]. etrans; [apply calm_record|]. unfold clear_snapshot.
  destruct (state_of _) as [[i x]|]; [|done]. destruct (ep_session x); [|done]. calm_ep.
Qed.
Lemma calm_announceDisconnected s : calm s (announceDisconnected s).
Proof. apply calm_record. Qed.
Lemma calm_reportUnlinkWithoutRow s : calm s (snd (reportUnlinkWithoutRow nodeId s)).
Proof.
  unfold reportUnlinkWithoutRow. pose proof (calm_recordTerminalUnlink true s) as H. destruct (recordTerminalUnlink nodeId true s) as [c s1]. cbn [snd] in *.
  etrans; [exact H|apply calm_record].
Qed.
Lemma calm_end_retry r s : calm s (end_retry r s).
Proof. apply (calm_retries (fun l => alter _ r l)). Qed.

Lemma calm_reportDroppedUnlink reason retry s : calm s (reportDroppedUnlink nodeId reason retry s).
Proof.
  unfold reportDroppedUnlink. destruct (negb _); [done|].
  match goal with |- context [has_engine ?z] => set (s1 := z) end.
  assert (calm s s1) as H1.
  { subst s1. destruct retry as [r|]; [|done]. etrans; [apply calm_end_retry|]. destruct (state_of _) as [[i x]|]; [|done].
    destruct (bool_decide _); [|done]. calm_ep. }
  etrans; [exact H1|]. destruct (_ && _); [done|apply calm_reportUnlinkWithoutRow].
Qed.

Lemma calm_endReadRetry cr c s : calm s (snd (endReadRetry cr c s)).
Proof.
  unfold endReadRetry. destruct (state_of s) as [[i x]|]; [|done]. destruct (ep_retry x) as [r|]; [|done]. destruct (retry_at r s) as [y|]; [|done].
  destruct (bool_decide (ep_timer x = _)); cbn [snd].
  - etrans; [|apply calm_drop_timer]. calm_ep.
  - destruct (_ || _); [|done]. cbn [snd]. destruct (bool_decide _); [calm_ep|]. etrans; [apply calm_end_retry|]. calm_ep.
Qed.
Lemma calm_endReadRetryOfGoneEngine s : calm s (snd (endReadRetryOfGoneEngine nodeId s)).
Proof.
  unfold endReadRetryOfGoneEngine. set (retry := match state_of s with Some (_, x) => ep_retry x | None => None end).
  set (s1 := match retry with Some r => end_retry r s | None => s end).
  assert (calm s s1) as H1 by (subst s1; destruct retry; [apply calm_end_retry|done]).
  assert (calm s (snd (endReadRetry retry None s1))) as H2 by (etrans; [exact H1|apply calm_endReadRetry]).
  cbv zeta. destruct (match retry with Some r => _ | None => None end) as [reason|]; [|done]. destruct (terminal reason); [|done].
  etrans; [exact H2|apply calm_reportUnlinkWithoutRow].
Qed.

Lemma calm_cancelReconnect s : calm s (cancelReconnect nodeId s).
Proof.
  unfold cancelReconnect. set (s1 := snd (endReadRetryOfGoneEngine nodeId s)). etrans; [apply calm_endReadRetryOfGoneEngine|]. fold s1.
  set (s2 := match current (epi s1) with Some i => drop_timer i s1 | None => s1 end).
  assert (calm s1 s2) as H2 by (subst s2; destruct (current (epi s1)); [apply calm_drop_timer|done]).
  destruct H2 as [G O Gh L E C P T]. split; cbn; auto. intros H t j Ht. exfalso. cbn in Ht. by apply (dropped_unarmed s1 t j).
Qed.
Lemma cancel_current s : current (epi (cancelReconnect nodeId s)) = None.
Proof. done. Qed.
Lemma cancel_unarmed s t j : timers_ok (epi s) -> timers (epi (cancelReconnect nodeId s)) !! t = Some (Some j) -> False.
Proof.
  intros H Ht. pose proof (c_timers _ _ (calm_cancelReconnect s) H t j Ht) as (x & Hc & _). rewrite cancel_current in Hc. done.
Qed.

Lemma calm_drop_unstarted i s : calm s (drop_unstarted nodeId i s).
Proof. unfold drop_unstarted. destruct (_ && _); [apply calm_cancelReconnect|done]. Qed.
Lemma calm_endReadyStretch s : calm s (endReadyStretch s).
Proof.
  unfold endReadyStretch. destruct (state_of s) as [[i x]|]; [|done]. destruct (ep_readyAt x); [|done]. destruct (ep_readyEndedAt x); [done|]. calm_ep.
Qed.
Lemma calm_give_session_up why s : calm s (give_session_up nodeId why s).
Proof.
  unfold give_session_up. cbv zeta. etrans; [|apply calm_cancelReconnect].
  match goal with |- context [live (reg ?z)] => set (s1 := z) end.
  assert (calm s s1) as H1.
  { subst s1. etrans; [|apply calm_record]. match goal with |- context [owned (out ?z)] => set (s0 := z) end.
    assert (calm s s0) as H0 by apply calm_mem. destruct (owned (out s0)); [etrans; [exact H0|apply calm_record]|exact H0]. }
  etrans; [exact H1|]. destruct (live (reg s1)); [apply calm_evictAndForceDestroy|done].
Qed.

(** A timer is armed for the current episode, which had none. *)
Lemma calm_arm i x job ms f s :
  state_of s = Some (i, x) -> ep_timer x = None -> job_ep job = i -> (forall y, ep_timer (f y) = Some (length (timers (epi s)))) -> (forall y, ep_le y (f y)) ->
  calm s (on_epi (on_ep i f) (snd (arm job ms s))).
Proof.
  intros Hs Hx <- Hf Hle. unfold state_of in Hs. destruct (current (epi s)) as [i|] eqn:Ec; [|done]. destruct (eps (epi s) !! i) as [x'|] eqn:Ex; [|done].
  injection Hs as -> ->. split; cbn; auto; [by apply Forall2_refl'; intros ?|apply Forall2_alter; [by intros ?|auto]|].
  intros H t j Ht. cbn in *. destruct (decide (t < length (timers (epi s)))%nat) as [Hlt|Hge].
  - rewrite lookup_app_l in Ht by done. destruct (H t j Ht) as (y & Hc & Hy & Hyt). rewrite Ec in Hc. injection Hc as Hi.
    rewrite <- Hi, Ex in Hy. injection Hy as <-. by rewrite Hx in Hyt.
  - apply lookup_lt_Some in Ht as Hl. rewrite length_app in Hl. cbn in Hl. rewrite lookup_app_r in Ht by lia.
    replace (t - length (timers (epi s)))%nat with 0%nat in Ht by lia. cbn in Ht. injection Ht as <-.
    exists (f x). rewrite list_lookup_alter_eq, Ex, Hf. split_and!; [done|done|f_equal; lia].
Qed.

Lemma state_of_ep i x f s : state_of s = Some (i, x) -> state_of (on_epi (on_ep i f) s) = Some (i, f x).
Proof.
  unfold state_of. cbn. destruct (current (epi s)) as [j|]; [|done]. destruct (eps (epi s) !! j) as [y|] eqn:E; [|done]. intros [= -> ->].
  by rewrite list_lookup_alter_eq, E.
Qed.
Lemma state_of_record c s : state_of (record c s) = state_of s.
Proof. done. Qed.

Lemma calm_scheduleReconnect session s : calm s (scheduleReconnect nodeId session s).
Proof.
  unfold scheduleReconnect. destruct (draining (out s)); [done|]. destruct (state_of s) as [[i x]|] eqn:Es; [|done].
  destruct (bool_decide (is_Some (ep_timer x)) || ep_tearing x) eqn:Eb.
  { destruct (ep_session x); [|done]. destruct (s_phone session); [done|]. calm_ep. }
  apply orb_false_iff in Eb as [Et _]. apply bool_decide_eq_false in Et. apply eq_None_not_Some in Et.
  cbv zeta. match goal with |- context [jitter (out ?z)] => set (s1 := z) end.
  assert (calm s s1 /\ exists x1, state_of s1 = Some (i, x1) /\ ep_timer x1 = None) as [H1 (x1 & Hs1 & Ht1)].
  { subst s1. destruct (ep_readyAt x); [|split; [done|by exists x]]. split; [calm_ep|]. eexists. split; [by apply state_of_ep|]. by destruct x. }
  destruct (decideReconnect _ _) as [att dec]. etrans; [exact H1|]. set (s2 := on_epi (on_ep i (set_att att)) s1).
  assert (calm s1 s2) as H2 by calm_ep. assert (state_of s2 = Some (i, set_att att x1)) as Hs2 by by apply state_of_ep.
  etrans; [exact H2|]. destruct dec as [dis|ms n alert]; [apply calm_give_session_up|].
  set (s3 := if alert then _ else s2). assert (calm s2 s3 /\ state_of s3 = Some (i, set_att att x1)) as [H3 Hs3].
  { subst s3. destruct alert; [split; [apply calm_record|by rewrite state_of_record]|done]. }
  etrans; [exact H3|]. set (s4 := on_epi (on_ep i (set_session (Some session))) s3). assert (calm s3 s4) as H4 by calm_ep. etrans; [exact H4|].
  assert (state_of s4 = Some (i, set_session (Some session) (set_att att x1))) as Hs4 by by apply state_of_ep.
  apply (calm_arm i (set_session (Some session) (set_att att x1)) (JReconnect i session)); [done|by destruct x1|done|by intros []|by intros []].
Qed.

(** A read retry is armed. *)
Lemma calm_arm_retry i x job ms n reason r' s :
  state_of s = Some (i, x) -> ep_timer x = None -> job_ep job = i ->
  calm s (let '(t, s) := arm job ms s in
          let s := on_epi (fun p => mkEpisodes (current p) (eps p) (retries p ++ [mkRetry t n reason false])%list (timers p)) s in
          on_epi (on_ep i (fun x => set_retry (Some r') (set_timer (Some t) x))) s).
Proof.
  intros Hs Hx Hj. pose proof (calm_arm i x job ms (fun x => set_retry (Some r') (set_timer (Some (length (timers (epi s)))) x)) s Hs Hx Hj) as H.
  etrans; [apply H; by intros []|]. etrans; [apply (calm_retries (fun l => (l ++ [mkRetry (length (timers (epi s))) n reason false])%list))|]. done.
Qed.

Lemma calm_retryDisconnect e reason cr s : calm s (retryDisconnectAfterFailedRead nodeId e reason cr s).
Proof.
  unfold retryDisconnectAfterFailedRead.
  assert (calm s (match cr with Some _ => s | None => reportDroppedUnlink nodeId reason None s end)) as Hd by (destruct cr; [done|apply calm_reportDroppedUnlink]).
  destruct (state_of s) as [[i x]|] eqn:Es; [|exact Hd]. destruct (_ || _); [exact Hd|]. destruct (ep_timer x) as [t|] eqn:Et.
  - destruct (negb (terminal reason)); [done|]. destruct (ep_retry x) as [r|]; [|apply calm_reportUnlinkWithoutRow]. destruct (bool_decide _).
    + apply (calm_retries (fun l => alter _ r l)).
    + etrans; [|apply calm_reportUnlinkWithoutRow]. etrans; [apply calm_end_retry|]. calm_ep.
  - destruct (ep_retry x) as [r|]; [destruct (bool_decide _)|].
    + destruct (terminal reason); [apply (calm_retries (fun l => alter _ r l))|done].
    + by apply (calm_arm_retry i x).
    + by apply (calm_arm_retry i x).
Qed.

Lemma calm_persistStatus st s : calm s (persistStatus st s).
Proof. unfold persistStatus. destruct (owned (out s)); [apply calm_record|done]. Qed.
Lemma calm_run_parked p s : calm s (run_parked nodeId p s).
Proof.
  destruct p as [|e reason]; cbn [run_parked]; [apply calm_persistStatus|]. etrans; [|apply calm_evictAndForceDestroy].
  etrans; [|apply calm_persistStatus]. etrans; [apply calm_cancelReconnect|apply calm_record].
Qed.
Lemma calm_park run reason s : calm s (snd (parkReconnectInitFailure run reason s)).
Proof.
  unfold parkReconnectInitFailure. destruct (state_of s) as [[i x]|]; [|done]. destruct (negb (ep_init x)); [done|]. cbn [snd].
  destruct (match ep_parked x with Some _ => _ | None => _ end); [calm_ep|done].
Qed.

(** ** Reports *)

Lemma calm_onQRCode e s : calm s (onQRCode e s).
Proof.
  unfold onQRCode. destruct (negb _); [done|]. cbv zeta. etrans; [|apply calm_persistStatus]. etrans; [|apply calm_record]. etrans; [|apply calm_record].
  destruct (lastError (mem s)); [|done]. destruct (startsWith _ _); [apply calm_mem|done].
Qed.
Lemma calm_ready_episode phone s : calm s (ready_episode phone s).
Proof.
  unfold ready_episode. destruct (state_of s) as [[i x]|] eqn:Es; [|done]. cbv zeta. etrans; [|apply calm_drop_timer].
  match goal with |- calm s (on_epi (on_ep i ?g) ?z) => set (f := g); set (s1 := z) end.
  assert (calm s s1) as H1 by (subst s1; destruct (ep_retry x); [apply calm_end_retry|done]). etrans; [exact H1|].
  assert (eps (epi s1) !! i = Some x) as Hx.
  { unfold state_of in Es. destruct (current (epi s)) as [j|]; [|done]. destruct (eps (epi s) !! j) as [y|] eqn:E; [|done]. injection Es as -> ->. subst s1. by destruct (ep_retry x). }
  assert (ep_timer (f x) = ep_timer x /\ ep_le x (f x)) as [Hft Hfl].
  { subst f. cbn beta. unfold set_retry, set_ready, set_att, set_session, ep_le. destruct (ep_session x), (String.eqb phone ""), (readyStretchHeld x s); cbn; done. }
  apply calm_epi; [by left| |].
  - apply Forall2_alter; [by intros ?|]. intros y Hy. rewrite Hx in Hy. by injection Hy as <-.
  - intros H t j Ht. destruct (H t j Ht) as (y & Hc & Hy & Hyt). cbn. destruct (decide (i = job_ep j)) as [->|Hne].
    + rewrite Hx in Hy. injection Hy as <-. exists (f x). rewrite list_lookup_alter_eq, Hx. split_and!; [done|done|congruence].
    + exists y. by rewrite list_lookup_alter_ne.
Qed.
Lemma calm_handleEngineReady e phone s : calm s (handleEngineReady e phone s).
Proof.
  unfold handleEngineReady. destruct (negb _); [done|]. cbv zeta.
  assert (forall z, calm s z -> calm s (if seeding (out z) then record SeedStatuses z else z)) as Hlast.
  { intros z Hz. destruct (seeding (out z)); [etrans; [exact Hz|apply calm_record]|done]. }
  apply Hlast. etrans; [|apply calm_record].
  assert (forall z, calm s z -> calm s (if String.eqb phone "" then z else record (WritePhone (Some phone) false) z)) as Hp.
  { intros z Hz. destruct (String.eqb phone ""); [done|etrans; [exact Hz|apply calm_record]]. }
  apply Hp. etrans; [|apply calm_record]. etrans; [|apply calm_mem]. etrans; [|apply calm_record]. etrans; [|apply calm_mem]. etrans; [|apply calm_record].
  etrans; [|apply calm_ready_episode]. apply calm_record_all.
Qed.
Lemma calm_pushName e name s : calm s (handleEnginePushName e name s).
Proof. unfold handleEnginePushName. destruct (_ || _); [done|apply calm_record]. Qed.
Lemma calm_onStateChanged e st own s : calm s (onStateChanged e st own s).
Proof.
  unfold onStateChanged. destruct (negb _); [done|]. destruct (_ && refusesLink _ _ _); [done|]. cbv zeta.
  set (s1 := if bool_decide (st <> READY) then _ else s). assert (calm s s1) as H1 by (subst s1; destruct (bool_decide _); [apply calm_endReadyStretch|done]).
  etrans; [exact H1|]. destruct (_ && _); [done|]. destruct (bool_decide (st = FAILED)); [|apply calm_persistStatus].
  pose proof (calm_park ParkStatus None s1) as H2. destruct (parkReconnectInitFailure ParkStatus None s1) as [b s2]. cbn [snd] in H2.
  destruct b; [done|]. etrans; [exact H2|apply calm_persistStatus].
Qed.
Lemma calm_onActionRequired e reason s : calm s (onActionRequired e reason s).
Proof. unfold onActionRequired. destruct (negb _); [done|]. etrans; [apply calm_mem|apply calm_record]. Qed.
Lemma calm_onError e reason s : calm s (onError nodeId e reason s).
Proof.
  unfold onError. destruct (negb _); [done|]. cbv zeta. set (s1 := on_mem _ s). assert (calm s s1) as H1 by apply calm_mem. etrans; [exact H1|].
  pose proof (calm_park (ParkError e reason) (Some reason) s1) as H2. destruct (parkReconnectInitFailure (ParkError e reason) (Some reason) s1) as [b s2]. cbn [snd] in H2.
  destruct b; [done|]. etrans; [exact H2|apply calm_run_parked].
Qed.
Lemma calm_claim e s : calm s (snd (claimStuckAuthRecovery e s)).
Proof. unfold claimStuckAuthRecovery. destruct (negb _); [done|]. destruct (stuckAuthUsed _); [done|]. apply calm_mem. Qed.
Lemma calm_announce st s : calm s (announce st s).
Proof. unfold announce. destruct (bool_decide _); [done|]. etrans; [apply calm_mem|apply calm_record]. Qed.

(** ** Disconnects *)

Lemma calm_disconnected_begin e reason retry s : calm s (snd (disconnected_begin nodeId e reason retry s)).
Proof. unfold disconnected_begin. destruct (retry_ended _ _); [done|]. destruct (negb _); [apply calm_reportDroppedUnlink|done]. Qed.
Lemma calm_disconnected_unread e reason retry s : calm s (disconnected_unread nodeId e reason retry s).
Proof. unfold disconnected_unread. destruct (retry_ended _ _); [done|]. apply calm_retryDisconnect. Qed.
Lemma calm_disconnected_read e reason retry epoch session s : calm s (disconnected_read nodeId e reason retry epoch session s).
Proof.
  unfold disconnected_read. cbv zeta. destruct (retry_ended _ _); [done|]. destruct (negb (isLive e s)); [apply calm_reportDroppedUnlink|].
  match goal with |- context [endReadRetry ?a ?b s] => pose proof (calm_endReadRetry a b s) as H1; destruct (endReadRetry a b s) as [pending s1] end. cbn [snd] in H1.
  etrans; [exact H1|].
  match goal with |- context [terminal ?r] => set (reason' := r) end.
  assert (calm s1 (snd (if terminal reason' then recordTerminalUnlink nodeId false s1 else (false, s1)))) as H2 by (destruct (terminal reason'); [apply calm_recordTerminalUnlink|done]).
  destruct (if terminal reason' then _ else _) as [cleared s2]. cbn [snd] in H2. etrans; [exact H2|].
  assert (calm s2 (record (WriteStatus DISCONNECTED) (announceDisconnected s2))) as H3 by (etrans; [apply calm_announceDisconnected|apply calm_record]).
  destruct (negb (isLive e (record _ _))); [exact H3|]. etrans; [exact H3|apply calm_scheduleReconnect].
Qed.
Lemma calm_init_written e w s : calm s (init_written sid e w s).
Proof. unfold init_written. destruct (_ && _); [apply calm_announce|done]. Qed.
Lemma calm_init_expired ms e s : calm s (snd (init_expired ms e s)).
Proof.
  unfold init_expired. destruct (isLive e s) eqn:El.
  - pose proof (calm_evict_end e (on_mem (set_error (Some ("engine.initialize() timed out after " +:+ pretty ms +:+ "ms")%string))) s) as H.
    unfold deleteIfLive in *. rewrite El in *. cbn [snd] in *. apply H. done.
  - unfold deleteIfLive. rewrite El. cbn [snd]. apply calm_begin_end.
Qed.
End calm.

(** ** The stop marks *)

Section marks.
Context (id : string).

Definition marks_wf (m : StopMarks) : Prop :=
  StronglySorted Z.lt (stamps (marks_of m id)) /\ Forall (fun t => 0 < t <= seq m) (stamps (marks_of m id)) /\ 0 <= seq m /\
  (marks_of m id <> [] -> has m id = true).
(** A mark that is done with a stamp no older than [c]. *)
Definition done_since (c : Z) (l : list Mark) : Prop := exists x, x ∈ l /\ pending x = false /\ c <= stamp_of x.

Lemma stamps_fmap l : stamps l = stamp_of <$> l.
Proof. induction l as [|m l IH]; [done|]. cbn. by rewrite IH. Qed.
Lemma trimmed_sublist l : sublist (trimmed l) l.
Proof. induction l as [|m l IH]; [done|]. rewrite trimmed_cons. destruct (pending m); [|destruct (_ <=? _)]; by constructor. Qed.
Lemma stamps_sublist l k : sublist l k -> sublist (stamps l) (stamps k).
Proof. induction 1; cbn; by constructor. Qed.
Lemma stamps_sorted_sublist (l k : list Z) : sublist l k -> StronglySorted Z.lt k -> StronglySorted Z.lt l.
Proof.
  induction 1 as [|x l k H IH|x l k H IH]; [done| |].
  - intros [Hs Hf]%StronglySorted_inv. constructor; [by apply IH|]. apply Forall_forall. intros y Hy. rewrite Forall_forall in Hf. apply Hf. by eapply elem_of_sublist.
  - intros [Hs _]%StronglySorted_inv. by apply IH.
Qed.
Lemma Forall_sublist {A : Type} (P : A -> Prop) l k : sublist l k -> Forall P k -> Forall P l.
Proof. intros Hs Hf. apply Forall_forall. intros y Hy. rewrite Forall_forall in Hf. apply Hf. by eapply elem_of_sublist. Qed.

Lemma done_cons c m l : done_since c (m :: l) <-> (pending m = false /\ c <= stamp_of m) \/ done_since c l.
Proof.
  unfold done_since. split.
  - intros (x & [->|Hx]%elem_of_cons & Hp & Hc); [by left|right; by exists x].
  - intros [[Hp Hc]|(x & Hx & Hp & Hc)]; [exists m|exists x]; (split; [|done]); [by left|by right].
Qed.
(** The cut keeps a mark as new among those that are done. *)
Lemma done_trimmed c l : StronglySorted Z.lt (stamps l) -> done_since c l -> done_since c (trimmed l).
Proof.
  induction l as [|m l IH]; [done|]. cbn [stamps]. intros [Hs Hf]%StronglySorted_inv H. rewrite trimmed_cons. apply done_cons in H.
  destruct (pending m) eqn:Hp.
  - apply done_cons. destruct H as [[? _]|H]; [done|right; by apply IH].
  - destruct (Z.leb_spec (fin (m :: l)) 4) as [Hle|Hgt].
    + apply done_cons. destruct H as [[_ Hc]|H]; [by left|right; by apply IH].
    + destruct H as [[_ Hc]|H]; [|by apply IH]. apply IH; [done|]. rewrite fin_cons, Hp in Hgt.
      assert (0 < fin l) as Hpos by lia. unfold fin in Hpos. destruct (List.filter finished l) as [|x r] eqn:E; [cbn in Hpos; lia|].
      assert (In x (List.filter finished l)) as Hin by (rewrite E; by left). apply filter_In in Hin as [Hin Hfx]. apply list_elem_of_In in Hin.
      exists x. split_and!; [done|by apply negb_true_iff in Hfx|]. rewrite Forall_forall in Hf. specialize (Hf _ (stamps_elem _ _ Hin)). lia.
Qed.

Lemma in_flight_sub z l k : (forall m, m ∈ l -> m ∈ k) -> in_flight z k -> in_flight z l.
Proof. unfold in_flight. rewrite !Forall_forall. auto. Qed.
Lemma in_flight_trimmed z l : in_flight z l -> in_flight z (trimmed l).
Proof. apply in_flight_sub. intros m. apply trimmed_incl. Qed.

(** What an operation other than a clear keeps. *)
Record marks_keep (but : option Z) (m m' : StopMarks) : Prop := mkKeep {
  k_wf : marks_wf m';
  k_seq : seq m <= seq m';
  k_done : forall c, done_since c (marks_of m id) -> done_since c (marks_of m' id);
  k_flight : forall z, z <= seq m -> Some z <> but -> in_flight z (marks_of m id) -> in_flight z (marks_of m' id)
}.

Lemma push_keeps p m : marks_wf m ->
  let m' := snd (push m id p) in
  marks_keep None m m' /\ seq m' = seq m + 1 /\ has m' id = true /\
  (p = false -> done_since (seq m + 1) (marks_of m' id)) /\ (p = true -> in_flight (seq m + 1) (marks_of m' id)).
Proof.
  intros (Hs & Hb & Hp & Hi). cbn zeta. set (l := (marks_of m id ++ [mkMark (seq m + 1) p])%list).
  assert (marks_of (snd (push m id p)) id = trimmed l) as Hl by (unfold push; cbn [snd]; by rewrite marks_insert, String.eqb_refl).
  assert (StronglySorted Z.lt (stamps l)) as Hsl.
  { unfold l. rewrite stamps_app. apply StronglySorted_app. split_and!; [|done|repeat constructor].
    intros x y Hx Hy. cbn in Hy. apply list_elem_of_singleton in Hy as ->. rewrite Forall_forall in Hb. specialize (Hb x Hx). lia. }
  assert (has (snd (push m id p)) id = true) as Hhas by (unfold has, push; cbn; apply bool_decide_eq_true; set_solver).
  split_and!; [|done|done| |].
  - split.
    + unfold marks_wf. rewrite Hl. split_and!; [| |cbn; lia|done].
      * eapply stamps_sorted_sublist; [apply stamps_sublist, trimmed_sublist|done].
      * eapply Forall_sublist; [apply stamps_sublist, trimmed_sublist|]. unfold l. rewrite stamps_app. apply Forall_app. cbn. split.
        { eapply Forall_impl; [exact Hb|]. cbn. lia. } { repeat constructor; lia. }
    + cbn. lia.
    + intros c (x & Hx & Hc). rewrite Hl. apply done_trimmed; [done|]. exists x. split; [|done]. unfold l. apply elem_of_app. by left.
    + intros z Hz _ Hf. rewrite Hl. apply in_flight_trimmed. unfold l, in_flight. apply Forall_app. split; [done|]. repeat constructor. cbn. lia.
  - intros ->. rewrite Hl. apply done_trimmed; [done|]. exists (mkMark (seq m + 1) false). split_and!; [|done|cbn; lia]. unfold l. apply elem_of_app. right. by left.
  - intros ->. rewrite Hl. apply in_flight_trimmed. unfold l, in_flight. apply Forall_app. split; [|by repeat constructor].
    apply Forall_forall. intros x Hx E. rewrite Forall_forall in Hb. specialize (Hb _ (stamps_elem _ _ Hx)). lia.
Qed.

Lemma keeps_refl but m : marks_wf m -> marks_keep but m m.
Proof. by split. Qed.

Lemma settle_in_elem z l x : x ∈ settle_in z l -> x ∈ l \/ x = mkMark z false.
Proof. induction l as [|m l IH]; [by left|]. cbn. destruct (stamp_of m =? z); rewrite !elem_of_cons; naive_solver. Qed.
Lemma done_settle c z l : done_since c l -> done_since c (settle_in z l).
Proof.
  induction l as [|m l IH]; [done|]. cbn [settle_in]. destruct (Z.eqb_spec (stamp_of m) z) as [E|E]; rewrite !done_cons; [|tauto].
  intros [[Hp Hc]|H]; [left; cbn; by rewrite <- E|by right].
Qed.
Lemma settle_keeps z m : marks_wf m -> marks_keep (Some z) m (settle m id z).
Proof.
  intros Hwf. unfold settle. destruct (StopMarks.marks m !! id) as [l|] eqn:El; [|by apply keeps_refl]. destruct (has_stamp z l) eqn:Hh; [|by apply keeps_refl].
  pose proof (marks_found m id l El) as Hl. destruct Hwf as (Hs & Hb & Hp & Hi). rewrite Hl in *.
  assert (marks_of (StopMarks.set_marks m id (trimmed (settle_in z l))) id = trimmed (settle_in z l)) as Hl' by (unfold StopMarks.set_marks; by rewrite marks_insert, String.eqb_refl).
  assert (StronglySorted Z.lt (stamps (settle_in z l))) as Hss by by rewrite stamps_settle. split; rewrite ?Hl'.
  - unfold marks_wf. rewrite Hl'. split_and!; [| |done|].
    + eapply stamps_sorted_sublist; [apply stamps_sublist, trimmed_sublist|done].
    + eapply Forall_sublist; [apply stamps_sublist, trimmed_sublist|]. by rewrite stamps_settle.
    + intros _. unfold has, StopMarks.set_marks in *. cbn in *. apply Hi. intros ->. done.
  - done.
  - intros c Hc. rewrite Hl in Hc. apply done_trimmed; [done|by apply done_settle].
  - intros y Hy Hne Hf. rewrite Hl in Hf. apply in_flight_trimmed. unfold in_flight in *. rewrite Forall_forall in *. intros x Hx E.
    destruct (settle_in_elem _ _ _ Hx) as [H| ->]; [by apply Hf|]. cbn in E. congruence.
Qed.

Lemma drop_in_elem z l x : x ∈ drop_in z l -> x ∈ l.
Proof. induction l as [|m l IH]; [done|]. cbn. destruct (stamp_of m =? z); rewrite !elem_of_cons; tauto. Qed.
Lemma drop_sublist z l : sublist (drop_in z l) l.
Proof. induction l as [|m l IH]; [done|]. cbn. destruct (stamp_of m =? z); by constructor. Qed.
Lemma done_drop c z l : in_flight z l -> done_since c l -> done_since c (drop_in z l).
Proof.
  induction l as [|m l IH]; [done|]. intros [Hm Hf]%Forall_cons. cbn [drop_in]. rewrite done_cons. destruct (Z.eqb_spec (stamp_of m) z) as [E|E]; rewrite ?done_cons.
  - intros [[Hp _]|H]; [|done]. rewrite (Hm E) in Hp. done.
  - intros [H|H]; [by left|right; by apply IH].
Qed.
Lemma drop_keeps z m : marks_wf m -> in_flight z (marks_of m id) -> marks_keep None m (snd (deleteStamped m id z)).
Proof.
  intros Hwf Hf. unfold deleteStamped. destruct (StopMarks.marks m !! id) as [l|] eqn:El; [|by apply keeps_refl]. destruct (has_stamp z l) eqn:Hh; [|by apply keeps_refl].
  pose proof (marks_found m id l El) as Hl. destruct Hwf as (Hs & Hb & Hp & Hi). rewrite Hl in *. cbn [snd].
  set (m' := match drop_in z l with [] => _ | _ :: _ => _ end).
  assert (marks_of m' id = drop_in z l /\ seq m' = seq m /\ (drop_in z l <> [] -> has m' id = true)) as (Hl' & Hq & Hh').
  { subst m'. destruct (drop_in z l) as [|x r] eqn:E.
    - split_and!; [|done|done]. unfold StopMarks.delete. by rewrite (marks_delete (StopMarks.set_marks m id [])), String.eqb_refl.
    - unfold StopMarks.set_marks. rewrite marks_insert, String.eqb_refl. split_and!; [done|done|]. intros _. unfold has in *. cbn in *. apply Hi. intros ->. done. }
  split; rewrite ?Hl', ?Hq.
  - unfold marks_wf. rewrite Hl', Hq. split_and!; [| |done|done].
    + eapply stamps_sorted_sublist; [apply stamps_sublist, drop_sublist|done].
    + eapply Forall_sublist; [apply stamps_sublist, drop_sublist|done].
  - done.
  - intros c Hc. rewrite Hl in Hc. by apply done_drop.
  - intros y _ _ Hy. rewrite Hl in Hy. eapply in_flight_sub; [|exact Hy]. intros x. apply drop_in_elem.
Qed.

(** The clears. *)
Record marks_clear (m m' : StopMarks) : Prop := mkClear {
  cl_wf : marks_wf m'; cl_seq : seq m' = seq m;
  cl_flight : forall z, in_flight z (marks_of m id) -> in_flight z (marks_of m' id) }.
Lemma delete_clears m : marks_wf m -> marks_clear m (StopMarks.delete m id).
Proof.
  intros (Hs & Hb & Hp & Hi).
  assert (marks_of (StopMarks.delete m id) id = []) as Hl by (unfold StopMarks.delete; cbn; by rewrite marks_delete, String.eqb_refl).
  split; rewrite ?Hl; [|done|by constructor]. unfold marks_wf. rewrite Hl. split_and!; [constructor|constructor|done|done].
Qed.
Lemma dropFinished_clears m : marks_wf m -> marks_clear m (dropFinished m id).
Proof.
  intros Hwf. pose proof Hwf as (Hs & Hb & Hp & Hi). unfold dropFinished. destruct (List.filter pending (marks_of m id)) as [|x r] eqn:E; [by apply delete_clears|].
  assert (marks_of (StopMarks.set_marks m id (x :: r)) id = x :: r) as Hl by (unfold StopMarks.set_marks; by rewrite marks_insert, String.eqb_refl).
  split; rewrite ?Hl; [|done|].
  - unfold marks_wf. rewrite Hl, <- E. split_and!; [by apply sorted_filter| |done|].
    + apply Forall_forall. intros y Hy. rewrite Forall_forall in Hb. by apply Hb, (filter_incl pending).
    + intros _. unfold has, StopMarks.set_marks in *. cbn. apply Hi. intros En. by rewrite En in E.
  - intros z Hz. rewrite <- E. eapply in_flight_sub; [|exact Hz]. intros y Hy. apply list_elem_of_In, filter_In in Hy as [Hy _]. by apply list_elem_of_In.
Qed.

(** A session with a mark that is done has one; a start sees it unless it is older. *)
Lemma done_marked c m : marks_wf m -> done_since c (marks_of m id) -> has m id = true.
Proof. intros (_ & _ & _ & Hi) (x & Hx & _). apply Hi. intros E. rewrite E in Hx. by apply not_elem_of_nil in Hx. Qed.
Lemma done_seen c seen m : marks_wf m -> done_since c (marks_of m id) -> (forall v, seen = Some v -> v < c) -> markedSince m id seen = true.
Proof.
  intros (Hs & _) (x & Hx & _ & Hc) Hseen. unfold markedSince, stamp. destruct (last (marks_of m id)) as [y|] eqn:El.
  - cbn. pose proof (newest_mark _ _ Hs El x Hx) as H. destruct seen as [v|]; [|done]. apply Z.ltb_lt. specialize (Hseen v eq_refl). lia.
  - apply last_None in El. rewrite El in Hx. by apply not_elem_of_nil in Hx.
Qed.
Lemma stamp_bound m v : marks_wf m -> stamp m id = Some v -> v <= seq m.
Proof.
  intros (_ & Hb & _). unfold stamp. destruct (last (marks_of m id)) as [y|] eqn:El; [|done]. cbn. intros [= <-]. apply last_Some in El as [k El].
  rewrite Forall_forall in Hb. assert (stamp_of y ∈ stamps (marks_of m id)) as Hy by (apply stamps_elem; rewrite El; apply elem_of_app; right; by left).
  specialize (Hb _ Hy). lia.
Qed.
End marks.
