(* ===== verification/SessionEngineSafe.v ===== *)
(** * The engines of one session: one at a time

    The programs of SessionVerbs.v, any number of them at once, with the world moving in
    between: what the process keeps true of a session's engines whatever interleaves. *)
From stdpp Require Import gmap sorting.
From S2P Require Import Prelude JsString Prog Owned StopMarks Reconnect SessionEngine SessionEngineLaws SessionVerbs.
Local Open Scope Z_scope.
Local Open Scope prog_scope.

(** An engine exists and was told to end. *)
Definition dead (e : nat) (s : Local) : Prop := exists x, engs (reg s) !! e = Some x /\ e_ended x = true.

Definition clean (l : option nat) (m : Moment) : Prop :=
  m_live m = l /\ m_marked m = false /\ m_closed m = false /\ (m_gone m = true \/ m_teardowns m = 0%nat).

Section safe.
Context {sid : string} {nodeId : option string} {initTimeoutMs : Z}.

Record Inv (s : Local) : Prop := mkInv {
  i_one : forall e x, engs (reg s) !! e = Some x -> live (reg s) = Some e \/ e_ended x = true;
  i_range : forall e, live (reg s) = Some e -> (e < length (engs (reg s)))%nat;
  i_closed : closed (gates s) = true -> forall e, live (reg s) = Some e -> dead e s;
  i_launch : forall e x, engs (reg s) !! e = Some x -> clean None (e_launch x);
  i_inits : forall e x, engs (reg s) !! e = Some x -> (length (e_inits x) <= 1)%nat /\ Forall (clean (Some e)) (e_inits x);
  i_right : forall t, right (ghost s) = Some t -> live (reg s) = None /\ (initializing (gates s) = Some t -> current (epi s) = None) /\ (t < nextTok (ghost s))%nat;
  i_tok : forall t, initializing (gates s) = Some t -> (t < nextTok (ghost s))%nat;
  i_marks : marks_wf sid (marks (gates s));
  i_td : forall h x, tds (gates s) !! h = Some x -> td_own x = true ->
    td_mark x <= seq (marks (gates s)) /\ (td_settled x = false -> gone (ghost s) = true \/ done_since (td_mark x) (marks_of (marks (gates s)) sid));
  i_timers : timers_ok (epi s);
  i_cur : forall i, current (epi s) = Some i -> (i < length (eps (epi s)))%nat;
  i_retired : forall e, e ∈ retired (ghost s) -> dead e s /\ live (reg s) <> Some e
}.

(** ** What nobody undoes *)

Record le (s s' : Local) : Prop := mkLe {
  le_seq : seq (marks (gates s)) <= seq (marks (gates s'));
  le_next : (nextTok (ghost s) <= nextTok (ghost s'))%nat;
  le_gone : gone (ghost s) = true -> gone (ghost s') = true;
  le_tds : forall h x, tds (gates s) !! h = Some x -> exists x', tds (gates s') !! h = Some x' /\ td_own x' = td_own x /\ td_mark x' = td_mark x /\
    (td_settled x = true -> td_settled x' = true);
  le_new : forall h x', tds (gates s') !! h = Some x' -> (length (tds (gates s)) <= h)%nat -> td_own x' = true -> seq (marks (gates s)) < td_mark x';
  le_cur : forall i, (i < length (eps (epi s)))%nat -> current (epi s') = Some i -> current (epi s) = Some i;
  le_ep : forall i x, eps (epi s) !! i = Some x -> exists x', eps (epi s') !! i = Some x' /\ (ep_le x x' \/ (ep_started x < ep_started x')%nat);
  le_eng : forall e x, engs (reg s) !! e = Some x -> exists x', engs (reg s') !! e = Some x' /\ (e_ended x = true -> e_ended x' = true) /\
    e_tok x' = e_tok x /\ e_launch x' = e_launch x;
  le_closed : closed (gates s) = true -> closed (gates s') = true;
  le_retired : forall e, e ∈ retired (ghost s) -> e ∈ retired (ghost s');
  le_last : closed (gates s) = true -> length (engs (reg s')) = length (engs (reg s))
}.

#[export] Instance le_preorder : PreOrder le.
Proof.
  split.
  - intros s. split; auto; try lia; try (intros; eexists; split_and!; by eauto).
    + intros h x' Hx Hh _. apply lookup_lt_Some in Hx. lia.
    + intros i x Hx. exists x. split; [done|by left].
  - intros s1 s2 s3 H K. split.
    + etrans; [apply (le_seq _ _ H)|apply (le_seq _ _ K)].
    + pose proof (le_next _ _ H). pose proof (le_next _ _ K). lia.
    + intros G. by apply (le_gone _ _ K), (le_gone _ _ H).
    + intros h x Hx. destruct (le_tds _ _ H h x Hx) as (y & Hy & A1 & A2 & A3). destruct (le_tds _ _ K h y Hy) as (z & Hz & B1 & B2 & B3).
      exists z. split_and!; [done|congruence|congruence|auto].
    + intros h z Hz Hh Ho. destruct (tds (gates s2) !! h) as [y|] eqn:Hy.
      * destruct (le_tds _ _ K h y Hy) as (z' & Hz' & B1 & B2 & _). rewrite Hz in Hz'. injection Hz' as <-. rewrite B2. apply (le_new _ _ H h y Hy Hh). congruence.
      * apply lookup_ge_None in Hy. pose proof (le_new _ _ K h z Hz Hy Ho). pose proof (le_seq _ _ H). lia.
    + intros i Hi Hc. apply (le_cur _ _ H i Hi), (le_cur _ _ K); [|done]. apply lookup_lt_is_Some in Hi as [x Hx]. destruct (le_ep _ _ H i x Hx) as (y & Hy & _).
      by apply lookup_lt_Some in Hy.
    + intros i x Hx. destruct (le_ep _ _ H i x Hx) as (y & Hy & A). destruct (le_ep _ _ K i y Hy) as (z & Hz & B). exists z. split; [done|].
      destruct A as [[A1 A2]|A], B as [[B1 B2]|B]; [left; split; congruence|right; lia..].
    + intros e x Hx. destruct (le_eng _ _ H e x Hx) as (y & Hy & A1 & A2 & A3). destruct (le_eng _ _ K e y Hy) as (z & Hz & B1 & B2 & B3).
      exists z. split_and!; [done|auto|congruence|congruence].
    + intros Hc. by apply (le_closed _ _ K), (le_closed _ _ H).
    + intros e He. by apply (le_retired _ _ K), (le_retired _ _ H).
    + intros Hc. etrans; [apply (le_last _ _ K), (le_closed _ _ H Hc)|apply (le_last _ _ H Hc)].
Qed.

Lemma le_dead e s s' : le s s' -> dead e s -> dead e s'.
Proof. intros H (x & Hx & Hd). destruct (le_eng _ _ H e x Hx) as (y & Hy & A & _). exists y. auto. Qed.

(** ** What the owner of a token counts on *)

(** The attempt that drew [t] is the latest of the current episode. *)
Definition ent (t i : nat) (s : Local) : Prop := current (epi s) = Some i /\ exists x, eps (epi s) !! i = Some x /\ ep_tok x = t.

Record stay (t : nat) (s s' : Local) : Prop := mkStay {
  st_init : initializing (gates s) = Some t <-> initializing (gates s') = Some t;
  st_right : initializing (gates s) = Some t -> right (ghost s) = Some t -> right (ghost s') = Some t;
  st_ent : forall i, ent t i s' -> ent t i s /\ started_of i s' = started_of i s /\ (live (reg s') = live (reg s) \/ live (reg s') = None) /\ (right (ghost s) = Some t -> right (ghost s') = Some t);
  st_eng : forall e x, engs (reg s) !! e = Some x -> e_tok x = t -> exists x', engs (reg s') !! e = Some x' /\ e_tok x' = t /\ e_inits x' = e_inits x;
  st_held : forall h x, tds (gates s) !! h = Some x -> td_phase x = Held t -> tds (gates s') !! h = Some x
}.
Lemma stay_refl t s : stay t s s.
Proof. split; auto; intros e x Hx Ht; eauto. Qed.
Lemma stay_trans t s1 s2 s3 : stay t s1 s2 -> stay t s2 s3 -> stay t s1 s3.
Proof.
  intros H K. split.
  - etrans; [apply (st_init _ _ _ H)|apply (st_init _ _ _ K)].
  - intros Hi Hr. apply (st_right _ _ _ K); [by apply (st_init _ _ _ H)|by apply (st_right _ _ _ H)].
  - intros i Hi. destruct (st_ent _ _ _ K i Hi) as (K1 & K0 & K2 & K3). destruct (st_ent _ _ _ H i K1) as (H1 & H0 & H2 & H3).
    split_and!; [done|congruence| |auto]. destruct H2 as [H2|H2], K2 as [K2|K2]; rewrite ?K2; auto.
  - intros e x Hx Ht. destruct (st_eng _ _ _ H e x Hx Ht) as (y & Hy & A1 & A2). destruct (st_eng _ _ _ K e y Hy A1) as (z & Hz & B1 & B2). exists z. split_and!; [done|done|congruence].
  - intros h x Hx Hp. apply (st_held _ _ _ K); [by apply (st_held _ _ _ H)|done].
Qed.

Definition flies (z : Z) (s : Local) : Prop := in_flight z (marks_of (marks (gates s)) sid).
Definition rely (X : gset Token) (s s' : Local) : Prop :=
  le s s' /\ (forall t, inl t ∈ X -> stay t s s') /\ (forall z, inr z ∈ X -> flies z s -> flies z s').
#[export] Instance rely_preorder X : PreOrder (rely X).
Proof.
  split.
  - intros s. split_and!; [done|intros; apply stay_refl|auto].
  - intros s1 s2 s3 (H1 & H2 & H3) (K1 & K2 & K3). split_and!; [by etrans|intros t Ht; eapply stay_trans; eauto|auto].
Qed.

Definition used (s : Local) : gset Token :=
  list_to_set ((inl <$> List.seq 0 (nextTok (ghost s))) ++ (inr <$> seqZ 1 (seq (marks (gates s)))))%list.
Lemma used_inl t s : inl t ∈ used s <-> (t < nextTok (ghost s))%nat.
Proof.
  unfold used. rewrite elem_of_list_to_set, elem_of_app, !list_elem_of_fmap. split.
  - intros [(u & [= <-] & Hu)|(u & ? & _)]; [|done]. apply list_elem_of_In, in_seq in Hu. lia.
  - intros H. left. exists t. split; [done|]. apply list_elem_of_In, in_seq. lia.
Qed.
Lemma used_inr z s : inr z ∈ used s <-> 1 <= z <= seq (marks (gates s)).
Proof.
  unfold used. rewrite elem_of_list_to_set, elem_of_app, !list_elem_of_fmap. split.
  - intros [(u & ? & _)|(u & [= <-] & Hu)]; [done|]. apply elem_of_seqZ in Hu. lia.
  - intros H. right. exists z. split; [done|]. apply elem_of_seqZ. lia.
Qed.

(** A step the owner of [X] may take. *)
Record ok_step (X : gset Token) (s s' : Local) : Prop := mkOk {
  o_inv : Inv s';
  o_le : le s s';
  o_tok : (nextTok (ghost s) <= nextTok (ghost s'))%nat;
  o_stay : forall t, inl t ∉ X -> (t < nextTok (ghost s))%nat -> stay t s s';
  o_fly : forall z, inr z ∉ X -> z <= seq (marks (gates s)) -> flies z s -> flies z s'
}.
Lemma ok_refl X s : Inv s -> ok_step X s s.
Proof. intros H. split; [done|done|done|intros; apply stay_refl|auto]. Qed.
Lemma ok_trans X s1 s2 s3 : ok_step X s1 s2 -> ok_step X s2 s3 -> ok_step X s1 s3.
Proof.
  intros H K. split; [apply (o_inv _ _ _ K)|etrans; [apply (o_le _ _ _ H)|apply (o_le _ _ _ K)]|pose proof (o_tok _ _ _ H); pose proof (o_tok _ _ _ K); lia| |].
  - intros t Ht Hu. eapply stay_trans; [by apply (o_stay _ _ _ H)|]. apply (o_stay _ _ _ K); [done|]. pose proof (o_tok _ _ _ H). lia.
  - intros z Hz Hu Hf. apply (o_fly _ _ _ K); [done| |by apply (o_fly _ _ _ H)]. pose proof (le_seq _ _ (o_le _ _ _ H)). lia.
Qed.
Lemma ok_used X s s' : ok_step X s s' -> used s ⊆ used s'.
Proof.
  intros H [t|z]; rewrite ?used_inl, ?used_inr; [pose proof (o_tok _ _ _ H); lia|pose proof (le_seq _ _ (o_le _ _ _ H)); lia].
Qed.
Lemma ok_rely X Y s s' : ok_step X s s' -> Y ## X -> Y ⊆ used s -> rely Y s s'.
Proof.
  intros H Hd Hu. split_and!; [apply (o_le _ _ _ H)| |].
  - intros t Ht. apply (o_stay _ _ _ H); [set_solver|]. by apply used_inl, Hu.
  - intros z Hz. apply (o_fly _ _ _ H); [set_solver|]. specialize (Hu _ Hz). apply used_inr in Hu. lia.
Qed.

(** ** Calm blocks *)

Lemma calm_dead e s s' : calm s s' -> dead e s -> dead e s'.
Proof. intros H (x & Hx & Hd). destruct (Forall2_lookup_l _ _ _ _ _ (c_engs _ _ H) Hx) as (y & Hy & Hle). exists y. split; [done|]. by apply (el_end _ _ Hle). Qed.
Lemma has_ended_dead e s : (e < length (engs (reg s)))%nat -> has_ended e (reg s) -> dead e s.
Proof. intros He H. apply lookup_lt_is_Some in He as [x Hx]. exists x. auto. Qed.
Lemma dead_has_ended e s : dead e s -> has_ended e (reg s).
Proof. intros (x & Hx & Hd) y Hy. congruence. Qed.

Lemma calm_le s s' : calm s s' -> le s s'.
Proof.
  intros [G O Gh L E C P T]. split; rewrite ?G, ?Gh; auto; try lia.
  - intros h x Hx. exists x. auto.
  - intros h x' Hx Hh _. apply lookup_lt_Some in Hx. lia.
  - intros i _ Hc. destruct C as [C|C]; congruence.
  - intros i x Hx. destruct (Forall2_lookup_l _ _ _ _ _ P Hx) as (y & Hy & Hle). exists y. auto.
  - intros e x Hx. destruct (Forall2_lookup_l _ _ _ _ _ E Hx) as (y & Hy & Hle). exists y. split_and!; [done|apply (el_end _ _ Hle)|apply (el_tok _ _ Hle)|apply (el_launch _ _ Hle)].
  - intros _. by rewrite (Forall2_length _ _ _ E).
Qed.
Lemma calm_stay t s s' : calm s s' -> stay t s s'.
Proof.
  intros [G O Gh L E C P T]. split; rewrite ?G, ?Gh; auto.
  - intros i (Hc & x & Hx & Ht). destruct C as [C|C]; [|congruence]. destruct (Forall2_lookup_r _ _ _ _ _ P Hx) as (y & Hy & [Hl1 Hl2]). split_and!.
    + split; [congruence|]. exists y. split; [done|congruence].
    + unfold started_of. by rewrite Hx, Hy.
    + destruct L as [L|(e & _ & L & _)]; auto.
    + done.
  - intros e x Hx Ht. destruct (Forall2_lookup_l _ _ _ _ _ E Hx) as (y & Hy & Hle). exists y. split_and!; [done|rewrite (el_tok _ _ Hle); done|apply (el_inits _ _ Hle)].
Qed.
Lemma calm_inv s s' : calm s s' -> Inv s -> Inv s'.
Proof.
  intros Hc HI. pose proof Hc as [G O Gh L E C P T].
  assert (forall e, live (reg s') = Some e -> live (reg s) = Some e) as Hl by (intros e He; destruct L as [L|(x & _ & L & _)]; congruence).
  split; rewrite ?G, ?Gh.
  - intros e y Hy. destruct (Forall2_lookup_r _ _ _ _ _ E Hy) as (x & Hx & Hle). destruct (i_one _ HI e x Hx) as [H1|H1]; [|right; by apply (el_end _ _ Hle)].
    destruct L as [L|(e' & L1 & L2 & L3)]; [left; congruence|]. right. apply L3. congruence.
  - intros e He. rewrite <- (Forall2_length _ _ _ E). by apply (i_range _ HI), Hl.
  - intros Hcl e He. eapply calm_dead; [done|]. apply (i_closed _ HI); [done|by apply Hl].
  - intros e y Hy. destruct (Forall2_lookup_r _ _ _ _ _ E Hy) as (x & Hx & Hle). rewrite (el_launch _ _ Hle). by apply (i_launch _ HI e).
  - intros e y Hy. destruct (Forall2_lookup_r _ _ _ _ _ E Hy) as (x & Hx & Hle). rewrite (el_inits _ _ Hle). by apply (i_inits _ HI e).
  - intros t Ht. destruct (i_right _ HI t Ht) as (H1 & H2 & H3). split_and!; [destruct L as [L|(e & L1 & L2 & _)]; congruence| |done]. intros Hi. specialize (H2 Hi). destruct C; congruence.
  - apply (i_tok _ HI).
  - apply (i_marks _ HI).
  - apply (i_td _ HI).
  - by apply T, (i_timers _ HI).
  - intros i Hi. rewrite <- (Forall2_length _ _ _ P). apply (i_cur _ HI). destruct C; congruence.
  - intros e He. destruct (i_retired _ HI e He) as [H1 H2]. split; [by eapply calm_dead|]. intros H3. by apply H2, Hl.
Qed.
Lemma calm_ok X s s' : calm s s' -> Inv s -> ok_step X s s'.
Proof.
  intros Hc HI. split; [by eapply calm_inv|by apply calm_le|by rewrite (c_ghost _ _ Hc)|intros t _ _; by apply calm_stay|].
  intros z _ _. unfold flies. by rewrite (c_gates _ _ Hc).
Qed.
Lemma calm_rely X s s' : calm s s' -> rely X s s'.
Proof. intros Hc. split_and!; [by apply calm_le|intros; by apply calm_stay|]. intros z _. unfold flies. by rewrite (c_gates _ _ Hc). Qed.

(** ** Gates *)

Lemma gates_ok X f b s :
  Inv s -> initializing (f (gates s)) = initializing (gates s) -> closed (f (gates s)) = closed (gates s) -> tds (f (gates s)) = tds (gates s) ->
  marks_keep sid b (marks (gates s)) (marks (f (gates s))) -> (forall z, b = Some z -> inr z ∈ X) ->
  ok_step X s (on_gates f s).
Proof.
  intros HI H1 H2 H3 HK Hb. pose proof (k_seq _ _ _ _ HK) as Hq. split.
  - split; cbn; rewrite ?H1, ?H2, ?H3; try by destruct HI.
    + apply (k_wf _ _ _ _ HK).
    + intros h x Hx Ho. destruct (i_td _ HI h x Hx Ho) as [A1 A2]. split; [lia|]. intros Hs. destruct (A2 Hs) as [A|A]; [by left|right; by apply (k_done _ _ _ _ HK)].
  - split; cbn; rewrite ?H2, ?H3; auto.
    + intros h x Hx. exists x. auto.
    + intros h x Hx Hh _. apply lookup_lt_Some in Hx. lia.
    + intros i x Hx. exists x. split; [done|by left].
    + intros e x Hx. exists x. auto.
  - done.
  - intros t _ _. split; cbn; rewrite ?H1, ?H3; auto. intros e x Hx Ht. exists x. auto.
  - intros z Hz Hle Hf. apply (k_flight _ _ _ _ HK); [done| |done]. intros <-. by apply Hz, Hb.
Qed.
(** A block on the gates that moves neither a mark, nor the reservation, nor a teardown. *)
Lemma gates_idle X f s :
  Inv s -> initializing (f (gates s)) = initializing (gates s) -> closed (f (gates s)) = closed (gates s) -> tds (f (gates s)) = tds (gates s) ->
  marks (f (gates s)) = marks (gates s) -> ok_step X s (on_gates f s).
Proof. intros HI H1 H2 H3 H4. apply (gates_ok X f None); [done..| |done]. rewrite H4. apply keeps_refl, (i_marks _ HI). Qed.

Lemma add_mark_ok X s : Inv s -> ok_step X s (add_mark sid s) /\ done_since (seq (marks (gates (add_mark sid s)))) (marks_of (marks (gates (add_mark sid s))) sid) /\
  seq (marks (gates s)) < seq (marks (gates (add_mark sid s))).
Proof.
  intros HI. pose proof (push_keeps sid false _ (i_marks _ HI)) as (HK & Hq & _ & Hd & _). cbn -[push] in Hq, Hd. split_and!.
  - by apply (gates_ok X _ None).
  - unfold add_mark, on_gates, add. cbn -[push]. rewrite Hq. by apply Hd.
  - unfold add_mark, on_gates, add. cbn -[push]. rewrite Hq. lia.
Qed.
Lemma hold_mark_ok X s : Inv s -> ok_step X s (snd (hold_mark sid s)) /\ fst (hold_mark sid s) = seq (marks (gates s)) + 1 /\
  seq (marks (gates (snd (hold_mark sid s)))) = seq (marks (gates s)) + 1 /\ flies (fst (hold_mark sid s)) (snd (hold_mark sid s)).
Proof.
  intros HI. pose proof (push_keeps sid true _ (i_marks _ HI)) as (HK & Hq & _ & _ & Hf). cbn -[push] in Hq, Hf.
  assert (hold_mark sid s = (seq (marks (gates s)) + 1, on_gates (set_marks (snd (push (marks (gates s)) sid true))) s)) as E by done. rewrite E. cbn -[push].
  split_and!; [|done|done|by apply Hf]. by apply (gates_ok X _ None).
Qed.
Lemma drop_mark_ok X z s : Inv s -> flies z s -> ok_step X s (drop_mark sid z s).
Proof. intros HI Hf. apply (gates_ok X _ None); [done..| |done]. apply drop_keeps; [apply (i_marks _ HI)|done]. Qed.
Lemma drop_mark_flies y z s : Inv s -> y <= seq (marks (gates s)) -> flies z s -> flies y s -> flies y (drop_mark sid z s).
Proof. intros HI Hy Hz Hf. pose proof (drop_keeps sid z _ (i_marks _ HI) Hz) as HK. by apply (k_flight _ _ _ _ HK). Qed.
Lemma settle_mark_ok X z s : Inv s -> inr z ∈ X -> ok_step X s (settle_mark sid z s).
Proof. intros HI Hz. apply (gates_ok X _ (Some z)); [done..| |by intros y [= <-]]. apply settle_keeps, (i_marks _ HI). Qed.

(** The marks are cleared where nothing is left for them to guard. *)
Lemma clear_ok X s s' :
  Inv s -> reg s' = reg s -> epi s' = epi s -> initializing (gates s') = initializing (gates s) -> closed (gates s') = closed (gates s) ->
  tds (gates s') = tds (gates s) -> nextTok (ghost s') = nextTok (ghost s) -> right (ghost s') = right (ghost s) -> retired (ghost s') = retired (ghost s) ->
  marks_clear sid (marks (gates s)) (marks (gates s')) ->
  (gone (ghost s') = true \/ gone (ghost s') = gone (ghost s) /\ (gone (ghost s) = true \/ forall h x, tds (gates s) !! h = Some x -> td_own x = true -> td_settled x = true)) ->
  ok_step X s s'.
Proof.
  intros HI H1 H2 H3 H4 H5 H6 H7 H8 HC HG. assert (forall e, dead e s -> dead e s') as Hd by (intros e (x & Hx & He); exists x; by rewrite H1). split.
  - split; rewrite ?H1, ?H2, ?H3, ?H4, ?H5, ?H6, ?H7, ?H8; try by destruct HI.
    + intros Hc e He. by apply Hd, (i_closed _ HI).
    + apply (cl_wf _ _ _ HC).
    + intros h x Hx Ho. destruct (i_td _ HI h x Hx Ho) as [A1 A2]. rewrite (cl_seq _ _ _ HC). split; [done|]. intros Hs. left.
      destruct HG as [HG|[HG1 [HG2|HG2]]]; [done|by rewrite HG1|]. specialize (HG2 h x Hx Ho). congruence.
    + intros e He. destruct (i_retired _ HI e He) as [A1 A2]. split; [by apply Hd|done].
  - split; rewrite ?H1, ?H2, ?H4, ?H5, ?H6, ?H8; auto.
    + by rewrite (cl_seq _ _ _ HC).
    + intros Hg. destruct HG as [HG|[HG1 _]]; [done|by rewrite HG1].
    + intros h x Hx. exists x. auto.
    + intros h x Hx Hh _. apply lookup_lt_Some in Hx. lia.
    + intros i x Hx. exists x. split; [done|by left].
    + intros e x Hx. exists x. auto.
  - by rewrite H6.
  - intros t _ _. split; rewrite ?H1, ?H2, ?H3, ?H5, ?H7; auto.
    + intros i (Hc & x & Hx & Ht). split_and!; [|unfold started_of; by rewrite H2|by left|done]. split; [congruence|]. exists x. split; [congruence|done].
    + intros e x Hx Ht. exists x. auto.
  - intros z _ _. unfold flies. apply (cl_flight _ _ _ HC).
Qed.
Lemma drop_finished_ok X s : Inv s -> ok_step X s (drop_finished sid s).
Proof. intros HI. apply clear_ok; try done; [apply dropFinished_clears, (i_marks _ HI)|by left]. Qed.

(** ** Teardowns *)

Lemma td_done c m m' : marks_keep sid None m m' -> done_since c (marks_of m sid) -> done_since c (marks_of m' sid).
Proof. intros HK. apply (k_done _ _ _ _ HK). Qed.

Lemma tds_ok X s l :
  Inv s ->
  (forall h x, l !! h = Some x -> td_own x = true ->
     exists y, tds (gates s) !! h = Some y /\ td_own y = true /\ td_mark x = td_mark y /\ (td_settled y = true -> td_settled x = true)) ->
  (forall h x, tds (gates s) !! h = Some x -> exists x', l !! h = Some x' /\ td_own x' = td_own x /\ td_mark x' = td_mark x /\ (td_settled x = true -> td_settled x' = true)) ->
  (forall t h x, inl t ∉ X -> tds (gates s) !! h = Some x -> td_phase x = Held t -> l !! h = Some x) ->
  ok_step X s (on_gates (set_tds l) s).
Proof.
  intros HI H1 H2 H3. split.
  - split; cbn; try by destruct HI. intros h x Hx Ho. destruct (H1 h x Hx Ho) as (y & Hy & Hyo & Hm & Hs).
    rewrite Hm. destruct (i_td _ HI h y Hy Hyo) as [A1 A2]. split; [done|]. intros Hx'. apply A2. destruct (td_settled y); [|done]. by rewrite Hs in Hx'.
  - split; cbn; auto; try lia.
    + intros h x Hx Hh Ho. destruct (H1 h x Hx Ho) as (y & Hy & _). apply lookup_lt_Some in Hy. lia.
    + intros i x Hx. exists x. split; [done|by left].
    + intros e x Hx. exists x. auto.
  - done.
  - intros t Ht _. split; cbn; auto; [intros e x Hx Het; exists x; auto|]. intros h x Hx Hp. by apply (H3 t).
  - auto.
Qed.
Lemma track_adapter_ok X p z s : Inv s -> ok_step X s (track false z p s).
Proof.
  intros HI. unfold track. apply (tds_ok X s (tds (gates s) ++ [mkTd false z p])%list HI).
  - intros h x Hx Ho. apply lookup_snoc in Hx as [Hx|[-> ->]]; [exists x; auto|done].
  - intros h x Hx. exists x. split_and!; auto. by apply lookup_app_l_Some.
  - intros t h x _ Hx _. by apply lookup_app_l_Some.
Qed.
(** A teardown of the lifecycle's own is tracked in the step that marks the session. *)
Lemma track_own_ok X p s0 s1 :
  ok_step X s0 s1 -> seq (marks (gates s0)) < seq (marks (gates s1)) -> done_since (seq (marks (gates s1))) (marks_of (marks (gates s1)) sid) ->
  ok_step X s0 (track true (seq (marks (gates s1))) p s1).
Proof.
  intros H Hq Hd. pose proof (o_inv _ _ _ H) as HI. pose proof (o_le _ _ _ H) as HL. unfold track. split.
  - split; cbn; try by destruct HI. intros h x Hx Ho. apply lookup_snoc in Hx as [Hx|[-> ->]]; [by apply (i_td _ HI h)|]. cbn. split; [lia|by right].
  - split; cbn; try apply HL.
    + intros h x Hx. destruct (le_tds _ _ HL h x Hx) as (y & Hy & A). exists y. split; [by apply lookup_app_l_Some|done].
    + intros h x Hx Hh Ho. apply lookup_snoc in Hx as [Hx|[-> ->]]; [by apply (le_new _ _ HL h)|done].
  - apply (o_tok _ _ _ H).
  - intros t Ht Hu. pose proof (o_stay _ _ _ H t Ht Hu) as HS. split; try apply HS. cbn. intros h x Hx Hp. by apply lookup_app_l_Some, (st_held _ _ _ HS).
  - apply (o_fly _ _ _ H).
Qed.
Lemma logout_launch_ok X e h tok x s :
  Inv s -> inl tok ∈ X -> tds (gates s) !! h = Some x -> td_phase x = Held tok -> ok_step X s (logout_launch e h s).
Proof.
  intros HI Ht Hx Hp. unfold logout_launch. eapply ok_trans; [|apply calm_ok; [apply calm_begin_end|]].
  2: match goal with |- Inv ?z => enough (ok_step X s z) as Hz by apply (o_inv _ _ _ Hz) end.
  all: apply (tds_ok X s (alter (fun x => mkTd (td_own x) (td_mark x) Running) h (tds (gates s))) HI).
  all: try (intros h' y Hy; destruct (decide (h = h')) as [<-|Hne]; [rewrite list_lookup_alter_eq, Hx in *|rewrite list_lookup_alter_ne in * by done]).
  all: try (intros Ho; cbn in Hy; injection Hy as <-; exists x; split_and!; [done|done|done|]; unfold td_settled; by rewrite Hp).
  all: try (intros Ho; by exists y).
  all: try (injection Hy as <-; cbn; eexists; split_and!; [done|done|done|]; unfold td_settled; by rewrite Hp).
  all: try (by exists y).
  all: intros t h' y Htn Hy Hyp; rewrite list_lookup_alter_ne; [done|]; intros <-; rewrite Hx in Hy; injection Hy as <-; congruence.
Qed.
Lemma settle_td_ok X h x s : Inv s -> tds (gates s) !! h = Some x -> td_phase x = Running ->
  ok_step X s (on_gates (fun g => set_tds (<[h := mkTd (td_own x) (td_mark x) Settled]> (tds g)) g) s).
Proof.
  intros HI Hx Hp. pose proof (lookup_lt_Some _ _ _ Hx) as Hl. apply (tds_ok X s (<[h := mkTd (td_own x) (td_mark x) Settled]> (tds (gates s))) HI).
  all: try (intros h' y Hy; destruct (decide (h = h')) as [<-|Hne]; [rewrite list_lookup_insert_eq in * by done|rewrite list_lookup_insert_ne in * by done]).
  - intros Ho. injection Hy as <-. by exists x.
  - intros Ho. by exists y.
  - rewrite Hx in Hy. injection Hy as <-. eexists. split_and!; done.
  - by exists y.
  - intros t h' y _ Hy Hyp. rewrite list_lookup_insert_ne; [done|]. intros <-. congruence.
Qed.

(** ** Tokens and the right to register *)

Lemma draw_ok X s : Inv s -> ok_step X s (snd (draw s)) /\ fst (draw s) = nextTok (ghost s) /\ nextTok (ghost (snd (draw s))) = S (nextTok (ghost s)).
Proof.
  intros HI. split_and!; [|done|done]. split; cbn; try lia; auto.
  - split; cbn; try by destruct HI. + intros t Ht. destruct (i_right _ HI t Ht) as (A & B & C). split_and!; [done|done|lia].
    + intros t Ht. pose proof (i_tok _ HI t Ht). lia.
  - split; cbn; auto; try lia.
    + intros h x Hx. exists x. auto.
    + intros h x Hx Hh _. apply lookup_lt_Some in Hx. lia.
    + intros i x Hx. exists x. split; [done|by left].
    + intros e x Hx. exists x. auto.
  - intros t _ _. split; cbn; auto. intros e x Hx Ht. exists x. auto.
Qed.

Lemma same_le s s' : reg s' = reg s -> epi s' = epi s -> seq (marks (gates s')) = seq (marks (gates s)) -> tds (gates s') = tds (gates s) ->
  gone (ghost s') = gone (ghost s) -> closed (gates s') = closed (gates s) -> (nextTok (ghost s) <= nextTok (ghost s'))%nat -> (forall e, e ∈ retired (ghost s) -> e ∈ retired (ghost s')) -> le s s'.
Proof.
  intros H1 H2 H3 H4 H5 H6 H7 H8. split; rewrite ?H1, ?H2, ?H3, ?H4, ?H5, ?H6; auto; try lia.
  - intros h x Hx. exists x. auto.
  - intros h x Hx Hh _. apply lookup_lt_Some in Hx. lia.
  - intros i x Hx. exists x. split; [done|by left].
  - intros e x Hx. exists x. auto.
Qed.

(** The right is given up, or taken by a task nobody can hold it against. *)
Lemma drop_right_ok X t s : Inv s -> right (ghost s) = Some t -> inl t ∈ X -> ok_step X s (set_right None s).
Proof.
  intros HI Hr Ht. split; cbn; auto; [|by apply same_le|].
  - split; cbn; try by destruct HI.
  - intros u Hu _. split; cbn; auto; [congruence| |].
    + intros i Hi. split_and!; [done|done|by left|congruence].
    + intros e x Hx He. exists x. auto.
Qed.
Lemma no_right_ok X s : Inv s -> right (ghost s) = None -> ok_step X s (set_right None s).
Proof.
  intros HI Hr. split; cbn; auto; [|by apply same_le|].
  - split; cbn; try by destruct HI.
  - intros u Hu _. split; cbn; auto; [congruence| |].
    + intros i Hi. split_and!; [done|done|by left|congruence].
    + intros e x Hx He. exists x. auto.
Qed.
Lemma take_right_ok X t s :
  Inv s -> inl t ∈ X -> (t < nextTok (ghost s))%nat -> live (reg s) = None -> (initializing (gates s) = Some t -> current (epi s) = None) ->
  (forall u, inl u ∉ X -> initializing (gates s) = Some u -> right (ghost s) <> Some u) ->
  (forall u i, inl u ∉ X -> ~ ent u i s) ->
  ok_step X s (set_right (Some t) s).
Proof.
  intros HI Ht Hlt Hl Hi Hno Hent. split; cbn; auto; [|by apply same_le|].
  - split; cbn; try by destruct HI. intros u [= <-]. auto.
  - intros u Hu _. split; cbn; auto.
    + intros H1 H2. exfalso. by apply (Hno u Hu).
    + intros i H1. exfalso. by apply (Hent u i Hu).
    + intros e x Hx He. exists x. auto.
Qed.

Lemma start_reserve_ok X s :
  Inv s -> initializing (gates s) = None ->
  let s' := on_gates (set_initializing (Some (nextTok (ghost s)))) (snd (draw s)) in
  ok_step X s s' /\ initializing (gates s') = Some (nextTok (ghost s)) /\ nextTok (ghost s') = S (nextTok (ghost s)) /\
  marks (gates s') = marks (gates s).
Proof.
  intros HI Hn. cbn zeta. pose proof (draw_ok X s HI) as (HO & _ & _). pose proof (o_inv _ _ _ HO) as HI1. split_and!; [|done|done|done]. split; cbn.
  - split; cbn; try by destruct HI1.
    + intros t Ht. destruct (i_right _ HI t Ht) as (A & B & C). split_and!; [done| |lia]. intros [= Hx]. lia.
    + intros t [= <-]. lia.
  - apply same_le; try done. cbn. lia.
  - lia.
  - intros t _ Hu. split; cbn; auto.
    + rewrite Hn. split; [done|]. intros [= Hx]. lia.
    + intros e x Hx He. exists x. auto.
  - auto.
Qed.
Lemma start_release_ok X tok s : Inv s -> inl tok ∈ X -> initializing (gates s) = Some tok -> ok_step X s (start_release tok s).
Proof.
  intros HI Ht Hi. unfold start_release. set (s1 := on_gates (set_initializing None) s).
  assert (ok_step X s s1) as H1.
  { split; cbn; auto; [|by apply same_le|].
    - split; cbn; try by destruct HI. intros t Hr. destruct (i_right _ HI t Hr) as (A & B & C). by split_and!.
    - intros t Hn _. split; cbn; auto.
      + rewrite Hi. split; [intros [= ->]; done|done].
      + intros e x Hx He. exists x. auto. }
  cbn zeta. destruct (bool_decide _) eqn:Eb; [|exact H1]. apply bool_decide_eq_true in Eb. eapply ok_trans; [exact H1|]. by apply (drop_right_ok X tok); [apply (o_inv _ _ _ H1)| |].
Qed.

(** ** Registering *)

(** Past the credential fence no teardown of the lifecycle's own runs, or the start sees
    its mark. *)
Lemma start_gate_ok X tok seen settled n s :
  Inv s -> inl tok ∈ X -> initializing (gates s) = Some tok ->
  (settled = true -> forall h x, (h < n)%nat -> tds (gates s) !! h = Some x -> td_settled x = true) ->
  (forall h x, (n <= h)%nat -> tds (gates s) !! h = Some x -> td_own x = true -> forall v, seen = Some v -> v < td_mark x) ->
  ok_step X s (snd (start_gate sid nodeId tok seen settled s)) /\
  (fst (start_gate sid nodeId tok seen settled s) = Ok tt ->
   initializing (gates (snd (start_gate sid nodeId tok seen settled s))) = Some tok /\ right (ghost (snd (start_gate sid nodeId tok seen settled s))) = Some tok).
Proof.
  intros HI Ht Hi Hset Hnew. unfold start_gate. destruct settled; cbn [negb]; [|split; [by apply ok_refl|done]].
  destruct (has_engine s) eqn:Eh; [split; [by apply ok_refl|done]|]. destruct (bool_decide _); [split; [by apply ok_refl|done]|].
  destruct (markedSince _ _ _) eqn:Em; [split; [by apply ok_refl|done]|]. cbn [fst snd]. split; [|intros _; split; [exact (eq_trans (f_equal initializing (c_gates _ _ (calm_cancelReconnect nodeId (clear_marks sid s)))) Hi)|done]].
  assert (ok_step X s (clear_marks sid s)) as H1.
  { apply clear_ok; try done; [apply delete_clears, (i_marks _ HI)|]. right. split; [done|]. destruct (gone (ghost s)) eqn:Eg; [by left|right].
    intros h x Hx Ho. destruct (decide (h < n)%nat) as [Hlt|Hge]; [by apply (Hset eq_refl h)|]. destruct (td_settled x) eqn:Es; [done|].
    destruct (proj2 (i_td _ HI h x Hx Ho) Es) as [Hg|Hd]; [congruence|]. exfalso.
    assert (markedSince (marks (gates s)) sid seen = true) as E; [|congruence].
    apply (done_seen sid (td_mark x)); [apply (i_marks _ HI)|done|]. apply (Hnew h); [lia|done|done]. }
  eapply ok_trans; [exact H1|]. pose proof (calm_cancelReconnect nodeId (clear_marks sid s)) as Hc.
  pose proof (calm_ok X _ _ Hc (o_inv _ _ _ H1)) as H2. eapply ok_trans; [exact H2|]. pose proof (o_inv _ _ _ H2) as HI2.
  assert (initializing (gates (cancelReconnect nodeId (clear_marks sid s))) = Some tok) as Hi2 by by rewrite (c_gates _ _ Hc).
  apply take_right_ok; [done|done|by apply (i_tok _ HI2)| |done| |].
  - apply has_engine_false in Eh. destruct (c_live _ _ Hc) as [L|(e & _ & L & _)]; [by rewrite L|done].
  - intros u Hu Hiu. rewrite Hi2 in Hiu. injection Hiu as <-. done.
  - intros u i _ [Hcur _]. done.
Qed.

Lemma clean_now l s : Inv s -> live (reg s) = l -> marked sid s = false -> closed (gates s) = false -> clean l (moment sid s).
Proof.
  intros HI Hl Hm Hc. split_and!; [done|done|done|]. cbn. destruct (gone (ghost s)) eqn:Eg; [by left|right].
  unfold unsettled_own. destruct (List.filter own_running (tds (gates s))) as [|x r] eqn:E; [done|]. exfalso.
  assert (In x (List.filter own_running (tds (gates s)))) as Hin by (rewrite E; by left). apply filter_In in Hin as [Hin Hr].
  apply list_elem_of_In, list_elem_of_lookup in Hin as [h Hx]. apply andb_true_iff in Hr as [Ho Hs]. apply negb_true_iff in Hs.
  destruct (proj2 (i_td _ HI h x Hx Ho) Hs) as [Hg|Hd]; [congruence|]. pose proof (done_marked sid _ _ (i_marks _ HI) Hd) as Hmk. unfold marked in Hm. congruence.
Qed.

(** What a registration leaves: an engine of the task's own, not asked to initialize. *)
Definition fresh_engine (tok e : nat) (s : Local) : Prop := exists x, engs (reg s) !! e = Some x /\ e_tok x = tok /\ e_inits x = [].

Lemma init_begin_ok X works tok s :
  Inv s -> inl tok ∈ X -> live (reg s) = None -> right (ghost s) = None -> (forall u i, inl u ∉ X -> ~ ent u i s) ->
  let '(r, s') := init_begin sid works tok s in
  ok_step X s s' /\ (forall e epoch, r = Ok (Some (e, epoch)) -> fresh_engine tok e s').
Proof.
  intros HI Ht Hl Hr Hent. unfold init_begin. destruct (marked sid s) eqn:Em; [split; [by apply ok_refl|done]|].
  destruct (closed (gates s)) eqn:Ec; [split; [by apply ok_refl|done]|]. destruct (negb works); [split; [by apply ok_refl|done]|].
  unfold register. rewrite Hl. set (x := mkEng false None 0 tok (moment sid s) []). set (e := length (engs (reg s))).
  set (s1 := on_reg (fun r => mkReg (Some e) (engs r ++ [x])%list) s).
  assert (forall j y, engs (reg s) !! j = Some y -> engs (reg s1) !! j = Some y) as Hold by (intros j y Hy; cbn; by apply lookup_app_l_Some).
  assert (ok_step X s s1) as H1.
  { split; cbn; auto.
    - split; cbn; try by destruct HI.
      + intros j y Hy. apply lookup_snoc in Hy as [Hy|[-> ->]]; [|by left]. destruct (i_one _ HI j y Hy) as [A|A]; [congruence|by right].
      + intros j [= <-]. rewrite length_app. cbn. unfold e. lia.
      + congruence.
      + intros j y Hy. apply lookup_snoc in Hy as [Hy|[-> ->]]; [by apply (i_launch _ HI j)|]. cbn. by apply clean_now.
      + intros j y Hy. apply lookup_snoc in Hy as [Hy|[-> ->]]; [by apply (i_inits _ HI j)|]. cbn. split; [lia|by constructor].
      + intros t Hrt. congruence.
      + intros j Hj. destruct (i_retired _ HI j Hj) as [(y & Hy & Hd) _]. split; [exists y; split; [by apply Hold|done]|].
        intros [= <-]. apply lookup_lt_Some in Hy. unfold e in Hy. lia.
    - split; cbn; auto; try lia.
      + intros h y Hy. exists y. auto.
      + intros h y Hy Hh _. apply lookup_lt_Some in Hy. lia.
      + intros i y Hy. exists y. split; [done|by left].
      + intros j y Hy. exists y. split_and!; auto.
      + congruence.
    - intros t Htn _. split; cbn; auto.
      + intros i Hi. exfalso. by apply (Hent t i Htn).
      + intros j y Hy Hyt. exists y. split_and!; auto. }
  pose proof (o_inv _ _ _ H1) as HI1.
  assert (calm s1 (on_mem (set_error None) (record PresenceClear s1))) as Hc by (etrans; [apply calm_record|apply calm_mem]).
  pose proof (calm_ok X _ _ Hc HI1) as H2. split.
  - eapply ok_trans; [exact H1|]. eapply ok_trans; [exact H2|]. by apply gates_idle; [apply (o_inv _ _ _ H2)| | | |].
  - intros j ep [= <- _]. exists x. split_and!; [|done|done]. cbn. apply lookup_snoc. by right.
Qed.

Lemma init_begin_right works tok s :
  init_begin sid works tok (set_right None s) = (fst (init_begin sid works tok s), set_right None (snd (init_begin sid works tok s))).
Proof.
  unfold init_begin. change (marked sid (set_right None s)) with (marked sid s). change (closed (gates (set_right None s))) with (closed (gates s)).
  destruct (marked sid s); [done|]. destruct (closed (gates s)); [done|]. destruct (negb works); [done|]. unfold register. cbn. by destruct (live (reg s)).
Qed.
Lemma launch_ok X works tok s :
  Inv s -> inl tok ∈ X -> right (ghost s) = Some tok -> (forall u i, inl u ∉ X -> ~ ent u i s) ->
  let '(r, s') := init_begin sid works tok s in
  ok_step X s (set_right None s') /\ (forall e epoch, r = Ok (Some (e, epoch)) -> fresh_engine tok e (set_right None s')).
Proof.
  intros HI Ht Hr Hent. pose proof (drop_right_ok X tok s HI Hr Ht) as H1. pose proof (o_inv _ _ _ H1) as HI1.
  pose proof (init_begin_ok X works tok (set_right None s) HI1 Ht (proj1 (i_right _ HI tok Hr)) eq_refl Hent) as H2.
  rewrite init_begin_right in H2. destruct (init_begin sid works tok s) as [r s']. cbn [fst snd] in H2. destruct H2 as [H2 H3].
  split; [|exact H3]. by eapply ok_trans.
Qed.

(** A start's launch. *)
Lemma push_episode_ok X x s :
  Inv s -> inl (ep_tok x) ∈ X -> current (epi s) = None -> right (ghost s) = None ->
  ok_step X s (on_epi (fun p => mkEpisodes (Some (length (eps p))) (eps p ++ [x])%list (retries p) (timers p)) s).
Proof.
  intros HI Ht Hc Hr. split; cbn; auto.
  - split; cbn; try by destruct HI.
    + intros t Hrt. congruence.
    + intros t j Hj. destruct (i_timers _ HI t j Hj) as (y & Hy & _). congruence.
    + intros i [= <-]. rewrite length_app. cbn. lia.
  - split; cbn; auto; try lia.
    + intros h y Hy. exists y. auto.
    + intros h y Hy Hh _. apply lookup_lt_Some in Hy. lia.
    + intros i Hi [= <-]. lia.
    + intros i y Hy. exists y. split; [by apply lookup_app_l_Some|by left].
    + intros e y Hy. exists y. auto.
  - intros t Htn _. split; cbn; auto.
    + intros i ([= <-] & y & Hy & Hyt). apply lookup_snoc in Hy as [Hy|[_ ->]]; [apply lookup_lt_Some in Hy; lia|]. exfalso. apply Htn. by rewrite <- Hyt.
    + intros e y Hy Hyt. exists y. auto.
Qed.
Lemma start_launch_ok X works tok session cur epoch s :
  Inv s -> inl tok ∈ X -> initializing (gates s) = Some tok -> right (ghost s) = Some tok ->
  let '(i, r, phone, s') := start_launch sid works tok session cur epoch s in
  ok_step X s s' /\ (forall e epoch, r = Ok (Some (e, epoch)) -> fresh_engine tok e s').
Proof.
  intros HI Ht Hi Hr. destruct (i_right _ HI tok Hr) as (Hl & Hcur & _). specialize (Hcur Hi). unfold start_launch.
  set (x := mkEp (resolveReconnectConfig (s_max session) (s_base session)) None None false false None 0 None None None tok).
  set (push := fun p => mkEpisodes (Some (length (eps (epi s)))) (eps p ++ [x])%list (retries p) (timers p)).
  set (s1 := on_mem (set_stuck false) (on_epi push s)).
  pose proof (drop_right_ok X tok s HI Hr Ht) as H1. pose proof (push_episode_ok X x _ (o_inv _ _ _ H1) Ht Hcur eq_refl) as H2.
  pose proof (calm_ok X _ _ (calm_mem (set_stuck false) _) (o_inv _ _ _ H2)) as H3.
  assert (ok_step X s (set_right None s1)) as HS by (eapply ok_trans; [exact H1|]; eapply ok_trans; [exact H2|exact H3]).
  assert (forall u i, inl u ∉ X -> ~ ent u i (set_right None s1)) as Hent.
  { intros u i Hu ([= <-] & y & Hy & Hyt). cbn in Hy. apply lookup_snoc in Hy as [Hy|[_ ->]]; [apply lookup_lt_Some in Hy; lia|]. cbn in Hyt. by subst u. }
  pose proof (init_begin_ok X works tok (set_right None s1) (o_inv _ _ _ HS) Ht Hl eq_refl Hent) as H4. rewrite init_begin_right in H4.
  destruct (init_begin sid works tok s1) as [r s2]. cbn [fst snd] in H4. destruct H4 as [H4 H5]. split; [by eapply ok_trans|exact H5].
Qed.

(** The engine of the task's own is told to initialize, once. *)
Lemma init_resume_ok X e epoch phone written tok s :
  Inv s -> inl tok ∈ X -> fresh_engine tok e s ->
  ok_step X s (snd (init_resume sid e epoch phone written s)).
Proof.
  intros HI Ht (x & Hx & Hxt & Hxi). unfold init_resume.
  set (s1 := if bool_decide _ then _ else s). assert (ok_step X s s1 /\ reg s1 = reg s) as [H1 Hrg].
  { subst s1. destruct (bool_decide _); [|split; [by apply ok_refl|done]]. split; [|done]. by apply gates_idle. }
  pose proof (o_inv _ _ _ H1) as HI1. rewrite <- Hrg in Hx. clearbody s1. cbv zeta. destruct (negb written); [done|].
  destruct (closed (gates s1)) eqn:Ec; [done|]. destruct (isLive e s1) eqn:El; [|done]. cbn [orb negb]. destruct (marked sid s1) eqn:Em; [done|]. cbn [snd].
  apply isLive_spec in El. eapply ok_trans; [exact H1|].
  match goal with |- ok_step X s1 (on_reg (on_eng e ?g) s1) => set (f := g) end.
  assert (forall j y, engs (reg s1) !! j = Some y -> exists z, alter f e (engs (reg s1)) !! j = Some z /\ e_ended z = e_ended y /\ e_tok z = e_tok y /\ e_launch z = e_launch y /\ (j = e \/ z = y)) as Ha.
  { intros j y Hy. destruct (decide (e = j)) as [<-|Hne]; [exists (f y); rewrite list_lookup_alter_eq, Hy; split_and!; [done|done|done|done|by left]|rewrite list_lookup_alter_ne by done; exists y; split_and!; auto]. }
  assert (forall j z, alter f e (engs (reg s1)) !! j = Some z -> exists y, engs (reg s1) !! j = Some y /\ e_ended z = e_ended y /\ e_launch z = e_launch y /\ (z = y \/ j = e /\ y = x /\ z = f x)) as Hb.
  { intros j z Hz. destruct (decide (e = j)) as [<-|Hne]; [rewrite list_lookup_alter_eq, Hx in Hz; apply (inj Some) in Hz; subst z; exists x; split_and!; [done|done|done|by right]|].
    rewrite list_lookup_alter_ne in Hz by done. exists z. split_and!; auto. }
  assert (forall j, dead j s1 -> dead j (on_reg (on_eng e f) s1)) as Hd.
  { intros j (y & Hy & He). destruct (Ha j y Hy) as (z & Hz & A & _). exists z. split; [done|congruence]. }
  split; cbn; auto.
  - split; cbn; try by destruct HI1.
    + intros j z Hz. destruct (Hb j z Hz) as (y & Hy & A & _). rewrite A. by apply (i_one _ HI1).
    + intros j Hj. rewrite length_alter. by apply (i_range _ HI1).
    + congruence.
    + intros j z Hz. destruct (Hb j z Hz) as (y & Hy & _ & A & _). rewrite A. by apply (i_launch _ HI1 j).
    + intros j z Hz. destruct (Hb j z Hz) as (y & Hy & _ & _ & [->|(-> & -> & ->)]); [by apply (i_inits _ HI1 j)|].
      cbn. rewrite Hxi. cbn. split; [lia|]. constructor; [|constructor]. by apply clean_now.
    + intros j Hj. destruct (i_retired _ HI1 j Hj). split; [by apply Hd|done].
  - split; cbn; auto; try lia.
    + intros h y Hy. exists y. auto.
    + intros h y Hy Hh _. apply lookup_lt_Some in Hy. lia.
    + intros i y Hy. exists y. split; [done|by left].
    + intros j y Hy. destruct (Ha j y Hy) as (z & Hz & A & B & C & _). exists z. split_and!; [done|congruence|done|done].
    + intros _. by rewrite length_alter.
  - intros t Htn _. split; cbn; auto. intros j y Hy Hyt. destruct (Ha j y Hy) as (z & Hz & A & B & C & [-> | ->]); [|exists y; auto].
    exfalso. apply Htn. rewrite Hx in Hy. injection Hy as ->. by rewrite <- Hyt, Hxt.
Qed.

(** ** The reconnect attempt *)

Lemma ok_shrink X tok s s' : (nextTok (ghost s) <= tok)%nat -> ok_step (X ∪ {[inl tok]}) s s' -> ok_step X s s'.
Proof.
  intros Hn H. split; [apply (o_inv _ _ _ H)|apply (o_le _ _ _ H)|apply (o_tok _ _ _ H)| |].
  - intros t Ht Hu. apply (o_stay _ _ _ H); [|done]. rewrite elem_of_union, elem_of_singleton. intros [?|[= ->]]; [done|lia].
  - intros z Hz Hu. apply (o_fly _ _ _ H); [|done]. rewrite elem_of_union, elem_of_singleton. by intros [?|?].
Qed.
Lemma ok_grow X Y s s' : X ⊆ Y -> ok_step X s s' -> ok_step Y s s'.
Proof. intros HXY H. split; [apply (o_inv _ _ _ H)|apply (o_le _ _ _ H)|apply (o_tok _ _ _ H)| |]; intros; [apply (o_stay _ _ _ H)|apply (o_fly _ _ _ H)]; set_solver. Qed.

(** What an attempt knows: its number is its token's; while it is the latest of the
    current episode, no engine is registered but the old one, or the right is its own. *)
Definition att (i attempt tok : nat) (s : Local) : Prop :=
  (exists x, eps (epi s) !! i = Some x /\ (attempt <= ep_started x)%nat /\ (ep_started x = attempt -> ep_tok x = tok)) /\
  (ent tok i s -> started_of i s = attempt) /\ initializing (gates s) <> Some tok /\ (tok < nextTok (ghost s))%nat.
Definition att_old (i tok e : nat) (s : Local) : Prop := ent tok i s -> live (reg s) = None \/ live (reg s) = Some e.
Definition att_right (i tok : nat) (s : Local) : Prop := ent tok i s -> right (ghost s) = Some tok.

Lemma stands_ent i attempt tok s : att i attempt tok s -> attempt_stands i attempt s = true -> ent tok i s.
Proof.
  intros ((x & Hx & _ & Ht) & _). unfold attempt_stands, is_current, started_of. rewrite Hx, andb_true_iff, !bool_decide_eq_true. intros [Hc Hs].
  split; [done|]. exists x. auto.
Qed.
Lemma ent_stands i attempt tok s : att i attempt tok s -> ent tok i s -> attempt_stands i attempt s = true.
Proof. intros (_ & H & _) He. unfold attempt_stands, is_current. rewrite andb_true_iff, !bool_decide_eq_true. split; [apply He|by apply H]. Qed.

Lemma attempt_begin_ok X i s :
  Inv s -> (i < length (eps (epi s)))%nat ->
  let '(b, s') := attempt_begin sid nodeId i s in
  ok_step X s s' /\
  match b with
  | None => True
  | Some (attempt, tok, old) =>
      tok = nextTok (ghost s) /\ att i attempt tok s' /\
      match old with Some e => dead e s' /\ att_old i tok e s' | None => att_right i tok s' end
  end.
Proof.
  intros HI Hi. unfold attempt_begin. destruct (marked sid s).
  { split; [|done]. destruct (is_current i s); [apply calm_ok; [apply calm_cancelReconnect|done]|by apply ok_refl]. }
  apply lookup_lt_is_Some in Hi as [x Hx]. pose proof (draw_ok X s HI) as (H0 & _ & _). cbn [draw]. cbv zeta.
  set (s1 := snd (draw s)) in *. change (on_ghost _ s) with s1. set (tok := nextTok (ghost s)).
  set (f := fun y => set_tearing true (set_started (S (started_of i s)) tok y)).
  change (started_of i s1) with (started_of i s). assert (started_of i s = ep_started x) as Est by (unfold started_of; by rewrite Hx).
  pose proof (o_inv _ _ _ H0) as HI1. set (s2 := on_epi (on_ep i f) s1).
  change (on_epi (on_ep i (fun x0 => set_tearing true (set_started (S (started_of i s)) tok x0))) s1) with s2.
  assert (eps (epi s2) !! i = Some (f x)) as Hfx by (cbn; by rewrite list_lookup_alter_eq, Hx).
  assert (forall j y, eps (epi s) !! j = Some y -> j <> i -> eps (epi s2) !! j = Some y) as Hoth by (intros j y Hy Hne; cbn; by rewrite list_lookup_alter_ne).
  assert (ok_step X s s2) as H2.
  { split; cbn.
    - split; cbn; try by destruct HI1.
      + apply timers_alter; [by intros []|apply (i_timers _ HI)].
      + intros j Hj. rewrite length_alter. by apply (i_cur _ HI).
    - split; cbn; auto; try lia.
      + intros h y Hy. exists y. auto.
      + intros h y Hy Hh _. apply lookup_lt_Some in Hy. lia.
      + intros j y Hy. destruct (decide (j = i)) as [->|Hne].
        * exists (f x). split; [done|]. rewrite Hx in Hy. injection Hy as <-. right. cbn. lia.
        * exists y. split; [by apply Hoth|by left].
      + intros e y Hy. exists y. auto.
    - lia.
    - intros t Ht Hu. split; cbn; auto.
      + intros j (Hc & y & Hy & Hyt). destruct (decide (j = i)) as [->|Hne].
        * exfalso. pose proof (eq_trans (eq_sym Hy) Hfx) as E. injection E as ->. cbn in Hyt. unfold tok in Hyt. lia.
        * assert (eps (epi s) !! j = Some y) as Hy' by (cbn in Hy; by rewrite list_lookup_alter_ne in Hy).
          split_and!; [|unfold started_of; by rewrite Hy', Hy|by left|done]. split; [done|by exists y].
      + intros e y Hy Hyt. exists y. auto.
    - auto. }
  pose proof (o_inv _ _ _ H2) as HI2.
  assert (att i (S (started_of i s)) tok s2) as HA.
  { split_and!.
    - exists (f x). split_and!; [done|cbn; lia|done].
    - intros _. unfold started_of at 1. by rewrite Hfx.
    - cbn. intros Ht. pose proof (i_tok _ HI _ Ht). unfold tok in *. lia.
    - cbn. unfold tok. lia. }
  change (live (reg s2)) with (live (reg s)). destruct (live (reg s)) as [e|] eqn:El; cbv beta iota.
  - pose proof (calm_begin_end e s2) as Hc. split; [by eapply ok_trans; [exact H2|apply calm_ok]|]. split; [done|]. split; [exact HA|]. split.
    + apply has_ended_dead; [|apply begin_end_ends]. cbn. rewrite length_alter. by apply (i_range _ HI).
    + intros _. right. exact El.
  - destruct (is_current i s2) eqn:Ec; [|split; [done|split; [done|split; [exact HA|]]]; intros [Hc _]; unfold is_current in Ec; apply bool_decide_eq_false in Ec; done].
    unfold is_current in Ec. apply bool_decide_eq_true in Ec. split; [|split; [done|split; [exact HA|done]]].
    apply (ok_shrink X tok); [unfold tok; lia|]. eapply ok_trans; [eapply ok_grow; [|exact H2]; set_solver|].
    apply take_right_ok; [done|set_solver|apply HA|done|by intros; exfalso; apply (proj1 (proj2 (proj2 HA)))| |].
    + intros u Hu Hiu Hr. destruct (i_right _ HI2 u Hr) as (_ & B & _). specialize (B Hiu). congruence.
    + intros u j Hu (Hc & y & Hy & Hyu). assert (j = i) as -> by congruence. rewrite Hfx in Hy. injection Hy as <-. cbn in Hyu. apply Hu. subst u. set_solver.
Qed.

Lemma att_calm i a tok s s' : calm s s' -> att i a tok s -> att i a tok s'.
Proof.
  intros Hc ((x & Hx & A & B) & C & D & E). destruct (Forall2_lookup_l _ _ _ _ _ (c_eps _ _ Hc) Hx) as (y & Hy & [L1 L2]). split_and!.
  - exists y. split_and!; [done|lia|]. intros Hs. rewrite L2. apply B. congruence.
  - intros He. pose proof (calm_stay tok _ _ Hc) as HS. destruct (st_ent _ _ _ HS i He) as (H1 & H2 & _). rewrite H2. by apply C.
  - by rewrite (c_gates _ _ Hc).
  - by rewrite (c_ghost _ _ Hc).
Qed.
Lemma att_right_calm i tok s s' : calm s s' -> att_right i tok s -> att_right i tok s'.
Proof. intros Hc H He. destruct (st_ent _ _ _ (calm_stay tok _ _ Hc) i He) as (H1 & _). rewrite (c_ghost _ _ Hc). by apply H. Qed.

Lemma attempt_evict_ok X i attempt tok e s :
  Inv s -> inl tok ∈ X -> att i attempt tok s -> att_old i tok e s -> dead e s ->
  let s' := snd (attempt_evict nodeId i attempt tok e s) in
  ok_step X s s' /\ att i attempt tok s' /\ att_right i tok s'.
Proof.
  intros HI Ht HA HO Hd. cbn zeta. unfold attempt_evict. pose proof (calm_delete e s (dead_has_ended _ _ Hd)) as Hc.
  set (s1 := snd (deleteIfLive e s)) in *. pose proof (calm_ok X _ _ Hc HI) as H1. pose proof (o_inv _ _ _ H1) as HI1. pose proof (att_calm i attempt tok _ _ Hc HA) as HA1.
  destruct (attempt_stands i attempt s1) eqn:Es.
  - pose proof (stands_ent _ _ _ _ HA1 Es) as He. destruct (st_ent _ _ _ (calm_stay tok _ _ Hc) i He) as (He0 & _ & _).
    assert (live (reg s1) = None) as Hl.
    { unfold s1, deleteIfLive. destruct (HO He0) as [Hn|Hs].
      - rewrite (proj2 (isLive_false e s)) by congruence. exact Hn.
      - rewrite (proj2 (isLive_spec e s)) by done. done. }
    assert (ok_step X s1 (set_right (Some tok) s1)) as H2.
    { apply take_right_ok; [done|done|apply HA1|done|by intros; exfalso; apply (proj1 (proj2 (proj2 HA1)))| |].
      - intros u Hu Hiu Hr. destruct (i_right _ HI1 u Hr) as (_ & B & _). specialize (B Hiu). destruct He as [He _]. congruence.
      - intros u j Hu (Hcj & y & Hy & Hyu). destruct He as (Hci & x & Hx & Hxt). assert (j = i) as -> by congruence. apply Hu. congruence. }
    pose proof (calm_endReadRetryOfGoneEngine nodeId (set_right (Some tok) s1)) as Hc2. pose proof (calm_ok X _ _ Hc2 (o_inv _ _ _ H2)) as H3. split_and!.
    + eapply ok_trans; [exact H1|]. by eapply ok_trans.
    + eapply att_calm; [exact Hc2|]. exact HA1.
    + eapply att_right_calm; [exact Hc2|]. done.
  - cbn [snd]. split_and!; [done|done|]. intros He. pose proof (ent_stands _ _ _ _ HA1 He). congruence.
Qed.

Lemma calm_attempt_flag f v i a s : (forall x, ep_timer (f v x) = ep_timer x) -> (forall x, ep_le x (f v x)) -> calm s (set_attempt_flag f v i a s).
Proof. intros H1 H2. unfold set_attempt_flag. destruct (bool_decide _); [by apply calm_ep|done]. Qed.
Lemma calm_tearing i a s : calm s (set_attempt_flag set_tearing false i a s).
Proof. apply calm_attempt_flag; by intros []. Qed.
Lemma calm_init i a s : calm s (set_attempt_flag set_init false i a s).
Proof. apply calm_attempt_flag; by intros []. Qed.

Lemma attempt_gate_ok X i attempt tok settled works session s :
  Inv s -> inl tok ∈ X -> att i attempt tok s -> att_right i tok s ->
  let '(g, s') := attempt_gate sid nodeId i attempt tok settled works session s in
  ok_step X s s' /\
  match g with GateInits r _ => forall e epoch, r = Ok (Some (e, epoch)) -> fresh_engine tok e s' | _ => True end.
Proof.
  intros HI Ht HA HR. unfold attempt_gate. pose proof (calm_tearing i attempt s) as Hc. set (s1 := set_attempt_flag set_tearing false i attempt s) in *.
  pose proof (calm_ok X _ _ Hc HI) as H1. cbv zeta. destruct (negb settled); [done|].
  destruct (is_current i s1) eqn:Ec; cbn [negb orb].
  2: done.
  destruct (marked sid s1) eqn:Em. { split; [|done]. eapply ok_trans; [exact H1|]. apply calm_ok; [apply calm_cancelReconnect|apply H1]. }
  destruct (bool_decide (started_of i s1 = attempt)) eqn:Es; cbn [negb]; [|done].
  assert (calm s1 (on_epi (on_ep i (set_init true)) s1)) as Hc2 by calm_ep. set (s2 := on_epi (on_ep i (set_init true)) s1) in *.
  assert (calm s s2) as Hc02 by by etrans. pose proof (calm_ok X _ _ Hc02 HI) as H2.
  assert (ent tok i s2) as He.
  { apply (stands_ent _ attempt); [by eapply att_calm|]. unfold attempt_stands. change (is_current i s2) with (is_current i s1). rewrite Ec. apply bool_decide_eq_true in Es.
    apply bool_decide_eq_true. rewrite <- Es. unfold started_of. cbn. rewrite list_lookup_alter_eq. destruct (eps (epi s1) !! i) as [[]|]; done. }
  pose proof (launch_ok X works tok s2 (o_inv _ _ _ H2) Ht (att_right_calm i tok _ _ Hc02 HR He)) as HL.
  destruct (init_begin sid works tok s2) as [r s3]. destruct HL as [H3 H4].
  - intros u j Hu (Hcj & y & Hy & Hyu). destruct He as (Hci & x & Hx & Hxt). assert (j = i) as -> by congruence. apply Hu. congruence.
  - split; [by eapply ok_trans|exact H4].
Qed.

Lemma calm_attempt_settled i a s : calm s (snd (attempt_settled nodeId i a s)).
Proof.
  unfold attempt_settled. pose proof (calm_init i a s) as Hc. set (s1 := set_attempt_flag set_init false i a s) in *. cbv zeta.
  destruct (negb _); [done|]. cbn [snd]. assert (calm s1 (on_epi (on_ep i (set_parked None)) s1)) as Hc2 by calm_ep.
  destruct (match eps (epi s1) !! i with Some x => ep_parked x | None => None end) as [[run b]|]; [|by etrans].
  destruct (is_current i _); [|by etrans]. etrans; [exact Hc|]. etrans; [exact Hc2|]. apply calm_run_parked.
Qed.
Lemma calm_attempt_failed i a mine session ex s : calm s (snd (attempt_failed sid nodeId initTimeoutMs i a mine session ex s)).
Proof.
  unfold attempt_failed. pose proof (calm_init i a s) as Hc. set (s1 := set_attempt_flag set_init false i a s) in *. cbv zeta.
  destruct (negb _); [done|]. cbn [snd]. assert (calm s1 (on_epi (on_ep i (set_parked None)) s1)) as Hc2 by calm_ep. set (s2 := on_epi (on_ep i (set_parked None)) s1) in *.
  assert (calm s s2) as H2 by by etrans. destruct (match _ with Some (_, _) => _ | None => None end) as [run|]; [etrans; [exact H2|apply calm_run_parked]|].
  set (s3 := match mine with Some e => if isLive e s2 then evictAndForceDestroy e s2 else s2 | None => s2 end).
  assert (calm s s3) as H3. { etrans; [exact H2|]. subst s3. destruct mine as [e|]; [|done]. destruct (isLive e s2); [apply calm_evictAndForceDestroy|done]. }
  destruct (_ || _); [done|]. destruct (marked sid s3); [etrans; [exact H3|apply calm_cancelReconnect]|].
  pose proof (calm_endReadRetryOfGoneEngine nodeId s3) as H4. destruct (endReadRetryOfGoneEngine nodeId s3) as [cl s4]. cbn [snd] in H4.
  etrans; [exact H3|]. etrans; [exact H4|]. apply calm_scheduleReconnect.
Qed.

(** ** The controls *)

Definition exists_engine (e : nat) (s : Local) : Prop := is_Some (engs (reg s) !! e).
Lemma live_exists e s : Inv s -> live (reg s) = Some e -> exists_engine e s.
Proof. intros HI He. apply lookup_lt_is_Some, (i_range _ HI), He. Qed.
Lemma begin_end_dead e s : exists_engine e s -> dead e (begin_end e s).
Proof. intros He. apply has_ended_dead; [|apply begin_end_ends]. cbn. rewrite length_alter. by apply lookup_lt_is_Some. Qed.

Lemma evict_ok X e s : Inv s -> dead e s -> ok_step X s (evict e s).
Proof.
  intros HI Hd. unfold evict. pose proof (calm_delete e s (dead_has_ended _ _ Hd)) as Hc. pose proof (calm_ok X _ _ Hc HI) as H1.
  set (s1 := snd (deleteIfLive e s)) in *. pose proof (o_inv _ _ _ H1) as HI1. eapply ok_trans; [exact H1|].
  assert (live (reg s1) <> Some e) as Hl.
  { unfold s1, deleteIfLive. destruct (isLive e s) eqn:El; [done|]. by apply isLive_false in El. }
  split; cbn; auto.
  - split; cbn; try by destruct HI1. intros j [->|Hj]%elem_of_cons; [split; [exact (calm_dead e _ _ Hc Hd)|done]|by apply (i_retired _ HI1)].
  - apply same_le; try done. intros j Hj. cbn. by right.
  - intros t _ _. split; cbn; auto. intros j x Hx Ht. exists x. auto.
Qed.

Lemma operator_ok X e s : Inv s -> ok_step X s (mark_operator e s).
Proof. intros HI. by apply gates_idle. Qed.
Lemma unmark_ok X e s : Inv s -> ok_step X s (unmark_operator e s).
Proof. intros HI. unfold unmark_operator. destruct (bool_decide _); [by apply gates_idle|by apply ok_refl]. Qed.

Lemma take_down_ok X s : Inv s -> ok_step X s (snd (take_down sid nodeId s)) /\ (forall e, fst (take_down sid nodeId s) = Some e -> exists_engine e (snd (take_down sid nodeId s))).
Proof.
  intros HI. unfold take_down. cbn [fst snd]. destruct (add_mark_ok X s HI) as (H1 & _). pose proof (calm_ok X _ _ (calm_cancelReconnect nodeId (add_mark sid s)) (o_inv _ _ _ H1)) as H2.
  split; [by eapply ok_trans|]. intros e He. by apply live_exists; [apply (o_inv _ _ _ H2)|].
Qed.
Lemma kill_begin_ok X s : Inv s -> ok_step X s (snd (kill_begin sid nodeId s)) /\ (forall e, fst (kill_begin sid nodeId s) = Ok e -> exists_engine e (snd (kill_begin sid nodeId s))).
Proof.
  intros HI. unfold kill_begin. destruct (live (reg s)) as [e|] eqn:El; [|by split; [apply ok_refl|]]. cbn [fst snd].
  destruct (add_mark_ok X s HI) as (H1 & _). pose proof (calm_cancelReconnect nodeId (add_mark sid s)) as Hc.
  split; [eapply ok_trans; [exact H1|]; by apply calm_ok; [|apply H1]|]. intros j [= <-].
  destruct (live_exists e s HI El) as [x Hx]. destruct (Forall2_lookup_l _ _ _ _ _ (c_engs _ _ Hc) Hx) as (y & Hy & _). by exists y.
Qed.

(** Marked down, its reconnect cancelled: a teardown of its own may be tracked. *)
Lemma down_track_ok X p s0 s s1 :
  ok_step X s0 s -> calm (add_mark sid s) s1 -> seq (marks (gates s0)) = seq (marks (gates s)) -> ok_step X s0 (track true (seq (marks (gates s1))) p s1).
Proof.
  intros H0 Hc Hq. destruct (add_mark_ok X s (o_inv _ _ _ H0)) as (H1 & Hd & Hlt). pose proof (calm_ok X _ _ Hc (o_inv _ _ _ H1)) as H2.
  apply track_own_ok; [eapply ok_trans; [exact H0|]; by eapply ok_trans| |]; rewrite (c_gates _ _ Hc); [lia|done].
Qed.

Lemma rejectRebind_begin_ok X e p i s : Inv s -> ok_step X s (snd (rejectRebind_begin sid nodeId e p i s)).
Proof.
  intros HI. unfold rejectRebind_begin. destruct (negb (isLive e s)); [by apply ok_refl|]. cbn [snd].
  apply (down_track_ok X Running s s); [by apply ok_refl| |done].
  etrans; [|apply (calm_evict_end e (fun z => z)); done]. etrans; [|apply calm_record]. etrans; [|apply calm_mem]. etrans; [|apply calm_record]. apply calm_cancelReconnect.
Qed.

(** The placeholder a logout holds, until it calls its engine. *)
Definition held_by (tok h : nat) (s : Local) : Prop := exists x, tds (gates s) !! h = Some x /\ td_phase x = Held tok.

Lemma calm_idle_reg s f : (forall g, marks (f g) = marks g) -> reg (on_gates f s) = reg s.
Proof. done. Qed.

Lemma logout_begin_ok X s :
  Inv s ->
  let '(r, s') := logout_begin sid nodeId s in
  ok_step X s s' /\ match r with Ok (e, h, tok) => tok = nextTok (ghost s) /\ (tok < nextTok (ghost s'))%nat /\ exists_engine e s' /\ held_by tok h s' | Err _ => True end.
Proof.
  intros HI. unfold logout_begin. destruct (live (reg s)) as [e|] eqn:El; [|by split; [apply ok_refl|]].
  pose proof (draw_ok X s HI) as (H0 & _ & _). unfold draw in *. cbn [fst snd] in H0. cbv zeta.
  set (s1 := on_ghost _ s) in *. pose proof (calm_cancelReconnect nodeId (add_mark sid s1)) as Hc. set (s2 := cancelReconnect nodeId (add_mark sid s1)) in *.
  pose proof (down_track_ok X (Held (nextTok (ghost s))) s s1 s2 H0 Hc eq_refl) as H1. split.
  - unfold track in *. cbn in *.
    set (l := (tds (gates s2) ++ [mkTd true (seq (marks (gates s2))) (Held (nextTok (ghost s)))])%list) in *.
    eapply ok_trans; [exact H1|]. apply (gates_idle X (set_operator (Some e)) (on_gates (fun g => set_tds (tds g ++ [mkTd true (seq (marks (gates s2))) (Held (nextTok (ghost s)))])%list g) s2)); [apply H1|done..].
  - split_and!; [done| | |].
    + enough ((nextTok (ghost s) < nextTok (ghost s2))%nat) as Hn by exact Hn. rewrite (c_ghost _ _ Hc). cbn. lia.
    + destruct (live_exists e s HI El) as [x Hx]. destruct (Forall2_lookup_l _ _ _ _ _ (c_engs _ _ Hc) Hx) as (y & Hy & _). by exists y.
    + eexists. split; [cbn; apply lookup_snoc; by right|done].
Qed.

Lemma hold_deletes_ok X f s : Inv s -> ok_step X s (on_gates (fun g => set_deleting (f (deleting g)) g) s).
Proof. intros HI. by apply gates_idle. Qed.

Lemma delete_begin_ok X s :
  Inv s ->
  let '(r, s') := delete_begin sid nodeId s in
  ok_step X s s' /\ fst r = seq (marks (gates s)) + 1 /\ seq (marks (gates s')) = seq (marks (gates s)) + 1 /\ flies (fst r) s' /\ (forall e, snd r = Some e -> exists_engine e s').
Proof.
  intros HI. unfold delete_begin. pose proof (hold_mark_ok X s HI) as (H1 & Hf & Hq & Hfl). destruct (hold_mark sid s) as [own s1]. cbn [fst snd] in *.
  assert (calm s1 (record CloseWrites (cancelReconnect nodeId s1))) as Hc by (etrans; [apply calm_cancelReconnect|apply calm_record]).
  set (s2 := record CloseWrites (cancelReconnect nodeId s1)) in *. pose proof (calm_ok X _ _ Hc (o_inv _ _ _ H1)) as H2. pose proof (o_inv _ _ _ H2) as HI2.
  split_and!.
  - eapply ok_trans; [exact H1|]. eapply ok_trans; [exact H2|]. by apply hold_deletes_ok.
  - done.
  - transitivity (seq (marks (gates s2))); [done|]. by rewrite (c_gates _ _ Hc).
  - enough (flies own s2) as Hn by exact Hn. unfold flies in *. by rewrite (c_gates _ _ Hc).
  - intros e He. by apply (live_exists e s2).
Qed.

Lemma delete_end_ok X removed mark own s :
  Inv s -> mark <= seq (marks (gates s)) -> flies mark s -> flies own s -> ok_step X s (delete_end sid removed mark own s).
Proof.
  intros HI Hq Hm Ho. unfold delete_end. set (s1 := endDelete (record ReleaseWrites s)). cbv zeta.
  assert (ok_step X s s1) as H1.
  { pose proof (calm_ok X _ _ (calm_record ReleaseWrites s) HI) as H0. eapply ok_trans; [exact H0|]. apply hold_deletes_ok, H0. }
  pose proof (o_inv _ _ _ H1) as HI1. destruct removed.
  - assert (ok_step X s1 (note_gone (clear_marks sid s1))) as H2 by (apply clear_ok; try done; [apply delete_clears, (i_marks _ HI1)|by left]).
    eapply ok_trans; [exact H1|]. eapply ok_trans; [exact H2|]. apply calm_ok; [|apply H2]. etrans; [apply calm_mem|apply calm_record].
  - pose proof (drop_mark_ok X own s1 HI1 Ho) as H2. eapply ok_trans; [exact H1|]. eapply ok_trans; [exact H2|]. apply drop_mark_ok; [apply H2|]. by apply drop_mark_flies.
Qed.

(** ** The shutdown *)

(** Dropping the episode does not look at the gates. *)
Lemma gates_snapshot f s : clear_snapshot (on_gates f s) = on_gates f (clear_snapshot s).
Proof. unfold clear_snapshot. change (state_of (on_gates f s)) with (state_of s). destruct (state_of s) as [[i x]|]; [|done]. by destruct (ep_session x). Qed.
Lemma gates_unlink f own s : recordTerminalUnlink nodeId own (on_gates f s) =
  (fst (recordTerminalUnlink nodeId own s), on_gates f (snd (recordTerminalUnlink nodeId own s))).
Proof.
  unfold recordTerminalUnlink. set (s1 := record (Audit "SESSION_DISCONNECTED") s). change (record _ (on_gates f s)) with (on_gates f s1). cbv zeta.
  change (out (on_gates f s1)) with (out s1). destruct (negb (owned (out s1))); [done|]. cbn [fst snd]. rewrite <- gates_snapshot. done.
Qed.
Lemma gates_report f s : reportUnlinkWithoutRow nodeId (on_gates f s) =
  (fst (reportUnlinkWithoutRow nodeId s), on_gates f (snd (reportUnlinkWithoutRow nodeId s))).
Proof. unfold reportUnlinkWithoutRow. rewrite gates_unlink. by destruct (recordTerminalUnlink nodeId true s). Qed.
Lemma gates_drop_timer f i s : drop_timer i (on_gates f s) = on_gates f (drop_timer i s).
Proof. unfold drop_timer. change (epi (on_gates f s)) with (epi s). destruct (eps (epi s) !! i) as [x|]; [|done]. by destruct (ep_timer x). Qed.
Lemma gates_endReadRetry f a b s : endReadRetry a b (on_gates f s) = (fst (endReadRetry a b s), on_gates f (snd (endReadRetry a b s))).
Proof.
  unfold endReadRetry. change (state_of (on_gates f s)) with (state_of s). destruct (state_of s) as [[i x]|]; [|done]. destruct (ep_retry x) as [r|]; [|done].
  change (retry_at r (on_gates f s)) with (retry_at r s). destruct (retry_at r s) as [y|]; [|done]. destruct (bool_decide (ep_timer x = Some (r_timer y))).
  - cbn [fst snd]. by rewrite <- gates_drop_timer.
  - destruct (_ || _); [|done]. by destruct (bool_decide _).
Qed.
Lemma gates_gone f s : endReadRetryOfGoneEngine nodeId (on_gates f s) = (fst (endReadRetryOfGoneEngine nodeId s), on_gates f (snd (endReadRetryOfGoneEngine nodeId s))).
Proof.
  unfold endReadRetryOfGoneEngine. change (state_of (on_gates f s)) with (state_of s). set (retry := match state_of s with Some (_, x) => ep_retry x | None => None end).
  set (s1 := match retry with Some r => end_retry r s | None => s end).
  assert (match retry with Some r => end_retry r (on_gates f s) | None => on_gates f s end = on_gates f s1) as -> by (subst s1; by destruct retry).
  cbv zeta. change (match retry with Some r => r_reason <$> retry_at r (on_gates f s1) | None => None end) with (match retry with Some r => r_reason <$> retry_at r s1 | None => None end).
  rewrite gates_endReadRetry. cbn [snd]. destruct (match retry with Some r => _ | None => None end) as [reason|]; [|done]. destruct (terminal reason); [apply gates_report|done].
Qed.
Lemma gates_cancel f s : cancelReconnect nodeId (on_gates f s) = on_gates f (cancelReconnect nodeId s).
Proof.
  unfold cancelReconnect. rewrite gates_gone. cbn [snd]. set (s1 := snd (endReadRetryOfGoneEngine nodeId s)). cbv zeta.
  change (epi (on_gates f s1)) with (epi s1). destruct (current (epi s1)) as [i|]; [|done]. by rewrite gates_drop_timer.
Qed.

Lemma shutdown_begin_ok X s : Inv s -> ok_step X s (snd (shutdown_begin nodeId s)) /\ closed (gates (snd (shutdown_begin nodeId s))) = true.
Proof.
  intros HI. unfold shutdown_begin. rewrite gates_cancel. set (s1 := cancelReconnect nodeId s).
  pose proof (calm_ok X _ _ (calm_cancelReconnect nodeId s) HI) as H1. fold s1 in H1.
  change (on_epi (set_current None) (on_gates set_closed s1)) with (on_gates set_closed (on_epi (set_current None) s1)).
  assert (calm s1 (on_epi (set_current None) s1)) as Hc.
  { apply calm_epi; [by right|by apply Forall2_refl'; intros ?|]. intros HT t j Hj. exfalso. by apply (cancel_unarmed nodeId s t j (i_timers _ HI)). }
  set (s2 := on_epi (set_current None) s1) in *. pose proof (calm_ok X _ _ Hc (o_inv _ _ _ H1)) as H2. pose proof (o_inv _ _ _ H2) as HI2.
  change (live (reg (on_gates set_closed s2))) with (live (reg s2)).
  assert (forall s3, ok_step X s2 s3 -> (forall e, live (reg s3) = Some e -> dead e s3) -> ok_step X s (on_gates set_closed s3)) as Hclose.
  { intros s3 H3 Hd. pose proof (o_inv _ _ _ H3) as HI3. eapply ok_trans; [exact H1|]. eapply ok_trans; [exact H2|]. eapply ok_trans; [exact H3|]. split; cbn; auto.
    - split; cbn; try by destruct HI3. all: intros _ e He; by apply Hd.
    - split; cbn; auto; try lia.
      + intros h y Hy. exists y. auto.
      + intros h y Hy Hh _. apply lookup_lt_Some in Hy. lia.
      + intros i y Hy. exists y. split; [done|by left].
      + intros e y Hy. exists y. auto.
    - intros t _ _. split; cbn; auto. intros e y Hy Hyt. exists y. auto. }
  destruct (live (reg s2)) as [e|] eqn:El; cbn [snd]; (split; [|done]).
  - change (begin_end e (on_gates set_closed s2)) with (on_gates set_closed (begin_end e s2)). apply Hclose; [apply calm_ok; [apply calm_begin_end|done]|].
    intros j Hj. assert (live (reg s2) = Some j) as Hj' by exact Hj. rewrite El in Hj'. injection Hj' as <-. apply begin_end_dead. by apply live_exists.
  - apply Hclose; [by apply ok_refl|]. congruence.
Qed.
Lemma clear_registry_ok X s : Inv s -> closed (gates s) = true -> ok_step X s (clear_registry s).
Proof.
  intros HI Hc. unfold clear_registry. destruct (live (reg s)) as [e|] eqn:El; [|by apply ok_refl]. apply calm_ok; [|done]. etrans; [|apply calm_record].
  apply calm_reg; [|by apply Forall2_refl'; intros ?]. right. exists e. split_and!; [done|done|]. apply dead_has_ended. by apply (i_closed _ HI).
Qed.
End safe.
