(* ===== verification/SessionEngineTasks.v ===== *)
(** * The engines of one session: the programs keep the invariant

    Every program of SessionVerbs.v performs only steps its task may take, and the
    world's own moves keep the invariant of SessionEngineSafe.v: it holds at every
    state a pool of them reaches. *)
From stdpp Require Import gmap sorting.
From S2P Require Import Prelude JsString Prog Owned StopMarks Reconnect SessionEngine SessionEngineLaws SessionVerbs SessionEngineSafe.
Local Open Scope Z_scope.
Local Open Scope prog_scope.

Section tasks.
Context {sid : string} {nodeId : option string} {maxConcurrent : option Z} {initTimeoutMs : Z}.

Local Abbreviation Inv := (Inv (sid := sid)).
Local Abbreviation rely := (rely (sid := sid)).
Local Abbreviation ok_step := (ok_step (sid := sid)).
Local Abbreviation flies := (flies (sid := sid)).

(** ** The programs *)

Definition gain (B : Type) (e : eff B) : B -> gset Token := match e in eff B return B -> gset Token with Sync _ d => d | _ => fun _ => ∅ end.
Definition pre (X : gset Token) (B : Type) (e : eff B) (s : Local) : Prop :=
  match e with
  | Sync f d => ok_step X s (snd (f s)) /\ d (fst (f s)) ⊆ used (snd (f s)) ∖ used s
  | _ => True
  end.
Definition runs {A : Type} (X : gset Token) (p : task A) (Q : gset Token -> A -> Local -> Prop) (s : Local) : Prop := holds run gain rely pre Inv X p Q s.

(** One block of the program's own. *)
Lemma r_draws {A B : Type} X (f : Local -> B * Local) d (k : B -> task A) Q s :
  (forall s1, rely X s s1 -> Inv s1 -> let '(b, s2) := f s1 in ok_step X s1 s2 /\ d b ⊆ used s2 ∖ used s1 /\ runs (X ∪ d b) (k b) Q s2) ->
  runs X (pbind (act (Sync f d)) k) Q s.
Proof.
  intros H s1 Hr HI. specialize (H s1 Hr HI). destruct (f s1) as [b s2] eqn:E. destruct H as (H1 & H2 & H3). cbn [pre]. rewrite E. split; [done|].
  intros b' s' Hrun _. cbn in Hrun. rewrite E in Hrun. injection Hrun as -> ->. exact H3.
Qed.
Lemma r_block {A B : Type} X (f : Local -> B * Local) (k : B -> task A) Q s :
  (forall s1, rely X s s1 -> Inv s1 -> let '(b, s2) := f s1 in ok_step X s1 s2 /\ runs X (k b) Q s2) -> runs X (pbind (sync f) k) Q s.
Proof.
  intros H. apply r_draws. intros s1 Hr HI. specialize (H s1 Hr HI). destruct (f s1) as [b s2]. destruct H as [H1 H2]. split_and!; [done|set_solver|].
  by rewrite union_empty_r_L.
Qed.
Lemma r_block_ {A : Type} X (f : Local -> Local) (k : unit -> task A) Q s :
  (forall s1, rely X s s1 -> Inv s1 -> ok_step X s1 (f s1) /\ runs X (k tt) Q (f s1)) -> runs X (pbind (sync_ f) k) Q s.
Proof. intros H. apply (r_block X (fun s => (tt, f s))). intros s1 Hr HI. by apply H. Qed.
Lemma r_ask {A B : Type} X (f : Local -> B) (k : B -> task A) Q s :
  (forall s1, rely X s s1 -> Inv s1 -> runs X (k (f s1)) Q s1) -> runs X (pbind (ask f) k) Q s.
Proof. intros H. apply (r_block X (fun s => (f s, s))). intros s1 Hr HI. split; [by apply ok_refl|by apply H]. Qed.
Lemma r_ret {A : Type} (X : gset Token) (a : A) (Q : gset Token -> A -> Local -> Prop) (s : Local) : (forall s1, rely X s s1 -> Q X a s1) -> runs X (Ret a) Q s.
Proof. done. Qed.
Lemma r_true {A : Type} X (p : task A) Q s : runs X p Q s -> runs X p (fun _ _ _ => True) s.
Proof. intros H. by eapply holds_conseq. Qed.

Definition awaits {B : Type} (e : eff B) : bool := match e with Sync _ _ | TeardownsSettle _ => false | _ => true end.
Lemma r_await {A B : Type} X (e : eff B) (k : B -> task A) Q s :
  awaits e = true -> (forall b s1, rely X s s1 -> runs X (k b) Q s1) -> runs X (pbind (act e) k) Q s.
Proof.
  intros He H s1 Hr HI. destruct e; try done; (split; [done|]; intros b s2 Hrun _; cbn in Hrun; subst s2; cbn [gain]; rewrite union_empty_r_L; by apply H).
Qed.
Lemma r_settle {A : Type} X n (k : bool -> task A) Q s :
  (forall s1, rely X s s1 -> Inv s1 -> runs X (k (settled_before n s1)) Q s1) -> runs X (pbind (act (TeardownsSettle n)) k) Q s.
Proof.
  intros H s1 Hr HI. split; [done|]. intros b s2 Hrun _. cbn in Hrun. destruct Hrun as [-> ->]. cbn [gain]. rewrite union_empty_r_L. by apply H.
Qed.

(** A program whose own blocks are calm leaves what its task may count on. *)
Definition quiet {A : Type} (p : task A) : Prop := forall X (Q : gset Token -> A -> Local -> Prop) s, (forall a s1, rely X s s1 -> Q X a s1) -> runs X p Q s.
Lemma r_quiet {A B : Type} X (p : task A) (f : A -> task B) Q s : quiet p -> (forall a s1, rely X s s1 -> runs X (f a) Q s1) -> runs X (pbind p f) Q s.
Proof. intros Hq H. exact (holds_bind run gain rely pre Inv X p f Q s (Hq X _ s H)). Qed.
Lemma q_ret {A : Type} (a : A) : quiet (Ret a).
Proof. intros X Q s H. apply r_ret. auto. Qed.
Lemma q_bind {A B : Type} (p : task A) (f : A -> task B) : quiet p -> (forall a, quiet (f a)) -> quiet (pbind p f).
Proof. intros Hp Hf X Q s H. apply r_quiet; [done|]. intros a s1 H1. apply Hf. intros b s2 H2. apply H. by etrans. Qed.
Lemma q_act {A : Type} (e : eff A) : (match e with Sync f d => (forall s, calm s (snd (f s))) /\ forall b, d b = ∅ | _ => True end) -> quiet (act e).
Proof.
  intros He X Q s H s1 Hr HI.
  destruct e; try (split; [done|]; intros b s2 Hrun _; cbn [gain]; rewrite union_empty_r_L; intros s3 H3; cbn in Hrun; subst s2; apply H; by etrans).
  - destruct He as [Hc Hd]. split; [split; [by apply calm_ok|rewrite Hd; set_solver]|]. intros b s2 Hrun _. cbn [gain]. rewrite Hd, union_empty_r_L.
    intros s3 H3. apply H. etrans; [exact Hr|]. etrans; [|exact H3]. apply calm_rely. specialize (Hc s1). cbn in Hrun. rewrite <- Hrun in Hc. exact Hc.
  - split; [done|]. intros b s2 Hrun _. cbn [gain]. rewrite union_empty_r_L. intros s3 H3. cbn in Hrun. destruct Hrun as [_ ->]. apply H. by etrans.
Qed.
Lemma q_sync {B : Type} (f : Local -> B * Local) : (forall s, calm s (snd (f s))) -> quiet (sync f).
Proof. intros H. by apply q_act. Qed.
Lemma q_sync_ (f : Local -> Local) : (forall s, calm s (f s)) -> quiet (sync_ f).
Proof. intros H. by apply q_act. Qed.
Lemma q_ask {B : Type} (f : Local -> B) : quiet (ask f).
Proof. by apply q_act. Qed.
Lemma q_try {E A B : Type} (p : task (result E A)) (f : A -> task (result E B)) :
  quiet p -> (forall a, quiet (f a)) -> quiet (pbind p (fun r => match r with Ok x => f x | Err e => Ret (Err e) end)).
Proof. intros Hp Hf. apply q_bind; [done|]. intros [x|e]; [apply Hf|apply q_ret]. Qed.

(** ** What a task goes on knowing *)

Lemma rely_le X s s' : rely X s s' -> le s s'.
Proof. by intros []. Qed.
Lemma rely_stay X t s s' : rely X s s' -> inl t ∈ X -> stay t s s'.
Proof. intros (_ & H & _). apply H. Qed.
Lemma rely_dead X e s s' : rely X s s' -> dead e s -> dead e s'.
Proof. intros H. by apply le_dead, (rely_le X). Qed.
Lemma rely_exists X e s s' : rely X s s' -> exists_engine e s -> exists_engine e s'.
Proof. intros H [x Hx]. destruct (le_eng _ _ (rely_le _ _ _ H) e x Hx) as (y & Hy & _). by exists y. Qed.
Lemma rely_flies X z s s' : rely X s s' -> inr z ∈ X -> flies z s -> flies z s'.
Proof. intros (_ & _ & H). apply H. Qed.
Lemma rely_fresh X tok e s s' : rely X s s' -> inl tok ∈ X -> fresh_engine tok e s -> fresh_engine tok e s'.
Proof. intros H Ht (x & Hx & Hxt & Hxi). destruct (st_eng _ _ _ (rely_stay _ _ _ _ H Ht) e x Hx Hxt) as (y & Hy & A & B). exists y. split_and!; [done|done|congruence]. Qed.
Lemma fresh_exists tok e s : fresh_engine tok e s -> exists_engine e s.
Proof. intros (x & Hx & _). by exists x. Qed.
Lemma rely_held X tok h s s' : rely X s s' -> inl tok ∈ X -> held_by tok h s -> held_by tok h s'.
Proof. intros H Ht (x & Hx & Hp). exists x. split; [by apply (st_held _ _ _ (rely_stay _ _ _ _ H Ht))|done]. Qed.
Lemma rely_init X tok s s' : rely X s s' -> inl tok ∈ X -> initializing (gates s) = Some tok -> initializing (gates s') = Some tok.
Proof. intros H Ht. apply (st_init _ _ _ (rely_stay _ _ _ _ H Ht)). Qed.
Lemma rely_tok X tok s s' : rely X s s' -> inl tok ∈ X -> initializing (gates s) = Some tok -> right (ghost s) = Some tok -> right (ghost s') = Some tok.
Proof. intros H Ht. apply (st_right _ _ _ (rely_stay _ _ _ _ H Ht)). Qed.
Lemma rely_seq X s s' : rely X s s' -> seq (marks (gates s)) <= seq (marks (gates s')).
Proof. intros H. apply (le_seq _ _ (rely_le _ _ _ H)). Qed.

(** The tokens it drew stay drawn. *)
Definition drawn (X : gset Token) (s : Local) : Prop := X ⊆ used s.

Lemma rely_att X i a tok s s' : rely X s s' -> inl tok ∈ X -> att i a tok s -> att i a tok s'.
Proof.
  intros H Ht ((x & Hx & A & B) & C & D & E). pose proof (rely_stay _ _ _ _ H Ht) as HS. split_and!; [| | |pose proof (le_next _ _ (rely_le _ _ _ H)); lia].
  - destruct (le_ep _ _ (rely_le _ _ _ H) i x Hx) as (y & Hy & [[L1 L2]|L]); exists y; (split_and!; [done|lia|]); intros Hs; [|lia].
    rewrite L2. apply B. congruence.
  - intros He. destruct (st_ent _ _ _ HS i He) as (H1 & H2 & _). rewrite H2. by apply C.
  - intros Hi. by apply D, (st_init _ _ _ HS).
Qed.
Lemma rely_att_old X i tok e s s' : rely X s s' -> inl tok ∈ X -> att_old i tok e s -> att_old i tok e s'.
Proof.
  intros H Ht HO He. destruct (st_ent _ _ _ (rely_stay _ _ _ _ H Ht) i He) as (H1 & _ & H2 & _). destruct H2 as [H2|H2]; [rewrite H2; by apply HO|by left].
Qed.
Lemma rely_att_right X i tok s s' : rely X s s' -> inl tok ∈ X -> att_right i tok s -> att_right i tok s'.
Proof. intros H Ht HR He. destruct (st_ent _ _ _ (rely_stay _ _ _ _ H Ht) i He) as (H1 & _ & _ & H3). apply H3. by apply HR. Qed.

(** The teardowns a start found when it began its wait, and those begun since. *)
Definition waited (n : nat) (settled : bool) (s : Local) : Prop :=
  (n <= length (tds (gates s)))%nat /\ (settled = true -> forall h x, (h < n)%nat -> tds (gates s) !! h = Some x -> td_settled x = true).
Definition newer (n : nat) (seen : option Z) (s : Local) : Prop :=
  (forall v, seen = Some v -> v <= seq (marks (gates s))) /\
  (forall h x, (n <= h)%nat -> tds (gates s) !! h = Some x -> td_own x = true -> forall v, seen = Some v -> v < td_mark x).
Lemma tds_length s s' : le s s' -> (length (tds (gates s)) <= length (tds (gates s')))%nat.
Proof.
  intros H. destruct (decide (length (tds (gates s)) = 0)%nat) as [E|E]; [lia|].
  destruct (lookup_lt_is_Some_2 (tds (gates s)) (length (tds (gates s)) - 1)) as [x Hx]; [lia|].
  destruct (le_tds _ _ H _ x Hx) as (y & Hy & _). apply lookup_lt_Some in Hy. lia.
Qed.
Lemma rely_waited X n b s s' : rely X s s' -> waited n b s -> waited n b s'.
Proof.
  intros H%rely_le [Hn Hs]. pose proof (tds_length _ _ H). split; [lia|]. intros Hb h y Hh Hy.
  destruct (lookup_lt_is_Some_2 (tds (gates s)) h) as [x Hx]; [lia|]. destruct (le_tds _ _ H h x Hx) as (y' & Hy' & _ & _ & Hst).
  rewrite Hy in Hy'. injection Hy' as <-. by apply Hst, (Hs Hb h).
Qed.
Lemma rely_newer X n seen s s' : rely X s s' -> newer n seen s -> newer n seen s'.
Proof.
  intros H%rely_le [Hb Hn]. split; [intros v Hv; specialize (Hb v Hv); pose proof (le_seq _ _ H); lia|]. intros h y Hh Hy Ho v Hv.
  destruct (tds (gates s) !! h) as [x|] eqn:Hx.
  - destruct (le_tds _ _ H h x Hx) as (y' & Hy' & A & B & _). rewrite Hy in Hy'. injection Hy' as <-. rewrite B. apply (Hn h x Hh Hx); [congruence|done].
  - apply lookup_ge_None in Hx. pose proof (le_new _ _ H h y Hy Hx Ho). specialize (Hb v Hv). lia.
Qed.
Lemma settled_waited n s : (n <= length (tds (gates s)))%nat -> waited n (settled_before n s) s.
Proof.
  intros Hn. split; [done|]. unfold settled_before. intros Hs h x Hh Hx. apply forallb_forall with (x := x) in Hs; [done|].
  apply list_elem_of_In, list_elem_of_lookup. exists h. by rewrite lookup_take_lt.
Qed.

(** ** Quiet programs *)

Lemma q_await {B : Type} (e : eff B) : awaits e = true -> quiet (act e).
Proof. intros H. apply q_act. by destruct e. Qed.

Lemma calm_refl s : calm s s.
Proof. done. Qed.
#[local] Hint Resolve calm_cancelReconnect calm_begin_end calm_announce calm_drop_unstarted calm_init_written calm_init_expired calm_attempt_failed calm_attempt_settled
  calm_disconnected_begin calm_disconnected_unread calm_disconnected_read calm_reportDroppedUnlink calm_persistStatus calm_record calm_mem calm_refl : calm.

(** Programs all of whose blocks are calm. *)
Ltac quiet :=
  repeat match goal with
  | |- quiet (pbind _ (fun r => match r with Ok _ => _ | Err _ => _ end)) => apply q_bind; [|intros []]
  | |- quiet (pbind _ _) => apply q_bind; [|intros ?]
  | |- quiet (Ret _) => apply q_ret
  | |- quiet (ask _) => apply q_ask
  | |- quiet (sync_ _) => apply q_sync_; intros ?; auto with calm
  | |- quiet (sync _) => apply q_sync; intros ?; auto with calm
  | |- quiet (act (TeardownsSettle _)) => by apply q_act
  | |- quiet (act _) => by apply q_await
  | |- quiet (if ?b then _ else _) => destruct b
  | |- quiet (match ?x with _ => _ end) => destruct x
  end.

Lemma q_requireSession : quiet requireSession.
Proof. unfold requireSession. quiet. Qed.
Lemma q_updateStatus st : quiet (updateStatus st).
Proof. unfold updateStatus. quiet. Qed.
Lemma q_teardown e : quiet (teardownEngineSafely e).
Proof. unfold teardownEngineSafely. quiet. Qed.
Lemma q_escalate e ok : quiet (escalate e ok).
Proof. unfold escalate. quiet. apply q_teardown. Qed.
Lemma q_awaitInitialStatus e : quiet (awaitInitialStatus e).
Proof. unfold awaitInitialStatus. quiet. Qed.
Lemma q_awaitPendingTeardown : quiet awaitPendingTeardown.
Proof. unfold awaitPendingTeardown. quiet. Qed.
Lemma q_init_timeout e : quiet (init_timeout initTimeoutMs e).
Proof. unfold init_timeout. quiet. case_match; auto with calm. Qed.
Lemma q_isSessionRetired : quiet (isSessionRetired sid nodeId).
Proof. unfold isSessionRetired. quiet. Qed.
Lemma q_purge : quiet purgeAuthDirsIfDeleted.
Proof. unfold purgeAuthDirsIfDeleted. quiet. Qed.
Lemma calm_start_evicts mine ex s : calm s (snd (start_evicts initTimeoutMs mine ex s)).
Proof.
  unfold start_evicts. destruct mine as [e|]; [|done]. pose proof (calm_evict_end e (on_mem (set_error (Some (exn_text initTimeoutMs ex)))) s) as H.
  destruct (deleteIfLive e s) as [b s1] eqn:E. unfold deleteIfLive in E. cbn [snd] in H. destruct b; [by apply H|].
  destruct (isLive e s); [done|]. by injection E as <-.
Qed.
Lemma q_start_failed mine i ex : quiet (start_failed sid nodeId initTimeoutMs mine i ex).
Proof. unfold start_failed. quiet; try apply q_updateStatus. apply calm_start_evicts. Qed.
Lemma q_attempt_catches i a mine session ex : quiet (attempt_catches sid nodeId initTimeoutMs i a mine session ex).
Proof. unfold attempt_catches. quiet. apply q_purge. Qed.
Lemma q_disconnected_rest e reason retry epoch : quiet (disconnected_rest nodeId e reason retry epoch).
Proof. unfold disconnected_rest. quiet. Qed.
Lemma q_handleEngineDisconnected e reason retry : quiet (handleEngineDisconnected nodeId e reason retry).
Proof. unfold handleEngineDisconnected. quiet. apply q_disconnected_rest. Qed.
Lemma q_onDisconnected e reason : quiet (onDisconnected nodeId e reason).
Proof. unfold onDisconnected. quiet; [|apply q_disconnected_rest]. case_match; auto with calm. apply calm_reportDroppedUnlink. Qed.

#[local] Hint Resolve q_requireSession q_updateStatus q_teardown q_escalate q_awaitInitialStatus q_isSessionRetired q_purge q_start_failed q_attempt_catches
  q_disconnected_rest q_handleEngineDisconnected q_onDisconnected : quiet.

(** A quiet program ends the task. *)
Lemma r_last {A : Type} X (p : task A) s : quiet p -> runs X p (fun _ _ _ => True) s.
Proof. intros H. by apply H. Qed.
(** A quiet program may throw, and the rest runs if it does not. *)
Lemma r_try {E A B : Type} X (p : task (result E A)) (f : A -> task (result E B)) Q s :
  quiet p -> (forall e s1, rely X s s1 -> Q X (Err e) s1) -> (forall a s1, rely X s s1 -> runs X (f a) Q s1) ->
  runs X (pbind p (fun r => match r with Ok x => f x | Err e => Ret (Err e) end)) Q s.
Proof. intros Hp HE HA. apply r_quiet; [done|]. intros [a|e] s1 H1; [by apply HA|]. apply r_ret. intros s2 H2. apply HE. by etrans. Qed.

(** An engine is told to end: it is dead from then on. *)
Lemma r_teardown {A : Type} X e (k : bool -> task A) Q s :
  exists_engine e s -> (forall ok s1, rely X s s1 -> dead e s1 -> runs X (k ok) Q s1) -> runs X (pbind (teardownEngineSafely e) k) Q s.
Proof.
  intros He H. unfold teardownEngineSafely. apply (r_block_ X (begin_end e) (fun _ => pbind (act (EndSettles e)) k)).
  intros s1 H1 HI1. pose proof (calm_begin_end e s1) as Hc. split; [by apply calm_ok|]. apply r_await; [done|]. intros ok s2 H2. apply H.
  - etrans; [exact H1|]. etrans; [by apply calm_rely|done].
  - eapply rely_dead; [exact H2|]. by apply begin_end_dead, (rely_exists X e s).
Qed.
Lemma r_evict {A : Type} X e (k : unit -> task A) Q s :
  dead e s -> (forall s1, rely X s s1 -> dead e s1 -> runs X (k tt) Q (evict e s1)) -> runs X (pbind (sync_ (evict e)) k) Q s.
Proof. intros Hd H. apply r_block_. intros s1 H1 HI1. pose proof (rely_dead X e s s1 H1 Hd) as Hd1. split; [by apply evict_ok|by apply H]. Qed.

Lemma r_awaitPending {A : Type} X (k : bool -> task A) Q s :
  (forall n b s1 s2, rely X s s1 -> Inv s1 -> n = length (tds (gates s1)) -> rely X s1 s2 -> waited n b s2 -> runs X (k b) Q s2) ->
  runs X (pbind awaitPendingTeardown k) Q s.
Proof.
  intros H. unfold awaitPendingTeardown. apply (r_ask X (fun s => length (tds (gates s))) (fun n => pbind (act (TeardownsSettle n)) k)). intros s1 H1 HI1.
  apply r_settle. intros s2 H2 HI2. apply (H (length (tds (gates s1))) _ s1); [done..|]. apply settled_waited, tds_length, (rely_le X), H2.
Qed.

(** ** Blocks any task may run *)

Lemma used_mono s s' : le s s' -> used s ⊆ used s'.
Proof. intros H [t|z]; rewrite ?used_inl, ?used_inr; [pose proof (le_next _ _ H); lia|pose proof (le_seq _ _ H); lia]. Qed.
Lemma public_rely X s s' : ok_step ∅ s s' -> X ⊆ used s -> rely X s s'.
Proof. intros H HX. apply (ok_rely ∅); [done|set_solver|done]. Qed.
Lemma public_ok X s s' : ok_step ∅ s s' -> ok_step X s s'.
Proof. apply ok_grow. set_solver. Qed.

Lemma r_bind {A B : Type} X (p : task A) (f : A -> task B) Q s : runs X p (fun Y a s1 => runs Y (f a) Q s1) s -> runs X (pbind p f) Q s.
Proof. exact (holds_bind run gain rely pre Inv X p f Q s). Qed.
Lemma r_public {A B : Type} X (f : Local -> B * Local) (k : B -> task A) Q s :
  X ⊆ used s ->
  (forall s1, rely X s s1 -> Inv s1 -> ok_step ∅ s1 (snd (f s1)) /\ (rely X s (snd (f s1)) -> X ⊆ used (snd (f s1)) -> Inv (snd (f s1)) -> runs X (k (fst (f s1))) Q (snd (f s1)))) ->
  runs X (pbind (sync f) k) Q s.
Proof.
  intros HX H. apply r_block. intros s1 H1 HI1. destruct (H s1 H1 HI1) as [H2 H3]. destruct (f s1) as [b s2]. cbn [fst snd] in *. split; [by apply public_ok|].
  assert (X ⊆ used s1) as HX1 by (etrans; [exact HX|by apply used_mono, (rely_le X)]). apply H3.
  - etrans; [exact H1|]. by apply public_rely.
  - etrans; [exact HX1|]. apply used_mono, (o_le _ _ _ H2).
  - apply (o_inv _ _ _ H2).
Qed.
Lemma r_public_ {A : Type} X (f : Local -> Local) (k : unit -> task A) Q s :
  X ⊆ used s ->
  (forall s1, rely X s s1 -> Inv s1 -> ok_step ∅ s1 (f s1) /\ (rely X s (f s1) -> X ⊆ used (f s1) -> Inv (f s1) -> runs X (k tt) Q (f s1))) ->
  runs X (pbind (sync_ f) k) Q s.
Proof. intros HX H. apply (r_public X (fun s => (tt, f s))); [done|]. exact H. Qed.

Definition open {A : Type} (p : task A) : Prop := forall X (Q : gset Token -> A -> Local -> Prop) s, X ⊆ used s -> (forall a s1, rely X s s1 -> Q X a s1) -> runs X p Q s.
Lemma o_quiet {A : Type} (p : task A) : quiet p -> open p.
Proof. intros H X Q s _. apply H. Qed.
Lemma o_bind {A B : Type} (p : task A) (f : A -> task B) : open p -> (forall a, open (f a)) -> open (pbind p f).
Proof.
  intros Hp Hf X Q s HX H. apply r_bind. apply Hp; [done|]. intros a s1 H1. apply Hf; [etrans; [exact HX|by apply used_mono, (rely_le X)]|]. intros b s2 H2. apply H. by etrans.
Qed.
Lemma o_sync_ (f : Local -> Local) : (forall s, Inv s -> ok_step ∅ s (f s)) -> open (sync_ f).
Proof.
  intros Hf X Q s HX H s1 H1 HI1. assert (X ⊆ used s1) as HX1 by (etrans; [exact HX|by apply used_mono, (rely_le X)]). cbn [pre fst snd].
  split; [split; [by apply public_ok, Hf|set_solver]|]. intros b s2 Hrun _. cbn [gain]. rewrite union_empty_r_L. intros s3 H3. cbn in Hrun. injection Hrun as _ ->. apply H.
  etrans; [exact H1|]. etrans; [|exact H3]. apply public_rely; [by apply Hf|done].
Qed.
Lemma r_open {A B : Type} X (p : task A) (f : A -> task B) Q s : open p -> X ⊆ used s -> (forall a s1, rely X s s1 -> X ⊆ used s1 -> runs X (f a) Q s1) -> runs X (pbind p f) Q s.
Proof. intros Hp HX H. apply r_bind. apply Hp; [done|]. intros a s1 H1. apply H; [done|]. etrans; [exact HX|by apply used_mono, (rely_le X)]. Qed.

Lemma r_evict_ {A : Type} X e g (k : unit -> task A) Q s :
  X ⊆ used s -> dead e s -> (forall s, Inv s -> ok_step ∅ s (g s)) ->
  (forall s1, rely X s s1 -> X ⊆ used s1 -> runs X (k tt) Q s1) -> runs X (pbind (sync_ (fun s => g (evict e s))) k) Q s.
Proof.
  intros HX Hd Hg H. apply r_public_; [done|]. intros s1 H1 HI1. pose proof (evict_ok ∅ e s1 HI1 (rely_dead X e s s1 H1 Hd)) as H2.
  split; [eapply ok_trans; [exact H2|apply Hg, H2]|]. intros H3 H4 _. by apply H.
Qed.

Lemma o_refused {A : Type} : open (refused_start (A := A) sid).
Proof.
  unfold refused_start. apply o_bind; [apply o_quiet, q_requireSession|]. intros [x|ex]; [|apply o_quiet, q_ret].
  apply o_bind; [|intros ?; apply o_quiet, q_ret]. apply o_sync_. intros s HI. by apply add_mark_ok.
Qed.

Lemma o_retireLaunched e : open (retireLaunchedEngine e).
Proof.
  intros X Q s HX H. unfold retireLaunchedEngine. apply r_public; [done|]. intros s1 H1 HI1. destruct (isLive e s1) eqn:El; cbn [fst snd negb].
  - assert (ok_step ∅ s1 (begin_end e (mark_operator e s1))) as H2.
    { pose proof (operator_ok ∅ e s1 HI1) as H2. eapply ok_trans; [exact H2|]. apply calm_ok; [apply calm_begin_end|apply H2]. }
    split; [done|]. intros H3 HX3 HI3. assert (dead e (begin_end e (mark_operator e s1))) as Hd.
    { apply begin_end_dead. apply isLive_spec in El. destruct (live_exists e s1 HI1 El) as [x Hx]. by exists x. }
    set (s3 := begin_end e (mark_operator e s1)) in *. clearbody s3. apply r_await; [done|]. intros ok s4 H4. apply r_quiet; [apply q_escalate|]. intros _ s5 H5.
    assert (rely X s3 s5) as H35 by by etrans. apply (r_evict_ X e (unmark_operator e)); [etrans; [exact HX3|by apply used_mono, (rely_le X)]|by apply (rely_dead X e s3)|apply unmark_ok|].
    intros s6 H6 _. apply r_await; [done|]. intros w s7 H7.
    assert (rely X s s7) as H07 by (etrans; [exact H3|]; etrans; [exact H35|]; by etrans).
    assert (quiet (match w with Ok true => sync_ (announce DISCONNECTED) | _ => Ret tt end)) as Hq by (destruct w as [[]|]; quiet). apply Hq. intros a s8 H8. apply H. by etrans.
  - split; [by apply ok_refl|]. intros H3 _ _. apply r_ret. intros s4 H4. apply H. by etrans.
Qed.
Lemma o_reap mine i : open (reapRetiredEngine nodeId mine i).
Proof.
  unfold reapRetiredEngine. apply o_bind.
  { unfold retire_mine. destruct mine; [apply o_retireLaunched|apply o_quiet, q_ret]. }
  intros _. apply o_quiet. quiet. apply q_purge.
Qed.
Lemma o_start_settles session mine i : open (start_settles sid nodeId session mine i).
Proof.
  unfold start_settles. apply o_bind; [apply o_quiet, q_isSessionRetired|]. intros r. cbv zeta. apply o_bind; [apply o_quiet, q_ask|]. intros closing.
  apply o_bind. { destruct (retired_for_sure r); [apply o_reap|apply o_quiet, q_ret]. }
  intros _. destruct (_ && _); [apply o_quiet, q_ret|]. apply o_bind; [apply o_quiet, q_requireSession|]. intros [x|ex]; [apply o_quiet, q_ret|].
  destruct ex; try apply o_quiet, q_ret. apply o_bind; [|intros _; apply o_quiet, q_ret]. destruct (retired_for_sure r); [apply o_quiet, q_ret|apply o_reap].
Qed.

(** ** Initialization *)

Lemma init_resume_init e epoch phone w s : initializing (gates (snd (init_resume sid e epoch phone w s))) = initializing (gates s).
Proof. unfold init_resume. destruct (bool_decide _), (negb w); cbn; try done; destruct (closed _); cbn; try done; destruct (negb _); cbn; try done; by destruct (marked _ _). Qed.

Lemma r_initializes (X : gset Token) (tok : nat) (r : result Exn (option (nat * Z))) (phone : option string) (Q : gset Token -> result Exn unit -> Local -> Prop) (s : Local) :
  inl tok ∈ X -> X ⊆ used s -> (forall e epoch, r = Ok (Some (e, epoch)) -> fresh_engine tok e s) ->
  (forall a s1, le s s1 -> (initializing (gates s) = Some tok -> initializing (gates s1) = Some tok) -> Q X a s1) ->
  runs X (initializes sid initTimeoutMs r phone) Q s.
Proof.
  intros Ht HX Hf H. assert (forall a s1, rely X s s1 -> Q X a s1) as Hq.
  { intros a s1 H1. apply H; [by apply (rely_le X)|by apply (rely_init X)]. }
  unfold initializes. destruct r as [[[e epoch]|]|ex]; [|by apply q_ret..]. specialize (Hf e epoch eq_refl).
  unfold init_rest. apply r_await; [done|]. intros w s1 H1. apply r_quiet; [quiet|]. intros _ s2 H2. apply r_block. intros s3 H3 HI3.
  assert (rely X s s3) as H03 by (etrans; [exact H1|]; by etrans). pose proof (init_resume_ok X e epoch phone (is_ok w) tok s3 HI3 Ht (rely_fresh X tok e s s3 H03 Ht Hf)) as H4.
  pose proof (init_resume_init e epoch phone (is_ok w) s3) as Hin. destruct (init_resume sid e epoch phone (is_ok w) s3) as [g s4]. cbn [snd] in *. split; [done|].
  assert (forall a s5, rely X s4 s5 -> Q X a s5) as Hend.
  { intros a s5 H5. apply H.
    - etrans; [apply (rely_le X), H03|]. etrans; [apply (o_le _ _ _ H4)|by apply (rely_le X)].
    - intros Hi. apply (rely_init X tok s4 s5 H5 Ht). rewrite Hin. by apply (rely_init X tok s s3). }
  destruct g as [goes|ex]; [|by apply q_ret]. destruct (negb goes); [by apply q_ret|].
  apply r_await; [done|]. intros o s5 H5. destruct o as [| |err].
  - apply q_ret. intros a s6 H6. apply Hend. by etrans.
  - apply q_init_timeout. intros a s6 H6. apply Hend. by etrans.
  - apply q_ret. intros a s6 H6. apply Hend. by etrans.
Qed.

(** ** start *)

(** The task that holds the reservation. *)
Definition reserves (X : gset Token) (tok : nat) (s : Local) : Prop := inl tok ∈ X /\ X ⊆ used s /\ initializing (gates s) = Some tok.
Lemma rely_used X s s' : rely X s s' -> X ⊆ used s -> X ⊆ used s'.
Proof. intros H HX. etrans; [exact HX|by apply used_mono, (rely_le X)]. Qed.
Lemma rely_reserves X tok s s' : rely X s s' -> reserves X tok s -> reserves X tok s'.
Proof. intros H (A & B & C). split; [done|]. split; [by apply (rely_used X s)|by apply (rely_init X tok s)]. Qed.
Lemma ok_reserves X tok s s' : ok_step X s s' -> initializing (gates s') = initializing (gates s) -> reserves X tok s -> reserves X tok s'.
Proof. intros H E (A & B & C). split; [done|]. split; [etrans; [exact B|apply used_mono, (o_le _ _ _ H)]|congruence]. Qed.

Lemma init_begin_init works tok s : initializing (gates (snd (init_begin sid works tok s))) = initializing (gates s).
Proof. unfold init_begin. destruct (marked sid s), (closed (gates s)), works; cbn; try done. by destruct (live (reg s)). Qed.
Lemma start_launch_init works tok session cur epoch s : initializing (gates (snd (start_launch sid works tok session cur epoch s))) = initializing (gates s).
Proof.
  unfold start_launch. cbv zeta. match goal with |- context [init_begin sid works tok ?z] => pose proof (init_begin_init works tok z) as H; destruct (init_begin sid works tok z) as [r s1] end.
  exact H.
Qed.

Lemma start_gate_init tok seen settled s : initializing (gates (snd (start_gate sid nodeId tok seen settled s))) = initializing (gates s).
Proof.
  unfold start_gate. destruct (negb settled); [done|]. destruct (has_engine s); [done|]. destruct (bool_decide _); [done|]. destruct (markedSince _ _ _); [done|].
  exact (f_equal initializing (c_gates _ _ (calm_cancelReconnect nodeId (clear_marks sid s)))).
Qed.

Section start.
Context (X : gset Token) (tok : nat).

(** What is left of a start goes on holding the reservation. *)
Definition starting {A : Type} (p : task A) (s : Local) : Prop := runs X p (fun Y _ s1 => Y = X /\ reserves X tok s1) s.
Lemma s_open {A : Type} (p : task A) s : open p -> reserves X tok s -> starting p s.
Proof. intros Hp HR. apply Hp; [apply HR|]. intros a s1 H1. split; [done|]. by apply (rely_reserves X tok s). Qed.
Lemma s_quiet {A : Type} (p : task A) s : quiet p -> reserves X tok s -> starting p s.
Proof. intros Hp. by apply s_open, o_quiet. Qed.
Lemma s_ret {A : Type} (a : A) s : reserves X tok s -> starting (Ret a) s.
Proof. apply s_quiet, q_ret. Qed.
Lemma s_try {E A B : Type} (p : task (result E A)) (f : A -> task (result E B)) s :
  quiet p -> reserves X tok s -> (forall a s1, rely X s s1 -> reserves X tok s1 -> starting (f a) s1) ->
  starting (pbind p (fun r => match r with Ok x => f x | Err e => Ret (Err e) end)) s.
Proof.
  intros Hp HR H. apply r_try; [done| |].
  - intros e s1 H1. split; [done|by apply (rely_reserves X tok s)].
  - intros a s1 H1. apply H; [done|by apply (rely_reserves X tok s)].
Qed.
Lemma s_await {A B : Type} (e : eff B) (k : B -> task A) s :
  awaits e = true -> reserves X tok s -> (forall b s1, rely X s s1 -> reserves X tok s1 -> starting (k b) s1) -> starting (pbind (act e) k) s.
Proof. intros He HR H. apply r_await; [done|]. intros b s1 H1. apply H; [done|by apply (rely_reserves X tok s)]. Qed.
Lemma s_ask {A B : Type} (f : Local -> B) (k : B -> task A) s :
  reserves X tok s -> (forall b s1, rely X s s1 -> reserves X tok s1 -> starting (k b) s1) -> starting (pbind (ask f) k) s.
Proof. intros HR H. apply r_ask. intros s1 H1 _. apply H; [done|by apply (rely_reserves X tok s)]. Qed.

(** The engine is initialized, and the start ends. *)
Lemma s_launched session (init : result Exn (option (nat * Z))) phone i s :
  reserves X tok s -> (forall e epoch, init = Ok (Some (e, epoch)) -> fresh_engine tok e s) ->
  starting (let! r := initializes sid initTimeoutMs init phone in
            match r with
            | Err ex => let! ex := start_failed sid nodeId initTimeoutMs (registered init) i ex in Ret (Err ex)
            | Ok _ => start_settles sid nodeId session (registered init) i
            end) s.
Proof.
  intros HR Hf. apply r_bind. apply (r_initializes X tok); [apply HR|apply HR|done|]. intros a s1 H1 Hi.
  assert (reserves X tok s1) as HR1.
  { split; [apply HR|]. split; [etrans; [apply HR|by apply used_mono]|apply Hi, HR]. }
  destruct a as [u|ex]; [by apply s_open; [apply o_start_settles|]|]. apply s_quiet; [|done]. apply q_bind; [apply q_start_failed|intros ?; apply q_ret].
Qed.

(** Past the gate the right to register is the start's own. *)
Definition entitled (s : Local) : Prop := reserves X tok s /\ right (ghost s) = Some tok.
Lemma rely_entitled s s' : rely X s s' -> entitled s -> entitled s'.
Proof. intros H [HR Hr]. split; [by apply (rely_reserves X tok s)|]. by apply (rely_tok X tok s); [| apply HR|apply HR|]. Qed.

Lemma start_proceeds_ok prepared since works session cur epoch s :
  Inv s -> entitled s ->
  let '(l, s') := start_proceeds sid prepared since works tok session cur epoch s in
  ok_step X s s' /\ reserves X tok s' /\ match l with Launched _ r _ => forall e epoch, r = Ok (Some (e, epoch)) -> fresh_engine tok e s' | _ => True end.
Proof.
  intros HI [HR Hr]. pose proof HR as (A & B & C). unfold start_proceeds. destruct (_ || _); [split; [by apply ok_refl|done]|]. destruct (negb prepared); [split; [by apply ok_refl|done]|].
  destruct (closed (gates s)); [split; [by apply ok_refl|done]|].
  pose proof (start_launch_ok X works tok session cur epoch s HI A C Hr) as H2. pose proof (start_launch_init works tok session cur epoch s) as Hin.
  destruct (start_launch sid works tok session cur epoch s) as [[[i init] phone] s2]. cbn [snd] in Hin. destruct H2 as [H2 H3]. split; [done|]. split; [by apply (ok_reserves X tok s)|done].
Qed.

(** From the first of the two writes that prepare the start. *)
Lemma s_prepares session cur epoch s :
  entitled s ->
  starting (let! prepared := act PrepareStart in
            match prepared with
            | Err _ => Ret (Err DbError)
            | Ok false => refused_start sid
            | Ok true =>
              let? _ := ask (unless_closed sid) in
              let! _ := act (RunHook "session:starting") in
              let! stopped := ask (marked sid) in
              if (stopped : bool) then requireSession
              else
                let! prepared := act PrepareStart in
                let! since := act StoppedSince in
                let! works := act CreateWorks in
                match prepared with
                | Err _ => Ret (Err DbError)
                | Ok p =>
                  let! l := sync (start_proceeds sid p since works tok session cur epoch) in
                  match l with
                  | LaunchReads => requireSession
                  | LaunchRefused => refused_start sid
                  | LaunchFails ex => Ret (Err ex)
                  | Launched i init phone =>
                    let! r := initializes sid initTimeoutMs init phone in
                    match r with
                    | Err ex => let! ex := start_failed sid nodeId initTimeoutMs (registered init) i ex in Ret (Err ex)
                    | Ok _ => start_settles sid nodeId session (registered init) i
                    end
                  end
                end
            end) s.
Proof.
  intros HE. apply s_await; [done|apply HE|]. intros prepared s1 H1 HR1. pose proof (rely_entitled _ _ H1 HE) as HE1.
  destruct prepared as [[]|]; [|by apply s_open; [apply o_refused|]|by apply s_ret].
  apply s_try; [apply q_ask|done|]. intros _ s2 H2 HR2. pose proof (rely_entitled _ _ H2 HE1) as HE2.
  apply s_await; [done|done|]. intros _ s3 H3 HR3. pose proof (rely_entitled _ _ H3 HE2) as HE3.
  apply s_ask; [done|]. intros stopped s4 H4 HR4. pose proof (rely_entitled _ _ H4 HE3) as HE4.
  destruct stopped; [by apply s_quiet; [apply q_requireSession|]|].
  apply s_await; [done|done|]. intros prepared s5 H5 HR5. pose proof (rely_entitled _ _ H5 HE4) as HE5.
  apply s_await; [done|done|]. intros since s6 H6 HR6. pose proof (rely_entitled _ _ H6 HE5) as HE6.
  apply s_await; [done|done|]. intros works s7 H7 HR7. pose proof (rely_entitled _ _ H7 HE6) as HE7.
  destruct prepared as [p|]; [|by apply s_ret]. apply r_block. intros s8 H8 HI8. pose proof (rely_entitled _ _ H8 HE7) as HE8.
  pose proof (start_proceeds_ok p since works session cur epoch s8 HI8 HE8) as H9. destruct (start_proceeds sid p since works tok session cur epoch s8) as [l s9].
  destruct H9 as (H9 & HR9 & Hf). split; [done|].
  destruct l as [| |ex|i init phone]; [by apply s_quiet; [apply q_requireSession|]|by apply s_open; [apply o_refused|]|by apply s_ret|by apply s_launched].
Qed.

Lemma s_body explicit seen epoch s :
  reserves X tok s -> (forall v, seen = Some v -> v <= seq (marks (gates s))) ->
  starting (start_body sid nodeId maxConcurrent initTimeoutMs explicit tok seen epoch) s.
Proof.
  intros HR Hseen. unfold start_body. apply s_try; [apply q_requireSession|done|]. intros session s1 H1 HR1.
  apply s_await; [done|done|]. intros others s2 H2 HR2. apply s_try; [apply q_ask|done|]. intros _ s3 H3 HR3.
  apply r_awaitPending. intros n settled s4 s5 H4 _ Hn H5 HW. assert (newer n seen s4) as HN.
  { split; [|intros h x Hh Hx; apply lookup_lt_Some in Hx; lia]. intros v Hv. specialize (Hseen v Hv).
    pose proof (rely_seq _ _ _ H1). pose proof (rely_seq _ _ _ H2). pose proof (rely_seq _ _ _ H3). pose proof (rely_seq _ _ _ H4). lia. }
  apply r_block. intros s6 H6 HI6. assert (rely X s3 s6) as H36 by (etrans; [exact H4|]; by etrans). pose proof (rely_reserves X tok _ _ H36 HR3) as HR6.
  pose proof (rely_waited X _ _ _ _ H6 HW) as [_ HW6]. pose proof (rely_newer X n seen s4 s6) as HN6. destruct HN6 as [_ HN6]; [by etrans|done|].
  destruct (start_gate_ok (nodeId := nodeId) X tok seen settled n s6 HI6) as [H7 Hok]; [apply HR6|apply HR6|done|done|].
  pose proof (start_gate_init tok seen settled s6) as Hin. destruct (start_gate sid nodeId tok seen settled s6) as [g s7]. cbn [fst snd] in *. split; [done|].
  pose proof (ok_reserves X tok _ _ H7 Hin HR6) as HR7. destruct g as [[]|ex]; [|by apply s_ret]. destruct (Hok eq_refl) as [_ Hr7].
  apply s_try; [apply q_requireSession|done|]. intros cur s8 H8 HR8. apply s_await; [done|done|]. intros since s9 H9 HR9.
  assert (entitled s9) as HE9 by (apply (rely_entitled s8); [done|]; by apply (rely_entitled s7); [|split]).
  apply r_public; [apply HR9|]. intros s10 H10 HI10. pose proof (rely_entitled _ _ H10 HE9) as HE10. unfold start_yields.
  destruct (_ || since); cbn [fst snd].
  - split; [by apply add_mark_ok|]. intros H11 _ _. apply s_ret. by apply (rely_reserves X tok s9).
  - destruct (closed (gates s10)); cbn [fst snd]; (split; [by apply ok_refl|]); intros H11 _ _; [apply s_ret; by apply (rely_reserves X tok s9)|by apply s_prepares].
Qed.
End start.

Lemma r_start explicit s : runs ∅ (let! _ := start sid nodeId maxConcurrent initTimeoutMs explicit in Ret tt) (fun _ _ _ => True) s.
Proof.
  unfold start. apply r_bind. apply r_draws. intros s1 _ HI1. unfold start_reserve. destruct (initializing (gates s1)) as [t|] eqn:Ei.
  - split; [by apply ok_refl|]. split; [set_solver|]. by apply r_ret.
  - destruct (start_reserve_ok ∅ s1 HI1 Ei) as (H2 & Hi & Hn & Hm). cbn [draw] in *. cbv zeta in *. cbn [snd] in *. set (s2 := on_gates _ _) in *. cbn [start_drawn].
    assert (({[inl (nextTok (ghost s1))]} : gset Token) ⊆ used s2 ∖ used s1) as Hd.
    { intros y ->%elem_of_singleton. rewrite elem_of_difference, !used_inl, Hn. lia. }
    split; [done|]. split; [done|]. rewrite union_empty_l_L. set (X := {[inl (nextTok (ghost s1))]} : gset Token) in *. set (tok := nextTok (ghost s1)) in *.
    assert (reserves X tok s2) as HR by (split; [set_solver|]; split; [set_solver|done]).
    apply r_bind. eapply holds_conseq; [apply (s_body X tok); [done|]|].
    + intros v Hv. apply (stamp_bound sid); [|done]. apply (i_marks _ (o_inv _ _ _ H2)).
    + intros Y a s3 _ [-> HR3]. cbv beta. apply r_block_. intros s4 H4 HI4. pose proof (rely_reserves X tok _ _ H4 HR3) as HR4.
      split; [apply start_release_ok; [done|apply HR4|apply HR4]|]. by apply r_ret.
Qed.

(** ** A reconnect attempt *)

Lemma o_attempt_retires i a mine : open (attempt_retires sid nodeId i a mine).
Proof.
  unfold attempt_retires. apply o_bind; [apply o_quiet, q_isSessionRetired|]. intros r. destruct (retired_for_sure r); [|apply o_quiet, q_ret].
  apply o_bind; [unfold retire_mine; destruct mine; [apply o_retireLaunched|apply o_quiet, q_ret]|]. intros _. apply o_quiet. quiet; [|apply q_purge].
  case_match; auto with calm.
Qed.

Lemma r_attempt_rest (X : gset Token) i attempt tok session s :
  inl tok ∈ X -> X ⊆ used s -> att i attempt tok s -> att_right i tok s ->
  runs X (attempt_rest sid nodeId initTimeoutMs i attempt tok session) (fun _ _ _ => True) s.
Proof.
  intros Ht HX HA HR. unfold attempt_rest. apply r_quiet; [apply q_awaitPendingTeardown|]. intros settled s1 H1. apply r_await; [done|]. intros works s2 H2.
  apply r_block. intros s3 H3 HI3. assert (rely X s s3) as H03 by (etrans; [exact H1|]; by etrans).
  pose proof (attempt_gate_ok (nodeId := nodeId) X i attempt tok settled works session s3 HI3 Ht (rely_att X _ _ _ _ _ H03 Ht HA) (rely_att_right X _ _ _ _ H03 Ht HR)) as H4.
  destruct (attempt_gate sid nodeId i attempt tok settled works session s3) as [g s4]. destruct H4 as [H4 Hf]. split; [done|].
  assert (X ⊆ used s4) as HX4 by (etrans; [exact HX|]; etrans; [apply used_mono, (rely_le X), H03|apply used_mono, (o_le _ _ _ H4)]).
  destruct g as [ex| |init sess]; [apply r_last, q_attempt_catches|apply r_last, q_ret|].
  apply r_bind. apply (r_initializes X tok); [done|done|done|]. intros a s5 H5 _. destruct a as [u|ex]; [|apply r_last, q_attempt_catches].
  apply r_quiet; [quiet|]. intros stands s6 H6. destruct stands; [|apply r_last, q_purge].
  apply o_attempt_retires; [|done]. etrans; [exact HX4|]. etrans; [by apply used_mono|]. apply used_mono, (rely_le X), H6.
Qed.

Lemma r_executeReconnect (X : gset Token) i session attempt tok old s :
  inl tok ∈ X -> X ⊆ used s -> att i attempt tok s ->
  match old with Some e => dead e s /\ att_old i tok e s | None => att_right i tok s end ->
  runs X (executeReconnect sid nodeId initTimeoutMs i session (Some (attempt, tok, old))) (fun _ _ _ => True) s.
Proof.
  intros Ht HX HA HO. cbn [executeReconnect]. destruct old as [e|]; [|by apply r_attempt_rest]. destruct HO as [Hd HO].
  apply r_await; [done|]. intros ok s1 H1. apply r_quiet; [apply q_escalate|]. intros _ s2 H2. apply r_block. intros s3 H3 HI3.
  assert (rely X s s3) as H03 by (etrans; [exact H1|]; by etrans).
  pose proof (attempt_evict_ok (nodeId := nodeId) X i attempt tok e s3 HI3 Ht (rely_att X _ _ _ _ _ H03 Ht HA) (rely_att_old X _ _ _ _ _ H03 Ht HO) (rely_dead X _ _ _ H03 Hd)) as H4.
  cbv zeta in H4. destruct (attempt_evict nodeId i attempt tok e s3) as [cleared s4]. cbn [snd] in H4. destruct H4 as (H4 & HA4 & HR4). split; [done|].
  apply r_attempt_rest; [done| |done|done]. etrans; [exact HX|]. etrans; [apply used_mono, (rely_le X), H03|apply used_mono, (o_le _ _ _ H4)].
Qed.

(** A timer that fires is the one of the current episode: clearing it is dropping it. *)
Lemma fired_drop t j s : Inv s -> timers (epi s) !! t = Some (Some j) ->
  on_epi (on_ep (job_ep j) (set_timer None)) (clearTimeout t s) = drop_timer (job_ep j) s /\ (job_ep j < length (eps (epi s)))%nat.
Proof.
  intros HI Hj. destruct (i_timers _ HI t j Hj) as (x & Hc & Hx & Ht). unfold drop_timer. rewrite Hx, Ht. split; [done|]. by apply lookup_lt_Some in Hx.
Qed.

Lemma r_fire t s : runs ∅ (fire sid nodeId initTimeoutMs t) (fun _ _ _ => True) s.
Proof.
  unfold fire. apply r_draws. intros s1 _ HI1. unfold fire_begin. destruct (timers (epi s1) !! t) as [[j|]|] eqn:Ej;
    [|by split; [apply ok_refl|split; [set_solver|by apply r_ret]]..].
  destruct (fired_drop t j s1 HI1 Ej) as [HD Hi]. pose proof (calm_ok ∅ _ _ (calm_drop_timer (job_ep j) s1) HI1) as H2. pose proof (calm_drop_timer (job_ep j) s1) as Hc.
  destruct j as [i session|i r e]; cbn [job_ep] in *; rewrite HD; set (s2 := drop_timer i s1) in *; pose proof (o_inv _ _ _ H2) as HI2.
  - pose proof (attempt_begin_ok (nodeId := nodeId) ∅ i s2 HI2) as HB. destruct (attempt_begin sid nodeId i s2) as [b s3]. destruct HB as [H3 HB].
    { by rewrite <- (Forall2_length _ _ _ (c_eps _ _ Hc)). }
    split; [by eapply ok_trans|]. destruct b as [[[attempt tok] old]|]; cbn [fire_drawn].
    + destruct HB as (-> & HA & HO). pose proof (proj2 (proj2 (proj2 HA))) as Hlt. rewrite (c_ghost _ _ Hc) in *.
      assert (({[inl (nextTok (ghost s1))]} : gset Token) ⊆ used s3 ∖ used s1) as Hd.
      { intros y ->%elem_of_singleton. rewrite elem_of_difference, !used_inl. lia. }
      split; [done|]. rewrite union_empty_l_L. apply r_executeReconnect; [set_solver|set_solver|done|done].
    + split; [set_solver|]. rewrite union_empty_r_L. apply r_last, q_ret.
  - pose proof (calm_disconnected_begin nodeId e (match retry_at r s2 with Some y => r_reason y | None => "" end)%string (Some r) s2) as Hc3.
    destruct (disconnected_begin nodeId e _ (Some r) s2) as [b s3]. cbn [snd] in Hc3. split; [eapply ok_trans; [exact H2|]; by apply calm_ok|]. split; [set_solver|].
    cbn [fire_drawn]. rewrite union_empty_r_L. destruct b; apply r_last; [apply q_disconnected_rest|apply q_ret].
Qed.

(** ** The controls *)

Lemma o_act {B : Type} (e : eff B) : awaits e = true -> open (act e).
Proof. intros H. by apply o_quiet, q_await. Qed.
Lemma o_if {A : Type} (b : bool) (p q : task A) : open p -> open q -> open (if b then p else q).
Proof. by destruct b. Qed.

Lemma r_ends {A : Type} (X : gset Token) (e : nat) (p : task A) (Q : gset Token -> A -> Local -> Prop) (s : Local) :
  X ⊆ used s -> dead e s -> (forall s1, X ⊆ used s1 -> rely X s s1 -> runs X p Q s1) -> runs X (let! _ := sync_ (evict e) in p) Q s.
Proof.
  intros HX Hd H. apply (r_evict_ X e (fun s => s)); [done|done|intros; by apply ok_refl|]. intros s1 H1 HX1. by apply H.
Qed.

(** An engine of the registry is retired. *)
Lemma r_retires (X : gset Token) (e : nat) (Q : gset Token -> bool -> Local -> Prop) (s : Local) :
  X ⊆ used s -> exists_engine e s -> (forall ok s1, rely X s s1 -> Q X ok s1) -> runs X (retires e) Q s.
Proof.
  intros HX He H. unfold retires. apply r_quiet; [apply q_awaitInitialStatus|]. intros _ s1 H1. apply r_teardown; [by apply (rely_exists X e s)|]. intros ok s2 H2 Hd.
  apply r_quiet; [apply q_escalate|]. intros ok' s3 H3. assert (rely X s s3) as H03 by (etrans; [exact H1|]; by etrans).
  apply r_ends; [by apply (rely_used X s)|by apply (rely_dead X e s2)|]. intros s4 _ H4. apply r_ret. intros s5 H5. apply H. etrans; [exact H03|]. by etrans.
Qed.

Section mark.
Context (mark : Z).

(** The task that holds the stop mark [mark]. *)
Definition holds_mark (X : gset Token) (s : Local) : Prop := inr mark ∈ X /\ X ⊆ used s /\ flies mark s.
Lemma rely_holds_mark X s s' : rely X s s' -> holds_mark X s -> holds_mark X s'.
Proof. intros H (A & B & C). split; [done|]. split; [by apply (rely_used X s)|by apply (rely_flies X mark s)]. Qed.

(** Programs its holder may run. *)
Definition openm {A : Type} (p : task A) : Prop :=
  forall X (Q : gset Token -> A -> Local -> Prop) s, holds_mark X s -> (forall a s1, rely X s s1 -> Q X a s1) -> runs X p Q s.
Lemma m_open {A : Type} (p : task A) : open p -> openm p.
Proof. intros H X Q s HM. apply H, HM. Qed.
Lemma m_quiet {A : Type} (p : task A) : quiet p -> openm p.
Proof. intros H. by apply m_open, o_quiet. Qed.
Lemma m_bind {A B : Type} (p : task A) (f : A -> task B) : openm p -> (forall a, openm (f a)) -> openm (pbind p f).
Proof. intros Hp Hf X Q s HM H. apply r_bind. apply Hp; [done|]. intros a s1 H1. apply Hf; [by apply (rely_holds_mark X s)|]. intros b s2 H2. apply H. by etrans. Qed.
Lemma m_try {E A B : Type} (p : task (result E A)) (f : A -> task (result E B)) :
  openm p -> (forall a, openm (f a)) -> openm (pbind p (fun r => match r with Ok x => f x | Err e => Ret (Err e) end)).
Proof. intros Hp Hf. apply m_bind; [done|]. intros [a|e]; [apply Hf|apply m_quiet, q_ret]. Qed.
Lemma m_sync_ (f : Local -> Local) : (forall s, Inv s -> flies mark s -> ok_step ∅ s (f s)) -> openm (sync_ f).
Proof.
  intros Hf X Q s HM H s1 H1 HI1. pose proof (rely_holds_mark _ _ _ H1 HM) as (_ & HX1 & Hfl). pose proof (Hf s1 HI1 Hfl) as Hok. cbn [pre fst snd].
  split; [split; [by apply public_ok|set_solver]|]. intros b s2 Hrun _. cbn [gain]. rewrite union_empty_r_L. intros s3 H3. cbn in Hrun. injection Hrun as _ ->. apply H.
  etrans; [exact H1|]. etrans; [|exact H3]. by apply public_rely.
Qed.
Lemma m_drop : openm (sync_ (drop_mark sid mark)).
Proof. apply m_sync_. intros s HI Hf. by apply drop_mark_ok. Qed.
Lemma o_drop_finished : open (sync_ (drop_finished sid)).
Proof. apply o_sync_. intros s HI. by apply drop_finished_ok. Qed.

Lemma m_requireSessionOrDropStopMark : openm (requireSessionOrDropStopMark sid mark).
Proof.
  unfold requireSessionOrDropStopMark. apply m_bind; [apply m_quiet, q_requireSession|]. intros [x|ex]; [apply m_quiet, q_ret|].
  apply m_bind; [apply m_drop|]. intros _. apply m_bind; [destruct ex; try apply m_quiet, q_ret; apply m_open, o_drop_finished|]. intros _. apply m_quiet, q_ret.
Qed.

Lemma o_unmark (engine : option nat) : open (sync_ (fun s => match engine with Some e => unmark_operator e s | None => s end)).
Proof. apply o_sync_. intros s HI. destruct engine; [by apply unmark_ok|by apply ok_refl]. Qed.

Lemma m_stop : openm (stop sid nodeId mark).
Proof.
  unfold stop. apply m_try; [apply m_requireSessionOrDropStopMark|]. intros session. apply m_bind; [by apply m_quiet, q_await|].
  intros [u|ex]; [|apply m_bind; [apply m_drop|intros _; apply m_quiet, q_ret]]. intros X Q s HM H. apply r_public; [apply HM|]. intros s1 H1 HI1.
  destruct (take_down_ok (nodeId := nodeId) ∅ s1 HI1) as [H2 He]. destruct (take_down sid nodeId s1) as [engine s2]. cbn [fst snd] in *. split.
  { destruct engine as [e|]; [|done]. eapply ok_trans; [exact H2|]. apply operator_ok, H2. }
  set (s3 := match engine with Some e => mark_operator e s2 | None => s2 end). intros H3 HX3 HI3.
  apply r_bind. assert (forall (ok : bool) s4, rely X s3 s4 ->
    runs X (let! r := (if ok then Ret (Ok tt) else updateStatus DISCONNECTED) in
            let! _ := sync_ (fun s => match engine with Some e => unmark_operator e s | None => s end) in
            let? _ := Ret r in
            if negb ok then Ret (Err Incomplete) else let? _ := updateStatus DISCONNECTED in requireSession) Q s4) as Hrest.
  { intros ok s4 H4. apply o_bind; [apply o_quiet; destruct ok; [apply q_ret|apply q_updateStatus]| |by apply (rely_used X s3)|].
    - intros r. apply o_bind; [apply o_unmark|]. intros _. apply o_quiet. apply q_try; [apply q_ret|]. intros _. destruct (negb ok); [apply q_ret|].
      apply q_try; [apply q_updateStatus|]. intros _. apply q_requireSession.
    - intros a s5 H5. apply H. etrans; [exact H3|]. by etrans. }
  destruct engine as [e|]; [apply r_retires; [done|by apply (He e)|done]|apply r_ret; intros s4 H4; exact (Hrest true s4 H4)].
Qed.
End mark.

Lemma o_endDelete : open (sync_ endDelete).
Proof. apply o_sync_. intros s HI. by apply (hold_deletes_ok ∅ pred). Qed.
Lemma mark_begin_ok deletes s : Inv s -> ok_step ∅ s (snd (mark_begin sid deletes s)) /\ fst (mark_begin sid deletes s) = seq (marks (gates s)) + 1 /\
  seq (marks (gates (snd (mark_begin sid deletes s)))) = seq (marks (gates s)) + 1 /\ flies (fst (mark_begin sid deletes s)) (snd (mark_begin sid deletes s)).
Proof.
  intros HI. destruct (hold_mark_ok ∅ s HI) as (H & A & B & C). unfold mark_begin. destruct (hold_mark sid s) as [mark s1]. cbn [fst snd] in *.
  split_and!; [|done|by destruct deletes|by destruct deletes]. destruct deletes; [|done]. eapply ok_trans; [exact H|]. by apply (hold_deletes_ok ∅ S), H.
Qed.

(** A stop or a delete, its mark held from its first step to its last. *)
Lemma r_marked_request (deletes : bool) (body : Z -> task (result Exn unit)) s :
  (forall mark X s1, holds_mark mark X s1 -> runs X (body mark) (fun Y _ s2 => holds_mark mark Y s2) s1) ->
  runs ∅ (let! _ := marked_request sid deletes body in Ret tt) (fun _ _ _ => True) s.
Proof.
  intros Hb. unfold marked_request. apply r_bind. apply r_draws. intros s1 _ HI1. destruct (mark_begin_ok deletes s1 HI1) as (H2 & Hm & Hq & Hf).
  destruct (mark_begin sid deletes s1) as [mark s2]. cbn [fst snd] in *. split; [done|]. assert (0 <= seq (marks (gates s1))) as H0 by apply (i_marks _ HI1).
  assert (({[inr mark]} : gset Token) ⊆ used s2 ∖ used s1) as Hd.
  { intros y ->%elem_of_singleton. rewrite elem_of_difference, !used_inr. lia. }
  split; [done|]. rewrite union_empty_l_L. set (X := {[inr mark]} : gset Token) in *.
  assert (holds_mark mark X s2) as HM by (split; [set_solver|]; split; [set_solver|done]).
  apply r_bind. assert (forall Y (r : result Exn unit) s3, holds_mark mark Y s3 ->
    runs Y (let! _ := (if deletes then sync_ endDelete else Ret tt) in
            let! _ := (match r with Err NotFound => let! _ := sync_ (drop_mark sid mark) in sync_ (drop_finished sid) | _ => Ret tt end) in
            let! _ := sync_ (settle_mark sid mark) in Ret r) (fun Z a s4 => runs Z (Ret tt) (fun _ _ _ => True) s4) s3) as Hrest.
  { intros Y r s2' HM2. apply r_bind. apply (m_open mark); [apply o_if; [apply o_endDelete|apply o_quiet, q_ret]|done|]. intros _ s3 H3.
    pose proof (rely_holds_mark _ _ _ _ H3 HM2) as HM3. apply r_bind.
    assert (openm mark (match r with Err NotFound => let! _ := sync_ (drop_mark sid mark) in sync_ (drop_finished sid) | _ => Ret tt end)) as Ho.
    { destruct r as [u|[]]; try apply m_quiet, q_ret. apply m_bind; [apply m_drop|]. intros _. apply m_open, o_drop_finished. }
    apply Ho; [done|]. intros _ s4 H4. apply r_block_. intros s5 H5 HI5. split; [apply settle_mark_ok; [done|apply HM3]|]. apply r_ret. intros s6 _. by apply r_ret. }
  assert (runs X (admitted sid mark (body mark)) (fun Y _ s3 => holds_mark mark Y s3) s2) as Ha.
  { unfold admitted. apply r_await; [done|]. intros a s3 H3. pose proof (rely_holds_mark _ _ _ _ H3 HM) as HM3. destruct a; [by apply Hb| | |].
    - apply q_ret. intros a s4 H4. by apply (rely_holds_mark _ X s3).
    - apply m_bind with (mark := mark); [apply m_drop|intros _; apply m_quiet, q_ret|done|]. intros a s4 H4. by apply (rely_holds_mark _ X s3).
    - apply m_bind with (mark := mark); [apply m_drop|intros _; apply m_quiet, q_ret|done|]. intros a s4 H4. by apply (rely_holds_mark _ X s3). }
  eapply holds_conseq; [exact Ha|]. intros Y a s3 _ HM3. by apply Hrest.
Qed.
Lemma r_requestStop s : runs ∅ (let! _ := requestStop sid nodeId in Ret tt) (fun _ _ _ => True) s.
Proof.
  apply r_marked_request. intros mark X s1 HM. apply m_try with (mark := mark); [apply m_stop|intros _; apply m_quiet, q_ret|done|].
  intros a s2 H2. by apply (rely_holds_mark _ X s1).
Qed.

(** ** delete *)

Lemma o_delete_teardown (engine : option nat) (s : Local) (X : gset Token) (Q : gset Token -> unit -> Local -> Prop) :
  X ⊆ used s -> (forall e, engine = Some e -> exists_engine e s) -> (forall a s1, rely X s s1 -> Q X a s1) ->
  runs X (match engine with
          | Some e => let! _ := awaitInitialStatus e in let! _ := teardownEngineSafely e in sync_ (evict e)
          | None => Ret tt
          end) Q s.
Proof.
  intros HX He H. destruct engine as [e|]; [|by apply q_ret]. apply r_quiet; [apply q_awaitInitialStatus|]. intros _ s1 H1.
  apply r_teardown; [by apply (rely_exists X e s); [|apply He]|]. intros ok s2 H2 Hd. assert (rely X s s2) as H02 by by etrans.
  intros s3 H3 HI3. pose proof (evict_ok ∅ e s3 HI3 (rely_dead X _ _ _ H3 Hd)) as Hok. cbn [pre fst snd]. split; [split; [by apply public_ok|set_solver]|].
  intros b s4 Hrun _. cbn [gain]. rewrite union_empty_r_L. intros s5 H5. cbn in Hrun. injection Hrun as _ ->. apply H. etrans; [exact H02|]. etrans; [exact H3|]. etrans; [|exact H5].
  apply public_rely; [done|]. apply (rely_used X s); [|done]. by etrans.
Qed.

Lemma q_delete_rest (engine : option nat) :
  quiet (let! settled := awaitPendingTeardown in
         if negb settled then
           let! _ := (match engine with Some _ => updateStatus DISCONNECTED | None => Ret (Ok tt) end) in
           Ret (Err TeardownPending)
         else
           let! _ := act WritesDrained in
           let! _ := act (RunHook "session:deleted") in
           let! r := act RemoveRows in
           match r with Err _ => Ret (Err DbError) | Ok _ => let! _ := act PurgeDirs in Ret (Ok tt) end).
Proof. quiet; auto using q_awaitPendingTeardown, q_updateStatus. Qed.

Lemma r_delete (mark : Z) (X : gset Token) (s : Local) : holds_mark mark X s -> runs X (delete sid nodeId mark) (fun Y _ s1 => holds_mark mark Y s1) s.
Proof.
  intros HM. unfold delete. assert (forall s1, rely X s s1 -> holds_mark mark X s1) as Hend by (intros s1 H1; by apply (rely_holds_mark _ X s)).
  apply r_bind. apply (m_requireSessionOrDropStopMark mark); [done|]. intros [session|ex] s1 H1; [|apply r_ret; intros s2 H2; apply Hend; by etrans].
  apply r_quiet; [apply q_awaitPendingTeardown|]. intros settled s2 H2. destruct (negb settled); [apply r_ret; intros s3 H3; apply Hend; etrans; [exact H1|]; by etrans|].
  apply r_draws. intros s3 H3 HI3. assert (rely X s s3) as H03 by (etrans; [exact H1|]; by etrans). pose proof (Hend _ H03) as HM3. clear Hend.
  pose proof (delete_begin_ok (nodeId := nodeId) ∅ s3 HI3) as HB. pose proof (public_rely X s3) as Hpub. destruct (delete_begin sid nodeId s3) as [[own engine] s4]. cbn [fst snd] in *.
  destruct HB as (H4 & Hm & Hq & Hfl & He). specialize (Hpub s4 H4 (proj1 (proj2 HM3))). assert (0 <= seq (marks (gates s3))) as H0 by apply (i_marks _ HI3).
  split; [by apply public_ok|]. assert (({[inr own]} : gset Token) ⊆ used s4 ∖ used s3) as Hd.
  { intros y ->%elem_of_singleton. rewrite elem_of_difference, !used_inr. lia. }
  split; [done|]. destruct (rely_holds_mark _ _ _ _ Hpub HM3) as (M1 & M2 & M3). set (Y := X ∪ {[inr own]}).
  assert (holds_mark mark Y s4) as HM4 by (split; [set_solver|]; split; [set_solver|done]).
  assert (holds_mark own Y s4) as HO4 by (split; [set_solver|]; split; [apply HM4|done]).
  apply r_bind. unfold delete_body. apply r_bind. apply o_delete_teardown; [apply HM4|exact He|]. intros _ s5 H5. apply q_delete_rest. intros r s6 H6.
  assert (rely Y s4 s6) as H46 by by etrans. apply r_quiet; [destruct (is_ok r); [apply q_ret|by apply q_await]|]. intros _ s7 H7. assert (rely Y s4 s7) as H47 by by etrans.
  apply r_block_. intros s8 H8 HI8. assert (rely Y s4 s8) as H48 by by etrans.
  pose proof (rely_holds_mark _ _ _ _ H48 HM4) as HM8. pose proof (rely_holds_mark _ _ _ _ H48 HO4) as HO8.
  assert (1 <= mark <= seq (marks (gates s8))) as Hmk by (apply used_inr, (proj1 (proj2 HM8)), (proj1 HM8)).
  pose proof (delete_end_ok ∅ (is_ok r) mark own s8 HI8 (proj2 Hmk) (proj2 (proj2 HM8)) (proj2 (proj2 HO8))) as H9.
  split; [by apply public_ok|]. apply r_ret. intros s10 H10. apply (rely_holds_mark _ Y s8); [|done]. etrans; [apply public_rely; [exact H9|apply HM8]|done].
Qed.
Lemma r_requestDelete s : runs ∅ (let! _ := requestDelete sid nodeId in Ret tt) (fun _ _ _ => True) s.
Proof. apply r_marked_request. intros mark X s1 HM. by apply r_delete. Qed.

(** ** logout, force-kill, the rest *)

Lemma o_unmark1 e : open (sync_ (unmark_operator e)).
Proof. apply o_sync_. intros s HI. by apply unmark_ok. Qed.

Lemma r_logout s : runs ∅ (let! _ := logout sid nodeId in Ret tt) (fun _ _ _ => True) s.
Proof.
  apply r_bind. unfold logout. apply r_quiet; [apply q_requireSession|]. intros [session|ex] s1 _; [|apply r_ret; intros; by apply r_ret].
  apply r_draws. intros s2 _ HI2. pose proof (logout_begin_ok (nodeId := nodeId) ∅ s2 HI2) as HB. destruct (logout_begin sid nodeId s2) as [[[[e h] tok]|ex] s3].
  2: { destruct HB as [HB _]. split; [done|]. split; [set_solver|]. cbn [logout_drawn]. rewrite union_empty_r_L. apply r_ret; intros; by apply r_ret. }
  destruct HB as (H3 & Ht & Hlt & He & Hh). split; [done|]. cbn [logout_drawn]. rewrite union_empty_l_L. set (X := {[inl tok]} : gset Token).
  assert (X ⊆ used s3 ∖ used s2) as Hd by (intros y ->%elem_of_singleton; rewrite elem_of_difference, !used_inl; lia). split; [done|].
  assert (inl tok ∈ X) as HtX by set_solver. assert (X ⊆ used s3) as HX3 by set_solver.
  apply r_quiet; [apply q_awaitInitialStatus|]. intros _ s4 H4. apply r_block_. intros s5 H5 HI5. assert (rely X s3 s5) as H35 by by etrans.
  destruct (rely_held X tok h _ _ H35 HtX Hh) as (x & Hx & Hp). pose proof (logout_launch_ok X e h tok x s5 HI5 HtX Hx Hp) as H6. split; [done|].
  assert (dead e (logout_launch e h s5)) as Hd6.
  { unfold logout_launch. apply begin_end_dead. exact (rely_exists X e _ _ H35 He). }
  assert (X ⊆ used (logout_launch e h s5)) as HX6 by (etrans; [exact HX3|]; etrans; [apply used_mono, (rely_le X), H35|apply used_mono, (o_le _ _ _ H6)]).
  set (s6 := logout_launch e h s5) in *. clearbody s6. apply r_await; [done|]. intros o s7 H7.
  apply r_ends; [by apply (rely_used X s6)|by apply (rely_dead X e s6)|]. intros s8 HX8 H8.
  apply o_bind; [by apply o_act| |done|intros; by apply r_ret]. intros w. apply o_bind; [apply o_quiet; destruct w; [apply q_updateStatus|apply q_ret]|]. intros r.
  apply o_bind; [apply o_unmark1|]. intros _. apply o_quiet. apply q_try; [apply q_ret|]. intros _. destruct (snd o); [apply q_ret|]. destruct (negb (fst o)); [apply q_ret|apply q_requireSession].
Qed.

Lemma r_forceKill s : runs ∅ (let! _ := forceKill sid nodeId in Ret tt) (fun _ _ _ => True) s.
Proof.
  apply r_bind. unfold forceKill. apply r_quiet; [apply q_requireSession|]. intros [session|ex] s1 _; [|apply r_ret; intros; by apply r_ret].
  apply r_block. intros s2 _ HI2. destruct (kill_begin_ok (nodeId := nodeId) ∅ s2 HI2) as [H3 He]. destruct (kill_begin sid nodeId s2) as [[e|ex] s3]; cbn [fst snd] in *; (split; [done|]); [|apply r_ret; intros; by apply r_ret].
  specialize (He e eq_refl). assert (∅ ⊆ used s3) as HX by set_solver. apply r_await; [done|]. intros rec s4 H4.
  apply r_public_; [by apply (rely_used ∅ s3)|]. intros s5 H5 HI5. split; [by apply operator_ok|]. intros H6 HX6 _.
  apply r_quiet; [apply q_awaitInitialStatus|]. intros _ s7 H7. assert (rely ∅ s3 s7) as H37 by (etrans; [exact H4|]; by etrans).
  apply r_teardown; [by apply (rely_exists ∅ e s3)|]. intros ok s8 H8 Hd. apply r_ends; [by set_solver|done|]. intros s9 HX9 H9.
  apply o_bind; [apply o_quiet, q_updateStatus| |done|intros; by apply r_ret]. intros r. apply o_bind; [apply o_unmark1|]. intros _. apply o_quiet.
  apply q_try; [apply q_ret|]. intros _. destruct ok; [apply q_requireSession|apply q_ret].
Qed.

Lemma r_orphan s : runs ∅ (let! _ := stopOrphanEngine sid nodeId in Ret tt) (fun _ _ _ => True) s.
Proof.
  apply r_bind. unfold stopOrphanEngine. apply r_block. intros s1 _ HI1. destruct (take_down_ok (nodeId := nodeId) ∅ s1 HI1) as [H2 He].
  destruct (take_down sid nodeId s1) as [engine s2]. cbn [fst snd] in *. split; [done|]. destruct engine as [e|]; [|apply r_ret; intros; by apply r_ret].
  apply r_bind. unfold destroyWithEscalation. apply r_teardown; [by apply He|]. intros ok s3 H3 Hd. apply q_escalate. intros ok' s4 H4.
  apply r_ends; [set_solver|by apply (rely_dead ∅ e s3)|]. intros s5 _ _. apply r_ret. intros. by apply r_ret.
Qed.

Lemma r_shutdown s : runs ∅ (shutdown nodeId) (fun _ _ _ => True) s.
Proof.
  unfold shutdown. apply r_block. intros s1 _ HI1. destruct (shutdown_begin_ok (nodeId := nodeId) ∅ s1 HI1) as [H2 Hc]. destruct (shutdown_begin nodeId s1) as [engine s2]. cbn [fst snd] in *.
  split; [done|]. apply r_quiet; [destruct engine; [by apply q_await|apply q_ret]|]. intros _ s3 H3. intros s4 H4 HI4. cbn [pre fst snd].
  assert (closed (gates s4) = true) as Hc4 by (apply (le_closed s2 s4); [apply (rely_le ∅); by etrans|done]).
  split; [split; [by apply clear_registry_ok|set_solver]|]. done.
Qed.

Lemma o_rejectRebind e previous incoming : open (rejectRebind sid nodeId e previous incoming).
Proof.
  intros X Q s HX H. unfold rejectRebind. apply r_public; [done|]. intros s1 H1 HI1. split; [by apply rejectRebind_begin_ok|]. intros H2 HX2 _.
  assert (quiet (if negb (fst (rejectRebind_begin sid nodeId e previous incoming s1)) then Ret tt
                 else let! _ := act (LogoutSettles e) in
                      let! writes := ask (fun s => negb (has_engine s) && owned (out s)) in
                      if (writes : bool) then let! _ := updateStatus FAILED in Ret tt else Ret tt)) as Hq by (quiet; apply q_updateStatus).
  apply Hq. intros a s3 H3. apply H. by etrans.
Qed.
Lemma r_onReady e phone s : runs ∅ (onReady sid nodeId e phone) (fun _ _ _ => True) s.
Proof.
  unfold onReady. apply r_block. intros s1 _ HI1. destruct (refusesLink e (Some phone) s1).
  - split; [by apply ok_refl|]. destruct (match engs (reg s1) !! e with Some x => e_phone x | None => None end); [|by apply r_ret]. by apply o_rejectRebind; [set_solver|].
  - split; [|by apply r_ret]. apply calm_ok; [apply calm_handleEngineReady|done].
Qed.

(** ** The pool *)

Local Abbreviation starts := (SessionVerbs.starts sid nodeId maxConcurrent initTimeoutMs).

Lemma starts_ok s p : Inv s -> starts s p -> runs ∅ p (fun _ _ _ => True) s.
Proof.
  intros HI Hs. destruct Hs as [explicit| | | | | | |t|e reason|e|e phone|e name|e st own|e reason|e reason|e reason| |e|st Hst].
  - apply r_start.
  - apply r_requestStop.
  - apply r_logout.
  - apply r_forceKill.
  - apply r_requestDelete.
  - apply r_orphan.
  - apply r_shutdown.
  - apply r_fire.
  - apply r_last, q_handleEngineDisconnected.
  - apply r_last, q_sync_, calm_onQRCode.
  - apply r_onReady.
  - apply r_last, q_sync_, calm_pushName.
  - apply r_last, q_sync_, calm_onStateChanged.
  - apply r_last, q_sync_, calm_onActionRequired.
  - apply r_last, q_sync_, calm_onError.
  - apply r_last, q_onDisconnected.
  - apply (o_sync_ onCredentialTeardownStarted); [|set_solver|done]. intros s1 HI1. by apply track_adapter_ok.
  - apply r_last, q_bind; [apply q_sync, calm_claim|intros ?; apply q_ret].
  - apply r_last, q_sync_, calm_announce.
Qed.

Lemma run_ok X (B : Type) (e : eff B) s b s' :
  Inv s -> X ⊆ used s -> pre X B e s -> run B e s b s' ->
  Inv s' /\ le s s' /\ used s ⊆ used s' /\ gain B e b ⊆ used s' ∖ used s /\ forall Y, Y ## X -> Y ⊆ used s -> rely Y s s'.
Proof.
  intros HI HX Hp Hr. assert (s' = s -> gain B e b = ∅ -> Inv s' /\ le s s' /\ used s ⊆ used s' /\ gain B e b ⊆ used s' ∖ used s /\ forall Y, Y ## X -> Y ⊆ used s -> rely Y s s') as Hsame.
  { intros -> ->. split_and!; [done|done|done|set_solver|done]. }
  destruct e as [B f d|n| | | | | | | | | | | | | | | | |]; try (by apply Hsame).
  - cbn [run pre gain] in *. destruct Hp as [Hok Hd]. rewrite <- Hr in *. cbn [fst snd] in *. split_and!; [apply Hok|apply Hok|by apply (ok_used (sid := sid) X)|done|].
    intros Y HY HYu. by apply (ok_rely (sid := sid) X).
  - apply Hsame; [apply Hr|done].
Qed.

Lemma env_ok s s' : Inv s -> env s s' -> Inv s' /\ le s s' /\ used s ⊆ used s' /\ forall Y, Y ⊆ used s -> rely Y s s'.
Proof.
  intros HI Hs. assert (ok_step ∅ s s') as H.
  { destruct Hs as [o|h x Hx Hp]; [|by apply settle_td_ok]. split; cbn; auto; [by destruct HI|by apply same_le|]. intros t _ _. split; cbn; auto. intros e x Hx Ht. exists x. auto. }
  split_and!; [apply H|apply H|by apply (ok_used (sid := sid) ∅)|]. intros Y HY. by apply public_rely.
Qed.

Lemma Inv_booted : Inv booted.
Proof.
  split; cbn; try done; try (intros; done).
  all: try (intros ? ? H; by rewrite lookup_nil in H).
  - assert (marks_of no_marks sid = []) as E by done. unfold marks_wf. rewrite E. split_and!; [constructor|constructor|done|done].
  - by intros e He%elem_of_nil.
Qed.

Lemma engine_reachable_inv c : rtc (pool_step run env starts) ([], booted) c -> Inv (snd c).
Proof.
  apply (owned_invariant run env starts used gain le rely pre Inv); [exact run_ok|exact env_ok|exact starts_ok|exact Inv_booted].
Qed.
Lemma engine_reachable_le c c' : rtc (pool_step run env starts) ([], booted) c -> rtc (pool_step run env starts) c c' -> le (snd c) (snd c').
Proof.
  apply (owned_knows run env starts used gain le rely pre Inv); [exact run_ok|exact env_ok|exact starts_ok|exact Inv_booted].
Qed.
End tasks.
