(* ===== verification/SessionEngineRuns.v ===== *)
(** * The engines of one session: what holds at every moment

    What SessionEngineTasks.v gives, read off as properties of the code: at every state
    any number of the verbs, timers and reports of SessionVerbs.v reach, however they
    interleave with one another and with the world. *)
From stdpp Require Import gmap.
From S2P Require Import Prelude JsString Prog Owned StopMarks Reconnect SessionEngine SessionEngineLaws SessionVerbs SessionEngineSafe SessionEngineTasks.
Local Open Scope string_scope.
Local Open Scope Z_scope.

(** A state some pool of a session's tasks reaches from the process's boot. *)
Definition reached (sid : string) (nodeId : option string) (maxConcurrent : option Z) (initTimeoutMs : Z) (s : Local) : Prop :=
  exists ts, rtc (pool_step run env (starts sid nodeId maxConcurrent initTimeoutMs)) ([], booted) (ts, s).

(** The tasks still running while the pool goes on from [s]. *)
Definition goes_on (sid : string) (nodeId : option string) (maxConcurrent : option Z) (initTimeoutMs : Z) (s s' : Local) : Prop :=
  exists ts ts', rtc (pool_step run env (starts sid nodeId maxConcurrent initTimeoutMs)) ([], booted) (ts, s) /\
    rtc (pool_step run env (starts sid nodeId maxConcurrent initTimeoutMs)) (ts, s) (ts', s').

(** A run of its own, for the witnesses: every read finds the session [demo], every
    write lands, every engine starts and ends in time. *)
Definition demo : Session := mkSession None None None None None None.
Definition demo_answer (B : Type) (e : eff B) (s : Local) : option (B * Local) :=
  match e in eff B return option (B * Local) with
  | Sync f _ => Some (f s)
  | TeardownsSettle n => Some (settled_before n s, s)
  | ReadSession => Some (Ok (Some demo), s)
  | WriteRow | PrepareStart => Some (Ok true, s)
  | InitSettles _ => Some (InitDone, s)
  | EndSettles _ | CreateWorks => Some (true, s)
  | LogoutSettles _ => Some ((true, false), s)
  | StoppedSince => Some (false, s)
  | OtherHolders => Some (0, s)
  | Admission_ => Some (LetIn, s)
  | RecordStop | RemoveRows => Some (Ok tt, s)
  | InitialStatusSettles _ | RunHook _ | WritesDrained | FailBatches | PurgeDirs => Some (tt, s)
  end.
Lemma demo_answer_ok (B : Type) (e : eff B) s b s1 : demo_answer B e s = Some (b, s1) -> run B e s b s1.
Proof. destruct e; cbn; intros H; apply (inj Some) in H; first [by rewrite H|by injection H as <- <-]. Qed.

(** The tasks of [ps], each run to its end in turn. *)
Definition demo_then (s : Local) (p : task unit) : Local := snd (advance demo_answer 200 p s).
Lemma demo_reaches ps sid n m t s :
  (forall p s, In p ps -> starts sid n m t s p) -> reached sid n m t s -> reached sid n m t (fold_left demo_then ps s).
Proof.
  revert s. induction ps as [|p ps IH]; intros s Hp Hr; [done|]. cbn [fold_left]. apply IH; [intros q s' Hq; apply Hp; by right|]. destruct Hr as [ts Hr].
  exists (fst (advance demo_answer 200 p s) :: ts). etrans; [exact Hr|]. eapply rtc_l; [by apply ps_start, Hp; left|].
  exact (advance_steps run env (starts sid n m t) demo_answer demo_answer_ok 200 [] p ts s).
Qed.

Section runs.
Context (sid : string) (nodeId : option string) (maxConcurrent : option Z) (initTimeoutMs : Z).
Local Abbreviation reached := (reached sid nodeId maxConcurrent initTimeoutMs).
Local Abbreviation goes_on := (goes_on sid nodeId maxConcurrent initTimeoutMs).

Lemma reached_inv s : reached s -> Inv (sid := sid) s.
Proof. intros [ts H]. exact (engine_reachable_inv _ H). Qed.
Lemma goes_on_le s s' : goes_on s s' -> le s s'.
Proof. intros (ts & ts' & H1 & H2). exact (engine_reachable_le _ _ H1 H2). Qed.

(** C5. However starts, stops, logouts, force-kills, deletes, reconnects, shutdowns and
    the engines' own reports interleave, at most one engine of a session runs: an engine
    that was created and has not been told to end is the registered one. *)
Theorem one_engine_runs s e x : reached s -> engs (reg s) !! e = Some x -> e_ended x = false -> live (reg s) = Some e.
Proof. intros Hr Hx He. destruct (i_one _ (reached_inv s Hr) e x Hx) as [H|H]; [done|congruence]. Qed.

(** C12. Every engine was launched when none was registered, the session bore no stop mark
    and the lifecycle was open; and unless the session's row had gone, every credential
    teardown the lifecycle itself had begun had settled. *)
Theorem engines_launch_clean s e x : reached s -> engs (reg s) !! e = Some x ->
  m_live (e_launch x) = None /\ m_marked (e_launch x) = false /\ m_closed (e_launch x) = false /\
  (m_gone (e_launch x) = false -> m_teardowns (e_launch x) = 0%nat).
Proof. intros Hr Hx. destruct (i_launch _ (reached_inv s Hr) e x Hx) as (A & B & C & D). split_and!; [done|done|done|]. intros Hg. destruct D; congruence. Qed.

(** C6. No engine is told to initialize twice, and it is told only while it is the
    registered one, its session not stopped since, the lifecycle open and, unless the row
    had gone, no credential teardown of the lifecycle's own running: whatever happened
    during the awaits between its creation and that call. *)
Theorem initialized_once s e x : reached s -> engs (reg s) !! e = Some x ->
  (length (e_inits x) <= 1)%nat /\
  Forall (fun m => m_live m = Some e /\ m_marked m = false /\ m_closed m = false /\ (m_gone m = false -> m_teardowns m = 0%nat)) (e_inits x).
Proof.
  intros Hr Hx. destruct (i_inits _ (reached_inv s Hr) e x Hx) as [Hn HF]. split; [done|]. eapply Forall_impl; [exact HF|].
  intros m (A & B & C & D). split_and!; [done|done|done|]. intros Hg. destruct D; congruence.
Qed.

(** C13. An engine a stop, a logout, a force-kill, a delete or a start that gave it up was
    done with has been told to end and is not registered, then or at any later moment. *)
Theorem retired_for_good s s' e : goes_on s s' -> e ∈ retired (ghost s) -> live (reg s') <> Some e /\ exists x, engs (reg s') !! e = Some x /\ e_ended x = true.
Proof.
  intros Hg He. pose proof (goes_on_le _ _ Hg) as Hle. destruct Hg as (ts & ts' & H1 & H2).
  assert (reached s') as Hr by (exists ts'; by etrans). destruct (i_retired _ (reached_inv s' Hr) e) as [Hd Hl]; [by apply (le_retired _ _ Hle)|]. done.
Qed.

(** At most one timer of a session is armed, it is the one its reconnect state names,
    and the session then counts as active: nobody takes it for one this process is done
    with while a reconnect or the retry of an unread disconnect is still to come. *)
Theorem one_timer s t t' j j' : reached s -> timers (epi s) !! t = Some (Some j) -> timers (epi s) !! t' = Some (Some j') ->
  t = t' /\ (exists x, state_of s = Some (job_ep j, x) /\ ep_timer x = Some t) /\ isEngineActive s = true.
Proof.
  intros Hr Hj Hj'. destruct (i_timers _ (reached_inv s Hr) t j Hj) as (x & Hc & Hx & Ht). destruct (i_timers _ (reached_inv s Hr) t' j' Hj') as (x' & Hc' & Hx' & Ht').
  assert (state_of s = Some (job_ep j, x)) as Hs by (unfold state_of; by rewrite Hc, Hx). split_and!; [congruence|by exists x|].
  unfold isEngineActive. rewrite Hs. apply orb_true_iff. right. unfold isReconnectPending. by rewrite Ht.
Qed.

(** C14. Once the lifecycle has begun to shut down every engine it ever created has been told
    to end, and from then on it creates none. *)
Theorem shutdown_ends_all s s' : goes_on s s' -> closed (gates s) = true ->
  length (engs (reg s')) = length (engs (reg s)) /\ forall e x, engs (reg s') !! e = Some x -> e_ended x = true.
Proof.
  intros Hg Hc. pose proof (goes_on_le _ _ Hg) as Hle. destruct Hg as (ts & ts' & H1 & H2). assert (reached s') as Hr by (exists ts'; by etrans).
  split; [by apply (le_last _ _ Hle)|]. intros e x Hx. pose proof (reached_inv s' Hr) as HI. destruct (i_one _ HI e x Hx) as [Hl|He]; [|done].
  destruct (i_closed _ HI (le_closed _ _ Hle Hc) e Hl) as (y & Hy & Hd). congruence.
Qed.
End runs.

(** ** At concrete runs *)

(** A start, an engine that loses its connection, the reconnect it armed; then a stop, or
    the process's shutdown. *)
Definition demo_start : task unit := (let! _ := start "s" None None 60000 false in Ret tt)%prog.
Definition demo_stop : task unit := (let! _ := requestStop "s" None in Ret tt)%prog.
Definition demo_drop : task unit := onDisconnected None 0 "stream error".
Definition demo_fire : task unit := fire "s" None 60000 0.
Definition demo_dropped : Local := fold_left demo_then [demo_start; demo_drop] booted.
Definition demo_reconnected : Local := fold_left demo_then [demo_start; demo_drop; demo_fire] booted.
Definition demo_stopped : Local := fold_left demo_then [demo_start; demo_drop; demo_fire; demo_stop] booted.
Definition demo_shut : Local := fold_left demo_then [demo_start; demo_drop; demo_fire; shutdown None] booted.

Lemma demo_starts p s : In p [demo_start; demo_drop; demo_fire; demo_stop; shutdown None] -> starts "s" None None 60000 s p.
Proof. intros [<-|[<-|[<-|[<-|[<-|[]]]]]]; constructor. Qed.
Lemma demo_reached ps : Forall (fun p => In p [demo_start; demo_drop; demo_fire; demo_stop; shutdown None]) ps ->
  reached "s" None None 60000 (fold_left demo_then ps booted).
Proof. intros H. apply demo_reaches; [|by exists []]. intros p s Hp. apply demo_starts. rewrite Forall_forall in H. by apply H, list_elem_of_In. Qed.
Lemma demo_goes_on s p : reached "s" None None 60000 s -> In p [demo_start; demo_drop; demo_fire; demo_stop; shutdown None] ->
  goes_on "s" None None 60000 s (demo_then s p).
Proof.
  intros [ts Hr] Hp. exists ts, (fst (advance demo_answer 200 p s) :: ts). split; [done|]. eapply rtc_l; [by apply ps_start, demo_starts|].
  exact (advance_steps run env (starts "s" None None 60000) demo_answer demo_answer_ok 200 [] p ts s).
Qed.
Ltac listed := repeat (constructor; [cbn; tauto|]); constructor.
Lemma dropped_reached : reached "s" None None 60000 demo_dropped.
Proof. refine (demo_reached [demo_start; demo_drop] _). listed. Qed.
Lemma reconnected_reached : reached "s" None None 60000 demo_reconnected.
Proof. refine (demo_reached [demo_start; demo_drop; demo_fire] _). listed. Qed.
Lemma stopped_reached : reached "s" None None 60000 demo_stopped.
Proof. refine (demo_reached [demo_start; demo_drop; demo_fire; demo_stop] _). listed. Qed.
Lemma shut_reached : reached "s" None None 60000 demo_shut.
Proof. refine (demo_reached [demo_start; demo_drop; demo_fire; shutdown None] _). listed. Qed.

(** After the reconnect the first engine has ended and the second runs. *)
Definition demo_engine : Eng := mkEng false None 0 1 (mkMoment None false false 0 false) [mkMoment (Some 1%nat) false false 0 false].
Lemma demo_second : engs (reg demo_reconnected) !! 1%nat = Some demo_engine.
Proof. vm_compute. reflexivity. Qed.
Definition demo_job : Job := JReconnect 0 demo.
Lemma demo_armed : timers (epi demo_dropped) !! 0%nat = Some (Some demo_job).
Proof. vm_compute. reflexivity. Qed.

Lemma one_engine_runs_witness : e_ended demo_engine = false /\ live (reg demo_reconnected) = Some 1%nat.
Proof. split; [reflexivity|]. exact (one_engine_runs "s" None None 60000 demo_reconnected 1 demo_engine reconnected_reached demo_second eq_refl). Defined.

Lemma engines_launch_clean_witness : m_live (e_launch demo_engine) = None /\ m_marked (e_launch demo_engine) = false /\ m_closed (e_launch demo_engine) = false /\
  (m_gone (e_launch demo_engine) = false -> m_teardowns (e_launch demo_engine) = 0%nat).
Proof. exact (engines_launch_clean "s" None None 60000 demo_reconnected 1 demo_engine reconnected_reached demo_second). Defined.

Lemma initialized_once_witness : (length (e_inits demo_engine) <= 1)%nat /\
  Forall (fun m => m_live m = Some 1%nat /\ m_marked m = false /\ m_closed m = false /\ (m_gone m = false -> m_teardowns m = 0%nat)) (e_inits demo_engine).
Proof. exact (initialized_once "s" None None 60000 demo_reconnected 1 demo_engine reconnected_reached demo_second). Defined.

Lemma demo_retired : (1%nat : nat) ∈ retired (ghost demo_stopped).
Proof. replace (retired (ghost demo_stopped)) with [1%nat] by (vm_compute; reflexivity). by apply list_elem_of_singleton. Qed.
Lemma retired_for_good_witness : live (reg (demo_then demo_stopped demo_start)) = Some 2%nat /\
  live (reg (demo_then demo_stopped demo_start)) <> Some 1%nat /\ exists x, engs (reg (demo_then demo_stopped demo_start)) !! 1%nat = Some x /\ e_ended x = true.
Proof.
  split; [vm_compute; reflexivity|].
  exact (retired_for_good "s" None None 60000 demo_stopped _ 1 (demo_goes_on demo_stopped demo_start stopped_reached (or_introl eq_refl)) demo_retired).
Defined.

Lemma one_timer_witness : 0%nat = 0%nat /\ (exists x, state_of demo_dropped = Some (job_ep demo_job, x) /\ ep_timer x = Some 0%nat) /\ isEngineActive demo_dropped = true.
Proof. exact (one_timer "s" None None 60000 demo_dropped 0 0 demo_job demo_job dropped_reached demo_armed demo_armed). Defined.

Lemma demo_closed : closed (gates demo_shut) = true.
Proof. vm_compute. reflexivity. Qed.
Lemma shutdown_ends_all_witness : length (engs (reg (demo_then demo_shut demo_start))) = length (engs (reg demo_shut)) /\
  forall e x, engs (reg (demo_then demo_shut demo_start)) !! e = Some x -> e_ended x = true.
Proof. exact (shutdown_ends_all "s" None None 60000 demo_shut _ (demo_goes_on demo_shut demo_start shut_reached (or_introl eq_refl)) demo_closed). Defined.
