(* ===== verification/MessageTable.v ===== *)
(** * The table of messages

    The rows of [src/src/modules/message/entities/message.entity.ts] and the
    statements the server runs on them.  Every writer of the table (the projector
    of engine events, the senders, the reaper, the media archive, the history
    import) is a program over these statements, in [MessageWriters] and
    [MessageSends]; a statement is atomic and may fail, before or after it took
    effect.  The file also holds the pure parts: delivery states
    ([message-status.util.ts]), the mapping of an engine's message to a row
    ([message-row.mapper.ts]) and the merge of metadata ([message-metadata.ts]). *)
From stdpp Require Import sets gmap strings.
From S2P Require Import Prelude JsString Json Prog MutationGuard.
Local Open Scope string_scope.
Local Open Scope Z_scope.

(** ** Delivery states *)

Inductive MessageStatus := PENDING | SENT | DELIVERED | READ | FAILED.
#[export] Instance MessageStatus_eq : EqDecision MessageStatus.
Proof. solve_decision. Defined.

(** What an engine reports of a delivery. *)
Inductive DeliveryStatus := AckPending | AckSent | AckDelivered | AckRead | AckFailed.
#[export] Instance DeliveryStatus_eq : EqDecision DeliveryStatus.
Proof. solve_decision. Defined.

Definition deliveryStatusToMessageStatus (status : DeliveryStatus) : option MessageStatus :=
  match status with
  | AckFailed => Some FAILED
  | AckRead => Some READ
  | AckDelivered => Some DELIVERED
  | AckPending | AckSent => None
  end.

Definition deliveryStatusToAck (status : DeliveryStatus) : Z :=
  match status with AckFailed => -1 | AckRead => 3 | AckDelivered => 2 | AckSent => 1 | AckPending => 0 end.

(** The stored states a delivery transition may advance from. *)
Definition ackStatusTransitionFrom (target : MessageStatus) : list MessageStatus :=
  match target with
  | DELIVERED => [PENDING; SENT]
  | READ => [PENDING; SENT; DELIVERED]
  | FAILED => [PENDING; SENT]
  | PENDING | SENT => []
  end.

Definition status_in (s : MessageStatus) (l : list MessageStatus) : bool := existsb (fun x => bool_decide (s = x)) l.

(** ** Rows *)

(** The members of a JSON object, in its order. *)
Abbreviation fields := (list (string * json)).

(** A column that may be [NULL] is an option; the row's key is its generated id. *)
Record Row := mkRow {
  m_sessionId : string;
  m_waMessageId : option string;
  m_chatId : string;
  m_chatName : option string;
  m_author : option string;
  m_from : string;
  m_to : string;
  m_body : option string;
  m_type : string;
  m_direction : Direction;
  m_timestamp : option Z;
  m_metadata : option fields;
  m_mediaPath : option string;
  m_mediaMimetype : option string;
  m_status : MessageStatus;
  m_createdAt : option Z
}.

Definition with_wa (w : option string) (r : Row) : Row :=
  mkRow (m_sessionId r) w (m_chatId r) (m_chatName r) (m_author r) (m_from r) (m_to r) (m_body r) (m_type r) (m_direction r)
    (m_timestamp r) (m_metadata r) (m_mediaPath r) (m_mediaMimetype r) (m_status r) (m_createdAt r).
Definition with_body (b : option string) (r : Row) : Row :=
  mkRow (m_sessionId r) (m_waMessageId r) (m_chatId r) (m_chatName r) (m_author r) (m_from r) (m_to r) b (m_type r) (m_direction r)
    (m_timestamp r) (m_metadata r) (m_mediaPath r) (m_mediaMimetype r) (m_status r) (m_createdAt r).
Definition with_type (t : string) (r : Row) : Row :=
  mkRow (m_sessionId r) (m_waMessageId r) (m_chatId r) (m_chatName r) (m_author r) (m_from r) (m_to r) (m_body r) t (m_direction r)
    (m_timestamp r) (m_metadata r) (m_mediaPath r) (m_mediaMimetype r) (m_status r) (m_createdAt r).
Definition with_time (t : option Z) (r : Row) : Row :=
  mkRow (m_sessionId r) (m_waMessageId r) (m_chatId r) (m_chatName r) (m_author r) (m_from r) (m_to r) (m_body r) (m_type r) (m_direction r)
    t (m_metadata r) (m_mediaPath r) (m_mediaMimetype r) (m_status r) (m_createdAt r).
Definition with_metadata (m : option fields) (r : Row) : Row :=
  mkRow (m_sessionId r) (m_waMessageId r) (m_chatId r) (m_chatName r) (m_author r) (m_from r) (m_to r) (m_body r) (m_type r) (m_direction r)
    (m_timestamp r) m (m_mediaPath r) (m_mediaMimetype r) (m_status r) (m_createdAt r).
Definition with_media (p t : option string) (r : Row) : Row :=
  mkRow (m_sessionId r) (m_waMessageId r) (m_chatId r) (m_chatName r) (m_author r) (m_from r) (m_to r) (m_body r) (m_type r) (m_direction r)
    (m_timestamp r) (m_metadata r) p t (m_status r) (m_createdAt r).
Definition with_status (s : MessageStatus) (r : Row) : Row :=
  mkRow (m_sessionId r) (m_waMessageId r) (m_chatId r) (m_chatName r) (m_author r) (m_from r) (m_to r) (m_body r) (m_type r) (m_direction r)
    (m_timestamp r) (m_metadata r) (m_mediaPath r) (m_mediaMimetype r) s (m_createdAt r).
Definition with_created (t : option Z) (r : Row) : Row :=
  mkRow (m_sessionId r) (m_waMessageId r) (m_chatId r) (m_chatName r) (m_author r) (m_from r) (m_to r) (m_body r) (m_type r) (m_direction r)
    (m_timestamp r) (m_metadata r) (m_mediaPath r) (m_mediaMimetype r) (m_status r) t.

(** A column left [undefined] in an update is not written. *)
Definition if_given {A : Type} (f : option A -> Row -> Row) (x : option A) (r : Row) : Row :=
  match x with Some _ => f x r | None => r end.

Definition revoked (r : Row) : bool := String.eqb (m_type r) "revoked".

(** Clear content and archive pointers, keep the identity. *)
Definition REVOKED_ROW_PATCH (r : Row) : Row :=
  with_media None None (with_metadata None (with_type "revoked" (with_body (Some "") r))).

Definition ref_of_row (r : Row) : StoredMessageRef := mkRef (m_chatId r) (Some (m_direction r)) (m_author r).

(** ** From an engine's message to a row *)

Record IncomingMessage := mkIncoming {
  i_id : string;
  i_from : string;
  i_to : string;
  i_chatId : string;
  i_body : string;
  i_type : string;
  i_timestamp : option Z;
  i_fromMe : bool;
  i_author : option string;
  i_isStatusBroadcast : bool;
  i_ephemeralDuration : option Z;
  i_pushName : option string;
  i_contactName : option string;
  i_media : option json;
  i_quotedMessage : option json;
  i_poll : option json;
  i_call : option json;
  i_buttons : list json;
  (** [button], [location], [order], [product], [mentionedIds], [isForwarded], [forwardingScore] *)
  i_content : fields;
  i_originalBody : option string
}.

Definition MEDIA_MESSAGE_TYPES : list string := ["image"; "video"; "audio"; "voice"; "sticker"; "document"].

Definition OMITTED_MEDIA : fields := [("mimetype", JStr ""); ("omitted", JBool true)].

Definition is_media_type (t : string) : bool := existsb (String.eqb t) MEDIA_MESSAGE_TYPES.

Definition opt_field (k : string) (v : option json) (m : fields) : fields :=
  match v with Some x => JMap.set k x m | None => m end.

Definition buildMessageMetadata (message : IncomingMessage) (synthesizeOmittedMedia : bool) : option fields :=
  let media := match i_media message with
               | Some m => Some m
               | None => if synthesizeOmittedMedia && is_media_type (i_type message) then Some (JObj OMITTED_MEDIA) else None
               end in
  let m := opt_field "media" media [] in
  let m := opt_field "quotedMessage" (i_quotedMessage message) m in
  let m := opt_field "poll" (i_poll message) m in
  let m := opt_field "call" (i_call message) m in
  let m := match i_buttons message with [] => m | l => JMap.set "buttons" (JArr l) m end in
  match m with [] => None | _ => Some m end.

(** The empty id of a message the engine could not name is stored as [NULL]. *)
Definition storableWaMessageId (id : string) : option string := truthy (Some id).

Definition direction_of (fromMe : bool) : Direction := if fromMe then OUTGOING else INCOMING.

(** ** Metadata *)

(** Whether a JSON value counts as true. *)
Definition truthy_json (v : option json) : bool :=
  match v with
  | None | Some JNull | Some (JBool false) | Some (JNum 0) | Some (JStr "") => false
  | _ => true
  end.

Definition media_of (m : fields) : option json := JMap.get "media" m.
Definition member (k : string) (v : option json) : option json := v ≫= fun x => field x k.

(** [{ ...a, ...b }] *)
Definition spread (a b : fields) : fields := fold_left (fun m e => JMap.set (fst e) (snd e) m) b a.

Definition mergeSentMetadata (current incoming : fields) : fields :=
  let media := media_of current in
  let bytes := member "data" (media_of incoming) in
  let keep := truthy_json media &&
              ((truthy_json (member "archived" media) && truthy_json (member "omitted" media)) || negb (truthy_json bytes)) in
  spread (spread current incoming) (if keep then match media with Some m => [("media", m)] | None => [] end else []).

(** [/^https?:\/\//i] *)
Definition url_pointer (s : string) : bool := startsWith (toLowerCase s) "http://" || startsWith (toLowerCase s) "https://".

Definition isUrlPointerMetadata (metadata : fields) : bool :=
  match member "data" (media_of metadata) with Some (JStr d) => url_pointer d | _ => false end.

(** The reactions of a row, and the row's metadata with new ones. *)
Definition reactions_of (m : fields) : fields := match JMap.get "reactions" m with Some (JObj l) => l | _ => [] end.
Definition react (sender : string) (reaction : string) (l : fields) : fields :=
  if String.eqb reaction "" then JMap.delete sender l else JMap.set sender (JStr reaction) l.
Definition with_reaction (sender reaction : string) (m : fields) : fields :=
  JMap.set "reactions" (JObj (react sender reaction (reactions_of m))) m.
Definition with_reactions (changes : list (string * string)) (m : fields) : fields :=
  JMap.set "reactions" (JObj (fold_left (fun l e => react (fst e) (snd e) l) changes (reactions_of m))) m.
Definition with_edited (m : fields) : fields := JMap.set "edited" (JBool true) m.

(** [JSON.stringify] of a metadata column. *)
Definition metadata_text (m : option fields) : option string := option_map (fun l => json_text (JObj l)) m.
Definition same_snapshot (a b : option fields) : bool := bool_decide (metadata_text a = metadata_text b).

(** ** The table *)

(** The rows by id, and the ids ever generated. *)
Record World := mkWorld { rows : gmap string Row; drawn : gset string }.

(** A condition on a row and its id. *)
Abbreviation Where := (string -> Row -> bool).
Definition Row_and (a b : Where) : Where := fun i r => a i r && b i r.
Infix "&&&" := Row_and (at level 40, left associativity).

Definition by_id (id : string) : Where := fun i _ => String.eqb i id.
Definition by_session (sid : string) : Where := fun _ r => String.eqb (m_sessionId r) sid.
Definition by_wa (wa : string) : Where := fun _ r => bool_decide (m_waMessageId r = Some wa).
Definition by_message (sid wa : string) : Where := by_session sid &&& by_wa wa.
Definition not_revoked : Where := fun _ r => negb (revoked r).
Definition of_type (t : string) : Where := fun _ r => String.eqb (m_type r) t.
Definition of_status (s : MessageStatus) : Where := fun _ r => bool_decide (m_status r = s).
Definition status_among (l : list MessageStatus) : Where := fun _ r => status_in (m_status r) l.
Definition of_direction (d : Direction) : Where := fun _ r => bool_decide (m_direction r = d).
Definition in_chat (c : string) : Where := fun _ r => String.eqb (m_chatId r) c.
Definition among_ids (l : list string) : Where := fun i _ => existsb (String.eqb i) l.
Definition among_wa (l : list string) : Where := fun _ r => match m_waMessageId r with Some w => existsb (String.eqb w) l | None => false end.
(** [Or(Not(body), IsNull())] *)
Definition body_differs (b : string) : Where := fun _ r => match m_body r with Some x => negb (String.eqb x b) | None => true end.
Definition has_snapshot (m : option fields) : Where := fun _ r => same_snapshot (m_metadata r) m.
Definition no_pointer : Where := fun _ r => match m_mediaPath r with None => true | Some _ => false end.
Definition created_before (t : Z) : Where := fun _ r => match m_createdAt r with Some c => c <? t | None => false end.

(** The unique index on the session and the engine's id, [NULL] exempt. *)
Definition key_of (r : Row) : option (string * string) := option_map (fun w => (m_sessionId r, w)) (m_waMessageId r).
Definition keys_of (m : gmap string Row) : list (string * string) := omap (fun e => key_of (snd e)) (map_to_list m).
Definition unique (m : gmap string Row) : bool := bool_decide (NoDup (keys_of m)).

Definition update_rows (w : Where) (p : Row -> Row) (m : gmap string Row) : gmap string Row :=
  map_imap (fun i r => Some (if w i r then p r else r)) m.
Definition matching (w : Where) (m : gmap string Row) : list (string * Row) :=
  List.filter (fun e => w (fst e) (snd e)) (map_to_list m).
Definition delete_rows (w : Where) (m : gmap string Row) : gmap string Row :=
  map_imap (fun i r => if w i r then None else Some r) m.

(** A row as inserted: the database stamps a creation time it was not given. *)
Definition stamp (t : Z) (r : Row) : Row := match m_createdAt r with Some _ => r | None => with_created (Some t) r end.

(** Insert a row unless its key is taken. *)
Definition insert_ignore (t : Z) (m : gmap string Row) (e : string * Row) : gmap string Row :=
  let m' := <[fst e := stamp t (snd e)]> m in if unique m' then m' else m.

(** ** Effects *)

Inductive DbError := UniqueViolation | Fault (transient : bool).

(** What leaves for hooks, webhooks and sockets. *)
Inductive Announcement :=
| PersistedHook (id : option string) (row : Row)
| DeletedHook (row : Row)
| MessageReceived (message : IncomingMessage) (edited : bool)
| MessageSent (message : IncomingMessage) (edited : bool)
| MessageEdited (messageId body : string)
| MessageReaction (messageId sender reaction : string) (snapshot : option json)
| MessageRevoked (messageId : string)
| MessageAck (messageId : string) (status : DeliveryStatus) (ack : Z) (chatId : option string)
| MessageFailed (messageId : string).

(** What an engine answers a send: the message's id, its time, and the label it
    resolved of a clicked button. *)
Record SendResult := mkSent { sr_id : string; sr_timestamp : option Z; sr_body : option string }.

(** What was recorded for a message not yet written (see [InFlight]). *)
Record InFlightEntry := mkEntry {
  e_ref : option StoredMessageRef;
  e_revoked : bool;
  e_revokeAnnounced : bool;
  e_editedBody : option string;
  e_body : option string;
  e_edited : bool;
  e_acks : list (string * MessageStatus);
  e_reactions : option (list (string * string))
}.

(** Work handed to the message's mutation chain, or left to run on its own. *)
Inductive Job :=
| AdvanceHeld (wa : string) (e : InFlightEntry)
| WriteHeld (wa : string) (e : InFlightEntry) (insertedCleared : bool)
| JudgeHeld (wa : string) (e : InFlightEntry) (source : MutationSource)
| RecordRevoke (wa : string) (source : option MutationSource)
| Archive (id : string) (row : Row).

Inductive eff : Type -> Type :=
| Find (w : Where) : eff (result DbError (option (string * Row)))
| FindAll (w : Where) : eff (result DbError (list (string * Row)))
| FindSome (w : Where) (take : nat) : eff (result DbError (list (string * Row)))
| Update (w : Where) (p : Row -> Row) : eff (result DbError nat)
| Insert (r : Row) : eff (result DbError string)
| InsertIgnore (rs : list Row) : eff (result DbError unit)
| Delete (w : Where) : eff (result DbError nat)
| Live : eff bool
| Directory : eff (option (string -> option string))
| Entry (wa : string) : eff (option InFlightEntry)
| EntryOf (wa : string) : eff InFlightEntry
| HoldOn (wa : string) (f : InFlightEntry -> InFlightEntry) : eff unit
| MarkedEdited (wa : string) : eff bool
| NoteMarked (wa : string) (marked : bool) : eff unit
| Closed : eff bool
| NowText : eff string
| Fresh : eff string
| PutFile (key bytes : string) : eff (result unit unit)
| GetFile (key : string) : eff (result unit string)
| DropFile (key : string) : eff (result unit unit)
| Wait (ms : Z) : eff unit
| Announce (a : Announcement) : eff unit
| Enqueue (j : Job) : eff unit
| EngineSend : eff (result unit SendResult).

Definition with_rows (m : gmap string Row) (s : World) : World := mkWorld m (drawn s).
Definition updated (w : Where) (p : Row -> Row) (s : World) : World := with_rows (update_rows w p (rows s)) s.
Definition deleted (w : Where) (s : World) : World := with_rows (delete_rows w (rows s)) s.
Definition inserted (id : string) (t : Z) (r : Row) (s : World) : World := mkWorld (<[id := stamp t r]> (rows s)) ({[id]} ∪ drawn s).
Definition inserted_all (ids : list string) (t : Z) (rs : list Row) (s : World) : World :=
  mkWorld (fold_left (insert_ignore t) (zip ids rs) (rows s)) (list_to_set ids ∪ drawn s).

(** A statement took effect, or failed; one that fails may have taken effect. *)
Definition statement {A : Type} (ok : bool) (a : A) (s s1 : World) (r : result DbError A) (s' : World) : Prop :=
  (exists t, r = Err (Fault t) /\ (s' = s \/ ok = true /\ s' = s1)) \/
  (if ok then r = Ok a /\ s' = s1 else r = Err UniqueViolation /\ s' = s).

Definition run (B : Type) (e : eff B) (s : World) : B -> World -> Prop :=
  match e in eff B return B -> World -> Prop with
  | Find w => fun r s' => s' = s /\ ((exists f, r = Err f) \/
      match r with
      | Ok (Some (i, x)) => rows s !! i = Some x /\ w i x = true
      | Ok None => forall i x, rows s !! i = Some x -> w i x = false
      | Err _ => False
      end)
  | FindAll w => fun r s' => s' = s /\ ((exists f, r = Err f) \/ r = Ok (matching w (rows s)))
  | FindSome w n => fun r s' => s' = s /\ ((exists f, r = Err f) \/
      exists l, r = Ok l /\ l ⊆+ matching w (rows s) /\ length l = Nat.min n (length (matching w (rows s))))
  | Update w p => fun r s' => statement (unique (update_rows w p (rows s))) (length (matching w (rows s))) s (updated w p s) r s'
  | Insert x => fun r s' => exists id t, id ∉ drawn s /\ statement (unique (rows (inserted id t x s))) id s (inserted id t x s) r s'
  | InsertIgnore rs => fun r s' => exists ids t, length ids = length rs /\ NoDup ids /\ Forall (fun i => i ∉ drawn s) ids /\
      statement true tt s (inserted_all ids t rs s) r s'
  | Delete w => fun r s' => statement true (length (matching w (rows s))) s (deleted w s) r s'
  | Live | Directory | Entry _ | EntryOf _ | HoldOn _ _ | MarkedEdited _ | NoteMarked _ _ | Closed | NowText | Fresh
  | PutFile _ _ | GetFile _ | DropFile _ | Wait _ | Announce _ | Enqueue _ | EngineSend => fun _ s' => s' = s
  end.

Abbreviation task := (prog eff).
