(* ===== verification/InFlight.v ===== *)
(** * Messages not written yet

    [src/src/modules/session/message-projector.service.ts], the entry a message has
    from its arrival until its row is written: a revoke, an edit, a reaction or an
    ack that lands meanwhile finds no row to update, so it is recorded on the entry,
    and applied when the row is inserted and just after.  The file relates that
    path to the direct one: whatever the moments at which the changes arrive, the
    row ends as if each had been applied to the stored row in order. *)
From S2P Require Import Prelude JsString Json WaId MutationGuard MessageTable.
Local Open Scope string_scope.
Local Open Scope Z_scope.

(** ** The message as engines and consumers see it *)

Definition refOf (m : IncomingMessage) : StoredMessageRef :=
  mkRef (i_chatId m) (Some (direction_of (i_fromMe m))) (i_author m).

Definition claimOf (m : IncomingMessage) : MutationSource :=
  mkSource Edit (i_chatId m) (Some (i_fromMe m)) (i_author m) None.

(** Nothing of a deleted message's content survives. *)
Definition deletedPlaceholder (m : IncomingMessage) : IncomingMessage :=
  mkIncoming (i_id m) (i_from m) (i_to m) (i_chatId m) "" "revoked" (i_timestamp m) (i_fromMe m) (i_author m)
    (i_isStatusBroadcast m) (i_ephemeralDuration m) (i_pushName m) (i_contactName m) None None None None [] [] (i_originalBody m).

Definition message_with_body (b : string) (m : IncomingMessage) : IncomingMessage :=
  mkIncoming (i_id m) (i_from m) (i_to m) (i_chatId m) b (i_type m) (i_timestamp m) (i_fromMe m) (i_author m)
    (i_isStatusBroadcast m) (i_ephemeralDuration m) (i_pushName m) (i_contactName m) (i_media m) (i_quotedMessage m) (i_poll m)
    (i_call m) (i_buttons m) (i_content m) (i_originalBody m).

Definition without_originalBody (m : IncomingMessage) : IncomingMessage :=
  mkIncoming (i_id m) (i_from m) (i_to m) (i_chatId m) (i_body m) (i_type m) (i_timestamp m) (i_fromMe m) (i_author m)
    (i_isStatusBroadcast m) (i_ephemeralDuration m) (i_pushName m) (i_contactName m) (i_media m) (i_quotedMessage m) (i_poll m)
    (i_call m) (i_buttons m) (i_content m) None.

Definition delivered_deleted (m : IncomingMessage) : bool := String.eqb (i_type m) "revoked".

(** The copy the hooks get. *)
Definition message_data (m : IncomingMessage) : IncomingMessage :=
  without_originalBody (if delivered_deleted m then deletedPlaceholder m else m).

(** ** The entry *)

Definition new_entry (ref : option StoredMessageRef) : InFlightEntry := mkEntry ref false false None None false [] None.

Definition held_revoked (e : InFlightEntry) : InFlightEntry :=
  mkEntry (e_ref e) true (e_revokeAnnounced e) (e_editedBody e) (e_body e) (e_edited e) (e_acks e) (e_reactions e).
Definition revoke_announced (e : InFlightEntry) : InFlightEntry :=
  mkEntry (e_ref e) (e_revoked e) true (e_editedBody e) (e_body e) (e_edited e) (e_acks e) (e_reactions e).
Definition entry_with_edit (b : option string) (body : option string) (edited : bool) (e : InFlightEntry) : InFlightEntry :=
  mkEntry (e_ref e) (e_revoked e) (e_revokeAnnounced e) b body edited (e_acks e) (e_reactions e).
Definition entry_with_acks (l : list (string * MessageStatus)) (e : InFlightEntry) : InFlightEntry :=
  mkEntry (e_ref e) (e_revoked e) (e_revokeAnnounced e) (e_editedBody e) (e_body e) (e_edited e) l (e_reactions e).
Definition entry_with_reactions (l : list (string * string)) (e : InFlightEntry) : InFlightEntry :=
  mkEntry (e_ref e) (e_revoked e) (e_revokeAnnounced e) (e_editedBody e) (e_body e) (e_edited e) (e_acks e) (Some l).

(** The engine handed the message over, with the text it arrived with. *)
Definition arrive (body : string) (edited : bool) (e : InFlightEntry) : InFlightEntry :=
  let changed := match e_editedBody e with Some b => negb (String.eqb b body) | None => false end in
  entry_with_edit (e_editedBody e) (Some body) (e_edited e || edited || changed) e.

(** Keep an edit; one that repeats the text so far changes nothing. *)
Definition holdEdit (body : string) (e : InFlightEntry) : InFlightEntry :=
  let soFar := match e_editedBody e with Some b => Some b | None => e_body e end in
  let changed := match soFar with Some b => negb (String.eqb body b) | None => false end in
  entry_with_edit (Some body) (e_body e) (e_edited e || changed) e.

Definition hold_reaction (sender reaction : string) (e : InFlightEntry) : InFlightEntry :=
  entry_with_reactions (JMap.set sender reaction (default [] (e_reactions e))) e.

(** An ack kept for the row, per chat its receipt named. *)
Definition hold_ack (chat : string) (status : MessageStatus) (e : InFlightEntry) : InFlightEntry :=
  match JMap.get chat (e_acks e) with
  | Some parked => if status_in parked (ackStatusTransitionFrom status) then entry_with_acks (JMap.set chat status (e_acks e)) e else e
  | None => entry_with_acks (JMap.set chat status (e_acks e)) e
  end.

(** ** What a change does *)

Inductive Change :=
| EditTo (body : string)
| OutboundEdit (body : string)
| React (sender reaction : string)
| Revoked
| Acked (chat : string) (status : DeliveryStatus).

(** The entry judges a receipt that names a chat without the directory; a lid and
    a phone then prove nothing. *)
Definition ack_foreign_now (e : InFlightEntry) (chat : string) : bool :=
  match e_ref e with Some ref => negb (String.eqb chat "") && receiptTargetsForeignRow ref chat None | None => false end.

(** A change while the message has no row: [applyMessageEditQueued],
    [recordOutboundMessageEdit], [applyReactionQueued], [holdRevoked] and
    [handleMessageAck]. *)
Definition hold (c : Change) (e : InFlightEntry) : InFlightEntry :=
  match c with
  | EditTo b => if e_revoked e then e else holdEdit b e
  | OutboundEdit b =>
      let e := holdEdit b e in entry_with_edit (e_editedBody e) (e_body e) true e
  | React s x => hold_reaction s x e
  | Revoked => held_revoked e
  | Acked chat status =>
      match deliveryStatusToMessageStatus status with
      | Some st => if ack_foreign_now e chat then e else hold_ack chat st e
      | None => e
      end
  end.
Definition hold_all (cs : list Change) (e : InFlightEntry) : InFlightEntry := fold_left (fun e c => hold c e) cs e.

(** A change once the row is stored. *)
Definition mark_row (r : Row) : Row := with_metadata (Some (with_edited (default [] (m_metadata r)))) r.
Definition differs (b : string) (r : Row) : bool := body_differs b "" r.

Definition ack_row (st : MessageStatus) (r : Row) : Row :=
  if status_in (m_status r) (ackStatusTransitionFrom st) then with_status st r else r.

Definition stored (foreign : string -> bool) (c : Change) (r : Row) : Row :=
  match c with
  | EditTo b => if revoked r then r else if differs b r then mark_row (with_body (Some b) r) else r
  | OutboundEdit b => if revoked r then r else mark_row (if differs b r then with_body (Some b) r else r)
  | React s x => if revoked r then r else with_metadata (Some (with_reaction s x (default [] (m_metadata r)))) r
  | Revoked => REVOKED_ROW_PATCH r
  | Acked chat status =>
      match deliveryStatusToMessageStatus status with
      | Some st => if negb (String.eqb chat "") && foreign chat then r else ack_row st r
      | None => r
      end
  end.
Definition stored_all (foreign : string -> bool) (cs : list Change) (r : Row) : Row := fold_left (fun r c => stored foreign c r) cs r.

(** ** How the entry reaches the row *)

(** [startHookChain]'s preparation: a message revoked before its hooks loses its
    content, an edit held until now reaches them. *)
Definition prepare (e : InFlightEntry) (m : IncomingMessage) : IncomingMessage :=
  if e_revoked e then deletedPlaceholder m
  else match e_editedBody e with Some b => message_with_body b m | None => m end.

(** The row [persistInboundMessage] builds. *)
Definition row_of_incoming (sid : string) (m : IncomingMessage) : Row :=
  mkRow sid (storableWaMessageId (i_id m)) (i_chatId m)
    (match i_pushName m with Some n => Some n | None => i_contactName m end) (i_author m) (i_from m) (i_to m)
    (Some (i_body m)) (i_type m) (direction_of (i_fromMe m)) (i_timestamp m) (buildMessageMetadata m false) None None SENT None.

(** The row of an own send's echo. *)
Definition row_of_echo (sid : string) (m : IncomingMessage) : Row :=
  mkRow sid (storableWaMessageId (i_id m)) (i_chatId m) None None (i_from m) (i_to m) (Some (i_body m)) (i_type m) OUTGOING
    (i_timestamp m) (buildMessageMetadata m true) None None SENT None.

(** The row as it is inserted, and whether it is inserted cleared. *)
Definition applyHeldChanges (r : Row) (e : InFlightEntry) : Row * bool :=
  if revoked r then (REVOKED_ROW_PATCH r, true)
  else if e_revoked e then (REVOKED_ROW_PATCH r, true)
  else
    let r := match e_editedBody e with Some b => with_body (Some b) r | None => r end in
    (if e_edited e then mark_row r else r, false).

(** The furthest of the acks kept whose receipt the row's chat does not refuse. *)
Definition furthestParkedAck (foreign : string -> bool) (acks : list (string * MessageStatus)) : option MessageStatus :=
  fold_left (fun furthest e =>
    if negb (String.eqb (fst e) "") && foreign (fst e) then furthest
    else match furthest with
         | None => Some (snd e)
         | Some f => if status_in f (ackStatusTransitionFrom (snd e)) then Some (snd e) else furthest
         end) acks None.

(** [applyChangesMadeInFlight] on the row just inserted: the ack, then
    [writeChangesMadeInFlight]. *)
Definition write_held (foreign : string -> bool) (e : InFlightEntry) (r : Row) : Row :=
  let r := match furthestParkedAck foreign (e_acks e) with Some st => ack_row st r | None => r end in
  if e_revoked e then REVOKED_ROW_PATCH r
  else
    let r := match e_editedBody e with Some b => if negb (revoked r) && differs b r then with_body (Some b) r else r | None => r end in
    let r := match e_reactions e with
             | Some l => if revoked r then r else with_metadata (Some (with_reactions l (default [] (m_metadata r)))) r
             | None => r
             end in
    if e_edited e && negb (revoked r) then mark_row r else r.

(** What is announced of the message once its row is written; [None] once the
    engine's revoke went out. *)
Definition withChangesMadeInFlight (m : IncomingMessage) (e : InFlightEntry) (rowMarked : bool) : option (IncomingMessage * bool) :=
  if e_revokeAnnounced e then None
  else if e_revoked e || delivered_deleted m then Some (deletedPlaceholder m, false)
  else
    let edited := rowMarked || e_edited e in
    match e_editedBody e with None => Some (m, edited) | Some b => Some (message_with_body b m, edited) end.

(** ** Rows that say the same *)

(** Two objects with the same members, and two metadata columns that differ at
    most in the order of their members and of the reactions. *)
Definition same_members (a b : fields) : Prop := forall k, JMap.get k a = JMap.get k b.
Definition same_reactions (a b : option json) : Prop :=
  a = b \/ exists l l', a = Some (JObj l) /\ b = Some (JObj l') /\ same_members l l'.

Record same_fields (a b : fields) : Prop := mkSameFields {
  sf_others : forall k, k <> "reactions" -> JMap.get k a = JMap.get k b;
  sf_reactions : same_reactions (JMap.get "reactions" a) (JMap.get "reactions" b)
}.

Definition same_metadata (a b : option fields) : Prop :=
  match a, b with None, None => True | Some x, Some y => same_fields x y | _, _ => False end.

Definition same_row (a b : Row) : Prop :=
  with_metadata None a = with_metadata None b /\ same_metadata (m_metadata a) (m_metadata b).

#[export] Instance same_reactions_equiv : Equivalence same_reactions.
Proof.
  split.
  - by left.
  - intros a b [->|(l & l' & -> & -> & H)]; [by left|]. right. exists l', l. split_and!; [done|done|]. intros k. by rewrite H.
  - intros a b c [->|(l & l' & -> & -> & H)]; [done|]. intros [<-|(l1 & l2 & [= <-] & -> & H')]; [right; by exists l, l'|].
    right. exists l, l2. split_and!; [done|done|]. intros k. by rewrite H, H'.
Qed.

#[export] Instance same_fields_equiv : Equivalence same_fields.
Proof.
  split.
  - intros a. by split.
  - intros a b [H1 H2]. split; [|by symmetry]. intros k Hk. by rewrite H1.
  - intros a b c [H1 H2] [H3 H4]. split; [|by transitivity (JMap.get "reactions" b)]. intros k Hk. by rewrite H1, H3.
Qed.

#[export] Instance same_metadata_equiv : Equivalence same_metadata.
Proof.
  split.
  - intros [a|]; by cbn.
  - intros [a|] [b|] H; by cbn in *.
  - intros [a|] [b|] [c|] H H1; cbn in *; try done. by transitivity b.
Qed.

#[export] Instance same_row_equiv : Equivalence same_row.
Proof.
  split.
  - intros a. split; reflexivity.
  - intros a b [H1 H2]. split; by symmetry.
  - intros a b c [H1 H2] [H3 H4]. split; [by rewrite H1|by transitivity (m_metadata b)].
Qed.

Lemma same_fields_default a b : same_metadata a b -> same_fields (default [] a) (default [] b).
Proof. destruct a, b; simpl; intros H; try done; reflexivity. Qed.

Lemma get_delete_any k k' (m : fields) : JMap.get k (JMap.delete k' m) = if String.eqb k' k then None else JMap.get k m.
Proof. destruct (String.eqb_spec k' k) as [->|H]; [apply JMap.get_delete_eq|by apply JMap.get_delete_ne]. Qed.
Lemma get_set_any {V} k k' (v : V) m : JMap.get k (JMap.set k' v m) = if String.eqb k' k then Some v else JMap.get k m.
Proof. destruct (String.eqb_spec k' k) as [->|H]; [apply JMap.get_set_eq|by apply JMap.get_set_ne]. Qed.

Lemma get_react k s x l : JMap.get k (react s x l) = if String.eqb s k then (if String.eqb x "" then None else Some (JStr x)) else JMap.get k l.
Proof. unfold react. destruct (String.eqb x ""); [apply get_delete_any|apply get_set_any]. Qed.

#[export] Instance react_proper s x : Proper (same_members ==> same_members) (react s x).
Proof. intros a b H k. rewrite !get_react. by destruct (String.eqb s k). Qed.

Lemma same_reactions_of a b : same_fields a b -> same_members (reactions_of a) (reactions_of b).
Proof. unfold reactions_of. intros [_ [->|(l & l' & -> & -> & H)]]; [done|exact H]. Qed.

(** A change of the reactions, whatever it is, respects the relation. *)
Lemma set_reactions_same (f : fields -> fields) a b :
  Proper (same_members ==> same_members) f -> same_fields a b ->
  same_fields (JMap.set "reactions" (JObj (f (reactions_of a))) a) (JMap.set "reactions" (JObj (f (reactions_of b))) b).
Proof.
  intros Hf H. split.
  - intros k Hk. rewrite !JMap.get_set_ne by done. by apply (sf_others _ _ H).
  - rewrite !JMap.get_set_eq. right. eexists _, _. split_and!; [done|done|]. by apply Hf, same_reactions_of.
Qed.

#[export] Instance with_reaction_proper s x : Proper (same_fields ==> same_fields) (with_reaction s x).
Proof. intros a b H. by apply (set_reactions_same (react s x)); [apply react_proper|]. Qed.

#[export] Instance with_reactions_proper l : Proper (same_fields ==> same_fields) (with_reactions l).
Proof.
  intros a b H. refine (set_reactions_same (fun x => fold_left (fun l e => react (fst e) (snd e) l) l x) a b _ H).
  clear. induction l as [|[s x] l IH]; intros a b H; simpl; [done|]. by apply IH, react_proper.
Qed.

#[export] Instance with_edited_proper : Proper (same_fields ==> same_fields) with_edited.
Proof.
  intros a b H. unfold with_edited. split.
  - intros k Hk. rewrite !get_set_any. by rewrite (sf_others _ _ H k Hk).
  - rewrite !JMap.get_set_ne by done. apply (sf_reactions _ _ H).
Qed.

(** The marker commutes with the reactions, and one marker is enough. *)
Lemma with_edited_idem m : same_fields (with_edited (with_edited m)) (with_edited m).
Proof. split; [intros k Hk|]; unfold with_edited; rewrite !get_set_any; [by destruct (String.eqb "edited" k)|reflexivity]. Qed.

Lemma with_edited_set_reactions (f : fields -> fields) m :
  same_fields (JMap.set "reactions" (JObj (f (reactions_of (with_edited m)))) (with_edited m))
    (with_edited (JMap.set "reactions" (JObj (f (reactions_of m))) m)).
Proof.
  assert (reactions_of (with_edited m) = reactions_of m) as ->.
  { unfold reactions_of, with_edited. by rewrite JMap.get_set_ne by done. }
  split.
  - intros k Hk. unfold with_edited. rewrite !get_set_any. rewrite (proj2 (String.eqb_neq "reactions" k)) by congruence. done.
  - unfold with_edited. rewrite get_set_any. simpl. rewrite JMap.get_set_ne by done. rewrite JMap.get_set_eq. reflexivity.
Qed.

(** Reactions kept one by one, or the latest of each sender applied together. *)
Lemma get_fold_react k (l : list (string * string)) m :
  JMap.wf l -> JMap.get k (fold_left (fun l e => react (fst e) (snd e) l) l m) =
    match JMap.get k l with Some x => if String.eqb x "" then None else Some (JStr x) | None => JMap.get k m end.
Proof.
  revert m. induction l as [|[s x] l IH]; intros m Hwf; [done|]. simpl.
  assert (JMap.wf l) as Hl by exact (JMap.wf_tail _ _ Hwf). rewrite IH by done. rewrite get_react.
  destruct (String.eqb_spec s k) as [->|Hne].
  - assert (JMap.get k l = None) as -> by (apply JMap.get_None_keys; by apply NoDup_cons in Hwf as [? _]). done.
  - done.
Qed.

Lemma with_reactions_set s x l m :
  JMap.wf l -> same_fields (with_reactions (JMap.set s x l) m) (with_reaction s x (with_reactions l m)).
Proof.
  intros Hwf. unfold with_reactions, with_reaction. split.
  - intros k Hk. by rewrite !JMap.get_set_ne by done.
  - rewrite !JMap.get_set_eq. right. eexists _, _. split_and!; [done|done|]. intros k. rewrite get_react.
    unfold reactions_of at 2. rewrite JMap.get_set_eq.
    rewrite !get_fold_react by (done || by apply JMap.wf_set). rewrite get_set_any. by destruct (String.eqb s k).
Qed.

Lemma with_reactions_one s x m : with_reactions [(s, x)] m = with_reaction s x m.
Proof. done. Qed.

(** ** Changes on rows that say the same *)

(** A column other than the metadata reads the same on both. *)
Lemma same_row_col {A} (f : Row -> A) a b :
  (forall r, f (with_metadata None r) = f r) -> same_row a b -> f a = f b.
Proof. intros Hf [H _]. by rewrite <- (Hf a), <- (Hf b), H. Qed.

Lemma same_row_metadata f g a b :
  same_row a b -> same_fields (f (default [] (m_metadata a))) (g (default [] (m_metadata b))) ->
  same_row (with_metadata (Some (f (default [] (m_metadata a)))) a) (with_metadata (Some (g (default [] (m_metadata b)))) b).
Proof. intros [H _] Hf. split; [exact H|exact Hf]. Qed.

(** An update of other columns. *)
Lemma same_row_update (p : Row -> Row) a b :
  (forall r m, p (with_metadata m r) = with_metadata m (p r)) -> same_row a b -> same_row (p a) (p b).
Proof.
  intros Hp [H Hm]. assert (forall r, m_metadata (p r) = m_metadata r) as Hq.
  { intros r. assert (with_metadata (m_metadata r) r = r) as E by by destruct r. rewrite <- E at 1. by rewrite Hp. }
  split; [by rewrite <- !Hp, H|by rewrite !Hq].
Qed.

#[export] Instance mark_row_proper : Proper (same_row ==> same_row) mark_row.
Proof. intros a b H. apply same_row_metadata; [done|]. by apply with_edited_proper, same_fields_default, H. Qed.

#[export] Instance ack_row_proper st : Proper (same_row ==> same_row) (ack_row st).
Proof.
  intros a b H. unfold ack_row. rewrite (same_row_col m_status a b) by done. destruct (status_in _ _); [|done]. by apply same_row_update.
Qed.

#[export] Instance with_body_proper b : Proper (same_row ==> same_row) (with_body b).
Proof. intros x y H. by apply same_row_update. Qed.

Lemma revoke_same a b : same_row a b -> same_row (REVOKED_ROW_PATCH a) (REVOKED_ROW_PATCH b).
Proof.
  intros [H _]. split; [|done]. change (with_metadata None (REVOKED_ROW_PATCH a)) with (REVOKED_ROW_PATCH (with_metadata None a)).
  by rewrite H.
Qed.

Lemma revoked_same a b : same_row a b -> revoked a = revoked b.
Proof. by apply same_row_col. Qed.
Lemma differs_same t a b : same_row a b -> differs t a = differs t b.
Proof. by apply same_row_col. Qed.

#[export] Instance stored_proper foreign c : Proper (same_row ==> same_row) (stored foreign c).
Proof.
  intros a b H. destruct c as [t|t|s x| |chat st]; simpl; rewrite ?(revoked_same a b H), ?(differs_same t a b H).
  - destruct (revoked b); [done|]. destruct (differs t b); [|done]. by apply mark_row_proper, with_body_proper.
  - destruct (revoked b); [done|]. apply mark_row_proper. destruct (differs t b); [by apply with_body_proper|done].
  - destruct (revoked b); [done|]. apply same_row_metadata; [done|]. by apply with_reaction_proper, same_fields_default, H.
  - by apply revoke_same.
  - destruct (deliveryStatusToMessageStatus st); [|done]. destruct (_ && _); [done|]. by apply ack_row_proper.
Qed.

Lemma mark_row_idem r : same_row (mark_row (mark_row r)) (mark_row r).
Proof. split; [done|]. apply with_edited_idem. Qed.

(** ** What is kept on an entry *)

Section held.
Context (foreign : string -> bool) (c0 : string) (ref : StoredMessageRef) (b0 : string) (edited0 : bool).

(** A receipt the row's chat refuses. *)
Definition refused (chat : string) : bool := negb (String.eqb chat "") && foreign chat.

(** What an entry holds of a message once it arrived: edits are counted from the
    text [b0] it arrived with. *)
Record held_ok (e : InFlightEntry) : Prop := mkHeld {
  ho_ref : forall r, e_ref e = Some r -> r = ref;
  ho_body : e_body e = Some b0;
  ho_edit : match e_editedBody e with Some b => b <> b0 -> e_edited e = true | None => e_revoked e = false -> e_edited e = edited0 end;
  ho_edited : edited0 = true -> e_edited e = true;
  ho_reactions : match e_reactions e with Some l => JMap.wf l | None => True end;
  ho_acks : JMap.wf (e_acks e);
  ho_chats : forall k, k <> c0 -> JMap.has k (e_acks e) = true -> refused k = true;
  ho_parked : forall k st, JMap.get k (e_acks e) = Some st -> st = DELIVERED \/ st = READ \/ st = FAILED
}.

(** Receipts the row takes all name one chat; one refused on arrival is refused by
    the row. *)
Definition change_ok (c : Change) : Prop :=
  match c with
  | Acked chat st => deliveryStatusToMessageStatus st = None \/ chat = c0 \/ refused chat = true
  | _ => True
  end.

Lemma hold_ack_ok chat st e :
  chat = c0 \/ refused chat = true -> st = DELIVERED \/ st = READ \/ st = FAILED -> held_ok e -> held_ok (hold_ack chat st e).
Proof.
  intros Hc Hst [H0 H1 H2 H3 H4 H5 H6 H7]. unfold hold_ack.
  assert (held_ok (entry_with_acks (JMap.set chat st (e_acks e)) e)) as Hset.
  { split; simpl; try done.
    - by apply JMap.wf_set.
    - intros k Hk. unfold JMap.has. rewrite get_set_any. destruct (String.eqb_spec chat k) as [->|]; [by destruct Hc|by apply H6].
    - intros k x. rewrite get_set_any. destruct (String.eqb chat k); [by intros [= <-]|apply H7]. }
  destruct (JMap.get chat (e_acks e)) as [p|]; [|done]. destruct (status_in _ _); [done|by split].
Qed.

Lemma advancing_status st x : deliveryStatusToMessageStatus st = Some x -> x = DELIVERED \/ x = READ \/ x = FAILED.
Proof. destruct st; intros [= <-]; auto. Qed.

Lemma hold_ok c e : change_ok c -> held_ok e -> held_ok (hold c e).
Proof.
  intros Hc He. destruct c as [t|t|s x| |chat st]; simpl.
  - destruct (e_revoked e) eqn:Hr; [done|]. destruct He as [H0 H1 H2 H3 H4 H5 H6 H7]. unfold holdEdit. rewrite H1.
    split; simpl; try done; [|intros Hd; by rewrite H3]. intros Ht. destruct (e_editedBody e) as [b|].
    + destruct (String.eqb_spec t b) as [->|]; [rewrite (H2 Ht)|]; apply orb_true_iff; auto.
    + destruct (String.eqb_spec t b0) as [->|]; [done|]. apply orb_true_iff. auto.
  - destruct He as [H0 H1 H2 H3 H4 H5 H6 H7]. unfold holdEdit. split; simpl; done.
  - destruct He as [H0 H1 H2 H3 H4 H5 H6 H7]. unfold hold_reaction. split; simpl; try done.
    apply JMap.wf_set. destruct (e_reactions e); [done|]. apply NoDup_nil_2.
  - destruct He as [H0 H1 H2 H3 H4 H5 H6 H7]. split; simpl; try done. by destruct (e_editedBody e).
  - destruct (deliveryStatusToMessageStatus st) as [x|] eqn:Hst; [|done]. destruct (ack_foreign_now e chat) eqn:Hf; [done|].
    apply hold_ack_ok; [by destruct Hc as [Hc|Hc]; [rewrite Hst in Hc|]|by eapply advancing_status|done].
Qed.

(** The furthest ack is the one of the row's chat. *)
Lemma furthest_refused (l : list (string * MessageStatus)) a :
  (forall k, k <> c0 -> JMap.has k l = true -> refused k = true) -> JMap.wf l -> refused c0 = false ->
  (a <> None -> JMap.get c0 l = None) ->
  fold_left (fun furthest e => if negb (String.eqb (fst e) "") && foreign (fst e) then furthest
    else match furthest with None => Some (snd e) | Some f => if status_in f (ackStatusTransitionFrom (snd e)) then Some (snd e) else furthest end)
    l a = match JMap.get c0 l with Some st => Some st | None => a end.
Proof.
  revert a. induction l as [|[k st] l IH]; intros a Hr Hwf Hc Ha; simpl; [done|].
  assert (JMap.wf l) as Hl by exact (JMap.wf_tail _ _ Hwf). fold (refused k).
  assert (JMap.get k l = None) as Hk by (apply JMap.get_None_keys; by apply NoDup_cons in Hwf as [? _]).
  assert (forall k', k' <> c0 -> JMap.has k' l = true -> refused k' = true) as Hr'.
  { intros k' Hk' Hh. apply Hr; [done|]. unfold JMap.has in *. simpl. by destruct (String.eqb k k'). }
  destruct (String.eqb_spec k c0) as [->|Hne].
  - rewrite Hc, (IH _ Hr' Hl Hc), Hk; [|done]. destruct a; [|done].
    simpl in Ha. rewrite String.eqb_refl in Ha. by specialize (Ha ltac:(done)).
  - rewrite (Hr k Hne) by (unfold JMap.has; simpl; by rewrite String.eqb_refl). apply IH; [done|done|done|].
    intros H. specialize (Ha H). simpl in Ha. by rewrite (proj2 (String.eqb_neq _ _) Hne) in Ha.
Qed.

Lemma furthest_all_refused (l : list (string * MessageStatus)) a :
  (forall k, JMap.has k l = true -> refused k = true) -> JMap.wf l ->
  fold_left (fun furthest e => if negb (String.eqb (fst e) "") && foreign (fst e) then furthest
    else match furthest with None => Some (snd e) | Some f => if status_in f (ackStatusTransitionFrom (snd e)) then Some (snd e) else furthest end)
    l a = a.
Proof.
  revert a. induction l as [|[k st] l IH]; intros a Hr Hwf; simpl; [done|]. fold (refused k).
  rewrite (Hr k) by (unfold JMap.has; simpl; by rewrite String.eqb_refl). apply IH; [|exact (JMap.wf_tail _ _ Hwf)].
  intros k' Hh. apply Hr. unfold JMap.has in *. simpl. by destruct (String.eqb k k').
Qed.

Lemma furthest_is e :
  held_ok e -> furthestParkedAck foreign (e_acks e) = if refused c0 then None else JMap.get c0 (e_acks e).
Proof.
  intros He. unfold furthestParkedAck. destruct (refused c0) eqn:Hc.
  - apply furthest_all_refused; [|apply He]. intros k Hk. destruct (String.eqb_spec k c0) as [->|H]; [done|by apply (ho_chats e He)].
  - rewrite furthest_refused; [by destruct (JMap.get c0 (e_acks e))|apply He|apply He|done|done].
Qed.
End held.

(** ** One more change *)

(** The parts of [write_held]: the row's state, and its content. *)
Definition with_held_body (e : InFlightEntry) (r : Row) : Row :=
  match e_editedBody e with Some b => with_body (Some b) r | None => r end.
Definition with_held_reactions (e : InFlightEntry) (r : Row) : Row :=
  match e_reactions e with Some l => with_metadata (Some (with_reactions l (default [] (m_metadata r)))) r | None => r end.
Definition with_held_mark (e : InFlightEntry) (r : Row) : Row := if e_edited e then mark_row r else r.
Definition held_content (e : InFlightEntry) (r : Row) : Row :=
  if e_revoked e then REVOKED_ROW_PATCH r
  else if revoked r then r
  else with_held_mark e (with_held_reactions e (with_held_body e r)).

Lemma held_body_is e r : revoked r = false ->
  match e_editedBody e with Some b => if negb (revoked r) && differs b r then with_body (Some b) r else r | None => r end = with_held_body e r.
Proof.
  intros Hr. unfold with_held_body. destruct (e_editedBody e) as [b|]; [|done]. rewrite Hr. unfold differs, body_differs. simpl.
  destruct r as [a1 a2 a3 a4 a5 a6 a7 body a8 a9 a10 a11 a12 a13 a14 a15]; simpl. destruct body as [x|]; [|done].
  by destruct (String.eqb_spec x b) as [->|].
Qed.

Lemma held_body_revoked e r : revoked (with_held_body e r) = revoked r.
Proof. unfold with_held_body. by destruct (e_editedBody e). Qed.
Lemma held_reactions_revoked e r : revoked (with_held_reactions e r) = revoked r.
Proof. unfold with_held_reactions. by destruct (e_reactions e). Qed.
Lemma held_mark_revoked e r : revoked (with_held_mark e r) = revoked r.
Proof. unfold with_held_mark. by destruct (e_edited e). Qed.

Lemma write_held_is foreign e r :
  write_held foreign e r =
    held_content e (match furthestParkedAck foreign (e_acks e) with Some st => ack_row st r | None => r end).
Proof.
  unfold write_held, held_content. generalize (match furthestParkedAck foreign (e_acks e) with Some st => ack_row st r | None => r end).
  clear r. intros r. destruct (e_revoked e); [done|]. destruct (revoked r) eqn:Hr.
  - replace (match e_editedBody e with Some b => if negb true && differs b r then with_body (Some b) r else r | None => r end) with r
      by by destruct (e_editedBody e). rewrite Hr. destruct (e_reactions e); simpl; rewrite Hr; simpl; by destruct (e_edited e).
  - pose proof (held_body_is e r Hr) as Hb. rewrite Hr in Hb. rewrite Hb. unfold with_held_mark, with_held_reactions.
    rewrite held_body_revoked, Hr. assert (revoked (match e_reactions e with
      | Some l => with_metadata (Some (with_reactions l (default [] (m_metadata (with_held_body e r))))) (with_held_body e r)
      | None => with_held_body e r end) = false) as ->.
    { change (revoked (with_held_reactions e (with_held_body e r)) = false). by rewrite held_reactions_revoked, held_body_revoked. }
    by destruct (e_edited e).
Qed.

Lemma held_content_status s e r : held_content e (with_status s r) = with_status s (held_content e r).
Proof.
  unfold held_content. destruct (e_revoked e); [done|]. change (revoked (with_status s r)) with (revoked r). destruct (revoked r); [done|].
  unfold with_held_mark, with_held_reactions, with_held_body. by destruct (e_editedBody e), (e_reactions e), (e_edited e).
Qed.

Lemma revoke_content e r : REVOKED_ROW_PATCH (held_content e r) = REVOKED_ROW_PATCH r.
Proof.
  unfold held_content. destruct (e_revoked e); [done|]. destruct (revoked r); [done|].
  unfold with_held_mark, with_held_reactions, with_held_body. by destruct (e_editedBody e), (e_reactions e), (e_edited e).
Qed.

Lemma held_content_body e r : revoked r = false -> e_revoked e = false ->
  m_body (held_content e r) = match e_editedBody e with Some b => Some b | None => m_body r end.
Proof.
  intros Hr He. unfold held_content. rewrite He, Hr. unfold with_held_mark, with_held_reactions, with_held_body.
  by destruct (e_editedBody e), (e_reactions e), (e_edited e).
Qed.

Lemma held_content_revoked e r : e_revoked e = false -> revoked (held_content e r) = revoked r.
Proof.
  intros He. unfold held_content. rewrite He. destruct (revoked r) eqn:Hr; [done|].
  by rewrite held_mark_revoked, held_reactions_revoked, held_body_revoked.
Qed.

Lemma same_row_eq a b : a = b -> same_row a b.
Proof. intros ->. reflexivity. Qed.

Section one_more.
Context (foreign : string -> bool) (c0 : string) (ref : StoredMessageRef) (b0 : string) (edited0 : bool) (base : Row).
(** The text of the stored row is the one the message arrived with, unless the
    engine had applied an edit, which marks it. *)
Context (base_body : revoked base = false -> exists bm, m_body base = Some bm /\ (edited0 = false -> bm = b0)).

Lemma edit_one_more t e :
  held_ok foreign c0 ref b0 edited0 e -> e_revoked e = false -> revoked base = false ->
  same_row (held_content (holdEdit t e) base)
    (if differs t (held_content e base) then mark_row (with_body (Some t) (held_content e base)) else held_content e base).
Proof.
  intros He Hr Hb. destruct (base_body Hb) as (bm & Hbm & Hb0).
  assert (differs t (held_content e base) = negb (String.eqb (default bm (e_editedBody e)) t)) as ->.
  { unfold differs, body_differs. rewrite held_content_body by done. by destruct (e_editedBody e); simpl; [|rewrite Hbm]. }
  destruct He as [_ H1 H2 H3 _ _ _ _]. unfold held_content, holdEdit. simpl. rewrite Hr, Hb, H1.
  unfold with_held_mark, with_held_reactions, with_held_body. simpl.
  destruct (String.eqb_spec (default bm (e_editedBody e)) t) as [Heq|Hne].
  - assert (e_edited e || negb (String.eqb t (match e_editedBody e with Some b => b | None => b0 end)) = e_edited e) as Hed.
    { destruct (e_editedBody e) as [b|]; simpl in *; subst; [by rewrite String.eqb_refl, orb_false_r|].
      destruct edited0; [by rewrite H3|]. rewrite (Hb0 eq_refl), String.eqb_refl. apply orb_false_r. }
    apply same_row_eq. destruct (e_editedBody e) as [b|]; simpl in *; rewrite Hed; [by subst|].
    assert (with_body (Some t) base = base) as -> by (subst t; destruct base; simpl in *; by subst). done.
  - assert (e_edited e || negb (String.eqb t (match e_editedBody e with Some b => b | None => b0 end)) = true) as Hed.
    { destruct (e_editedBody e) as [b|]; simpl in *; [rewrite (proj2 (String.eqb_neq t b)) by congruence; apply orb_true_r|].
      destruct edited0; [by rewrite H3|]. rewrite <- (Hb0 eq_refl). rewrite (proj2 (String.eqb_neq t bm)) by congruence. apply orb_true_r. }
    destruct (e_editedBody e) as [b|], (e_reactions e) as [l|], (e_edited e); simpl in *; rewrite ?Hed; try reflexivity;
      match goal with |- same_row ?a _ => transitivity (mark_row a); [symmetry; apply mark_row_idem|by apply same_row_eq] end.
Qed.

Lemma outbound_one_more t e :
  held_ok foreign c0 ref b0 edited0 e -> e_revoked e = false -> revoked base = false ->
  same_row (held_content (hold (OutboundEdit t) e) base)
    (mark_row (if differs t (held_content e base) then with_body (Some t) (held_content e base) else held_content e base)).
Proof.
  intros He Hr Hb. pose proof (edit_one_more t e He Hr Hb) as H.
  transitivity (mark_row (held_content (holdEdit t e) base)).
  - unfold held_content. simpl. rewrite Hr, Hb. unfold with_held_mark, with_held_reactions, with_held_body. simpl.
    destruct (e_edited e || _); [symmetry; apply (mark_row_idem _)|reflexivity].
  - rewrite (mark_row_proper _ _ H). destruct (differs t _); [apply mark_row_idem|reflexivity].
Qed.

Lemma reaction_one_more s x e :
  held_ok foreign c0 ref b0 edited0 e -> e_revoked e = false -> revoked base = false ->
  same_row (held_content (hold_reaction s x e) base)
    (with_metadata (Some (with_reaction s x (default [] (m_metadata (held_content e base))))) (held_content e base)).
Proof.
  intros He Hr Hb. pose proof (ho_reactions _ _ _ _ _ _ He) as Hwf. unfold held_content, hold_reaction. simpl. rewrite Hr, Hb.
  unfold with_held_mark, with_held_reactions. simpl. change (with_held_body (entry_with_reactions _ e) base) with (with_held_body e base).
  set (y := with_held_body e base). clearbody y.
  assert (same_row (with_metadata (Some (with_reactions (JMap.set s x (default [] (e_reactions e))) (default [] (m_metadata y)))) y)
    (let z := match e_reactions e with Some l => with_metadata (Some (with_reactions l (default [] (m_metadata y)))) y | None => y end in
     with_metadata (Some (with_reaction s x (default [] (m_metadata z)))) z)) as Hl.
  { destruct (e_reactions e) as [l|]; [|reflexivity]. split; [done|]. simpl. by apply with_reactions_set. }
  simpl in Hl. destruct (e_edited e); [|exact Hl]. rewrite (mark_row_proper _ _ Hl).
  split; [done|]. simpl. symmetry. apply (with_edited_set_reactions (react s x)).
Qed.
End one_more.

Section refinement.
Context (foreign : string -> bool) (c0 : string) (ref : StoredMessageRef) (b0 : string) (edited0 : bool) (base : Row).
Context (base_body : revoked base = false -> exists bm, m_body base = Some bm /\ (edited0 = false -> bm = b0)).
Context (base_sent : m_status base = SENT).
(** A receipt the entry refuses when it arrives is one the row refuses. *)
Context (agrees : forall chat, receiptTargetsForeignRow ref chat None = true -> foreign chat = true).

(** The state the held acks leave the row in. *)
Definition held_status (e : InFlightEntry) : MessageStatus :=
  match (if refused foreign c0 then None else JMap.get c0 (e_acks e)) with Some st => st | None => SENT end.

Lemma write_held_split e :
  held_ok foreign c0 ref b0 edited0 e -> write_held foreign e base = with_status (held_status e) (held_content e base).
Proof.
  intros He. rewrite write_held_is, (furthest_is foreign c0 ref b0 edited0 e He). rewrite <- held_content_status. unfold held_status. f_equal.
  assert (with_status SENT base = base) as Hs by (destruct base; simpl in *; by subst).
  destruct (refused foreign c0); [done|]. destruct (JMap.get c0 (e_acks e)) as [st|] eqn:Hg; [|done].
  unfold ack_row. rewrite base_sent. by destruct (ho_parked _ _ _ _ _ _ He _ _ Hg) as [-> | [-> | ->]].
Qed.

(** One more held ack moves that state as the row's own would. *)
Lemma held_status_ack e chat st :
  held_ok foreign c0 ref b0 edited0 e -> st = DELIVERED \/ st = READ \/ st = FAILED -> refused foreign c0 = false ->
  chat = c0 -> held_status (hold_ack chat st e) =
    if status_in (held_status e) (ackStatusTransitionFrom st) then st else held_status e.
Proof.
  intros He Hst Hr ->. unfold held_status, hold_ack. rewrite Hr. destruct (JMap.get c0 (e_acks e)) as [p|] eqn:Hg.
  - destruct (status_in p _); [simpl; by rewrite JMap.get_set_eq|by rewrite Hg].
  - simpl. rewrite JMap.get_set_eq. by destruct Hst as [-> | [-> | ->]].
Qed.

Lemma held_status_other e chat st : refused foreign chat = true -> held_status (hold_ack chat st e) = held_status e.
Proof.
  intros Hc. unfold held_status, hold_ack. destruct (refused foreign c0) eqn:Hr; [done|].
  assert (chat <> c0) as Hne by congruence.
  destruct (JMap.get chat (e_acks e)) as [p|]; [destruct (status_in p _); [|done]|]; simpl; by rewrite JMap.get_set_ne.
Qed.

Lemma hold_ack_content chat st e : held_content (hold_ack chat st e) base = held_content e base.
Proof. unfold hold_ack. destruct (JMap.get _ _); [destruct (status_in _ _)|]; done. Qed.

(** One more change on the entry is one more change on the row. *)
Lemma write_one_more c e :
  held_ok foreign c0 ref b0 edited0 e -> change_ok foreign c0 c ->
  same_row (write_held foreign (hold c e) base) (stored foreign c (write_held foreign e base)).
Proof.
  intros He Hc. assert (held_ok foreign c0 ref b0 edited0 (hold c e)) as He' by by apply hold_ok.
  rewrite (write_held_split e He), (write_held_split _ He').
  assert (forall s x y, same_row x y -> same_row (with_status s x) (with_status s y)) as Hws by by intros; apply same_row_update.
  destruct c as [t|t|s x| |chat st]; simpl.
  - change (revoked (with_status _ ?y)) with (revoked y). change (differs t (with_status _ ?y)) with (differs t y).
    destruct (e_revoked e) eqn:Hr.
    + assert (revoked (held_content e base) = true) as -> by (unfold held_content; by rewrite Hr). reflexivity.
    + rewrite (held_content_revoked e base Hr). case_eq (revoked base); intros Hb.
      * apply same_row_eq. unfold held_content. simpl. by rewrite Hr, Hb.
      * rewrite (Hws _ _ _ (edit_one_more foreign c0 ref b0 edited0 base base_body t e He Hr Hb)). by destruct (differs t (held_content e base)).
  - change (revoked (with_status _ ?y)) with (revoked y). change (differs t (with_status _ ?y)) with (differs t y).
    destruct (e_revoked e) eqn:Hr.
    + assert (revoked (held_content e base) = true) as -> by (unfold held_content; by rewrite Hr). apply same_row_eq.
      unfold held_content. simpl. by rewrite Hr.
    + rewrite (held_content_revoked e base Hr). case_eq (revoked base); intros Hb.
      * apply same_row_eq. unfold held_content. simpl. by rewrite Hr, Hb.
      * rewrite (Hws _ _ _ (outbound_one_more foreign c0 ref b0 edited0 base base_body t e He Hr Hb)). by destruct (differs t (held_content e base)).
  - change (revoked (with_status _ ?y)) with (revoked y). destruct (e_revoked e) eqn:Hr.
    + assert (revoked (held_content e base) = true) as -> by (unfold held_content; by rewrite Hr). apply same_row_eq.
      unfold held_content. simpl. by rewrite Hr.
    + rewrite (held_content_revoked e base Hr). case_eq (revoked base); intros Hb.
      * apply same_row_eq. unfold held_content. simpl. by rewrite Hr, Hb.
      * rewrite (Hws _ _ _ (reaction_one_more foreign c0 ref b0 edited0 base s x e He Hr Hb)). done.
  - apply same_row_eq. change (REVOKED_ROW_PATCH (with_status (held_status e) (held_content e base))) with
      (with_status (held_status e) (REVOKED_ROW_PATCH (held_content e base))). by rewrite revoke_content.
  - destruct (deliveryStatusToMessageStatus st) as [d|] eqn:Hst; [|reflexivity]. fold (refused foreign chat).
    destruct (ack_foreign_now e chat) eqn:Hf.
    + assert (refused foreign chat = true) as ->; [|done]. revert Hf. unfold ack_foreign_now, refused.
      destruct (e_ref e) as [r|] eqn:Hrf; [|done]. rewrite (ho_ref _ _ _ _ _ _ He _ Hrf). intros [-> H]%andb_true_iff. by apply agrees.
    + rewrite hold_ack_content. destruct Hc as [Hc|Hc]; [congruence|]. destruct (refused foreign chat) eqn:Hr.
      * by rewrite held_status_other.
      * destruct Hc as [->|Hc]; [|congruence]. rewrite held_status_ack by (done || by eapply advancing_status).
        apply same_row_eq. unfold ack_row. simpl. by destruct (status_in (held_status e) _).
Qed.

Lemma write_all_more cs e :
  held_ok foreign c0 ref b0 edited0 e -> Forall (change_ok foreign c0) cs ->
  same_row (write_held foreign (hold_all cs e) base) (stored_all foreign cs (write_held foreign e base)).
Proof.
  revert e. induction cs as [|c cs IH]; intros e He Hcs; [reflexivity|]. apply Forall_cons in Hcs as [Hc Hcs].
  unfold hold_all, stored_all in *. simpl. rewrite IH; [|by apply hold_ok|done].
  pose proof (write_one_more c e He Hc) as H. revert H.
  generalize (write_held foreign (hold c e) base), (stored foreign c (write_held foreign e base)). clear.
  induction cs as [|c cs IH]; intros x y H; simpl; [done|]. apply IH. by apply stored_proper.
Qed.
End refinement.

(** ** The moment a change arrives does not matter *)

(** What an entry knows is not forgotten. *)
Record later (e e' : InFlightEntry) : Prop := mkLater {
  la_revoked : e_revoked e = true -> e_revoked e' = true;
  la_edit : e_editedBody e' = None -> e_editedBody e = None;
  la_edited : e_edited e = true -> e_edited e' = true
}.
#[export] Instance later_preorder : PreOrder later.
Proof. split; [by split|]. intros a b c [H1 H2 H3] [H4 H5 H6]. split; auto. Qed.

Lemma hold_later c e : later e (hold c e).
Proof.
  destruct c as [t|t|s x| |chat st]; simpl.
  - destruct (e_revoked e) eqn:Hr; [reflexivity|]. split; simpl; try done. intros ->. done.
  - by split.
  - by split.
  - by split.
  - destruct (deliveryStatusToMessageStatus st); [|reflexivity]. destruct (ack_foreign_now e chat); [reflexivity|].
    unfold hold_ack. destruct (JMap.get _ _); [destruct (status_in _ _)|]; by split.
Qed.

Lemma hold_all_later cs e : later e (hold_all cs e).
Proof. revert e. induction cs as [|c cs IH]; intros e; [reflexivity|]. transitivity (hold c e); [apply hold_later|apply IH]. Qed.

(** Changes held before the engine hands the message over weigh as if after. *)
Lemma arrive_hold body edited c e : e_body e = None -> arrive body edited (hold c e) = hold c (arrive body edited e).
Proof.
  intros Hb. destruct e as [ref rev ann eb bd ed acks rs]; simpl in Hb; subst bd. destruct c as [t|t|s x| |chat st]; simpl.
  - destruct rev; [done|]. unfold arrive, holdEdit; simpl. unfold entry_with_edit; simpl. f_equal.
    destruct eb as [b|]; simpl; [|by destruct ed, edited, (String.eqb t body)].
    destruct (String.eqb_spec t b) as [->|Hn]; [by destruct ed, edited, (String.eqb b body)|].
    by destruct ed, edited, (String.eqb t body), (String.eqb b body).
  - done.
  - done.
  - done.
  - destruct (deliveryStatusToMessageStatus st); [|done]. unfold ack_foreign_now; simpl. destruct ref as [ref|]; simpl;
      [destruct (_ && _); [done|]|]; unfold hold_ack; simpl; destruct (JMap.get chat acks); try destruct (status_in _ _); done.
Qed.

Lemma hold_unarrived c e : e_body e = None -> e_body (hold c e) = None.
Proof.
  intros Hb. destruct c as [t|t|s x| |chat st]; simpl; try done.
  - by destruct (e_revoked e).
  - destruct (deliveryStatusToMessageStatus st); [|done]. destruct (ack_foreign_now e chat); [done|].
    unfold hold_ack. destruct (JMap.get _ _); [destruct (status_in _ _)|]; done.
Qed.

Lemma arrive_hold_all body edited cs e : e_body e = None -> arrive body edited (hold_all cs e) = hold_all cs (arrive body edited e).
Proof.
  revert e. induction cs as [|c cs IH]; intros e Hb; [done|]. unfold hold_all in *. simpl.
  rewrite IH by by apply hold_unarrived. by rewrite arrive_hold.
Qed.

Lemma hold_all_app a b e : hold_all (a ++ b) e = hold_all b (hold_all a e).
Proof. apply fold_left_app. Qed.

(** ** The two paths agree *)

Lemma unresolved_difference a b r : differentWhenPaired a b None = true -> differentWhenPaired a b (Some r) = true.
Proof.
  unfold differentWhenPaired, provablyDifferent. destruct (truthy a) as [x|]; [|done]. destruct (truthy b) as [y|]; simpl;
    [|by destruct (entityOf x) as [[]|]].
  destruct (entityOf x) as [[ka ia]|] eqn:Hx, (entityOf y) as [[kb ib]|] eqn:Hy; try done.
  simpl. destruct (bool_decide (ka = kb)) eqn:Hk; simpl; [done|]. destruct (isPerson ka), (isPerson kb); simpl; try done.
Qed.

(** What a receipt proves without the directory it proves with it, for a message
    not filed under a list. *)
Lemma unresolved_receipt ref chat r :
  (forall i, entityOf (row_chatId ref) <> Some (KBroadcast, i)) ->
  receiptTargetsForeignRow ref chat None = true -> receiptTargetsForeignRow ref chat (Some r) = true.
Proof.
  intros Hl. unfold receiptTargetsForeignRow. assert (forall d, receivedThroughList ref chat d = false) as Hn.
  { intros d. unfold receivedThroughList. destruct (entityOf (row_chatId ref)) as [[k i]|] eqn:He.
    - rewrite (bool_decide_eq_false_2 (k = KBroadcast)); [by rewrite andb_false_r|]. intros ->. by apply (Hl i).
    - by rewrite andb_false_r. }
  rewrite !Hn. destruct (isOwnBroadcast ref || false); [done|]. apply unresolved_difference.
Qed.

(** The text the message arrived with; the row without any change. *)
Definition arrival_text (m : IncomingMessage) : string := default (i_body m) (i_originalBody m).
Definition edited_by_engine (m : IncomingMessage) : bool := match i_originalBody m with Some _ => true | None => false end.
Definition row_alone (sid : string) (m : IncomingMessage) : Row :=
  let r := row_of_incoming sid (message_data m) in
  if revoked r then REVOKED_ROW_PATCH r else if edited_by_engine m then mark_row r else r.

(** The entry when the hook chain starts: the message arrived with its text, and
    one delivered deleted is taken back at once. *)
Definition entry_at_hooks (m : IncomingMessage) (e : InFlightEntry) : InFlightEntry :=
  let e := arrive (arrival_text m) (edited_by_engine m) e in
  if delivered_deleted m then held_revoked e else e.

(** A message on its way: changes come before the engine hands it over, while its
    hooks run, and during its insert. *)
Definition stored_in_flight (foreign : string -> bool) (sid : string) (m : IncomingMessage) (before hooks inserting : list Change) : Row :=
  let e := entry_at_hooks m (hold_all before (new_entry (Some (refOf m)))) in
  let built := row_of_incoming sid (prepare e (message_data m)) in
  let e := hold_all hooks e in
  write_held foreign (hold_all inserting e) (fst (applyHeldChanges built e)).

Lemma revoke_held r e : REVOKED_ROW_PATCH (fst (applyHeldChanges r e)) = REVOKED_ROW_PATCH r.
Proof.
  unfold applyHeldChanges. destruct (revoked r); [reflexivity|]. destruct (e_revoked e); [reflexivity|]. cbn [fst].
  destruct (e_editedBody e), (e_edited e); reflexivity.
Qed.

Lemma held_sent r e : m_status (fst (applyHeldChanges r e)) = m_status r.
Proof.
  unfold applyHeldChanges. destruct (revoked r); [reflexivity|]. destruct (e_revoked e); [reflexivity|]. cbn [fst].
  destruct (e_editedBody e), (e_edited e); reflexivity.
Qed.

Section paths.
Context (sid : string) (m : IncomingMessage).
Let base := row_alone sid m.
Let plain := row_of_incoming sid (message_data m).

Lemma deleted_plain : revoked plain = delivered_deleted m.
Proof. subst plain. unfold message_data, delivered_deleted. by destruct (String.eqb (i_type m) "revoked") eqn:H. Qed.

Lemma row_alone_revoked : revoked base = delivered_deleted m.
Proof. subst base. unfold row_alone. fold plain. rewrite deleted_plain. destruct (delivered_deleted m) eqn:H; [done|]. destruct (edited_by_engine m); [change (revoked plain = false)|]; by rewrite deleted_plain. Qed.

Lemma row_alone_body : revoked base = false -> exists bm, m_body base = Some bm /\ (edited_by_engine m = false -> bm = arrival_text m).
Proof.
  rewrite row_alone_revoked. subst base. unfold row_alone. fold plain. rewrite deleted_plain. intros H. rewrite H.
  exists (i_body m). split.
  - subst plain. unfold message_data. rewrite H. by destruct (edited_by_engine m).
  - unfold edited_by_engine, arrival_text. by destruct (i_originalBody m).
Qed.

Lemma row_alone_sent : m_status base = SENT.
Proof. subst base. unfold row_alone. fold plain. destruct (revoked plain); [done|]. by destruct (edited_by_engine m). Qed.

Lemma arrived_ok foreign c0 : held_ok foreign c0 (refOf m) (arrival_text m) (edited_by_engine m) (entry_at_hooks m (new_entry (Some (refOf m)))).
Proof.
  unfold entry_at_hooks, new_entry, arrive. simpl. rewrite orb_false_r.
  destruct (delivered_deleted m); split; simpl; try done; try (by intros r [= <-]); apply NoDup_nil_2.
Qed.

Lemma arrived_alone foreign : same_row (write_held foreign (entry_at_hooks m (new_entry (Some (refOf m)))) base) base.
Proof.
  rewrite write_held_is. unfold entry_at_hooks, new_entry, arrive, held_content. simpl. rewrite orb_false_r.
  destruct (delivered_deleted m) eqn:Hd; simpl.
  - apply same_row_eq. subst base. unfold row_alone. fold plain. by rewrite deleted_plain, Hd.
  - rewrite row_alone_revoked, Hd. unfold with_held_mark, with_held_reactions, with_held_body. simpl.
    subst base. unfold row_alone. fold plain. rewrite deleted_plain, Hd. destruct (edited_by_engine m); [|reflexivity]. apply mark_row_idem.
Qed.

(** The row inserted with what was held already, and the row without the changes,
    end alike once all that is held is written. *)
Lemma revoke_inserted e1 e2 : REVOKED_ROW_PATCH (fst (applyHeldChanges (row_of_incoming sid (prepare e1 (message_data m))) e2)) = REVOKED_ROW_PATCH base.
Proof.
  subst base. unfold row_alone. fold plain. transitivity (REVOKED_ROW_PATCH plain).
  - rewrite revoke_held. subst plain. unfold prepare. destruct (e_revoked e1); [reflexivity|]. destruct (e_editedBody e1); reflexivity.
  - destruct (revoked plain); [done|]. by destruct (edited_by_engine m).
Qed.

Lemma mark_absorbs e r : same_row (mark_row (with_held_reactions e (mark_row r))) (mark_row (with_held_reactions e r)).
Proof.
  unfold with_held_reactions. destruct (e_reactions e) as [l|]; [|apply mark_row_idem]. split; [done|]. simpl.
  transitivity (with_edited (with_edited (with_reactions l (default [] (m_metadata r))))); [|apply with_edited_idem].
  apply with_edited_proper. apply (with_edited_set_reactions (fun x => fold_left (fun l e => react (fst e) (snd e) l) l x)).
Qed.

Lemma inserted_content e1 e2 e3 :
  later e1 e2 -> later e2 e3 -> (edited_by_engine m = true -> e_edited e1 = true) -> (delivered_deleted m = true -> e_revoked e1 = true) ->
  same_row (held_content e3 (fst (applyHeldChanges (row_of_incoming sid (prepare e1 (message_data m))) e2))) (held_content e3 base).
Proof.
  intros L1 L2 He Hd. destruct (e_revoked e3) eqn:H3.
  { unfold held_content. rewrite H3, revoke_inserted. reflexivity. }
  assert (e_revoked e2 = false) as H2 by (destruct (e_revoked e2) eqn:E; [by rewrite (la_revoked _ _ L2 E) in H3|done]).
  assert (e_revoked e1 = false) as H1 by (destruct (e_revoked e1) eqn:E; [by rewrite (la_revoked _ _ L1 E) in H2|done]).
  assert (delivered_deleted m = false) as Hm by (destruct (delivered_deleted m); [by rewrite Hd in H1|done]).
  assert (row_of_incoming sid (prepare e1 (message_data m)) = with_held_body e1 plain) as ->.
  { subst plain. unfold prepare, with_held_body. rewrite H1. by destruct (e_editedBody e1). }
  assert (revoked plain = false) as Hp by by rewrite deleted_plain.
  assert (base = if edited_by_engine m then mark_row plain else plain) as -> by (subst base; unfold row_alone; fold plain; by rewrite Hp).
  unfold applyHeldChanges. rewrite held_body_revoked, Hp, H2. simpl. fold (with_held_body e2 (with_held_body e1 plain)).
  assert (with_held_body e3 (with_held_body e2 (with_held_body e1 plain)) = with_held_body e3 plain) as Hb.
  { unfold with_held_body. destruct (e_editedBody e3) eqn:E3; [by destruct (e_editedBody e2), (e_editedBody e1)|].
    rewrite (la_edit _ _ L2 E3), (la_edit _ _ L1 (la_edit _ _ L2 E3)). done. }
  assert (forall r, with_held_body e3 (mark_row r) = mark_row (with_held_body e3 r)) as Hc by (intros r; unfold with_held_body; by destruct (e_editedBody e3)).
  assert (forall b : bool, revoked (if b then mark_row plain else plain) = false) as Hrb by by intros [].
  unfold held_content. rewrite H3, Hrb.
  assert (revoked (if e_edited e2 then mark_row (with_held_body e2 (with_held_body e1 plain)) else with_held_body e2 (with_held_body e1 plain)) = false) as ->
    by (destruct (e_edited e2); change (revoked (mark_row ?y)) with (revoked y); by rewrite !held_body_revoked).
  unfold with_held_mark. destruct (e_edited e3) eqn:E3.
  - transitivity (mark_row (with_held_reactions e3 (with_held_body e3 plain))).
    + destruct (e_edited e2); rewrite ?Hc, Hb; [apply mark_absorbs|reflexivity].
    + symmetry. destruct (edited_by_engine m); rewrite ?Hc; [apply mark_absorbs|reflexivity].
  - assert (e_edited e2 = false) as E2 by (destruct (e_edited e2) eqn:E; [by rewrite (la_edited _ _ L2 E) in E3|done]).
    assert (e_edited e1 = false) as E1 by (destruct (e_edited e1) eqn:E; [by rewrite (la_edited _ _ L1 E) in E2|done]).
    rewrite E2, Hb. destruct (edited_by_engine m); [by rewrite He in E1|]. reflexivity.
Qed.

End paths.

Lemma hold_all_ok foreign c0 ref b0 edited0 cs e :
  held_ok foreign c0 ref b0 edited0 e -> Forall (change_ok foreign c0) cs -> held_ok foreign c0 ref b0 edited0 (hold_all cs e).
Proof.
  revert e. induction cs as [|c cs IH]; intros e He Hc; [done|]. apply Forall_cons in Hc as [H1 H2]. apply IH; [by apply hold_ok|done].
Qed.

Lemma hold_all_unarrived cs e : e_body e = None -> e_body (hold_all cs e) = None.
Proof. revert e. induction cs as [|c cs IH]; intros e H; [done|]. by apply IH, hold_unarrived. Qed.

Lemma stored_all_proper foreign cs a b : same_row a b -> same_row (stored_all foreign cs a) (stored_all foreign cs b).
Proof. revert a b. induction cs as [|c cs IH]; intros a b H; [done|]. apply IH. by apply stored_proper. Qed.

(** The state held acks leave a row inserted as sent. *)
Definition acked_state (foreign : string -> bool) (e : InFlightEntry) : MessageStatus :=
  match furthestParkedAck foreign (e_acks e) with
  | Some st => if status_in SENT (ackStatusTransitionFrom st) then st else SENT
  | None => SENT
  end.

Lemma write_held_sent foreign e r : m_status r = SENT -> write_held foreign e r = with_status (acked_state foreign e) (held_content e r).
Proof.
  intros Hs. rewrite write_held_is, <- held_content_status. unfold acked_state. f_equal.
  assert (with_status SENT r = r) as Hr by (destruct r; simpl in *; by subst).
  destruct (furthestParkedAck foreign (e_acks e)) as [st|]; [|done]. unfold ack_row. rewrite Hs. by destruct (status_in SENT _).
Qed.

Lemma hold_acks_alike c e e' :
  e_acks e = e_acks e' -> e_ref e = e_ref e' -> e_acks (hold c e) = e_acks (hold c e') /\ e_ref (hold c e) = e_ref (hold c e').
Proof.
  intros Ha Hr. destruct c as [t|t|s x| |chat st]; simpl; try done.
  - by destruct (e_revoked e), (e_revoked e').
  - destruct (deliveryStatusToMessageStatus st); [|done].
    assert (ack_foreign_now e chat = ack_foreign_now e' chat) as -> by (unfold ack_foreign_now; by rewrite Hr).
    destruct (ack_foreign_now e' chat); [done|]. unfold hold_ack. rewrite Ha.
    destruct (JMap.get chat (e_acks e')); [destruct (status_in _ _)|]; done.
Qed.

Lemma hold_all_acks_alike cs e e' :
  e_acks e = e_acks e' -> e_ref e = e_ref e' -> e_acks (hold_all cs e) = e_acks (hold_all cs e') /\ e_ref (hold_all cs e) = e_ref (hold_all cs e').
Proof.
  revert e e'. induction cs as [|c cs IH]; intros e e' Ha Hr; [done|]. destruct (hold_acks_alike c e e' Ha Hr). by apply IH.
Qed.

Lemma entry_at_hooks_revoked m e : delivered_deleted m = true -> e_revoked (entry_at_hooks m e) = true.
Proof. unfold entry_at_hooks. by intros ->. Qed.

(** What is held before the hooks weighs as what is held after. *)
Lemma held_before_hooks foreign sid m before cs :
  let e0 := new_entry (Some (refOf m)) in
  write_held foreign (hold_all cs (entry_at_hooks m (hold_all before e0))) (row_alone sid m) =
    write_held foreign (hold_all (before ++ cs) (entry_at_hooks m e0)) (row_alone sid m).
Proof.
  intros e0. rewrite hold_all_app. destruct (delivered_deleted m) eqn:Hd.
  - assert (forall e, e_revoked (hold_all cs (entry_at_hooks m e)) = true) as H1.
    { intros e. apply (la_revoked _ _ (hold_all_later cs _)). by apply entry_at_hooks_revoked. }
    assert (e_revoked (hold_all cs (hold_all before (entry_at_hooks m e0))) = true) as H2.
    { apply (la_revoked _ _ (hold_all_later cs _)), (la_revoked _ _ (hold_all_later before _)). by apply entry_at_hooks_revoked. }
    rewrite !write_held_sent by apply row_alone_sent. unfold held_content. rewrite H1, H2. unfold acked_state.
    assert (forall e, e_acks (entry_at_hooks m e) = e_acks e /\ e_ref (entry_at_hooks m e) = e_ref e) as Ha.
    { intros e. unfold entry_at_hooks. by destruct (delivered_deleted m). }
    destruct (Ha (hold_all before e0)) as [A1 R1]. destruct (Ha e0) as [A2 R2].
    destruct (hold_all_acks_alike before (entry_at_hooks m e0) e0 A2 R2) as [A3 R3].
    destruct (hold_all_acks_alike cs (entry_at_hooks m (hold_all before e0)) (hold_all before (entry_at_hooks m e0))) as [A4 _].
    { by rewrite A1, A3. } { by rewrite R1, R3. }
    by rewrite A4.
  - unfold entry_at_hooks. rewrite Hd. by rewrite arrive_hold_all.
Qed.


(** A text edited and reacted to on its way, acknowledged during its insert. *)
Definition sample_message : IncomingMessage :=
  mkIncoming "M1" "15550001@c.us" "15550002@c.us" "15550001@c.us" "hello" "text" (Some 100) false None false None (Some "Ann") None
    None None None None [] [] None.


(** A read receipt held behind a failure the same chat reported is lost, though a
    delivery under another form of the chat came first: the stored row would have
    advanced to read. *)
Lemma parked_read_behind_a_failure :
  let foreign := fun _ => false in
  let cs := [Acked "A@lid" AckDelivered; Acked "1@c.us" AckFailed; Acked "1@c.us" AckRead] in
  m_status (stored_all foreign cs (row_alone "s" sample_message)) = READ /\
  m_status (stored_in_flight foreign "s" sample_message cs [] []) = DELIVERED.
Proof. split; vm_compute; reflexivity. Qed.
