(* ===== verification/MessageWriters.v ===== *)
(** * The writers of stored messages

    The programs through which engine events reach the table of messages:
    [src/src/modules/session/message-mutation-projector.ts] (edits and reactions),
    [src/src/modules/session/message-projector.service.ts] (acks, revokes, inserts of
    inbound messages and of own sends' echoes, the changes held for them),
    [message-history-projector.ts] (the history of before the connection) and
    [src/src/modules/message/message-metadata.ts].  A session's programs interleave
    at every statement; the queue that keeps the changes of one message apart is
    not assumed.  What is read from memory shared with other code (whether the
    engine is live, the entry held for a message, the lid directory) is an effect
    that answers anything. *)
From S2P Require Import Prelude JsString Json Prog MutationGuard MessageTable InFlight.
Local Open Scope string_scope.
Local Open Scope Z_scope.
Local Open Scope prog_scope.

(** [try { ... } catch { ... }] around one statement or program. *)
Definition attempt {A : Type} (m : task (result DbError A)) (ok : A -> task unit) : task unit :=
  let! r := m in match r with Ok a => ok a | Err _ => Ret tt end.
Definition skip : task unit := Ret tt.

(** ** Metadata *)

(** Up to three attempts to change the metadata read, each kept only if the row
    still holds what was read. *)
Fixpoint metadata_attempts (n : nat) (target : Where) (change : fields -> fields) : task (result DbError (option fields)) :=
  match n with
  | O => Ret (Err (Fault false))
  | S n =>
      let! r := act (Find target) in
      match r with
      | Err f => Ret (Err f)
      | Ok None => Ret (Ok None)
      | Ok (Some (_, row)) =>
          let snapshot := m_metadata row in
          let metadata := change (default [] snapshot) in
          let! u := act (Update (target &&& has_snapshot snapshot) (with_metadata (Some metadata))) in
          match u with
          | Err f => Ret (Err f)
          | Ok O => metadata_attempts n target change
          | Ok _ => Ret (Ok (Some metadata))
          end
      end
  end.
Definition updateMessageMetadata (w : Where) (change : fields -> fields) : task (result DbError (option fields)) :=
  metadata_attempts 3 (w &&& not_revoked) change.

Section session.
(** The session, and the configuration the projector reads. *)
Context (sid : string) (storeEphemeralMessages archiveOutbound : bool) (retentionCutoff : option Z).

Definition message (wa : string) : Where := by_message sid wa.

(** ** Whose row is it *)

Definition storedRowVerdict (wa : string) (source : MutationSource) : task (bool * option Foreign) :=
  if String.eqb wa "" then Ret (false, None)
  else
    let! r := act (Find (message wa)) in
    match r with
    | Ok (Some (_, row)) =>
        let! directory := act Directory in
        Ret (true, mutationTargetsForeignRowPersisted (ref_of_row row) source directory)
    | Ok None | Err _ => Ret (false, None)
    end.

Definition foreignRowReason (wa : string) (source : MutationSource) : task (option Foreign) :=
  let! v := storedRowVerdict wa source in Ret (snd v).

Definition foreign_for (wa : string) (source : option MutationSource) : task (option Foreign) :=
  match source with Some s => foreignRowReason wa s | None => Ret None end.

(** ** Edits and reactions *)

Definition markMessageEdited (wa : string) : task (result DbError unit) :=
  let! r := updateMessageMetadata (message wa) with_edited in
  match r with
  | Err f => Ret (Err f)
  | Ok (Some _) => let! _ := act (NoteMarked wa true) in Ret (Ok tt)
  | Ok None => Ret (Ok tt)
  end.

Definition announceChangedRow (wa : string) : task unit :=
  attempt (act (Find (message wa)))
    (fun r => match r with Some (i, row) => act (Announce (PersistedHook (Some i) row)) | None => skip end).

(** The text of an edit reaches a row that is not deleted and says something else. *)
Definition edit_statement (wa body : string) : eff (result DbError nat) :=
  Update (message wa &&& not_revoked &&& body_differs body) (with_body (Some body)).

Definition applyMessageEdit (wa body : string) (source : MutationSource) (needsRow : bool) : task unit :=
  let! v := storedRowVerdict wa source in
  if (needsRow && negb (fst v)) || match snd v with Some _ => true | None => false end then skip
  else
    let! revoked :=
      (let! r := act (edit_statement wa body) in
       match r with
       | Err _ => Ret false
       | Ok O =>
           let! r := act (Find (message wa &&& of_type "revoked")) in
           Ret (match r with Ok (Some _) => true | Ok None | Err _ => false end)
       | Ok (S _) =>
           let! r := markMessageEdited wa in
           match r with
           | Ok _ => let! _ := announceChangedRow wa in Ret false
           | Err _ => Ret false
           end
       end) in
    if (revoked : bool) then skip else act (Announce (MessageEdited wa body)).

Definition applyReaction (wa chat sender reaction : string) (needsRow : bool) : task unit :=
  if String.eqb wa "" then skip
  else
    let! v := storedRowVerdict wa (mkSource Reaction chat None None None) in
    if (needsRow && negb (fst v)) || match snd v with Some _ => true | None => false end then skip
    else
      let! r := updateMessageMetadata (message wa) (with_reaction sender reaction) in
      let snapshot := match r with Ok (Some m) => JMap.get "reactions" m | Ok None | Err _ => None end in
      act (Announce (MessageReaction wa sender reaction snapshot)).

(** The row of an edit this account made through the API. *)
Definition recordOutboundMessageEdit (wa body : string) (source : option MutationSource) : task unit :=
  let! reason := foreign_for wa source in
  match reason with
  | Some _ => skip
  | None =>
      attempt (act (edit_statement wa body)) (fun n =>
      attempt (markMessageEdited wa) (fun _ =>
      match n with O => skip | S _ => announceChangedRow wa end))
  end.

(** ** Deletions *)

Definition revokeRow (wa : string) (notify : bool) (source : option MutationSource) : task unit :=
  if String.eqb wa "" then skip
  else
    let! reason := foreign_for wa source in
    match reason with
    | Some _ => skip
    | None =>
        attempt (act (Update (message wa) REVOKED_ROW_PATCH)) (fun n =>
        let! _ := act (NoteMarked wa false) in
        match n with
        | O => skip
        | S _ => if notify then announceChangedRow wa else skip
        end)
    end.

(** [changeInFlight]: whether the entry held for a message refuses a change, which
    then needs a stored row to vouch for it.  The directory is asked only about a
    change the ids alone refuse. *)
Definition entry_refuses (e : InFlightEntry) (src : MutationSource) (directory : option (string -> option string)) : bool :=
  match e_ref e with
  | None => false
  | Some ref =>
      if String.eqb (src_chatId src) "" then false
      else match mutationTargetsForeignRow ref src None with
           | None => false
           | Some _ => match mutationTargetsForeignRowPersisted ref src directory with Some _ => true | None => false end
           end
  end.

(** The engine's revoke event.  [source] is absent when the engine vouches for it. *)
Definition handleMessageRevoked (wa : string) (source : option MutationSource) : task unit :=
  let! live := act Live in
  if negb (live : bool) then skip
  else
    let hold := act (HoldOn wa (fun e => revoke_announced (held_revoked e))) in
    let apply := fun needsRow : bool =>
      (let! _ := (if needsRow then skip else hold) in
       let! _ := act (Enqueue (RecordRevoke wa source)) in act (Announce (MessageRevoked wa))) in
    match source with
    | None => apply false
    | Some src =>
        let! directory := act Directory in
        let! entry := act (Entry wa) in
        let needsRow := match entry with Some e => entry_refuses e src directory | None => false end in
        let! _ := (if needsRow then skip else hold) in
        let! v := storedRowVerdict wa src in
        let! live := act Live in
        if negb (live : bool) then skip
        else if match snd v with Some _ => true | None => false end || (needsRow && negb (fst v)) then skip else apply needsRow
    end.

(** ** Delivery state *)

Definition ACK_RECONCILE_DELAY_MS : Z := 750.

Definition advanceAck (wa : string) (st : MessageStatus) : task (result DbError nat) :=
  act (Update (message wa &&& status_among (ackStatusTransitionFrom st)) (with_status st)).

(** An update that matched no row is tried once more. *)
Definition advance (first retry : task (result DbError nat)) : task unit :=
  attempt first (fun n => match n with
    | O => let! _ := act (Wait ACK_RECONCILE_DELAY_MS) in attempt retry (fun _ => skip)
    | S _ => skip
    end).

Inductive ReceiptVerdict := Absent | Stored | ForeignReceipt.

Definition receiptVerdict (wa chat : string) (inFlight : option InFlightEntry) : task ReceiptVerdict :=
  let! r := act (Find (message wa)) in
  match r with
  | Err _ => Ret Absent
  | Ok row =>
      let! held := act (Entry wa) in
      let ref := match row with
                 | Some (_, x) => Some (ref_of_row x)
                 | None => match held with Some e => e_ref e | None => inFlight ≫= e_ref end
                 end in
      match ref with
      | None => Ret Absent
      | Some ref =>
          let! directory := act Directory in
          Ret (if receiptTargetsForeignRowPersisted ref chat directory then ForeignReceipt
               else match row with Some _ => Stored | None => Absent end)
      end
  end.

Definition announce_ack (wa : string) (status : DeliveryStatus) (chat : option string) : task unit :=
  let! _ := act (Announce (MessageAck wa status (deliveryStatusToAck status) chat)) in
  match status with AckFailed => act (Announce (MessageFailed wa)) | _ => skip end.

Definition handleMessageAck (wa : string) (status : DeliveryStatus) (chatId : option string) : task unit :=
  let! live := act Live in
  if negb (live : bool) then skip
  else
    let target := deliveryStatusToMessageStatus status in
    let! inFlight := act (Entry wa) in
    let receiptChat := match truthy chatId with Some c => if has_char "@" wa then None else Some c | None => None end in
    let refused := match receiptChat, inFlight with
                   | Some c, Some e => match e_ref e with Some ref => receiptTargetsForeignRow ref c None | None => false end
                   | _, _ => false
                   end in
    if refused then skip
    else
      let! _ := (match target, inFlight with
                 | Some st, Some _ => act (HoldOn wa (hold_ack (default "" receiptChat) st))
                 | _, _ => skip
                 end) in
      match receiptChat with
      | None =>
          let! _ := announce_ack wa status chatId in
          match target with Some st => advance (advanceAck wa st) (advanceAck wa st) | None => skip end
      | Some chat =>
          let! v := receiptVerdict wa chat inFlight in
          let! live := act Live in
          match v, live : bool with
          | ForeignReceipt, _ | _, false => skip
          | _, true =>
              let! _ := announce_ack wa status chatId in
              match target with
              | None => skip
              | Some st =>
                  let judged := (let! v := receiptVerdict wa chat inFlight in
                                 match v with Stored => advanceAck wa st | Absent | ForeignReceipt => Ret (Ok O) end) in
                  advance (match v with Stored => advanceAck wa st | Absent | ForeignReceipt => Ret (Ok O) end) judged
              end
          end
      end.

(** ** Changes held while a message had no row *)

Definition advanceHeld (wa : string) (e : InFlightEntry) : task unit :=
  let! directory := act Directory in
  let foreign := fun chat => match e_ref e with Some ref => receiptTargetsForeignRowPersisted ref chat directory | None => false end in
  match furthestParkedAck foreign (e_acks e) with
  | Some st => attempt (advanceAck wa st) (fun _ => skip)
  | None => skip
  end.

Definition storeReactions (wa : string) (changes : list (string * string)) : task (result DbError unit) :=
  let! r := updateMessageMetadata (message wa) (with_reactions changes) in
  Ret (match r with Ok _ => Ok tt | Err f => Err f end).

Definition writeChangesMadeInFlight (wa : string) (e : InFlightEntry) (insertedCleared : bool) : task unit :=
  if e_revoked e then revokeRow wa (negb insertedCleared) None
  else
    attempt (match e_editedBody e with Some b => act (edit_statement wa b) | None => Ret (Ok O) end) (fun n =>
    attempt (match e_reactions e with Some l => storeReactions wa l | None => Ret (Ok tt) end) (fun _ =>
    attempt (if e_edited e then markMessageEdited wa else Ret (Ok tt)) (fun _ =>
    match n with O => skip | S _ => announceChangedRow wa end))).

Definition row_changes (e : InFlightEntry) : bool :=
  e_revoked e || e_edited e || match e_editedBody e with Some _ => true | None => false end || match e_reactions e with Some _ => true | None => false end.

Definition applyChangesMadeInFlight (wa : string) (e : InFlightEntry) (insertedCleared : bool) (lostInsert : option MutationSource) : task unit :=
  if match e_acks e with [] => negb (row_changes e) | _ => false end then skip
  else match lostInsert with
       | None =>
           let! _ := act (Enqueue (AdvanceHeld wa e)) in
           if row_changes e then act (Enqueue (WriteHeld wa e insertedCleared)) else skip
       | Some source => act (Enqueue (JudgeHeld wa e source))
       end.

(** The queued part for an insert that lost to another row. *)
Definition judgeHeld (wa : string) (e : InFlightEntry) (source : MutationSource) : task unit :=
  let! reason := foreignRowReason wa source in
  match reason with
  | Some _ => skip
  | None => let! _ := act (Enqueue (AdvanceHeld wa e)) in writeChangesMadeInFlight wa e false
  end.

(** ** Inserts *)

Definition PERSIST_RETRY_DELAY_MS : Z := 300.

Inductive InsertOutcome := Landed (id : string) | InsertFailed | Stale | Duplicate (retried : bool).

Definition insertWithRetry (row : Row) : task InsertOutcome :=
  let! r := act (Insert row) in
  match r with
  | Ok id => Ret (Landed id)
  | Err UniqueViolation => Ret (Duplicate false)
  | Err (Fault false) => Ret InsertFailed
  | Err (Fault true) =>
      let! _ := act (Wait PERSIST_RETRY_DELAY_MS) in
      let! live := act Live in
      if negb (live : bool) then Ret Stale
      else
        let! r := act (Insert row) in
        Ret (match r with Ok id => Landed id | Err UniqueViolation => Duplicate true | Err (Fault _) => InsertFailed end)
  end.

(** How a message was persisted, and whether its insert landed. *)
Inductive Persisted := Repeat | Dropped | Kept (row : Row) (id : option string).

Definition persistInboundMessage (m : IncomingMessage) : task Persisted :=
  let! live := act Live in
  if negb (live : bool) then Ret Dropped
  else
    let! e := act (EntryOf (i_id m)) in
    let '(row, insertedCleared) := applyHeldChanges (row_of_incoming sid m) e in
    let! outcome := insertWithRetry row in
    let! live := act Live in
    if negb (live : bool) then Ret Dropped
    else
      let! e := act (EntryOf (i_id m)) in
      match outcome with
      | Landed id =>
          let! _ := applyChangesMadeInFlight (i_id m) e insertedCleared None in Ret (Kept row (Some id))
      | Stale => Ret Dropped
      | InsertFailed => Ret (Kept row None)
      | Duplicate retried =>
          let! _ := (if retried then applyChangesMadeInFlight (i_id m) e false (Some (claimOf m)) else skip) in
          let! _ := (if delivered_deleted m then act (Enqueue (RecordRevoke (i_id m) (Some (claimOf m)))) else skip) in
          Ret (if retried then Kept row None else Repeat)
      end.

Definition dispatchInboundMessage (m : IncomingMessage) (row : Row) (id : option string) : task unit :=
  let! _ := (match id with
             | Some i => let! _ := act (Announce (PersistedHook (Some i) row)) in act (Enqueue (Archive i row))
             | None => skip
             end) in
  let! e := act (EntryOf (i_id m)) in
  match withChangesMadeInFlight m e false with
  | Some (announced, edited) => act (Announce (MessageReceived announced edited))
  | None => skip
  end.

(** Whether the engine is told that the message reuses another's id. *)
Definition judgeRepeat (m : IncomingMessage) : task bool :=
  let! reason := foreignRowReason (default "" (storableWaMessageId (i_id m))) (claimOf m) in
  Ret (match reason with Some _ => true | None => false end).

Definition commitInboundMessage (m : IncomingMessage) : task bool :=
  let! outcome := persistInboundMessage m in
  match outcome with
  | Repeat => judgeRepeat m
  | Dropped => Ret false
  | Kept row id => let! _ := dispatchInboundMessage m row id in Ret false
  end.

(** The placeholder of a forward gets what the echo carries. *)
Definition replaceForwardPlaceholder (echo : Row) (source : MutationSource) (e : InFlightEntry) : task unit :=
  match m_waMessageId echo with
  | None => skip
  | Some wa =>
      if revoked echo then skip
      else
        let body := match e_editedBody e with Some b => Some b | None => m_body echo end in
        attempt (act (Find (message wa &&& of_type "forward"))) (fun placeholder =>
        match placeholder with
        | None => skip
        | Some _ =>
            let! reason := foreignRowReason wa source in
            match reason with
            | Some _ => skip
            | None =>
                attempt (match m_metadata echo with
                         | Some metadata => updateMessageMetadata (message wa) (fun current => mergeSentMetadata current metadata)
                         | None => Ret (Ok None)
                         end) (fun _ =>
                attempt (act (Update (message wa &&& of_type "forward") (fun r => with_type (m_type echo) (with_body body r)))) (fun n =>
                match n with O => skip | S _ => announceChangedRow wa end))
            end
        end)
  end.

Definition commitOwnSendEcho (m : IncomingMessage) : task unit :=
  let! live := act Live in
  if negb (live : bool) then skip
  else
    let ephemeral := match i_ephemeralDuration m with Some d => 0 <? d | None => false end in
    let! kept :=
      (if storeEphemeralMessages || negb ephemeral then
         let! e := act (EntryOf (i_id m)) in
         let '(row, insertedCleared) := applyHeldChanges (row_of_echo sid m) e in
         let! outcome := insertWithRetry row in
         let! live := act Live in
         if negb (live : bool) then Ret None
         else
           let! e := act (EntryOf (i_id m)) in
           match outcome with
           | Stale => Ret None
           | InsertFailed => Ret (Some false)
           | Duplicate _ =>
               let! _ := applyChangesMadeInFlight (i_id m) e false (Some (claimOf m)) in
               let! _ := (if delivered_deleted m then act (Enqueue (RecordRevoke (i_id m) (Some (claimOf m)))) else skip) in
               let! _ := replaceForwardPlaceholder row (claimOf m) e in
               let! marked := act (MarkedEdited (i_id m)) in
               if (marked : bool) then
                 let! reason := foreignRowReason (i_id m) (claimOf m) in
                 Ret (Some (match reason with Some _ => false | None => true end))
               else Ret (Some false)
           | Landed id =>
               let! _ := act (NoteMarked (i_id m) false) in
               let! _ := applyChangesMadeInFlight (i_id m) e insertedCleared None in
               let! _ := act (Announce (PersistedHook (Some id) row)) in
               let! _ := (if archiveOutbound then act (Enqueue (Archive id row)) else skip) in
               Ret (Some false)
           end
       else Ret (Some false)) in
    match kept with
    | None => skip
    | Some rowMarked =>
        let! live := act Live in
        if negb (live : bool) then skip
        else
          let! e := act (EntryOf (i_id m)) in
          match withChangesMadeInFlight m e rowMarked with
          | Some (announced, edited) => act (Announce (MessageSent announced edited))
          | None => skip
          end
    end.

(** ** History of before the connection *)

(** The batch by id, a deletion kept over content. *)
Definition history_skips (m : IncomingMessage) : bool :=
  String.eqb (i_id m) "" || i_isStatusBroadcast m || String.eqb (i_chatId m) "" || String.eqb (i_from m) "" || String.eqb (i_to m) "" ||
  (negb storeEphemeralMessages && (0 <? default 0 (i_ephemeralDuration m))).
Definition history_add (byId : list (string * IncomingMessage)) (m : IncomingMessage) : list (string * IncomingMessage) :=
  if history_skips m then byId
  else match JMap.get (i_id m) byId with
       | Some x => if negb (delivered_deleted x) || delivered_deleted m then JMap.set (i_id m) m byId else byId
       | None => JMap.set (i_id m) m byId
       end.

(** Content older than the retention window is not written. *)
Definition retained (m : IncomingMessage) : bool :=
  delivered_deleted m ||
  match retentionCutoff, i_timestamp m with
  | Some cutoff, Some t => (t =? 0) || (cutoff <=? t * 1000)
  | _, _ => true
  end.

Definition row_of_history (m : IncomingMessage) : Row :=
  let r := mkRow sid (Some (i_id m)) (i_chatId m) None (if i_fromMe m then None else i_author m) (i_from m) (i_to m) (Some (i_body m))
             (i_type m) (direction_of (i_fromMe m)) (i_timestamp m) (buildMessageMetadata m true) None None SENT None in
  let r := if delivered_deleted m then REVOKED_ROW_PATCH r else r in
  match i_timestamp m with Some t => if t =? 0 then r else with_created (Some (t * 1000)) r | None => r end.

Definition history_claim (m : IncomingMessage) : MutationSource := mkSource Revoke (i_chatId m) (Some (i_fromMe m)) None None.

(** Clear the rows the batch reports deleted: those stored before it, unless they
    are another message, and those it just wrote. *)
Fixpoint clear_deleted (existing : list (string * Row)) (ms : list IncomingMessage) : task (result DbError unit) :=
  match ms with
  | [] => Ret (Ok tt)
  | m :: ms =>
      if negb (delivered_deleted m) then clear_deleted existing ms
      else
        let stored_row := List.find (fun e => bool_decide (m_waMessageId (snd e) = Some (i_id m))) existing in
        let storedChat := match stored_row with Some (_, r) => m_chatId r | None => i_chatId m end in
        let! directory := act Directory in
        let foreign := match stored_row with
                       | Some (_, r) => match mutationTargetsForeignRowPersisted (ref_of_row r) (history_claim m) directory with Some _ => true | None => false end
                       | None => false
                       end in
        if foreign then clear_deleted existing ms
        else
          let! live := act Live in
          if negb (live : bool) then Ret (Ok tt)
          else
            let! r := act (Update (message (i_id m) &&& in_chat storedChat &&& of_direction (direction_of (i_fromMe m))) REVOKED_ROW_PATCH) in
            match r with Err f => Ret (Err f) | Ok _ => clear_deleted existing ms end
  end.

(** The time a tombstone carries goes back to the original's. *)
Definition time_after (t : Z) : Where := fun _ r => match m_timestamp r with Some x => t <? x | None => true end.

Definition cleared_preview (m : IncomingMessage) (t : Z) : IncomingMessage :=
  mkIncoming (i_id m) (i_from m) (i_to m) (i_chatId m) "" "revoked" (Some t) (i_fromMe m) (i_author m) false None None None None None None None [] [] None.

Fixpoint settle_tombstones (byId : list (string * IncomingMessage)) (revoked_rows : list (string * Row)) : task (result DbError (list IncomingMessage)) :=
  match revoked_rows with
  | [] => Ret (Ok [])
  | (id, row) :: rest =>
      match m_waMessageId row ≫= fun wa => JMap.get wa byId with
      | None => settle_tombstones byId rest
      | Some m =>
          let! live := act Live in
          if negb (live : bool) then Ret (Ok [])
          else
            let direction := direction_of (i_fromMe m) in
            let! directory := act Directory in
            let foreign := match mutationTargetsForeignRowPersisted (ref_of_row row) (history_claim m) directory with Some _ => true | None => false end in
            match i_timestamp m with
            | None => settle_tombstones byId rest
            | Some t =>
                if foreign || negb (bool_decide (m_direction row = direction)) then settle_tombstones byId rest
                else
                  let! live := act Live in
                  if negb (live : bool) then Ret (Ok [])
                  else
                    let! moved :=
                      (if time_after t id row then
                         let! r := act (Update (message (i_id m) &&& in_chat (m_chatId row) &&& of_direction direction &&& of_type "revoked" &&& time_after t)
                                         (fun r => with_created (Some (t * 1000)) (with_time (Some t) r))) in
                         Ret (match r with Ok O => Ok false | Ok (S _) => Ok true | Err f => Err f end)
                       else Ret (Ok false)) in
                    match moved with
                    | Err f => Ret (Err f)
                    | Ok moved =>
                        let row := if (moved : bool) then with_created (Some (t * 1000)) (with_time (Some t) row) else row in
                        let! live := act Live in
                        if negb (live : bool) then Ret (Ok [])
                        else
                          let! _ := (if delivered_deleted m then act (Announce (PersistedHook (Some id) row)) else skip) in
                          let! r := settle_tombstones byId rest in
                          Ret (match r with Ok l => Ok (cleared_preview m (Z.min (default t (m_timestamp row)) t) :: l) | Err f => Err f end)
                    end
            end
      end
  end.

(** One chunk; the flag tells whether the engine is still live. *)
Definition history_chunk (byId : list (string * IncomingMessage)) (ids : list string) : task (result DbError (option (list IncomingMessage))) :=
  let ms := omap (fun i => JMap.get i byId) ids in
  let! r := act (FindAll (by_session sid &&& among_wa ids)) in
  match r with
  | Err f => Ret (Err f)
  | Ok existing =>
      let! live := act Live in
      if negb (live : bool) then Ret (Ok None)
      else
        let seen := fun m => existsb (fun e => bool_decide (m_waMessageId (snd e) = Some (i_id m))) existing in
        let new_rows := map row_of_history (List.filter (fun m => (negb (seen m) || delivered_deleted m) && retained m) ms) in
        let! w := (match new_rows with [] => Ret (Ok tt) | _ => act (InsertIgnore new_rows) end) in
        match w with
        | Err f => Ret (Err f)
        | Ok _ =>
            let! c := clear_deleted existing ms in
            match c with
            | Err f => Ret (Err f)
            | Ok _ =>
                if match new_rows with [] => existsb (fun e => revoked (snd e)) existing | _ => true end then
                  let! r := act (FindAll (by_session sid &&& among_wa ids &&& of_type "revoked")) in
                  match r with
                  | Err f => Ret (Err f)
                  | Ok l => let! s := settle_tombstones byId l in Ret (match s with Ok x => Ok (Some x) | Err f => Err f end)
                  end
                else Ret (Ok (Some []))
            end
        end
  end.

Definition CHUNK : nat := 400.

Fixpoint history_chunks (fuel : nat) (byId : list (string * IncomingMessage)) (ids : list string) : task (result DbError (list IncomingMessage)) :=
  match fuel, ids with
  | O, _ | _, [] => Ret (Ok [])
  | S fuel, _ =>
      let! r := history_chunk byId (take CHUNK ids) in
      match r with
      | Err f => Ret (Err f)
      | Ok None => Ret (Ok [])
      | Ok (Some l) =>
          let! rest := history_chunks fuel byId (drop CHUNK ids) in
          Ret (match rest with Ok l' => Ok (l ++ l')%list | Err f => Err f end)
      end
  end.

(** Each chunk takes an id at least, so the number of ids is fuel enough. *)
Definition persistHistoryMessages (messages : list IncomingMessage) : task (result DbError (list IncomingMessage)) :=
  let byId := fold_left history_add messages [] in
  history_chunks (length byId) byId (JMap.keys byId).
End session.
