(* ===== verification/MessageSends.v ===== *)
(** * Own sends and the upkeep of stored messages

    The other writers of the table: the row of a send
    ([src/src/modules/message/message-send.service.ts]: pending before the engine is
    asked, then sent or failed, merged with the row the engine's own echo may have
    stored first), the reaper of sends left pending
    ([pending-message-reaper.service.ts]), the media archive and its purge
    ([src/src/modules/chat-media/chat-media-archive.service.ts]) and the retention of
    messages ([message-retention.service.ts]). *)
From S2P Require Import Prelude JsString Json Prog MutationGuard MessageTable InFlight MessageWriters.
Local Open Scope string_scope.
Local Open Scope Z_scope.
Local Open Scope prog_scope.

(** ** The row of a send *)

Record SaveOutgoingMessageData := mkData {
  d_waMessageId : option string;
  d_chatId : string;
  d_body : option string;
  d_type : string;
  d_timestamp : option Z;
  d_status : option MessageStatus;
  d_metadata : option fields;
  d_quotedMessage : option json
}.

Section sender.
(** The session, its account's phone, and whether outbound media is archived. *)
Context (sid : string) (phone : option string) (archiveOutbound : bool).

Definition outgoing_row (data : SaveOutgoingMessageData) : Row :=
  mkRow sid (truthy (d_waMessageId data)) (d_chatId data) None None
    (match truthy phone with Some p => p +:+ "@c.us" | None => "me" end) (d_chatId data) (d_body data) (d_type data) OUTGOING
    (d_timestamp data)
    (match d_quotedMessage data with Some q => Some (JMap.set "quotedMessage" q (default [] (d_metadata data))) | None => d_metadata data end)
    None None (default PENDING (d_status data)) None.

Definition emitPersisted (id : string) (row : Row) : task unit :=
  let! _ := act (Announce (PersistedHook (Some id) row)) in
  match m_status row with
  | SENT => if archiveOutbound then act (Enqueue (Archive id row)) else skip
  | PENDING | DELIVERED | READ | FAILED => skip
  end.

(** A merge leaves the echo's metadata alone when this send has none worth it. *)
Definition worth_merging (metadata : option fields) : option fields :=
  match metadata with Some m => if isUrlPointerMetadata m then None else Some m | None => None end.
Definition merge_onto (wa : string) (metadata : option fields) : task (result DbError unit) :=
  match worth_merging metadata with
  | None => Ret (Ok tt)
  | Some m =>
      let! r := updateMessageMetadata (by_message sid wa) (fun current => mergeSentMetadata current m) in
      Ret (match r with Ok _ => Ok tt | Err f => Err f end)
  end.

(** The row is inserted, or this write merged onto the row that has the id. *)
Definition saveOutgoingMessage (data : SaveOutgoingMessageData) : task (result DbError (string * Row)) :=
  let message := outgoing_row data in
  let finish := fun id row => (let! _ := emitPersisted id row in Ret (Ok (id, row))) in
  let! r := act (Insert message) in
  match r, m_waMessageId message with
  | Ok id, _ => finish id message
  | Err UniqueViolation, Some wa =>
      let! merged := merge_onto wa (m_metadata message) in
      match merged with
      | Err f =>
          match m_status message with
          | SENT =>
              let copy := with_wa None message in
              let! r := act (Insert copy) in
              match r with Ok id => finish id copy | Err f => Ret (Err f) end
          | PENDING | DELIVERED | READ | FAILED => Ret (Err f)
          end
      | Ok _ =>
          let! u := (match m_timestamp message with
                     | Some t => act (Update (by_message sid wa) (with_time (Some t)))
                     | None => Ret (Ok O)
                     end) in
          match u with
          | Err f => Ret (Err f)
          | Ok _ =>
              let! surviving := act (Find (by_message sid wa)) in
              match surviving with
              | Ok (Some (id, row)) => finish id row
              | Ok None => Ret (Err UniqueViolation)
              | Err f => Ret (Err f)
              end
          end
      end
  | Err f, _ => Ret (Err f)
  end.

(** ** What became of it *)

(** The media of a message that failed is described, not kept. *)
Definition strip_media (metadata : option fields) : option fields :=
  match metadata with
  | Some m => match JMap.get "media" m with Some (JObj l) => Some (JMap.set "media" (JObj (JMap.delete "data" l)) m) | _ => Some m end
  | None => None
  end.

Definition own_row (id : string) : Where := by_id id &&& by_session sid.

Definition saveFailedMessage (id : string) (message : Row) : task (result DbError unit) :=
  let message := with_metadata (strip_media (m_metadata message)) (with_status FAILED message) in
  let! r := act (Update (own_row id) (fun x => if_given with_metadata (m_metadata message) (with_status FAILED x))) in
  match r with
  | Err f => Ret (Err f)
  | Ok O => Ret (Ok tt)
  | Ok (S _) => let! _ := emitPersisted id message in Ret (Ok tt)
  end.

(** The columns a sent row takes: the resolved label and its metadata only when the
    engine answered one. *)
Definition sent_columns (message : Row) (changed : bool) (r : Row) : Row :=
  let r := if_given with_wa (m_waMessageId message) r in
  let r := if_given with_time (m_timestamp message) r in
  let r := with_status SENT r in
  if changed then if_given with_metadata (m_metadata message) (if_given with_body (m_body message) r) else r.

(** The row that survives a failed merge keeps its payload, without the id. *)
Definition kept_columns (message : Row) (changed restored : bool) (r : Row) : Row :=
  let r := if_given with_time (m_timestamp message) (with_status SENT r) in
  let r := if changed then if_given with_metadata (m_metadata message) (if_given with_body (m_body message) r) else r in
  if restored then if_given with_metadata (m_metadata message) r else r.

Definition keep (id : string) (st : MessageStatus) (p : Row -> Row) : task (option nat) :=
  let! r := act (Update (by_id id &&& of_status st) p) in Ret (match r with Ok n => Some n | Err _ => None end).

Definition emit_found (w : Where) : task unit :=
  attempt (act (Find w)) (fun r => match r with Some (i, row) => emitPersisted i row | None => skip end).

(** The echo's row has the id: this send's metadata goes onto it and the pending row
    goes, or, when the merge fails, the pending row stays as the sent one. *)
Definition merge_with_echo (id wa : string) (message : Row) (changed reaped : bool) : task unit :=
  let! merged := merge_onto wa (m_metadata message) in
  match merged with
  | Err _ =>
      let! kept := (if reaped then Ret None else keep id PENDING (kept_columns message changed false)) in
      let! _ := (if reaped || bool_decide (kept = Some O) then keep id FAILED (kept_columns message changed true) else Ret None) in
      emit_found (by_id id)
  | Ok _ =>
      let! _ := (match m_timestamp message with
                 | Some t => let! _ := act (Update (by_message sid wa) (with_time (Some t))) in skip
                 | None => skip
                 end) in
      let! _ := act (Delete (by_id id)) in
      let! _ := emit_found (by_message sid wa) in
      act (Announce (DeletedHook message))
  end.

(** The row after the engine accepted the message: a fault here is never a failed send. *)
Definition persistSentState (id : string) (message : Row) (answer : SendResult) (changed : bool) : task unit :=
  let message := with_time (sr_timestamp answer) (with_status SENT message) in
  let message := match truthy (Some (sr_id answer)) with Some wa => with_wa (Some wa) message | None => message end in
  let duplicate := fun reaped => match truthy (Some (sr_id answer)) with
                                 | Some wa => merge_with_echo id wa message changed reaped
                                 | None => skip
                                 end in
  let! first := act (Update (own_row id &&& of_status PENDING) (sent_columns message changed)) in
  match first with
  | Err UniqueViolation => duplicate false
  | Err (Fault _) => skip
  | Ok (S _) => emitPersisted id message
  | Ok O =>
      let! again := act (Update (own_row id) (fun r => if_given with_metadata (m_metadata message) (sent_columns message changed r))) in
      match again with
      | Err UniqueViolation => duplicate true
      | Err (Fault _) => skip
      | Ok O => skip
      | Ok (S _) => emitPersisted id message
      end
  end.

(** A click carries the label the engine resolved. *)
Definition resolved_label (button : option string) (answer : SendResult) (message : Row) : Row :=
  match button, truthy (sr_body answer) with
  | Some b, Some label =>
      with_metadata (Some (JMap.set "button" (JObj [("id", JStr b); ("text", JStr label)]) (default [] (m_metadata message))))
        (with_body (Some label) message)
  | _, _ => message
  end.
Definition label_resolved (button : option string) (answer : SendResult) : bool :=
  match button, truthy (sr_body answer) with Some _, Some _ => true | _, _ => false end.

(** One send: the pending row, the engine, what became of it.  [button] is the
    button of a click. *)
Definition send (data : SaveOutgoingMessageData) (button : option string) : task unit :=
  attempt (saveOutgoingMessage data) (fun saved =>
  let '(id, message) := saved in
  let! answer := act EngineSend in
  match answer with
  | Err _ => attempt (saveFailedMessage id message) (fun _ => skip)
  | Ok sent => persistSentState id (resolved_label button sent message) sent (label_resolved button sent)
  end).
End sender.

(** ** Sends left pending *)

Definition stale_pending (cutoff : Z) : Where := of_direction OUTGOING &&& of_status PENDING &&& created_before cutoff.

Definition reaped_metadata (row : Row) (at_ : string) : fields := JMap.set "reapedAt" (JStr at_) (default [] (strip_media (m_metadata row))).

Definition reapRow (id : string) (row : Row) : task (result DbError bool) :=
  let! now := act NowText in
  let row := with_status FAILED (with_metadata (Some (reaped_metadata row now)) row) in
  let! r := act (Update (by_id id &&& of_status PENDING) (fun x => with_metadata (m_metadata row) (with_status FAILED x))) in
  match r with
  | Err f => Ret (Err f)
  | Ok O => Ret (Ok false)
  | Ok (S _) => let! _ := act (Announce (PersistedHook (Some id) row)) in Ret (Ok true)
  end.

Fixpoint reap_rows (l : list (string * Row)) : task unit :=
  match l with
  | [] => skip
  | (id, row) :: l =>
      let! stopping := act Closed in
      if (stopping : bool) then skip else let! _ := reapRow id row in reap_rows l
  end.

Definition sweep (cutoff : Z) (batchSize : nat) : task unit :=
  attempt (act (FindSome (stale_pending cutoff) batchSize)) reap_rows.

(** ** The media archive *)

Section archive.
(** MESSAGE_INLINE_MEDIA=archive, the size limit, [Buffer.from(data, 'base64')] and
    the extension of a mimetype. *)
Context (sid : string) (enabled replacesInline : bool) (maxBytes : Z) (decode : string -> string) (extFromMimetype : string -> string).

Definition text_member (k : string) (v : option json) : option string := match member k v with Some (JStr s) => truthy (Some s) | _ => None end.

(** The bytes and the type of media worth archiving. *)
Definition archivable (row : Row) : option (string * string) :=
  let media := media_of (default [] (m_metadata row)) in
  match m_mediaPath row, text_member "data" media, text_member "mimetype" media with
  | None, Some data, Some mimetype =>
      if truthy_json (member "omitted" media) || url_pointer data || (maxBytes <? base64_length data) then None else Some (data, mimetype)
  | _, _, _ => None
  end.

Definition archived_media (media : json) (bytes : Z) : json :=
  match media with
  | JObj l => JObj (JMap.set "archived" (JBool true) (JMap.set "sizeBytes" (JNum bytes) (JMap.set "omitted" (JBool true) (JMap.delete "data" l))))
  | v => v
  end.

Definition no_pointer_yet (id : string) : Where := by_id id &&& not_revoked &&& no_pointer.

Definition archive (id : string) (row : Row) : task unit :=
  if negb enabled then skip
  else match archivable row with
  | None => skip
  | Some (data, mimetype) =>
      let! uuid := act Fresh in
      let key := "chat-media/" +:+ sid +:+ "/" +:+ uuid +:+ "." +:+ extFromMimetype mimetype in
      let bytes := decode data in
      let drop := (let! _ := act (DropFile key) in skip) in
      let! put := act (PutFile key bytes) in
      match put with
      | Err _ => skip
      | Ok _ =>
          if negb replacesInline then
            attempt (act (Update (no_pointer_yet id) (with_media (Some key) (Some mimetype))))
              (fun n => match n with O => drop | S _ => skip end)
          else
            let! back := act (GetFile key) in
            match back with
            | Err _ => skip
            | Ok b =>
                if negb (String.eqb b bytes) then skip
                else attempt (act (Find (no_pointer_yet id))) (fun current =>
                  match current with
                  | None => drop
                  | Some (_, r) =>
                      let metadata := m_metadata r in
                      let media := media_of (default [] metadata) in
                      match m_waMessageId r, media with
                      | Some _, Some v =>
                          if negb (bool_decide (text_member "data" media = Some data)) then drop
                          else
                            let m := JMap.set "media" (archived_media v (Z.of_nat (String.length bytes))) (default [] metadata) in
                            attempt (act (Update (no_pointer_yet id &&& has_snapshot metadata)
                                            (fun x => with_media (Some key) (Some mimetype) (with_metadata (Some m) x))))
                              (fun n => match n with O => drop | S _ => skip end)
                      | _, _ => drop
                      end
                  end)
            end
      end
  end.

(** The purge of a batch of expired files: the marker of each row, then the pointers. *)
Definition without_archived (m : fields) : fields :=
  match JMap.get "media" m with
  | Some (JObj l) => if JMap.has "archived" l then JMap.set "media" (JObj (JMap.delete "archived" l)) m else m
  | _ => m
  end.

Fixpoint delete_files (l : list (string * Row)) : task (list string) :=
  match l with
  | [] => Ret []
  | (id, row) :: l =>
      let! r := act (DropFile (default "" (m_mediaPath row))) in
      let! rest := delete_files l in
      Ret (match r with Ok _ => id :: rest | Err _ => rest end)
  end.

(** The ids whose marker is still there. *)
Fixpoint dropArchivedMarkers (ids : list string) : task (list string) :=
  match ids with
  | [] => Ret []
  | id :: ids =>
      let! closed := act Closed in
      if (closed : bool) then Ret (id :: ids)
      else
        let! r := updateMessageMetadata (by_id id) without_archived in
        let! rest := dropArchivedMarkers ids in
        Ret (match r with Ok _ => rest | Err _ => id :: rest end)
  end.

Definition has_pointer : Where := fun _ r => match m_mediaPath r with Some _ => true | None => false end.
Definition PURGE_BATCH_SIZE : nat := 500.

Fixpoint purgeExpired (batches : nat) (cutoff : Z) : task unit :=
  match batches with
  | O => skip
  | S batches =>
      attempt (act (FindSome (has_pointer &&& created_before cutoff) PURGE_BATCH_SIZE)) (fun expired =>
      match expired with
      | [] => skip
      | _ =>
          let! clearable := delete_files expired in
          match clearable with
          | [] => skip
          | _ =>
              let! kept := dropArchivedMarkers clearable in
              let cleared := List.filter (fun i => negb (existsb (String.eqb i) kept)) clearable in
              attempt (match cleared with [] => Ret (Ok O) | _ => act (Update (among_ids cleared) (with_media None None)) end) (fun _ =>
              let! closed := act Closed in
              if (closed : bool) || (length expired <? PURGE_BATCH_SIZE)%nat then skip else purgeExpired batches cutoff)
          end
      end)
  end.
End archive.

(** ** Retention *)

Definition PRUNE_BATCH_SIZE : nat := 500.

Fixpoint prune (batches : nat) (cutoff : Z) : task unit :=
  match batches with
  | O => skip
  | S batches =>
      attempt (act (FindSome (created_before cutoff) PRUNE_BATCH_SIZE)) (fun l =>
      match l with
      | [] => skip
      | _ => attempt (act (Delete (among_ids (map fst l))))
               (fun _ => if (length l <? PRUNE_BATCH_SIZE)%nat then skip else prune batches cutoff)
      end)
  end.
