(* ===== verification/MessageSafe.v ===== *)
(** * Stored messages: what no interleaving undoes

    The programs of [MessageWriters] and [MessageSends], of any number of sessions,
    run together over one table, with rows removed at any time.  A send owns the row
    it inserted until it names it; every other statement is allowed by what its own
    condition says.  So a deleted message keeps no content and gets none back, a
    delivery state only advances, and an engine id names one row of a session. *)
From stdpp Require Import sets gmap.
From S2P Require Import Prelude JsString Json Prog Owned MutationGuard MessageTable InFlight MessageWriters MessageSends.
Local Open Scope string_scope.
Local Open Scope Z_scope.

(** ** Rows *)

Definition cleared (r : Row) : Prop := m_body r = Some "" /\ m_metadata r = None /\ m_mediaPath r = None /\ m_mediaMimetype r = None.

(** A deleted row holds no content; a send still pending has no engine id, so no
    event of the engine can name it. *)
Record row_ok (r : Row) : Prop := mkRowOk {
  ro_cleared : revoked r = true -> cleared r;
  ro_pending : m_status r = PENDING -> m_waMessageId r = None /\ revoked r = false
}.

Definition advanced (a b : MessageStatus) : Prop := a = b \/ status_in a (ackStatusTransitionFrom b) = true.
#[export] Instance advanced_preorder : PreOrder advanced.
Proof.
  split; [by left|]. intros a b c [->|H1] [->|H2]; [by left|by right|by right|right; by destruct a, b, c].
Qed.

(** What a statement of any program may do to a row it matches. *)
Record may (r r' : Row) : Prop := mkMay {
  ma_session : m_sessionId r' = m_sessionId r;
  ma_wa : m_waMessageId r' = m_waMessageId r;
  ma_revoked : revoked r = true -> revoked r' = true;
  ma_unnamed : m_waMessageId r = None -> revoked r' = revoked r;
  ma_status : advanced (m_status r) (m_status r');
  ma_ok : row_ok r'
}.

(** What its send may do to a row the engine has no id for. *)
Definition unnamed (r : Row) : Prop := m_waMessageId r = None /\ revoked r = false.
Definition own_may (r r' : Row) : Prop := m_sessionId r' = m_sessionId r /\ revoked r' = false /\ row_ok r'.

(** ** The pool *)

Record Inv (s : World) : Prop := mkInv {
  in_rows : forall i r, rows s !! i = Some r -> row_ok r /\ i ∈ drawn s;
  in_unique : unique (rows s) = true
}.

Definition allowed (X : gset string) (i : string) (r r' : Row) : Prop := r' = r \/ may r r' \/ (i ∈ X /\ unnamed r /\ own_may r r').

(** Every row of an id known before is one the id had, changed as allowed. *)
Definition moved (X : gset string) (s s' : World) : Prop :=
  drawn s ⊆ drawn s' /\
  forall i r', i ∈ drawn s -> rows s' !! i = Some r' -> exists r, rows s !! i = Some r /\ allowed X i r r'.

Record kept (r r' : Row) : Prop := mkKept {
  ke_session : m_sessionId r' = m_sessionId r;
  ke_revoked : revoked r = true -> revoked r' = true;
  ke_named : forall w, m_waMessageId r = Some w -> m_waMessageId r' = Some w /\ advanced (m_status r) (m_status r')
}.
#[export] Instance kept_preorder : PreOrder kept.
Proof.
  split.
  - intros r. split; [done|done|]. intros w ->. split; [done|reflexivity].
  - intros a b c [H1 H2 H3] [H4 H5 H6]. split; [congruence|auto|]. intros w Hw. destruct (H3 w Hw) as [Hb Hs].
    destruct (H6 w Hb) as [Hc Hs']. split; [done|by transitivity (m_status b)].
Qed.

(** What no step undoes: a row that is left is its former self, kept. *)
Definition le (s s' : World) : Prop :=
  drawn s ⊆ drawn s' /\ forall i r', i ∈ drawn s -> rows s' !! i = Some r' -> exists r, rows s !! i = Some r /\ kept r r'.

(** What the owner of [X] counts on: nobody else names its row. *)
Definition rely (X : gset string) (s s' : World) : Prop :=
  drawn s ⊆ drawn s' /\ forall i r', i ∈ X -> rows s' !! i = Some r' -> exists r, rows s !! i = Some r /\ (unnamed r -> unnamed r').

#[export] Instance le_preorder : PreOrder le.
Proof.
  split.
  - intros s. split; [done|]. intros i r _ Hr. by exists r.
  - intros a b c [H1 H2] [H3 H4]. split; [set_solver|]. intros i r Hi Hr. destruct (H4 i r) as (r1 & Hr1 & Hk); [set_solver|done|].
    destruct (H2 i r1 Hi Hr1) as (r2 & Hr2 & Hk'). exists r2. split; [done|by transitivity r1].
Qed.
#[export] Instance rely_preorder X : PreOrder (rely X).
Proof.
  split.
  - intros s. split; [done|]. intros i r _ Hr. by exists r.
  - intros a b c [H1 H2] [H3 H4]. split; [set_solver|]. intros i r Hi Hr. destruct (H4 i r Hi Hr) as (r1 & Hr1 & Hk).
    destruct (H2 i r1 Hi Hr1) as (r2 & Hr2 & Hk'). exists r2. split; [done|auto].
Qed.

Lemma allowed_kept X i r r' : allowed X i r r' -> kept r r'.
Proof.
  intros [->|[H|(_ & [H1 H2] & H3 & H4 & _)]]; [reflexivity| |].
  - split; [apply H|apply H|]. intros w Hw. split; [by rewrite (ma_wa _ _ H)|apply H].
  - split; [done|by rewrite H2|]. intros w. by rewrite H1.
Qed.

Lemma moved_le X s s' : moved X s s' -> le s s'.
Proof.
  intros [H1 H2]. split; [done|]. intros i r' Hi Hr. destruct (H2 i r' Hi Hr) as (r & Hr0 & Ha). exists r. split; [done|by eapply allowed_kept].
Qed.

Lemma moved_rely X Y s s' : moved X s s' -> Y ## X -> Y ⊆ drawn s -> rely Y s s'.
Proof.
  intros [H1 H2] Hd Hu. split; [done|]. intros i r' Hi Hr. destruct (H2 i r' (Hu i Hi) Hr) as (r & Hr0 & Ha). exists r. split; [done|].
  destruct Ha as [->|[H|(Hx & _)]]; [done| |by set_solver].
  intros [Hw Hv]. split; [by rewrite (ma_wa _ _ H)|]. by rewrite (ma_unnamed _ _ H Hw).
Qed.

(** ** The unique index *)

Lemma NoDup_omap {A B} (f : A -> option B) (l : list A) :
  NoDup l -> (NoDup (omap f l) <-> forall x y k, x ∈ l -> y ∈ l -> f x = Some k -> f y = Some k -> x = y).
Proof.
  induction l as [|a l IH]; intros Hl; simpl.
  - split; [intros _ x y k H; by inversion H|intros _; constructor].
  - apply NoDup_cons in Hl as [Ha Hl]. specialize (IH Hl). split.
    + intros H x y k Hx Hy Hfx Hfy. destruct (f a) as [b|] eqn:Hfa.
      * apply NoDup_cons in H as [Hb H]. assert (forall z, z ∈ l -> f z <> Some b) as Hn.
        { intros z Hz Hfz. apply Hb. apply list_elem_of_omap. by exists z. }
        apply elem_of_cons in Hx as [->|Hx], Hy as [Heq|Hy]; try (subst y); [done|by destruct (Hn y Hy); congruence|by destruct (Hn x Hx); congruence|].
        by apply (proj1 IH H x y k).
      * apply elem_of_cons in Hx as [->|Hx]; [congruence|]. apply elem_of_cons in Hy as [->|Hy]; [congruence|]. by apply (proj1 IH H x y k).
    + intros H. assert (NoDup (omap f l)) as Hnd.
      { apply IH. intros x y k Hx Hy. apply H; by right. }
      destruct (f a) as [b|] eqn:Hfa; [|done]. apply NoDup_cons. split; [|done]. rewrite list_elem_of_omap. intros (z & Hz & Hfz).
      assert (a = z) as -> by (apply (H a z b); [by left|by right|done|done]). done.
Qed.

Lemma unique_iff m :
  unique m = true <-> forall i j r r' k, m !! i = Some r -> m !! j = Some r' -> key_of r = Some k -> key_of r' = Some k -> i = j.
Proof.
  unfold unique, keys_of. rewrite bool_decide_eq_true, NoDup_omap by apply NoDup_map_to_list. split.
  - intros H i j r r' k Hi Hj Hk Hk'. assert ((i, r) = (j, r')) as [= -> _]; [|done].
    apply (H _ _ k); [by apply elem_of_map_to_list|by apply elem_of_map_to_list|done|done].
  - intros H [i r] [j r'] k. rewrite !elem_of_map_to_list. intros Hi Hj Hk Hk'. simpl in *.
    assert (i = j) as <- by by apply (H i j r r' k). congruence.
Qed.

(** ** Statements *)

Definition gain (B : Type) (e : eff B) : B -> gset string :=
  match e in eff B return B -> gset string with
  | Insert _ => fun r => match r with Ok id => {[id]} | Err _ => ∅ end
  | _ => fun _ => ∅
  end.

(** What a task must know to run a statement. *)
Definition pre (X : gset string) (B : Type) (e : eff B) (s : World) : Prop :=
  match e with
  | Update w p => forall i r, rows s !! i = Some r -> w i r = true -> allowed X i r (p r) /\ row_ok (p r)
  | Insert r => row_ok r
  | InsertIgnore rs => Forall row_ok rs
  | _ => True
  end.

(** The statements anybody may run. *)
Definition calm {B : Type} (e : eff B) : Prop :=
  match e with
  | Update w p => forall i r, row_ok r -> w i r = true -> may r (p r)
  | Insert r => row_ok r
  | InsertIgnore rs => Forall row_ok rs
  | _ => True
  end.

Lemma calm_pre X B (e : eff B) s : Inv s -> calm e -> pre X B e s.
Proof.
  intros HI. destruct e; simpl; try done. intros Hc i r Hr Hw.
  destruct (in_rows s HI i r Hr) as [Hok _]. specialize (Hc i r Hok Hw). split; [by right; left|apply Hc].
Qed.

Lemma stamp_ok t r : row_ok r -> row_ok (stamp t r).
Proof. unfold stamp. destruct (m_createdAt r); [done|]. intros [H1 H2]. by split. Qed.

Lemma same_moved X s s' : s' = s -> moved X s s'.
Proof. intros ->. split; [done|]. intros i r _ Hr. exists r. split; [done|by left]. Qed.

Lemma update_moved X w p s : Inv s -> pre X _ (Update w p) s -> unique (rows (updated w p s)) = true -> Inv (updated w p s) /\ moved X s (updated w p s).
Proof.
  intros HI Hp Hu. assert (forall i r', rows (updated w p s) !! i = Some r' -> exists r, rows s !! i = Some r /\ allowed X i r r' /\ row_ok r') as H.
  { intros i r'. unfold updated, update_rows. simpl. rewrite map_lookup_imap. destruct (rows s !! i) as [r|] eqn:Hr; simpl; [|done].
    intros [= <-]. exists r. split; [done|]. destruct (w i r) eqn:Hw; [by apply Hp|]. split; [by left|]. by apply (in_rows s HI i r). }
  split; [split; [|done]|split; [done|]].
  - intros i r' Hr'. destruct (H i r' Hr') as (r & Hr & _ & Hok). split; [done|]. by apply (in_rows s HI i r).
  - intros i r' _ Hr'. destruct (H i r' Hr') as (r & Hr & Ha & _). by exists r.
Qed.

Lemma delete_moved X w s : Inv s -> Inv (deleted w s) /\ moved X s (deleted w s).
Proof.
  intros HI. assert (forall i r, rows (deleted w s) !! i = Some r -> rows s !! i = Some r) as H.
  { intros i r. unfold deleted, delete_rows. simpl. rewrite map_lookup_imap. destruct (rows s !! i) as [x|]; simpl; [|done].
    by destruct (w i x). }
  split; [split|split; [done|]].
  - intros i r Hr. by apply (in_rows s HI), H.
  - apply unique_iff. intros i j r r' k Hi Hj. apply (proj1 (unique_iff _) (in_unique s HI)); by apply H.
  - intros i r _ Hr. exists r. split; [by apply H|by left].
Qed.

Lemma put_row_ok (s : World) (m : gmap string Row) id r :
  (forall i x, m !! i = Some x -> row_ok x /\ (i ∈ drawn s \/ i = id)) -> row_ok r ->
  forall i x, <[id := r]> m !! i = Some x -> row_ok x /\ (i ∈ drawn s \/ i = id).
Proof. intros H Hr i x. rewrite lookup_insert_Some. intros [[<- <-]|[_ Hx]]; [by split; [|right]|by apply H]. Qed.

Lemma insert_moved X id t r s :
  Inv s -> row_ok r -> id ∉ drawn s -> unique (rows (inserted id t r s)) = true -> Inv (inserted id t r s) /\ moved X s (inserted id t r s).
Proof.
  intros HI Hr Hid Hu. split; [split; [|done]|split; [simpl; set_solver|]].
  - intros i x Hx. unfold inserted in *; simpl in *. destruct (put_row_ok s (rows s) id (stamp t r)) with (i := i) (x := x) as [Hok Hi];
      [|by apply stamp_ok|done|split; [done|set_solver]].
    intros j y Hy. destruct (in_rows s HI j y Hy). by split; [|left].
  - intros i x Hi. unfold inserted. simpl. rewrite lookup_insert_ne by set_solver. intros Hx. exists x. split; [done|by left].
Qed.

Lemma insert_ignore_ok t l m (D : gset string) :
  (forall i x, m !! i = Some x -> row_ok x /\ i ∈ D) -> unique m = true -> Forall (fun e => row_ok (snd e) /\ fst e ∈ D) l ->
  (forall i x, fold_left (insert_ignore t) l m !! i = Some x -> row_ok x /\ i ∈ D) /\ unique (fold_left (insert_ignore t) l m) = true.
Proof.
  revert m. induction l as [|[id r] l IH]; intros m Hm Hu Hl; [by split|]. apply Forall_cons in Hl as [[Hr Hid] Hl]. simpl.
  apply IH; [| |done].
  - intros i x. unfold insert_ignore. simpl. destruct (unique (<[id := stamp t r]> m)); [|apply Hm]. rewrite lookup_insert_Some.
    intros [[<- <-]|[_ Hx]]; [by split; [apply stamp_ok|]|by apply Hm].
  - unfold insert_ignore. simpl. by destruct (unique (<[id := stamp t r]> m)) eqn:E.
Qed.

Lemma insert_ignore_old t l m i : i ∉ map fst l -> fold_left (insert_ignore t) l m !! i = m !! i.
Proof.
  revert m. induction l as [|[id r] l IH]; intros m Hi; simpl in *; [done|]. apply not_elem_of_cons in Hi as [Hn Hi]. rewrite IH by done.
  unfold insert_ignore. simpl. destruct (unique _); [by rewrite lookup_insert_ne|done].
Qed.

Lemma zip_fst_subset {A B} (l : list A) (k : list B) x : x ∈ map fst (zip l k) -> x ∈ l.
Proof. revert k. induction l as [|a l IH]; intros [|b k]; simpl; intros H; [by inversion H|by inversion H|by inversion H|]. apply elem_of_cons in H as [->|H]; [by left|right; by eapply IH]. Qed.

Lemma insert_all_moved X ids t rs s :
  Inv s -> Forall row_ok rs -> Forall (fun i => i ∉ drawn s) ids -> Inv (inserted_all ids t rs s) /\ moved X s (inserted_all ids t rs s).
Proof.
  intros HI Hr Hids. destruct (insert_ignore_ok t (zip ids rs) (rows s) (list_to_set ids ∪ drawn s)) as [H1 H2].
  - intros i x Hx. destruct (in_rows s HI i x Hx). split; [done|set_solver].
  - apply HI.
  - apply Forall_forall. intros [i r] Hz. split.
    + rewrite Forall_forall in Hr. apply Hr. revert Hz. clear. revert ids. induction rs as [|y rs IH]; intros [|j ids]; simpl; intros H;
        [by inversion H|by inversion H|by inversion H|]. apply elem_of_cons in H as [[= -> ->]|H]; [by left|right; by eapply IH].
    + apply elem_of_union_l, elem_of_list_to_set. apply (zip_fst_subset ids rs). apply elem_of_map. by exists (i, r).
  - split; [by split|]. split; [simpl; set_solver|]. intros i r Hi. unfold inserted_all. simpl. rewrite insert_ignore_old.
    + intros Hx. exists r. split; [done|by left].
    + intros Hx. apply zip_fst_subset in Hx. rewrite Forall_forall in Hids. by apply (Hids i Hx).
Qed.

Lemma statement_moved {A} X ok (a : A) s s1 r s' :
  Inv s -> (ok = true -> Inv s1 /\ moved X s s1) -> statement ok a s s1 r s' -> Inv s' /\ moved X s s'.
Proof.
  intros HI H [(t & _ & [->|[Hok ->]])|Hs]; [split; [done|by apply same_moved]|by apply H|].
  destruct ok; destruct Hs as [_ ->]; [by apply H|split; [done|by apply same_moved]].
Qed.

Lemma run_moved X B (e : eff B) s b s' : Inv s -> pre X B e s -> run B e s b s' -> Inv s' /\ moved X s s'.
Proof.
  intros HI Hp Hr. destruct e; simpl in Hr; try (subst s'; split; [done|by apply same_moved]);
    try (destruct Hr as [-> _]; split; [done|by apply same_moved]).
  - eapply statement_moved; [done| |exact Hr]. intros Hu. by apply update_moved.
  - destruct Hr as (id & t & Hid & Hr). eapply statement_moved; [done| |exact Hr]. intros Hu. by apply insert_moved.
  - destruct Hr as (ids & t & _ & _ & Hids & Hr). eapply statement_moved; [done| |exact Hr]. intros _. by apply insert_all_moved.
  - eapply statement_moved; [done| |exact Hr]. intros _. by apply delete_moved.
Qed.

Lemma run_gain B (e : eff B) s b s' : run B e s b s' -> gain B e b ⊆ drawn s' ∖ drawn s.
Proof.
  destruct e; simpl; try set_solver. intros (id & t & Hid & Hr). destruct b as [i|]; [|set_solver].
  destruct Hr as [(x & [=] & _)|Hr]. destruct (unique _); destruct Hr as [[= ->] ->]. unfold inserted. simpl. set_solver.
Qed.

(** Rows may be removed at any time: a session deleted, its history cleared. *)
Definition env (s s' : World) : Prop := exists w, s' = deleted w s.

Lemma statement_ok X B (e : eff B) s b s' : Inv s -> X ⊆ drawn s -> pre X B e s -> run B e s b s' ->
  Inv s' /\ le s s' /\ drawn s ⊆ drawn s' /\ gain B e b ⊆ drawn s' ∖ drawn s /\ forall Y, Y ## X -> Y ⊆ drawn s -> rely Y s s'.
Proof.
  intros HI HX Hp Hr. destruct (run_moved X B e s b s' HI Hp Hr) as [HI' Hm]. split_and!.
  - done.
  - by eapply moved_le.
  - apply Hm.
  - by eapply run_gain.
  - intros Y HY Hu. by eapply moved_rely.
Qed.

Lemma removal_ok s s' : Inv s -> env s s' -> Inv s' /\ le s s' /\ drawn s ⊆ drawn s' /\ forall Y, Y ⊆ drawn s -> rely Y s s'.
Proof.
  intros HI [w ->]. destruct (delete_moved ∅ w s HI) as [HI' Hm]. split_and!; [done|by eapply moved_le|apply Hm|].
  intros Y HY. eapply moved_rely; [done|set_solver|done].
Qed.

(** ** Programs anybody may run *)

Fixpoint harmless {A : Type} (p : task A) : Prop :=
  match p with Ret _ => True | Do e k => calm e /\ forall b, harmless (k b) end.

Lemma harmless_bind {A B} (p : task A) (f : A -> task B) : harmless p -> (forall a, harmless (f a)) -> harmless (pbind p f).
Proof. induction p as [a|C e k IH]; simpl; [intros _ H; apply H|]. intros [Hc Hk] Hf. split; [done|]. intros b. by apply IH. Qed.

Lemma harmless_act {B} (e : eff B) : calm e -> harmless (act e).
Proof. intros H. by split. Qed.

Lemma harmless_attempt {A} (m : task (result DbError A)) (ok : A -> task unit) :
  harmless m -> (forall a, harmless (ok a)) -> harmless (attempt m ok).
Proof. intros Hm Ho. apply harmless_bind; [done|]. intros [a|f]; [apply Ho|done]. Qed.

Lemma harmless_skip : harmless skip.
Proof. done. Qed.

(** What the owner of a row knows of it while nobody named it. *)
Definition owned (id : string) (s : World) : Prop := id ∈ drawn s /\ forall r, rows s !! id = Some r -> unnamed r.

Lemma owned_rely X id s s' : id ∈ X -> owned id s -> rely X s s' -> owned id s'.
Proof. intros Hi [H1 H2] [H3 H4]. split; [set_solver|]. intros r Hr. destruct (H4 id r Hi Hr) as (r0 & Hr0 & Hk). auto. Qed.

Lemma owned_moved id s s' : owned id s -> moved ∅ s s' -> owned id s'.
Proof.
  intros [H1 H2] [H3 H4]. split; [set_solver|]. intros r Hr. destruct (H4 id r H1 Hr) as (r0 & Hr0 & [->|[H|(Hx & _)]]); [by apply H2| |set_solver].
  destruct (H2 r0 Hr0) as [Hw Hv]. split; [by rewrite (ma_wa _ _ H)|by rewrite (ma_unnamed _ _ H Hw)].
Qed.

Notation holds := (holds run gain rely pre Inv).

(** Knowledge of a row kept by others and by calm statements. *)
Definition knows (o : option string) (X : gset string) (s : World) : Prop := match o with Some id => id ∈ X /\ owned id s | None => True end.

Lemma knows_rely o X s s' : knows o X s -> rely X s s' -> knows o X s'.
Proof. destruct o as [id|]; simpl; [|done]. intros [H1 H2] Hr. split; [done|by eapply owned_rely]. Qed.

Lemma harmless_holds {A} o X (p : task A) s : harmless p -> knows o X s -> holds X p (fun Y _ s => X ⊆ Y /\ knows o Y s) s.
Proof.
  revert X s. induction p as [a|B e k IH]; intros X s Hh HK.
  - intros s1 Hr. split; [done|by eapply knows_rely].
  - destruct Hh as [Hc Hk]. intros s1 Hr HI. pose proof (knows_rely o X s s1 HK Hr) as HK1. split; [by apply calm_pre|].
    intros b s2 Hrun HI2. destruct (run_moved ∅ B e s1 b s2 HI (calm_pre ∅ B e s1 HI Hc) Hrun) as [_ Hm].
    assert (knows o (X ∪ gain B e b) s2) as HK2.
    { destruct o as [id|]; [|done]. destruct HK1 as [H1 H2]. split; [set_solver|by eapply owned_moved]. }
    refine (holds_conseq run gain rely pre Inv _ (k b) _ _ s2 (IH b _ s2 (Hk b) HK2) _).
    intros Y _ s3 _ [HY HK3]. split; [set_solver|done].
Qed.

(** ** Calm statements *)

Lemma where_and (a b : Where) i r : (a &&& b) i r = true -> a i r = true /\ b i r = true.
Proof. apply andb_true_iff. Qed.

(** Writes on a row that is not deleted. *)
Lemma may_content r r' :
  row_ok r -> revoked r = false -> m_sessionId r' = m_sessionId r -> m_waMessageId r' = m_waMessageId r -> revoked r' = false ->
  advanced (m_status r) (m_status r') -> (m_status r' = PENDING -> m_status r = PENDING) -> may r r'.
Proof.
  intros Hok Hr Hs Hw Hr' Ha Hp. split; [done|done|congruence|congruence|done|]. split; [congruence|].
  intros H. rewrite Hw. split; [|done]. by apply (ro_pending r Hok), Hp.
Qed.

Lemma not_revoked_inv i r : not_revoked i r = true -> revoked r = false.
Proof. apply negb_true_iff. Qed.

Lemma calm_content w p :
  (forall r, m_sessionId (p r) = m_sessionId r) -> (forall r, m_waMessageId (p r) = m_waMessageId r) ->
  (forall r, m_status (p r) = m_status r) -> (forall r, m_type (p r) = m_type r) -> calm (Update (w &&& not_revoked) p).
Proof.
  intros H1 H2 H3 H4 i r Hok [_ Hr%not_revoked_inv]%where_and. apply may_content; rewrite ?H3; try done.
  unfold revoked in *. by rewrite H4.
Qed.

(** A narrower condition is calm too. *)
Lemma calm_weaken w w' p : (forall i r, w' i r = true -> w i r = true) -> calm (Update w p) -> calm (Update w' p).
Proof. intros H Hc i r Hok Hw. apply (Hc i r Hok), H, Hw. Qed.
Lemma calm_and w w' p : calm (Update w p) -> calm (Update (w &&& w') p).
Proof. apply calm_weaken. by intros i r [H _]%where_and. Qed.

(** Deleting a named row. *)
Lemma calm_revoke w : (forall i r, w i r = true -> m_waMessageId r <> None) -> calm (Update w REVOKED_ROW_PATCH).
Proof.
  intros H i r Hok Hw. specialize (H i r Hw). split; [done|done|done|done|by left|]. split; [done|].
  intros Hp. by destruct (ro_pending r Hok Hp).
Qed.

Lemma named sid wa i r : by_message sid wa i r = true -> m_waMessageId r = Some wa.
Proof. intros [_ H]%where_and. by apply bool_decide_eq_true in H. Qed.

Lemma calm_ack w st : calm (Update (w &&& status_among (ackStatusTransitionFrom st)) (with_status st)).
Proof.
  intros i r Hok [_ H]%where_and. unfold status_among in H. split; try done; [by right|]. split; [by apply Hok|].
  simpl. intros ->. done.
Qed.

(** Columns that are neither content, name nor state. *)
Lemma calm_column w p :
  (forall r, m_sessionId (p r) = m_sessionId r) -> (forall r, m_waMessageId (p r) = m_waMessageId r) -> (forall r, m_status (p r) = m_status r) ->
  (forall r, m_type (p r) = m_type r) -> (forall r, cleared r -> cleared (p r)) -> calm (Update w p).
Proof.
  intros H1 H2 H3 H4 H5 i r Hok _. assert (revoked (p r) = revoked r) as Hv by (unfold revoked; by rewrite H4).
  split; rewrite ?Hv, ?H3; try done. split; rewrite ?Hv, ?H2, ?H3; [intros; by apply H5, Hok|apply Hok].
Qed.

Create HintDb harmless.
#[export] Hint Resolve harmless_skip calm_ack : harmless.

(** Programs are taken apart down to their statements. *)
Ltac harmless_step :=
  match goal with
  | |- harmless (pbind _ _) => apply harmless_bind; [|intros]
  | |- harmless (attempt _ _) => apply harmless_attempt; [|intros]
  | |- harmless (act _) => apply harmless_act
  | |- harmless (Ret _) => exact I
  | |- calm (Find _) => exact I
  | |- calm (FindAll _) => exact I
  | |- calm (FindSome _ _) => exact I
  | |- calm (Delete _) => exact I
  | |- calm (Update _ _) => solve [auto with harmless]
  | |- calm (edit_statement _ _ _) => solve [auto with harmless]
  | |- calm _ => exact I
  | |- harmless (match ?x with _ => _ end) => destruct x
  | |- harmless _ => solve [auto with harmless]
  end.
Ltac harmless_all := repeat (cbn beta iota; harmless_step).

(** ** The projector's programs *)

Lemma calm_snapshot w (m m' : option fields) : calm (Update (w &&& not_revoked &&& has_snapshot m) (with_metadata m')).
Proof. apply calm_and. by apply calm_content. Qed.
#[export] Hint Resolve calm_snapshot : harmless.

Lemma metadata_harmless n w change : harmless (metadata_attempts n (w &&& not_revoked) change).
Proof. induction n as [|n IH]; [done|]. cbn [metadata_attempts]. harmless_all. Qed.

Lemma updateMessageMetadata_harmless w change : harmless (updateMessageMetadata w change).
Proof. apply metadata_harmless. Qed.
#[export] Hint Resolve updateMessageMetadata_harmless : harmless.

Section projector.
Context (sid : string) (storeEphemeralMessages archiveOutbound : bool) (retentionCutoff : option Z).

Lemma calm_edit wa body : calm (edit_statement sid wa body).
Proof. apply calm_and. by apply calm_content. Qed.
Lemma calm_revoke_message wa : calm (Update (message sid wa) REVOKED_ROW_PATCH).
Proof. apply calm_revoke. intros i r H. by rewrite (named sid wa i r H). Qed.
Hint Resolve calm_edit calm_revoke_message : harmless.

Lemma storedRowVerdict_harmless wa src : harmless (storedRowVerdict sid wa src).
Proof. unfold storedRowVerdict. harmless_all. Qed.
Hint Resolve storedRowVerdict_harmless : harmless.
Lemma foreignRowReason_harmless wa src : harmless (foreignRowReason sid wa src).
Proof. unfold foreignRowReason. harmless_all. Qed.
Hint Resolve foreignRowReason_harmless : harmless.
Lemma foreign_for_harmless wa src : harmless (foreign_for sid wa src).
Proof. unfold foreign_for. harmless_all. Qed.
Lemma markMessageEdited_harmless wa : harmless (markMessageEdited sid wa).
Proof. unfold markMessageEdited. harmless_all. Qed.
Lemma announceChangedRow_harmless wa : harmless (announceChangedRow sid wa).
Proof. unfold announceChangedRow. harmless_all. Qed.
Hint Resolve foreign_for_harmless markMessageEdited_harmless announceChangedRow_harmless : harmless.

Lemma applyMessageEdit_harmless wa body src needsRow : harmless (applyMessageEdit sid wa body src needsRow).
Proof. unfold applyMessageEdit. harmless_all. Qed.
Lemma applyReaction_harmless wa chat sender x needsRow : harmless (applyReaction sid wa chat sender x needsRow).
Proof. unfold applyReaction. harmless_all. Qed.
Lemma recordOutboundMessageEdit_harmless wa body src : harmless (recordOutboundMessageEdit sid wa body src).
Proof. unfold recordOutboundMessageEdit. harmless_all. Qed.
Lemma revokeRow_harmless wa notify src : harmless (revokeRow sid wa notify src).
Proof. unfold revokeRow. harmless_all. Qed.
Lemma handleMessageRevoked_harmless wa src : harmless (handleMessageRevoked sid wa src).
Proof. unfold handleMessageRevoked. harmless_all. Qed.
Hint Resolve revokeRow_harmless : harmless.

Lemma advance_harmless first retry : harmless first -> harmless retry -> harmless (advance first retry).
Proof. intros H1 H2. unfold advance. harmless_all. Qed.
Lemma advanceAck_harmless wa st : harmless (advanceAck sid wa st).
Proof. unfold advanceAck. harmless_all. Qed.
Lemma receiptVerdict_harmless wa chat e : harmless (receiptVerdict sid wa chat e).
Proof. unfold receiptVerdict. harmless_all. Qed.
Hint Resolve advanceAck_harmless receiptVerdict_harmless : harmless.
Lemma announce_ack_harmless wa status chat : harmless (announce_ack wa status chat).
Proof. unfold announce_ack. harmless_all. Qed.
Hint Resolve announce_ack_harmless : harmless.
Lemma handleMessageAck_harmless wa status chat : harmless (handleMessageAck sid wa status chat).
Proof. unfold handleMessageAck. harmless_all; apply advance_harmless; harmless_all. Qed.

Lemma advanceHeld_harmless wa e : harmless (advanceHeld sid wa e).
Proof. unfold advanceHeld. harmless_all. Qed.
Lemma storeReactions_harmless wa l : harmless (storeReactions sid wa l).
Proof. unfold storeReactions. harmless_all. Qed.
Hint Resolve storeReactions_harmless : harmless.
Lemma writeChangesMadeInFlight_harmless wa e c : harmless (writeChangesMadeInFlight sid wa e c).
Proof. unfold writeChangesMadeInFlight. harmless_all. Qed.
Lemma applyChangesMadeInFlight_harmless wa e c l : harmless (applyChangesMadeInFlight wa e c l).
Proof. unfold applyChangesMadeInFlight. harmless_all. Qed.
Hint Resolve writeChangesMadeInFlight_harmless applyChangesMadeInFlight_harmless : harmless.
Lemma judgeHeld_harmless wa e src : harmless (judgeHeld sid wa e src).
Proof. unfold judgeHeld. harmless_all. Qed.

(** ** Inserts *)

Lemma sent_row_ok r : m_status r <> PENDING -> (revoked r = true -> cleared r) -> row_ok r.
Proof. intros H1 H2. split; [done|congruence]. Qed.

Lemma held_row_ok r e : m_status r = SENT -> row_ok (fst (applyHeldChanges r e)).
Proof.
  intros Hs. apply sent_row_ok; [by rewrite held_sent, Hs|]. unfold applyHeldChanges. destruct (revoked r) eqn:Hr; [done|].
  destruct (e_revoked e); [done|]. cbn [fst].
  destruct (e_editedBody e), (e_edited e); intros H; change (revoked r = true) in H; congruence.
Qed.

Lemma calm_insert r : row_ok r -> calm (Insert r).
Proof. done. Qed.

Lemma insertWithRetry_harmless row : row_ok row -> harmless (insertWithRetry row).
Proof. intros H. unfold insertWithRetry. harmless_all; by apply calm_insert. Qed.

Lemma persistInboundMessage_harmless m : harmless (persistInboundMessage sid m).
Proof.
  unfold persistInboundMessage. harmless_step; [harmless_all|]. harmless_step; [exact I|]. harmless_step; [harmless_all|].
  pose proof (held_row_ok (row_of_incoming sid m) a0 eq_refl) as Hok. destruct (applyHeldChanges _ a0) as [row c]. cbn [fst] in Hok.
  harmless_step; [by apply insertWithRetry_harmless|]. harmless_all.
Qed.
Lemma dispatchInboundMessage_harmless m row id : harmless (dispatchInboundMessage m row id).
Proof. unfold dispatchInboundMessage. harmless_all. Qed.
Lemma judgeRepeat_harmless m : harmless (judgeRepeat sid m).
Proof. unfold judgeRepeat. harmless_all. Qed.
Hint Resolve persistInboundMessage_harmless dispatchInboundMessage_harmless judgeRepeat_harmless : harmless.
Lemma commitInboundMessage_harmless m : harmless (commitInboundMessage sid m).
Proof. unfold commitInboundMessage. harmless_all. Qed.

(** The placeholder of a forward takes another type than a deleted one. *)
Lemma calm_placeholder wa t body : String.eqb t "revoked" = false ->
  calm (Update (message sid wa &&& of_type "forward") (fun r => with_type t (with_body body r))).
Proof.
  intros Ht i r Hok [Hm Hf]%where_and. unfold of_type in Hf. apply String.eqb_eq in Hf.
  assert (revoked r = false) as Hr by (unfold revoked; by rewrite Hf). by apply may_content.
Qed.

Lemma replaceForwardPlaceholder_harmless echo src e : harmless (replaceForwardPlaceholder sid echo src e).
Proof.
  unfold replaceForwardPlaceholder. destruct (m_waMessageId echo) as [wa|]; [|done]. destruct (revoked echo) eqn:Hr; [done|].
  harmless_all; by apply calm_placeholder.
Qed.
Hint Resolve replaceForwardPlaceholder_harmless : harmless.

Lemma commitOwnSendEcho_harmless m : harmless (commitOwnSendEcho sid storeEphemeralMessages archiveOutbound m).
Proof.
  unfold commitOwnSendEcho. harmless_step; [harmless_all|]. harmless_step; [exact I|]. harmless_step; [|harmless_all].
  destruct (storeEphemeralMessages || _); [|exact I]. harmless_step; [harmless_all|].
  pose proof (held_row_ok (row_of_echo sid m) a0 eq_refl) as Hok. destruct (applyHeldChanges _ a0) as [row c]. cbn [fst] in Hok.
  harmless_step; [by apply insertWithRetry_harmless|]. harmless_all.
Qed.

(** ** History *)

Lemma row_of_history_ok m : row_ok (row_of_history sid m).
Proof.
  unfold row_of_history. destruct (delivered_deleted m) eqn:Hd.
  - destruct (i_timestamp m) as [t|]; [destruct (t =? 0)|]; by apply sent_row_ok.
  - set (r := mkRow _ _ _ _ _ _ _ _ _ _ _ _ _ _ _ _). assert (revoked r = false) as Hr by exact Hd.
    destruct (i_timestamp m) as [t|]; [destruct (t =? 0)|]; (apply sent_row_ok; [done|]; intros H; change (revoked r = true) in H; congruence).
Qed.

Lemma calm_history l : Forall row_ok l -> calm (InsertIgnore l).
Proof. done. Qed.

Lemma calm_tombstone m chat : calm (Update (message sid (i_id m) &&& in_chat chat &&& of_direction (direction_of (i_fromMe m))) REVOKED_ROW_PATCH).
Proof. apply calm_and, calm_and, calm_revoke_message. Qed.
Lemma calm_tombstone_time w t : calm (Update w (fun r => with_created (Some (t * 1000)) (with_time (Some t) r))).
Proof. by apply calm_column. Qed.
Hint Resolve calm_tombstone calm_tombstone_time : harmless.

Lemma clear_deleted_harmless existing ms : harmless (clear_deleted sid existing ms).
Proof. induction ms as [|m ms IH]; [done|]. cbn [clear_deleted]. harmless_all; done. Qed.

Lemma settle_tombstones_harmless byId l : harmless (settle_tombstones sid byId l).
Proof. induction l as [|[id row] l IH]; [done|]. cbn [settle_tombstones]. harmless_all; done. Qed.

Lemma history_rows_ok l : Forall row_ok (map (row_of_history sid) l).
Proof. apply Forall_forall. intros x (m & -> & _)%elem_of_map. apply row_of_history_ok. Qed.
Hint Resolve clear_deleted_harmless settle_tombstones_harmless : harmless.

Lemma history_chunk_harmless byId ids : harmless (history_chunk sid retentionCutoff byId ids).
Proof.
  unfold history_chunk. harmless_step; [harmless_all|]. destruct a as [existing|f]; [|exact I]. harmless_step; [harmless_all|].
  destruct a as [|]; [|exact I]. cbn [negb].
  match goal with |- context [map (row_of_history sid) ?l] => generalize (history_rows_ok l); generalize (map (row_of_history sid) l) end.
  intros new_rows Hok. harmless_step; [by destruct new_rows|]. harmless_all.
Qed.
Hint Resolve history_chunk_harmless : harmless.

Lemma history_chunks_harmless n byId ids : harmless (history_chunks sid retentionCutoff n byId ids).
Proof.
  revert ids. induction n as [|n IH]; intros ids; [done|]. cbn [history_chunks]. destruct ids as [|i ids]; [done|].
  harmless_step; [harmless_all|]. destruct a as [[l|]|f]; [|exact I|exact I]. harmless_step; [apply IH|harmless_all].
Qed.
Lemma persistHistoryMessages_harmless l : harmless (persistHistoryMessages sid storeEphemeralMessages retentionCutoff l).
Proof. apply history_chunks_harmless. Qed.
End projector.

(** ** Upkeep *)

Section upkeep.
Lemma reapRow_harmless id row : harmless (reapRow id row).
Proof.
  unfold reapRow. harmless_step; [harmless_all|]. harmless_step; [|harmless_all]. apply harmless_act.
  intros i r Hok [_ Hs]%where_and. unfold of_status in Hs. apply bool_decide_eq_true in Hs. destruct (ro_pending r Hok Hs) as [_ Hr].
  apply may_content; try done. right. by rewrite Hs.
Qed.
Lemma reap_rows_harmless l : harmless (reap_rows l).
Proof. induction l as [|[id row] l IH]; [done|]. cbn [reap_rows]. harmless_all; apply reapRow_harmless. Qed.
Lemma sweep_harmless cutoff n : harmless (sweep cutoff n).
Proof. unfold sweep. harmless_all. apply reap_rows_harmless. Qed.

Lemma calm_pointer id p t : calm (Update (no_pointer_yet id) (with_media p t)).
Proof. apply calm_and. by apply calm_content. Qed.
Lemma calm_published id m p t m' : calm (Update (no_pointer_yet id &&& has_snapshot m) (fun x => with_media p t (with_metadata m' x))).
Proof. apply calm_and, calm_and. by apply calm_content. Qed.
Lemma calm_forget l : calm (Update (among_ids l) (with_media None None)).
Proof. apply calm_column; try done. intros r (H1 & H2 & H3 & H4). by split. Qed.
Hint Resolve calm_pointer calm_published calm_forget : harmless.

Lemma archive_harmless sid enabled replaces maxBytes decode ext id row : harmless (archive sid enabled replaces maxBytes decode ext id row).
Proof. unfold archive. harmless_all. Qed.

Lemma delete_files_harmless l : harmless (delete_files l).
Proof. induction l as [|[id row] l IH]; [done|]. cbn [delete_files]. harmless_all; done. Qed.
Lemma dropArchivedMarkers_harmless l : harmless (dropArchivedMarkers l).
Proof. induction l as [|id l IH]; [done|]. cbn [dropArchivedMarkers]. harmless_all; done. Qed.
Hint Resolve delete_files_harmless dropArchivedMarkers_harmless : harmless.
Lemma purgeExpired_harmless n cutoff : harmless (purgeExpired n cutoff).
Proof. induction n as [|n IH]; [done|]. cbn [purgeExpired]. harmless_all; done. Qed.
Lemma prune_harmless n cutoff : harmless (prune n cutoff).
Proof. induction n as [|n IH]; [done|]. cbn [prune]. harmless_all; done. Qed.
End upkeep.

(** ** A send and its row *)

(** A program of the owner of [id] that may end with any answer. *)
Definition ends {A : Type} (X : gset string) (p : task A) (s : World) : Prop := holds X p (fun _ _ _ => True) s.

Lemma harmless_ends {A} X (p : task A) s : harmless p -> ends X p s.
Proof. intros H. refine (holds_conseq run gain rely pre Inv X p _ _ s (harmless_holds None X p s H I) _). done. Qed.

Lemma ends_bind {A B} X id (p : task A) (f : A -> task B) s :
  harmless p -> id ∈ X -> owned id s -> (forall Y a s1, id ∈ Y -> owned id s1 -> ends Y (f a) s1) -> ends X (pbind p f) s.
Proof.
  intros Hp Hi Ho Hf. apply holds_bind; [exact _|].
  refine (holds_conseq run gain rely pre Inv X p _ _ s (harmless_holds (Some id) X p s Hp (conj Hi Ho)) _).
  intros Y a s1 _ [_ [HY Ho1]]. by apply Hf.
Qed.

Lemma matching_none w (m : gmap string Row) p : length (matching w m) = O -> update_rows w p m = m.
Proof.
  intros H. apply map_eq. intros i. unfold update_rows. rewrite map_lookup_imap. destruct (m !! i) as [r|] eqn:Hr; simpl; [|done].
  destruct (w i r) eqn:Hw; [|done]. assert ((i, r) ∈ matching w m) as Hin.
  { unfold matching. apply list_elem_of_In, List.filter_In. split; [|done]. by apply list_elem_of_In, elem_of_map_to_list. }
  destruct (matching w m); [by inversion Hin|done].
Qed.

(** A statement on the row the task owns. *)
Lemma ends_own {A} X id w p (k : result DbError nat -> task A) s :
  id ∈ X -> owned id s -> (forall i r, w i r = true -> i = id) -> (forall r, unnamed r -> own_may r (p r)) ->
  (forall r s1, ((r = Err UniqueViolation \/ r = Ok O \/ forall x, unnamed x -> unnamed (p x)) -> owned id s1) -> ends X (k r) s1) ->
  ends X (pbind (act (Update w p)) k) s.
Proof.
  intros Hi Ho Hw Hp Hk s1 Hr HI. pose proof (owned_rely X id s s1 Hi Ho Hr) as Ho1. split.
  - intros i r Hlk Hm. assert (i = id) as -> by by eapply Hw. destruct Ho1 as [_ Hu]. specialize (Hu r Hlk). specialize (Hp r Hu).
    split; [|by apply Hp]. right; right. done.
  - intros b s2 Hrun HI2. cbn [gain pbind]. rewrite union_empty_r_L. apply Hk. intros Hc.
    assert (s2 = s1 \/ s2 = updated w p s1 /\ (b = Ok O -> length (matching w (rows s1)) = O) /\ b <> Err UniqueViolation) as [->|(-> & Hb & Hnu)].
    { destruct Hrun as [(t & -> & [->|[_ ->]])|Hrun]; [by left|right; by split_and!|].
      destruct (unique _); destruct Hrun as [-> ->]; [right; split_and!; [done|by intros [=]|done]|by left]. }
    + done.
    + destruct Hc as [Hc|[Hc|Hc]]; [done| |].
      * unfold updated. rewrite matching_none by by apply Hb. by destruct s1.
      * destruct Ho1 as [Hd Hu]. split; [done|]. intros r. unfold updated, update_rows. simpl. rewrite map_lookup_imap.
        destruct (rows s1 !! id) as [x|] eqn:Hx; simpl; [|done]. intros [= <-]. destruct (w id x); [apply Hc|]; by apply Hu.
Qed.

Section sender.
Context (sid : string) (phone : option string) (archiveOutbound : bool).

Lemma emitPersisted_harmless id row : harmless (emitPersisted archiveOutbound id row).
Proof. unfold emitPersisted. harmless_all. Qed.
Lemma merge_onto_harmless wa m : harmless (merge_onto sid wa m).
Proof. unfold merge_onto. harmless_all. Qed.
Hint Resolve emitPersisted_harmless merge_onto_harmless : harmless.
Lemma emit_found_harmless w : harmless (emit_found archiveOutbound w).
Proof. unfold emit_found. harmless_all. Qed.
Lemma calm_time w t : calm (Update w (with_time t)).
Proof. by apply calm_column. Qed.
Hint Resolve emit_found_harmless calm_time : harmless.

(** What a sender hands over: never a deleted message, and no id while pending. *)
Definition data_ok (data : SaveOutgoingMessageData) : Prop :=
  d_type data <> "revoked" /\ (default PENDING (d_status data) = PENDING -> truthy (d_waMessageId data) = None).

Lemma outgoing_revoked data : data_ok data -> revoked (outgoing_row sid phone data) = false.
Proof. intros [H _]. unfold revoked. simpl. by apply String.eqb_neq. Qed.

Lemma outgoing_row_ok data : data_ok data -> row_ok (outgoing_row sid phone data).
Proof. intros H. split; [by rewrite outgoing_revoked|]. intros Hp. split; [by apply H|by apply outgoing_revoked]. Qed.

Lemma saveOutgoingMessage_harmless data : data_ok data -> harmless (saveOutgoingMessage sid phone archiveOutbound data).
Proof.
  intros Hd. pose proof (outgoing_row_ok data Hd) as Hok. pose proof (outgoing_revoked data Hd) as Hr. unfold saveOutgoingMessage.
  harmless_step; [apply harmless_act, Hok|]. destruct a as [id|f]; [harmless_all|]. destruct f as [|t]; [|exact I].
  destruct (m_waMessageId (outgoing_row sid phone data)) as [wa|]; [|exact I]. harmless_step; [harmless_all|].
  destruct a as [u|f].
  - harmless_all.
  - destruct (m_status (outgoing_row sid phone data)) eqn:Hs; try exact I. harmless_step; [|harmless_all].
    apply harmless_act. apply sent_row_ok; [simpl in *; congruence|]. intros H. change (revoked (outgoing_row sid phone data) = true) in H. congruence.
Qed.

(** The columns a send writes leave its row undeleted and no longer pending. *)
Lemma own_columns r r' : unnamed r -> m_sessionId r' = m_sessionId r -> m_type r' = m_type r -> m_status r' <> PENDING -> own_may r r'.
Proof.
  intros [_ Hr] Hs Ht Hp. assert (revoked r' = false) as Hr' by (unfold revoked in *; by rewrite Ht).
  split_and!; [done|done|]. apply sent_row_ok; [done|congruence].
Qed.

Lemma if_given_col {A B} (f : option A -> Row -> Row) (g : Row -> B) x r : (forall y r, g (f y r) = g r) -> g (if_given f x r) = g r.
Proof. intros H. destruct x; [apply H|done]. Qed.

Lemma sent_columns_own message changed r : unnamed r -> own_may r (sent_columns message changed r).
Proof.
  intros Hu. unfold sent_columns. apply own_columns; [done| | |]; destruct changed; rewrite ?(if_given_col with_metadata), ?(if_given_col with_body) by done;
    simpl; rewrite ?(if_given_col with_time), ?(if_given_col with_wa) by done; done.
Qed.
Lemma kept_columns_own message changed restored r : unnamed r -> own_may r (kept_columns message changed restored r).
Proof.
  intros Hu. unfold kept_columns. apply own_columns; [done| | |]; destruct changed, restored;
    rewrite ?(if_given_col with_metadata), ?(if_given_col with_body), ?(if_given_col with_time) by done; done.
Qed.
Lemma kept_columns_unnamed message changed restored r : unnamed r -> unnamed (kept_columns message changed restored r).
Proof.
  intros Hu. pose proof (kept_columns_own message changed restored r Hu) as (_ & Hr & _). split; [|done]. unfold kept_columns.
  destruct changed, restored; rewrite ?(if_given_col with_metadata), ?(if_given_col with_body), ?(if_given_col with_time) by done; apply Hu.
Qed.

Lemma own_row_id id i r : own_row sid id i r = true -> i = id.
Proof. intros [H _]%where_and. by apply String.eqb_eq in H. Qed.

Lemma saveFailed_ends X id message s : id ∈ X -> owned id s -> ends X (attempt (saveFailedMessage sid archiveOutbound id message) (fun _ => skip)) s.
Proof.
  intros Hi Ho. unfold attempt. apply holds_bind; [exact _|]. unfold saveFailedMessage.
  refine (holds_conseq run gain rely pre Inv X _ (fun _ _ _ => True) _ s _ _).
  - apply (ends_own X id); [done|done|apply own_row_id| |].
    + intros r Hu. apply own_columns; [done| | |]; rewrite if_given_col by done; done.
    + intros [n|f] s1 _; [destruct n|]; apply harmless_ends; harmless_all.
  - intros Y [u|f] s1 _ _; by apply harmless_ends.
Qed.

Lemma keep_ends {A} X id st message changed restored (k : option nat -> task A) s :
  id ∈ X -> owned id s -> (forall n s1, owned id s1 -> ends X (k n) s1) -> ends X (pbind (keep id st (kept_columns message changed restored)) k) s.
Proof.
  intros Hi Ho Hk. unfold keep. cbn [pbind act].
  change (ends X (pbind (act (Update (by_id id &&& of_status st) (kept_columns message changed restored)))
    (fun r => k (match r with Ok n => Some n | Err _ => None end))) s).
  apply (ends_own X id); [done|done| |by intros; apply kept_columns_own|].
  - intros i r [H _]%where_and. by apply String.eqb_eq in H.
  - intros r s1 H. apply Hk, H. right; right. intros x. apply kept_columns_unnamed.
Qed.

Lemma merge_with_echo_ends X id wa message changed reaped s :
  id ∈ X -> owned id s -> ends X (merge_with_echo sid archiveOutbound id wa message changed reaped) s.
Proof.
  intros Hi Ho. unfold merge_with_echo. apply (ends_bind X id); [apply merge_onto_harmless|done|done|].
  intros Y merged s1 HY Ho1. destruct merged as [u|f]; [apply harmless_ends; harmless_all|].
  assert (forall kept s2, owned id s2 -> ends Y (let! _ := (if reaped || bool_decide (kept = Some O) then keep id FAILED (kept_columns message changed true) else Ret None)
      in emit_found archiveOutbound (by_id id))%prog s2) as Hlast.
  { intros kept s2 Ho2. destruct (reaped || _); [apply keep_ends; [done|done|]; intros|]; apply harmless_ends; harmless_all. }
  destruct reaped; [by apply Hlast|]. apply keep_ends; [done|done|]. intros n s2 Ho2. by apply Hlast.
Qed.

Lemma persistSentState_ends X id message answer changed s :
  id ∈ X -> owned id s -> ends X (persistSentState sid archiveOutbound id message answer changed) s.
Proof.
  intros Hi Ho. unfold persistSentState. set (m := match truthy (Some (sr_id answer)) with Some wa => _ | None => _ end). clearbody m.
  assert (forall reaped s1, owned id s1 -> ends X (match truthy (Some (sr_id answer)) with
      Some wa => merge_with_echo sid archiveOutbound id wa m changed reaped | None => skip end) s1) as Hdup.
  { intros reaped s1 Ho1. destruct (truthy _); [by apply merge_with_echo_ends|by apply harmless_ends]. }
  apply (ends_own X id); [done|done| |by intros; apply sent_columns_own|].
  { intros i r [H _]%where_and. by eapply own_row_id. }
  intros [[|n]|[|t]] s1 H1; [|apply harmless_ends; harmless_all|by apply Hdup, H1; left|by apply harmless_ends].
  assert (owned id s1) as Ho1 by (apply H1; by right; left).
  apply (ends_own X id); [done|done|apply own_row_id| |].
  { intros r Hu. destruct (sent_columns_own m changed r Hu) as (Hs & Hr & Hok). destruct (m_metadata m); [|by split_and!]. split_and!; [done|done|].
    split; [by intros H; change (revoked (sent_columns m changed r) = true) in H; congruence|apply Hok]. }
  intros [[|n]|[|t]] s2 H2; [by apply harmless_ends|apply harmless_ends; harmless_all|by apply Hdup, H2; left|by apply harmless_ends].
Qed.

(** The pending row of a send is its own. *)
Lemma save_pending data s :
  data_ok data -> truthy (d_waMessageId data) = None ->
  holds ∅ (saveOutgoingMessage sid phone archiveOutbound data)
    (fun Y a s => match a with Ok (id, _) => id ∈ Y /\ owned id s | Err _ => True end) s.
Proof.
  intros Hd Hw. pose proof (outgoing_row_ok data Hd) as Hok. unfold saveOutgoingMessage.
  intros s0 _ HI. split; [exact Hok|]. intros b s1 Hrun HI1. cbn [pbind act gain].
  assert (m_waMessageId (outgoing_row sid phone data) = None) as -> by exact Hw.
  destruct b as [id|f]; [|destruct f; by intros s2 _].
  assert (owned id s1) as Ho.
  { destruct Hrun as (i & t & Hi & [(x & [=] & _)|Hrun]). destruct (unique _); destruct Hrun as [[= ->] ->]. split; [simpl; set_solver|].
    intros r. unfold inserted. simpl. rewrite lookup_insert_eq. intros [= <-]. unfold stamp.
    assert (unnamed (outgoing_row sid phone data)) as Hun by (split; [exact Hw|by apply outgoing_revoked]).
    by destruct (m_createdAt _). }
  apply holds_bind; [exact _|]. assert (id ∈ (∅ ∪ {[id]} : gset string)) as Hin by set_solver.
  refine (holds_conseq run gain rely pre Inv _ _ _ _ s1 (harmless_holds (Some id) _ _ s1 (emitPersisted_harmless id _) (conj Hin Ho)) _).
  intros Y u s2 HY [_ HK] s3 Hr. exact (knows_rely (Some id) Y s2 s3 HK Hr).
Qed.

Lemma send_ends data button s :
  data_ok data -> truthy (d_waMessageId data) = None -> ends ∅ (send sid phone archiveOutbound data button) s.
Proof.
  intros Hd Hw. unfold send, attempt. apply holds_bind; [exact _|].
  refine (holds_conseq run gain rely pre Inv _ _ _ _ s (save_pending data s Hd Hw) _).
  intros Y [[id message]|f] s1 _; [|by intros _; apply harmless_ends]. intros [HY Ho].
  apply (ends_bind Y id); [by apply harmless_act|done|done|].
  intros Z answer s2 HZ Ho2. destruct answer as [sent|u]; [by apply persistSentState_ends|by apply saveFailed_ends].
Qed.
End sender.

(** ** Everything together *)

(** What may run: events of engines, the jobs they queue, sends, upkeep, of any
    session, on any input. *)
Inductive starts : World -> task unit -> Prop :=
| st_inbound s sid m : starts s (pbind (commitInboundMessage sid m) (fun _ => skip))
| st_echo s sid ephemeral outbound m : starts s (commitOwnSendEcho sid ephemeral outbound m)
| st_ack s sid wa status chat : starts s (handleMessageAck sid wa status chat)
| st_revoked s sid wa src : starts s (handleMessageRevoked sid wa src)
| st_revoke s sid wa notify src : starts s (revokeRow sid wa notify src)
| st_edit s sid wa body src needsRow : starts s (applyMessageEdit sid wa body src needsRow)
| st_reaction s sid wa chat sender x needsRow : starts s (applyReaction sid wa chat sender x needsRow)
| st_outbound_edit s sid wa body src : starts s (recordOutboundMessageEdit sid wa body src)
| st_acks_held s sid wa e : starts s (advanceHeld sid wa e)
| st_held s sid wa e c : starts s (writeChangesMadeInFlight sid wa e c)
| st_judged s sid wa e src : starts s (judgeHeld sid wa e src)
| st_history s sid ephemeral cutoff l : starts s (pbind (persistHistoryMessages sid ephemeral cutoff l) (fun _ => skip))
| st_send s sid phone outbound data button :
    d_type data <> "revoked" -> d_waMessageId data = None -> starts s (send sid phone outbound data button)
| st_sent s sid phone outbound data :
    d_type data <> "revoked" -> d_status data = Some SENT -> starts s (attempt (saveOutgoingMessage sid phone outbound data) (fun _ => skip))
| st_reap s cutoff n : starts s (sweep cutoff n)
| st_archive s sid enabled replaces maxBytes decode ext id row : starts s (archive sid enabled replaces maxBytes decode ext id row)
| st_purge s n cutoff : starts s (purgeExpired n cutoff)
| st_prune s n cutoff : starts s (prune n cutoff).

Lemma every_start_ok s p : Inv s -> starts s p -> holds ∅ p (fun _ _ _ => True) s.
Proof.
  intros _ Hs. destruct Hs; lazymatch goal with |- context [send] => idtac | |- _ => apply harmless_ends end.
  - apply harmless_bind; [apply commitInboundMessage_harmless|done].
  - apply commitOwnSendEcho_harmless.
  - apply handleMessageAck_harmless.
  - apply handleMessageRevoked_harmless.
  - apply revokeRow_harmless.
  - apply applyMessageEdit_harmless.
  - apply applyReaction_harmless.
  - apply recordOutboundMessageEdit_harmless.
  - apply advanceHeld_harmless.
  - apply writeChangesMadeInFlight_harmless.
  - apply judgeHeld_harmless.
  - apply harmless_bind; [apply persistHistoryMessages_harmless|done].
  - apply send_ends; [|by rewrite H0]. split; [done|by rewrite H0].
  - apply harmless_attempt; [|done]. apply saveOutgoingMessage_harmless. split; [done|by rewrite H0].
  - apply sweep_harmless.
  - apply archive_harmless.
  - apply purgeExpired_harmless.
  - apply prune_harmless.
Qed.

(** States of the whole: a table that was well formed, and its tasks. *)
Definition reaches (c : list (task unit) * World) : Prop := exists s, Inv s /\ rtc (pool_step run env starts) ([], s) c.
Definition later_state (c c' : list (task unit) * World) : Prop := rtc (pool_step run env starts) c c'.

Lemma stored_inv c : reaches c -> Inv (snd c).
Proof. intros (s & HI & Hr). exact (owned_invariant run env starts drawn gain le rely pre Inv statement_ok removal_ok every_start_ok s c HI Hr). Qed.
Lemma reached_le c c' : reaches c -> later_state c c' -> le (snd c) (snd c').
Proof. intros (s & HI & Hr) Hr'. exact (owned_knows run env starts drawn gain le rely pre Inv statement_ok removal_ok every_start_ok s c c' HI Hr Hr'). Qed.
Lemma reached_later c c' : reaches c -> later_state c c' -> reaches c'.
Proof. intros (s & HI & Hr) Hr'. exists s. split; [done|by etransitivity]. Qed.
