(* ===== verification/MessageRuns.v ===== *)
(** * Stored messages: the theorems

    What [MessageSafe] gives of every interleaving, stated of the table, and runs of
    the programs on concrete tables that show the theorems apply. *)
From stdpp Require Import sets gmap pretty.
From S2P Require Import Prelude JsString Json Prog Owned MutationGuard MessageTable InFlight MessageWriters MessageSends MessageSafe.
Local Open Scope string_scope.
Local Open Scope Z_scope.

(** ** Running a program without faults *)

Definition next_id (s : World) : string := "row" +:+ pretty (Z.of_nat (size (drawn s))).

(** The answers of a database that does not fail, an engine that is live and accepts
    a send as [sent], no directory and nothing held in flight. *)
Definition answer (sent : SendResult) (B : Type) (e : eff B) (s : World) : option (B * World) :=
  match e in eff B return option (B * World) with
  | Find w => Some (Ok (head (matching w (rows s))), s)
  | FindAll w => Some (Ok (matching w (rows s)), s)
  | FindSome w n => Some (Ok (take n (matching w (rows s))), s)
  | Update w p => Some (if unique (update_rows w p (rows s)) then (Ok (length (matching w (rows s))), updated w p s) else (Err UniqueViolation, s))
  | Insert r =>
      let id := next_id s in
      if bool_decide (id ∈ drawn s) then None
      else Some (if unique (rows (inserted id 0 r s)) then (Ok id, inserted id 0 r s) else (Err UniqueViolation, s))
  | InsertIgnore _ => None
  | Delete w => Some (Ok (length (matching w (rows s))), deleted w s)
  | Live => Some (true, s)
  | Directory => Some (None, s)
  | Entry _ => Some (None, s)
  | EntryOf _ => Some (new_entry None, s)
  | HoldOn _ _ | NoteMarked _ _ | Wait _ | Announce _ | Enqueue _ => Some (tt, s)
  | MarkedEdited _ | Closed => Some (false, s)
  | NowText => Some ("2026-01-01T00:00:00.000Z", s)
  | Fresh => Some ("uuid", s)
  | PutFile _ _ => Some (Ok tt, s)
  | GetFile _ => Some (Ok "", s)
  | DropFile _ => Some (Ok tt, s)
  | EngineSend => Some (Ok sent, s)
  end.

Lemma elem_of_matching w m i r : (i, r) ∈ matching w m <-> m !! i = Some r /\ w i r = true.
Proof.
  unfold matching. rewrite list_elem_of_In, List.filter_In, <- list_elem_of_In, elem_of_map_to_list. done.
Qed.

Lemma answer_ok sent B (e : eff B) s b s1 : answer sent B e s = Some (b, s1) -> run B e s b s1.
Proof.
  destruct e; simpl; try (intros [= <- <-]; done).
  - intros [= <- <-]. split; [done|]. right. destruct (matching w (rows s)) as [|[i r] l] eqn:E; simpl.
    + intros i x Hx. destruct (w i x) eqn:Hw; [|done]. assert ((i, x) ∈ matching w (rows s)) as H by by apply elem_of_matching.
      rewrite E in H. by inversion H.
    + apply elem_of_matching. rewrite E. by left.
  - intros [= <- <-]. split; [done|by right].
  - intros [= <- <-]. split; [done|]. right. eexists. split_and!; [reflexivity|by apply sublist_submseteq, sublist_take|apply length_take].
  - intros H. right. destruct (unique _); by injection H as <- <-.
  - destruct (bool_decide (next_id s ∈ drawn s)) eqn:Hd; [done|]. apply bool_decide_eq_false in Hd. intros H.
    exists (next_id s), 0. split; [done|]. right. destruct (unique _); by injection H as <- <-.
  - intros [= <- <-]. by right.
Qed.

(** A task started on a pool and run to its end. *)
Lemma run_task sent p ts s u s' :
  starts s p -> play (answer sent) p s = Some (u, s') -> rtc (pool_step run env starts) (ts, s) (Ret u :: ts, s').
Proof.
  intros Hs Hp. eapply rtc_l; [by apply (ps_start run env starts p)|].
  apply exec_steps. eapply play_exec; [|exact Hp]. apply answer_ok.
Qed.

(** ** The theorems *)

Section theorems.
Context (c c' : list (task unit) * World) (id : string) (r : Row).
Context (start : reaches c) (after : later_state c c') (stored_row : rows (snd c) !! id = Some r).

Lemma row_later r' : rows (snd c') !! id = Some r' -> kept r r'.
Proof.
  intros Hr'. destruct (reached_le c c' start after) as [_ H]. destruct (in_rows _ (stored_inv c start) id r stored_row) as [_ Hi].
  destruct (H id r' Hi Hr') as (x & Hx & Hk). by rewrite Hx in stored_row; injection stored_row as <-.
Qed.

(** C7. A message deleted - by its sender, by this account, in the synced history,
    or delivered deleted - holds no text, metadata or media, and nothing any
    program of the server does afterwards, in any order and with statements that
    fail, gives its row content again: no late edit or reaction, no insert the engine
    repeats, no merge of a send, archive or history import.  As long as that row is
    kept, no other row of the session bears the message's id. *)
Theorem deleted_stays_deleted :
  revoked r = true ->
  cleared r /\
  forall r', rows (snd c') !! id = Some r' ->
    revoked r' = true /\ cleared r' /\
    forall j x wa, rows (snd c') !! j = Some x -> m_waMessageId r = Some wa -> m_sessionId x = m_sessionId r -> m_waMessageId x = Some wa -> j = id.
Proof.
  intros Hv. split; [by apply (in_rows _ (stored_inv c start) id r stored_row)|]. intros r' Hr'. pose proof (row_later r' Hr') as Hk.
  pose proof (stored_inv c' (reached_later c c' start after)) as HI'. assert (revoked r' = true) as Hv' by by apply Hk.
  split_and!; [done|by apply (in_rows _ HI' id r' Hr')|]. intros j x wa Hx Hw Hs Hwx.
  apply (proj1 (unique_iff _) (in_unique _ HI') j id x r' (m_sessionId r, wa) Hx Hr'); unfold key_of.
  - by rewrite Hwx, Hs.
  - destruct (ke_named _ _ Hk wa Hw) as [-> _]. by rewrite (ke_session _ _ Hk).
Qed.

(** C15. Once the engine's id is on a message, the message keeps it, and its delivery
    state is never taken back: it stays, or it is one the earlier state may advance
    to.  A delivered message is then delivered or read, a read one read and a failed
    one failed, whatever acks, sends and sweeps run. *)
Theorem delivery_state_only_advances wa :
  m_waMessageId r = Some wa ->
  forall r', rows (snd c') !! id = Some r' ->
    m_waMessageId r' = Some wa /\
    (m_status r' = m_status r \/ m_status r ∈ ackStatusTransitionFrom (m_status r')) /\
    (m_status r = DELIVERED -> m_status r' = DELIVERED \/ m_status r' = READ) /\
    (m_status r = READ -> m_status r' = READ) /\ (m_status r = FAILED -> m_status r' = FAILED).
Proof.
  intros Hw r' Hr'. destruct (ke_named _ _ (row_later r' Hr') wa Hw) as [Hw' Ha]. split; [done|].
  destruct Ha as [Ha|Ha]; [rewrite Ha; split_and!; auto|]. unfold status_in in Ha. apply existsb_elem in Ha as (x & Hx & Hx').
  apply bool_decide_eq_true in Hx'. rewrite Hx'. split_and!; [by right| | |]; intros E; subst x; rewrite E in Hx; clear -Hx;
    revert Hx; generalize (m_status r'); intros [] Hx; simpl in Hx; set_solver.
Qed.
End theorems.

(** C17. At every state a row of a session is the only one with its engine id, a row
    that says it is deleted is cleared, and a send still pending bears no engine id,
    so no event of the engine can reach it. *)
Theorem stored_messages_are_well_formed :
  forall c, reaches c ->
    (forall i j r x wa, rows (snd c) !! i = Some r -> rows (snd c) !! j = Some x ->
       m_sessionId r = m_sessionId x -> m_waMessageId r = Some wa -> m_waMessageId x = Some wa -> i = j) /\
    (forall i r, rows (snd c) !! i = Some r -> revoked r = true -> cleared r) /\
    (forall i r, rows (snd c) !! i = Some r -> m_status r = PENDING -> m_waMessageId r = None /\ revoked r = false).
Proof.
  intros c Hc. pose proof (stored_inv c Hc) as HI. split_and!.
  - intros i j r x wa Hi Hj Hs Hw Hwx. apply (proj1 (unique_iff _) (in_unique _ HI) i j r x (m_sessionId r, wa) Hi Hj); unfold key_of; [by rewrite Hw|by rewrite Hwx, Hs].
  - intros i r Hi. apply (in_rows _ HI i r Hi).
  - intros i r Hi. apply (in_rows _ HI i r Hi).
Qed.

(** ** Runs on concrete tables *)

Definition played (sent : SendResult) (p : task unit) (s : World) : World :=
  match play (answer sent) p s with Some (_, s') => s' | None => s end.
Definition plays (sent : SendResult) (p : task unit) (s : World) : bool :=
  match play (answer sent) p s with Some _ => true | None => false end.

Lemma run_played sent p ts s : starts s p -> plays sent p s = true -> rtc (pool_step run env starts) (ts, s) (Ret tt :: ts, played sent p s).
Proof.
  unfold plays, played. intros Hs. destruct (play (answer sent) p s) as [[[] s']|] eqn:E; [|done]. intros _. by apply (run_task sent p).
Qed.

Definition no_rows : World := mkWorld ∅ ∅.
Lemma no_rows_inv : Inv no_rows.
Proof. split; [done|vm_compute; reflexivity]. Qed.

Definition accepted : SendResult := mkSent "M9" (Some 200) None.
Definition picture : fields := [("media", JObj [("mimetype", JStr "image/png"); ("data", JStr "QUJD")])].

(** A message arrives, is acknowledged and deleted; an edit and a reaction come late. *)
Definition arrives : task unit := pbind (commitInboundMessage "s" sample_message) (fun _ => skip).
Definition is_read : task unit := handleMessageAck "s" "M1" AckRead None.
Definition is_deleted : task unit := revokeRow "s" "M1" true None.
Definition late_edit : task unit := applyMessageEdit "s" "M1" "back" (mkSource Edit "15550001@c.us" (Some false) None None) false.
Definition late_reaction : task unit := applyReaction "s" "M1" "15550001@c.us" "ann" "+1" false.
Definition late_ack : task unit := handleMessageAck "s" "M1" AckDelivered None.

Definition after_arrival : World := played accepted arrives no_rows.
Definition after_read : World := played accepted is_read after_arrival.
Definition after_deletion : World := played accepted is_deleted after_read.
Definition after_edit : World := played accepted late_edit after_deletion.
Definition after_reaction : World := played accepted late_reaction after_edit.
Definition after_late_ack : World := played accepted late_ack after_reaction.

Definition idle (n : nat) : list (task unit) := replicate n (Ret tt).

Lemma arrival_runs : rtc (pool_step run env starts) ([], no_rows) (idle 1, after_arrival).
Proof. apply (run_played accepted arrives [] no_rows); [constructor|vm_compute; reflexivity]. Qed.
Lemma read_runs : rtc (pool_step run env starts) (idle 1, after_arrival) (idle 2, after_read).
Proof. apply (run_played accepted is_read (idle 1) after_arrival); [constructor|vm_compute; reflexivity]. Qed.
Lemma deletion_runs : rtc (pool_step run env starts) (idle 2, after_read) (idle 3, after_deletion).
Proof. apply (run_played accepted is_deleted (idle 2) after_read); [constructor|vm_compute; reflexivity]. Qed.
Lemma late_runs : rtc (pool_step run env starts) (idle 3, after_deletion) (idle 6, after_late_ack).
Proof.
  transitivity (idle 4, after_edit); [|transitivity (idle 5, after_reaction)].
  - apply (run_played accepted late_edit (idle 3) after_deletion); [constructor|vm_compute; reflexivity].
  - apply (run_played accepted late_reaction (idle 4) after_edit); [constructor|vm_compute; reflexivity].
  - apply (run_played accepted late_ack (idle 5) after_reaction); [constructor|vm_compute; reflexivity].
Qed.

Lemma reaches_arrival : reaches (idle 1, after_arrival).
Proof. exists no_rows. split; [apply no_rows_inv|apply arrival_runs]. Qed.
Lemma reaches_deletion : reaches (idle 3, after_deletion).
Proof.
  exists no_rows. split; [apply no_rows_inv|]. etransitivity; [apply arrival_runs|]. etransitivity; [apply read_runs|apply deletion_runs].
Qed.

Definition arrived_row : Row := with_created (Some 0) (row_of_incoming "s" sample_message).
Definition read_row : Row := with_created (Some 0) (with_status READ (row_of_incoming "s" sample_message)).
Definition deleted_row : Row := REVOKED_ROW_PATCH read_row.

Lemma deleted_stays_deleted_witness :
  rows after_read !! "row0" = Some read_row /\ rows after_deletion !! "row0" = Some deleted_row /\
  (cleared deleted_row /\ forall r', rows after_late_ack !! "row0" = Some r' -> revoked r' = true /\ cleared r' /\
     forall j x wa, rows after_late_ack !! j = Some x -> m_waMessageId deleted_row = Some wa -> m_sessionId x = m_sessionId deleted_row -> m_waMessageId x = Some wa -> j = "row0").
Proof.
  split; [vm_compute; reflexivity|]. split; [vm_compute; reflexivity|].
  apply (deleted_stays_deleted (idle 3, after_deletion) (idle 6, after_late_ack) "row0" deleted_row reaches_deletion late_runs);
    vm_compute; reflexivity.
Defined.

Lemma delivery_state_only_advances_witness :
  rows after_arrival !! "row0" = Some arrived_row /\ rows after_read !! "row0" = Some read_row /\
  (m_waMessageId read_row = Some "M1" /\
   (m_status read_row = m_status arrived_row \/ m_status arrived_row ∈ ackStatusTransitionFrom (m_status read_row)) /\
   (m_status arrived_row = DELIVERED -> m_status read_row = DELIVERED \/ m_status read_row = READ) /\
   (m_status arrived_row = READ -> m_status read_row = READ) /\ (m_status arrived_row = FAILED -> m_status read_row = FAILED)).
Proof.
  split; [vm_compute; reflexivity|]. split; [vm_compute; reflexivity|].
  apply (delivery_state_only_advances (idle 1, after_arrival) (idle 2, after_read) "row0" arrived_row reaches_arrival read_runs);
    vm_compute; reflexivity.
Defined.

Lemma stored_messages_are_well_formed_witness :
  reaches (idle 3, after_deletion) /\ revoked deleted_row = true /\ cleared deleted_row.
Proof.
  split; [apply reaches_deletion|]. split; [vm_compute; reflexivity|].
  apply (proj1 (proj2 (stored_messages_are_well_formed (idle 3, after_deletion) reaches_deletion)) "row0"); vm_compute; reflexivity.
Defined.

(** ** A send whose echo was stored first *)

(** A statement that does not fault. *)
Definition answered {B : Type} (e : eff B) : B -> Prop :=
  match e in eff B return B -> Prop with
  | Find _ => fun r => is_ok r = true
  | Update _ _ => fun r => r = Err UniqueViolation \/ is_ok r = true
  | Delete _ => fun r => is_ok r = true
  | _ => fun _ => True
  end.
Definition sound (B : Type) (e : eff B) (s : World) (b : B) (s' : World) : Prop := run B e s b s' /\ answered e b.

Lemma faultless_answer sent B (e : eff B) s b s1 : answer sent B e s = Some (b, s1) -> sound B e s b s1.
Proof.
  intros H. split; [by eapply answer_ok|]. destruct e; simpl in *; try done; try (by injection H as <- <-).
  destruct (unique _); injection H as <- <-; [by right|by left].
Qed.

(** Statements that concern one row. *)
Lemma update_only w p (m : gmap string Row) j x :
  m !! j = Some x -> w j x = true -> (forall i y, m !! i = Some y -> w i y = true -> i = j) -> update_rows w p m = <[j := p x]> m.
Proof.
  intros Hj Hw Ho. apply map_eq. intros i. unfold update_rows. rewrite map_lookup_imap. destruct (decide (i = j)) as [->|Hne].
  - rewrite lookup_insert_eq, Hj. simpl. by rewrite Hw.
  - rewrite lookup_insert_ne by done. destruct (m !! i) as [y|] eqn:Hy; simpl; [|done]. destruct (w i y) eqn:Hwy; [|done].
    exfalso. apply Hne. by eapply Ho.
Qed.

Lemma unique_same_key (m : gmap string Row) j x y : m !! j = Some x -> key_of y = key_of x -> unique m = true -> unique (<[j := y]> m) = true.
Proof.
  intros Hj Hk Hu. apply unique_iff. intros i i' r r' k Hi Hi' Hr Hr'. pose proof (proj1 (unique_iff m) Hu) as H.
  apply lookup_insert_Some in Hi as [[<- <-]|[Hn Hi]], Hi' as [[<- <-]|[Hn' Hi']]; [done| | |by eapply H].
  - rewrite Hk in Hr. by apply (H j i' x r' k).
  - rewrite Hk in Hr'. by apply (H i j r x k).
Qed.

Lemma delete_only id (m : gmap string Row) : delete_rows (by_id id) m = base.delete id m.
Proof.
  apply map_eq. intros i. unfold delete_rows, by_id. rewrite map_lookup_imap. destruct (decide (i = id)) as [->|Hne].
  - rewrite lookup_delete_eq. destruct (m !! id); simpl; [by rewrite String.eqb_refl|done].
  - rewrite lookup_delete_ne by done. destruct (m !! i); simpl; [|done]. by rewrite (proj2 (String.eqb_neq _ _) Hne).
Qed.

(** An update without faults of the one row a condition matches, its key kept. *)
Lemma sound_update w p s j x b s1 :
  sound _ (Update w p) s b s1 -> unique (rows s) = true -> rows s !! j = Some x -> w j x = true ->
  (forall i y, rows s !! i = Some y -> w i y = true -> i = j) -> key_of (p x) = key_of x ->
  (exists n, b = Ok (S n)) /\ s1 = mkWorld (<[j := p x]> (rows s)) (drawn s).
Proof.
  intros [Hr Ha] Hu Hj Hw Ho Hk. assert (updated w p s = mkWorld (<[j := p x]> (rows s)) (drawn s)) as He.
  { unfold updated, with_rows. by rewrite (update_only w p (rows s) j x). }
  destruct Hr as [(t & -> & _)|Hr]; [by destruct Ha|]. rewrite (update_only w p (rows s) j x) in Hr by done.
  rewrite (unique_same_key _ j x) in Hr by done. destruct Hr as [-> ->]. split; [|exact He].
  destruct (length (matching w (rows s))) as [|n] eqn:Hl; [|by exists n].
  assert ((j, x) ∈ matching w (rows s)) as Hin by by apply elem_of_matching. destruct (matching w (rows s)); [by inversion Hin|done].
Qed.

Section echo_first.
Context (sid wa id j : string) (archiveOutbound : bool) (s : World) (pending echo message : Row) (t : Z) (label : option string) (changed : bool).
Context (Hinv : Inv s) (named_answer : wa <> "").
Context (own : rows s !! id = Some pending) (is_pending : m_status pending = PENDING) (own_session : m_sessionId pending = sid).
Context (stored_echo : rows s !! j = Some echo) (echo_session : m_sessionId echo = sid) (echo_wa : m_waMessageId echo = Some wa).
Context (echo_kept : revoked echo = false) (message_session : m_sessionId message = sid).

Lemma pending_is_not_echo : id <> j.
Proof.
  intros ->. rewrite own in stored_echo. injection stored_echo as E.
  destruct (ro_pending pending) as [H _]; [by apply (in_rows s Hinv j)|done|]. congruence.
Qed.

Lemma is_echo m i y : unique m = true -> m !! j = Some y -> key_of y = Some (sid, wa) -> forall x, m !! i = Some x -> by_message sid wa i x = true -> i = j.
Proof.
  intros Hu Hj Hk x Hx Hm. apply (proj1 (unique_iff m) Hu i j x y (sid, wa)); try done. pose proof (named sid wa i x Hm) as Hw.
  unfold key_of. rewrite Hw. apply where_and in Hm as [Hs _]. unfold by_session in Hs. apply String.eqb_eq in Hs. by rewrite Hs.
Qed.

Lemma echo_key : key_of echo = Some (sid, wa).
Proof. unfold key_of. by rewrite echo_wa, echo_session. Qed.

Lemma echo_matches y : m_sessionId y = sid -> m_waMessageId y = Some wa -> forall i, by_message sid wa i y = true.
Proof. intros H1 H2 i. unfold by_message, Row_and, by_session, by_wa. rewrite H1, H2, String.eqb_refl. by apply bool_decide_eq_true. Qed.

(** The echo's row with what the send has to add. *)
Definition merged_echo : Row :=
  with_time (Some t)
    (match worth_merging (m_metadata message) with
     | Some m => with_metadata (Some (mergeSentMetadata (default [] (m_metadata echo)) m)) echo
     | None => echo
     end).

Lemma merge_onto_echo :
  wp sound (merge_onto sid wa (m_metadata message))
    (fun r s1 => r = Ok tt /\ drawn s1 = drawn s /\ exists y, rows s1 = <[j := y]> (rows s) /\ with_time (Some t) y = merged_echo /\
       m_sessionId y = sid /\ m_waMessageId y = Some wa) s.
Proof.
  unfold merge_onto, merged_echo. destruct (worth_merging (m_metadata message)) as [m|].
  2: { split_and!; [done|done|]. exists echo. split_and!; [by rewrite insert_id|done|done|done]. }
  unfold updateMessageMetadata. cbn [metadata_attempts pbind act wp]. intros r s1 [[-> Hr] Ha].
  assert (by_message sid wa j echo && not_revoked j echo = true) as Hm.
  { rewrite echo_matches by done. unfold not_revoked. by rewrite echo_kept. }
  destruct r as [[[i x]|]|f]; [| |done].
  2: { destruct Hr as [[f [=]]|Hr]. specialize (Hr j echo stored_echo). unfold Row_and at 1 in Hr. congruence. }
  destruct Hr as [[f [=]]|[Hx Hw]]. apply where_and in Hw as [Hw _].
  assert (i = j) as -> by exact (is_echo (rows s) i echo (in_unique s Hinv) stored_echo echo_key x Hx Hw).
  assert (x = echo) as -> by congruence. cbn [pbind wp]. intros b s2 Hu.
  destruct (sound_update _ _ s j echo b s2 Hu (in_unique s Hinv) stored_echo) as [[n ->] ->].
  - unfold Row_and. fold (not_revoked j echo). unfold Row_and in Hm. rewrite Hm. unfold has_snapshot, same_snapshot. by apply bool_decide_eq_true.
  - intros i y Hy [[H _]%where_and _]%where_and. exact (is_echo (rows s) i echo (in_unique s Hinv) stored_echo echo_key y Hy H).
  - done.
  - cbn. split_and!; [done|done|]. eexists. split_and!; [done|done|done|done].
Qed.

(** Naming the pending row would put the id on two rows. *)
Lemma naming_collides m' : m_waMessageId m' = Some wa ->
  unique (update_rows (own_row sid id &&& of_status PENDING) (sent_columns m' changed) (rows s)) = false.
Proof.
  intros Hm. apply not_true_is_false. intros Hu. apply pending_is_not_echo.
  assert (m_waMessageId (sent_columns m' changed pending) = Some wa /\ m_sessionId (sent_columns m' changed pending) = sid) as [Hw Hs].
  { unfold sent_columns. rewrite Hm. destruct changed, (m_timestamp m'), (m_body m'), (m_metadata m'); done. }
  apply (proj1 (unique_iff _) Hu id j (sent_columns m' changed pending) echo (sid, wa)).
  - unfold update_rows. rewrite map_lookup_imap, own. simpl. unfold Row_and, own_row, Row_and, by_id, by_session, of_status.
    by rewrite own_session, !String.eqb_refl, is_pending.
  - unfold update_rows. rewrite map_lookup_imap, stored_echo. simpl. unfold Row_and, own_row, Row_and, by_id.
    rewrite (proj2 (String.eqb_neq j id)); [done|]. intros E. exact (pending_is_not_echo (eq_sym E)).
  - unfold key_of. by rewrite Hw, Hs.
  - apply echo_key.
Qed.

Lemma emit_found_wp w (Q : unit -> World -> Prop) s1 : (forall s2, s2 = s1 -> Q tt s2) -> wp sound (emit_found archiveOutbound w) Q s1.
Proof.
  intros H. unfold emit_found, attempt. cbn [pbind act wp]. intros r s2 [[-> _] _]. destruct r as [[[i x]|]|f]; [|by apply H|by apply H].
  unfold emitPersisted. cbn [pbind act wp]. intros _ s2 [-> _]. destruct (m_status x); try (by apply H).
  destruct archiveOutbound; [|by apply H]. cbn [pbind act wp]. intros [] s2 [-> _]. by apply H.
Qed.

Lemma merge_with_echo_wp m' :
  m_metadata m' = m_metadata message -> m_timestamp m' = Some t ->
  wp sound (merge_with_echo sid archiveOutbound id wa m' changed false) (fun _ s1 => rows s1 = base.delete id (<[j := merged_echo]> (rows s))) s.
Proof.
  intros Hmeta Ht. unfold merge_with_echo. apply wp_bind. rewrite Hmeta, Ht. eapply wp_mono; [apply merge_onto_echo|].
  intros r s1 (-> & Hd & y & Hy & Hm & Hs & Hw). cbn [pbind act wp]. intros b s2 Hu.
  assert (key_of y = key_of echo) as Hk by (rewrite echo_key; unfold key_of; by rewrite Hw, Hs).
  assert (unique (rows s1) = true) as Hu1 by (rewrite Hy; by apply (unique_same_key _ j echo), Hinv).
  assert (rows s1 !! j = Some y) as Hj by (rewrite Hy; apply lookup_insert_eq).
  destruct (sound_update _ _ s1 j y b s2 Hu Hu1 Hj) as [_ ->]; [by apply echo_matches| |done|].
  { intros i x Hx Hmx. refine (is_echo (rows s1) i y Hu1 Hj _ x Hx Hmx). by rewrite Hk, echo_key. }
  rewrite Hm, Hy, insert_insert_eq. cbn [pbind act wp rows drawn]. intros n s2 [Hdel Ha].
  destruct Hdel as [(f & -> & _)|[_ ->]]; [by simpl in Ha|]. apply wp_bind. apply emit_found_wp. intros s2 ->. intros [] s2 [-> _].
  unfold deleted, with_rows. cbn [rows]. apply delete_only.
Qed.
End echo_first.

(** C16. The engine's echo of a send may be stored before the send names its own
    pending row.  When no statement faults, the send then ends with one row: the
    echo's, with its own body, type and delivery state, the engine's time, and this
    send's metadata merged into it unless that only points at a URL; the pending row
    is gone and no other row is touched. *)
Theorem a_send_merges_with_its_echo :
  forall (sid wa id j : string) (archiveOutbound : bool) (s : World) (pending echo message : Row) (t : Z) (label : option string) (changed : bool) (s' : World),
    Inv s -> wa <> "" ->
    rows s !! id = Some pending -> m_status pending = PENDING -> m_sessionId pending = sid ->
    rows s !! j = Some echo -> m_sessionId echo = sid -> m_waMessageId echo = Some wa -> revoked echo = false ->
    exec sound (persistSentState sid archiveOutbound id message (mkSent wa (Some t) label) changed) s tt s' ->
    rows s' = base.delete id (<[j := merged_echo echo message t]> (rows s)).
Proof.
  intros sid wa id j archiveOutbound s pending echo message t label changed s' HI Hwa Hown Hp Hps Hecho Hes Hew Her Hexec.
  refine (wp_exec sound _ (fun _ s1 => rows s1 = base.delete id (<[j := merged_echo echo message t]> (rows s))) s tt s' _ Hexec). clear s' Hexec.
  unfold persistSentState. cbn [sr_id sr_timestamp]. assert (truthy (Some wa) = Some wa) as -> by by destruct wa.
  cbn [pbind act wp]. intros b s1 [Hrun Ha]. cbn [run] in Hrun.
  rewrite (naming_collides sid wa id j s pending echo changed HI Hown Hp Hps Hecho Hes Hew) in Hrun by done.
  destruct Hrun as [(f & -> & _)|[-> ->]]; [by destruct Ha|].
  by eapply (merge_with_echo_wp sid wa id j).
Qed.

(** A picture sent while its echo is stored: the echo has the caption and a media
    marker, the send the picture. *)
Definition sent_data : SaveOutgoingMessageData := mkData None "15550001@c.us" (Some "a cat") "image" None None (Some picture) None.
Definition echo_message : IncomingMessage :=
  mkIncoming "M9" "15550002@c.us" "15550001@c.us" "15550001@c.us" "a cat" "image" (Some 150) true None false None None None None None None None [] [] None.

Definition with_pending : World := inserted "row0" 0 (outgoing_row "s" (Some "15550002") sent_data) no_rows.
Definition with_echo : World := inserted "row1" 0 (row_of_echo "s" echo_message) with_pending.
Definition after_merge : World :=
  played accepted (persistSentState "s" false "row0" (outgoing_row "s" (Some "15550002") sent_data) accepted false) with_echo.

Lemma with_echo_inv : Inv with_echo.
Proof.
  apply (insert_moved ∅); [apply (insert_moved ∅); [apply no_rows_inv|apply outgoing_row_ok; split; done|done|vm_compute; reflexivity]| | |].
  - by apply sent_row_ok.
  - unfold with_pending, inserted, no_rows. simpl. set_solver.
  - vm_compute. reflexivity.
Qed.

Lemma a_send_merges_with_its_echo_witness :
  (exists r, rows after_merge !! "row1" = Some r /\ m_metadata r = Some picture /\ m_timestamp r = Some 200) /\
  rows after_merge = base.delete "row0" (<[ "row1" := merged_echo (stamp 0 (row_of_echo "s" echo_message)) (outgoing_row "s" (Some "15550002") sent_data) 200]> (rows with_echo)).
Proof.
  split; [eexists; split_and!; vm_compute; reflexivity|].
  apply (a_send_merges_with_its_echo "s" "M9" "row0" "row1" false with_echo (stamp 0 (outgoing_row "s" (Some "15550002") sent_data))
    (stamp 0 (row_of_echo "s" echo_message)) (outgoing_row "s" (Some "15550002") sent_data) 200 None false);
    [apply with_echo_inv|done|vm_compute; reflexivity|vm_compute; reflexivity|vm_compute; reflexivity|vm_compute; reflexivity|
     vm_compute; reflexivity|vm_compute; reflexivity|vm_compute; reflexivity|].
  apply (play_exec sound (answer accepted)); [apply faultless_answer|]. vm_compute. reflexivity.
Defined.
