(* ===== verification/Admission.v ===== *)
(** * Admission of inbound messages

    modules/session/inbound-room.ts, and of message-projector.service.ts the class
    [InboundTurn], [admitInbound] and what the entries in flight and the chat queues
    do with it, for one session: a message admitted on arrival has its place in the
    hook and commit order of its chat ([KeyedLock]), an entry that changes reach, and
    a claim on the session's room when it downloads media ([Limiter]).  A callback of
    the promise queue is a step, and so are the engine's calls; objects are numbered
    in the order of their creation. *)
From stdpp Require Import gmap.
From S2P Require Import Prelude JsString KeyedLock Limiter MutationGuard MessageTable InFlight.
Local Open Scope nat_scope.

(** ** The data *)

(** [RoomState]: the claim of a message, in the room it was made on.  [cl_holds]
    counts the promises of [holds] that have not settled; [cl_waits] is a caller that
    waits for the grant since [cl_asked]; [cl_released] that the slot is free again and
    the continuation of the request has yet to run; [cl_told] that a caller was told
    it has room. *)
Record RoomState := mkClaim {
  cl_room : nat; cl_granted : bool; cl_abandoned : bool; cl_holds : nat;
  cl_asked : option Z; cl_waits : bool; cl_released : bool; cl_told : bool
}.

Inductive TurnState := TPending | TEmitted | TDropped.
#[export] Instance TurnState_eq : EqDecision TurnState.
Proof. solve_decision. Defined.

(** [InboundTurn] with the delivery it admits.  A delivery without a ticket is a turn
    that was never pending.  [t_shared] is the entry counted for it and [t_entry] the
    one its changes are read from; [t_emit] and [t_commit] its calls on the queues of
    its chat; [t_finished] that [finish] ran, which resolves [done]; [t_processing]
    that the engine still works on it; [t_preparing] that an identity comparison is
    under way. *)
Record InboundTurn := mkTurn {
  t_plain : bool; t_engine : nat; t_key : option string; t_chat : string; t_status : bool;
  t_shared : nat; t_entry : nat; t_state : TurnState; t_emit : option nat; t_commit : option nat;
  t_finished : bool; t_claim : option RoomState; t_processing : bool; t_preparing : bool
}.

(** [InboundRoom]. *)
Record InboundRoom := mkRoom { gate : Pool; lastRelease : Z }.

(** The session: its live engine, the deliveries, the entries with their holders, the
    map of entries by message id, the two queues, the rooms and the one in [rooms]. *)
Record Session := mkSession {
  live : option nat; turns : list InboundTurn; entries : list (InFlightEntry * nat); inboundInFlight : gmap string nat;
  chatEmits : Chains; chatCommits : Chains; rooms : list InboundRoom; current : option nat; now : Z
}.

(** ** Updates *)

Definition with_state x t := mkTurn (t_plain t) (t_engine t) (t_key t) (t_chat t) (t_status t) (t_shared t) (t_entry t) x (t_emit t) (t_commit t) (t_finished t) (t_claim t) (t_processing t) (t_preparing t).
Definition with_entry o t := mkTurn (t_plain t) (t_engine t) (t_key t) (t_chat t) (t_status t) (t_shared t) o (t_state t) (t_emit t) (t_commit t) (t_finished t) (t_claim t) (t_processing t) (t_preparing t).
Definition with_claim c t := mkTurn (t_plain t) (t_engine t) (t_key t) (t_chat t) (t_status t) (t_shared t) (t_entry t) (t_state t) (t_emit t) (t_commit t) (t_finished t) c (t_processing t) (t_preparing t).
Definition with_processing b t := mkTurn (t_plain t) (t_engine t) (t_key t) (t_chat t) (t_status t) (t_shared t) (t_entry t) (t_state t) (t_emit t) (t_commit t) (t_finished t) (t_claim t) b (t_preparing t).
Definition with_preparing b t := mkTurn (t_plain t) (t_engine t) (t_key t) (t_chat t) (t_status t) (t_shared t) (t_entry t) (t_state t) (t_emit t) (t_commit t) (t_finished t) (t_claim t) (t_processing t) b.
Definition finished t := mkTurn (t_plain t) (t_engine t) (t_key t) (t_chat t) (t_status t) (t_shared t) (t_entry t) (t_state t) (t_emit t) (t_commit t) true (t_claim t) (t_processing t) (t_preparing t).

Definition granted (c : RoomState) := mkClaim (cl_room c) true (cl_abandoned c) (cl_holds c) (cl_asked c) (cl_waits c) (cl_released c) (cl_told c).
Definition abandoned (c : RoomState) := mkClaim (cl_room c) (cl_granted c) true (cl_holds c) (cl_asked c) (cl_waits c) (cl_released c) (cl_told c).
Definition with_holds n c := mkClaim (cl_room c) (cl_granted c) (cl_abandoned c) n (cl_asked c) (cl_waits c) (cl_released c) (cl_told c).
Definition asks a c := mkClaim (cl_room c) (cl_granted c) (cl_abandoned c) (cl_holds c) a true (cl_released c) (cl_told c).
Definition answers b c := mkClaim (cl_room c) (cl_granted c) (cl_abandoned c) (cl_holds c) (cl_asked c) false (cl_released c) b.
Definition with_released b c := mkClaim (cl_room c) (cl_granted c) (cl_abandoned c) (cl_holds c) (cl_asked c) (cl_waits c) b (cl_told c).

Definition on_claim (f : RoomState -> RoomState) (t : InboundTurn) : InboundTurn := with_claim (f <$> t_claim t) t.

Definition with_live x s := mkSession x (turns s) (entries s) (inboundInFlight s) (chatEmits s) (chatCommits s) (rooms s) (current s) (now s).
Definition with_turns x s := mkSession (live s) x (entries s) (inboundInFlight s) (chatEmits s) (chatCommits s) (rooms s) (current s) (now s).
Definition with_entries x s := mkSession (live s) (turns s) x (inboundInFlight s) (chatEmits s) (chatCommits s) (rooms s) (current s) (now s).
Definition with_flight x s := mkSession (live s) (turns s) (entries s) x (chatEmits s) (chatCommits s) (rooms s) (current s) (now s).
Definition with_emits x s := mkSession (live s) (turns s) (entries s) (inboundInFlight s) x (chatCommits s) (rooms s) (current s) (now s).
Definition with_commits x s := mkSession (live s) (turns s) (entries s) (inboundInFlight s) (chatEmits s) x (rooms s) (current s) (now s).
Definition with_rooms x s := mkSession (live s) (turns s) (entries s) (inboundInFlight s) (chatEmits s) (chatCommits s) x (current s) (now s).
Definition with_current x s := mkSession (live s) (turns s) (entries s) (inboundInFlight s) (chatEmits s) (chatCommits s) (rooms s) x (now s).
Definition with_now x s := mkSession (live s) (turns s) (entries s) (inboundInFlight s) (chatEmits s) (chatCommits s) (rooms s) (current s) x.

Definition put (i : nat) (f : InboundTurn -> InboundTurn) (s : Session) : Session := with_turns (alter f i (turns s)) s.
Definition put_claim (i : nat) (f : RoomState -> RoomState) (s : Session) : Session := put i (on_claim f) s.

(** The configuration: INBOUND_MEDIA_CONCURRENCY, MEDIA_DOWNLOAD_TIMEOUT_MS and
    whether there is a lid store to compare identities with. *)
Section config.
Context (inboundMediaConcurrency inboundMediaTimeoutMs : Z) (lids : bool).

(** ** [InboundTurn] *)

Definition giveUp_claim (c : RoomState) : RoomState := if cl_granted c then c else abandoned c.
Definition giveUp : InboundTurn -> InboundTurn := on_claim giveUp_claim.

Definition emit (t : InboundTurn) : InboundTurn := match t_state t with TPending => with_state TEmitted t | _ => t end.
Definition drop (t : InboundTurn) : InboundTurn := match t_state t with TPending => giveUp (with_state TDropped t) | _ => t end.

(** Whether a message was revoked while it was held. *)
Definition entry_of (o : nat) (s : Session) : InFlightEntry := match entries s !! o with Some (e, _) => e | None => new_entry None end.
Definition revoked_turn (t : InboundTurn) (s : Session) : bool := e_revoked (entry_of (t_entry t) s).

(** What [reserve] answers at once: no room, room, or a promise of the grant or of the
    end of the comparison. *)
Inductive Reserve := NoRoom | HasRoom | Waits | Prepares.
Definition reserve (i : nat) (s : Session) : Session * Reserve :=
  match turns s !! i with
  | Some t =>
      match t_claim t with
      | Some c =>
          if bool_decide (t_state t = TDropped) then (s, NoRoom)
          else if t_preparing t then (s, Prepares)
          else if revoked_turn t s then (put i giveUp s, NoRoom)
          else if cl_granted c then (put_claim i (answers true) s, HasRoom)
          else (put_claim i (asks (Some (default (now s) (cl_asked c)))) s, Waits)
      | None => (s, NoRoom)
      end
  | None => (s, NoRoom)
  end.

(** ** [InboundRoom] *)

Definition new_room (s : Session) : InboundRoom := mkRoom (newPool inboundMediaConcurrency None) (now s).
Definition idle (r : InboundRoom) : bool := (active (lim (gate r)) =? 0)%Z && bool_decide (waiters (lim (gate r)) = []).
Definition put_room (r : nat) (p : Pool -> Pool) (s : Session) : Session :=
  with_rooms (alter (fun x => mkRoom (p (gate x)) (lastRelease x)) r (rooms s)) s.
Definition room_of (r : nat) (s : Session) : InboundRoom := default (new_room s) (rooms s !! r).

(** The task of [request] starts: a claim given up passes its slot on. *)
Definition enter (c : RoomState) : RoomState := if cl_abandoned c then c else granted c.

(** [request]: a free slot is granted before it returns. *)
Definition request (i r : nat) (s : Session) : Session :=
  let s := put_room r (fun p => fst (Limiter.start i p)) s in
  match tasks (gate (room_of r s)) !! i with Some Limiter.Running => put_claim i enter s | _ => s end.

(** A parked task is handed a slot. *)
Definition resume_request (i : nat) (s : Session) : option Session :=
  t ← turns s !! i; c ← t_claim t;
  match tasks (gate (room_of (cl_room c) s)) !! i with
  | Some (Woken _) => Some (put_claim i enter (put_room (cl_room c) (Limiter.resume i) s))
  | _ => None
  end.

(** Its end: the row is written, or nothing will be, and every hold settled. *)
Definition may_end (t : InboundTurn) (c : RoomState) : bool :=
  if cl_granted c then t_finished t && (cl_holds c =? 0)%nat else cl_abandoned c.
Definition end_request (i : nat) (s : Session) : option Session :=
  t ← turns s !! i; c ← t_claim t;
  match tasks (gate (room_of (cl_room c) s)) !! i with
  | Some Limiter.Running =>
      if may_end t c then Some (put_claim i (with_released true) (put_room (cl_room c) (Limiter.finish i) s)) else None
  | _ => None
  end.

Definition deleteRoomIfIdle (s : Session) : Session :=
  match current s with
  | Some r => if idle (room_of r s) then with_current None s else s
  | None => s
  end.

(** The continuations of [request], of the room and of [admitInbound]. *)
Definition after_request (i : nat) (s : Session) : option Session :=
  t ← turns s !! i; c ← t_claim t;
  if cl_released c then
    let s := put_claim i (with_released false) (with_rooms (alter (fun x => mkRoom (gate x) (now s)) (cl_room c) (rooms s)) s) in
    Some (match live s with None => deleteRoomIfIdle s | Some _ => s end)
  else None.

(** The timer of [wait]: it gives up once the room made no progress for the window. *)
Definition window : Z := 2 * inboundMediaTimeoutMs.
Definition timeout (i : nat) (s : Session) : option Session :=
  t ← turns s !! i; c ← t_claim t; a ← cl_asked c;
  if cl_granted c || cl_abandoned c then None
  else if (now s - Z.max (lastRelease (room_of (cl_room c) s)) a <? window)%Z then None
  else Some (put_claim i abandoned s).

(** The caller that waited reads the grant. *)
Definition wake_caller (i : nat) (s : Session) : option Session :=
  t ← turns s !! i; c ← t_claim t;
  if cl_waits c && (cl_granted c || cl_abandoned c) then Some (put_claim i (answers (cl_granted c && negb (revoked_turn t s))) s) else None.

(** ** Entries *)

(** The entry of a message id, or a new one that takes its place. *)
Definition entry_for (key : option string) (fresh : InFlightEntry) (s : Session) : nat * Session :=
  let new := length (entries s) in
  let s' := with_entries (entries s ++ [(fresh, 0)]) s in
  match key with
  | Some k => match inboundInFlight s !! k with Some o => (o, s) | None => (new, with_flight (<[k := new]> (inboundInFlight s)) s') end
  | None => (new, s')
  end.
Definition put_entry (o : nat) (f : InFlightEntry * nat -> InFlightEntry * nat) (s : Session) : Session := with_entries (alter f o (entries s)) s.
Definition holder (e : InFlightEntry * nat) : InFlightEntry * nat := (fst e, S (snd e)).
Definition unholder (e : InFlightEntry * nat) : InFlightEntry * nat := (fst e, pred (snd e)).
Definition set_ref (ref : StoredMessageRef) (e : InFlightEntry * nat) : InFlightEntry * nat :=
  (mkEntry (Some (default ref (e_ref (fst e)))) (e_revoked (fst e)) (e_revokeAnnounced (fst e)) (e_editedBody (fst e)) (e_body (fst e))
    (e_edited (fst e)) (e_acks (fst e)) (e_reactions (fst e)), snd e).

Definition holders_of (o : nat) (s : Session) : nat := match entries s !! o with Some (_, n) => n | None => 0 end.

(** [finish] of [admitInbound], and [untrackInFlight]. *)
Definition finish (i : nat) (s : Session) : Session :=
  match turns s !! i with
  | Some t =>
      let s := put_entry (t_shared t) unholder s in
      let s := match t_key t with
               | Some k => if (holders_of (t_shared t) s =? 0)%nat && bool_decide (inboundInFlight s !! k = Some (t_shared t))
                           then with_flight (delete k (inboundInFlight s)) s else s
               | None => s
               end in
      put i finished s
  | None => s
  end.

(** ** Arrivals *)

Record Arrival := mkArrival { a_id : string; a_chatId : string; a_needsRoom : bool; a_status : bool; a_fromMe : option bool; a_author : option string }.

Definition key_of_id (id : string) : option string := if String.eqb id "" then None else Some id.
Definition ref_of (chat : string) (fromMe : bool) (author : option string) : StoredMessageRef :=
  mkRef chat (Some (direction_of fromMe)) author.

Definition room (s : Session) : nat * Session :=
  match current s with
  | Some r => (r, s)
  | None => (length (rooms s), with_current (Some (length (rooms s))) (with_rooms (rooms s ++ [new_room s]) s))
  end.

(** The entry counted for an arrival, the one its changes are read from - its own when
    the shared one is of another message - and whether the two differ. *)
Definition arrival_entry (key : option string) (a : Arrival) (s : Session) : nat * nat * bool * Session :=
  let '(o, s) := entry_for key (new_entry None) s in
  let ref := match a_fromMe a with Some me => Some (ref_of (a_chatId a) me (a_author a)) | None => None end in
  let s := match key, ref with Some _, Some ref => put_entry o (set_ref ref) s | _, _ => s end in
  let s := put_entry o holder s in
  let source := mkSource Edit (a_chatId a) (a_fromMe a) (a_author a) None in
  let separate := match e_ref (entry_of o s) with
                  | Some ref => bool_decide (is_Some (mutationTargetsForeignRow ref source None))
                  | None => false
                  end in
  if separate then (o, length (entries s), true, with_entries (entries s ++ [(new_entry ref, 0)]) s) else (o, o, false, s).

(** [admitInbound] by the live engine [e]; the engine then registers its processing
    as a hold on the ticket. *)
Definition admitInbound (e : nat) (a : Arrival) (s : Session) : Session :=
  let i := length (turns s) in
  let key := if a_status a then None else key_of_id (a_id a) in
  let '(o, scoped, separate, s) := arrival_entry key a s in
  let '(r, s) := if a_needsRoom a then (let '(r, s) := room s in (Some r, s)) else (None, s) in
  let claim := match r with Some r => Some (mkClaim r false false 1 None false false false) | None => None end in
  let preparing := bool_decide (is_Some key) && separate && lids in
  let queued := negb (a_status a) in
  let t := mkTurn false e key (a_chatId a) (a_status a) o scoped TPending
             (if queued then Some (length (calls (chatEmits s))) else None) (if queued then Some (length (calls (chatCommits s))) else None)
             false claim true preparing in
  let s := with_turns (turns s ++ [t]) s in
  let s := if queued then with_commits (enqueue (chatCommits s) (a_chatId a)) (with_emits (enqueue (chatEmits s) (a_chatId a)) s) else s in
  match r with Some r => request i r s | None => s end.

(** A delivery without a ticket that is a message to store: [trackInFlight], and its
    commit on its chat. *)
Definition deliver (e : nat) (id chat : string) (fromMe : bool) (author : option string) (s : Session) : Session :=
  let ref := ref_of chat fromMe author in
  let key := key_of_id id in
  let '(o, s) := entry_for key (new_entry (Some ref)) s in
  let s := match key with Some _ => put_entry o holder s | None => s end in
  let t := mkTurn true e key chat false o o TEmitted None (Some (length (calls (chatCommits s)))) false None false false in
  with_commits (enqueue (chatCommits s) chat) (with_turns (turns s ++ [t]) s).

(** [handleInboundMessage] or [handleOwnSendEcho] with a ticket: a status is ingested
    and keeps the room until the ingest settles, a message skipped or of an engine no
    longer live is dropped, any other is emitted. *)
Definition handle (i : nat) (status skipped : bool) (ref : StoredMessageRef) (s : Session) : Session :=
  match turns s !! i with
  | Some t =>
      if negb (bool_decide (live s = Some (t_engine t))) then put i drop s
      else if status then put i drop (put_claim i (fun c => with_holds (S (cl_holds c)) c) s)
      else if skipped then put i drop s
      else put i drop (put i emit (put_entry (t_entry t) (set_ref ref) s))
  | None => s
  end.

(** The engine's processing of a message settles. *)
Definition processed (i : nat) (s : Session) : option Session :=
  t ← turns s !! i;
  if t_processing t then Some (put i (with_processing false) (put_claim i (fun c => with_holds (pred (cl_holds c)) c) s)) else None.

(** Another hold, made while the engine works on the message, and its end. *)
Definition holdUntil (i : nat) (s : Session) : option Session :=
  t ← turns s !! i; if t_processing t then Some (put_claim i (fun c => with_holds (S (cl_holds c)) c) s) else None.
Definition hold_settles (i : nat) (s : Session) : option Session :=
  t ← turns s !! i; c ← t_claim t;
  if ((if t_processing t then 1 else 0) <? cl_holds c)%nat then Some (put_claim i (fun c => with_holds (pred (cl_holds c)) c) s) else None.

(** The identity comparison of a repeat ended: it is the message of the shared entry,
    it is not, or nobody waits for it any more. *)
Definition prepared (i : nat) (same : bool) (s : Session) : option Session :=
  t ← turns s !! i;
  if t_preparing t then
    let s' := put i (with_preparing false) s in
    match t_key t ≫= fun k => inboundInFlight s !! k with
    | Some o =>
        if same && bool_decide (live s = Some (t_engine t)) && negb (bool_decide (t_state t = TDropped)) then
          let s' := put i (with_entry o) s' in
          Some (if e_revoked (entry_of o s) then put i giveUp s' else s')
        else Some s'
    | None => Some s'
    end
  else None.

(** ** Changes, and the engine's retirement *)

Definition gives_up_with (o : nat) (t : InboundTurn) : InboundTurn :=
  if negb (t_plain t) && negb (t_finished t) && (t_entry t =? o)%nat then giveUp t else t.

(** A change that reached a message in flight ([InFlight.hold]); a revoke frees the
    room its media waits for. *)
Definition change (k : string) (c : Change) (s : Session) : Session :=
  match inboundInFlight s !! k with
  | Some o =>
      let s := put_entry o (fun e => (hold c (fst e), snd e)) s in
      match c with Revoked => with_turns (map (gives_up_with o) (turns s)) s | _ => s end
  | None => s
  end.

Definition drops_with (e : nat) (t : InboundTurn) : InboundTurn :=
  if negb (t_plain t) && negb (t_finished t) && (t_engine t =? e)%nat then drop t else t.

(** [onRetire]: the live engine was replaced or removed. *)
Definition retire (e : nat) (next : option nat) (s : Session) : Session :=
  let s := with_live next s in
  deleteRoomIfIdle (with_turns (map (drops_with e) (turns s)) s).

(** ** The queues *)

(** The hook gate of a turn opens when its call on [chatEmits] begins; the call ends
    once the turn was emitted or dropped. *)
Definition emitted_ends (i : nat) (s : Session) : option Session :=
  t ← turns s !! i; c ← t_emit t;
  if bool_decide (t_state t = TPending) then None
  else q ← settle (chatEmits s) c true; Some (with_emits q s).

(** The call on [chatCommits] waits for the outcome, runs the job of an emitted message
    and finishes; the job may throw. *)
Definition commit_ends (i : nat) (ok : bool) (s : Session) : option Session :=
  t ← turns s !! i; c ← t_commit t;
  if bool_decide (t_state t = TPending) || (bool_decide (t_state t = TDropped) && negb ok) then None
  else q ← settle (chatCommits s) c ok; Some (finish i (with_commits q s)).

(** A status has no turn on the queues. *)
Definition status_ends (i : nat) (s : Session) : option Session :=
  t ← turns s !! i;
  if t_status t && negb (t_finished t) && negb (bool_decide (t_state t = TPending)) then Some (finish i s) else None.

Definition on_emits (f : Chains -> option Chains) (s : Session) : option Session := q ← f (chatEmits s); Some (with_emits q s).
Definition on_commits (f : Chains -> option Chains) (s : Session) : option Session := q ← f (chatCommits s); Some (with_commits q s).

(** ** The steps *)

(** Callbacks that run by themselves once what they wait for settled. *)
Inductive callback : Session -> Session -> Prop :=
| cb_gate s c s' : on_emits (fun q => begin q c) s = Some s' -> callback s s'
| cb_emitted s i s' : emitted_ends i s = Some s' -> callback s s'
| cb_emit_cleanup s c s' : on_emits (fun q => cleanup q c) s = Some s' -> callback s s'
| cb_commit s c s' : on_commits (fun q => begin q c) s = Some s' -> callback s s'
| cb_committed s i ok s' : commit_ends i ok s = Some s' -> callback s s'
| cb_commit_cleanup s c s' : on_commits (fun q => cleanup q c) s = Some s' -> callback s s'
| cb_status s i s' : status_ends i s = Some s' -> callback s s'
| cb_processed s i s' : processed i s = Some s' -> callback s s'
| cb_held s i s' : hold_settles i s = Some s' -> callback s s'
| cb_prepared s i same s' : prepared i same s = Some s' -> callback s s'
| cb_resume s i s' : resume_request i s = Some s' -> callback s s'
| cb_end s i s' : end_request i s = Some s' -> callback s s'
| cb_after s i s' : after_request i s = Some s' -> callback s s'
| cb_caller s i s' : wake_caller i s = Some s' -> callback s s'.

(** What comes from outside: arrivals, the engine's calls while it works on a message,
    changes, timers, and the registry of engines. *)
Inductive event : Session -> Session -> Prop :=
| ev_admit s e a : live s = Some e -> event s (admitInbound e a s)
| ev_deliver s e id chat me author : live s = Some e -> event s (deliver e id chat me author s)
| ev_reserve s i t : turns s !! i = Some t -> t_processing t = true -> event s (fst (reserve i s))
| ev_handle s i t status skipped ref : turns s !! i = Some t -> t_processing t = true -> event s (handle i status skipped ref s)
| ev_drop s i : event s (put i drop s)
| ev_hold s i s' : holdUntil i s = Some s' -> event s s'
| ev_change s k c : event s (change k c s)
| ev_timeout s i s' : timeout i s = Some s' -> event s s'
| ev_tick s t : (now s <= t)%Z -> event s (with_now t s)
| ev_start s e : live s = None -> event s (with_live (Some e) s)
| ev_retire s e next : live s = Some e -> next <> Some e -> event s (retire e next s).

Definition opened (t : Z) : Session := mkSession None [] [] ∅ idle_chains idle_chains [] None t.
Definition moves (s s' : Session) : Prop := callback s s' \/ event s s'.
Definition admitted (s : Session) : Prop := exists t, rtc moves (opened t) s.
End config.
