(* ===== verification/AdmissionQueues.v ===== *)
(** * Admission of inbound messages: the queues

    The first part of the invariant of [Admission]: what joins the turns of a session
    to their calls on the queues of hooks and commits.  It reads the live engine, the
    queues and the [Link] of each turn; [links_moves] shows every move keeps it. *)
From stdpp Require Import gmap sorting.
From S2P Require Import Prelude Counting JsString KeyedLock Limiter MutationGuard MessageTable InFlight Admission.
Local Open Scope nat_scope.

(** ** Lists changed in place *)

Lemma map_alter_same {A B} (g : A -> B) (f : A -> A) i (l : list A) : (forall x, g (f x) = g x) -> map g (alter f i l) = map g l.
Proof.
  intros H. apply list_eq. intros j. rewrite !list_lookup_fmap. destruct (decide (i = j)) as [->|].
  - rewrite list_lookup_alter_eq. destruct (l !! j); simpl; [by rewrite H|done].
  - by rewrite list_lookup_alter_ne.
Qed.
Lemma map_map_same {A B} (g : A -> B) (f : A -> A) (l : list A) : (forall x, g (f x) = g x) -> map g (map f l) = map g l.
Proof. intros H. rewrite map_map. by apply map_ext. Qed.

(** ** Turns and queues *)

Record Link := mkLink { l_plain : bool; l_engine : nat; l_chat : string; l_status : bool; l_state : TurnState; l_emit : option nat; l_commit : option nat; l_done : bool }.
Definition link (t : InboundTurn) : Link :=
  mkLink (t_plain t) (t_engine t) (t_chat t) (t_status t) (t_state t) (t_emit t) (t_commit t) (t_finished t).
Definition links (s : Session) : list Link := map link (turns s).

(** A turn's calls are its chat's, in the order of the turns; its commit settles as it
    finishes and its emit call not while it is pending; only the live engine's turns
    are pending. *)
Record LinkOk (lv : option nat) (ls : list Link) (em cm : Chains) : Prop := mkLinkOk {
  lk_emits : KeyedLock.reachable em;
  lk_commits : KeyedLock.reachable cm;
  lk_commit : forall i t b, ls !! i = Some t -> l_commit t = Some b -> exists c, calls cm !! b = Some c /\ ckey c = l_chat t /\ settled (stage c) = l_done t;
  lk_emit : forall i t a, ls !! i = Some t -> l_emit t = Some a -> exists c, calls em !! a = Some c /\ ckey c = l_chat t /\ (settled (stage c) = true -> l_state t <> TPending);
  lk_queued : forall i t, ls !! i = Some t -> l_status t = false -> is_Some (l_commit t) /\ (l_plain t = false -> is_Some (l_emit t));
  lk_status : forall i t, ls !! i = Some t -> l_status t = true -> l_commit t = None;
  lk_order : forall i j t u, ls !! i = Some t -> ls !! j = Some u -> i < j ->
    (forall b b', l_commit t = Some b -> l_commit u = Some b' -> b < b') /\ (forall a a', l_emit t = Some a -> l_emit u = Some a' -> a < a');
  lk_cowner : forall b c, calls cm !! b = Some c -> exists i t, ls !! i = Some t /\ l_commit t = Some b;
  lk_eowner : forall a c, calls em !! a = Some c -> exists i t, ls !! i = Some t /\ l_emit t = Some a;
  lk_pending : forall i t, ls !! i = Some t -> l_state t = TPending -> l_plain t = false /\ l_done t = false /\ lv = Some (l_engine t)
}.
Definition Links (s : Session) : Prop := LinkOk (live s) (links s) (chatEmits s) (chatCommits s).

(** A queue moved, its calls keeping their keys and which of them settled. *)
Definition steady (q q' : Chains) : Prop :=
  KeyedLock.step q q' /\
  (forall b c, calls q !! b = Some c -> exists c', calls q' !! b = Some c' /\ ckey c' = ckey c /\ settled (stage c') = settled (stage c)) /\
  (forall b c', calls q' !! b = Some c' -> exists c, calls q !! b = Some c).

Lemma put_stage_steady q b c g t es :
  calls q !! b = Some c -> settled g = settled (stage c) -> KeyedLock.step q (mkChains t (put_stage q b c g) es) -> steady q (mkChains t (put_stage q b c g) es).
Proof.
  intros Hb Hg Hs. split; [done|]. cbn. split.
  - intros j d Hj. destruct (stage_keeps q b c g j d Hb Hj) as (d' & Hd' & Hk & Hne & He). exists d'. split_and!; [done|done|].
    destruct (decide (j = b)) as [->|E]; [rewrite He by done; congruence|by rewrite Hne].
  - intros j d' [(-> & ->)|(_ & Hj)]%(stage_cases q b c g j d' Hb); eauto.
Qed.
Lemma begin_steady q b q' : begin q b = Some q' -> steady q q'.
Proof.
  intros H. pose proof (s_begin q b q' H) as Hs. unfold begin in H. apply bind_Some in H as (c & Hc & H). destruct (stage c) eqn:E; try done.
  destruct (ready q c); [|done]. injection H as <-. apply put_stage_steady; [done|by rewrite E|done].
Qed.
Lemma cleanup_steady q b q' : cleanup q b = Some q' -> steady q q'.
Proof.
  intros H. pose proof (s_cleanup q b q' H) as Hs. unfold cleanup in H. apply bind_Some in H as (c & Hc & H). destruct (stage c) eqn:E; try done.
  injection H as <-. apply put_stage_steady; [done|by rewrite E|done].
Qed.

(** A call that settles: the others stay. *)
Lemma settle_cases q b ok q' : settle q b ok = Some q' ->
  KeyedLock.step q q' /\ exists c, calls q !! b = Some c /\ stage c = KeyedLock.Running /\ calls q' = put_stage q b c (Settled ok).
Proof.
  intros H. split; [by apply (s_settle q b ok)|]. unfold settle in H. apply bind_Some in H as (c & Hc & H). destruct (stage c) eqn:E; try done.
  injection H as <-. by exists c.
Qed.

(** The calls of a queue keep their places and keys. *)
Definition in_place (q q' : Chains) : Prop :=
  (forall b c, calls q !! b = Some c -> exists c', calls q' !! b = Some c' /\ ckey c' = ckey c) /\
  (forall b c', calls q' !! b = Some c' -> is_Some (calls q !! b)).
#[export] Instance in_place_refl : Reflexive in_place.
Proof. intros q. split; eauto. Qed.
Lemma steady_in_place q q' : steady q q' -> in_place q q'.
Proof. intros (_ & H & H'). split; [intros b c Hb; destruct (H b c Hb) as (c' & ? & ? & _); eauto|]. intros b c Hb. destruct (H' b c Hb); eauto. Qed.
Lemma put_in_place q b c g q' : calls q !! b = Some c -> calls q' = put_stage q b c g -> in_place q q'.
Proof.
  intros Hb E. unfold in_place. rewrite E. split.
  - intros j d Hj. destruct (stage_keeps q b c g j d Hb Hj) as (d' & Hd' & Hk & _). eauto.
  - intros j d' [(-> & ->)|(_ & Hj)]%(stage_cases q b c g j d' Hb); eauto.
Qed.
Lemma reachable_step q q' : KeyedLock.reachable q -> KeyedLock.step q q' -> KeyedLock.reachable q'.
Proof. intros H Hs. eapply rtc_r; [exact H|exact Hs]. Qed.

(** What a turn's calls are does not change. *)
Definition relinked (t t' : Link) : Prop :=
  l_plain t' = l_plain t /\ l_engine t' = l_engine t /\ l_chat t' = l_chat t /\ l_status t' = l_status t /\ l_emit t' = l_emit t /\ l_commit t' = l_commit t.

Lemma links_change lv lv' ls ls' em em' cm cm' :
  LinkOk lv ls em cm -> KeyedLock.reachable em' -> KeyedLock.reachable cm' -> in_place em em' -> in_place cm cm' -> Forall2 relinked ls ls' ->
  (forall i t t' b c', ls !! i = Some t -> ls' !! i = Some t' -> l_commit t' = Some b -> calls cm' !! b = Some c' -> settled (stage c') = l_done t') ->
  (forall i t t' a c', ls !! i = Some t -> ls' !! i = Some t' -> l_emit t' = Some a -> calls em' !! a = Some c' -> settled (stage c') = true -> l_state t' <> TPending) ->
  (forall i t t', ls !! i = Some t -> ls' !! i = Some t' -> l_state t' = TPending -> l_plain t' = false /\ l_done t' = false /\ lv' = Some (l_engine t')) ->
  LinkOk lv' ls' em' cm'.
Proof.
  intros H Hre Hrc [He1 He2] [Hc1 Hc2] Hr Hc He Hp.
  assert (forall i t', ls' !! i = Some t' -> exists t, ls !! i = Some t /\ relinked t t') as Hback.
  { intros i t' Ht'. destruct (Forall2_lookup_r _ _ _ _ _ Hr Ht') as (t & Ht & Hrel). eauto. }
  assert (forall i t, ls !! i = Some t -> exists t', ls' !! i = Some t' /\ relinked t t') as Hfwd.
  { intros i t Ht. destruct (Forall2_lookup_l _ _ _ _ _ Hr Ht) as (t' & Ht' & Hrel). eauto. }
  split; try done.
  - intros i t' b Ht' Hb. destruct (Hback i t' Ht') as (t & Ht & E1 & E2 & E3 & E4 & E5 & E6). destruct (lk_commit _ _ _ _ H i t b Ht) as (c & Hcb & Hk & _); [congruence|].
    destruct (Hc1 b c Hcb) as (c' & Hc' & Hk'). exists c'. split_and!; [done|congruence|by eapply Hc].
  - intros i t' a Ht' Ha. destruct (Hback i t' Ht') as (t & Ht & E1 & E2 & E3 & E4 & E5 & E6). destruct (lk_emit _ _ _ _ H i t a Ht) as (c & Hca & Hk & _); [congruence|].
    destruct (He1 a c Hca) as (c' & Hc' & Hk'). exists c'. split_and!; [done|congruence|by eapply He].
  - intros i t' Ht' Hs. destruct (Hback i t' Ht') as (t & Ht & E1 & E2 & E3 & E4 & E5 & E6). rewrite E5, E6, E1. apply (lk_queued _ _ _ _ H i t Ht). congruence.
  - intros i t' Ht' Hs. destruct (Hback i t' Ht') as (t & Ht & E1 & E2 & E3 & E4 & E5 & E6). rewrite E6. apply (lk_status _ _ _ _ H i t Ht). congruence.
  - intros i j t' u' Ht' Hu' Hij. destruct (Hback i t' Ht') as (t & Ht & E1 & E2 & E3 & E4 & E5 & E6), (Hback j u' Hu') as (u & Hu & F1 & F2 & F3 & F4 & F5 & F6).
    rewrite E5, E6, F5, F6. by apply (lk_order _ _ _ _ H i j t u).
  - intros b c' Hb. destruct (Hc2 b c' Hb) as [c Hcb]. destruct (lk_cowner _ _ _ _ H b c Hcb) as (i & t & Ht & Hl). destruct (Hfwd i t Ht) as (t' & Ht' & E1 & E2 & E3 & E4 & E5 & E6).
    exists i, t'. split; [done|congruence].
  - intros a c' Ha. destruct (He2 a c' Ha) as [c Hca]. destruct (lk_eowner _ _ _ _ H a c Hca) as (i & t & Ht & Hl). destruct (Hfwd i t Ht) as (t' & Ht' & E1 & E2 & E3 & E4 & E5 & E6).
    exists i, t'. split; [done|congruence].
  - intros i t' Ht' Hs. destruct (Hback i t' Ht') as (t & Ht & _). by eapply Hp.
Qed.

Lemma relinked_refl ls : Forall2 relinked ls ls.
Proof. apply Forall2_same_length_lookup. split; [done|]. intros i x y Hx Hy. assert (x = y) as -> by congruence. done. Qed.

(** A queue that moved without settling anything. *)
Lemma links_steady_commits lv ls em cm cm' : LinkOk lv ls em cm -> steady cm cm' -> LinkOk lv ls em cm'.
Proof.
  intros H Hs. pose proof (steady_in_place _ _ Hs) as Hp. destruct Hs as (Hs & Hf & _).
  apply (links_change lv lv ls ls em em cm cm' H); try done; [apply H|by eapply reachable_step, Hs; apply H|apply relinked_refl|..].
  - intros i t t' b c' Ht Ht' Hb Hc'. assert (t' = t) as -> by congruence. destruct (lk_commit _ _ _ _ H i t b Ht Hb) as (c & Hc & _ & Hd).
    destruct (Hf b c Hc) as (c2 & Hc2 & _ & Hs2). assert (c2 = c') as -> by congruence. congruence.
  - intros i t t' a c' Ht Ht' Ha Hc' Hset. assert (t' = t) as -> by congruence. destruct (lk_emit _ _ _ _ H i t a Ht Ha) as (c & Hc & _ & Hd). apply Hd. congruence.
  - intros i t t' Ht Ht'. assert (t' = t) as -> by congruence. by apply (lk_pending _ _ _ _ H i).
Qed.
Lemma links_steady_emits lv ls em em' cm : LinkOk lv ls em cm -> steady em em' -> LinkOk lv ls em' cm.
Proof.
  intros H Hs. pose proof (steady_in_place _ _ Hs) as Hp. destruct Hs as (Hs & Hf & _).
  apply (links_change lv lv ls ls em em' cm cm H); try done; [by eapply reachable_step, Hs; apply H|apply H|apply relinked_refl|..].
  - intros i t t' b c' Ht Ht' Hb Hc'. assert (t' = t) as -> by congruence. destruct (lk_commit _ _ _ _ H i t b Ht Hb) as (c & Hc & _ & Hd). congruence.
  - intros i t t' a c' Ht Ht' Ha Hc' Hset. assert (t' = t) as -> by congruence. destruct (lk_emit _ _ _ _ H i t a Ht Ha) as (c & Hc & _ & Hd). apply Hd.
    destruct (Hf a c Hc) as (c2 & Hc2 & _ & Hs2). congruence.
  - intros i t t' Ht Ht'. assert (t' = t) as -> by congruence. by apply (lk_pending _ _ _ _ H i).
Qed.

(** Only the states of turns moved: none became pending. *)
Definition decides (lv : option nat) (t t' : Link) : Prop :=
  relinked t t' /\ l_done t' = l_done t /\ (l_state t' = TPending -> l_state t = TPending /\ lv = Some (l_engine t)).
Lemma links_decide lv lv' ls ls' em cm : LinkOk lv ls em cm -> Forall2 (decides lv') ls ls' -> LinkOk lv' ls' em cm.
Proof.
  intros H Hd. assert (Forall2 relinked ls ls') as Hr by (eapply Forall2_impl; [exact Hd|]; by intros ? ? []).
  assert (forall i t t', ls !! i = Some t -> ls' !! i = Some t' -> decides lv' t t') as Hat by (intros i t t'; by apply Forall2_lookup_lr).
  apply (links_change lv lv' ls ls' em em cm cm H); try done; [apply H|apply H|..].
  - intros i t t' b c' Ht Ht' Hb Hc'. destruct (Hat i t t' Ht Ht') as ((_ & _ & _ & _ & _ & E) & Hdn & _). destruct (lk_commit _ _ _ _ H i t b Ht) as (c & Hc & _ & Hset); congruence.
  - intros i t t' a c' Ht Ht' Ha Hc' Hset Hp. destruct (Hat i t t' Ht Ht') as ((_ & _ & _ & _ & E & _) & _ & Hpen). destruct (lk_emit _ _ _ _ H i t a Ht) as (c & Hc & _ & Hs); [congruence|].
    apply Hs; [congruence|]. by apply Hpen.
  - intros i t t' Ht Ht' Hp. destruct (Hat i t t' Ht Ht') as ((E1 & E2 & _) & Hdn & Hpen). destruct (Hpen Hp) as [Hp0 Hlv]. destruct (lk_pending _ _ _ _ H i t Ht Hp0) as (? & ? & ?).
    split_and!; congruence.
Qed.

(** The emit call of a decided turn settles. *)
Lemma links_emit_settles lv ls em em' cm i t a :
  LinkOk lv ls em cm -> ls !! i = Some t -> l_emit t = Some a -> l_state t <> TPending -> settle em a true = Some em' -> LinkOk lv ls em' cm.
Proof.
  intros H Hi Ha Hst Hs. destruct (settle_cases em a true em' Hs) as (Hstep & c & Hc & Hrun & Hcalls).
  apply (links_change lv lv ls ls em em' cm cm H); try done; [by eapply reachable_step, Hstep; apply H|apply H|by eapply put_in_place|apply relinked_refl|..].
  - intros j u u' b c' Hu Hu' Hb Hc'. assert (u' = u) as -> by congruence. destruct (lk_commit _ _ _ _ H j u b Hu Hb) as (c2 & Hc2 & _ & Hd). congruence.
  - intros j u u' a' c' Hu Hu' Ha' Hc' Hset. assert (u' = u) as -> by congruence. rewrite Hcalls in Hc'.
    destruct (stage_cases em a c _ a' c' Hc Hc') as [(-> & _)|(_ & Hc2)].
    + destruct (Nat.lt_trichotomy i j) as [Hlt|[->|Hlt]]; [|congruence|].
      * destruct (lk_order _ _ _ _ H i j t u Hi Hu Hlt) as [_ Ho]. specialize (Ho a a Ha Ha'). lia.
      * destruct (lk_order _ _ _ _ H j i u t Hu Hi Hlt) as [_ Ho]. specialize (Ho a a Ha' Ha). lia.
    + destruct (lk_emit _ _ _ _ H j u a' Hu Ha') as (c3 & Hc3 & _ & Hd). apply Hd. congruence.
  - intros j u u' Hu Hu'. assert (u' = u) as -> by congruence. by apply (lk_pending _ _ _ _ H j).
Qed.

(** A turn finished. *)
Definition done (t : Link) : Link := mkLink (l_plain t) (l_engine t) (l_chat t) (l_status t) (l_state t) (l_emit t) (l_commit t) true.
Lemma relinked_done i (ls : list Link) : Forall2 relinked ls (alter done i ls).
Proof.
  apply Forall2_same_length_lookup. split; [by rewrite length_alter|]. intros j x y Hx Hy. destruct (decide (i = j)) as [->|].
  - rewrite list_lookup_alter_eq, Hx in Hy. by injection Hy as <-.
  - rewrite list_lookup_alter_ne in Hy by done. assert (x = y) as -> by congruence. done.
Qed.
Lemma lookup_done (i j : nat) (ls : list Link) t t' : ls !! j = Some t -> alter done i ls !! j = Some t' -> (i = j /\ t' = done t) \/ (i <> j /\ t' = t).
Proof.
  intros Hx Hy. destruct (decide (i = j)) as [->|].
  - rewrite list_lookup_alter_eq, Hx in Hy. injection Hy as <-. by left.
  - rewrite list_lookup_alter_ne in Hy by done. right. split; [done|congruence].
Qed.

Lemma links_commit_settles lv ls em cm cm' i t b ok :
  LinkOk lv ls em cm -> ls !! i = Some t -> l_commit t = Some b -> l_state t <> TPending -> settle cm b ok = Some cm' ->
  LinkOk lv (alter done i ls) em cm' /\ l_done t = false.
Proof.
  intros H Hi Hb Hst Hs. destruct (settle_cases cm b ok cm' Hs) as (Hstep & c & Hc & Hrun & Hcalls). split.
  2: { destruct (lk_commit _ _ _ _ H i t b Hi Hb) as (c2 & Hc2 & _ & Hd). rewrite <- Hd. assert (c2 = c) as -> by congruence. by rewrite Hrun. }
  apply (links_change lv lv ls _ em em cm cm' H); try done; [apply H|by eapply reachable_step, Hstep; apply H|by eapply put_in_place|apply relinked_done|..].
  - intros j u u' b' c' Hu Hu' Hb' Hc'. rewrite Hcalls in Hc'. destruct (lookup_done i j ls u u' Hu Hu') as [[<- ->]|[Hne ->]]; cbn in Hb' |- *.
    + assert (u = t) as -> by congruence. destruct (stage_cases cm b c _ b' c' Hc Hc') as [(_ & ->)|(Hx & _)]; [done|congruence].
    + destruct (stage_cases cm b c _ b' c' Hc Hc') as [(-> & _)|(_ & Hc2)].
      * destruct (Nat.lt_trichotomy i j) as [Hlt|[->|Hlt]]; [|done|].
        -- destruct (lk_order _ _ _ _ H i j t u Hi Hu Hlt) as [Ho _]. specialize (Ho b b Hb Hb'). lia.
        -- destruct (lk_order _ _ _ _ H j i u t Hu Hi Hlt) as [Ho _]. specialize (Ho b b Hb' Hb). lia.
      * destruct (lk_commit _ _ _ _ H j u b' Hu Hb') as (c3 & Hc3 & _ & Hd). congruence.
  - intros j u u' a c' Hu Hu' Ha Hc' Hset. assert (l_emit u = Some a /\ l_state u' = l_state u) as [Ha2 ->].
    { destruct (lookup_done i j ls u u' Hu Hu') as [[_ ->]|[_ ->]]; done. }
    destruct (lk_emit _ _ _ _ H j u a Hu Ha2) as (c3 & Hc3 & _ & Hd). apply Hd. congruence.
  - intros j u u' Hu Hu' Hp. destruct (lookup_done i j ls u u' Hu Hu') as [[<- ->]|[_ ->]]; [|by apply (lk_pending _ _ _ _ H j)].
    assert (u = t) as -> by congruence. done.
Qed.

Lemma links_status_done lv ls em cm i t :
  LinkOk lv ls em cm -> ls !! i = Some t -> l_status t = true -> l_state t <> TPending -> LinkOk lv (alter done i ls) em cm.
Proof.
  intros H Hi Hstatus Hst. apply (links_change lv lv ls _ em em cm cm H); try done; [apply H|apply H|apply relinked_done|..].
  - intros j u u' b c' Hu Hu' Hb Hc'. destruct (lookup_done i j ls u u' Hu Hu') as [[<- ->]|[Hne ->]]; cbn in Hb.
    + assert (u = t) as -> by congruence. rewrite (lk_status _ _ _ _ H i t Hi Hstatus) in Hb. done.
    + destruct (lk_commit _ _ _ _ H j u b Hu Hb) as (c3 & Hc3 & _ & Hd). congruence.
  - intros j u u' a c' Hu Hu' Ha Hc' Hset. assert (l_emit u = Some a /\ l_state u' = l_state u) as [Ha2 ->].
    { destruct (lookup_done i j ls u u' Hu Hu') as [[_ ->]|[_ ->]]; done. }
    destruct (lk_emit _ _ _ _ H j u a Hu Ha2) as (c3 & Hc3 & _ & Hd). apply Hd. congruence.
  - intros j u u' Hu Hu' Hp. destruct (lookup_done i j ls u u' Hu Hu') as [[<- ->]|[_ ->]]; [|by apply (lk_pending _ _ _ _ H j)].
    assert (u = t) as -> by congruence. done.
Qed.

(** A turn arrived; [commit] and [emit] say which queues take it. *)
Definition queue_if (b : bool) (q : Chains) (chat : string) : Chains := if b then enqueue q chat else q.
Lemma queue_if_calls b q chat : calls (queue_if b q chat) = (calls q ++ (if b then [mkCall chat (tails q !! chat) KeyedLock.Waiting] else []))%list.
Proof. destruct b; [done|]. cbn. by rewrite app_nil_r. Qed.
Lemma queue_if_reachable b q chat : KeyedLock.reachable q -> KeyedLock.reachable (queue_if b q chat).
Proof. intros H. destruct b; [|done]. eapply reachable_step; [exact H|]. apply (s_run q chat). Qed.

Lemma links_append lv ls em cm t (commit emit : bool) :
  LinkOk lv ls em cm ->
  l_commit t = (if commit then Some (length (calls cm)) else None) -> l_emit t = (if emit then Some (length (calls em)) else None) ->
  l_done t = false -> (l_state t = TPending -> l_plain t = false /\ lv = Some (l_engine t)) ->
  commit = negb (l_status t) -> (l_plain t = false -> emit = negb (l_status t)) ->
  LinkOk lv (ls ++ [t]) (queue_if emit em (l_chat t)) (queue_if commit cm (l_chat t)).
Proof.
  intros H Hc He Hd Hp Hq Hq'.
  assert (forall b c q (x : list Call), calls q !! b = Some c -> (calls q ++ x)%list !! b = Some c) as Hkeep by (intros; by apply lookup_app_l_Some).
  split; rewrite ?queue_if_calls.
  - apply queue_if_reachable, H.
  - apply queue_if_reachable, H.
  - intros i u b [Hu|[-> ->]]%lookup_snoc Hb.
    + destruct (lk_commit _ _ _ _ H i u b Hu Hb) as (c & Hcb & Hrest). exists c. split; [by apply Hkeep|done].
    + rewrite Hc in Hb. destruct commit; [|done]. injection Hb as <-. eexists. split; [rewrite lookup_app_r, Nat.sub_diag by lia; done|]. by rewrite Hd.
  - intros i u b [Hu|[-> ->]]%lookup_snoc Hb.
    + destruct (lk_emit _ _ _ _ H i u b Hu Hb) as (c & Hcb & Hrest). exists c. split; [by apply Hkeep|done].
    + rewrite He in Hb. destruct emit; [|done]. injection Hb as <-. eexists. split; [rewrite lookup_app_r, Nat.sub_diag by lia; done|]. done.
  - intros i u [Hu|[-> ->]]%lookup_snoc Hs; [by apply (lk_queued _ _ _ _ H i)|]. rewrite Hc, He, Hq, Hs. split; [by eexists|]. intros Hpl. rewrite (Hq' Hpl), Hs. by eexists.
  - intros i u [Hu|[-> ->]]%lookup_snoc Hs; [by apply (lk_status _ _ _ _ H i)|]. by rewrite Hc, Hq, Hs.
  - intros i j u v [Hu|[-> ->]]%lookup_snoc [Hv|[-> ->]]%lookup_snoc Hij; [by apply (lk_order _ _ _ _ H i j)| | |lia].
    + split; intros b b' Hb Hb'.
      * rewrite Hc in Hb'. destruct commit; [|done]. injection Hb' as <-. destruct (lk_commit _ _ _ _ H i u b Hu Hb) as (c & Hcb & _). by eapply lookup_lt_Some.
      * rewrite He in Hb'. destruct emit; [|done]. injection Hb' as <-. destruct (lk_emit _ _ _ _ H i u b Hu Hb) as (c & Hcb & _). by eapply lookup_lt_Some.
    + apply lookup_lt_Some in Hv. lia.
  - intros b c Hb. destruct commit; [|rewrite app_nil_r in Hb]; [apply lookup_snoc in Hb as [Hb|[-> ->]]|].
    + destruct (lk_cowner _ _ _ _ H b c Hb) as (i & u & Hu & Hl). exists i, u. split; [by apply lookup_app_l_Some|done].
    + exists (length ls), t. split; [by rewrite lookup_app_r, Nat.sub_diag by lia|done].
    + destruct (lk_cowner _ _ _ _ H b c Hb) as (i & u & Hu & Hl). exists i, u. split; [by apply lookup_app_l_Some|done].
  - intros b c Hb. destruct emit; [|rewrite app_nil_r in Hb]; [apply lookup_snoc in Hb as [Hb|[-> ->]]|].
    + destruct (lk_eowner _ _ _ _ H b c Hb) as (i & u & Hu & Hl). exists i, u. split; [by apply lookup_app_l_Some|done].
    + exists (length ls), t. split; [by rewrite lookup_app_r, Nat.sub_diag by lia|done].
    + destruct (lk_eowner _ _ _ _ H b c Hb) as (i & u & Hu & Hl). exists i, u. split; [by apply lookup_app_l_Some|done].
  - intros i u [Hu|[-> ->]]%lookup_snoc Hs; [by apply (lk_pending _ _ _ _ H i)|]. destruct (Hp Hs). by rewrite Hd.
Qed.

(** ** What parts of the session a move leaves *)

Lemma link_on_claim f t : link (on_claim f t) = link t.
Proof. done. Qed.
Lemma links_put i f s : (forall t, link (f t) = link t) -> links (put i f s) = links s.
Proof. intros H. unfold links, put. cbn. by apply map_alter_same. Qed.

(** Only entries and their map differ. *)
Definition but_entries (s s' : Session) : Prop :=
  live s' = live s /\ turns s' = turns s /\ chatEmits s' = chatEmits s /\ chatCommits s' = chatCommits s /\ rooms s' = rooms s /\ current s' = current s /\ now s' = now s.
(** Only claims and rooms differ. *)
Definition but_rooms (s s' : Session) : Prop :=
  live s' = live s /\ length (turns s') = length (turns s) /\ (forall i, with_claim None <$> turns s' !! i = with_claim None <$> turns s !! i) /\
  entries s' = entries s /\ inboundInFlight s' = inboundInFlight s /\ chatEmits s' = chatEmits s /\ chatCommits s' = chatCommits s.

Lemma but_rooms_links s s' : but_rooms s s' -> links s' = links s.
Proof.
  intros (_ & _ & H & _). apply list_eq. intros i. unfold links. rewrite !list_lookup_fmap. specialize (H i).
  destruct (turns s' !! i) as [t|], (turns s !! i) as [u|]; cbn in *; try done. f_equal. injection H. intros. unfold link. congruence.
Qed.
#[export] Instance but_rooms_refl : Reflexive but_rooms.
Proof. intros s. by split_and!. Qed.
#[export] Instance but_rooms_trans : Transitive but_rooms.
Proof.
  intros a b c (H1 & H2 & H3 & H4 & H5 & H6 & H7) (K1 & K2 & K3 & K4 & K5 & K6 & K7). split_and!; try congruence.
Qed.
Lemma put_claim_but i f s : but_rooms s (put_claim i f s).
Proof.
  split_and!; try done; [cbn; by rewrite length_alter|]. intros j. cbn. destruct (decide (i = j)) as [->|].
  - rewrite list_lookup_alter_eq. by destruct (turns s !! j).
  - by rewrite list_lookup_alter_ne.
Qed.
Lemma with_rooms_but x s : but_rooms s (with_rooms x s).
Proof. done. Qed.
Lemma with_current_but x s : but_rooms s (with_current x s).
Proof. done. Qed.

Section moves.
Context (conc window_ms : Z) (lids : bool).

Lemma entry_for_but key e s : but_entries s (snd (entry_for key e s)).
Proof. unfold entry_for. destruct key as [k|]; [destruct (inboundInFlight s !! k)|]; done. Qed.
Lemma arrival_entry_but key a s : but_entries s (snd (arrival_entry key a s)).
Proof.
  unfold arrival_entry. pose proof (entry_for_but key (new_entry None) s) as H. destruct (entry_for key (new_entry None) s) as [o s1]. cbn in H.
  destruct key, (a_fromMe a); cbn; destruct (e_ref _); try destruct (bool_decide _); exact H.
Qed.
Lemma room_but s : but_rooms s (snd (room conc s)).
Proof. unfold room. by destruct (current s). Qed.
Lemma request_but i r s : but_rooms s (request conc i r s).
Proof.
  unfold request. set (s1 := put_room r _ s). assert (but_rooms s s1) as H by done.
  destruct (tasks _ !! i) as [[]|]; try exact H. etransitivity; [exact H|apply put_claim_but].
Qed.
Lemma delete_room_but s : but_rooms s (deleteRoomIfIdle conc s).
Proof. unfold deleteRoomIfIdle. destruct (current s); [|done]. by destruct (idle _). Qed.

Lemma finish_fields i s :
  live (finish i s) = live s /\ turns (finish i s) = alter finished i (turns s) /\ chatEmits (finish i s) = chatEmits s /\ chatCommits (finish i s) = chatCommits s /\
  rooms (finish i s) = rooms s /\ current (finish i s) = current s /\ now (finish i s) = now s.
Proof.
  unfold finish. destruct (turns s !! i) as [t|] eqn:Hi.
  - destruct (t_key t); [case_match|]; done.
  - split_and!; try done. apply list_eq. intros j. destruct (decide (i = j)) as [->|]; [by rewrite list_lookup_alter_eq, Hi|by rewrite list_lookup_alter_ne].
Qed.
Lemma links_finish i s : links (finish i s) = alter done i (links s).
Proof.
  destruct (finish_fields i s) as (_ & H & _). unfold links. rewrite H. apply list_eq. intros j. rewrite list_lookup_fmap.
  destruct (decide (i = j)) as [->|]; [rewrite !list_lookup_alter_eq|rewrite !list_lookup_alter_ne by done]; rewrite list_lookup_fmap; by destruct (turns s !! j).
Qed.

(** ** Every move *)

Lemma links_same s s' : live s' = live s -> links s' = links s -> chatEmits s' = chatEmits s -> chatCommits s' = chatCommits s -> Links s -> Links s'.
Proof. unfold Links. by intros -> -> -> ->. Qed.
Lemma links_but_rooms s s' : but_rooms s s' -> Links s -> Links s'.
Proof. intros H. pose proof (but_rooms_links s s' H). destruct H as (? & _ & _ & _ & _ & ? & ?). by apply links_same. Qed.
Lemma links_put_same i f s : (forall t, link (f t) = link t) -> Links s -> Links (put i f s).
Proof. intros H. apply links_same; try done. by apply links_put. Qed.

Lemma drop_decides lv t : decides lv (link t) (link (drop t)).
Proof. unfold drop, decides. destruct (t_state t) eqn:E; cbn; rewrite ?E; done. Qed.
Lemma emit_decides lv t : decides lv (link t) (link (emit t)).
Proof. unfold emit, decides. destruct (t_state t) eqn:E; cbn; rewrite ?E; done. Qed.

(** One turn is emitted or dropped. *)
Lemma links_put_decides i f s :
  (forall t, turns s !! i = Some t -> t_state (f t) <> TPending /\ relinked (link t) (link (f t)) /\ t_finished (f t) = t_finished t) -> Links s -> Links (put i f s).
Proof.
  intros Hf H. unfold Links. cbn. eapply links_decide; [exact H|]. unfold links. cbn. apply Forall2_same_length_lookup. split; [by rewrite !length_map, length_alter|].
  intros j x y Hx Hy. rewrite list_lookup_fmap in Hx, Hy. destruct (turns s !! j) as [t|] eqn:Hj; [|done]. injection Hx as <-. destruct (decide (i = j)) as [->|Hne].
  - rewrite list_lookup_alter_eq, Hj in Hy. injection Hy as <-. destruct (Hf t Hj) as (Hst & Hr & Hd). by split_and!.
  - rewrite list_lookup_alter_ne, Hj in Hy by done. injection Hy as <-. split_and!; try done. intros Hp. split; [done|].
    apply (lk_pending _ _ _ _ H j (link t)); [unfold links; by rewrite list_lookup_fmap, Hj|done].
Qed.
Lemma drop_not_pending t : t_state (drop t) <> TPending.
Proof. unfold drop. by destruct (t_state t) eqn:E; cbn; rewrite ?E. Qed.
Lemma emit_not_pending t : t_state (emit t) <> TPending.
Proof. unfold emit. by destruct (t_state t) eqn:E; cbn; rewrite ?E. Qed.
Lemma links_drop i s : Links s -> Links (put i drop s).
Proof.
  apply links_put_decides. intros t _. split; [apply drop_not_pending|]. destruct (drop_decides None t) as (? & ? & _). done.
Qed.
Lemma links_emit i s : Links s -> Links (put i emit s).
Proof.
  apply links_put_decides. intros t _. split; [apply emit_not_pending|]. destruct (emit_decides None t) as (? & ? & _). done.
Qed.

Lemma links_map_same f s : (forall t, link (f t) = link t) -> Links s -> Links (with_turns (map f (turns s)) s).
Proof. intros H. apply links_same; try done. unfold links. cbn. by apply map_map_same. Qed.

(** The retirement of the live engine decides every turn that was pending. *)
Lemma links_retire e next s : live s = Some e -> Links s -> Links (retire conc e next s).
Proof.
  intros Hl H. unfold retire. eapply links_but_rooms; [apply delete_room_but|]. unfold Links. cbn. eapply links_decide; [exact H|].
  unfold links. cbn. apply Forall2_same_length_lookup. split; [by rewrite !length_map|]. intros j x y Hx Hy. rewrite list_lookup_fmap in Hx. rewrite list_lookup_fmap, list_lookup_fmap in Hy.
  destruct (turns s !! j) as [t|] eqn:Hj; [|done]. injection Hx as <-. injection Hy as <-. unfold drops_with. destruct (_ && _) eqn:Hb; [apply drop_decides|].
  split_and!; try done. intros Hp. exfalso. destruct (lk_pending _ _ _ _ H j (link t)) as (H1 & H2 & H3); [unfold links; by rewrite list_lookup_fmap, Hj|done|].
  cbn in H1, H2, H3. assert (t_engine t = e) as E by congruence. by rewrite H1, H2, E, Nat.eqb_refl in Hb.
Qed.

Lemma links_admit e a s : live s = Some e -> Links s -> Links (admitInbound conc lids e a s).
Proof.
  intros Hl H. unfold admitInbound. set (key := if a_status a then None else key_of_id (a_id a)).
  pose proof (arrival_entry_but key a s) as He. destruct (arrival_entry key a s) as [[[o scoped] sep] s1]. cbn in He.
  assert (Links s1 /\ live s1 = Some e) as [H1 Hl1].
  { destruct He as (E1 & E2 & E3 & E4 & _). split; [|congruence]. eapply links_same; [..|exact H]; try done. unfold links. by rewrite E2. }
  clear He Hl H. set (rs := if a_needsRoom a then _ else _). assert (but_rooms s1 (snd rs)) as Hr.
  { unfold rs. destruct (a_needsRoom a); [|done]. pose proof (room_but s1) as Hr. by destruct (room conc s1). }
  destruct rs as [r s2]. cbn in Hr. assert (Links s2 /\ live s2 = Some e) as [H2 Hl2].
  { split; [by eapply links_but_rooms|]. destruct Hr as (E & _). congruence. }
  clear Hr H1 Hl1. match goal with |- Links (match r with Some _ => request _ _ _ ?s3 | None => _ end) => assert (Links s3) as H3 end.
  2: { destruct r as [r|]; [|exact H3]. eapply links_but_rooms; [apply request_but|exact H3]. }
  match goal with |- context [turns s2 ++ [?t]] => set (u := t) end.
  pose proof (links_append (live s2) (links s2) (chatEmits s2) (chatCommits s2) (link u) (negb (a_status a)) (negb (a_status a)) H2 eq_refl eq_refl eq_refl
    (fun _ => conj eq_refl Hl2) eq_refl (fun _ => eq_refl)) as H3.
  unfold Links, links. destruct (a_status a); cbn in H3 |- *; rewrite map_app; exact H3.
Qed.

Lemma links_deliver e id chat me author s : live s = Some e -> Links s -> Links (deliver e id chat me author s).
Proof.
  intros Hl H. unfold deliver. pose proof (entry_for_but (key_of_id id) (new_entry (Some (ref_of chat me author))) s) as He.
  destruct (entry_for _ _ s) as [o s1]. cbn in He. assert (Links s1) as H1.
  { destruct He as (E1 & E2 & E3 & E4 & _). eapply links_same; [..|exact H]; try done. unfold links. by rewrite E2. }
  set (s2 := match key_of_id id with Some _ => _ | None => _ end). assert (Links s2 /\ chatCommits s2 = chatCommits s1) as [H2 Ec] by (unfold s2; by destruct (key_of_id id)).
  match goal with |- context [turns s2 ++ [?t]] => set (u := t) end.
  pose proof (links_append (live s2) (links s2) (chatEmits s2) (chatCommits s2) (link u) true false H2 eq_refl eq_refl eq_refl
    (fun Hp => ltac:(discriminate)) eq_refl (fun Hp => ltac:(discriminate))) as H3.
  unfold Links, links. cbn in H3 |- *. rewrite map_app. exact H3.
Qed.

Lemma links_handle i status skipped ref s : Links s -> Links (handle i status skipped ref s).
Proof.
  intros H. unfold handle. destruct (turns s !! i) as [t|]; [|done]. destruct (negb _); [by apply links_drop|]. destruct status; [|destruct skipped].
  - apply links_drop. by eapply links_but_rooms; [apply put_claim_but|].
  - by apply links_drop.
  - apply links_drop, links_emit. exact H.
Qed.

Lemma links_reserve i s : Links s -> Links (fst (reserve i s)).
Proof.
  intros H. unfold reserve. destruct (turns s !! i) as [t|]; [|done]. destruct (t_claim t); [|done]. destruct (bool_decide _); [done|]. destruct (t_preparing t); [done|].
  destruct (revoked_turn t s); [by apply links_put_same|]. by destruct (cl_granted _); (eapply links_but_rooms; [apply put_claim_but|]).
Qed.

Lemma links_prepared i same s s' : prepared i same s = Some s' -> Links s -> Links s'.
Proof.
  unfold prepared. intros Hp H. apply bind_Some in Hp as (t & Ht & Hp). destruct (t_preparing t); [|done].
  assert (Links (put i (with_preparing false) s)) as H1 by (by apply links_put_same).
  destruct (t_key t ≫= _) as [o|]; [|by injection Hp as <-]. destruct (_ && _); [|by injection Hp as <-].
  destruct (e_revoked _); injection Hp as <-; repeat apply links_put_same; done.
Qed.

Lemma link_lookup s i t : turns s !! i = Some t -> links s !! i = Some (link t).
Proof. intros H. unfold links. by rewrite list_lookup_fmap, H. Qed.

Lemma links_emitted i s s' : emitted_ends i s = Some s' -> Links s -> Links s'.
Proof.
  unfold emitted_ends. intros Hs H. apply bind_Some in Hs as (t & Ht & Hs). apply bind_Some in Hs as (a & Ha & Hs). destruct (bool_decide _) eqn:Hb; [done|].
  apply bind_Some in Hs as (q & Hq & [= <-]). bool_facts. eapply (links_emit_settles _ _ _ _ _ i (link t) a); [exact H|by apply link_lookup|done|done|done].
Qed.

Lemma links_commit_ends i ok s s' : commit_ends i ok s = Some s' -> Links s -> Links s' /\ exists t, turns s !! i = Some t /\ t_finished t = false.
Proof.
  unfold commit_ends. intros Hs H. apply bind_Some in Hs as (t & Ht & Hs). apply bind_Some in Hs as (b & Hb & Hs). destruct (_ || _) eqn:Hc; [done|].
  apply bind_Some in Hs as (q & Hq & [= <-]). apply orb_false_iff in Hc as [Hc _]. bool_facts.
  destruct (links_commit_settles _ _ _ _ q i (link t) b ok H) as [H' Hd]; [by apply link_lookup|done|done|done|]. split; [|by exists t].
  unfold Links. rewrite links_finish. destruct (finish_fields i (with_commits q s)) as (-> & _ & -> & -> & _). exact H'.
Qed.

Lemma links_status_ends i s s' : status_ends i s = Some s' -> Links s -> Links s'.
Proof.
  unfold status_ends. intros Hs H. apply bind_Some in Hs as (t & Ht & Hs). destruct (_ && _) eqn:Hb; [|done]. injection Hs as <-. bool_facts.
  unfold Links. rewrite links_finish. destruct (finish_fields i s) as (-> & _ & -> & -> & _). eapply links_status_done; [exact H|by apply link_lookup|done|done].
Qed.

Lemma after_but i s s' : after_request conc i s = Some s' -> but_rooms s s'.
Proof.
  unfold after_request. intros Hs. apply bind_Some in Hs as (t & Ht & Hs). apply bind_Some in Hs as (c & Hc & Hs). destruct (cl_released c); [|done]. injection Hs as <-.
  match goal with |- context [put_claim i _ ?s1] => set (s2 := put_claim i (with_released false) s1) end.
  assert (but_rooms s s2) as H by (unfold s2; etransitivity; [|apply put_claim_but]; done).
  change (live s2) with (live s) in *. cbn. fold s2. destruct (live s); [exact H|]. etransitivity; [exact H|apply delete_room_but].
Qed.
Lemma resume_but i s s' : resume_request conc i s = Some s' -> but_rooms s s'.
Proof.
  unfold resume_request. intros Hs. apply bind_Some in Hs as (t & Ht & Hs). apply bind_Some in Hs as (c & Hc & Hs). destruct (tasks _ !! i) as [[]|]; try done.
  injection Hs as <-. etransitivity; [|apply put_claim_but]. done.
Qed.
Lemma end_but i s s' : end_request conc i s = Some s' -> but_rooms s s'.
Proof.
  unfold end_request. intros Hs. apply bind_Some in Hs as (t & Ht & Hs). apply bind_Some in Hs as (c & Hc & Hs). destruct (tasks _ !! i) as [[]|]; try done.
  destruct (may_end t c); [|done]. injection Hs as <-. etransitivity; [|apply put_claim_but]. done.
Qed.

(** A callback moves one call, finishes one turn or sets one claim. *)
Lemma links_callback s s' : callback conc s s' -> Links s -> Links s'.
Proof.
  intros Hm H. destruct Hm as [s c s' Hs|s i s' Hs|s c s' Hs|s c s' Hs|s i ok s' Hs|s c s' Hs|s i s' Hs|s i s' Hs|s i s' Hs|s i same s' Hs|s i s' Hs|s i s' Hs|s i s' Hs|s i s' Hs].
  - apply bind_Some in Hs as (q & Hq & [= <-]). eapply links_steady_emits; [exact H|by eapply begin_steady].
  - by eapply links_emitted.
  - apply bind_Some in Hs as (q & Hq & [= <-]). eapply links_steady_emits; [exact H|by eapply cleanup_steady].
  - apply bind_Some in Hs as (q & Hq & [= <-]). eapply links_steady_commits; [exact H|by eapply begin_steady].
  - by eapply links_commit_ends.
  - apply bind_Some in Hs as (q & Hq & [= <-]). eapply links_steady_commits; [exact H|by eapply cleanup_steady].
  - by eapply links_status_ends.
  - apply bind_Some in Hs as (t & Ht & Hs). destruct (t_processing t); [|done]. injection Hs as <-. apply links_put_same; [done|]. by eapply links_but_rooms; [apply put_claim_but|].
  - apply bind_Some in Hs as (t & Ht & Hs). apply bind_Some in Hs as (c & Hc & Hs). destruct (_ <? _); [|done]. injection Hs as <-. by eapply links_but_rooms; [apply put_claim_but|].
  - by eapply links_prepared.
  - by eapply links_but_rooms; [eapply resume_but|].
  - by eapply links_but_rooms; [eapply end_but|].
  - by eapply links_but_rooms; [eapply after_but|].
  - apply bind_Some in Hs as (t & Ht & Hs). apply bind_Some in Hs as (c & Hc & Hs). destruct (_ && _); [|done]. injection Hs as <-. by eapply links_but_rooms; [apply put_claim_but|].
Qed.

Lemma links_event s s' : event conc window_ms lids s s' -> Links s -> Links s'.
Proof.
  intros Hm H. destruct Hm as [s e a Hl|s e id chat me author Hl|s i t Ht Hp|s i t status skipped ref Ht Hp|s i|s i s' Hs|s k c|s i s' Hs|s t Ht|s e Hl|s e next Hl Hn].
  - by apply links_admit.
  - by apply links_deliver.
  - by apply links_reserve.
  - by apply links_handle.
  - by apply links_drop.
  - apply bind_Some in Hs as (t & Ht & Hs). destruct (t_processing t); [|done]. injection Hs as <-. by eapply links_but_rooms; [apply put_claim_but|].
  - unfold change. destruct (inboundInFlight s !! k) as [o|]; [|done]. destruct c; try exact H. apply links_map_same; [|exact H]. intros t. unfold gives_up_with. by destruct (_ && _).
  - apply bind_Some in Hs as (t & Ht & Hs). apply bind_Some in Hs as (c & Hc & Hs). apply bind_Some in Hs as (a & Ha & Hs).
    destruct (_ || _); [done|]. destruct (_ <? _)%Z; [done|]. injection Hs as <-. by eapply links_but_rooms; [apply put_claim_but|].
  - exact H.
  - unfold Links. cbn. eapply links_decide; [exact H|]. apply Forall2_same_length_lookup. split; [done|]. intros j x y Hx Hy. change (links s !! j = Some y) in Hy. assert (x = y) as -> by congruence.
    split_and!; try done. intros Hp. destruct (lk_pending _ _ _ _ H j y Hx Hp) as (_ & _ & E). congruence.
  - by apply links_retire.
Qed.

Lemma links_moves s s' : moves conc window_ms lids s s' -> Links s -> Links s'.
Proof. intros [H|H]; [by apply links_callback|by apply links_event]. Qed.
End moves.
