(* ===== verification/AdmissionEntries.v ===== *)
(** * Admission of inbound messages: the entries

    The second part of the invariant of [Admission]: an entry is in the map of its
    message's id as long as a delivery of the message is unfinished, and its holders
    are those deliveries.  It reads the [Share] of each turn, the entries and the
    map. *)
From stdpp Require Import gmap.
From S2P Require Import Prelude JsString KeyedLock Limiter MutationGuard MessageTable InFlight Admission AdmissionQueues.
Local Open Scope nat_scope.

Record Share := mkShare { sh_key : option string; sh_shared : nat; sh_done : bool; sh_plain : bool }.
Definition share (t : InboundTurn) : Share := mkShare (t_key t) (t_shared t) (t_finished t) (t_plain t).
Definition shares (s : Session) : list Share := map share (turns s).

(** An unfinished delivery counts on its entry, but for one without a ticket whose id
    could not be read. *)
Definition counts (o : nat) (h : Share) : bool :=
  negb (sh_done h) && (bool_decide (is_Some (sh_key h)) || negb (sh_plain h)) && (sh_shared h =? o).
Definition count (o : nat) (hs : list Share) : nat := length (List.filter (counts o) hs).

Record EntryOk (hs : list Share) (es : list (InFlightEntry * nat)) (fl : gmap string nat) : Prop := mkEntryOk {
  en_count : forall o e n, es !! o = Some (e, n) -> n = count o hs;
  en_key : forall i h k, hs !! i = Some h -> sh_done h = false -> sh_key h = Some k -> fl !! k = Some (sh_shared h);
  en_flight : forall k o, fl !! k = Some o -> 0 < count o hs /\ (forall i h, hs !! i = Some h -> sh_shared h = o -> sh_key h = Some k);
  en_alone : forall i j h h', hs !! i = Some h -> hs !! j = Some h' -> sh_key h = None -> sh_shared h' = sh_shared h -> i = j;
  en_bound : forall i h, hs !! i = Some h -> sh_shared h < length es
}.
Definition Shares (s : Session) : Prop := EntryOk (shares s) (entries s) (inboundInFlight s).

(** ** Counting *)

Lemma count_snoc o hs h : count o (hs ++ [h]) = count o hs + (if counts o h then 1 else 0).
Proof. unfold count. rewrite List.filter_app, length_app. cbn. by destruct (counts o h). Qed.
Lemma count_positive o hs : 0 < count o hs <-> exists i h, hs !! i = Some h /\ counts o h = true.
Proof.
  unfold count. split.
  - intros H. destruct (List.filter (counts o) hs) as [|h l] eqn:E; [cbn in H; lia|]. assert (h ∈ List.filter (counts o) hs) as Hin by (rewrite E; by left).
    apply list_elem_of_In, List.filter_In in Hin as [Hin Hc]. apply list_elem_of_In, list_elem_of_lookup in Hin as [i Hi]. eauto.
  - intros (i & h & Hi & Hc). assert (h ∈ List.filter (counts o) hs) as Hin by (apply list_elem_of_In, List.filter_In; split; [apply list_elem_of_In; by eapply list_elem_of_lookup_2|done]).
    destruct (List.filter _ _); [by inversion Hin|cbn; lia].
Qed.
Lemma counts_bound o h : counts o h = true -> sh_done h = false /\ sh_shared h = o.
Proof. unfold counts. intros H. by bool_facts. Qed.

Definition over (h : Share) : Share := mkShare (sh_key h) (sh_shared h) true (sh_plain h).
Lemma count_over o i h (hs : list Share) : hs !! i = Some h -> sh_done h = false -> count o (alter over i hs) = count o hs - (if counts o h then 1 else 0).
Proof.
  revert i. induction hs as [|x hs IH]; intros [|i] Hi Hd; try done; cbn in Hi.
  - injection Hi as ->. unfold count. cbn. destruct (counts o h); cbn; lia.
  - specialize (IH i Hi Hd). unfold count in *. cbn. change (list_alter over i hs) with (alter over i hs). destruct (counts o x) eqn:Hx; cbn; rewrite IH; [|done].
    destruct (counts o h) eqn:Hh; [|lia]. assert (0 < count o hs) as Hp by (apply count_positive; eauto). unfold count in Hp. lia.
Qed.
Lemma lookup_over i j (hs : list Share) h' : alter over i hs !! j = Some h' -> exists h, hs !! j = Some h /\ sh_key h' = sh_key h /\ sh_shared h' = sh_shared h /\ (sh_done h' = false -> i <> j /\ h' = h).
Proof.
  destruct (decide (i = j)) as [->|Hne].
  - rewrite list_lookup_alter_eq. destruct (hs !! j) as [h|]; [|done]. intros [= <-]. by exists h.
  - rewrite list_lookup_alter_ne by done. intros H. by exists h'.
Qed.

(** ** What the entry tables do *)

(** Entries changed without their holders. *)
Definition same_holders (es es' : list (InFlightEntry * nat)) : Prop := snd <$> es' = snd <$> es.
Lemma entries_content hs es es' fl : EntryOk hs es fl -> same_holders es es' -> EntryOk hs es' fl.
Proof.
  intros [H1 H2 H3 H5 H4] Hs. assert (length es' = length es) as Hl by (by rewrite <- (length_fmap snd es'), Hs, length_fmap).
  split; [|done|done|done|by rewrite Hl].
  intros o e n Ho. assert (snd <$> es !! o = Some n) as Hn by (by rewrite <- list_lookup_fmap, <- Hs, list_lookup_fmap, Ho).
  destruct (es !! o) as [[e0 n0]|] eqn:E; [|done]. injection Hn as <-. by eapply H1.
Qed.
Lemma alter_holders f o es : (forall x : InFlightEntry * nat, snd (f x) = snd x) -> same_holders es (alter f o es).
Proof.
  intros Hf. unfold same_holders. apply list_eq. intros j. rewrite !list_lookup_fmap. destruct (decide (o = j)) as [->|].
  - rewrite list_lookup_alter_eq. destruct (es !! j); cbn; [by rewrite Hf|done].
  - by rewrite list_lookup_alter_ne.
Qed.

Lemma same_holders_length es es' : same_holders es es' -> length es' = length es.
Proof. intros H. by rewrite <- (length_fmap snd es'), H, length_fmap. Qed.

(** An entry nobody counts on yet. *)
Lemma entries_fresh hs es fl e : EntryOk hs es fl -> EntryOk hs (es ++ [(e, 0)]) fl.
Proof.
  intros [H1 H2 H3 H5 H4]. split; [|done|done|done|].
  - intros o e' n [Ho|[-> [= -> ->]]]%lookup_snoc; [by eapply H1|]. destruct (count (length es) hs) eqn:Hc; [done|]. exfalso.
    assert (0 < count (length es) hs) as Hp by lia. apply count_positive in Hp as (i & h & Hi & Hh). apply counts_bound in Hh as [_ Hs]. specialize (H4 i h Hi). lia.
  - intros i h Hi. rewrite length_app. specialize (H4 i h Hi). cbn. lia.
Qed.

(** A delivery arrives at an entry: the one of its id, or the newest one, which takes
    the id. *)
Lemma entries_arrive hs es fl fl' key o plain :
  EntryOk hs es fl -> o < length es ->
  match key with
  | Some k => (fl !! k = Some o /\ fl' = fl) \/ (fl !! k = None /\ count o hs = 0 /\ (forall i h, hs !! i = Some h -> sh_shared h <> o) /\ fl' = <[k := o]> fl)
  | None => fl' = fl /\ (forall i h, hs !! i = Some h -> sh_shared h <> o) /\ (forall k, fl !! k <> Some o)
  end ->
  EntryOk (hs ++ [mkShare key o false plain]) (if bool_decide (is_Some key) || negb plain then alter holder o es else es) fl'.
Proof.
  intros [H1 H2 H3 H5 H4] Ho Hcase. set (h := mkShare key o false plain). set (c := bool_decide (is_Some key) || negb plain).
  assert (forall o', counts o' h = c && (o =? o')) as Hc by (intros o'; by unfold counts, h).
  assert (forall i x, (hs ++ [h]) !! i = Some x -> hs !! i = Some x \/ x = h) as Hback by (intros i x [?|[_ ->]]%lookup_snoc; auto).
  split.
  - intros o' e n He. rewrite count_snoc, Hc. destruct c eqn:Ec; [|rewrite Nat.add_0_r; by eapply H1]. destruct (decide (o = o')) as [->|Hne].
    + rewrite list_lookup_alter_eq in He. destruct (es !! o') as [[e0 n0]|] eqn:E; [|done]. injection He as <- <-. rewrite Nat.eqb_refl. cbn. rewrite (H1 o' e0 n0 E). lia.
    + rewrite list_lookup_alter_ne in He by done. rewrite (proj2 (Nat.eqb_neq _ _) Hne). cbn. rewrite Nat.add_0_r. by eapply H1.
  - intros i x k Hi Hd Hk. destruct (Hback i x Hi) as [Hx| ->].
    + pose proof (H2 i x k Hx Hd Hk) as Hf. destruct key as [k0|]; [|by destruct Hcase as (-> & _)]. destruct Hcase as [(_ & ->)|(Hn & _ & _ & ->)]; [done|].
      rewrite lookup_insert_ne; [done|congruence].
    + unfold h in Hk |- *. cbn in Hk |- *. subst key. destruct Hcase as [(? & ->)|(_ & _ & _ & ->)]; [done|by rewrite lookup_insert_eq].
  - intros k o' Hf. assert ((fl !! k = Some o' /\ (o' = o -> key = Some k)) \/ (key = Some k /\ o' = o /\ forall i x, hs !! i = Some x -> sh_shared x <> o)) as [[Hf0 Ho']|(-> & -> & Hn)].
    { destruct key as [k0|].
      - destruct Hcase as [(Hf0 & ->)|(Hn & _ & Hs & ->)].
        + left. split; [done|]. intros ->. destruct (H3 k o Hf) as [Hp Hall], (H3 k0 o Hf0) as [_ Hall0]. apply count_positive in Hp as (i & x & Hi & Hx).
          apply counts_bound in Hx as [_ Hsx]. rewrite <- (Hall i x Hi Hsx). symmetry. by apply (Hall0 i x).
        + apply lookup_insert_Some in Hf as [[-> <-]|[Hne Hf]]; [by right|]. left. split; [done|]. intros ->. destruct (H3 k o Hf) as [Hp _]. apply count_positive in Hp as (i & x & Hi & Hx).
          apply counts_bound in Hx as [_ Hsx]. by destruct (Hs i x Hi).
      - destruct Hcase as (-> & Hs & Hno). left. split; [done|]. intros ->. by destruct (Hno k). }
    + destruct (H3 k o' Hf0) as [Hp Hall]. split; [rewrite count_snoc; lia|]. intros i x Hi Hs. destruct (Hback i x Hi) as [Hx| ->]; [by apply (Hall i)|]. apply Ho'. by symmetry.
    + split; [rewrite count_snoc, Hc; unfold c; cbn; rewrite Nat.eqb_refl; cbn; lia|]. intros i x Hi Hs. destruct (Hback i x Hi) as [Hx| ->]; [by destruct (Hn i x Hx)|done].
  - intros i j x y Hi Hj Hk Hs. apply lookup_snoc in Hi as [Hi|[-> ->]], Hj as [Hj|[-> ->]]; [by eapply H5| | |done].
    + exfalso. cbn in Hs. destruct key as [k|]; [|destruct Hcase as (_ & Hn & _); by destruct (Hn i x Hi)].
      destruct Hcase as [(Hf & _)|(_ & _ & Hn & _)]; [|by destruct (Hn i x Hi)]. destruct (H3 k o Hf) as [_ Hall]. rewrite (Hall i x Hi) in Hk by done. done.
    + exfalso. cbn in Hk, Hs. subst key. destruct Hcase as (_ & Hn & _). by destruct (Hn j y Hj).
  - intros i x Hi. assert (length (if c then alter holder o es else es) = length es) as -> by (destruct c; [apply length_alter|done]).
    destruct (Hback i x Hi) as [Hx| ->]; [by apply (H4 i)|done].
Qed.

(** A delivery finishes. *)
Lemma entries_finish hs es fl i h :
  EntryOk hs es fl -> hs !! i = Some h -> sh_done h = false ->
  let es' := alter unholder (sh_shared h) es in
  let n := match es' !! sh_shared h with Some (_, n) => n | None => 0 end in
  EntryOk (alter over i hs) es'
    (match sh_key h with Some k => if (n =? 0) && bool_decide (fl !! k = Some (sh_shared h)) then delete k fl else fl | None => fl end).
Proof.
  intros [H1 H2 H3 H5 H4] Hi Hd es' n. set (o := sh_shared h). assert (forall o', count o' (alter over i hs) = count o' hs - (if counts o' h then 1 else 0)) as Hco by (intros o'; by apply count_over).
  destruct (lookup_lt_is_Some_2 _ _ (H4 i h Hi)) as [[e0 n0] He0]. assert (es' !! o = Some (e0, pred n0)) as Ho by (unfold es', o; by rewrite list_lookup_alter_eq, He0).
  assert (n = pred n0) as Hn by (unfold n; by fold o; rewrite Ho). pose proof (H1 _ _ _ He0) as Hn0. fold o in Hn0.
  assert (n = count o (alter over i hs)) as Hleft.
  { rewrite Hco, Hn, Hn0. destruct (counts o h) eqn:Hc; [lia|]. assert (count o hs = 0) as ->; [|done]. destruct (count o hs) eqn:Hz; [done|]. exfalso.
    assert (0 < count o hs) as Hp by lia. apply count_positive in Hp as (j & x & Hj & Hx). pose proof (counts_bound o x Hx) as [Hxd Hxs].
    destruct (sh_key h) as [k|] eqn:Hk.
    - unfold counts in Hc. rewrite Hd, Hk in Hc. unfold o in Hc. rewrite Nat.eqb_refl in Hc. by rewrite bool_decide_eq_true_2 in Hc by (by eexists).
    - assert (i = j) as <- by (by apply (H5 i j h x)). congruence. }
  set (gone := match sh_key h with Some _ => n =? 0 | None => false end).
  assert (forall k o', fl !! k = Some o' -> (o' <> o \/ n <> 0) -> 0 < count o' (alter over i hs)) as Hstill.
  { intros k o' Hf Hor. rewrite Hco. destruct (H3 k o' Hf) as [Hp _]. destruct (counts o' h) eqn:Hc; [|lia]. apply counts_bound in Hc as [_ Hs]. subst o'. destruct Hor as [Hne|Hne]; [done|].
    fold o in Hp |- *. rewrite Hco in Hleft. destruct (counts o h); lia. }
  split.
  - intros o' e m Hm. destruct (decide (o = o')) as [<-|Hne]; [rewrite Ho in Hm; injection Hm as _ <-; congruence|]. unfold es' in Hm. rewrite list_lookup_alter_ne in Hm by done.
    rewrite Hco, (H1 o' e m Hm). destruct (counts o' h) eqn:Hc; [|lia]. by apply counts_bound in Hc as [_ Hs].
  - intros j x k Hx Hxd Hk. destruct (lookup_over i j hs x Hx) as (y & Hy & Ek & Es & Hsame). destruct (Hsame Hxd) as [Hij ->]. pose proof (H2 j y k Hy Hxd Hk) as Hf.
    destruct (sh_key h) as [k0|] eqn:Hk0; [|done]. destruct (_ && _) eqn:Hb; [|done]. bool_facts. rewrite lookup_delete_ne; [done|]. intros ->.
    assert (sh_shared y = o) as Hs by congruence. assert (0 < count o (alter over i hs)) as Hp; [|lia]. apply count_positive. exists j, y. split; [done|].
    unfold counts. rewrite Hxd, Hk, Hs, Nat.eqb_refl. by rewrite bool_decide_eq_true_2 by (by eexists).
  - intros k o' Hf. assert (fl !! k = Some o' /\ (o' <> o \/ n <> 0)) as [Hf0 Hor].
    { destruct (sh_key h) as [k0|] eqn:Hk0.
      - destruct (_ && _) eqn:Hb.
        + bool_facts. apply lookup_delete_Some in Hf as [Hne Hf]. split; [done|]. left. intros ->. destruct (H3 k o Hf) as [_ Hall]. apply Hne. specialize (Hall i h Hi eq_refl). congruence.
        + split; [done|]. destruct (decide (o' = o)) as [->|]; [|by left]. right. intros Hz. rewrite Hz in Hb. cbn in Hb. bool_facts. apply Hb.
          destruct (H3 k o Hf) as [_ Hall]. specialize (Hall i h Hi eq_refl). congruence.
      - split; [done|]. left. intros ->. destruct (H3 k o Hf) as [_ Hall]. specialize (Hall i h Hi eq_refl). congruence. }
    split; [by apply (Hstill k)|]. intros j x Hx Hs. destruct (lookup_over i j hs x Hx) as (y & Hy & Ek & Es & _). rewrite Ek. destruct (H3 k o' Hf0) as [_ Hall]. apply (Hall j y Hy). congruence.
  - intros j j' x x' Hx Hx' Hk Hs. destruct (lookup_over i j hs x Hx) as (y & Hy & Ek & Es & _), (lookup_over i j' hs x' Hx') as (y' & Hy' & Ek' & Es' & _). apply (H5 j j' y y'); congruence.
  - intros j x Hx. destruct (lookup_over i j hs x Hx) as (y & Hy & _ & Es & _). unfold es'. rewrite length_alter, Es. by apply (H4 j).
Qed.

(** ** Every move *)

Lemma shares_same s s' : shares s' = shares s -> same_holders (entries s) (entries s') -> inboundInFlight s' = inboundInFlight s -> Shares s -> Shares s'.
Proof. unfold Shares. intros -> He -> H. by eapply entries_content. Qed.
Lemma same_holders_refl es : same_holders es es.
Proof. done. Qed.
Lemma shares_put i f s : (forall t, share (f t) = share t) -> shares (put i f s) = shares s.
Proof. intros H. unfold shares, put. cbn. by apply map_alter_same. Qed.
Lemma but_rooms_shares s s' : but_rooms s s' -> shares s' = shares s.
Proof.
  intros (_ & _ & H & _). apply list_eq. intros i. unfold shares. rewrite !list_lookup_fmap. specialize (H i).
  destruct (turns s' !! i) as [t|], (turns s !! i) as [u|]; cbn in *; try done. f_equal. injection H. intros. unfold share. congruence.
Qed.
Lemma shares_but_rooms s s' : but_rooms s s' -> Shares s -> Shares s'.
Proof. intros H. pose proof (but_rooms_shares s s' H). destruct H as (_ & _ & _ & He & Hf & _). apply shares_same; [done|by rewrite He|done]. Qed.
Lemma shares_put_same i f s : (forall t, share (f t) = share t) -> Shares s -> Shares (put i f s).
Proof. intros H. apply shares_same; [by apply shares_put|done|done]. Qed.
Lemma shares_put_entry o f s : (forall x, snd (f x) = snd x) -> Shares s -> Shares (put_entry o f s).
Proof. intros H. apply shares_same; [done|by apply alter_holders|done]. Qed.

Lemma share_drop t : share (drop t) = share t.
Proof. unfold drop. by destruct (t_state t). Qed.
Lemma share_emit t : share (emit t) = share t.
Proof. unfold emit. by destruct (t_state t). Qed.
Lemma share_lookup s i t : turns s !! i = Some t -> shares s !! i = Some (share t).
Proof. intros H. unfold shares. by rewrite list_lookup_fmap, H. Qed.

(** The entry of an arrival is the one of its id, or new. *)
Lemma entry_for_cases key e s o s1 :
  entry_for key e s = (o, s1) ->
  (exists k, key = Some k /\ inboundInFlight s !! k = Some o /\ s1 = s) \/
  (o = length (entries s) /\ entries s1 = (entries s ++ [(e, 0)])%list /\
   match key with Some k => inboundInFlight s !! k = None /\ inboundInFlight s1 = <[k := o]> (inboundInFlight s) | None => inboundInFlight s1 = inboundInFlight s end).
Proof.
  unfold entry_for. destruct key as [k|]; [destruct (inboundInFlight s !! k) as [o'|] eqn:E|]; intros [= <- <-]; [left; eauto|right; done|right; done].
Qed.

Lemma flight_bound hs es fl k o : EntryOk hs es fl -> fl !! k = Some o -> o < length es.
Proof.
  intros H Hf. destruct (en_flight _ _ _ H k o Hf) as [Hp _]. apply count_positive in Hp as (i & x & Hi & Hx). apply counts_bound in Hx as [_ <-]. by apply (en_bound _ _ _ H i).
Qed.

Lemma shares_arrive key e s o s1 plain es :
  Shares s -> entry_for key e s = (o, s1) -> same_holders (entries s1) es ->
  EntryOk (shares s ++ [mkShare key o false plain]) (if bool_decide (is_Some key) || negb plain then alter holder o es else es) (inboundInFlight s1).
Proof.
  intros H He Hs. destruct (entry_for_cases key e s o s1 He) as [(k & -> & Hf & ->)|(-> & Ee & Hk)].
  - apply (entries_arrive (shares s) es (inboundInFlight s)); [by eapply entries_content| |by left].
    rewrite (same_holders_length _ _ Hs). by eapply flight_bound.
  - assert (EntryOk (shares s) es (inboundInFlight s)) as H1 by (eapply entries_content; [|exact Hs]; rewrite Ee; by apply entries_fresh).
    assert (forall i h, shares s !! i = Some h -> sh_shared h <> length (entries s)) as Hnew by (intros i h Hi; pose proof (en_bound _ _ _ H i h Hi); lia).
    assert (count (length (entries s)) (shares s) = 0) as Hzero.
    { destruct (count _ _) eqn:Hc; [done|]. exfalso. assert (0 < count (length (entries s)) (shares s)) as Hp by lia. apply count_positive in Hp as (i & x & Hi & Hx).
      apply counts_bound in Hx as [_ Hx]. by destruct (Hnew i x Hi). }
    apply (entries_arrive (shares s) es (inboundInFlight s)); [done| |].
    + rewrite (same_holders_length _ _ Hs), Ee, length_app. cbn. lia.
    + destruct key as [k|]; [right; by destruct Hk|]. split; [done|]. split; [done|]. intros k Hf. pose proof (flight_bound _ _ _ k _ H Hf). lia.
Qed.

Section moves.
Context (conc window_ms : Z) (lids : bool).

Lemma finish_shares i t s :
  turns s !! i = Some t -> t_finished t = false -> Shares s -> Shares (finish i s).
Proof.
  intros Hi Hd H. pose proof (entries_finish _ _ _ i (share t) H (share_lookup s i t Hi) Hd) as Hf. cbn in Hf.
  assert (shares (finish i s) = alter over i (shares s)) as Es.
  { destruct (finish_fields i s) as (_ & Et & _). unfold shares. rewrite Et. apply list_eq. intros j. rewrite list_lookup_fmap.
    destruct (decide (i = j)) as [->|]; [rewrite !list_lookup_alter_eq|rewrite !list_lookup_alter_ne by done]; rewrite list_lookup_fmap; by destruct (turns s !! j). }
  unfold Shares. rewrite Es. unfold finish. rewrite Hi. destruct (t_key t) as [k|]; cbn; [|exact Hf]. unfold holders_of. cbn. case_match; exact Hf.
Qed.

Lemma shares_admit e a s : Shares s -> Shares (admitInbound conc lids e a s).
Proof.
  intros H. unfold admitInbound. set (key := if a_status a then None else key_of_id (a_id a)).
  destruct (arrival_entry key a s) as [[[o scoped] sep] s1] eqn:Ea.
  assert (EntryOk (shares s ++ [mkShare key o false false]) (entries s1) (inboundInFlight s1) /\ shares s1 = shares s) as [H1 Es1].
  { pose proof (arrival_entry_but key a s) as Hb. rewrite Ea in Hb. cbn in Hb. split; [|destruct Hb as (_ & E & _); unfold shares; by rewrite E].
    unfold arrival_entry in Ea. destruct (entry_for key (new_entry None) s) as [o' s0] eqn:E0.
    assert (forall s2, same_holders (entries s0) (entries s2) -> inboundInFlight s2 = inboundInFlight s0 ->
      EntryOk (shares s ++ [mkShare key o' false false]) (alter holder o' (entries s2)) (inboundInFlight s2)) as Hgen.
    { intros s2 Hh Hfl. pose proof (shares_arrive key _ s o' s0 false (entries s2) H E0 Hh) as Hok. rewrite orb_true_r in Hok. by rewrite Hfl. }
    destruct key as [k|], (a_fromMe a) as [me|]; cbn in Ea;
      (destruct (match e_ref _ with Some _ => _ | None => _ end); injection Ea as <- <- <- <-; cbn; [apply entries_fresh|]);
      first [by apply (Hgen s0)|by apply (Hgen (put_entry o' (set_ref _) s0)); [apply alter_holders|]]. }
  clear Ea H. set (rs := if a_needsRoom a then _ else _). assert (but_rooms s1 (snd rs)) as Hr.
  { unfold rs. destruct (a_needsRoom a); [|done]. pose proof (room_but conc s1) as Hr. by destruct (room conc s1). }
  destruct rs as [r s2]. cbn in Hr. assert (EntryOk (shares s2 ++ [mkShare key o false false]) (entries s2) (inboundInFlight s2)) as H2.
  { rewrite (but_rooms_shares _ _ Hr), Es1. destruct Hr as (_ & _ & _ & -> & -> & _). done. }
  match goal with |- Shares (match r with Some _ => request _ _ _ ?s3 | None => _ end) => assert (Shares s3) as H3 end.
  2: { destruct r as [r|]; [|exact H3]. eapply shares_but_rooms; [apply request_but|exact H3]. }
  unfold Shares, shares. destruct (a_status a); cbn; rewrite map_app; exact H2.
Qed.

Lemma shares_deliver e id chat me author s : Shares s -> Shares (deliver e id chat me author s).
Proof.
  intros H. unfold deliver. set (key := key_of_id id). set (fresh := new_entry _). pose proof (entry_for_but key fresh s) as Hb.
  destruct (entry_for key fresh s) as [o s1] eqn:Ee. cbn in Hb. pose proof (shares_arrive key fresh s o s1 true (entries s1) H Ee (same_holders_refl _)) as H1.
  assert (shares s1 = shares s) as Es by (destruct Hb as (_ & E & _); unfold shares; by rewrite E).
  unfold Shares, shares. cbn. rewrite map_app. cbn. destruct key; cbn in *; fold (shares s1); rewrite Es; exact H1.
Qed.

Lemma shares_handle i status skipped ref s : Shares s -> Shares (handle i status skipped ref s).
Proof.
  intros H. unfold handle. destruct (turns s !! i) as [t|]; [|done]. destruct (negb _); [by apply shares_put_same, H; apply share_drop|].
  destruct status; [|destruct skipped]; (apply shares_put_same; [apply share_drop|]); [by eapply shares_but_rooms; [apply put_claim_but|]|done|].
  apply shares_put_same; [apply share_emit|]. by apply shares_put_entry.
Qed.

Lemma shares_reserve i s : Shares s -> Shares (fst (reserve i s)).
Proof.
  intros H. unfold reserve. destruct (turns s !! i) as [t|]; [|done]. destruct (t_claim t); [|done]. destruct (bool_decide _); [done|]. destruct (t_preparing t); [done|].
  destruct (revoked_turn t s); [by apply shares_put_same|]. by destruct (cl_granted _); (eapply shares_but_rooms; [apply put_claim_but|]).
Qed.

Lemma shares_prepared i same s s' : prepared i same s = Some s' -> Shares s -> Shares s'.
Proof.
  unfold prepared. intros Hp H. apply bind_Some in Hp as (t & Ht & Hp). destruct (t_preparing t); [|done].
  assert (Shares (put i (with_preparing false) s)) as H1 by (by apply shares_put_same).
  destruct (t_key t ≫= _) as [o|]; [|by injection Hp as <-]. destruct (_ && _); [|by injection Hp as <-].
  destruct (e_revoked _); injection Hp as <-; repeat apply shares_put_same; done.
Qed.

Lemma shares_map_same f s : (forall t, share (f t) = share t) -> Shares s -> Shares (with_turns (map f (turns s)) s).
Proof. intros H. apply shares_same; try done. unfold shares. cbn. by apply map_map_same. Qed.

Lemma shares_callback s s' : callback conc s s' -> Links s -> Shares s -> Shares s'.
Proof.
  intros Hm HL H. destruct Hm as [s c s' Hs|s i s' Hs|s c s' Hs|s c s' Hs|s i ok s' Hs|s c s' Hs|s i s' Hs|s i s' Hs|s i s' Hs|s i same s' Hs|s i s' Hs|s i s' Hs|s i s' Hs|s i s' Hs].
  - by apply bind_Some in Hs as (q & Hq & [= <-]).
  - unfold emitted_ends in Hs. apply bind_Some in Hs as (t & Ht & Hs). apply bind_Some in Hs as (a & Ha & Hs). destruct (bool_decide _); [done|]. by apply bind_Some in Hs as (q & Hq & [= <-]).
  - by apply bind_Some in Hs as (q & Hq & [= <-]).
  - by apply bind_Some in Hs as (q & Hq & [= <-]).
  - destruct (links_commit_ends i ok s s' Hs HL) as (_ & t & Ht & Hd). unfold commit_ends in Hs. rewrite Ht in Hs. cbn in Hs.
    apply bind_Some in Hs as (b & Hb & Hs). destruct (_ || _); [done|]. apply bind_Some in Hs as (q & Hq & [= <-]). by apply (finish_shares i t).
  - by apply bind_Some in Hs as (q & Hq & [= <-]).
  - apply bind_Some in Hs as (t & Ht & Hs). destruct (_ && _) eqn:Hb; [|done]. injection Hs as <-. bool_facts. by apply (finish_shares i t).
  - apply bind_Some in Hs as (t & Ht & Hs). destruct (t_processing t); [|done]. injection Hs as <-. apply shares_put_same; [done|]. by eapply shares_but_rooms; [apply put_claim_but|].
  - apply bind_Some in Hs as (t & Ht & Hs). apply bind_Some in Hs as (c & Hc & Hs). destruct (_ <? _); [|done]. injection Hs as <-. by eapply shares_but_rooms; [apply put_claim_but|].
  - by eapply shares_prepared.
  - by eapply shares_but_rooms; [eapply resume_but|].
  - by eapply shares_but_rooms; [eapply end_but|].
  - by eapply shares_but_rooms; [eapply after_but|].
  - apply bind_Some in Hs as (t & Ht & Hs). apply bind_Some in Hs as (c & Hc & Hs). destruct (_ && _); [|done]. injection Hs as <-. by eapply shares_but_rooms; [apply put_claim_but|].
Qed.

Lemma shares_event s s' : event conc window_ms lids s s' -> Shares s -> Shares s'.
Proof.
  intros Hm H. destruct Hm as [s e a Hl|s e id chat me author Hl|s i t Ht Hp|s i t status skipped ref Ht Hp|s i|s i s' Hs|s k c|s i s' Hs|s t Ht|s e Hl|s e next Hl Hn].
  - by apply shares_admit.
  - by apply shares_deliver.
  - by apply shares_reserve.
  - by apply shares_handle.
  - apply shares_put_same; [apply share_drop|done].
  - apply bind_Some in Hs as (t & Ht & Hs). destruct (t_processing t); [|done]. injection Hs as <-. by eapply shares_but_rooms; [apply put_claim_but|].
  - unfold change. destruct (inboundInFlight s !! k) as [o|]; [|done]. assert (Shares (put_entry o (fun e => (hold c (fst e), snd e)) s)) as H1 by (by apply shares_put_entry).
    destruct c; try exact H1. apply shares_map_same; [|exact H1]. intros t. unfold gives_up_with. by destruct (_ && _).
  - apply bind_Some in Hs as (t & Ht & Hs). apply bind_Some in Hs as (c & Hc & Hs). apply bind_Some in Hs as (a & Ha & Hs).
    destruct (_ || _); [done|]. destruct (_ <? _)%Z; [done|]. injection Hs as <-. by eapply shares_but_rooms; [apply put_claim_but|].
  - exact H.
  - exact H.
  - unfold retire. eapply shares_but_rooms; [apply delete_room_but|]. apply (shares_map_same _ (with_live next s)); [|exact H]. intros t. unfold drops_with. destruct (_ && _); [apply share_drop|done].
Qed.

(** ** What was recorded stays recorded *)

(** Entries keep their places, and a revoke once recorded. *)
Definition grows (es es' : list (InFlightEntry * nat)) : Prop :=
  forall o e n, es !! o = Some (e, n) -> exists e' n', es' !! o = Some (e', n') /\ (e_revoked e = true -> e_revoked e' = true).
#[export] Instance grows_preorder : PreOrder grows.
Proof.
  split; [intros es o e n H; eauto|]. intros a b c H1 H2 o e n Ho. destruct (H1 o e n Ho) as (e1 & n1 & Ho1 & Hr1). destruct (H2 o e1 n1 Ho1) as (e2 & n2 & Ho2 & Hr2). exists e2, n2. auto.
Qed.
Lemma grows_alter f o es : (forall x : InFlightEntry * nat, e_revoked (fst x) = true -> e_revoked (fst (f x)) = true) -> grows es (alter f o es).
Proof.
  intros Hf j e n Hj. destruct (decide (o = j)) as [->|].
  - rewrite list_lookup_alter_eq, Hj. cbn. destruct (f (e, n)) as [e' n'] eqn:E. exists e', n'. split; [done|]. intros Hr. specialize (Hf (e, n) Hr). by rewrite E in Hf.
  - rewrite list_lookup_alter_ne by done. eauto.
Qed.
Lemma grows_app es l : grows es (es ++ l).
Proof. intros o e n Ho. exists e, n. split; [by apply lookup_app_l_Some|done]. Qed.

Lemma hold_revoked c e : e_revoked e = true -> e_revoked (hold c e) = true.
Proof.
  intros H. destruct c; cbn; rewrite ?H; try done. destruct (deliveryStatusToMessageStatus status); [|done]. destruct (ack_foreign_now e chat); [done|].
  unfold hold_ack. destruct (JMap.get chat (e_acks e)); [destruct (status_in _ _)|]; done.
Qed.

Lemma grows_entry_for key e s : grows (entries s) (entries (snd (entry_for key e s))).
Proof. unfold entry_for. destruct key as [k|]; [destruct (inboundInFlight s !! k)|]; cbn; try apply grows_app. done. Qed.
Lemma grows_arrival key a s : grows (entries s) (entries (snd (arrival_entry key a s))).
Proof.
  unfold arrival_entry. pose proof (grows_entry_for key (new_entry None) s) as H. destruct (entry_for key (new_entry None) s) as [o s1]. cbn in H.
  assert (forall es, grows es (alter holder o es)) as Hh by (intros es; apply grows_alter; intros x Hx; exact Hx).
  assert (forall ref es, grows es (alter (set_ref ref) o es)) as Hr by (intros ref es; apply grows_alter; intros x Hx; exact Hx).
  destruct key as [k|], (a_fromMe a) as [me|]; cbn; (destruct (match e_ref _ with Some _ => _ | None => _ end); cbn; [rewrite <- grows_app|]); rewrite <- Hh, <- ?Hr; exact H.
Qed.
Lemma grows_finish i s : grows (entries s) (entries (finish i s)).
Proof. unfold finish. destruct (turns s !! i) as [t|]; [|done]. destruct (t_key t); [case_match|]; apply grows_alter; intros x Hx; exact Hx. Qed.

Lemma grows_callback s s' : callback conc s s' -> grows (entries s) (entries s').
Proof.
  intros Hm. assert (forall s1, but_rooms s s1 -> grows (entries s) (entries s1)) as Hbut by (intros s1 (_ & _ & _ & -> & _); done).
  destruct Hm as [s c s' Hs|s i s' Hs|s c s' Hs|s c s' Hs|s i ok s' Hs|s c s' Hs|s i s' Hs|s i s' Hs|s i s' Hs|s i same s' Hs|s i s' Hs|s i s' Hs|s i s' Hs|s i s' Hs].
  - by apply bind_Some in Hs as (q & Hq & [= <-]).
  - unfold emitted_ends in Hs. apply bind_Some in Hs as (t & Ht & Hs). apply bind_Some in Hs as (a & Ha & Hs). destruct (bool_decide _); [done|]. by apply bind_Some in Hs as (q & Hq & [= <-]).
  - by apply bind_Some in Hs as (q & Hq & [= <-]).
  - by apply bind_Some in Hs as (q & Hq & [= <-]).
  - unfold commit_ends in Hs. apply bind_Some in Hs as (t & Ht & Hs). apply bind_Some in Hs as (b & Hb & Hs). destruct (_ || _); [done|]. apply bind_Some in Hs as (q & Hq & [= <-]).
    exact (grows_finish i (with_commits q s)).
  - by apply bind_Some in Hs as (q & Hq & [= <-]).
  - apply bind_Some in Hs as (t & Ht & Hs). destruct (_ && _); [|done]. injection Hs as <-. apply grows_finish.
  - apply bind_Some in Hs as (t & Ht & Hs). destruct (t_processing t); [|done]. by injection Hs as <-.
  - apply bind_Some in Hs as (t & Ht & Hs). apply bind_Some in Hs as (c & Hc & Hs). destruct (_ <? _); [|done]. by injection Hs as <-.
  - apply bind_Some in Hs as (t & Ht & Hs). destruct (t_preparing t); [|done]. destruct (t_key t ≫= _) as [o|]; [|by injection Hs as <-]. destruct (_ && _); [|by injection Hs as <-].
    destruct (e_revoked _); by injection Hs as <-.
  - by eapply Hbut, resume_but.
  - by eapply Hbut, end_but.
  - by eapply Hbut, after_but.
  - apply bind_Some in Hs as (t & Ht & Hs). apply bind_Some in Hs as (c & Hc & Hs). destruct (_ && _); [|done]. by injection Hs as <-.
Qed.

Lemma grows_event s s' : event conc window_ms lids s s' -> grows (entries s) (entries s').
Proof.
  intros Hm. destruct Hm as [s e a Hl|s e id chat me author Hl|s i t Ht Hp|s i t status skipped ref Ht Hp|s i|s i s' Hs|s k c|s i s' Hs|s t Ht|s e Hl|s e next Hl Hn]; try done.
  - unfold admitInbound. set (key := if a_status a then None else key_of_id (a_id a)). pose proof (grows_arrival key a s) as H. destruct (arrival_entry key a s) as [[[o scoped] sep] s1]. cbn in H.
    destruct (a_needsRoom a).
    + pose proof (room_but conc s1) as Hr. destruct (room conc s1) as [r s2]. cbn in Hr. assert (entries s2 = entries s1) as E by apply Hr.
      match goal with |- context [request _ ?i _ ?s3] => destruct (request_but conc i r s3) as (_ & _ & _ & E2 & _) end. rewrite E2. destruct (a_status a); cbn; by rewrite E.
    + by destruct (a_status a).
  - unfold deliver. pose proof (grows_entry_for (key_of_id id) (new_entry (Some (ref_of chat me author))) s) as H. destruct (entry_for _ _ s) as [o s1]. cbn in H.
    destruct (key_of_id id); [|exact H]. etransitivity; [exact H|]. by apply grows_alter.
  - unfold reserve. destruct (turns s !! i); [|done]. destruct (t_claim _); [|done]. destruct (bool_decide _); [done|]. destruct (t_preparing _); [done|]. destruct (revoked_turn _ _); [done|]. by destruct (cl_granted _).
  - unfold handle. rewrite Ht. destruct (negb _); [done|]. destruct status; [done|]. destruct skipped; [done|]. by apply grows_alter.
  - apply bind_Some in Hs as (t & Ht & Hs). destruct (t_processing t); [|done]. by injection Hs as <-.
  - unfold change. destruct (inboundInFlight s !! k) as [o|]; [|done]. assert (grows (entries s) (alter (fun e => (hold c (fst e), snd e)) o (entries s))) as H by (apply grows_alter; intros x; apply hold_revoked).
    by destruct c.
  - apply bind_Some in Hs as (t & Ht & Hs). apply bind_Some in Hs as (c & Hc & Hs). apply bind_Some in Hs as (a & Ha & Hs).
    destruct (_ || _); [done|]. destruct (_ <? _)%Z; [done|]. by injection Hs as <-.
  - unfold retire. match goal with |- grows _ (entries (deleteRoomIfIdle _ ?s1)) => destruct (delete_room_but conc s1) as (_ & _ & _ & -> & _) end. done.
Qed.

Lemma grows_moves s s' : rtc (moves conc window_ms lids) s s' -> grows (entries s) (entries s').
Proof. intros H. induction H as [|a b c [Hm|Hm] _ IH]; [done|etransitivity; [by eapply grows_callback|done]|etransitivity; [by eapply grows_event|done]]. Qed.
End moves.
