(* ===== verification/AdmissionRooms.v ===== *)
(** * Admission of inbound messages: the room

    The third part of the invariant of [Admission]: where a claim stands in its room,
    that slots go in the order of arrival, and that a session keeps at most one room
    in use.  It reads the live engine, the claims of the turns, the rooms and the
    current one. *)
From stdpp Require Import gmap sorting.
From S2P Require Import Prelude Counting JsString KeyedLock Limiter MutationGuard MessageTable InFlight Admission AdmissionQueues.
Local Open Scope nat_scope.

Section rooms.
Context (conc window_ms : Z) (lids : bool).

(** A room's limiter: never closed, its waiters in the order of their numbers, and no
    task that gives its slot up. *)
Record GateOk (p : Pool) : Prop := mkGateOk {
  ga_pool : PoolOk p;
  ga_max : lim_max (lim p) = Z.max 1 conc;
  ga_bound : Limiter.maxQueued (lim p) = None;
  ga_open : closed (lim p) = false;
  ga_tame : forall i st, tasks p !! i = Some st -> st = Parked false \/ st = Woken false \/ st = Limiter.Running;
  ga_sorted : StronglySorted lt (map fst (waiters (lim p)))
}.

(** Where a claim is. *)
Definition claim_ok (t : InboundTurn) (c : RoomState) (st : option Limiter.Status) : Prop :=
  (cl_granted c = true -> cl_abandoned c = false) /\ (cl_told c = true -> cl_granted c = true) /\ (t_processing t = true -> 1 <= cl_holds c) /\
  match st with
  | Some Limiter.Running => cl_granted c || cl_abandoned c = true /\ cl_released c = false
  | Some _ => cl_granted c = false /\ cl_released c = false
  | None => may_end t c = true
  end.

Record RoomsOk (s : Session) : Prop := mkRoomsOk {
  rm_gate : forall r x, rooms s !! r = Some x -> GateOk (gate x);
  rm_claim : forall i t c, turns s !! i = Some t -> t_claim t = Some c -> exists x, rooms s !! cl_room c = Some x /\ claim_ok t c (tasks (gate x) !! i);
  rm_task : forall r x i st, rooms s !! r = Some x -> tasks (gate x) !! i = Some st -> exists t c, turns s !! i = Some t /\ t_claim t = Some c /\ cl_room c = r;
  rm_fifo : forall r x w j t c, rooms s !! r = Some x -> w ∈ map fst (waiters (lim (gate x))) -> turns s !! j = Some t -> t_claim t = Some c -> cl_room c = r ->
    tasks (gate x) !! j <> Some (Parked false) -> j < w;
  rm_idle : forall r x, rooms s !! r = Some x -> current s <> Some r -> idle x = true;
  rm_current : forall r, current s = Some r -> r < length (rooms s)
}.

(** A session without an engine has no room, unless one in use or a continuation that
    will remove it. *)
Definition Gone (s : Session) : Prop :=
  live s = None -> forall r x, current s = Some r -> rooms s !! r = Some x -> idle x = true ->
  exists i t c, turns s !! i = Some t /\ t_claim t = Some c /\ cl_released c = true.

(** ** The limiter *)

Lemma pool_full p : GateOk p -> waiters (lim p) <> [] -> active (lim p) = lim_max (lim p).
Proof. intros H. apply (k_full p (ga_pool p H)). Qed.

Lemma start_gate i p :
  GateOk p -> tasks p !! i = None -> (forall w, w ∈ map fst (waiters (lim p)) -> w < i) ->
  let p' := fst (Limiter.start i p) in
  GateOk p' /\
  ((tasks p' = <[i := Limiter.Running]> (tasks p) /\ waiters (lim p') = [] /\ (0 < active (lim p'))%Z) \/
   (tasks p' = <[i := Parked false]> (tasks p) /\ waiters (lim p') = (waiters (lim p) ++ [(i, false)])%list)).
Proof.
  intros H Hi Hw p'. pose proof (start_ok p i (ga_pool p H) Hi) as Hok. unfold p'. clear p'. unfold Limiter.start in *. unfold acquire in *.
  rewrite (ga_open p H), (ga_bound p H) in *. cbn [andb] in *. destruct (Z.ltb_spec (active (lim p)) (lim_max (lim p))) as [Hlt|Hge]; cbn in Hok |- *.
  - assert (waiters (lim p) = []) as Hnil.
    { destruct (waiters (lim p)) eqn:E; [done|]. rewrite (pool_full p H) in Hlt by (by rewrite E). lia. }
    split.
    + split; cbn; try done; try apply H. intros j st Hj. destruct (decide (i = j)) as [->|]; [rewrite lookup_insert_eq in Hj; injection Hj as <-; auto|].
      rewrite lookup_insert_ne in Hj by done. by apply (ga_tame p H j).
    + left. split_and!; [done|done|]. pose proof (k_active p (ga_pool p H)) as Ha. assert (0 <= msum holds (tasks p))%Z; [|lia]. apply msum_nonneg. by intros [].
  - split; [|right; done]. split; cbn; try done; try apply H.
    + intros j st Hj. destruct (decide (i = j)) as [->|]; [rewrite lookup_insert_eq in Hj; injection Hj as <-; auto|].
      rewrite lookup_insert_ne in Hj by done. by apply (ga_tame p H j).
    + rewrite map_app. cbn. pose proof (ga_sorted p H) as Hs. clear -Hs Hw. revert Hw. generalize (map fst (waiters (lim p))), Hs. clear Hs. intros l Hs Hw.
      induction Hs as [|a l Hs IH Hf]; cbn; [repeat constructor|]. constructor; [apply IH; intros w Hin; apply Hw; by right|].
      apply Forall_app. split; [done|]. constructor; [|constructor]. apply Hw. by left.
Qed.

Lemma resume_gate i re p :
  GateOk p -> tasks p !! i = Some (Woken re) -> let p' := Limiter.resume i p in
  GateOk p' /\ tasks p' = <[i := Limiter.Running]> (tasks p) /\ lim p' = lim p.
Proof.
  intros H Hi p'. pose proof (resume_ok p i (ga_pool p H)) as Hok. unfold p'. clear p'. unfold Limiter.resume in *. rewrite Hi in *.
  assert (re = false) as -> by (destruct (ga_tame p H i _ Hi) as [|[[=]|]]; done). cbn in *. split; [|done]. split; cbn; [done|apply H|apply H|apply H| |apply H].
  intros j st Hj. destruct (decide (i = j)) as [->|]; [rewrite lookup_insert_eq in Hj; injection Hj as <-; auto|]. rewrite lookup_insert_ne in Hj by done. by apply (ga_tame p H j).
Qed.

Lemma finish_gate i p :
  GateOk p -> tasks p !! i = Some Limiter.Running -> let p' := Limiter.finish i p in
  GateOk p' /\
  ((waiters (lim p) = [] /\ waiters (lim p') = [] /\ tasks p' = base.delete i (tasks p)) \/
   (exists w r, waiters (lim p) = (w, false) :: r /\ waiters (lim p') = r /\ tasks p' = <[w := Woken false]> (base.delete i (tasks p)) /\ tasks p !! w = Some (Parked false))).
Proof.
  intros H Hi p'. pose proof (finish_ok p i (ga_pool p H)) as Hok. unfold p'. clear p'. unfold Limiter.finish in *. rewrite Hi in *. unfold Limiter.release in *.
  assert (forall j st, base.delete i (tasks p) !! j = Some st -> st = Parked false \/ st = Woken false \/ st = Limiter.Running) as Ht.
  { intros j st [_ Hj]%lookup_delete_Some. by apply (ga_tame p H j). }
  destruct (waiters (lim p)) as [|[w re] r] eqn:E; cbn in *.
  - split; [|left; done]. split; cbn; [done|apply H|apply H|apply H|exact Ht|constructor].
  - assert (tasks p !! w = Some (Parked re)) as Hw by (apply (k_waiters p (ga_pool p H)); rewrite E; by left).
    assert (re = false) as -> by (destruct (ga_tame p H w _ Hw) as [[=]|[|]]; done). split.
    + split; cbn; [done|apply H|apply H|apply H| |].
      * intros j st Hj. destruct (decide (w = j)) as [->|]; [rewrite lookup_insert_eq in Hj; injection Hj as <-; auto|]. rewrite lookup_insert_ne in Hj by done. by apply (Ht j).
      * pose proof (ga_sorted p H) as Hs. rewrite E in Hs. cbn in Hs. by inversion Hs.
    + right. exists w, r. split_and!; done.
Qed.

(** A room with a task that holds a slot, or parks, is not idle. *)
Lemma busy_room x i st : GateOk (gate x) -> tasks (gate x) !! i = Some st -> idle x = false.
Proof.
  intros H Hi. unfold idle. apply not_true_is_false. intros [Hac Hwt]%andb_true_iff. apply Z.eqb_eq in Hac. apply bool_decide_eq_true in Hwt.
  pose proof (k_active _ (ga_pool _ H)) as Ha. pose proof (k_queue _ (ga_pool _ H) false) as Hq. rewrite Hac in Ha. rewrite Hwt in Hq.
  assert (forall v : Limiter.Status -> Z, (forall x, (0 <= v x)%Z) -> (v st <= msum v (tasks (gate x)))%Z) as Hle.
  { intros v Hv. pose proof (at_le v (tasks (gate x)) i Hv) as Hat. unfold at_key in Hat. by rewrite Hi in Hat. }
  assert (forall x, (0 <= waiting false x)%Z) as H1 by (intros y; unfold waiting, weight; by destruct (bool_decide _)).
  assert (forall x, (0 <= holds x)%Z) as H2 by (by intros []).
  specialize (Hle holds H2) as L2. specialize (Hle (waiting false) H1). rewrite <- Ha in L2. rewrite <- Hq in Hle.
  destruct (ga_tame _ H i st Hi) as [->|[->| ->]]; [by apply Hle|by apply L2|by apply L2].
Qed.

(** ** Moves of a turn alone *)

(** A claim that stays in its room, and where it was. *)
Definition calm (t t' : InboundTurn) : Prop :=
  match t_claim t, t_claim t' with
  | Some c, Some c' => cl_room c' = cl_room c /\ (cl_released c = true -> cl_released c' = true) /\ forall st, claim_ok t c st -> claim_ok t' c' st
  | None, None => True
  | _, _ => False
  end.

Definition Rooms (s : Session) : Prop := RoomsOk s /\ Gone s.

Lemma rooms_calm s s' :
  Forall2 calm (turns s) (turns s') -> rooms s' = rooms s -> current s' = current s -> (live s' = None -> live s = None) -> Rooms s -> Rooms s'.
Proof.
  intros Hc Er Ecu El [[H1 H2 H3 H4 H5 H6] HG].
  assert (forall i t' c', turns s' !! i = Some t' -> t_claim t' = Some c' -> exists t c, turns s !! i = Some t /\ t_claim t = Some c /\ cl_room c' = cl_room c /\
    (forall st, claim_ok t c st -> claim_ok t' c' st)) as Hback.
  { intros i t' c' Ht' Hc'. destruct (Forall2_lookup_r _ _ _ _ _ Hc Ht') as (t & Ht & Hcalm). unfold calm in Hcalm. rewrite Hc' in Hcalm. destruct (t_claim t) as [c|] eqn:E; [|done].
    exists t, c. destruct Hcalm as (? & _ & ?). done. }
  assert (forall i t c, turns s !! i = Some t -> t_claim t = Some c -> exists t' c', turns s' !! i = Some t' /\ t_claim t' = Some c' /\ cl_room c' = cl_room c /\ (cl_released c = true -> cl_released c' = true)) as Hfwd.
  { intros i t c Ht Hcl. destruct (Forall2_lookup_l _ _ _ _ _ Hc Ht) as (t' & Ht' & Hcalm). unfold calm in Hcalm. rewrite Hcl in Hcalm. destruct (t_claim t') as [c'|] eqn:E; [|done].
    exists t', c'. destruct Hcalm as (? & ? & _). done. }
  split; [split|]; rewrite ?Er, ?Ecu; try done.
  - intros i t' c' Ht' Hc'. destruct (Hback i t' c' Ht' Hc') as (t & c & Ht & Hcl & -> & Hok). destruct (H2 i t c Ht Hcl) as (x & Hx & Hxo). exists x. split; [done|by apply Hok].
  - intros r x i st Hx Hi. destruct (H3 r x i st Hx Hi) as (t & c & Ht & Hcl & Hr). destruct (Hfwd i t c Ht Hcl) as (t' & c' & ? & ? & ? & _). exists t', c'. split_and!; [done|done|congruence].
  - intros r x w j t' c' Hx Hw Ht' Hc' Hr. destruct (Hback j t' c' Ht' Hc') as (t & c & Ht & Hcl & Hrr & _). apply (H4 r x w j t c); congruence.
  - intros Hl r x Hr Hx Hi. rewrite Ecu in Hr. rewrite Er in Hx. destruct (HG (El Hl) r x Hr Hx Hi) as (i & t & c & Ht & Hcl & Hrel). destruct (Hfwd i t c Ht Hcl) as (t' & c' & ? & ? & _ & ?). exists i, t', c'. auto.
Qed.

Lemma room_calm_refl t : calm t t.
Proof. unfold calm. by destruct (t_claim t). Qed.
Lemma calm_alter i f (l : list InboundTurn) : (forall t, l !! i = Some t -> calm t (f t)) -> Forall2 calm l (alter f i l).
Proof.
  intros H. apply Forall2_same_length_lookup. split; [by rewrite length_alter|]. intros j x y Hx Hy. destruct (decide (i = j)) as [->|].
  - rewrite list_lookup_alter_eq, Hx in Hy. injection Hy as <-. by apply H.
  - rewrite list_lookup_alter_ne in Hy by done. assert (x = y) as -> by congruence. apply room_calm_refl.
Qed.
Lemma calm_map f (l : list InboundTurn) : (forall t, calm t (f t)) -> Forall2 calm l (map f l).
Proof.
  intros H. apply Forall2_same_length_lookup. split; [by rewrite length_map|]. intros j x y Hx Hy. rewrite list_lookup_fmap, Hx in Hy. injection Hy as <-. apply H.
Qed.
Lemma rooms_put i f s : (forall t, turns s !! i = Some t -> calm t (f t)) -> Rooms s -> Rooms (put i f s).
Proof. intros H. apply rooms_calm; try done. by apply calm_alter. Qed.
Lemma rooms_put_claim i f s :
  (forall t c, turns s !! i = Some t -> t_claim t = Some c -> cl_room (f c) = cl_room c /\ (cl_released c = true -> cl_released (f c) = true) /\ forall st, claim_ok t c st -> claim_ok (with_claim (Some (f c)) t) (f c) st) ->
  Rooms s -> Rooms (put_claim i f s).
Proof.
  intros H. apply rooms_put. intros t Ht. unfold calm, on_claim. cbn. destruct (t_claim t) as [c|] eqn:E; cbn; [|done]. by apply (H t c).
Qed.
(** What another field of the turn changes of no claim. *)
Lemma room_calm_same t t' : t_claim t' = t_claim t -> t_finished t' = t_finished t -> (t_processing t' = true -> t_processing t = true) -> calm t t'.
Proof.
  intros Hc Hf Hp. unfold calm. rewrite Hc. destruct (t_claim t) as [c|]; [|done]. split_and!; [done|done|]. intros st (H1 & H2 & H3 & H4). unfold claim_ok, may_end in *. rewrite Hf. split_and!; auto.
Qed.

Lemma giveUp_calm t : calm t (giveUp t).
Proof.
  unfold calm, giveUp, on_claim. cbn. destruct (t_claim t) as [c|] eqn:E; cbn; [|done]. unfold giveUp_claim. destruct (cl_granted c) eqn:Eg; cbn.
  - split_and!; [done|done|]. intros st H. exact H.
  - split_and!; [done|done|]. intros st (H1 & H2 & H3 & H4). unfold claim_ok, may_end in *. cbn. rewrite Eg in *. split_and!; try done. destruct st as [[]|]; try done. by destruct H4.
Qed.
Lemma calm_trans t u v : calm t u -> calm u v -> calm t v.
Proof.
  unfold calm. destruct (t_claim t), (t_claim u), (t_claim v); try done. intros (E1 & R1 & H1) (E2 & R2 & H2). split_and!; [congruence|auto|auto].
Qed.
Lemma drop_calm t : calm t (drop t).
Proof. unfold drop. destruct (t_state t); try apply room_calm_refl. eapply calm_trans; [|apply giveUp_calm]. by apply room_calm_same. Qed.
Lemma emit_calm t : calm t (emit t).
Proof. unfold emit. destruct (t_state t); try apply room_calm_refl. by apply room_calm_same. Qed.
Lemma finished_calm t : calm t (finished t).
Proof.
  unfold calm. cbn. destruct (t_claim t) as [c|]; [|done]. split_and!; [done|done|]. intros st (H1 & H2 & H3 & H4). unfold claim_ok, may_end in *. cbn. split_and!; try done.
  destruct st as [[]|]; try done. destruct (cl_granted c); [|done]. by apply andb_true_iff in H4 as [_ H4].
Qed.

(** A hold more, while the engine works on the message; a hold less. *)
Lemma hold_more t c st : t_processing t = true -> claim_ok t c st -> claim_ok (with_claim (Some (with_holds (S (cl_holds c)) c)) t) (with_holds (S (cl_holds c)) c) st.
Proof.
  intros Hp (H1 & H2 & H3 & H4). unfold claim_ok, may_end in *. cbn in *. split_and!; try done; [lia|]. destruct st as [[]|]; try done. specialize (H3 Hp).
  destruct (cl_granted c); [|done]. bool_facts. lia.
Qed.
Lemma hold_less t c st (b : bool) : (b = true -> 1 <= pred (cl_holds c)) -> (b = true -> t_processing t = true) -> claim_ok t c st ->
  claim_ok (with_processing b (with_claim (Some (with_holds (pred (cl_holds c)) c)) t)) (with_holds (pred (cl_holds c)) c) st.
Proof.
  intros Hb Hp (H1 & H2 & H3 & H4). unfold claim_ok, may_end in *. cbn in *. split_and!; try done. destruct st as [[]|]; try done.
  destruct (cl_granted c); [|done]. apply andb_true_iff in H4 as [-> H4]. apply Nat.eqb_eq in H4. by rewrite H4.
Qed.

(** ** Moves of a room *)

(** One room and the claims on it changed. *)
Lemma rooms_update s s' r x (g : InboundRoom -> InboundRoom) :
  RoomsOk s -> rooms s !! r = Some x -> rooms s' = alter g r (rooms s) -> current s' = current s -> GateOk (gate (g x)) ->
  (current s <> Some r -> idle (g x) = true) ->
  (forall j t c, turns s' !! j = Some t -> t_claim t = Some c -> cl_room c <> r -> turns s !! j = Some t) ->
  (forall j t c, turns s !! j = Some t -> t_claim t = Some c -> cl_room c <> r -> turns s' !! j = Some t) ->
  (forall j t c, turns s' !! j = Some t -> t_claim t = Some c -> cl_room c = r -> claim_ok t c (tasks (gate (g x)) !! j)) ->
  (forall j st, tasks (gate (g x)) !! j = Some st -> exists t c, turns s' !! j = Some t /\ t_claim t = Some c /\ cl_room c = r) ->
  (forall w j t c, w ∈ map fst (waiters (lim (gate (g x)))) -> turns s' !! j = Some t -> t_claim t = Some c -> cl_room c = r -> tasks (gate (g x)) !! j <> Some (Parked false) -> j < w) ->
  RoomsOk s'.
Proof.
  intros [H1 H2 H3 H4 H5 H6] Hx Er Ecu Hg Hidle Hother Hother' Hclaim Htask Hfifo.
  assert (forall r' y, rooms s' !! r' = Some y -> (r' = r /\ y = g x) \/ (r' <> r /\ rooms s !! r' = Some y)) as Hback.
  { intros r' y. rewrite Er. destruct (decide (r = r')) as [->|]; [rewrite list_lookup_alter_eq, Hx; cbn; intros [= <-]; by left|]. rewrite list_lookup_alter_ne by done. auto. }
  assert (rooms s' !! r = Some (g x)) as Hr by (by rewrite Er, list_lookup_alter_eq, Hx).
  split; rewrite ?Ecu.
  - intros r' y [(-> & ->)|(_ & Hy)]%Hback; [done|by eapply H1].
  - intros i t c Ht Hc. destruct (decide (cl_room c = r)) as [E|Hne]; [exists (g x); rewrite E; split; [done|by apply Hclaim]|].
    destruct (H2 i t c (Hother i t c Ht Hc Hne) Hc) as (y & Hy & Hok). exists y. split; [by rewrite Er, list_lookup_alter_ne|done].
  - intros r' y i st [(-> & ->)|(Hne & Hy)]%Hback Hi; [by apply (Htask i st)|]. destruct (H3 r' y i st Hy Hi) as (t & c & Ht & Hc & Hrc). exists t, c. split_and!; [|done|done]. apply (Hother' i t c); [done|done|congruence].
  - intros r' y w j t c [(-> & ->)|(Hne & Hy)]%Hback Hw Ht Hc Hrc; [by apply (Hfifo w j t c)|]. apply (H4 r' y w j t c); try done. apply (Hother j t c); [done|done|congruence].
  - intros r' y [(-> & ->)|(Hne & Hy)]%Hback; [done|by apply H5].
  - intros r' Hr'. rewrite Er, length_alter. by apply H6.
Qed.

(** The claim of turn [i] alone changed. *)
Lemma lookup_put_claim i f s j t' : turns (put_claim i f s) !! j = Some t' -> exists t, turns s !! j = Some t /\ t' = (if decide (i = j) then on_claim f t else t).
Proof.
  unfold put_claim, put. cbn. destruct (decide (i = j)) as [->|].
  - rewrite list_lookup_alter_eq. destruct (turns s !! j) as [t|]; [|done]. intros [= <-]. by exists t.
  - rewrite list_lookup_alter_ne by done. intros H. by exists t'.
Qed.
Lemma lookup_put_claim_ne i f s j : i <> j -> turns (put_claim i f s) !! j = turns s !! j.
Proof. intros. by apply list_lookup_alter_ne. Qed.
Lemma lookup_put_claim_eq i f s t : turns s !! i = Some t -> turns (put_claim i f s) !! i = Some (on_claim f t).
Proof. intros H. unfold put_claim, put. cbn. by rewrite list_lookup_alter_eq, H. Qed.

Lemma claim_update s s' i t c r x (g : InboundRoom -> InboundRoom) (f : RoomState -> RoomState) :
  RoomsOk s -> turns s !! i = Some t -> t_claim t = Some c -> cl_room c = r -> cl_room (f c) = r -> rooms s !! r = Some x ->
  turns s' = alter (on_claim f) i (turns s) -> rooms s' = alter g r (rooms s) -> current s' = current s -> GateOk (gate (g x)) ->
  (current s <> Some r -> idle (g x) = true) ->
  claim_ok (with_claim (Some (f c)) t) (f c) (tasks (gate (g x)) !! i) ->
  (forall j u d, j <> i -> turns s !! j = Some u -> t_claim u = Some d -> cl_room d = r -> claim_ok u d (tasks (gate x) !! j) -> claim_ok u d (tasks (gate (g x)) !! j)) ->
  (forall j, is_Some (tasks (gate (g x)) !! j) -> is_Some (tasks (gate x) !! j)) ->
  (forall w, w ∈ map fst (waiters (lim (gate (g x)))) -> w ∈ map fst (waiters (lim (gate x))) /\ (i < w \/ tasks (gate (g x)) !! i = Some (Parked false))) ->
  (forall j w, j <> i -> w ∈ map fst (waiters (lim (gate (g x)))) -> tasks (gate (g x)) !! j <> Some (Parked false) -> tasks (gate x) !! j = Some (Parked false) -> j < w) ->
  RoomsOk s'.
Proof.
  intros H Hi Hc Hr Hfr Hx Et Er Ecu Hg Hidle Hok Hothers Hdom Hwait Hwoken.
  assert (forall j u', turns s' !! j = Some u' -> exists u, turns s !! j = Some u /\ u' = (if decide (i = j) then on_claim f u else u)) as Hback.
  { intros j u'. rewrite Et. apply (lookup_put_claim i f s). }
  assert (turns s' !! i = Some (on_claim f t)) as Hi' by (by rewrite Et; apply (lookup_put_claim_eq i f s)).
  assert (forall j u d, turns s' !! j = Some u -> t_claim u = Some d -> (j = i /\ d = f c /\ u = with_claim (Some (f c)) t) \/ (j <> i /\ turns s !! j = Some u)) as Hcase.
  { intros j u' d Hj Hd. destruct (Hback j u' Hj) as (u & Hu & ->). destruct (decide (i = j)) as [<-|]; [|by right]. left. assert (u = t) as -> by congruence.
    unfold on_claim in Hd |- *. rewrite Hc in Hd |- *. cbn in Hd. injection Hd as <-. done. }
  apply (rooms_update s s' r x g); try done.
  - intros j u d Hj Hd Hne. destruct (Hcase j u d Hj Hd) as [(-> & -> & _)|(_ & ?)]; [congruence|done].
  - intros j u d Hj Hd Hne. rewrite Et. assert (j <> i) by congruence. by rewrite list_lookup_alter_ne.
  - intros j u d Hj Hd Hrd. destruct (Hcase j u d Hj Hd) as [(-> & -> & ->)|(Hne & Hu)]; [done|]. destruct (rm_claim _ H j u d Hu Hd) as (y & Hy & Hyo).
    assert (y = x) as -> by congruence. by apply (Hothers j u d).
  - intros j st Hst. destruct (Hdom j) as [st' Hst']; [by eexists|]. destruct (rm_task _ H r x j st' Hx Hst') as (u & d & Hu & Hd & Hrd). destruct (decide (j = i)) as [->|Hne].
    + exists (on_claim f t), (f c). split_and!; [done|unfold on_claim; by rewrite Hc|done].
    + exists u, d. split_and!; [|done|done]. rewrite Et. by rewrite list_lookup_alter_ne.
  - intros w j u d Hw Hj Hd Hrd Hnp. destruct (Hwait w Hw) as [Hw0 Hiw]. destruct (Hcase j u d Hj Hd) as [(-> & -> & _)|(Hne & Hu)]; [by destruct Hiw|].
    destruct (decide (tasks (gate x) !! j = Some (Parked false))) as [E|E]; [by apply (Hwoken j w)|]. by apply (rm_fifo _ H r x w j u d).
Qed.

Lemma room_of_lookup r s x : rooms s !! r = Some x -> room_of conc r s = x.
Proof. intros H. unfold room_of. by rewrite H. Qed.

(** What a request's claim says of its room. *)
Lemma claim_room s i t c : RoomsOk s -> turns s !! i = Some t -> t_claim t = Some c ->
  exists x, rooms s !! cl_room c = Some x /\ room_of conc (cl_room c) s = x /\ GateOk (gate x) /\ claim_ok t c (tasks (gate x) !! i).
Proof.
  intros H Hi Hc. destruct (rm_claim _ H i t c Hi Hc) as (x & Hx & Hok). exists x. split_and!; [done|by apply room_of_lookup|by apply (rm_gate _ H _ _ Hx)|done].
Qed.
Lemma used_is_current s r x i st : RoomsOk s -> rooms s !! r = Some x -> tasks (gate x) !! i = Some st -> current s = Some r.
Proof.
  intros H Hx Hi. destruct (decide (current s = Some r)) as [|Hne]; [done|]. pose proof (rm_idle _ H r x Hx Hne) as Hd.
  by rewrite (busy_room x i st (rm_gate _ H r x Hx) Hi) in Hd.
Qed.

Lemma rooms_resume i s s' : resume_request conc i s = Some s' -> RoomsOk s -> RoomsOk s' /\ Gone s'.
Proof.
  unfold resume_request. intros Hs H. apply bind_Some in Hs as (t & Ht & Hs). apply bind_Some in Hs as (c & Hc & Hs).
  destruct (claim_room s i t c H Ht Hc) as (x & Hx & Ex & Hg & Hok). rewrite Ex in Hs. destruct (tasks (gate x) !! i) as [[|re| | |]|] eqn:Hi; try done. injection Hs as <-.
  destruct (resume_gate i re (gate x) Hg Hi) as (Hg' & Et & El). pose proof (used_is_current s _ x i _ H Hx Hi) as Hcur.
  assert (RoomsOk (put_claim i enter (put_room (cl_room c) (Limiter.resume i) s))) as H'.
  { apply (claim_update s _ i t c (cl_room c) x (fun x => mkRoom (Limiter.resume i (gate x)) (lastRelease x)) enter H Ht Hc); cbn; try done.
    - unfold enter. by destruct (cl_abandoned c).
    - rewrite Et, lookup_insert_eq. destruct Hok as (H1 & H2 & H3 & H4 & H5). unfold claim_ok, enter. cbn.
      destruct (cl_abandoned c) eqn:Ea; cbn; rewrite ?Ea, ?orb_true_r; split_and!; auto.
    - intros j u d Hne _ _ _. by rewrite Et, lookup_insert_ne.
    - intros j. rewrite Et. destruct (decide (i = j)) as [->|]; [by rewrite Hi|by rewrite lookup_insert_ne].
    - rewrite El. intros w Hw. split; [done|]. left. apply (rm_fifo _ H (cl_room c) x w i t c Hx Hw Ht Hc eq_refl). by rewrite Hi.
    - intros j w Hne _ Hnp Hp. by rewrite Et, lookup_insert_ne in Hnp. }
  split; [done|]. intros _ r y Hr Hy Hidle. cbn in Hr. assert (r = cl_room c) as -> by congruence. cbn in Hy. rewrite list_lookup_alter_eq, Hx in Hy. injection Hy as <-.
  exfalso. rewrite (busy_room _ i Limiter.Running) in Hidle; [done|exact Hg'|]. cbn. by rewrite Et, lookup_insert_eq.
Qed.

Lemma rooms_end i s s' : end_request conc i s = Some s' -> RoomsOk s -> RoomsOk s' /\ Gone s'.
Proof.
  unfold end_request. intros Hs H. apply bind_Some in Hs as (t & Ht & Hs). apply bind_Some in Hs as (c & Hc & Hs).
  destruct (claim_room s i t c H Ht Hc) as (x & Hx & Ex & Hg & Hok). rewrite Ex in Hs. destruct (tasks (gate x) !! i) as [[| | | |]|] eqn:Hi; try done.
  destruct (may_end t c) eqn:Hend; [|done]. injection Hs as <-.
  destruct (finish_gate i (gate x) Hg Hi) as (Hg' & Hcase). pose proof (used_is_current s _ x i _ H Hx Hi) as Hcur. set (p' := Limiter.finish i (gate x)) in *.
  assert (tasks p' !! i = None) as Hi'.
  { destruct Hcase as [(_ & _ & ->)|(w & r & _ & _ & -> & Hw)]; [by apply lookup_delete_eq|]. rewrite lookup_insert_ne; [by apply lookup_delete_eq|congruence]. }
  split.
  - apply (claim_update s _ i t c (cl_room c) x (fun x => mkRoom (Limiter.finish i (gate x)) (lastRelease x)) (with_released true) H Ht Hc); cbn; try done; fold p'.
    + rewrite Hi'. destruct Hok as (H1 & H2 & H3 & _). done.
    + intros j u d Hne _ _ _ Ho. destruct Hcase as [(_ & _ & ->)|(w & r & _ & _ & -> & Hw)]; [by rewrite lookup_delete_ne|].
      destruct (decide (w = j)) as [->|]; [rewrite lookup_insert_eq|by rewrite lookup_insert_ne, lookup_delete_ne]. by rewrite Hw in Ho.
    + intros j Hj. destruct Hcase as [(_ & _ & Et)|(w & r & _ & _ & Et & Hw)]; rewrite Et in Hj.
      * destruct Hj as [st [_ Hj]%lookup_delete_Some]. by eexists.
      * destruct (decide (w = j)) as [->|]; [by eexists|]. rewrite lookup_insert_ne in Hj by done. destruct Hj as [st [_ Hj]%lookup_delete_Some]. by eexists.
    + intros w' Hw'. assert (w' ∈ map fst (waiters (lim (gate x)))) as Hin.
      { destruct Hcase as [(_ & Ew & _)|(w & r & E & Ew & _)]; rewrite Ew in Hw'; [by inversion Hw'|]. rewrite E. by right. }
      split; [done|]. left. apply (rm_fifo _ H (cl_room c) x w' i t c Hx Hin Ht Hc eq_refl). by rewrite Hi.
    + intros j w' Hne Hw' Hnp Hp. destruct Hcase as [(_ & _ & Et)|(w & r & E & Ew & Et & Hw)]; rewrite Et in Hnp; [by rewrite lookup_delete_ne in Hnp|].
      destruct (decide (w = j)) as [->|]; [|by rewrite lookup_insert_ne, lookup_delete_ne in Hnp]. pose proof (ga_sorted _ Hg) as Hsort. rewrite E in Hsort. cbn in Hsort.
      apply StronglySorted_inv in Hsort as [_ Hf]. rewrite Forall_forall in Hf. apply Hf. by rewrite Ew in Hw'.
  - intros _ r y _ _ _. exists i, (on_claim (with_released true) t), (with_released true c). split_and!; [|by unfold on_claim; rewrite Hc|done].
    by apply (lookup_put_claim_eq i (with_released true) (put_room (cl_room c) (Limiter.finish i) s)).
Qed.

Lemma rooms_delete s : RoomsOk s -> Rooms (deleteRoomIfIdle conc s).
Proof.
  intros H. unfold deleteRoomIfIdle. destruct (current s) as [r|] eqn:Hr; [|split; [done|intros _ r x Hc; congruence]].
  destruct (lookup_lt_is_Some_2 _ _ (rm_current _ H r Hr)) as [x Hx]. rewrite (room_of_lookup r s x Hx). destruct (idle x) eqn:Hi.
  - split; [|by intros _ r' y]. destruct H as [H1 H2 H3 H4 H5 H6]. split; cbn; try done. intros r' y Hy _. destruct (decide (r' = r)) as [->|]; [congruence|]. apply (H5 r' y Hy). congruence.
  - split; [done|]. intros _ r' y Hr' Hy Hyi. congruence.
Qed.

Lemma rooms_after i s s' : after_request conc i s = Some s' -> RoomsOk s -> Rooms s'.
Proof.
  unfold after_request. intros Hs H. apply bind_Some in Hs as (t & Ht & Hs). apply bind_Some in Hs as (c & Hc & Hs). destruct (cl_released c) eqn:Hrel; [|done]. injection Hs as <-.
  destruct (claim_room s i t c H Ht Hc) as (x & Hx & _ & Hg & Hok).
  set (s2 := put_claim i (with_released false) (with_rooms _ s)). assert (RoomsOk s2) as H2.
  { apply (claim_update s s2 i t c (cl_room c) x (fun x => mkRoom (gate x) (now s)) (with_released false) H Ht Hc); cbn; try done.
    - intros Hne. exact (rm_idle _ H _ x Hx Hne).
    - destruct Hok as (H1 & H3 & H4 & H5). unfold claim_ok. split_and!; try done. destruct (tasks (gate x) !! i) as [[]|]; try done; destruct H5; split; done.
    - intros w Hw. split; [done|]. destruct (decide (tasks (gate x) !! i = Some (Parked false))) as [|Hnp]; [by right|]. left. by apply (rm_fifo _ H (cl_room c) x w i t c). }
  change (live s2) with (live s). cbn. fold s2. destruct (live s) eqn:Hl; [|by apply rooms_delete]. split; [done|]. intros Hn. cbn in Hn. congruence.
Qed.

(** ** Arrivals *)

Lemma rooms_ok_same s s' : turns s' = turns s -> rooms s' = rooms s -> current s' = current s -> RoomsOk s -> RoomsOk s'.
Proof. intros Et Er Ec [H1 H2 H3 H4 H5 H6]. split; rewrite ?Et, ?Er, ?Ec; done. Qed.

Lemma new_room_ok s : GateOk (gate (new_room conc s)) /\ idle (new_room conc s) = true.
Proof.
  split; [|done]. split; cbn; try done; [apply newPool_ok|constructor].
Qed.

Lemma rooms_room s r s1 : room conc s = (r, s1) -> RoomsOk s -> RoomsOk s1 /\ current s1 = Some r /\ live s1 = live s.
Proof.
  unfold room. intros Hr H. destruct (current s) as [r0|] eqn:Hc; injection Hr as <- <-; [done|]. split; [|done]. destruct (new_room_ok s) as [Hg Hi].
  destruct H as [H1 H2 H3 H4 H5 H6]. split; cbn.
  - intros r x [Hx|[-> ->]]%lookup_snoc; [by eapply H1|done].
  - intros i t c Ht Hcl. destruct (H2 i t c Ht Hcl) as (x & Hx & Hok). exists x. split; [by apply lookup_app_l_Some|done].
  - intros r x i st [Hx|[-> ->]]%lookup_snoc Hst; [by eapply H3|]. cbn in Hst. by rewrite lookup_empty in Hst.
  - intros r x w j t c [Hx|[-> ->]]%lookup_snoc Hw; [exact (H4 r x w j t c Hx Hw)|]. cbn in Hw. by inversion Hw.
  - intros r x [Hx|[-> ->]]%lookup_snoc Hne; [|done]. apply (H5 r x Hx). by rewrite Hc.
  - intros r [= <-]. rewrite length_app. cbn. lia.
Qed.

(** A turn without a claim. *)
Lemma rooms_append s s' t : RoomsOk s -> t_claim t = None -> turns s' = (turns s ++ [t])%list -> rooms s' = rooms s -> current s' = current s -> RoomsOk s'.
Proof.
  intros [H1 H2 H3 H4 H5 H6] Hc Et Er Ec. split; rewrite ?Et, ?Er, ?Ec; try done.
  - intros i u c [Hu|[-> ->]]%lookup_snoc Hcl; [by apply H2|congruence].
  - intros r x i st Hx Hi. destruct (H3 r x i st Hx Hi) as (u & c & Hu & Hrest). exists u, c. split; [by apply lookup_app_l_Some|done].
  - intros r x w j u c Hx Hw [Hu|[-> ->]]%lookup_snoc Hcl; [exact (H4 r x w j u c Hx Hw Hu Hcl)|congruence].
Qed.

(** A turn that asks the current room for a slot. *)
Lemma rooms_request s s3 t r :
  RoomsOk s -> current s = Some r -> turns s3 = (turns s ++ [t])%list -> rooms s3 = rooms s -> current s3 = current s ->
  t_claim t = Some (mkClaim r false false 1 None false false false) -> RoomsOk (request conc (length (turns s)) r s3).
Proof.
  intros H Hcur Et Er Ec Hcl. set (i := length (turns s)). destruct (lookup_lt_is_Some_2 _ _ (rm_current _ H r Hcur)) as [x Hx]. pose proof (rm_gate _ H r x Hx) as Hg.
  assert (tasks (gate x) !! i = None) as Hnone.
  { destruct (tasks (gate x) !! i) as [st|] eqn:E; [|done]. destruct (rm_task _ H r x i st Hx E) as (u & c & Hu & _). apply lookup_lt_Some in Hu. unfold i in Hu. lia. }
  assert (forall w, w ∈ map fst (waiters (lim (gate x))) -> w < i) as Hlt.
  { intros w ([w' re] & -> & Hin)%elem_of_map. pose proof (k_waiters _ (ga_pool _ Hg) w' re Hin) as Hw. cbn. destruct (rm_task _ H r x w' _ Hx Hw) as (u & c & Hu & _). by eapply lookup_lt_Some. }
  destruct (start_gate i (gate x) Hg Hnone Hlt) as [Hg' Hcase]. set (p' := fst (Limiter.start i (gate x))) in *. set (g := fun y : InboundRoom => mkRoom (fst (Limiter.start i (gate y))) (lastRelease y)).
  assert (turns s3 !! i = Some t) as Hi by (by rewrite Et, lookup_app_r, Nat.sub_diag by lia).
  assert (forall j u, turns s3 !! j = Some u -> (j = i /\ u = t) \/ (j <> i /\ turns s !! j = Some u)) as Hback.
  { intros j u. rewrite Et. intros [Hu|[-> ->]]%lookup_snoc; [|by left]. right. split; [|done]. apply lookup_lt_Some in Hu. unfold i. lia. }
  assert (forall j u, turns s !! j = Some u -> turns s3 !! j = Some u /\ j <> i) as Hfwd.
  { intros j u Hu. rewrite Et. split; [by apply lookup_app_l_Some|]. apply lookup_lt_Some in Hu. unfold i. lia. }
  unfold request. set (s4 := put_room r _ s3). assert (rooms s4 !! r = Some (g x)) as Hx4 by (unfold s4; cbn; by rewrite list_lookup_alter_eq, Er, Hx).
  rewrite (room_of_lookup r s4 (g x) Hx4). change (gate (g x)) with p'.
  assert (forall f, (forall c, cl_room (f c) = cl_room c) ->
    claim_ok (with_claim (Some (f (mkClaim r false false 1 None false false false))) t) (f (mkClaim r false false 1 None false false false)) (tasks p' !! i) ->
    (forall j, j <> i -> tasks p' !! j = tasks (gate x) !! j) -> (forall w, w ∈ map fst (waiters (lim p')) -> w = i /\ tasks p' !! i = Some (Parked false) \/ w ∈ map fst (waiters (lim (gate x))) /\ tasks p' !! i = Some (Parked false)) ->
    RoomsOk (put_claim i f s4)) as Hgen.
  { intros f Hf Hok Hsame Hwait.
    assert (forall j u c, turns (put_claim i f s4) !! j = Some u -> t_claim u = Some c -> (j = i /\ c = f (mkClaim r false false 1 None false false false) /\ u = with_claim (Some c) t) \/ (j <> i /\ turns s !! j = Some u)) as Hcl4.
    { intros j u c Hu Hc. destruct (lookup_put_claim i f s4 j u Hu) as (v & Hv & ->). change (turns s4) with (turns s3) in Hv. destruct (Hback j v Hv) as [[-> ->]|[Hne Hv0]].
      - left. rewrite decide_True in Hc |- * by done. unfold on_claim in *. rewrite Hcl in *. cbn in *. injection Hc as <-. done.
      - rewrite decide_False in Hc |- * by congruence. by right. }
    apply (rooms_update s _ r x g H Hx); cbn; try done.
    - by rewrite Er.
    - intros j u c Hu Hc Hne. destruct (Hcl4 j u c Hu Hc) as [(_ & -> & _)|(_ & ?)]; [by rewrite Hf in Hne|done].
    - intros j u c Hu Hc Hne. destruct (Hfwd j u Hu) as [Hu3 Hji]. rewrite list_lookup_alter_ne by congruence. done.
    - intros j u c Hu Hc Hrc. destruct (Hcl4 j u c Hu Hc) as [(-> & -> & ->)|(Hne & Hu0)]; [exact Hok|]. fold p'. rewrite Hsame by done.
      destruct (rm_claim _ H j u c Hu0 Hc) as (y & Hy & Hyo). assert (y = x) as -> by congruence. done.
    - fold p'. intros j st Hst. destruct (decide (j = i)) as [->|Hne].
      + exists (on_claim f t), (f (mkClaim r false false 1 None false false false)). split_and!; [by apply (lookup_put_claim_eq i f s4)|unfold on_claim; by rewrite Hcl|by rewrite Hf].
      + rewrite Hsame in Hst by done. destruct (rm_task _ H r x j st Hx Hst) as (u & c & Hu & Hc & Hrc). exists u, c. split_and!; [|done|done].
        rewrite list_lookup_alter_ne by congruence. by apply Hfwd.
    - fold p'. intros w j u c Hw Hu Hc Hrc Hnp. destruct (Hcl4 j u c Hu Hc) as [(-> & _)|(Hne & Hu0)].
      + by destruct (Hwait w Hw) as [[_ ?]|[_ ?]].
      + destruct (Hwait w Hw) as [[-> _]|[Hw0 _]]; [apply lookup_lt_Some in Hu0; done|]. rewrite Hsame in Hnp by done. by apply (rm_fifo _ H r x w j u c). }
  destruct Hcase as [(Et' & Ew & _)|(Et' & Ew)].
  - rewrite Et', lookup_insert_eq. apply Hgen.
    + intros c. unfold enter. by destruct (cl_abandoned c).
    + rewrite Et', lookup_insert_eq. cbn. by split_and!.
    + intros j Hne. by rewrite Et', lookup_insert_ne.
    + rewrite Ew. intros w Hw. by inversion Hw.
  - assert (tasks p' !! i = Some (Parked false)) as Hpk by (by rewrite Et', lookup_insert_eq). rewrite Hpk.
    eapply (rooms_ok_same (put_claim i id s4)); [|done|done|apply Hgen].
    + cbn. symmetry. apply list_eq. intros j. destruct (decide (i = j)) as [<-|]; [|by rewrite list_lookup_alter_ne]. rewrite list_lookup_alter_eq, Hi. cbn. unfold on_claim. rewrite Hcl. cbn. rewrite <- Hcl. by destruct t.
    + done.
    + rewrite Hpk. by split_and!.
    + intros j Hne. by rewrite Et', lookup_insert_ne.
    + rewrite Ew, map_app. intros w [Hw|Hw]%elem_of_app; [right; done|]. left. split; [|done]. cbn in Hw. by apply list_elem_of_singleton in Hw.
Qed.

(** ** Every move *)

Lemma rooms_admit e a s : live s = Some e -> Rooms s -> Rooms (admitInbound conc lids e a s).
Proof.
  intros Hl [H _]. assert (RoomsOk (admitInbound conc lids e a s) /\ live (admitInbound conc lids e a s) = Some e) as [H' Hl'].
  2: { split; [done|]. intros Hn. congruence. }
  unfold admitInbound. set (key := if a_status a then None else key_of_id (a_id a)). pose proof (arrival_entry_but key a s) as Hb.
  destruct (arrival_entry key a s) as [[[o scoped] sep] s1]. cbn in Hb. assert (RoomsOk s1 /\ live s1 = Some e) as [H1 Hl1].
  { destruct Hb as (El & Et & _ & _ & Er & Ec & _). split; [by eapply rooms_ok_same|congruence]. }
  destruct (a_needsRoom a).
  - destruct (room conc s1) as [r s2] eqn:Er. destruct (rooms_room s1 r s2 Er H1) as (H2 & Hc2 & Hl2).
    match goal with |- context [turns s2 ++ [?t]] => set (u := t) end. destruct (a_status a) eqn:Ea; cbn [negb];
      (match goal with |- context [request _ _ _ ?s3] => set (s4 := s3) end; assert (length (turns s) = length (turns s2)) as El;
       [destruct Hb as (_ & Et & _); pose proof (room_but conc s1) as (_ & Hlen & _); rewrite Er in Hlen; cbn in Hlen; by rewrite Hlen, Et|]; rewrite El; split;
       [by apply (rooms_request s2 s4 u r)|destruct (request_but conc (length (turns s2)) r s4) as (E & _); rewrite E; unfold s4; cbn; congruence]).
  - match goal with |- context [turns s1 ++ [?t]] => set (u := t) end. destruct (a_status a); cbn [negb]; (split; [by apply (rooms_append s1 _ u)|done]).
Qed.

Lemma rooms_deliver e id chat me author s : live s = Some e -> Rooms s -> Rooms (deliver e id chat me author s).
Proof.
  intros Hl [H _]. unfold deliver. set (fresh := new_entry _). pose proof (entry_for_but (key_of_id id) fresh s) as Hb. destruct (entry_for (key_of_id id) fresh s) as [o s1]. cbn in Hb.
  destruct Hb as (El & Et & _ & _ & Er & Ec & _). assert (RoomsOk s1) as H1 by (by eapply rooms_ok_same). split.
  - match goal with |- context [_ ++ [?t]] => set (u := t) end. destruct (key_of_id id); by apply (rooms_append s1 _ u).
  - intros Hn. assert (live s1 = None) as Hn1 by (by destruct (key_of_id id)). congruence.
Qed.

Lemma rooms_handle i t status skipped ref s : turns s !! i = Some t -> t_processing t = true -> Rooms s -> Rooms (handle i status skipped ref s).
Proof.
  intros Hi Hp H. unfold handle. rewrite Hi. assert (forall s0, Rooms s0 -> Rooms (put i drop s0)) as Hdrop by (intros s0; apply rooms_put; intros u _; apply drop_calm).
  destruct (negb _); [by apply Hdrop|]. destruct status; [|destruct skipped; [by apply Hdrop|]]; apply Hdrop.
  - apply rooms_put_claim; [|done]. intros u c Hu Hc. assert (u = t) as -> by congruence. split_and!; [done|done|]. intros st. by apply hold_more.
  - apply rooms_put; [intros u _; apply emit_calm|]. revert H. apply rooms_calm; try done. apply Forall2_same_length_lookup. split; [done|]. intros j x y Hx Hy. cbn in Hy. assert (x = y) as -> by congruence. apply room_calm_refl.
Qed.

(** Claims that were only told, asked, or given up. *)
Lemma answers_ok t c b st : (b = true -> cl_granted c = true) -> claim_ok t c st -> claim_ok (with_claim (Some (answers b c)) t) (answers b c) st.
Proof. intros Hb (H1 & H2 & H3 & H4). unfold claim_ok, may_end in *. cbn in *. split_and!; auto. Qed.

Lemma rooms_reserve i s : Rooms s -> Rooms (fst (reserve i s)).
Proof.
  intros H. unfold reserve. destruct (turns s !! i) as [t|] eqn:Hi; [|done]. destruct (t_claim t) as [c|] eqn:Hc; [|done]. destruct (bool_decide _); [done|]. destruct (t_preparing t); [done|].
  destruct (revoked_turn t s); [apply rooms_put; [intros u _; apply giveUp_calm|done]|]. destruct (cl_granted c) eqn:Hg; cbn; (apply rooms_put_claim; [|done]); intros u d Hu Hd;
    assert (u = t) as -> by congruence; assert (d = c) as -> by congruence; (split_and!; [done|done|]); intros st; [by apply answers_ok|done].
Qed.

Lemma rooms_prepared i same s s' : prepared i same s = Some s' -> Rooms s -> Rooms s'.
Proof.
  unfold prepared. intros Hp H. apply bind_Some in Hp as (t & Ht & Hp). destruct (t_preparing t); [|done].
  assert (Rooms (put i (with_preparing false) s)) as H1 by (apply rooms_put; [intros u _; by apply room_calm_same|done]).
  destruct (t_key t ≫= _) as [o|]; [|by injection Hp as <-]. destruct (_ && _); [|by injection Hp as <-].
  assert (Rooms (put i (with_entry o) (put i (with_preparing false) s))) as H2 by (apply rooms_put; [intros u _; by apply room_calm_same|done]).
  destruct (e_revoked _); injection Hp as <-; [|done]. apply rooms_put; [intros u _; apply giveUp_calm|done].
Qed.

Lemma rooms_finish i s : Rooms s -> Rooms (finish i s).
Proof.
  destruct (finish_fields i s) as (El & Et & _ & _ & Er & Ec & _). apply rooms_calm; [|done|done|congruence]. rewrite Et. apply calm_alter. intros t _. apply finished_calm.
Qed.

Lemma rooms_outside s s' : turns s' = turns s -> rooms s' = rooms s -> current s' = current s -> live s' = live s -> Rooms s -> Rooms s'.
Proof.
  intros Et Er Ec El. apply rooms_calm; [|done|done|congruence]. rewrite Et. apply Forall2_same_length_lookup. split; [done|]. intros j x y Hx Hy. assert (x = y) as -> by congruence. apply room_calm_refl.
Qed.

Lemma rooms_callback s s' : callback conc s s' -> Rooms s -> Rooms s'.
Proof.
  intros Hm H. destruct Hm as [s c s' Hs|s i s' Hs|s c s' Hs|s c s' Hs|s i ok s' Hs|s c s' Hs|s i s' Hs|s i s' Hs|s i s' Hs|s i same s' Hs|s i s' Hs|s i s' Hs|s i s' Hs|s i s' Hs].
  - apply bind_Some in Hs as (q & Hq & [= <-]). by revert H; apply rooms_outside.
  - unfold emitted_ends in Hs. apply bind_Some in Hs as (t & Ht & Hs). apply bind_Some in Hs as (a & Ha & Hs). destruct (bool_decide _); [done|]. apply bind_Some in Hs as (q & Hq & [= <-]). by revert H; apply rooms_outside.
  - apply bind_Some in Hs as (q & Hq & [= <-]). by revert H; apply rooms_outside.
  - apply bind_Some in Hs as (q & Hq & [= <-]). by revert H; apply rooms_outside.
  - unfold commit_ends in Hs. apply bind_Some in Hs as (t & Ht & Hs). apply bind_Some in Hs as (b & Hb & Hs). destruct (_ || _); [done|]. apply bind_Some in Hs as (q & Hq & [= <-]).
    apply rooms_finish. by revert H; apply rooms_outside.
  - apply bind_Some in Hs as (q & Hq & [= <-]). by revert H; apply rooms_outside.
  - apply bind_Some in Hs as (t & Ht & Hs). destruct (_ && _); [|done]. injection Hs as <-. by apply rooms_finish.
  - apply bind_Some in Hs as (t & Ht & Hs). destruct (t_processing t) eqn:Hp; [|done]. injection Hs as <-. revert H. apply rooms_calm; try done. cbn.
    apply Forall2_same_length_lookup. split; [by rewrite !length_alter|]. intros j x y Hx Hy. destruct (decide (i = j)) as [<-|]; [|rewrite !list_lookup_alter_ne in Hy by done; assert (x = y) as -> by congruence; apply room_calm_refl].
    rewrite !list_lookup_alter_eq, Hx in Hy. injection Hy as <-. unfold calm, on_claim. cbn. destruct (t_claim x) as [c|]; cbn; [|done]. split_and!; [done|done|]. intros st.
    by apply (hold_less x c st false).
  - apply bind_Some in Hs as (t & Ht & Hs). apply bind_Some in Hs as (c & Hc & Hs). destruct (_ <? _) eqn:Hlt; [|done]. injection Hs as <-. apply Nat.ltb_lt in Hlt.
    apply rooms_put_claim; [|done]. intros u d Hu Hd. assert (u = t) as -> by congruence. assert (d = c) as -> by congruence. split_and!; [done|done|]. intros st Hok.
    pose proof (hold_less t c st (t_processing t)) as Hl. apply Hl; [|done|done]. intros Hp. rewrite Hp in Hlt. lia.
  - by eapply rooms_prepared.
  - destruct H as [H _]. by apply (rooms_resume i s).
  - destruct H as [H _]. by apply (rooms_end i s).
  - destruct H as [H _]. by apply (rooms_after i s).
  - apply bind_Some in Hs as (t & Ht & Hs). apply bind_Some in Hs as (c & Hc & Hs). destruct (_ && _) eqn:Hb; [|done]. injection Hs as <-.
    apply rooms_put_claim; [|done]. intros u d Hu Hd. assert (u = t) as -> by congruence. assert (d = c) as -> by congruence. split_and!; [done|done|]. intros st. apply answers_ok. intros Hg. by apply andb_true_iff in Hg as [? _].
Qed.

Lemma rooms_event s s' : event conc window_ms lids s s' -> Rooms s -> Rooms s'.
Proof.
  intros Hm H. destruct Hm as [s e a Hl|s e id chat me author Hl|s i t Ht Hp|s i t status skipped ref Ht Hp|s i|s i s' Hs|s k c|s i s' Hs|s t Ht|s e Hl|s e next Hl Hn].
  - by apply rooms_admit.
  - by apply rooms_deliver.
  - by apply rooms_reserve.
  - by apply (rooms_handle i t).
  - apply rooms_put; [intros u _; apply drop_calm|done].
  - apply bind_Some in Hs as (t & Ht & Hs). destruct (t_processing t) eqn:Hp; [|done]. injection Hs as <-. apply rooms_put_claim; [|done]. intros u c Hu Hc. assert (u = t) as -> by congruence.
    split_and!; [done|done|]. intros st. by apply hold_more.
  - unfold change. destruct (inboundInFlight s !! k) as [o|]; [|done]. assert (Rooms (put_entry o (fun e => (hold c (fst e), snd e)) s)) as H1 by (by revert H; apply rooms_outside).
    destruct c; try exact H1. revert H1. apply rooms_calm; try done. apply calm_map. intros t. unfold gives_up_with. destruct (_ && _); [apply giveUp_calm|apply room_calm_refl].
  - apply bind_Some in Hs as (t & Ht & Hs). apply bind_Some in Hs as (c & Hc & Hs). apply bind_Some in Hs as (a & Ha & Hs).
    destruct (cl_granted c || cl_abandoned c) eqn:Hb; [done|]. destruct (_ <? _)%Z; [done|]. injection Hs as <-. apply orb_false_iff in Hb as [Hg _].
    apply rooms_put_claim; [|done]. intros u d Hu Hd. assert (u = t) as -> by congruence. assert (d = c) as -> by congruence. pose proof (giveUp_calm t) as Hcalm. unfold calm, giveUp, on_claim in Hcalm.
    cbn in Hcalm. rewrite Hc in Hcalm. cbn in Hcalm. unfold giveUp_claim in Hcalm. by rewrite Hg in Hcalm.
  - by revert H; apply rooms_outside.
  - revert H. apply rooms_calm; try done. apply Forall2_same_length_lookup. split; [done|]. intros j x y Hx Hy. cbn in Hy. assert (x = y) as -> by congruence. apply room_calm_refl.
  - unfold retire. apply rooms_delete. destruct H as [H _]. assert (Rooms (with_live (Some 0) s)) as H1 by (split; [exact (rooms_ok_same s (with_live (Some 0) s) eq_refl eq_refl eq_refl H)|intros Hx; cbn in Hx; discriminate]).
    assert (Rooms (with_live (Some 0) (with_turns (map (drops_with e) (turns s)) s))) as [H2 _]; [|exact (rooms_ok_same (with_live (Some 0) (with_turns (map (drops_with e) (turns s)) s)) (with_turns (map (drops_with e) (turns s)) (with_live next s)) eq_refl eq_refl eq_refl H2)].
    revert H1. apply rooms_calm; try done. cbn. apply calm_map. intros t. unfold drops_with. destruct (_ && _); [apply drop_calm|apply room_calm_refl].
Qed.
End rooms.
