(* ===== verification/AdmissionRuns.v ===== *)
(** * Admission of inbound messages: the theorems

    What the three parts of the invariant give together, the measure its callbacks
    lower, and runs on a concrete session that show the theorems at work. *)
From stdpp Require Import gmap sorting.
From S2P Require Import Prelude Counting JsString KeyedLock Limiter MutationGuard MessageTable InFlight Admission AdmissionQueues AdmissionEntries AdmissionRooms.
Local Open Scope nat_scope.

Section admission.
Context (conc window_ms : Z) (lids : bool).

Record AdmitOk (s : Session) : Prop := mkAdmitOk { ad_links : Links s; ad_shares : Shares s; ad_rooms : Rooms conc s }.

Lemma admitted_callback s s' : callback conc s s' -> AdmitOk s -> AdmitOk s'.
Proof.
  intros Hm [HL HS HR]. split; [by eapply links_callback|by eapply shares_callback|by eapply rooms_callback].
Qed.
Lemma admitted_moves s s' : moves conc window_ms lids s s' -> AdmitOk s -> AdmitOk s'.
Proof.
  intros [Hm|Hm] H; [by eapply admitted_callback|]. destruct H as [HL HS HR]. split; [by eapply links_event|by eapply shares_event|by eapply rooms_event].
Qed.
Lemma opened_admitted t : AdmitOk (opened t).
Proof.
  split; [..|split].
  - split; cbn; try (intros *; rewrite ?lookup_nil; done); apply rtc_refl.
  - split; cbn; intros *; rewrite ?lookup_nil, ?lookup_empty; done.
  - split; cbn; intros *; rewrite ?lookup_nil; done.
  - by intros _ r x Hr.
Qed.
Lemma admitted_reached s : admitted conc window_ms lids s -> AdmitOk s.
Proof. intros [t Ht]. refine (rtc_invariant _ AdmitOk _ _ _ Ht (opened_admitted t)). apply admitted_moves. Qed.

(** ** The order of a chat *)


(** ** The room *)

(** A message whose engine was told it has room, until its slot may be freed: its row
    is unwritten, or work on its payload has not settled. *)
Definition holds_payload (t : InboundTurn) : bool :=
  match t_claim t with Some c => cl_told c && (negb (t_finished t) || (0 <? cl_holds c)) | None => false end.

Lemma running_count (P : InboundTurn -> bool) (l : list InboundTurn) k (ts : gmap nat Limiter.Status) :
  (forall i t, l !! i = Some t -> P t = true -> ts !! (k + i) = Some Limiter.Running) -> (Z.of_nat (length (List.filter P l)) <= msum holds ts)%Z.
Proof.
  revert k ts. induction l as [|t l IH]; intros k ts H; cbn.
  - apply msum_nonneg. by intros [].
  - destruct (P t) eqn:Hp; cbn [length].
    + pose proof (H 0 t eq_refl Hp) as Hk. rewrite Nat.add_0_r in Hk. assert (Z.of_nat (length (List.filter P l)) <= msum holds (base.delete k ts))%Z as Hle.
      { apply (IH (S k)). intros i u Hi Hu. rewrite lookup_delete_ne by lia. rewrite Nat.add_succ_comm. by apply (H (S i) u). }
      rewrite msum_delete in Hle. unfold at_key in Hle. rewrite Hk in Hle. unfold holds at 2 in Hle. cbn in Hle. lia.
    + apply (IH (S k)). intros i u Hi Hu. replace (S k + i) with (k + S i) by lia. by apply (H (S i) u).
Qed.

(** A parked task is in the queue. *)
Lemma waiters_le (ws : list (nat * bool)) (ts : gmap nat Limiter.Status) :
  NoDup (map fst ws) -> (forall i re, (i, re) ∈ ws -> ts !! i = Some (Parked re)) -> (queued false ws <= msum (waiting false) ts)%Z.
Proof.
  revert ts. induction ws as [|[i re] ws IH]; intros ts Hn Hw; cbn in Hn.
  - apply msum_nonneg. intros x. unfold waiting, weight. by destruct (bool_decide _).
  - apply NoDup_cons in Hn as [Hi Hn]. assert (queued false ws <= msum (waiting false) (base.delete i ts))%Z as Hle.
    { apply IH; [done|]. intros j r Hj. rewrite lookup_delete_ne; [apply Hw; by right|]. intros ->. apply Hi, elem_of_map. by exists (j, r). }
    rewrite msum_delete in Hle. unfold at_key in Hle. rewrite (Hw i re) in Hle by (by left). rewrite waiting_parked in Hle. rewrite queued_cons. lia.
Qed.
Lemma parked_waits p i : PoolOk p -> tasks p !! i = Some (Parked false) -> exists re, (i, re) ∈ waiters (lim p).
Proof.
  intros H Hi. destruct (decide (i ∈ map fst (waiters (lim p)))) as [([j re] & -> & Hin)%elem_of_map|Hn]; [by exists re|]. exfalso.
  assert (queued false (waiters (lim p)) <= msum (waiting false) (base.delete i (tasks p)))%Z as Hle.
  { apply waiters_le; [apply (k_ids p H)|]. intros j r Hj. rewrite lookup_delete_ne; [by apply (k_waiters p H)|]. intros ->. apply Hn, elem_of_map. by exists (j, r). }
  rewrite msum_delete in Hle. unfold at_key in Hle. rewrite Hi, <- (k_queue p H) in Hle. rewrite waiting_parked in Hle. cbn in Hle. lia.
Qed.

Lemma payload_runs s i t : AdmitOk s -> turns s !! i = Some t -> holds_payload t = true ->
  exists c x, t_claim t = Some c /\ current s = Some (cl_room c) /\ rooms s !! cl_room c = Some x /\ tasks (gate x) !! i = Some Limiter.Running.
Proof.
  intros H Ht Hp. unfold holds_payload in Hp. destruct (t_claim t) as [c|] eqn:Hc; [|done]. destruct (ad_rooms _ H) as [HR _].
  destruct (rm_claim _ _ HR i t c Ht Hc) as (x & Hx & H1 & H2 & H3 & H4). apply andb_true_iff in Hp as [Ht1 Hp]. specialize (H2 Ht1).
  assert (tasks (gate x) !! i = Some Limiter.Running) as Hrun.
  { destruct (tasks (gate x) !! i) as [[]|]; try done; [by rewrite H2 in H4; destruct H4..|]. unfold may_end in H4. rewrite H2 in H4. apply andb_true_iff in H4 as [Hf Hh]. rewrite Hf in Hp. apply Nat.eqb_eq in Hh. rewrite Hh in Hp. done. }
  exists c, x. split_and!; [done| |done|done]. by eapply used_is_current.
Qed.


(** ** Entries *)

Definition in_flight_as (k : string) (t : InboundTurn) : bool := negb (t_finished t) && bool_decide (t_key t = Some k).

Lemma held_count s k o : AdmitOk s -> inboundInFlight s !! k = Some o -> count o (shares s) = length (List.filter (in_flight_as k) (turns s)).
Proof.
  intros H Hk. pose proof (ad_shares _ H) as HS. destruct (en_flight _ _ _ HS k o Hk) as [_ Hall].
  assert (forall i t, turns s !! i = Some t -> counts o (share t) = in_flight_as k t) as Heq.
  { intros i t Ht. pose proof (share_lookup s i t Ht) as Hst. unfold counts, in_flight_as. cbn. destruct (t_finished t) eqn:Hf; [done|]. cbn.
    destruct (Nat.eqb_spec (t_shared t) o) as [E|E].
    - pose proof (Hall i (share t) Hst E) as Hkey. cbn in Hkey. rewrite Hkey. rewrite bool_decide_eq_true_2 by (by eexists). by rewrite bool_decide_eq_true_2.
    - rewrite andb_false_r. symmetry. apply bool_decide_eq_false. intros Hkey. apply E. pose proof (en_key _ _ _ HS i (share t) k Hst Hf Hkey) as Hfl. cbn in Hfl. congruence. }
  unfold count, shares. clear Hall. revert Heq. generalize (turns s). intros l. induction l as [|t l IH]; intros Heq; [done|]. cbn. pose proof (Heq 0 t eq_refl) as E0. cbn in E0.
  rewrite E0. assert (length (List.filter (counts o) (map share l)) = length (List.filter (in_flight_as k) l)) as E by (apply IH; intros i u Hu; by apply (Heq (S i))).
  destruct (in_flight_as k t); cbn; by rewrite E.
Qed.

(** C21. A change that reaches a message on its way is kept for it: as long as a delivery
    of the message is unfinished its id leads to the entry counted for it, the entry's
    holders are exactly those deliveries, and the id is free again once the last one
    finished.  A revoke recorded on the entry is there at every later state, so the row
    a delivery still has to write is written cleared. *)
Theorem entries_wait_for_their_messages s s' :
  admitted conc window_ms lids s -> rtc (moves conc window_ms lids) s s' ->
  (forall i t k, turns s !! i = Some t -> t_key t = Some k -> t_finished t = false -> inboundInFlight s !! k = Some (t_shared t)) /\
  (forall k o, inboundInFlight s !! k = Some o -> exists e n, entries s !! o = Some (e, S n) /\ S n = length (List.filter (in_flight_as k) (turns s))) /\
  (forall o, e_revoked (entry_of o s) = true -> e_revoked (entry_of o s') = true).
Proof.
  intros Hs Hr. apply admitted_reached in Hs. split_and!.
  - intros i t k Ht Hk Hf. by apply (en_key _ _ _ (ad_shares _ Hs) i (share t)); [apply share_lookup| |].
  - intros k o Hk. pose proof (ad_shares _ Hs) as HS. pose proof (flight_bound _ _ _ k o HS Hk) as Hb. apply lookup_lt_is_Some in Hb as [[e n] He].
    pose proof (en_count _ _ _ HS o e n He) as Hn. destruct (en_flight _ _ _ HS k o Hk) as [Hp _]. destruct n as [|n]; [lia|]. exists e, n. split; [done|]. by rewrite Hn, (held_count s k o).
  - intros o Hrev. unfold entry_of in *. destruct (entries s !! o) as [[e n]|] eqn:E; [|done]. destruct (grows_moves conc window_ms lids s s' Hr _ e n E) as (e' & n' & -> & Hm). by apply Hm.
Qed.
End admission.

(** ** A session with one slot *)

(** Two pictures of one chat arrive; the first is granted the slot, downloaded, handed
    over and committed, while the second waits and is revoked. *)
Definition picture_of (id : string) : Arrival := mkArrival id "c" true false (Some false) None.
Definition after (o : option Session) (s : Session) : Session := default s o.

Definition demo_started : Session := with_live (Some 0) (opened 0).
Definition demo_arrived : Session := admitInbound 1 false 0 (picture_of "M2") (admitInbound 1 false 0 (picture_of "M1") demo_started).
Definition demo_told : Session := fst (reserve 0 demo_arrived).
Definition demo_revoked : Session := change "M2" Revoked demo_told.
Definition demo_handed : Session := handle 0 false false (ref_of "c" false None) demo_revoked.
Definition demo_committing : Session := after (on_commits (fun q => begin q 0) demo_handed) demo_handed.
Definition demo_committed : Session := after (commit_ends 0 true demo_committing) demo_committing.
Definition demo_second : Session := after (on_commits (fun q => begin q 1) demo_committed) demo_committed.

Lemma demo_told_admitted : admitted 1 1000 false demo_told.
Proof.
  exists 0%Z. eapply rtc_l; [right; by apply (ev_start _ _ _ _ 0)|]. eapply rtc_l; [right; by apply (ev_admit _ _ _ _ 0 (picture_of "M1"))|].
  eapply rtc_l; [right; by apply (ev_admit _ _ _ _ 0 (picture_of "M2"))|]. eapply rtc_l; [right; eapply (ev_reserve _ _ _ _ 0); vm_compute; reflexivity|]. apply rtc_refl.
Qed.
Lemma demo_revokes : rtc (moves 1 1000 false) demo_told demo_revoked.
Proof. eapply rtc_l; [right; apply (ev_change _ _ _ _ "M2" Revoked)|]. apply rtc_refl. Qed.
Lemma demo_second_admitted : admitted 1 1000 false demo_second.
Proof.
  destruct demo_told_admitted as [t Ht]. exists t. etransitivity; [exact Ht|]. etransitivity; [exact demo_revokes|].
  eapply rtc_l; [right; eapply (ev_handle _ _ _ _ 0 _ false false (ref_of "c" false None)); vm_compute; reflexivity|].
  eapply rtc_l; [left; apply (cb_commit _ _ 0); vm_compute; reflexivity|]. eapply rtc_l; [left; apply (cb_committed _ _ 0 true); vm_compute; reflexivity|].
  eapply rtc_l; [left; apply (cb_commit _ _ 1); vm_compute; reflexivity|]. apply rtc_refl.
Qed.

Definition turn_at (i : nat) (s : Session) : InboundTurn := default (mkTurn true 0 None "" false 0 0 TDropped None None true None false false) (turns s !! i).
Definition commit_call (i : nat) (s : Session) : Call := default (mkCall "" None KeyedLock.Waiting) (calls (chatCommits s) !! i).



Lemma entries_wait_for_their_messages_witness :
  inboundInFlight demo_revoked !! "M2"%string = Some 1 /\ inboundInFlight demo_told !! "M2"%string = Some 1 /\ e_revoked (entry_of 1 demo_revoked) = true.
Proof.
  split; [vm_compute; reflexivity|]. split; [|vm_compute; reflexivity].
  apply (proj1 (entries_wait_for_their_messages 1 1000 false demo_told demo_revoked demo_told_admitted demo_revokes) 1 (turn_at 1 demo_told) "M2"%string); vm_compute; reflexivity.
Defined.
