(* ===== verification/AdmissionDrain.v ===== *)
(** * Admission of inbound messages: it drains

    A measure every callback lowers, what is left when none can run, and the theorem
    that a session whose messages are all decided settles. *)
From stdpp Require Import gmap sorting.
From S2P Require Import Prelude Counting JsString KeyedLock Limiter MutationGuard MessageTable InFlight Admission AdmissionQueues AdmissionEntries AdmissionRooms AdmissionRuns.
Local Open Scope nat_scope.

(** ** The measure *)

Definition call_work (c : Call) : nat := match stage c with KeyedLock.Waiting => 3 | KeyedLock.Running => 2 | Settled _ => 1 | Cleaned _ => 0 end.
Definition flag (b : bool) : nat := if b then 1 else 0.
Definition claim_work (c : RoomState) : nat := cl_holds c + flag (cl_waits c) + flag (cl_released c).
Definition turn_work (t : InboundTurn) : nat :=
  flag (t_status t && negb (t_finished t)) + flag (t_processing t) + flag (t_preparing t) + match t_claim t with Some c => claim_work c | None => 0 end.
Definition task_work (st : Limiter.Status) : Z := (match st with Parked _ => 4 | Woken _ => 3 | Limiter.Running => 2 | _ => 0 end)%Z.
Definition gate_work (p : Pool) : nat := Z.to_nat (msum task_work (tasks p)).
Definition room_work (x : InboundRoom) : nat := gate_work (gate x).
Definition work (s : Session) : nat :=
  sum_list_with call_work (calls (chatEmits s)) + sum_list_with call_work (calls (chatCommits s)) + sum_list_with turn_work (turns s) + sum_list_with room_work (rooms s).

Lemma sum_alter {A} (w : A -> nat) f i l x : l !! i = Some x -> sum_list_with w (alter f i l) + w x = sum_list_with w l + w (f x).
Proof.
  revert i. induction l as [|y l IH]; intros [|i] Hi; try done; cbn in Hi |- *.
  - injection Hi as ->. lia.
  - specialize (IH i Hi). change (list_alter f i l) with (alter f i l). lia.
Qed.
Lemma sum_insert {A} (w : A -> nat) i l (x y : A) : l !! i = Some x -> sum_list_with w (<[i := y]> l) + w x = sum_list_with w l + w y.
Proof.
  intros Hi. assert (<[i := y]> l = alter (fun _ => y) i l) as ->; [|by apply sum_alter]. apply list_eq. intros j. destruct (decide (i = j)) as [<-|].
  - rewrite list_lookup_alter_eq, list_lookup_insert_eq by (by eapply lookup_lt_Some). by rewrite Hi.
  - by rewrite list_lookup_alter_ne, list_lookup_insert_ne.
Qed.

Lemma begin_work q b q' : begin q b = Some q' -> sum_list_with call_work (calls q') < sum_list_with call_work (calls q).
Proof.
  unfold begin. intros H. apply bind_Some in H as (c & Hc & H). destruct (stage c) eqn:E; try done. destruct (ready q c); [|done]. injection H as <-. cbn.
  pose proof (sum_insert call_work b (calls q) c (mkCall (ckey c) (prev c) KeyedLock.Running) Hc) as Hs. unfold call_work in Hs at 2 4. rewrite E in Hs. cbn in Hs. unfold put_stage. lia.
Qed.
Lemma settle_work q b ok q' : settle q b ok = Some q' -> sum_list_with call_work (calls q') < sum_list_with call_work (calls q).
Proof.
  unfold settle. intros H. apply bind_Some in H as (c & Hc & H). destruct (stage c) eqn:E; try done. injection H as <-. cbn.
  pose proof (sum_insert call_work b (calls q) c (mkCall (ckey c) (prev c) (Settled ok)) Hc) as Hs. unfold call_work in Hs at 2 4. rewrite E in Hs. cbn in Hs. unfold put_stage. lia.
Qed.
Lemma cleanup_work q b q' : cleanup q b = Some q' -> sum_list_with call_work (calls q') < sum_list_with call_work (calls q).
Proof.
  unfold cleanup. intros H. apply bind_Some in H as (c & Hc & H). destruct (stage c) as [| |ok|] eqn:E; try done. injection H as <-. cbn.
  pose proof (sum_insert call_work b (calls q) c (mkCall (ckey c) (prev c) (Cleaned ok)) Hc) as Hs. unfold call_work in Hs at 2 4. rewrite E in Hs. cbn in Hs. unfold put_stage. lia.
Qed.

(** Where a move reaches turns and rooms only. *)
Lemma put_work i f s t : turns s !! i = Some t -> work (put i f s) + turn_work t = work s + turn_work (f t).
Proof. intros H. pose proof (sum_alter turn_work f i (turns s) t H) as E. unfold work. cbn. lia. Qed.
Lemma turn_work_claim f t c : t_claim t = Some c -> turn_work (on_claim f t) + claim_work c = turn_work t + claim_work (f c).
Proof. intros Hc. unfold turn_work, on_claim. cbn. rewrite Hc. cbn. lia. Qed.
Lemma turn_work_no_claim f t : t_claim t = None -> turn_work (on_claim f t) = turn_work t.
Proof. intros Hc. unfold turn_work, on_claim. cbn. by rewrite Hc. Qed.
Lemma turn_work_processing t : t_processing t = true -> turn_work (with_processing false t) + 1 = turn_work t.
Proof. intros Hp. unfold turn_work. cbn. rewrite Hp. cbn. lia. Qed.
Lemma put_claim_work i f s t c : turns s !! i = Some t -> t_claim t = Some c -> work (put_claim i f s) + claim_work c = work s + claim_work (f c).
Proof. intros H Hc. pose proof (put_work i (on_claim f) s t H) as E. pose proof (turn_work_claim f t c Hc) as E2. unfold put_claim. lia. Qed.
Lemma room_update_work r g s x : rooms s !! r = Some x -> work (with_rooms (alter g r (rooms s)) s) + room_work x = work s + room_work (g x).
Proof. intros H. pose proof (sum_alter room_work g r (rooms s) x H) as E. unfold work. cbn. lia. Qed.
Lemma task_work_nonneg st : (0 <= task_work st)%Z.
Proof. by destruct st. Qed.
Lemma finish_work i s : work (finish i s) <= work s /\ (forall t, turns s !! i = Some t -> t_status t = true -> t_finished t = false -> work (finish i s) < work s).
Proof.
  destruct (finish_fields i s) as (_ & Et & Ee & Ec & Er & _). unfold work. rewrite Et, Ee, Ec, Er. destruct (turns s !! i) as [t|] eqn:Hi.
  - pose proof (sum_alter turn_work finished i (turns s) t Hi) as E. assert (turn_work (finished t) <= turn_work t) as Hle.
    { unfold turn_work. cbn. destruct (t_status t), (t_finished t); cbn; lia. }
    split; [lia|]. intros t' [= <-] Hs Hf. assert (turn_work (finished t) < turn_work t) as Hlt; [|lia]. unfold turn_work. cbn. rewrite Hs, Hf. cbn. lia.
  - split; [|done]. assert (alter finished i (turns s) = turns s) as ->; [|done]. apply list_eq. intros j. destruct (decide (i = j)) as [->|]; [by rewrite list_lookup_alter_eq, Hi|by rewrite list_lookup_alter_ne].
Qed.

Section drain.
Context (conc window_ms : Z) (lids : bool).

Lemma resume_gate_work i re p : GateOk conc p -> tasks p !! i = Some (Woken re) -> gate_work (Limiter.resume i p) < gate_work p.
Proof.
  intros Hg Hi. destruct (resume_gate conc i re p Hg Hi) as (_ & Et & _). unfold gate_work. rewrite Et, msum_insert. unfold at_key. rewrite Hi. cbn.
  pose proof (at_le task_work (tasks p) i task_work_nonneg) as Hat. unfold at_key in Hat. rewrite Hi in Hat. cbn in Hat. lia.
Qed.
Lemma finish_gate_work i p : GateOk conc p -> tasks p !! i = Some Limiter.Running -> gate_work (Limiter.finish i p) + 2 <= gate_work p.
Proof.
  intros Hg Hi. destruct (finish_gate conc i p Hg Hi) as (_ & Hcase). unfold gate_work. pose proof (at_le task_work (tasks p) i task_work_nonneg) as Hat. unfold at_key in Hat. rewrite Hi in Hat. cbn in Hat.
  pose proof (msum_nonneg task_work (base.delete i (tasks p)) task_work_nonneg) as Hn. assert (msum task_work (base.delete i (tasks p)) = msum task_work (tasks p) - 2)%Z as Hd.
  { rewrite msum_delete. unfold at_key. by rewrite Hi. }
  destruct Hcase as [(_ & _ & ->)|(w & r & _ & _ & -> & Hw)]; [lia|]. rewrite msum_insert. unfold at_key. assert (base.delete i (tasks p) !! w = Some (Parked false)) as E by (rewrite lookup_delete_ne; [done|congruence]).
  pose proof (at_le task_work (base.delete i (tasks p)) w task_work_nonneg) as Hat'. unfold at_key in Hat'. rewrite E in Hat' |- *. cbn in Hat' |- *. lia.
Qed.

Lemma delete_room_work s : work (deleteRoomIfIdle conc s) = work s.
Proof. unfold deleteRoomIfIdle. destruct (current s); [|done]. by destruct (idle _). Qed.

(** Every callback lowers the measure. *)
Lemma callback_work s s' : AdmitOk conc s -> callback conc s s' -> work s' < work s.
Proof.
  intros H Hm. destruct (ad_rooms _ _ H) as [HR _]. destruct Hm as [s c s' Hs|s i s' Hs|s c s' Hs|s c s' Hs|s i ok s' Hs|s c s' Hs|s i s' Hs|s i s' Hs|s i s' Hs|s i same s' Hs|s i s' Hs|s i s' Hs|s i s' Hs|s i s' Hs].
  - apply bind_Some in Hs as (q & Hq & [= <-]). apply begin_work in Hq. unfold work. cbn. lia.
  - unfold emitted_ends in Hs. apply bind_Some in Hs as (t & Ht & Hs). apply bind_Some in Hs as (a & Ha & Hs). destruct (bool_decide _); [done|]. apply bind_Some in Hs as (q & Hq & [= <-]).
    apply settle_work in Hq. unfold work. cbn. lia.
  - apply bind_Some in Hs as (q & Hq & [= <-]). apply cleanup_work in Hq. unfold work. cbn. lia.
  - apply bind_Some in Hs as (q & Hq & [= <-]). apply begin_work in Hq. unfold work. cbn. lia.
  - unfold commit_ends in Hs. apply bind_Some in Hs as (t & Ht & Hs). apply bind_Some in Hs as (b & Hb & Hs). destruct (_ || _); [done|]. apply bind_Some in Hs as (q & Hq & [= <-]).
    destruct (finish_work i (with_commits q s)) as [Hle _]. apply settle_work in Hq. unfold work in Hle |- * at 2. cbn in Hle |- *. unfold work. lia.
  - apply bind_Some in Hs as (q & Hq & [= <-]). apply cleanup_work in Hq. unfold work. cbn. lia.
  - unfold status_ends in Hs. apply bind_Some in Hs as (t & Ht & Hs). destruct (_ && _) eqn:Hb; [|done]. injection Hs as <-. apply andb_true_iff in Hb as [[Hst Hf%negb_true_iff]%andb_true_iff _].
    by apply (finish_work i s) with t.
  - unfold processed in Hs. apply bind_Some in Hs as (t & Ht & Hs). destruct (t_processing t) eqn:Hp; [|done]. injection Hs as <-.
    set (f := fun c => with_holds (pred (cl_holds c)) c). pose proof (put_work i (with_processing false) _ _ (lookup_put_claim_eq i f s t Ht)) as E.
    pose proof (put_work i (on_claim f) s t Ht) as E2. pose proof (turn_work_processing (on_claim f t) Hp) as E3. unfold put_claim in *.
    assert (turn_work (on_claim f t) <= turn_work t) as Hle; [|lia]. destruct (t_claim t) as [c|] eqn:Hc; [|by rewrite turn_work_no_claim].
    pose proof (turn_work_claim f t c Hc) as E4. unfold claim_work in E4. cbn in E4. lia.
  - unfold hold_settles in Hs. apply bind_Some in Hs as (t & Ht & Hs). apply bind_Some in Hs as (c & Hc & Hs). destruct (_ <? _) eqn:Hlt; [|done]. injection Hs as <-. apply Nat.ltb_lt in Hlt.
    pose proof (put_claim_work i (fun c => with_holds (pred (cl_holds c)) c) s t c Ht Hc) as E. unfold claim_work in E. cbn in E. lia.
  - unfold prepared in Hs. apply bind_Some in Hs as (t & Ht & Hs). destruct (t_preparing t) eqn:Hp; [|done]. pose proof (put_work i (with_preparing false) s t Ht) as E. unfold turn_work in E. cbn in E. rewrite Hp in E. cbn in E.
    assert (turns (put i (with_preparing false) s) !! i = Some (with_preparing false t)) as Ht1 by (cbn; by rewrite list_lookup_alter_eq, Ht).
    destruct (t_key t ≫= _) as [o|]; [|injection Hs as <-; lia]. pose proof (put_work i (with_entry o) _ _ Ht1) as E1. unfold turn_work in E1. cbn in E1.
    destruct (_ && _); [|injection Hs as <-; lia].
    assert (turns (put i (with_entry o) (put i (with_preparing false) s)) !! i = Some (with_entry o (with_preparing false t))) as Ht2 by (cbn; rewrite list_lookup_alter_eq; cbn in Ht1; by rewrite Ht1).
    pose proof (put_work i giveUp _ _ Ht2) as E2. unfold turn_work in E2. cbn in E2. assert (match giveUp_claim <$> t_claim t with Some c => claim_work c | None => 0 end = match t_claim t with Some c => claim_work c | None => 0 end) as Eg.
    { destruct (t_claim t) as [c|]; [|done]. cbn. unfold giveUp_claim. by destruct (cl_granted c). }
    rewrite Eg in E2. destruct (e_revoked _); injection Hs as <-; lia.
  - unfold resume_request in Hs. apply bind_Some in Hs as (t & Ht & Hs). apply bind_Some in Hs as (c & Hc & Hs). destruct (claim_room conc s i t c HR Ht Hc) as (x & Hx & Ex & Hg & _). rewrite Ex in Hs.
    destruct (tasks (gate x) !! i) as [[|re| | |]|] eqn:Hi; try done. injection Hs as <-. pose proof (resume_gate_work i re (gate x) Hg Hi) as Hlt.
    pose proof (room_update_work (cl_room c) (fun x => mkRoom (Limiter.resume i (gate x)) (lastRelease x)) s x Hx) as E. unfold room_work in E. cbn in E.
    pose proof (put_claim_work i enter (put_room (cl_room c) (Limiter.resume i) s) t c Ht Hc) as E2. assert (claim_work (enter c) = claim_work c) as Ew by (unfold enter; by destruct (cl_abandoned c)).
    unfold put_room in E2 |- *. lia.
  - unfold end_request in Hs. apply bind_Some in Hs as (t & Ht & Hs). apply bind_Some in Hs as (c & Hc & Hs). destruct (claim_room conc s i t c HR Ht Hc) as (x & Hx & Ex & Hg & Hok). rewrite Ex in Hs.
    destruct (tasks (gate x) !! i) as [[| | | |]|] eqn:Hi; try done. destruct (may_end t c); [|done]. injection Hs as <-. pose proof (finish_gate_work i (gate x) Hg Hi) as Hlt.
    pose proof (room_update_work (cl_room c) (fun x => mkRoom (Limiter.finish i (gate x)) (lastRelease x)) s x Hx) as E. unfold room_work in E. cbn in E.
    pose proof (put_claim_work i (with_released true) (put_room (cl_room c) (Limiter.finish i) s) t c Ht Hc) as E2. destruct Hok as (_ & _ & _ & _ & Hrel). unfold claim_work in E2. cbn in E2. rewrite Hrel in E2. cbn in E2.
    unfold put_room in E2 |- *. lia.
  - unfold after_request in Hs. apply bind_Some in Hs as (t & Ht & Hs). apply bind_Some in Hs as (c & Hc & Hs). destruct (cl_released c) eqn:Hrel; [|done]. injection Hs as <-.
    destruct (claim_room conc s i t c HR Ht Hc) as (x & Hx & _). pose proof (room_update_work (cl_room c) (fun x => mkRoom (gate x) (now s)) s x Hx) as E. unfold room_work in E. cbn in E.
    match goal with |- context [put_claim i (with_released false) ?s1] => pose proof (put_claim_work i (with_released false) s1 t c Ht Hc) as E2; set (s2 := put_claim i (with_released false) s1) in * end.
    unfold claim_work in E2. cbn in E2. rewrite Hrel in E2. cbn in E2. change (live s2) with (live s). destruct (live s); [|rewrite delete_room_work]; lia.
  - unfold wake_caller in Hs. apply bind_Some in Hs as (t & Ht & Hs). apply bind_Some in Hs as (c & Hc & Hs). destruct (cl_waits c && _) eqn:Hb; [|done]. injection Hs as <-. apply andb_true_iff in Hb as [Hw _].
    pose proof (put_claim_work i (answers (cl_granted c && negb (revoked_turn t s))) s t c Ht Hc) as E. unfold claim_work in E. cbn in E. rewrite Hw in E. cbn in E. lia.
Qed.

(** ** Progress *)

Definition decided (s : Session) : Prop := forall i t, turns s !! i = Some t -> t_state t <> TPending.

(** Callbacks decide nothing. *)
Definition states (s : Session) : list TurnState := map t_state (turns s).
Lemma states_put i f s : (forall t, t_state (f t) = t_state t) -> states (put i f s) = states s.
Proof. intros H. unfold states, put. cbn. by apply map_alter_same. Qed.
Lemma states_links s s' : links s' = links s -> states s' = states s.
Proof.
  intros H. unfold states, links in *. assert (forall s, map t_state (turns s) = map l_state (map link (turns s))) as E by (intros x; by rewrite map_map). by rewrite !E, H.
Qed.
Lemma states_finish i s : states (finish i s) = states s.
Proof. destruct (finish_fields i s) as (_ & E & _). unfold states. rewrite E. by apply map_alter_same. Qed.
Lemma callback_states s s' : callback conc s s' -> states s' = states s.
Proof.
  intros Hm. destruct Hm as [s c s' Hs|s i s' Hs|s c s' Hs|s c s' Hs|s i ok s' Hs|s c s' Hs|s i s' Hs|s i s' Hs|s i s' Hs|s i same s' Hs|s i s' Hs|s i s' Hs|s i s' Hs|s i s' Hs].
  - by apply bind_Some in Hs as (q & Hq & [= <-]).
  - unfold emitted_ends in Hs. apply bind_Some in Hs as (t & Ht & Hs). apply bind_Some in Hs as (a & Ha & Hs). destruct (bool_decide _); [done|]. by apply bind_Some in Hs as (q & Hq & [= <-]).
  - by apply bind_Some in Hs as (q & Hq & [= <-]).
  - by apply bind_Some in Hs as (q & Hq & [= <-]).
  - unfold commit_ends in Hs. apply bind_Some in Hs as (t & Ht & Hs). apply bind_Some in Hs as (b & Hb & Hs). destruct (_ || _); [done|]. apply bind_Some in Hs as (q & Hq & [= <-]).
    exact (states_finish i (with_commits q s)).
  - by apply bind_Some in Hs as (q & Hq & [= <-]).
  - apply bind_Some in Hs as (t & Ht & Hs). destruct (_ && _); [|done]. injection Hs as <-. apply states_finish.
  - apply bind_Some in Hs as (t & Ht & Hs). destruct (t_processing t); [|done]. injection Hs as <-. rewrite states_put by done. by apply states_put.
  - apply bind_Some in Hs as (t & Ht & Hs). apply bind_Some in Hs as (c & Hc & Hs). destruct (_ <? _); [|done]. injection Hs as <-. by apply states_put.
  - apply bind_Some in Hs as (t & Ht & Hs). destruct (t_preparing t); [|done].
    destruct (t_key t ≫= _) as [o|]; [|injection Hs as <-; by apply states_put]. destruct (_ && _); [|injection Hs as <-; by apply states_put].
    destruct (e_revoked _); injection Hs as <-; rewrite ?states_put by done; done.
  - apply states_links, but_rooms_links. by eapply resume_but.
  - apply states_links, but_rooms_links. by eapply end_but.
  - apply states_links, but_rooms_links. by eapply after_but.
  - apply bind_Some in Hs as (t & Ht & Hs). apply bind_Some in Hs as (c & Hc & Hs). destruct (_ && _); [|done]. injection Hs as <-. by apply states_put.
Qed.
Lemma decided_callback s s' : callback conc s s' -> decided s -> decided s'.
Proof.
  intros Hm H i t' Ht'. assert (states s' !! i = Some (t_state t')) as E by (unfold states; by rewrite list_lookup_fmap, Ht').
  rewrite (callback_states s s' Hm) in E. unfold states in E. rewrite list_lookup_fmap in E. destruct (turns s !! i) as [t|] eqn:Ht; [|done]. injection E as <-. by apply (H i).
Qed.
Lemma retired_decided s : AdmitOk conc s -> live s = None -> decided s.
Proof.
  intros H Hl i t Ht Hp. destruct (lk_pending _ _ _ _ (ad_links _ _ H) i (link t) (link_lookup s i t Ht) Hp) as (_ & _ & E). congruence.
Qed.

Definition stuck (s : Session) : Prop := forall s', ~ callback conc s s'.

(** A queue none of whose calls can move is over. *)
Lemma queue_over q : KeyedLock.reachable q -> (forall c, begin q c = None) -> (forall c, cleanup q c = None) -> (forall c x, calls q !! c = Some x -> stage x <> KeyedLock.Running) ->
  (forall c x, calls q !! c = Some x -> settled (stage x) = true) /\ KeyedLock.size q = 0.
Proof.
  intros Hq Hb Hc Hr. destruct (keyed_work_moves_on q Hq) as [Hmove Hsize].
  assert (forall c x, calls q !! c = Some x -> exists ok, stage x = Cleaned ok) as Hall.
  { intros c x Hx. destruct (stage x) as [| |ok|ok] eqn:E.
    - destruct (Hmove c x Hx E) as (i & y & _ & Hy & _ & [Hrun|Hbeg]); [by destruct (Hr i y Hy)|by destruct (Hbeg (Hb i))].
    - by destruct (Hr c x Hx).
    - specialize (Hc c). unfold cleanup in Hc. rewrite Hx in Hc. cbn in Hc. by rewrite E in Hc.
    - by exists ok. }
  split; [|by apply Hsize]. intros c x Hx. destruct (Hall c x Hx) as [ok ->]. done.
Qed.

Lemma stuck_queues s : AdmitOk conc s -> decided s -> stuck s ->
  (forall c x, calls (chatCommits s) !! c = Some x -> settled (stage x) = true) /\ KeyedLock.size (chatEmits s) = 0 /\ KeyedLock.size (chatCommits s) = 0.
Proof.
  intros H Hd Hst. pose proof (ad_links _ _ H) as HL.
  assert (forall c, begin (chatEmits s) c = None) as Eb.
  { intros c. destruct (begin (chatEmits s) c) as [q|] eqn:E; [|done]. destruct (Hst (with_emits q s)). apply (cb_gate _ s c). unfold on_emits. by rewrite E. }
  assert (forall c, cleanup (chatEmits s) c = None) as Ec.
  { intros c. destruct (cleanup (chatEmits s) c) as [q|] eqn:E; [|done]. destruct (Hst (with_emits q s)). apply (cb_emit_cleanup _ s c). unfold on_emits. by rewrite E. }
  assert (forall c, begin (chatCommits s) c = None) as Cb.
  { intros c. destruct (begin (chatCommits s) c) as [q|] eqn:E; [|done]. destruct (Hst (with_commits q s)). apply (cb_commit _ s c). unfold on_commits. by rewrite E. }
  assert (forall c, cleanup (chatCommits s) c = None) as Cc.
  { intros c. destruct (cleanup (chatCommits s) c) as [q|] eqn:E; [|done]. destruct (Hst (with_commits q s)). apply (cb_commit_cleanup _ s c). unfold on_commits. by rewrite E. }
  assert (forall c x, calls (chatEmits s) !! c = Some x -> stage x <> KeyedLock.Running) as Er.
  { intros c x Hx Hrun. destruct (lk_eowner _ _ _ _ HL c x Hx) as (i & l & Hl & Hlc). unfold links in Hl. rewrite list_lookup_fmap in Hl. destruct (turns s !! i) as [t|] eqn:Ht; [|done]. injection Hl as <-. cbn in Hlc.
    assert (exists q, settle (chatEmits s) c true = Some q) as [q Hq] by (unfold settle; rewrite Hx; cbn; rewrite Hrun; by eexists).
    destruct (Hst (with_emits q s)). apply (cb_emitted _ s i). unfold emitted_ends. rewrite Ht. cbn. rewrite Hlc. cbn. rewrite bool_decide_eq_false_2 by (by apply (Hd i)). by rewrite Hq. }
  assert (forall c x, calls (chatCommits s) !! c = Some x -> stage x <> KeyedLock.Running) as Cr.
  { intros c x Hx Hrun. destruct (lk_cowner _ _ _ _ HL c x Hx) as (i & l & Hl & Hlc). unfold links in Hl. rewrite list_lookup_fmap in Hl. destruct (turns s !! i) as [t|] eqn:Ht; [|done]. injection Hl as <-. cbn in Hlc.
    assert (exists q, settle (chatCommits s) c true = Some q) as [q Hq] by (unfold settle; rewrite Hx; cbn; rewrite Hrun; by eexists).
    destruct (Hst (finish i (with_commits q s))). apply (cb_committed _ s i true). unfold commit_ends. rewrite Ht. cbn. rewrite Hlc. cbn. rewrite bool_decide_eq_false_2 by (by apply (Hd i)). rewrite andb_false_r. by rewrite Hq. }
  destruct (queue_over _ (lk_emits _ _ _ _ HL) Eb Ec Er) as [_ HE]. destruct (queue_over _ (lk_commits _ _ _ _ HL) Cb Cc Cr) as [HC HCs]. done.
Qed.

Lemma stuck_finished s : AdmitOk conc s -> decided s -> stuck s -> forall i t, turns s !! i = Some t -> t_finished t = true.
Proof.
  intros H Hd Hst i t Ht. destruct (stuck_queues s H Hd Hst) as (HC & _). pose proof (ad_links _ _ H) as HL. destruct (t_status t) eqn:Hs.
  - destruct (t_finished t) eqn:Hf; [done|]. destruct (Hst (finish i s)). apply (cb_status _ s i). unfold status_ends. rewrite Ht. cbn. rewrite Hs, Hf, bool_decide_eq_false_2 by (by apply (Hd i)). done.
  - destruct (lk_queued _ _ _ _ HL i (link t) (link_lookup s i t Ht) Hs) as [[b Hb] _]. destruct (lk_commit _ _ _ _ HL i (link t) b (link_lookup s i t Ht) Hb) as (c & Hc & _ & Hset).
    cbn in Hset. rewrite <- Hset. by eapply HC.
Qed.

Lemma stuck_claims s i t c : AdmitOk conc s -> stuck s -> turns s !! i = Some t -> t_claim t = Some c -> t_processing t = false /\ cl_holds c = 0 /\ cl_released c = false.
Proof.
  intros H Hst Ht Hc. assert (t_processing t = false) as Hp.
  { destruct (t_processing t) eqn:Hp; [|done]. destruct (Hst (put i (with_processing false) (put_claim i (fun c => with_holds (pred (cl_holds c)) c) s))). apply (cb_processed _ s i). unfold processed. rewrite Ht. cbn. by rewrite Hp. }
  split_and!; [done| |].
  - destruct (cl_holds c) as [|n] eqn:Hh; [done|]. destruct (Hst (put_claim i (fun c => with_holds (pred (cl_holds c)) c) s)). apply (cb_held _ s i). unfold hold_settles. rewrite Ht. cbn. rewrite Hc. cbn. by rewrite Hp, Hh.
  - destruct (cl_released c) eqn:Hr; [|done]. destruct (after_request conc i s) as [s'|] eqn:E; [destruct (Hst s'); by apply (cb_after _ s i)|]. unfold after_request in E. rewrite Ht in E. cbn in E. rewrite Hc in E. cbn in E. by rewrite Hr in E.
Qed.

(** Nothing is left in a room. *)
Lemma stuck_rooms s r x : AdmitOk conc s -> decided s -> stuck s -> rooms s !! r = Some x -> idle x = true /\ forall i, tasks (gate x) !! i = None.
Proof.
  intros H Hd Hst Hx. destruct (ad_rooms _ _ H) as [HR _]. pose proof (rm_gate _ _ HR r x Hx) as Hg.
  assert (forall i st, tasks (gate x) !! i = Some st -> st = Parked false) as Hparked.
  { intros i st Hi. destruct (rm_task _ _ HR r x i st Hx Hi) as (t & c & Ht & Hc & Hrc). destruct (claim_room conc s i t c HR Ht Hc) as (y & Hy & Ey & _ & Hok). assert (y = x) as -> by congruence.
    destruct (ga_tame _ _ Hg i st Hi) as [->|[->| ->]]; [done|..]; exfalso.
    - apply (Hst (put_claim i enter (put_room (cl_room c) (Limiter.resume i) s))). apply (cb_resume _ s i). unfold resume_request. rewrite Ht. cbn. rewrite Hc. cbn. by rewrite Ey, Hi.
    - apply (Hst (put_claim i (with_released true) (put_room (cl_room c) (Limiter.finish i) s))). apply (cb_end _ s i). unfold end_request. rewrite Ht. cbn. rewrite Hc. cbn. rewrite Ey, Hi.
      assert (may_end t c = true) as ->; [|done]. destruct Hok as (_ & _ & _ & Hst'). rewrite Hi in Hst'. destruct Hst' as [Hga _]. destruct (stuck_claims s i t c H Hst Ht Hc) as (_ & Hh & _).
      unfold may_end. rewrite (stuck_finished s H Hd Hst i t Ht), Hh. by destruct (cl_granted c). }
  assert (msum holds (tasks (gate x)) = 0)%Z as Hzero.
  { rewrite (msum_ext holds (fun _ => 0%Z)); [|intros i st Hi; by rewrite (Hparked i st Hi)]. destruct (decide (msum (fun _ => 0%Z) (tasks (gate x)) = 0%Z)) as [|Hne]; [done|]. by apply msum_some in Hne as (? & ? & _ & ?). }
  pose proof (k_active _ (ga_pool _ _ Hg)) as Ha. assert (waiters (lim (gate x)) = []) as Hw.
  { destruct (waiters (lim (gate x))) eqn:E; [done|]. pose proof (pool_full conc _ Hg) as Hfull. rewrite E in Hfull. specialize (Hfull ltac:(done)). rewrite (ga_max _ _ Hg) in Hfull. lia. }
  split; [unfold idle; rewrite Hw, Ha, Hzero; done|]. intros i. destruct (tasks (gate x) !! i) as [st|] eqn:Hi; [|done]. rewrite (Hparked i st Hi) in Hi.
  destruct (parked_waits _ i (ga_pool _ _ Hg) Hi) as [re Hin]. rewrite Hw in Hin. by inversion Hin.
Qed.

(** Nothing admitted is left: every delivery finished, no entry waits, the queues and the
    rooms are empty, no caller waits for a grant, and without an engine no room is
    kept. *)
Definition drained (s : Session) : Prop :=
  (forall i t, turns s !! i = Some t -> t_finished t = true) /\ inboundInFlight s = ∅ /\ KeyedLock.size (chatEmits s) = 0 /\ KeyedLock.size (chatCommits s) = 0 /\
  (forall r x, rooms s !! r = Some x -> idle x = true) /\ (forall i t c, turns s !! i = Some t -> t_claim t = Some c -> cl_waits c = false) /\
  (live s = None -> current s = None).

Lemma stuck_drained s : AdmitOk conc s -> decided s -> stuck s -> drained s.
Proof.
  intros H Hd Hst. pose proof (stuck_finished s H Hd Hst) as Hfin. destruct (stuck_queues s H Hd Hst) as (_ & HE & HC). destruct (ad_rooms _ _ H) as [HR HG]. split_and!; try done.
  - apply map_eq. intros k. rewrite lookup_empty. destruct (inboundInFlight s !! k) as [o|] eqn:Hk; [|done]. exfalso. destruct (en_flight _ _ _ (ad_shares _ _ H) k o Hk) as [Hp _].
    apply count_positive in Hp as (i & h & Hh & Hcnt). apply counts_bound in Hcnt as [Hdone _]. unfold shares in Hh. rewrite list_lookup_fmap in Hh. destruct (turns s !! i) as [t|] eqn:Ht; [|done]. injection Hh as <-. cbn in Hdone. by rewrite (Hfin i t Ht) in Hdone.
  - intros r x Hx. by apply (stuck_rooms s r x).
  - intros i t c Ht Hc. destruct (cl_waits c) eqn:Hw; [|done]. destruct (rm_claim _ _ HR i t c Ht Hc) as (x & Hx & Hok). destruct (stuck_rooms s _ x H Hd Hst Hx) as [_ Hnone]. rewrite Hnone in Hok. destruct Hok as (_ & _ & _ & Hend).
    assert (cl_granted c || cl_abandoned c = true) as Hga by (unfold may_end in Hend; destruct (cl_granted c); [done|exact Hend]).
    destruct (Hst (put_claim i (answers (cl_granted c && negb (revoked_turn t s))) s)). apply (cb_caller _ s i). unfold wake_caller. rewrite Ht. cbn. rewrite Hc. cbn. by rewrite Hw, Hga.
  - intros Hl. destruct (current s) as [r|] eqn:Hr; [|done]. destruct (lookup_lt_is_Some_2 _ _ (rm_current _ _ HR r Hr)) as [x Hx]. destruct (HG Hl r x Hr Hx) as (i & t & c & Ht & Hc & Hrel); [by apply (stuck_rooms s r x)|].
    destruct (stuck_claims s i t c H Hst Ht Hc) as (_ & _ & E). congruence.
Qed.

(** C20. Once every message admitted to a session was handed over or dropped - which the
    retirement of its engine does - the callbacks that are left run a bounded number of
    times in whatever order, and when none is left nothing of the admission remains: no
    delivery, no entry, no call on a queue, no claim on the room, no caller that waits
    for one, and no room once the session has no engine. *)
Theorem a_retired_session_drains s :
  admitted conc window_ms lids s -> live s = None \/ decided s ->
  (forall n s', nsteps (callback conc) n s s' -> n <= work s) /\
  (forall s', rtc (callback conc) s s' -> (forall s'', ~ callback conc s' s'') -> drained s').
Proof.
  intros H%admitted_reached Hd. assert (decided s) as Hd' by (destruct Hd as [Hl|Hd]; [by apply retired_decided|done]). clear Hd. split.
  - intros n. revert s H Hd'. induction n as [|n IH]; intros s H Hd s' Hn; [lia|]. inversion Hn as [|? ? s1 ? Hs1 Hrest]; subst.
    pose proof (callback_work s s1 H Hs1). pose proof (IH s1 (admitted_callback conc s s1 Hs1 H) (decided_callback s s1 Hs1 Hd) s' Hrest). lia.
  - intros s' Hr. assert (AdmitOk conc s' /\ decided s') as [H1 H2].
    { refine (rtc_invariant (callback conc) (fun s => AdmitOk conc s /\ decided s) _ _ _ Hr (conj H Hd')). intros a b Hab [Ha Hda]. split; [by eapply admitted_callback|by eapply decided_callback]. }
    by apply stuck_drained.
Qed.
End drain.

(** ** The demonstration session, retired *)

Definition demo_retired : Session := retire 1 0 None demo_second.

Lemma demo_retired_admitted : admitted 1 1000 false demo_retired.
Proof.
  destruct demo_second_admitted as [t Ht]. exists t. eapply rtc_r; [exact Ht|]. right. apply ev_retire; [vm_compute; reflexivity|done].
Qed.

Lemma a_retired_session_drains_witness :
  live demo_retired = None /\ current demo_retired = Some 0 /\
  (forall n s', nsteps (callback 1) n demo_retired s' -> n <= work demo_retired) /\
  (forall s', rtc (callback 1) demo_retired s' -> (forall s'', ~ callback 1 s' s'') -> drained s').
Proof.
  split; [vm_compute; reflexivity|]. split; [vm_compute; reflexivity|].
  apply (a_retired_session_drains 1 1000 false demo_retired demo_retired_admitted). left. vm_compute. reflexivity.
Defined.
